(* ===== verification/_CoqProject ===== *)
-Q . S2P
Prelude.v
Bytes.v
SchemaCanonical.v
Layout.v
LayoutFacts.v
Value.v
Verifier.v
VerifierFacts.v
BufferTypes.v
IndexFacts.v
Reader.v
ReaderFacts.v
VerifiedRead.v
InplaceReturn.v
InplaceFacts.v
Relocation.v
Builder.v
Marshal.v
Encoding.v
DecodeFacts.v
RelocFacts.v
Rebase.v
Canon.v
WriteFacts.v
CanonFacts.v
RoundTrip.v
TypedWriters.v
Acceptance.v
ObjectReturn.v
ListReturn.v
Chars.v
Glob.v
SmolStr.v
UnicodeTables.v
UnicodeSearch.v
CaseFold.v
CaseFoldFacts.v
Normalization.v
Lexer.v
LexerFacts.v
NumberLit.v
Arith.v
Capability.v
Context.v
Modules.v
Cst.v
CstParser.v
CstFacts.v
CstSound.v
CstPrecedence.v
Operators.v
ConstFold.v
ConcatChain.v
Native.v
StdSort.v
StdLists.v
StdMath.v
StdStrings.v
StdDicts.v
StdValidate.v
StdStringFacts.v
StdDictFacts.v
StdFacts.v
StdTypes.v
StdBudget.v
Ir.v
IrStdlib.v
IrFacts.v
IrRecords.v
IrLists.v
IrStrings.v
IrMath.v
IrText.v
Lowering.v
Meaning.v
LoweringFacts.v
ConstPool.v
LoweringSound.v
CacheFiles.v
CacheChain.v
