(* ===== verification/Prelude.v ===== *)
(** * Relon: a verified model of its binary ABI, front end, evaluator core and compiler

    Relon is an expression language with a tree-walking evaluator and several
    compiling back ends.  This development models eight parts of it.

    - The binary boundary, the crate [src/crates/relon-abi]: host and compiled
      code exchange data through byte buffers.  A canonical schema is laid out
      as a fixed record area with pointer slots into a tail area, the host
      writes arguments with a builder, compiled code leaves results in an arena
      of four regions, and the host verifies and decodes them.
    - Text: the lexer, the number literals and the error-tolerant parser of the
      concrete syntax tree of [src/crates/relon-parser], the
      small strings of [src/crates/relon-eval-api], and the Unicode tables, the
      glob matcher, the normal forms and the case folding of
      [src/crates/relon-unicode] and the evaluator's standard library.
    - Operator expressions: their evaluation in [src/crates/relon-evaluator],
      with the numeric operators and the fast path for string concatenation, and
      their constant folding in [src/crates/relon-analyzer].
    - The standard library of [src/crates/relon-evaluator]: the native functions
      on lists, numbers, strings, dictionaries and iterators, sorting, and the
      validators.
    - The compiler: the intermediate representation of [src/crates/relon-ir],
      the library bodies written in it, the lowering of operator expressions,
      and the code and constant pool that [src/crates/relon-codegen-cranelift]
      emits for them.
    - The compilation cache of [src/crates/relon-object-cache] and
      [relon-codegen-cranelift]: the files that hold a compiled object, its
      intermediate representation and its schemas, the key that signs them, and
      the constructors that write them and run what they hold.
    - The sandbox: the capabilities of [src/crates/relon-cap], the gate every
      host function call passes, and the step budget.
    - The shared evaluation context: the protocol that serialises top-level
      runs, iterator cursors, module loading.

    The lexer feeds the number decoder and the parser; small strings carry the
    results of case folding; the budget and the capability set live in the
    context that module loading and the evaluator share; the library functions
    call back into the evaluator, which charges the budget; values cross the
    binary boundary through the marshaller, and compiled code works on the
    records that the marshaller writes, so the theorems on compiled code use
    the encoding relation of the boundary.

    ** Files

    Vocabulary.
    - [Prelude] (this file): the error monad [outcome], loops, checked machine
      arithmetic, byte slices, little-endian codecs, and the tactics and hint
      databases shared by all files.  [Bytes] has the lemmas on slices, patches
      and codecs.

    Binary boundary: the model, one file per source component.
    - [SchemaCanonical]: [TypeRepr], [Field], [EnumVariant], [Schema] of
      [schema_canonical.rs] with their lookups and derived equality.  The types
      of default expressions and generic parameters are not interpreted by the
      ABI: they are the class [HostTypes].
    - [Layout]: [SchemaLayout::offsets_for] of [layout.rs] and every helper.
    - [Value]: the [Value] type of [relon-eval-api/src/value.rs], UTF-8
      validation, [i64 as f64], ordered maps.
    - [Verifier]: [verifier.rs], regions, bounds and the recursive walk.
    - [BufferTypes], [Reader]: the shared helpers and [BufferReader] of
      [buffer.rs]: the recursive value readers and all typed readers.
    - [Relocation]: [RelocLayout], [relocate_pointers] and its two companions,
      and the alignment functions.
    - [Builder], [Marshal]: [BufferBuilder], [ListRecordWriter], the typed
      writers, pasting, finishing, and the recursive [write_value] marshaller
      with the nested-list entry points.
    - [InplaceReturn]: [inplace_return.rs], the sentinel, the arena regions and
      the two return pipelines.

    Binary boundary: the proofs.
    - [LayoutFacts]: layout is total; its tables are aligned, ordered, disjoint
      and padded; it succeeds exactly on the schemas that can be laid out.
    - [VerifierFacts]: the verifier is total and reads only its regions.
    - [IndexFacts], [ReaderFacts], [InplaceFacts]: the field index agrees with
      the layout; readers and return pipelines are total on arbitrary bytes.
    - [VerifiedRead]: a verified record decodes without any bounds error and
      its value depends only on the bytes of the verified regions.
    - [Encoding]: the encoding relation, a declarative account of when bytes at
      an offset represent a value of a type, with its frame and shift lemmas;
      [DecodeFacts]: the readers compute it.
    - [RelocFacts], [Rebase]: relocation is total on arbitrary bytes and carries
      an encoding at base 0 to one at the paste base.
    - [Canon]: the specification [canon] of marshalling, as a function from
      values to the value read back; [CanonFacts]: it is idempotent and stays
      within Rust values.
    - [WriteFacts]: every writer extends the buffer by an encoding of [canon],
      or reports a misfit or a size limit.
    - [RoundTrip], [TypedWriters]: the contract of the component.  A builder,
      through every call of its writing interface, refines a finite map from
      field names to values ([spec_write]); whole records round-trip at offset 0
      and at any aligned arena offset.
    - [Acceptance]: the verifier accepts every finished record.
    - [ObjectReturn]: the typed readers agree with the encoding, and marshalling
      followed by [decode_object_return] is the identity on canonical values of
      the schemas without tuple records in fields.
    - [ListReturn]: [decode_inplace_return] accepts and returns every list of
      the element types it serves that the arena encodes at the reported root.

    Text.
    - [Chars]: Unicode scalar values, UTF-8 coding, characters of a string.
    - [Glob]: [glob.rs]; the backtracking matcher decides the declarative
      matching relation; [[^]] accepts every code point, as in the code and
      against its documentation.
    - [SmolStr]: [smol_str.rs], a class for the representation and its
      invariant, on which the unchecked conversions rely.
    - [UnicodeTables], [UnicodeSearch]: the generated tables and the binary
      searches over them, which answer exactly membership; the encoders of the
      tables for compiled code.
    - [CaseFold], [CaseFoldFacts]: [ascii_fold_simd.rs] in both compilations
      and the fold engine of [stdlib.rs]; every fast path computes the reference
      walk over code points.  [char::to_uppercase] and [char::to_lowercase] are
      the class [CharCase], with their behaviour on ASCII as its law.
    - [Normalization]: [normalization.rs]; NFD and NFKD decide canonical and
      compatibility equivalence, NFC and NFKC do so where no mark stands before a
      starter that joins what precedes it, and not without that condition.
    - [Lexer], [LexerFacts]: [lex.rs] and [syntax.rs]; the tokens of every Rust
      string concatenate to it and each has the shape of its kind.
    - [NumberLit]: [decode_number_text] with the integer and float parsers it
      calls; every number the lexer scans decodes to the value of its digits.

    Syntax tree.
    - [Cst], [CstParser]: [cst.rs] and the directive shapes of [directive.rs], as
      programs of a state monad over the tokens ahead, the tree under
      construction, the errors and the depth counter.  The builder of the rowan
      library is the class [GreenNodeBuilder]; [GreenNodeBuilderOk] is what its
      documentation promises.
    - [CstFacts]: an instance of both, on which the parser runs; forward rules
      for running a program, what every primitive does to the tree and the
      tokens, and the tactics that run a production.  [CstSound]: the scans that
      take an f-string apart, and that every production returns, keeps the
      nesting of the tree and consumes what the loops around it need; hence the
      parser is total and the tree spells the source, for every builder.
    - [CstPrecedence]: the trees of operator sequences respect precedence and
      associativity, and what the depth guard, the recovery from [*] and the
      closure look-ahead miss.

    Operators and sandbox.
    - [Arith]: the numeric operators of [arithmetic.rs]; integer results are
      exact or an overflow error, comparisons are exact up to 2^53.  Floats are
      bit patterns, their operations those of the standard library's
      [SpecFloat].
    - [Operators]: the literal, binary, unary and ternary cases of
      [eval_internal], with [eval_binary], [eval_unary] and the concatenation
      fold.  What operators reach beyond scalars is the class [Evaluator].
    - [ConstFold]: [const_fold.rs]; folding agrees with evaluation.
      [ConcatChain]: without a step limit the concatenation fold returns what
      the plain walk returns.
    - [Capability]: [relon-cap/src/lib.rs], [capability.rs], the registration
      calls of [context.rs] and the dispatch check of [eval.rs].  The gate is a
      class, so that the theorems hold for a host's own policy.
    - [Context]: [begin_top_level_run], its guard, the resets of [eval_root],
      the step charges and the iterator cursors as an interleaved step relation
      over any number of threads; mutual exclusion, no lost wakeup, the budget
      and the iterator answers by rule induction, and progress of queued runs.
    - [Modules]: [load_module] and what it calls, with the loading table, the
      cache and the integrity pins; termination on cyclic import graphs when no
      body diverges by itself.

    Standard library.
    - [Native]: the argument bundle, the errors and the interface
      [NativeFnCaps] through which a function calls back into its evaluator,
      with an instance that keeps a step budget; argument checks, value equality
      and merging.
    - [StdSort], [StdLists], [StdMath], [StdStrings], [StdDicts],
      [StdValidate]: the functions of [relon-evaluator/src/stdlib.rs] and
      [iter_protocol.rs], for every instance of the interface.  [StdSort] also
      proves the merge sort stable and ordered.
    - [StdStringFacts], [StdDictFacts], [StdFacts]: what the functions compute.
      [StdTypes]: the table of functions with their result types, and that on
      well-formed arguments they return a value of their type or an error, and
      one call panics, [multiple_of] of the least integer and minus one.
      [StdBudget]: which functions of the table pay for their loops from the
      step budget and how much; the others charge nothing.

    Compiled code.
    - [Ir]: the ops of [relon-ir/src/ir.rs], interpreted as the instructions the
      Cranelift back end emits for them: an operand stack, let slots, and an
      arena of bytes.  Out-of-bounds accesses that pass the emitted check are a
      result of their own ([Fault]).  What the code is linked with, the constant
      pool and the helper that prints doubles, is the class [Image].
    - [IrStdlib]: the library bodies of [relon-ir/src/stdlib], op by op.
    - [IrFacts], [IrRecords]: symbolic execution of bodies and loops, and the
      correspondence of values, words and arena records.
    - [IrLists], [IrStrings], [IrMath]: the bodies compute what the evaluator's
      functions compute, where they do; what the bounds checks decide.
    - [IrText]: the ops that make strings (concatenation, decimal numbers).
    - [Lowering]: [lower_expr] of [lowering/mod.rs] on operator expressions with
      [expr_ops.rs] and [intern.rs].  [Meaning]: a meaning for the expressions
      the compiler accepts, which the evaluator computes.  [LoweringFacts]: code
      that computes a value, and how pieces of it compose.  [ConstPool]: the
      constant pool holds every string constant of the code as a record.
    - [LoweringSound]: if an operator expression compiles, its code leaves the
      evaluator's value on the stack, or traps where the evaluator reports the
      corresponding error.  The other kinds of expression enter by
      the contract [others_sound], and what their code keeps in the frame by the
      class [Surroundings].

    Compilation cache.
    - [CacheFiles]: the formats of the object blob, the IR blob and the schema
      sidecar ([storage.rs], [cache.rs], [schema_cache.rs]), the content key and
      the tags; parsing is total, the formats round-trip, and the signed inputs
      are injective.  SHA-256 and HMAC are the class [Digests], bincode and JSON
      instances of the class [Codec].
    - [CacheChain]: the key store, [store] and [load], and the constructors of
      [evaluator.rs] over a world of files, faults, clock and random numbers; a
      crash is a run of faults to the end.  The process environment is the class
      [Environment]; the front end, the object emitter, the linker, the loader
      and the JIT are the class [Toolchain], whose members may panic.  A cached object that runs was
      compiled from the source at hand, for [unforged] files and
      [collision_free] digests; no fault leaves a torn file; what was written is
      found again; a lookup returns, reports or loads only what carries the tags
      of the key, and a panic comes from the tools, never from the files.

    ** Conventions

    A Rust [Result] is [Ok] or [Err] of [outcome]; its third case [Abort] is a
    panic: an index out of range, an overflow of a plain operator, an
    [unreachable!], or exhausted fuel.  A theorem that a call is not [Abort]
    therefore states memory safety, absence of overflow and termination at once.
    [usize] is 64 bits; a slice is at most [isize::MAX] bytes ([is_slice]);
    integers are [Z] with every checked, saturating or truncating operation
    written out; [f64] values are their bit patterns.

    Recursive functions of the source that are not structural in one argument
    take a fuel.  The entry points choose it from the size [tsize] of the type
    ([layout_fuel], [verify_fuel], [read_fuel], [write_fuel], [reloc_fuel],
    [object_fuel]) as a small multiple of it, because each level of a type is
    crossed by a bounded number of calls; the totality theorems show that the
    fuel is always enough, so it never influences a result.  The lexer's loops
    take one more than the length of the source, which every iteration shortens;
    the glob matcher a product of both lengths, the number of its states; a
    binary search the length of its table; a module load one more than the number
    of modules not already loading; a merge loop of the sort one more than the
    length it merges.  The interpreter of the intermediate representation takes a
    fuel for the nesting of blocks and the iterations of loops; the theorems on
    compiled code give a bound above which every fuel returns the stated result
    (for a loop one more than its iterations, for strings a constant plus their
    lengths).  A decimal number has at most [DIGITS] = 20 digits, enough for the
    magnitude of every [i64].

    The round-trip theorems assume a [writable] schema: it can be laid out, is
    of realistic width ([small_type]), has distinct field names per record and
    distinct tags and names per enum, and has no list type of which relocation
    loses inner pointers ([relocatable]).  Values must be Rust values
    ([value_ok]).

    ** Not modelled

    [schema_lower.rs] and the serialisation of schemas, since they need the
    analyzer; the simple case-folding tables that a build script generates; the
    typed view of the syntax tree and the lowering to the AST; name resolution and type
    checking in the analyzer; node dispatch, schemas and references of the
    evaluator, and the library functions written in Relon; in the compiler, the
    lowering of entry points, records, closures, calls and matches, the peephole
    optimiser, the library bodies not listed in [IrStdlib], the LLVM back end,
    the linker and the loader of cached objects; the formatter, language server and command
    line.  The [regex] and [serde_json] libraries, [powf] and the text of a
    double are parameters.  Closures,
    native handles and similar values appear in [Value] only by the type name the
    ABI reports.  Allocation failure and the contents of error messages built for
    humans are not modelled beyond the values the code branches on.  In
    [Modules] the evaluation of a body is any computation that may load modules
    or diverge, and the digest is a parameter.  In [Ir] the compiled closures
    are a parameter: a closure returns a value and a machine, also when one of
    its ops trapped and the code was recorded, or its table entry is null. *)

(** ** Shared vocabulary *)

From Stdlib Require Import ZArith Lia Bool.
From coqutil Require Import Byte Word.LittleEndianList.
From stdpp Require Import base list strings.

Local Open Scope Z_scope.


Declare Scope abi_scope.
Delimit Scope abi_scope with abi.
Local Open Scope abi_scope.

Create HintDb abi discriminated.
Create Rewrite HintDb abi_simpl.

(** ** Outcomes

    A Rust call returns [Ok], returns [Err], or aborts: a slice index out of
    range, an overflowing plain [+] under overflow checks, or a recursion that
    never bottoms out.  [Abort] is the last case, so a theorem that a call does
    not abort is both a memory-safety and a termination statement. *)

Inductive outcome (E A : Type) : Type :=
| Ok (a : A)
| Err (e : E)
| Abort.
Arguments Ok {E A} a.
Arguments Err {E A} e.
Arguments Abort {E A}.

Definition bind {E A B} (m : outcome E A) (k : A -> outcome E B) : outcome E B :=
  match m with
  | Ok a => k a
  | Err e => Err e
  | Abort => Abort
  end.

Notation "'let*' x ':=' m 'in' k" := (bind m (fun x => k))
  (at level 10, x pattern, m at level 100, k at level 200,
   format "'[v' 'let*'  x  ':='  m  'in' '/' k ']'") : abi_scope.

(** [opt.ok_or(e)?] *)
Definition ok_or {E A} (o : option A) (e : E) : outcome E A :=
  match o with
  | Some a => Ok a
  | None => Err e
  end.

(** [result.map_err(f)] *)
Definition map_err {E F A} (f : E -> F) (m : outcome E A) : outcome F A :=
  match m with
  | Ok a => Ok a
  | Err e => Err (f e)
  | Abort => Abort
  end.

(** [result.map(f)] *)
Definition map_ok {E A B} (f : A -> B) (m : outcome E A) : outcome E B :=
  let* a := m in Ok (f a).

(** [result.ok()] *)
Definition ok {E A} (m : outcome E A) : option A :=
  match m with
  | Ok a => Some a
  | _ => None
  end.

(** [if cond { return Err(e) }] *)
Definition guard {E} (c : bool) (e : E) : outcome E unit :=
  if c then Ok tt else Err e.

Fixpoint foldM {E S A} (f : S -> A -> outcome E S) (s : S) (l : list A) : outcome E S :=
  match l with
  | [] => Ok s
  | x :: l' => let* s' := f s x in foldM f s' l'
  end.

Fixpoint mapM {E A B} (f : A -> outcome E B) (l : list A) : outcome E (list B) :=
  match l with
  | [] => Ok []
  | x :: l' => let* y := f x in let* ys := mapM f l' in Ok (y :: ys)
  end.

(** [for i in i..i+n { .. }] collecting one result per iteration. *)
Fixpoint loop {E B} (f : Z -> outcome E B) (i : Z) (n : nat) : outcome E (list B) :=
  match n with
  | O => Ok []
  | S n' => let* y := f i in let* ys := loop f (i + 1) n' in Ok (y :: ys)
  end.

(** [for i in i..i+n { state = f(i, state)?; }] *)
Fixpoint iterM {E S} (f : Z -> S -> outcome E S) (i : Z) (n : nat) (s : S) : outcome E S :=
  match n with
  | O => Ok s
  | S n' => let* s' := f i s in iterM f (i + 1) n' s'
  end.

Definition aborts {E A} (m : outcome E A) : Prop := m = Abort.
Definition is_ok {E A} (m : outcome E A) : Prop := exists a, m = Ok a.

(** ** Machine-width integers *)

Definition U32_MAX : Z := 2 ^ 32 - 1.
Definition USIZE_MAX : Z := 2 ^ 64 - 1.
(** Longest [Vec]/slice the Rust allocator hands out. *)
Definition ISIZE_MAX : Z := 2 ^ 63 - 1.

Definition checked_add (a b : Z) : option Z :=
  if a + b <=? USIZE_MAX then Some (a + b) else None.

Definition checked_mul (a b : Z) : option Z :=
  if a * b <=? USIZE_MAX then Some (a * b) else None.

(** [usize::checked_next_multiple_of]: [None] for a zero divisor. *)
Definition checked_next_multiple_of (a k : Z) : option Z :=
  if k =? 0 then None
  else let r := a mod k in
       if r =? 0 then Some a else checked_add a (k - r).

(** Plain [a + b] on [usize]: overflow aborts. *)
Definition usize_add {E} (a b : Z) : outcome E Z :=
  match checked_add a b with
  | Some r => Ok r
  | None => Abort
  end.

(** [u32::checked_add] and [u32::try_from]. *)
Definition u32_checked_add (a b : Z) : option Z :=
  if a + b <=? U32_MAX then Some (a + b) else None.

Definition u32_try_from (a : Z) : option Z :=
  if a <=? U32_MAX then Some a else None.

(** ** Byte buffers *)

Abbreviation bytes := (list Init.Byte.byte).

Definition blen {A} (b : list A) : Z := Z.of_nat (length b).

(** [&b[off..off + len]] *)
Definition slice {E} (b : bytes) (off len : Z) : outcome E bytes :=
  if (0 <=? off) && (0 <=? len) && (off + len <=? blen b)
  then Ok (take (Z.to_nat len) (drop (Z.to_nat off) b))
  else Abort.

(** [b[off]] *)
Definition index {E} (b : bytes) (off : Z) : outcome E Z :=
  if 0 <=? off
  then match b !! Z.to_nat off with
       | Some x => Ok (byte.unsigned x)
       | None => Abort
       end
  else Abort.

(** [b[off..off + src.len()].copy_from_slice(src)] *)
Definition patch {E} (b : bytes) (off : Z) (src : bytes) : outcome E bytes :=
  if (0 <=? off) && (off + blen src <=? blen b)
  then Ok (take (Z.to_nat off) b ++ src ++ drop (Z.to_nat off + length src) b)
  else Abort.

Definition zeros (n : Z) : bytes := replicate (Z.to_nat n) Byte.x00.

(** [Vec::resize(n, 0)] *)
Definition vec_resize (b : bytes) (n : Z) : bytes :=
  if n <=? blen b then take (Z.to_nat n) b else b ++ zeros (n - blen b).

(** [x.to_le_bytes()] and [from_le_bytes] at 32 and 64 bits. *)
Definition u32_to_le (v : Z) : bytes := le_split 4 v.
Definition u32_from_le (s : bytes) : Z := le_combine s.
Definition u64_to_le (v : Z) : bytes := le_split 8 v.
Definition u64_from_le (s : bytes) : Z := le_combine s.

Definition to_signed64 (u : Z) : Z := if u <? 2 ^ 63 then u else u - 2 ^ 64.
Definition i64_to_le (v : Z) : bytes := le_split 8 v.
Definition i64_from_le (s : bytes) : Z := to_signed64 (le_combine s).

Definition is_i64 (v : Z) : Prop := - 2 ^ 63 <= v < 2 ^ 63.
Definition is_u32 (v : Z) : Prop := 0 <= v <= U32_MAX.

(** [u8::from(bool)]. *)
Definition byte_of_bool (b : bool) : Init.Byte.byte := if b then Byte.x01 else Byte.x00.

(** A [u8] pushed on a [Vec<u8>]. *)
Definition byte_of_u8 (v : Z) : Init.Byte.byte := byte.of_Z v.

(** ** Lemmas on outcomes *)

Section OutcomeLemmas.
Context {E : Type}.

Lemma bind_ok {A B} (m : outcome E A) (k : A -> outcome E B) r :
  bind m k = Ok r <-> exists a, m = Ok a /\ k a = Ok r.
Proof. destruct m; simpl; naive_solver. Qed.

Lemma bind_abort {A B} (m : outcome E A) (k : A -> outcome E B) :
  bind m k = Abort <-> m = Abort \/ exists a, m = Ok a /\ k a = Abort.
Proof. destruct m; simpl; naive_solver. Qed.

Lemma bind_not_abort {A B} (m : outcome E A) (k : A -> outcome E B) :
  m <> Abort -> (forall a, m = Ok a -> k a <> Abort) -> bind m k <> Abort.
Proof. destruct m; simpl; naive_solver. Qed.

Lemma ok_or_ok {A} (o : option A) (e : E) a : ok_or o e = Ok a <-> o = Some a.
Proof. destruct o; simpl; naive_solver. Qed.

Lemma ok_or_not_abort {A} (o : option A) (e : E) : ok_or o e <> Abort.
Proof. by destruct o. Qed.

Lemma guard_ok c (e : E) u : guard c e = Ok u <-> c = true.
Proof. destruct c, u; simpl; naive_solver. Qed.

Lemma guard_not_abort c (e : E) : guard c e <> Abort.
Proof. by destruct c. Qed.

Lemma map_err_ok {F A} (f : E -> F) (m : outcome E A) a :
  map_err f m = Ok a <-> m = Ok a.
Proof. destruct m; simpl; naive_solver. Qed.

Lemma map_err_abort {F A} (f : E -> F) (m : outcome E A) :
  map_err f m = Abort <-> m = Abort.
Proof. destruct m; simpl; naive_solver. Qed.

Lemma map_ok_ok {A B} (f : A -> B) (m : outcome E A) b :
  map_ok f m = Ok b <-> exists a, m = Ok a /\ b = f a.
Proof. destruct m; simpl; naive_solver. Qed.

Lemma map_ok_abort {A B} (f : A -> B) (m : outcome E A) :
  map_ok f m = Abort <-> m = Abort.
Proof. destruct m; simpl; naive_solver. Qed.

Lemma foldM_not_abort {S A} (P : S -> Prop) (f : S -> A -> outcome E S) l s :
  P s ->
  (forall s x, P s -> x ∈ l -> f s x <> Abort /\ forall s', f s x = Ok s' -> P s') ->
  foldM f s l <> Abort.
Proof.
  revert s. induction l as [|x l IH]; intros s Hs Hf; simpl; [done|].
  destruct (Hf s x Hs) as [Hna Hok]; [left|].
  destruct (f s x) eqn:Hfx; simpl; [|done|done].
  apply IH; [by apply Hok|]. intros s' y Hs' Hy. apply Hf; [done|by right].
Qed.

Lemma foldM_inv {S A} (P : S -> Prop) (f : S -> A -> outcome E S) l s s' :
  P s -> (forall s x s', P s -> x ∈ l -> f s x = Ok s' -> P s') ->
  foldM f s l = Ok s' -> P s'.
Proof.
  revert s. induction l as [|x l IH]; intros s Hs Hf; simpl; [naive_solver|].
  rewrite bind_ok. intros (s1 & Hs1 & Hrest).
  eapply IH; [| |exact Hrest].
  - eapply Hf; [exact Hs|left|done].
  - intros s2 y s3 H2 Hy. apply Hf; [done|by right].
Qed.

Lemma mapM_not_abort {A B} (f : A -> outcome E B) l :
  (forall x, x ∈ l -> f x <> Abort) -> mapM f l <> Abort.
Proof.
  induction l as [|x l IH]; intros Hf; simpl; [done|].
  apply bind_not_abort; [apply Hf; left|].
  intros y _. apply bind_not_abort; [|done].
  apply IH. intros z Hz. apply Hf. by right.
Qed.

Lemma mapM_Forall2 {A B} (f : A -> outcome E B) l r :
  mapM f l = Ok r <-> Forall2 (fun x y => f x = Ok y) l r.
Proof.
  revert r. induction l as [|x l IH]; intros r; simpl.
  - split; [intros [= <-]; constructor | by inversion 1].
  - rewrite bind_ok. split.
    + intros (y & Hy & Hr). apply bind_ok in Hr as (ys & Hys & [= <-]).
      constructor; [done|]. by apply IH.
    + inversion 1; subst. eexists; split; [done|].
      apply bind_ok. eexists; split; [by apply IH|done].
Qed.

Lemma loop_not_abort {B} (f : Z -> outcome E B) n i :
  (forall j, i <= j < i + Z.of_nat n -> f j <> Abort) -> loop f i n <> Abort.
Proof.
  revert i. induction n as [|n IH]; intros i Hf; simpl; [done|].
  apply bind_not_abort; [apply Hf; lia|].
  intros y _. apply bind_not_abort; [|done].
  apply IH. intros j Hj. apply Hf. lia.
Qed.

Lemma loop_ext {B} (f g : Z -> outcome E B) n i :
  (forall j, i <= j < i + Z.of_nat n -> f j = g j) -> loop f i n = loop g i n.
Proof.
  revert i. induction n as [|n IH]; intros i Hf; simpl; [done|].
  rewrite (Hf i) by lia. destruct (g i); simpl; [|done|done].
  rewrite (IH (i + 1)); [done|]. intros j Hj. apply Hf. lia.
Qed.

Lemma loop_ok {B} (f : Z -> outcome E B) n i r :
  loop f i n = Ok r <->
  length r = n /\ forall k y, r !! k = Some y -> f (i + Z.of_nat k) = Ok y.
Proof.
  revert i r. induction n as [|n IH]; intros i r; simpl.
  - split; [intros [= <-]; split; [done|by intros ? ?]|].
    intros [Hl _]. by destruct r.
  - rewrite bind_ok. split.
    + intros (y & Hy & Hr). apply bind_ok in Hr as (ys & Hys & [= <-]).
      apply IH in Hys as [Hl Hk]. split; [simpl; lia|].
      intros [|k] z; simpl; [intros [= <-]; by rewrite Z.add_0_r|].
      intros Hz. rewrite <-(Hk k z Hz). f_equal. lia.
    + intros [Hl Hk]. destruct r as [|y ys]; [done|]. exists y. split.
      * rewrite <-(Hk 0%nat y); [f_equal; lia|done].
      * apply bind_ok. exists ys. split; [|done]. apply IH. split; [simpl in Hl; lia|].
        intros k z Hz. rewrite <-(Hk (S k) z); [f_equal; lia|done].
Qed.

Lemma iterM_not_abort {S} (P : S -> Prop) (f : Z -> S -> outcome E S) n : forall i s,
  P s ->
  (forall j s, i <= j -> P s -> f j s <> Abort /\ forall s', f j s = Ok s' -> P s') ->
  iterM f i n s <> Abort.
Proof.
  induction n as [|n IH]; intros i s Hs Hf; simpl; [done|].
  destruct (Hf i s) as [Hna Hok]; [lia|done|]. apply bind_not_abort; [done|].
  intros s' Hs'. apply IH; [by apply Hok|]. intros j s2 Hj. apply Hf. lia.
Qed.

Lemma iterM_inv {S} (P : S -> Prop) (f : Z -> S -> outcome E S) n : forall i s s',
  P s -> (forall j s s', i <= j -> P s -> f j s = Ok s' -> P s') ->
  iterM f i n s = Ok s' -> P s'.
Proof.
  induction n as [|n IH]; intros i s s' Hs Hf; simpl; [naive_solver|].
  rewrite bind_ok. intros (s1 & H1 & Hrest). eapply (IH (i + 1) s1); [| |done].
  - by eapply (Hf i s).
  - intros j s2 s3 Hj. apply Hf. lia.
Qed.

Lemma is_ok_bind {A B} (m : outcome E A) (k : A -> outcome E B) :
  is_ok m -> (forall a, m = Ok a -> is_ok (k a)) -> is_ok (bind m k).
Proof. intros [a Ha] Hk. rewrite Ha. by apply Hk. Qed.

Lemma is_ok_ret {A} (a : A) : @is_ok E A (Ok a).
Proof. by eexists. Qed.

Lemma mapM_is_ok {A B} (f : A -> outcome E B) l :
  (forall x, x ∈ l -> is_ok (f x)) -> is_ok (mapM f l).
Proof.
  induction l as [|x l IH]; intros Hf; simpl; [apply is_ok_ret|].
  apply is_ok_bind; [apply Hf; left|]. intros y _.
  apply is_ok_bind; [apply IH; intros z Hz; apply Hf; by right|]. intros; apply is_ok_ret.
Qed.

Lemma foldM_is_ok {S A} (f : S -> A -> outcome E S) l s :
  (forall s x, x ∈ l -> is_ok (f s x)) -> is_ok (foldM f s l).
Proof.
  revert s. induction l as [|x l IH]; intros s Hf; simpl; [apply is_ok_ret|].
  apply is_ok_bind; [apply Hf; left|]. intros y _. apply IH. intros s' z Hz. apply Hf. by right.
Qed.
End OutcomeLemmas.
