(* ===== verification/Bytes.v ===== *)
(** Facts about byte buffers: slicing, indexing, in-place patching, appending,
    the little-endian codecs, and the checked [usize] arithmetic of the
    Prelude.  Every buffer-level component builds on these lemmas. *)

From S2P Require Import Prelude.
From Stdlib Require Import ZArith Lia Bool.
From coqutil Require Import Byte Word.LittleEndianList.
From stdpp Require Import base list strings.
Local Open Scope Z_scope.
Local Open Scope abi_scope.

(** ** Tactics *)

(** Turns the boolean tests of the code into arithmetic facts. *)
Ltac zb :=
  repeat match goal with
  | H : _ && _ = true |- _ => apply andb_true_iff in H as [? ?]
  | H : _ && _ = false |- _ => apply andb_false_iff in H
  | H : _ || _ = true |- _ => apply orb_true_iff in H
  | H : _ || _ = false |- _ => apply orb_false_iff in H as [? ?]
  | H : negb _ = true |- _ => apply negb_true_iff in H
  | H : negb _ = false |- _ => apply negb_false_iff in H
  | H : (_ <=? _) = true |- _ => apply Z.leb_le in H
  | H : (_ <=? _) = false |- _ => apply Z.leb_gt in H
  | H : (_ <? _) = true |- _ => apply Z.ltb_lt in H
  | H : (_ <? _) = false |- _ => apply Z.ltb_ge in H
  | H : (_ >? _) = true |- _ => rewrite Z.gtb_ltb in H
  | H : (_ >? _) = false |- _ => rewrite Z.gtb_ltb in H
  | H : (_ >=? _) = true |- _ => rewrite Z.geb_leb in H
  | H : (_ >=? _) = false |- _ => rewrite Z.geb_leb in H
  | H : (_ =? _) = true |- _ => apply Z.eqb_eq in H
  | H : (_ =? _) = false |- _ => apply Z.eqb_neq in H
  end.

(** Splits a successful monadic computation into its successful steps. *)
Ltac inv_ok H :=
  lazymatch type of H with
  | bind _ _ = Ok _ =>
      let a := fresh "a" in let H1 := fresh H in
      apply bind_ok in H as (a & H1 & H); inv_ok H1; inv_ok H
  | ok_or _ _ = Ok _ => apply ok_or_ok in H
  | guard _ _ = Ok _ => apply guard_ok in H
  | map_err _ _ = Ok _ => apply map_err_ok in H; inv_ok H
  | map_ok _ _ = Ok _ =>
      let a := fresh "a" in let H1 := fresh H in
      apply map_ok_ok in H as (a & H1 & H); inv_ok H1
  | Ok _ = Ok _ => injection H as H; try subst
  | Err _ = Ok _ => discriminate H
  | Abort = Ok _ => discriminate H
  | _ => idtac
  end.

#[export] Hint Resolve ok_or_not_abort guard_not_abort : abi.

(** Discharges the first step of a monadic computation that must not abort. *)
Ltac na_bind := apply bind_not_abort; [solve [auto with abi]|].

(** ** Checked arithmetic *)

Lemma checked_add_Some a b r :
  checked_add a b = Some r <-> r = a + b /\ a + b <= USIZE_MAX.
Proof. unfold checked_add. destruct (a + b <=? USIZE_MAX) eqn:?; zb; naive_solver lia. Qed.

Lemma checked_add_small a b : a + b <= USIZE_MAX -> checked_add a b = Some (a + b).
Proof. intros. by apply checked_add_Some. Qed.

Lemma checked_mul_Some a b r :
  checked_mul a b = Some r <-> r = a * b /\ a * b <= USIZE_MAX.
Proof. unfold checked_mul. destruct (a * b <=? USIZE_MAX) eqn:?; zb; naive_solver lia. Qed.

Lemma usize_add_ok {E} a b r :
  @usize_add E a b = Ok r <-> r = a + b /\ a + b <= USIZE_MAX.
Proof.
  unfold usize_add. destruct (checked_add a b) eqn:H.
  - apply checked_add_Some in H as [-> ?]. naive_solver.
  - unfold checked_add in H. destruct (a + b <=? USIZE_MAX) eqn:?; [done|]. zb.
    naive_solver lia.
Qed.

Lemma usize_add_small {E} a b : a + b <= USIZE_MAX -> @usize_add E a b = Ok (a + b).
Proof. intros. by apply usize_add_ok. Qed.

(** The padding computation: the least multiple of [k] at or above [a]. *)
Lemma checked_next_multiple_of_Some a k r :
  0 <= a -> 0 < k -> checked_next_multiple_of a k = Some r ->
  a <= r < a + k /\ r mod k = 0.
Proof.
  intros Ha Hk. unfold checked_next_multiple_of.
  destruct (k =? 0) eqn:?; zb; [lia|].
  pose proof (Z.mod_pos_bound a k Hk). destruct (a mod k =? 0) eqn:?; zb.
  - intros [= <-]. lia.
  - intros [-> ?]%checked_add_Some. split; [lia|].
    replace (a + (k - a mod k)) with (a - a mod k + 1 * k) by lia.
    rewrite Z.mod_add, Zminus_mod_idemp_r, Z.sub_diag by lia. by apply Z.mod_0_l; lia.
Qed.

Lemma checked_next_multiple_of_None a k :
  0 <= a -> 0 < k -> checked_next_multiple_of a k = None -> USIZE_MAX < a + k - a mod k.
Proof.
  intros Ha Hk. unfold checked_next_multiple_of, checked_add.
  destruct (k =? 0) eqn:?; zb; [lia|].
  destruct (a mod k =? 0) eqn:?; [done|].
  destruct (a + (k - a mod k) <=? USIZE_MAX) eqn:?; [done|]. zb. lia.
Qed.

Lemma checked_next_multiple_of_small a k :
  0 <= a -> 0 < k -> a + k <= USIZE_MAX ->
  exists r, checked_next_multiple_of a k = Some r.
Proof.
  intros. destruct (checked_next_multiple_of a k) eqn:Hn; [by eauto|].
  apply checked_next_multiple_of_None in Hn; [|lia|lia].
  pose proof (Z.mod_pos_bound a k). lia.
Qed.

Lemma checked_next_multiple_of_id a k :
  0 < k -> a mod k = 0 -> checked_next_multiple_of a k = Some a.
Proof.
  intros Hk Hm. unfold checked_next_multiple_of.
  destruct (k =? 0) eqn:?; zb; [lia|]. by rewrite Hm.
Qed.

(** ** Lengths *)

Lemma blen_nonneg {A} (b : list A) : 0 <= blen b.
Proof. unfold blen. lia. Qed.
Lemma blen_app {A} (b c : list A) : blen (b ++ c) = blen b + blen c.
Proof. unfold blen. rewrite length_app. lia. Qed.
Lemma blen_nil {A} : blen (@nil A) = 0.
Proof. done. Qed.
Lemma blen_cons {A} (x : A) b : blen (x :: b) = 1 + blen b.
Proof. unfold blen. simpl length. lia. Qed.
Lemma blen_zeros n : 0 <= n -> blen (zeros n) = n.
Proof. intros. unfold blen, zeros. rewrite length_replicate. lia. Qed.
Lemma blen_u32 v : blen (u32_to_le v) = 4.
Proof. unfold blen, u32_to_le. by rewrite length_le_split. Qed.
Lemma blen_u64 v : blen (u64_to_le v) = 8.
Proof. unfold blen, u64_to_le. by rewrite length_le_split. Qed.
Lemma blen_i64 v : blen (i64_to_le v) = 8.
Proof. unfold blen, i64_to_le. by rewrite length_le_split. Qed.
#[export] Hint Rewrite @blen_app @blen_nil @blen_cons blen_u32 blen_u64 blen_i64 : abi_simpl.

(** ** Slices *)

Section Slices.
Context {E : Type}.

Lemma slice_ok b off len (r : bytes) :
  @slice E b off len = Ok r <->
  0 <= off /\ 0 <= len /\ off + len <= blen b /\
  r = take (Z.to_nat len) (drop (Z.to_nat off) b).
Proof.
  unfold slice. destruct (_ && _) eqn:Hc; zb; [naive_solver|].
  split; [done|]. intros (?&?&?&?). exfalso. destruct Hc as [[Hc|Hc]%andb_false_iff|Hc]; zb; lia.
Qed.

Lemma slice_not_abort b off len :
  0 <= off -> 0 <= len -> off + len <= blen b -> @slice E b off len <> Abort.
Proof.
  intros. destruct (slice b off len) eqn:Hs; [done|done|].
  assert (@slice E b off len = Ok (take (Z.to_nat len) (drop (Z.to_nat off) b)))
    by (by apply slice_ok). congruence.
Qed.

Lemma slice_in_range b off len :
  0 <= off -> 0 <= len -> off + len <= blen b ->
  exists r, @slice E b off len = Ok r /\ blen r = len.
Proof.
  intros. eexists. split; [by apply slice_ok|].
  unfold blen in *. rewrite length_take, length_drop. lia.
Qed.

Lemma slice_length b off len (r : bytes) : @slice E b off len = Ok r -> blen r = len.
Proof.
  intros (?&?&?&->)%slice_ok. unfold blen in *. rewrite length_take, length_drop. lia.
Qed.

Lemma slice_app_l b c off len (r : bytes) :
  @slice E b off len = Ok r -> @slice E (b ++ c) off len = Ok r.
Proof.
  intros (?&?&Hl&->)%slice_ok. apply slice_ok. rewrite blen_app.
  pose proof (blen_nonneg c). split_and!; try lia.
  unfold blen in *. rewrite drop_app_le by lia. rewrite take_app_le; [done|].
  rewrite length_drop. lia.
Qed.

Lemma slice_app_exact b c d : @slice E (b ++ c ++ d) (blen b) (blen c) = Ok c.
Proof.
  apply slice_ok. unfold blen. rewrite !length_app. split_and!; try lia.
  rewrite !Nat2Z.id, drop_app_length, take_app_length. done.
Qed.

Lemma slice_app_exact_nil b c : @slice E (b ++ c) (blen b) (blen c) = Ok c.
Proof. rewrite <-(app_nil_r c) at 1. apply slice_app_exact. Qed.

Lemma slice_app_r b c off len :
  0 <= off -> @slice E (b ++ c) (blen b + off) len = @slice E c off len.
Proof.
  intros. unfold slice. rewrite blen_app. pose proof (blen_nonneg b).
  replace (0 <=? blen b + off) with (0 <=? off) by (apply eq_true_iff_eq; rewrite !Z.leb_le; lia).
  replace (blen b + off + len <=? blen b + blen c) with (off + len <=? blen c)
    by (apply eq_true_iff_eq; rewrite !Z.leb_le; lia).
  destruct (_ && _) eqn:?; [|done]. zb. f_equal. f_equal.
  unfold blen. replace (Z.to_nat (Z.of_nat (length b) + off)) with (length b + Z.to_nat off)%nat by lia.
  by rewrite drop_app_add.
Qed.

Lemma slice_slice b off len o l (r s : bytes) :
  @slice E b off len = Ok r -> @slice E r o l = Ok s -> @slice E b (off + o) l = Ok s.
Proof.
  intros (?&?&?&->)%slice_ok (?&?&Hl&->)%slice_ok.
  unfold blen in *. rewrite length_take, length_drop in Hl.
  apply slice_ok. unfold blen. split_and!; try lia.
  rewrite skipn_firstn_comm, firstn_firstn, drop_drop. f_equal; [lia|]. f_equal. lia.
Qed.

(** ** Patching *)

Lemma patch_ok b off src (r : bytes) :
  @patch E b off src = Ok r <->
  0 <= off /\ off + blen src <= blen b /\
  r = take (Z.to_nat off) b ++ src ++ drop (Z.to_nat off + length src) b.
Proof.
  unfold patch. destruct (_ && _) eqn:Hc; zb; [naive_solver|].
  split; [done|]. intros (?&?&?). exfalso. destruct Hc as [Hc|Hc]; zb; lia.
Qed.

Lemma patch_not_abort b off src :
  0 <= off -> off + blen src <= blen b -> @patch E b off src <> Abort.
Proof. intros. unfold patch. destruct (_ && _) eqn:Hc; [done|]. zb. destruct Hc; zb; lia. Qed.

Lemma patch_in_range b off src :
  0 <= off -> off + blen src <= blen b -> exists r, @patch E b off src = Ok r.
Proof. intros. eexists. by apply patch_ok. Qed.

Lemma patch_length b off src (r : bytes) : @patch E b off src = Ok r -> blen r = blen b.
Proof.
  intros (?&?&->)%patch_ok. unfold blen in *.
  rewrite !length_app, length_take, length_drop. lia.
Qed.

Lemma slice_patch_same b off src (r : bytes) :
  @patch E b off src = Ok r -> @slice E r off (blen src) = Ok src.
Proof.
  intros (?&?&->)%patch_ok. unfold blen in *.
  apply slice_ok. unfold blen. rewrite !length_app, length_take, length_drop.
  split_and!; try lia.
  rewrite drop_app_length'; [|rewrite length_take; lia].
  rewrite Nat2Z.id. by rewrite take_app_length.
Qed.

Lemma patch_lookup_ne b off src (r : bytes) (i : nat) :
  @patch E b off src = Ok r -> (Z.of_nat i < off \/ off + blen src <= Z.of_nat i) ->
  r !! i = b !! i.
Proof.
  intros (?&?&->)%patch_ok Hd. unfold blen in *.
  destruct (decide (Z.of_nat i < off)) as [Hlt|Hge].
  - rewrite lookup_app_l by (rewrite length_take; lia). by rewrite lookup_take_lt by lia.
  - rewrite lookup_app_r by (rewrite length_take; lia). rewrite length_take.
    rewrite lookup_app_r by lia. rewrite lookup_drop. f_equal. lia.
Qed.
End Slices.

(** Two buffers of the same length whose bytes coincide on a span have the
    same slice there. *)
Lemma slice_agree_in {E} (b c : bytes) off len :
  off + len <= blen b -> off + len <= blen c ->
  (forall i : nat, off <= Z.of_nat i < off + len -> b !! i = c !! i) ->
  @slice E b off len = @slice E c off len.
Proof.
  intros Hb Hc Hi. unfold slice.
  rewrite (proj2 (Z.leb_le _ _) Hb), (proj2 (Z.leb_le _ _) Hc).
  destruct (_ && true) eqn:?; [|done]. zb. f_equal. apply list_eq. intros i.
  destruct (decide (i < Z.to_nat len)%nat).
  - rewrite !lookup_take_lt, !lookup_drop by done. apply Hi. lia.
  - rewrite !lookup_take_ge by lia. done.
Qed.

Lemma slice_agree {E} (b c : bytes) off len :
  blen b = blen c ->
  (forall i : nat, off <= Z.of_nat i < off + len -> b !! i = c !! i) ->
  @slice E b off len = @slice E c off len.
Proof.
  intros Hl Hi. destruct (decide (off + len <= blen b)) as [Hb|Hb].
  - apply slice_agree_in; [done|lia|done].
  - unfold slice. rewrite <-Hl, (proj2 (Z.leb_gt (off + len) (blen b))) by lia.
    by rewrite !andb_false_r.
Qed.

Lemma slice_patch_disjoint {E} b off src r o l :
  @patch E b off src = Ok r -> (o + l <= off \/ off + blen src <= o) ->
  @slice E r o l = @slice E b o l.
Proof.
  intros Hp Hd. apply slice_agree; [by eapply patch_length|].
  intros i Hi. eapply patch_lookup_ne; [exact Hp|]. lia.
Qed.

(** ** Single-byte reads *)

Lemma index_ok {E} b off x :
  @index E b off = Ok x <->
  0 <= off /\ exists y, b !! Z.to_nat off = Some y /\ x = byte.unsigned y.
Proof.
  unfold index. destruct (0 <=? off) eqn:?; zb; [|naive_solver lia].
  destruct (b !! Z.to_nat off) eqn:?; naive_solver.
Qed.

Lemma index_in_range {E} b off :
  0 <= off < blen b -> exists x, @index E b off = Ok x.
Proof.
  intros [? Hl]. destruct (lookup_lt_is_Some_2 b (Z.to_nat off)) as [y Hy]; [unfold blen in Hl; lia|].
  eexists. apply index_ok. eauto.
Qed.

Lemma index_not_abort {E} b off : 0 <= off < blen b -> @index E b off <> Abort.
Proof. intros H. destruct (@index_in_range E b off H) as [x Hx]. congruence. Qed.

Lemma index_bound {E} b off x : @index E b off = Ok x -> 0 <= x < 256.
Proof. intros (_ & y & _ & ->)%index_ok. apply byte.unsigned_range. Qed.

Lemma index_agree {E} (b c : bytes) off :
  (0 <= off -> b !! Z.to_nat off = c !! Z.to_nat off) -> @index E b off = @index E c off.
Proof. intros H. unfold index. destruct (0 <=? off) eqn:?; zb; [|done]. by rewrite H. Qed.

(** ** Growing *)

Lemma vec_resize_grow b n : blen b <= n -> vec_resize b n = b ++ zeros (n - blen b).
Proof.
  intros. unfold vec_resize. destruct (n <=? blen b) eqn:?; zb; [|done].
  assert (n = blen b) as -> by lia. rewrite Z.sub_diag. unfold zeros. simpl.
  rewrite app_nil_r. unfold blen. rewrite Nat2Z.id. by rewrite take_ge.
Qed.

Lemma blen_vec_resize b n : blen b <= n -> blen (vec_resize b n) = n.
Proof. intros. rewrite vec_resize_grow, blen_app, blen_zeros by lia. lia. Qed.

(** ** Little-endian codecs *)

Lemma u32_from_to v : is_u32 v -> u32_from_le (u32_to_le v) = v.
Proof.
  intros [? Hv]. unfold u32_from_le, u32_to_le. rewrite le_combine_split.
  apply Z.mod_small. change (2 ^ (Z.of_nat 4 * 8)) with (U32_MAX + 1). lia.
Qed.

Lemma u32_from_to_mod v : u32_from_le (u32_to_le v) = v mod 2 ^ 32.
Proof. apply le_combine_split. Qed.

Lemma u64_from_to v : 0 <= v < 2 ^ 64 -> u64_from_le (u64_to_le v) = v.
Proof.
  intros Hv. unfold u64_from_le, u64_to_le. rewrite le_combine_split. by apply Z.mod_small.
Qed.

Lemma i64_from_to v : is_i64 v -> i64_from_le (i64_to_le v) = v.
Proof.
  intros [Hl Hu]. unfold i64_from_le, i64_to_le, to_signed64. rewrite le_combine_split.
  change (2 ^ (Z.of_nat 8 * 8)) with (2 ^ 64).
  destruct (Z.neg_nonneg_cases v) as [Hn|Hn].
  - assert (v mod 2 ^ 64 = v + 2 ^ 64) as ->.
    { symmetry. apply Z.mod_unique_pos with (q := -1); lia. }
    destruct (_ <? _) eqn:?; zb; lia.
  - rewrite Z.mod_small by lia. destruct (_ <? _) eqn:?; zb; lia.
Qed.

Lemma u32_from_bound s : blen s = 4 -> is_u32 (u32_from_le s).
Proof.
  intros Hl. unfold u32_from_le, is_u32. pose proof (le_combine_bound s) as Hb.
  unfold blen in Hl. rewrite Hl in Hb. change (2 ^ (8 * 4)) with (U32_MAX + 1) in Hb. lia.
Qed.

Lemma i64_from_bound s : blen s = 8 -> is_i64 (i64_from_le s).
Proof.
  intros Hl. unfold i64_from_le, is_i64, to_signed64. pose proof (le_combine_bound s) as Hb.
  unfold blen in Hl. rewrite Hl in Hb. change (2 ^ (8 * 8)) with (2 ^ 64) in Hb.
  destruct (_ <? _) eqn:?; zb; lia.
Qed.

Lemma byte_of_bool_roundtrip c : negb (byte.unsigned (byte_of_bool c) =? 0) = c.
Proof. by destruct c. Qed.
