(* ===== verification/SchemaCanonical.v ===== *)
(** The canonical wire schema of [crates/relon-abi/src/schema_canonical.rs]:
    [TypeRepr], [Field], [EnumVariant] and [Schema] with their constructors and
    lookups, plus the structural measure every recursion over a schema is
    bounded by.  Field defaults are [serde_json] values: a third-party type,
    so they are a parameter of the model with decidable equality. *)

From Stdlib Require Import ZArith Lia Bool.
From stdpp Require Import base list strings pretty.
From S2P Require Import Prelude.
Local Open Scope Z_scope.
Local Open Scope abi_scope.

(** Types that are not defined under [src/]: [serde_json::Value] (field
    defaults), and the payload of the [Value] variants that never cross the
    ABI (closures, schema values, type values). *)
Class HostTypes := {
  json : Type;
  json_eq_dec :: EqDecision json;
  opaque_payload : Type;
}.

(** The trivial instance, used to evaluate the model on concrete schemas. *)
#[local] Instance unit_eq_decision : EqDecision unit.
Proof. solve_decision. Defined.
Definition unit_host : HostTypes :=
  {| json := unit; json_eq_dec := unit_eq_decision; opaque_payload := unit |}.

Record field_of {H : HostTypes} (T : Type) := MkField {
  field_name : string;
  field_ty : T;
  field_default : option json;
}.
Arguments MkField {H T} _ _ _.
Arguments field_name {H T} _.
Arguments field_ty {H T} _.
Arguments field_default {H T} _.

Record variant_of {H : HostTypes} (T : Type) := MkVariant {
  variant_name : string;
  variant_tag : Z;
  variant_fields : list (field_of T);
  variant_is_tuple : bool;
}.
Arguments MkVariant {H T} _ _ _ _.
Arguments variant_name {H T} _.
Arguments variant_tag {H T} _.
Arguments variant_fields {H T} _.
Arguments variant_is_tuple {H T} _.

Record schema_of {H : HostTypes} (T : Type) := MkSchema {
  schema_name : string;
  schema_generics : list string;
  schema_fields : list (field_of T);
  schema_is_tuple : bool;
}.
Arguments MkSchema {H T} _ _ _ _.
Arguments schema_name {H T} _.
Arguments schema_generics {H T} _.
Arguments schema_fields {H T} _.
Arguments schema_is_tuple {H T} _.

Inductive TypeRepr {H : HostTypes} : Type :=
| TUnit
| TBool
| TInt
| TFloat
| TString
| TList (element : TypeRepr)
| TOption (inner : TypeRepr)
| TResult (ok_ty err_ty : TypeRepr)
| TEnum (name : string) (variants : list (variant_of TypeRepr))
| TSchema (schema : schema_of TypeRepr)
| TClosure (params : list TypeRepr) (ret : TypeRepr).

Abbreviation Field := (field_of TypeRepr).
Abbreviation EnumVariant := (variant_of TypeRepr).
Abbreviation Schema := (schema_of TypeRepr).

Fixpoint list_eqb {A} (f : A -> A -> bool) (l m : list A) : bool :=
  match l, m with
  | [], [] => true
  | x :: l', y :: m' => f x y && list_eqb f l' m'
  | _, _ => false
  end.

Section Canonical.
Context {H : HostTypes}.

(** ** Operations *)

(** [EnumVariant::payload_schema]: the record schema of a variant's payload,
    [None] for a unit variant. *)
Definition payload_schema (v : EnumVariant) (enum_name : string) : option Schema :=
  match variant_fields v with
  | [] => None
  | fs => Some (MkSchema (enum_name +:+ "." +:+ variant_name v)%string [] fs false)
  end.

(** [TypeRepr::enum_variant_by_tag] *)
Definition enum_variant_by_tag (ty : TypeRepr) (tag : Z) : option EnumVariant :=
  match ty with
  | TEnum _ variants => List.find (fun v => variant_tag v =? tag) variants
  | _ => None
  end.

(** [TypeRepr::enum_variant_by_name] *)
Definition enum_variant_by_name (ty : TypeRepr) (name : string) : option EnumVariant :=
  match ty with
  | TEnum _ variants => List.find (fun v => bool_decide (variant_name v = name)) variants
  | _ => None
  end.

(** [Schema::new] *)
Definition schema_new (name : string) : Schema := MkSchema name [] [] false.

(** [Schema::tuple]: positional record with decimal field names. *)
Fixpoint tuple_fields (i : nat) (elements : list TypeRepr) : list Field :=
  match elements with
  | [] => []
  | ty :: rest => MkField (pretty i) ty None :: tuple_fields (S i) rest
  end.

Definition schema_tuple (name : string) (elements : list TypeRepr) : Schema :=
  MkSchema name [] (tuple_fields 0 elements) true.

(** [fields.iter().find(|f| f.name == name)] *)
Definition find_field (name : string) (fields : list Field) : option Field :=
  List.find (fun f => bool_decide (field_name f = name)) fields.

(** ** Structural measure

    [tsize] bounds the recursion depth of every walk over a type: it
    decreases from a type to each component, and from an enum to the payload
    record of each of its variants. *)

Fixpoint tsize (ty : TypeRepr) : nat :=
  let fields_size := fix go (fs : list (field_of TypeRepr)) : nat :=
    match fs with
    | [] => 0
    | f :: rest => Nat.max (tsize (field_ty f)) (go rest)
    end%nat in
  let variants_size := fix go (vs : list (variant_of TypeRepr)) : nat :=
    match vs with
    | [] => 0
    | v :: rest => Nat.max (fields_size (variant_fields v)) (go rest)
    end%nat in
  match ty with
  | TUnit | TBool | TInt | TFloat | TString => 1
  | TList e => S (tsize e)
  | TOption i => S (tsize i)
  | TResult o e => S (Nat.max (tsize o) (tsize e))
  | TEnum _ vs => S (S (variants_size vs))
  | TSchema s => S (fields_size (schema_fields s))
  | TClosure _ _ => 1
  end%nat.

Fixpoint fields_size (fs : list Field) : nat :=
  match fs with
  | [] => 0
  | f :: rest => Nat.max (tsize (field_ty f)) (fields_size rest)
  end%nat.

Fixpoint variants_size (vs : list EnumVariant) : nat :=
  match vs with
  | [] => 0
  | v :: rest => Nat.max (fields_size (variant_fields v)) (variants_size rest)
  end%nat.

Lemma tsize_schema s : tsize (TSchema s) = S (fields_size (schema_fields s)).
Proof. reflexivity. Qed.

Lemma tsize_list e : tsize (TList e) = S (tsize e).
Proof. reflexivity. Qed.

Lemma tsize_enum n vs : tsize (TEnum n vs) = S (S (variants_size vs)).
Proof. reflexivity. Qed.

Lemma tsize_pos ty : (1 <= tsize ty)%nat.
Proof. destruct ty; simpl; lia. Qed.

Lemma fields_size_elem f fs : f ∈ fs -> (tsize (field_ty f) <= fields_size fs)%nat.
Proof. induction 1; simpl; lia. Qed.

Lemma variants_size_elem v vs :
  v ∈ vs -> (fields_size (variant_fields v) <= variants_size vs)%nat.
Proof. induction 1; simpl; lia. Qed.

Lemma find_elem {A} (f : A -> bool) l x : List.find f l = Some x -> x ∈ l /\ f x = true.
Proof. intros [Hin Hf]%List.find_some. split; [|done]. by apply list_elem_of_In. Qed.

Lemma find_field_elem name fs f :
  find_field name fs = Some f -> f ∈ fs /\ field_name f = name.
Proof. intros [Hin Hn]%find_elem. split; [done|]. by apply bool_decide_eq_true in Hn. Qed.

Lemma tsize_payload n vs v s :
  v ∈ vs -> payload_schema v n = Some s -> (tsize (TSchema s) < tsize (TEnum n vs))%nat.
Proof.
  intros Hv Hs. rewrite tsize_schema, tsize_enum.
  apply variants_size_elem in Hv. unfold payload_schema in Hs.
  destruct (variant_fields v); [done|]. injection Hs as <-. simpl in *. lia.
Qed.

(** ** Decidable equality (the derived [PartialEq]) *)

Section TypeInd.
Context (P : TypeRepr -> Prop).
Definition P_fields (fs : list Field) : Prop := Forall (fun f => P (field_ty f)) fs.
Context (Hunit : P TUnit) (Hbool : P TBool) (Hint : P TInt) (Hfloat : P TFloat)
  (Hstring : P TString)
  (Hlist : forall e, P e -> P (TList e))
  (Hoption : forall i, P i -> P (TOption i))
  (Hresult : forall o e, P o -> P e -> P (TResult o e))
  (Henum : forall n vs, Forall (fun v => P_fields (variant_fields v)) vs -> P (TEnum n vs))
  (Hschema : forall s, P_fields (schema_fields s) -> P (TSchema s))
  (Hclosure : forall ps r, Forall P ps -> P r -> P (TClosure ps r)).

Fixpoint TypeRepr_deep_ind (ty : TypeRepr) : P ty :=
  let go_fields := fix go (fs : list Field) : P_fields fs :=
    match fs with
    | [] => Forall_nil_2 _
    | f :: rest => Forall_cons_2 (fun f => P (field_ty f)) f rest
                     (TypeRepr_deep_ind (field_ty f)) (go rest)
    end in
  let go_variants := fix go (vs : list EnumVariant) :
      Forall (fun v => P_fields (variant_fields v)) vs :=
    match vs with
    | [] => Forall_nil_2 _
    | v :: rest => Forall_cons_2 (fun v => P_fields (variant_fields v)) v rest
                     (go_fields (variant_fields v)) (go rest)
    end in
  let go_types := fix go (ts : list TypeRepr) : Forall P ts :=
    match ts with
    | [] => Forall_nil_2 _
    | t :: rest => Forall_cons_2 P t rest (TypeRepr_deep_ind t) (go rest)
    end in
  match ty with
  | TUnit => Hunit
  | TBool => Hbool
  | TInt => Hint
  | TFloat => Hfloat
  | TString => Hstring
  | TList e => Hlist e (TypeRepr_deep_ind e)
  | TOption i => Hoption i (TypeRepr_deep_ind i)
  | TResult o e => Hresult o e (TypeRepr_deep_ind o) (TypeRepr_deep_ind e)
  | TEnum n vs => Henum n vs (go_variants vs)
  | TSchema s => Hschema s (go_fields (schema_fields s))
  | TClosure ps r => Hclosure ps r (go_types ps) (TypeRepr_deep_ind r)
  end.
End TypeInd.

Fixpoint type_eqb (a b : TypeRepr) {struct a} : bool :=
  let field_eqb (f g : Field) :=
    bool_decide (field_name f = field_name g) && type_eqb (field_ty f) (field_ty g)
    && bool_decide (field_default f = field_default g) in
  let variant_eqb (v w : EnumVariant) :=
    bool_decide (variant_name v = variant_name w) && (variant_tag v =? variant_tag w)
    && list_eqb field_eqb (variant_fields v) (variant_fields w)
    && eqb (variant_is_tuple v) (variant_is_tuple w) in
  match a, b with
  | TUnit, TUnit | TBool, TBool | TInt, TInt | TFloat, TFloat | TString, TString => true
  | TList d, TList r => type_eqb d r
  | TOption d, TOption r => type_eqb d r
  | TResult o e, TResult o' e' => type_eqb o o' && type_eqb e e'
  | TEnum n vs, TEnum m ws => bool_decide (n = m) && list_eqb variant_eqb vs ws
  | TSchema s, TSchema t =>
      bool_decide (schema_name s = schema_name t)
      && bool_decide (schema_generics s = schema_generics t)
      && list_eqb field_eqb (schema_fields s) (schema_fields t)
      && eqb (schema_is_tuple s) (schema_is_tuple t)
  | TClosure ps r, TClosure qs r' => list_eqb type_eqb ps qs && type_eqb r r'
  | _, _ => false
  end.

Definition field_eqb (f g : Field) : bool :=
  bool_decide (field_name f = field_name g) && type_eqb (field_ty f) (field_ty g)
  && bool_decide (field_default f = field_default g).

Definition variant_eqb (v w : EnumVariant) : bool :=
  bool_decide (variant_name v = variant_name w) && (variant_tag v =? variant_tag w)
  && list_eqb field_eqb (variant_fields v) (variant_fields w)
  && eqb (variant_is_tuple v) (variant_is_tuple w).

Definition schema_eqb (s t : Schema) : bool := type_eqb (TSchema s) (TSchema t).

Lemma list_eqb_eq {A} (f : A -> A -> bool) l :
  Forall (fun x => forall y, f x y = true <-> x = y) l ->
  forall m, list_eqb f l m = true <-> l = m.
Proof.
  induction 1 as [|x l Hx _ IH]; intros [|y m]; simpl; [done|done|done|].
  rewrite andb_true_iff, Hx, IH. naive_solver.
Qed.

Lemma fields_eqb_eq fs :
  P_fields (fun a => forall b, type_eqb a b = true <-> a = b) fs ->
  Forall (fun f => forall g, field_eqb f g = true <-> f = g) fs.
Proof.
  intros HP. eapply Forall_impl; [exact HP|]. intros [n t d] IH [n' t' d']. unfold field_eqb.
  simpl in *. rewrite !andb_true_iff, !bool_decide_eq_true, IH. naive_solver.
Qed.

Lemma type_eqb_eq a : forall b, type_eqb a b = true <-> a = b.
Proof.
  induction a using TypeRepr_deep_ind; intros b; destruct b; try done; simpl.
  - rewrite IHa. naive_solver.
  - rewrite IHa. naive_solver.
  - rewrite andb_true_iff, IHa1, IHa2. naive_solver.
  - rewrite andb_true_iff, bool_decide_eq_true.
    change (list_eqb _ vs variants) with (list_eqb variant_eqb vs variants).
    rewrite list_eqb_eq; [naive_solver|].
    eapply Forall_impl; [exact H0|]. intros [n1 t1 f1 b1] HP [n2 t2 f2 b2].
    unfold variant_eqb. simpl in *.
    rewrite !andb_true_iff, bool_decide_eq_true, Z.eqb_eq, eqb_true_iff.
    rewrite list_eqb_eq by (by apply fields_eqb_eq). naive_solver.
  - rewrite !andb_true_iff, !bool_decide_eq_true, eqb_true_iff.
    change (list_eqb _ (schema_fields s) (schema_fields schema))
      with (list_eqb field_eqb (schema_fields s) (schema_fields schema)).
    rewrite list_eqb_eq by (by apply fields_eqb_eq).
    destruct s, schema; simpl; naive_solver.
  - rewrite andb_true_iff, IHa, list_eqb_eq by done. naive_solver.
Qed.

#[global] Instance type_eq_dec : EqDecision TypeRepr.
Proof.
  intros a b. destruct (type_eqb a b) eqn:He.
  - left. by apply type_eqb_eq.
  - right. intros ->. by rewrite (proj2 (type_eqb_eq b b) eq_refl) in He.
Defined.

Lemma schema_eqb_eq s t : schema_eqb s t = true <-> s = t.
Proof. unfold schema_eqb. rewrite type_eqb_eq. naive_solver. Qed.
End Canonical.
