(* ===== verification/Layout.v ===== *)
(** The fixed-record offset tables of [crates/relon-abi/src/layout.rs]:
    [FieldKind], [ListElementKind], [FieldOffset], [OffsetTable], [LayoutError],
    the per-field layout decisions and [SchemaLayout::offsets_for].

    The seven mutually recursive functions of the source call each other on the
    same type as well as on its components, so the model threads a fuel bounded
    by the structural size of the type ([layout_fuel]); [LayoutFacts] proves
    that this fuel is never exhausted. *)

From Stdlib Require Import ZArith Lia Bool.
From stdpp Require Import base list strings.
From S2P Require Import Prelude SchemaCanonical.
Local Open Scope Z_scope.
Local Open Scope abi_scope.

Inductive FieldKind : Type :=
| Inline (size align : Z)
| PointerIndirect (tail_alignment : Z).

Inductive ListElementKind : Type :=
| InlineFixed (elem_size elem_align : Z)
| PointerArray (elem_alignment : Z).

#[global] Instance FieldKind_eq_dec : EqDecision FieldKind.
Proof. solve_decision. Defined.
#[global] Instance ListElementKind_eq_dec : EqDecision ListElementKind.
Proof. solve_decision. Defined.

Record FieldOffset : Type := MkFieldOffset {
  fo_name : string;
  fo_offset : Z;
  fo_size : Z;
  fo_align : Z;
  fo_kind : FieldKind;
  fo_list_element : option ListElementKind;
}.

Record OffsetTable : Type := MkOffsetTable {
  ot_fields : list FieldOffset;
  root_size : Z;
  root_align : Z;
}.

Definition is_pointer_indirect (k : FieldKind) : bool :=
  match k with
  | PointerIndirect _ => true
  | Inline _ _ => false
  end.

(** [OffsetTable::fixed_area_size] *)
Definition fixed_area_size (t : OffsetTable) : Z := root_size t.

(** [OffsetTable::requires_tail_area] *)
Definition requires_tail_area (t : OffsetTable) : bool :=
  existsb (fun f => is_pointer_indirect (fo_kind f)) (ot_fields t).

Inductive LayoutError : Type :=
| UnsupportedTypeInLayoutV1 (field kind : string)
| UnsupportedListElement (field inner : string)
| Overflow (field : string) (offset : Z).

Record FieldLayoutDecision : Type := MkDecision {
  dec_kind : FieldKind;
  dec_list_element : option ListElementKind;
}.

(** [align_up]: [value.checked_next_multiple_of(align)] *)
Definition align_up (value align : Z) : option Z := checked_next_multiple_of value align.

(** Slot size and alignment of a field kind: a pointer slot is always 4/4. *)
Definition slot_of_kind (k : FieldKind) : Z * Z :=
  match k with
  | Inline size align => (size, align)
  | PointerIndirect _ => (4, 4)
  end.

Section Layout.
Context {H : HostTypes}.

(** One iteration of the loop of [SchemaLayout::offsets_for]; the state is
    [(fields, cursor, max_align)]. *)
Definition place_field
    (decision_for : string -> TypeRepr -> outcome LayoutError FieldLayoutDecision)
    (st : list FieldOffset * Z * Z) (f : Field)
    : outcome LayoutError (list FieldOffset * Z * Z) :=
  let '(fields, cursor, max_align) := st in
  let* decision := decision_for (field_name f) (field_ty f) in
  let kind := dec_kind decision in
  let '(size, align) := slot_of_kind kind in
  let* offset := ok_or (align_up cursor align) (Overflow (field_name f) cursor) in
  let* next := ok_or (checked_add offset size) (Overflow (field_name f) offset) in
  Ok (fields ++ [MkFieldOffset (field_name f) offset size align kind
                               (dec_list_element decision)],
      next,
      if max_align <? align then align else max_align).

(** The body of [SchemaLayout::offsets_for] over a per-field decision. *)
Definition place_fields
    (decision_for : string -> TypeRepr -> outcome LayoutError FieldLayoutDecision)
    (schema : Schema) : outcome LayoutError OffsetTable :=
  let* (fields, cursor, max_align) :=
    foldM (place_field decision_for) ([], 0, 1) (schema_fields schema) in
  let* root_size :=
    match schema_fields schema with
    | [] => Ok 0
    | _ => ok_or (align_up cursor max_align) (Overflow "<root padding>" cursor)
    end in
  Ok (MkOffsetTable fields root_size max_align).

(** Payload types a variant record can carry, in tag order. *)
Definition variant_payload_types (ty : TypeRepr) : list TypeRepr :=
  match ty with
  | TOption inner => [inner]
  | TResult ok_ty err_ty => [ok_ty; err_ty]
  | TEnum name variants =>
      omap (fun v => TSchema <$> payload_schema v name) variants
  | _ => []
  end.

Definition max_list_Z (d : Z) (l : list Z) : Z :=
  match l with
  | [] => d
  | x :: rest => fold_left Z.max rest x
  end.

Fixpoint field_layout_decision_for (n : nat) (fname : string) (ty : TypeRepr) {struct n}
    : outcome LayoutError FieldLayoutDecision :=
  match n with
  | O => Abort
  | S n =>
    match ty with
    | TUnit => Ok (MkDecision (Inline 1 1) None)
    | TBool => Ok (MkDecision (Inline 1 1) None)
    | TInt => Ok (MkDecision (Inline 8 8) None)
    | TFloat => Ok (MkDecision (Inline 8 8) None)
    | TString => Ok (MkDecision (PointerIndirect 1) None)
    | TList element => list_layout_decision n fname element
    | TSchema schema =>
        let* sub := offsets_for_fuel n schema in
        Ok (MkDecision (PointerIndirect (root_align sub)) None)
    | TOption _ | TResult _ _ | TEnum _ _ =>
        let* a := variant_record_alignment n fname ty in
        Ok (MkDecision (PointerIndirect a) None)
    | TClosure _ _ => Err (UnsupportedTypeInLayoutV1 fname "Closure")
    end
  end

with list_layout_decision (n : nat) (fname : string) (element : TypeRepr) {struct n}
    : outcome LayoutError FieldLayoutDecision :=
  match n with
  | O => Abort
  | S n =>
    match element with
    | TInt | TFloat => Ok (MkDecision (PointerIndirect 8) (Some (InlineFixed 8 8)))
    | TBool => Ok (MkDecision (PointerIndirect 4) (Some (InlineFixed 1 1)))
    | TString => Ok (MkDecision (PointerIndirect 4) (Some (PointerArray 4)))
    | TSchema schema =>
        let* sub := offsets_for_fuel n schema in
        Ok (MkDecision (PointerIndirect 4) (Some (PointerArray (root_align sub))))
    | TList inner =>
        let* inner_align := inner_list_record_alignment n fname inner in
        Ok (MkDecision (PointerIndirect 4) (Some (PointerArray inner_align)))
    | TOption _ | TResult _ _ | TEnum _ _ =>
        let* a := variant_record_alignment n fname element in
        Ok (MkDecision (PointerIndirect 4) (Some (PointerArray a)))
    | TUnit => Err (UnsupportedListElement fname "Unit")
    | TClosure _ _ => Err (UnsupportedListElement fname "Closure")
    end
  end

with inner_list_record_alignment (n : nat) (fname : string) (inner : TypeRepr) {struct n}
    : outcome LayoutError Z :=
  match n with
  | O => Abort
  | S n =>
    match inner with
    | TInt | TFloat => Ok 8
    | TBool => Ok 4
    | TString => Ok 4
    | TSchema schema => let* _ := offsets_for_fuel n schema in Ok 4
    | TList deeper => let* _ := inner_list_record_alignment n fname deeper in Ok 4
    | TOption _ | TResult _ _ | TEnum _ _ =>
        let* _ := variant_record_alignment n fname inner in Ok 4
    | TUnit => Err (UnsupportedListElement fname "Unit")
    | TClosure _ _ => Err (UnsupportedListElement fname "Closure")
    end
  end

with variant_payload_slot (n : nat) (fname : string) (ty : TypeRepr) {struct n}
    : outcome LayoutError (Z * Z) :=
  match n with
  | O => Abort
  | S n =>
    match ty with
    | TUnit | TBool => Ok (1, 1)
    | TInt | TFloat => Ok (8, 8)
    | TString | TList _ | TSchema _ | TOption _ | TResult _ _ | TEnum _ _ =>
        let* _ := ensure_type_layoutable n fname ty in Ok (4, 4)
    | TClosure _ _ => Err (UnsupportedTypeInLayoutV1 fname "Closure")
    end
  end

with type_graph_alignment (n : nat) (fname : string) (ty : TypeRepr) {struct n}
    : outcome LayoutError Z :=
  match n with
  | O => Abort
  | S n =>
    match ty with
    | TUnit | TBool | TString => Ok 1
    | TInt | TFloat => Ok 8
    | TList element =>
        match element with
        | TInt | TFloat => Ok 8
        | TBool => Ok 1
        | other => type_graph_alignment n fname other
        end
    | TSchema schema =>
        let* sub := offsets_for_fuel n schema in
        let* tails :=
          mapM (fun f => type_graph_alignment n (field_name f) (field_ty f))
               (schema_fields schema) in
        Ok (Z.max (root_align sub) (max_list_Z 1 tails))
    | TOption _ | TResult _ _ | TEnum _ _ => variant_record_alignment n fname ty
    | TClosure _ _ => Err (UnsupportedTypeInLayoutV1 fname "Closure")
    end
  end

with ensure_type_layoutable (n : nat) (fname : string) (ty : TypeRepr) {struct n}
    : outcome LayoutError unit :=
  match n with
  | O => Abort
  | S n =>
    match ty with
    | TList element => let* _ := list_layout_decision n fname element in Ok tt
    | TSchema schema => let* _ := offsets_for_fuel n schema in Ok tt
    | TOption _ | TResult _ _ | TEnum _ _ =>
        let* _ := variant_record_alignment n fname ty in Ok tt
    | TClosure _ _ => Err (UnsupportedTypeInLayoutV1 fname "Closure")
    | _ => Ok tt
    end
  end

with variant_record_alignment (n : nat) (fname : string) (ty : TypeRepr) {struct n}
    : outcome LayoutError Z :=
  match n with
  | O => Abort
  | S n =>
    match ty with
    | TOption _ | TResult _ _ | TEnum _ _ =>
        foldM (fun align payload =>
                 let* (_, slot_align) := variant_payload_slot n fname payload in
                 let* graph_align := type_graph_alignment n fname payload in
                 Ok (Z.max (Z.max (Z.max align slot_align) graph_align) 1))
              4 (variant_payload_types ty)
    | TClosure _ _ => Err (UnsupportedTypeInLayoutV1 fname "Closure")
    | _ => Err (UnsupportedTypeInLayoutV1 fname "Variant")
    end
  end

with offsets_for_fuel (n : nat) (schema : Schema) {struct n}
    : outcome LayoutError OffsetTable :=
  match n with
  | O => Abort
  | S n => place_fields (field_layout_decision_for n) schema
  end.

(** Each type level is crossed by at most five calls on the same type. *)
Definition layout_fuel (ty : TypeRepr) : nat := 8 * tsize ty.

(** [SchemaLayout::offsets_for] *)
Definition offsets_for (schema : Schema) : outcome LayoutError OffsetTable :=
  offsets_for_fuel (layout_fuel (TSchema schema)) schema.
End Layout.
