(* ===== verification/LayoutFacts.v ===== *)
(** Correctness of the layout pass: the fuel of the model is always enough,
    the offset table is sound (ordered, aligned, disjoint slots inside the
    record), and a schema has a layout exactly when it is [layoutable]. *)

From Stdlib Require Import ZArith Lia Bool.
From stdpp Require Import base list strings.
From S2P Require Import Prelude Bytes SchemaCanonical Layout.
Local Open Scope Z_scope.
Local Open Scope abi_scope.

(** ** Abstract specification *)

(** Alignments the v1 layout uses. *)
Definition abi_align (a : Z) : Prop := a = 1 \/ a = 4 \/ a = 8.

Definition fo_end (fo : FieldOffset) : Z := fo_offset fo + fo_size fo.

(** What an [OffsetTable] promises to the writer, the reader, the verifier and
    the code generator. *)
Record table_sound (t : OffsetTable) : Prop := {
  ts_align : abi_align (root_align t);
  ts_size : 0 <= root_size t <= USIZE_MAX;
  ts_padded : root_size t mod root_align t = 0;
  ts_slot : forall fo, fo ∈ ot_fields t ->
    (fo_size fo, fo_align fo) = slot_of_kind (fo_kind fo) /\
    abi_align (fo_align fo) /\ fo_size fo = fo_align fo /\
    fo_align fo <= root_align t /\
    0 <= fo_offset fo /\ fo_offset fo mod fo_align fo = 0 /\
    fo_end fo <= root_size t;
  ts_ordered : forall i j a b, (i < j)%nat ->
    ot_fields t !! i = Some a -> ot_fields t !! j = Some b ->
    fo_end a <= fo_offset b;
}.

Definition slots_disjoint (a b : FieldOffset) : Prop :=
  fo_end a <= fo_offset b \/ fo_end b <= fo_offset a.

Lemma table_sound_disjoint t i j a b :
  table_sound t -> i <> j -> ot_fields t !! i = Some a -> ot_fields t !! j = Some b ->
  slots_disjoint a b.
Proof.
  intros Ht Hij Ha Hb. destruct (decide (i < j)%nat).
  - left. by eapply (ts_ordered t Ht i j).
  - right. eapply (ts_ordered t Ht j i); [lia|done|done].
Qed.

Lemma align_up_spec v a r :
  0 <= v -> 0 < a -> align_up v a = Some r -> v <= r < v + a /\ r mod a = 0.
Proof. apply checked_next_multiple_of_Some. Qed.

Lemma abi_align_pos a : abi_align a -> 0 < a <= 8.
Proof. unfold abi_align. lia. Qed.

Section Facts.
Context {H : HostTypes}.

Implicit Types (ty : TypeRepr) (s : Schema) (f : Field) (n : nat).

(** ** Fuel *)

Definition enough n ty (rank : nat) : Prop := (8 * tsize ty + rank <= n + 8)%nat.

Lemma variant_payload_types_size ty p :
  p ∈ variant_payload_types ty -> (tsize p < tsize ty)%nat.
Proof.
  destruct ty; simpl; try by rewrite elem_of_nil.
  - rewrite list_elem_of_singleton. intros ->. lia.
  - rewrite !elem_of_cons, elem_of_nil. intros [->|[->|[]]]; lia.
  - intros (v & Hv & Hp)%list_elem_of_omap.
    destruct (payload_schema v name) eqn:Hs; [|done]. injection Hp as <-.
    by eapply tsize_payload.
Qed.

Lemma field_size_lt s f : f ∈ schema_fields s -> (tsize (field_ty f) < tsize (TSchema s))%nat.
Proof. intros Hf%fields_size_elem. rewrite tsize_schema. lia. Qed.

Lemma place_field_not_abort dec st f :
  dec (field_name f) (field_ty f) <> Abort -> place_field dec st f <> Abort.
Proof.
  intros Hd. destruct st as [[fs c] m]. unfold place_field.
  apply bind_not_abort; [done|]. intros d _. destruct (slot_of_kind (dec_kind d)).
  apply bind_not_abort; [apply ok_or_not_abort|]. intros ? _.
  by apply bind_not_abort; [apply ok_or_not_abort|].
Qed.

Lemma place_fields_not_abort dec s :
  (forall f, f ∈ schema_fields s -> dec (field_name f) (field_ty f) <> Abort) ->
  place_fields dec s <> Abort.
Proof.
  intros Hd. unfold place_fields. apply bind_not_abort.
  - apply (foldM_not_abort (fun _ => True)); [done|]. intros st f _ Hf.
    split; [|done]. by apply place_field_not_abort, Hd.
  - intros [[fs c] m] _. apply bind_not_abort; [|done].
    destruct (schema_fields s); [done|]. apply ok_or_not_abort.
Qed.

Ltac fuel := unfold enough in *; simpl tsize in *; lia.

Lemma layout_fuel_enough n :
  (forall fname ty, enough n ty 2 -> field_layout_decision_for n fname ty <> Abort) /\
  (forall fname ty, enough n ty 2 -> list_layout_decision n fname ty <> Abort) /\
  (forall fname ty, enough n ty 2 -> inner_list_record_alignment n fname ty <> Abort) /\
  (forall fname ty, enough n ty 3 -> variant_payload_slot n fname ty <> Abort) /\
  (forall fname ty, enough n ty 2 -> type_graph_alignment n fname ty <> Abort) /\
  (forall fname ty, enough n ty 2 -> ensure_type_layoutable n fname ty <> Abort) /\
  (forall fname ty, enough n ty 1 -> variant_record_alignment n fname ty <> Abort) /\
  (forall s, enough n (TSchema s) 1 -> offsets_for_fuel n s <> Abort).
Proof.
  induction n as [|n (Hfld & Hlst & Hinner & Hslot & Hgraph & Hens & Hvar & Hoff)].
  { split_and!; [intros ? ty He .. | intros s He]; exfalso; unfold enough in He;
    [pose proof (tsize_pos ty); lia .. | pose proof (tsize_pos (TSchema s)); lia]. }
  split_and!.
  - intros fname ty He. destruct ty; simpl; try done;
      [apply Hlst; fuel|..]; apply bind_not_abort; try done;
      try (apply Hvar; fuel); apply Hoff; fuel.
  - intros fname ty He. destruct ty; simpl; try done; apply bind_not_abort; try done;
      try (apply Hvar; fuel); try (apply Hoff; fuel). apply Hinner; fuel.
  - intros fname ty He. destruct ty; simpl; try done; apply bind_not_abort; try done;
      try (apply Hvar; fuel); try (apply Hoff; fuel). apply Hinner; fuel.
  - intros fname ty He. destruct ty; simpl; try done; apply bind_not_abort; try done;
      apply Hens; fuel.
  - intros fname ty He. destruct ty; simpl; try done; try (apply Hvar; fuel).
    + destruct ty; try done; apply Hgraph; fuel.
    + apply bind_not_abort; [apply Hoff; fuel|]. intros t _.
      apply bind_not_abort; [|done]. apply mapM_not_abort. intros f Hf.
      apply Hgraph. apply field_size_lt in Hf. fuel.
  - intros fname ty He. destruct ty; simpl; try done; apply bind_not_abort; try done;
      try (apply Hvar; fuel); try (apply Hoff; fuel). apply Hlst; fuel.
  - intros fname ty He. destruct ty; try done;
      (apply (foldM_not_abort (fun _ => True)); [done|]; intros a p _ Hp;
       apply variant_payload_types_size in Hp; split; [|done];
       apply bind_not_abort; [apply Hslot; fuel|]; intros [? ?] _;
       apply bind_not_abort; [apply Hgraph; fuel|done]).
  - intros s He. apply place_fields_not_abort. intros f Hf.
    apply Hfld. apply field_size_lt in Hf. fuel.
Qed.

Lemma offsets_for_total s : offsets_for s <> Abort.
Proof. apply layout_fuel_enough. unfold enough, layout_fuel. lia. Qed.

(** ** Soundness of the offset table *)

Definition kind_sound (k : FieldKind) : Prop :=
  match k with
  | Inline size align => size = align /\ abi_align align
  | PointerIndirect _ => True
  end.

Lemma slot_of_kind_sound k size align :
  kind_sound k -> slot_of_kind k = (size, align) -> size = align /\ abi_align align.
Proof. destruct k; simpl; intros Hk [= <- <-]; [done|]. unfold abi_align. lia. Qed.

(** Loop invariant of [place_fields]: the slots placed so far are sound for
    the current alignment and end at or before the cursor. *)
Record placed (fields : list FieldOffset) (cursor max_align : Z) : Prop := {
  pl_cursor : 0 <= cursor <= USIZE_MAX;
  pl_align : abi_align max_align;
  pl_slot : forall fo, fo ∈ fields ->
    (fo_size fo, fo_align fo) = slot_of_kind (fo_kind fo) /\
    abi_align (fo_align fo) /\ fo_size fo = fo_align fo /\
    fo_align fo <= max_align /\
    0 <= fo_offset fo /\ fo_offset fo mod fo_align fo = 0 /\ fo_end fo <= cursor;
  pl_ordered : forall i j a b, (i < j)%nat ->
    fields !! i = Some a -> fields !! j = Some b -> fo_end a <= fo_offset b;
}.

Lemma placed_nil : placed [] 0 1.
Proof.
  split; [unfold USIZE_MAX; lia|unfold abi_align; lia| |done].
  intros fo Hfo. by apply elem_of_nil in Hfo.
Qed.

Lemma placed_snoc fields cursor m fo next :
  placed fields cursor m ->
  (fo_size fo, fo_align fo) = slot_of_kind (fo_kind fo) -> kind_sound (fo_kind fo) ->
  cursor <= fo_offset fo -> fo_offset fo mod fo_align fo = 0 ->
  next = fo_end fo -> next <= USIZE_MAX ->
  placed (fields ++ [fo]) next (if m <? fo_align fo then fo_align fo else m).
Proof.
  intros [Hc Hm Hs Ho] Hslot Hk Hoff Hmod -> Hnext.
  destruct (slot_of_kind_sound _ _ _ Hk (eq_sym Hslot)) as [Hsz Hal].
  pose proof (abi_align_pos _ Hal). unfold fo_end in *.
  split.
  - lia.
  - by destruct (m <? fo_align fo).
  - intros g [Hg|Hg%list_elem_of_singleton]%elem_of_app.
    + destruct (Hs g Hg) as (?&?&?&?&?&?&?). split_and!; try done; [|unfold fo_end; lia].
      destruct (m <? fo_align fo) eqn:?; zb; lia.
    + subst g. unfold fo_end. split_and!; try done; destruct (m <? fo_align fo) eqn:?; zb; lia.
  - intros i j a b Hij Ha Hb. unfold fo_end. apply lookup_app_Some in Ha as [Ha|[Hi Ha]].
    + apply lookup_app_Some in Hb as [Hb|[Hj Hb]]; [by eapply Ho|].
      apply list_lookup_singleton_Some in Hb as [_ <-].
      apply list_elem_of_lookup_2, Hs in Ha as (_&_&_&_&_&_&?). lia.
    + apply list_lookup_singleton_Some in Ha as [? _].
      apply lookup_lt_Some in Hb. rewrite length_app in Hb. simpl in Hb. lia.
Qed.

Lemma place_field_placed dec fs c m f fs' c' m' :
  (forall d, dec (field_name f) (field_ty f) = Ok d -> kind_sound (dec_kind d)) ->
  placed fs c m -> place_field dec (fs, c, m) f = Ok (fs', c', m') -> placed fs' c' m'.
Proof.
  intros Hdec Hp Hok. unfold place_field in Hok.
  apply bind_ok in Hok as (d & Hd & Hok). specialize (Hdec d Hd).
  destruct (slot_of_kind (dec_kind d)) as [size align] eqn:Hslot.
  apply bind_ok in Hok as (off & Hoff%ok_or_ok & Hok).
  apply bind_ok in Hok as (next & Hnext%ok_or_ok & Hok). injection Hok as <- <- <-.
  destruct (slot_of_kind_sound _ _ _ Hdec Hslot) as [Hsz Hal].
  apply align_up_spec in Hoff as [Hr Hm]; [|by destruct Hp; lia|by apply abi_align_pos in Hal; lia].
  apply checked_add_Some in Hnext as [Hn Hle].
  set (fo := MkFieldOffset (field_name f) off size align (dec_kind d) (dec_list_element d)).
  change align with (fo_align fo). apply (placed_snoc _ c); simpl; try done; try lia.
Qed.

Lemma place_fields_sound dec s t :
  (forall f d, f ∈ schema_fields s -> dec (field_name f) (field_ty f) = Ok d ->
     kind_sound (dec_kind d)) ->
  place_fields dec s = Ok t -> table_sound t.
Proof.
  intros Hdec Hok. unfold place_fields in Hok.
  apply bind_ok in Hok as ([[fs c] m] & Hfold & Hok).
  apply bind_ok in Hok as (rs & Hrs & Hok). injection Hok as <-.
  assert (placed fs c m) as Hp.
  { apply (foldM_inv (fun '(fs, c, m) => placed fs c m)
             (place_field dec) (schema_fields s) ([], 0, 1) (fs, c, m));
      [apply placed_nil| |exact Hfold].
    intros [[fs1 c1] m1] f [[fs2 c2] m2] Hp1 Hf Hpf. eapply place_field_placed; [|done|done].
    intros d. by apply Hdec. }
  destruct Hp as [Hc Hm Hs Ho].
  assert (c <= rs /\ rs mod m = 0 /\ rs <= USIZE_MAX) as (Hge & Hmod & Hle).
  { destruct (schema_fields s) as [|f0 fr].
    - injection Hrs as <-. simpl in Hfold. injection Hfold as <- <- <-.
      unfold USIZE_MAX; done.
    - apply ok_or_ok in Hrs. pose proof (abi_align_pos _ Hm).
      pose proof (align_up_spec c m rs ltac:(lia) ltac:(lia) Hrs).
      split_and!; try lia. unfold align_up, checked_next_multiple_of in Hrs.
      destruct (m =? 0); [done|]. destruct (c mod m =? 0); [injection Hrs as <-; lia|].
      by apply checked_add_Some in Hrs as [-> ?]. }
  split; simpl; [done|lia|done| |done].
  intros fo Hfo. destruct (Hs fo Hfo) as (?&?&?&?&?&?&?). split_and!; try done. lia.
Qed.

Lemma list_decision_kind n fname e d :
  list_layout_decision n fname e = Ok d -> kind_sound (dec_kind d).
Proof.
  destruct n as [|n]; simpl; [done|].
  destruct e; intros Hd; inv_ok Hd; try done; by destruct d; simplify_eq.
Qed.

Lemma decision_kind_sound n fname ty d :
  field_layout_decision_for n fname ty = Ok d -> kind_sound (dec_kind d).
Proof.
  destruct n as [|n]; simpl; [done|].
  destruct ty; intros Hd; try (by inv_ok Hd; subst; simpl; unfold abi_align; lia);
    try (by inv_ok Hd); by eapply list_decision_kind.
Qed.

Lemma offsets_for_fuel_sound n s t : offsets_for_fuel n s = Ok t -> table_sound t.
Proof.
  destruct n as [|n]; simpl; [done|]. apply place_fields_sound.
  intros f d _. apply decision_kind_sound.
Qed.

(** [fields] of the table list the schema's fields in declaration order, each
    placed with the decision made for its type. *)
Definition slot_matches n f (fo : FieldOffset) : Prop :=
  fo_name fo = field_name f /\
  field_layout_decision_for n (field_name f) (field_ty f)
    = Ok (MkDecision (fo_kind fo) (fo_list_element fo)).

Lemma place_fields_match dec s t :
  place_fields dec s = Ok t ->
  Forall2 (fun f fo => fo_name fo = field_name f /\
             dec (field_name f) (field_ty f) = Ok (MkDecision (fo_kind fo) (fo_list_element fo)))
          (schema_fields s) (ot_fields t).
Proof.
  unfold place_fields. intros Hok.
  apply bind_ok in Hok as ([[fs c] m] & Hfold & Hok).
  apply bind_ok in Hok as (rs & _ & Hok). injection Hok as <-. simpl.
  cut (forall fs0 c0 m0 fl, foldM (place_field dec) (fs0, c0, m0) fl = Ok (fs, c, m) ->
    exists fs1, fs = fs0 ++ fs1 /\
      Forall2 (fun f fo => fo_name fo = field_name f /\
        dec (field_name f) (field_ty f) = Ok (MkDecision (fo_kind fo) (fo_list_element fo))) fl fs1).
  { intros Hc. destruct (Hc _ _ _ _ Hfold) as (fs1 & -> & Hall). done. }
  clear. intros fs0 c0 m0 fl. revert fs0 c0 m0.
  induction fl as [|f fl IH]; intros fs0 c0 m0; simpl.
  - intros [= -> -> ->]. exists []. by rewrite app_nil_r.
  - intros Hb. apply bind_ok in Hb as ([[fs1 c1] m1] & Hpf & Hrest).
    apply IH in Hrest as (fs2 & -> & Hall).
    unfold place_field in Hpf. apply bind_ok in Hpf as (d & Hd & Hpf).
    destruct (slot_of_kind (dec_kind d)) as [size align].
    apply bind_ok in Hpf as (off & _ & Hpf). apply bind_ok in Hpf as (next & _ & Hpf).
    injection Hpf as <- _ _. eexists. rewrite <-app_assoc. split; [done|].
    constructor; [|done]. simpl. split; [done|]. by destruct d.
Qed.

Lemma offsets_for_match n s t :
  offsets_for_fuel (S n) s = Ok t -> Forall2 (slot_matches n) (schema_fields s) (ot_fields t).
Proof. apply place_fields_match. Qed.

(** ** Which schemas have a layout *)

(** No closure is reachable and no list has unit elements. *)
Fixpoint layoutable ty : bool :=
  match ty with
  | TUnit | TBool | TInt | TFloat | TString => true
  | TList TUnit => false
  | TList e => layoutable e
  | TOption i => layoutable i
  | TResult o e => layoutable o && layoutable e
  | TEnum _ vs =>
      forallb (fun v => forallb (fun f => layoutable (field_ty f)) (variant_fields v)) vs
  | TSchema s => forallb (fun f => layoutable (field_ty f)) (schema_fields s)
  | TClosure _ _ => false
  end.

(** Every record has at most [2^59] fields, so no offset can overflow. *)
Fixpoint small_type ty : bool :=
  match ty with
  | TList e => small_type e
  | TOption i => small_type i
  | TResult o e => small_type o && small_type e
  | TEnum _ vs =>
      forallb (fun v => (blen (variant_fields v) <=? 2 ^ 59)
                        && forallb (fun f => small_type (field_ty f)) (variant_fields v)) vs
  | TSchema s =>
      (blen (schema_fields s) <=? 2 ^ 59)
      && forallb (fun f => small_type (field_ty f)) (schema_fields s)
  | _ => true
  end.

Lemma forallb_elem {A} (p : A -> bool) l :
  forallb p l = true <-> forall x, x ∈ l -> p x = true.
Proof. rewrite forallb_forall. setoid_rewrite <-list_elem_of_In. done. Qed.

Lemma layoutable_list e : e <> TUnit -> layoutable (TList e) = layoutable e.
Proof. by destruct e. Qed.

Lemma layoutable_payloads ty :
  match ty with TOption _ | TResult _ _ | TEnum _ _ => True | _ => False end ->
  layoutable ty = true <-> forall p, p ∈ variant_payload_types ty -> layoutable p = true.
Proof.
  destruct ty; try done; intros _; simpl.
  - setoid_rewrite list_elem_of_singleton. naive_solver.
  - setoid_rewrite elem_of_cons. setoid_rewrite elem_of_cons. setoid_rewrite elem_of_nil.
    rewrite andb_true_iff. naive_solver.
  - rewrite forallb_elem. setoid_rewrite list_elem_of_omap. split.
    + intros Hv p (v & Hin & Hp). specialize (Hv v Hin). unfold payload_schema in Hp.
      destruct (variant_fields v) eqn:Hf; simplify_eq/=; done.
    + intros Hp v Hin. unfold payload_schema in Hp.
      destruct (variant_fields v) as [|f fs] eqn:Hf; [done|].
      eapply (Hp (TSchema (MkSchema _ [] (f :: fs) false))). exists v. by rewrite Hf.
Qed.

Lemma small_payloads ty :
  match ty with TOption _ | TResult _ _ | TEnum _ _ => True | _ => False end ->
  small_type ty = true -> forall p, p ∈ variant_payload_types ty -> small_type p = true.
Proof.
  destruct ty; try done; intros _; simpl.
  - setoid_rewrite list_elem_of_singleton. naive_solver.
  - setoid_rewrite elem_of_cons. setoid_rewrite elem_of_cons. setoid_rewrite elem_of_nil.
    rewrite andb_true_iff. naive_solver.
  - rewrite forallb_elem. intros Hv p (v & Hin & Hp)%list_elem_of_omap.
    specialize (Hv v Hin). unfold payload_schema in Hp.
    destruct (variant_fields v) eqn:Hf; simplify_eq/=; done.
Qed.

(** Success of any layout function certifies the type. *)
Lemma layout_ok_layoutable n :
  (forall fname ty d, field_layout_decision_for n fname ty = Ok d -> layoutable ty = true) /\
  (forall fname e d, list_layout_decision n fname e = Ok d -> layoutable (TList e) = true) /\
  (forall fname e a, inner_list_record_alignment n fname e = Ok a ->
     layoutable (TList e) = true) /\
  (forall fname ty a, variant_payload_slot n fname ty = Ok a -> layoutable ty = true) /\
  (forall fname ty u, ensure_type_layoutable n fname ty = Ok u -> layoutable ty = true) /\
  (forall fname ty a, variant_record_alignment n fname ty = Ok a -> layoutable ty = true) /\
  (forall s t, offsets_for_fuel n s = Ok t -> layoutable (TSchema s) = true).
Proof.
  induction n as [|n (Hfld & Hlst & Hinner & Hslot & Hens & Hvar & Hoff)]; [done|].
  split_and!.
  - intros fname ty d Hok. destruct ty; cbn [field_layout_decision_for] in Hok;
      try done; [by eapply Hlst|..]; apply bind_ok in Hok as (? & Hok & _); eauto.
  - intros fname ty d Hok. destruct ty; cbn [list_layout_decision] in Hok;
      try done; apply bind_ok in Hok as (? & Hok & _); rewrite layoutable_list by done; eauto.
  - intros fname ty d Hok. destruct ty; cbn [inner_list_record_alignment] in Hok;
      try done; apply bind_ok in Hok as (? & Hok & _); rewrite layoutable_list by done; eauto.
  - intros fname ty d Hok. destruct ty; cbn [variant_payload_slot] in Hok;
      try done; apply bind_ok in Hok as (? & Hok & _); eauto.
  - intros fname ty d Hok. destruct ty; cbn [ensure_type_layoutable] in Hok;
      try done; apply bind_ok in Hok as (? & Hok & _); eauto.
  - intros fname ty d Hok.
    assert (forall l a b, foldM (fun align payload =>
                 let* (_, slot_align) := variant_payload_slot n fname payload in
                 let* graph_align := type_graph_alignment n fname payload in
                 Ok (Z.max (Z.max (Z.max align slot_align) graph_align) 1)) a l = Ok b ->
              forall p, p ∈ l -> layoutable p = true) as Hall.
    { clear -Hslot. induction l as [|p l IH]; intros a b Hf q Hq; [by apply elem_of_nil in Hq|].
      simpl in Hf. apply bind_ok in Hf as (? & Hp & Hrest).
      apply bind_ok in Hp as ([? ?] & Hsl & _). apply elem_of_cons in Hq as [->|Hq]; eauto. }
    destruct ty; try done; apply layoutable_payloads; try done; by eapply Hall.
  - intros s t Hok. simpl. apply forallb_elem. intros f Hf.
    apply place_fields_match in Hok. apply list_elem_of_lookup in Hf as [i Hi].
    destruct (Forall2_lookup_l _ _ _ _ _ Hok Hi) as (fo & _ & _ & Hd). eauto.
Qed.

Lemma place_field_small dec fs c m f d :
  dec (field_name f) (field_ty f) = Ok d -> kind_sound (dec_kind d) ->
  0 <= c -> c + 16 <= USIZE_MAX -> abi_align m ->
  exists fs' c' m', place_field dec (fs, c, m) f = Ok (fs', c', m') /\
    0 <= c' <= c + 16 /\ abi_align m'.
Proof.
  intros Hd Hk Hc Hs Hm. unfold place_field. rewrite Hd. simpl.
  destruct (slot_of_kind (dec_kind d)) as [size align] eqn:Hslot.
  destruct (slot_of_kind_sound _ _ _ Hk Hslot) as [-> Ha]. pose proof (abi_align_pos _ Ha).
  destruct (checked_next_multiple_of_small c align) as [off Hoff]; [lia..|].
  unfold align_up. rewrite Hoff. simpl.
  apply checked_next_multiple_of_Some in Hoff as [Hr _]; [|lia..].
  rewrite checked_add_small by lia. simpl. do 3 eexists. split; [done|]. split; [lia|].
  by destruct (m <? align).
Qed.

Lemma place_fields_small dec fl :
  (forall f, f ∈ fl -> exists d, dec (field_name f) (field_ty f) = Ok d /\ kind_sound (dec_kind d)) ->
  forall fs c m, 0 <= c -> c + 16 * blen fl <= 2 ^ 63 -> abi_align m ->
  exists fs' c' m', foldM (place_field dec) (fs, c, m) fl = Ok (fs', c', m') /\
    0 <= c' <= 2 ^ 63 /\ abi_align m'.
Proof.
  induction fl as [|f fl IH]; intros Hd fs c m Hc Hl Hm.
  { do 3 eexists. split; [done|]. unfold blen in Hl; simpl in Hl. split; [lia|done]. }
  rewrite blen_cons in Hl. pose proof (blen_nonneg fl).
  destruct (Hd f) as (d & Hdf & Hk); [left|].
  destruct (place_field_small dec fs c m f d) as (fs1 & c1 & m1 & Hpf & Hc1 & Hm1);
    [done|done|done|unfold USIZE_MAX; lia|done|].
  cbn [foldM]. rewrite Hpf. simpl. apply IH; [|lia..|done]. intros g Hg. apply Hd. by right.
Qed.

Lemma place_fields_ok dec s :
  (forall f, f ∈ schema_fields s ->
     exists d, dec (field_name f) (field_ty f) = Ok d /\ kind_sound (dec_kind d)) ->
  blen (schema_fields s) <= 2 ^ 59 ->
  exists t, place_fields dec s = Ok t /\ root_size t <= 2 ^ 63 + 8.
Proof.
  intros Hd Hl. unfold place_fields.
  destruct (place_fields_small dec (schema_fields s) Hd [] 0 1) as (fs & c & m & -> & Hc & Hm);
    [lia|lia|unfold abi_align; lia|]. simpl.
  destruct (schema_fields s); [by eexists|]. pose proof (abi_align_pos _ Hm).
  destruct (checked_next_multiple_of_small c m) as [r Hr]; [lia|lia|unfold USIZE_MAX; lia|].
  unfold align_up. rewrite Hr. eexists. split; [done|]. simpl.
  apply checked_next_multiple_of_Some in Hr; lia.
Qed.

(** A layoutable type of reasonable width is laid out by every function. *)
Definition lays_out ty : Prop := layoutable ty = true /\ small_type ty = true.

Lemma lays_out_field s f : lays_out (TSchema s) -> f ∈ schema_fields s -> lays_out (field_ty f).
Proof.
  intros [Hl Hs] Hf. simpl in *. apply andb_true_iff in Hs as [_ Hs].
  rewrite forallb_elem in Hl, Hs. split; auto.
Qed.

Lemma lays_out_list e : lays_out (TList e) -> lays_out e /\ e <> TUnit.
Proof. intros [Hl Hs]. destruct e; try done; split; try done; by split. Qed.

Lemma lays_out_payload ty p :
  match ty with TOption _ | TResult _ _ | TEnum _ _ => True | _ => False end ->
  lays_out ty -> p ∈ variant_payload_types ty -> lays_out p.
Proof.
  intros Hv [Hl Hs] Hp. split; [|by eapply small_payloads].
  by eapply (layoutable_payloads ty).
Qed.

Ltac step := apply is_ok_bind; [|intros; apply is_ok_ret].

Lemma layout_complete n :
  (forall fname ty, enough n ty 2 -> lays_out ty -> is_ok (field_layout_decision_for n fname ty)) /\
  (forall fname e, enough n e 2 -> lays_out (TList e) -> is_ok (list_layout_decision n fname e)) /\
  (forall fname e, enough n e 2 -> lays_out (TList e) ->
     is_ok (inner_list_record_alignment n fname e)) /\
  (forall fname ty, enough n ty 3 -> lays_out ty -> is_ok (variant_payload_slot n fname ty)) /\
  (forall fname ty, enough n ty 2 -> lays_out ty -> is_ok (type_graph_alignment n fname ty)) /\
  (forall fname ty, enough n ty 2 -> lays_out ty -> is_ok (ensure_type_layoutable n fname ty)) /\
  (forall fname ty, enough n ty 1 -> lays_out ty ->
     match ty with TOption _ | TResult _ _ | TEnum _ _ => True | _ => False end ->
     is_ok (variant_record_alignment n fname ty)) /\
  (forall s, enough n (TSchema s) 1 -> lays_out (TSchema s) -> is_ok (offsets_for_fuel n s)).
Proof.
  induction n as [|n (Hfld & Hlst & Hinner & Hslot & Hgraph & Hens & Hvar & Hoff)].
  { split_and!; intros; exfalso; unfold enough in *;
      match goal with He : (8 * tsize ?t + _ <= _)%nat |- _ => pose proof (tsize_pos t) end; lia. }
  split_and!.
  - intros fname ty He Hl. destruct ty; try (by destruct Hl); cbn [field_layout_decision_for];
      try apply is_ok_ret; [apply Hlst; [fuel|done]|..]; step;
      solve [apply Hvar; [fuel|done|done] | apply Hoff; [fuel|done]].
  - intros fname ty He Hl. destruct (lays_out_list _ Hl) as [He' Hu].
    destruct ty; try (by destruct Hl); cbn [list_layout_decision];
      try apply is_ok_ret; step;
      solve [apply Hvar; [fuel|done|done] | apply Hoff; [fuel|done] | apply Hinner; [fuel|done]].
  - intros fname ty He Hl. destruct (lays_out_list _ Hl) as [He' Hu].
    destruct ty; try (by destruct Hl); cbn [inner_list_record_alignment];
      try apply is_ok_ret; step;
      solve [apply Hvar; [fuel|done|done] | apply Hoff; [fuel|done] | apply Hinner; [fuel|done]].
  - intros fname ty He Hl. destruct ty; try (by destruct Hl); cbn [variant_payload_slot];
      try apply is_ok_ret; step; (apply Hens; [fuel|done]).
  - intros fname ty He Hl. destruct ty; try (by destruct Hl); cbn [type_graph_alignment];
      try apply is_ok_ret; try (apply Hvar; [fuel|done|done]).
    + destruct (lays_out_list _ Hl) as [He' Hu].
      destruct ty; try done; try apply is_ok_ret; (apply Hgraph; [fuel|done]).
    + apply is_ok_bind; [apply Hoff; [fuel|done]|]. intros t _. step. apply mapM_is_ok.
      intros f Hf. apply Hgraph; [apply field_size_lt in Hf; fuel|by eapply lays_out_field].
  - intros fname ty He Hl. destruct ty; try (by destruct Hl); cbn [ensure_type_layoutable];
      try apply is_ok_ret; step;
      solve [apply Hvar; [fuel|done|done] | apply Hoff; [fuel|done] | apply Hlst; [fuel|done]].
  - intros fname ty He Hl Hv.
    assert (is_ok (foldM (fun align payload =>
                 let* (_, slot_align) := variant_payload_slot n fname payload in
                 let* graph_align := type_graph_alignment n fname payload in
                 Ok (Z.max (Z.max (Z.max align slot_align) graph_align) 1))
              4 (variant_payload_types ty))) as Hok.
    { apply foldM_is_ok. intros a p Hp.
      pose proof (variant_payload_types_size _ _ Hp). pose proof (lays_out_payload _ _ Hv Hl Hp).
      apply is_ok_bind; [apply Hslot; [fuel|done]|]. intros [? ?] _. step.
      apply Hgraph; [fuel|done]. }
    by destruct ty.
  - intros s He Hl. cbn [offsets_for_fuel].
    destruct (place_fields_ok (field_layout_decision_for n) s) as (t & Ht & _); [..|by exists t].
    + intros f Hf. destruct (Hfld (field_name f) (field_ty f)) as [d Hd].
      * apply field_size_lt in Hf. fuel.
      * by eapply lays_out_field.
      * exists d. split; [done|]. by eapply decision_kind_sound.
    + destruct Hl as [_ Hs]. simpl in Hs. apply andb_true_iff in Hs as [Hs _]. by zb.
Qed.

(** Records of reasonable width are far smaller than the address space. *)
Lemma root_size_small s t :
  offsets_for s = Ok t -> small_type (TSchema s) = true -> root_size t <= 2 ^ 63 + 8.
Proof.
  intros Ht Hs. simpl in Hs. apply andb_true_iff in Hs as [Hl _]. zb. unfold offsets_for in Ht.
  destruct (layout_fuel (TSchema s)) as [|n]; [done|]. cbn [offsets_for_fuel] in Ht.
  destruct (place_fields_ok (field_layout_decision_for n) s) as (t' & Ht' & Hr); [|done|].
  - intros f (i & Hi)%list_elem_of_lookup_1. apply place_fields_match in Ht.
    destruct (Forall2_lookup_l _ _ _ _ _ Ht Hi) as (fo & _ & _ & Hd).
    eexists. split; [exact Hd|]. by eapply decision_kind_sound.
  - assert (t' = t) as <- by congruence. done.
Qed.

Lemma offsets_for_complete s : lays_out (TSchema s) -> is_ok (offsets_for s).
Proof. intros Hl. apply layout_complete; [unfold enough, layout_fuel; lia|done]. Qed.
End Facts.

(** ** Properties *)

Section Properties.
Context {H : HostTypes}.

(** The offset table lists the declared fields, in declaration order and
    under their own names. *)
Lemma offsets_for_names s t :
  offsets_for s = Ok t -> map fo_name (ot_fields t) = map field_name (schema_fields s).
Proof.
  intros Ht%place_fields_match. induction Ht as [|f fo fs fos [Hn _] _ IH]; simpl; [done|].
  by rewrite Hn, IH.
Qed.
(** C14 Layout soundness: whatever the schema, [SchemaLayout::offsets_for]
    terminates without aborting, and a table it returns has every slot
    naturally aligned, inside the record, no larger than its alignment class,
    placed in declaration order without overlap, and a record size padded to
    the record alignment; it lists the declared fields in order under their own
    names, and two different fields never share a byte. *)
Theorem offsets_for_sound s :
  offsets_for s <> Abort /\ forall t, offsets_for s = Ok t ->
    table_sound t /\ map fo_name (ot_fields t) = map field_name (schema_fields s) /\
    forall i j a b, i <> j -> ot_fields t !! i = Some a -> ot_fields t !! j = Some b ->
      fo_end a <= fo_offset b \/ fo_end b <= fo_offset a.
Proof.
  split; [apply offsets_for_total|]. intros t Ht.
  pose proof (offsets_for_fuel_sound _ _ _ Ht) as Hs.
  split_and!; [done|by apply offsets_for_names|]. intros i j a b. by apply table_sound_disjoint.
Qed.

(** The layout pass decides exactly the layoutable schemas: for records of
    any realistic width it succeeds if and only if no closure is reachable
    and no list has unit elements. *)
Theorem offsets_for_iff_layoutable s :
  small_type (TSchema s) = true ->
  (is_ok (offsets_for s) <-> layoutable (TSchema s) = true).
Proof.
  intros Hs. split.
  - intros [t Ht]. by apply layout_ok_layoutable in Ht.
  - intros Hl. by apply offsets_for_complete.
Qed.
End Properties.

(** ** Witnesses *)

#[local] Existing Instance unit_host.

(** A user record with an option, a list of strings and a nested record. *)
Definition demo_inner : Schema :=
  MkSchema "Inner" []
    [MkField "id" TInt None; MkField "ok" TBool None] false.

Definition demo_schema : Schema :=
  MkSchema "User" []
    [MkField "age" TInt None;
     MkField "active" TBool None;
     MkField "tags" (TList TString) None;
     MkField "score" (TOption TFloat) None;
     MkField "inner" (TSchema demo_inner) None] false.

Definition demo_table : OffsetTable :=
  match offsets_for demo_schema with
  | Ok t => t
  | _ => MkOffsetTable [] 0 1
  end.

Lemma offsets_for_sound_witness : table_sound demo_table.
Proof. apply (proj2 (offsets_for_sound demo_schema) demo_table). vm_compute; reflexivity. Defined.

Lemma offsets_for_iff_layoutable_witness :
  is_ok (offsets_for demo_schema) <-> layoutable (TSchema demo_schema) = true.
Proof. apply (offsets_for_iff_layoutable demo_schema). vm_compute; reflexivity. Defined.
