(* ===== verification/Value.v ===== *)
(** Runtime values of [crates/relon-eval-api/src/value.rs] as far as the ABI
    sees them: [Value], [ValueDict] and their constructors, with
    [BTreeMap<SmolStr, Value>] as an association list sorted by key.  A float
    is its IEEE-754 bit pattern; a [&str] is a byte string that passes
    [std::str::from_utf8], whose acceptance table is [utf8_valid]. *)

From Stdlib Require Import ZArith Lia Bool Ascii.
From Stdlib Require Import Strings.String.
From coqutil Require Import Byte.
From stdpp Require Import base list strings.
From S2P Require Import Prelude Bytes SchemaCanonical.
Local Open Scope Z_scope.
Local Open Scope abi_scope.

(** ** Strings and their bytes *)

(** [s.as_bytes()] and the unchecked inverse. *)
Definition as_bytes (s : string) : bytes := String.list_byte_of_string s.
Definition str_of_bytes (b : bytes) : string := String.string_of_list_byte b.

(** UTF-8 continuation byte, restricted to [lo..hi] for the second byte. *)
Definition cont_in (lo hi b : Z) : bool := (lo <=? b) && (b <=? hi).
Definition cont (b : Z) : bool := cont_in 128 191 b.

(** Well-formed UTF-8 byte sequences (the table of [core::str]'s
    [run_utf8_validation]). *)
Fixpoint utf8_codes (b : list Z) : bool :=
  match b with
  | [] => true
  | b0 :: r =>
    if b0 <? 128 then utf8_codes r else
    match r with
    | [] => false
    | b1 :: r1 =>
      if cont_in 194 223 b0 then cont b1 && utf8_codes r1 else
      match r1 with
      | [] => false
      | b2 :: r2 =>
        if b0 =? 224 then cont_in 160 191 b1 && cont b2 && utf8_codes r2
        else if cont_in 225 236 b0 || cont_in 238 239 b0
             then cont b1 && cont b2 && utf8_codes r2
        else if b0 =? 237 then cont_in 128 159 b1 && cont b2 && utf8_codes r2
        else match r2 with
        | [] => false
        | b3 :: r3 =>
          if b0 =? 240 then cont_in 144 191 b1 && cont b2 && cont b3 && utf8_codes r3
          else if cont_in 241 243 b0 then cont b1 && cont b2 && cont b3 && utf8_codes r3
          else if b0 =? 244 then cont_in 128 143 b1 && cont b2 && cont b3 && utf8_codes r3
          else false
        end
      end
    end
  end.

Definition utf8_valid (b : bytes) : bool := utf8_codes (map byte.unsigned b).

(** [std::str::from_utf8(b).ok()] *)
Definition from_utf8 (b : bytes) : option string :=
  if utf8_valid b then Some (str_of_bytes b) else None.

(** The invariant of the Rust type [str]. *)
Definition is_str (s : string) : bool := utf8_valid (as_bytes s).

(** ** Values *)

(** [i as f64] for an [i64], as the bit pattern of the double: the cast rounds
    to nearest, ties to even. *)
Definition i64_as_f64 (i : Z) : Z :=
  if i =? 0 then 0 else
  let sign := if i <? 0 then 1 else 0 in
  let m := Z.abs i in
  let e := Z.log2 m in
  let q :=
    if e <=? 52 then Z.shiftl m (52 - e) else
    let s := e - 52 in
    let q := Z.shiftr m s in
    let r := m mod 2 ^ s in
    let half := 2 ^ (s - 1) in
    if (half <? r) || ((r =? half) && Z.odd q) then q + 1 else q in
  let '(e, q) := if q =? 2 ^ 53 then (e + 1, 2 ^ 52) else (e, q) in
  sign * 2 ^ 63 + (e + 1023) * 2 ^ 52 + (q - 2 ^ 52).

Record dict_of (V : Type) : Type := MkDict {
  dict_map : list (string * V);
  dict_brand : option string;
  dict_variant_of : option string;
}.
Arguments MkDict {V} _ _ _.
Arguments dict_map {V} _.
Arguments dict_brand {V} _.
Arguments dict_variant_of {V} _.

Inductive Value {H : HostTypes} : Type :=
| VBool (b : bool)
| VInt (i : Z)
| VFloat (bits : Z)
| VString (s : string)
| VList (items : list Value)
| VTuple (items : list Value)
| VDict (d : dict_of Value)
| VClosure (data : opaque_payload)
| VSchema (data : opaque_payload)
| VEnumSchema (data : opaque_payload)
| VType (data : opaque_payload)
| VWildcard.

Abbreviation ValueDict := (dict_of Value).

(** ** [BTreeMap<SmolStr, _>] as a key-sorted association list *)

Section Map.
Context {V : Type}.

(** [map.insert(k, v)] *)
Fixpoint map_insert (k : string) (v : V) (m : list (string * V)) : list (string * V) :=
  match m with
  | [] => [(k, v)]
  | (k', v') :: rest =>
      match String.compare k k' with
      | Lt => (k, v) :: m
      | Eq => (k, v) :: rest
      | Gt => (k', v') :: map_insert k v rest
      end
  end.

(** [map.get(k)] *)
Fixpoint map_get (k : string) (m : list (string * V)) : option V :=
  match m with
  | [] => None
  | (k', v') :: rest => if bool_decide (k = k') then Some v' else map_get k rest
  end.
End Map.

Section Values.
Context {H : HostTypes}.

(** [Value::branded_dict], [Value::variant_dict] *)
Definition branded_dict (map : list (string * Value)) (brand : option string) : Value :=
  VDict (MkDict map brand None).

Definition variant_dict (map : list (string * Value)) (variant enum_name : string) : Value :=
  VDict (MkDict map (Some variant) (Some enum_name)).

Definition option_some (value : Value) : Value :=
  variant_dict (map_insert "value" value []) "Some" "Option".

Definition option_none : Value := variant_dict [] "None" "Option".

Definition result_ok (value : Value) : Value :=
  variant_dict (map_insert "value" value []) "Ok" "Result".

Definition result_err (error : Value) : Value :=
  variant_dict (map_insert "error" error []) "Err" "Result".

(** [Value::is_option_none] *)
Definition is_option_none (v : Value) : bool :=
  match v with
  | VDict d =>
      bool_decide (dict_variant_of d = Some "Option"%string) &&
      bool_decide (dict_brand d = Some "None"%string)
  | _ => false
  end.

(** [Value::option_some_value] *)
Definition option_some_value (v : Value) : option Value :=
  match v with
  | VDict d =>
      if bool_decide (dict_variant_of d = Some "Option"%string) &&
         bool_decide (dict_brand d = Some "Some"%string)
      then map_get "value" (dict_map d) else None
  | _ => None
  end.

(** [Value::type_name] *)
Definition type_name (v : Value) : string :=
  match v with
  | VBool _ => "Bool"
  | VInt _ => "Int"
  | VFloat _ => "Float"
  | VString _ => "String"
  | VList _ => "List"
  | VTuple _ => "Tuple"
  | VDict _ => "Dict"
  | VClosure _ => "Closure"
  | VSchema _ => "Schema"
  | VEnumSchema _ => "EnumSchema"
  | VType _ => "Type"
  | VWildcard => "Wildcard"
  end.
End Values.

(** ** Lemmas *)

Lemma str_of_as_bytes s : str_of_bytes (as_bytes s) = s.
Proof. apply String.string_of_list_byte_of_string. Qed.

Lemma as_bytes_of_str b : as_bytes (str_of_bytes b) = b.
Proof. apply String.list_byte_of_string_of_list_byte. Qed.

Lemma from_utf8_as_bytes s : is_str s = true -> from_utf8 (as_bytes s) = Some s.
Proof. unfold is_str, from_utf8. intros ->. by rewrite str_of_as_bytes. Qed.

Lemma from_utf8_is_str b s : from_utf8 b = Some s -> is_str s = true /\ as_bytes s = b.
Proof.
  unfold from_utf8, is_str. destruct (utf8_valid b) eqn:Hv; [|done].
  intros [= <-]. by rewrite as_bytes_of_str.
Qed.

Lemma string_compare_refl s : String.compare s s = Eq.
Proof.
  pose proof (String.compare_antisym s s) as Ha. by destruct (String.compare s s).
Qed.

Lemma map_get_insert {V} k (v : V) m : map_get k (map_insert k v m) = Some v.
Proof.
  induction m as [|[k' v'] m IH]; simpl.
  - by rewrite bool_decide_true.
  - destruct (String.compare k k') eqn:Hc; simpl; [by rewrite bool_decide_true..|].
    destruct (bool_decide_reflect (k = k')) as [->|]; [|done].
    by rewrite string_compare_refl in Hc.
Qed.

Lemma map_get_insert_ne {V} k j (v : V) m :
  j <> k -> map_get j (map_insert k v m) = map_get j m.
Proof.
  intros Hne. induction m as [|[k' v'] m IH]; simpl.
  - by rewrite bool_decide_false.
  - destruct (String.compare k k') eqn:Hc; simpl.
    + apply String.compare_eq_iff in Hc as ->. by rewrite !(bool_decide_false (j = k')).
    + by rewrite (bool_decide_false (j = k)).
    + by rewrite IH.
Qed.
