(* ===== verification/Verifier.v ===== *)
(** The host-walk bounds verifier of [crates/relon-abi/src/verifier.rs]:
    [Region], [MultiRegion], [Bounds] and the recursive walk behind
    [verify_record], [verify_record_multi], [verify_value_at] and
    [verify_value_at_multi].

    The walk is structural in the schema but rebuilds the payload schema of an
    enum variant on the way, so the model threads a fuel bounded by [tsize];
    [VerifierFacts] proves that no call aborts, hence that the fuel and every
    slice index are always in range. *)

From Stdlib Require Import ZArith Lia Bool.
From stdpp Require Import base list strings.
From S2P Require Import Prelude SchemaCanonical Layout.
Local Open Scope Z_scope.
Local Open Scope abi_scope.

Record Region : Type := MkRegion { reg_start : Z; reg_end : Z }.

Inductive VerifyError : Type :=
| DegenerateRegion (rstart rend : Z)
| BufferShorterThanRegion (have rend : Z)
| FixedSlotOutOfRegion (field : string) (offset size rstart rend : Z)
| OutOfRegion (field what : string) (offset len rstart rend : Z)
| SpanOverflow (field what : string)
| UnsupportedType (field ty : string)
| NoRegion (field what : string) (offset len : Z)
| DepthExceeded (field : string) (depth : Z).

(** [Region::new] *)
Definition region_new (rstart rend : Z) : outcome VerifyError Region :=
  if rend <? rstart then Err (DegenerateRegion rstart rend)
  else Ok (MkRegion rstart rend).

(** [Region::contains_span] *)
Definition contains_span (r : Region) (off len : Z) : bool :=
  match checked_add off len with
  | Some rend => (reg_start r <=? off) && (rend <=? reg_end r)
  | None => false
  end.

Inductive RegionTag : Type := RConst | RIn | ROut | RScratch.

(** The array [[(RegionTag, Region); 4]] of the source, in its order. *)
Record MultiRegion : Type := MkMulti { regions : list (RegionTag * Region) }.

(** [MultiRegion::new] *)
Definition multi_region_new (const_data in_buf out_buf scratch : Z * Z)
    : outcome VerifyError MultiRegion :=
  let* c := region_new (fst const_data) (snd const_data) in
  let* i := region_new (fst in_buf) (snd in_buf) in
  let* o := region_new (fst out_buf) (snd out_buf) in
  let* s := region_new (fst scratch) (snd scratch) in
  Ok (MkMulti [(RConst, c); (RIn, i); (ROut, o); (RScratch, s)]).

(** [MultiRegion::max_end] *)
Definition max_end (m : MultiRegion) : Z :=
  max_list_Z 0 (map (fun tr => reg_end (snd tr)) (regions m)).

(** [MultiRegion::classify_span] *)
Definition classify_span (m : MultiRegion) (off len : Z) : option RegionTag :=
  fst <$> List.find (fun tr => contains_span (snd tr) off len) (regions m).

Inductive Bounds : Type :=
| Single (region : Region)
| Multi (multi : MultiRegion).

(** [Bounds::required_len] *)
Definition required_len (b : Bounds) : Z :=
  match b with
  | Single r => reg_end r
  | Multi m => max_end m
  end.

(** [Bounds::require_span] *)
Definition require_span (b : Bounds) (field what : string) (off len : Z)
    : outcome VerifyError unit :=
  match checked_add off len with
  | None => Err (SpanOverflow field what)
  | Some _ =>
      match b with
      | Single r =>
          if contains_span r off len then Ok tt
          else Err (OutOfRegion field what off len (reg_start r) (reg_end r))
      | Multi m =>
          match classify_span m off len with
          | Some _ => Ok tt
          | None => Err (NoRegion field what off len)
          end
      end
  end.

(** [Bounds::require_fixed_slot] *)
Definition require_fixed_slot (b : Bounds) (field : string) (off size : Z)
    : outcome VerifyError unit :=
  match b with
  | Single r =>
      if contains_span r off size then Ok tt
      else Err (FixedSlotOutOfRegion field off size (reg_start r) (reg_end r))
  | Multi m =>
      match classify_span m off size with
      | Some _ => Ok tt
      | None => Err (NoRegion field "record fixed slot" off size)
      end
  end.

Definition MAX_DEPTH : Z := 64.

(** The bounds-checked [read_u32] *)
Definition read_u32 (b : bytes) (off : Z) (field what : string) (bounds : Bounds)
    : outcome VerifyError Z :=
  let* _ := require_span bounds field what off 4 in
  let* s := slice b off 4 in
  Ok (u32_from_le s).

(** [verifier::align_up]: no-op for [align <= 1] *)
Definition verify_align_up (off align : Z) : option Z :=
  if align <=? 1 then Some off else checked_next_multiple_of off align.

Section Verifier.
Context {H : HostTypes}.

Definition type_label (ty : TypeRepr) : string :=
  match ty with
  | TUnit => "Unit"
  | TBool => "Bool"
  | TInt => "Int"
  | TFloat => "Float"
  | TString => "String"
  | TList _ => "List"
  | TOption _ => "Option"
  | TResult _ _ => "Result"
  | TEnum _ _ => "Enum"
  | TSchema _ => "Schema"
  | TClosure _ _ => "Closure"
  end.

Definition variant_payload_type (ty : TypeRepr) (tag : Z) : option (option TypeRepr) :=
  match ty with
  | TOption inner =>
      if tag =? 0 then Some None
      else if tag =? 1 then Some (Some inner) else None
  | TResult ok_ty err_ty =>
      if tag =? 0 then Some (Some ok_ty)
      else if tag =? 1 then Some (Some err_ty) else None
  | TEnum name variants =>
      (fun v => TSchema <$> payload_schema v name) <$>
        List.find (fun v => variant_tag v =? tag) variants
  | _ => None
  end.

Definition variant_payload_slot_layout (ty : TypeRepr) : Z * Z :=
  match ty with
  | TUnit | TBool => (1, 1)
  | TInt | TFloat => (8, 8)
  | _ => (4, 4)
  end.

(** The element sidecar of a list type, recomputed through the one-field
    probe schema. *)
Definition probe_schema (ty : TypeRepr) : Schema :=
  MkSchema "<probe>" [] [MkField "f" ty None] false.

Definition list_kind_for_list_type (ty : TypeRepr) : option ListElementKind :=
  match ty with
  | TList _ =>
      match ok (offsets_for (probe_schema ty)) with
      | Some t => match ot_fields t with
                  | fo :: _ => fo_list_element fo
                  | [] => None
                  end
      | None => None
      end
  | _ => None
  end.

Definition element_list_kind (element : TypeRepr) : option ListElementKind :=
  match element with
  | TList _ => list_kind_for_list_type element
  | _ => None
  end.

(** Does a payload type sit behind a pointer slot? (the second arm of the
    payload match of [verify_variant_target]). *)
Definition is_pointer_type (ty : TypeRepr) : bool :=
  match ty with
  | TString | TSchema _ | TList _ | TOption _ | TResult _ _ | TEnum _ _ => true
  | _ => false
  end.

(** One iteration of the loop of [verify_record_inner], over the verification
    [target] of a pointer. *)
Definition verify_slot
    (target : string -> TypeRepr -> option ListElementKind -> Z -> outcome VerifyError unit)
    (b : bytes) (fields : list Field) (record_base : Z) (bounds : Bounds)
    (fo : FieldOffset) : outcome VerifyError unit :=
  let* slot_abs := ok_or (checked_add record_base (fo_offset fo))
                         (SpanOverflow (fo_name fo) "fixed slot offset") in
  let* _ := require_fixed_slot bounds (fo_name fo) slot_abs (fo_size fo) in
  match fo_kind fo with
  | Inline _ _ => Ok tt
  | PointerIndirect _ =>
      let* f := ok_or (find_field (fo_name fo) fields)
                      (UnsupportedType (fo_name fo) "<missing schema field>") in
      let* ptr := read_u32 b slot_abs (fo_name fo) "pointer slot" bounds in
      target (fo_name fo) (field_ty f) (fo_list_element fo) ptr
  end.

Fixpoint verify_record_inner (n : nat) (b : bytes) (layout : OffsetTable)
    (fields : list Field) (record_base : Z) (bounds : Bounds) (depth : Z) {struct n}
    : outcome VerifyError unit :=
  match n with
  | O => Abort
  | S n =>
    if MAX_DEPTH <=? depth then Err (DepthExceeded "<record>" MAX_DEPTH) else
    let* _ := require_fixed_slot bounds "<root>" record_base (root_size layout) in
    foldM (fun _ fo =>
             verify_slot
               (fun name ty le ptr => verify_pointer_target n b name ty le ptr bounds depth)
               b fields record_base bounds fo)
          tt (ot_fields layout)
  end

with verify_pointer_target (n : nat) (b : bytes) (field : string) (ty : TypeRepr)
    (list_element : option ListElementKind) (ptr : Z) (bounds : Bounds) (depth : Z)
    {struct n} : outcome VerifyError unit :=
  match n with
  | O => Abort
  | S n =>
    match ty with
    | TString =>
        let* len := read_u32 b ptr field "length prefix" bounds in
        let* payload := ok_or (checked_add ptr 4)
                              (SpanOverflow field "string payload start") in
        require_span bounds field "string payload" payload len
    | TSchema schema =>
        let* sub_layout :=
          map_err (fun _ => UnsupportedType field "Schema (unlayoutable)")
                  (offsets_for schema) in
        verify_record_inner n b sub_layout (schema_fields schema) ptr bounds (depth + 1)
    | TList element => verify_list_target n b field element list_element ptr bounds depth
    | TOption _ | TResult _ _ | TEnum _ _ =>
        verify_variant_target n b field ty ptr bounds depth
    | other => Err (UnsupportedType field (type_label other))
    end
  end

with verify_variant_target (n : nat) (b : bytes) (field : string) (ty : TypeRepr)
    (ptr : Z) (bounds : Bounds) (depth : Z) {struct n} : outcome VerifyError unit :=
  match n with
  | O => Abort
  | S n =>
    if MAX_DEPTH <=? depth then Err (DepthExceeded field MAX_DEPTH) else
    let* _ := require_span bounds field "variant tag" ptr 1 in
    let* tag := index b ptr in
    let* payload := ok_or (variant_payload_type ty tag)
                          (UnsupportedType field (type_label ty)) in
    match payload with
    | None => Ok tt
    | Some payload_ty =>
        let '(slot_size, slot_align) := variant_payload_slot_layout payload_ty in
        let* after_tag := ok_or (checked_add ptr 1)
                                (SpanOverflow field "variant payload slot start") in
        let* slot := ok_or (verify_align_up after_tag slot_align)
                           (SpanOverflow field "variant payload slot alignment") in
        let* _ := require_span bounds field "variant payload slot" slot slot_size in
        match payload_ty with
        | TUnit | TBool | TInt | TFloat => Ok tt
        | TString | TSchema _ | TList _ | TOption _ | TResult _ _ | TEnum _ _ =>
            let* target := read_u32 b slot field "variant payload pointer" bounds in
            verify_pointer_target n b field payload_ty (list_kind_for_list_type payload_ty)
                                  target bounds (depth + 1)
        | TClosure _ _ => Err (UnsupportedType field "Closure")
        end
    end
  end

with verify_list_target (n : nat) (b : bytes) (field : string) (element : TypeRepr)
    (list_element : option ListElementKind) (ptr : Z) (bounds : Bounds) (depth : Z)
    {struct n} : outcome VerifyError unit :=
  match n with
  | O => Abort
  | S n =>
    let* count := read_u32 b ptr field "list length prefix" bounds in
    let* entries_start := ok_or (checked_add ptr 4)
                                (SpanOverflow field "list entries start") in
    match list_element with
    | Some (InlineFixed elem_size elem_align) =>
        let* payload_start := ok_or (verify_align_up entries_start elem_align)
                                    (SpanOverflow field "inline list payload start") in
        let* byte_len := ok_or (checked_mul count elem_size)
                               (SpanOverflow field "inline list byte length") in
        require_span bounds field "inline list payload" payload_start byte_len
    | Some (PointerArray _) =>
        let* _ :=
          loop (fun i =>
                  let* rel := ok_or (checked_mul i 4) (SpanOverflow field "list entry index") in
                  let* entry_off := ok_or (checked_add entries_start rel)
                                          (SpanOverflow field "list entry offset") in
                  let* entry_ptr := read_u32 b entry_off field "list entry pointer" bounds in
                  verify_pointer_target n b field element (element_list_kind element)
                                        entry_ptr bounds (depth + 1))
               0 (Z.to_nat count) in
        Ok tt
    | None => Err (UnsupportedType field "List (missing element layout)")
    end
  end.

(** Three calls cross one type level. *)
Definition verify_fuel (size : nat) : nat := 3 * size + 3.

Definition verify_record_with_bounds (b : bytes) (layout : OffsetTable)
    (fields : list Field) (record_base : Z) (bounds : Bounds) : outcome VerifyError unit :=
  let required := required_len bounds in
  if blen b <? required then Err (BufferShorterThanRegion (blen b) required)
  else verify_record_inner (verify_fuel (fields_size fields)) b layout fields
                           record_base bounds 0.

Definition verify_record (b : bytes) (layout : OffsetTable) (fields : list Field)
    (record_base : Z) (region : Region) : outcome VerifyError unit :=
  verify_record_with_bounds b layout fields record_base (Single region).

Definition verify_record_multi (b : bytes) (layout : OffsetTable) (fields : list Field)
    (record_base : Z) (multi : MultiRegion) : outcome VerifyError unit :=
  verify_record_with_bounds b layout fields record_base (Multi multi).

Definition verify_value_at_with_bounds (b : bytes) (ty : TypeRepr)
    (list_element : option ListElementKind) (root : Z) (bounds : Bounds)
    : outcome VerifyError unit :=
  let required := required_len bounds in
  if blen b <? required then Err (BufferShorterThanRegion (blen b) required)
  else verify_pointer_target (verify_fuel (tsize ty)) b "<in-place root>" ty list_element
                             root bounds 0.

Definition verify_value_at (b : bytes) (ty : TypeRepr)
    (list_element : option ListElementKind) (root : Z) (region : Region)
    : outcome VerifyError unit :=
  verify_value_at_with_bounds b ty list_element root (Single region).

Definition verify_value_at_multi (b : bytes) (ty : TypeRepr)
    (list_element : option ListElementKind) (root : Z) (multi : MultiRegion)
    : outcome VerifyError unit :=
  verify_value_at_with_bounds b ty list_element root (Multi multi).
End Verifier.
