(* ===== verification/VerifierFacts.v ===== *)
(** Correctness of the verifier walk: it never aborts, whatever the bytes, and
    every span it accepts lies inside one region of its bounds. *)

From Stdlib Require Import ZArith Lia Bool.
From stdpp Require Import base list strings.
From S2P Require Import Prelude Bytes SchemaCanonical Layout LayoutFacts Verifier.
Local Open Scope Z_scope.
Local Open Scope abi_scope.

(** ** What the bounds promise *)

Definition bounds_regions (b : Bounds) : list Region :=
  match b with
  | Single r => [r]
  | Multi m => map snd (regions m)
  end.

(** Regions start at a [usize]. *)
Definition bounds_wf (b : Bounds) : Prop :=
  forall r, r ∈ bounds_regions b -> 0 <= reg_start r.

(** [[off, off + len)] lies inside one region. *)
Definition span_in (b : Bounds) (off len : Z) : Prop :=
  exists r, r ∈ bounds_regions b /\ reg_start r <= off /\ off + len <= reg_end r.

(** Two byte slices that cover the bounds and agree on every region. *)
Record agree (bounds : Bounds) (b c : bytes) : Prop := {
  agree_l : required_len bounds <= blen b;
  agree_r : required_len bounds <= blen c;
  agree_at : forall r i, r ∈ bounds_regions bounds -> reg_start r <= i < reg_end r ->
    b !! Z.to_nat i = c !! Z.to_nat i;
}.

Lemma fold_max_ge l : forall d, d <= fold_left Z.max l d /\
  forall x, x ∈ l -> x <= fold_left Z.max l d.
Proof.
  induction l as [|y l IH]; intros d; simpl.
  - split; [lia|]. intros x Hx. by apply elem_of_nil in Hx.
  - destruct (IH (Z.max d y)) as [H1 H2]. split; [lia|].
    intros x [->|Hx]%elem_of_cons; [lia|auto].
Qed.

Lemma max_list_Z_ge d l x : x ∈ l -> x <= max_list_Z d l.
Proof.
  destruct l as [|y l]; simpl; [by intros ?%elem_of_nil|].
  destruct (fold_max_ge l y) as [H1 H2]. intros [->|Hx]%elem_of_cons; auto.
Qed.

Lemma region_end_le b r : r ∈ bounds_regions b -> reg_end r <= required_len b.
Proof.
  destruct b as [r0|m]; simpl.
  - intros ->%list_elem_of_singleton. done.
  - intros Hr. unfold max_end. apply max_list_Z_ge.
    rewrite <-(map_map snd reg_end). rewrite list_elem_of_In, in_map_iff.
    rewrite list_elem_of_In in Hr. eauto.
Qed.

Lemma contains_span_true r off len :
  contains_span r off len = true ->
  reg_start r <= off /\ off + len <= reg_end r /\ off + len <= USIZE_MAX.
Proof.
  unfold contains_span. destruct (checked_add off len) eqn:Hc; [|done].
  apply checked_add_Some in Hc as [-> ?]. intros ?. zb. lia.
Qed.

Lemma classify_span_Some m off len t :
  classify_span m off len = Some t -> span_in (Multi m) off len /\ off + len <= USIZE_MAX.
Proof.
  unfold classify_span. destruct (List.find _ _) as [[t' r]|] eqn:Hf; [|done]. intros _.
  apply find_elem in Hf as [Hin Hc]. apply contains_span_true in Hc as (? & ? & ?).
  split; [|done]. exists r. split; [|done]. simpl. apply list_elem_of_fmap. by exists (t', r).
Qed.

Lemma require_span_ok b field what off len u :
  require_span b field what off len = Ok u -> span_in b off len /\ off + len <= USIZE_MAX.
Proof.
  unfold require_span. destruct (checked_add off len) eqn:Ha; [|done].
  destruct b as [r|m].
  - destruct (contains_span r off len) eqn:Hc; [|done]. intros _.
    apply contains_span_true in Hc as (? & ? & ?). split; [|done].
    exists r. split; [by apply list_elem_of_singleton|done].
  - destruct (classify_span m off len) eqn:Hc; [|done]. intros _. by eapply classify_span_Some.
Qed.

Lemma require_fixed_slot_ok b field off len u :
  require_fixed_slot b field off len = Ok u -> span_in b off len /\ off + len <= USIZE_MAX.
Proof.
  unfold require_fixed_slot. destruct b as [r|m].
  - destruct (contains_span r off len) eqn:Hc; [|done]. intros _.
    apply contains_span_true in Hc as (? & ? & ?). split; [|done].
    exists r. split; [by apply list_elem_of_singleton|done].
  - destruct (classify_span m off len) eqn:Hc; [|done]. intros _. by eapply classify_span_Some.
Qed.

Lemma require_span_not_abort b field what off len : require_span b field what off len <> Abort.
Proof.
  unfold require_span. destruct (checked_add off len); [|done].
  destruct b; [by destruct (contains_span _ _ _)|by destruct (classify_span _ _ _)].
Qed.

Lemma require_fixed_slot_not_abort b field off len : require_fixed_slot b field off len <> Abort.
Proof. destruct b; simpl; [by destruct (contains_span _ _ _)|by destruct (classify_span _ _ _)]. Qed.

#[export] Hint Resolve require_span_not_abort require_fixed_slot_not_abort : abi.

Lemma span_in_covered bounds (b : bytes) off len :
  bounds_wf bounds -> required_len bounds <= blen b -> span_in bounds off len ->
  0 <= off /\ off + len <= blen b.
Proof.
  intros Hwf Hlen (r & Hr & Hs & He). pose proof (Hwf r Hr). pose proof (region_end_le _ _ Hr). lia.
Qed.

Lemma span_in_sub bounds off len o l :
  span_in bounds off len -> off <= o -> 0 <= l -> o + l <= off + len -> span_in bounds o l.
Proof. intros (r & Hr & Hs & He) ???. exists r. split; [done|lia]. Qed.

Lemma read_u32_ok bounds (b : bytes) off field what v :
  read_u32 b off field what bounds = Ok v ->
  span_in bounds off 4 /\ off + 4 <= USIZE_MAX /\ is_u32 v /\
  exists s, (forall E, @slice E b off 4 = Ok s) /\ v = u32_from_le s.
Proof.
  unfold read_u32. intros Hr. apply bind_ok in Hr as (u & Hsp & Hr).
  apply require_span_ok in Hsp as [Hsp Hmax]. apply bind_ok in Hr as (s & Hs & Hr). injection Hr as <-.
  split_and!; [done|done| |].
  - by apply u32_from_bound, (slice_length b off 4 s Hs).
  - exists s. split; [|done]. intros E. apply slice_ok in Hs. by apply slice_ok.
Qed.

Lemma read_u32_not_abort bounds (b : bytes) off field what :
  bounds_wf bounds -> required_len bounds <= blen b ->
  read_u32 b off field what bounds <> Abort.
Proof.
  intros Hwf Hlen. na_bind. intros u Hsp.
  apply require_span_ok in Hsp as [Hsp _].
  destruct (span_in_covered bounds b off 4 Hwf Hlen Hsp).
  apply bind_not_abort; [|done]. apply slice_not_abort; lia.
Qed.

#[export] Hint Resolve read_u32_not_abort : abi.

(** ** The walk never aborts *)

Section Total.
Context {H : HostTypes}.

Lemma variant_payload_type_elem ty tag p :
  variant_payload_type ty tag = Some (Some p) -> p ∈ variant_payload_types ty.
Proof.
  destruct ty; simpl; try done.
  - destruct (tag =? 0); [done|]. destruct (tag =? 1); [|done]. intros [= <-]. left.
  - destruct (tag =? 0); [intros [= <-]; left|]. destruct (tag =? 1); [|done].
    intros [= <-]. right. left.
  - destruct (List.find _ _) as [v|] eqn:Hf; [|done]. apply find_elem in Hf as [Hv _].
    intros [= Hp]. apply list_elem_of_omap. by exists v.
Qed.

Context (b : bytes) (bounds : Bounds).
Context (Hwf : bounds_wf bounds) (Hlen : required_len bounds <= blen b).

Lemma verify_fuel_enough n :
  (forall layout fields base depth, (3 * fields_size fields + 1 <= n)%nat ->
     verify_record_inner n b layout fields base bounds depth <> Abort) /\
  (forall field ty le ptr depth, (3 * tsize ty <= n)%nat ->
     verify_pointer_target n b field ty le ptr bounds depth <> Abort) /\
  (forall field ty ptr depth, (3 * tsize ty <= n + 1)%nat ->
     verify_variant_target n b field ty ptr bounds depth <> Abort) /\
  (forall field e le ptr depth, (3 * tsize e + 1 <= n)%nat ->
     verify_list_target n b field e le ptr bounds depth <> Abort).
Proof.
  induction n as [|n (Hrec & Hptr & Hvar & Hlst)].
  { split_and!; intros; try pose proof (tsize_pos ty); lia. }
  split_and!.
  - intros layout fields base depth Hn. cbn [verify_record_inner].
    destruct (MAX_DEPTH <=? depth); [done|].
    na_bind. intros _ _.
    apply (foldM_not_abort (fun _ => True)); [done|]. intros _ fo _ _. split; [|done].
    unfold verify_slot. na_bind. intros slot _.
    na_bind. intros _ _. destruct (fo_kind fo); [done|].
    na_bind. intros f Hf%ok_or_ok%find_field_elem.
    na_bind. intros ptr _. apply Hptr.
    destruct Hf as [Hf%fields_size_elem _]. lia.
  - intros field ty le ptr depth Hn. destruct ty; try done; cbn [verify_pointer_target].
    + na_bind. intros len _.
      na_bind. intros p _. auto with abi.
    + apply Hlst. simpl in Hn. lia.
    + apply Hvar. lia.
    + apply Hvar. lia.
    + apply Hvar. lia.
    + apply bind_not_abort.
      { rewrite map_err_abort. apply offsets_for_total. }
      intros t _. apply Hrec. rewrite tsize_schema in Hn. lia.
  - intros field ty ptr depth Hn. cbn [verify_variant_target].
    destruct (MAX_DEPTH <=? depth); [done|].
    na_bind. intros _ Hsp%require_span_ok.
    destruct Hsp as [Hsp _]. destruct (span_in_covered bounds b ptr 1 Hwf Hlen Hsp).
    apply bind_not_abort; [apply index_not_abort; lia|]. intros tag _.
    na_bind. intros [p|] Hp%ok_or_ok; [|done].
    apply variant_payload_type_elem, variant_payload_types_size in Hp.
    destruct (variant_payload_slot_layout p) as [size align].
    na_bind. intros at_ _.
    na_bind. intros slot _.
    na_bind. intros _ _.
    destruct p; try done;
      (na_bind; intros tgt _; apply Hptr; lia).
  - intros field e le ptr depth Hn. cbn [verify_list_target].
    na_bind. intros count _.
    na_bind. intros start _.
    destruct le as [[es ea|ea]|]; [| |done].
    + na_bind. intros ps _.
      na_bind. intros bl _. auto with abi.
    + apply bind_not_abort; [|done]. apply loop_not_abort. intros i _.
      na_bind. intros rel _.
      na_bind. intros eo _.
      na_bind. intros ep _. apply Hptr. lia.
Qed.
End Total.

(** ** The walk reads only the regions *)

Section Agree.
Context {H : HostTypes}.
Context (bounds : Bounds) (b c : bytes).
Context (Hwf : bounds_wf bounds) (Hag : agree bounds b c).

Lemma agree_span_slice {E} off len :
  span_in bounds off len -> @slice E b off len = slice c off len.
Proof.
  intros Hs. pose proof (span_in_covered bounds b off len Hwf (agree_l _ _ _ Hag) Hs).
  pose proof (span_in_covered bounds c off len Hwf (agree_r _ _ _ Hag) Hs).
  apply slice_agree_in; [lia..|]. intros i Hi. destruct Hs as (r & Hr & ? & ?).
  rewrite <-(Nat2Z.id i). eapply (agree_at _ _ _ Hag); [done|lia].
Qed.

Lemma agree_span_index {E} off :
  span_in bounds off 1 -> @index E b off = index c off.
Proof.
  intros Hs. pose proof (span_in_covered bounds b off 1 Hwf (agree_l _ _ _ Hag) Hs).
  apply index_agree. intros _. destruct Hs as (r & Hr & ? & ?).
  eapply (agree_at _ _ _ Hag); [done|lia].
Qed.

Lemma read_u32_agree off field what :
  read_u32 b off field what bounds = read_u32 c off field what bounds.
Proof.
  unfold read_u32. destruct (require_span _ _ _ _ _) as [u| |] eqn:Hr; simpl; [|done|done].
  apply require_span_ok in Hr as [Hs _]. by rewrite agree_span_slice.
Qed.

Lemma bind_ext {E A B} (m : outcome E A) (k k' : A -> outcome E B) :
  (forall a, m = Ok a -> k a = k' a) -> bind m k = bind m k'.
Proof. destruct m; simpl; auto. Qed.

Lemma foldM_ext {E S A} (f g : S -> A -> outcome E S) l :
  forall s, (forall s x, x ∈ l -> f s x = g s x) -> foldM f s l = foldM g s l.
Proof.
  induction l as [|x l IH]; intros s Hfg; simpl; [done|].
  rewrite Hfg by left. apply bind_ext. intros s' _. apply IH. intros ? ? ?. apply Hfg. by right.
Qed.

Lemma verify_walk_agree n :
  (forall layout fields base depth,
     verify_record_inner n b layout fields base bounds depth
     = verify_record_inner n c layout fields base bounds depth) /\
  (forall field ty le ptr depth,
     verify_pointer_target n b field ty le ptr bounds depth
     = verify_pointer_target n c field ty le ptr bounds depth) /\
  (forall field ty ptr depth,
     verify_variant_target n b field ty ptr bounds depth
     = verify_variant_target n c field ty ptr bounds depth) /\
  (forall field e le ptr depth,
     verify_list_target n b field e le ptr bounds depth
     = verify_list_target n c field e le ptr bounds depth).
Proof.
  induction n as [|n (Hrec & Hptr & Hvar & Hlst)]; [done|]. split_and!.
  - intros layout fields base depth. cbn [verify_record_inner].
    destruct (MAX_DEPTH <=? depth); [done|]. apply bind_ext. intros _ _.
    apply foldM_ext. intros _ fo _. unfold verify_slot.
    apply bind_ext. intros slot _. apply bind_ext. intros _ _. destruct (fo_kind fo); [done|].
    apply bind_ext. intros f _. rewrite read_u32_agree. apply bind_ext. intros p _. apply Hptr.
  - intros field ty le ptr depth. destruct ty; try done; cbn [verify_pointer_target]; auto.
    + by rewrite read_u32_agree.
    + apply bind_ext. intros t _. apply Hrec.
  - intros field ty ptr depth. cbn [verify_variant_target].
    destruct (MAX_DEPTH <=? depth); [done|]. apply bind_ext. intros _ Hs%require_span_ok.
    rewrite (agree_span_index ptr) by apply Hs. apply bind_ext. intros tag _.
    apply bind_ext. intros [p|] _; [|done].
    destruct (variant_payload_slot_layout p) as [size align].
    apply bind_ext. intros at_ _. apply bind_ext. intros slot _. apply bind_ext. intros _ _.
    destruct p; try done; rewrite read_u32_agree; apply bind_ext; intros tgt _; apply Hptr.
  - intros field e le ptr depth. cbn [verify_list_target]. rewrite read_u32_agree.
    apply bind_ext. intros count _. apply bind_ext. intros es _.
    destruct le as [[es' ea|ea]|]; [done| |done]. f_equal. apply loop_ext. intros i _.
    apply bind_ext. intros rel _. apply bind_ext. intros eo _.
    rewrite read_u32_agree. apply bind_ext. intros ep _. apply Hptr.
Qed.
End Agree.

(** ** Properties *)

Section Properties.
Context {H : HostTypes}.

(** C15 The verifier never panics, reads out of range or diverges: on any
    bytes, any offset table and any record base [verify_record] and
    [verify_record_multi], and on any root the bare-value entry points
    [verify_value_at] and [verify_value_at_multi], return [Ok] or a
    [VerifyError]. *)
Theorem verify_total b bounds :
  bounds_wf bounds ->
  (forall layout fields base, verify_record_with_bounds b layout fields base bounds <> Abort) /\
  (forall ty le root, verify_value_at_with_bounds b ty le root bounds <> Abort).
Proof.
  intros Hwf. split; intros;
    [unfold verify_record_with_bounds|unfold verify_value_at_with_bounds]; destruct (_ <? _) eqn:Hl;
    try done; zb; (apply verify_fuel_enough; [done|done|]; unfold verify_fuel; lia).
Qed.

(** Single- and multi-region confinement: every span the bounds discipline
    accepts lies inside one declared region, without wrapping. *)
Theorem require_span_confined bounds field what off len u :
  require_span bounds field what off len = Ok u ->
  (exists r, r ∈ bounds_regions bounds /\ reg_start r <= off /\ off + len <= reg_end r) /\
  off + len <= USIZE_MAX.
Proof. apply require_span_ok. Qed.

(** The verdict of the verifier is a function of the bytes inside its
    regions: two buffers that cover the bounds and agree on every region get
    the same result, errors included. *)
Theorem verify_record_reads_regions bounds b c layout fields base :
  bounds_wf bounds -> agree bounds b c ->
  verify_record_with_bounds b layout fields base bounds
  = verify_record_with_bounds c layout fields base bounds.
Proof.
  intros Hwf Hag. unfold verify_record_with_bounds.
  rewrite !(proj2 (Z.ltb_ge _ _)) by apply Hag. by apply verify_walk_agree.
Qed.
End Properties.

(** ** Witnesses *)

#[local] Existing Instance unit_host.

Definition demo_region : Bounds := Single (MkRegion 0 40).

Lemma demo_region_wf : bounds_wf demo_region.
Proof. intros r ->%list_elem_of_singleton. simpl. lia. Qed.

Lemma demo_region_agree (tail : bytes) : agree demo_region (zeros 40) (zeros 40 ++ tail).
Proof.
  split; [vm_compute; congruence|rewrite blen_app; pose proof (blen_nonneg tail);
    unfold demo_region; simpl; rewrite blen_zeros; lia|].
  intros r i ->%list_elem_of_singleton Hi. simpl in Hi. symmetry. apply lookup_app_l.
  unfold zeros. rewrite length_replicate. lia.
Qed.

Lemma verify_total_witness :
  bounds_wf demo_region /\
  verify_record_with_bounds (zeros 40) demo_table (schema_fields demo_schema) 0 demo_region <> Abort.
Proof. split; [apply demo_region_wf|]. apply verify_total. apply demo_region_wf. Defined.


