(* ===== verification/BufferTypes.v ===== *)
(** The data shared by the writer and the reader of
    [crates/relon-abi/src/buffer.rs]: [FieldEntry], [BufferError], the
    variant-record helpers and the declared-type checks.

    Arithmetic convention of the buffer components: an addition whose operands
    are a [u32] and a small constant, or that was bounds-checked against the
    buffer length just before, cannot overflow [usize] and is written [+];
    every other plain addition is [usize_add], which aborts on overflow. *)

From Stdlib Require Import ZArith Lia Bool.
From stdpp Require Import base list strings.
From S2P Require Import Prelude SchemaCanonical Layout Value.
Local Open Scope Z_scope.
Local Open Scope abi_scope.

Record FieldEntry {H : HostTypes} : Type := MkEntry {
  fe_name : string;
  fe_ty : TypeRepr;
  fe_offset : Z;
  fe_size : Z;
  fe_kind : FieldKind;
  fe_list_element : option ListElementKind;
}.

Arguments MkEntry {H} _ _ _ _ _ _.
Arguments fe_name {H} _.
Arguments fe_ty {H} _.
Arguments fe_offset {H} _.
Arguments fe_size {H} _.
Arguments fe_kind {H} _.
Arguments fe_list_element {H} _.

Inductive BufferError : Type :=
| UnknownField (name : string)
| TypeMismatch (name declared requested : string)
| BufferTooSmall (have need : Z)
| ValueTooLarge (name : string) (len : Z)
| MalformedPayload (name reason : string).

(** [off.checked_add(n).map(|end| end > bytes.len()).unwrap_or(true)] *)
Definition past_end (b : bytes) (off n : Z) : bool :=
  match checked_add off n with
  | Some e => blen b <? e
  | None => true
  end.

(** [u32::from_le_bytes] of the four bytes at [off], an unchecked slice. *)
Definition get_u32 (b : bytes) (off : Z) : outcome BufferError Z :=
  let* s := slice b off 4 in Ok (u32_from_le s).

Definition get_i64 (b : bytes) (off : Z) : outcome BufferError Z :=
  let* s := slice b off 8 in Ok (i64_from_le s).

(** [f64::from_le_bytes], kept as the bit pattern. *)
Definition get_f64 (b : bytes) (off : Z) : outcome BufferError Z :=
  let* s := slice b off 8 in Ok (u64_from_le s).

Definition get_bool (b : bytes) (off : Z) : outcome BufferError bool :=
  let* x := index b off in Ok (negb (x =? 0)).

(** [usize::next_multiple_of]: overflow aborts. *)
Definition next_multiple_of (v align : Z) : outcome BufferError Z :=
  match checked_next_multiple_of v align with
  | Some r => Ok r
  | None => Abort
  end.

Section BufferTypes.
Context {H : HostTypes}.

(** [buffer::type_label] *)
Definition type_label (ty : TypeRepr) : string :=
  match ty with
  | TUnit => "Unit"
  | TBool => "Bool"
  | TInt => "Int"
  | TFloat => "Float"
  | TString => "String"
  | TList _ => "List"
  | TOption _ => "Option"
  | TResult _ _ => "Result"
  | TEnum _ _ => "Enum"
  | TSchema _ => "Schema"
  | TClosure _ _ => "Closure"
  end.

Fixpoint type_matches (declared requested : TypeRepr) : bool :=
  match declared, requested with
  | TInt, TInt | TFloat, TFloat | TBool, TBool | TUnit, TUnit | TString, TString => true
  | TList d, TList r => type_matches d r
  | TOption d, TOption r => type_matches d r
  | TResult dok derr, TResult rok rerr => type_matches dok rok && type_matches derr rerr
  | TSchema d, TSchema r => schema_eqb d r
  | TEnum dn dv, TEnum rn rv => bool_decide (dn = rn) && list_eqb variant_eqb dv rv
  | _, _ => false
  end.

Definition payload_slot_layout_runtime (ty : TypeRepr) : Z * Z :=
  match ty with
  | TUnit | TBool => (1, 1)
  | TInt | TFloat => (8, 8)
  | TString | TList _ | TSchema _ | TOption _ | TResult _ _ | TEnum _ _
  | TClosure _ _ => (4, 4)
  end.

Record SelectedVariantPayload : Type := MkSelectedPayload {
  svp_ty : TypeRepr;
  svp_key : option string;
}.

Record SelectedVariant : Type := MkSelected {
  sv_name : string;
  sv_payload : option SelectedVariantPayload;
}.

(** The [Err] of [variant_selected_payload] is its reason string. *)
Definition variant_selected_payload (ty : TypeRepr) (tag : Z)
    : outcome string SelectedVariant :=
  match ty with
  | TOption inner =>
      if tag =? 0 then Ok (MkSelected "None" None)
      else if tag =? 1
           then Ok (MkSelected "Some" (Some (MkSelectedPayload inner (Some "value"%string))))
      else Err "invalid Option tag"%string
  | TResult ok_ty err_ty =>
      if tag =? 0
      then Ok (MkSelected "Ok" (Some (MkSelectedPayload ok_ty (Some "value"%string))))
      else if tag =? 1
           then Ok (MkSelected "Err" (Some (MkSelectedPayload err_ty (Some "error"%string))))
      else Err "invalid Result tag"%string
  | TEnum name variants =>
      let* v := ok_or (List.find (fun v => variant_tag v =? tag) variants)
                      "invalid enum tag"%string in
      Ok (MkSelected (variant_name v)
            ((fun s => MkSelectedPayload (TSchema s) None) <$> payload_schema v name))
  | _ => Err "expected variant record"%string
  end.

Definition variant_payload_slot_offset (record_start : Z) (payload_ty : TypeRepr) : option Z :=
  let '(_, align) := payload_slot_layout_runtime payload_ty in
  match checked_add record_start 1 with
  | None => None
  | Some raw => if align <=? 1 then Some raw else checked_next_multiple_of raw align
  end.

Definition list_payload_is_pointer_array (element : TypeRepr) : bool :=
  match element with
  | TString | TSchema _ | TList _ | TOption _ | TResult _ _ | TEnum _ _ => true
  | _ => false
  end.

(** The [filter_map] that joins the offset table with the declared fields;
    [rebase] maps a fixed-area offset to a buffer offset. *)
Definition index_fields (rebase : Z -> outcome BufferError Z)
    (layout : OffsetTable) (fields : list Field) : outcome BufferError (list FieldEntry) :=
  mapM (fun '(fo, f) =>
          let* off := rebase (fo_offset fo) in
          Ok (MkEntry (fo_name fo) (field_ty f) off (fo_size fo) (fo_kind fo)
                      (fo_list_element fo)))
       (omap (fun fo => pair fo <$> find_field (fo_name fo) fields) (ot_fields layout)).

(** [field_index.iter().find(|e| e.name == name)] *)
Definition lookup_entry (index : list FieldEntry) (name : string) : option FieldEntry :=
  List.find (fun e => bool_decide (fe_name e = name)) index.
End BufferTypes.
