(* ===== verification/IndexFacts.v ===== *)
(** The field index that joins an offset table with the declared fields: a
    successful lookup returns the slot the layout pass placed for the first
    field of that name, with its declared type. *)

From Stdlib Require Import ZArith Lia Bool.
From stdpp Require Import base list strings.
From S2P Require Import Prelude Bytes SchemaCanonical Layout LayoutFacts Value BufferTypes.
Local Open Scope Z_scope.
Local Open Scope abi_scope.

(** [find] on two lists related element by element. *)
Lemma find_Forall2 {A B} (R : A -> B -> Prop) (p : A -> bool) (q : B -> bool) l l' :
  Forall2 R l l' -> (forall x y, R x y -> p x = q y) ->
  match List.find p l, List.find q l' with
  | Some x, Some y => R x y /\ exists i : nat, l !! i = Some x /\ l' !! i = Some y
  | None, None => True
  | _, _ => False
  end.
Proof.
  intros Hall Hpq. induction Hall as [|x y l l' Hxy Hall IH]; simpl; [done|].
  rewrite (Hpq x y Hxy). destruct (q y).
  - split; [done|]. by exists 0%nat.
  - destruct (List.find p l), (List.find q l'); try done.
    destruct IH as (? & i & ? & ?). split; [done|]. by exists (S i).
Qed.

Section Index.
Context {H : HostTypes}.

Implicit Types (s : Schema) (f : Field).

(** Inline types and the size of their slot. *)
Definition inline_type (ty : TypeRepr) : bool :=
  match ty with
  | TUnit | TBool | TInt | TFloat => true
  | _ => false
  end.

Definition slot_size (ty : TypeRepr) : Z := fst (payload_slot_layout_runtime ty).

(** The element sidecar of a list of [element]s. *)
Definition sidecar (element : TypeRepr) (k : ListElementKind) : Prop :=
  match element with
  | TInt | TFloat => k = InlineFixed 8 8
  | TBool => k = InlineFixed 1 1
  | TString | TList _ | TSchema _ | TOption _ | TResult _ _ | TEnum _ _ =>
      exists a, k = PointerArray a
  | TUnit | TClosure _ _ => False
  end.

(** Padding between the count and the payload of a list record, as the
    pointer-slot kind records it. *)
Definition list_tail_align (element : TypeRepr) : Z :=
  match element with
  | TInt | TFloat => 8
  | _ => 4
  end.

(** What the layout pass decides for a field of type [ty]. *)
Record slot_typed (ty : TypeRepr) (fo : FieldOffset) : Prop := {
  st_size : fo_size fo = slot_size ty;
  st_kind : is_pointer_indirect (fo_kind fo) = negb (inline_type ty);
  st_list : forall e, ty = TList e ->
    exists k, fo_list_element fo = Some k /\ sidecar e k /\
              fo_kind fo = PointerIndirect (list_tail_align e);
  st_other : (forall e, ty <> TList e) -> fo_list_element fo = None;
  st_schema : forall sub, ty = TSchema sub -> exists a, fo_kind fo = PointerIndirect a /\ abi_align a;
}.

Lemma list_decision_typed n fname e d :
  list_layout_decision n fname e = Ok d ->
  exists k, d = MkDecision (PointerIndirect (list_tail_align e)) (Some k) /\ sidecar e k.
Proof.
  destruct n as [|n]; [done|]. destruct e; cbn [list_layout_decision]; intros Hd; inv_ok Hd;
    eexists; split; try done; simpl; eauto.
Qed.

Lemma decision_typed n fname ty d :
  field_layout_decision_for n fname ty = Ok d ->
  is_pointer_indirect (dec_kind d) = negb (inline_type ty) /\
  fst (slot_of_kind (dec_kind d)) = slot_size ty /\
  (forall e, ty = TList e -> exists k, dec_list_element d = Some k /\ sidecar e k /\
     dec_kind d = PointerIndirect (list_tail_align e)) /\
  ((forall e, ty <> TList e) -> dec_list_element d = None) /\
  (forall sub, ty = TSchema sub -> exists a, dec_kind d = PointerIndirect a /\ abi_align a).
Proof.
  destruct n as [|n]; [done|]. destruct ty; cbn [field_layout_decision_for]; intros Hd;
    try (inv_ok Hd; subst; split_and!; (done || (intros; discriminate))).
  - apply list_decision_typed in Hd as (k & -> & Hk). split_and!; [done|done| | |done].
    + intros e [= ->]. eauto.
    + intros Hno. by destruct (Hno ty).
  - apply bind_ok in Hd as (t & Ht & [= <-]). split_and!; [done|done|done|done|].
    intros sub _. eexists. split; [done|]. apply (ts_align t). by eapply offsets_for_fuel_sound.
Qed.

Lemma offsets_for_S s : exists n, layout_fuel (TSchema s) = S n.
Proof. unfold layout_fuel. pose proof (tsize_pos (TSchema s)). exists (8 * tsize (TSchema s) - 1)%nat. lia. Qed.

Lemma offsets_for_typed s t :
  offsets_for s = Ok t ->
  table_sound t /\
  Forall2 (fun f fo => fo_name fo = field_name f /\ slot_typed (field_ty f) fo)
          (schema_fields s) (ot_fields t).
Proof.
  unfold offsets_for. destruct (offsets_for_S s) as [n ->]. intros Ht.
  pose proof (offsets_for_fuel_sound _ _ _ Ht) as Hsound. split; [done|].
  apply offsets_for_match in Ht. apply Forall2_same_length_lookup. split.
  { by eapply Forall2_length. }
  intros i f fo Hf Hfo. destruct (Forall2_lookup_lr _ _ _ _ _ _ Ht Hf Hfo) as [Hname Hdec].
  split; [done|]. apply decision_typed in Hdec as (Hk & Hs & Hl & Ho & Hsub). simpl in *.
  destruct (ts_slot t Hsound fo) as [Hslot _]; [by eapply list_elem_of_lookup_2|].
  split; [|done|done|done|done]. rewrite <-Hs, <-Hslot. done.
Qed.

(** The slot a lookup by name finds. *)
Definition named_slot s (t : OffsetTable) (name : string) (f : Field) (fo : FieldOffset) : Prop :=
  find_field name (schema_fields s) = Some f /\
  List.find (fun fo => bool_decide (fo_name fo = name)) (ot_fields t) = Some fo /\
  fo ∈ ot_fields t /\ f ∈ schema_fields s /\ fo_name fo = name /\ slot_typed (field_ty f) fo.

Lemma named_slot_find s t name :
  offsets_for s = Ok t ->
  match find_field name (schema_fields s),
        List.find (fun fo => bool_decide (fo_name fo = name)) (ot_fields t) with
  | Some f, Some fo => named_slot s t name f fo
  | None, None => True
  | _, _ => False
  end.
Proof.
  intros [_ Hall]%offsets_for_typed. unfold named_slot, find_field.
  pose proof (find_Forall2 _ (fun f => bool_decide (field_name f = name))
                (fun fo => bool_decide (fo_name fo = name)) _ _ Hall) as Hf.
  destruct (List.find _ (schema_fields s)) as [f|] eqn:H1,
           (List.find _ (ot_fields t)) as [fo|] eqn:H2;
    try (apply Hf; intros ? ? [-> _]; done).
  destruct Hf as ((Hn & Ht) & i & Hi & Hj); [intros ? ? [-> _]; done|].
  apply find_elem in H2 as [_ Hb]. apply bool_decide_eq_true in Hb.
  split_and!; eauto using list_elem_of_lookup_2.
Qed.

(** Every slot of the table belongs to a declared field. *)
Lemma declared_slot s t fo :
  offsets_for s = Ok t -> fo ∈ ot_fields t ->
  exists f, find_field (fo_name fo) (schema_fields s) = Some f.
Proof.
  intros Ht Hin. pose proof (named_slot_find s t (fo_name fo) Ht) as Hn.
  destruct (find_field (fo_name fo) (schema_fields s)) as [f|]; [by exists f|].
  destruct (List.find _ (ot_fields t)) eqn:Hfind; [done|].
  apply (List.find_none _ _) with (x := fo) in Hfind; [|by apply list_elem_of_In].
  by rewrite bool_decide_true in Hfind.
Qed.

Lemma index_find rebase fields (fos : list FieldOffset) rs ra idx name e :
  index_fields rebase (MkOffsetTable fos rs ra) fields = Ok idx ->
  (forall fo, fo ∈ fos -> is_Some (find_field (fo_name fo) fields)) ->
  lookup_entry idx name = Some e ->
  exists fo f, List.find (fun fo => bool_decide (fo_name fo = name)) fos = Some fo /\
    find_field (fo_name fo) fields = Some f /\ rebase (fo_offset fo) = Ok (fe_offset e) /\
    e = MkEntry (fo_name fo) (field_ty f) (fe_offset e) (fo_size fo) (fo_kind fo)
                (fo_list_element fo).
Proof.
  unfold index_fields. simpl.
  revert idx. induction fos as [|fo fos IH]; intros idx Hm Hsome Hl; simpl in *.
  - injection Hm as <-. done.
  - destruct (Hsome fo) as [f Hf]; [left|]. rewrite Hf in Hm. simpl in Hm.
    inv_ok Hm. subst. unfold lookup_entry in Hl. simpl in Hl.
    destruct (bool_decide (fo_name fo = name)).
    + injection Hl as <-. by exists fo, f.
    + eapply IH; [done| |done]. intros fo' Hin. apply Hsome. by right.
Qed.

(** A lookup in the index of a laid-out schema. *)
Lemma index_lookup s t rebase idx name e :
  offsets_for s = Ok t -> index_fields rebase t (schema_fields s) = Ok idx ->
  lookup_entry idx name = Some e ->
  exists f fo, named_slot s t name f fo /\ rebase (fo_offset fo) = Ok (fe_offset e) /\
    e = MkEntry name (field_ty f) (fe_offset e) (fo_size fo) (fo_kind fo)
                (fo_list_element fo).
Proof.
  intros Ht Hidx Hl. pose proof (named_slot_find s t name Ht) as Hn.
  destruct (index_find rebase (schema_fields s) (ot_fields t) (root_size t) (root_align t)
              idx name e) as (fo & f & Hfo & Hf & Hoff & He); [by destruct t| |done|].
  - intros fo Hin. apply (declared_slot _ _ _ Ht Hin).
  - rewrite Hfo in Hn. destruct (find_field name _) as [f'|] eqn:Hff; [|done].
    pose proof Hn as Hn'. destruct Hn as (_ & _ & _ & _ & Hname & _).
    rewrite Hname in *. rewrite Hff in Hf. injection Hf as ->. eauto.
Qed.

Lemma slot_size_bounds ty : 1 <= slot_size ty <= 8.
Proof. destruct ty; unfold slot_size; simpl; lia. Qed.

(** Every entry of the index of a record at [base] lies inside the record. *)
Lemma index_lookup_bounds s t base idx name e :
  offsets_for s = Ok t -> 0 <= base -> base + root_size t <= USIZE_MAX ->
  index_fields (fun off => usize_add base off) t (schema_fields s) = Ok idx ->
  lookup_entry idx name = Some e ->
  base <= fe_offset e /\ fe_offset e + slot_size (fe_ty e) <= base + root_size t.
Proof.
  intros Ht Hb Hmax Hidx Hl.
  destruct (index_lookup _ _ _ _ _ _ Ht Hidx Hl) as (f & fo & Hn & Hoff & He).
  destruct Hn as (_ & _ & Hfo & _ & _ & Htyped).
  apply offsets_for_typed in Ht as [Hsound _].
  apply (ts_slot t Hsound) in Hfo as (_ & _ & _ & _ & Hpos & _ & Hend).
  apply usize_add_ok in Hoff as [-> _]. rewrite He. simpl.
  unfold fo_end in Hend. rewrite (st_size _ _ Htyped) in Hend. lia.
Qed.

Lemma index_fields_ok s t base :
  offsets_for s = Ok t -> 0 <= base -> base + root_size t <= USIZE_MAX ->
  exists idx, index_fields (fun off => usize_add base off) t (schema_fields s) = Ok idx.
Proof.
  intros Ht Hb Hmax. apply offsets_for_typed in Ht as [Hsound _].
  apply mapM_is_ok. intros [fo f] (fo' & Hfo' & Hp)%list_elem_of_omap.
  destruct (find_field _ _); [|done]. injection Hp as <- <-.
  apply (ts_slot t Hsound) in Hfo' as (Hslot & Hal & Hsz & _ & Hpos & _ & Hend).
  apply abi_align_pos in Hal. unfold fo_end in Hend.
  rewrite usize_add_small by lia. apply is_ok_ret.
Qed.
End Index.
