(* ===== verification/Reader.v ===== *)
(** [BufferReader] of [crates/relon-abi/src/buffer.rs]: construction, the typed
    field-slot readers, and the recursive readers that decode a value at a
    direct offset.  The readers that the source writes as methods on [self] but
    that only use [self.bytes] take the bytes. *)

From Stdlib Require Import ZArith Lia Bool.
From stdpp Require Import base list strings.
From S2P Require Import Prelude SchemaCanonical Layout Value BufferTypes.
Local Open Scope Z_scope.
Local Open Scope abi_scope.

Record BufferReader {H : HostTypes} : Type := MkReader {
  rd_layout : OffsetTable;
  rd_index : list FieldEntry;
  rd_bytes : bytes;
}.
Arguments MkReader {H} _ _ _.
Arguments rd_layout {H} _.
Arguments rd_index {H} _.
Arguments rd_bytes {H} _.

Section Reader.
Context {H : HostTypes}.

(** ** Construction *)

(** [BufferReader::new] *)
Definition reader_new (layout : OffsetTable) (fields : list Field) (b : bytes)
    : outcome BufferError BufferReader :=
  if blen b <? root_size layout then Err (BufferTooSmall (blen b) (root_size layout)) else
  let* idx := index_fields (fun off => Ok off) layout fields in
  Ok (MkReader layout idx b).

(** [BufferReader::new_at_base] *)
Definition reader_new_at_base (layout : OffsetTable) (fields : list Field) (b : bytes)
    (record_base : Z) : outcome BufferError BufferReader :=
  let* record_end := ok_or (checked_add record_base (root_size layout))
                           (BufferTooSmall (blen b) USIZE_MAX) in
  if blen b <? record_end then Err (BufferTooSmall (blen b) record_end) else
  let* idx := index_fields (fun off => usize_add record_base off) layout fields in
  Ok (MkReader layout idx b).

(** [BufferReader::find_entry] *)
Definition find_entry (r : BufferReader) (name : string) : outcome BufferError FieldEntry :=
  ok_or (lookup_entry (rd_index r) name) (UnknownField name).

(** [BufferReader::locate] *)
Definition locate (r : BufferReader) (name : string) (expected : TypeRepr)
    (requested_label : string) : outcome BufferError (Z * Z * FieldKind) :=
  let* e := ok_or (lookup_entry (rd_index r) name) (UnknownField name) in
  if type_matches (fe_ty e) expected
  then Ok (fe_offset e, fe_size e, fe_kind e)
  else Err (TypeMismatch name (type_label (fe_ty e)) requested_label).

(** ** Byte-level helpers *)

(** [decode_pointer_header]: [(count, payload_start)] behind a pointer slot. *)
Definition decode_pointer_header (b : bytes) (name : string) (ptr_offset inner_alignment : Z)
    : outcome BufferError (Z * Z) :=
  if past_end b ptr_offset 4
  then Err (MalformedPayload name "pointer slot exceeds buffer end") else
  let* record_start := get_u32 b ptr_offset in
  if past_end b record_start 4
  then Err (MalformedPayload name "length prefix exceeds buffer end") else
  let* count := get_u32 b record_start in
  let payload_start_raw := record_start + 4 in
  let* payload_start :=
    if 1 <? inner_alignment then
      let rem := payload_start_raw mod inner_alignment in
      if rem =? 0 then Ok payload_start_raw
      else ok_or (checked_add payload_start_raw (inner_alignment - rem))
                 (MalformedPayload name "payload start overflows usize")
    else Ok payload_start_raw in
  Ok (count, payload_start).

Definition check_pointer_entries_in_bounds (b : bytes) (name : string)
    (entries_start count : Z) : outcome BufferError unit :=
  let fits := match checked_mul count 4 with
              | Some n => match checked_add entries_start n with
                          | Some e => e <=? blen b
                          | None => false
                          end
              | None => false
              end in
  guard fits (MalformedPayload name "list pointer-array entries exceed buffer end").

Definition read_pointer_array_header (b : bytes) (header_off : Z)
    : outcome BufferError (Z * Z) :=
  if past_end b header_off 4
  then Err (MalformedPayload "<in-place root>"
              "in-place list header length prefix exceeds buffer end") else
  let* count := get_u32 b header_off in
  let entries_start := header_off + 4 in
  let* _ := check_pointer_entries_in_bounds b "<in-place root>" entries_start count in
  Ok (count, entries_start).

Definition read_entry_pointer (b : bytes) (entries_start i : Z) : outcome BufferError Z :=
  let* cursor := ok_or (checked_add entries_start (i * 4))
                       (MalformedPayload "<in-place root>"
                          "in-place list entry cursor overflows usize") in
  let* cend := usize_add cursor 4 in
  if blen b <? cend
  then Err (MalformedPayload "<in-place root>" "in-place list entry pointer exceeds buffer end")
  else get_u32 b cursor.

Definition read_slot_pointer (b : bytes) (slot_abs : Z) : outcome BufferError Z :=
  if past_end b slot_abs 4
  then Err (MalformedPayload "<sub-record field>" "pointer slot exceeds buffer end")
  else get_u32 b slot_abs.

(** The bounds-checked, utf-8-checked payload after a length prefix; the three
    reasons are the messages of the calling reader. *)
Definition read_utf8_span (b : bytes) (name : string) (start len : Z)
    (overflow exceeds bad_utf8 : string) : outcome BufferError string :=
  let* pend := ok_or (checked_add start len) (MalformedPayload name overflow) in
  if blen b <? pend then Err (MalformedPayload name exceeds) else
  let* s := slice b start (pend - start) in
  ok_or (from_utf8 s) (MalformedPayload name bad_utf8).

Definition read_string_record_at (b : bytes) (record_off : Z) : outcome BufferError string :=
  if past_end b record_off 4
  then Err (MalformedPayload "<sub-record field>" "string len prefix exceeds buffer end") else
  let* len := get_u32 b record_off in
  read_utf8_span b "<sub-record field>" (record_off + 4) len
    "string payload end overflows usize" "string payload exceeds buffer end"
    "string payload is not valid utf-8".

Definition read_list_string_at (b : bytes) (header_off : Z)
    : outcome BufferError (list string) :=
  let root := "<in-place root>"%string in
  if past_end b header_off 4
  then Err (MalformedPayload root
              "in-place list-string header length prefix exceeds buffer end") else
  let* count := get_u32 b header_off in
  let entries_start := header_off + 4 in
  let* _ := check_pointer_entries_in_bounds b root entries_start count in
  loop (fun i =>
    let* cursor := ok_or (checked_add entries_start (i * 4))
                         (MalformedPayload root
                            "in-place list-string entry cursor overflows usize") in
    if blen b <? cursor + 4
    then Err (MalformedPayload root "in-place list-string entry pointer exceeds buffer end") else
    let* record_start := get_u32 b cursor in
    if blen b <? record_start + 4
    then Err (MalformedPayload root "in-place list-string len prefix exceeds buffer end") else
    let* str_len := get_u32 b record_start in
    read_utf8_span b root (record_start + 4) str_len
      "in-place list-string payload end overflows usize"
      "in-place list-string payload exceeds buffer end"
      "in-place list-string payload is not valid utf-8") 0 (Z.to_nat count).

(** [(elem_size, align)] of an inline scalar element. *)
Definition scalar_elem (element : TypeRepr) : option (Z * Z) :=
  match element with
  | TInt | TFloat => Some (8, 8)
  | TBool => Some (1, 1)
  | _ => None
  end.

(** Element [off] of an inline scalar list; [None] is [unreachable!]. *)
Definition read_scalar_at (b : bytes) (element : TypeRepr) (off : Z)
    : outcome BufferError Value :=
  match element with
  | TInt => map_ok VInt (get_i64 b off)
  | TFloat => map_ok VFloat (get_f64 b off)
  | TBool => map_ok VBool (get_bool b off)
  | _ => Abort
  end.

Definition read_inline_scalar_list_at (b : bytes) (header_off : Z) (element : TypeRepr)
    : outcome BufferError (list Value) :=
  let root := "<in-place root>"%string in
  if past_end b header_off 4
  then Err (MalformedPayload root
              "inline scalar list header length prefix exceeds buffer end") else
  let* count := get_u32 b header_off in
  let* (elem_size, align) :=
    ok_or (scalar_elem element) (TypeMismatch root (type_label element) "List<scalar>") in
  let* payload_start :=
    if 1 <? align then next_multiple_of (header_off + 4) align else Ok (header_off + 4) in
  let* byte_len := ok_or (checked_mul count elem_size)
    (MalformedPayload root "inline scalar list byte length overflows usize") in
  let* pend := ok_or (checked_add payload_start byte_len)
    (MalformedPayload root "inline scalar list payload end overflows usize") in
  if blen b <? pend
  then Err (MalformedPayload root "inline scalar list payload exceeds buffer end") else
  loop (fun k => read_scalar_at b element (payload_start + k * elem_size)) 0 (Z.to_nat count).

(** ** Recursive value readers *)

(** [layout.fields.iter().find(|fo| fo.name == name)] *)
Definition find_offset (layout : OffsetTable) (name : string) : option FieldOffset :=
  List.find (fun fo => bool_decide (fo_name fo = name)) (ot_fields layout).

(** The closure [read_inline] of [read_field_at]. *)
Definition read_inline (b : bytes) (abs len : Z) : outcome BufferError bytes :=
  let* e := ok_or (checked_add abs len)
    (MalformedPayload "<sub-record field>" "inline field span overflows usize") in
  if blen b <? e
  then Err (MalformedPayload "<sub-record field>" "inline field span exceeds buffer end")
  else slice b abs (e - abs).

(** Slot of [field] in a record at [record_base]; the two reasons differ
    between the tuple and the record arm of [read_record_at]. *)
Definition record_slot (layout : OffsetTable) (record_base : Z) (f : Field)
    (missing overflow : string) : outcome BufferError Z :=
  let* fo := ok_or (find_offset layout (field_name f))
                   (MalformedPayload (field_name f) missing) in
  ok_or (checked_add record_base (fo_offset fo)) (MalformedPayload (field_name f) overflow).

(** Payload slot of the selected variant of a record at [record_off]. *)
Definition payload_slot (record_off : Z) (p : SelectedVariantPayload)
    : outcome BufferError Z :=
  ok_or (variant_payload_slot_offset record_off (svp_ty p))
        (MalformedPayload "<variant>" "variant payload slot offset overflows usize").

Fixpoint read_list_value_at (n : nat) (b : bytes) (header_off : Z) (element : TypeRepr)
    {struct n} : outcome BufferError (list Value) :=
  match n with
  | O => Abort
  | S n =>
    match element with
    | TInt | TFloat | TBool => read_inline_scalar_list_at b header_off element
    | TString => map_ok (map VString) (read_list_string_at b header_off)
    | TList inner =>
        let* (count, entries_start) := read_pointer_array_header b header_off in
        loop (fun i =>
          let* entry := read_entry_pointer b entries_start i in
          map_ok VList (read_list_value_at n b entry inner)) 0 (Z.to_nat count)
    | TSchema schema =>
        let* elem_layout :=
          map_err (fun _ => MalformedPayload "<in-place root>"
                     "inner List<Schema> element schema is not layoutable")
                  (offsets_for schema) in
        let* (count, entries_start) := read_pointer_array_header b header_off in
        loop (fun i =>
          let* sub_base := read_entry_pointer b entries_start i in
          let* sub_end := ok_or (checked_add sub_base (root_size elem_layout))
            (MalformedPayload "<in-place root>" "in-place sub-record end overflows usize") in
          if blen b <? sub_end
          then Err (MalformedPayload "<in-place root>" "in-place sub-record exceeds buffer end")
          else read_record_at n b sub_base elem_layout schema) 0 (Z.to_nat count)
    | TOption _ | TResult _ _ | TEnum _ _ =>
        let* (count, entries_start) := read_pointer_array_header b header_off in
        loop (fun i =>
          let* variant_base := read_entry_pointer b entries_start i in
          read_variant_record_at n b variant_base element) 0 (Z.to_nat count)
    | other => Err (TypeMismatch "<in-place root>" (type_label other)
                      "List<scalar/String/Schema/List/Option/Result>")
    end
  end

with read_record_at (n : nat) (b : bytes) (record_base : Z) (layout : OffsetTable)
    (schema : Schema) {struct n} : outcome BufferError Value :=
  match n with
  | O => Abort
  | S n =>
    if schema_is_tuple schema then
      let* items :=
        mapM (fun f =>
          let* slot_abs := record_slot layout record_base f
            "tuple field missing from layout" "tuple field slot offset overflows usize" in
          read_field_at n b slot_abs (field_ty f)) (schema_fields schema) in
      Ok (VTuple items)
    else
      let* map :=
        foldM (fun map f =>
          let* slot_abs := record_slot layout record_base f
            "schema field missing from layout" "field slot offset overflows usize" in
          let* v := read_field_at n b slot_abs (field_ty f) in
          Ok (map_insert (field_name f) v map)) [] (schema_fields schema) in
      Ok (branded_dict map (Some (schema_name schema)))
  end

with read_field_at (n : nat) (b : bytes) (slot_abs : Z) (ty : TypeRepr) {struct n}
    : outcome BufferError Value :=
  match n with
  | O => Abort
  | S n =>
    match ty with
    | TInt => let* s := read_inline b slot_abs 8 in Ok (VInt (i64_from_le s))
    | TFloat => let* s := read_inline b slot_abs 8 in Ok (VFloat (u64_from_le s))
    | TBool =>
        let* s := read_inline b slot_abs 1 in
        let* x := index s 0 in
        Ok (VBool (negb (x =? 0)))
    | TUnit => Ok option_none
    | TString =>
        let* ptr := read_slot_pointer b slot_abs in
        map_ok VString (read_string_record_at b ptr)
    | TList element =>
        let* header := read_slot_pointer b slot_abs in
        map_ok VList (read_list_value_at n b header element)
    | TSchema schema =>
        let* sub_layout :=
          map_err (fun _ => MalformedPayload "<sub-record field>"
                     "nested schema field is not layoutable") (offsets_for schema) in
        let* sub_base := read_slot_pointer b slot_abs in
        read_record_at n b sub_base sub_layout schema
    | TOption _ | TResult _ _ | TEnum _ _ =>
        let* variant_base := read_slot_pointer b slot_abs in
        read_variant_record_at n b variant_base ty
    | other => Err (TypeMismatch "<sub-record field>" (type_label other)
                      "scalar/String/List/Schema/Option/Result")
    end
  end

with read_variant_record_at (n : nat) (b : bytes) (record_off : Z) (ty : TypeRepr)
    {struct n} : outcome BufferError Value :=
  match n with
  | O => Abort
  | S n =>
    if past_end b record_off 1
    then Err (MalformedPayload "<variant>" "variant tag exceeds buffer end") else
    let* tag := index b record_off in
    let* selected := map_err (MalformedPayload "<variant>") (variant_selected_payload ty tag) in
    match ty with
    | TOption _ =>
        match sv_payload selected with
        | None => Ok option_none
        | Some p =>
            let* slot := payload_slot record_off p in
            map_ok option_some (read_field_at n b slot (svp_ty p))
        end
    | TResult _ _ =>
        match sv_payload selected with
        | None => Err (MalformedPayload "<variant>" "Result variant has no payload")
        | Some p =>
            let* slot := payload_slot record_off p in
            let* value := read_field_at n b slot (svp_ty p) in
            let key := default "value"%string (svp_key p) in
            Ok (variant_dict (map_insert key value []) (sv_name selected) "Result")
        end
    | TEnum name _ =>
        let* map :=
          match sv_payload selected with
          | None => Ok []
          | Some p =>
              let* slot := payload_slot record_off p in
              let* payload_value := read_field_at n b slot (svp_ty p) in
              match payload_value with
              | VDict d => Ok (dict_map d)
              | _ => Err (MalformedPayload "<variant>" "enum payload did not decode to a record")
              end
          end in
        Ok (variant_dict map (sv_name selected) name)
    | other => Err (TypeMismatch "<variant>" (type_label other) "variant record")
    end
  end.

(** Two calls cross one type level. *)
Definition read_fuel (ty : TypeRepr) : nat := 2 * tsize ty + 2.

(** ** Typed field-slot readers *)

Definition expected_pointer (name : string) : BufferError :=
  MalformedPayload name "expected pointer-indirect kind".

Definition read_int (r : BufferReader) (name : string) : outcome BufferError Z :=
  let* (offset, _, _) := locate r name TInt "Int" in
  get_i64 (rd_bytes r) offset.

Definition read_float (r : BufferReader) (name : string) : outcome BufferError Z :=
  let* (offset, _, _) := locate r name TFloat "Float" in
  get_f64 (rd_bytes r) offset.

Definition read_bool (r : BufferReader) (name : string) : outcome BufferError bool :=
  let* (offset, _, _) := locate r name TBool "Bool" in
  get_bool (rd_bytes r) offset.

Definition read_unit (r : BufferReader) (name : string) : outcome BufferError unit :=
  let* (_, _, _) := locate r name TUnit "Unit" in
  Ok tt.

Definition read_value (r : BufferReader) (name : string) (ty : TypeRepr)
    : outcome BufferError Value :=
  let* e := find_entry r name in
  if type_matches (fe_ty e) ty
  then read_field_at (read_fuel ty) (rd_bytes r) (fe_offset e) ty
  else Err (TypeMismatch name (type_label (fe_ty e)) (type_label ty)).

Definition read_string (r : BufferReader) (name : string) : outcome BufferError string :=
  let* (ptr_offset, _, kind) := locate r name TString "String" in
  let* _ := guard (is_pointer_indirect kind) (expected_pointer name) in
  let* (len, payload_start) := decode_pointer_header (rd_bytes r) name ptr_offset 0 in
  read_utf8_span (rd_bytes r) name payload_start len
    "payload end overflows usize" "payload exceeds buffer end" "payload is not valid utf-8".

(** The shared tail of [read_list_int] and [read_list_float]: the bounds of a
    payload of [count] 8-byte elements, then one [get] per element. *)
Definition read_words {A} (b : bytes) (name : string) (get : Z -> outcome BufferError A)
    (count payload_start : Z) : outcome BufferError (list A) :=
  let* byte_len := ok_or (checked_mul count 8)
    (MalformedPayload name "byte length overflows usize") in
  let* pend := ok_or (checked_add payload_start byte_len)
    (MalformedPayload name "payload end overflows usize") in
  if blen b <? pend then Err (MalformedPayload name "payload exceeds buffer end")
  else loop (fun i => get (payload_start + i * 8)) 0 (Z.to_nat count).

Definition read_list_int (r : BufferReader) (name : string) : outcome BufferError (list Z) :=
  let* (ptr_offset, _, kind) := locate r name (TList TInt) "List<Int>" in
  match kind with
  | Inline _ _ => Err (expected_pointer name)
  | PointerIndirect tail_alignment =>
      let* (count, payload_start) :=
        decode_pointer_header (rd_bytes r) name ptr_offset tail_alignment in
      read_words (rd_bytes r) name (get_i64 (rd_bytes r)) count payload_start
  end.

Definition read_list_float (r : BufferReader) (name : string) : outcome BufferError (list Z) :=
  let* e := find_entry r name in
  match fe_ty e with
  | TList TFloat =>
      match fe_kind e with
      | Inline _ _ => Err (expected_pointer name)
      | PointerIndirect tail_alignment =>
          let* (count, payload_start) :=
            decode_pointer_header (rd_bytes r) name (fe_offset e) tail_alignment in
          read_words (rd_bytes r) name (get_f64 (rd_bytes r)) count payload_start
      end
  | ty => Err (TypeMismatch name (type_label ty) "List<Float>")
  end.

Definition read_list_bool (r : BufferReader) (name : string) : outcome BufferError (list bool) :=
  let b := rd_bytes r in
  let* e := find_entry r name in
  match fe_ty e with
  | TList TBool =>
      let* _ := guard (is_pointer_indirect (fe_kind e)) (expected_pointer name) in
      let* (count, payload_start) := decode_pointer_header b name (fe_offset e) 0 in
      let* pend := ok_or (checked_add payload_start count)
        (MalformedPayload name "payload end overflows usize") in
      if blen b <? pend then Err (MalformedPayload name "payload exceeds buffer end")
      else loop (fun i => get_bool b (payload_start + i)) 0 (Z.to_nat count)
  | ty => Err (TypeMismatch name (type_label ty) "List<Bool>")
  end.

(** One entry of [read_list_string]. *)
Definition read_string_entry (b : bytes) (name : string) (entries_start i : Z)
    : outcome BufferError string :=
  let cursor := entries_start + i * 4 in
  if blen b <? cursor + 4
  then Err (MalformedPayload name "list entry pointer exceeds buffer end") else
  let* record_start := get_u32 b cursor in
  if blen b <? record_start + 4
  then Err (MalformedPayload name "list string len prefix exceeds buffer end") else
  let* str_len := get_u32 b record_start in
  read_utf8_span b name (record_start + 4) str_len
    "list string payload end overflows usize" "list string payload exceeds buffer end"
    "list string payload is not valid utf-8".

Definition read_list_string (r : BufferReader) (name : string)
    : outcome BufferError (list string) :=
  let b := rd_bytes r in
  let* e := find_entry r name in
  match fe_ty e with
  | TList TString =>
      let* _ := guard (is_pointer_indirect (fe_kind e)) (expected_pointer name) in
      let* (count, entries_start) := decode_pointer_header b name (fe_offset e) 0 in
      let* _ := check_pointer_entries_in_bounds b name entries_start count in
      loop (read_string_entry b name entries_start) 0 (Z.to_nat count)
  | ty => Err (TypeMismatch name (type_label ty) "List<String>")
  end.

(** A reader over the sub-record at [sub_base]; the two reasons are the
    messages of the calling reader. *)
Definition sub_reader_at (b : bytes) (name : string) (sub_base : Z)
    (elem_layout : OffsetTable) (elem_fields : list Field) (overflow exceeds : string)
    : outcome BufferError BufferReader :=
  let* sub_end := ok_or (checked_add sub_base (root_size elem_layout))
                        (MalformedPayload name overflow) in
  if blen b <? sub_end then Err (MalformedPayload name exceeds) else
  let* idx := index_fields (fun off => usize_add sub_base off) elem_layout elem_fields in
  Ok (MkReader elem_layout idx b).

Definition read_list_record (r : BufferReader) (name : string) (elem_layout : OffsetTable)
    (elem_schema : Schema) : outcome BufferError (list BufferReader) :=
  let b := rd_bytes r in
  let* e := find_entry r name in
  let mismatch := Err (TypeMismatch name (type_label (fe_ty e)) "List<Schema>") in
  match fe_ty e with
  | TList (TSchema schema) =>
      if negb (schema_eqb schema elem_schema) then mismatch else
      let* _ := guard (is_pointer_indirect (fe_kind e)) (expected_pointer name) in
      let* (count, entries_start) := decode_pointer_header b name (fe_offset e) 0 in
      let* _ := check_pointer_entries_in_bounds b name entries_start count in
      loop (fun i =>
        let cursor := entries_start + i * 4 in
        if blen b <? cursor + 4
        then Err (MalformedPayload name "list entry pointer exceeds buffer end") else
        let* sub_base := get_u32 b cursor in
        sub_reader_at b name sub_base elem_layout (schema_fields elem_schema)
          "list sub-record end overflows usize" "list sub-record exceeds buffer end")
        0 (Z.to_nat count)
  | _ => mismatch
  end.

Definition read_list_record_at (b : bytes) (header_off : Z) (elem_layout : OffsetTable)
    (elem_schema : Schema) : outcome BufferError (list BufferReader) :=
  let root := "<in-place root>"%string in
  if past_end b header_off 4
  then Err (MalformedPayload root
              "in-place list-record header length prefix exceeds buffer end") else
  let* count := get_u32 b header_off in
  let entries_start := header_off + 4 in
  let* _ := check_pointer_entries_in_bounds b root entries_start count in
  loop (fun i =>
    let* cursor := ok_or (checked_add entries_start (i * 4))
                         (MalformedPayload root
                            "in-place list-record entry cursor overflows usize") in
    if blen b <? cursor + 4
    then Err (MalformedPayload root "in-place list-record entry pointer exceeds buffer end") else
    let* sub_base := get_u32 b cursor in
    sub_reader_at b root sub_base elem_layout (schema_fields elem_schema)
      "in-place list-record sub-record end overflows usize"
      "in-place list-record sub-record exceeds buffer end") 0 (Z.to_nat count).

Definition read_list_value (r : BufferReader) (name : string) (element : TypeRepr)
    : outcome BufferError (list Value) :=
  let* e := find_entry r name in
  let* _ := guard (is_pointer_indirect (fe_kind e))
                  (MalformedPayload name "expected pointer-indirect list slot") in
  let* header_off := read_slot_pointer (rd_bytes r) (fe_offset e) in
  read_list_value_at (read_fuel element) (rd_bytes r) header_off element.

(** Alignment of the payload of an inner scalar list, or the reason why the
    inner element is rejected. *)
Definition nested_inner_align (inner : TypeRepr) : outcome string Z :=
  match inner with
  | TInt | TFloat => Ok 8
  | TBool => Ok 1
  | TString | TSchema _ | TList _ =>
      Err "nested list inner element is a pointer-array type (unsupported)"%string
  | _ => Err "nested list inner element is not an inline-fixed scalar"%string
  end.

(** Messages of the three scalar arms of [decode_list_list_rows]. *)
Definition nested_label (inner : TypeRepr) : string :=
  match inner with
  | TInt => "nested Int payload "
  | TFloat => "nested Float payload "
  | _ => "nested Bool payload "
  end.

(** One row of [decode_list_list_rows]. *)
Definition decode_row (b : bytes) (name : string) (inner : TypeRepr) (inner_align : Z)
    (entries_start i : Z) : outcome BufferError (list Value) :=
  let* cursor := ok_or (checked_add entries_start (i * 4))
                       (MalformedPayload name "nested list entry cursor overflows usize") in
  if blen b <? cursor + 4
  then Err (MalformedPayload name "nested list entry pointer exceeds buffer end") else
  let* rec_start := get_u32 b cursor in
  if blen b <? rec_start + 4
  then Err (MalformedPayload name "nested list inner len prefix exceeds buffer end") else
  let* inner_count := get_u32 b rec_start in
  let* payload_start :=
    if 1 <? inner_align then next_multiple_of (rec_start + 4) inner_align
    else Ok (rec_start + 4) in
  if Z.max 0 (blen b - payload_start) <? inner_count
  then Err (MalformedPayload name "nested inner list count exceeds buffer end") else
  let* (elem_size, _) :=
    match scalar_elem inner with Some sz => Ok sz | None => Abort end in
  let label := nested_label inner in
  let* byte_len :=
    match inner with
    | TBool => Ok inner_count
    | _ => ok_or (checked_mul inner_count 8)
             (MalformedPayload name (label +:+ "byte length overflows usize")%string)
    end in
  let* pend := ok_or (checked_add payload_start byte_len)
    (MalformedPayload name (label +:+ "end overflows usize")%string) in
  if blen b <? pend
  then Err (MalformedPayload name (label +:+ "exceeds buffer end")%string)
  else loop (fun k => read_scalar_at b inner (payload_start + k * elem_size))
            0 (Z.to_nat inner_count).

Definition decode_list_list_rows (b : bytes) (name : string) (inner : TypeRepr)
    (inner_align count entries_start : Z) : outcome BufferError (list (list Value)) :=
  let* _ := check_pointer_entries_in_bounds b name entries_start count in
  loop (decode_row b name inner inner_align entries_start) 0 (Z.to_nat count).

Definition read_list_list (r : BufferReader) (name : string)
    : outcome BufferError (list (list Value)) :=
  let* e := find_entry r name in
  match fe_ty e with
  | TList (TList inner) =>
      let* _ := guard (is_pointer_indirect (fe_kind e)) (expected_pointer name) in
      let* inner_align := map_err (MalformedPayload name) (nested_inner_align inner) in
      let* (count, entries_start) :=
        decode_pointer_header (rd_bytes r) name (fe_offset e) 0 in
      decode_list_list_rows (rd_bytes r) name inner inner_align count entries_start
  | ty => Err (TypeMismatch name (type_label ty) "List<List<…>>")
  end.

Definition read_list_list_at (b : bytes) (header_off : Z) (inner : TypeRepr)
    : outcome BufferError (list (list Value)) :=
  let root := "<in-place root>"%string in
  let* inner_align := map_err (MalformedPayload root) (nested_inner_align inner) in
  if past_end b header_off 4
  then Err (MalformedPayload root "in-place list header length prefix exceeds buffer end") else
  let* count := get_u32 b header_off in
  decode_list_list_rows b root inner inner_align count (header_off + 4).

(** [BufferReader::sub_record] *)
Definition reader_sub_record (r : BufferReader) (name : string) (sub_layout : OffsetTable)
    (sub_fields : list Field) : outcome BufferError BufferReader :=
  let b := rd_bytes r in
  let* e := ok_or (lookup_entry (rd_index r) name) (UnknownField name) in
  match fe_ty e with
  | TSchema _ =>
      let* _ := guard (is_pointer_indirect (fe_kind e)) (expected_pointer name) in
      if past_end b (fe_offset e) 4
      then Err (MalformedPayload name "pointer slot exceeds buffer end") else
      let* sub_base := get_u32 b (fe_offset e) in
      sub_reader_at b name sub_base sub_layout sub_fields
        "sub-record end overflows usize" "sub-record exceeds buffer end"
  | ty => Err (TypeMismatch name (type_label ty) "Schema")
  end.
End Reader.
