(* ===== verification/ReaderFacts.v ===== *)
(** The reader is total on hostile input: no reader aborts, whatever the bytes
    and offsets, because every slice it takes was bounds-checked first. *)

From Stdlib Require Import ZArith Lia Bool.
From stdpp Require Import base list strings.
From S2P Require Import Prelude Bytes SchemaCanonical Layout LayoutFacts Value BufferTypes IndexFacts Reader.
Local Open Scope Z_scope.
Local Open Scope abi_scope.

(** A Rust slice is at most [isize::MAX] bytes long. *)
Definition is_slice (b : bytes) : Prop := blen b <= ISIZE_MAX.

Lemma past_end_false b off n :
  past_end b off n = false <-> off + n <= blen b /\ off + n <= USIZE_MAX.
Proof.
  unfold past_end. destruct (checked_add off n) eqn:Hc.
  - apply checked_add_Some in Hc as [-> ?]. split; intros; zb; [lia|]. apply Z.ltb_ge. lia.
  - split; [done|]. intros [? ?]. rewrite checked_add_small in Hc by done. done.
Qed.

Lemma get_u32_not_abort b off : 0 <= off -> off + 4 <= blen b -> get_u32 b off <> Abort.
Proof. intros. apply bind_not_abort; [apply slice_not_abort; lia|done]. Qed.

Lemma get_i64_not_abort b off : 0 <= off -> off + 8 <= blen b -> get_i64 b off <> Abort.
Proof. intros. apply bind_not_abort; [apply slice_not_abort; lia|done]. Qed.

Lemma get_f64_not_abort b off : 0 <= off -> off + 8 <= blen b -> get_f64 b off <> Abort.
Proof. intros. apply bind_not_abort; [apply slice_not_abort; lia|done]. Qed.

Lemma get_bool_not_abort b off : 0 <= off -> off + 1 <= blen b -> get_bool b off <> Abort.
Proof. intros. apply bind_not_abort; [apply index_not_abort; lia|done]. Qed.

Lemma get_u32_bound b off v : get_u32 b off = Ok v -> is_u32 v.
Proof.
  intros Hg. apply bind_ok in Hg as (s & Hs & [= <-]). by eapply u32_from_bound, slice_length.
Qed.

Lemma next_multiple_of_not_abort v a :
  0 <= v -> 0 < a -> v + a <= USIZE_MAX -> next_multiple_of v a <> Abort.
Proof.
  intros. unfold next_multiple_of.
  by destruct (checked_next_multiple_of_small v a) as [r ->].
Qed.

Lemma next_multiple_of_ok v a r :
  0 <= v -> 0 < a -> next_multiple_of v a = Ok r -> v <= r < v + a /\ r mod a = 0.
Proof.
  unfold next_multiple_of. intros ??. destruct (checked_next_multiple_of v a) eqn:Hc; [|done].
  intros [= <-]. by apply checked_next_multiple_of_Some.
Qed.

Lemma check_entries_ok b name start count u :
  check_pointer_entries_in_bounds b name start count = Ok u ->
  start + count * 4 <= blen b.
Proof.
  unfold check_pointer_entries_in_bounds. intros Hg%guard_ok.
  destruct (checked_mul count 4) eqn:Hm; [|done]. apply checked_mul_Some in Hm as [-> ?].
  destruct (checked_add start _) eqn:Ha; [|done]. apply checked_add_Some in Ha as [-> ?]. by zb.
Qed.

Lemma check_entries_not_abort b name start count :
  check_pointer_entries_in_bounds b name start count <> Abort.
Proof. apply guard_not_abort. Qed.

#[export] Hint Resolve check_entries_not_abort : abi.

(** Case analysis on the first bounds test of the goal, whose failing arm is an
    [Err]. *)
Ltac pe H :=
  match goal with
  | |- context [past_end ?b ?o ?n] => destruct (past_end b o n) eqn:H
  end; [discriminate|]; apply past_end_false in H as [? ?].
Ltac ltb H :=
  match goal with
  | |- context [if ?x <? ?y then _ else _] => destruct (x <? y) eqn:H
  end; [discriminate|]; apply Z.ltb_ge in H.

Section Total.
Context {H : HostTypes}.
Context (b : bytes) (Hb : is_slice b).

Lemma read_utf8_span_not_abort name start len o e u :
  0 <= start -> 0 <= len -> read_utf8_span b name start len o e u <> Abort.
Proof.
  intros. unfold read_utf8_span. na_bind. intros pend Hp%ok_or_ok%checked_add_Some.
  ltb Hl. apply bind_not_abort; [apply slice_not_abort; lia|].
  intros. apply ok_or_not_abort.
Qed.

Lemma read_slot_pointer_not_abort off : 0 <= off -> read_slot_pointer b off <> Abort.
Proof. intros. unfold read_slot_pointer. pe Hp. by apply get_u32_not_abort. Qed.

Lemma read_slot_pointer_bound off v : read_slot_pointer b off = Ok v -> is_u32 v.
Proof. unfold read_slot_pointer. destruct (past_end _ _ _); [done|]. apply get_u32_bound. Qed.

Lemma read_string_record_not_abort off : 0 <= off -> read_string_record_at b off <> Abort.
Proof.
  intros. unfold read_string_record_at. pe Hp.
  apply bind_not_abort; [by apply get_u32_not_abort|]. intros len Hl%get_u32_bound.
  unfold is_u32 in Hl. apply read_utf8_span_not_abort; lia.
Qed.

Lemma read_pointer_array_header_not_abort off :
  0 <= off -> read_pointer_array_header b off <> Abort.
Proof.
  intros. unfold read_pointer_array_header. pe Hp.
  apply bind_not_abort; [by apply get_u32_not_abort|]. intros c _. by na_bind.
Qed.

Lemma read_pointer_array_header_ok off count start :
  read_pointer_array_header b off = Ok (count, start) ->
  start = off + 4 /\ is_u32 count /\ start + count * 4 <= blen b.
Proof.
  unfold read_pointer_array_header. pe Hp. intros Hr.
  apply bind_ok in Hr as (c & Hc%get_u32_bound & Hr).
  apply bind_ok in Hr as (u & Hu%check_entries_ok & Hr). injection Hr as <- <-. done.
Qed.

Lemma read_entry_pointer_not_abort start i :
  0 <= start -> 0 <= i -> start + i * 4 + 4 <= blen b -> read_entry_pointer b start i <> Abort.
Proof.
  intros. unfold read_entry_pointer. na_bind. intros c [-> ?]%ok_or_ok%checked_add_Some.
  unfold is_slice, ISIZE_MAX in Hb. rewrite usize_add_small by (unfold USIZE_MAX; lia). simpl.
  ltb Hl. apply get_u32_not_abort; lia.
Qed.

Lemma read_entry_pointer_bound start i v : read_entry_pointer b start i = Ok v -> is_u32 v.
Proof.
  unfold read_entry_pointer. intros Hr. apply bind_ok in Hr as (c & _ & Hr).
  apply bind_ok in Hr as (e & _ & Hr). destruct (_ <? _); [done|]. by eapply get_u32_bound.
Qed.

Lemma read_list_string_at_not_abort off : 0 <= off -> read_list_string_at b off <> Abort.
Proof.
  intros. unfold read_list_string_at. pe Hp.
  apply bind_not_abort; [by apply get_u32_not_abort|]. intros count Hc%get_u32_bound.
  na_bind. intros _ Hu%check_entries_ok. unfold is_u32 in Hc.
  apply loop_not_abort. intros i Hi. na_bind. intros c [-> ?]%ok_or_ok%checked_add_Some.
  ltb Hl. apply bind_not_abort; [apply get_u32_not_abort; lia|]. intros rs Hrs%get_u32_bound.
  unfold is_u32 in Hrs. ltb Hl2. apply bind_not_abort; [apply get_u32_not_abort; lia|].
  intros len Hlen%get_u32_bound. unfold is_u32 in Hlen. apply read_utf8_span_not_abort; lia.
Qed.

Lemma scalar_elem_pos e size align :
  scalar_elem e = Some (size, align) -> size = align /\ (align = 1 \/ align = 8).
Proof. destruct e; simpl; intros [=]; subst; lia. Qed.

Lemma read_scalar_at_not_abort e size align off :
  scalar_elem e = Some (size, align) -> 0 <= off -> off + size <= blen b ->
  read_scalar_at b e off <> Abort.
Proof.
  destruct e; simpl; intros [=]; subst; intros; rewrite map_ok_abort;
    [by apply get_bool_not_abort|by apply get_i64_not_abort|by apply get_f64_not_abort].
Qed.

(** The element loop of an inline list whose payload was bounds-checked. *)
Lemma scalar_loop_not_abort e size align start count :
  scalar_elem e = Some (size, align) -> 0 <= start -> 0 <= count ->
  start + count * size <= blen b ->
  loop (fun k => read_scalar_at b e (start + k * size)) 0 (Z.to_nat count) <> Abort.
Proof.
  intros He ???. pose proof (scalar_elem_pos _ _ _ He). apply loop_not_abort. intros k Hk.
  eapply read_scalar_at_not_abort; [done|nia|nia].
Qed.

Lemma read_inline_scalar_list_not_abort off e :
  0 <= off -> read_inline_scalar_list_at b off e <> Abort.
Proof.
  intros. unfold read_inline_scalar_list_at. pe Hp.
  apply bind_not_abort; [by apply get_u32_not_abort|]. intros count Hc%get_u32_bound.
  na_bind. intros [size align] He%ok_or_ok. pose proof (scalar_elem_pos _ _ _ He).
  unfold is_slice, ISIZE_MAX, is_u32 in *. apply bind_not_abort.
  { destruct (1 <? align); [|done]. apply next_multiple_of_not_abort; unfold USIZE_MAX; lia. }
  intros start Hs. assert (off + 4 <= start).
  { destruct (1 <? align) eqn:?; zb; [|by injection Hs as <-].
    apply next_multiple_of_ok in Hs; lia. }
  na_bind. intros bl [-> ?]%ok_or_ok%checked_mul_Some.
  na_bind. intros pend [-> ?]%ok_or_ok%checked_add_Some. ltb Hl.
  eapply scalar_loop_not_abort; [done|lia..].
Qed.

(** *** Nested scalar lists *)

Lemma decode_row_not_abort name inner al start i :
  nested_inner_align inner = Ok al -> 0 <= start -> 0 <= i ->
  decode_row b name inner al start i <> Abort.
Proof.
  intros Hal ??. unfold decode_row. na_bind. intros c [-> ?]%ok_or_ok%checked_add_Some. ltb Hl.
  apply bind_not_abort; [apply get_u32_not_abort; lia|]. intros rs Hrs%get_u32_bound.
  unfold is_u32 in Hrs. ltb Hl2. apply bind_not_abort; [apply get_u32_not_abort; lia|].
  intros count Hc%get_u32_bound. unfold is_u32 in Hc.
  assert (exists size, scalar_elem inner = Some (size, al)) as [size He].
  { destruct inner; simpl in *; simplify_eq; eauto. }
  pose proof (scalar_elem_pos _ _ _ He) as Hsz. unfold is_slice, ISIZE_MAX in Hb.
  apply bind_not_abort.
  { destruct (1 <? al); [|done]. apply next_multiple_of_not_abort; unfold USIZE_MAX; lia. }
  intros ps Hps. assert (0 <= ps).
  { destruct (1 <? al) eqn:?; zb; [|injection Hps as <-; lia].
    apply next_multiple_of_ok in Hps; lia. }
  ltb Hl3. rewrite He. cbn [bind]. apply bind_not_abort.
  { destruct inner; first [apply ok_or_not_abort|done]. }
  intros bl Hbl. assert (bl = count * size) as ->.
  { destruct inner; simpl in He; try discriminate He; injection He as <- <-;
      [injection Hbl as <-; lia|by apply ok_or_ok, checked_mul_Some in Hbl as [-> _]..]. }
  na_bind. intros pend [-> ?]%ok_or_ok%checked_add_Some. ltb Hl4.
  eapply scalar_loop_not_abort; [done|lia..].
Qed.

Lemma decode_rows_not_abort name inner al count start :
  nested_inner_align inner = Ok al -> 0 <= start ->
  decode_list_list_rows b name inner al count start <> Abort.
Proof.
  intros Hal Hs. unfold decode_list_list_rows. na_bind. intros _ _.
  apply loop_not_abort. intros i Hi. apply decode_row_not_abort; [done|done|lia].
Qed.

Lemma nested_inner_align_not_abort inner : nested_inner_align inner <> Abort.
Proof. by destruct inner. Qed.

Lemma read_list_list_at_not_abort off inner : 0 <= off -> read_list_list_at b off inner <> Abort.
Proof.
  intros. unfold read_list_list_at.
  apply bind_not_abort; [rewrite map_err_abort; apply nested_inner_align_not_abort|].
  intros al Hal%map_err_ok. pe Hp. apply bind_not_abort; [by apply get_u32_not_abort|].
  intros count _. apply decode_rows_not_abort; [done|lia].
Qed.

(** *** Recursive value readers *)

Definition nonneg_offsets (t : OffsetTable) : Prop :=
  forall fo, fo ∈ ot_fields t -> 0 <= fo_offset fo.

Lemma offsets_for_nonneg s t : offsets_for s = Ok t -> nonneg_offsets t.
Proof. intros Ht%offsets_for_fuel_sound fo Hfo. apply (ts_slot t Ht) in Hfo. tauto. Qed.

Lemma record_slot_nonneg t base f m o slot :
  nonneg_offsets t -> 0 <= base -> record_slot t base f m o = Ok slot -> 0 <= slot.
Proof.
  intros Ht ? Hs. apply bind_ok in Hs as (fo & Hfo%ok_or_ok & Hs).
  apply ok_or_ok, checked_add_Some in Hs as [-> _].
  apply find_elem in Hfo as [Hfo _]. apply Ht in Hfo. lia.
Qed.

Lemma record_slot_not_abort t base f m o : record_slot t base f m o <> Abort.
Proof. unfold record_slot. na_bind. intros. apply ok_or_not_abort. Qed.

Lemma payload_slot_offset_nonneg off ty slot :
  0 <= off -> variant_payload_slot_offset off ty = Some slot -> off < slot.
Proof.
  unfold variant_payload_slot_offset. intros Hoff.
  destruct (payload_slot_layout_runtime ty) as [size align] eqn:Hl.
  assert (align = 1 \/ align = 8 \/ align = 4) by (destruct ty; simplify_eq/=; lia).
  destruct (checked_add off 1) eqn:Ha; [|done]. apply checked_add_Some in Ha as [-> ?].
  destruct (align <=? 1) eqn:?; zb; [intros [= <-]; lia|].
  intros Hn. apply checked_next_multiple_of_Some in Hn; lia.
Qed.

Lemma selected_payload_elem ty tag sv p :
  variant_selected_payload ty tag = Ok sv -> sv_payload sv = Some p ->
  svp_ty p ∈ variant_payload_types ty.
Proof.
  destruct ty; simpl; try done.
  - destruct (tag =? 0); [intros [= <-]; done|]. destruct (tag =? 1); [|done].
    intros [= <-] [= <-]. left.
  - destruct (tag =? 0); [intros [= <-] [= <-]; left|]. destruct (tag =? 1); [|done].
    intros [= <-] [= <-]. right. left.
  - intros Hs. apply bind_ok in Hs as (v & Hv%ok_or_ok & [= <-]). simpl.
    apply find_elem in Hv as [Hv _]. destruct (payload_schema v name) as [s|] eqn:Hp; [|done].
    intros [= <-]. apply list_elem_of_omap. exists v. by rewrite Hp.
Qed.

Lemma payload_slot_ok off p slot : 0 <= off -> payload_slot off p = Ok slot -> 0 <= slot.
Proof. intros ? Hs%ok_or_ok%payload_slot_offset_nonneg; lia. Qed.

Lemma variant_selected_not_abort ty tag : variant_selected_payload ty tag <> Abort.
Proof.
  destruct ty; simpl; try done; [repeat case_match; done..|]. by na_bind.
Qed.

Lemma read_inline_not_abort off len : 0 <= off -> 0 <= len -> read_inline b off len <> Abort.
Proof.
  intros. unfold read_inline. na_bind. intros e [-> ?]%ok_or_ok%checked_add_Some. ltb Hl.
  apply slice_not_abort; lia.
Qed.

Lemma read_inline_length off len s : read_inline b off len = Ok s -> blen s = len.
Proof.
  unfold read_inline. intros Hr. apply bind_ok in Hr as (e & He%ok_or_ok & Hr).
  apply checked_add_Some in He as [-> _]. destruct (_ <? _); [done|].
  apply slice_length in Hr. lia.
Qed.

(** Per-entry loops of a pointer array whose entry table was checked. *)
Lemma entry_loop_not_abort {A} (k : Z -> outcome BufferError A) start count :
  0 <= start -> is_u32 count -> start + count * 4 <= blen b ->
  (forall e, is_u32 e -> k e <> Abort) ->
  loop (fun i => let* e := read_entry_pointer b start i in k e) 0 (Z.to_nat count) <> Abort.
Proof.
  unfold is_u32. intros ??? Hk. apply loop_not_abort. intros i Hi.
  apply bind_not_abort; [apply read_entry_pointer_not_abort; lia|].
  intros e He%read_entry_pointer_bound. by apply Hk.
Qed.

Hint Resolve read_slot_pointer_not_abort read_pointer_array_header_not_abort
  record_slot_not_abort : abi.

Definition lists_total (n : nat) : Prop := forall off e,
  0 <= off -> (2 * tsize e <= n)%nat -> read_list_value_at n b off e <> Abort.

Definition records_total (n : nat) : Prop := forall base t s,
  0 <= base -> nonneg_offsets t -> (2 * fields_size (schema_fields s) + 1 <= n)%nat ->
  read_record_at n b base t s <> Abort.

Definition fields_total (n : nat) : Prop := forall off ty,
  0 <= off -> (2 * tsize ty <= n)%nat -> read_field_at n b off ty <> Abort.

Definition variants_total (n : nat) : Prop := forall off ty,
  0 <= off -> (2 * tsize ty <= n + 1)%nat -> read_variant_record_at n b off ty <> Abort.

Lemma lists_total_step n : lists_total n -> records_total n -> variants_total n -> lists_total (S n).
Proof.
  intros Hlst Hrec Hvar off e Hoff Hn. destruct e; cbn [read_list_value_at]; try done;
    try (by apply read_inline_scalar_list_not_abort); rewrite ?tsize_list, ?tsize_schema in Hn;
    try (na_bind; intros [count start] (-> & ? & ?)%read_pointer_array_header_ok;
         apply entry_loop_not_abort; [lia|done|done|]; intros x Hx; apply Hvar; [apply Hx|lia]).
  - rewrite map_ok_abort. by apply read_list_string_at_not_abort.
  - na_bind. intros [count start] (-> & ? & ?)%read_pointer_array_header_ok.
    apply entry_loop_not_abort; [lia|done|done|]. intros x Hx.
    rewrite map_ok_abort. apply Hlst; [apply Hx|lia].
  - apply bind_not_abort; [rewrite map_err_abort; apply offsets_for_total|].
    intros t Ht%map_err_ok%offsets_for_nonneg.
    na_bind. intros [count start] (-> & ? & ?)%read_pointer_array_header_ok.
    apply entry_loop_not_abort; [lia|done|done|]. intros x Hx. na_bind. intros ? _. ltb Hl.
    apply Hrec; [apply Hx|done|lia].
Qed.

Lemma records_total_step n : fields_total n -> records_total (S n).
Proof.
  intros Hfld base t s Hbase Ht Hn. cbn [read_record_at].
  assert (forall f, f ∈ schema_fields s -> (2 * tsize (field_ty f) <= n)%nat) as Hf.
  { intros f Hf%fields_size_elem. lia. }
  destruct (schema_is_tuple s).
  - apply bind_not_abort; [|done]. apply mapM_not_abort. intros f Hin. na_bind.
    intros slot Hs%record_slot_nonneg; [|done..]. apply Hfld; auto.
  - apply bind_not_abort; [|done]. apply (foldM_not_abort (fun _ => True)); [done|].
    intros m f _ Hin. split; [|done]. na_bind.
    intros slot Hs%record_slot_nonneg; [|done..]. apply bind_not_abort; [|done].
    apply Hfld; auto.
Qed.

Lemma fields_total_step n : lists_total n -> records_total n -> variants_total n -> fields_total (S n).
Proof.
  intros Hlst Hrec Hvar off ty Hoff Hn.
  destruct ty; cbn [read_field_at]; try done; rewrite ?tsize_list, ?tsize_schema in Hn;
    try (na_bind; intros p Hp%read_slot_pointer_bound; apply Hvar; [apply Hp|lia]).
  - apply bind_not_abort; [by apply read_inline_not_abort|].
    intros s Hs%read_inline_length. apply bind_not_abort; [|done]. apply index_not_abort. lia.
  - apply bind_not_abort; [by apply read_inline_not_abort|done].
  - apply bind_not_abort; [by apply read_inline_not_abort|done].
  - na_bind. intros p Hp%read_slot_pointer_bound. rewrite map_ok_abort.
    apply read_string_record_not_abort, Hp.
  - na_bind. intros p Hp%read_slot_pointer_bound. rewrite map_ok_abort.
    apply Hlst; [apply Hp|lia].
  - apply bind_not_abort; [rewrite map_err_abort; apply offsets_for_total|].
    intros t Ht%map_err_ok%offsets_for_nonneg. na_bind. intros p Hp%read_slot_pointer_bound.
    apply Hrec; [apply Hp|done|lia].
Qed.

Lemma variants_total_step n : fields_total n -> variants_total (S n).
Proof.
  intros Hfld off ty Hoff Hn. cbn [read_variant_record_at]. pe Hp.
  apply bind_not_abort; [apply index_not_abort; lia|]. intros tag _.
  apply bind_not_abort; [rewrite map_err_abort; apply variant_selected_not_abort|].
  intros sv Hsv%map_err_ok.
  assert (forall p slot, sv_payload sv = Some p -> payload_slot off p = Ok slot ->
            read_field_at n b slot (svp_ty p) <> Abort) as Hpay.
  { intros p slot Hpay Hs%payload_slot_ok; [|done].
    pose proof (variant_payload_types_size _ _ (selected_payload_elem _ _ _ _ Hsv Hpay)).
    apply Hfld; [done|lia]. }
  destruct ty; try done; destruct (sv_payload sv) as [p|]; try done; unfold map_ok, payload_slot in *.
  - na_bind. intros slot Hs. apply bind_not_abort; [by apply Hpay|done].
  - na_bind. intros slot Hs. apply bind_not_abort; [by apply Hpay|done].
  - apply bind_not_abort; [|done]. na_bind. intros slot Hs.
    apply bind_not_abort; [by apply Hpay|]. intros v _. by destruct v.
Qed.

Lemma read_fuel_enough n :
  lists_total n /\ records_total n /\ fields_total n /\ variants_total n.
Proof.
  induction n as [|n (Hlst & Hrec & Hfld & Hvar)].
  { split_and!; intros ? *; intros; try (pose proof (tsize_pos e)); try (pose proof (tsize_pos ty)); lia. }
  split_and!; [by apply lists_total_step|by apply records_total_step|by apply fields_total_step
              |by apply variants_total_step].
Qed.
End Total.

(** ** Typed field-slot readers *)

Section Fields.
Context {H : HostTypes}.
Implicit Types r : BufferReader.

(** Every slot the index can resolve lies inside the buffer. *)
Record reader_wf r : Prop := {
  rw_slice : is_slice (rd_bytes r);
  rw_entry : forall name e, lookup_entry (rd_index r) name = Some e ->
    0 <= fe_offset e /\ fe_offset e + slot_size (fe_ty e) <= blen (rd_bytes r);
}.

Lemma index_fields_base0 t fields :
  (forall fo, fo ∈ ot_fields t -> fo_offset fo <= USIZE_MAX) ->
  index_fields (fun off => Ok off) t fields = index_fields (fun off => usize_add 0 off) t fields.
Proof.
  intros Ht. unfold index_fields.
  assert (forall p, p ∈ omap (fun fo => pair fo <$> find_field (fo_name fo) fields) (ot_fields t) ->
    fo_offset p.1 <= USIZE_MAX) as Hall.
  { intros [fo f] (fo' & Hfo & Hp)%list_elem_of_omap. destruct (find_field _ _); [|done].
    injection Hp as <- <-. by apply Ht. }
  revert Hall. generalize (omap (fun fo => pair fo <$> find_field (fo_name fo) fields) (ot_fields t)).
  intros l. induction l as [|[fo f] l IH]; intros Hl; cbn [mapM]; [done|].
  rewrite IH by (intros p Hp; apply Hl; by right).
  by rewrite usize_add_small by (apply (Hl (fo, f)); left).
Qed.

Lemma offsets_bounded s t :
  offsets_for s = Ok t -> root_size t <= USIZE_MAX /\ 0 <= root_size t /\
  forall fo, fo ∈ ot_fields t -> fo_offset fo <= USIZE_MAX.
Proof.
  intros [Hs _]%offsets_for_typed. pose proof (ts_size t Hs). split_and!; [lia|lia|].
  intros fo Hfo. apply (ts_slot t Hs) in Hfo as (_ & Hal & Hsz & _ & _ & _ & Hend).
  apply abi_align_pos in Hal. unfold fo_end in Hend. lia.
Qed.

Lemma indexed_reader_wf s t b base idx :
  is_slice b -> offsets_for s = Ok t -> 0 <= base -> base + root_size t <= blen b ->
  index_fields (fun off => usize_add base off) t (schema_fields s) = Ok idx ->
  reader_wf (MkReader t idx b).
Proof.
  intros Hb Ht Hbase Hend Hidx. split; [done|]. intros name e Hl. simpl in *.
  unfold is_slice, ISIZE_MAX in Hb.
  destruct (index_lookup_bounds s t base idx name e) as [? ?]; try done; [unfold USIZE_MAX; lia|].
  lia.
Qed.

Lemma reader_new_wf s t b r :
  is_slice b -> offsets_for s = Ok t -> reader_new t (schema_fields s) b = Ok r ->
  reader_wf r /\ rd_bytes r = b.
Proof.
  unfold reader_new. intros Hb Ht. destruct (_ <? _) eqn:Hl; [done|]. zb.
  destruct (offsets_bounded s t Ht) as (? & ? & Hoff).
  rewrite index_fields_base0 by done. intros Hr. inv_ok Hr. subst. split; [|done].
  eapply (indexed_reader_wf s _ _ 0); try done; lia.
Qed.

Lemma reader_new_at_base_wf s t b base r :
  is_slice b -> offsets_for s = Ok t -> 0 <= base ->
  reader_new_at_base t (schema_fields s) b base = Ok r -> reader_wf r /\ rd_bytes r = b.
Proof.
  unfold reader_new_at_base. intros Hb Ht Hbase Hr.
  apply bind_ok in Hr as (e & He%ok_or_ok%checked_add_Some & Hr). destruct He as [-> ?].
  destruct (_ <? _) eqn:Hl in Hr; [done|]. zb. inv_ok Hr. subst. split; [|done].
  by eapply (indexed_reader_wf s).
Qed.

Lemma sub_reader_wf s t b name base o x r :
  is_slice b -> offsets_for s = Ok t -> 0 <= base ->
  sub_reader_at b name base t (schema_fields s) o x = Ok r -> reader_wf r /\ rd_bytes r = b.
Proof.
  unfold sub_reader_at. intros Hb Ht Hbase Hr.
  apply bind_ok in Hr as (e & He%ok_or_ok%checked_add_Some & Hr). destruct He as [-> ?].
  destruct (_ <? _) eqn:Hl in Hr; [done|]. zb. inv_ok Hr. subst. split; [|done].
  by eapply (indexed_reader_wf s).
Qed.

Lemma sub_reader_not_abort s t b name base o x :
  is_slice b -> offsets_for s = Ok t -> 0 <= base ->
  sub_reader_at b name base t (schema_fields s) o x <> Abort.
Proof.
  intros Hb Ht Hbase. unfold sub_reader_at. na_bind. intros e [-> ?]%ok_or_ok%checked_add_Some.
  ltb Hl. destruct (index_fields_ok s t base Ht) as [idx ->]; [lia|lia|done].
Qed.

Lemma reader_new_at_base_not_abort s t b base :
  offsets_for s = Ok t -> 0 <= base ->
  reader_new_at_base t (schema_fields s) b base <> Abort.
Proof.
  intros Ht Hbase. unfold reader_new_at_base. na_bind.
  intros e [-> ?]%ok_or_ok%checked_add_Some. ltb Hl.
  destruct (index_fields_ok s t base Ht) as [idx ->]; [lia|lia|done].
Qed.

Lemma reader_new_not_abort s t b :
  offsets_for s = Ok t -> reader_new t (schema_fields s) b <> Abort.
Proof.
  intros Ht. unfold reader_new. ltb Hl. destruct (offsets_bounded s t Ht) as (? & ? & Hoff).
  rewrite index_fields_base0 by done.
  destruct (index_fields_ok s t 0 Ht) as [idx ->]; [lia|lia|done].
Qed.

Section Reads.
Context (r : BufferReader) (Hwf : reader_wf r).
Local Notation b := (rd_bytes r).

Lemma find_entry_not_abort name : find_entry r name <> Abort.
Proof. apply ok_or_not_abort. Qed.

Lemma find_entry_ok name e :
  find_entry r name = Ok e -> 0 <= fe_offset e /\ fe_offset e + slot_size (fe_ty e) <= blen b.
Proof. intros Hl%ok_or_ok. by apply (rw_entry r Hwf name). Qed.

Lemma locate_not_abort name ty l : locate r name ty l <> Abort.
Proof. unfold locate. na_bind. intros e _. by destruct (type_matches _ _). Qed.

Lemma type_matches_slot_size ty ty' : type_matches ty ty' = true -> slot_size ty = slot_size ty'.
Proof. by destruct ty, ty'. Qed.

Lemma locate_ok name ty l off size k :
  locate r name ty l = Ok (off, size, k) -> 0 <= off /\ off + slot_size ty <= blen b.
Proof.
  unfold locate. intros Hl. apply bind_ok in Hl as (e & He%ok_or_ok & Hl).
  destruct (type_matches _ _) eqn:Hm; [|done]. injection Hl as <- <- <-.
  apply type_matches_slot_size in Hm. rewrite <-Hm. by apply (rw_entry r Hwf name).
Qed.

Hint Resolve find_entry_not_abort locate_not_abort : abi.

Lemma decode_pointer_header_not_abort name off al :
  0 <= off -> decode_pointer_header b name off al <> Abort.
Proof.
  intros. unfold decode_pointer_header. pe Hp.
  apply bind_not_abort; [by apply get_u32_not_abort|]. intros rs Hrs%get_u32_bound.
  unfold is_u32 in Hrs. pe Hp2. apply bind_not_abort; [apply get_u32_not_abort; lia|].
  intros c _. apply bind_not_abort; [|done]. destruct (1 <? al); [|done].
  destruct (_ =? _); [done|apply ok_or_not_abort].
Qed.

Lemma decode_pointer_header_ok name off al count start :
  decode_pointer_header b name off al = Ok (count, start) -> is_u32 count /\ 4 <= start.
Proof.
  unfold decode_pointer_header. pe Hp. intros Hd.
  apply bind_ok in Hd as (rs & Hrs%get_u32_bound & Hd).
  destruct (past_end b rs 4) eqn:Hp2; [done|].
  apply bind_ok in Hd as (c & Hc%get_u32_bound & Hd).
  apply bind_ok in Hd as (ps & Hps & Hd). injection Hd as <- <-. split; [done|].
  unfold is_u32 in *. destruct (1 <? al) eqn:Hal; [|injection Hps as <-; lia]. zb.
  pose proof (Z.mod_pos_bound (rs + 4) al). destruct (_ =? 0); [injection Hps as <-; lia|].
  apply ok_or_ok, checked_add_Some in Hps as [-> _]. lia.
Qed.

Lemma read_int_not_abort name : read_int r name <> Abort.
Proof.
  unfold read_int. na_bind. intros [[off size] k] Hl%locate_ok.
  apply get_i64_not_abort; unfold slot_size in *; simpl in *; lia.
Qed.

Lemma read_float_not_abort name : read_float r name <> Abort.
Proof.
  unfold read_float. na_bind. intros [[off size] k] Hl%locate_ok.
  apply get_f64_not_abort; unfold slot_size in *; simpl in *; lia.
Qed.

Lemma read_bool_not_abort name : read_bool r name <> Abort.
Proof.
  unfold read_bool. na_bind. intros [[off size] k] Hl%locate_ok.
  apply get_bool_not_abort; unfold slot_size in *; simpl in *; lia.
Qed.

Lemma read_unit_not_abort name : read_unit r name <> Abort.
Proof. unfold read_unit. na_bind. by intros [[off size] k] _. Qed.

Lemma read_value_not_abort name ty : read_value r name ty <> Abort.
Proof.
  unfold read_value. na_bind. intros e [? ?]%find_entry_ok.
  destruct (type_matches _ _); [|done]. apply read_fuel_enough; [apply Hwf|done|].
  unfold read_fuel. lia.
Qed.

Lemma read_string_not_abort name : read_string r name <> Abort.
Proof.
  unfold read_string. na_bind. intros [[off size] k] [? ?]%locate_ok. na_bind. intros _ _.
  apply bind_not_abort; [by apply decode_pointer_header_not_abort|].
  intros [len start] [? ?]%decode_pointer_header_ok.
  unfold is_u32 in *. apply read_utf8_span_not_abort; lia.
Qed.

Lemma read_words_not_abort {A} name (get : Z -> outcome BufferError A) count start :
  (forall off, 0 <= off -> off + 8 <= blen b -> get off <> Abort) ->
  0 <= start -> 0 <= count -> read_words b name get count start <> Abort.
Proof.
  intros Hget ??. unfold read_words. na_bind. intros bl [-> ?]%ok_or_ok%checked_mul_Some.
  na_bind. intros pend [-> ?]%ok_or_ok%checked_add_Some. ltb Hl.
  apply loop_not_abort. intros i Hi. apply Hget; lia.
Qed.

Lemma read_list_int_not_abort name : read_list_int r name <> Abort.
Proof.
  unfold read_list_int. na_bind. intros [[off size] [? ?|al]] [? ?]%locate_ok; [done|].
  apply bind_not_abort; [by apply decode_pointer_header_not_abort|].
  intros [count start] [? ?]%decode_pointer_header_ok. unfold is_u32 in *.
  apply read_words_not_abort; [apply get_i64_not_abort|lia..].
Qed.

Lemma read_list_float_not_abort name : read_list_float r name <> Abort.
Proof.
  unfold read_list_float. na_bind. intros e [? ?]%find_entry_ok.
  destruct (fe_ty e) as [| | | | |[]| | | | |]; try done. destruct (fe_kind e); [done|].
  apply bind_not_abort; [by apply decode_pointer_header_not_abort|].
  intros [count start] [? ?]%decode_pointer_header_ok. unfold is_u32 in *.
  apply read_words_not_abort; [apply get_f64_not_abort|lia..].
Qed.

Lemma read_list_bool_not_abort name : read_list_bool r name <> Abort.
Proof.
  unfold read_list_bool. na_bind. intros e [? ?]%find_entry_ok.
  destruct (fe_ty e) as [| | | | |[]| | | | |]; try done. na_bind. intros _ _.
  apply bind_not_abort; [by apply decode_pointer_header_not_abort|].
  intros [count start] [? ?]%decode_pointer_header_ok. unfold is_u32 in *.
  na_bind. intros pend [-> ?]%ok_or_ok%checked_add_Some. ltb Hl.
  apply loop_not_abort. intros i Hi. apply get_bool_not_abort; lia.
Qed.

Lemma read_string_entry_not_abort name start i :
  0 <= start -> 0 <= i -> read_string_entry b name start i <> Abort.
Proof.
  intros. unfold read_string_entry. ltb Hl.
  apply bind_not_abort; [apply get_u32_not_abort; lia|]. intros rs Hrs%get_u32_bound.
  unfold is_u32 in Hrs. ltb Hl2. apply bind_not_abort; [apply get_u32_not_abort; lia|].
  intros len Hlen%get_u32_bound. unfold is_u32 in Hlen. apply read_utf8_span_not_abort; lia.
Qed.

Lemma read_list_string_not_abort name : read_list_string r name <> Abort.
Proof.
  unfold read_list_string. na_bind. intros e [? ?]%find_entry_ok.
  destruct (fe_ty e) as [| | | | |[]| | | | |]; try done. na_bind. intros _ _.
  apply bind_not_abort; [by apply decode_pointer_header_not_abort|].
  intros [count start] [? ?]%decode_pointer_header_ok. na_bind. intros _ _.
  apply loop_not_abort. intros i Hi. apply read_string_entry_not_abort; lia.
Qed.

Lemma read_list_record_not_abort name t s :
  offsets_for s = Ok t -> read_list_record r name t s <> Abort.
Proof.
  intros Ht. unfold read_list_record. na_bind. intros e [? ?]%find_entry_ok.
  destruct (fe_ty e) as [| | | | |[]| | | | |]; try done.
  destruct (negb _); [done|]. na_bind. intros _ _.
  apply bind_not_abort; [by apply decode_pointer_header_not_abort|].
  intros [count start] [? ?]%decode_pointer_header_ok. na_bind. intros _ _.
  apply loop_not_abort. intros i Hi. cbv zeta. ltb Hl.
  apply bind_not_abort; [apply get_u32_not_abort; lia|].
  intros sb Hsb%get_u32_bound. apply (sub_reader_not_abort s); [apply Hwf|done|apply Hsb].
Qed.

Lemma read_list_value_not_abort name e : read_list_value r name e <> Abort.
Proof.
  unfold read_list_value. na_bind. intros en [? ?]%find_entry_ok. na_bind. intros _ _.
  apply bind_not_abort; [by apply read_slot_pointer_not_abort|].
  intros p Hp%read_slot_pointer_bound. apply read_fuel_enough; [apply Hwf|apply Hp|].
  unfold read_fuel. lia.
Qed.

Lemma reader_sub_record_not_abort name t s :
  offsets_for s = Ok t -> reader_sub_record r name t (schema_fields s) <> Abort.
Proof.
  intros Ht. unfold reader_sub_record. apply bind_not_abort; [apply ok_or_not_abort|].
  intros e [? ?]%find_entry_ok. destruct (fe_ty e); try done. na_bind. intros _ _. pe Hp.
  apply bind_not_abort; [by apply get_u32_not_abort|].
  intros sb Hsb%get_u32_bound. apply (sub_reader_not_abort s); [apply Hwf|done|apply Hsb].
Qed.
End Reads.
End Fields.
