(* ===== verification/VerifiedRead.v ===== *)
(** The contract between the verifier and the reader: once the verifier has
    accepted a graph, a decode of that graph can only fail on a payload that is
    not UTF-8, and its result is a function of the bytes inside the verified
    regions alone. *)

From Stdlib Require Import ZArith Lia Bool.
From stdpp Require Import base list strings.
From S2P Require Import Prelude Bytes SchemaCanonical Layout LayoutFacts Value.
From S2P Require Import Verifier VerifierFacts BufferTypes IndexFacts Reader ReaderFacts.
Local Open Scope Z_scope.
Local Open Scope abi_scope.

(** ** Certified computations *)

(** The decode errors the verifier does not rule out: it never inspects payload
    bytes. *)
Definition utf8_error (e : BufferError) : Prop :=
  match e with
  | MalformedPayload _ reason =>
      reason = "string payload is not valid utf-8"%string \/
      reason = "in-place list-string payload is not valid utf-8"%string
  | _ => False
  end.

Definition clean {A} (x : outcome BufferError A) : Prop :=
  x <> Abort /\ forall e, x = Err e -> utf8_error e.

Section Certified.
Context (bounds : Bounds) (b : bytes).

(** [f] has one clean result on every buffer that agrees with [b] on the
    regions. *)
Definition certified {A} (f : bytes -> outcome BufferError A) : Prop :=
  exists x, clean x /\ forall c, agree bounds b c -> f c = x.

Context (Hwf : bounds_wf bounds) (Hlen : required_len bounds <= blen b).

Lemma agree_refl : agree bounds b b.
Proof. by split. Qed.

Lemma certified_ok {A} (a : A) : certified (fun _ => Ok a).
Proof. exists (Ok a). done. Qed.

Lemma certified_bind {A B} (f : bytes -> outcome BufferError A)
    (k : bytes -> A -> outcome BufferError B) :
  certified f -> (forall a, f b = Ok a -> certified (fun c => k c a)) ->
  certified (fun c => bind (f c) (k c)).
Proof.
  intros (x & [Hx1 Hx2] & Hf) Hk. pose proof (Hf b agree_refl) as Hb.
  destruct x as [a|e|]; [| |done].
  - destruct (Hk a Hb) as (y & Hy & Hkc). exists y. split; [done|].
    intros c Hc. rewrite (Hf c Hc). simpl. by apply Hkc.
  - exists (Err e). split; [|intros c Hc; by rewrite (Hf c Hc)].
    split; [done|]. intros e' [= <-]. by apply Hx2.
Qed.

(** A step whose result is known on every agreeing buffer. *)
Lemma certified_step {A B} (f : bytes -> outcome BufferError A)
    (k : bytes -> A -> outcome BufferError B) a :
  (forall c, agree bounds b c -> f c = Ok a) -> certified (fun c => k c a) ->
  certified (fun c => bind (f c) (k c)).
Proof.
  intros Hf (x & Hx & Hk). exists x. split; [done|]. intros c Hc. rewrite (Hf c Hc). by apply Hk.
Qed.

Lemma certified_if_false {A} (p : bytes -> bool) (f g : bytes -> outcome BufferError A) :
  (forall c, agree bounds b c -> p c = false) -> certified g ->
  certified (fun c => if p c then f c else g c).
Proof.
  intros Hp (x & Hx & Hg). exists x. split; [done|]. intros c Hc. rewrite (Hp c Hc). by apply Hg.
Qed.

Lemma certified_map_ok {A B} (h : A -> B) f :
  certified f -> certified (fun c => map_ok h (f c)).
Proof.
  intros Hf. apply (certified_bind f (fun _ a => Ok (h a))); [done|].
  intros a _. apply certified_ok.
Qed.

Lemma certified_loop {A} (f : bytes -> Z -> outcome BufferError A) n : forall i,
  (forall j, i <= j < i + Z.of_nat n -> certified (fun c => f c j)) ->
  certified (fun c => loop (f c) i n).
Proof.
  induction n as [|n IH]; intros i Hf; simpl; [apply certified_ok|].
  apply certified_bind; [apply Hf; lia|]. intros y _.
  apply (certified_bind (fun c => loop (f c) (i + 1) n) (fun _ ys => Ok (y :: ys))).
  - apply IH. intros j Hj. apply Hf. lia.
  - intros ys _. apply certified_ok.
Qed.

Lemma certified_mapM {A B} (f : bytes -> A -> outcome BufferError B) l :
  (forall x, x ∈ l -> certified (fun c => f c x)) -> certified (fun c => mapM (f c) l).
Proof.
  induction l as [|x l IH]; intros Hf; simpl; [apply certified_ok|].
  apply certified_bind; [apply Hf; left|]. intros y _.
  apply (certified_bind (fun c => mapM (f c) l) (fun _ ys => Ok (y :: ys))).
  - apply IH. intros z Hz. apply Hf. by right.
  - intros ys _. apply certified_ok.
Qed.

Lemma certified_foldM {S A} (f : bytes -> S -> A -> outcome BufferError S) l : forall s,
  (forall s x, x ∈ l -> certified (fun c => f c s x)) -> certified (fun c => foldM (f c) s l).
Proof.
  induction l as [|x l IH]; intros s Hf; simpl; [apply certified_ok|].
  apply certified_bind; [apply Hf; left|]. intros s' _. apply IH. intros s2 z Hz. apply Hf. by right.
Qed.

(** *** Primitive reads inside a verified span *)

Lemma agree_slice {E} c off len :
  agree bounds b c -> span_in bounds off len -> 0 <= len -> @slice E c off len = slice b off len.
Proof.
  intros Hc Hs Hl. pose proof (span_in_covered bounds b off len Hwf Hlen Hs).
  pose proof (span_in_covered bounds c off len Hwf (agree_r _ _ _ Hc) Hs).
  apply slice_agree_in; [lia..|]. intros i Hi. destruct Hs as (r & Hr & ? & ?).
  symmetry. rewrite <-(Nat2Z.id i). eapply (agree_at _ _ _ Hc); [done|lia].
Qed.

Lemma agree_past_end c off n :
  agree bounds b c -> span_in bounds off n -> off + n <= USIZE_MAX -> past_end c off n = false.
Proof.
  intros Hc Hs Hm. pose proof (span_in_covered bounds c off n Hwf (agree_r _ _ _ Hc) Hs).
  apply past_end_false. lia.
Qed.

Lemma agree_index {E} c off :
  agree bounds b c -> span_in bounds off 1 -> @index E c off = index b off.
Proof.
  intros Hc Hs. destruct (span_in_covered bounds b off 1 Hwf Hlen Hs).
  apply index_agree. destruct Hs as (r & Hr & ? & ?).
  symmetry. eapply (agree_at _ _ _ Hc); [done|lia].
Qed.

Lemma agree_ltb c off n :
  agree bounds b c -> span_in bounds off n -> (blen c <? off + n) = false.
Proof.
  intros Hc Hs. pose proof (span_in_covered bounds c off n Hwf (agree_r _ _ _ Hc) Hs).
  apply Z.ltb_ge. lia.
Qed.

Lemma verified_past_end off field what v c :
  read_u32 b off field what bounds = Ok v -> agree bounds b c -> past_end c off 4 = false.
Proof. intros (Hs & Hm & _)%read_u32_ok Hc. by apply agree_past_end. Qed.

Lemma verified_u32 off field what v c :
  read_u32 b off field what bounds = Ok v -> agree bounds b c -> get_u32 c off = Ok v.
Proof.
  intros (Hs & Hm & _ & s & Hsl & ->)%read_u32_ok Hc.
  unfold get_u32. by rewrite (agree_slice c), Hsl.
Qed.
End Certified.

(** ** Schemas whose records have distinct field names *)

Section Names.
Context {H : HostTypes}.

Definition distinct_fields (fs : list Field) : bool := bool_decide (NoDup (map field_name fs)).

Fixpoint distinct_names (ty : TypeRepr) : bool :=
  match ty with
  | TList e => distinct_names e
  | TOption i => distinct_names i
  | TResult o e => distinct_names o && distinct_names e
  | TEnum _ vs =>
      forallb (fun v => distinct_fields (variant_fields v)
                        && forallb (fun f => distinct_names (field_ty f)) (variant_fields v)) vs
  | TSchema s =>
      distinct_fields (schema_fields s)
      && forallb (fun f => distinct_names (field_ty f)) (schema_fields s)
  | _ => true
  end.

Lemma distinct_payloads ty p :
  distinct_names ty = true -> p ∈ variant_payload_types ty -> distinct_names p = true.
Proof.
  destruct ty; simpl; try (by rewrite elem_of_nil).
  - by intros ? ->%list_elem_of_singleton.
  - intros [? ?]%andb_true_iff. rewrite !elem_of_cons, elem_of_nil. naive_solver.
  - intros Hvs (v & Hv & Hp)%list_elem_of_omap. rewrite forallb_elem in Hvs.
    specialize (Hvs v Hv). destruct (payload_schema v name) eqn:Hs; [|done]. injection Hp as <-.
    unfold payload_schema in Hs. destruct (variant_fields v); [done|]. by injection Hs as <-.
Qed.

Lemma distinct_schema_field s f :
  distinct_names (TSchema s) = true -> f ∈ schema_fields s -> distinct_names (field_ty f) = true.
Proof. simpl. intros [_ Hf]%andb_true_iff Hin. rewrite forallb_elem in Hf. auto. Qed.

(** With distinct names the lookup of a declared field returns that field. *)
Lemma find_field_distinct fs f :
  NoDup (map field_name fs) -> f ∈ fs -> find_field (field_name f) fs = Some f.
Proof.
  induction fs as [|g fs IH]; simpl; [by intros _ ?%elem_of_nil|].
  intros [Hg Hnd]%NoDup_cons. intros [->|Hf]%elem_of_cons; unfold find_field; simpl.
  - by rewrite bool_decide_true.
  - rewrite bool_decide_false; [by apply IH|].
    intros Heq. apply Hg. rewrite Heq. apply list_elem_of_fmap. by exists f.
Qed.

Lemma find_field_schema s f :
  distinct_names (TSchema s) = true -> f ∈ schema_fields s ->
  find_field (field_name f) (schema_fields s) = Some f.
Proof.
  simpl. intros [Hd _]%andb_true_iff Hf. apply find_field_distinct; [|done].
  by apply bool_decide_eq_true in Hd.
Qed.
End Names.

(** ** The verified walk *)

Section Walk.
Context {H : HostTypes}.
Context (bounds : Bounds) (b : bytes).
Context (Hwf : bounds_wf bounds) (Hlen : required_len bounds <= blen b).

Local Abbreviation cert := (certified bounds b).

Lemma certified_utf8_span name start len o e u :
  span_in bounds start len -> start + len <= USIZE_MAX -> 0 <= len ->
  utf8_error (MalformedPayload name u) ->
  cert (fun c => read_utf8_span c name start len o e u).
Proof.
  intros Hs Hm Hl Hu. unfold read_utf8_span.
  apply (certified_step _ _ (fun c => ok_or (checked_add start len) (MalformedPayload name o))
           _ (start + len)).
  { intros c _. by rewrite checked_add_small. }
  apply certified_if_false; [intros c Hc; by eapply agree_ltb|].
  destruct (slice_in_range (E := BufferError) b start len) as (s & Hsl & _).
  { pose proof (span_in_covered bounds b start len Hwf Hlen Hs). lia. }
  { lia. }
  { pose proof (span_in_covered bounds b start len Hwf Hlen Hs). lia. }
  apply (certified_step _ _ _ _ s).
  { intros c Hc. replace (start + len - start) with len by lia. by rewrite (agree_slice bounds b Hwf Hlen c), Hsl. }
  exists (ok_or (from_utf8 s) (MalformedPayload name u)). split; [|done].
  split; [apply ok_or_not_abort|]. destruct (from_utf8 s); [done|]. by intros ? [= <-].
Qed.

Lemma certified_string m field le ptr depth :
  verify_pointer_target m b field TString le ptr bounds depth = Ok tt ->
  cert (fun c => read_string_record_at c ptr).
Proof.
  destruct m as [|m]; [done|]. cbn [verify_pointer_target]. intros Hv.
  apply bind_ok in Hv as (len & Hlenr & Hv).
  apply bind_ok in Hv as (p & Hp%ok_or_ok%checked_add_Some & Hv). destruct Hp as [-> ?].
  apply require_span_ok in Hv as [Hs Hm]. pose proof (read_u32_ok _ _ _ _ _ _ Hlenr) as (_ & _ & Hu & _).
  unfold read_string_record_at.
  apply certified_if_false; [intros c Hc; by eapply verified_past_end|].
  eapply certified_step; [intros c Hc; by eapply verified_u32|].
  apply certified_utf8_span; [done|done|apply Hu|by left].
Qed.

(** *** Lists *)

(** What an accepted pointer-array list guarantees. *)
Lemma verified_entries m field element a ptr depth :
  verify_list_target (S m) b field element (Some (PointerArray a)) ptr bounds depth = Ok tt ->
  exists count, read_u32 b ptr field "list length prefix" bounds = Ok count /\ is_u32 count /\
    forall i, 0 <= i < count -> exists e,
      read_u32 b (ptr + 4 + i * 4) field "list entry pointer" bounds = Ok e /\
      verify_pointer_target m b field element (element_list_kind element) e bounds (depth + 1)
        = Ok tt.
Proof.
  cbn [verify_list_target]. intros Hv. apply bind_ok in Hv as (count & Hcount & Hv).
  pose proof (read_u32_ok _ _ _ _ _ _ Hcount) as (_ & _ & Hu & _).
  apply bind_ok in Hv as (es & Hes%ok_or_ok%checked_add_Some & Hv). destruct Hes as [-> _].
  apply bind_ok in Hv as (us & Hloop & _). apply loop_ok in Hloop as [Hl Hall].
  exists count. split; [done|]; split; [done|]. intros i Hi. unfold is_u32 in Hu.
  destruct (lookup_lt_is_Some_2 us (Z.to_nat i)) as [[] Hx]; [lia|].
  specialize (Hall _ _ Hx). replace (0 + Z.of_nat (Z.to_nat i)) with i in Hall by lia.
  apply bind_ok in Hall as (rel & Hrel%ok_or_ok%checked_mul_Some & Hall). destruct Hrel as [-> _].
  apply bind_ok in Hall as (eo & Heo%ok_or_ok%checked_add_Some & Hall). destruct Heo as [-> _].
  apply bind_ok in Hall as (e & He & Hall). by exists e.
Qed.

Section Entries.
Context (m : nat) (field : string) (element : TypeRepr) (a ptr depth : Z).
Context (Hv : verify_list_target (S m) b field element (Some (PointerArray a)) ptr bounds depth
              = Ok tt).

Lemma entries_in_bounds count c :
  read_u32 b ptr field "list length prefix" bounds = Ok count -> agree bounds b c ->
  ptr + 4 + count * 4 <= blen c /\ ptr + 4 + count * 4 <= USIZE_MAX.
Proof.
  intros Hc Hag. destruct (verified_entries _ _ _ _ _ _ Hv) as (count' & Hc' & Hu & He).
  rewrite Hc in Hc'. injection Hc' as <-. unfold is_u32 in Hu.
  destruct (decide (count = 0)) as [->|].
  - apply read_u32_ok in Hc as (Hs & ? & _).
    pose proof (span_in_covered bounds c ptr 4 Hwf (agree_r _ _ _ Hag) Hs). lia.
  - destruct (He (count - 1)) as (e & Hr & _); [lia|]. apply read_u32_ok in Hr as (Hs & ? & _).
    pose proof (span_in_covered bounds c _ 4 Hwf (agree_r _ _ _ Hag) Hs). lia.
Qed.

Lemma check_entries_certified count name c :
  read_u32 b ptr field "list length prefix" bounds = Ok count -> agree bounds b c ->
  check_pointer_entries_in_bounds c name (ptr + 4) count = Ok tt.
Proof.
  intros Hc Hag. pose proof (entries_in_bounds count c Hc Hag).
  destruct (read_u32_ok _ _ _ _ _ _ Hc) as (Hs & _ & Hu & _). unfold is_u32 in Hu.
  pose proof (span_in_covered bounds b ptr 4 Hwf Hlen Hs).
  unfold check_pointer_entries_in_bounds, checked_mul.
  rewrite (proj2 (Z.leb_le _ _)) by lia. rewrite checked_add_small by lia.
  by rewrite (proj2 (Z.leb_le _ _)) by lia.
Qed.

Lemma header_certified count c :
  read_u32 b ptr field "list length prefix" bounds = Ok count -> agree bounds b c ->
  read_pointer_array_header c ptr = Ok (count, ptr + 4).
Proof.
  intros Hc Hag. unfold read_pointer_array_header.
  rewrite (verified_past_end bounds b Hwf _ _ _ _ c Hc Hag).
  rewrite (verified_u32 bounds b Hwf Hlen _ _ _ _ c Hc Hag). simpl.
  by rewrite (check_entries_certified count).
Qed.

Lemma entry_certified c i e :
  read_u32 b (ptr + 4 + i * 4) field "list entry pointer" bounds = Ok e ->
  agree bounds b c -> read_entry_pointer c (ptr + 4) i = Ok e.
Proof.
  intros He Hag. unfold read_entry_pointer.
  destruct (read_u32_ok _ _ _ _ _ _ He) as (Hs & Hm & _).
  rewrite checked_add_small by lia. cbn [ok_or bind].
  rewrite usize_add_small by done. cbn [bind].
  rewrite (agree_ltb bounds b Hwf c _ _ Hag Hs). by eapply verified_u32.
Qed.

(** A list decoder that follows every entry pointer with [k]. *)
Lemma entries_loop_certified {A} (k : bytes -> Z -> outcome BufferError A) :
  (forall e, is_u32 e ->
     verify_pointer_target m b field element (element_list_kind element) e bounds (depth + 1)
       = Ok tt -> cert (fun c => k c e)) ->
  cert (fun c =>
    let* (count, entries_start) := read_pointer_array_header c ptr in
    loop (fun i => let* e := read_entry_pointer c entries_start i in k c e)
         0 (Z.to_nat count)).
Proof.
  intros Hk. destruct (verified_entries _ _ _ _ _ _ Hv) as (count & Hc & Hu & He).
  eapply (certified_step _ _ (fun c => read_pointer_array_header c ptr)
            (fun c p => let '(count, es) := p in _)).
  { intros c Hag. by apply header_certified. }
  apply certified_loop; [done|]. intros i Hi. unfold is_u32 in Hu.
  destruct (He i) as (e & Hr & Hve); [lia|].
  eapply certified_step; [intros c Hag; by apply entry_certified|].
  apply Hk; [|done]. by apply read_u32_ok in Hr as (_ & _ & ? & _).
Qed.

(** [read_list_string_at] inlines the entry reads of the loop above. *)
Lemma list_string_certified :
  element = TString -> cert (fun c => read_list_string_at c ptr).
Proof.
  intros Hel. destruct (verified_entries _ _ _ _ _ _ Hv) as (count & Hc & Hu & He).
  unfold read_list_string_at.
  apply certified_if_false; [intros c Hag; by eapply verified_past_end|].
  eapply certified_step; [intros c Hag; by eapply verified_u32|].
  eapply certified_step; [intros c Hag; by apply check_entries_certified|].
  apply certified_loop; [done|]. intros i Hi. unfold is_u32 in Hu.
  destruct (He i) as (e & Hr & Hve); [lia|].
  pose proof (read_u32_ok _ _ _ _ _ _ Hr) as (Hs & Hm & Heu & _).
  eapply certified_step; [intros c _; rewrite checked_add_small by lia; done|].
  apply certified_if_false; [intros c Hag; by eapply agree_ltb|].
  eapply certified_step; [intros c Hag; by eapply verified_u32|].
  rewrite Hel in Hve. destruct m as [|m']; [done|]. cbn [verify_pointer_target] in Hve.
  apply bind_ok in Hve as (len & Hl & Hve).
  pose proof (read_u32_ok _ _ _ _ _ _ Hl) as (Hs2 & Hm2 & Hlu & _).
  apply bind_ok in Hve as (p & Hp%ok_or_ok%checked_add_Some & Hve). destruct Hp as [-> _].
  apply require_span_ok in Hve as [Hs3 Hm3].
  apply certified_if_false; [intros c Hag; by eapply agree_ltb|].
  eapply certified_step; [intros c Hag; by eapply verified_u32|].
  apply certified_utf8_span; [done|done|apply Hlu|by right].
Qed.
End Entries.

Lemma scalar_certified e size align off :
  scalar_elem e = Some (size, align) -> span_in bounds off size ->
  cert (fun c => read_scalar_at c e off).
Proof.
  intros He Hs. pose proof (scalar_elem_pos _ _ _ He).
  pose proof (span_in_covered bounds b off size Hwf Hlen Hs).
  exists (read_scalar_at b e off). split.
  - split; [eapply read_scalar_at_not_abort; [done|lia|lia]|].
    destruct (slice_in_range (E := BufferError) b off size) as (s & Hsl & _); try lia.
    destruct e; simpl in *; try done; injection He as <- <-; unfold map_ok, get_bool, get_i64, get_f64;
      rewrite ?Hsl; try done.
    destruct (index_in_range (E := BufferError) b off) as [x ->]; [lia|done].
  - intros c Hc. destruct e; simpl in *; try done; injection He as <- <-;
      unfold map_ok, get_bool, get_i64, get_f64;
      rewrite ?(agree_slice bounds b Hwf Hlen c) by (done || lia); try done.
    by rewrite (agree_index bounds b Hwf Hlen c).
Qed.

Lemma inline_list_certified m field e size align ptr depth :
  verify_list_target m b field e (Some (InlineFixed size align)) ptr bounds depth = Ok tt ->
  scalar_elem e = Some (size, align) -> cert (fun c => read_inline_scalar_list_at c ptr e).
Proof.
  intros Hv He. destruct m as [|m]; [done|]. cbn [verify_list_target] in Hv.
  pose proof (scalar_elem_pos _ _ _ He) as Hsz.
  apply bind_ok in Hv as (count & Hc & Hv).
  pose proof (read_u32_ok _ _ _ _ _ _ Hc) as (Hs0 & _ & Hu & _). unfold is_u32 in Hu.
  pose proof (span_in_covered bounds b ptr 4 Hwf Hlen Hs0).
  apply bind_ok in Hv as (es & Hes%ok_or_ok%checked_add_Some & Hv). destruct Hes as [-> _].
  apply bind_ok in Hv as (ps & Hps%ok_or_ok & Hv).
  apply bind_ok in Hv as (bl & Hbl%ok_or_ok & Hv).
  pose proof (proj1 (checked_mul_Some _ _ _) Hbl) as [-> _].
  apply require_span_ok in Hv as [Hs Hm].
  unfold read_inline_scalar_list_at.
  apply certified_if_false; [intros c Hag; by eapply verified_past_end|].
  eapply certified_step; [intros c Hag; by eapply verified_u32|].
  eapply (certified_step _ _ _ (fun c p => let '(_, _) := p in _)); [intros c _; by rewrite He|].
  apply (certified_step _ _ _ _ ps).
  { intros c _. unfold verify_align_up in Hps. destruct (align <=? 1) eqn:?; zb.
    - rewrite (proj2 (Z.ltb_ge _ _)) by lia. by injection Hps as <-.
    - rewrite (proj2 (Z.ltb_lt _ _)) by lia. unfold next_multiple_of. by rewrite Hps. }
  eapply certified_step; [intros c _; by rewrite Hbl|].
  eapply certified_step; [intros c _; by rewrite checked_add_small by lia|].
  apply certified_if_false; [intros c Hag; by eapply agree_ltb|].
  apply certified_loop; [done|]. intros k Hk. eapply scalar_certified; [done|].
  eapply span_in_sub; [exact Hs|nia|lia|nia].
Qed.

(** *** Element sidecars *)

Lemma list_kind_sidecar e k :
  list_kind_for_list_type (TList e) = Some k -> sidecar e k.
Proof.
  unfold list_kind_for_list_type. destruct (offsets_for (probe_schema (TList e))) as [t| |] eqn:Ht;
    simpl; [|done|done].
  apply offsets_for_typed in Ht as [_ Hall]. simpl in Hall.
  destruct (ot_fields t) as [|fo fos]; [done|]. apply Forall2_cons in Hall as [[_ Hty] _].
  destruct (st_list _ _ Hty e eq_refl) as (k' & Hk & Hs & _). rewrite Hk. by intros [= <-].
Qed.

Lemma element_kind_sidecar element e k :
  element = TList e -> element_list_kind element = Some k -> sidecar e k.
Proof. intros ->. apply list_kind_sidecar. Qed.

(** *** Records *)

Lemma foldM_unit {E A} (g : A -> outcome E unit) l :
  foldM (fun _ x => g x) tt l = Ok tt -> forall x, x ∈ l -> g x = Ok tt.
Proof.
  induction l as [|y l IH]; simpl; [by intros _ ? ?%elem_of_nil|].
  intros Hf. apply bind_ok in Hf as ([] & Hy & Hl).
  intros x [->|Hx]%elem_of_cons; [done|]. by apply IH.
Qed.

(** A slot the verifier accepted: an inline slot lies inside the region; the
    target of a pointer slot was walked. *)
Definition slot_verified (m : nat) (field : string) (ty : TypeRepr)
    (le : option ListElementKind) (slot depth : Z) : Prop :=
  if inline_type ty
  then span_in bounds slot (slot_size ty) /\ slot + slot_size ty <= USIZE_MAX
  else exists what ptr, read_u32 b slot field what bounds = Ok ptr /\
         verify_pointer_target m b field ty le ptr bounds depth = Ok tt.

Definition sidecar_for (ty : TypeRepr) (le : option ListElementKind) : Prop :=
  forall e k, ty = TList e -> le = Some k -> sidecar e k.

Lemma record_verified m t s base depth :
  verify_record_inner (S m) b t (schema_fields s) base bounds depth = Ok tt ->
  offsets_for s = Ok t -> distinct_names (TSchema s) = true ->
  span_in bounds base (root_size t) /\ base + root_size t <= USIZE_MAX /\
  forall f, f ∈ schema_fields s -> exists fo,
    named_slot s t (field_name f) f fo /\
    checked_add base (fo_offset fo) = Some (base + fo_offset fo) /\
    sidecar_for (field_ty f) (fo_list_element fo) /\
    slot_verified m (field_name f) (field_ty f) (fo_list_element fo) (base + fo_offset fo) depth.
Proof.
  intros Hv Ht Hd. cbn [verify_record_inner] in Hv. destruct (MAX_DEPTH <=? depth); [done|].
  apply bind_ok in Hv as ([] & Hroot%require_fixed_slot_ok & Hv). destruct Hroot as [Hroot Hrm].
  split; [done|]. split; [done|]. intros f Hf.
  pose proof (named_slot_find s t (field_name f) Ht) as Hn.
  rewrite (find_field_schema s f Hd Hf) in Hn.
  destruct (List.find _ (ot_fields t)) as [fo|]; [|done]. exists fo. split; [done|].
  destruct Hn as (Hff & _ & Hfo & _ & Hname & Hty).
  pose proof (foldM_unit _ _ Hv fo Hfo) as Hslot. unfold verify_slot in Hslot.
  apply bind_ok in Hslot as (slot & Hadd%ok_or_ok & Hslot).
  pose proof (proj1 (checked_add_Some _ _ _) Hadd) as [-> _]. split; [done|].
  apply bind_ok in Hslot as ([] & Hfs%require_fixed_slot_ok & Hslot).
  rewrite (st_size _ _ Hty) in Hfs. split.
  { intros e k He Hk. destruct (st_list _ _ Hty e He) as (k' & Hk' & Hs & _). congruence. }
  unfold slot_verified. pose proof (st_kind _ _ Hty) as Hkind.
  destruct (fo_kind fo); simpl in Hkind; destruct (inline_type (field_ty f)); try done.
  apply bind_ok in Hslot as (g & Hg%ok_or_ok & Hslot).
  apply bind_ok in Hslot as (ptr & Hptr & Hslot).
  rewrite Hname in *. rewrite Hff in Hg. injection Hg as <-. eauto.
Qed.

(** *** Variants *)

Lemma selected_of_type ty tag po :
  variant_payload_type ty tag = Some po ->
  exists sv, variant_selected_payload ty tag = Ok sv /\ svp_ty <$> sv_payload sv = po.
Proof.
  destruct ty; simpl; try done.
  - destruct (tag =? 0); [intros [= <-]; by eexists|].
    destruct (tag =? 1); [|done]. intros [= <-]; by eexists.
  - destruct (tag =? 0); [intros [= <-]; by eexists|].
    destruct (tag =? 1); [|done]. intros [= <-]; by eexists.
  - destruct (List.find _ _) as [v|]; simpl; [|done]. intros [= <-].
    eexists; split; [done|]. simpl. by destruct (payload_schema v name).
Qed.

Lemma enum_payload_record name vs p :
  p ∈ variant_payload_types (TEnum name vs) -> exists s, p = TSchema s /\ schema_is_tuple s = false.
Proof.
  intros (v & _ & Hp)%list_elem_of_omap. unfold payload_schema in Hp.
  destruct (variant_fields v); [done|]. injection Hp as <-. by eexists.
Qed.

Lemma read_record_dict n c slot s v :
  schema_is_tuple s = false -> read_field_at n c slot (TSchema s) = Ok v -> exists d, v = VDict d.
Proof.
  intros Ht. destruct n as [|n]; [done|]. cbn [read_field_at]. intros Hr.
  apply bind_ok in Hr as (t & _ & Hr). apply bind_ok in Hr as (base & _ & Hr).
  destruct n as [|n]; [done|]. cbn [read_record_at] in Hr. rewrite Ht in Hr.
  apply bind_ok in Hr as (m & _ & Hr). injection Hr as <-. by eexists.
Qed.

(** What an accepted variant record guarantees. *)
Lemma variant_verified m field ty ptr depth :
  verify_variant_target (S m) b field ty ptr bounds depth = Ok tt ->
  exists tag sv, (forall c, agree bounds b c -> past_end c ptr 1 = false /\
                              index c ptr = @Ok BufferError _ tag) /\
    variant_selected_payload ty tag = Ok sv /\
    match ty with TResult _ _ => sv_payload sv <> None | _ => True end /\
    forall p, sv_payload sv = Some p -> exists slot,
      payload_slot ptr p = Ok slot /\
      slot_verified m field (svp_ty p) (list_kind_for_list_type (svp_ty p)) slot (depth + 1).
Proof.
  cbn [verify_variant_target]. destruct (MAX_DEPTH <=? depth); [done|]. intros Hv.
  apply bind_ok in Hv as ([] & Hs%require_span_ok & Hv). destruct Hs as [Hs Hm].
  apply bind_ok in Hv as (tag & Htag & Hv).
  apply bind_ok in Hv as (po & Hpo%ok_or_ok & Hv).
  destruct (selected_of_type _ _ _ Hpo) as (sv & Hsv & Hp). exists tag, sv. split_and!; [|done| |].
  { intros c Hc. split; [by apply (agree_past_end bounds b)|].
    rewrite (agree_index bounds b Hwf Hlen c) by done.
    apply index_ok in Htag. by apply index_ok. }
  { destruct ty; try done. simpl in Hpo.
    destruct (tag =? 0); [|destruct (tag =? 1); [|done]]; injection Hpo as <-;
      destruct (sv_payload sv); done. }
  intros p Hpay. rewrite Hpay in Hp. simpl in Hp. subst po.
  destruct (variant_payload_slot_layout (svp_ty p)) as [size align] eqn:Hlay.
  apply bind_ok in Hv as (at_ & Hat%ok_or_ok & Hv).
  apply bind_ok in Hv as (slot & Hslot%ok_or_ok & Hv).
  apply bind_ok in Hv as ([] & Hsp%require_span_ok & Hv). exists slot.
  assert (payload_slot_layout_runtime (svp_ty p) = (size, align)) as Hrt.
  { rewrite <-Hlay. by destruct (svp_ty p). }
  split.
  - unfold payload_slot, variant_payload_slot_offset. rewrite Hrt, Hat.
    unfold verify_align_up in Hslot. by rewrite Hslot.
  - unfold slot_verified, slot_size. rewrite Hrt. simpl.
    destruct (svp_ty p); simpl; try done;
      (apply bind_ok in Hv as (tgt & Htgt & Hv); eauto).
Qed.

(** *** The main induction *)

Lemma sidecar_for_payload ty : sidecar_for ty (list_kind_for_list_type ty).
Proof. intros e k -> Hk. by apply list_kind_sidecar. Qed.

Lemma read_inline_certified off len :
  span_in bounds off len -> 0 <= len -> off + len <= USIZE_MAX ->
  exists s, blen s = len /\ forall c, agree bounds b c -> read_inline c off len = Ok s.
Proof.
  intros Hs Hl Hm. pose proof (span_in_covered bounds b off len Hwf Hlen Hs).
  destruct (slice_in_range (E := BufferError) b off len) as (s & Hsl & Hls); try lia.
  exists s. split; [done|]. intros c Hc. unfold read_inline.
  rewrite checked_add_small by done. simpl. rewrite (agree_ltb bounds b Hwf c off len Hc Hs).
  replace (off + len - off) with len by lia. by rewrite (agree_slice bounds b Hwf Hlen c).
Qed.

(** The list case, over the induction hypotheses for the element. *)
Lemma list_certified n m field e le ptr depth :
  (forall m' field' le' ptr' depth',
     verify_pointer_target m' b field' e le' ptr' bounds depth' = Ok tt ->
     sidecar_for e le' ->
     match e with
     | TList inner => cert (fun c => read_list_value_at n c ptr' inner)
     | TSchema s => forall t, offsets_for s = Ok t ->
         span_in bounds ptr' (root_size t) /\ ptr' + root_size t <= USIZE_MAX /\
         cert (fun c => read_record_at n c ptr' t s)
     | TOption _ | TResult _ _ | TEnum _ _ => cert (fun c => read_variant_record_at n c ptr' e)
     | _ => True
     end) ->
  verify_list_target m b field e le ptr bounds depth = Ok tt ->
  (forall k, le = Some k -> sidecar e k) -> lays_out e ->
  cert (fun c => read_list_value_at (S n) c ptr e).
Proof.
  intros IH Hv Hle Hlay. destruct m as [|m]; [done|].
  assert (exists k, le = Some k) as [k ->].
  { cbn [verify_list_target] in Hv. inv_ok Hv. destruct le; [by eexists|done]. }
  specialize (Hle k eq_refl).
  assert (sidecar_for e (element_list_kind e)) as Hside.
  { intros x k' -> Hk. by apply list_kind_sidecar. }
  destruct e; simpl in Hle; try done; cbn [read_list_value_at];
    try (subst k; by eapply inline_list_certified);
    destruct Hle as [a ->].
  - apply certified_map_ok; [done..|]. by eapply list_string_certified.
  - eapply entries_loop_certified; [done|]. intros x Hx Hvx.
    apply certified_map_ok; [done..|]. by eapply IH.
  - eapply entries_loop_certified; [done|]. intros x Hx Hvx. by eapply IH.
  - eapply entries_loop_certified; [done|]. intros x Hx Hvx. by eapply IH.
  - eapply entries_loop_certified; [done|]. intros x Hx Hvx. by eapply IH.
  - destruct (offsets_for_complete schema Hlay) as [t Ht].
    eapply certified_step; [intros c _; by rewrite Ht|].
    eapply entries_loop_certified; [done|]. intros x Hx Hvx.
    destruct (IH _ _ _ _ _ Hvx Hside t Ht) as (Hs & Hm & Hc).
    eapply certified_step; [intros c _; by rewrite checked_add_small|].
    apply certified_if_false; [intros c Hag; by eapply agree_ltb|]. done.
Qed.

Definition wf_type (ty : TypeRepr) : Prop := distinct_names ty = true /\ lays_out ty.

Lemma wf_field s f : wf_type (TSchema s) -> f ∈ schema_fields s -> wf_type (field_ty f).
Proof.
  intros [Hd Hl] Hf. split; [by eapply distinct_schema_field|by eapply lays_out_field].
Qed.

Lemma wf_list e : wf_type (TList e) -> wf_type e.
Proof. intros [Hd Hl]. split; [done|]. by apply lays_out_list. Qed.

Lemma wf_payload ty p : wf_type ty -> p ∈ variant_payload_types ty -> wf_type p.
Proof.
  intros [Hd Hl] Hp. split; [by eapply distinct_payloads|].
  eapply lays_out_payload; [|done|done]. by destruct ty; try apply elem_of_nil in Hp.
Qed.

Lemma record_certified n m t s base depth :
  (forall m' field ty le slot, wf_type ty -> (tsize ty <= fields_size (schema_fields s))%nat ->
     sidecar_for ty le -> slot_verified m' field ty le slot depth ->
     cert (fun c => read_field_at n c slot ty)) ->
  verify_record_inner m b t (schema_fields s) base bounds depth = Ok tt ->
  offsets_for s = Ok t -> wf_type (TSchema s) ->
  cert (fun c => read_record_at (S n) c base t s).
Proof.
  intros IH Hv Ht Hw. destruct m as [|m]; [done|].
  destruct (record_verified _ _ _ _ _ Hv Ht (proj1 Hw)) as (_ & _ & Hf).
  assert (forall f, f ∈ schema_fields s -> forall mi ov, exists slot,
    record_slot t base f mi ov = Ok slot /\ cert (fun c => read_field_at n c slot (field_ty f))) as Hfield.
  { intros f Hin mi ov. destruct (Hf f Hin) as (fo & (_ & Hfo & _) & Hadd & Hside & Hslot).
    eexists. split.
    - unfold record_slot, find_offset. rewrite Hfo. simpl. by rewrite Hadd.
    - eapply IH; [by eapply wf_field|by apply fields_size_elem|done|done]. }
  cbn [read_record_at]. destruct (schema_is_tuple s).
  - eapply certified_bind; [done|apply certified_mapM; [done|]|intros; apply certified_ok].
    intros f Hin. destruct (Hfield f Hin "tuple field missing from layout"%string
      "tuple field slot offset overflows usize"%string) as (slot & Hs & Hc).
    eapply certified_step; [intros c _; exact Hs|done].
  - eapply certified_bind; [done|apply certified_foldM; [done|]|intros; apply certified_ok].
    intros mp f Hin. destruct (Hfield f Hin "schema field missing from layout"%string
      "field slot offset overflows usize"%string) as (slot & Hs & Hc).
    eapply certified_step; [intros c _; exact Hs|].
    eapply certified_bind; [done|exact Hc|intros; apply certified_ok].
Qed.

Lemma variant_certified n m field ty ptr depth :
  (forall p slot, p ∈ variant_payload_types ty ->
     slot_verified (pred m) field p (list_kind_for_list_type p) slot (depth + 1) ->
     cert (fun c => read_field_at n c slot p)) ->
  verify_variant_target m b field ty ptr bounds depth = Ok tt ->
  cert (fun c => read_variant_record_at (S n) c ptr ty).
Proof.
  intros IH Hv. destruct m as [|m]; [done|].
  destruct (variant_verified _ _ _ _ _ Hv) as (tag & sv & Htag & Hsv & Hres & Hpay).
  cbn [read_variant_record_at].
  apply certified_if_false; [intros c Hc; by apply Htag|].
  eapply certified_step; [intros c Hc; by apply Htag|].
  eapply certified_step; [intros c _; by rewrite Hsv|].
  assert (forall p, sv_payload sv = Some p -> exists slot, payload_slot ptr p = Ok slot /\
    cert (fun c => read_field_at n c slot (svp_ty p))) as Hread.
  { intros p Hp. destruct (Hpay p Hp) as (slot & Hs & Hver). exists slot. split; [done|].
    apply IH; [by eapply selected_payload_elem|done]. }
  destruct ty; try done; destruct (sv_payload sv) as [p|] eqn:Hp; try done;
    try (apply certified_ok);
    destruct (Hread p eq_refl) as (slot & Hs & Hc).
  - eapply certified_step; [intros c _; exact Hs|]. by apply certified_map_ok.
  - eapply certified_step; [intros c _; exact Hs|].
    eapply certified_bind; [done|exact Hc|intros; apply certified_ok].
  - eapply certified_bind; [done| |intros; apply certified_ok].
    eapply certified_step; [intros c _; exact Hs|].
    eapply certified_bind; [done|exact Hc|]. intros v Hr.
    destruct (enum_payload_record _ _ _ (selected_payload_elem _ _ _ _ Hsv Hp)) as (s & Heq & Htup).
    rewrite Heq in Hr. destruct (read_record_dict _ _ _ _ _ Htup Hr) as [d ->]. apply certified_ok.
Qed.

Lemma field_certified n ty slot :
  (forall ptr field what,
     read_u32 b slot field what bounds = Ok ptr ->
     match ty with
     | TList e => cert (fun c => read_list_value_at n c ptr e)
     | TSchema s => forall t, offsets_for s = Ok t -> cert (fun c => read_record_at n c ptr t s)
     | TOption _ | TResult _ _ | TEnum _ _ => cert (fun c => read_variant_record_at n c ptr ty)
     | TString => cert (fun c => read_string_record_at c ptr)
     | _ => True
     end) ->
  lays_out ty ->
  (if inline_type ty then span_in bounds slot (slot_size ty) /\ slot + slot_size ty <= USIZE_MAX
   else exists field what ptr, read_u32 b slot field what bounds = Ok ptr) ->
  cert (fun c => read_field_at (S n) c slot ty).
Proof.
  intros IH Hlay Hslot.
  assert (forall len, span_in bounds slot len /\ slot + len <= USIZE_MAX -> 0 <= len ->
    exists s, blen s = len /\ forall c, agree bounds b c -> read_inline c slot len = Ok s) as Hin.
  { intros len [? ?] ?. by apply read_inline_certified. }
  destruct ty; cbn [read_field_at inline_type] in *; try (by destruct Hlay);
    try (destruct Hslot as (field & what & ptr & Hptr); specialize (IH ptr field what Hptr);
         assert (forall c, agree bounds b c -> read_slot_pointer c slot = Ok ptr) as Hrp
           by (intros c Hc; unfold read_slot_pointer;
               rewrite (verified_past_end bounds b Hwf _ _ _ _ c Hptr Hc); by eapply verified_u32)).
  - apply certified_ok.
  - destruct (Hin 1 Hslot) as (s & Hs & Hc); [lia|].
    eapply certified_step; [exact Hc|].
    destruct (index_in_range (E := BufferError) s 0) as [x Hx]; [lia|].
    eapply certified_step; [intros; exact Hx|apply certified_ok].
  - destruct (Hin 8 Hslot) as (s & Hs & Hc); [lia|].
    eapply certified_step; [exact Hc|apply certified_ok].
  - destruct (Hin 8 Hslot) as (s & Hs & Hc); [lia|].
    eapply certified_step; [exact Hc|apply certified_ok].
  - eapply certified_step; [exact Hrp|]. by apply certified_map_ok.
  - eapply certified_step; [exact Hrp|]. by apply certified_map_ok.
  - eapply certified_step; [exact Hrp|]. done.
  - eapply certified_step; [exact Hrp|]. done.
  - eapply certified_step; [exact Hrp|]. done.
  - destruct (offsets_for_complete schema Hlay) as [t Ht].
    eapply certified_step; [intros c _; by rewrite Ht|].
    eapply certified_step; [exact Hrp|]. by apply IH.
Qed.

(** Splits an accepted pointer target by its declared type. *)
Lemma pointer_target_cases m field ty le ptr depth :
  verify_pointer_target (S m) b field ty le ptr bounds depth = Ok tt ->
  match ty with
  | TList e => verify_list_target m b field e le ptr bounds depth = Ok tt
  | TSchema s => forall t, offsets_for s = Ok t ->
      verify_record_inner m b t (schema_fields s) ptr bounds (depth + 1) = Ok tt
  | TOption _ | TResult _ _ | TEnum _ _ =>
      verify_variant_target m b field ty ptr bounds depth = Ok tt
  | _ => True
  end.
Proof.
  destruct ty; cbn [verify_pointer_target]; try done.
  intros Hv t Ht. by rewrite Ht in Hv.
Qed.

Lemma walk_certified n :
  (forall m field e le ptr depth, (2 * tsize e <= n)%nat -> wf_type e ->
     verify_list_target m b field e le ptr bounds depth = Ok tt ->
     (forall k, le = Some k -> sidecar e k) -> cert (fun c => read_list_value_at n c ptr e)) /\
  (forall m t s base depth, (2 * fields_size (schema_fields s) + 1 <= n)%nat ->
     wf_type (TSchema s) -> offsets_for s = Ok t ->
     verify_record_inner m b t (schema_fields s) base bounds depth = Ok tt ->
     cert (fun c => read_record_at n c base t s)) /\
  (forall m field ty le slot depth, (2 * tsize ty <= n)%nat -> wf_type ty ->
     sidecar_for ty le -> slot_verified m field ty le slot depth ->
     cert (fun c => read_field_at n c slot ty)) /\
  (forall m field ty ptr depth, (2 * tsize ty <= n + 1)%nat -> wf_type ty ->
     verify_variant_target m b field ty ptr bounds depth = Ok tt ->
     cert (fun c => read_variant_record_at n c ptr ty)).
Proof.
  induction n as [|n (Hlst & Hrec & Hfld & Hvar)].
  { split_and!; intros; try (pose proof (tsize_pos e)); try (pose proof (tsize_pos ty)); lia. }
  split_and!.
  - intros m field e le ptr depth Hn Hw Hv Hle. eapply list_certified; [|done|done|apply Hw].
    intros m' field' le' ptr' depth' Hp Hside. destruct m' as [|m']; [done|].
    apply pointer_target_cases in Hp.
    destruct e; try done; rewrite ?tsize_list, ?tsize_schema in Hn.
    + eapply Hlst; [lia|by apply wf_list|done|]. intros k ->. by eapply Hside.
    + eapply Hvar; [lia|done|done].
    + eapply Hvar; [lia|done|done].
    + eapply Hvar; [lia|done|done].
    + intros t Ht. specialize (Hp t Ht). destruct m' as [|m']; [done|].
      destruct (record_verified _ _ _ _ _ Hp Ht (proj1 Hw)) as (? & ? & _).
      split_and!; [done|done|]. eapply Hrec; [lia|done|done|done].
  - intros m t s base depth Hn Hw Ht Hv. eapply record_certified; [|done|done|done].
    intros m' field ty le slot Hwt Hsz Hside Hslot. eapply Hfld; [lia|done|done|done].
  - intros m field ty le slot depth Hn Hw Hside Hslot. unfold slot_verified in Hslot.
    apply field_certified; [|apply Hw|].
    + intros ptr field' what' Hr. destruct (inline_type ty) eqn:Hi; [by destruct ty|].
      destruct Hslot as (what & ptr' & Hr' & Hp).
      assert (ptr' = ptr) as ->.
      { apply read_u32_ok in Hr as (_ & _ & _ & s1 & H1 & ->).
        apply read_u32_ok in Hr' as (_ & _ & _ & s2 & H2 & ->).
        specialize (H1 BufferError). specialize (H2 BufferError). congruence. }
      destruct m as [|m]; [done|]. pose proof (pointer_target_cases _ _ _ _ _ _ Hp) as Hc.
      destruct ty; try done; rewrite ?tsize_list, ?tsize_schema in Hn.
      * by eapply certified_string.
      * eapply Hlst; [lia|by apply wf_list|done|]. intros k ->. by eapply Hside.
      * eapply Hvar; [lia|done|done].
      * eapply Hvar; [lia|done|done].
      * eapply Hvar; [lia|done|done].
      * intros t Ht. eapply Hrec; [lia|done|done|by apply Hc].
    + destruct (inline_type ty); [done|]. destruct Hslot as (what & ptr & Hr & _). eauto.
  - intros m field ty ptr depth Hn Hw Hv. eapply variant_certified; [|done].
    intros p slot Hp Hslot. pose proof (variant_payload_types_size _ _ Hp).
    eapply Hfld; [lia|by eapply wf_payload|apply sidecar_for_payload|done].
Qed.
End Walk.

(** ** Properties *)

Section Properties.
Context {H : HostTypes}.

(** C9 The verifier's certificate, for records: if the verifier accepts a
    record of a well-formed schema, then decoding it gives one and the same
    result on every buffer that agrees with the verified one on the regions,
    and that result is a value or a UTF-8 error: never an out-of-bounds
    error, never an abort. *)
Theorem verified_record_decodes bounds b s t base :
  bounds_wf bounds -> wf_type (TSchema s) -> offsets_for s = Ok t ->
  verify_record_with_bounds b t (schema_fields s) base bounds = Ok tt ->
  exists x, clean x /\
    forall c, agree bounds b c -> read_record_at (read_fuel (TSchema s)) c base t s = x.
Proof.
  intros Hwf Hw Ht. unfold verify_record_with_bounds. destruct (_ <? _) eqn:Hl; [done|]. zb.
  intros Hv. eapply walk_certified; [done|done| |done|done|done].
  unfold read_fuel. rewrite tsize_schema. lia.
Qed.

(** The same certificate for a list root behind a bare pointer, the shape
    the in-place return ABI hands to the host. *)
Theorem verified_list_decodes bounds b e le root :
  bounds_wf bounds -> wf_type (TList e) -> (forall k, le = Some k -> sidecar e k) ->
  verify_value_at_with_bounds b (TList e) le root bounds = Ok tt ->
  exists x, clean x /\
    forall c, agree bounds b c -> read_list_value_at (read_fuel e) c root e = x.
Proof.
  intros Hwf Hw Hle. unfold verify_value_at_with_bounds. destruct (_ <? _) eqn:Hl; [done|]. zb.
  unfold verify_fuel. rewrite tsize_list, Nat.add_comm. intros Hv%pointer_target_cases.
  eapply walk_certified; [done|done| |by apply wf_list|done|done]. unfold read_fuel. lia.
Qed.
End Properties.

(** ** Witnesses *)

#[local] Existing Instance unit_host.

(** [{ age: 7, name: "hi" }], as the writer lays it out. *)
Definition person : Schema :=
  MkSchema "Person" [] [MkField "age" TInt None; MkField "name" TString None] false.

Definition person_table : OffsetTable :=
  match offsets_for person with Ok t => t | _ => MkOffsetTable [] 0 1 end.

Definition person_bytes : bytes :=
  i64_to_le 7 ++ u32_to_le 16 ++ zeros 4 ++ u32_to_le 2 ++ as_bytes "hi".

Definition person_region : Bounds := Single (MkRegion 0 22).

Lemma person_wf : wf_type (TSchema person).
Proof. split; [vm_compute; reflexivity|split; vm_compute; reflexivity]. Qed.

Lemma person_region_wf : bounds_wf person_region.
Proof. intros r ->%list_elem_of_singleton. simpl. lia. Qed.

Lemma verified_record_decodes_witness :
  exists x, clean x /\
    forall c, agree person_region person_bytes c ->
      read_record_at (read_fuel (TSchema person)) c 0 person_table person = x.
Proof.
  apply verified_record_decodes;
    [apply person_region_wf|apply person_wf|vm_compute; reflexivity|vm_compute; reflexivity].
Defined.

(** [["hi"]] behind a pointer-array header at offset 0. *)
Definition names_bytes : bytes :=
  u32_to_le 1 ++ u32_to_le 8 ++ u32_to_le 2 ++ as_bytes "hi" ++ zeros 8.

