(* ===== verification/InplaceReturn.v ===== *)
(** The host side of compiled returns, [crates/relon-abi/src/inplace_return.rs]:
    [ArenaRegions], the return sentinel, the verify-then-decode pipelines
    [decode_inplace_return] and [decode_object_return], and the field decoders
    they drive.

    [RuntimeError::IoError] carries a formatted message; the model keeps one
    constructor per message with the values the message prints. *)

From Stdlib Require Import ZArith Lia Bool.
From stdpp Require Import base list strings.
From S2P Require Import Prelude SchemaCanonical Layout Value Verifier BufferTypes Reader.
Local Open Scope Z_scope.
Local Open Scope abi_scope.

Record ArenaRegions : Type := MkArena {
  const_data_len : Z;
  in_ptr : Z;
  in_len : Z;
  out_ptr : Z;
  out_cap : Z;
  scratch_base : Z;
  arena_size : Z;
}.

Inductive RuntimeError {H : HostTypes} : Type :=
| IoSentinelNegative (ret : Z)
| IoSentinelRange (ret : Z)
| IoUnsupportedElement (backend : string) (ty : TypeRepr)
| IoExpectedList (backend : string) (ty : TypeRepr)
| IoArenaSize (backend : string) (arena_size have : Z)
| IoRegions (backend : string) (e : VerifyError)
| IoRootPastEnd (backend : string) (root_abs arena_size : Z)
| IoVerifier (backend : string) (base : Z) (e : VerifyError)
| IoBuffer (backend : string) (e : BufferError)
| IoElementLayout (backend name : string) (e : LayoutError)
| IoFieldLayout (backend name : string) (e : LayoutError)
| IoListField (backend field schema : string) (ty : TypeRepr)
| IoField (backend field schema : string) (ty : TypeRepr)
| IoSubRecordField (backend field : string) (e : BufferError)
| IoSubRecordType (backend field : string) (ty : TypeRepr).

(** [ArenaRegions::multi_region]; the [u32] boundaries are added as [usize]. *)
Definition multi_region (a : ArenaRegions) : outcome VerifyError MultiRegion :=
  multi_region_new (0, const_data_len a)
                   (in_ptr a, in_ptr a + in_len a)
                   (out_ptr a, out_ptr a + out_cap a)
                   (scratch_base a, arena_size a).

Section Inplace.
Context {H : HostTypes}.

(** [decode_inplace_sentinel]; [ret] is an [i32]. *)
Definition decode_inplace_sentinel (ret : Z) : outcome RuntimeError Z :=
  let root := - ret - 1 in
  if root <? 0 then Err (IoSentinelNegative ret)
  else if root <=? USIZE_MAX then Ok root
  else Err (IoSentinelRange ret).

(** The shapes the in-place ABI can return (the local enum [InplaceShape]). *)
Inductive InplaceShape : Type :=
| ListListScalar (inner : TypeRepr)
| ListString
| ListSchema (schema : Schema)
| ListListPointerArray (outer_element : TypeRepr)
| ListVariant (element : TypeRepr).

(** The [let shape = match &return_field.ty] of [decode_inplace_return]. *)
Definition inplace_shape (backend : string) (ty : TypeRepr) : outcome RuntimeError InplaceShape :=
  match ty with
  | TList element =>
      match element with
      | TList inner =>
          match inner with
          | TInt | TFloat | TBool => Ok (ListListScalar inner)
          | _ => Ok (ListListPointerArray element)
          end
      | TString => Ok ListString
      | TSchema schema => Ok (ListSchema schema)
      | TOption _ | TResult _ _ | TEnum _ _ => Ok (ListVariant element)
      | other => Err (IoUnsupportedElement backend other)
      end
  | other => Err (IoExpectedList backend other)
  end.

(** ** Object fields *)

Fixpoint read_object_field (n : nat) (backend : string) (r : BufferReader) (field : Field)
    (parent_schema : Schema) {struct n} : outcome RuntimeError Value :=
  match n with
  | O => Abort
  | S n =>
    let name := field_name field in
    let me {A} (m : outcome BufferError A) := map_err (IoBuffer backend) m in
    match field_ty field with
    | TInt => map_ok VInt (me (read_int r name))
    | TFloat => map_ok VFloat (me (read_float r name))
    | TBool => map_ok VBool (me (read_bool r name))
    | TUnit => map_ok (fun _ => option_none) (me (read_unit r name))
    | TString => map_ok VString (me (read_string r name))
    | TSchema schema =>
        let* sub_layout := map_err (IoFieldLayout backend name) (offsets_for schema) in
        let* sub := me (reader_sub_record r name sub_layout (schema_fields schema)) in
        let* map := read_object_record_into_map n backend sub schema in
        Ok (branded_dict map (Some (schema_name schema)))
    | TOption _ | TResult _ _ | TEnum _ _ => me (read_value r name (field_ty field))
    | TList element =>
        match element with
        | TInt => map_ok (fun v => VList (map VInt v)) (me (read_list_int r name))
        | TFloat => map_ok (fun v => VList (map VFloat v)) (me (read_list_float r name))
        | TBool => map_ok (fun v => VList (map VBool v)) (me (read_list_bool r name))
        | TString => map_ok (fun v => VList (map VString v)) (me (read_list_string r name))
        | TSchema schema =>
            let* elem_layout :=
              map_err (IoElementLayout backend (schema_name schema)) (offsets_for schema) in
            let* subs := me (read_list_record r name elem_layout schema) in
            let* items :=
              mapM (fun sub =>
                if schema_is_tuple schema
                then read_tuple_record_into_tuple n backend sub schema
                else let* map := read_object_record_into_map n backend sub schema in
                     Ok (branded_dict map (Some (schema_name schema)))) subs in
            Ok (VList items)
        | TOption _ | TResult _ _ | TEnum _ _ =>
            map_ok VList (me (read_list_value r name element))
        | TList inner =>
            match inner with
            | TInt | TFloat | TBool =>
                map_ok (fun rows => VList (map VList rows)) (me (read_list_list r name))
            | _ => map_ok VList (me (read_list_value r name element))
            end
        | other => Err (IoListField backend name (schema_name parent_schema) other)
        end
    | other => Err (IoField backend name (schema_name parent_schema) other)
    end
  end

with read_tuple_record_into_tuple (n : nat) (backend : string) (r : BufferReader)
    (schema : Schema) {struct n} : outcome RuntimeError Value :=
  match n with
  | O => Abort
  | S n =>
    let* items := mapM (fun f => read_object_field n backend r f schema)
                       (schema_fields schema) in
    Ok (VTuple items)
  end

with read_object_record_into_map (n : nat) (backend : string) (r : BufferReader)
    (schema : Schema) {struct n} : outcome RuntimeError (list (string * Value)) :=
  match n with
  | O => Abort
  | S n =>
    foldM (fun map f =>
      let* value := read_object_field n backend r f schema in
      Ok (map_insert (field_name f) value map)) [] (schema_fields schema)
  end.

(** Two calls cross one type level. *)
Definition object_fuel (schema : Schema) : nat := 2 * tsize (TSchema schema).

(** ** In-place [List<Schema>] element fields *)

Definition read_record_field (backend : string) (r : BufferReader) (field : Field)
    : outcome RuntimeError Value :=
  let name := field_name field in
  let me {A} (m : outcome BufferError A) := map_err (IoSubRecordField backend name) m in
  match field_ty field with
  | TInt => map_ok VInt (me (read_int r name))
  | TFloat => map_ok VFloat (me (read_float r name))
  | TBool => map_ok VBool (me (read_bool r name))
  | TUnit => map_ok (fun _ => option_none) (me (read_unit r name))
  | TString => map_ok VString (me (read_string r name))
  | TOption _ | TResult _ _ | TEnum _ _ => me (read_value r name (field_ty field))
  | TList element => map_ok VList (me (read_list_value r name element))
  | other => Err (IoSubRecordType backend name other)
  end.

Definition read_record_into_branded_map (backend : string) (r : BufferReader)
    (schema : Schema) : outcome RuntimeError (list (string * Value)) :=
  foldM (fun map f =>
    let* value := read_record_field backend r f in
    Ok (map_insert (field_name f) value map)) [] (schema_fields schema).

(** ** Return pipelines *)

Definition decode_inplace_return (backend : string) (arena : bytes) (regions : ArenaRegions)
    (root_abs : Z) (return_field : Field) (return_layout : OffsetTable)
    (return_fields : list Field) : outcome RuntimeError Value :=
  let me {A} (m : outcome BufferError A) := map_err (IoBuffer backend) m in
  let* shape := inplace_shape backend (field_ty return_field) in
  let size := arena_size regions in
  if blen arena <? size then Err (IoArenaSize backend size (blen arena)) else
  let* arena := slice arena 0 size in
  let* multi := map_err (IoRegions backend) (multi_region regions) in
  if size <=? root_abs then Err (IoRootPastEnd backend root_abs size) else
  let list_element := match ot_fields return_layout with
                      | fo :: _ => fo_list_element fo
                      | [] => None
                      end in
  let* _ := map_err (IoVerifier backend root_abs)
              (verify_value_at_multi arena (field_ty return_field) list_element root_abs multi) in
  let* reader := me (reader_new return_layout return_fields arena) in
  match shape with
  | ListListScalar inner =>
      map_ok (fun rows => VList (map VList rows)) (me (read_list_list_at arena root_abs inner))
  | ListString =>
      map_ok (fun v => VList (map VString v)) (me (read_list_string_at arena root_abs))
  | ListListPointerArray outer_element =>
      map_ok VList (me (read_list_value_at (read_fuel outer_element) arena root_abs outer_element))
  | ListVariant element =>
      map_ok VList (me (read_list_value_at (read_fuel element) arena root_abs element))
  | ListSchema schema =>
      let* elem_layout :=
        map_err (IoElementLayout backend (schema_name schema)) (offsets_for schema) in
      let* subs := me (read_list_record_at arena root_abs elem_layout schema) in
      let* items :=
        mapM (fun sub =>
          if schema_is_tuple schema
          then read_tuple_record_into_tuple (object_fuel schema) backend sub schema
          else let* map := read_record_into_branded_map backend sub schema in
               Ok (branded_dict map (Some (schema_name schema)))) subs in
      Ok (VList items)
  end.

Definition verify_object_return_multi (backend : string) (arena : bytes) (record_base : Z)
    (multi : MultiRegion) (return_layout : OffsetTable) (return_fields : list Field)
    : outcome RuntimeError unit :=
  map_err (IoVerifier backend record_base)
          (verify_record_multi arena return_layout return_fields record_base multi).

Definition decode_object_return (backend : string) (arena : bytes) (record_base : Z)
    (regions : ArenaRegions) (return_layout : OffsetTable) (return_schema : Schema)
    (single_value_wrapper : bool) : outcome RuntimeError Value :=
  let* multi := map_err (IoRegions backend) (multi_region regions) in
  let* _ := verify_object_return_multi backend arena record_base multi return_layout
                                       (schema_fields return_schema) in
  let* reader :=
    map_err (IoBuffer backend)
      (reader_new_at_base return_layout (schema_fields return_schema) arena record_base) in
  if single_value_wrapper then
    match schema_fields return_schema with
    | field :: _ =>
        read_object_field (object_fuel return_schema) backend reader field return_schema
    | [] => Abort
    end
  else if schema_is_tuple return_schema then
    read_tuple_record_into_tuple (object_fuel return_schema) backend reader return_schema
  else
    let* map := read_object_record_into_map (object_fuel return_schema) backend reader
                                            return_schema in
    Ok (branded_dict map (Some (schema_name return_schema))).
End Inplace.
