(* ===== verification/InplaceFacts.v ===== *)
(** Safety of the compiled-return pipelines: neither decode aborts on any arena,
    the bounds gate runs before every decode, and the sentinel decodes back. *)

From Stdlib Require Import ZArith Lia Bool.
From stdpp Require Import base list strings.
From S2P Require Import Prelude Bytes SchemaCanonical Layout LayoutFacts Value.
From S2P Require Import Verifier VerifierFacts BufferTypes IndexFacts Reader ReaderFacts VerifiedRead.
From S2P Require Import InplaceReturn.
Local Open Scope Z_scope.
Local Open Scope abi_scope.

Section Total.
Context {H : HostTypes}.

Implicit Types (r : BufferReader) (s : Schema) (f : Field).

Lemma sub_record_wf r name s t sub :
  reader_wf r -> offsets_for s = Ok t ->
  reader_sub_record r name t (schema_fields s) = Ok sub -> reader_wf sub.
Proof.
  intros Hr Ht. unfold reader_sub_record. intros Hs.
  apply bind_ok in Hs as (e & _ & Hs). destruct (fe_ty e); try done.
  apply bind_ok in Hs as (u & _ & Hs). destruct (past_end _ _ _); [done|].
  apply bind_ok in Hs as (base & Hb%get_u32_bound & Hs).
  eapply sub_reader_wf; [apply Hr|done|apply Hb|done].
Qed.

Lemma loop_all {E B} (P : B -> Prop) (g : Z -> outcome E B) n i l :
  loop g i n = Ok l -> (forall j y, g j = Ok y -> P y) -> forall y, y ∈ l -> P y.
Proof.
  intros [_ Hl]%loop_ok HP y (k & Hk)%list_elem_of_lookup_1. eapply HP, Hl, Hk.
Qed.

Lemma list_record_wf r name s t subs :
  reader_wf r -> offsets_for s = Ok t -> read_list_record r name t s = Ok subs ->
  forall sub, sub ∈ subs -> reader_wf sub.
Proof.
  intros Hr Ht. unfold read_list_record. intros Hs.
  apply bind_ok in Hs as (e & _ & Hs). destruct (fe_ty e) as [| | | | |[]| | | | |]; try done.
  destruct (negb _); [done|]. apply bind_ok in Hs as (u & _ & Hs).
  apply bind_ok in Hs as ([count start] & _ & Hs). apply bind_ok in Hs as (u2 & _ & Hs).
  eapply loop_all; [exact Hs|]. intros i y Hy. cbv beta zeta in Hy. destruct (_ <? _) in Hy; [done|].
  apply bind_ok in Hy as (base & Hb%get_u32_bound & Hy).
  eapply sub_reader_wf; [apply Hr|done|apply Hb|done].
Qed.

Lemma read_list_list_not_abort r name :
  reader_wf r -> read_list_list r name <> Abort.
Proof.
  intros Hr. unfold read_list_list. apply bind_not_abort; [apply find_entry_not_abort|].
  intros e [? ?]%find_entry_ok; [|done].
  destruct (fe_ty e) as [| | | | |[| | | | |inner| | | | |]| | | | |]; try done. na_bind. intros _ _.
  apply bind_not_abort; [rewrite map_err_abort; apply nested_inner_align_not_abort|].
  intros al Hal%map_err_ok. apply bind_not_abort; [by apply decode_pointer_header_not_abort|].
  intros [count start] [? ?]%decode_pointer_header_ok.
  apply decode_rows_not_abort; [apply Hr|done|lia].
Qed.

Lemma object_total n :
  (forall backend r f parent, reader_wf r -> (2 * tsize (field_ty f) <= n)%nat ->
     read_object_field n backend r f parent <> Abort) /\
  (forall backend r s, reader_wf r -> (2 * fields_size (schema_fields s) + 1 <= n)%nat ->
     read_tuple_record_into_tuple n backend r s <> Abort) /\
  (forall backend r s, reader_wf r -> (2 * fields_size (schema_fields s) + 1 <= n)%nat ->
     read_object_record_into_map n backend r s <> Abort).
Proof.
  induction n as [|n (Hfld & Htup & Hmap)].
  { split_and!; intros; try (pose proof (tsize_pos (field_ty f))); lia. }
  split_and!.
  - intros backend r f parent Hr Hn. cbn [read_object_field].
    destruct (field_ty f) as [| | | | |e| | | |s|]; try done;
      rewrite ?map_ok_abort, ?map_err_abort;
      auto using read_unit_not_abort, read_bool_not_abort, read_int_not_abort,
        read_float_not_abort, read_string_not_abort, read_value_not_abort.
    + destruct e as [| | | | |inner| | | |s|]; try done; rewrite ?map_ok_abort, ?map_err_abort;
        auto using read_list_bool_not_abort, read_list_int_not_abort, read_list_float_not_abort,
          read_list_string_not_abort, read_list_value_not_abort.
      * destruct inner; rewrite map_ok_abort, map_err_abort;
          auto using read_list_list_not_abort, read_list_value_not_abort.
      * rewrite tsize_list, tsize_schema in Hn.
        apply bind_not_abort; [rewrite map_err_abort; apply offsets_for_total|].
        intros t Ht%map_err_ok.
        apply bind_not_abort; [rewrite map_err_abort; by apply read_list_record_not_abort|].
        intros subs Hsubs%map_err_ok. apply bind_not_abort; [|done].
        apply mapM_not_abort. intros sub Hsub.
        pose proof (list_record_wf _ _ _ _ _ Hr Ht Hsubs sub Hsub).
        destruct (schema_is_tuple s); [apply Htup; [done|lia]|].
        apply bind_not_abort; [apply Hmap; [done|lia]|done].
    + rewrite tsize_schema in Hn.
      apply bind_not_abort; [rewrite map_err_abort; apply offsets_for_total|].
      intros t Ht%map_err_ok.
      apply bind_not_abort; [rewrite map_err_abort; by apply reader_sub_record_not_abort|].
      intros sub Hsub%map_err_ok. apply bind_not_abort; [|done].
      apply Hmap; [by eapply sub_record_wf|lia].
  - intros backend r s Hr Hn. cbn [read_tuple_record_into_tuple].
    apply bind_not_abort; [|done]. apply mapM_not_abort. intros f Hf%fields_size_elem.
    apply Hfld; [done|lia].
  - intros backend r s Hr Hn. cbn [read_object_record_into_map].
    apply (foldM_not_abort (fun _ => True)); [done|]. intros m f _ Hf%fields_size_elem.
    split; [|done]. apply bind_not_abort; [apply Hfld; [done|lia]|done].
Qed.

Lemma read_record_field_not_abort backend r f :
  reader_wf r -> read_record_field backend r f <> Abort.
Proof.
  intros Hr. unfold read_record_field.
  destruct (field_ty f); try done; rewrite ?map_ok_abort, ?map_err_abort;
    auto using read_unit_not_abort, read_bool_not_abort, read_int_not_abort,
      read_float_not_abort, read_string_not_abort, read_value_not_abort, read_list_value_not_abort.
Qed.

Lemma branded_map_not_abort backend r s :
  reader_wf r -> read_record_into_branded_map backend r s <> Abort.
Proof.
  intros Hr. apply (foldM_not_abort (fun _ => True)); [done|]. intros m f _ _.
  split; [|done]. by apply bind_not_abort; [apply read_record_field_not_abort|].
Qed.

Lemma list_record_at_facts b off s t :
  is_slice b -> 0 <= off -> offsets_for s = Ok t ->
  read_list_record_at b off t s <> Abort /\
  forall subs, read_list_record_at b off t s = Ok subs -> forall sub, sub ∈ subs -> reader_wf sub.
Proof.
  intros Hb Hoff Ht. unfold read_list_record_at.
  destruct (past_end b off 4) eqn:Hp; [done|]. apply past_end_false in Hp as [? ?]. split.
  - apply bind_not_abort; [by apply get_u32_not_abort|]. intros count _. na_bind. intros _ _.
    apply loop_not_abort. intros i Hi. na_bind. intros c [-> ?]%ok_or_ok%checked_add_Some. ltb Hl.
    apply bind_not_abort; [apply get_u32_not_abort; lia|].
    intros base Hbase%get_u32_bound. by apply (sub_reader_not_abort s); [|done|apply Hbase].
  - intros subs Hs. apply bind_ok in Hs as (count & _ & Hs). apply bind_ok in Hs as (u & _ & Hs).
    eapply loop_all; [exact Hs|]. intros i y Hy. cbv beta in Hy.
    apply bind_ok in Hy as (c & _ & Hy). destruct (_ <? _) in Hy; [done|].
    apply bind_ok in Hy as (base & Hbase%get_u32_bound & Hy).
    by eapply sub_reader_wf; [..|apply Hbase|].
Qed.

Lemma multi_region_not_abort a : multi_region a <> Abort.
Proof.
  unfold multi_region, multi_region_new, region_new. simpl.
  repeat (destruct (_ <? _); [done|]; simpl). done.
Qed.

(** The boundaries of an arena are [u32]/[usize] values. *)
Definition arena_wf (a : ArenaRegions) : Prop :=
  0 <= in_ptr a /\ 0 <= out_ptr a /\ 0 <= scratch_base a /\ 0 <= arena_size a.

Lemma multi_region_wf a m : arena_wf a -> multi_region a = Ok m -> bounds_wf (Multi m).
Proof.
  intros (? & ? & ? & ?). unfold multi_region, multi_region_new, region_new. simpl.
  repeat (destruct (_ <? _); [done|]; simpl). intros [= <-] r Hr. simpl in Hr.
  repeat (apply elem_of_cons in Hr as [->|Hr]; [simpl; lia|]). by apply elem_of_nil in Hr.
Qed.
End Total.

(** ** Properties *)

Section Properties.
Context {H : HostTypes}.

(** The object-return pipeline is total on any arena content: with the
    layout the layout pass computed, [decode_object_return] returns a value
    or an error, whatever the compiled code left in the arena. *)
Theorem decode_object_return_total backend arena base regions s t single :
  is_slice arena -> arena_wf regions -> 0 <= base -> offsets_for s = Ok t ->
  (single = true -> schema_fields s <> []) ->
  decode_object_return backend arena base regions t s single <> Abort.
Proof.
  intros Hb Ha Hbase Ht Hsingle. unfold decode_object_return.
  apply bind_not_abort; [rewrite map_err_abort; apply multi_region_not_abort|].
  intros m Hm%map_err_ok%multi_region_wf; [|done].
  apply bind_not_abort.
  { unfold verify_object_return_multi. rewrite map_err_abort. unfold verify_record_multi,
      verify_record_with_bounds. destruct (_ <? _) eqn:Hl; [done|]. zb.
    apply verify_fuel_enough; [done|done|unfold verify_fuel; lia]. }
  intros _ _.
  apply bind_not_abort; [rewrite map_err_abort; by apply (reader_new_at_base_not_abort s)|].
  intros r Hr%map_err_ok%(reader_new_at_base_wf s); [|done..]. destruct Hr as [Hr _].
  unfold object_fuel. rewrite tsize_schema. destruct single.
  - destruct (schema_fields s) as [|f fs] eqn:Hfs; [by destruct Hsingle|].
    apply object_total; [done|]. simpl. lia.
  - destruct (schema_is_tuple s); [apply object_total; [done|lia]|].
    apply bind_not_abort; [apply object_total; [done|lia]|done].
Qed.

(** The in-place return pipeline is total on any arena content and any
    root offset. *)
Theorem decode_inplace_return_total backend arena regions root f s t :
  is_slice arena -> arena_wf regions -> 0 <= root -> offsets_for s = Ok t ->
  decode_inplace_return backend arena regions root f t (schema_fields s) <> Abort.
Proof.
  intros Hb Ha Hroot Ht. unfold decode_inplace_return.
  apply bind_not_abort; [by unfold inplace_shape; repeat case_match|]. intros shape _.
  destruct (blen arena <? arena_size regions) eqn:Hl; [done|]. zb.
  destruct Ha as (Hi & Ho & Hs & Hsz). unfold is_slice in Hb.
  apply bind_not_abort; [apply slice_not_abort; lia|].
  intros a Hsl. assert (is_slice a) as Hsa by (apply slice_length in Hsl; unfold is_slice; lia).
  apply bind_not_abort; [rewrite map_err_abort; apply multi_region_not_abort|].
  intros m Hm%map_err_ok%multi_region_wf; [|done].
  destruct (_ <=? _); [done|]. apply bind_not_abort.
  { rewrite map_err_abort. unfold verify_value_at_multi, verify_value_at_with_bounds.
    destruct (blen a <? _) eqn:Hl2; [done|]. zb.
    apply verify_fuel_enough; [done|done|unfold verify_fuel; lia]. }
  intros _ _.
  apply bind_not_abort; [rewrite map_err_abort; by apply (reader_new_not_abort s)|]. intros r _.
  destruct shape; rewrite ?map_ok_abort, ?map_err_abort;
    [by apply read_list_list_at_not_abort|by apply read_list_string_at_not_abort| |
     apply read_fuel_enough; [done|done|unfold read_fuel; lia]..].
  apply bind_not_abort; [rewrite map_err_abort; apply offsets_for_total|].
  intros t' Ht'%map_err_ok. destruct (list_record_at_facts a root schema t') as [Hna Hwf]; try done.
  apply bind_not_abort; [by rewrite map_err_abort|]. intros subs Hsubs%map_err_ok.
  apply bind_not_abort; [|done]. apply mapM_not_abort. intros sub Hsub.
  specialize (Hwf _ Hsubs _ Hsub). destruct (schema_is_tuple schema).
  - apply object_total; [done|]. unfold object_fuel. rewrite tsize_schema. lia.
  - apply bind_not_abort; [by apply branded_map_not_abort|done].
Qed.

(** Verify before decode: a value comes out of [decode_object_return] only
    for an arena the multi-region verifier accepted. *)
Theorem decode_object_return_verified backend arena base regions t s single v :
  decode_object_return backend arena base regions t s single = Ok v ->
  exists m, multi_region regions = Ok m /\
    verify_record_multi arena t (schema_fields s) base m = Ok tt.
Proof.
  unfold decode_object_return. intros Hd. apply bind_ok in Hd as (m & Hm%map_err_ok & Hd).
  apply bind_ok in Hd as ([] & Hv%map_err_ok & _). eauto.
Qed.

(** The return decoders accept any arena content: with the layout the layout pass
    computed, the object pipeline and the in-place pipeline (at any root offset) return a
    value or an error, whatever the compiled code left in the arena; and the object
    pipeline returns a value only for an arena the multi-region verifier accepted. *)
Theorem return_decoders_total backend arena base regions s t single root f :
  is_slice arena -> arena_wf regions -> 0 <= base -> 0 <= root -> offsets_for s = Ok t ->
  (single = true -> schema_fields s <> []) ->
  decode_object_return backend arena base regions t s single <> Abort /\
  decode_inplace_return backend arena regions root f t (schema_fields s) <> Abort /\
  (forall v, decode_object_return backend arena base regions t s single = Ok v ->
    exists m, multi_region regions = Ok m /\ verify_record_multi arena t (schema_fields s) base m = Ok tt).
Proof.
  intros Hb Ha Hbase Hroot Ht Hs. split_and!.
  - by apply decode_object_return_total.
  - by apply decode_inplace_return_total.
  - intros v. apply decode_object_return_verified.
Qed.

(** The sentinel round trip: for every root offset an [i32] can carry,
    [decode_inplace_sentinel] recovers the offset the machine code encoded as
    [-(root_abs + 1)]. *)
Lemma inplace_sentinel_roundtrip root_abs :
  0 <= root_abs < 2 ^ 31 -> decode_inplace_sentinel (- (root_abs + 1)) = Ok root_abs.
Proof.
  intros Hr. unfold decode_inplace_sentinel.
  replace (- - (root_abs + 1) - 1) with root_abs by lia.
  rewrite (proj2 (Z.ltb_ge _ _)) by lia. rewrite (proj2 (Z.leb_le _ _)); [done|].
  unfold USIZE_MAX. lia.
Qed.
End Properties.

(** ** Witnesses *)

#[local] Existing Instance unit_host.

(** An arena with an 8-byte const area, an empty input, the object head in
    [out] and no scratch. *)
Definition demo_arena : ArenaRegions := MkArena 8 8 0 8 22 30 30.
Definition demo_arena_bytes : bytes := zeros 8 ++
  i64_to_le 7 ++ u32_to_le 24 ++ zeros 4 ++ u32_to_le 2 ++ as_bytes "hi".

Lemma demo_arena_wf : arena_wf demo_arena.
Proof. unfold arena_wf; simpl; lia. Qed.

Lemma demo_arena_slice : is_slice demo_arena_bytes.
Proof. vm_compute. congruence. Qed.

Lemma return_decoders_total_witness :
  exists m, multi_region demo_arena = Ok m /\
    verify_record_multi demo_arena_bytes person_table (schema_fields person) 8 m = Ok tt.
Proof.
  apply (return_decoders_total "llvm" demo_arena_bytes 8 demo_arena person person_table false 8
           (MkField "r" (TList TString) None)
           demo_arena_slice demo_arena_wf ltac:(lia) ltac:(lia) ltac:(vm_compute; reflexivity) ltac:(discriminate))
    with (branded_dict [("age"%string, VInt 7); ("name"%string, VString "hi")] (Some "Person"%string)).
  vm_compute. reflexivity.
Defined.
