(* ===== verification/Relocation.v ===== *)
(** Pointer relocation of [crates/relon-abi/src/buffer.rs]: the paste alignment
    of a type graph, the relocation tables [RelocLayout]/[PtrArrayElem] built
    from a schema, and the walkers that rebase every pointer of a buffer when
    it is pasted into a parent or moved to an arena offset. *)

From Stdlib Require Import ZArith Lia Bool.
From stdpp Require Import base list strings.
From S2P Require Import Prelude SchemaCanonical Layout Value BufferTypes.
Local Open Scope Z_scope.
Local Open Scope abi_scope.

(** [RelocSlot], over the two types it recurses through. *)
Record reloc_slot_of {H : HostTypes} (R E : Type) : Type := MkRelocSlot {
  rs_offset : Z;
  rs_list_element : option ListElementKind;
  rs_nested : option R;
  rs_list_elem : option E;
  rs_variant : option TypeRepr;
}.
Arguments MkRelocSlot {H R E} _ _ _ _ _.
Arguments rs_offset {H R E} _.
Arguments rs_list_element {H R E} _.
Arguments rs_nested {H R E} _.
Arguments rs_list_elem {H R E} _.
Arguments rs_variant {H R E} _.

Inductive RelocLayout {H : HostTypes} : Type :=
| MkReloc (slots : list (reloc_slot_of RelocLayout PtrArrayElem))
with PtrArrayElem {H : HostTypes} : Type :=
| PString
| PSchema (reloc : RelocLayout)
| PInnerList (inner : PtrArrayElem)
| PVariant (ty : TypeRepr).

Section Reloc.
Context {H : HostTypes}.

Abbreviation RelocSlot := (reloc_slot_of RelocLayout PtrArrayElem).

Definition reloc_slots (r : RelocLayout) : list RelocSlot :=
  match r with MkReloc slots => slots end.

(** ** Paste alignment *)

(** [type_graph_align] and [variant_record_align_runtime]; the recursion is
    structural in the type except for the payload records of an enum, whose
    fields it reaches in one step. *)
Fixpoint type_graph_align (ty : TypeRepr) : Z :=
  let fields_align (fs : list (field_of TypeRepr)) : Z :=
    max_list_Z 1 (map (fun f => type_graph_align (field_ty f)) fs) in
  (* one payload of the loop of [variant_record_align_runtime] *)
  let payload_align (align : Z) (slot_align graph : Z) : Z :=
    Z.max (Z.max align slot_align) graph in
  match ty with
  | TUnit | TBool | TInt | TFloat | TString => 1
  | TList element =>
      match element with
      | TInt | TFloat => 8
      | TBool => 1
      | TString => 1
      | other => type_graph_align other
      end
  | TSchema schema => fields_align (schema_fields schema)
  | TOption inner =>
      payload_align 4 (snd (payload_slot_layout_runtime inner)) (type_graph_align inner)
  | TResult ok_ty err_ty =>
      payload_align
        (payload_align 4 (snd (payload_slot_layout_runtime ok_ty)) (type_graph_align ok_ty))
        (snd (payload_slot_layout_runtime err_ty)) (type_graph_align err_ty)
  | TEnum _ variants =>
      fold_left (fun align v =>
        match variant_fields v with
        | [] => align
        | fs => payload_align align 4 (fields_align fs)
        end) variants 4
  | TClosure _ _ => 1
  end.

(** [variant_record_align_runtime] *)
Definition variant_record_align_runtime (ty : TypeRepr) : Z :=
  fold_left (fun align payload =>
    Z.max (Z.max align (snd (payload_slot_layout_runtime payload))) (type_graph_align payload))
    (variant_payload_types ty) 4.

(** [schema_paste_align] *)
Definition schema_paste_align (layout : OffsetTable) (fields : list Field) : Z :=
  let tail := max_list_Z 1 (map (fun f => type_graph_align (field_ty f)) fields) in
  Z.max (Z.max (root_align layout) tail) 1.

(** ** Relocation tables *)

Definition is_variant_type (ty : TypeRepr) : bool :=
  match ty with
  | TOption _ | TResult _ _ | TEnum _ _ => true
  | _ => false
  end.

(** [SchemaLayout::offsets_for(schema).ok().map(k)] *)
Definition with_layout {A} (schema : Schema) (k : OffsetTable -> outcome BufferError A)
    : outcome BufferError (option A) :=
  match offsets_for schema with
  | Ok sub => map_ok Some (k sub)
  | Err _ => Ok None
  | Abort => Abort
  end.

Fixpoint ptr_array_elem_for (n : nat) (element : TypeRepr) {struct n}
    : outcome BufferError (option PtrArrayElem) :=
  match n with
  | O => Abort
  | S n =>
    match element with
    | TString => Ok (Some PString)
    | TSchema schema =>
        with_layout schema (fun sub => map_ok PSchema (reloc_build n sub (schema_fields schema)))
    | TList inner =>
        let* inner_desc := ptr_array_elem_for n inner in
        Ok (PInnerList <$> inner_desc)
    | TOption _ | TResult _ _ | TEnum _ _ => Ok (Some (PVariant element))
    | _ => Ok None
    end
  end

(** [RelocLayout::build] *)
with reloc_build (n : nat) (layout : OffsetTable) (fields : list Field) {struct n}
    : outcome BufferError RelocLayout :=
  match n with
  | O => Abort
  | S n =>
    let* slots :=
      mapM (fun fo =>
        let declared := find_field (fo_name fo) fields in
        let* nested :=
          match field_ty <$> declared with
          | Some (TSchema schema) | Some (TList (TSchema schema)) =>
              with_layout schema (fun sub => reloc_build n sub (schema_fields schema))
          | _ => Ok None
          end in
        let* list_elem :=
          match field_ty <$> declared with
          | Some (TList element) => ptr_array_elem_for n element
          | _ => Ok None
          end in
        let variant :=
          match field_ty <$> declared with
          | Some ty => if is_variant_type ty then Some ty else None
          | None => None
          end in
        Ok (MkRelocSlot (fo_offset fo) (fo_list_element fo) nested list_elem variant))
        (filter (fun fo => is_pointer_indirect (fo_kind fo) = true) (ot_fields layout)) in
    Ok (MkReloc slots)
  end.

(** Two calls cross one type level. *)
Definition reloc_fuel (fields : list Field) : nat := 2 * fields_size fields + 1.
Definition elem_fuel (element : TypeRepr) : nat := 2 * tsize element.

(** ** The relocation walk *)

(** Depth of a relocation table: bounds the recursion of the walkers. *)
Fixpoint reloc_depth (r : RelocLayout) : nat :=
  let fix go (slots : list (reloc_slot_of RelocLayout PtrArrayElem)) : nat :=
    match slots with
    | [] => 0
    | s :: rest =>
        Nat.max
          (Nat.max (match rs_nested s with Some r => reloc_depth r | None => 0 end)
             (Nat.max (match rs_list_elem s with Some e => elem_depth e | None => 1 end)
                      (match rs_variant s with Some ty => 6 * tsize ty | None => 0 end)))
          (go rest)
    end%nat in
  match r with MkReloc slots => 1 + go slots end
with elem_depth (e : PtrArrayElem) : nat :=
  match e with
  | PString => 1
  | PSchema r => 1 + reloc_depth r
  | PInnerList inner => 1 + elem_depth inner
  | PVariant ty => 1 + 6 * tsize ty
  end%nat.

(** Reads the [u32] at [off], adds [paste_base] and writes it back; returns
    the original value. *)
Definition rebase_u32 (b : bytes) (off paste_base : Z) (overflow : string)
    : outcome string (bytes * Z) :=
  let* s := slice b off 4 in
  let original := u32_from_le s in
  let* relocated := ok_or (u32_checked_add original paste_base) overflow in
  let* b := patch b off (u32_to_le relocated) in
  Ok (b, original).

Fixpoint relocate_pointers (n : nat) (b : bytes) (reloc : RelocLayout)
    (record_base paste_base : Z) {struct n} : outcome string bytes :=
  match n with
  | O => Abort
  | S n =>
    foldM (fun b slot =>
      let* slot_abs := ok_or (checked_add record_base (rs_offset slot))
                             "pointer slot offset overflows usize"%string in
      if past_end b slot_abs 4 then Err "pointer slot exceeds buffer end"%string else
      let* (b, original) := rebase_u32 b slot_abs paste_base "relocated pointer overflows u32" in
      match rs_variant slot with
      | Some variant_ty => relocate_variant_record n b original variant_ty paste_base
      | None =>
          match rs_list_element slot with
          | Some (PointerArray _) =>
              relocate_list_pointer_array n b original (rs_list_elem slot) paste_base
          | Some (InlineFixed _ _) | None =>
              match rs_nested slot with
              | Some nested => relocate_pointers n b nested original paste_base
              | None => Ok b
              end
          end
      end) b (reloc_slots reloc)
  end

with relocate_list_pointer_array (n : nat) (b : bytes) (record_start : Z)
    (elem : option PtrArrayElem) (paste_base : Z) {struct n} : outcome string bytes :=
  match n with
  | O => Abort
  | S n =>
    if past_end b record_start 4 then Err "list length prefix exceeds buffer end"%string else
    let* s := slice b record_start 4 in
    let count := u32_from_le s in
    iterM (fun i b =>
      let cursor := record_start + 4 + i * 4 in
      if past_end b cursor 4 then Err "list pointer array entry exceeds buffer end"%string else
      let* (b, original) :=
        rebase_u32 b cursor paste_base "relocated list-entry pointer overflows u32" in
      match elem with
      | Some (PSchema element_reloc) => relocate_pointers n b element_reloc original paste_base
      | Some (PInnerList inner) =>
          relocate_list_pointer_array n b original (Some inner) paste_base
      | Some (PVariant ty) => relocate_variant_record n b original ty paste_base
      | Some PString | None => Ok b
      end) 0 (Z.to_nat count) b
  end

with relocate_variant_record (n : nat) (b : bytes) (record_start : Z) (ty : TypeRepr)
    (paste_base : Z) {struct n} : outcome string bytes :=
  match n with
  | O => Abort
  | S n =>
    if past_end b record_start 1 then Err "variant tag exceeds buffer end"%string else
    let* tag := index b record_start in
    let* selected := variant_selected_payload ty tag in
    match sv_payload selected with
    | None => Ok b
    | Some payload =>
        let payload_ty := svp_ty payload in
        if negb (list_payload_is_pointer_array payload_ty) then Ok b else
        let* slot_abs := ok_or (variant_payload_slot_offset record_start payload_ty)
                               "variant payload slot offset overflows usize"%string in
        if past_end b slot_abs 4
        then Err "variant payload pointer slot exceeds buffer end"%string else
        let* (b, original) :=
          rebase_u32 b slot_abs paste_base "relocated variant payload pointer overflows u32" in
        match payload_ty with
        | TString => Ok b
        | TSchema schema =>
            let* layout :=
              map_err (fun _ => "variant schema payload is not layoutable"%string)
                      (offsets_for schema) in
            let* reloc :=
              match reloc_build (reloc_fuel (schema_fields schema)) layout (schema_fields schema) with
              | Ok r => Ok r
              | _ => Abort
              end in
            relocate_pointers n b reloc original paste_base
        | TList element =>
            if list_payload_is_pointer_array element then
              let* elem :=
                match ptr_array_elem_for (elem_fuel element) element with
                | Ok e => Ok e
                | _ => Abort
                end in
              relocate_list_pointer_array n b original elem paste_base
            else Ok b
        | TOption _ | TResult _ _ | TEnum _ _ =>
            relocate_variant_record n b original payload_ty paste_base
        | _ => Ok b
        end
    end
  end.

(** The root call [relocate_pointers(bytes, reloc, record_base, paste_base)]. *)
Definition relocate (b : bytes) (reloc : RelocLayout) (record_base paste_base : Z)
    : outcome string bytes :=
  relocate_pointers (reloc_depth reloc) b reloc record_base paste_base.
End Reloc.
