(* ===== verification/Builder.v ===== *)
(** [BufferBuilder] and [ListRecordWriter] of [crates/relon-abi/src/buffer.rs]:
    the typed field writers, the generic recursive marshaller behind
    [write_value], the child-record paste, and the nested-list writers.

    A method on [&mut self] becomes a function from the old to the new state;
    the helpers that only touch [self.bytes] take and return the bytes.  A
    failed write is an [Err] without a state: the partially written builder a
    Rust caller would still hold is not modelled. *)

From Stdlib Require Import ZArith Lia Bool.
From stdpp Require Import base list strings pretty.
From S2P Require Import Prelude SchemaCanonical Layout Value BufferTypes Relocation.
Local Open Scope Z_scope.
Local Open Scope abi_scope.

Record BufferBuilder {H : HostTypes} : Type := MkBuilder {
  bb_layout : OffsetTable;
  bb_index : list FieldEntry;
  bb_bytes : bytes;
  bb_reloc : RelocLayout;
}.
Arguments MkBuilder {H} _ _ _ _.
Arguments bb_layout {H} _.
Arguments bb_index {H} _.
Arguments bb_bytes {H} _.
Arguments bb_reloc {H} _.

Record ListRecordWriter {H : HostTypes} : Type := MkListWriter {
  lw_field_name : string;
  lw_slot_offset : Z;
  lw_elem_layout : OffsetTable;
  lw_elem_schema : Schema;
  lw_entry_offsets : list Z;
  lw_elem_align : Z;
}.
Arguments MkListWriter {H} _ _ _ _ _ _.
Arguments lw_field_name {H} _.
Arguments lw_slot_offset {H} _.
Arguments lw_elem_layout {H} _.
Arguments lw_elem_schema {H} _.
Arguments lw_entry_offsets {H} _.
Arguments lw_elem_align {H} _.

(** ** Tail-area helpers *)

(** [pad_to] *)
Definition pad_to (b : bytes) (align : Z) : bytes :=
  if align <=? 1 then b else
  match checked_next_multiple_of (blen b) align with
  | Some target => vec_resize b target
  | None => b
  end.

(** [append_tail_record]: the new bytes and the offset of the length prefix;
    [len as u32] truncates. *)
Definition append_tail_record (b : bytes) (prefix_alignment len : Z) (payload : bytes)
    : bytes * Z :=
  let b := pad_to b prefix_alignment in
  (b ++ u32_to_le len ++ payload, blen b).

(** [append_tail_record_with_inner_alignment] *)
Definition append_tail_record_with_inner_alignment (b : bytes)
    (prefix_alignment inner_alignment len : Z) (payload : bytes) : bytes * Z :=
  let b := pad_to b prefix_alignment in
  let b' := b ++ u32_to_le len in
  let b' := if 1 <? inner_alignment then pad_to b' inner_alignment else b' in
  (b' ++ payload, blen b).

(** [write_pointer_slot], and the same three lines at the end of every typed
    pointer writer. *)
Definition write_pointer_slot (b : bytes) (name : string) (slot_offset target_offset : Z)
    : outcome BufferError bytes :=
  let* ptr := ok_or (u32_try_from target_offset) (ValueTooLarge name target_offset) in
  patch b slot_offset (u32_to_le ptr).

(** The loop that back-patches the entries of a pointer array. *)
Fixpoint patch_entries (b : bytes) (dst : Z) (offsets : list Z) : outcome BufferError bytes :=
  match offsets with
  | [] => Ok b
  | off :: rest =>
      let* b := patch b dst (u32_to_le off) in
      patch_entries b (dst + 4) rest
  end.

(** One call of [emit] per item, threading the buffer; [emit] returns the
    [u32] offset of the record it appended. *)
Fixpoint emit_entries {A} (emit : nat -> A -> bytes -> outcome BufferError (bytes * Z))
    (i : nat) (items : list A) (b : bytes) : outcome BufferError (bytes * list Z) :=
  match items with
  | [] => Ok (b, [])
  | it :: rest =>
      let* (b, off) := emit i it b in
      let* (b, offs) := emit_entries emit (S i) rest b in
      Ok (b, off :: offs)
  end.

(** The pointer-array skeleton every list-of-records writer shares: align,
    reserve [[count][off_0]..[off_(n-1)]], emit the records, back-patch the
    entries, and return the header offset. *)
Definition append_pointer_array {A} (b : bytes) (items : list A)
    (emit : nat -> A -> bytes -> outcome BufferError (bytes * Z))
    : outcome BufferError (bytes * Z) :=
  let count := blen items in
  let b := pad_to b 4 in
  let header_offset := blen b in
  let b := b ++ u32_to_le count in
  let entries_start := blen b in
  let b := vec_resize b (entries_start + count * 4) in
  let* (b, offsets) := emit_entries emit 0 items b in
  let* b := patch_entries b entries_start offsets in
  Ok (b, header_offset).

(** [u32::try_from(off).map_err(ValueTooLarge)] on an appended offset. *)
Definition entry_u32 (name : string) (r : bytes * Z) : outcome BufferError (bytes * Z) :=
  let '(b, off) := r in
  let* ptr := ok_or (u32_try_from off) (ValueTooLarge name off) in
  Ok (b, ptr).

(** [format!("{name}[{i}]")] *)
Definition indexed (name : string) (i : nat) : string :=
  (name +:+ "[" +:+ pretty i +:+ "]")%string.

Section Builder.
Context {H : HostTypes}.

(** [BufferBuilder::new] *)
Definition builder_new (layout : OffsetTable) (fields : list Field)
    : outcome BufferError BufferBuilder :=
  let* idx := index_fields (fun off => Ok off) layout fields in
  let* reloc := reloc_build (reloc_fuel fields) layout fields in
  Ok (MkBuilder layout idx (zeros (root_size layout)) reloc).

Definition set_bytes (bb : BufferBuilder) (b : bytes) : BufferBuilder :=
  MkBuilder (bb_layout bb) (bb_index bb) b (bb_reloc bb).

(** [BufferBuilder::find_entry] *)
Definition builder_find_entry (bb : BufferBuilder) (name : string)
    : outcome BufferError FieldEntry :=
  ok_or (lookup_entry (bb_index bb) name) (UnknownField name).

(** [BufferBuilder::locate] *)
Definition builder_locate (bb : BufferBuilder) (name : string) (expected : TypeRepr)
    (requested_label : string) : outcome BufferError (Z * Z * FieldKind) :=
  let* e := ok_or (lookup_entry (bb_index bb) name) (UnknownField name) in
  if type_matches (fe_ty e) expected
  then Ok (fe_offset e, fe_size e, fe_kind e)
  else Err (TypeMismatch name (type_label (fe_ty e)) requested_label).

(** [BufferBuilder::locate_list] *)
Definition builder_locate_list (bb : BufferBuilder) (name : string)
    (expected_element : TypeRepr) (requested_label : string)
    : outcome BufferError (Z * FieldKind * ListElementKind) :=
  let* e := ok_or (lookup_entry (bb_index bb) name) (UnknownField name) in
  match fe_ty e with
  | TList declared_elem =>
      if negb (type_matches declared_elem expected_element)
      then Err (TypeMismatch name (type_label (fe_ty e)) requested_label) else
      let* list_elem := ok_or (fe_list_element e)
                          (MalformedPayload name "list field missing element layout") in
      Ok (fe_offset e, fe_kind e, list_elem)
  | other => Err (TypeMismatch name (type_label other) requested_label)
  end.

(** ** Typed writers *)

Definition write_int (bb : BufferBuilder) (name : string) (value : Z)
    : outcome BufferError BufferBuilder :=
  let* (offset, _, _) := builder_locate bb name TInt "Int" in
  map_ok (set_bytes bb) (patch (bb_bytes bb) offset (i64_to_le value)).

Definition write_float (bb : BufferBuilder) (name : string) (value : Z)
    : outcome BufferError BufferBuilder :=
  let* (offset, _, _) := builder_locate bb name TFloat "Float" in
  map_ok (set_bytes bb) (patch (bb_bytes bb) offset (u64_to_le value)).

Definition write_bool (bb : BufferBuilder) (name : string) (value : bool)
    : outcome BufferError BufferBuilder :=
  let* (offset, _, _) := builder_locate bb name TBool "Bool" in
  map_ok (set_bytes bb) (patch (bb_bytes bb) offset [byte_of_bool value]).

Definition write_unit (bb : BufferBuilder) (name : string) : outcome BufferError BufferBuilder :=
  let* (_, _, _) := builder_locate bb name TUnit "Unit" in
  Ok bb.

Definition write_string (bb : BufferBuilder) (name : string) (value : string)
    : outcome BufferError BufferBuilder :=
  let* (slot_offset, _, kind) := builder_locate bb name TString "String" in
  let* _ := guard (is_pointer_indirect kind) (TypeMismatch name "String" "String") in
  let payload := as_bytes value in
  let len := blen payload in
  if U32_MAX <? len then Err (ValueTooLarge name len) else
  let '(b, payload_offset) := append_tail_record (bb_bytes bb) 4 len payload in
  map_ok (set_bytes bb) (write_pointer_slot b name slot_offset payload_offset).

Definition write_list_int (bb : BufferBuilder) (name : string) (values : list Z)
    : outcome BufferError BufferBuilder :=
  let* (slot_offset, _, kind) := builder_locate bb name (TList TInt) "List<Int>" in
  match kind with
  | Inline _ _ => Err (TypeMismatch name "List<Int>" "List<Int>")
  | PointerIndirect tail_alignment =>
      if U32_MAX <? blen values then Err (ValueTooLarge name (blen values)) else
      let payload := concat (map i64_to_le values) in
      let '(b, payload_offset) :=
        append_tail_record_with_inner_alignment (bb_bytes bb) 4 tail_alignment
                                                (blen values) payload in
      map_ok (set_bytes bb) (write_pointer_slot b name slot_offset payload_offset)
  end.

Definition write_list_float (bb : BufferBuilder) (name : string) (values : list Z)
    : outcome BufferError BufferBuilder :=
  let* (slot_offset, kind, _) := builder_locate_list bb name TFloat "List<Float>" in
  match kind with
  | Inline _ _ => Err (TypeMismatch name "List<Float>" "List<Float>")
  | PointerIndirect tail_alignment =>
      if U32_MAX <? blen values then Err (ValueTooLarge name (blen values)) else
      let payload := concat (map u64_to_le values) in
      let '(b, payload_offset) :=
        append_tail_record_with_inner_alignment (bb_bytes bb) 4 tail_alignment
                                                (blen values) payload in
      map_ok (set_bytes bb) (write_pointer_slot b name slot_offset payload_offset)
  end.

Definition write_list_bool (bb : BufferBuilder) (name : string) (values : list bool)
    : outcome BufferError BufferBuilder :=
  let* (slot_offset, kind, _) := builder_locate_list bb name TBool "List<Bool>" in
  let* _ := guard (is_pointer_indirect kind) (TypeMismatch name "List<Bool>" "List<Bool>") in
  if U32_MAX <? blen values then Err (ValueTooLarge name (blen values)) else
  let payload := map byte_of_bool values in
  let '(b, payload_offset) := append_tail_record (bb_bytes bb) 4 (blen values) payload in
  map_ok (set_bytes bb) (write_pointer_slot b name slot_offset payload_offset).

Definition write_list_string (bb : BufferBuilder) (name : string) (values : list string)
    : outcome BufferError BufferBuilder :=
  let* (slot_offset, kind, _) := builder_locate_list bb name TString "List<String>" in
  let* _ := guard (is_pointer_indirect kind) (TypeMismatch name "List<String>" "List<String>") in
  if U32_MAX <? blen values then Err (ValueTooLarge name (blen values)) else
  let* (b, header_offset) :=
    append_pointer_array (bb_bytes bb) values (fun i s b =>
      let payload := as_bytes s in
      if U32_MAX <? blen payload
      then Err (ValueTooLarge (indexed name i) (blen payload))
      else entry_u32 name (append_tail_record b 4 (blen payload) payload)) in
  map_ok (set_bytes bb) (write_pointer_slot b name slot_offset header_offset).

(** [write_list_list_with]; [encode_inner] returns the payload bytes with the
    element count and the inner alignment. *)
Definition write_list_list_with (bb : BufferBuilder) (name : string) (inner_count : nat)
    (encode_inner : nat -> outcome BufferError (bytes * Z * Z))
    : outcome BufferError BufferBuilder :=
  let* e := ok_or (lookup_entry (bb_index bb) name) (UnknownField name) in
  let is_nested_list := match fe_ty e with TList (TList _) => true | _ => false end in
  if negb is_nested_list || negb (is_pointer_indirect (fe_kind e))
  then Err (TypeMismatch name (type_label (fe_ty e)) "List<List<…>>") else
  if U32_MAX <? Z.of_nat inner_count then Err (ValueTooLarge name (Z.of_nat inner_count)) else
  let* (b, header_offset) :=
    append_pointer_array (bb_bytes bb) (seq 0 inner_count) (fun i _ b =>
      let* (payload, elem_count, inner_alignment) := encode_inner i in
      entry_u32 (indexed name i)
        (append_tail_record_with_inner_alignment b 4 (Z.max inner_alignment 1)
                                                 elem_count payload)) in
  map_ok (set_bytes bb) (write_pointer_slot b name (fe_offset e) header_offset).

(** ** Child records *)

(** [child.layout.root_align.max(requested).max(child_tail_align).max(1)] *)
Definition child_align (child : BufferBuilder) (requested : Z) : Z :=
  let child_tail_align :=
    max_list_Z 1 (map (fun fe => type_graph_align (fe_ty fe)) (bb_index child)) in
  Z.max (Z.max (Z.max (root_align (bb_layout child)) requested) child_tail_align) 1.

(** Pads, relocates the child's pointers to the paste offset and appends its
    bytes: the steps shared by [finish_sub_record], [finish_entry],
    [append_child_record_payload] and the [List<Schema>] arm of
    [append_list_payload]. *)
Definition paste_child (b : bytes) (child : BufferBuilder) (align : Z)
    (name reloc_name : string) : outcome BufferError (bytes * Z) :=
  let b := pad_to b align in
  let base := blen b in
  let* ptr := ok_or (u32_try_from base) (ValueTooLarge name base) in
  let* child_bytes := map_err (MalformedPayload reloc_name)
                              (relocate (bb_bytes child) (bb_reloc child) 0 ptr) in
  Ok (b ++ child_bytes, ptr).

(** [BufferBuilder::sub_record] *)
Definition builder_sub_record (bb : BufferBuilder) (name : string) (sub_layout : OffsetTable)
    (sub_fields : list Field) : outcome BufferError BufferBuilder :=
  let* e := ok_or (lookup_entry (bb_index bb) name) (UnknownField name) in
  match fe_ty e with
  | TSchema _ =>
      let* _ := guard (is_pointer_indirect (fe_kind e)) (TypeMismatch name "Schema" "Schema") in
      builder_new sub_layout sub_fields
  | ty => Err (TypeMismatch name (type_label ty) "Schema")
  end.

Definition finish_sub_record (bb : BufferBuilder) (name : string) (child : BufferBuilder)
    : outcome BufferError BufferBuilder :=
  let* e := ok_or (lookup_entry (bb_index bb) name) (UnknownField name) in
  match fe_ty e with
  | TSchema _ =>
      match fe_kind e with
      | Inline _ _ => Err (TypeMismatch name "Schema" "Schema")
      | PointerIndirect tail_alignment =>
          let* (b, ptr) :=
            paste_child (bb_bytes bb) child (child_align child tail_alignment) name name in
          map_ok (set_bytes bb) (patch b (fe_offset e) (u32_to_le ptr))
      end
  | ty => Err (TypeMismatch name (type_label ty) "Schema")
  end.

Definition list_record_writer (bb : BufferBuilder) (name : string) (elem_layout : OffsetTable)
    (elem_schema : Schema) : outcome BufferError ListRecordWriter :=
  let* e := ok_or (lookup_entry (bb_index bb) name) (UnknownField name) in
  let mismatch := Err (TypeMismatch name (type_label (fe_ty e)) "List<Schema>") in
  match fe_ty e with
  | TList (TSchema schema) =>
      if negb (schema_eqb schema elem_schema) then mismatch else
      let* _ := guard (is_pointer_indirect (fe_kind e))
                      (TypeMismatch name "List<Schema>" "List<Schema>") in
      Ok (MkListWriter name (fe_offset e) elem_layout elem_schema []
            (schema_paste_align elem_layout (schema_fields elem_schema)))
  | _ => mismatch
  end.

Definition start_entry (w : ListRecordWriter) : outcome BufferError BufferBuilder :=
  builder_new (lw_elem_layout w) (schema_fields (lw_elem_schema w)).

(** [ListRecordWriter::finish_entry]: both the writer and the parent advance. *)
Definition finish_entry (w : ListRecordWriter) (parent child : BufferBuilder)
    : outcome BufferError (ListRecordWriter * BufferBuilder) :=
  let name := lw_field_name w in
  if U32_MAX <=? blen (lw_entry_offsets w)
  then Err (ValueTooLarge name (blen (lw_entry_offsets w) + 1)) else
  let* (b, ptr) := paste_child (bb_bytes parent) child (lw_elem_align w) name name in
  Ok (MkListWriter name (lw_slot_offset w) (lw_elem_layout w) (lw_elem_schema w)
        (lw_entry_offsets w ++ [ptr]) (lw_elem_align w),
      set_bytes parent b).

Definition finish_list_record (bb : BufferBuilder) (w : ListRecordWriter)
    : outcome BufferError BufferBuilder :=
  let name := lw_field_name w in
  let count := blen (lw_entry_offsets w) in
  if U32_MAX <? count then Err (ValueTooLarge name count) else
  let b := pad_to (bb_bytes bb) 4 in
  let header_offset := blen b in
  let b := b ++ u32_to_le count ++ concat (map u32_to_le (lw_entry_offsets w)) in
  map_ok (set_bytes bb) (write_pointer_slot b name (lw_slot_offset w) header_offset).

Definition write_list_record (bb : BufferBuilder) (name : string) (elem_layout : OffsetTable)
    (elem_schema : Schema)
    (entries : list (BufferBuilder -> outcome BufferError BufferBuilder))
    : outcome BufferError BufferBuilder :=
  let* w := list_record_writer bb name elem_layout elem_schema in
  let* (w, bb) :=
    foldM (fun '(w, bb) action =>
      let* child := start_entry w in
      let* child := action child in
      finish_entry w bb child) (w, bb) entries in
  finish_list_record bb w.

(** ** Finishing *)

Definition finish (bb : BufferBuilder) : bytes := bb_bytes bb.

Definition finish_arena_absolute (bb : BufferBuilder) (arena_base : Z)
    : outcome BufferError bytes :=
  if arena_base =? 0 then Ok (bb_bytes bb)
  else map_err (MalformedPayload "<input marshal arena rebase>")
               (relocate (bb_bytes bb) (bb_reloc bb) 0 arena_base).
End Builder.
