(* ===== verification/Marshal.v ===== *)
(** The generic marshaller of [crates/relon-abi/src/buffer.rs]:
    [BufferBuilder::write_value] and the recursive functions behind it, and the
    nested-list writers the compiled backends call. *)

From Stdlib Require Import ZArith Lia Bool.
From stdpp Require Import base list strings pretty.
From S2P Require Import Prelude SchemaCanonical Layout Value BufferTypes Relocation Builder.
Local Open Scope Z_scope.
Local Open Scope abi_scope.

Section Marshal.
Context {H : HostTypes}.

(** Discriminant and payload of a value in a variant slot. *)
Definition variant_payload_for_value (name : string) (ty : TypeRepr) (value : Value)
    : outcome BufferError (Z * option (TypeRepr * Value)) :=
  match value with
  | VDict dict =>
      let mismatch declared := Err (TypeMismatch name declared (type_name value)) in
      let key := (dict_variant_of dict, dict_brand dict) in
      match ty with
      | TOption inner =>
          if bool_decide (key = (Some "Option"%string, Some "None"%string)) then Ok (0, None)
          else if bool_decide (key = (Some "Option"%string, Some "Some"%string)) then
            let* payload := ok_or (map_get "value" (dict_map dict))
              (MalformedPayload name "Option.Some is missing `value` payload") in
            Ok (1, Some (inner, payload))
          else mismatch "Option"%string
      | TResult ok_ty err_ty =>
          if bool_decide (key = (Some "Result"%string, Some "Ok"%string)) then
            let* payload := ok_or (map_get "value" (dict_map dict))
              (MalformedPayload name "Result.Ok is missing `value` payload") in
            Ok (0, Some (ok_ty, payload))
          else if bool_decide (key = (Some "Result"%string, Some "Err"%string)) then
            let* payload := ok_or (map_get "error" (dict_map dict))
              (MalformedPayload name "Result.Err is missing `error` payload") in
            Ok (1, Some (err_ty, payload))
          else mismatch "Result"%string
      | TEnum enum_name variants =>
          match key with
          | (Some value_enum, Some value_variant) =>
              if negb (bool_decide (value_enum = enum_name)) then mismatch "Enum"%string else
              let* variant :=
                ok_or (List.find (fun v => bool_decide (variant_name v = value_variant)) variants)
                      (MalformedPayload name "enum value carries an unknown variant") in
              match variant_fields variant with
              | [] =>
                  match dict_map dict with
                  | [] => Ok (variant_tag variant, None)
                  | _ => Err (MalformedPayload name "unit enum variant carries payload fields")
                  end
              | _ =>
                  let* schema := ok_or (payload_schema variant enum_name)
                    (MalformedPayload name "enum payload schema is missing") in
                  Ok (variant_tag variant, Some (TSchema schema, value))
              end
          | _ => mismatch "Enum"%string
          end
      | _ => mismatch (type_label ty)
      end
  | _ => Err (TypeMismatch name (type_label ty) (type_name value))
  end.

(** One element of the inline-fixed arm of [append_list_payload]. *)
Definition scalar_bytes (element : TypeRepr) (i : nat) (it : Value) : outcome BufferError bytes :=
  match element, it with
  | TInt, VInt v => Ok (i64_to_le v)
  | TFloat, VFloat v => Ok (u64_to_le v)
  | TFloat, VInt v => Ok (u64_to_le (i64_as_f64 v))
  | TBool, VBool v => Ok [byte_of_bool v]
  | _, other => Err (TypeMismatch (indexed "<nested list>" i) "List<scalar>" (type_name other))
  end.

Fixpoint scalar_payload (element : TypeRepr) (i : nat) (items : list Value)
    : outcome BufferError bytes :=
  match items with
  | [] => Ok []
  | it :: rest =>
      let* x := scalar_bytes element i it in
      let* xs := scalar_payload element (S i) rest in
      Ok (x ++ xs)
  end.

Fixpoint write_value_slot (n : nat) (b : bytes) (name : string) (slot_offset : Z)
    (ty : TypeRepr) (value : Value) {struct n} : outcome BufferError bytes :=
  match n with
  | O => Abort
  | S n =>
    let mismatch := Err (TypeMismatch name (type_label ty) (type_name value)) in
    match ty with
    | TInt => match value with
              | VInt v => patch b slot_offset (i64_to_le v)
              | _ => mismatch
              end
    | TFloat => match value with
                | VFloat v => patch b slot_offset (u64_to_le v)
                | VInt v => patch b slot_offset (u64_to_le (i64_as_f64 v))
                | _ => mismatch
                end
    | TBool => match value with
               | VBool v => patch b slot_offset [byte_of_bool v]
               | _ => mismatch
               end
    | TUnit => if is_option_none value then Ok b else mismatch
    | TString => match value with
                 | VString s =>
                     let '(b, off) := append_tail_record b 4 (blen (as_bytes s)) (as_bytes s) in
                     write_pointer_slot b name slot_offset off
                 | _ => mismatch
                 end
    | TList element => match value with
                       | VList items =>
                           let* (b, off) := append_list_payload n b element items in
                           write_pointer_slot b name slot_offset off
                       | _ => mismatch
                       end
    | TSchema schema =>
        let* (b, off) := append_schema_value_payload n b name schema value in
        write_pointer_slot b name slot_offset off
    | TOption _ | TResult _ _ | TEnum _ _ =>
        let* (b, off) := append_variant_record n b name ty value in
        write_pointer_slot b name slot_offset off
    | TClosure _ _ => mismatch
    end
  end

with append_schema_value_payload (n : nat) (b : bytes) (name : string) (schema : Schema)
    (value : Value) {struct n} : outcome BufferError (bytes * Z) :=
  match n with
  | O => Abort
  | S n =>
    let* sub_layout :=
      map_err (fun _ => MalformedPayload name "nested schema field is not layoutable")
              (offsets_for schema) in
    let* child := builder_new sub_layout (schema_fields schema) in
    let* child := write_record_into_builder n child schema value
      (TypeMismatch name (if schema_is_tuple schema then "Tuple" else "Schema")
                    (type_name value)) in
    let align := schema_paste_align sub_layout (schema_fields schema) in
    paste_child b child (child_align child align) name name
  end

(** The [match] of both schema arms: [write_schema_record_into_builder] for a
    dict, [write_tuple_record_into_builder] for a tuple, the arm's own
    mismatch error otherwise. *)
with write_record_into_builder (n : nat) (child : BufferBuilder) (schema : Schema)
    (value : Value) (mismatch : BufferError) {struct n} : outcome BufferError BufferBuilder :=
  match n with
  | O => Abort
  | S n =>
    match value, schema_is_tuple schema with
    | VDict dict, false =>
        foldM (fun child f =>
          let* v := ok_or (map_get (field_name f) (dict_map dict))
            (MalformedPayload (field_name f) "schema record is missing a declared field") in
          builder_write_value n child (field_name f) (field_ty f) v)
          child (schema_fields schema)
    | VTuple items, true =>
        if negb (Nat.eqb (length items) (length (schema_fields schema)))
        then Err (MalformedPayload (schema_name schema) "tuple arity does not match schema") else
        foldM (fun child '(f, v) => builder_write_value n child (field_name f) (field_ty f) v)
              child (zip (schema_fields schema) items)
    | _, _ => Err mismatch
    end
  end

(** [BufferBuilder::write_value] (and [write_schema_field_into_builder]). *)
with builder_write_value (n : nat) (bb : BufferBuilder) (name : string) (ty : TypeRepr)
    (value : Value) {struct n} : outcome BufferError BufferBuilder :=
  match n with
  | O => Abort
  | S n =>
    let* e := builder_find_entry bb name in
    if negb (type_matches (fe_ty e) ty)
    then Err (TypeMismatch name (type_label (fe_ty e)) (type_label ty)) else
    map_ok (set_bytes bb) (write_value_slot n (bb_bytes bb) name (fe_offset e) ty value)
  end

with append_variant_record (n : nat) (b : bytes) (name : string) (ty : TypeRepr)
    (value : Value) {struct n} : outcome BufferError (bytes * Z) :=
  match n with
  | O => Abort
  | S n =>
    let* (tag, payload) := variant_payload_for_value name ty value in
    let b := pad_to b (variant_record_align_runtime ty) in
    let record_offset := blen b in
    let b := b ++ [byte_of_u8 tag] in
    let* b :=
      match payload with
      | None => Ok b
      | Some (payload_ty, payload_value) =>
          let '(slot_size, _) := payload_slot_layout_runtime payload_ty in
          let* slot_offset := ok_or (variant_payload_slot_offset record_offset payload_ty)
            (MalformedPayload name "variant payload slot offset overflows usize") in
          let* slot_end := ok_or (checked_add slot_offset slot_size)
            (MalformedPayload name "variant payload slot end overflows usize") in
          let b := if blen b <? slot_end then vec_resize b slot_end else b in
          write_value_slot n b name slot_offset payload_ty payload_value
      end in
    Ok (b, record_offset)
  end

with append_list_payload (n : nat) (b : bytes) (element : TypeRepr) (items : list Value)
    {struct n} : outcome BufferError (bytes * Z) :=
  match n with
  | O => Abort
  | S n =>
    let nested := "<nested list>"%string in
    let count := blen items in
    if U32_MAX <? count then Err (ValueTooLarge nested count) else
    match element with
    | TInt | TFloat | TBool =>
        let inner_align := match element with TInt | TFloat => 8 | _ => 4 end in
        let* payload := scalar_payload element 0 items in
        Ok (append_tail_record_with_inner_alignment b 4 inner_align count payload)
    | TString =>
        append_pointer_array b items (fun i it b =>
          match it with
          | VString s =>
              if U32_MAX <? blen (as_bytes s)
              then Err (ValueTooLarge (indexed nested i) (blen (as_bytes s)))
              else entry_u32 nested (append_tail_record b 4 (blen (as_bytes s)) (as_bytes s))
          | _ => Err (TypeMismatch (indexed nested i) "List<String>" (type_name it))
          end)
    | TList inner =>
        append_pointer_array b items (fun i it b =>
          match it with
          | VList inner_items =>
              let* r := append_list_payload n b inner inner_items in entry_u32 nested r
          | _ => Err (TypeMismatch (indexed nested i) "List<List<…>>" (type_name it))
          end)
    | TSchema schema =>
        let* sub_layout :=
          map_err (fun _ => MalformedPayload nested
                     "inner List<Schema> element schema is not layoutable")
                  (offsets_for schema) in
        let elem_align := schema_paste_align sub_layout (schema_fields schema) in
        append_pointer_array b items (fun i it b =>
          let* child := builder_new sub_layout (schema_fields schema) in
          let* child := write_record_into_builder n child schema it
            (TypeMismatch (indexed nested i)
               (if schema_is_tuple schema then "List<Tuple>" else "List<Schema>")
               (type_name it)) in
          paste_child b child elem_align nested (indexed nested i))
    | TOption _ | TResult _ _ | TEnum _ _ =>
        append_pointer_array b items (fun i it b =>
          let* r := append_variant_record n b (indexed nested i) element it in
          entry_u32 nested r)
    | other => Err (TypeMismatch nested (type_label other)
                      "List<scalar/String/Schema/List/Option/Result>")
    end
  end.

(** Four calls cross one type level. *)
Definition write_fuel (ty : TypeRepr) : nat := 4 * tsize ty + 1.

(** [BufferBuilder::write_value] as a host calls it. *)
Definition write_value (bb : BufferBuilder) (name : string) (ty : TypeRepr) (value : Value)
    : outcome BufferError BufferBuilder :=
  builder_write_value (write_fuel ty) bb name ty value.

(** ** Nested-list entry points of the compiled backends *)

(** The closure of [write_nested_scalar_list] for row [i]. *)
Definition encode_scalar_row (name : string) (inner : TypeRepr) (i : nat) (row : Value)
    : outcome BufferError (bytes * Z * Z) :=
  match row with
  | VList inner_items =>
      let mismatch label := TypeMismatch (indexed name i) label label in
      let count := blen inner_items in
      match inner with
      | TInt =>
          let* xs := mapM (fun it => match it with
                                     | VInt v => Ok (i64_to_le v)
                                     | _ => Err (mismatch "List<Int>"%string)
                                     end) inner_items in
          Ok (concat xs, count, 8)
      | TFloat =>
          let* xs := mapM (fun it => match it with
                                     | VFloat v => Ok (u64_to_le v)
                                     | VInt v => Ok (u64_to_le (i64_as_f64 v))
                                     | _ => Err (mismatch "List<Float>"%string)
                                     end) inner_items in
          Ok (concat xs, count, 8)
      | TBool =>
          let* xs := mapM (fun it => match it with
                                     | VBool v => Ok [byte_of_bool v]
                                     | _ => Err (mismatch "List<Bool>"%string)
                                     end) inner_items in
          Ok (concat xs, count, 4)
      | _ => Err (TypeMismatch name "List<List<scalar>>" "List<List<pointer-array element>>")
      end
  | _ => Err (TypeMismatch (indexed name i) "List<List<…>>" "List")
  end.

Definition write_nested_scalar_list (bb : BufferBuilder) (name : string) (inner : TypeRepr)
    (items : list Value) : outcome BufferError BufferBuilder :=
  write_list_list_with bb name (length items) (fun i =>
    match items !! i with
    | Some row => encode_scalar_row name inner i row
    | None => Abort
    end).

Definition append_outer_pointer_array (b : bytes) (inner_element : TypeRepr)
    (items : list Value) : outcome BufferError (bytes * Z) :=
  let nested := "<nested list>"%string in
  let count := blen items in
  if U32_MAX <? count then Err (ValueTooLarge nested count) else
  append_pointer_array b items (fun i it b =>
    match it with
    | VList inner_items =>
        let* r := append_list_payload (4 * tsize inner_element) b inner_element inner_items in
        entry_u32 nested r
    | _ => Err (TypeMismatch (indexed nested i) "List<List<…>>" (type_name it))
    end).

Definition write_nested_pointer_array_list (bb : BufferBuilder) (name : string)
    (inner_element : TypeRepr) (items : list Value) : outcome BufferError BufferBuilder :=
  let* e := ok_or (lookup_entry (bb_index bb) name) (UnknownField name) in
  let is_nested := match fe_ty e with TList (TList _) => true | _ => false end in
  if negb is_nested || negb (is_pointer_indirect (fe_kind e))
  then Err (TypeMismatch name (type_label (fe_ty e)) "List<List<String|Schema>>") else
  let* (b, header) := append_outer_pointer_array (bb_bytes bb) inner_element items in
  map_ok (set_bytes bb) (write_pointer_slot b name (fe_offset e) header).
End Marshal.
