(* ===== verification/Encoding.v ===== *)
(** What a well-formed buffer looks like: the relation [enc_slot base b slot ty
    v lo hi] says that the slot at [slot] of [b], with its tail records inside
    [[lo, hi)], encodes the value [v] of type [ty] with every stored pointer
    offset by [base].  [base] is 0 for a freshly built buffer and the paste
    offset after relocation.  The writer establishes it, the relocation walk
    moves it from one base to another, and the reader decodes it. *)

From Stdlib Require Import ZArith Lia Bool.
From coqutil Require Import Byte Word.LittleEndianList.
From stdpp Require Import base list strings.
From S2P Require Import Prelude Bytes SchemaCanonical Layout LayoutFacts Value BufferTypes.
From S2P Require Import IndexFacts Reader ReaderFacts VerifiedRead Relocation.
Local Open Scope Z_scope.
Local Open Scope abi_scope.

(** ** Bytes at an offset *)

(** The bytes [s] sit at offset [off] of [b]. *)
Definition bytes_at (b : bytes) (off : Z) (s : bytes) : Prop :=
  0 <= off /\ forall i x, s !! i = Some x -> b !! (Z.to_nat off + i)%nat = Some x.

(** A concrete buffer holds concrete bytes, by evaluation. *)
Lemma bytes_at_literal b off s :
  0 <= off -> take (length s) (drop (Z.to_nat off) b) = s -> bytes_at b off s.
Proof.
  intros Hoff Hs. split; [done|]. intros i x Hx.
  assert (i < length s)%nat by (by eapply lookup_lt_Some). rewrite <-Hs in Hx.
  by rewrite lookup_take_lt, lookup_drop in Hx.
Qed.

Ltac bytes_literal := apply bytes_at_literal; [vm_compute; congruence|vm_compute; reflexivity].

(** [c] keeps the bytes of [b] on [[lo, hi)]. *)
Definition same_on (b c : bytes) (lo hi : Z) : Prop :=
  forall i : nat, lo <= Z.of_nat i < hi -> b !! i = c !! i.

Lemma same_on_refl b lo hi : same_on b b lo hi.
Proof. done. Qed.

Lemma same_on_sub b c lo hi lo' hi' :
  same_on b c lo hi -> lo <= lo' -> hi' <= hi -> same_on b c lo' hi'.
Proof. intros Hs ?? i Hi. apply Hs. lia. Qed.

Lemma same_on_trans b c d lo hi : same_on b c lo hi -> same_on c d lo hi -> same_on b d lo hi.
Proof. intros H1 H2 i Hi. rewrite H1, H2; done. Qed.

Lemma bytes_at_bound b off s : bytes_at b off s -> 0 < blen s -> off + blen s <= blen b.
Proof.
  intros [Ho Hs] Hl. unfold blen in *.
  destruct (lookup_lt_is_Some_2 s (length s - 1)) as [x Hx]; [lia|].
  apply Hs, lookup_lt_Some in Hx. lia.
Qed.

Lemma bytes_at_slice {E} b off s :
  bytes_at b off s -> off + blen s <= blen b -> @slice E b off (blen s) = Ok s.
Proof.
  intros [Ho Hs] Hl. pose proof (blen_nonneg s). apply slice_ok. split_and!; [done|done|done|].
  apply list_eq. intros i. unfold blen. rewrite Nat2Z.id.
  destruct (decide (i < length s)%nat).
  - rewrite lookup_take_lt, lookup_drop by done.
    destruct (lookup_lt_is_Some_2 s i) as [x Hx]; [done|]. by rewrite Hx, (Hs i x Hx).
  - rewrite lookup_take_ge, lookup_ge_None_2 by lia. done.
Qed.

Lemma bytes_at_slice_pos {E} b off s n :
  bytes_at b off s -> blen s = n -> 0 < n -> @slice E b off n = Ok s.
Proof. intros Hb <- Hn. apply bytes_at_slice; [done|]. by apply bytes_at_bound. Qed.

Lemma bytes_at_same b c off s lo hi :
  bytes_at b off s -> same_on b c lo hi -> lo <= off -> off + blen s <= hi -> bytes_at c off s.
Proof.
  intros [Ho Hs] Hsame ??. split; [done|]. intros i x Hx.
  rewrite <-Hsame; [by apply Hs|]. apply lookup_lt_Some in Hx. unfold blen in *. lia.
Qed.

Lemma bytes_at_app b off s t : bytes_at b off (s ++ t) -> bytes_at b off s /\ bytes_at b (off + blen s) t.
Proof.
  intros [Ho Hs]. pose proof (blen_nonneg s). split; split; [done| |lia|].
  - intros i x Hx. apply Hs. by apply lookup_app_l_Some.
  - intros i x Hx. replace (Z.to_nat (off + blen s) + i)%nat with (Z.to_nat off + (length s + i))%nat
      by (unfold blen; lia). apply Hs. rewrite lookup_app_r by lia. by replace (length s + i - length s)%nat with i by lia.
Qed.

Lemma bytes_at_appended b s t : bytes_at (b ++ s ++ t) (blen b) s.
Proof.
  split; [apply blen_nonneg|]. intros i x Hx. unfold blen. rewrite Nat2Z.id.
  rewrite lookup_app_r by lia. replace (length b + i - length b)%nat with i by lia.
  by apply lookup_app_l_Some.
Qed.

(** Moving a buffer behind a prefix shifts every offset by its length. *)
Lemma bytes_at_shift pre b suf off s :
  bytes_at b off s -> bytes_at (pre ++ b ++ suf) (blen pre + off) s.
Proof.
  intros [Ho Hs]. pose proof (blen_nonneg pre). split; [lia|]. intros i x Hx.
  specialize (Hs i x Hx). unfold blen in *.
  replace (Z.to_nat (Z.of_nat (length pre) + off) + i)%nat
    with (length pre + (Z.to_nat off + i))%nat by lia.
  rewrite lookup_app_r by lia.
  replace (length pre + (Z.to_nat off + i) - length pre)%nat with (Z.to_nat off + i)%nat by lia.
  by apply lookup_app_l_Some.
Qed.

Lemma bytes_at_patched {E} b off s r : @patch E b off s = Ok r -> bytes_at r off s.
Proof.
  intros Hp. pose proof Hp as (Ho & Hl & ->)%patch_ok. split; [done|]. intros i x Hx.
  rewrite lookup_app_r; rewrite length_take; unfold blen in *; [|lia].
  replace (Z.to_nat off + i - Z.to_nat off `min` length b)%nat with i by lia.
  by apply lookup_app_l_Some.
Qed.

Lemma patch_same_below {E} b off s r lo hi :
  @patch E b off s = Ok r -> hi <= off \/ off + blen s <= lo -> same_on b r lo hi.
Proof.
  intros Hp Hd i Hi. symmetry. eapply patch_lookup_ne; [exact Hp|]. lia.
Qed.

(** ** Values of a type *)

Section Typing.
Context {H : HostTypes}.

(** The dict a record of [fields] decodes to. *)
Definition record_map (fields : list Field) (vals : list Value) : list (string * Value) :=
  foldl (fun m fv => map_insert (field_name (fst fv)) (snd fv) m) [] (zip fields vals).

Definition mk_record (s : Schema) (vals : list Value) : Value :=
  if schema_is_tuple s then VTuple vals
  else branded_dict (record_map (schema_fields s) vals) (Some (schema_name s)).

(** The value of a variant record, from the decoded payload. *)
Definition variant_decode (ty : TypeRepr) (sv : SelectedVariant) (payload : option Value)
    : option Value :=
  match ty, sv_payload sv, payload with
  | TOption _, None, None => Some option_none
  | TOption _, Some _, Some v => Some (option_some v)
  | TResult _ _, Some p, Some v =>
      Some (variant_dict (map_insert (default "value"%string (svp_key p)) v [])
                         (sv_name sv) "Result")
  | TEnum name _, None, None => Some (variant_dict [] (sv_name sv) name)
  | TEnum name _, Some _, Some (VDict d) => Some (variant_dict (dict_map d) (sv_name sv) name)
  | _, _, _ => None
  end.

(** An inline value at [off]. *)
Definition scalar_at (b : bytes) (off : Z) (ty : TypeRepr) (v : Value) : Prop :=
  match ty, v with
  | TBool, VBool x => bytes_at b off [byte_of_bool x]
  | TInt, VInt x => is_i64 x /\ bytes_at b off (i64_to_le x)
  | TFloat, VFloat x => 0 <= x < 2 ^ 64 /\ bytes_at b off (u64_to_le x)
  | TUnit, _ => v = option_none
  | _, _ => False
  end.

(** Where the reader finds the payload of an inline list with header [h]. *)
Definition payload_start (h align : Z) : option Z :=
  if 1 <? align then checked_next_multiple_of (h + 4) align else Some (h + 4).

(** ** The encoding relation *)

Inductive enc_slot (base : Z) (b : bytes) : Z -> TypeRepr -> Value -> Z -> Z -> Prop :=
| es_inline slot ty v lo hi :
    inline_type ty = true -> scalar_at b slot ty v -> lo <= hi ->
    enc_slot base b slot ty v lo hi
| es_pointer slot p ty v lo hi :
    inline_type ty = false -> is_u32 (base + p) -> 0 <= p ->
    bytes_at b slot (u32_to_le (base + p)) -> enc_at base b p ty v lo hi ->
    enc_slot base b slot ty v lo hi
with enc_at (base : Z) (b : bytes) : Z -> TypeRepr -> Value -> Z -> Z -> Prop :=
| ea_string p s lo hi :
    is_str s = true -> blen (as_bytes s) <= U32_MAX -> lo <= p ->
    bytes_at b p (u32_to_le (blen (as_bytes s)) ++ as_bytes s) ->
    p + 4 + blen (as_bytes s) <= hi ->
    enc_at base b p TString (VString s) lo hi
| ea_scalars p e items size align ps lo hi :
    scalar_elem e = Some (size, align) -> blen items <= U32_MAX -> lo <= p ->
    bytes_at b p (u32_to_le (blen items)) -> p + 4 <= ps ->
    payload_start (base + p) align = Some (base + ps) ->
    (forall k it, items !! k = Some it -> scalar_at b (ps + Z.of_nat k * size) e it) ->
    ps + blen items * size <= hi -> ps <= blen b ->
    enc_at base b p (TList e) (VList items) lo hi
| ea_list p e items lo lo' hi' hi :
    list_payload_is_pointer_array e = true -> blen items <= U32_MAX -> lo <= p ->
    p + 4 + 4 * blen items <= hi -> bytes_at b p (u32_to_le (blen items)) ->
    lo <= lo' -> hi' <= hi -> p + 4 + 4 * blen items <= lo' \/ hi' <= p ->
    enc_entries base b (p + 4) e items lo' hi' ->
    enc_at base b p (TList e) (VList items) lo hi
| ea_record p s t vals lo lo' hi :
    offsets_for s = Ok t -> lo <= p -> p + root_size t <= lo' -> p + root_size t <= blen b ->
    enc_fields base b p t (schema_fields s) vals lo' hi ->
    enc_at base b p (TSchema s) (mk_record s vals) lo hi
| ea_unit_variant p ty tag sv v lo hi :
    0 <= tag < 256 -> variant_selected_payload ty tag = Ok sv -> sv_payload sv = None ->
    lo <= p -> bytes_at b p [byte_of_u8 tag] -> p + 1 <= hi ->
    variant_decode ty sv None = Some v ->
    enc_at base b p ty v lo hi
| ea_variant p ty tag sv pl slot v v' lo lo' hi :
    0 <= tag < 256 -> variant_selected_payload ty tag = Ok sv -> sv_payload sv = Some pl ->
    lo <= p -> bytes_at b p [byte_of_u8 tag] ->
    variant_payload_slot_offset (base + p) (svp_ty pl) = Some (base + slot) ->
    slot + slot_size (svp_ty pl) <= lo' ->
    enc_slot base b slot (svp_ty pl) v lo' hi ->
    variant_decode ty sv (Some v) = Some v' ->
    enc_at base b p ty v' lo hi
with enc_entries (base : Z) (b : bytes) : Z -> TypeRepr -> list Value -> Z -> Z -> Prop :=
| ee_nil pos e lo hi : lo <= hi -> enc_entries base b pos e [] lo hi
| ee_cons pos e v vs lo mid hi :
    enc_slot base b pos e v lo mid -> enc_entries base b (pos + 4) e vs mid hi ->
    enc_entries base b pos e (v :: vs) lo hi
with enc_fields (base : Z) (b : bytes)
    : Z -> OffsetTable -> list Field -> list Value -> Z -> Z -> Prop :=
| ef_nil p t lo hi : lo <= hi -> enc_fields base b p t [] [] lo hi
| ef_cons p t f fs fo v vs lo mid hi :
    find_offset t (field_name f) = Some fo -> fo_size fo = slot_size (field_ty f) ->
    enc_slot base b (p + fo_offset fo) (field_ty f) v lo mid ->
    enc_fields base b p t fs vs mid hi ->
    enc_fields base b p t (f :: fs) (v :: vs) lo hi.
End Typing.

Scheme enc_slot_mind := Minimality for enc_slot Sort Prop
  with enc_at_mind := Minimality for enc_at Sort Prop
  with enc_entries_mind := Minimality for enc_entries Sort Prop
  with enc_fields_mind := Minimality for enc_fields Sort Prop.
Combined Scheme enc_mutind from enc_slot_mind, enc_at_mind, enc_entries_mind, enc_fields_mind.

Section Encoding.
Context {H : HostTypes}.

(** ** Regions *)

Lemma variant_slot_after base p ty slot :
  0 <= base + p -> variant_payload_slot_offset (base + p) ty = Some (base + slot) -> p + 1 <= slot.
Proof. intros Hp Hs%payload_slot_offset_nonneg; lia. Qed.

Lemma enc_regions base b :
  0 <= base ->
  (forall slot ty v lo hi, enc_slot base b slot ty v lo hi -> lo <= hi) /\
  (forall p ty v lo hi, enc_at base b p ty v lo hi -> lo <= p /\ p <= hi) /\
  (forall pos e vs lo hi, enc_entries base b pos e vs lo hi -> lo <= hi) /\
  (forall p t fs vs lo hi, enc_fields base b p t fs vs lo hi -> lo <= hi).
Proof.
  intros Hbase. apply enc_mutind; try (intros; lia).
  - intros p s lo hi ? ? ? ? ?. pose proof (blen_nonneg (as_bytes s)). lia.
  - intros p e items size align ps lo hi He **. pose proof (scalar_elem_pos _ _ _ He).
    pose proof (blen_nonneg items). nia.
  - intros p e items lo lo' hi' hi **. pose proof (blen_nonneg items). lia.
  - intros p s t vals lo lo' hi Ht **. pose proof (ts_size t (offsets_for_fuel_sound _ _ _ Ht)). lia.
  - intros p ty tag sv pl slot v v' lo lo' hi ? ? ? ? [Hp _] Hoff **.
    pose proof (slot_size_bounds (svp_ty pl)). apply variant_slot_after in Hoff; lia.
Qed.

Lemma enc_slot_le base b slot ty v lo hi : 0 <= base -> enc_slot base b slot ty v lo hi -> lo <= hi.
Proof. intros Hb. by apply enc_regions. Qed.
Lemma enc_at_le base b p ty v lo hi : 0 <= base -> enc_at base b p ty v lo hi -> lo <= p /\ p <= hi.
Proof. intros Hb. by apply enc_regions. Qed.
Lemma enc_entries_le base b pos e vs lo hi :
  0 <= base -> enc_entries base b pos e vs lo hi -> lo <= hi.
Proof. intros Hb. by apply enc_regions. Qed.
Lemma enc_fields_le base b p t fs vs lo hi :
  0 <= base -> enc_fields base b p t fs vs lo hi -> lo <= hi.
Proof. intros Hb. by apply enc_regions. Qed.

(** The region of an encoding can be enlarged. *)
Lemma enc_at_widen base b p ty v lo hi lo' : lo' <= lo ->
  enc_at base b p ty v lo hi -> enc_at base b p ty v lo' hi.
Proof.
  intros Hl. inversion 1; subst.
  - by apply ea_string; try lia.
  - eapply ea_scalars; try done; lia.
  - eapply ea_list with (lo' := lo'0) (hi' := hi'); try done; lia.
  - eapply ea_record; [| | | |eassumption]; try done; lia.
  - eapply ea_unit_variant; try done; lia.
  - eapply ea_variant; [| | | | | | |eassumption|]; try done; lia.
Qed.

Lemma enc_widen base b :
  (forall slot ty v lo hi, enc_slot base b slot ty v lo hi ->
     forall hi', hi <= hi' -> enc_slot base b slot ty v lo hi') /\
  (forall p ty v lo hi, enc_at base b p ty v lo hi ->
     forall hi', hi <= hi' -> enc_at base b p ty v lo hi') /\
  (forall pos e vs lo hi, enc_entries base b pos e vs lo hi ->
     forall hi', hi <= hi' -> enc_entries base b pos e vs lo hi') /\
  (forall p t fs vs lo hi, enc_fields base b p t fs vs lo hi ->
     forall hi', hi <= hi' -> enc_fields base b p t fs vs lo hi').
Proof.
  apply enc_mutind; intros.
  - apply es_inline; try done; lia.
  - eapply es_pointer; eauto.
  - apply ea_string; try done; lia.
  - eapply ea_scalars; try eassumption; lia.
  - eapply ea_list with (lo' := lo') (hi' := hi'); try done; lia.
  - eapply ea_record; [| | | |by eauto]; done.
  - eapply ea_unit_variant; try done; lia.
  - eapply ea_variant; [| | | | | | |by eauto|]; done.
  - apply ee_nil. lia.
  - eapply ee_cons; eauto.
  - apply ef_nil. lia.
  - eapply ef_cons; eauto.
Qed.

Lemma enc_slot_widen base b slot ty v lo hi lo' hi' :
  lo' <= lo -> hi <= hi' -> lo <= hi -> enc_slot base b slot ty v lo hi ->
  enc_slot base b slot ty v lo' hi'.
Proof.
  intros Hl Hh Hle He. eapply enc_widen in He; [|exact Hh].
  inversion He; subst; [apply es_inline; try done; lia|].
  eapply es_pointer; try done. by eapply enc_at_widen.
Qed.

(** ** Frame: an encoding only depends on its slot and its region *)

Lemma scalar_at_same b c off ty v :
  scalar_at b off ty v -> same_on b c off (off + slot_size ty) -> scalar_at c off ty v.
Proof.
  intros Hs Hsame. destruct ty, v; simpl in *; try done;
    [|destruct Hs as [? Hs]; split; [done|]..]; (eapply bytes_at_same; [exact Hs|exact Hsame|lia|]);
    unfold slot_size; simpl; rewrite ?blen_i64, ?blen_u64; try done; lia.
Qed.

Lemma find_offset_bounds s t name fo :
  offsets_for s = Ok t -> find_offset t name = Some fo ->
  0 <= fo_offset fo /\ fo_offset fo + fo_size fo <= root_size t.
Proof.
  intros Ht%offsets_for_fuel_sound Hf. apply find_elem in Hf as [Hf _].
  apply (ts_slot t Ht) in Hf as (_ & _ & _ & _ & ? & _ & ?). done.
Qed.

(** Frame for a list of scalars. *)
Lemma scalars_frame base b c p e items size align ps lo hi :
  scalar_elem e = Some (size, align) -> blen items <= U32_MAX -> lo <= p ->
  bytes_at b p (u32_to_le (blen items)) -> p + 4 <= ps ->
  payload_start (base + p) align = Some (base + ps) ->
  (forall k it, items !! k = Some it -> scalar_at b (ps + Z.of_nat k * size) e it) ->
  ps + blen items * size <= hi -> ps <= blen b -> blen b <= blen c ->
  same_on b c lo hi -> enc_at base c p (TList e) (VList items) lo hi.
Proof.
  intros He Hl Hlo Hb Hps Hst Hit Hhi Hbl Hbc Hsame.
  pose proof (scalar_elem_pos _ _ _ He) as Hsz. pose proof (blen_nonneg items).
  eapply ea_scalars; try done; [|intros k it Hk|lia].
  - eapply bytes_at_same; [exact Hb|exact Hsame|lia|]. rewrite blen_u32. nia.
  - eapply scalar_at_same; [by apply Hit|]. eapply same_on_sub; [exact Hsame|nia|].
    apply lookup_lt_Some in Hk. unfold blen in *.
    destruct e; simpl in He; try discriminate He; injection He as <- <-;
      unfold slot_size; simpl; nia.
Qed.

Lemma enc_frame base b c :
  0 <= base -> blen b <= blen c ->
  (forall slot ty v lo hi, enc_slot base b slot ty v lo hi ->
     same_on b c lo hi -> same_on b c slot (slot + slot_size ty) ->
     enc_slot base c slot ty v lo hi) /\
  (forall p ty v lo hi, enc_at base b p ty v lo hi ->
     same_on b c lo hi -> enc_at base c p ty v lo hi) /\
  (forall pos e vs lo hi, enc_entries base b pos e vs lo hi ->
     inline_type e = false ->
     same_on b c lo hi -> same_on b c pos (pos + 4 * blen vs) ->
     enc_entries base c pos e vs lo hi) /\
  (forall p t fs vs lo hi, enc_fields base b p t fs vs lo hi ->
     same_on b c lo hi ->
     (forall f fo, f ∈ fs -> find_offset t (field_name f) = Some fo ->
        same_on b c (p + fo_offset fo) (p + fo_offset fo + fo_size fo)) ->
     enc_fields base c p t fs vs lo hi).
Proof.
  intros Hbase Hbc. apply enc_mutind.
  - intros slot ty v lo hi Hi Hs Hle Hsame Hslot. apply es_inline; [done| |done].
    by eapply scalar_at_same.
  - intros slot p ty v lo hi Hi Hu Hp Hb _ IH Hsame Hslot. eapply es_pointer; eauto.
    eapply bytes_at_same; [exact Hb|exact Hslot|lia|]. rewrite blen_u32.
    by destruct ty.
  - intros p s lo hi Hs Hl Hlo Hb Hhi Hsame. apply ea_string; try done.
    eapply bytes_at_same; [exact Hb|exact Hsame|lia|]. rewrite blen_app, blen_u32. lia.
  - intros p e items size align ps lo hi He Hl Hlo Hb Hps Hst Hit Hhi Hbl Hsame.
    by eapply scalars_frame.
  - intros p e items lo lo' hi' hi He Hl Hlo Hhi Hb Hlo' Hhi' Hdis Hent IH Hsame.
    apply enc_entries_le in Hent; [|done]. pose proof (blen_nonneg items).
    eapply ea_list with (lo' := lo') (hi' := hi'); try done.
    + eapply bytes_at_same; [exact Hb|exact Hsame|lia|]. rewrite blen_u32. lia.
    + apply IH; [by destruct e|eapply same_on_sub; [exact Hsame|lia|lia]..].
  - intros p s t vals lo lo' hi Ht Hlo Hroot Hbl Hf IH Hsame.
    apply enc_fields_le in Hf; [|done]. eapply ea_record with (lo' := lo'); try done; [lia|].
    apply IH; [eapply same_on_sub; [exact Hsame| |]|].
    + pose proof (ts_size t (offsets_for_fuel_sound _ _ _ Ht)). lia.
    + lia.
    + intros f fo _ Hfo. destruct (find_offset_bounds _ _ _ _ Ht Hfo).
      eapply same_on_sub; [exact Hsame|lia|lia].
  - intros p ty tag sv v lo hi Ht Hsv Hpl Hlo Hb Hhi Hd Hsame. eapply ea_unit_variant; try done.
    eapply bytes_at_same; [exact Hb|exact Hsame|lia|]. unfold blen; simpl. lia.
  - intros p ty tag sv pl slot v v' lo lo' hi Ht Hsv Hpl Hlo Hb Hoff Hslot He IH Hd Hsame.
    apply enc_slot_le in He; [|done]. destruct Hb as [Hp Hb].
    pose proof (variant_slot_after base p _ _ ltac:(lia) Hoff).
    pose proof (slot_size_bounds (svp_ty pl)).
    eapply ea_variant with (lo' := lo'); try done.
    + eapply bytes_at_same; [by split|exact Hsame|lia|]. unfold blen; simpl. lia.
    + apply IH; eapply same_on_sub; [exact Hsame|lia|lia|exact Hsame|lia|lia].
  - intros. by apply ee_nil.
  - intros pos e v vs lo mid hi Hs IHs Hent IHe Hi Hsame Hpos. rewrite blen_cons in Hpos.
    apply enc_slot_le in Hs; [|done]. apply enc_entries_le in Hent; [|done].
    pose proof (blen_nonneg vs).
    assert (slot_size e = 4) as Hsz by (by destruct e). rewrite Hsz in IHs.
    eapply ee_cons; [apply IHs|apply IHe; [done| |]].
    all: first [eapply same_on_sub; [exact Hsame|lia|lia]|eapply same_on_sub; [exact Hpos|lia|lia]].
  - intros. by apply ef_nil.
  - intros p t f fs fo v vs lo mid hi Hfo Hsz Hs IHs Hf IHf Hsame Hslots.
    apply enc_slot_le in Hs; [|done]. apply enc_fields_le in Hf; [|done].
    eapply ef_cons; [done|done|apply IHs|apply IHf].
    + eapply same_on_sub; [exact Hsame|lia|lia].
    + rewrite <-Hsz. apply (Hslots f fo); [left|done].
    + eapply same_on_sub; [exact Hsame|lia|lia].
    + intros g go Hg. apply Hslots. by right.
Qed.
(** ** Pasting: behind a prefix of [base] bytes the pointers are absolute *)

Lemma scalar_at_shift pre b suf off ty v :
  scalar_at b off ty v -> scalar_at (pre ++ b ++ suf) (blen pre + off) ty v.
Proof.
  intros Hs. destruct ty, v; simpl in *; try done;
    [|destruct Hs as [? Hs]; split; [done|]..]; by apply bytes_at_shift.
Qed.

Lemma enc_shift pre b suf base :
  base = blen pre ->
  (forall slot ty v lo hi, enc_slot base b slot ty v lo hi ->
     enc_slot 0 (pre ++ b ++ suf) (base + slot) ty v (base + lo) (base + hi)) /\
  (forall p ty v lo hi, enc_at base b p ty v lo hi ->
     enc_at 0 (pre ++ b ++ suf) (base + p) ty v (base + lo) (base + hi)) /\
  (forall pos e vs lo hi, enc_entries base b pos e vs lo hi ->
     enc_entries 0 (pre ++ b ++ suf) (base + pos) e vs (base + lo) (base + hi)) /\
  (forall p t fs vs lo hi, enc_fields base b p t fs vs lo hi ->
     enc_fields 0 (pre ++ b ++ suf) (base + p) t fs vs (base + lo) (base + hi)).
Proof.
  intros ->. pose proof (blen_nonneg pre). pose proof (blen_nonneg suf).
  assert (blen (pre ++ b ++ suf) = blen pre + blen b + blen suf) as Hlen
    by (rewrite !blen_app; lia).
  apply enc_mutind.
  - intros slot ty v lo hi Hi Hs Hle. apply es_inline; [done|by apply scalar_at_shift|lia].
  - intros slot p ty v lo hi Hi Hu Hp Hb _ IH. apply (es_pointer _ _ _ (blen pre + p)); try done.
    + lia.
    + by apply bytes_at_shift.
  - intros p s lo hi Hs Hl Hlo Hb Hhi. apply ea_string; try done; [lia| |lia].
    by apply bytes_at_shift.
  - intros p e items size align ps lo hi He Hl Hlo Hb Hps Hst Hit Hhi Hbl.
    apply (ea_scalars _ _ _ _ _ size align (blen pre + ps)); try done; try lia.
    + by apply bytes_at_shift.
    + intros k it Hk. rewrite <-Z.add_assoc. by apply scalar_at_shift, Hit.
  - intros p e items lo lo' hi' hi He Hl Hlo Hhi Hb Hlo' Hhi' Hdis Hent IH.
    apply (ea_list _ _ _ _ _ _ (blen pre + lo') (blen pre + hi')); try done; try lia.
    + by apply bytes_at_shift.
    + by rewrite <-Z.add_assoc.
  - intros p s t vals lo lo' hi Ht Hlo Hroot Hbl Hf IH.
    apply (ea_record _ _ _ _ t _ _ (blen pre + lo')); try done; lia.
  - intros p ty tag sv v lo hi Ht Hsv Hpl Hlo Hb Hhi Hd.
    apply (ea_unit_variant _ _ _ _ tag sv); try done; try lia. by apply bytes_at_shift.
  - intros p ty tag sv pl slot v v' lo lo' hi Ht Hsv Hpl Hlo Hb Hoff Hslot He IH Hd.
    apply (ea_variant _ _ _ _ tag sv pl (blen pre + slot) v v' _ (blen pre + lo')); try done; try lia.
    by apply bytes_at_shift.
  - intros. apply ee_nil. lia.
  - intros pos e v vs lo mid hi Hs IHs Hent IHe. apply ee_cons with (mid := blen pre + mid); [done|].
    by rewrite <-Z.add_assoc.
  - intros. apply ef_nil. lia.
  - intros p t f fs fo v vs lo mid hi Hfo Hsz Hs IHs Hf IHf.
    apply (ef_cons _ _ _ _ _ _ fo _ _ _ (blen pre + mid)); try done. by rewrite <-Z.add_assoc.
Qed.

(** ** Components of an encoding *)

Lemma entries_nth b pos e vs lo hi :
  enc_entries 0 b pos e vs lo hi -> inline_type e = false ->
  forall k v, vs !! k = Some v ->
  exists q lo' hi', is_u32 q /\ bytes_at b (pos + 4 * Z.of_nat k) (u32_to_le q) /\
    enc_at 0 b q e v lo' hi' /\ lo <= lo' /\ hi' <= hi.
Proof.
  intros Henc He. induction Henc as [|pos e v vs lo mid hi Hs Hent IH]; intros k w Hk; [done|].
  pose proof (enc_entries_le 0 b _ _ _ _ _ ltac:(lia) Hent).
  pose proof (enc_slot_le 0 b _ _ _ _ _ ltac:(lia) Hs).
  destruct k as [|k]; simpl in Hk.
  - injection Hk as <-. rewrite Z.add_0_r. inversion Hs; subst; [congruence|].
    rewrite Z.add_0_l in *. by eexists _, _, _.
  - destruct (IH He k w Hk) as (q & lo' & hi' & Hq & Hat & Henc' & ? & ?).
    exists q, lo', hi'. replace (pos + 4 * Z.of_nat (S k)) with (pos + 4 + 4 * Z.of_nat k) by lia.
    split_and!; (done || lia).
Qed.

Lemma fields_nth b p t fs vs lo hi :
  enc_fields 0 b p t fs vs lo hi ->
  Forall2 (fun f v => exists fo lo' hi', find_offset t (field_name f) = Some fo /\
     enc_slot 0 b (p + fo_offset fo) (field_ty f) v lo' hi' /\ lo <= lo' /\ hi' <= hi) fs vs.
Proof.
  intros Henc. induction Henc as [|p t f fs fo v vs lo mid hi Hfo Hsz Hs Hf IH]; [constructor|].
  pose proof (enc_fields_le 0 b _ _ _ _ _ _ ltac:(lia) Hf).
  pose proof (enc_slot_le 0 b _ _ _ _ _ ltac:(lia) Hs). constructor.
  - exists fo, lo, mid. split_and!; (done || lia).
  - eapply Forall2_impl; [exact IH|]. intros g w (go & lo' & hi' & ? & ? & ? & ?).
    exists go, lo', hi'. split_and!; (done || lia).
Qed.
End Encoding.
