(* ===== verification/DecodeFacts.v ===== *)
(** The readers decode every well-formed buffer: if [b] encodes a value in the
    sense of the relation of the encoding file, the recursive readers of
    [buffer.rs] return exactly that value. *)

From Stdlib Require Import ZArith Lia Bool.
From coqutil Require Import Byte Word.LittleEndianList.
From stdpp Require Import base list strings.
From S2P Require Import Prelude Bytes SchemaCanonical Layout LayoutFacts Value BufferTypes.
From S2P Require Import IndexFacts Reader ReaderFacts VerifiedRead Relocation Encoding.
Local Open Scope Z_scope.
Local Open Scope abi_scope.

Section Decode.
Context {H : HostTypes} (b : bytes) (Hb : is_slice b).

(** ** Reading back stored bytes *)

Lemma past_end_at off s n : bytes_at b off s -> blen s = n -> 0 < n -> past_end b off n = false.
Proof using Hb.
  intros Hat <- Hn. apply bytes_at_bound in Hat; [|done]. unfold past_end, is_slice in *.
  rewrite checked_add_small by (unfold ISIZE_MAX, USIZE_MAX in *; lia). by apply Z.ltb_ge.
Qed.

Lemma get_u32_at off v : bytes_at b off (u32_to_le v) -> is_u32 v -> get_u32 b off = Ok v.
Proof.
  intros Hat Hv. unfold get_u32. rewrite (bytes_at_slice_pos _ _ _ 4 Hat (blen_u32 v)) by lia.
  simpl. by rewrite u32_from_to.
Qed.

Lemma bool_at_bound off x : bytes_at b off [byte_of_bool x] -> 0 <= off /\ off + 1 <= blen b.
Proof. intros Hat. split; [apply Hat|]. by apply (bytes_at_bound _ _ _ Hat). Qed.

Lemma index_at {E} off x : bytes_at b off [x] -> @index E b off = Ok (byte.unsigned x).
Proof.
  intros [Ho Hs]. specialize (Hs 0%nat x eq_refl). rewrite Nat.add_0_r in Hs.
  apply index_ok. eauto.
Qed.

Lemma read_slot_pointer_at off v :
  bytes_at b off (u32_to_le v) -> is_u32 v -> read_slot_pointer b off = Ok v.
Proof using Hb.
  intros Hat Hv. unfold read_slot_pointer. rewrite (past_end_at _ _ 4 Hat (blen_u32 v)) by lia.
  by apply get_u32_at.
Qed.

Lemma read_utf8_span_at name off s o e u :
  bytes_at b off (as_bytes s) -> is_str s = true -> off + blen (as_bytes s) <= blen b ->
  read_utf8_span b name off (blen (as_bytes s)) o e u = Ok s.
Proof using Hb.
  intros Hat Hs Hl. unfold read_utf8_span, is_slice in *.
  rewrite checked_add_small by (unfold ISIZE_MAX, USIZE_MAX in *; lia). simpl.
  rewrite (proj2 (Z.ltb_ge _ _)) by lia.
  replace (off + blen (as_bytes s) - off) with (blen (as_bytes s)) by lia.
  rewrite (bytes_at_slice _ _ _ Hat) by done. simpl. by rewrite from_utf8_as_bytes.
Qed.

(** ** Inline scalars *)

Lemma read_inline_at off s n :
  bytes_at b off s -> blen s = n -> 0 < n -> read_inline b off n = Ok s.
Proof using Hb.
  intros Hat <- Hn. pose proof (bytes_at_bound _ _ _ Hat Hn). unfold read_inline, is_slice in *.
  rewrite checked_add_small by (unfold ISIZE_MAX, USIZE_MAX in *; lia). simpl.
  rewrite (proj2 (Z.ltb_ge _ _)) by lia. replace (off + blen s - off) with (blen s) by lia.
  by apply bytes_at_slice.
Qed.

Lemma read_field_scalar n off ty v :
  inline_type ty = true -> scalar_at b off ty v -> read_field_at (S n) b off ty = Ok v.
Proof using Hb.
  intros Hi Hs. destruct ty; try discriminate Hi; cbn [read_field_at]; simpl in Hs.
  - by subst.
  - destruct v; try done. rewrite (read_inline_at _ _ 1 Hs) by done. simpl.
    by rewrite byte_of_bool_roundtrip.
  - destruct v; try done. destruct Hs as [Hr Hs].
    rewrite (read_inline_at _ _ 8 Hs (blen_i64 i)) by lia. simpl. by rewrite i64_from_to.
  - destruct v; try done. destruct Hs as [Hr Hs].
    rewrite (read_inline_at _ _ 8 Hs (blen_u64 bits)) by lia. simpl. by rewrite u64_from_to.
Qed.

Lemma read_scalar_elem off e size align v :
  scalar_elem e = Some (size, align) -> scalar_at b off e v -> read_scalar_at b e off = Ok v.
Proof.
  intros He Hs. destruct e; try discriminate He; destruct v; try done; simpl in *.
  - unfold get_bool. rewrite (index_at _ _ Hs). simpl. by rewrite byte_of_bool_roundtrip.
  - destruct Hs as [Hr Hs]. unfold get_i64.
    rewrite (bytes_at_slice_pos _ _ _ 8 Hs (blen_i64 i)) by lia. simpl. by rewrite i64_from_to.
  - destruct Hs as [Hr Hs]. unfold get_f64.
    rewrite (bytes_at_slice_pos _ _ _ 8 Hs (blen_u64 bits)) by lia. simpl. by rewrite u64_from_to.
Qed.

(** The loop over an inline scalar list. *)
Lemma read_scalars_at p e items lo hi size align :
  scalar_elem e = Some (size, align) -> enc_at 0 b p (TList e) (VList items) lo hi ->
  hi <= blen b -> read_inline_scalar_list_at b p e = Ok items.
Proof using Hb.
  intros He Henc Hhi. unfold is_slice, ISIZE_MAX in Hb. inversion Henc; subst.
  2: { by destruct e. }
  2, 3: done.
  match goal with Hs : scalar_elem e = Some (_, _) |- _ =>
    assert_fails (constr_eq Hs He); rewrite He in Hs; injection Hs as <- <- end.
  pose proof (scalar_elem_pos _ _ _ He) as Hpos.
  pose proof (blen_nonneg items). rewrite !Z.add_0_l in *.
  assert (is_u32 (blen items)) by (by unfold is_u32).
  unfold read_inline_scalar_list_at.
  erewrite (past_end_at _ _ 4), get_u32_at by (try done; by rewrite blen_u32). simpl.
  rewrite He. simpl.
  match goal with Hp : payload_start p align = Some ?q |- _ => rename Hp into Hst; rename q into ps end.
  unfold payload_start in Hst.
  assert ((if 1 <? align then next_multiple_of (p + 4) align else Ok (p + 4)) = Ok ps) as ->.
  { unfold next_multiple_of. destruct (1 <? align); [by rewrite Hst|by injection Hst as ->]. }
  simpl. unfold checked_mul. rewrite (proj2 (Z.leb_le _ _)) by (unfold U32_MAX, USIZE_MAX in *; nia).
  simpl. rewrite checked_add_small by (unfold USIZE_MAX in *; nia). simpl.
  rewrite (proj2 (Z.ltb_ge _ _)) by lia.
  apply loop_ok. split; [unfold blen; lia|]. intros k it Hk. rewrite Z.add_0_l.
  eapply read_scalar_elem; eauto.
Qed.
(** ** Entries of a pointer array and fields of a record *)

Definition entry_at (pos : Z) (e : TypeRepr) (v : Value) : Prop :=
  exists q lo hi, is_u32 q /\ bytes_at b pos (u32_to_le q) /\ enc_at 0 b q e v lo hi /\ hi <= blen b.

Lemma entries_lookup pos e vs lo hi :
  enc_entries 0 b pos e vs lo hi -> list_payload_is_pointer_array e = true -> hi <= blen b ->
  forall k v, vs !! k = Some v -> entry_at (pos + 4 * Z.of_nat k) e v.
Proof.
  intros Henc He Hhi k v Hk.
  destruct (entries_nth _ _ _ _ _ _ Henc ltac:(by destruct e) k v Hk)
    as (q & lo' & hi' & Hq & Hat & Henc' & _ & Hle).
  exists q, lo', hi'. split_and!; (done || lia).
Qed.

Lemma read_entry_pointer_at pos q i :
  bytes_at b (pos + 4 * i) (u32_to_le q) -> is_u32 q -> read_entry_pointer b pos i = Ok q.
Proof using Hb.
  intros Hat Hq. pose proof (bytes_at_bound _ _ _ Hat) as Hl. rewrite blen_u32 in Hl.
  unfold read_entry_pointer, is_slice, ISIZE_MAX in *.
  replace (i * 4) with (4 * i) by lia.
  rewrite checked_add_small by (unfold USIZE_MAX; lia). simpl.
  rewrite usize_add_small by (unfold USIZE_MAX; lia). simpl.
  rewrite (proj2 (Z.ltb_ge _ _)) by lia. by apply get_u32_at.
Qed.

(** Header of a pointer array: count and start of the entries. *)
Lemma check_entries_at name p count :
  0 <= p -> 0 <= count <= U32_MAX -> p + 4 + 4 * count <= blen b ->
  check_pointer_entries_in_bounds b name (p + 4) count = Ok tt.
Proof using Hb.
  intros Hp Hc Hl. unfold check_pointer_entries_in_bounds, is_slice, checked_mul in *.
  rewrite (proj2 (Z.leb_le _ _)) by (unfold U32_MAX, USIZE_MAX in *; lia). simpl.
  rewrite checked_add_small by (unfold ISIZE_MAX, USIZE_MAX in *; lia).
  rewrite (proj2 (Z.leb_le _ _)) by lia. done.
Qed.

Lemma pointer_array_at p e items lo hi :
  enc_at 0 b p (TList e) (VList items) lo hi -> list_payload_is_pointer_array e = true ->
  hi <= blen b ->
  read_pointer_array_header b p = Ok (blen items, p + 4) /\
  forall k v, items !! k = Some v -> entry_at (p + 4 + 4 * Z.of_nat k) e v.
Proof using Hb.
  intros Henc He Hhi. inversion Henc; subst; [by destruct e| |done..].
  match goal with Hent : enc_entries _ _ _ _ _ _ _ |- _ =>
    pose proof (enc_entries_le 0 b _ _ _ _ _ ltac:(lia) Hent); rename Hent into Hents end.
  match goal with Hat : bytes_at _ p _ |- _ => rename Hat into Hhead end.
  pose proof (blen_nonneg items). split; [|eapply entries_lookup; [exact Hents|done|lia]].
  unfold read_pointer_array_header. rewrite (past_end_at _ _ 4 Hhead (blen_u32 _)) by lia.
  rewrite (get_u32_at _ _ Hhead) by (by unfold is_u32). simpl.
  rewrite check_entries_at; [done|apply Hhead|done|lia].
Qed.

Lemma record_slot_at p t s f fo m o :
  offsets_for s = Ok t -> find_offset t (field_name f) = Some fo -> p + root_size t <= blen b ->
  record_slot t p f m o = Ok (p + fo_offset fo).
Proof using Hb.
  intros Ht Hfo Hl. destruct (find_offset_bounds _ _ _ _ Ht Hfo) as [H0 H1].
  assert (0 <= fo_size fo).
  { apply offsets_for_fuel_sound in Ht. apply find_elem in Hfo as [Hin _].
    apply (ts_slot t Ht) in Hin as (_ & Hal & Hsz & _). apply abi_align_pos in Hal. lia. }
  unfold record_slot, is_slice, ISIZE_MAX in *. rewrite Hfo. simpl.
  rewrite checked_add_small by (unfold USIZE_MAX; lia). done.
Qed.

Lemma string_at q v lo hi :
  enc_at 0 b q TString v lo hi -> hi <= blen b ->
  exists s, v = VString s /\ is_str s = true /\ is_u32 (blen (as_bytes s)) /\
    bytes_at b q (u32_to_le (blen (as_bytes s))) /\ bytes_at b (q + 4) (as_bytes s) /\
    q + 4 + blen (as_bytes s) <= blen b.
Proof.
  intros Henc Hhi. inversion Henc; subst; [|done..].
  match goal with Hat : bytes_at _ q _ |- _ => apply bytes_at_app in Hat as [Hl Hs] end.
  rewrite blen_u32 in Hs. pose proof (blen_nonneg (as_bytes s)). exists s.
  split_and!; try done; lia.
Qed.

Lemma read_string_record_enc q v lo hi :
  enc_at 0 b q TString v lo hi -> hi <= blen b ->
  map_ok VString (read_string_record_at b q) = Ok v.
Proof using Hb.
  intros Henc Hhi. destruct (string_at _ _ _ _ Henc Hhi) as (s & -> & Hs & Hu & Hl & Hp & Hend).
  unfold read_string_record_at. rewrite (past_end_at _ _ 4 Hl (blen_u32 _)) by lia.
  rewrite (get_u32_at _ _ Hl) by done. simpl. by rewrite read_utf8_span_at.
Qed.

Lemma read_list_string_enc p items lo hi :
  enc_at 0 b p (TList TString) (VList items) lo hi -> hi <= blen b ->
  map_ok (map VString) (read_list_string_at b p) = Ok items.
Proof using Hb.
  intros Henc Hhi. destruct (pointer_array_at _ _ _ _ _ Henc) as [Hh Hent]; [done|done|].
  unfold read_pointer_array_header in Hh. unfold read_list_string_at, is_slice, ISIZE_MAX in *.
  destruct (past_end b p 4); [done|]. destruct (get_u32 b p) as [c| |]; [|done..]. simpl in *.
  apply bind_ok in Hh as (u & Hc & [= ->]). unfold check_pointer_entries_in_bounds in *.
  apply guard_ok in Hc. rewrite Hc. simpl.
  assert (exists ss, items = map VString ss) as [ss ->].
  { assert (Forall (fun v => exists s, v = VString s) items) as Hall.
    { apply Forall_lookup. intros k v (q & lo' & hi' & _ & _ & Hq & Hle)%Hent.
      destruct (string_at _ _ _ _ Hq Hle) as (s & -> & _). eauto. }
    clear -Hall. induction Hall as [|v vs [s ->] _ [ss ->]]; [by exists []|by exists (s :: ss)]. }
  apply map_ok_ok. exists ss. split; [|done]. apply loop_ok.
  split; [unfold blen; rewrite length_map; lia|]. intros k s Hk. rewrite Z.add_0_l.
  destruct (Hent k (VString s)) as (q & lo' & hi' & Hq & Hat & Hqs & Hle).
  { by rewrite list_lookup_fmap, Hk. }
  destruct (string_at _ _ _ _ Hqs Hle) as (s' & [= <-] & Hs & Hu & Hl & Hp & Hend).
  pose proof (bytes_at_bound _ _ _ Hat) as Hb1. pose proof (bytes_at_bound _ _ _ Hl) as Hb2.
  rewrite blen_u32 in Hb1, Hb2. replace (Z.of_nat k * 4) with (4 * Z.of_nat k) by lia.
  rewrite checked_add_small by (unfold USIZE_MAX; lia). simpl.
  rewrite (proj2 (Z.ltb_ge _ _)) by lia. rewrite (get_u32_at _ _ Hat) by done. simpl.
  rewrite (proj2 (Z.ltb_ge _ _)) by lia. rewrite (get_u32_at _ _ Hl) by done. simpl.
  by apply read_utf8_span_at.
Qed.

Lemma foldM_record (h : Field -> outcome BufferError Z)
    (g : Field -> Z -> outcome BufferError Value) fs vs m :
  Forall2 (fun f v => (let* x := h f in g f x) = Ok v) fs vs ->
  foldM (fun m f => let* x := h f in let* v := g f x in Ok (map_insert (field_name f) v m)) m fs
  = Ok (foldl (fun m fv => map_insert (field_name (fst fv)) (snd fv) m) m (zip fs vs)).
Proof.
  intros Hall. revert m. induction Hall as [|f v fs vs Hf _ IH]; intros m; simpl; [done|].
  apply bind_ok in Hf as (x & -> & Hg). simpl. rewrite Hg. simpl. apply IH.
Qed.

Lemma tag_at p tag :
  bytes_at b p [byte_of_u8 tag] -> 0 <= tag < 256 -> @index BufferError b p = Ok tag.
Proof.
  intros Hat Ht. rewrite (index_at _ _ Hat). unfold byte_of_u8. rewrite byte.unsigned_of_Z.
  unfold byte.wrap. by rewrite Z.mod_small.
Qed.

(** ** The walk *)

Lemma entries_loop p e items (kont : Z -> outcome BufferError Value) :
  (forall k v, items !! k = Some v -> entry_at (p + 4 + 4 * Z.of_nat k) e v) ->
  (forall q v lo hi, enc_at 0 b q e v lo hi -> hi <= blen b -> kont q = Ok v) ->
  loop (fun i => let* q := read_entry_pointer b (p + 4) i in kont q) 0 (Z.to_nat (blen items))
  = Ok items.
Proof using Hb.
  intros Hent Hk. apply loop_ok. split; [unfold blen; lia|]. intros k v Hv. rewrite Z.add_0_l.
  destruct (Hent k v Hv) as (q & lo & hi & Hq & Hat & Henc & Hhi).
  rewrite (read_entry_pointer_at _ q) by done. simpl. by eapply Hk.
Qed.

(** Shape of an encoded record. *)
Lemma record_at p s t v lo hi :
  enc_at 0 b p (TSchema s) v lo hi -> offsets_for s = Ok t -> hi <= blen b ->
  p + root_size t <= blen b /\ exists vals, v = mk_record s vals /\
    Forall2 (fun f v => exists fo lo' hi', find_offset t (field_name f) = Some fo /\
      enc_slot 0 b (p + fo_offset fo) (field_ty f) v lo' hi' /\ hi' <= blen b)
      (schema_fields s) vals.
Proof.
  intros Henc Ht Hhi. inversion Henc; subst; try done.
  match goal with Ht' : offsets_for s = Ok ?t0 |- _ =>
    assert (t0 = t) as -> by congruence end.
  split; [done|]. eexists. split; [done|]. eapply Forall2_impl; [by eapply fields_nth|].
  intros f v (fo & lo1 & hi1 & Hfo & Hs & _ & Hle). exists fo, lo1, hi1. split_and!; try done. lia.
Qed.

Lemma decode_fields n p s t vals :
  (forall slot ty v lo hi, enc_slot 0 b slot ty v lo hi -> lays_out ty -> hi <= blen b ->
     (tsize ty <= fields_size (schema_fields s))%nat -> read_field_at n b slot ty = Ok v) ->
  lays_out (TSchema s) -> offsets_for s = Ok t -> p + root_size t <= blen b ->
  Forall2 (fun f v => exists fo lo' hi', find_offset t (field_name f) = Some fo /\
    enc_slot 0 b (p + fo_offset fo) (field_ty f) v lo' hi' /\ hi' <= blen b)
    (schema_fields s) vals ->
  read_record_at (S n) b p t s = Ok (mk_record s vals).
Proof using Hb.
  intros IH Hl Ht Hend Hall.
  assert (forall m o, Forall2 (fun f v => (let* slot_abs := record_slot t p f m o in
    read_field_at n b slot_abs (field_ty f)) = Ok v) (schema_fields s) vals) as Hread.
  { intros m o. apply Forall2_same_length_lookup. split; [by eapply Forall2_length|].
    intros i f v Hf Hv. destruct (Forall2_lookup_lr _ _ _ _ _ _ Hall Hf Hv)
      as (fo & lo' & hi' & Hfo & Hs & Hle).
    rewrite (record_slot_at _ _ _ _ _ _ _ Ht Hfo) by done. simpl.
    apply list_elem_of_lookup_2 in Hf. eapply IH; [done|by eapply lays_out_field|done|].
    by apply fields_size_elem in Hf. }
  cbn [read_record_at]. unfold mk_record. destruct (schema_is_tuple s).
  - specialize (Hread "tuple field missing from layout"%string
      "tuple field slot offset overflows usize"%string).
    apply mapM_Forall2 in Hread. by rewrite Hread.
  - specialize (Hread "schema field missing from layout"%string
      "field slot offset overflows usize"%string).
    by rewrite (foldM_record _ (fun f x => read_field_at n b x (field_ty f)) _ _ _ Hread).
Qed.

Lemma decode_record n p s t v lo hi :
  (forall slot ty v lo hi, enc_slot 0 b slot ty v lo hi -> lays_out ty -> hi <= blen b ->
     (tsize ty <= fields_size (schema_fields s))%nat -> read_field_at n b slot ty = Ok v) ->
  enc_at 0 b p (TSchema s) v lo hi -> lays_out (TSchema s) -> offsets_for s = Ok t ->
  hi <= blen b -> read_record_at (S n) b p t s = Ok v.
Proof using Hb.
  intros IH Henc Hl Ht Hhi.
  destruct (record_at _ _ _ _ _ _ Henc Ht Hhi) as (Hend & vals & -> & Hall).
  by apply decode_fields.
Qed.

(** The slot of the payload of an encoded variant record, or its absence. *)
Lemma decode_variant n p ty v lo hi :
  (forall slot ty' v lo hi, enc_slot 0 b slot ty' v lo hi -> ty' ∈ variant_payload_types ty ->
     hi <= blen b -> read_field_at n b slot ty' = Ok v) ->
  enc_at 0 b p ty v lo hi -> is_variant_type ty = true -> hi <= blen b ->
  read_variant_record_at (S n) b p ty = Ok v.
Proof using Hb.
  intros IH Henc Hty Hhi. inversion Henc; subst; try done.
  - match goal with Hat : bytes_at b p _ |- _ => rename Hat into Htag end.
    cbn [read_variant_record_at]. rewrite (past_end_at _ _ 1 Htag) by done.
    rewrite (tag_at _ _ Htag) by done. cbn [bind].
    match goal with Hsv : variant_selected_payload ty tag = _, Hp : sv_payload sv = None,
      Hd : variant_decode _ _ _ = _ |- _ => rewrite Hsv; cbn [map_err bind]; rewrite Hp;
      unfold variant_decode in Hd; rewrite Hp in Hd end.
    destruct ty; try done; simplify_eq; done.
  - match goal with Hat : bytes_at b p _, Hs : enc_slot _ _ _ _ _ _ _ |- _ =>
      rename Hat into Htag; rename Hs into Hslot end.
    match goal with Hsv : variant_selected_payload ty tag = _, Hp : sv_payload sv = _,
      Hd : variant_decode _ _ _ = _, Ho : variant_payload_slot_offset _ _ = _ |- _ =>
      pose proof (selected_payload_elem _ _ _ _ Hsv Hp) as Hin;
      rename Hsv into Hsel; rename Hp into Hpl; rename Hd into Hdec; rename Ho into Hoff end.
    pose proof (IH _ _ _ _ _ Hslot Hin Hhi) as Hread. rewrite !Z.add_0_l in Hoff.
    cbn [read_variant_record_at]. rewrite (past_end_at _ _ 1 Htag) by done.
    rewrite (tag_at _ _ Htag) by done. cbn [bind]. rewrite Hsel. cbn [map_err bind].
    rewrite Hpl. unfold payload_slot. rewrite Hoff. cbn [ok_or bind]. rewrite Hread.
    unfold variant_decode in Hdec. rewrite Hpl in Hdec.
    destruct ty; try done; simpl; [by simplify_eq..|].
    destruct v0; try done; simplify_eq. done.
Qed.

Lemma decode_walk n :
  (forall p e items lo hi, enc_at 0 b p (TList e) (VList items) lo hi -> lays_out e ->
     hi <= blen b -> (2 * tsize e <= n)%nat -> read_list_value_at n b p e = Ok items) /\
  (forall p s t v lo hi, enc_at 0 b p (TSchema s) v lo hi -> lays_out (TSchema s) ->
     offsets_for s = Ok t -> hi <= blen b ->
     (2 * fields_size (schema_fields s) + 1 <= n)%nat -> read_record_at n b p t s = Ok v) /\
  (forall slot ty v lo hi, enc_slot 0 b slot ty v lo hi -> lays_out ty -> hi <= blen b ->
     (2 * tsize ty <= n)%nat -> read_field_at n b slot ty = Ok v) /\
  (forall p ty v lo hi, enc_at 0 b p ty v lo hi -> is_variant_type ty = true -> lays_out ty ->
     hi <= blen b -> (2 * tsize ty <= n + 1)%nat -> read_variant_record_at n b p ty = Ok v).
Proof using Hb.
  induction n as [|n (IHl & IHr & IHf & IHv)].
  { split_and!; intros; try (pose proof (tsize_pos e)); try (pose proof (tsize_pos ty)); lia. }
  split_and!.
  - intros p e items lo hi Henc Hl Hhi Hn.
    destruct (list_payload_is_pointer_array e) eqn:He.
    + destruct (pointer_array_at _ _ _ _ _ Henc He Hhi) as [Hh Hent].
      destruct e; try discriminate He; cbn [read_list_value_at]; rewrite ?Hh;
        rewrite ?tsize_list, ?tsize_schema in Hn; cbn [bind].
      * by eapply read_list_string_enc.
      * apply (entries_loop _ _ _ _ Hent). intros q v lo' hi' Hq Hle.
        inversion Hq; subst; try done; (erewrite IHl; [done|done|by apply lays_out_list|done|lia]).
      * apply (entries_loop _ _ _ _ Hent). intros q v lo' hi' Hq Hle. eapply IHv; try done. lia.
      * apply (entries_loop _ _ _ _ Hent). intros q v lo' hi' Hq Hle. eapply IHv; try done. lia.
      * apply (entries_loop _ _ _ _ Hent). intros q v lo' hi' Hq Hle. eapply IHv; try done. lia.
      * destruct (offsets_for_complete schema Hl) as [t Ht]. rewrite Ht. cbn [map_err bind].
        apply (entries_loop _ _ _ _ Hent). intros q v lo' hi' Hq Hle.
        destruct (record_at _ _ _ _ _ _ Hq Ht Hle) as [Hend _].
        rewrite checked_add_small by (unfold is_slice, ISIZE_MAX, USIZE_MAX in *; lia).
        cbn [ok_or bind]. rewrite (proj2 (Z.ltb_ge _ _)) by done. eapply IHr; try done. lia.
    + inversion Henc; subst; [|congruence|done..].
      destruct e; try discriminate; cbn [read_list_value_at]; by eapply read_scalars_at.
  - intros p s t v lo hi Henc Hl Ht Hhi Hn. eapply decode_record; try done.
    intros slot ty w lo' hi' Hs Hlw Hle Hsz. eapply IHf; try done. lia.
  - intros slot ty v lo hi Hs Hl Hhi Hn. inversion Hs; subst.
    { by apply read_field_scalar. }
    rewrite !Z.add_0_l in *.
    match goal with Hat : bytes_at b slot _, Hp : enc_at _ _ _ _ _ _ _, Hu : is_u32 _ |- _ =>
      pose proof (read_slot_pointer_at _ _ Hat Hu) as Hptr; rename Hp into Hat' end.
    destruct ty; try discriminate; cbn [read_field_at]; rewrite ?Hptr; cbn [bind];
      rewrite ?tsize_list, ?tsize_schema in Hn.
    + by eapply read_string_record_enc.
    + inversion Hat'; subst; try done; (erewrite IHl; [done|done|by apply lays_out_list|done|lia]).
    + eapply IHv; try done. lia.
    + eapply IHv; try done. lia.
    + eapply IHv; try done. lia.
    + destruct (offsets_for_complete schema Hl) as [t Ht]. rewrite Ht. cbn [map_err bind].
      eapply IHr; try done. lia.
    + inversion Hat'; subst; done.
  - intros p ty v lo hi Henc Hty Hl Hhi Hn. eapply decode_variant; try done.
    intros slot ty' w lo' hi' Hs Hin Hle. eapply IHf; try done.
    + eapply lays_out_payload; [|done|done]. by destruct ty.
    + apply variant_payload_types_size in Hin. lia.
Qed.
End Decode.
