(* ===== verification/RelocFacts.v ===== *)
(** Correctness of pointer relocation: the relocation walk never aborts on any
    bytes, and it turns an encoding relative to the start of a buffer into an
    encoding of the same value relative to the paste offset. *)

From Stdlib Require Import ZArith Lia Bool.
From coqutil Require Import Byte Word.LittleEndianList.
From stdpp Require Import base list strings.
From S2P Require Import Prelude Bytes SchemaCanonical Layout LayoutFacts Value BufferTypes.
From S2P Require Import IndexFacts Reader ReaderFacts VerifierFacts VerifiedRead Relocation.
From S2P Require Import Encoding DecodeFacts.
Local Open Scope Z_scope.
Local Open Scope abi_scope.

(** ** Alignments *)

(** A multiple of an ABI alignment is a multiple of every smaller one. *)
Lemma abi_align_mod P a c : abi_align a -> abi_align c -> a <= c -> P mod c = 0 -> P mod a = 0.
Proof.
  intros Ha Hc Hle Hm. destruct Ha as [->|[->| ->]], Hc as [->|[->| ->]]; try lia.
  - by rewrite Z.mod_1_r.
  - by rewrite Z.mod_1_r.
  - apply Z.mod_divide; [lia|]. apply Z.mod_divide in Hm as [k ->]; [|lia].
    exists (2 * k). lia.
Qed.

Lemma abi_align_max a c : abi_align a -> abi_align c -> abi_align (Z.max a c).
Proof. unfold abi_align. lia. Qed.

Lemma fold_max_abi l : forall a, abi_align a -> Forall abi_align l -> abi_align (fold_left Z.max l a).
Proof.
  induction l as [|x l IH]; intros a Ha Hl; simpl; [done|]. apply Forall_cons in Hl as [? ?].
  apply IH; [by apply abi_align_max|done].
Qed.

Lemma max_list_abi l : Forall abi_align l -> abi_align (max_list_Z 1 l).
Proof.
  destruct l as [|x l]; simpl; [by left|]. intros [? ?]%Forall_cons. by apply fold_max_abi.
Qed.

Section Align.
Context {H : HostTypes}.

Lemma payload_align_abi ty : abi_align (snd (payload_slot_layout_runtime ty)).
Proof. destruct ty; unfold abi_align; simpl; lia. Qed.

Lemma fields_align_abi fs :
  P_fields (fun ty => abi_align (type_graph_align ty)) fs ->
  abi_align (max_list_Z 1 (map (fun f => type_graph_align (field_ty f)) fs)).
Proof. intros Hfs. apply max_list_abi. by apply Forall_map. Qed.

(** The fold of the enum arm, with the payload test as a guard. *)
Definition has_payload (v : EnumVariant) : bool :=
  match variant_fields v with [] => false | _ => true end.

Definition fields_align (fs : list Field) : Z :=
  max_list_Z 1 (map (fun f => type_graph_align (field_ty f)) fs).

Definition variants_align (vs : list EnumVariant) (a : Z) : Z :=
  fold_left (fun a v => if has_payload v then Z.max (Z.max a 4) (fields_align (variant_fields v)) else a)
            vs a.

Lemma type_graph_align_enum nm vs : type_graph_align (TEnum nm vs) = variants_align vs 4.
Proof.
  simpl. unfold variants_align. generalize 4 at 2 4. induction vs as [|v vs IH]; intros a; simpl; [done|].
  rewrite IH. f_equal. unfold has_payload, fields_align. by destruct (variant_fields v).
Qed.

Lemma variants_align_abi vs : forall a,
  abi_align a ->
  Forall (fun v => P_fields (fun ty => abi_align (type_graph_align ty)) (variant_fields v)) vs ->
  abi_align (variants_align vs a).
Proof.
  induction vs as [|v vs IH]; intros a Ha Hvs; [done|]. apply Forall_cons in Hvs as [Hv Hvs].
  apply IH; [|done]. destruct (has_payload v); [|done].
  apply abi_align_max; [apply abi_align_max; [done|by right; left]|]. by apply fields_align_abi.
Qed.

Lemma variants_align_ge vs : forall a,
  a <= variants_align vs a /\
  forall v, v ∈ vs -> has_payload v = true ->
    4 <= variants_align vs a /\ fields_align (variant_fields v) <= variants_align vs a.
Proof.
  induction vs as [|v vs IH]; intros a; cbn [variants_align fold_left].
  { split; [unfold variants_align; simpl; lia|by intros v ?%elem_of_nil]. }
  set (a' := if has_payload v then _ else _). destruct (IH a') as [H1 H2].
  fold (variants_align vs a'). split.
  - subst a'. destruct (has_payload v); lia.
  - intros w [->|Hw]%elem_of_cons Hp; [subst a'; rewrite Hp in *; lia|auto].
Qed.

Lemma type_graph_align_abi ty : abi_align (type_graph_align ty).
Proof.
  induction ty as [| | | | |e IH|i IH|o IHo e IHe|nm vs IH|s IH|ps r _ _] using TypeRepr_deep_ind;
    try (by left).
  - destruct e; simpl in *; try (by left); try (by right; right); done.
  - simpl. apply abi_align_max; [|done]. apply abi_align_max; [by right; left|apply payload_align_abi].
  - simpl. repeat (apply abi_align_max); try done; try apply payload_align_abi. by right; left.
  - rewrite type_graph_align_enum. apply variants_align_abi; [by right; left|done].
  - simpl. by apply fields_align_abi.
Qed.

(** [P] is a multiple of the alignment of everything reachable from [ty]. *)
Definition aligned_for (P : Z) (ty : TypeRepr) : Prop := P mod type_graph_align ty = 0.

Lemma aligned_le P ty ty' :
  aligned_for P ty -> type_graph_align ty' <= type_graph_align ty -> aligned_for P ty'.
Proof.
  intros Ha Hle. eapply abi_align_mod; [apply type_graph_align_abi..|exact Hle|done].
Qed.

Lemma aligned_field P s f : aligned_for P (TSchema s) -> f ∈ schema_fields s -> aligned_for P (field_ty f).
Proof.
  intros Ha Hf. eapply aligned_le; [exact Ha|]. simpl. apply max_list_Z_ge.
  apply list_elem_of_fmap. by exists f.
Qed.

Lemma aligned_list P e : aligned_for P (TList e) -> list_payload_is_pointer_array e = true -> aligned_for P e.
Proof. intros Ha He. eapply aligned_le; [exact Ha|]. destruct e; simpl; try done; lia. Qed.

Lemma aligned_payload P ty p :
  aligned_for P ty -> p ∈ variant_payload_types ty ->
  aligned_for P p /\ P mod snd (payload_slot_layout_runtime p) = 0.
Proof.
  intros Ha Hp.
  assert (type_graph_align p <= type_graph_align ty /\
          snd (payload_slot_layout_runtime p) <= type_graph_align ty) as [H1 H2].
  { clear Ha. destruct ty; simpl in Hp; try (by apply elem_of_nil in Hp).
    - apply list_elem_of_singleton in Hp as ->. simpl. lia.
    - rewrite !elem_of_cons, elem_of_nil in Hp. destruct Hp as [->|[->|[]]]; simpl; lia.
    - apply list_elem_of_omap in Hp as (v & Hv & Hs).
      destruct (payload_schema v name) as [s|] eqn:Hps; [|done]. injection Hs as <-.
      unfold payload_schema in Hps. rewrite type_graph_align_enum.
      destruct (variants_align_ge variants 4) as [H4 Hge]. specialize (Hge v Hv).
      unfold has_payload in Hge. destruct (variant_fields v) as [|f fs]; [done|].
      injection Hps as <-. by destruct Hge as [? Hge]. }
  split; [by eapply aligned_le|].
  eapply abi_align_mod; [apply payload_align_abi|apply type_graph_align_abi|done|done].
Qed.
End Align.

(** ** Relocation tables *)

Section Tables.
Context {H : HostTypes}.

Definition is_scalar (ty : TypeRepr) : bool :=
  match ty with TInt | TFloat | TBool => true | _ => false end.

(** A list of [n >= 1] levels with scalar leaves. *)
Fixpoint scalar_nest (ty : TypeRepr) : bool :=
  match ty with
  | TList e => is_scalar e || scalar_nest e
  | _ => false
  end.

(** The types whose values the relocation tables can describe: a scalar list
    nested three or more levels deep has no descriptor for its middle level. *)
Fixpoint relocatable (ty : TypeRepr) : bool :=
  match ty with
  | TList e => match e with TList e' => negb (scalar_nest e') | _ => true end && relocatable e
  | TOption i => relocatable i
  | TResult o e => relocatable o && relocatable e
  | TEnum _ vs => forallb (fun v => forallb (fun f => relocatable (field_ty f)) (variant_fields v)) vs
  | TSchema s => forallb (fun f => relocatable (field_ty f)) (schema_fields s)
  | _ => true
  end.

Lemma relocatable_payload ty p :
  relocatable ty = true -> p ∈ variant_payload_types ty -> relocatable p = true.
Proof.
  destruct ty; simpl; try (by rewrite elem_of_nil).
  - by intros ? ->%list_elem_of_singleton.
  - intros [? ?]%andb_true_iff. rewrite !elem_of_cons, elem_of_nil. naive_solver.
  - intros Hvs (v & Hv & Hp)%list_elem_of_omap. rewrite forallb_elem in Hvs.
    specialize (Hvs v Hv). destruct (payload_schema v name) eqn:Hs; [|done]. injection Hp as <-.
    unfold payload_schema in Hs. destruct (variant_fields v); [done|]. by injection Hs as <-.
Qed.

Lemma relocatable_field s f :
  relocatable (TSchema s) = true -> f ∈ schema_fields s -> relocatable (field_ty f) = true.
Proof. simpl. intros Hs Hf. rewrite forallb_elem in Hs. auto. Qed.

Lemma relocatable_list e : relocatable (TList e) = true -> relocatable e = true.
Proof. simpl. by intros [_ ?]%andb_true_iff. Qed.

(** What the relocation walk may assume of a type. *)
Record movable (P : Z) (ty : TypeRepr) : Prop := {
  mv_wf : wf_type ty;
  mv_reloc : relocatable ty = true;
  mv_align : aligned_for P ty;
}.

Lemma movable_field P s f : movable P (TSchema s) -> f ∈ schema_fields s -> movable P (field_ty f).
Proof.
  intros [Hw Hr Ha] Hf. split; [by eapply wf_field|by eapply relocatable_field|by eapply aligned_field].
Qed.

Lemma movable_list P e :
  movable P (TList e) -> list_payload_is_pointer_array e = true -> movable P e.
Proof.
  intros [Hw Hr Ha] He. split; [by apply wf_list|by apply relocatable_list|by apply aligned_list].
Qed.

Lemma movable_payload P ty p :
  movable P ty -> p ∈ variant_payload_types ty -> movable P p.
Proof.
  intros [Hw Hr Ha] Hp. split; [by eapply wf_payload|by eapply relocatable_payload|].
  by eapply aligned_payload.
Qed.

(** Only the innermost pointer array of a scalar list has no descriptor. *)
Lemma no_descriptor k e :
  ptr_array_elem_for k e = Ok None -> lays_out (TList e) -> relocatable (TList e) = true ->
  list_payload_is_pointer_array e = true -> exists c, e = TList c /\ is_scalar c = true.
Proof.
  revert e. induction k as [|k IH]; intros e Hk Hl Hr He; [done|].
  destruct e; try discriminate He; cbn [ptr_array_elem_for] in Hk; try discriminate Hk.
  - inv_ok Hk. destruct a; [done|]. apply lays_out_list in Hl as [Hl _].
    destruct (list_payload_is_pointer_array e) eqn:He'.
    + destruct (IH e) as (c & -> & Hc); [done|done|by apply relocatable_list|done|].
      simpl in Hr. by rewrite Hc in Hr.
    + exists e. split; [done|]. destruct Hl as [Hl _]. by destruct e.
  - destruct (offsets_for_complete schema) as [t Ht]; [by apply lays_out_list|].
    unfold with_layout in Hk. rewrite Ht in Hk. by apply map_ok_ok in Hk as (r & _ & [= ?]).
Qed.

(** The parts of one slot of a relocation table. *)
Definition nested_for (k : nat) (ty : TypeRepr) : outcome BufferError (option RelocLayout) :=
  match ty with
  | TSchema s | TList (TSchema s) => with_layout s (fun sub => reloc_build k sub (schema_fields s))
  | _ => Ok None
  end.

Definition list_elem_for (k : nat) (ty : TypeRepr) : outcome BufferError (option PtrArrayElem) :=
  match ty with
  | TList e => ptr_array_elem_for k e
  | _ => Ok None
  end.

Definition describes (k : nat) (ty : TypeRepr) (fo : FieldOffset)
    (slot : reloc_slot_of RelocLayout PtrArrayElem) : Prop :=
  rs_offset slot = fo_offset fo /\ rs_list_element slot = fo_list_element fo /\
  nested_for k ty = Ok (rs_nested slot) /\ list_elem_for k ty = Ok (rs_list_elem slot) /\
  rs_variant slot = if is_variant_type ty then Some ty else None.

Lemma reloc_build_slots k t fields r :
  reloc_build k t fields = Ok r ->
  exists k', k = S k' /\
  Forall2 (fun fo slot => forall f, find_field (fo_name fo) fields = Some f ->
             describes k' (field_ty f) fo slot)
          (filter (fun fo => is_pointer_indirect (fo_kind fo) = true) (ot_fields t))
          (reloc_slots r).
Proof.
  destruct k as [|k]; [done|]. cbn [reloc_build]. intros Hr. inv_ok Hr. exists k. split; [done|].
  apply mapM_Forall2 in Hr0. subst. simpl. eapply Forall2_impl; [exact Hr0|].
  intros fo slot Hs f Hf. cbn beta in Hs. rewrite Hf in Hs. cbn [fmap option_fmap option_map] in Hs.
  inv_ok Hs. unfold describes. simpl. split_and!; try done.
Qed.

Lemma descriptor_inv k e d :
  ptr_array_elem_for k e = Ok (Some d) ->
  match d with
  | PString => e = TString
  | PSchema r => exists k' s t, e = TSchema s /\ offsets_for s = Ok t /\
                   reloc_build k' t (schema_fields s) = Ok r
  | PInnerList d' => exists k' e', e = TList e' /\ ptr_array_elem_for k' e' = Ok (Some d')
  | PVariant ty => ty = e /\ is_variant_type e = true
  end.
Proof.
  destruct k as [|k]; [done|]. destruct e; cbn [ptr_array_elem_for]; intros He; try done; inv_ok He; subst.
  - done.
  - destruct a as [d'|]; [|done]. injection He as <-. eauto.
  - done.
  - done.
  - done.
  - unfold with_layout in He. destruct (offsets_for schema) as [t| |] eqn:Ht; [|done..].
    apply map_ok_ok in He as (r & Hr & [= ->]). apply map_ok_ok in Hr as (r' & Hr & ->). eauto 6.
Qed.
End Tables.

(** ** Totality *)

Section Total.
Context {H : HostTypes}.

Lemma with_layout_is_ok {A} s (k : OffsetTable -> outcome BufferError A) :
  (forall t, offsets_for s = Ok t -> is_ok (k t)) -> is_ok (with_layout s k).
Proof.
  intros Hk. unfold with_layout. pose proof (offsets_for_total s).
  destruct (offsets_for s) as [t| |] eqn:Ht; [|apply is_ok_ret|done].
  destruct (Hk t eq_refl) as [x ->]. apply is_ok_ret.
Qed.

Lemma map_ok_is_ok {E A B} (f : A -> B) (m : outcome E A) : is_ok m -> is_ok (map_ok f m).
Proof. intros [a ->]. apply is_ok_ret. Qed.

(** Building the tables always succeeds. *)
Lemma tables_total n :
  (forall e, (2 * tsize e <= n)%nat -> is_ok (ptr_array_elem_for n e)) /\
  (forall t fields, (2 * fields_size fields + 1 <= n)%nat -> is_ok (reloc_build n t fields)).
Proof.
  induction n as [|n [IHe IHb]].
  { split; intros; [pose proof (tsize_pos e)|]; lia. }
  split.
  - intros e Hn. destruct e; cbn [ptr_array_elem_for]; try apply is_ok_ret.
    + rewrite tsize_list in Hn. apply is_ok_bind; [apply IHe; lia|intros; apply is_ok_ret].
    + rewrite tsize_schema in Hn. apply with_layout_is_ok. intros t _. apply map_ok_is_ok, IHb. lia.
  - intros t fields Hn. cbn [reloc_build]. apply is_ok_bind; [|intros; apply is_ok_ret].
    apply mapM_is_ok. intros fo _.
    destruct (find_field (fo_name fo) fields) as [f|] eqn:Hf; [|apply is_ok_ret].
    apply find_field_elem in Hf as [Hf _]. apply fields_size_elem in Hf.
    apply is_ok_bind.
    { simpl. destruct (field_ty f) as [| | | | |e| | | |s|]; try apply is_ok_ret;
        [destruct e as [| | | | | | | | |s|]; try apply is_ok_ret|];
        rewrite ?tsize_list, ?tsize_schema in Hf; apply with_layout_is_ok; intros t' _; apply IHb; lia. }
    intros nested _. apply is_ok_bind; [|intros; apply is_ok_ret]. simpl.
    destruct (field_ty f); try apply is_ok_ret. rewrite tsize_list in Hf. apply IHe. lia.
Qed.

(** ** Depth of the tables *)

Lemma reloc_depth_slot r slot :
  slot ∈ reloc_slots r ->
  match rs_nested slot with Some r' => (reloc_depth r' < reloc_depth r)%nat | None => True end /\
  match rs_list_elem slot with
  | Some e => (elem_depth e < reloc_depth r)%nat | None => (1 < reloc_depth r)%nat end /\
  match rs_variant slot with Some ty => (6 * tsize ty < reloc_depth r)%nat | None => True end.
Proof.
  destruct r as [slots]. simpl. induction slots as [|s slots IH]; [by intros ?%elem_of_nil|].
  intros [->|Hs]%elem_of_cons.
  - destruct (rs_nested s), (rs_list_elem s), (rs_variant s); simpl; lia.
  - specialize (IH Hs). destruct (rs_nested slot), (rs_list_elem slot), (rs_variant slot); simpl in *; lia.
Qed.

Lemma reloc_depth_le r m :
  (1 <= m)%nat ->
  (forall slot, slot ∈ reloc_slots r ->
    match rs_nested slot with Some r' => (reloc_depth r' < m)%nat | None => True end /\
    match rs_list_elem slot with Some e => (elem_depth e < m)%nat | None => (1 < m)%nat end /\
    match rs_variant slot with Some ty => (6 * tsize ty < m)%nat | None => True end) ->
  (reloc_depth r <= m)%nat.
Proof.
  intros Hm. destruct r as [slots]. simpl. induction slots as [|s slots IH]; intros Hall; [lia|].
  assert (forall x, x ∈ slots -> x ∈ s :: slots) as Hin by (by right).
  specialize (IH (fun x Hx => Hall x (Hin x Hx))). destruct (Hall s) as (H1 & H2 & H3); [left|].
  destruct (rs_nested s), (rs_list_elem s), (rs_variant s); simpl in *; lia.
Qed.

Lemma nested_for_Some k ty r :
  nested_for k ty = Ok (Some r) ->
  exists s t, (ty = TSchema s \/ ty = TList (TSchema s)) /\ offsets_for s = Ok t /\
    reloc_build k t (schema_fields s) = Ok r.
Proof.
  intros Hn. destruct ty as [| | | | |e| | | |s|]; try done; [destruct e as [| | | | | | | | |s|]; try done|];
    cbn [nested_for] in Hn; unfold with_layout in Hn; (destruct (offsets_for s) as [t| |] eqn:Ht; [|done..]);
    apply map_ok_ok in Hn as (r' & Hr & [= ->]); eauto 6.
Qed.

Lemma described_slots s t k r :
  offsets_for s = Ok t -> reloc_build k t (schema_fields s) = Ok r ->
  forall slot, slot ∈ reloc_slots r ->
  exists k' f fo, k = S k' /\ f ∈ schema_fields s /\ fo ∈ ot_fields t /\
    describes k' (field_ty f) fo slot.
Proof.
  intros Ht (k' & -> & Hall)%reloc_build_slots slot (i & Hi)%list_elem_of_lookup_1.
  destruct (Forall2_lookup_r _ _ _ _ _ Hall Hi) as (fo & Hfo & Hd).
  apply list_elem_of_lookup_2, list_elem_of_filter in Hfo as [_ Hfo].
  destruct (declared_slot _ _ _ Ht Hfo) as [f Hf].
  exists k', f, fo. split_and!; try done; [by apply find_field_elem in Hf as [? _]|by apply Hd].
Qed.

Lemma tables_depth n :
  (forall e d, ptr_array_elem_for n e = Ok (Some d) -> (elem_depth d <= 6 * tsize e + 1)%nat) /\
  (forall s t r, offsets_for s = Ok t -> reloc_build n t (schema_fields s) = Ok r ->
     (reloc_depth r <= 6 * fields_size (schema_fields s) + 1)%nat).
Proof.
  induction n as [|n [IHe IHb]]; [done|]. split.
  - intros e d He. destruct e; cbn [ptr_array_elem_for] in He; try done; inv_ok He; subst.
    + simpl. lia.
    + rewrite tsize_list. destruct a as [d'|]; [|done]. injection He as <-. simpl.
      specialize (IHe _ _ He0). lia.
    + simpl. lia.
    + simpl. lia.
    + simpl. lia.
    + unfold with_layout in He. destruct (offsets_for schema) as [t| |] eqn:Ht; [|done..].
      apply map_ok_ok in He as (r & Hr & [= ->]). apply map_ok_ok in Hr as (r' & Hr & ->).
      rewrite tsize_schema. simpl. specialize (IHb _ _ _ Ht Hr). lia.
  - intros s t r Ht Hr. apply reloc_depth_le; [lia|]. intros slot Hslot.
    destruct (described_slots _ _ _ _ Ht Hr _ Hslot) as (k & f & fo & [= <-] & Hf & _ & Hd).
    destruct Hd as (_ & _ & Hnest & Hlist & Hvar). apply fields_size_elem in Hf.
    pose proof (tsize_pos (field_ty f)). split_and!.
    + destruct (rs_nested slot) as [r'|]; [|done].
      apply nested_for_Some in Hnest as (s' & t' & Hty & Ht' & Hr').
      specialize (IHb _ _ _ Ht' Hr'). destruct Hty as [Hty|Hty]; rewrite Hty in *;
        rewrite ?tsize_list, ?tsize_schema in *; lia.
    + destruct (rs_list_elem slot) as [d|]; [|lia]. unfold list_elem_for in Hlist.
      destruct (field_ty f); try done. rewrite tsize_list in *. apply IHe in Hlist. lia.
    + rewrite Hvar. destruct (is_variant_type (field_ty f)); [lia|done].
Qed.
(** A step that returns, and keeps the length of the buffer. *)
Definition steps (b : bytes) (m : outcome string bytes) : Prop :=
  m <> Abort /\ forall b', m = Ok b' -> blen b' = blen b.

Lemma steps_ok b : steps b (Ok b).
Proof. split; [done|]. by intros b' [= <-]. Qed.

Lemma steps_err b e : steps b (Err e).
Proof. done. Qed.

Lemma steps_bind {A} b (m : outcome string A) k :
  m <> Abort -> (forall a, m = Ok a -> steps b (k a)) -> steps b (let* a := m in k a).
Proof. destruct m as [a|e|]; simpl; intros Hm Hk; [by apply Hk|apply steps_err|done]. Qed.

Lemma steps_trans b b' m : blen b' = blen b -> steps b' m -> steps b m.
Proof. intros Hl [Hna Hm]. split; [done|]. intros c Hc. rewrite <-Hl. by apply Hm. Qed.

Lemma steps_foldM {A} (f : bytes -> A -> outcome string bytes) l b :
  (forall c x, x ∈ l -> blen c = blen b -> steps c (f c x)) -> steps b (foldM f b l).
Proof.
  intros Hf. split.
  - apply (foldM_not_abort (fun c => blen c = blen b)); [done|]. intros c x Hc Hx.
    destruct (Hf c x Hx Hc) as [Hna Hok]. split; [done|]. intros c' Hc'. rewrite <-Hc. by apply Hok.
  - intros b'. apply (foldM_inv (fun c => blen c = blen b)); [done|].
    intros c x c' Hc Hx Hc'. rewrite <-Hc. by apply (Hf c x Hx Hc).
Qed.

Lemma steps_iterM (f : Z -> bytes -> outcome string bytes) n i b :
  (forall j c, i <= j -> blen c = blen b -> steps c (f j c)) -> steps b (iterM f i n b).
Proof.
  intros Hf. split.
  - apply (iterM_not_abort (fun c => blen c = blen b)); [done|]. intros j c Hj Hc.
    destruct (Hf j c Hj Hc) as [Hna Hok]. split; [done|]. intros c' Hc'. rewrite <-Hc. by apply Hok.
  - intros b'. apply (iterM_inv (fun c => blen c = blen b)); [done|].
    intros j c c' Hj Hc Hc'. rewrite <-Hc. by apply (Hf j c Hj Hc).
Qed.

(** The pointer rebase shared by the three walkers. *)
Lemma steps_rebase b off P msg k :
  0 <= off -> past_end b off 4 = false ->
  (forall c q, blen c = blen b -> is_u32 q -> steps c (k c q)) ->
  steps b (let* (c, q) := rebase_u32 b off P msg in k c q).
Proof.
  intros Ho Hp Hk. apply past_end_false in Hp. unfold rebase_u32.
  destruct (@slice_in_range string b off 4) as (s & Hs & Hl); [done|lia|lia|]. rewrite Hs. simpl.
  destruct (u32_checked_add (u32_from_le s) P); [|apply steps_err]. simpl.
  destruct (@patch_in_range string b off (u32_to_le z)) as [c Hc]; [done|rewrite blen_u32; lia|].
  rewrite Hc. simpl. pose proof (patch_length _ _ _ _ Hc) as Hbl.
  eapply steps_trans; [exact Hbl|]. apply Hk; [done|]. by apply u32_from_bound.
Qed.

Definition pointers_total (n : nat) : Prop := forall b s t k r base P,
  offsets_for s = Ok t -> reloc_build k t (schema_fields s) = Ok r -> 0 <= base ->
  (reloc_depth r <= n)%nat -> steps b (relocate_pointers n b r base P).

Definition arrays_total (n : nat) : Prop := forall b start k e d P, 0 <= start ->
  match d with Some d' => (elem_depth d' <= n)%nat /\ ptr_array_elem_for k e = Ok (Some d')
             | None => (1 <= n)%nat end ->
  steps b (relocate_list_pointer_array n b start d P).

Definition variants_total (n : nat) : Prop := forall b start ty P,
  0 <= start -> (6 * tsize ty <= n)%nat -> steps b (relocate_variant_record n b start ty P).

Lemma pointers_step n :
  pointers_total n -> arrays_total n -> variants_total n -> pointers_total (S n).
Proof.
  intros IHr IHl IHv b s t k r base P Ht Hr Hbase Hn. cbn [relocate_pointers]. apply steps_foldM.
  intros c slot Hslot Hc.
  destruct (described_slots _ _ _ _ Ht Hr _ Hslot) as (k' & f & fo & -> & Hf & Hfo & Hd).
  destruct Hd as (Hoff & _ & Hnest & Hlist & Hvar).
  pose proof (offsets_for_nonneg _ _ Ht fo Hfo) as Hnn.
  apply reloc_depth_slot in Hslot as (Hd1 & Hd2 & Hd3).
  apply steps_bind; [auto with abi|]. intros abs [-> _]%ok_or_ok%checked_add_Some.
  destruct (past_end c _ 4) eqn:Hpe; [apply steps_err|].
  apply steps_rebase; [lia|done|]. intros c' q Hc' Hq.
  destruct (rs_variant slot) as [ty|]; [apply IHv; [apply Hq|lia]|].
  assert (steps c' (match rs_nested slot with
                    | Some nested => relocate_pointers n c' nested q P | None => Ok c' end)) as Hn'.
  { destruct (rs_nested slot) as [r'|]; [|apply steps_ok].
    apply nested_for_Some in Hnest as (s' & t' & _ & Ht' & Hr'). eapply IHr; [done|done|apply Hq|lia]. }
  destruct (rs_list_element slot) as [[? ?|?]|]; [done| |done].
  unfold list_elem_for in Hlist.
  destruct (rs_list_elem slot) as [d|]; [|eapply (IHl _ _ k' TUnit None); [apply Hq|lia]].
  destruct (field_ty f); try done. eapply IHl; [apply Hq|]. split; [lia|done].
Qed.

Lemma arrays_step n :
  pointers_total n -> arrays_total n -> variants_total n -> arrays_total (S n).
Proof.
  intros IHr IHl IHv b start k e d P Hstart Hn. cbn [relocate_list_pointer_array].
  destruct (past_end b start 4) eqn:Hpe; [apply steps_err|]. apply past_end_false in Hpe.
  apply steps_bind; [apply slice_not_abort; lia|]. intros sl _. apply steps_iterM.
  intros j c Hj Hc.
  destruct (past_end c _ 4) eqn:Hpe'; [apply steps_err|]. apply steps_rebase; [lia|done|].
  intros c' q Hc' Hq.
  destruct d as [d|]; [|apply steps_ok]. destruct Hn as [Hn Hd%descriptor_inv].
  destruct d as [|r|d'|ty]; simpl in Hn; [apply steps_ok|..].
  - destruct Hd as (k' & s & t & -> & Ht & Hr). eapply IHr; [done|done|apply Hq|lia].
  - destruct Hd as (k' & e' & -> & Hd). eapply IHl; [apply Hq|]. split; [lia|done].
  - apply IHv; [apply Hq|lia].
Qed.

Lemma variants_step n :
  pointers_total n -> arrays_total n -> variants_total n -> variants_total (S n).
Proof.
  intros IHr IHl IHv b start ty P Hstart Hn. cbn [relocate_variant_record].
  destruct (past_end b start 1) eqn:Hpe; [apply steps_err|]. apply past_end_false in Hpe.
  apply steps_bind; [apply index_not_abort; lia|]. intros tag _.
  apply steps_bind; [apply variant_selected_not_abort|]. intros sv Hsv.
  destruct (sv_payload sv) as [p|] eqn:Hp; [|apply steps_ok].
  pose proof (variant_payload_types_size _ _ (selected_payload_elem _ _ _ _ Hsv Hp)) as Hsz.
  destruct (negb _); [apply steps_ok|].
  apply steps_bind; [auto with abi|]. intros slot Hslot%ok_or_ok.
  pose proof (payload_slot_offset_nonneg _ _ _ Hstart Hslot) as Hnn.
  destruct (past_end b slot 4) eqn:Hpe'; [apply steps_err|]. apply steps_rebase; [lia|done|].
  intros c q Hc Hq.
  destruct (svp_ty p) as [| | | | |e| | | |s|] eqn:Hty; try apply steps_ok;
    try (apply IHv; [apply Hq|lia]).
  - destruct (list_payload_is_pointer_array e); [|apply steps_ok]. rewrite tsize_list in Hsz.
    destruct (proj1 (tables_total (elem_fuel e)) e) as [d He]; [unfold elem_fuel; lia|].
    rewrite He. cbn [bind]. eapply IHl; [apply Hq|]. destruct d as [d|]; [|lia]. split; [|done].
    apply tables_depth in He. lia.
  - rewrite tsize_schema in Hsz. apply steps_bind; [rewrite map_err_abort; apply offsets_for_total|].
    intros t Ht%map_err_ok.
    destruct (proj2 (tables_total (reloc_fuel (schema_fields s))) t (schema_fields s))
      as [r Hr]; [unfold reloc_fuel; lia|]. rewrite Hr. cbn [bind].
    eapply IHr; [done|done|apply Hq|]. apply (proj2 (tables_depth _) _ _ _ Ht) in Hr. lia.
Qed.

Lemma walk_total n : pointers_total n /\ arrays_total n /\ variants_total n.
Proof.
  induction n as [|n (IHr & IHl & IHv)].
  - split_and!; intros ? *; intros.
    + destruct r; simpl in *; lia.
    + destruct d as [d|]; [|lia]. destruct d; simpl in *; lia.
    + pose proof (tsize_pos ty). lia.
  - split_and!; [by apply pointers_step|by apply arrays_step|by apply variants_step].
Qed.
End Total.
