(* ===== verification/Rebase.v ===== *)
(** Relocation is sound: walking a well-formed buffer with the relocation
    tables of its schema rebases exactly the stored pointers, so the buffer
    encodes the same value relative to the paste offset. *)

From Stdlib Require Import ZArith Lia Bool.
From coqutil Require Import Byte Word.LittleEndianList.
From stdpp Require Import base list strings.
From S2P Require Import Prelude Bytes SchemaCanonical Layout LayoutFacts Value BufferTypes IndexFacts Reader ReaderFacts VerifiedRead Relocation.
From S2P Require Import Builder Encoding DecodeFacts RelocFacts.
Local Open Scope Z_scope.
Local Open Scope abi_scope.

(** ** Steps that rebase pointers *)

(** The only failure of a relocation of a well-formed buffer. *)
Definition reloc_overflow (e : string) : Prop :=
  e = "relocated pointer overflows u32"%string \/
  e = "relocated list-entry pointer overflows u32"%string \/
  e = "relocated variant payload pointer overflows u32"%string.

Definition yields (m : outcome string bytes) (Q : bytes -> Prop) : Prop :=
  match m with
  | Ok b => Q b
  | Err e => reloc_overflow e
  | Abort => True
  end.

Lemma yields_bind m k Q R :
  yields m Q -> (forall b, Q b -> yields (k b) R) -> yields (let* b := m in k b) R.
Proof. destruct m; simpl; auto. Qed.

Lemma yields_impl m (Q R : bytes -> Prop) : (forall b, Q b -> R b) -> yields m Q -> yields m R.
Proof. destruct m; simpl; auto. Qed.

(** [b'] differs from [b] at most on two spans. *)
Definition only_in (b b' : bytes) (l1 h1 l2 h2 : Z) : Prop :=
  blen b' = blen b /\
  forall i : nat, ~ (l1 <= Z.of_nat i < h1) -> ~ (l2 <= Z.of_nat i < h2) -> b !! i = b' !! i.

Lemma only_in_refl b l1 h1 l2 h2 : only_in b b l1 h1 l2 h2.
Proof. done. Qed.

Lemma only_in_same b b' l1 h1 l2 h2 lo hi :
  only_in b b' l1 h1 l2 h2 -> h1 <= lo \/ hi <= l1 -> h2 <= lo \/ hi <= l2 -> same_on b b' lo hi.
Proof. intros [_ Hs] ?? i Hi. apply Hs; lia. Qed.

Lemma only_in_sub b b' l1 h1 l2 h2 m1 k1 m2 k2 :
  only_in b b' l1 h1 l2 h2 ->
  (forall i, l1 <= i < h1 -> m1 <= i < k1 \/ m2 <= i < k2) ->
  (forall i, l2 <= i < h2 -> m1 <= i < k1 \/ m2 <= i < k2) ->
  only_in b b' m1 k1 m2 k2.
Proof.
  intros [Hl Hs] H1 H2. split; [done|]. intros i Hn1 Hn2. apply Hs; intros Hi.
  - destruct (H1 _ Hi); tauto.
  - destruct (H2 _ Hi); tauto.
Qed.

Lemma only_in_trans b c d l1 h1 l2 h2 :
  only_in b c l1 h1 l2 h2 -> only_in c d l1 h1 l2 h2 -> only_in b d l1 h1 l2 h2.
Proof.
  intros [Hl1 H1] [Hl2 H2]. split; [lia|]. intros i Hi1 Hi2. rewrite H1, H2; done.
Qed.

Section Move.
Context {H : HostTypes} (P : Z) (HP : is_u32 P).

(** [R q b] relocates the value of type [ty] behind the pointer [q]. *)
Definition moves (ty : TypeRepr) (R : Z -> bytes -> outcome string bytes) : Prop :=
  forall b q v lo hi, is_u32 q -> 0 <= lo -> hi <= blen b -> enc_at 0 b q ty v lo hi ->
  yields (R q b) (fun b' => only_in b b' lo hi lo hi /\ enc_at P b' q ty v lo hi).

(** One pointer slot and its target. *)
Lemma move_slot ty R b slot v lo hi msg :
  moves ty R -> reloc_overflow msg -> 0 <= slot -> slot + 4 <= lo \/ hi <= slot -> 0 <= lo ->
  hi <= blen b ->
  inline_type ty = false -> enc_slot 0 b slot ty v lo hi ->
  yields (let* (c, q) := rebase_u32 b slot P msg in R q c)
    (fun b' => only_in b b' slot (slot + 4) lo hi /\ enc_slot P b' slot ty v lo hi).
Proof using HP.
  intros HR Hmsg Hslot Hlo Hlo0 Hhi Hty Henc. inversion Henc; subst; [congruence|].
  rewrite !Z.add_0_l in *.
  match goal with H1 : bytes_at b slot _, H2 : enc_at _ _ _ _ _ _ _, H3 : is_u32 ?x |- _ =>
    lazymatch x with P => fail | _ => rename H1 into Hptr, H2 into Hat, H3 into Hq, x into q end end.
  unfold rebase_u32. rewrite (bytes_at_slice_pos _ _ _ 4 Hptr (blen_u32 _)) by lia. cbn [bind].
  rewrite u32_from_to by done. unfold u32_checked_add.
  destruct (q + P <=? U32_MAX) eqn:Hov; [|done]. zb. cbn [ok_or bind].
  pose proof (bytes_at_bound _ _ _ Hptr) as Hin. rewrite blen_u32 in Hin.
  destruct (@patch_in_range string b slot (u32_to_le (q + P))) as [c Hc];
    [done|rewrite blen_u32; lia|]. rewrite Hc. cbn [bind].
  pose proof (patch_length _ _ _ _ Hc) as Hlc.
  assert (only_in b c slot (slot + 4) lo hi) as Hbc.
  { split; [done|]. intros i Hi _. symmetry. eapply patch_lookup_ne; [exact Hc|].
    rewrite blen_u32. lia. }
  assert (enc_at 0 c q ty v lo hi) as Hat'.
  { eapply (enc_frame 0 b c); [lia|lia|exact Hat|].
    eapply patch_same_below; [exact Hc|]. rewrite blen_u32. lia. }
  eapply yields_impl; [|apply (HR c q v lo hi); [|lia| |exact Hat']].
  - intros b' [Hcb Henc']. pose proof Hcb as [Hlb _]. split.
    + eapply only_in_trans; [exact Hbc|]. eapply only_in_sub; [exact Hcb|auto..].
    + eapply (es_pointer _ _ _ q); [done|unfold is_u32 in *; lia|done| |done].
      rewrite Z.add_comm. eapply bytes_at_same; [by eapply bytes_at_patched| |reflexivity|].
      * eapply (only_in_same _ _ _ _ _ _ slot (slot + 4)); [exact Hcb|lia..].
      * rewrite blen_u32. lia.
  - done.
  - lia.
Qed.

(** ** Leaves *)

Lemma next_multiple_shift a k r :
  0 < k -> P mod k = 0 -> checked_next_multiple_of a k = Some r -> P + r <= USIZE_MAX ->
  checked_next_multiple_of (P + a) k = Some (P + r).
Proof.
  intros Hk Hm. unfold checked_next_multiple_of. destruct (k =? 0) eqn:?; [done|].
  rewrite Z.add_mod, Hm, Z.add_0_l, Z.mod_mod by lia.
  destruct (a mod k =? 0); [by intros [= ->]|]. intros [-> _]%checked_add_Some Hle.
  apply checked_add_Some. lia.
Qed.

Lemma variant_slot_shift p ty slot :
  P mod snd (payload_slot_layout_runtime ty) = 0 ->
  variant_payload_slot_offset p ty = Some slot -> P + slot <= USIZE_MAX ->
  variant_payload_slot_offset (P + p) ty = Some (P + slot).
Proof.
  unfold variant_payload_slot_offset. pose proof (payload_align_abi ty) as Hal.
  destruct (payload_slot_layout_runtime ty) as [sz al]. simpl in *.
  intros Hm. destruct (checked_add p 1) as [raw|] eqn:Hr; [|done].
  apply checked_add_Some in Hr as [-> _]. intros Ho Hle.
  destruct (al <=? 1) eqn:Ha; zb.
  - injection Ho as <-. rewrite checked_add_small by lia. simpl. f_equal. lia.
  - assert (p + 1 <= slot).
    { unfold checked_next_multiple_of in Ho. destruct (al =? 0); [done|].
      pose proof (Z.mod_pos_bound (p + 1) al). destruct (_ =? 0); [injection Ho; lia|].
      apply checked_add_Some in Ho. lia. }
    rewrite checked_add_small by lia.
    replace (P + p + 1) with (P + (p + 1)) by lia. apply next_multiple_shift; [lia|done|done|done].
Qed.

Lemma variant_slot_near p ty slot :
  0 <= p -> variant_payload_slot_offset p ty = Some slot -> slot <= p + 8.
Proof.
  unfold variant_payload_slot_offset. pose proof (payload_align_abi ty) as Hal%abi_align_pos.
  destruct (payload_slot_layout_runtime ty) as [sz al]. simpl in *. intros Hp.
  destruct (checked_add p 1) as [raw|] eqn:Hr; [|done]. apply checked_add_Some in Hr as [-> _].
  destruct (al <=? 1); [intros [= <-]; lia|].
  intros Hn%checked_next_multiple_of_Some; lia.
Qed.

Lemma moves_string : moves TString (fun _ b => Ok b).
Proof.
  intros b q v lo hi Hb Hlo Hhi Henc. simpl. split; [done|].
  inversion Henc; subst; try done. by apply ea_string.
Qed.

Lemma moves_scalars c :
  is_scalar c = true -> aligned_for P (TList c) -> moves (TList c) (fun _ b => Ok b).
Proof using HP.
  intros Hc Hal b q v lo hi Hb Hlo Hhi Henc. simpl. split; [done|].
  inversion Henc; subst; try done; [|by destruct c]. rewrite !Z.add_0_l in *.
  eapply ea_scalars; try done.
  match goal with Hs : scalar_elem c = Some (size, align), Hp : payload_start _ _ = _ |- _ =>
    rename Hs into Hsc; rename Hp into Hst end.
  unfold payload_start in *. destruct (1 <? align) eqn:Ha.
  - rewrite <-Z.add_assoc. apply next_multiple_shift; [zb; lia| |done|].
    + unfold aligned_for in Hal. destruct c; try discriminate Hc; simpl in *; injection Hsc as <- <-; done.
    + zb. apply checked_next_multiple_of_Some in Hst; [|unfold is_u32 in *; lia..].
      assert (align <= 8) by (destruct c; try discriminate Hc; simpl in Hsc; injection Hsc; lia).
      unfold is_u32, U32_MAX, USIZE_MAX in *. lia.
  - injection Hst as <-. f_equal. lia.
Qed.
(** ** Pointer arrays *)

Lemma past_end_in b off n :
  off + n <= 2 ^ 63 + 2 ^ 40 -> off + n <= blen b -> past_end b off n = false.
Proof. intros ? Hl. apply past_end_false. unfold USIZE_MAX in *. lia. Qed.

Lemma move_entries e R start err vs :
  moves e R -> inline_type e = false -> is_u32 start ->
  forall i b lo hi, 0 <= i -> i + blen vs <= U32_MAX ->
  enc_entries 0 b (start + 4 + i * 4) e vs lo hi ->
  start + 4 + i * 4 + 4 * blen vs <= lo \/ hi <= start + 4 + i * 4 -> 0 <= lo ->
  start + 4 + i * 4 + 4 * blen vs <= blen b -> hi <= blen b ->
  yields (iterM (fun i b =>
      if past_end b (start + 4 + i * 4) 4 then Err err else
      let* (c, q) := rebase_u32 b (start + 4 + i * 4) P
                       "relocated list-entry pointer overflows u32" in R q c)
    i (length vs) b)
    (fun b' => only_in b b' (start + 4 + i * 4) (start + 4 + i * 4 + 4 * blen vs) lo hi /\
               enc_entries P b' (start + 4 + i * 4) e vs lo hi).
Proof using HP.
  intros HR He Hstart. induction vs as [|v vs IH]; intros i b lo hi Hi Hcnt Henc Hlo Hlo0 Hend Hhi.
  { inversion Henc; subst. split; [done|by apply ee_nil]. }
  assert (0 <= start) by apply Hstart.
  rewrite blen_cons in *. pose proof (blen_nonneg vs). cbn [length iterM].
  set (pos := start + 4 + i * 4) in *.
  assert (pos + 4 = start + 4 + (i + 1) * 4) as Hpos by (unfold pos; lia).
  inversion Henc as [|? ? ? ? ? mid ? Hs Hent]; subst.
  pose proof (enc_slot_le 0 b _ _ _ _ _ ltac:(lia) Hs).
  pose proof (enc_entries_le 0 b _ _ _ _ _ ltac:(lia) Hent).
  rewrite past_end_in by (unfold is_u32, U32_MAX in *; lia).
  apply yields_bind with (Q := fun c => only_in b c pos (pos + 4) lo mid /\ enc_slot P c pos e v lo mid).
  { apply (move_slot _ _ _ _ _ _ _ _ HR); try done; [by right; left|lia..]. }
  intros c [Hbc Hs']. pose proof Hbc as [Hlc _].
  assert (enc_entries 0 c (pos + 4) e vs mid hi) as Hent'.
  { eapply (enc_frame 0 b c); [lia|lia|exact Hent|done|eapply only_in_same; [exact Hbc|lia..]..]. }
  rewrite Hpos in Hent'.
  eapply yields_impl; [|apply (IH (i + 1) c mid hi);
    [lia|lia|exact Hent'|lia|lia|lia|lia]].
  rewrite <-Hpos. intros b' [Hcb Hent'']. pose proof Hcb as [Hlb _]. split.
  - eapply only_in_trans; eapply only_in_sub; [exact Hbc|lia|lia|exact Hcb|lia|lia].
  - eapply ee_cons; [|exact Hent''].
    eapply (enc_frame P c b'); [apply HP|lia|exact Hs'|eapply only_in_same; [exact Hcb|lia..]|].
    assert (slot_size e = 4) as -> by (by destruct e).
    eapply only_in_same; [exact Hcb|lia..].
Qed.

(** The relocation of one entry, by its descriptor. *)
Definition move_entry (n : nat) (d : option PtrArrayElem) (q : Z) (b : bytes)
    : outcome string bytes :=
  match d with
  | Some (PSchema r) => relocate_pointers n b r q P
  | Some (PInnerList inner) => relocate_list_pointer_array n b q (Some inner) P
  | Some (PVariant ty) => relocate_variant_record n b q ty P
  | Some PString | None => Ok b
  end.

Lemma move_pointer_array n e d :
  moves e (move_entry n d) -> list_payload_is_pointer_array e = true ->
  moves (TList e) (fun q b => relocate_list_pointer_array (S n) b q d P).
Proof using HP.
  intros HR He b q v lo hi Hb Hlo Hhi Henc.
  inversion Henc; subst; try done; [by destruct e|].
  match goal with H1 : enc_entries _ _ _ _ _ _ _, H2 : bytes_at b q _, H3 : lo <= q |- _ =>
    rename H1 into Hent, H2 into Hhead, H3 into Hq end.
  pose proof (enc_entries_le 0 b _ _ _ _ _ ltac:(lia) Hent). pose proof (blen_nonneg items).
  cbn [relocate_list_pointer_array].
  rewrite past_end_in by (unfold is_u32, U32_MAX in *; lia).
  rewrite (bytes_at_slice_pos _ _ _ 4 Hhead (blen_u32 _)) by lia. cbn [bind].
  rewrite u32_from_to by (by unfold is_u32).
  replace (Z.to_nat (blen items)) with (length items) by (unfold blen; lia).
  assert (q + 4 + 0 * 4 = q + 4) as Hpos by lia. rewrite <-Hpos in Hent at 1.
  eapply yields_impl; [|apply (move_entries e (move_entry n d) q _ items HR); try done;
    [by destruct e|lia..]].
  rewrite Hpos. intros b' [Hbb Hent']. split.
  - eapply only_in_sub; [exact Hbb|lia|lia].
  - eapply ea_list with (lo' := lo') (hi' := hi'); try done. eapply bytes_at_same; [exact Hhead| |reflexivity|reflexivity].
    rewrite blen_u32. eapply only_in_same; [exact Hbb|lia..].
Qed.
(** ** Records *)

(** With distinct names, field [i] is found at slot [i]. *)
Lemma field_slots s t :
  offsets_for s = Ok t -> distinct_names (TSchema s) = true ->
  Forall2 (fun f fo => find_offset t (field_name f) = Some fo /\
             find_field (fo_name fo) (schema_fields s) = Some f /\ slot_typed (field_ty f) fo)
          (schema_fields s) (ot_fields t).
Proof.
  intros Ht Hd. destruct (offsets_for_typed _ _ Ht) as [_ Hall].
  apply Forall2_same_length_lookup. split; [by eapply Forall2_length|].
  intros i f fo Hf Hfo. destruct (Forall2_lookup_lr _ _ _ _ _ _ Hall Hf Hfo) as [Hn Hty].
  pose proof (find_field_schema s f Hd (list_elem_of_lookup_2 _ _ _ Hf)) as Hff.
  rewrite Hn. split_and!; [|done|done].
  pose proof (find_Forall2 _ (fun g => bool_decide (field_name g = field_name f))
    (fun g => bool_decide (fo_name g = field_name f)) _ _ Hall) as Hfind.
  unfold find_field in Hff. rewrite Hff in Hfind. unfold find_offset.
  destruct (List.find _ (ot_fields t)) as [fo'|]; [|by exfalso; apply Hfind; intros ? ? [-> _]].
  destruct Hfind as (_ & j & Hj & Hfo'); [by intros ? ? [-> _]|].
  simpl in Hd. apply andb_true_iff in Hd as [Hd%bool_decide_eq_true _].
  assert (i = j) as ->; [|congruence].
  eapply NoDup_lookup; [exact Hd| |]; rewrite list_lookup_fmap; [by rewrite Hf|by rewrite Hj].
Qed.

(** The fields of a record against the slots of its relocation table, in
    layout order; [start] bounds the remaining slots from below. *)
Inductive slots_for (k : nat) (t : OffsetTable)
    : Z -> list Field -> list (reloc_slot_of RelocLayout PtrArrayElem) -> Prop :=
| sf_nil start : slots_for k t start [] []
| sf_inline start f fo fs slots :
    find_offset t (field_name f) = Some fo -> slot_typed (field_ty f) fo ->
    inline_type (field_ty f) = true -> start <= fo_offset fo ->
    slots_for k t (fo_end fo) fs slots -> slots_for k t start (f :: fs) slots
| sf_pointer start f fo slot fs slots :
    find_offset t (field_name f) = Some fo -> slot_typed (field_ty f) fo ->
    inline_type (field_ty f) = false -> start <= fo_offset fo ->
    describes k (field_ty f) fo slot ->
    slots_for k t (fo_end fo) fs slots -> slots_for k t start (f :: fs) (slot :: slots).

Lemma slots_for_start k t start fs slots :
  slots_for k t start fs slots ->
  forall f fo, f ∈ fs -> find_offset t (field_name f) = Some fo -> start <= fo_offset fo.
Proof.
  induction 1 as [start|start g go fs slots Hgo Hty _ Hst _ IH
    |start g go slot fs slots Hgo Hty _ Hst _ _ IH]; intros f fo Hf Hfo; [by apply elem_of_nil in Hf|..].
  all: apply elem_of_cons in Hf as [->|Hf]; [congruence|].
  all: specialize (IH f fo Hf Hfo); unfold fo_end in IH; rewrite (st_size _ _ Hty) in IH.
  all: pose proof (slot_size_bounds (field_ty g)); lia.
Qed.

Lemma slots_for_fields k t all fs fos slots : forall start,
  Forall2 (fun f fo => find_offset t (field_name f) = Some fo /\
             find_field (fo_name fo) all = Some f /\ slot_typed (field_ty f) fo) fs fos ->
  (forall i j a b, (i < j)%nat -> fos !! i = Some a -> fos !! j = Some b -> fo_end a <= fo_offset b) ->
  (forall fo, fo ∈ fos -> start <= fo_offset fo) ->
  Forall2 (fun fo slot => forall f, find_field (fo_name fo) all = Some f ->
             describes k (field_ty f) fo slot)
          (filter (fun fo => is_pointer_indirect (fo_kind fo) = true) fos) slots ->
  slots_for k t start fs slots.
Proof.
  revert fs slots. induction fos as [|fo fos IH]; intros fs slots start Hall Hord Hstart Hslots.
  { inversion Hall; subst. inversion Hslots; subst. constructor. }
  inversion Hall as [|f fo' fs' fos' (Hfo & Hf & Hty) Hall']; subst.
  assert (forall slots', Forall2 (fun fo slot => forall f, find_field (fo_name fo) all = Some f ->
             describes k (field_ty f) fo slot)
          (filter (fun fo => is_pointer_indirect (fo_kind fo) = true) fos) slots' ->
          slots_for k t (fo_end fo) fs' slots') as Hrest.
  { intros slots' Hs'. apply IH; [done| | |done].
    - intros i j a c Hij Ha Hc. by apply (Hord (S i) (S j)); [lia|..].
    - intros g (j & Hj)%list_elem_of_lookup_1. by apply (Hord 0%nat (S j)); [lia|..]. }
  assert (start <= fo_offset fo) by (apply Hstart; left).
  rewrite filter_cons in Hslots. pose proof (st_kind _ _ Hty) as Hk.
  destruct (decide (is_pointer_indirect (fo_kind fo) = true)) as [Hp|Hp].
  - inversion Hslots as [|? slot ? slots' Hd Hs']; subst.
    eapply sf_pointer; try done; [|by apply Hd|by apply Hrest].
    rewrite Hp in Hk. by destruct (inline_type (field_ty f)).
  - eapply sf_inline; try done; [|by apply Hrest].
    destruct (inline_type (field_ty f)); [done|]. by rewrite Hk in Hp.
Qed.

Lemma record_slots_for s t k r :
  offsets_for s = Ok t -> distinct_names (TSchema s) = true ->
  reloc_build k t (schema_fields s) = Ok r ->
  exists k', k = S k' /\ slots_for k' t 0 (schema_fields s) (reloc_slots r).
Proof.
  intros Ht Hd (k' & -> & Hs)%reloc_build_slots. exists k'. split; [done|].
  destruct (offsets_for_typed _ _ Ht) as [Hsound _].
  eapply slots_for_fields; [by apply field_slots|by apply (ts_ordered t Hsound)| |exact Hs].
  intros fo Hfo. by apply (ts_slot t Hsound) in Hfo as (_ & _ & _ & _ & ? & _).
Qed.

Definition move_target (n : nat) (slot : reloc_slot_of RelocLayout PtrArrayElem) (q : Z)
    (b : bytes) : outcome string bytes :=
  match rs_variant slot with
  | Some variant_ty => relocate_variant_record n b q variant_ty P
  | None =>
      match rs_list_element slot with
      | Some (PointerArray _) => relocate_list_pointer_array n b q (rs_list_elem slot) P
      | Some (InlineFixed _ _) | None =>
          match rs_nested slot with
          | Some nested => relocate_pointers n b nested q P
          | None => Ok b
          end
      end
  end.

Lemma move_fields n k s t p start fs slots :
  offsets_for s = Ok t -> root_size t <= 2 ^ 63 + 8 -> is_u32 p -> 0 <= start ->
  slots_for k t start fs slots ->
  (forall f fo slot, f ∈ fs -> inline_type (field_ty f) = false -> slot_typed (field_ty f) fo ->
     describes k (field_ty f) fo slot -> moves (field_ty f) (move_target n slot)) ->
  forall b vs lo hi, p + root_size t <= lo -> hi <= blen b ->
  enc_fields 0 b p t fs vs lo hi ->
  yields (foldM (fun b slot =>
      let* slot_abs := ok_or (checked_add p (rs_offset slot)) "pointer slot offset overflows usize"%string in
      if past_end b slot_abs 4 then Err "pointer slot exceeds buffer end"%string else
      let* (c, q) := rebase_u32 b slot_abs P "relocated pointer overflows u32" in
      move_target n slot q c) b slots)
    (fun b' => only_in b b' (p + start) (p + root_size t) lo hi /\ enc_fields P b' p t fs vs lo hi).
Proof using HP.
  intros Ht Hsm Hp Hst Hsl. assert (0 <= p) by apply Hp. induction Hsl as [start|start f fo fs slots Hfo Hty Hin Hstart Hsl IH
    |start f fo slot fs slots Hfo Hty Hin Hstart Hd Hsl IH]; intros HR b vs lo hi Hlo Hhi Henc.
  { inversion Henc; subst. split; [done|by apply ef_nil]. }
  all: inversion Henc as [|? ? ? ? fo' v vs' ? mid ? Hfo' Hsz Hs Hf]; subst.
  all: assert (fo' = fo) as -> by congruence.
  all: destruct (find_offset_bounds _ _ _ _ Ht Hfo) as [Hoff Hend].
  all: pose proof (slot_size_bounds (field_ty f)).
  all: pose proof (enc_slot_le 0 b _ _ _ _ _ ltac:(lia) Hs).
  all: pose proof (enc_fields_le 0 b _ _ _ _ _ _ ltac:(lia) Hf).
  all: unfold fo_end in *.
  all: specialize (IH ltac:(lia) (fun g go sl Hg => HR g go sl (list_elem_of_further _ _ _ Hg))).
  - inversion Hs as [? ? ? ? ? _ Hsc Hle|]; subst; [|congruence].
    eapply yields_impl; [|apply (IH b vs' mid hi); [lia|done|done]].
    intros b' [Hbb Hf']. split; [eapply only_in_sub; [exact Hbb|lia..]|].
    eapply ef_cons; [done|done| |exact Hf']. apply es_inline; [done| |done].
    eapply scalar_at_same; [exact Hsc|]. eapply only_in_same; [exact Hbb|lia..].
  - destruct Hd as (Hro & Hrl & Hrn & Hre & Hrv) eqn:HD. clear HD. cbn [foldM]. rewrite Hro.
    rewrite checked_add_small by (unfold is_u32, U32_MAX, USIZE_MAX in *; lia). cbn [ok_or bind].
    assert (slot_size (field_ty f) = 4) as Hs4 by (destruct (field_ty f); done).
    rewrite past_end_in by (unfold is_u32, U32_MAX in *; lia).
    apply yields_bind with (Q := fun c =>
      only_in b c (p + fo_offset fo) (p + fo_offset fo + 4) lo mid /\
      enc_slot P c (p + fo_offset fo) (field_ty f) v lo mid).
    { eapply (move_slot (field_ty f)); try done; try lia; [|by left].
      eapply HR; try done. left. }
    intros c [Hbc Hs']. pose proof Hbc as [Hlc _].
    assert (enc_fields 0 c p t fs vs' mid hi) as Hf'.
    { eapply (enc_frame 0 b c); [lia|lia|exact Hf|eapply only_in_same; [exact Hbc|lia..]|].
      intros g go Hg Hgo. pose proof (slots_for_start _ _ _ _ _ Hsl _ _ Hg Hgo).
      unfold fo_end in *. eapply only_in_same; [exact Hbc|lia|].
      destruct (find_offset_bounds _ _ _ _ Ht Hgo). lia. }
    eapply yields_impl; [|apply (IH c vs' mid hi); [lia|lia|exact Hf']].
    intros b' [Hcb Hf'']. pose proof Hcb as [Hlb _]. split.
    + eapply only_in_trans; [eapply only_in_sub; [exact Hbc|lia..]|].
      eapply only_in_sub; [exact Hcb|lia..].
    + eapply ef_cons; [done|done| |exact Hf''].
      eapply (enc_frame P c b'); [apply HP|lia|exact Hs'|eapply only_in_same; [exact Hcb|lia..]..].
Qed.

(** ** Variant records *)

Definition move_payload (n : nat) (payload_ty : TypeRepr) (q : Z) (b : bytes)
    : outcome string bytes :=
  match payload_ty with
  | TString => Ok b
  | TSchema schema =>
      let* layout := map_err (fun _ => "variant schema payload is not layoutable"%string)
                             (offsets_for schema) in
      let* reloc :=
        match reloc_build (reloc_fuel (schema_fields schema)) layout (schema_fields schema) with
        | Ok r => Ok r
        | _ => Abort
        end in
      relocate_pointers n b reloc q P
  | TList element =>
      if list_payload_is_pointer_array element then
        let* elem := match ptr_array_elem_for (elem_fuel element) element with
                     | Ok e => Ok e
                     | _ => Abort
                     end in
        relocate_list_pointer_array n b q elem P
      else Ok b
  | TOption _ | TResult _ _ | TEnum _ _ => relocate_variant_record n b q payload_ty P
  | _ => Ok b
  end.

Lemma move_variant n ty :
  is_variant_type ty = true -> movable P ty ->
  (forall p, p ∈ variant_payload_types ty -> list_payload_is_pointer_array p = true ->
     moves p (move_payload n p)) ->
  moves ty (fun q b => relocate_variant_record (S n) b q ty P).
Proof using HP.
  intros Hty Hmv HR b q v lo hi Hb Hlo Hhi Henc. cbn [relocate_variant_record].
  inversion Henc as [| | | |? ? tag sv ? ? ? Ht Hsv Hpl Hq Htag Hend Hdec
    |? ? tag sv pl slot w ? ? lo' ? Ht Hsv Hpl Hq Htag Hoff Hslot Hs Hdec]; subst; try done.
  - rewrite past_end_in by (unfold is_u32, U32_MAX in *; lia). rewrite (index_at _ _ _ Htag). unfold byte_of_u8.
    rewrite byte.unsigned_of_Z. unfold byte.wrap. rewrite Z.mod_small by done. cbn [bind].
    rewrite Hsv. cbn [bind]. rewrite Hpl. split; [done|]. by eapply ea_unit_variant.
  - pose proof (selected_payload_elem _ _ _ _ Hsv Hpl) as Hin.
    destruct (aligned_payload _ _ _ (mv_align _ _ Hmv) Hin) as [_ Hal].
    pose proof (enc_slot_le 0 b _ _ _ _ _ ltac:(lia) Hs).
    pose proof (slot_size_bounds (svp_ty pl)).
    pose proof (variant_slot_after 0 q _ _ ltac:(destruct Htag; lia) Hoff).
    rewrite !Z.add_0_l in Hoff.
    pose proof (variant_slot_near q _ _ ltac:(destruct Htag; lia) Hoff).
    assert (variant_payload_slot_offset (P + q) (svp_ty pl) = Some (P + slot)) as Hoff'.
    { apply variant_slot_shift; [done|done|].
      unfold is_u32, U32_MAX, USIZE_MAX in *. lia. }
    rewrite past_end_in by (unfold is_u32, U32_MAX in *; lia). rewrite (index_at _ _ _ Htag). unfold byte_of_u8.
    rewrite byte.unsigned_of_Z. unfold byte.wrap. rewrite Z.mod_small by done. cbn [bind].
    rewrite Hsv. cbn [bind]. rewrite Hpl.
    destruct (list_payload_is_pointer_array (svp_ty pl)) eqn:Hptr; cbn [negb].
    + rewrite Hoff. cbn [ok_or bind]. assert (slot_size (svp_ty pl) = 4) by (by destruct (svp_ty pl)).
      rewrite past_end_in by (unfold is_u32, U32_MAX in *; lia).
      eapply yields_impl; [|apply (move_slot (svp_ty pl) (move_payload n (svp_ty pl)) b slot w lo' hi _ (HR _ Hin Hptr));
        [by right; right|lia|lia|lia|lia|by destruct (svp_ty pl)|exact Hs]].
      intros b' [Hbb Hs']. split; [eapply only_in_sub; [exact Hbb|lia..]|].
      eapply ea_variant; [done|done|done|done| |done|done|exact Hs'|done].
      eapply bytes_at_same; [exact Htag| |reflexivity|reflexivity].
      unfold blen; simpl. eapply only_in_same; [exact Hbb|lia..].
    + inversion Hs as [? ? ? ? ? Hi Hsc Hle|? ? ? ? ? ? Hi _ _ _ Hat]; subst.
      * split; [done|]. eapply ea_variant; [done|done|done|done|done|done|done| |done].
        by apply es_inline.
      * exfalso. destruct (svp_ty pl); try done. inversion Hat; subst; done.
Qed.

(** ** The walk *)

Lemma moves_ext ty R R' : (forall q b, R q b = R' q b) -> moves ty R -> moves ty R'.
Proof. intros Heq HR b q v lo hi ? ? ? ?. rewrite <-Heq. by apply HR. Qed.

Lemma moves_abort ty : moves ty (fun _ _ => Abort).
Proof. by intros b q v lo hi ? ? ? ?. Qed.

(** A described slot moves the value of its field. *)
Lemma described_moves n k ty fo slot :
  (forall s t k r, offsets_for s = Ok t -> reloc_build k t (schema_fields s) = Ok r ->
     movable P (TSchema s) -> moves (TSchema s) (fun q b => relocate_pointers n b r q P)) ->
  (forall e d k, ptr_array_elem_for k e = Ok d -> list_payload_is_pointer_array e = true ->
     movable P (TList e) -> moves (TList e) (fun q b => relocate_list_pointer_array n b q d P)) ->
  (forall ty, is_variant_type ty = true -> movable P ty ->
     moves ty (fun q b => relocate_variant_record n b q ty P)) ->
  movable P ty -> inline_type ty = false -> slot_typed ty fo -> describes k ty fo slot ->
  moves ty (move_target n slot).
Proof using HP.
  intros IHr IHl IHv Hmv Hi Hty (_ & Hl & Hnest & Hlist & Hvar). unfold move_target.
  rewrite Hvar, Hl. pose proof (st_other _ _ Hty) as Hno.
  destruct ty as [| | | | |e| | | |s|]; try discriminate Hi; cbn [is_variant_type].
  - rewrite Hno by done. injection Hnest as <-. apply moves_string.
  - destruct (st_list _ _ Hty e eq_refl) as (lk & -> & Hside & _).
    destruct (list_payload_is_pointer_array e) eqn:He.
    + assert (exists a, lk = PointerArray a) as [a ->] by (by destruct e). by eapply IHl.
    + assert (is_scalar e = true) as Hsc by (by destruct e).
      assert (exists x y, lk = InlineFixed x y) as (x & y & ->)
        by (destruct e; try discriminate Hsc; rewrite Hside; eauto).
      destruct e; try discriminate Hsc; injection Hnest as <-; (apply moves_scalars; [done|apply Hmv]).
  - by apply IHv.
  - by apply IHv.
  - by apply IHv.
  - rewrite Hno by done. destruct (offsets_for_complete s (proj2 (mv_wf _ _ Hmv))) as [t Ht].
    cbn [nested_for] in Hnest. unfold with_layout in Hnest. rewrite Ht in Hnest.
    apply map_ok_ok in Hnest as (r & Hr & ->). by eapply IHr.
  - destruct (mv_wf _ _ Hmv) as [_ [Hlay _]]. done.
Qed.

Lemma relocation_walk n :
  (forall s t k r, offsets_for s = Ok t -> reloc_build k t (schema_fields s) = Ok r ->
     movable P (TSchema s) -> moves (TSchema s) (fun q b => relocate_pointers n b r q P)) /\
  (forall e d k, ptr_array_elem_for k e = Ok d -> list_payload_is_pointer_array e = true ->
     movable P (TList e) -> moves (TList e) (fun q b => relocate_list_pointer_array n b q d P)) /\
  (forall ty, is_variant_type ty = true -> movable P ty ->
     moves ty (fun q b => relocate_variant_record n b q ty P)).
Proof using HP.
  induction n as [|n (IHr & IHl & IHv)].
  { split_and!; intros; apply moves_abort. }
  split_and!.
  - intros s t k r Ht Hr Hmv b q v lo hi Hb Hlo Hhi Henc.
    inversion Henc as [| | |? ? t' vals ? lo' ? Ht' Hq Hroot Hbl Hf| |]; subst; try done.
    assert (t' = t) as -> by congruence. pose proof (enc_fields_le 0 b _ _ _ _ _ _ ltac:(lia) Hf).
    pose proof (ts_size t (offsets_for_fuel_sound _ _ _ Ht)).
    destruct (record_slots_for _ _ _ _ Ht (proj1 (mv_wf _ _ Hmv)) Hr) as (k' & -> & Hsl).
    cbn [relocate_pointers].
    eapply yields_impl; [|eapply (move_fields n k' s t q 0 _ _ Ht); [|done|lia|exact Hsl| |
      exact Hroot|exact Hhi|exact Hf]].
    + intros b' [Hbb Hf']. split; [eapply only_in_sub; [exact Hbb|lia..]|].
      eapply ea_record; [done|done|exact Hroot| |done]. destruct Hbb as [-> _]. done.
    + eapply root_size_small; [done|]. apply (mv_wf _ _ Hmv).
    + intros f fo slot Hin Hi Hty Hd. eapply described_moves; try done. by eapply movable_field.
  - intros e d k Hd He Hmv. apply move_pointer_array; [|done].
    pose proof (movable_list _ _ Hmv He) as Hmv'.
    destruct d as [d|]; cycle 1.
    { destruct (no_descriptor k e Hd (proj2 (mv_wf _ _ Hmv)) (mv_reloc _ _ Hmv) He) as (c & -> & Hc).
      apply moves_scalars; [done|]. apply Hmv'. }
    apply descriptor_inv in Hd. destruct d as [|r|d'|ty].
    + subst. apply moves_string.
    + destruct Hd as (k' & s & t & -> & Ht & Hr). by eapply IHr.
    + destruct Hd as (k' & e' & -> & Hd). eapply IHl; [done| |done].
      destruct k' as [|k']; [done|]. by destruct e'.
    + destruct Hd as [-> Hty]. by apply IHv.
  - intros ty Hty Hmv. apply move_variant; [done|done|]. intros p Hp Hptr.
    pose proof (movable_payload _ _ _ Hmv Hp) as Hmvp.
    destruct p as [| | | | |e| | | |s|]; try discriminate Hptr; try (by apply IHv).
    + apply moves_string.
    + destruct (list_payload_is_pointer_array e) eqn:He.
      * destruct (proj1 (tables_total (elem_fuel e)) e) as [d Hd]; [unfold elem_fuel; lia|].
        eapply moves_ext; [intros q b; cbn [move_payload]; rewrite He, Hd; reflexivity|].
        by eapply IHl.
      * eapply moves_ext; [intros q b; cbn [move_payload]; rewrite He; reflexivity|].
        apply moves_scalars; [|apply Hmvp]. destruct (mv_wf _ _ Hmvp) as [_ [Hl _]]. by destruct e.
    + destruct (offsets_for_complete s (proj2 (mv_wf _ _ Hmvp))) as [t Ht].
      destruct (proj2 (tables_total (reloc_fuel (schema_fields s))) t (schema_fields s))
        as [r Hr]; [unfold reloc_fuel; lia|].
      eapply moves_ext; [intros q b; cbn [move_payload]; rewrite Ht; cbn [map_err bind];
        rewrite Hr; reflexivity|].
      by eapply IHr.
Qed.
End Move.

(** Relocation as a whole: rebasing the pointers of a finished record never
    panics on any bytes, and on an encoded record it produces the encoding of
    the same value at the new base. *)

Section Properties.
Context {H : HostTypes}.

(** Relocation is total: for the table of a laid-out schema,
    [relocate_pointers] at any record base and paste base returns bytes of
    the same length or an error on arbitrary input bytes; it never indexes out
    of range, overflows or runs out of recursion depth. *)
Theorem relocate_total s t k r b base paste :
  offsets_for s = Ok t -> reloc_build k t (schema_fields s) = Ok r -> 0 <= base ->
  match relocate b r base paste with
  | Ok b' => blen b' = blen b
  | Err _ => True
  | Abort => False
  end.
Proof.
  intros Ht Hr Hbase. unfold relocate.
  pose proof (proj1 (walk_total (reloc_depth r)) b s t k r base paste Ht Hr Hbase (le_n _)) as [Hna Hlen].
  destruct (relocate_pointers _ _ _ _ _) as [b'| |]; [by apply Hlen|done|done].
Qed.

(** C13 Relocation is sound for relocatable types: if a record at offset [q] of a buffer encodes
    a value, its schema is well formed and has no list nested three deep over scalars or the
    like ([relocatable], without which inner pointers keep their old targets), and the paste
    base is aligned for the type, then after relocation the buffer, pasted at that base of any
    arena, still decodes to this value there; nothing outside the record's own range is changed,
    and the only errors are pointers that would leave the 32-bit range. *)
Theorem relocate_sound s t k r b q v lo hi paste :
  offsets_for s = Ok t -> reloc_build k t (schema_fields s) = Ok r ->
  movable paste (TSchema s) -> is_u32 paste -> is_u32 q -> 0 <= lo -> hi <= blen b ->
  enc_at 0 b q (TSchema s) v lo hi ->
  match relocate b r q paste with
  | Ok b' =>
      (forall i : nat, ~ lo <= Z.of_nat i < hi -> b !! i = b' !! i) /\
      forall pre suf, blen pre = paste -> is_slice (pre ++ b' ++ suf) ->
        read_record_at (read_fuel (TSchema s)) (pre ++ b' ++ suf) (paste + q) t s = Ok v
  | Err e => reloc_overflow e
  | Abort => False
  end.
Proof.
  intros Ht Hr Hmv HP Hq Hlo Hhi Henc. unfold relocate.
  pose proof (proj1 (walk_total (reloc_depth r)) b s t k r q paste Ht Hr ltac:(apply Hq) (le_n _)) as [Hna _].
  pose proof (proj1 (relocation_walk paste HP (reloc_depth r)) s t k r Ht Hr Hmv b q v lo hi Hq Hlo Hhi Henc)
    as Hmove. cbv beta in Hmove.
  destruct (relocate_pointers _ _ _ _ _) as [b'| |]; [|done|done].
  destruct Hmove as [[Hlen Honly] Hb']. split; [intros i Hi; by apply Honly|].
  intros pre suf <- Hsl. apply (enc_shift pre b' suf (blen pre) eq_refl) in Hb'.
  eapply decode_walk; try done.
  - apply (mv_wf _ _ Hmv).
  - rewrite !blen_app, Hlen. pose proof (blen_nonneg suf). lia.
  - unfold read_fuel. rewrite tsize_schema. lia.
Qed.
End Properties.

(** ** Witnesses *)

#[local] Existing Instance unit_host.

Definition person_reloc : RelocLayout :=
  match reloc_build (reloc_fuel (schema_fields person)) person_table (schema_fields person) with
  | Ok r => r
  | _ => MkReloc []
  end.

Lemma relocate_total_witness :
  match relocate [] person_reloc 8 64 with
  | Ok b' => blen b' = 0
  | Err _ => True
  | Abort => False
  end.
Proof.
  apply (relocate_total person person_table (reloc_fuel (schema_fields person)) person_reloc [] 8 64);
    [vm_compute; reflexivity|vm_compute; reflexivity|lia].
Defined.

Lemma person_movable : movable 64 (TSchema person).
Proof. split; [apply person_wf|vm_compute; reflexivity|vm_compute; reflexivity]. Qed.

Lemma person_encoded :
  enc_at 0 person_bytes 0 (TSchema person) (mk_record person [VInt 7; VString "hi"]) 0 22.
Proof.
  eapply (ea_record 0 person_bytes 0 person person_table [VInt 7; VString "hi"] 0 16 22);
    [vm_compute; reflexivity|lia|vm_compute; congruence|vm_compute; congruence|].
  eapply ef_cons; [vm_compute; reflexivity|reflexivity| |].
  - apply (es_inline 0 person_bytes _ TInt (VInt 7) 16 16); [reflexivity| |lia].
    split; [vm_compute; split; congruence|]. bytes_literal.
  - eapply ef_cons; [vm_compute; reflexivity|reflexivity| |apply ef_nil; reflexivity].
    apply (es_pointer 0 person_bytes _ 16 TString (VString "hi") 16 22);
      [reflexivity|split; vm_compute; congruence|lia| |].
    + bytes_literal.
    + apply ea_string; [vm_compute; reflexivity|vm_compute; congruence|lia| |vm_compute; congruence].
      bytes_literal.
Qed.

Lemma relocate_sound_witness :
  match relocate person_bytes person_reloc 0 64 with
  | Ok b' =>
      (forall i : nat, ~ 0 <= Z.of_nat i < 22 -> person_bytes !! i = b' !! i) /\
      forall pre suf, blen pre = 64 -> is_slice (pre ++ b' ++ suf) ->
        read_record_at (read_fuel (TSchema person)) (pre ++ b' ++ suf) (64 + 0) person_table person
        = Ok (mk_record person [VInt 7; VString "hi"])
  | Err e => reloc_overflow e
  | Abort => False
  end.
Proof.
  apply (relocate_sound person person_table (reloc_fuel (schema_fields person)) person_reloc
    person_bytes 0 _ 0 22 64);
    [vm_compute; reflexivity|vm_compute; reflexivity|apply person_movable
    |split; vm_compute; congruence|split; vm_compute; congruence|lia|vm_compute; congruence
    |apply person_encoded].
Defined.
