(* ===== verification/Canon.v ===== *)
(** What marshalling means: [canon ty v] is the value a host reads back after
    writing [v] into a slot of type [ty], or [None] when [v] does not fit the
    type.  It re-tags records with their schema name, drops dict entries the
    schema does not declare, and widens an [Int] written to a [Float] slot; on
    a value that was itself read from a buffer it is the identity. *)

From Stdlib Require Import ZArith Lia Bool.
From coqutil Require Import Byte Word.LittleEndianList.
From stdpp Require Import base list strings.
From S2P Require Import Prelude Bytes SchemaCanonical Layout LayoutFacts Value BufferTypes.
From S2P Require Import IndexFacts Reader ReaderFacts VerifiedRead Relocation Encoding.
Local Open Scope Z_scope.
Local Open Scope abi_scope.

(** ** Partial maps over lists *)

Definition mapO {A B} (f : A -> option B) : list A -> option (list B) :=
  fix go l := match l with
              | [] => Some []
              | x :: rest => match f x, go rest with
                             | Some y, Some ys => Some (y :: ys)
                             | _, _ => None
                             end
              end.

Definition map2O {A B C} (f : A -> B -> option C) : list A -> list B -> option (list C) :=
  fix go l m := match l, m with
                | [], [] => Some []
                | x :: l', y :: m' => match f x y, go l' m' with
                                      | Some z, Some zs => Some (z :: zs)
                                      | _, _ => None
                                      end
                | _, _ => None
                end.

(** The first element that satisfies [p], mapped. *)
Definition pick {A B} (p : A -> bool) (f : A -> option B) : list A -> option B :=
  fix go l := match l with
              | [] => None
              | x :: rest => if p x then f x else go rest
              end.

Lemma pick_find {A B} (p : A -> bool) (f : A -> option B) l :
  pick p f l = match List.find p l with Some x => f x | None => None end.
Proof. induction l as [|x l IH]; simpl; [done|]. by destruct (p x). Qed.

Lemma mapO_Some {A B} (f : A -> option B) l r :
  mapO f l = Some r <-> Forall2 (fun x y => f x = Some y) l r.
Proof.
  revert r. induction l as [|x l IH]; intros r; simpl.
  - split; [intros [= <-]; constructor|by inversion 1].
  - split.
    + destruct (f x) eqn:Hf; [|done]. destruct (mapO f l) eqn:Hl; [|done]. intros [= <-].
      constructor; [done|]. by apply IH.
    + inversion 1 as [|? ? ? ? Hx Hl]; subst. apply IH in Hl. by rewrite Hx, Hl.
Qed.

Section Canon.
Context {H : HostTypes}.

(** ** Rust values *)

(** The invariants of the Rust types inside a [Value], and strings short
    enough for a [u32] length prefix. *)
Fixpoint value_ok (v : Value) : bool :=
  match v with
  | VInt i => (- 2 ^ 63 <=? i) && (i <? 2 ^ 63)
  | VFloat bits => (0 <=? bits) && (bits <? 2 ^ 64)
  | VString s => is_str s && (blen (as_bytes s) <=? U32_MAX)
  | VList items | VTuple items => forallb value_ok items
  | VDict d => forallb (fun kv => value_ok (snd kv)) (dict_map d)
  | _ => true
  end.

(** ** The specification *)

Definition key_is (d : ValueDict) (enum_name variant : string) : bool :=
  bool_decide ((dict_variant_of d, dict_brand d) = (Some enum_name, Some variant)).

Fixpoint canon (ty : TypeRepr) (v : Value) {struct ty} : option Value :=
  let canon_dict (fs : list Field) (d : ValueDict) : option (list Value) :=
    mapO (fun f => match map_get (field_name f) (dict_map d) with
                   | Some w => canon (field_ty f) w
                   | None => None
                   end) fs in
  match ty with
  | TUnit => if is_option_none v then Some option_none else None
  | TBool => match v with VBool _ => Some v | _ => None end
  | TInt => match v with VInt _ => Some v | _ => None end
  | TFloat => match v with
              | VFloat _ => Some v
              | VInt i => Some (VFloat (i64_as_f64 i))
              | _ => None
              end
  | TString => match v with VString _ => Some v | _ => None end
  | TList e => match v with
               | VList items => VList <$> mapO (canon e) items
               | _ => None
               end
  | TSchema s =>
      match v with
      | VDict d =>
          if schema_is_tuple s then None
          else mk_record s <$> canon_dict (schema_fields s) d
      | VTuple items =>
          if schema_is_tuple s
          then mk_record s <$> map2O (fun f w => canon (field_ty f) w) (schema_fields s) items
          else None
      | _ => None
      end
  | TOption inner =>
      match v with
      | VDict d =>
          if key_is d "Option" "None" then Some option_none
          else if key_is d "Option" "Some" then
            match map_get "value"%string (dict_map d) with
            | Some w => option_some <$> canon inner w
            | None => None
            end
          else None
      | _ => None
      end
  | TResult ok_ty err_ty =>
      match v with
      | VDict d =>
          if key_is d "Result" "Ok" then
            match map_get "value"%string (dict_map d) with
            | Some w => result_ok <$> canon ok_ty w
            | None => None
            end
          else if key_is d "Result" "Err" then
            match map_get "error"%string (dict_map d) with
            | Some w => result_err <$> canon err_ty w
            | None => None
            end
          else None
      | _ => None
      end
  | TEnum name variants =>
      match v with
      | VDict d =>
          match dict_variant_of d, dict_brand d with
          | Some value_enum, Some value_variant =>
              if bool_decide (value_enum = name) then
                pick (fun x => bool_decide (variant_name x = value_variant))
                  (fun x =>
                     match variant_fields x with
                     | [] => match dict_map d with
                             | [] => Some (variant_dict [] value_variant name)
                             | _ => None
                             end
                     | _ => (fun vals => variant_dict (record_map (variant_fields x) vals)
                                                      value_variant name)
                            <$> canon_dict (variant_fields x) d
                     end) variants
              else None
          | _, _ => None
          end
      | _ => None
      end
  | TClosure _ _ => None
  end.
End Canon.
