(* ===== verification/WriteFacts.v ===== *)
(** The writer establishes the encoding: every function behind
    [BufferBuilder::write_value] either appends a well-formed encoding of the
    canonical value and leaves the rest of the buffer alone, or reports a value
    that does not fit its type or a buffer beyond the 32-bit offsets. *)

From Stdlib Require Import ZArith Lia Bool.
From coqutil Require Import Byte Word.LittleEndianList.
From stdpp Require Import base list strings.
From S2P Require Import Prelude Bytes SchemaCanonical Layout LayoutFacts Value BufferTypes.
From S2P Require Import IndexFacts Reader ReaderFacts VerifierFacts VerifiedRead Relocation Encoding.
From S2P Require Import DecodeFacts RelocFacts Rebase Builder Marshal Canon.
Local Open Scope Z_scope.
Local Open Scope abi_scope.

Local Opaque u32_to_le u64_to_le i64_to_le u32_from_le.

(** ** Growing a buffer *)

(** [b'] is [b] with bytes appended. *)
Definition extends (b b' : bytes) : Prop := blen b <= blen b' /\ same_on b b' 0 (blen b).

Lemma extends_refl b : extends b b.
Proof. split; [lia|done]. Qed.

Lemma extends_trans b c d : extends b c -> extends c d -> extends b d.
Proof.
  intros [H1 H2] [H3 H4]. split; [lia|]. eapply same_on_trans; [exact H2|].
  eapply same_on_sub; [exact H4|lia..].
Qed.

Lemma extends_app b t : extends b (b ++ t).
Proof.
  split; [rewrite blen_app; pose proof (blen_nonneg t); lia|]. intros i Hi.
  rewrite lookup_app_l; [done|]. unfold blen in Hi. lia.
Qed.

Lemma bytes_at_end b s : bytes_at (b ++ s) (blen b) s.
Proof. rewrite <-(app_nil_r s) at 1. apply bytes_at_appended. Qed.

Lemma extends_resize b n : blen b <= n -> extends b (vec_resize b n).
Proof. intros Hn. rewrite vec_resize_grow by done. apply extends_app. Qed.

Lemma extends_bytes_at b b' off s :
  extends b b' -> bytes_at b off s -> off + blen s <= blen b -> bytes_at b' off s.
Proof.
  intros [Hl Hs] Hat Hend. eapply bytes_at_same; [exact Hat|exact Hs|apply Hat|done].
Qed.

Lemma pad_to_extends b a : extends b (pad_to b a).
Proof.
  unfold pad_to. destruct (a <=? 1) eqn:Ha; [apply extends_refl|]. zb.
  destruct (checked_next_multiple_of (blen b) a) as [t|] eqn:Ht; [|apply extends_refl].
  pose proof (blen_nonneg b). apply checked_next_multiple_of_Some in Ht; [|lia..].
  apply extends_resize. lia.
Qed.

(** Below the 32-bit limit the padding always succeeds. *)
Lemma pad_to_aligned b a :
  0 < a <= 8 -> blen (pad_to b a) <= U32_MAX ->
  blen (pad_to b a) mod a = 0 /\ blen (pad_to b a) < blen b + a.
Proof.
  intros Ha. unfold pad_to. pose proof (blen_nonneg b). destruct (a <=? 1) eqn:Ha1; zb.
  { intros _. assert (a = 1) as -> by lia. rewrite Z.mod_1_r. lia. }
  destruct (checked_next_multiple_of (blen b) a) as [t|] eqn:Ht.
  - apply checked_next_multiple_of_Some in Ht; [|lia..]. rewrite blen_vec_resize by lia. lia.
  - intros Hu. apply checked_next_multiple_of_None in Ht; [|lia..].
    pose proof (Z.mod_pos_bound (blen b) a). unfold U32_MAX, USIZE_MAX in *. lia.
Qed.

Lemma pad_to_exact b a :
  0 < a <= 8 -> blen b <= U32_MAX + 16 ->
  exists r, checked_next_multiple_of (blen b) a = Some r /\ blen (pad_to b a) = r.
Proof.
  intros Ha Hb. pose proof (blen_nonneg b). unfold pad_to.
  destruct (checked_next_multiple_of_small (blen b) a) as [r Hr];
    [lia|lia|unfold U32_MAX, USIZE_MAX in *; lia|].
  exists r. split; [done|]. rewrite Hr. apply checked_next_multiple_of_Some in Hr as [Hr Hm]; [|lia..].
  destruct (a <=? 1) eqn:Ha1; zb; [lia|]. by rewrite blen_vec_resize by lia.
Qed.

(** ** Integers as doubles *)

Lemma f64_mantissa m : 0 < m ->
  let e := Z.log2 m in
  2 ^ 52 <= (if e <=? 52 then Z.shiftl m (52 - e) else
    let s := e - 52 in let q := Z.shiftr m s in let r := m mod 2 ^ s in let half := 2 ^ (s - 1) in
    if (half <? r) || ((r =? half) && Z.odd q) then q + 1 else q) <= 2 ^ 53.
Proof.
  intros Hm e. pose proof (Z.log2_spec m Hm) as [Hlo Hhi]. pose proof (Z.log2_nonneg m).
  fold e in Hlo, Hhi, H. rewrite Z.pow_succ_r in Hhi by lia. destruct (e <=? 52) eqn:He; zb.
  - rewrite Z.shiftl_mul_pow2 by lia. assert (2 ^ 52 = 2 ^ e * 2 ^ (52 - e)) as ->.
    { rewrite <-Z.pow_add_r by lia. f_equal. lia. }
    replace (2 ^ 53) with (2 * 2 ^ e * 2 ^ (52 - e)).
    + assert (0 < 2 ^ (52 - e)) by (apply Z.pow_pos_nonneg; lia). nia.
    + rewrite <-Z.mul_assoc, <-Z.pow_add_r, <-Z.pow_succ_r by lia. f_equal. lia.
  - cbv zeta. assert (0 < 2 ^ (e - 52)) as Hp by (apply Z.pow_pos_nonneg; lia).
    assert (2 ^ 52 <= Z.shiftr m (e - 52) < 2 ^ 53) as Hq.
    { rewrite Z.shiftr_div_pow2 by lia.
      assert (2 ^ e = 2 ^ 52 * 2 ^ (e - 52)) as Hpe.
      { rewrite <-Z.pow_add_r by lia. f_equal. lia. }
      split; [apply Z.div_le_lower_bound; lia|apply Z.div_lt_upper_bound; lia]. }
    destruct (_ || _); lia.
Qed.

Lemma i64_as_f64_range i : is_i64 i -> 0 <= i64_as_f64 i < 2 ^ 64.
Proof.
  intros Hi. unfold i64_as_f64. destruct (i =? 0) eqn:H0; [lia|]. zb.
  pose proof (f64_mantissa (Z.abs i) ltac:(lia)) as Hq. cbv zeta in Hq |- *.
  set (q := if Z.log2 (Z.abs i) <=? 52 then _ else _) in *.
  assert (0 <= Z.log2 (Z.abs i) <= 63) as He.
  { split; [apply Z.log2_nonneg|]. apply Z.lt_succ_r. apply Z.log2_lt_pow2; [lia|].
    unfold is_i64 in Hi. change (Z.succ 63) with 64. lia. }
  set (e := Z.log2 (Z.abs i)) in *. clearbody q e.
  destruct (q =? 2 ^ 53) eqn:Hq2; zb; destruct (i <? 0); lia.
Qed.

Section Write.
Context {H : HostTypes}.

(** ** Which types and which failures *)

(** Tags of an enum fit a byte and are distinct. *)
Fixpoint tags_ok (ty : TypeRepr) : bool :=
  match ty with
  | TList e => tags_ok e
  | TOption i => tags_ok i
  | TResult o e => tags_ok o && tags_ok e
  | TEnum _ vs =>
      bool_decide (NoDup (map variant_tag vs)) &&
      forallb (fun v => (0 <=? variant_tag v) && (variant_tag v <? 256) &&
                        forallb (fun f => tags_ok (field_ty f)) (variant_fields v)) vs
  | TSchema s => forallb (fun f => tags_ok (field_ty f)) (schema_fields s)
  | _ => true
  end.

Record writable (ty : TypeRepr) : Prop := {
  wr_wf : wf_type ty;
  wr_reloc : relocatable ty = true;
  wr_tags : tags_ok ty = true;
}.

Lemma writable_field s f : writable (TSchema s) -> f ∈ schema_fields s -> writable (field_ty f).
Proof.
  intros [Hw Hr Ht] Hf. split; [by eapply wf_field|by eapply relocatable_field|].
  simpl in Ht. rewrite forallb_elem in Ht. auto.
Qed.

Lemma writable_list e : writable (TList e) -> writable e.
Proof. intros [Hw Hr Ht]. split; [by apply wf_list|by apply relocatable_list|done]. Qed.

Lemma writable_payload ty p : writable ty -> p ∈ variant_payload_types ty -> writable p.
Proof.
  intros [Hw Hr Ht] Hp. split; [by eapply wf_payload|by eapply relocatable_payload|].
  clear Hw Hr. destruct ty; simpl in *; try (by apply elem_of_nil in Hp).
  - by apply list_elem_of_singleton in Hp as ->.
  - apply andb_true_iff in Ht as [? ?]. rewrite !elem_of_cons, elem_of_nil in Hp. naive_solver.
  - apply list_elem_of_omap in Hp as (v & Hv & Hp). apply andb_true_iff in Ht as [_ Ht].
    rewrite forallb_elem in Ht. specialize (Ht v Hv). apply andb_true_iff in Ht as [_ Ht].
    destruct (payload_schema v name) eqn:Hs; [|done]. injection Hp as <-.
    unfold payload_schema in Hs. destruct (variant_fields v); [done|]. by injection Hs as <-.
Qed.

(** The value does not fit 32-bit offsets. *)
Definition size_error (e : BufferError) : Prop :=
  match e with
  | ValueTooLarge _ _ => True
  | MalformedPayload _ r =>
      reloc_overflow r \/ r = "variant payload slot offset overflows usize"%string \/
      r = "variant payload slot end overflows usize"%string
  | _ => False
  end.

(** ** Specifications *)

(** Filling the slot at [slot] of [b] with [v]. *)
Definition writes (b : bytes) (slot : Z) (ty : TypeRepr) (v : Value)
    (m : outcome BufferError bytes) : Prop :=
  match m with
  | Ok b' => exists v', canon ty v = Some v' /\ blen b <= blen b' /\
      (forall i : nat, Z.of_nat i < blen b ->
         ~ (slot <= Z.of_nat i < slot + slot_size ty) -> b !! i = b' !! i) /\
      enc_slot 0 b' slot ty v' (blen b) (blen b')
  | Err e => canon ty v = None \/ size_error e
  | Abort => False
  end.

(** Appending the record of [v] and returning its offset. *)
Definition appends (b : bytes) (ty : TypeRepr) (v : Value)
    (m : outcome BufferError (bytes * Z)) : Prop :=
  match m with
  | Ok (b', p) => exists v', canon ty v = Some v' /\ extends b b' /\ blen b <= p /\
      (p <= U32_MAX -> enc_at 0 b' p ty v' (blen b) (blen b'))
  | Err e => canon ty v = None \/ size_error e
  | Abort => False
  end.

(** ** Slots *)

Lemma writes_scalar b slot ty v v' s :
  inline_type ty = true -> 0 <= slot -> slot + slot_size ty <= blen b -> blen s = slot_size ty ->
  canon ty v = Some v' -> (forall c, bytes_at c slot s -> scalar_at c slot ty v') ->
  writes b slot ty v (patch b slot s).
Proof.
  intros Hi Hs Hl Hbs Hc Hat. destruct (@patch_in_range BufferError b slot s) as [c Hp]; [done|lia|].
  rewrite Hp. pose proof (patch_length _ _ _ _ Hp) as Hlen. exists v'. split_and!; [done|lia| |].
  - intros i _ Hd. symmetry. eapply patch_lookup_ne; [exact Hp|]. lia.
  - rewrite Hlen. apply es_inline; [done| |done]. apply Hat. by eapply bytes_at_patched.
Qed.

Lemma writes_pointer b slot ty v name m :
  inline_type ty = false -> 0 <= slot -> slot + 4 <= blen b -> appends b ty v m ->
  writes b slot ty v (let* (c, p) := m in write_pointer_slot c name slot p).
Proof.
  intros Hi Hs Hl Ha. destruct m as [[c p]| |]; simpl in *; [|done|done].
  destruct Ha as (v' & Hc & [Hlen Hsame] & Hp & Henc).
  unfold write_pointer_slot, u32_try_from. destruct (p <=? U32_MAX) eqn:Hu; zb; [|by right].
  specialize (Henc Hu). simpl.
  destruct (@patch_in_range BufferError c slot (u32_to_le p)) as [d Hd]; [done|rewrite blen_u32; lia|].
  rewrite Hd. pose proof (patch_length _ _ _ _ Hd) as Hld. exists v'. split_and!; [done|lia| |].
  - assert (slot_size ty = 4) as -> by (by destruct ty). intros i Hib Hd'.
    rewrite Hsame by lia. symmetry. eapply patch_lookup_ne; [exact Hd|]. rewrite blen_u32. lia.
  - pose proof (blen_nonneg b). eapply (es_pointer _ _ _ p); [done|unfold is_u32; lia|lia|..].
    + rewrite Z.add_0_l. by eapply bytes_at_patched.
    + rewrite Hld. eapply (enc_frame 0 c d); [lia|lia|exact Henc|].
      eapply patch_same_below; [exact Hd|]. rewrite blen_u32. lia.
Qed.

(** ** Tail records *)

Lemma appends_string b s :
  value_ok (VString s) = true ->
  appends b TString (VString s) (Ok (append_tail_record b 4 (blen (as_bytes s)) (as_bytes s))).
Proof.
  simpl. intros [Hs Hl]%andb_true_iff. zb. exists (VString s).
  pose proof (pad_to_extends b 4) as Hpad. split_and!; [done| |apply Hpad|].
  - eapply extends_trans; [exact Hpad|apply extends_app].
  - intros Hu. apply ea_string; [done|done|apply Hpad| |].
    + apply bytes_at_end.
    + rewrite !blen_app, blen_u32. lia.
Qed.

(** ** Inline scalar lists *)

Lemma scalar_payload_spec e size align items : forall i,
  scalar_elem e = Some (size, align) -> forallb value_ok items = true ->
  match scalar_payload e i items with
  | Ok payload => exists vs, mapO (canon e) items = Some vs /\ blen payload = blen vs * size /\
      length vs = length items /\
      forall c off, bytes_at c off payload ->
        forall k v, vs !! k = Some v -> scalar_at c (off + Z.of_nat k * size) e v
  | Err _ => mapO (canon e) items = None
  | Abort => False
  end.
Proof.
  induction items as [|it items IH]; intros i He Hok; simpl.
  { by exists []. }
  simpl in Hok. apply andb_true_iff in Hok as [Hit Hok]. specialize (IH (S i) He Hok).
  destruct (scalar_bytes e i it) as [x| |] eqn:Hx; simpl.
  - assert (exists v, canon e it = Some v /\ blen x = size /\
      forall c off, bytes_at c off x -> scalar_at c off e v) as (v & Hv & Hlx & Hat).
    { destruct e; try discriminate He; injection He as <- <-; destruct it; try discriminate Hx;
        simpl in Hx, Hit; injection Hx as <-; eexists; (split; [reflexivity|]); split; try done;
        simpl; intros; zb; try (split; [|done]); try done.
      apply i64_as_f64_range. unfold is_i64. lia. }
    destruct (scalar_payload e (S i) items) as [xs| |]; simpl; [|by rewrite Hv, IH|done].
    destruct IH as (vs & Hvs & Hl & Hlen & Hats). exists (v :: vs). rewrite Hv, Hvs.
    rewrite blen_app, blen_cons. split_and!; [done|lia|simpl; lia|].
    intros c off [Ha Hb]%bytes_at_app [|k] w Hk; simpl in Hk.
    + injection Hk as <-. rewrite Z.add_0_r. auto.
    + rewrite Hlx in Hb. specialize (Hats c (off + size) Hb k w Hk).
      by replace (off + Z.of_nat (S k) * size) with (off + size + Z.of_nat k * size) by lia.
  - destruct e; try discriminate He; destruct it; try discriminate Hx; done.
  - destruct e; try discriminate He; destruct it; try discriminate Hx; done.
Qed.

(** Where the payload of an inline list lands. *)
Lemma inline_payload_start b e size align :
  scalar_elem e = Some (size, align) -> blen (pad_to b 4) <= U32_MAX ->
  payload_start (blen (pad_to b 4)) align
  = Some (blen (pad_to (pad_to b 4 ++ u32_to_le 0) (match e with TInt | TFloat => 8 | _ => 4 end))) /\
  blen (pad_to b 4) + 4
  <= blen (pad_to (pad_to b 4 ++ u32_to_le 0) (match e with TInt | TFloat => 8 | _ => 4 end)).
Proof.
  intros He Hu. destruct (pad_to_aligned b 4 ltac:(lia) Hu) as [Hm _]. set (c := pad_to b 4) in *.
  assert (blen (c ++ u32_to_le 0) = blen c + 4) as Hlc by (by rewrite blen_app, blen_u32).
  pose proof (blen_nonneg c). split; [|rewrite <-Hlc; apply pad_to_extends].
  destruct (pad_to_exact (c ++ u32_to_le 0) 8) as (r & Hr & Hl8); [lia|lia|].
  destruct (pad_to_exact (c ++ u32_to_le 0) 4) as (r' & Hr' & Hl4); [lia|lia|].
  rewrite Hlc in Hr, Hr'. unfold payload_start.
  destruct e; try discriminate He; injection He as <- <-; simpl; [|by rewrite Hl8..].
  rewrite Hl4. rewrite checked_next_multiple_of_id in Hr'; [by injection Hr' as <-|lia|].
  by rewrite Z.add_mod, Hm by lia.
Qed.

Lemma pad_to_length b c a : blen b = blen c -> blen (pad_to b a) = blen (pad_to c a).
Proof.
  intros Hl. unfold pad_to. rewrite Hl. destruct (a <=? 1); [done|].
  destruct (checked_next_multiple_of (blen c) a) as [t|]; [|done]. unfold vec_resize. rewrite Hl.
  destruct (t <=? blen c).
  - unfold blen in *. rewrite !length_take. lia.
  - by rewrite !blen_app, Hl.
Qed.

Lemma appends_scalars b e items :
  is_scalar e = true -> forallb value_ok items = true -> blen items <= U32_MAX ->
  appends b (TList e) (VList items)
    (let* payload := scalar_payload e 0 items in
     Ok (append_tail_record_with_inner_alignment b 4
           (match e with TInt | TFloat => 8 | _ => 4 end) (blen items) payload)).
Proof.
  intros Hsc Hok Hcount.
  assert (exists size align, scalar_elem e = Some (size, align)) as (size & align & He)
    by (destruct e; try discriminate Hsc; simpl; eauto).
  pose proof (scalar_payload_spec e size align items 0 He Hok) as Hp.
  destruct (scalar_payload e 0 items) as [payload| |]; [|left; simpl; by rewrite Hp|done].
  destruct Hp as (vs & Hvs & Hlp & Hlen & Hat).
  assert (blen vs = blen items) as Hbl by (unfold blen; lia).
  set (al := match e with TInt | TFloat => 8 | _ => 4 end) in *.
  cbn [bind]. unfold append_tail_record_with_inner_alignment.
  rewrite (proj2 (Z.ltb_lt 1 al)) by (subst al; destruct e; lia).
  set (c := pad_to b 4). set (d := pad_to (c ++ u32_to_le (blen items)) al).
  pose proof (pad_to_extends b 4) as Hbc. fold c in Hbc.
  pose proof (pad_to_extends (c ++ u32_to_le (blen items)) al) as Hcd. fold d in Hcd.
  assert (extends c d) as Hext by (eapply extends_trans; [apply extends_app|exact Hcd]).
  assert (extends d (d ++ payload)) as Hdp by apply extends_app.
  exists (VList vs). split_and!.
  - simpl. by rewrite Hvs.
  - eapply extends_trans; [exact Hbc|]. by eapply extends_trans.
  - apply Hbc.
  - intros Hu. destruct (inline_payload_start b e size align He Hu) as [Hps Hge]. fold c al in Hps, Hge.
    assert (blen (pad_to (c ++ u32_to_le 0) al) = blen d) as Hd
      by (apply pad_to_length; by rewrite !blen_app, !blen_u32).
    rewrite Hd in Hps, Hge. pose proof (blen_nonneg payload).
    apply (ea_scalars _ _ _ _ _ size align (blen d)); rewrite ?Z.add_0_l, ?Hbl; try done.
    + apply Hbc.
    + eapply (extends_bytes_at (c ++ u32_to_le (blen items))).
      * by eapply extends_trans.
      * apply bytes_at_end.
      * rewrite blen_app. lia.
    + intros k it Hk. eapply Hat; [apply bytes_at_end|done].
    + rewrite blen_app. lia.
    + rewrite blen_app. lia.
Qed.

(** ** Pointer arrays *)

(** As [appends], with an offset that is known to fit. *)
Definition emits (b : bytes) (ty : TypeRepr) (v : Value)
    (m : outcome BufferError (bytes * Z)) : Prop :=
  match m with
  | Ok (b', p) => exists v', canon ty v = Some v' /\ extends b b' /\ is_u32 p /\
      enc_at 0 b' p ty v' (blen b) (blen b')
  | Err e => canon ty v = None \/ size_error e
  | Abort => False
  end.

Lemma emits_entry b ty v name m :
  appends b ty v m -> emits b ty v (let* r := m in entry_u32 name r).
Proof.
  destruct m as [[c p]| |]; simpl; [|done|done]. intros (v' & Hc & He & Hp & Henc).
  unfold u32_try_from. destruct (p <=? U32_MAX) eqn:Hu; zb; simpl; [|by right].
  pose proof (blen_nonneg b). exists v'. unfold is_u32. split_and!; try done; [lia|auto].
Qed.

(** Records emitted one after the other, with their offsets. *)
Inductive records_at (b : bytes) (e : TypeRepr) : list Z -> list Value -> Z -> Z -> Prop :=
| ra_nil lo hi : lo <= hi -> records_at b e [] [] lo hi
| ra_cons q qs v vs lo mid hi :
    is_u32 q -> enc_at 0 b q e v lo mid -> records_at b e qs vs mid hi ->
    records_at b e (q :: qs) (v :: vs) lo hi.

Lemma records_at_le b e qs vs lo hi : records_at b e qs vs lo hi -> lo <= hi.
Proof.
  induction 1 as [|q qs v vs lo mid hi _ Henc _ IH]; [done|].
  apply enc_at_le in Henc; lia.
Qed.

Lemma records_at_length b e qs vs lo hi : records_at b e qs vs lo hi -> length qs = length vs.
Proof. induction 1; simpl; congruence. Qed.

Lemma records_at_frame b c e qs vs lo hi :
  blen b <= blen c -> same_on b c lo hi -> records_at b e qs vs lo hi -> records_at c e qs vs lo hi.
Proof.
  intros Hl Hs Hr. induction Hr as [|q qs v vs lo mid hi Hq Henc Hr IH]; [by constructor|].
  pose proof (records_at_le _ _ _ _ _ _ Hr). pose proof (enc_at_le 0 b _ _ _ _ _ ltac:(lia) Henc).
  econstructor; [done| |apply IH; eapply same_on_sub; [exact Hs|lia..]].
  eapply (enc_frame 0 b c); [lia|done|exact Henc|]. eapply same_on_sub; [exact Hs|lia..].
Qed.

Lemma emit_entries_spec {A} (val : A -> Value) e emit items : forall i b,
  (forall i it b, it ∈ items -> emits b e (val it) (emit i it b)) ->
  match emit_entries emit i items b with
  | Ok (b', qs) => exists vs, mapO (fun it => canon e (val it)) items = Some vs /\ extends b b' /\
      records_at b' e qs vs (blen b) (blen b')
  | Err er => mapO (fun it => canon e (val it)) items = None \/ size_error er
  | Abort => False
  end.
Proof.
  induction items as [|it items IH]; intros i b Hemit; simpl.
  { exists []. split_and!; [done|apply extends_refl|constructor; lia]. }
  pose proof (Hemit i it b ltac:(left)) as Hm. destruct (emit i it b) as [[c q]| |]; simpl in *; [|
    destruct Hm as [-> | ?]; auto|done].
  destruct Hm as (v & Hv & Hbc & Hq & Henc). rewrite Hv.
  specialize (IH (S i) c (fun i x b Hx => Hemit i x b (list_elem_of_further _ _ _ Hx))).
  destruct (emit_entries emit (S i) items c) as [[d qs]| |]; simpl; [|destruct IH as [-> | ?]; auto|done].
  destruct IH as (vs & Hvs & Hcd & Hrest). rewrite Hvs. exists (v :: vs).
  split_and!; [done|by eapply extends_trans|]. destruct Hcd as [Hl Hs].
  econstructor; [done| |exact Hrest]. eapply (enc_frame 0 c d); [lia|done|exact Henc|].
  pose proof (blen_nonneg b). eapply same_on_sub; [exact Hs|lia..].
Qed.

Lemma patch_entries_spec e : forall qs vs b dst lo hi,
  records_at b e qs vs lo hi -> inline_type e = false -> 0 <= dst ->
  dst + 4 * blen qs <= lo -> dst + 4 * blen qs <= blen b ->
  exists b', patch_entries b dst qs = Ok b' /\ blen b' = blen b /\
    (forall i : nat, ~ (dst <= Z.of_nat i < dst + 4 * blen qs) -> b !! i = b' !! i) /\
    enc_entries 0 b' dst e vs lo hi.
Proof.
  induction qs as [|q qs IH]; intros vs b dst lo hi Hr He Hd Hlo Hb.
  { inversion Hr; subst. exists b. split_and!; try done. by constructor. }
  inversion Hr as [|? ? v vs' ? mid ? Hq Henc Hrest]; subst. rewrite blen_cons in *.
  pose proof (blen_nonneg qs). pose proof (enc_at_le 0 b _ _ _ _ _ ltac:(lia) Henc).
  cbn [patch_entries].
  destruct (@patch_in_range BufferError b dst (u32_to_le q)) as [c Hc]; [done|rewrite blen_u32; lia|].
  rewrite Hc. cbn [bind]. pose proof (patch_length _ _ _ _ Hc) as Hlc.
  assert (same_on b c lo hi) as Hbc.
  { eapply patch_same_below; [exact Hc|]. rewrite blen_u32. lia. }
  pose proof (records_at_le _ _ _ _ _ _ Hrest).
  destruct (IH vs' c (dst + 4) mid hi) as (d & Hd' & Hld & Hsame & Hents); try done; [|lia..|].
  { eapply records_at_frame; [|eapply same_on_sub; [exact Hbc|lia..]|exact Hrest]. lia. }
  exists d. split_and!; [done|lia| |].
  - intros i Hi. rewrite <-Hsame by lia. symmetry. eapply patch_lookup_ne; [exact Hc|].
    rewrite blen_u32. lia.
  - eapply ee_cons; [|exact Hents]. apply (es_pointer _ _ _ q); [done|by rewrite Z.add_0_l|apply Hq| |].
    + rewrite Z.add_0_l. eapply bytes_at_same; [by eapply bytes_at_patched| |reflexivity|reflexivity].
      intros i Hi. rewrite blen_u32 in Hi. apply Hsame. lia.
    + eapply (enc_frame 0 b d); [lia|lia|exact Henc|]. intros i Hi.
      rewrite Hbc by lia. apply Hsame. lia.
Qed.

Lemma appends_pointer_array {A} (val : A -> Value) b e (items : list A) emit :
  list_payload_is_pointer_array e = true -> blen items <= U32_MAX ->
  (forall i it b, it ∈ items -> emits b e (val it) (emit i it b)) ->
  appends b (TList e) (VList (map val items)) (append_pointer_array b items emit).
Proof.
  intros He Hcount Hemit. unfold append_pointer_array.
  set (c := pad_to b 4). pose proof (pad_to_extends b 4) as Hbc. fold c in Hbc.
  set (d := vec_resize _ _). pose proof (blen_nonneg items).
  assert (extends (c ++ u32_to_le (blen items)) d) as Hcd.
  { apply extends_resize. lia. }
  assert (blen d = blen c + 4 + 4 * blen items) as Hld.
  { unfold d. rewrite blen_vec_resize; rewrite blen_app, blen_u32; lia. }
  pose proof (emit_entries_spec val e emit items 0 d Hemit) as Hspec.
  assert (canon (TList e) (VList (map val items))
          = VList <$> mapO (fun it => canon e (val it)) items) as Hcanon.
  { simpl. f_equal. clear. induction items as [|it items IH]; simpl; [done|]. by rewrite IH. }
  destruct (emit_entries emit 0 items d) as [[f qs]| |]; cbn [bind]; [| |done]; cycle 1.
  { unfold appends. rewrite Hcanon. destruct Hspec as [-> | ?]; auto. }
  destruct Hspec as (vs & Hvs & Hdf & Hrec).
  assert (length qs = length items) as Hlq.
  { apply records_at_length in Hrec as ->. apply mapO_Some in Hvs. symmetry. by eapply Forall2_length. }
  assert (blen qs = blen items) as Hbq by (unfold blen; lia).
  assert (blen (c ++ u32_to_le (blen items)) = blen c + 4) as Hlh by (by rewrite blen_app, blen_u32).
  pose proof (blen_nonneg c). destruct Hdf as [Hlf Hsf].
  destruct (patch_entries_spec e qs vs f (blen (c ++ u32_to_le (blen items))) (blen d) (blen f))
    as (g & -> & Hlg & Hsg & Hents); try done; [by destruct e|lia|lia|lia|].
  cbn [bind]. exists (VList vs). rewrite Hcanon, Hvs. rewrite Hlh in *. rewrite Hbq in *.
  split_and!; [done| |apply Hbc|].
  - split; [destruct Hbc, Hcd; lia|]. intros i Hi. destruct Hbc as [Hb1 Hb2], Hcd as [Hc1 Hc2].
    rewrite Hb2 by lia. rewrite <-Hsg, <-Hsf, <-Hc2 by lia.
    symmetry. apply lookup_app_l. unfold blen in *. lia.
  - intros Hu. assert (blen vs = blen items) as Hbv
      by (apply mapO_Some, Forall2_length in Hvs; unfold blen; lia).
    destruct Hbc as [Hb1 _]. rewrite Hlg.
    apply (ea_list _ _ _ _ _ _ (blen d) (blen f)); rewrite ?Hbv; try done; try lia.
    eapply bytes_at_same; [apply (bytes_at_end c (u32_to_le (blen items)))| |reflexivity|reflexivity].
    intros i Hi. rewrite blen_u32 in Hi. destruct Hcd as [Hc1 Hc2].
    rewrite <-Hsg, <-Hsf by lia. apply Hc2. lia.
Qed.

(** ** Builders *)

Lemma type_matches_eq d r : type_matches d r = true -> d = r.
Proof.
  revert r. induction d; intros r; destruct r; simpl; try done.
  - intros ?%IHd. by subst.
  - intros ?%IHd. by subst.
  - intros [?%IHd1 ?%IHd2]%andb_true_iff. by subst.
  - intros Hm. by apply (type_eqb_eq (TEnum name variants) (TEnum name0 variants0)).
  - intros ->%schema_eqb_eq. done.
Qed.

Lemma type_matches_refl ty : layoutable ty = true -> type_matches ty ty = true.
Proof.
  induction ty; simpl; try done.
  - intros Hl. apply IHty. by destruct ty.
  - intros [? ?]%andb_true_iff. apply andb_true_iff. auto.
  - intros _. by apply (type_eqb_eq (TEnum name variants) (TEnum name variants)).
  - intros _. by apply schema_eqb_eq.
Qed.

Lemma index_finds rebase fields (fos : list FieldOffset) rs ra idx name fo :
  index_fields rebase (MkOffsetTable fos rs ra) fields = Ok idx ->
  (forall fo, fo ∈ fos -> is_Some (find_field (fo_name fo) fields)) ->
  List.find (fun fo => bool_decide (fo_name fo = name)) fos = Some fo ->
  exists e, lookup_entry idx name = Some e.
Proof.
  unfold index_fields. simpl.
  revert idx. induction fos as [|g fos IH]; intros idx Hm Hsome Hf; simpl in *; [done|].
  destruct (Hsome g) as [f Hff]; [left|]. rewrite Hff in Hm. simpl in Hm. inv_ok Hm. subst.
  unfold lookup_entry. simpl. destruct (bool_decide (fo_name g = name)); [by eexists|].
  eapply IH; [done| |done]. intros fo' Hin. apply Hsome. by right.
Qed.

(** The builder of a record of schema [s]. *)
Record builder_for (s : Schema) (t : OffsetTable) (bb : BufferBuilder) : Prop := {
  bf_index : index_fields (fun off => Ok off) t (schema_fields s) = Ok (bb_index bb);
  bf_reloc : reloc_build (reloc_fuel (schema_fields s)) t (schema_fields s) = Ok (bb_reloc bb);
  bf_layout : bb_layout bb = t;
  bf_size : root_size t <= blen (bb_bytes bb);
}.

Lemma builder_new_for s t :
  offsets_for s = Ok t ->
  exists bb, builder_new t (schema_fields s) = Ok bb /\ builder_for s t bb /\
    blen (bb_bytes bb) = root_size t.
Proof.
  intros Ht. pose proof (ts_size t (offsets_for_fuel_sound _ _ _ Ht)) as Hs.
  unfold builder_new.
  assert (exists idx, index_fields (fun off => Ok off) t (schema_fields s) = Ok idx) as [idx Hidx].
  { apply mapM_is_ok. intros [fo f] _. apply is_ok_ret. }
  destruct (proj2 (tables_total (reloc_fuel (schema_fields s))) t (schema_fields s))
    as [r Hr]; [unfold reloc_fuel; lia|].
  rewrite Hidx. cbn [bind]. rewrite Hr. cbn [bind]. eexists. split; [done|].
  assert (blen (zeros (root_size t)) = root_size t) by (apply blen_zeros; lia).
  split; [|done]. split; simpl; try done. lia.
Qed.

Lemma builder_set s t bb b :
  builder_for s t bb -> root_size t <= blen b -> builder_for s t (set_bytes bb b).
Proof. intros [Hi Hr Hl Hs] Hb. by split. Qed.

(** The entry the index holds for a declared name. *)
Lemma index_entry s t idx name f :
  offsets_for s = Ok t -> index_fields (fun off => Ok off) t (schema_fields s) = Ok idx ->
  find_field name (schema_fields s) = Some f ->
  exists fo e, find_offset t name = Some fo /\ lookup_entry idx name = Some e /\
    fe_ty e = field_ty f /\ fe_offset e = fo_offset fo /\ fo_size fo = slot_size (field_ty f).
Proof.
  intros Ht Hidx Hf. pose proof (named_slot_find s t name Ht) as Hn. rewrite Hf in Hn.
  destruct (List.find _ (ot_fields t)) as [fo|] eqn:Hfo; [|done].
  destruct (index_finds (fun off => Ok off) (schema_fields s) (ot_fields t) (root_size t)
    (root_align t) idx name fo) as [e He]; [by destruct t| |done|].
  { intros g Hg. apply (declared_slot _ _ _ Ht Hg). }
  destruct (index_lookup _ _ _ _ _ _ Ht Hidx He) as (f' & fo' & Hn' & Hoff & Heq).
  exists fo', e. destruct Hn' as (Hf' & Hfo' & _ & _ & _ & Hty). injection Hoff as Hoff.
  assert (f' = f) as -> by congruence.
  split_and!; [done|done|by rewrite Heq|done|by apply st_size].
Qed.

Lemma builder_entry s t bb name f :
  offsets_for s = Ok t -> builder_for s t bb -> find_field name (schema_fields s) = Some f ->
  exists fo e, find_offset t name = Some fo /\ builder_find_entry bb name = Ok e /\
    fe_ty e = field_ty f /\ fe_offset e = fo_offset fo /\ fo_size fo = slot_size (field_ty f).
Proof.
  intros Ht Hbf Hf.
  destruct (index_entry s t _ name f Ht (bf_index _ _ _ Hbf) Hf) as (fo & e & Hfo & He & Hrest).
  exists fo, e. unfold builder_find_entry. by rewrite He.
Qed.

(** Writing one declared field of a builder. *)
Definition field_writer (s : Schema) (t : OffsetTable)
    (w : BufferBuilder -> Field -> Value -> outcome BufferError BufferBuilder) : Prop :=
  forall bb f fo v, builder_for s t bb -> f ∈ schema_fields s -> value_ok v = true ->
  find_offset t (field_name f) = Some fo ->
  exists m, w bb f v = map_ok (set_bytes bb) m /\
            writes (bb_bytes bb) (fo_offset fo) (field_ty f) v m.

(** Writing fields in layout order; [val] is the value of a field, or the
    error of looking it up. *)
Lemma write_fields {A} s t w (fld : A -> Field) (val : A -> outcome BufferError Value) k l :
  offsets_for s = Ok t -> field_writer s t w ->
  forall start slots bb, 0 <= start -> slots_for k t start (map fld l) slots -> builder_for s t bb ->
  (forall a, a ∈ l -> fld a ∈ schema_fields s) ->
  (forall a, a ∈ l -> val a <> Abort) ->
  (forall a v, a ∈ l -> val a = Ok v -> value_ok v = true) ->
  match foldM (fun bb a => let* v := val a in w bb (fld a) v) bb l with
  | Ok bb' => exists vals b', bb' = set_bytes bb b' /\
      mapO (fun a => match val a with Ok v => canon (field_ty (fld a)) v | _ => None end) l = Some vals /\
      blen (bb_bytes bb) <= blen b' /\
      (forall i : nat, Z.of_nat i < blen (bb_bytes bb) -> ~ (start <= Z.of_nat i < root_size t) ->
         bb_bytes bb !! i = b' !! i) /\
      enc_fields 0 b' 0 t (map fld l) vals (blen (bb_bytes bb)) (blen b')
  | Err e =>
      mapO (fun a => match val a with Ok v => canon (field_ty (fld a)) v | _ => None end) l = None
      \/ size_error e
  | Abort => False
  end.
Proof.
  intros Ht Hw. induction l as [|a l IH]; intros start slots bb Hst Hsl Hbf Hin Hna Hok; cbn [foldM].
  { exists [], (bb_bytes bb). split_and!; try done; [by destruct bb|constructor; lia]. }
  assert (exists fo slots', find_offset t (field_name (fld a)) = Some fo /\ start <= fo_offset fo /\
    fo_size fo = slot_size (field_ty (fld a)) /\ slots_for k t (fo_end fo) (map fld l) slots')
    as (fo & slots' & Hfo & Hge & Hsz & Hrest).
  { inversion Hsl; subst; eexists _, _; split_and!; try done; by apply st_size. }
  cbn [mapO]. specialize (Hna a ltac:(left)) as Hna'.
  destruct (val a) as [v|er|] eqn:Hv; cbn [bind]; [|by left|done].
  destruct (Hw bb (fld a) fo v) as (m & -> & Hm); [done|apply Hin; left|eapply Hok; [left|done]|done|].
  destruct m as [b1| |]; cbn [map_ok bind]; [|destruct Hm as [-> | ?]; auto|done].
  destruct Hm as (v' & Hc & Hl1 & Hs1 & Henc). rewrite Hc.
  destruct (find_offset_bounds _ _ _ _ Ht Hfo) as [Ho1 Ho2]. pose proof (bf_size _ _ _ Hbf).
  pose proof (slot_size_bounds (field_ty (fld a))). unfold fo_end in Hrest.
  assert (builder_for s t (set_bytes bb b1)) as Hbf1 by (apply builder_set; [done|lia]).
  specialize (IH (fo_offset fo + fo_size fo) slots' (set_bytes bb b1) ltac:(lia) Hrest Hbf1
    (fun x Hx => Hin x (list_elem_of_further _ _ _ Hx))
    (fun x Hx => Hna x (list_elem_of_further _ _ _ Hx))
    (fun x v Hx => Hok x v (list_elem_of_further _ _ _ Hx))).
  destruct (foldM _ (set_bytes bb b1) l) as [bb'| |]; [|destruct IH as [-> | ?]; auto|done].
  destruct IH as (vals & b' & -> & -> & Hl2 & Hs2 & Hf). cbn [bb_bytes set_bytes] in *.
  exists (v' :: vals), b'. split_and!; [done|done|lia| |].
  - intros i Hi Hn. rewrite Hs1 by lia. apply Hs2; lia.
  - cbn [map]. eapply ef_cons; [done|done| |exact Hf]. rewrite Z.add_0_l.
    eapply (enc_frame 0 b1 b'); [lia|lia|exact Henc| |]; intros i Hi; apply Hs2; lia.
Qed.

(** ** Pasting a child record *)

Lemma paste_emits s t child b align name rname v v' :
  offsets_for s = Ok t -> builder_for s t child -> writable (TSchema s) ->
  abi_align align -> type_graph_align (TSchema s) <= align -> canon (TSchema s) v = Some v' ->
  enc_at 0 (bb_bytes child) 0 (TSchema s) v' 0 (blen (bb_bytes child)) ->
  emits b (TSchema s) v (paste_child b child align name rname).
Proof.
  intros Ht Hbf Hw Hal Hge Hc Henc. unfold paste_child, u32_try_from.
  set (c := pad_to b align). pose proof (pad_to_extends b align) as Hbc. fold c in Hbc.
  pose proof (blen_nonneg c). destruct (blen c <=? U32_MAX) eqn:Hu; zb; cbn [ok_or bind]; [|by right].
  assert (is_u32 (blen c)) as HP by (by unfold is_u32).
  destruct (pad_to_aligned b align) as [Hmod _]; [by apply abi_align_pos|done|]. fold c in Hmod.
  assert (movable (blen c) (TSchema s)) as Hmv.
  { split; [apply Hw..|]. eapply abi_align_mod; [apply type_graph_align_abi|exact Hal|done|done]. }
  pose proof (proj1 (relocation_walk (blen c) HP (reloc_depth (bb_reloc child))) s t _ _ Ht
    (bf_reloc _ _ _ Hbf) Hmv (bb_bytes child) 0 v' 0 (blen (bb_bytes child))) as Hmove.
  destruct (proj1 (walk_total (reloc_depth (bb_reloc child))) (bb_bytes child) s t _ _ 0 (blen c) Ht
    (bf_reloc _ _ _ Hbf)) as [Hna _]; [lia|lia|].
  cbv beta in Hmove. unfold relocate.
  destruct (relocate_pointers _ _ _ _ _) as [d|e|]; cbn [map_err bind]; [| |done].
  - destruct Hmove as [[Hld _] Hd]; [done|lia|lia|done|].
    exists v'. split_and!; [done|by eapply extends_trans, extends_app|done|].
    apply (enc_shift c d [] (blen c) eq_refl) in Hd. rewrite !app_nil_r, !Z.add_0_r in Hd.
    rewrite blen_app. rewrite Hld. eapply enc_at_widen; [|exact Hd]. apply Hbc.
  - right. left. apply Hmove; [done|lia|lia|done].
Qed.

Lemma schema_paste_align_ge t fields s :
  schema_fields s = fields -> table_sound t ->
  abi_align (schema_paste_align t fields) /\
  type_graph_align (TSchema s) <= schema_paste_align t fields.
Proof.
  intros <- Ht. unfold schema_paste_align. pose proof (type_graph_align_abi (TSchema s)) as Hg.
  simpl in Hg |- *. split; [|lia].
  repeat apply abi_align_max; [apply (ts_align t Ht)|done|by left].
Qed.

Lemma child_align_abi s t child a :
  offsets_for s = Ok t -> builder_for s t child -> abi_align a ->
  abi_align (child_align child a) /\ a <= child_align child a.
Proof.
  intros Ht Hbf Ha. unfold child_align. split; [|lia]. rewrite (bf_layout _ _ _ Hbf).
  repeat apply abi_align_max; try done; [apply (ts_align t (offsets_for_fuel_sound _ _ _ Ht))| |by left].
  apply max_list_abi. apply Forall_map. apply Forall_true. intros e. apply type_graph_align_abi.
Qed.

(** ** Records *)

Definition record_written (s : Schema) (t : OffsetTable) (v : Value)
    (m : outcome BufferError BufferBuilder) : Prop :=
  match m with
  | Ok bb => exists v', canon (TSchema s) v = Some v' /\ builder_for s t bb /\
      enc_at 0 (bb_bytes bb) 0 (TSchema s) v' 0 (blen (bb_bytes bb))
  | Err e => canon (TSchema s) v = None \/ size_error e
  | Abort => False
  end.

Lemma map_get_elem {V} k (m : list (string * V)) v : map_get k m = Some v -> (k, v) ∈ m.
Proof.
  induction m as [|[k' v'] m IH]; simpl; [done|].
  destruct (bool_decide (k = k')) eqn:Hk; [|by right; apply IH].
  apply bool_decide_eq_true in Hk as ->. intros [= ->]. left.
Qed.

Lemma value_ok_get d k v :
  value_ok (VDict d) = true -> map_get k (dict_map d) = Some v -> value_ok v = true.
Proof.
  simpl. intros Hok Hg%map_get_elem. rewrite forallb_elem in Hok. by apply (Hok (k, v)).
Qed.

Lemma mapO_ext {A B} (f g : A -> option B) l :
  (forall x, x ∈ l -> f x = g x) -> mapO f l = mapO g l.
Proof.
  induction l as [|x l IH]; intros Hfg; simpl; [done|]. rewrite (Hfg x) by left.
  rewrite IH; [done|]. intros y Hy. apply Hfg. by right.
Qed.

Lemma map2O_zip {A B C} (f : A -> B -> option C) l : forall m,
  length m = length l -> map2O f l m = mapO (fun p => f (fst p) (snd p)) (zip l m).
Proof.
  induction l as [|x l IH]; intros [|y m] Hl; simpl in *; try done. rewrite IH by lia. done.
Qed.

Lemma map2O_length {A B C} (f : A -> B -> option C) l : forall m,
  length m <> length l -> map2O f l m = None.
Proof.
  induction l as [|x l IH]; intros [|y m] Hl; simpl in *; try done.
  rewrite IH by lia. by destruct (f x y).
Qed.

(** From the fields of a fresh child to its record. *)
Lemma fields_record s t bb b' vals :
  offsets_for s = Ok t -> builder_for s t bb -> blen (bb_bytes bb) = root_size t ->
  blen (bb_bytes bb) <= blen b' ->
  enc_fields 0 b' 0 t (schema_fields s) vals (blen (bb_bytes bb)) (blen b') ->
  builder_for s t (set_bytes bb b') /\
  enc_at 0 b' 0 (TSchema s) (mk_record s vals) 0 (blen b').
Proof.
  intros Ht Hbf Hl Hle Hf. split; [apply builder_set; [done|lia]|].
  apply (ea_record _ _ _ _ t _ _ (root_size t)); [done|lia|lia|lia|by rewrite <-Hl].
Qed.

Lemma write_record_fields {A} s t bb v w (fld : A -> Field) (val : A -> outcome BufferError Value) l :
  field_writer s t w -> offsets_for s = Ok t -> builder_for s t bb ->
  blen (bb_bytes bb) = root_size t -> distinct_names (TSchema s) = true ->
  map fld l = schema_fields s ->
  (forall a, a ∈ l -> val a <> Abort) ->
  (forall a v, a ∈ l -> val a = Ok v -> value_ok v = true) ->
  canon (TSchema s) v = mk_record s <$> mapO (fun a =>
    match val a with Ok v => canon (field_ty (fld a)) v | _ => None end) l ->
  record_written s t v (foldM (fun bb a => let* v := val a in w bb (fld a) v) bb l).
Proof.
  intros Hw Ht Hbf Hl Hd Hfld Hna Hok Hc.
  destruct (record_slots_for s t _ _ Ht Hd (bf_reloc _ _ _ Hbf)) as (k & _ & Hsl).
  rewrite <-Hfld in Hsl. unfold record_written. rewrite Hc.
  pose proof (write_fields s t w fld val k l Ht Hw 0 _ bb ltac:(lia) Hsl Hbf) as Hspec.
  specialize (Hspec ltac:(intros a Ha; rewrite <-Hfld; by apply list_elem_of_fmap_2) Hna Hok).
  destruct (foldM _ bb l) as [bb'| |]; [|destruct Hspec as [-> | ?]; auto|done].
  destruct Hspec as (vals & b' & -> & -> & Hle & _ & Hf). rewrite Hfld in Hf.
  destruct (fields_record _ _ _ _ _ Ht Hbf Hl Hle Hf) as [Hbf' Henc].
  by exists (mk_record s vals).
Qed.

Lemma write_record n s t bb v mism :
  field_writer s t (fun bb f v => builder_write_value n bb (field_name f) (field_ty f) v) ->
  offsets_for s = Ok t -> builder_for s t bb -> blen (bb_bytes bb) = root_size t ->
  writable (TSchema s) -> value_ok v = true ->
  record_written s t v (write_record_into_builder (S n) bb s v mism).
Proof.
  intros Hw Ht Hbf Hl Hwr Hok. cbn [write_record_into_builder].
  destruct v as [| | | | |items|d| | | | |]; try (by left).
  - destruct (schema_is_tuple s) eqn:Htup; [|left; simpl; by rewrite Htup].
    destruct (Nat.eqb (length items) (length (schema_fields s))) eqn:Hlen; cbn [negb].
    + apply Nat.eqb_eq in Hlen.
      rewrite (foldM_ext _ (fun bb a => let* v := Ok (snd a) in
        builder_write_value n bb (field_name (fst a)) (field_ty (fst a)) v)) by (by intros ? [] _).
      eapply (write_record_fields s t bb _ _ fst (fun a => Ok (snd a)) _ Hw); try done.
      * apply Hwr.
      * apply fst_zip. lia.
      * intros a v Ha [= <-]. simpl in Hok. rewrite forallb_elem in Hok. apply Hok.
        destruct a. by apply elem_of_zip_r in Ha.
      * cbn [canon]. by rewrite Htup, map2O_zip.
    + left. simpl. rewrite Htup. apply Nat.eqb_neq in Hlen. by rewrite map2O_length.
  - destruct (schema_is_tuple s) eqn:Htup; [left; simpl; by rewrite Htup|].
    eapply (write_record_fields s t bb _ _ (fun f => f)
      (fun f => ok_or (map_get (field_name f) (dict_map d)) _) _ Hw); try done.
    + apply Hwr.
    + apply map_id.
    + intros f _. apply ok_or_not_abort.
    + intros f w _ Hget%ok_or_ok. by eapply value_ok_get.
    + cbn [canon]. rewrite Htup. f_equal. apply mapO_ext. intros f _. by destruct (map_get _ _).
Qed.

(** ** Variants *)

(** Finding a variant by its tag after finding it by name. *)
Lemma find_by_tag (vs : list EnumVariant) x :
  NoDup (map variant_tag vs) -> x ∈ vs ->
  List.find (fun v => variant_tag v =? variant_tag x) vs = Some x.
Proof.
  induction vs as [|y vs IH]; simpl; [by intros _ ?%elem_of_nil|].
  intros [Hy Hnd]%NoDup_cons [->|Hx]%elem_of_cons; [by rewrite Z.eqb_refl|].
  destruct (variant_tag y =? variant_tag x) eqn:He; [|by apply IH]. zb.
  destruct Hy. rewrite He. by apply list_elem_of_fmap_2.
Qed.

Lemma key_is_eq d e n :
  key_is d e n = bool_decide ((dict_variant_of d, dict_brand d) = (Some e, Some n)).
Proof. done. Qed.

(** What the writer stores is what the tag selects. *)
Lemma variant_choice name ty v :
  is_variant_type ty = true -> tags_ok ty = true -> value_ok v = true ->
  match variant_payload_for_value name ty v with
  | Ok (tag, None) => exists sv v', 0 <= tag < 256 /\ variant_selected_payload ty tag = Ok sv /\
      sv_payload sv = None /\ variant_decode ty sv None = Some v' /\ canon ty v = Some v'
  | Ok (tag, Some (pty, pv)) => exists sv pl, 0 <= tag < 256 /\
      variant_selected_payload ty tag = Ok sv /\ sv_payload sv = Some pl /\ svp_ty pl = pty /\
      value_ok pv = true /\
      match canon pty pv with
      | Some w => exists v', variant_decode ty sv (Some w) = Some v' /\ canon ty v = Some v'
      | None => canon ty v = None
      end
  | Err _ => canon ty v = None
  | Abort => False
  end.
Proof.
  intros Hty Htags Hok. destruct v as [| | | | | |d| | | | |]; try (by destruct ty).
  destruct ty as [| | | | | |i|o e|nm vs| |]; try discriminate Hty; cbn [variant_payload_for_value canon].
  - rewrite !key_is_eq. destruct (bool_decide _); [eexists _, _; split_and!; done|].
    destruct (bool_decide _); [|done].
    destruct (map_get "value" (dict_map d)) as [w|] eqn:Hg; cbn [ok_or bind]; [|done].
    eexists _, _. split_and!; try done; [by eapply value_ok_get|].
    destruct (canon i w); [|done]. eexists. split; done.
  - rewrite !key_is_eq. destruct (bool_decide _).
    + destruct (map_get "value" (dict_map d)) as [w|] eqn:Hg; cbn [ok_or bind]; [|done].
      eexists _, _. split_and!; try done; [by eapply value_ok_get|].
      destruct (canon o w); [|done]. eexists. split; done.
    + destruct (bool_decide _); [|done].
      destruct (map_get "error" (dict_map d)) as [w|] eqn:Hg; cbn [ok_or bind]; [|done].
      eexists _, _. split_and!; try done; [by eapply value_ok_get|].
      destruct (canon e w); [|done]. eexists. split; done.
  - destruct (dict_variant_of d) as [en|]; [|done]. destruct (dict_brand d) as [vn|]; [|done].
    destruct (bool_decide (en = nm)); cbn [negb]; [|done]. rewrite pick_find.
    destruct (List.find _ vs) as [x|] eqn:Hx; cbn [ok_or bind]; [|done].
    apply find_elem in Hx as [Hx Hn%bool_decide_eq_true].
    simpl in Htags. apply andb_true_iff in Htags as [Hnd%bool_decide_eq_true Hall].
    rewrite forallb_elem in Hall. specialize (Hall x Hx). apply andb_true_iff in Hall as [Hr _]. zb.
    pose proof (find_by_tag vs x Hnd Hx) as Hfind.
    unfold payload_schema. destruct (variant_fields x) as [|f fs] eqn:Hfs.
    + destruct (dict_map d); [|done]. eexists _, _. cbn [variant_selected_payload].
      rewrite Hfind. cbn [ok_or bind]. unfold payload_schema. rewrite Hfs.
      split_and!; try done. simpl. by rewrite Hn.
    + cbn [ok_or bind]. eexists _, _. cbn [variant_selected_payload].
      rewrite Hfind. cbn [ok_or bind]. unfold payload_schema. rewrite Hfs.
      split_and!; try done. cbn [canon schema_is_tuple schema_fields].
      destruct (mapO _ (f :: fs)) as [vals|]; [|done]. eexists. split; [reflexivity|].
      rewrite Hn. done.
Qed.

Lemma appends_variant n b name ty v :
  (forall b slot pty pv, pty ∈ variant_payload_types ty -> value_ok pv = true -> 0 <= slot ->
     slot + slot_size pty <= blen b -> writes b slot pty pv (write_value_slot n b name slot pty pv)) ->
  is_variant_type ty = true -> tags_ok ty = true -> value_ok v = true ->
  appends b ty v (append_variant_record (S n) b name ty v).
Proof.
  intros Hw Hty Htags Hok. cbn [append_variant_record].
  pose proof (variant_choice name ty v Hty Htags Hok) as Hch.
  destruct (variant_payload_for_value name ty v) as [[tag po]| |]; cbn [bind]; [|by left|done].
  set (c := pad_to b (variant_record_align_runtime ty)).
  pose proof (pad_to_extends b (variant_record_align_runtime ty)) as Hbc. fold c in Hbc.
  pose proof (bytes_at_end c [byte_of_u8 tag]) as Htag.
  assert (blen (c ++ [byte_of_u8 tag]) = blen c + 1) as Hl1 by (by rewrite blen_app).
  pose proof (blen_nonneg c). destruct po as [[pty pv]|].
  - destruct Hch as (sv & pl & Hr & Hsv & Hpl & Hpty & Hpv & Hcanon).
    pose proof (selected_payload_elem _ _ _ _ Hsv Hpl) as Hin. rewrite Hpty in Hin.
    destruct (payload_slot_layout_runtime pty) as [size al] eqn:Hlay.
    assert (slot_size pty = size) as Hsz by (unfold slot_size; by rewrite Hlay).
    destruct (variant_payload_slot_offset (blen c) pty) as [slot|] eqn:Hslot; cbn [ok_or bind];
      [|by right; right; left].
    destruct (checked_add slot size) as [slot_end|] eqn:Hend; cbn [ok_or bind];
      [|by right; right; right]. apply checked_add_Some in Hend as [-> _].
    assert (0 <= blen c) as Hc0 by lia.
    pose proof (payload_slot_offset_nonneg _ _ _ Hc0 Hslot) as Hge.
    pose proof (slot_size_bounds pty).
    rewrite (proj2 (Z.ltb_lt _ _)) by lia.
    set (d := vec_resize (c ++ [byte_of_u8 tag]) (slot + size)).
    assert (extends (c ++ [byte_of_u8 tag]) d) as Hcd by (apply extends_resize; lia).
    assert (blen d = slot + size) as Hld by (apply blen_vec_resize; lia).
    pose proof (Hw d slot pty pv Hin Hpv ltac:(lia) ltac:(lia)) as Hwr.
    destruct (write_value_slot n d name slot pty pv) as [f| |]; cbn [bind]; [| |done]; cycle 1.
    { destruct Hwr as [Hn|?]; [|by right]. left. by rewrite Hn in Hcanon. }
    destruct Hwr as (w & Hcw & Hlf & Hsf & Henc). rewrite Hcw in Hcanon.
    destruct Hcanon as (v' & Hdec & Hcv). exists v'. destruct Hcd as [Hcd1 Hcd2], Hbc as [Hb1 Hb2].
    split_and!; [done| |done|].
    + split; [lia|]. intros i Hi. rewrite Hb2 by lia. rewrite <-Hsf, <-Hcd2 by lia.
      symmetry. apply lookup_app_l. unfold blen in *. lia.
    + intros Hu. rewrite Hld in Henc.
      apply (ea_variant _ _ _ _ tag sv pl slot w v' _ (slot + size)); rewrite ?Hpty, ?Z.add_0_l; try done.
      * eapply bytes_at_same; [exact Htag| |reflexivity|reflexivity].
        intros i Hi. rewrite blen_cons, blen_nil in Hi. rewrite Hcd2 by lia. apply Hsf; lia.
      * lia.
  - destruct Hch as (sv & v' & Hr & Hsv & Hpl & Hdec & Hcv). exists v'.
    split_and!; [done|eapply extends_trans; [exact Hbc|apply extends_app]|apply Hbc|].
    intros Hu. apply (ea_unit_variant _ _ _ _ tag sv); try done; [apply Hbc|lia].
Qed.

(** ** The walk *)

Lemma emits_appends b ty v m : emits b ty v m -> appends b ty v m.
Proof.
  destruct m as [[c p]| |]; simpl; [|done|done]. intros (v' & Hc & He & Hp & Henc).
  exists v'. apply enc_at_le in Henc as Hle; [|lia]. split_and!; try done. lia.
Qed.

(** A child record, built and pasted. *)
Lemma record_emits s t b v m align name rname :
  offsets_for s = Ok t -> writable (TSchema s) ->
  (forall child, builder_for s t child -> abi_align (align child) /\
     type_graph_align (TSchema s) <= align child) ->
  record_written s t v m ->
  emits b (TSchema s) v (let* child := m in paste_child b child (align child) name rname).
Proof.
  intros Ht Hw Hal Hm. destruct m as [child| |]; cbn [bind]; [|done|done].
  destruct Hm as (v' & Hc & Hbf & Henc). destruct (Hal child Hbf). by eapply paste_emits.
Qed.

(** What each marshalling function does with enough fuel. *)
Definition slots_written (n : nat) : Prop := forall b name slot ty v,
  writable ty -> value_ok v = true -> 0 <= slot -> slot + slot_size ty <= blen b ->
  (4 * tsize ty <= n)%nat -> writes b slot ty v (write_value_slot n b name slot ty v).

Definition schemas_appended (n : nat) : Prop := forall b name s v,
  writable (TSchema s) -> value_ok v = true -> (4 * fields_size (schema_fields s) + 3 <= n)%nat ->
  appends b (TSchema s) v (append_schema_value_payload n b name s v).

Definition records_written (n : nat) : Prop := forall s t bb v mism,
  offsets_for s = Ok t -> builder_for s t bb -> blen (bb_bytes bb) = root_size t ->
  writable (TSchema s) -> value_ok v = true -> (4 * fields_size (schema_fields s) + 2 <= n)%nat ->
  record_written s t v (write_record_into_builder n bb s v mism).

Definition fields_written (n : nat) : Prop := forall s t,
  offsets_for s = Ok t -> writable (TSchema s) -> (4 * fields_size (schema_fields s) + 1 <= n)%nat ->
  field_writer s t (fun bb f v => builder_write_value n bb (field_name f) (field_ty f) v).

Definition variants_appended (n : nat) : Prop := forall b name ty v,
  is_variant_type ty = true -> writable ty -> value_ok v = true -> (4 * tsize ty <= n + 1)%nat ->
  appends b ty v (append_variant_record n b name ty v).

Definition lists_appended (n : nat) : Prop := forall b e items,
  writable (TList e) -> forallb value_ok items = true -> (4 * tsize e <= n)%nat ->
  appends b (TList e) (VList items) (append_list_payload n b e items).

Lemma slots_step n :
  schemas_appended n -> variants_appended n -> lists_appended n -> slots_written (S n).
Proof.
  intros IHs IHv IHl b name slot ty v Hw Hok Hslot Hend Hn.
  destruct ty as [| | | | |e|i|o e|nm vs|s|ps r]; cbn [write_value_slot];
    rewrite ?tsize_list, ?tsize_schema in Hn.
  - destruct (is_option_none v) eqn:Hv; [|left; simpl; by rewrite Hv].
    exists option_none. split_and!; [simpl; by rewrite Hv|lia|done|by apply es_inline].
  - destruct v; try (by left). by eapply writes_scalar.
  - destruct v; try (by left). simpl in Hok. zb. by eapply writes_scalar.
  - destruct v; try (by left); simpl in Hok; zb.
    + eapply writes_scalar; try done. intros c Hc. split; [|done]. by apply i64_as_f64_range.
    + by eapply writes_scalar.
  - destruct v; try (by left).
    apply (writes_pointer b slot TString (VString s) name
      (Ok (append_tail_record b 4 (blen (as_bytes s)) (as_bytes s)))); [done|done|done|].
    by apply appends_string.
  - destruct v; try (by left). apply writes_pointer; [done|done|done|]. apply IHl; [done|done|lia].
  - apply writes_pointer; [done|done|done|]. apply IHv; [done|done|done|lia].
  - apply writes_pointer; [done|done|done|]. apply IHv; [done|done|done|lia].
  - apply writes_pointer; [done|done|done|]. apply IHv; [done|done|done|lia].
  - apply writes_pointer; [done|done|done|]. apply IHs; [done|done|lia].
  - by left.
Qed.

Lemma schemas_step n : records_written n -> schemas_appended (S n).
Proof.
  intros IHr b name s v Hw Hok Hn. cbn [append_schema_value_payload].
  destruct (offsets_for_complete s (proj2 (wr_wf _ Hw))) as [t Ht]. rewrite Ht. cbn [map_err bind].
  destruct (builder_new_for s t Ht) as (child & -> & Hbf & Hl). cbn [bind].
  destruct (schema_paste_align_ge t _ s eq_refl (offsets_for_fuel_sound _ _ _ Ht)) as [Ha1 Ha2].
  apply emits_appends, (record_emits s t b v _ (fun c => child_align c _)); [done|done| |].
  - intros c Hc. destruct (child_align_abi _ _ _ _ Ht Hc Ha1). split; [done|lia].
  - apply IHr; try done. lia.
Qed.

Lemma fields_step n : slots_written n -> fields_written (S n).
Proof.
  intros IHw s t Ht Hw Hn bb f fo v Hbf Hf Hok Hfo. cbn [builder_write_value].
  destruct (builder_entry s t bb (field_name f) f Ht Hbf) as (fo' & e & Hfo' & -> & Hty & Hoff & Hsz);
    [apply find_field_schema; [apply (wr_wf _ Hw)|done]|].
  assert (fo' = fo) as -> by congruence. cbn [bind].
  pose proof (writable_field _ _ Hw Hf) as Hwf. rewrite Hty, Hoff.
  rewrite type_matches_refl by apply (wr_wf _ Hwf). cbn [negb]. eexists. split; [reflexivity|].
  destruct (find_offset_bounds _ _ _ _ Ht Hfo). pose proof (bf_size _ _ _ Hbf).
  apply fields_size_elem in Hf. apply IHw; try done; lia.
Qed.

Lemma lists_step n :
  records_written n -> variants_appended n -> lists_appended n -> lists_appended (S n).
Proof.
  intros IHr IHv IHl b e items Hw Hok Hn. cbn [append_list_payload].
  destruct (U32_MAX <? blen items) eqn:Hcnt; [by right|]. zb.
  rewrite forallb_elem in Hok. pose proof (writable_list _ Hw) as Hwe.
  assert (forall emit, list_payload_is_pointer_array e = true ->
    (forall i it b, value_ok it = true -> emits b e it (emit i it b)) ->
    appends b (TList e) (VList items) (append_pointer_array b items emit)) as Harray.
  { intros emit He Hemit. rewrite <-(map_id items) at 1.
    apply appends_pointer_array; [done|done|]. intros i it c Hit. apply Hemit. auto. }
  destruct e as [| | | | |e|i|o e|nm vs|s|ps r]; rewrite ?tsize_list, ?tsize_schema in Hn;
    try (by destruct (proj2 (wr_wf _ Hw)) as [Hl _]);
    try (by apply appends_scalars; [done|by apply forallb_elem|done]);
    try (apply Harray; [done|]; intros k it c Hit; apply emits_entry, IHv; by (done || lia)).
  - apply Harray; [done|]. intros i it c Hit. destruct it; try (by left).
    pose proof Hit as Hit'. simpl in Hit'. zb. rewrite (proj2 (Z.ltb_ge _ _)) by done.
    by apply (emits_entry c TString (VString s) _ (Ok _)), appends_string.
  - apply Harray; [done|]. intros i it c Hit. destruct it; try (by left).
    apply emits_entry, IHl; [done|done|lia].
  - destruct (offsets_for_complete s (proj2 (wr_wf _ Hwe))) as [t Ht]. rewrite Ht. cbn [map_err bind].
    destruct (schema_paste_align_ge t _ s eq_refl (offsets_for_fuel_sound _ _ _ Ht)) as [Ha1 Ha2].
    apply Harray; [done|]. intros i it c Hit.
    destruct (builder_new_for s t Ht) as (child & -> & Hbf & Hl). cbn [bind].
    apply (record_emits s t c it _ (fun _ => schema_paste_align t (schema_fields s))); [done|done|done|].
    apply IHr; try done. lia.
Qed.

Lemma write_walk n :
  slots_written n /\ schemas_appended n /\ records_written n /\ fields_written n /\
  variants_appended n /\ lists_appended n.
Proof.
  induction n as [|n (IHw & IHs & IHr & IHb & IHv & IHl)].
  { split_and!; intros ? *; intros; try (pose proof (tsize_pos ty)); try (pose proof (tsize_pos e)); lia. }
  split_and!; [by apply slots_step|by apply schemas_step| |by apply fields_step| |by apply lists_step].
  - intros s t bb v mism Ht Hbf Hl Hw Hok Hn. apply write_record; try done. apply IHb; [done|done|lia].
  - intros b name ty v Hty Hw Hok Hn. apply appends_variant; [|done|apply Hw|done].
    intros c slot pty pv Hin Hpv Hs He. apply IHw; try done; [by eapply writable_payload|].
    apply variant_payload_types_size in Hin. lia.
Qed.
End Write.
