(* ===== verification/CanonFacts.v ===== *)
(** Canonical values: what a host reads back is a fixed point of marshalling,
    and the fields of a canonical record are found under their names. *)

From Stdlib Require Import ZArith Lia Bool.
From coqutil Require Import Byte Word.LittleEndianList.
From stdpp Require Import base list strings sets.
From S2P Require Import Prelude Bytes SchemaCanonical Layout LayoutFacts Value BufferTypes.
From S2P Require Import IndexFacts Reader ReaderFacts VerifiedRead Relocation Encoding Canon.
From S2P Require Import WriteFacts.
Local Open Scope Z_scope.
Local Open Scope abi_scope.

Section Maps.
Context {H : HostTypes}.

Implicit Types (fs : list Field) (vals : list Value) (m : list (string * Value)).

Lemma record_map_other fs vals m name :
  name ∉ map field_name fs ->
  map_get name (foldl (fun m fv => map_insert (field_name (fst fv)) (snd fv) m) m (zip fs vals))
  = map_get name m.
Proof.
  revert vals m. induction fs as [|f fs IH]; intros vals m Hn; [done|].
  destruct vals as [|v vals]; simpl; [done|].
  rewrite IH; [|simpl in Hn; set_solver]. apply map_get_insert_ne. simpl in Hn. set_solver.
Qed.

(** The fields of a decoded dict, by name. *)
Lemma record_map_get fs vals :
  NoDup (map field_name fs) -> length fs = length vals ->
  Forall2 (fun f v => map_get (field_name f) (record_map fs vals) = Some v) fs vals.
Proof.
  unfold record_map. generalize (@nil (string * Value)). revert vals.
  induction fs as [|f fs IH]; intros vals m Hnd Hlen; destruct vals as [|v vals]; try done.
  inversion Hnd as [|? ? Hf Hnd']; subst. constructor; simpl.
  - rewrite record_map_other by done. by rewrite map_get_insert.
  - apply IH; [done|]. simpl in Hlen. lia.
Qed.

(** ** Marshalling a canonical value again *)

Definition fixed (ty : TypeRepr) : Prop :=
  distinct_names ty = true -> forall v v', canon ty v = Some v' -> canon ty v' = Some v'.

Definition canon_field (m : list (string * Value)) (f : Field) : option Value :=
  match map_get (field_name f) m with Some w => canon (field_ty f) w | None => None end.

Lemma fields_fixed fs m vals :
  Forall (fun f => fixed (field_ty f)) fs -> distinct_fields fs = true ->
  forallb (fun f => distinct_names (field_ty f)) fs = true ->
  mapO (canon_field m) fs = Some vals -> mapO (canon_field (record_map fs vals)) fs = Some vals.
Proof.
  intros IH Hnd%bool_decide_eq_true Hd Hm%mapO_Some. apply mapO_Some.
  pose proof (record_map_get fs vals Hnd ltac:(by eapply Forall2_length)) as Hget.
  apply Forall2_same_length_lookup. split; [by eapply Forall2_length|]. intros i f v Hf Hv.
  pose proof (Forall2_lookup_lr _ _ _ _ _ _ Hget Hf Hv) as Hg.
  pose proof (Forall2_lookup_lr _ _ _ _ _ _ Hm Hf Hv) as Hc. cbv beta in Hg, Hc.
  unfold canon_field in *. rewrite Hg. destruct (map_get (field_name f) m) as [w|]; [|done].
  apply list_elem_of_lookup_2 in Hf. rewrite Forall_forall in IH. rewrite forallb_elem in Hd.
  by eapply (IH f Hf (Hd f Hf)).
Qed.

Lemma items_fixed fs items vals :
  Forall (fun f => fixed (field_ty f)) fs -> forallb (fun f => distinct_names (field_ty f)) fs = true ->
  map2O (fun f w => canon (field_ty f) w) fs items = Some vals ->
  map2O (fun f w => canon (field_ty f) w) fs vals = Some vals.
Proof.
  revert items vals. induction fs as [|f fs IHf]; intros items vals IH Hd Hm; destruct items as [|w items];
    try done; [by injection Hm as <-|]. simpl in *. apply Forall_cons in IH as [H1 H2].
  apply andb_true_iff in Hd as [Hd1 Hd2].
  destruct (canon (field_ty f) w) as [w'|] eqn:Hw; [|done].
  destruct (map2O _ fs items) as [ws|] eqn:Hws; [|done]. injection Hm as <-.
  by rewrite (H1 Hd1 _ _ Hw), (IHf _ _ H2 Hd2 Hws).
Qed.

Lemma enum_fixed nm vs :
  Forall (fun x => Forall (fun f => fixed (field_ty f)) (variant_fields x)) vs -> fixed (TEnum nm vs).
Proof.
  intros IH Hd v v' Hc.
  destruct v as [| | | | | |d| | | | |]; try done. cbn [canon] in Hc.
  destruct (dict_variant_of d) as [en|]; [|done]. destruct (dict_brand d) as [vn|]; [|done].
  destruct (bool_decide_reflect (en = nm)) as [->|]; [|done].
  rewrite pick_find in Hc. destruct (List.find _ vs) as [x|] eqn:Hx; [|done].
  apply find_elem in Hx as Hin. destruct Hin as [Hin _].
  simpl in Hd. rewrite forallb_elem in Hd. specialize (Hd x Hin).
  apply andb_true_iff in Hd as [Hd1 Hd2]. rewrite Forall_forall in IH. specialize (IH x Hin).
  destruct (variant_fields x) as [|g gs] eqn:Hgs.
  - destruct (dict_map d); [|done]. injection Hc as <-. cbn [canon variant_dict dict_variant_of dict_brand dict_map].
    rewrite bool_decide_true, pick_find, Hx, Hgs by done. done.
  - destruct (mapO _ (g :: gs)) as [vals|] eqn:Hm; [|done]. injection Hc as <-.
    cbn [canon variant_dict dict_variant_of dict_brand dict_map].
    rewrite bool_decide_true, pick_find, Hx, Hgs by done.
    pose proof (fields_fixed (g :: gs) (dict_map d) vals IH Hd1 Hd2 Hm) as Hf.
    unfold canon_field in Hf. by rewrite Hf.
Qed.

Lemma record_fixed s : Forall (fun f => fixed (field_ty f)) (schema_fields s) -> fixed (TSchema s).
Proof.
  intros IH Hd v v' Hc.
  cbn [distinct_names] in Hd. apply andb_true_iff in Hd as [Hd1 Hd2].
  destruct v as [| | | | |items|d| | | | |]; try done; cbn [canon] in Hc;
    destruct (schema_is_tuple s) eqn:Ht; try done.
  - destruct (map2O _ _ _) as [vals|] eqn:Hm; [|done]. injection Hc as <-.
    pose proof (items_fixed _ _ _ IH Hd2 Hm) as Hf. unfold mk_record. rewrite Ht.
    cbn [canon]. rewrite Ht, Hf. simpl. unfold mk_record. by rewrite Ht.
  - destruct (mapO _ _) as [vals|] eqn:Hm; [|done]. injection Hc as <-.
    pose proof (fields_fixed _ (dict_map d) vals IH Hd1 Hd2 Hm) as Hf. unfold canon_field in Hf.
    unfold mk_record. rewrite Ht. cbn [canon branded_dict dict_map]. rewrite Ht, Hf. simpl.
    unfold mk_record. by rewrite Ht.
Qed.

Lemma canon_fixed ty : fixed ty.
Proof.
  induction ty as [| | | | |e IH|i IH|o e IHo IHe|nm vs IH|s IH|ps r _ _] using TypeRepr_deep_ind;
    intros Hd v v' Hc.
  - simpl in Hc. destruct (is_option_none v); [|done]. by injection Hc as <-.
  - destruct v; try done. by injection Hc as <-.
  - destruct v; try done. by injection Hc as <-.
  - destruct v; try done; by injection Hc as <-.
  - destruct v; try done. by injection Hc as <-.
  - destruct v as [| | | |items| | | | | | |]; try done. simpl in Hc.
    destruct (mapO (canon e) items) as [ws|] eqn:Hm; [|done]. injection Hc as <-. simpl.
    enough (mapO (canon e) ws = Some ws) as -> by done. apply mapO_Some in Hm. apply mapO_Some.
    clear -Hm IH Hd. induction Hm as [|x y xs ys Hx _ IHm]; constructor; [by eapply IH|done].
  - destruct v as [| | | | | |d| | | | |]; try done. simpl in Hc.
    destruct (key_is d "Option" "None"); [by injection Hc as <-|].
    destruct (key_is d "Option" "Some"); [|done]. destruct (map_get _ _) as [w|]; [|done].
    destruct (canon i w) as [w'|] eqn:Hw; [|done]. injection Hc as <-. simpl.
    by rewrite (IH Hd _ _ Hw).
  - destruct v as [| | | | | |d| | | | |]; try done. simpl in Hc, Hd.
    apply andb_true_iff in Hd as [Hdo Hde]. destruct (key_is d "Result" "Ok").
    + destruct (map_get _ _) as [w|]; [|done]. destruct (canon o w) as [w'|] eqn:Hw; [|done].
      injection Hc as <-. simpl. by rewrite (IHo Hdo _ _ Hw).
    + destruct (key_is d "Result" "Err"); [|done]. destruct (map_get _ _) as [w|]; [|done].
      destruct (canon e w) as [w'|] eqn:Hw; [|done]. injection Hc as <-. simpl.
      by rewrite (IHe Hde _ _ Hw).
  - by eapply enum_fixed.
  - by eapply record_fixed.
  - done.
Qed.

(** ** Canonical values are Rust values *)

Definition entries_ok (m : list (string * Value)) : bool := forallb (fun kv => value_ok (snd kv)) m.

Lemma map_insert_ok k v m : value_ok v = true -> entries_ok m = true -> entries_ok (map_insert k v m) = true.
Proof.
  intros Hv. unfold entries_ok. induction m as [|[k' v'] m IH]; simpl; [by rewrite Hv|].
  intros [H1 H2]%andb_true_iff. destruct (String.compare k k'); simpl; rewrite ?Hv, ?H1, ?H2, ?IH; done.
Qed.

Lemma record_map_ok fs vals : forallb value_ok vals = true -> entries_ok (record_map fs vals) = true.
Proof.
  intros Hv. unfold record_map. assert (entries_ok [] = true) as Hm by done. revert Hm.
  generalize (@nil (string * Value)). revert vals Hv.
  induction fs as [|f fs IH]; intros vals Hv m Hm; [done|]. destruct vals as [|v vals]; [done|].
  simpl in *. apply andb_true_iff in Hv as [H1 H2]. apply IH; [done|]. by apply map_insert_ok.
Qed.

Lemma mk_record_ok s vals : forallb value_ok vals = true -> value_ok (mk_record s vals) = true.
Proof.
  intros Hv. unfold mk_record. destruct (schema_is_tuple s); [done|]. simpl. by apply record_map_ok.
Qed.

Definition keeps_ok (ty : TypeRepr) : Prop :=
  forall v v', value_ok v = true -> canon ty v = Some v' -> value_ok v' = true.

Lemma fields_keep_ok fs d vals :
  Forall (fun f => keeps_ok (field_ty f)) fs -> value_ok (VDict d) = true ->
  mapO (canon_field (dict_map d)) fs = Some vals -> forallb value_ok vals = true.
Proof.
  intros IH Hd Hm%mapO_Some. induction Hm as [|f v fs vals Hf _ IHm]; [done|].
  apply Forall_cons in IH as [H1 H2]. simpl. apply andb_true_iff. split; [|by apply IHm].
  unfold canon_field in Hf. destruct (map_get (field_name f) (dict_map d)) as [w|] eqn:Hg; [|done].
  eapply H1; [|done]. by eapply value_ok_get.
Qed.

Lemma items_keep_ok fs items vals :
  Forall (fun f => keeps_ok (field_ty f)) fs -> forallb value_ok items = true ->
  map2O (fun f w => canon (field_ty f) w) fs items = Some vals -> forallb value_ok vals = true.
Proof.
  revert items vals. induction fs as [|f fs IHf]; intros items vals IH Hv Hm; destruct items as [|w items];
    try done; [by injection Hm as <-|]. simpl in *. apply Forall_cons in IH as [H1 H2].
  apply andb_true_iff in Hv as [Hv1 Hv2].
  destruct (canon (field_ty f) w) as [w'|] eqn:Hw; [|done].
  destruct (map2O _ fs items) as [ws|] eqn:Hws; [|done]. injection Hm as <-. simpl.
  by rewrite (H1 _ _ Hv1 Hw), (IHf _ _ H2 Hv2 Hws).
Qed.

Lemma canon_ok ty : keeps_ok ty.
Proof.
  induction ty as [| | | | |e IH|i IH|o e IHo IHe|nm vs IH|s IH|ps r _ _] using TypeRepr_deep_ind;
    intros v v' Hv Hc.
  - simpl in Hc. destruct (is_option_none v); [|done]. by injection Hc as <-.
  - destruct v; try done. by injection Hc as <-.
  - destruct v; try done. by injection Hc as <-.
  - destruct v; try done; injection Hc as <-; [|done]. simpl. pose proof (i64_as_f64_range i) as Hr.
    apply andb_true_iff. rewrite Z.leb_le, Z.ltb_lt. simpl in Hv.
    apply andb_true_iff in Hv as [?%Z.leb_le ?%Z.ltb_lt]. apply Hr. by unfold is_i64.
  - destruct v; try done. by injection Hc as <-.
  - destruct v as [| | | |items| | | | | | |]; try done. simpl in Hc, Hv.
    destruct (mapO (canon e) items) as [ws|] eqn:Hm; [|done]. injection Hc as <-. simpl.
    apply mapO_Some in Hm. clear -Hm IH Hv. induction Hm as [|x y xs ys Hx _ IHm]; [done|].
    simpl in *. apply andb_true_iff in Hv as [H1 H2]. by rewrite (IH _ _ H1 Hx), IHm.
  - destruct v as [| | | | | |d| | | | |]; try done. simpl in Hc.
    destruct (key_is d "Option" "None"); [by injection Hc as <-|].
    destruct (key_is d "Option" "Some"); [|done]. destruct (map_get _ _) as [w|] eqn:Hg; [|done].
    destruct (canon i w) as [w'|] eqn:Hw; [|done]. injection Hc as <-. simpl.
    by rewrite (IH _ _ (value_ok_get _ _ _ Hv Hg) Hw).
  - destruct v as [| | | | | |d| | | | |]; try done. simpl in Hc. destruct (key_is d "Result" "Ok").
    + destruct (map_get _ _) as [w|] eqn:Hg; [|done]. destruct (canon o w) as [w'|] eqn:Hw; [|done].
      injection Hc as <-. simpl. by rewrite (IHo _ _ (value_ok_get _ _ _ Hv Hg) Hw).
    + destruct (key_is d "Result" "Err"); [|done]. destruct (map_get _ _) as [w|] eqn:Hg; [|done].
      destruct (canon e w) as [w'|] eqn:Hw; [|done]. injection Hc as <-. simpl.
      by rewrite (IHe _ _ (value_ok_get _ _ _ Hv Hg) Hw).
  - destruct v as [| | | | | |d| | | | |]; try done. cbn [canon] in Hc.
    destruct (dict_variant_of d) as [en|]; [|done]. destruct (dict_brand d) as [vn|]; [|done].
    destruct (bool_decide (en = nm)); [|done].
    rewrite pick_find in Hc. destruct (List.find _ vs) as [x|] eqn:Hx; [|done].
    apply find_elem in Hx as [Hin _]. rewrite Forall_forall in IH. specialize (IH x Hin).
    destruct (variant_fields x) as [|g gs].
    + destruct (dict_map d); [|done]. by injection Hc as <-.
    + destruct (mapO _ (g :: gs)) as [vals|] eqn:Hm; [|done]. injection Hc as <-.
      simpl. by eapply record_map_ok, fields_keep_ok.
  - destruct v as [| | | | |items|d| | | | |]; try done; cbn [canon] in Hc;
      destruct (schema_is_tuple s); try done.
    + destruct (map2O _ _ _) as [vals|] eqn:Hm; [|done]. injection Hc as <-.
      by eapply mk_record_ok, items_keep_ok.
    + destruct (mapO _ _) as [vals|] eqn:Hm; [|done]. injection Hc as <-.
      by eapply mk_record_ok, fields_keep_ok.
  - done.
Qed.
End Maps.

