(* ===== verification/RoundTrip.v ===== *)
(** The contract of the buffer ABI.  Abstractly a builder is a finite map from
    field names to canonical values: [write_value] inserts, and a reader over
    the finished buffer looks up.  The theorems show that the byte-level
    builder and reader refine this map, for records placed at offset 0 and for
    records moved to an arena offset. *)

From Stdlib Require Import ZArith Lia Bool.
From coqutil Require Import Byte Word.LittleEndianList.
From stdpp Require Import base list strings gmap.
From S2P Require Import Prelude Bytes SchemaCanonical Layout LayoutFacts Value BufferTypes.
From S2P Require Import IndexFacts Reader ReaderFacts VerifiedRead Relocation Encoding.
From S2P Require Import DecodeFacts RelocFacts Rebase Builder Marshal Canon WriteFacts.
From S2P Require Import CanonFacts.
Local Open Scope Z_scope.
Local Open Scope abi_scope.

(** ** The abstract specification *)

Section Spec.
Context {H : HostTypes}.

(** Fields written so far, by name. *)
Abbreviation fields_state := (gmap string Value).

(** [write_value(name, ty, v)] on the abstract state. *)
Definition spec_write (s : Schema) (m : fields_state) (name : string) (ty : TypeRepr) (v : Value)
    : option fields_state :=
  match find_field name (schema_fields s) with
  | Some f => if type_matches (field_ty f) ty
              then (fun v' => <[name := v']> m) <$> canon ty v else None
  | None => None
  end.

(** A sequence of writes. *)
Definition write_op : Type := string * TypeRepr * Value.

Fixpoint spec_writes (s : Schema) (m : fields_state) (ws : list write_op) : option fields_state :=
  match ws with
  | [] => Some m
  | (name, ty, v) :: rest =>
      match spec_write s m name ty v with
      | Some m' => spec_writes s m' rest
      | None => None
      end
  end.

Definition write_values (bb : BufferBuilder) (ws : list write_op)
    : outcome BufferError BufferBuilder :=
  foldM (fun bb '(name, ty, v) => write_value bb name ty v) bb ws.

Definition ops_ok (ws : list write_op) : Prop := Forall (fun w => value_ok (snd w) = true) ws.

(** ** The simulation relation *)

Record represents (s : Schema) (t : OffsetTable) (bb : BufferBuilder) (m : fields_state) : Prop := {
  rp_builder : builder_for s t bb;
  rp_field : forall name v, m !! name = Some v ->
    exists f fo lo hi, find_field name (schema_fields s) = Some f /\ find_offset t name = Some fo /\
      enc_slot 0 (bb_bytes bb) (fo_offset fo) (field_ty f) v lo hi /\
      root_size t <= lo /\ hi <= blen (bb_bytes bb);
}.

Lemma represents_new s t :
  offsets_for s = Ok t ->
  exists bb, builder_new t (schema_fields s) = Ok bb /\ represents s t bb ∅.
Proof.
  intros Ht. destruct (builder_new_for s t Ht) as (bb & Hnew & Hbf & _). exists bb.
  split; [done|]. split; [done|]. intros name v Hv. by rewrite lookup_empty in Hv.
Qed.

(** Two slots found under different names do not overlap. *)
Lemma named_slots_disjoint s t n1 n2 fo1 fo2 :
  offsets_for s = Ok t -> find_offset t n1 = Some fo1 -> find_offset t n2 = Some fo2 -> n1 <> n2 ->
  slots_disjoint fo1 fo2.
Proof.
  intros Ht H1 H2 Hne. apply find_elem in H1 as [H1 Hn1%bool_decide_eq_true],
    H2 as [H2 Hn2%bool_decide_eq_true].
  apply list_elem_of_lookup_1 in H1 as [i Hi], H2 as [j Hj].
  eapply table_sound_disjoint; [by eapply offsets_for_fuel_sound| |done|done]. congruence.
Qed.

(** Filling the slot of a declared field. *)
Lemma slot_refines s t bb m name f fo v w :
  offsets_for s = Ok t -> writable (TSchema s) -> represents s t bb m ->
  find_field name (schema_fields s) = Some f -> find_offset t name = Some fo ->
  writes (bb_bytes bb) (fo_offset fo) (field_ty f) v w ->
  match map_ok (set_bytes bb) w with
  | Ok bb' => exists m', spec_write s m name (field_ty f) v = Some m' /\ represents s t bb' m'
  | Err e => spec_write s m name (field_ty f) v = None \/ size_error e
  | Abort => False
  end.
Proof.
  intros Ht Hw [Hbf Hm] Hf Hfo Hwr. unfold spec_write. rewrite Hf.
  apply find_field_elem in Hf as Hin. destruct Hin as [Hin _].
  rewrite type_matches_refl by apply (wr_wf _ (writable_field _ _ Hw Hin)).
  destruct w as [b'| |]; cbn [map_ok bind]; [|destruct Hwr as [-> | ?]; auto|done].
  destruct Hwr as (v' & -> & Hle & Hsame & Henc). eexists. split; [reflexivity|].
  pose proof (bf_size _ _ _ Hbf) as Hsize. destruct (find_offset_bounds _ _ _ _ Ht Hfo) as [Ho1 Ho2].
  destruct (builder_entry s t bb name f Ht Hbf Hf) as (fo0 & _ & Hfo0 & _ & _ & _ & Hsz).
  assert (fo0 = fo) as -> by congruence.
  split; [apply builder_set; [done|lia]|]. intros n w. cbn [bb_bytes set_bytes].
  rewrite lookup_insert. destruct (decide (name = n)) as [<-|Hne].
  - intros [= <-]. by exists f, fo, (blen (bb_bytes bb)), (blen b').
  - intros (f' & fo' & lo & hi & Hf' & Hfo' & Hs & Hlo & Hhi)%Hm.
    exists f', fo', lo, hi. split_and!; try done; [|lia].
    destruct (find_offset_bounds _ _ _ _ Ht Hfo') as [Ho1' Ho2'].
    destruct (builder_entry s t bb n f' Ht Hbf Hf') as (fo2 & _ & Hfo2 & _ & _ & _ & Hsz').
    assert (fo2 = fo') as -> by congruence.
    pose proof (named_slots_disjoint _ _ _ _ _ _ Ht Hfo Hfo' Hne) as Hd.
    unfold slots_disjoint, fo_end in Hd.
    eapply (enc_frame 0 (bb_bytes bb) b'); [lia|lia|exact Hs|..]; intros i Hi; apply Hsame; lia.
Qed.

Lemma write_value_refines s t bb m name ty v :
  offsets_for s = Ok t -> writable (TSchema s) -> value_ok v = true -> represents s t bb m ->
  match write_value bb name ty v with
  | Ok bb' => exists m', spec_write s m name ty v = Some m' /\ represents s t bb' m'
  | Err e => spec_write s m name ty v = None \/ size_error e
  | Abort => False
  end.
Proof.
  intros Ht Hw Hok Hr. pose proof (rp_builder _ _ _ _ Hr) as Hbf.
  unfold write_value, write_fuel. rewrite Nat.add_1_r. cbn [builder_write_value].
  destruct (find_field name (schema_fields s)) as [f|] eqn:Hf; cycle 1.
  { unfold spec_write. rewrite Hf. unfold builder_find_entry.
    destruct (lookup_entry (bb_index bb) name) as [e|] eqn:He; [|by left].
    destruct (index_lookup _ _ _ _ _ _ Ht (bf_index _ _ _ Hbf) He) as (f & fo & (Hf' & _) & _).
    congruence. }
  destruct (builder_entry s t bb name f Ht Hbf Hf) as (fo & e & Hfo & -> & Hty & Hoff & Hsz).
  cbn [bind]. rewrite Hty, Hoff. destruct (type_matches (field_ty f) ty) eqn:Hmt; cbn [negb]; cycle 1.
  { left. unfold spec_write. by rewrite Hf, Hmt. }
  apply type_matches_eq in Hmt as <-. apply find_field_elem in Hf as Hin. destruct Hin as [Hin _].
  destruct (find_offset_bounds _ _ _ _ Ht Hfo) as [Ho1 Ho2]. pose proof (bf_size _ _ _ Hbf) as Hsize.
  eapply slot_refines; try done. apply write_walk; try done; [by eapply writable_field|lia].
Qed.

(** ** Reading *)

(** A reader over the finished buffer resolves every written field. *)
Lemma read_value_represents s t bb m name f v :
  offsets_for s = Ok t -> writable (TSchema s) -> represents s t bb m -> is_slice (finish bb) ->
  find_field name (schema_fields s) = Some f -> m !! name = Some v ->
  exists r, reader_new t (schema_fields s) (finish bb) = Ok r /\
    read_value r name (field_ty f) = Ok v.
Proof.
  intros Ht Hw [Hbf Hm] Hsl Hf Hv. unfold reader_new, finish in *.
  rewrite (proj2 (Z.ltb_ge _ _)) by apply (bf_size _ _ _ Hbf).
  rewrite (bf_index _ _ _ Hbf). cbn [bind]. eexists. split; [reflexivity|].
  destruct (index_entry s t _ name f Ht (bf_index _ _ _ Hbf) Hf) as (fo & e & Hfo & He & Hty & Hoff & _).
  unfold read_value, find_entry. cbn [rd_index rd_bytes]. rewrite He. cbn [ok_or bind].
  rewrite Hty, Hoff. apply find_field_elem in Hf as Hin. destruct Hin as [Hin _].
  pose proof (writable_field _ _ Hw Hin) as Hwf. rewrite type_matches_refl by apply (wr_wf _ Hwf).
  destruct (Hm name v Hv) as (f' & fo' & lo & hi & Hf' & Hfo' & Henc & _ & Hhi).
  assert (f' = f) as -> by congruence. assert (fo' = fo) as -> by congruence.
  eapply decode_walk; [done|done|apply (wr_wf _ Hwf)|done|]. unfold read_fuel. lia.
Qed.

(** A record all of whose fields are written decodes as a whole. *)
Lemma read_record_represents s t bb m vals :
  offsets_for s = Ok t -> writable (TSchema s) -> represents s t bb m -> is_slice (finish bb) ->
  Forall2 (fun f v => m !! field_name f = Some v) (schema_fields s) vals ->
  read_record_at (read_fuel (TSchema s)) (finish bb) 0 t s = Ok (mk_record s vals).
Proof.
  intros Ht Hw [Hbf Hm] Hsl Hall. unfold read_fuel, finish in *.
  rewrite Nat.add_comm. cbn [Nat.add]. apply decode_fields; try done.
  - intros slot ty v lo hi Henc Hl Hhi Hsz. eapply decode_walk; try done.
    rewrite tsize_schema. lia.
  - apply (wr_wf _ Hw).
  - apply (bf_size _ _ _ Hbf).
  - apply Forall2_same_length_lookup. split; [by eapply Forall2_length|].
    intros i f v Hf Hv. pose proof (Forall2_lookup_lr _ _ _ _ _ _ Hall Hf Hv) as Hmv. cbv beta in Hmv.
    destruct (Hm _ _ Hmv) as (f' & fo & lo & hi & Hf' & Hfo & Henc & _ & Hhi).
    rewrite (find_field_schema s f) in Hf'; [|apply (wr_wf _ Hw)|by eapply list_elem_of_lookup_2].
    injection Hf' as <-. by exists fo, lo, hi.
Qed.

Lemma write_values_refines s t ws : forall bb m,
  offsets_for s = Ok t -> writable (TSchema s) -> ops_ok ws -> represents s t bb m ->
  match write_values bb ws with
  | Ok bb' => exists m', spec_writes s m ws = Some m' /\ represents s t bb' m'
  | Err e => spec_writes s m ws = None \/ size_error e
  | Abort => False
  end.
Proof.
  induction ws as [|[[name ty] v] ws IH]; intros bb m Ht Hw Hok Hr; cbn [write_values foldM spec_writes].
  { by exists m. }
  apply Forall_cons in Hok as [Hv Hok].
  pose proof (write_value_refines s t bb m name ty v Ht Hw Hv Hr) as Hone.
  destruct (write_value bb name ty v) as [bb1| |]; cbn [bind]; [|destruct Hone as [-> | ?]; auto|done].
  destruct Hone as (m1 & -> & Hr1). by apply IH.
Qed.

(** ** Whole records, at an arena offset *)

(** A host that fills the declared fields of a record value in order: the
    entries of a dict by name, the items of a tuple by position. *)
Definition marshal_fields (bb : BufferBuilder) (s : Schema) (v : Value)
    : outcome BufferError BufferBuilder :=
  match v with
  | VDict d =>
      foldM (fun bb f =>
        let* w := ok_or (map_get (field_name f) (dict_map d)) (UnknownField (field_name f)) in
        write_value bb (field_name f) (field_ty f) w) bb (schema_fields s)
  | VTuple items =>
      foldM (fun bb fw =>
        let* w := Ok (snd fw) in
        write_value bb (field_name (fst fw)) (field_ty (fst fw)) w) bb (zip (schema_fields s) items)
  | _ => Err (TypeMismatch (schema_name s) "Schema" (type_name v))
  end.

(** The shape of [v] is the shape of the record. *)
Definition record_shape (s : Schema) (v : Value) : bool :=
  match v with
  | VDict _ => negb (schema_is_tuple s)
  | VTuple items => schema_is_tuple s && Nat.eqb (length items) (length (schema_fields s))
  | _ => false
  end.

Lemma write_value_writer s t :
  offsets_for s = Ok t -> writable (TSchema s) ->
  field_writer s t (fun bb f v => write_value bb (field_name f) (field_ty f) v).
Proof.
  intros Ht Hw bb f fo v Hbf Hf Hok Hfo. unfold write_value, write_fuel. rewrite Nat.add_1_r.
  cbn [builder_write_value].
  destruct (builder_entry s t bb (field_name f) f Ht Hbf) as (fo' & e & Hfo' & -> & Hty & Hoff & Hsz);
    [apply find_field_schema; [apply (wr_wf _ Hw)|done]|].
  assert (fo' = fo) as -> by congruence. cbn [bind].
  pose proof (writable_field _ _ Hw Hf) as Hwf. rewrite Hty, Hoff.
  rewrite type_matches_refl by apply (wr_wf _ Hwf). cbn [negb]. eexists. split; [reflexivity|].
  destruct (find_offset_bounds _ _ _ _ Ht Hfo). pose proof (bf_size _ _ _ Hbf).
  apply write_walk; try done; lia.
Qed.

Lemma marshal_written s t bb v :
  offsets_for s = Ok t -> writable (TSchema s) -> value_ok v = true -> record_shape s v = true ->
  builder_new t (schema_fields s) = Ok bb -> record_written s t v (marshal_fields bb s v).
Proof.
  intros Ht Hw Hok Hsh Hnew. destruct (builder_new_for s t Ht) as (bb' & Hnew' & Hbf & Hl).
  assert (bb' = bb) as -> by congruence.
  destruct v as [| | | | |items|d| | | | |]; try discriminate Hsh; cbn [marshal_fields].
  - simpl in Hsh. apply andb_true_iff in Hsh as [Htup Hlen%Nat.eqb_eq].
    eapply (write_record_fields s t bb _ _ fst (fun a => Ok (snd a)) _ (write_value_writer s t Ht Hw));
      try done.
    + apply Hw.
    + apply fst_zip. lia.
    + intros [f w] v Ha [= <-]. simpl in Hok. rewrite forallb_elem in Hok. apply Hok.
      by apply elem_of_zip_r in Ha.
    + cbn [canon]. by rewrite Htup, map2O_zip.
  - simpl in Hsh. apply negb_true_iff in Hsh.
    eapply (write_record_fields s t bb _ _ (fun f => f)
      (fun f => ok_or (map_get (field_name f) (dict_map d)) _) _ (write_value_writer s t Ht Hw)); try done.
    + apply Hw.
    + apply map_id.
    + intros f _. apply ok_or_not_abort.
    + intros f w _ Hget%ok_or_ok. by eapply value_ok_get.
    + cbn [canon]. rewrite Hsh. f_equal. apply mapO_ext. intros f _. by destruct (map_get _ _).
Qed.

Lemma map2O_result_length {A B C} (f : A -> B -> option C) l m r :
  map2O f l m = Some r -> length r = length l.
Proof.
  revert m r. induction l as [|x l IH]; intros [|y m] r; simpl; try done; [by intros [= <-]|].
  destruct (f x y); [|done]. destruct (map2O f l m) as [zs|] eqn:Hm; [|done]. intros [= <-].
  simpl. by rewrite (IH _ _ Hm).
Qed.

Lemma canon_shape s v v' : canon (TSchema s) v = Some v' -> record_shape s v' = true.
Proof.
  destruct v as [| | | | |items|d| | | | |]; try done; cbn [canon];
    destruct (schema_is_tuple s) eqn:Ht; try done.
  - destruct (map2O _ _ _) as [vals|] eqn:Hm; [|done]. intros [= <-]. unfold mk_record.
    rewrite Ht. simpl. rewrite Ht. simpl. apply Nat.eqb_eq. by eapply map2O_result_length.
  - destruct (mapO _ _); [|done]. intros [= <-]. unfold mk_record. rewrite Ht. simpl. by rewrite Ht.
Qed.

(** Moving a finished record to an aligned arena offset. *)
Lemma arena_moved s t bb base v :
  offsets_for s = Ok t -> writable (TSchema s) -> builder_for s t bb ->
  is_u32 base -> base mod type_graph_align (TSchema s) = 0 ->
  enc_at 0 (bb_bytes bb) 0 (TSchema s) v 0 (blen (bb_bytes bb)) ->
  match finish_arena_absolute bb base with
  | Ok out => blen out = blen (finish bb) /\ enc_at base out 0 (TSchema s) v 0 (blen out)
  | Err e => size_error e
  | Abort => False
  end.
Proof.
  intros Ht Hw Hbf Hbase Hal Henc. unfold finish_arena_absolute, finish.
  destruct (base =? 0) eqn:Hz; zb; [by subst|].
  assert (movable base (TSchema s)) as Hmv by (by split; [apply Hw..|]).
  pose proof (proj1 (relocation_walk base Hbase (reloc_depth (bb_reloc bb))) s t _ _ Ht
    (bf_reloc _ _ _ Hbf) Hmv (bb_bytes bb) 0 v 0 (blen (bb_bytes bb))) as Hmove.
  destruct (proj1 (walk_total (reloc_depth (bb_reloc bb))) (bb_bytes bb) s t _ _ 0 base Ht
    (bf_reloc _ _ _ Hbf)) as [Hna _]; [lia|lia|].
  cbv beta in Hmove. unfold relocate.
  destruct (relocate_pointers _ _ _ _ _) as [d|e|]; cbn [map_err]; [| |done].
  - destruct Hmove as [[Hld _] Hd]; [done|lia|lia|done|]. by rewrite Hld.
  - left. apply Hmove; [done|lia|lia|done].
Qed.

(** Reading it back there, whatever surrounds it. *)
Lemma arena_decodes s t pre out suf v :
  offsets_for s = Ok t -> writable (TSchema s) -> is_slice (pre ++ out ++ suf) ->
  enc_at (blen pre) out 0 (TSchema s) v 0 (blen out) ->
  read_record_at (read_fuel (TSchema s)) (pre ++ out ++ suf) (blen pre) t s = Ok v.
Proof.
  intros Ht Hw Hsl Henc. apply (enc_shift pre out suf (blen pre) eq_refl) in Henc.
  rewrite !Z.add_0_r in Henc. eapply decode_walk; try done.
  - apply (wr_wf _ Hw).
  - rewrite !blen_app. pose proof (blen_nonneg suf). lia.
  - unfold read_fuel. rewrite tsize_schema. lia.
Qed.
End Spec.

(** ** Properties *)

Section Properties.
Context {H : HostTypes}.

(** Whole-record round trip: once every declared field has been written, the
    recursive reader returns the record of the last values written, as a
    branded dict or a tuple. *)
Theorem record_roundtrip s t ws bb m vals :
  offsets_for s = Ok t -> writable (TSchema s) -> ops_ok ws ->
  (let* bb := builder_new t (schema_fields s) in write_values bb ws) = Ok bb ->
  is_slice (finish bb) -> spec_writes s ∅ ws = Some m ->
  Forall2 (fun f v => m !! field_name f = Some v) (schema_fields s) vals ->
  read_record_at (read_fuel (TSchema s)) (finish bb) 0 t s = Ok (mk_record s vals).
Proof.
  intros Ht Hw Hok Hbb Hsl Hm Hall. destruct (represents_new s t Ht) as (bb0 & Hnew & Hr0).
  rewrite Hnew in Hbb. cbn [bind] in Hbb.
  pose proof (write_values_refines s t ws bb0 ∅ Ht Hw Hok Hr0) as Hspec. rewrite Hbb in Hspec.
  destruct Hspec as (m' & Hm' & Hr). assert (m' = m) as -> by congruence.
  by eapply read_record_represents.
Qed.

(** C10 Arena round trip, for a [writable] schema (it can be laid out, is of at most 2^59 fields
    per record, has distinct names, and no list nested three deep over scalars or the like,
    whose inner pointers relocation loses, see [deep_lists_not_relocated]): a Rust value of the
    shape of the record, marshalled field by field, finished for an arena offset that respects
    the alignment of its type, and copied into any arena at that offset, decodes there to its
    canonical form; marshalling and rebasing never abort and fail only on values without
    canonical form or on 32-bit offsets. *)
Theorem arena_roundtrip s t v base :
  offsets_for s = Ok t -> writable (TSchema s) -> value_ok v = true -> record_shape s v = true ->
  is_u32 base -> base mod type_graph_align (TSchema s) = 0 ->
  match (let* bb := builder_new t (schema_fields s) in
         let* bb := marshal_fields bb s v in finish_arena_absolute bb base) with
  | Ok out => exists v', canon (TSchema s) v = Some v' /\
      forall pre suf, blen pre = base -> is_slice (pre ++ out ++ suf) ->
      read_record_at (read_fuel (TSchema s)) (pre ++ out ++ suf) base t s = Ok v'
  | Err e => canon (TSchema s) v = None \/ size_error e
  | Abort => False
  end.
Proof.
  intros Ht Hw Hok Hsh Hbase Hal. destruct (builder_new_for s t Ht) as (bb0 & Hnew & _).
  pose proof (marshal_written s t bb0 v Ht Hw Hok Hsh Hnew) as Hm. rewrite Hnew. cbn [bind].
  destruct (marshal_fields bb0 s v) as [bb| |]; cbn [bind]; [|done|done].
  destruct Hm as (v' & Hc & Hbf & Henc).
  pose proof (arena_moved s t bb base v' Ht Hw Hbf Hbase Hal Henc) as Hmove.
  destruct (finish_arena_absolute bb base) as [out| |]; [|by right|done].
  destruct Hmove as [_ Hout]. exists v'. split; [done|]. intros pre suf <- Hsl. by apply arena_decodes.
Qed.

(** Marshalling a decoded value again changes nothing: the canonical form of
    a record, which is what a host reads back, is accepted by the marshaller at
    any aligned arena offset, up to 32-bit size limits, and decodes to itself. *)
Theorem marshal_stable s t v v' base :
  offsets_for s = Ok t -> writable (TSchema s) -> value_ok v = true ->
  canon (TSchema s) v = Some v' ->
  is_u32 base -> base mod type_graph_align (TSchema s) = 0 ->
  match (let* bb := builder_new t (schema_fields s) in
         let* bb := marshal_fields bb s v' in finish_arena_absolute bb base) with
  | Ok out => forall pre suf, blen pre = base -> is_slice (pre ++ out ++ suf) ->
      read_record_at (read_fuel (TSchema s)) (pre ++ out ++ suf) base t s = Ok v'
  | Err e => size_error e
  | Abort => False
  end.
Proof.
  intros Ht Hw Hok Hc Hbase Hal. destruct (builder_new_for s t Ht) as (bb0 & Hnew & _).
  pose proof (canon_ok _ _ _ Hok Hc) as Hok'. pose proof (canon_shape _ _ _ Hc) as Hsh.
  pose proof (canon_fixed _ (proj1 (wr_wf _ Hw)) _ _ Hc) as Hfix.
  pose proof (marshal_written s t bb0 v' Ht Hw Hok' Hsh Hnew) as Hm. rewrite Hnew. cbn [bind].
  destruct (marshal_fields bb0 s v') as [bb|e|]; cbn [bind]; [|by destruct Hm as [Hn| ?]; [congruence|]|done].
  destruct Hm as (w & Hw' & Hbf & Henc). assert (w = v') as -> by congruence.
  pose proof (arena_moved s t bb base v' Ht Hw Hbf Hbase Hal Henc) as Hmove.
  destruct (finish_arena_absolute bb base) as [out| |]; [|done|done].
  destruct Hmove as [_ Hout]. intros pre suf <- Hsl. by apply arena_decodes.
Qed.
End Properties.

(** ** Witnesses *)

#[local] Existing Instance unit_host.

(** A record with an inline field, a list, an option and a nested record. *)
Definition order : Schema :=
  MkSchema "Order" []
    [MkField "id" TInt None; MkField "tags" (TList TString) None;
     MkField "note" (TOption TString) None; MkField "buyer" (TSchema person) None] false.

Definition order_table : OffsetTable :=
  match offsets_for order with Ok t => t | _ => MkOffsetTable [] 0 1 end.

Lemma order_writable : writable (TSchema order).
Proof.
  split; [split; [vm_compute; reflexivity|split; vm_compute; reflexivity]|vm_compute; reflexivity..].
Qed.

Definition bob : Value :=
  branded_dict [("age"%string, VInt 41); ("name"%string, VString "bob")] (Some "Person"%string).

(** Two writes of the same field, in an order that is not the declared one. *)
Definition order_writes : list write_op :=
  [("tags"%string, TList TString, VList [VString "new"; VString ""]);
   ("id"%string, TInt, VInt 1);
   ("buyer"%string, TSchema person, bob);
   ("id"%string, TInt, VInt (-7));
   ("note"%string, TOption TString, option_some (VString "ship"))].

Definition order_builder : outcome BufferError BufferBuilder :=
  let* bb := builder_new order_table (schema_fields order) in write_values bb order_writes.

Definition order_values : list Value :=
  [VInt (-7); VList [VString "new"; VString ""]; option_some (VString "ship"); bob].

Lemma order_ops_ok : ops_ok order_writes.
Proof. repeat constructor. Qed.

Definition order_state : gmap string Value :=
  match spec_writes order ∅ order_writes with Some m => m | None => ∅ end.

Lemma order_state_values :
  Forall2 (fun f v => order_state !! field_name f = Some v) (schema_fields order) order_values.
Proof. repeat constructor. Qed.

(** The same record as a value with an extra entry, marshalled for offset 64. *)
Definition order_value : Value :=
  branded_dict [("buyer"%string, bob); ("extra"%string, VInt 0); ("id"%string, VInt (-7));
    ("note"%string, option_some (VString "ship"));
    ("tags"%string, VList [VString "new"; VString ""])] None.

Lemma arena_roundtrip_witness :
  match (let* bb := builder_new order_table (schema_fields order) in
         let* bb := marshal_fields bb order order_value in finish_arena_absolute bb 64) with
  | Ok out => exists v', canon (TSchema order) order_value = Some v' /\
      forall pre suf, blen pre = 64 -> is_slice (pre ++ out ++ suf) ->
      read_record_at (read_fuel (TSchema order)) (pre ++ out ++ suf) 64 order_table order = Ok v'
  | Err e => canon (TSchema order) order_value = None \/ size_error e
  | Abort => False
  end.
Proof.
  apply (arena_roundtrip order order_table order_value 64);
    [vm_compute; reflexivity|apply order_writable|vm_compute; reflexivity|vm_compute; reflexivity
    |split; vm_compute; congruence|vm_compute; reflexivity].
Defined.

Example order_marshals :
  (let* bb := builder_new order_table (schema_fields order) in
   let* bb := marshal_fields bb order order_value in
   let* out := finish_arena_absolute bb 64 in
   read_record_at (read_fuel (TSchema order)) (zeros 64 ++ out) 64 order_table order)
  = Ok (mk_record order order_values).
Proof. vm_compute. reflexivity. Qed.

Definition order_canonical : Value :=
  match canon (TSchema order) order_value with Some v => v | None => order_value end.

Lemma marshal_stable_witness :
  match (let* bb := builder_new order_table (schema_fields order) in
         let* bb := marshal_fields bb order order_canonical in finish_arena_absolute bb 128) with
  | Ok out => forall pre suf, blen pre = 128 -> is_slice (pre ++ out ++ suf) ->
      read_record_at (read_fuel (TSchema order)) (pre ++ out ++ suf) 128 order_table order
      = Ok order_canonical
  | Err e => size_error e
  | Abort => False
  end.
Proof.
  apply (marshal_stable order order_table order_value order_canonical 128);
    [vm_compute; reflexivity|apply order_writable|vm_compute; reflexivity|vm_compute; reflexivity
    |split; vm_compute; congruence|vm_compute; reflexivity].
Defined.
