(* ===== verification/TypedWriters.v ===== *)
(** The whole writing interface of [BufferBuilder]: every typed writer, nested
    list writer, sub-record and list-record writer refines the same finite map
    as [write_value]. *)

From Stdlib Require Import ZArith Lia Bool.
From coqutil Require Import Byte Word.LittleEndianList.
From stdpp Require Import base list strings gmap.
From S2P Require Import Prelude Bytes SchemaCanonical Layout LayoutFacts Value VerifierFacts BufferTypes.
From S2P Require Import IndexFacts Reader ReaderFacts VerifiedRead Relocation Encoding.
From S2P Require Import DecodeFacts RelocFacts Rebase Builder Marshal Canon WriteFacts RoundTrip.
Local Open Scope Z_scope.
Local Open Scope abi_scope.

Lemma max_list_Z_le d l x : d <= x -> (forall y, y ∈ l -> y <= x) -> max_list_Z d l <= x.
Proof.
  destruct l as [|y l]; simpl; [done|]. intros _ Hl. pose proof (Hl y ltac:(left)) as Hy.
  assert (forall z, z ∈ l -> z <= x) as Hrest by (intros z Hz; apply Hl; by right).
  clear Hl. revert y Hy. induction l as [|z l IH]; intros y Hy; simpl; [done|].
  apply IH; [intros w Hw; apply Hrest; by right|]. pose proof (Hrest z ltac:(left)). lia.
Qed.

Section Calls.
Context {H : HostTypes}.

(** ** Calls *)

(** One call of the interface.  [CallSubRecord] is [sub_record], the fields of
    the value, then [finish_sub_record]; [CallListRecord] is a list-record
    writer that is given one record per item. *)
Inductive call : Type :=
| CallInt (name : string) (v : Z)
| CallFloat (name : string) (bits : Z)
| CallBool (name : string) (v : bool)
| CallUnit (name : string)
| CallString (name v : string)
| CallListInt (name : string) (vs : list Z)
| CallListFloat (name : string) (vs : list Z)
| CallListBool (name : string) (vs : list bool)
| CallListString (name : string) (vs : list string)
| CallNestedScalar (name : string) (inner : TypeRepr) (rows : list Value)
| CallNestedPointer (name : string) (inner : TypeRepr) (rows : list Value)
| CallSubRecord (name : string) (sub : Schema) (v : Value)
| CallListRecord (name : string) (elem : Schema) (items : list Value)
| CallValue (name : string) (ty : TypeRepr) (v : Value).

(** The abstract write of a call. *)
Definition call_write (c : call) : write_op :=
  match c with
  | CallInt name v => (name, TInt, VInt v)
  | CallFloat name bits => (name, TFloat, VFloat bits)
  | CallBool name v => (name, TBool, VBool v)
  | CallUnit name => (name, TUnit, option_none)
  | CallString name v => (name, TString, VString v)
  | CallListInt name vs => (name, TList TInt, VList (map VInt vs))
  | CallListFloat name vs => (name, TList TFloat, VList (map VFloat vs))
  | CallListBool name vs => (name, TList TBool, VList (map VBool vs))
  | CallListString name vs => (name, TList TString, VList (map VString vs))
  | CallNestedScalar name inner rows => (name, TList (TList inner), VList rows)
  | CallNestedPointer name inner rows => (name, TList (TList inner), VList rows)
  | CallSubRecord name sub v => (name, TSchema sub, v)
  | CallListRecord name elem items => (name, TList (TSchema elem), VList items)
  | CallValue name ty v => (name, ty, v)
  end.

(** The layout a host passes along with a sub-schema. *)
Definition host_layout {A} (name : string) (sub : Schema) (k : OffsetTable -> outcome BufferError A)
    : outcome BufferError A :=
  let* t := map_err (fun _ => MalformedPayload name "nested schema field is not layoutable")
                    (offsets_for sub) in k t.

Definition run_call (bb : BufferBuilder) (c : call) : outcome BufferError BufferBuilder :=
  match c with
  | CallInt name v => write_int bb name v
  | CallFloat name bits => write_float bb name bits
  | CallBool name v => write_bool bb name v
  | CallUnit name => write_unit bb name
  | CallString name v => write_string bb name v
  | CallListInt name vs => write_list_int bb name vs
  | CallListFloat name vs => write_list_float bb name vs
  | CallListBool name vs => write_list_bool bb name vs
  | CallListString name vs => write_list_string bb name vs
  | CallNestedScalar name inner rows => write_nested_scalar_list bb name inner rows
  | CallNestedPointer name inner rows => write_nested_pointer_array_list bb name inner rows
  | CallSubRecord name sub v =>
      host_layout name sub (fun t =>
        let* child := builder_sub_record bb name t (schema_fields sub) in
        let* child := marshal_fields child sub v in
        finish_sub_record bb name child)
  | CallListRecord name elem items =>
      host_layout name elem (fun t =>
        write_list_record bb name t elem (map (fun v child => marshal_fields child elem v) items))
  | CallValue name ty v => write_value bb name ty v
  end.

Definition run_calls (bb : BufferBuilder) (cs : list call) : outcome BufferError BufferBuilder :=
  foldM run_call bb cs.

(** The declared type of a field, when it is declared. *)
Definition declared_as (s : Schema) (name : string) (ty : TypeRepr) : Prop :=
  forall f, find_field name (schema_fields s) = Some f -> field_ty f = ty.

(** What the interface asks of its caller: Rust values; for the writers that do
    not compare types, the declared type; records of the shape of their schema;
    rows whose length fits a [u32]. *)
Definition call_ok (s : Schema) (c : call) : Prop :=
  value_ok (snd (call_write c)) = true /\
  match c with
  | CallNestedScalar name inner rows =>
      declared_as s name (TList (TList inner)) /\ is_scalar inner = true /\
      Forall (fun row => match row with VList items => blen items <= U32_MAX | _ => True end) rows
  | CallNestedPointer name inner rows => declared_as s name (TList (TList inner))
  | CallSubRecord name sub v => declared_as s name (TSchema sub) /\ record_shape sub v = true
  | CallListRecord name elem items =>
      Forall (fun v => record_shape elem v = true) items
  | _ => True
  end.

(** One concrete step against one abstract step. *)
Definition refines (s : Schema) (t : OffsetTable) (m : gmap string Value) (w : write_op)
    (r : outcome BufferError BufferBuilder) : Prop :=
  let '(name, ty, v) := w in
  match r with
  | Ok bb' => exists m', spec_write s m name ty v = Some m' /\ represents s t bb' m'
  | Err e => spec_write s m name ty v = None \/ size_error e
  | Abort => False
  end.

(** ** Looking up the slot *)

(** The entry of a declared field. *)
Definition entry_for (s : Schema) (t : OffsetTable) (name : string) (e : FieldEntry) : Prop :=
  exists f fo, find_field name (schema_fields s) = Some f /\ find_offset t name = Some fo /\
    fe_ty e = field_ty f /\ fe_offset e = fo_offset fo /\ fe_kind e = fo_kind fo /\
    fe_list_element e = fo_list_element fo /\ slot_typed (field_ty f) fo.

Lemma entry_found s t bb name e :
  offsets_for s = Ok t -> builder_for s t bb -> lookup_entry (bb_index bb) name = Some e ->
  entry_for s t name e.
Proof.
  intros Ht Hbf He. destruct (index_lookup _ _ _ _ _ _ Ht (bf_index _ _ _ Hbf) He)
    as (f & fo & (Hf & Hfo & _ & _ & _ & Hty) & Hoff & Heq). injection Hoff as Hoff.
  exists f, fo. rewrite Heq. simpl. by rewrite Hoff.
Qed.

Section Step.
Context (s : Schema) (t : OffsetTable) (bb : BufferBuilder) (m : gmap string Value).
Context (Ht : offsets_for s = Ok t) (Hw : writable (TSchema s)) (Hr : represents s t bb m).

Lemma not_declared name ty v :
  lookup_entry (bb_index bb) name = None -> spec_write s m name ty v = None.
Proof using Ht Hr.
  intros Hl. unfold spec_write. destruct (find_field name (schema_fields s)) as [f|] eqn:Hf; [|done].
  destruct (builder_entry s t bb name f Ht (rp_builder _ _ _ _ Hr) Hf) as (fo & e & _ & He & _).
  unfold builder_find_entry in He. by rewrite Hl in He.
Qed.

Lemma wrong_type name e ty v :
  entry_for s t name e -> type_matches (fe_ty e) ty = false -> spec_write s m name ty v = None.
Proof.
  intros (f & fo & Hf & _ & Hty & _) Hm. unfold spec_write. rewrite Hf. by rewrite <-Hty, Hm.
Qed.

(** A writer that fills the slot it looked up. *)
Lemma slot_call name e ty v w :
  entry_for s t name e -> fe_ty e = ty ->
  (0 <= fe_offset e -> fe_offset e + slot_size ty <= blen (bb_bytes bb) -> writable ty ->
   writes (bb_bytes bb) (fe_offset e) ty v w) ->
  refines s t m (name, ty, v) (map_ok (set_bytes bb) w).
Proof using Ht Hw Hr.
  intros (f & fo & Hf & Hfo & Hty & Hoff & _ & _ & Hst) <- Hwr. rewrite Hty in *.
  destruct (find_offset_bounds _ _ _ _ Ht Hfo) as [Ho1 Ho2].
  pose proof (bf_size _ _ _ (rp_builder _ _ _ _ Hr)). rewrite (st_size _ _ Hst) in Ho2.
  apply find_field_elem in Hf as Hin. destruct Hin as [Hin _].
  rewrite Hoff in Hwr. apply (slot_refines s t bb m name f fo); try done.
  apply Hwr; [lia|lia|]. by eapply writable_field.
Qed.

(** [locate] and then the slot. *)
Lemma locate_call name ty l v k :
  (forall e, entry_for s t name e -> fe_ty e = ty ->
     refines s t m (name, ty, v) (k (fe_offset e, fe_size e, fe_kind e))) ->
  refines s t m (name, ty, v) (let* x := builder_locate bb name ty l in k x).
Proof using Ht Hw Hr.
  intros Hk. unfold builder_locate. destruct (lookup_entry (bb_index bb) name) as [e|] eqn:He; cbn [ok_or bind].
  - pose proof (entry_found s t bb name e Ht (rp_builder _ _ _ _ Hr) He) as Hent.
    destruct (type_matches (fe_ty e) ty) eqn:Hm; cbn [bind].
    + apply Hk; [done|]. by apply type_matches_eq.
    + left. by eapply wrong_type.
  - left. by apply not_declared.
Qed.

(** [locate_list] and then the slot. *)
Lemma locate_list_call name el l v k :
  (forall e le, entry_for s t name e -> fe_ty e = TList el ->
     refines s t m (name, TList el, v) (k (fe_offset e, fe_kind e, le))) ->
  refines s t m (name, TList el, v) (let* x := builder_locate_list bb name el l in k x).
Proof using Ht Hw Hr.
  intros Hk. unfold builder_locate_list.
  destruct (lookup_entry (bb_index bb) name) as [e|] eqn:He; cbn [ok_or bind]; [|left; by apply not_declared].
  pose proof (entry_found s t bb name e Ht (rp_builder _ _ _ _ Hr) He) as Hent.
  destruct (fe_ty e) as [| | | | |d| | | | |] eqn:Hty;
    try (left; eapply wrong_type; [exact Hent|by rewrite Hty]).
  destruct (type_matches d el) eqn:Hm; cbn [negb bind];
    [|left; eapply wrong_type; [exact Hent|by rewrite Hty]].
  apply type_matches_eq in Hm as ->. pose proof Hent as (f & fo & _ & _ & Hfty & _ & _ & Hle & Hst).
  rewrite Hty in Hfty. destruct (st_list _ _ Hst el (eq_sym Hfty)) as (le & Hk' & _).
  rewrite Hle, Hk'. cbn [ok_or bind]. by apply Hk.
Qed.

Lemma entry_pointer name e :
  entry_for s t name e -> is_pointer_indirect (fe_kind e) = negb (inline_type (fe_ty e)).
Proof. intros (f & fo & _ & _ & -> & _ & -> & _ & Hst). apply Hst. Qed.

Lemma entry_list_kind name e el :
  entry_for s t name e -> fe_ty e = TList el -> fe_kind e = PointerIndirect (list_tail_align el).
Proof.
  intros (f & fo & _ & _ & -> & _ & -> & _ & Hst) Hel. by destruct (st_list _ _ Hst el Hel) as (? & _ & _ & ?).
Qed.

(** ** Scalars and strings *)

Lemma call_int name v :
  value_ok (VInt v) = true -> refines s t m (name, TInt, VInt v) (write_int bb name v).
Proof using Ht Hw Hr.
  intros Hok. apply locate_call. intros e He Hty. eapply slot_call; [done|done|]. intros Ho Hend _.
  simpl in Hok. zb. by eapply writes_scalar.
Qed.

Lemma call_float name v :
  value_ok (VFloat v) = true -> refines s t m (name, TFloat, VFloat v) (write_float bb name v).
Proof using Ht Hw Hr.
  intros Hok. apply locate_call. intros e He Hty. eapply slot_call; [done|done|]. intros Ho Hend _.
  simpl in Hok. zb. by eapply writes_scalar.
Qed.

Lemma call_bool name v : refines s t m (name, TBool, VBool v) (write_bool bb name v).
Proof using Ht Hw Hr.
  apply locate_call. intros e He Hty. eapply slot_call; [done|done|]. intros Ho Hend _.
  by eapply writes_scalar.
Qed.

Lemma call_unit name : refines s t m (name, TUnit, option_none) (write_unit bb name).
Proof using Ht Hw Hr.
  apply locate_call. intros e He Hty.
  assert (Ok bb = map_ok (set_bytes bb) (Ok (bb_bytes bb)) (A := _)) as -> by (by destruct bb).
  eapply slot_call; [done|done|]. intros Ho Hend _.
  exists option_none. split_and!; [done|lia|done|]. by apply es_inline.
Qed.

(** ** Pointer slots *)

(** A writer that appends a record and stores its offset. *)
Lemma pointer_call name e ty v a wname :
  entry_for s t name e -> fe_ty e = ty -> inline_type ty = false ->
  (writable ty -> appends (bb_bytes bb) ty v a) ->
  refines s t m (name, ty, v)
    (let* (b, off) := a in map_ok (set_bytes bb) (write_pointer_slot b wname (fe_offset e) off)).
Proof using Ht Hw Hr.
  intros He Hty Hi Ha.
  assert ((let* (b, off) := a in map_ok (set_bytes bb) (write_pointer_slot b wname (fe_offset e) off))
    = map_ok (set_bytes bb) (let* (b, off) := a in write_pointer_slot b wname (fe_offset e) off)) as ->.
  { destruct a as [[b off]| |]; reflexivity. }
  eapply slot_call; [done|done|]. intros Ho Hend Hwt.
  apply writes_pointer; [done|done| |by apply Ha]. by assert (slot_size ty = 4) as <- by (by destruct ty).
Qed.

Lemma call_string name v :
  value_ok (VString v) = true -> refines s t m (name, TString, VString v) (write_string bb name v).
Proof using Ht Hw Hr.
  intros Hok. apply locate_call. intros e He Hty. rewrite (entry_pointer _ _ He), Hty.
  cbn [inline_type negb guard bind]. pose proof Hok as Hok'. simpl in Hok'. zb.
  rewrite (proj2 (Z.ltb_ge _ _)) by done.
  apply (pointer_call name e TString (VString v) (Ok (append_tail_record _ 4 _ _))); [done..|].
  intros _. by apply appends_string.
Qed.

(** ** Lists of scalars *)

Lemma scalar_payload_map {A} (C : A -> Value) (enc : A -> bytes) e vs : forall i,
  (forall i v, scalar_bytes e i (C v) = Ok (enc v)) ->
  scalar_payload e i (map C vs) = Ok (concat (map enc vs)).
Proof.
  induction vs as [|v vs IH]; intros i Henc; simpl; [done|]. by rewrite Henc, IH.
Qed.

Lemma blen_map {A B} (f : A -> B) l : blen (map f l) = blen l.
Proof. unfold blen. by rewrite length_map. Qed.

Lemma appends_words {A} (C : A -> Value) (enc : A -> bytes) e vs :
  is_scalar e = true -> (forall i v, scalar_bytes e i (C v) = Ok (enc v)) ->
  value_ok (VList (map C vs)) = true -> blen vs <= U32_MAX ->
  appends (bb_bytes bb) (TList e) (VList (map C vs))
    (Ok (append_tail_record_with_inner_alignment (bb_bytes bb) 4
           (match e with TInt | TFloat => 8 | _ => 4 end) (blen vs) (concat (map enc vs)))).
Proof.
  intros He Henc Hok Hl.
  pose proof (appends_scalars (bb_bytes bb) e (map C vs) He Hok ltac:(by rewrite blen_map)) as Ha.
  by rewrite (scalar_payload_map C enc), blen_map in Ha by done.
Qed.

Lemma call_list_int name vs :
  value_ok (VList (map VInt vs)) = true ->
  refines s t m (name, TList TInt, VList (map VInt vs)) (write_list_int bb name vs).
Proof using Ht Hw Hr.
  intros Hok. apply locate_call. intros e He Hty. rewrite (entry_list_kind _ _ _ He Hty).
  destruct (U32_MAX <? blen vs) eqn:Hl; [by right|]. zb. cbn [list_tail_align].
  apply (pointer_call name e (TList TInt) _ (Ok (append_tail_record_with_inner_alignment _ 4 8 _ _)));
    [done..|]. intros _. by apply (appends_words VInt i64_to_le TInt).
Qed.

Lemma call_list_float name vs :
  value_ok (VList (map VFloat vs)) = true ->
  refines s t m (name, TList TFloat, VList (map VFloat vs)) (write_list_float bb name vs).
Proof using Ht Hw Hr.
  intros Hok. apply locate_list_call. intros e le He Hty. rewrite (entry_list_kind _ _ _ He Hty).
  destruct (U32_MAX <? blen vs) eqn:Hl; [by right|]. zb. cbn [list_tail_align].
  apply (pointer_call name e (TList TFloat) _ (Ok (append_tail_record_with_inner_alignment _ 4 8 _ _)));
    [done..|]. intros _. by apply (appends_words VFloat u64_to_le TFloat).
Qed.

(** After a 4-byte prefix at a 4-aligned offset no padding is left to add. *)
Lemma pad_to_again (b x : bytes) : blen x = 4 -> pad_to (pad_to b 4 ++ x) 4 = pad_to b 4 ++ x.
Proof.
  intros Hx. set (c := pad_to b 4).
  assert (blen c mod 4 = 0 \/ USIZE_MAX < blen c + (4 - blen c mod 4)) as Hc.
  { unfold c, pad_to. cbn [Z.leb Z.compare Pos.compare Pos.compare_cont]. pose proof (blen_nonneg b).
    destruct (checked_next_multiple_of (blen b) 4) as [r|] eqn:Hn.
    - apply checked_next_multiple_of_Some in Hn; [|lia..]. rewrite blen_vec_resize by lia. lia.
    - apply checked_next_multiple_of_None in Hn; [|lia..]. lia. }
  assert (blen (c ++ x) = blen c + 4) as Hl by (by rewrite blen_app, Hx).
  assert ((blen c + 4) mod 4 = blen c mod 4) as Hm
    by (rewrite <-Z.add_mod_idemp_r, Z.mod_same, Z.add_0_r; lia).
  unfold pad_to. cbn [Z.leb Z.compare Pos.compare Pos.compare_cont].
  pose proof (blen_nonneg c). pose proof (Z.mod_pos_bound (blen c) 4 ltac:(lia)).
  destruct (checked_next_multiple_of (blen (c ++ x)) 4) as [r|] eqn:Hn; [|done].
  rewrite Hl in Hn. unfold checked_next_multiple_of in Hn. cbn [Z.eqb] in Hn. rewrite Hm in Hn.
  destruct (blen c mod 4 =? 0) eqn:Hz; zb.
  - injection Hn as <-. unfold vec_resize. rewrite Hl, Z.leb_refl. apply take_ge. unfold blen in *. lia.
  - apply checked_add_Some in Hn. lia.
Qed.

Lemma tail_record_aligned (b : bytes) len payload :
  append_tail_record_with_inner_alignment b 4 4 len payload = append_tail_record b 4 len payload.
Proof.
  unfold append_tail_record_with_inner_alignment, append_tail_record. cbv zeta.
  cbn [Z.ltb Z.compare Pos.compare Pos.compare_cont].
  rewrite (pad_to_again b (u32_to_le len)) by apply blen_u32. by rewrite <-app_assoc.
Qed.

Lemma call_list_bool name vs :
  value_ok (VList (map VBool vs)) = true ->
  refines s t m (name, TList TBool, VList (map VBool vs)) (write_list_bool bb name vs).
Proof using Ht Hw Hr.
  intros Hok. apply locate_list_call. intros e le He Hty. rewrite (entry_list_kind _ _ _ He Hty).
  cbn [is_pointer_indirect guard bind]. destruct (U32_MAX <? blen vs) eqn:Hl; [by right|]. zb.
  apply (pointer_call name e (TList TBool) _ (Ok (append_tail_record _ 4 _ _))); [done..|]. intros _.
  rewrite <-tail_record_aligned.
  pose proof (appends_words VBool (fun v => [byte_of_bool v]) TBool vs eq_refl ltac:(done) Hok Hl) as Ha.
  replace (concat (map (fun v => [byte_of_bool v]) vs)) with (map byte_of_bool vs) in Ha; [done|].
  clear. induction vs as [|v vs IH]; simpl; [done|]. by rewrite IH.
Qed.

(** ** Pointer arrays *)

Lemma call_list_string name vs :
  value_ok (VList (map VString vs)) = true ->
  refines s t m (name, TList TString, VList (map VString vs)) (write_list_string bb name vs).
Proof using Ht Hw Hr.
  intros Hok. apply locate_list_call. intros e le He Hty. rewrite (entry_list_kind _ _ _ He Hty).
  cbn [is_pointer_indirect guard bind]. destruct (U32_MAX <? blen vs) eqn:Hl; [by right|]. zb.
  apply (pointer_call name e (TList TString)); [done..|]. intros _.
  apply appends_pointer_array; [done|done|]. intros i v b Hv.
  assert (value_ok (VString v) = true) as Hv'.
  { simpl in Hok. rewrite forallb_elem in Hok. apply Hok. by apply list_elem_of_fmap_2. }
  pose proof Hv' as Hv2. simpl in Hv2. zb. rewrite (proj2 (Z.ltb_ge _ _)) by done.
  by apply (emits_entry b TString (VString v) _ (Ok _)), appends_string.
Qed.

(** The three lookup lines of the nested writers. *)
Lemma nested_call name inner v l k :
  declared_as s name (TList (TList inner)) ->
  (forall e, entry_for s t name e -> fe_ty e = TList (TList inner) ->
     refines s t m (name, TList (TList inner), v) (k e)) ->
  refines s t m (name, TList (TList inner), v)
    (let* e := ok_or (lookup_entry (bb_index bb) name) (UnknownField name) in
     let is_nested := match fe_ty e with TList (TList _) => true | _ => false end in
     if negb is_nested || negb (is_pointer_indirect (fe_kind e))
     then Err (TypeMismatch name (type_label (fe_ty e)) l) else k e).
Proof using Ht Hr.
  intros Hdecl Hk.
  destruct (lookup_entry (bb_index bb) name) as [e|] eqn:He; cbn [ok_or bind]; [|left; by apply not_declared].
  pose proof (entry_found s t bb name e Ht (rp_builder _ _ _ _ Hr) He) as Hent.
  assert (fe_ty e = TList (TList inner)) as Hty.
  { destruct Hent as (f & fo & Hf & _ & -> & _). by apply Hdecl. }
  cbv zeta. rewrite (entry_list_kind _ _ _ Hent Hty), Hty. cbn [negb orb is_pointer_indirect]. by apply Hk.
Qed.

Lemma call_nested_pointer name inner rows :
  value_ok (VList rows) = true -> declared_as s name (TList (TList inner)) ->
  refines s t m (name, TList (TList inner), VList rows)
    (write_nested_pointer_array_list bb name inner rows).
Proof using Ht Hw Hr.
  intros Hok Hdecl. apply nested_call; [done|]. intros e He Hty.
  apply (pointer_call name e (TList (TList inner))); [done..|]. intros Hwt.
  unfold append_outer_pointer_array. destruct (U32_MAX <? blen rows) eqn:Hl; [by right|]. zb.
  rewrite <-(map_id rows) at 1. apply appends_pointer_array; [done|done|]. intros i row b Hrow.
  simpl in Hok. rewrite forallb_elem in Hok. specialize (Hok row Hrow).
  destruct row; try (by left). apply emits_entry. apply write_walk; [by apply writable_list|done|lia].
Qed.

(** ** Rows of scalars *)

Lemma row_payload inner (f : Value -> outcome BufferError bytes) items : forall j,
  (forall j it, match scalar_bytes inner j it with Ok x => f it = Ok x | _ => exists e, f it = Err e end) ->
  match scalar_payload inner j items with
  | Ok p => exists xs, mapM f items = Ok xs /\ concat xs = p
  | _ => exists e, mapM f items = Err e
  end.
Proof.
  induction items as [|it items IH]; intros j Hf; simpl; [by exists []|].
  specialize (Hf j it) as Hit. destruct (scalar_bytes inner j it) as [x| |]; cbn [bind];
    [|destruct Hit as [er ->]; by exists er..].
  rewrite Hit. cbn [bind]. specialize (IH (S j) Hf).
  destruct (scalar_payload inner (S j) items) as [p| |]; cbn [bind];
    [|destruct IH as [er ->]; by exists er..].
  destruct IH as (xs & -> & <-). by exists (x :: xs).
Qed.

Lemma encode_row_payload name inner i items :
  is_scalar inner = true ->
  match scalar_payload inner 0 items with
  | Ok p => encode_scalar_row name inner i (VList items)
            = Ok (p, blen items, match inner with TInt | TFloat => 8 | _ => 4 end)
  | _ => exists e, encode_scalar_row name inner i (VList items) = Err e
  end.
Proof.
  intros Hi. cbn [encode_scalar_row]. destruct inner; try discriminate Hi;
    match goal with |- context [scalar_payload ?e 0 items] =>
      match goal with |- context [mapM ?f items] =>
        pose proof (row_payload e f items 0 ltac:(intros ? []; simpl; eauto)) as Hrow end end;
    (destruct (scalar_payload _ 0 items) as [p| |];
      [destruct Hrow as (xs & -> & <-); done|destruct Hrow as [er ->]; by exists er..]).
Qed.

Lemma emit_entries_seq {A} (F : nat -> bytes -> outcome BufferError (bytes * Z)) G (rows : list A) :
  forall i b, (forall k row, rows !! k = Some row -> forall b, F (i + k)%nat b = G (i + k)%nat row b) ->
  emit_entries (fun i _ b => F i b) i (seq i (length rows)) b = emit_entries G i rows b.
Proof.
  induction rows as [|row rows IH]; intros i b Hfg; simpl; [done|].
  pose proof (Hfg 0%nat row eq_refl b) as H0. rewrite Nat.add_0_r in H0. rewrite H0.
  destruct (G i row b) as [[c off]| |]; cbn [bind]; [|done|done].
  rewrite IH; [done|]. intros k x Hk c'. rewrite Nat.add_succ_comm. by apply (Hfg (S k)).
Qed.

Lemma call_nested_scalar name inner rows :
  value_ok (VList rows) = true -> declared_as s name (TList (TList inner)) -> is_scalar inner = true ->
  Forall (fun row => match row with VList items => blen items <= U32_MAX | _ => True end) rows ->
  refines s t m (name, TList (TList inner), VList rows) (write_nested_scalar_list bb name inner rows).
Proof using Ht Hw Hr.
  intros Hok Hdecl Hin Hrows. unfold write_nested_scalar_list, write_list_list_with.
  apply nested_call; [done|]. intros e He Hty.
  destruct (U32_MAX <? Z.of_nat (length rows)) eqn:Hl; [by right|]. zb.
  apply (pointer_call name e (TList (TList inner))); [done..|]. intros Hwt.
  set (G := fun (i : nat) row (b : bytes) =>
    let* (payload, elem_count, al) := encode_scalar_row name inner i row in
    entry_u32 (indexed name i) (append_tail_record_with_inner_alignment b 4 (Z.max al 1) elem_count payload)).
  match goal with |- appends _ _ _ ?x => assert (x = append_pointer_array (bb_bytes bb) rows G) as -> end.
  { unfold append_pointer_array.
    assert (blen (seq 0 (length rows)) = blen rows) as -> by (unfold blen; by rewrite length_seq).
    rewrite (emit_entries_seq (fun i b => let* (payload, elem_count, inner_alignment) :=
      match rows !! i with Some row => encode_scalar_row name inner i row | None => Abort end in
      entry_u32 (indexed name i) (append_tail_record_with_inner_alignment b 4 (Z.max inner_alignment 1)
        elem_count payload)) G); [done|]. intros k row Hk b. simpl. by rewrite Hk. }
  rewrite <-(map_id rows) at 1. apply appends_pointer_array; [done|done|]. intros i row b Hrow.
  simpl in Hok. rewrite forallb_elem in Hok. specialize (Hok row Hrow).
  rewrite Forall_forall in Hrows. specialize (Hrows row Hrow). unfold G.
  destruct row as [| | | |items| | | | | | |]; try (by left).
  pose proof (appends_scalars b inner items Hin Hok Hrows) as Ha.
  pose proof (encode_row_payload name inner i items Hin) as He'.
  assert (exists size align, scalar_elem inner = Some (size, align)) as (size & align & Hel)
    by (destruct inner; try discriminate Hin; simpl; eauto).
  pose proof (scalar_payload_spec inner size align items 0 Hel Hok) as Hspec.
  destruct (scalar_payload inner 0 items) as [p| |]; cbn [bind] in Ha; [| |done].
  - rewrite He'. cbn [bind]. apply (emits_entry b _ _ _ (Ok _)).
    by assert (Z.max (match inner with TInt | TFloat => 8 | _ => 4 end) 1
               = match inner with TInt | TFloat => 8 | _ => 4 end) as -> by (by destruct inner).
  - destruct He' as [e' ->]. left. simpl. by rewrite Hspec.
Qed.

(** ** Sub-records *)

Lemma emit_call name e ty v a :
  entry_for s t name e -> fe_ty e = ty -> inline_type ty = false ->
  (writable ty -> emits (bb_bytes bb) ty v a) ->
  refines s t m (name, ty, v)
    (let* (b, ptr) := a in map_ok (set_bytes bb) (patch b (fe_offset e) (u32_to_le ptr))).
Proof using Ht Hw Hr.
  intros He Hty Hi Ha.
  assert (writable ty) as Hwt.
  { destruct He as (f & fo & Hf & _ & Hfty & _). apply find_field_elem in Hf as [Hf _].
    rewrite <-Hty, Hfty. by eapply writable_field. }
  assert ((let* (b, ptr) := a in map_ok (set_bytes bb) (patch b (fe_offset e) (u32_to_le ptr)))
    = (let* (b, off) := a in map_ok (set_bytes bb) (write_pointer_slot b name (fe_offset e) off))) as ->.
  { specialize (Ha Hwt). destruct a as [[b ptr]| |]; [|done|done]. cbn [bind].
    destruct Ha as (v' & _ & _ & Hu & _). unfold write_pointer_slot, u32_try_from.
    by rewrite (proj2 (Z.leb_le _ _)) by apply Hu. }
  apply pointer_call; [done..|]. intros _. by apply emits_appends, Ha.
Qed.

(** The run-time paste alignment dominates the deep alignment of the child. *)
Lemma child_align_deep sub t' child a :
  offsets_for sub = Ok t' -> builder_for sub t' child -> distinct_names (TSchema sub) = true ->
  type_graph_align (TSchema sub) <= child_align child a.
Proof.
  intros Ht' Hbf Hd. unfold child_align.
  enough (type_graph_align (TSchema sub)
    <= max_list_Z 1 (map (fun fe => type_graph_align (fe_ty fe)) (bb_index child))); [lia|].
  cbn [type_graph_align]. apply max_list_Z_le.
  { enough (abi_align (max_list_Z 1 (map (fun fe => type_graph_align (fe_ty fe)) (bb_index child))))
      as Ha%abi_align_pos by lia.
    apply max_list_abi, Forall_map, Forall_true. intros fe. apply type_graph_align_abi. }
  intros x (f & -> & Hf)%list_elem_of_fmap.
  destruct (builder_entry sub t' child (field_name f) f Ht' Hbf) as (fo & fe & _ & He & Hty & _);
    [by apply find_field_schema|].
  apply max_list_Z_ge, list_elem_of_fmap. exists fe. rewrite Hty. split; [done|].
  unfold builder_find_entry in He. apply ok_or_ok in He. by apply find_elem in He as [He _].
Qed.

Lemma call_sub_record name sub v :
  value_ok v = true -> declared_as s name (TSchema sub) -> record_shape sub v = true ->
  refines s t m (name, TSchema sub, v) (run_call bb (CallSubRecord name sub v)).
Proof using Ht Hw Hr.
  intros Hok Hdecl Hsh. cbn [run_call]. unfold host_layout.
  destruct (lookup_entry (bb_index bb) name) as [e|] eqn:He; cycle 1.
  { pose proof (offsets_for_total sub) as Hna. pose proof (not_declared name (TSchema sub) v He) as Hnd.
    destruct (offsets_for sub) as [t'| |]; cbn [map_err bind]; [|by left|done].
    unfold builder_sub_record. rewrite He. by left. }
  pose proof (entry_found s t bb name e Ht (rp_builder _ _ _ _ Hr) He) as Hent.
  pose proof Hent as (f & fo & Hf & _ & Hfty & _ & Hk & _ & Hst).
  pose proof (Hdecl f Hf) as Hty. rewrite Hty in *.
  assert (writable (TSchema sub)) as Hws.
  { apply find_field_elem in Hf as [Hin _]. rewrite <-Hty. by eapply writable_field. }
  destruct (offsets_for_complete sub (proj2 (wr_wf _ Hws))) as [t' Ht']. rewrite Ht'. cbn [map_err bind].
  destruct (st_schema _ _ Hst sub eq_refl) as (a & Hka & Haa).
  unfold builder_sub_record. rewrite He. cbn [ok_or bind]. rewrite Hfty, Hk, Hka.
  cbn [is_pointer_indirect guard bind].
  destruct (builder_new_for sub t' Ht') as (child & Hnew & _). rewrite Hnew. cbn [bind].
  pose proof (marshal_written sub t' child v Ht' Hws Hok Hsh Hnew) as Hm.
  unfold finish_sub_record. rewrite He. cbn [ok_or bind].
  assert (forall mm, record_written sub t' v mm -> refines s t m (name, TSchema sub, v)
    (let* (b, ptr) := (let* c := mm in paste_child (bb_bytes bb) c (child_align c a) name name) in
     map_ok (set_bytes bb) (patch b (fe_offset e) (u32_to_le ptr)))) as Hgo.
  { intros mm Hmm. apply emit_call; [done|done|done|]. intros _.
    apply (record_emits sub t' (bb_bytes bb) v mm (fun c => child_align c a)); try done.
    intros c Hc. destruct (child_align_abi sub t' c a Ht' Hc Haa). split; [done|].
    eapply child_align_deep; [done|done|apply (wr_wf _ Hws)]. }
  specialize (Hgo _ Hm). destruct (marshal_fields child sub v) as [c| |]; cbn [bind] in *; [|done|done].
  by rewrite Hfty, Hk, Hka.
Qed.

(** ** List records *)

Lemma canon_list e items : canon (TList e) (VList items) = VList <$> mapO (canon e) items.
Proof. done. Qed.

(** Entry offsets stored one after the other. *)
Lemma entries_stored e (b : bytes) qs vs lo hi : forall pos,
  records_at b e qs vs lo hi -> inline_type e = false -> 0 <= pos ->
  bytes_at b pos (concat (map u32_to_le qs)) -> enc_entries 0 b pos e vs lo hi.
Proof.
  intros pos Hrec He. revert pos. induction Hrec as [|q qs v vs lo mid hi Hq Henc Hrec IH]; intros pos Hp Hat.
  { by constructor. }
  cbn [map concat] in Hat. apply bytes_at_app in Hat as [Hq' Hrest]. rewrite blen_u32 in Hrest.
  eapply ee_cons; [|apply IH; [lia|done]].
  apply (es_pointer _ _ _ q); [done|by rewrite Z.add_0_l|apply Hq|by rewrite Z.add_0_l|done].
Qed.

Definition list_writer (name : string) (off : Z) (elem : Schema) (t' : OffsetTable) (qs : list Z)
    : ListRecordWriter :=
  MkListWriter name off t' elem qs (schema_paste_align t' (schema_fields elem)).

(** The loop of [write_list_record]. *)
Definition paste_step : ListRecordWriter * BufferBuilder ->
    (BufferBuilder -> outcome BufferError BufferBuilder) ->
    outcome BufferError (ListRecordWriter * BufferBuilder) :=
  fun '(w, bb) action =>
    let* child := start_entry w in
    let* child := action child in
    finish_entry w bb child.

Definition paste_entries (w : ListRecordWriter) (b : BufferBuilder) (elem : Schema) (items : list Value)
    : outcome BufferError (ListRecordWriter * BufferBuilder) :=
  foldM paste_step (w, b) (map (fun v child => marshal_fields child elem v) items).

Lemma paste_entries_spec name off elem t' items :
  offsets_for elem = Ok t' -> writable (TSchema elem) ->
  Forall (fun v => value_ok v = true /\ record_shape elem v = true) items ->
  forall qs b,
  match paste_entries (list_writer name off elem t' qs) b elem items with
  | Ok (w', b') => exists vs qs', mapO (canon (TSchema elem)) items = Some vs /\
      w' = list_writer name off elem t' (qs ++ qs') /\ b' = set_bytes b (bb_bytes b') /\
      extends (bb_bytes b) (bb_bytes b') /\
      records_at (bb_bytes b') (TSchema elem) qs' vs (blen (bb_bytes b)) (blen (bb_bytes b'))
  | Err er => mapO (canon (TSchema elem)) items = None \/ size_error er
  | Abort => False
  end.
Proof.
  intros Ht' Hws Hall. unfold paste_entries.
  destruct (schema_paste_align_ge t' _ elem eq_refl (offsets_for_fuel_sound _ _ _ Ht')) as [Ha1 Ha2].
  induction Hall as [|v items [Hok Hsh] _ IH]; intros qs b; cbn [map foldM mapO].
  { exists [], []. split_and!; [done|by rewrite app_nil_r|by destruct b|apply extends_refl|by constructor]. }
  unfold paste_step at 1, start_entry at 1. cbn [lw_elem_layout lw_elem_schema list_writer].
  destruct (builder_new_for elem t' Ht') as (child & Hnew & _). rewrite Hnew. cbn [bind].
  pose proof (marshal_written elem t' child v Ht' Hws Hok Hsh Hnew) as Hm.
  pose proof (record_emits elem t' (bb_bytes b) v _ (fun _ => schema_paste_align t' (schema_fields elem))
    name name Ht' Hws ltac:(done) Hm) as Hem.
  cbv beta in Hem. destruct (marshal_fields child elem v) as [c| |]; cbn [bind] in *;
    [|destruct Hm as [-> | ?]; auto|done].
  unfold finish_entry at 1. cbn [list_writer lw_field_name lw_entry_offsets lw_elem_align lw_slot_offset
    lw_elem_layout lw_elem_schema].
  destruct (U32_MAX <=? blen qs); cbn [bind]; [by right|].
  destruct (paste_child (bb_bytes b) c _ name name) as [[b1 q]| |]; cbn [bind];
    [|destruct Hem as [-> | ?]; auto|done].
  destruct Hem as (v' & Hv' & Hext & Hq & Henc). rewrite Hv'.
  specialize (IH (qs ++ [q]) (set_bytes b b1)). unfold list_writer in IH |- *.
  destruct (foldM _ _ _) as [[w' b']| |]; [|destruct IH as [-> | ?]; auto|done].
  destruct IH as (vs & qs' & Hvs & -> & Hb' & Hext' & Hrec). cbn [bb_bytes set_bytes] in *.
  rewrite Hvs. exists (v' :: vs), (q :: qs'). split_and!; [done|by rewrite <-app_assoc| | |].
  - by rewrite Hb'.
  - by eapply extends_trans.
  - econstructor; [done| |exact Hrec]. destruct Hext' as [Hl Hs].
    eapply (enc_frame 0 b1 (bb_bytes b')); [lia|lia|exact Henc|].
    pose proof (blen_nonneg (bb_bytes b)). eapply same_on_sub; [exact Hs|lia..].
Qed.

(** The header [finish_list_record] appends after the records. *)
Lemma appends_list_header elem (b : bytes) qs vs items :
  extends (bb_bytes bb) b -> records_at b (TSchema elem) qs vs (blen (bb_bytes bb)) (blen b) ->
  mapO (canon (TSchema elem)) items = Some vs -> blen qs <= U32_MAX ->
  appends (bb_bytes bb) (TList (TSchema elem)) (VList items)
    (Ok (pad_to b 4 ++ u32_to_le (blen qs) ++ concat (map u32_to_le qs), blen (pad_to b 4))).
Proof.
  intros [Hl Hs] Hrec Hvs Hq. set (c := pad_to b 4). pose proof (pad_to_extends b 4) as Hbc. fold c in Hbc.
  set (d := c ++ u32_to_le (blen qs) ++ concat (map u32_to_le qs)).
  assert (extends c d) as Hcd by apply extends_app.
  assert (extends b d) as Hbd by (by eapply extends_trans).
  assert (blen vs = blen qs) as Hlen by (apply records_at_length in Hrec; unfold blen; lia).
  assert (blen (concat (map u32_to_le qs)) = 4 * blen qs) as Hlc.
  { clear. induction qs as [|q qs IH]; [done|]. cbn [map concat]. rewrite blen_app, blen_u32, IH, blen_cons. lia. }
  assert (blen d = blen c + 4 + 4 * blen qs) as Hld by (unfold d; rewrite !blen_app, blen_u32, Hlc; lia).
  pose proof (blen_nonneg (bb_bytes bb)). destruct Hbc as [Hlb _].
  pose proof (bytes_at_end c (u32_to_le (blen qs) ++ concat (map u32_to_le qs))) as Hat. fold d in Hat.
  apply bytes_at_app in Hat as [Hhead Hent]. rewrite blen_u32 in Hent.
  exists (VList vs). split_and!; [by rewrite canon_list, Hvs| |lia|].
  - by eapply (extends_trans _ b).
  - intros _. apply (ea_list _ _ _ _ _ _ (blen (bb_bytes bb)) (blen b)); rewrite ?Hlen; try done; try lia.
    { apply Hbd. }
    apply entries_stored with (qs := qs); [|done|lia|done].
    destruct Hbd as [Hl2 Hs2]. eapply records_at_frame; [exact Hl2| |exact Hrec].
    eapply same_on_sub; [exact Hs2|lia..].
Qed.

Lemma call_list_record name elem items :
  value_ok (VList items) = true -> Forall (fun v => record_shape elem v = true) items ->
  refines s t m (name, TList (TSchema elem), VList items) (run_call bb (CallListRecord name elem items)).
Proof using Ht Hw Hr.
  intros Hok Hsh. cbn [run_call]. unfold host_layout, write_list_record, list_record_writer.
  assert (spec_write s m name (TList (TSchema elem)) (VList items) = None ->
    forall er, refines s t m (name, TList (TSchema elem), VList items)
      (let* t0 := map_err (fun _ => MalformedPayload name "nested schema field is not layoutable")
         (offsets_for elem) in Err (er t0))) as Hmiss.
  { intros Hn er. pose proof (offsets_for_total elem). destruct (offsets_for elem); cbn [map_err bind];
      [by left|by left|done]. }
  destruct (lookup_entry (bb_index bb) name) as [e|] eqn:He; cbn [ok_or bind];
    [|apply (Hmiss (not_declared _ _ _ He) (fun _ => _))].
  pose proof (entry_found s t bb name e Ht (rp_builder _ _ _ _ Hr) He) as Hent.
  assert (forall ty, fe_ty e = ty -> type_matches ty (TList (TSchema elem)) = false ->
    spec_write s m name (TList (TSchema elem)) (VList items) = None) as Hwrong
    by (intros ty <- Hm; by eapply wrong_type).
  destruct (fe_ty e) as [| | | | |[| | | | | | | | |sch|]| | | | |] eqn:Hty;
    try (apply (Hmiss (Hwrong _ eq_refl eq_refl) (fun _ => _))).
  destruct (schema_eqb sch elem) eqn:Heq; cbn [negb];
    [|apply (Hmiss (Hwrong _ eq_refl ltac:(simpl; exact Heq)) (fun _ => _))].
  apply schema_eqb_eq in Heq as ->.
  assert (writable (TSchema elem)) as Hws.
  { destruct Hent as (f & fo & Hf & _ & Hfty & _). apply find_field_elem in Hf as [Hin _].
    apply writable_list. rewrite <-Hty, Hfty. by eapply writable_field. }
  destruct (offsets_for_complete elem (proj2 (wr_wf _ Hws))) as [t' Ht']. rewrite Ht'. cbn [map_err bind].
  rewrite (entry_list_kind _ _ _ Hent Hty). cbn [is_pointer_indirect guard bind].
  pose proof (paste_entries_spec name (fe_offset e) elem t' items Ht' Hws) as Hspec.
  specialize (Hspec ltac:(apply Forall_and; split; [apply Forall_forall; by apply forallb_elem|done]) [] bb).
  unfold paste_entries, paste_step, list_writer in Hspec.
  destruct (foldM _ _ _) as [[w' b']| |]; cbn [bind]; [| |done]; cycle 1.
  { destruct Hspec as [Hn|?]; [left|by right]. unfold spec_write.
    destruct (find_field name (schema_fields s)); [|done].
    destruct (type_matches _ _); [|done]. by rewrite canon_list, Hn. }
  destruct Hspec as (vs & qs & Hvs & -> & Hb' & Hext & Hrec). unfold finish_list_record.
  cbn [lw_field_name lw_entry_offsets lw_slot_offset app].
  destruct (U32_MAX <? blen qs) eqn:Hq; [by right|]. zb. rewrite Hb'. cbn [bb_bytes set_bytes].
  apply (pointer_call name e (TList (TSchema elem)) (VList items) (Ok (_, _))); [done..|].
  intros _. by eapply appends_list_header.
Qed.

(** ** Every call *)

Lemma call_refines c : call_ok s c -> refines s t m (call_write c) (run_call bb c).
Proof using Ht Hw Hr.
  intros [Hok Hc]. destruct c; cbn [run_call call_write snd] in *.
  - by apply call_int.
  - by apply call_float.
  - by apply call_bool.
  - by apply call_unit.
  - by apply call_string.
  - by apply call_list_int.
  - by apply call_list_float.
  - by apply call_list_bool.
  - by apply call_list_string.
  - destruct Hc as (? & ? & ?). by apply call_nested_scalar.
  - by apply call_nested_pointer.
  - destruct Hc. by apply call_sub_record.
  - by apply call_list_record.
  - by apply write_value_refines.
Qed.
End Step.
End Calls.

(** ** Properties *)

Section Properties.
Context {H : HostTypes}.

Lemma run_calls_refines s t cs : forall bb m,
  offsets_for s = Ok t -> writable (TSchema s) -> Forall (call_ok s) cs -> represents s t bb m ->
  match run_calls bb cs with
  | Ok bb' => exists m', spec_writes s m (map call_write cs) = Some m' /\ represents s t bb' m'
  | Err e => spec_writes s m (map call_write cs) = None \/ size_error e
  | Abort => False
  end.
Proof.
  induction cs as [|c cs IH]; intros bb m Ht Hw Hall Hr; cbn [run_calls foldM map spec_writes].
  { by exists m. }
  apply Forall_cons in Hall as [Hc Hall]. pose proof (call_refines s t bb m Ht Hw Hr c Hc) as Hone.
  unfold refines in Hone. destruct (call_write c) as [[name ty] v].
  destruct (run_call bb c) as [bb1| |]; cbn [bind]; [|destruct Hone as [-> | ?]; auto|done].
  destruct Hone as (m1 & -> & Hr1). by apply IH.
Qed.

(** C1 The builder interface and the reader refine a finite map. The schema must be [writable]:
    it can be laid out, is of at most 2^59 fields per record, has distinct field and variant
    names, and is without the lists nested three deep over scalars whose inner pointers
    relocation loses ([relocatable]; buffer.rs, [ptr_array_elem_for]). The calls must be as the
    interface asks ([call_ok]): Rust values with strings and rows that fit a 32-bit length; the
    writers that do not compare types get the declared element type; records have the shape of
    their schema. Then any sequence of calls of the typed writers for scalars, strings and
    lists, the nested list writers, sub-records, list records and [write_value], in any order
    and with repetitions, either succeeds exactly as the abstract map allows and every field
    reads back as the canonical form of the last value written to it, or it fails because the
    abstract write is not allowed or because the buffer outgrows 32-bit offsets. It never
    aborts. *)
Theorem builder_refines_map s t cs :
  offsets_for s = Ok t -> writable (TSchema s) -> Forall (call_ok s) cs ->
  match (let* bb := builder_new t (schema_fields s) in run_calls bb cs) with
  | Ok bb => exists m, spec_writes s ∅ (map call_write cs) = Some m /\
      (is_slice (finish bb) -> forall name f v,
         find_field name (schema_fields s) = Some f -> m !! name = Some v ->
         exists r, reader_new t (schema_fields s) (finish bb) = Ok r /\
                   read_value r name (field_ty f) = Ok v)
  | Err e => spec_writes s ∅ (map call_write cs) = None \/ size_error e
  | Abort => False
  end.
Proof.
  intros Ht Hw Hok. destruct (represents_new s t Ht) as (bb0 & -> & Hr0). cbn [bind].
  pose proof (run_calls_refines s t cs bb0 ∅ Ht Hw Hok Hr0) as Hspec.
  destruct (run_calls bb0 cs) as [bb| |]; [|done|done].
  destruct Hspec as (m & Hm & Hr). exists m. split; [done|]. intros Hsl name f v Hf Hv.
  by eapply read_value_represents.
Qed.
End Properties.

(** ** Witness *)

#[local] Existing Instance unit_host.

(** A schema with a field for every writer, and one call of each. *)
Definition gallery : Schema :=
  MkSchema "Gallery" []
    [MkField "i" TInt None; MkField "f" TFloat None; MkField "b" TBool None; MkField "u" TUnit None;
     MkField "s" TString None; MkField "li" (TList TInt) None; MkField "lf" (TList TFloat) None;
     MkField "lb" (TList TBool) None; MkField "ls" (TList TString) None;
     MkField "lli" (TList (TList TInt)) None; MkField "lls" (TList (TList TString)) None;
     MkField "p" (TSchema person) None; MkField "lp" (TList (TSchema person)) None;
     MkField "o" (TOption TInt) None] false.

Definition gallery_table : OffsetTable :=
  match offsets_for gallery with Ok t => t | _ => MkOffsetTable [] 0 1 end.

Definition gallery_calls : list call :=
  [CallInt "i" 5; CallFloat "f" 0; CallBool "b" true; CallUnit "u"; CallString "s" "text";
   CallListInt "li" [1; -1]; CallListFloat "lf" [0]; CallListBool "lb" [true; false];
   CallListString "ls" ["a"; ""]%string;
   CallNestedScalar "lli" TInt [VList [VInt 3]; VList []];
   CallNestedPointer "lls" TString [VList [VString "x"]];
   CallSubRecord "p" person bob; CallListRecord "lp" person [bob; bob];
   CallValue "o" (TOption TInt) (option_some (VInt 9)); CallInt "i" 6].

Lemma gallery_writable : writable (TSchema gallery).
Proof.
  split; [split; [vm_compute; reflexivity|split; vm_compute; reflexivity]|vm_compute; reflexivity..].
Qed.

Lemma gallery_calls_ok : Forall (call_ok gallery) gallery_calls.
Proof.
  repeat constructor; try (intros f Hf; injection Hf as <-; reflexivity); vm_compute; congruence.
Qed.

Lemma builder_refines_map_witness :
  match (let* bb := builder_new gallery_table (schema_fields gallery) in run_calls bb gallery_calls) with
  | Ok bb => exists m, spec_writes gallery ∅ (map call_write gallery_calls) = Some m /\
      (is_slice (finish bb) -> forall name f v,
         find_field name (schema_fields gallery) = Some f -> m !! name = Some v ->
         exists r, reader_new gallery_table (schema_fields gallery) (finish bb) = Ok r /\
                   read_value r name (field_ty f) = Ok v)
  | Err e => spec_writes gallery ∅ (map call_write gallery_calls) = None \/ size_error e
  | Abort => False
  end.
Proof.
  apply (builder_refines_map gallery gallery_table gallery_calls);
    [vm_compute; reflexivity|apply gallery_writable|apply gallery_calls_ok].
Defined.

(** The calls do succeed, and two of the fields read back. *)
Example gallery_reads :
  (let* bb := builder_new gallery_table (schema_fields gallery) in
   let* bb := run_calls bb gallery_calls in
   let* r := reader_new gallery_table (schema_fields gallery) (finish bb) in
   let* i := read_value r "i" TInt in
   let* lp := read_value r "lp" (TList (TSchema person)) in Ok (i, lp))
  = Ok (VInt 6, VList [bob; bob]).
Proof. vm_compute. reflexivity. Qed.
