(* ===== verification/Acceptance.v ===== *)
(** The verifier accepts everything the writer produces: if a region covers the
    slots and tail records of an encoding, [verify_record] returns [Ok]. *)

From Stdlib Require Import ZArith Lia Bool.
From coqutil Require Import Byte Word.LittleEndianList.
From stdpp Require Import base list strings gmap.
From S2P Require Import Prelude Bytes SchemaCanonical Layout LayoutFacts Value Verifier VerifierFacts.
From S2P Require Import BufferTypes IndexFacts Reader ReaderFacts VerifiedRead Relocation Encoding.
From S2P Require Import DecodeFacts RelocFacts Rebase Builder Marshal Canon WriteFacts RoundTrip.
Local Open Scope Z_scope.
Local Open Scope abi_scope.

(** ** Computations that do not report an error *)

Definition passes {A} (m : outcome VerifyError A) : Prop :=
  match m with Err _ => False | _ => True end.

Lemma passes_bind {A B} (m : outcome VerifyError A) (k : A -> outcome VerifyError B) :
  passes m -> (forall a, m = Ok a -> passes (k a)) -> passes (let* a := m in k a).
Proof. destruct m; simpl; auto. Qed.

Lemma passes_foldM {S A} (f : S -> A -> outcome VerifyError S) l : forall s,
  (forall s x, x ∈ l -> passes (f s x)) -> passes (foldM f s l).
Proof.
  induction l as [|x l IH]; intros s Hf; simpl; [done|]. apply passes_bind; [apply Hf; left|].
  intros s' _. apply IH. intros ? ? ?. apply Hf. by right.
Qed.

Lemma passes_loop {A} (f : Z -> outcome VerifyError A) n : forall i,
  (forall j, i <= j < i + Z.of_nat n -> passes (f j)) -> passes (loop f i n).
Proof.
  induction n as [|n IH]; intros i Hf; simpl; [done|]. apply passes_bind; [apply Hf; lia|].
  intros y _. apply passes_bind; [|done]. apply IH. intros j Hj. apply Hf. lia.
Qed.

Section Accept.
Context {H : HostTypes}.

(** Levels the verifier descends below a value of the type. *)
Fixpoint nesting (ty : TypeRepr) : Z :=
  let fields_nesting (fs : list Field) : Z := max_list_Z 0 (map (fun f => nesting (field_ty f)) fs) in
  match ty with
  | TList e => 1 + nesting e
  | TOption i => 1 + nesting i
  | TResult o e => 1 + Z.max (nesting o) (nesting e)
  | TEnum _ vs => 2 + max_list_Z 0 (map (fun v => fields_nesting (variant_fields v)) vs)
  | TSchema s => 1 + fields_nesting (schema_fields s)
  | _ => 0
  end.

Lemma max_list_nonneg l : Forall (fun x => 0 <= x) l -> 0 <= max_list_Z 0 l.
Proof.
  destruct l as [|x l]; simpl; [done|]. intros [Hx _]%Forall_cons.
  destruct (fold_max_ge l x). lia.
Qed.

Lemma nesting_nonneg ty : 0 <= nesting ty.
Proof.
  induction ty as [| | | | |e IH|i IH|o IHo e IHe|nm vs IH|s IH|ps r _ _] using TypeRepr_deep_ind;
    simpl; try lia.
  - assert (0 <= max_list_Z 0 (map (fun v => max_list_Z 0 (map (fun f => nesting (field_ty f))
      (variant_fields v))) vs)); [|lia].
    apply max_list_nonneg, Forall_map. eapply Forall_impl; [exact IH|]. intros v Hv.
    by apply max_list_nonneg, Forall_map.
  - assert (0 <= max_list_Z 0 (map (fun f => nesting (field_ty f)) (schema_fields s))); [|lia].
    by apply max_list_nonneg, Forall_map.
Qed.

Lemma nesting_schema_pos s : 1 <= nesting (TSchema s).
Proof.
  simpl. assert (0 <= max_list_Z 0 (map (fun f => nesting (field_ty f)) (schema_fields s))); [|lia].
  apply max_list_nonneg, Forall_map, Forall_true. intros f. apply nesting_nonneg.
Qed.

Lemma nesting_payload ty p : p ∈ variant_payload_types ty -> 1 + nesting p <= nesting ty.
Proof.
  destruct ty; simpl; try (by rewrite elem_of_nil).
  - intros ->%list_elem_of_singleton. lia.
  - rewrite !elem_of_cons, elem_of_nil. intros [->|[->|[]]]; lia.
  - intros (v & Hv & Hp)%list_elem_of_omap. destruct (payload_schema v name) as [s|] eqn:Hs; [|done].
    injection Hp as <-. unfold payload_schema in Hs. simpl.
    assert (max_list_Z 0 (map (fun f => nesting (field_ty f)) (schema_fields s)) <=
      max_list_Z 0 (map (fun v => max_list_Z 0 (map (fun f => nesting (field_ty f)) (variant_fields v)))
                        variants)); [|lia].
    apply max_list_Z_ge. apply list_elem_of_fmap. exists v. split; [|done].
    destruct (variant_fields v); [done|]. by injection Hs as <-.
Qed.

Lemma nesting_field s f : f ∈ schema_fields s -> 1 + nesting (field_ty f) <= nesting (TSchema s).
Proof.
  intros Hf. simpl. apply Z.add_le_mono_l, max_list_Z_ge, list_elem_of_fmap. by exists f.
Qed.

(** ** Sidecars *)

Definition has_sidecar (ty : TypeRepr) (le : option ListElementKind) : Prop :=
  forall e, ty = TList e -> exists k, le = Some k /\ sidecar e k.

Lemma list_kind_of_type ty : lays_out ty -> has_sidecar ty (list_kind_for_list_type ty).
Proof.
  intros Hl e ->. cbn [list_kind_for_list_type].
  destruct (offsets_for_complete (probe_schema (TList e))) as [t Ht].
  { destruct Hl as [H1 H2]. split; simpl in *; by rewrite ?H1, ?H2. }
  rewrite Ht. cbn [ok]. destruct (offsets_for_typed _ _ Ht) as [_ Hall].
  inversion Hall as [|f fo fs fos [_ Hty] Hrest Hf Hfo]; subst.
  destruct (st_list _ _ Hty e eq_refl) as (k & Hk & Hside & _). exists k. done.
Qed.
End Accept.

(** ** The walk *)

(** Every span of [[lo, hi)] is accepted. *)
Record covers (bounds : Bounds) (lo hi : Z) : Prop := {
  cv_span : forall field what off len, lo <= off -> 0 <= len -> off + len <= hi ->
    require_span bounds field what off len = Ok tt;
  cv_slot : forall field off len, lo <= off -> 0 <= len -> off + len <= hi ->
    require_fixed_slot bounds field off len = Ok tt;
}.

Lemma contains_span_in r off len :
  reg_start r <= off -> 0 <= len -> off + len <= reg_end r -> reg_end r <= ISIZE_MAX ->
  contains_span r off len = true.
Proof.
  intros H1 H2 H3 H4. unfold contains_span.
  rewrite checked_add_small by (unfold ISIZE_MAX, USIZE_MAX in *; lia).
  by rewrite (proj2 (Z.leb_le _ _) H1), (proj2 (Z.leb_le _ _) H3).
Qed.

Lemma covers_single r : reg_end r <= ISIZE_MAX -> covers (Single r) (reg_start r) (reg_end r).
Proof.
  intros He. split; intros; unfold require_span, require_fixed_slot;
    rewrite ?checked_add_small by (unfold ISIZE_MAX, USIZE_MAX in *; lia);
    by rewrite contains_span_in.
Qed.

Lemma covers_multi m tag r :
  (tag, r) ∈ regions m -> reg_end r <= ISIZE_MAX -> covers (Multi m) (reg_start r) (reg_end r).
Proof.
  intros Hin He.
  assert (forall off len, reg_start r <= off -> 0 <= len -> off + len <= reg_end r ->
    is_Some (classify_span m off len)) as Hc.
  { intros off len H1 H2 H3. unfold classify_span.
    destruct (List.find _ (regions m)) as [tr|] eqn:Hf; [by eexists|].
    apply (List.find_none _ _) with (x := (tag, r)) in Hf; [|by apply list_elem_of_In].
    simpl in Hf. by rewrite contains_span_in in Hf. }
  split; intros; unfold require_span, require_fixed_slot;
    rewrite ?checked_add_small by (unfold ISIZE_MAX, USIZE_MAX in *; lia);
    (destruct (Hc off len) as [x ->]; done).
Qed.

Section Walk.
Context {H : HostTypes} (b : bytes) (bounds : Bounds) (rlo rhi : Z).
Context (Hcov : covers bounds rlo rhi) (Hlo : 0 <= rlo) (Hhi : rhi <= blen b) (Hmax : rhi <= ISIZE_MAX).

Lemma verify_u32_at off v field what :
  bytes_at b off (u32_to_le v) -> is_u32 v -> rlo <= off -> off + 4 <= rhi ->
  read_u32 b off field what bounds = Ok v.
Proof using Hcov Hlo.
  intros Hat Hv H1 H2. unfold read_u32. rewrite (cv_span _ _ _ Hcov) by lia. cbn [bind].
  rewrite (bytes_at_slice_pos _ _ _ 4 Hat (blen_u32 v)) by lia. cbn [bind].
  by rewrite u32_from_to.
Qed.

(** One level of the walk, over the acceptance of pointer targets. *)
Definition target_ok (n : nat) : Prop :=
  forall field ty le p v lo hi depth, enc_at 0 b p ty v lo hi -> rlo <= lo -> hi <= rhi ->
    wf_type ty -> has_sidecar ty le -> depth + nesting ty < MAX_DEPTH ->
    passes (verify_pointer_target n b field ty le p bounds depth).

Lemma fields_pass n s t p vals depth :
  target_ok n -> offsets_for s = Ok t -> wf_type (TSchema s) ->
  rlo <= p -> p + root_size t <= rhi -> depth < MAX_DEPTH ->
  (forall f, f ∈ schema_fields s -> depth + nesting (field_ty f) < MAX_DEPTH) ->
  Forall2 (fun f v => exists fo lo hi, find_offset t (field_name f) = Some fo /\
    enc_slot 0 b (p + fo_offset fo) (field_ty f) v lo hi /\ rlo <= lo /\ hi <= rhi)
    (schema_fields s) vals ->
  passes (verify_record_inner (S n) b t (schema_fields s) p bounds depth).
Proof using Hcov Hlo Hmax.
  intros IH Ht Hwf Hp Hroot Hd Hnest Hall. cbn [verify_record_inner].
  rewrite (proj2 (Z.leb_gt _ _)) by lia.
  pose proof (offsets_for_fuel_sound _ _ _ Ht) as Hsound. pose proof (ts_size t Hsound).
  rewrite (cv_slot _ _ _ Hcov) by lia. cbn [bind]. apply passes_foldM. intros _ fo Hfo.
  apply list_elem_of_lookup_1 in Hfo as [i Hi].
  destruct (Forall2_lookup_r _ _ _ _ _ (field_slots s t Ht (proj1 Hwf)) Hi) as (f & Hf & Hfind & Hff & Hty).
  destruct (Forall2_lookup_l _ _ _ _ _ Hall Hf) as (v & Hv & fo' & lo & hi & Hfo' & Henc & Hl & Hh).
  assert (fo' = fo) as -> by congruence. apply list_elem_of_lookup_2 in Hf.
  destruct (find_offset_bounds _ _ _ _ Ht Hfind) as [Ho1 Ho2].
  pose proof (slot_size_bounds (field_ty f)). rewrite (st_size _ _ Hty) in Ho2.
  unfold verify_slot. rewrite checked_add_small by (unfold ISIZE_MAX, USIZE_MAX in *; lia).
  cbn [ok_or bind]. rewrite (st_size _ _ Hty), (cv_slot _ _ _ Hcov) by lia. cbn [bind].
  pose proof (st_kind _ _ Hty) as Hk. destruct (fo_kind fo) as [|ta]; [done|]. simpl in Hk.
  rewrite Hff. cbn [ok_or bind].
  inversion Henc as [? ? ? ? ? Hin|? q ? ? ? ? Hin Hu Hq Hptr Hat]; subst; [by rewrite Hin in Hk|].
  rewrite Z.add_0_l in *. assert (slot_size (field_ty f) = 4) by (by destruct (field_ty f)).
  rewrite (verify_u32_at _ q) by (try done; lia). cbn [bind].
  eapply IH; [exact Hat|done|done|by eapply wf_field| |by apply Hnest].
  intros e He. destruct (st_list _ _ Hty e He) as (k & Hk' & Hs & _). eauto.
Qed.

Lemma payload_type_selected ty tag sv pl :
  variant_selected_payload ty tag = Ok sv -> sv_payload sv = pl ->
  variant_payload_type ty tag = Some (svp_ty <$> pl).
Proof.
  intros Hs <-. destruct ty; try done; simpl in *.
  - destruct (tag =? 0); [by injection Hs as <-|]. destruct (tag =? 1); [by injection Hs as <-|done].
  - destruct (tag =? 0); [by injection Hs as <-|]. destruct (tag =? 1); [by injection Hs as <-|done].
  - destruct (List.find _ variants) as [v|]; [|done]. injection Hs as <-. simpl.
    by destruct (payload_schema v name).
Qed.

Lemma variant_slot_verified p ty slot :
  variant_payload_slot_offset p ty = Some slot ->
  checked_add p 1 = Some (p + 1) /\ variant_payload_slot_layout ty = (slot_size ty, snd (payload_slot_layout_runtime ty)) /\
  verify_align_up (p + 1) (snd (payload_slot_layout_runtime ty)) = Some slot.
Proof.
  unfold variant_payload_slot_offset, slot_size, verify_align_up.
  destruct (payload_slot_layout_runtime ty) as [sz al] eqn:Hl. simpl.
  destruct (checked_add p 1) as [raw|] eqn:Hc; [|done]. apply checked_add_Some in Hc as [-> Hm].
  intros Hs. split_and!; [done| |done]. destruct ty; simpl in *; by injection Hl as <- <-.
Qed.

Lemma variant_pass n field ty p v lo hi depth :
  target_ok n -> is_variant_type ty = true -> enc_at 0 b p ty v lo hi -> rlo <= lo -> hi <= rhi ->
  wf_type ty -> depth + nesting ty < MAX_DEPTH ->
  passes (verify_variant_target (S n) b field ty p bounds depth).
Proof using Hcov Hlo Hmax.
  intros IH Hty Henc Hl Hh Hwf Hd. cbn [verify_variant_target].
  pose proof (nesting_nonneg ty).
  rewrite (proj2 (Z.leb_gt _ _)) by lia.
  inversion Henc as [| | | |? ? tag sv ? ? ? Ht Hsv Hpl Hq Htag Hend Hdec
    |? ? tag sv pl slot w ? ? lo' ? Ht Hsv Hpl Hq Htag Hoff Hslot Hs Hdec]; subst; try done.
  - rewrite (cv_span _ _ _ Hcov) by lia. cbn [bind].
    rewrite (index_at _ _ _ Htag). unfold byte_of_u8. rewrite byte.unsigned_of_Z. unfold byte.wrap.
    rewrite Z.mod_small by done. cbn [bind]. by rewrite (payload_type_selected _ _ _ _ Hsv Hpl).
  - pose proof (selected_payload_elem _ _ _ _ Hsv Hpl) as Hin.
    pose proof (enc_slot_le 0 b _ _ _ _ _ ltac:(lia) Hs). pose proof (slot_size_bounds (svp_ty pl)).
    pose proof (variant_slot_after 0 p _ _ ltac:(destruct Htag; lia) Hoff). rewrite !Z.add_0_l in Hoff.
    destruct (variant_slot_verified _ _ _ Hoff) as (Ha & Hlay & Hup).
    rewrite (cv_span _ _ _ Hcov) by lia. cbn [bind].
    rewrite (index_at _ _ _ Htag). unfold byte_of_u8. rewrite byte.unsigned_of_Z. unfold byte.wrap.
    rewrite Z.mod_small by done. cbn [bind]. rewrite (payload_type_selected _ _ _ _ Hsv Hpl).
    cbn [ok_or bind fmap option_fmap option_map]. rewrite Hlay, Ha. cbn [ok_or bind]. rewrite Hup.
    cbn [ok_or bind]. rewrite (cv_span _ _ _ Hcov) by lia. cbn [bind].
    pose proof (wf_payload _ _ Hwf Hin) as Hwp. pose proof (nesting_payload _ _ Hin).
    inversion Hs as [? ? ? ? ? Hi|? q ? ? ? ? Hi Hu Hq' Hptr Hat]; subst.
    { by destruct (svp_ty pl). }
    rewrite Z.add_0_l in *. assert (slot_size (svp_ty pl) = 4) by (by destruct (svp_ty pl)).
    assert (passes (let* target := read_u32 b slot field "variant payload pointer" bounds in
      verify_pointer_target n b field (svp_ty pl) (list_kind_for_list_type (svp_ty pl)) target
        bounds (depth + 1))) as Hgo.
    { rewrite (verify_u32_at _ q) by (try done; lia). cbn [bind].
      eapply IH; [exact Hat|lia|done|done|apply list_kind_of_type, Hwp|lia]. }
    destruct (svp_ty pl); try done. by destruct Hwp as [_ [? _]].
Qed.

Lemma list_pass n field e le p v lo hi depth :
  target_ok n -> enc_at 0 b p (TList e) v lo hi -> rlo <= lo -> hi <= rhi ->
  wf_type (TList e) -> has_sidecar (TList e) le -> depth + nesting (TList e) < MAX_DEPTH ->
  passes (verify_list_target (S n) b field e le p bounds depth).
Proof using Hcov Hlo Hmax.
  intros IH Henc Hl Hh Hwf Hside Hd. cbn [verify_list_target].
  destruct (Hside e eq_refl) as (k & -> & Hk). unfold ISIZE_MAX in Hmax.
  inversion Henc as [|? ? items size align ps ? ? He Hcnt Hp Hhead Hps Hst Hits Hend Hbl
    |? ? items ? lo1 hi1 ? He Hcnt Hp Hph Hhead Hl1 Hh1 Hdis Hents| | |]; subst; try done.
  - pose proof (blen_nonneg items). pose proof (scalar_elem_pos _ _ _ He) as Hsz.
    rewrite !Z.add_0_l in *.
    rewrite (verify_u32_at _ (blen items)) by (try done; nia). cbn [bind].
    rewrite checked_add_small by (unfold USIZE_MAX; nia). cbn [ok_or bind].
    assert (k = InlineFixed size align) as -> by (destruct e; try done; simpl in He; by simplify_eq).
    assert (verify_align_up (p + 4) align = Some ps) as ->.
    { unfold verify_align_up. unfold payload_start in Hst. destruct (1 <? align) eqn:Ha; zb.
      - by rewrite (proj2 (Z.leb_gt _ _)).
      - by rewrite (proj2 (Z.leb_le _ _)). }
    cbn [ok_or bind]. unfold checked_mul.
    rewrite (proj2 (Z.leb_le _ _)) by (unfold U32_MAX, USIZE_MAX in *; nia). cbn [ok_or bind].
    by rewrite (cv_span _ _ _ Hcov) by nia.
  - pose proof (blen_nonneg items). pose proof (enc_entries_le 0 b _ _ _ _ _ ltac:(lia) Hents).
    rewrite (verify_u32_at _ (blen items)) by (try done; lia). cbn [bind].
    rewrite checked_add_small by (unfold USIZE_MAX; lia). cbn [ok_or bind].
    assert (exists a, k = PointerArray a) as [a ->] by (by destruct e).
    apply passes_bind; [|done]. apply passes_loop. intros j Hj.
    unfold checked_mul. rewrite (proj2 (Z.leb_le _ _)) by (unfold U32_MAX, USIZE_MAX in *; lia).
    cbn [ok_or bind]. rewrite checked_add_small by (unfold U32_MAX, USIZE_MAX in *; lia).
    cbn [ok_or bind].
    destruct (lookup_lt_is_Some_2 items (Z.to_nat j)) as [w Hw]; [unfold blen in *; lia|].
    destruct (entries_nth _ _ _ _ _ _ Hents ltac:(by destruct e) _ _ Hw)
      as (q & lo' & hi' & Hq & Hat & Hqe & ? & ?).
    replace (4 * Z.of_nat (Z.to_nat j)) with (j * 4) in Hat by lia.
    rewrite (verify_u32_at _ q) by (try done; lia). cbn [bind]. pose proof (wf_list _ Hwf) as Hwe.
    simpl in Hd. eapply IH; [exact Hqe|lia|lia|done| |lia].
    intros e' ->. apply (list_kind_of_type (TList e')); [apply Hwe|done].
Qed.

Lemma accept_walk n : target_ok n.
Proof using Hcov Hlo Hmax.
  induction n as [n IHn] using lt_wf_ind.
  intros field ty le p v lo hi depth Henc Hl Hh Hwf Hside Hd. destruct n as [|n]; [done|].
  cbn [verify_pointer_target].
  assert (forall m, (S m = n)%nat -> target_ok m) as IH by (intros m <-; apply IHn; lia).
  destruct ty as [| | | | |e|i|o e|nm vs|s|ps r]; try (by inversion Henc).
  - inversion Henc as [? w ? ? Hw Hu Hp Hat Hend| | | | |]; subst; try done.
    pose proof (blen_nonneg (as_bytes w)). apply bytes_at_app in Hat as [Hlen _].
    rewrite (verify_u32_at _ (blen (as_bytes w))) by (try done; lia). cbn [bind].
    rewrite checked_add_small by (unfold ISIZE_MAX, USIZE_MAX in *; lia). cbn [ok_or bind].
    by rewrite (cv_span _ _ _ Hcov) by lia.
  - destruct n as [|n]; [done|]. eapply list_pass; try done. by apply IH.
  - destruct n as [|n]; [done|]. eapply variant_pass; try done. by apply IH.
  - destruct n as [|n]; [done|]. eapply variant_pass; try done. by apply IH.
  - destruct n as [|n]; [done|]. eapply variant_pass; try done. by apply IH.
  - destruct (offsets_for_complete s (proj2 Hwf)) as [t Ht]. rewrite Ht. cbn [map_err bind].
    destruct n as [|n]; [done|].
    inversion Henc as [| | |? ? t' vals ? lo' ? Ht' Hq Hroot Hbl Hf| |]; subst; try done.
    assert (t' = t) as -> by congruence. pose proof (enc_fields_le 0 b _ _ _ _ _ _ ltac:(lia) Hf).
    pose proof (nesting_nonneg (TSchema s)). pose proof (ts_size t (offsets_for_fuel_sound _ _ _ Ht)).
    eapply fields_pass; try done; [by apply IH|lia|lia| | |].
    + pose proof (nesting_schema_pos s). lia.
    + intros f Hin%nesting_field. lia.
    + eapply Forall2_impl; [by eapply fields_nth|]. intros f w (fo & lo1 & hi1 & Hfo & Hs & ? & ?).
      exists fo, lo1, hi1. split_and!; (done || lia).
Qed.
End Walk.

(** ** Whole records *)

Section Records.
Context {H : HostTypes}.

(** The fields of a record at [p], each encoded between [lo] and [hi]. *)
Definition fields_at (b : bytes) (s : Schema) (t : OffsetTable) (p lo hi : Z) (vals : list Value) : Prop :=
  Forall2 (fun f v => exists fo lo' hi', find_offset t (field_name f) = Some fo /\
    enc_slot 0 b (p + fo_offset fo) (field_ty f) v lo' hi' /\ lo <= lo' /\ hi' <= hi)
    (schema_fields s) vals.

Lemma fields_accepted b bounds s t p lo hi vals :
  bounds_wf bounds -> required_len bounds <= blen b -> covers bounds lo hi ->
  0 <= lo -> hi <= blen b -> hi <= ISIZE_MAX ->
  offsets_for s = Ok t -> wf_type (TSchema s) -> nesting (TSchema s) <= MAX_DEPTH ->
  lo <= p -> p + root_size t <= hi -> fields_at b s t p lo hi vals ->
  verify_record_with_bounds b t (schema_fields s) p bounds = Ok tt.
Proof.
  intros Hb Hlen Hcov Hlo Hhi Hmax Ht Hwf Hn Hp Hroot Hall. unfold verify_record_with_bounds.
  rewrite (proj2 (Z.ltb_ge _ _)) by done.
  assert (verify_fuel (fields_size (schema_fields s)) = S (3 * fields_size (schema_fields s) + 2))
    as -> by (unfold verify_fuel; lia).
  pose proof (fields_pass b bounds lo hi Hcov Hlo Hmax _ s t p vals 0
    (accept_walk b bounds lo hi Hcov Hlo Hmax (3 * fields_size (schema_fields s) + 2)) Ht Hwf Hp Hroot eq_refl
    ltac:(intros f Hf%nesting_field; lia) Hall) as Hpass.
  pose proof (proj1 (verify_fuel_enough b bounds Hb Hlen (S (3 * fields_size (schema_fields s) + 2)))
    t (schema_fields s) p 0 ltac:(lia)) as Hna.
  by destruct (verify_record_inner _ _ _ _ _ _ _) as [[]| |].
Qed.

Lemma record_fields_at b s t p v lo hi :
  offsets_for s = Ok t -> wf_type (TSchema s) -> 0 <= p -> enc_at 0 b p (TSchema s) v lo hi ->
  exists vals, v = mk_record s vals /\ lo <= p /\ p + root_size t <= hi /\ fields_at b s t p lo hi vals.
Proof.
  intros Ht Hwf Hp Henc.
  inversion Henc as [| | |? ? t' vals ? lo' ? Ht' Hq Hroot Hbl Hf| |]; subst; try done.
  assert (t' = t) as -> by congruence. pose proof (enc_fields_le 0 b _ _ _ _ _ _ ltac:(lia) Hf).
  pose proof (ts_size t (offsets_for_fuel_sound _ _ _ Ht)). exists vals. split_and!; [done|lia|lia|].
  eapply Forall2_impl; [by eapply fields_nth|]. intros f w (fo & lo1 & hi1 & Hfo & Hs & ? & ?).
  exists fo, lo1, hi1. split_and!; (done || lia).
Qed.

Lemma single_wf r : 0 <= reg_start r -> bounds_wf (Single r).
Proof. intros Hr x Hx. simpl in Hx. by apply list_elem_of_singleton in Hx as ->. Qed.

(** A record copied into a larger arena is accepted at its new place. *)
Lemma arena_accepted bounds s t pre out suf v :
  bounds_wf bounds -> required_len bounds <= blen (pre ++ out ++ suf) ->
  is_slice (pre ++ out ++ suf) -> covers bounds (blen pre) (blen pre + blen out) ->
  offsets_for s = Ok t -> wf_type (TSchema s) -> nesting (TSchema s) <= MAX_DEPTH ->
  enc_at (blen pre) out 0 (TSchema s) v 0 (blen out) ->
  verify_record_with_bounds (pre ++ out ++ suf) t (schema_fields s) (blen pre) bounds = Ok tt.
Proof.
  intros Hb Hlen Hsl Hcov Ht Hwf Hn Henc. apply (enc_shift pre out suf (blen pre) eq_refl) in Henc.
  rewrite !Z.add_0_r in Henc. unfold is_slice in Hsl. rewrite !blen_app in *.
  pose proof (blen_nonneg suf). pose proof (blen_nonneg pre) as Hpre.
  destruct (record_fields_at _ _ _ _ _ _ _ Ht Hwf Hpre Henc) as (vals & _ & _ & Hroot & Hall).
  eapply (fields_accepted _ bounds); try done; rewrite ?blen_app; lia.
Qed.

Lemma represents_fields_at s t bb m vals :
  writable (TSchema s) -> represents s t bb m -> 0 <= root_size t ->
  Forall2 (fun f v => m !! field_name f = Some v) (schema_fields s) vals ->
  fields_at (finish bb) s t 0 0 (blen (finish bb)) vals.
Proof.
  intros Hw [Hbf Hm] Hsz Hall. apply Forall2_same_length_lookup. split; [by eapply Forall2_length|].
  intros i f v Hf Hv. pose proof (Forall2_lookup_lr _ _ _ _ _ _ Hall Hf Hv) as Hmv. cbv beta in Hmv.
  destruct (Hm _ _ Hmv) as (f' & fo & lo & hi & Hf' & Hfo & Henc & Hlo & Hhi).
  rewrite (find_field_schema s f) in Hf'; [|apply (wr_wf _ Hw)|by eapply list_elem_of_lookup_2].
  injection Hf' as <-. exists fo, lo, hi. split_and!; (done || lia).
Qed.
End Records.

(** ** Properties *)

Section Properties.
Context {H : HostTypes}.

(** The verifier accepts every finished buffer: once all declared fields of a
    record have been written, in any order and with any repetitions,
    [verify_record] over the whole buffer returns [Ok], provided the schema is
    not nested deeper than the verifier's depth limit. *)
Theorem verifier_accepts_builder s t ws bb m vals :
  offsets_for s = Ok t -> writable (TSchema s) -> ops_ok ws -> nesting (TSchema s) <= MAX_DEPTH ->
  (let* bb := builder_new t (schema_fields s) in write_values bb ws) = Ok bb ->
  is_slice (finish bb) -> spec_writes s ∅ ws = Some m ->
  Forall2 (fun f v => m !! field_name f = Some v) (schema_fields s) vals ->
  verify_record (finish bb) t (schema_fields s) 0 (MkRegion 0 (blen (finish bb))) = Ok tt.
Proof.
  intros Ht Hw Hok Hn Hbb Hsl Hm Hall. destruct (represents_new s t Ht) as (bb0 & Hnew & Hr0).
  rewrite Hnew in Hbb. cbn [bind] in Hbb.
  pose proof (write_values_refines s t ws bb0 ∅ Ht Hw Hok Hr0) as Hspec. rewrite Hbb in Hspec.
  destruct Hspec as (m' & Hm' & Hr). assert (m' = m) as -> by congruence.
  pose proof (ts_size t (offsets_for_fuel_sound _ _ _ Ht)) as Hsz.
  eapply (fields_accepted _ _ _ _ _ 0 (blen (finish bb)));
    try done; [by apply single_wf|by apply (covers_single (MkRegion 0 _))|apply (wr_wf _ Hw)| |].
  - apply (bf_size _ _ _ (rp_builder _ _ _ _ Hr)).
  - apply (represents_fields_at s t bb m vals); (done || lia).
Qed.

(** The verifier accepts every marshalled record where the arena holds it: a
    record value finished for an offset inside one of the arena's regions and
    copied there passes [verify_record_multi] at that offset, whatever the rest
    of the arena contains. *)
Theorem verifier_accepts_arena s t v bb pre out suf multi tag region :
  offsets_for s = Ok t -> writable (TSchema s) -> value_ok v = true -> record_shape s v = true ->
  nesting (TSchema s) <= MAX_DEPTH ->
  is_u32 (blen pre) -> blen pre mod type_graph_align (TSchema s) = 0 ->
  (let* bb := builder_new t (schema_fields s) in marshal_fields bb s v) = Ok bb ->
  finish_arena_absolute bb (blen pre) = Ok out ->
  bounds_wf (Multi multi) -> max_end multi <= blen (pre ++ out ++ suf) ->
  is_slice (pre ++ out ++ suf) -> (tag, region) ∈ regions multi ->
  reg_start region <= blen pre -> blen pre + blen out <= reg_end region ->
  verify_record_multi (pre ++ out ++ suf) t (schema_fields s) (blen pre) multi = Ok tt.
Proof.
  intros Ht Hw Hok Hsh Hn Hbase Hal Hbb Hout Hb Hlen Hsl Hin Hs He.
  destruct (builder_new_for s t Ht) as (bb0 & Hnew & _). rewrite Hnew in Hbb. cbn [bind] in Hbb.
  pose proof (marshal_written s t bb0 v Ht Hw Hok Hsh Hnew) as Hm. rewrite Hbb in Hm.
  destruct Hm as (v' & _ & Hbf & Henc).
  pose proof (arena_moved s t bb (blen pre) v' Ht Hw Hbf Hbase Hal Henc) as Hmove.
  rewrite Hout in Hmove. destruct Hmove as [_ Hmoved].
  eapply (arena_accepted (Multi multi)); try done; [|apply (wr_wf _ Hw)].
  assert (reg_end region <= ISIZE_MAX).
  { pose proof (region_end_le (Multi multi) region) as Hle. simpl in Hle. unfold is_slice in Hsl.
    specialize (Hle ltac:(apply list_elem_of_fmap; by exists (tag, region))). lia. }
  pose proof (covers_multi multi tag region Hin ltac:(done)) as [Hc1 Hc2].
  split; intros; [apply Hc1|apply Hc2]; lia.
Qed.
End Properties.

(** ** Witnesses *)

#[local] Existing Instance unit_host.

Lemma verifier_accepts_builder_witness : exists bb, order_builder = Ok bb /\
  verify_record (finish bb) order_table (schema_fields order) 0 (MkRegion 0 (blen (finish bb))) = Ok tt.
Proof.
  destruct order_builder as [bb| |] eqn:Hbb; [|vm_compute in Hbb; discriminate..].
  exists bb. split; [reflexivity|].
  apply (verifier_accepts_builder order order_table order_writes bb order_state order_values);
    [vm_compute; reflexivity|apply order_writable|apply order_ops_ok|vm_compute; congruence|exact Hbb
    | |vm_compute; reflexivity|apply order_state_values].
  vm_compute in Hbb. injection Hbb as <-. vm_compute. congruence.
Defined.

(** An arena with an empty input and scratch area and [out] from offset 64. *)
Definition order_regions : MultiRegion :=
  MkMulti [(RConst, MkRegion 0 8); (RIn, MkRegion 8 8); (ROut, MkRegion 64 200);
           (RScratch, MkRegion 200 200)].

Lemma order_regions_wf : bounds_wf (Multi order_regions).
Proof.
  intros r Hr. simpl in Hr. repeat (apply elem_of_cons in Hr as [->|Hr]; [simpl; lia|]).
  by apply elem_of_nil in Hr.
Qed.

Definition order_marshalled : outcome BufferError BufferBuilder :=
  let* bb := builder_new order_table (schema_fields order) in marshal_fields bb order order_value.

Definition order_out : bytes :=
  match (let* bb := order_marshalled in finish_arena_absolute bb 64) with Ok out => out | _ => [] end.

Lemma verifier_accepts_arena_witness :
  verify_record_multi (zeros 64 ++ order_out ++ zeros 100) order_table (schema_fields order) 64
    order_regions = Ok tt.
Proof.
  destruct order_marshalled as [bb| |] eqn:Hbb; [|vm_compute in Hbb; discriminate..].
  apply (verifier_accepts_arena order order_table order_value bb (zeros 64) order_out (zeros 100)
    order_regions ROut (MkRegion 64 200));
    [vm_compute; reflexivity|apply order_writable|vm_compute; reflexivity|vm_compute; reflexivity
    |vm_compute; congruence|split; vm_compute; congruence|vm_compute; reflexivity|exact Hbb
    | |apply order_regions_wf|vm_compute; congruence|vm_compute; congruence
    |right; right; left|vm_compute; congruence|vm_compute; congruence].
  vm_compute in Hbb. injection Hbb as <-. vm_compute. reflexivity.
Defined.
