(* ===== verification/ObjectReturn.v ===== *)
(** The host side of a call, end to end: the typed readers of [BufferReader]
    decode every encoded field, and [decode_object_return] of an arena that
    holds a marshalled record returns the canonical value of the record. *)

From Stdlib Require Import ZArith Lia Bool.
From coqutil Require Import Byte Word.LittleEndianList.
From stdpp Require Import base list strings gmap.
From S2P Require Import Prelude Bytes SchemaCanonical Layout LayoutFacts Value Verifier VerifierFacts BufferTypes IndexFacts Reader ReaderFacts.
From S2P Require Import VerifiedRead InplaceReturn InplaceFacts Relocation Builder Marshal Encoding DecodeFacts RelocFacts Rebase Canon WriteFacts.
From S2P Require Import CanonFacts RoundTrip Acceptance.
Local Open Scope Z_scope.
Local Open Scope abi_scope.

(** ** Loops whose results are wrapped or decoded further *)

Lemma loop_map_ok {E A B} (C : A -> B) (g : Z -> outcome E A) items : forall i,
  (forall k it, items !! k = Some it -> map_ok C (g (i + Z.of_nat k)) = Ok it) ->
  map_ok (map C) (loop g i (length items)) = Ok items.
Proof.
  induction items as [|it items IH]; intros i Hg; simpl; [done|].
  pose proof (Hg 0%nat it eq_refl) as H0. rewrite Z.add_0_r in H0.
  apply map_ok_ok in H0 as (a & -> & ->). cbn [bind].
  specialize (IH (i + 1) ltac:(intros k x Hk; rewrite <-(Hg (S k) x Hk); do 2 f_equal; lia)).
  by apply map_ok_ok in IH as (l & -> & ->).
Qed.

Lemma loop_then_mapM {E F A B} (g : Z -> outcome E A) (h : A -> outcome F B) items : forall i,
  (forall k it, items !! k = Some it -> exists a, g (i + Z.of_nat k) = Ok a /\ h a = Ok it) ->
  exists l, loop g i (length items) = Ok l /\ mapM h l = Ok items.
Proof.
  induction items as [|it items IH]; intros i Hg; simpl; [by exists []|].
  destruct (Hg 0%nat it eq_refl) as (a & Ha & Hh). rewrite Z.add_0_r in Ha. rewrite Ha. cbn [bind].
  destruct (IH (i + 1)) as (l & -> & Hl).
  { intros k x Hk. destruct (Hg (S k) x Hk) as (c & Hc & ?). exists c. split; [|done].
    rewrite <-Hc. f_equal. lia. }
  exists (a :: l). split; [done|]. simpl. by rewrite Hh, Hl.
Qed.

Lemma Forall2_impl_elem {A B} (P Q : A -> B -> Prop) l k :
  Forall2 P l k -> (forall x y, x ∈ l -> P x y -> Q x y) -> Forall2 Q l k.
Proof.
  induction 1 as [|x y l k Hxy _ IH]; intros Himp; constructor; [by apply Himp; [left|]|].
  apply IH. intros ? ? ?. apply Himp. by right.
Qed.

Section Typed.
Context {H : HostTypes}.

(** The reader resolves [name] to a slot of type [ty] that encodes [v]. *)
Record holds (r : BufferReader) (name : string) (ty : TypeRepr) (v : Value) (e : FieldEntry)
    (lo hi : Z) : Prop := {
  hd_slice : is_slice (rd_bytes r);
  hd_entry : lookup_entry (rd_index r) name = Some e;
  hd_ty : fe_ty e = ty;
  hd_kind : is_pointer_indirect (fe_kind e) = negb (inline_type ty);
  hd_list : forall el, ty = TList el -> fe_kind e = PointerIndirect (list_tail_align el);
  hd_enc : enc_slot 0 (rd_bytes r) (fe_offset e) ty v lo hi;
  hd_end : hi <= blen (rd_bytes r);
}.

Section Reads.
Context (r : BufferReader) (name : string) (v : Value) (e : FieldEntry) (lo hi : Z).

Abbreviation b := (rd_bytes r).
Abbreviation Holds ty := (holds r name ty v e lo hi).

Lemma holds_locate ty l :
  Holds ty -> layoutable ty = true -> locate r name ty l = Ok (fe_offset e, fe_size e, fe_kind e).
Proof.
  intros Hd Hl. unfold locate. rewrite (hd_entry _ _ _ _ _ _ _ Hd). cbn [ok_or bind].
  by rewrite (hd_ty _ _ _ _ _ _ _ Hd), type_matches_refl.
Qed.

Lemma holds_find ty : Holds ty -> find_entry r name = Ok e.
Proof. intros Hd. unfold find_entry. by rewrite (hd_entry _ _ _ _ _ _ _ Hd). Qed.

Lemma holds_scalar ty : Holds ty -> inline_type ty = true -> scalar_at b (fe_offset e) ty v.
Proof. intros Hd Hi. destruct (hd_enc _ _ _ _ _ _ _ Hd); [done|congruence]. Qed.

Lemma holds_pointer ty :
  Holds ty -> inline_type ty = false ->
  exists q, is_u32 q /\ bytes_at b (fe_offset e) (u32_to_le q) /\ enc_at 0 b q ty v lo hi.
Proof.
  intros Hd Hi. pose proof (hd_enc _ _ _ _ _ _ _ Hd) as Henc.
  inversion Henc as [|? q ? ? ? ? Hin Hu Hq Hptr Hat]; subst; [congruence|].
  rewrite Z.add_0_l in *. by exists q.
Qed.

Lemma typed_unit : Holds TUnit -> map_ok (fun _ => option_none) (read_unit r name) = Ok v.
Proof.
  intros Hd. unfold read_unit. rewrite (holds_locate TUnit) by done. cbn [bind map_ok].
  pose proof (holds_scalar _ Hd eq_refl) as Hs. simpl in Hs. by subst.
Qed.

Lemma typed_int : Holds TInt -> map_ok VInt (read_int r name) = Ok v.
Proof.
  intros Hd. unfold read_int. rewrite (holds_locate TInt) by done. cbn [bind].
  by apply (read_scalar_elem b _ TInt 8 8), holds_scalar.
Qed.

Lemma typed_float : Holds TFloat -> map_ok VFloat (read_float r name) = Ok v.
Proof.
  intros Hd. unfold read_float. rewrite (holds_locate TFloat) by done. cbn [bind].
  by apply (read_scalar_elem b _ TFloat 8 8), holds_scalar.
Qed.

Lemma typed_bool : Holds TBool -> map_ok VBool (read_bool r name) = Ok v.
Proof.
  intros Hd. unfold read_bool. rewrite (holds_locate TBool) by done. cbn [bind].
  by apply (read_scalar_elem b _ TBool 1 1), holds_scalar.
Qed.

(** The generic reader, for every type. *)
Lemma typed_value ty : Holds ty -> lays_out ty -> read_value r name ty = Ok v.
Proof.
  intros Hd Hl. unfold read_value. rewrite (holds_find ty) by done. cbn [bind].
  rewrite (hd_ty _ _ _ _ _ _ _ Hd), type_matches_refl by apply Hl.
  eapply (decode_walk b (hd_slice _ _ _ _ _ _ _ Hd)); [exact (hd_enc _ _ _ _ _ _ _ Hd)|done| |].
  - apply (hd_end _ _ _ _ _ _ _ Hd).
  - unfold read_fuel. lia.
Qed.

(** ** Pointer headers *)

Lemma header_at al q c ps :
  is_slice b -> bytes_at b (fe_offset e) (u32_to_le q) -> is_u32 q ->
  bytes_at b q (u32_to_le c) -> is_u32 c -> payload_start q al = Some ps ->
  decode_pointer_header b name (fe_offset e) al = Ok (c, ps).
Proof.
  intros Hb Hq Hu Hc Hcu Hps. unfold decode_pointer_header.
  rewrite (past_end_at b Hb _ _ 4 Hq (blen_u32 q)) by lia. rewrite (get_u32_at b _ _ Hq) by done.
  cbn [bind]. rewrite (past_end_at b Hb _ _ 4 Hc (blen_u32 c)) by lia.
  rewrite (get_u32_at b _ _ Hc) by done. cbn [bind]. unfold payload_start in Hps.
  destruct (1 <? al) eqn:Ha; [|by injection Hps as <-]. zb.
  unfold checked_next_multiple_of in Hps. rewrite (proj2 (Z.eqb_neq _ _)) in Hps by lia.
  destruct (_ =? _); [by injection Hps as <-|]. by rewrite Hps.
Qed.

Lemma typed_string : Holds TString -> map_ok VString (read_string r name) = Ok v.
Proof.
  intros Hd. pose proof (hd_slice _ _ _ _ _ _ _ Hd) as Hb.
  destruct (holds_pointer _ Hd eq_refl) as (q & Hq & Hat & Henc).
  destruct (string_at b _ _ _ _ Henc (hd_end _ _ _ _ _ _ _ Hd)) as (s & Hv & Hs & Hu & Hl & Hp & Hend).
  unfold read_string. rewrite (holds_locate TString) by done. cbn [bind].
  rewrite (hd_kind _ _ _ _ _ _ _ Hd). cbn [inline_type negb guard bind].
  rewrite (header_at 0 q (blen (as_bytes s)) (q + 4)) by done. cbn [bind].
  by rewrite (read_utf8_span_at b Hb), Hv.
Qed.

(** ** Lists of scalars *)

Lemma typed_words {A} (C : A -> Value) (get : Z -> outcome BufferError A) el q items :
  Holds (TList el) -> scalar_elem el = Some (8, 8) ->
  (forall off, read_scalar_at b el off = map_ok C (get off)) ->
  is_u32 q -> bytes_at b (fe_offset e) (u32_to_le q) -> enc_at 0 b q (TList el) (VList items) lo hi ->
  exists count start, decode_pointer_header b name (fe_offset e) 8 = Ok (count, start) /\
    map_ok (map C) (read_words b name get count start) = Ok items.
Proof.
  intros Hd Hel Hget Hq Hat Henc. pose proof (hd_slice _ _ _ _ _ _ _ Hd) as Hb.
  pose proof (hd_end _ _ _ _ _ _ _ Hd) as Hend. unfold is_slice, ISIZE_MAX in Hb.
  inversion Henc as [|? ? ? size align ps ? ? He Hcnt Hp Hhead Hps Hst Hits Hhi Hbl| | | |];
    subst; [|by destruct el|done|done]. rewrite Hel in He. injection He as <- <-.
  rewrite !Z.add_0_l in Hst. pose proof (blen_nonneg items). exists (blen items), ps.
  split; [by apply (header_at 8 q)|]. unfold read_words, checked_mul.
  rewrite (proj2 (Z.leb_le _ _)) by (unfold U32_MAX, USIZE_MAX in *; lia). cbn [ok_or bind].
  rewrite checked_add_small by (unfold USIZE_MAX; destruct Hhead; lia). cbn [ok_or bind].
  rewrite (proj2 (Z.ltb_ge _ _)) by lia. unfold blen. rewrite Nat2Z.id. apply loop_map_ok.
  intros k it Hk. rewrite Z.add_0_l, <-Hget. by eapply read_scalar_elem, Hits.
Qed.

Lemma holds_list el :
  Holds (TList el) -> exists items q, v = VList items /\ is_u32 q /\
    bytes_at b (fe_offset e) (u32_to_le q) /\ enc_at 0 b q (TList el) (VList items) lo hi.
Proof.
  intros Hd. destruct (holds_pointer _ Hd eq_refl) as (q & Hq & Hat & Henc).
  assert (exists items, v = VList items) as [items Hv] by (inversion Henc; try done; by eexists).
  exists items, q. by rewrite <-Hv.
Qed.

Lemma typed_list_int :
  Holds (TList TInt) -> map_ok (fun l => VList (map VInt l)) (read_list_int r name) = Ok v.
Proof.
  intros Hd. destruct (holds_list _ Hd) as (items & q & Hv & Hq & Hat & Henc).
  rewrite Hv. clear Hv.
  destruct (typed_words VInt (get_i64 b) TInt q items Hd) as (c & ps & Hh & Hl); try done.
  unfold read_list_int. rewrite (holds_locate (TList TInt)) by done. cbn [bind].
  rewrite (hd_list _ _ _ _ _ _ _ Hd _ eq_refl). cbn [list_tail_align]. rewrite Hh. cbn [bind].
  by apply map_ok_ok in Hl as (l & -> & ->).
Qed.

Lemma typed_list_float :
  Holds (TList TFloat) -> map_ok (fun l => VList (map VFloat l)) (read_list_float r name) = Ok v.
Proof.
  intros Hd. destruct (holds_list _ Hd) as (items & q & Hv & Hq & Hat & Henc).
  rewrite Hv. clear Hv.
  destruct (typed_words VFloat (get_f64 b) TFloat q items Hd) as (c & ps & Hh & Hl); try done.
  unfold read_list_float. rewrite (holds_find (TList TFloat)) by done. cbn [bind].
  rewrite (hd_ty _ _ _ _ _ _ _ Hd), (hd_list _ _ _ _ _ _ _ Hd _ eq_refl). cbn [list_tail_align].
  rewrite Hh. cbn [bind]. by apply map_ok_ok in Hl as (l & -> & ->).
Qed.

Lemma typed_list_bool :
  Holds (TList TBool) -> map_ok (fun l => VList (map VBool l)) (read_list_bool r name) = Ok v.
Proof.
  intros Hd. destruct (holds_list _ Hd) as (items & q & Hv & Hq & Hat & Henc).
  rewrite Hv. clear Hv.
  pose proof (hd_slice _ _ _ _ _ _ _ Hd) as Hb. pose proof (hd_end _ _ _ _ _ _ _ Hd) as Hend.
  unfold is_slice, ISIZE_MAX in Hb.
  inversion Henc as [|? ? ? size align ps ? ? He Hcnt Hp Hhead Hps Hst Hits Hhi Hbl| | | |];
    subst; try done. injection He as <- <-. injection Hst as Hst. pose proof (blen_nonneg items).
  assert (ps = q + 4) as -> by lia.
  unfold read_list_bool. rewrite (holds_find (TList TBool)) by done. cbn [bind].
  rewrite (hd_ty _ _ _ _ _ _ _ Hd), (hd_list _ _ _ _ _ _ _ Hd _ eq_refl).
  cbn [is_pointer_indirect guard bind].
  rewrite (header_at 0 q (blen items) (q + 4)) by done. cbn [bind].
  rewrite checked_add_small by (unfold USIZE_MAX; destruct Hhead; lia). cbn [ok_or bind].
  rewrite (proj2 (Z.ltb_ge _ _)) by lia. unfold blen. rewrite Nat2Z.id.
  pose proof (loop_map_ok VBool (fun i => get_bool b (q + 4 + i)) items 0) as Hl.
  rewrite map_ok_ok in Hl. destruct Hl as (l & -> & ->); [|done]. intros k it Hk.
  rewrite Z.add_0_l. pose proof (read_scalar_elem b _ TBool 1 1 it eq_refl (Hits k it Hk)) as Hr.
  by rewrite Z.mul_1_r in Hr.
Qed.

(** ** Pointer arrays *)

(** The header and the entries behind a slot of a pointer-array list. *)
Lemma typed_entries el :
  Holds (TList el) -> list_payload_is_pointer_array el = true ->
  exists items q, v = VList items /\ is_u32 q /\ bytes_at b (fe_offset e) (u32_to_le q) /\
    enc_at 0 b q (TList el) (VList items) lo hi /\
    decode_pointer_header b name (fe_offset e) 0 = Ok (blen items, q + 4) /\
    check_pointer_entries_in_bounds b name (q + 4) (blen items) = Ok tt /\
    forall k it, items !! k = Some it -> entry_at b (q + 4 + Z.of_nat k * 4) el it.
Proof.
  intros Hd He. destruct (holds_list _ Hd) as (items & q & Hv & Hq & Hat & Henc).
  exists items, q. split; [exact Hv|]. clear Hv.
  pose proof (hd_slice _ _ _ _ _ _ _ Hd) as Hb. pose proof (hd_end _ _ _ _ _ _ _ Hd) as Hend.
  destruct (pointer_array_at b Hb _ _ _ _ _ Henc He Hend) as [_ Hent].
  inversion Henc as [|? ? ? ? ? ? ? ? Hs|? ? ? ? lo1 hi1 ? _ Hcnt Hp Hph Hhead Hl1 Hh1 Hdis Hents| | |]; subst;
    [by destruct el| |done|done]. pose proof (blen_nonneg items).
  pose proof (enc_entries_le 0 b _ _ _ _ _ ltac:(lia) Hents).
  split_and!; try done.
  - by apply (header_at 0 q).
  - apply (check_entries_at b Hb); [apply Hhead|lia|lia].
  - intros k it Hk. rewrite Z.mul_comm. by apply Hent.
Qed.

Lemma typed_list_value el :
  Holds (TList el) -> lays_out (TList el) -> map_ok VList (read_list_value r name el) = Ok v.
Proof.
  intros Hd Hl. destruct (holds_list _ Hd) as (items & q & Hv & Hq & Hat & Henc).
  rewrite Hv. clear Hv.
  pose proof (hd_slice _ _ _ _ _ _ _ Hd) as Hb. unfold read_list_value.
  rewrite (holds_find (TList el)) by done. cbn [bind].
  rewrite (hd_kind _ _ _ _ _ _ _ Hd). cbn [inline_type negb guard bind].
  rewrite (read_slot_pointer_at b Hb _ q) by done. cbn [bind].
  erewrite (proj1 (decode_walk b Hb _)); [done|done|by apply lays_out_list| |].
  - apply (hd_end _ _ _ _ _ _ _ Hd).
  - unfold read_fuel. lia.
Qed.

Lemma typed_list_string :
  Holds (TList TString) -> map_ok (fun l => VList (map VString l)) (read_list_string r name) = Ok v.
Proof.
  intros Hd. destruct (typed_entries _ Hd eq_refl)
    as (items & q & Hv & Hq & Hat & Henc & Hh & Hchk & Hent). rewrite Hv. clear Hv.
  pose proof (hd_slice _ _ _ _ _ _ _ Hd) as Hb.
  unfold read_list_string. rewrite (holds_find (TList TString)) by done. cbn [bind].
  rewrite (hd_ty _ _ _ _ _ _ _ Hd), (hd_list _ _ _ _ _ _ _ Hd _ eq_refl).
  cbn [is_pointer_indirect guard bind]. rewrite Hh. cbn [bind]. rewrite Hchk. cbn [bind].
  unfold blen. rewrite Nat2Z.id.
  pose proof (loop_map_ok VString (read_string_entry b name (q + 4)) items 0) as Hl.
  rewrite map_ok_ok in Hl. destruct Hl as (l & -> & ->); [|done]. intros k it Hk. rewrite Z.add_0_l.
  destruct (Hent k it Hk) as (q' & lo' & hi' & Hq' & Hat' & Hs & Hle).
  destruct (string_at b _ _ _ _ Hs Hle) as (w & -> & Hw & Hu & Hlen & Hp & Hend).
  pose proof (bytes_at_bound _ _ _ Hat') as H1. pose proof (bytes_at_bound _ _ _ Hlen) as H2.
  rewrite blen_u32 in H1, H2. unfold read_string_entry.
  rewrite (proj2 (Z.ltb_ge _ _)) by lia. rewrite (get_u32_at b _ _ Hat') by done. cbn [bind].
  rewrite (proj2 (Z.ltb_ge _ _)) by lia. rewrite (get_u32_at b _ _ Hlen) by done. cbn [bind].
  by rewrite (read_utf8_span_at b Hb).
Qed.

(** ** Rows of scalars *)

Lemma row_at pos inner size align row :
  is_slice b -> scalar_elem inner = Some (size, align) -> entry_at b pos (TList inner) row ->
  exists items, row = VList items /\
    (forall start i, start + i * 4 = pos -> 0 <= start -> 0 <= i ->
       decode_row b name inner align start i = Ok items).
Proof.
  intros Hb Hel (q & lo' & hi' & Hq & Hat & Henc & Hle).
  inversion Henc as [|? ? items size' align' ps ? ? He Hcnt Hp Hhead Hps Hst Hits Hhi Hbl| | | |];
    subst; [|by destruct inner|done|done]. rewrite Hel in He. injection He as <- <-.
  exists items. split; [done|]. intros start i <- Hs Hi. rewrite !Z.add_0_l in Hst.
  pose proof (blen_nonneg items). pose proof (scalar_elem_pos _ _ _ Hel) as Hsz.
  pose proof (bytes_at_bound _ _ _ Hat) as H1. pose proof (bytes_at_bound _ _ _ Hhead) as H2.
  rewrite blen_u32 in H1, H2. unfold is_slice, ISIZE_MAX in Hb. unfold decode_row.
  rewrite checked_add_small by (unfold USIZE_MAX; lia). cbn [ok_or bind].
  rewrite (proj2 (Z.ltb_ge _ _)) by lia. rewrite (get_u32_at b _ _ Hat) by done. cbn [bind].
  rewrite (proj2 (Z.ltb_ge _ _)) by lia. rewrite (get_u32_at b _ _ Hhead) by done. cbn [bind].
  assert ((if 1 <? align then next_multiple_of (q + 4) align else Ok (q + 4)) = Ok ps) as ->.
  { unfold next_multiple_of. unfold payload_start in Hst.
    destruct (1 <? align); [by rewrite Hst|by injection Hst as ->]. }
  cbn [bind]. rewrite (proj2 (Z.ltb_ge _ _)) by nia. rewrite Hel. cbn [bind].
  assert ((match inner with TBool => Ok (blen items) | _ => ok_or (checked_mul (blen items) 8)
    (MalformedPayload name (nested_label inner +:+ "byte length overflows usize")%string) end)
    = Ok (blen items * size)) as ->.
  { unfold checked_mul. rewrite (proj2 (Z.leb_le _ _)) by (unfold U32_MAX, USIZE_MAX in *; lia).
    destruct inner; try discriminate Hel; injection Hel as <- <-; [f_equal; lia|done|done]. }
  cbn [bind]. rewrite checked_add_small by (unfold USIZE_MAX; nia). cbn [ok_or bind].
  rewrite (proj2 (Z.ltb_ge _ _)) by lia. apply loop_ok. split; [unfold blen; lia|].
  intros k it Hk. rewrite Z.add_0_l. by eapply read_scalar_elem, Hits.
Qed.

Lemma typed_list_list inner size align :
  Holds (TList (TList inner)) -> scalar_elem inner = Some (size, align) ->
  map_ok (fun rows => VList (map VList rows)) (read_list_list r name) = Ok v.
Proof.
  intros Hd Hel. destruct (typed_entries _ Hd eq_refl)
    as (items & q & Hv & Hq & Hat & Henc & Hh & Hchk & Hent). rewrite Hv. clear Hv.
  pose proof (hd_slice _ _ _ _ _ _ _ Hd) as Hb.
  unfold read_list_list. rewrite (holds_find (TList (TList inner))) by done. cbn [bind].
  rewrite (hd_ty _ _ _ _ _ _ _ Hd), (hd_list _ _ _ _ _ _ _ Hd _ eq_refl).
  cbn [is_pointer_indirect guard bind].
  assert (nested_inner_align inner = Ok align) as ->
    by (destruct inner; try discriminate Hel; by injection Hel as <- <-).
  cbn [map_err bind]. rewrite Hh. cbn [bind]. unfold decode_list_list_rows. rewrite Hchk. cbn [bind].
  unfold blen. rewrite Nat2Z.id.
  pose proof (loop_map_ok VList (decode_row b name inner align (q + 4)) items 0) as Hl.
  rewrite map_ok_ok in Hl. destruct Hl as (l & -> & ->); [|done]. intros k it Hk. rewrite Z.add_0_l.
  destruct (row_at _ _ _ _ _ Hb Hel (Hent k it Hk)) as (row & -> & Hrow).
  by rewrite Hrow by (unfold is_u32 in *; lia).
Qed.
End Reads.

(** ** Records *)

Definition reads (r : BufferReader) (s : Schema) (vals : list Value) : Prop :=
  Forall2 (fun f v => exists e lo hi, holds r (field_name f) (field_ty f) v e lo hi)
    (schema_fields s) vals.

Lemma index_entry_at s t base idx name f :
  offsets_for s = Ok t -> index_fields (fun off => usize_add base off) t (schema_fields s) = Ok idx ->
  find_field name (schema_fields s) = Some f ->
  exists fo e, find_offset t name = Some fo /\ lookup_entry idx name = Some e /\
    fe_ty e = field_ty f /\ fe_offset e = base + fo_offset fo /\
    fe_kind e = fo_kind fo /\ slot_typed (field_ty f) fo.
Proof.
  intros Ht Hidx Hf. pose proof (named_slot_find s t name Ht) as Hn. rewrite Hf in Hn.
  destruct (List.find _ (ot_fields t)) as [fo|] eqn:Hfo; [|done].
  destruct (index_finds (fun off => usize_add base off) (schema_fields s) (ot_fields t) (root_size t)
    (root_align t) idx name fo) as [e He]; [by destruct t| |done|].
  { intros g Hg. apply (declared_slot _ _ _ Ht Hg). }
  destruct (index_lookup _ _ _ _ _ _ Ht Hidx He) as (f' & fo' & Hn' & Hoff & Heq).
  exists fo', e. destruct Hn' as (Hf' & Hfo' & _ & _ & _ & Hty). apply usize_add_ok in Hoff as [Hoff _].
  assert (f' = f) as -> by congruence.
  split_and!; [done|done|by rewrite Heq|done|by rewrite Heq|done].
Qed.

(** A reader over an encoded record finds every field. *)
Lemma record_reader b p s t v lo hi :
  is_slice b -> 0 <= p -> enc_at 0 b p (TSchema s) v lo hi -> wf_type (TSchema s) ->
  offsets_for s = Ok t -> hi <= blen b ->
  p + root_size t <= blen b /\
  exists idx vals, index_fields (fun off => usize_add p off) t (schema_fields s) = Ok idx /\
    v = mk_record s vals /\ reads (MkReader t idx b) s vals.
Proof.
  intros Hb Hp Henc Hwf Ht Hhi.
  destruct (record_at b _ _ _ _ _ _ Henc Ht Hhi) as (Hend & vals & -> & Hall). split; [done|].
  destruct (index_fields_ok s t p Ht Hp) as [idx Hidx]; [unfold is_slice, ISIZE_MAX, USIZE_MAX in *; lia|].
  exists idx, vals. split_and!; [done|done|]. apply Forall2_same_length_lookup.
  split; [by eapply Forall2_length|]. intros i f v Hf Hv.
  destruct (Forall2_lookup_lr _ _ _ _ _ _ Hall Hf Hv) as (fo & lo' & hi' & Hfo & Hs & Hle).
  apply list_elem_of_lookup_2 in Hf.
  destruct (index_entry_at s t p idx (field_name f) f Ht Hidx) as (fo' & e & Hfo' & He & Hty & Hoff & Hk & Hst);
    [by apply find_field_schema; [apply Hwf|]|].
  assert (fo' = fo) as -> by congruence. exists e, lo', hi'. split; simpl; try done.
  - rewrite Hk. apply Hst.
  - intros el Hel. destruct (st_list _ _ Hst el Hel) as (k & _ & _ & Hkind). by rewrite Hk.
  - by rewrite Hoff.
Qed.

Lemma sub_reader_ok b p s t v lo hi name o x :
  is_slice b -> is_u32 p -> enc_at 0 b p (TSchema s) v lo hi -> wf_type (TSchema s) ->
  offsets_for s = Ok t -> hi <= blen b ->
  exists r vals, sub_reader_at b name p t (schema_fields s) o x = Ok r /\
    v = mk_record s vals /\ reads r s vals.
Proof.
  intros Hb Hp Henc Hwf Ht Hhi.
  destruct (record_reader b p s t v lo hi Hb ltac:(apply Hp) Henc Hwf Ht Hhi)
    as (Hend & idx & vals & Hidx & Hv & Hr).
  exists (MkReader t idx b), vals. split_and!; try done. unfold sub_reader_at.
  pose proof (offsets_bounded s t Ht). unfold is_slice, is_u32 in *.
  rewrite checked_add_small by (unfold ISIZE_MAX, USIZE_MAX in *; lia). cbn [ok_or bind].
  rewrite (proj2 (Z.ltb_ge _ _)) by done. by rewrite Hidx.
Qed.

(** ** The object reader *)

(** The types [read_object_field] decodes to their canonical value: a nested
    record must not be a tuple, which it would brand as a dict. *)
Fixpoint object_type (ty : TypeRepr) : bool :=
  match ty with
  | TSchema s =>
      negb (schema_is_tuple s) && forallb (fun f => object_type (field_ty f)) (schema_fields s)
  | TList (TSchema s) => forallb (fun f => object_type (field_ty f)) (schema_fields s)
  | _ => true
  end.

Definition object_fields (s : Schema) : bool :=
  forallb (fun f => object_type (field_ty f)) (schema_fields s).

Lemma object_fields_elem s f : object_fields s = true -> f ∈ schema_fields s -> object_type (field_ty f) = true.
Proof. unfold object_fields. rewrite forallb_elem. auto. Qed.

Definition field_reads (backend : string) (n : nat) : Prop :=
  forall r f parent v e lo hi, holds r (field_name f) (field_ty f) v e lo hi ->
    wf_type (field_ty f) -> object_type (field_ty f) = true -> (2 * tsize (field_ty f) <= n)%nat ->
    read_object_field n backend r f parent = Ok v.

Lemma tuple_reads backend n r s vals :
  field_reads backend n -> reads r s vals -> wf_type (TSchema s) -> object_fields s = true ->
  (2 * fields_size (schema_fields s) <= n)%nat ->
  read_tuple_record_into_tuple (S n) backend r s = Ok (VTuple vals).
Proof.
  intros IH Hr Hwf Hob Hn. cbn [read_tuple_record_into_tuple].
  rewrite (proj2 (mapM_Forall2 _ _ vals)); [done|].
  eapply Forall2_impl_elem; [exact Hr|]. intros f v Hf (e & lo & hi & Hd).
  eapply IH; [done|by eapply wf_field|by eapply object_fields_elem|].
  apply fields_size_elem in Hf. lia.
Qed.

Lemma map_reads backend n r s vals :
  field_reads backend n -> reads r s vals -> wf_type (TSchema s) -> object_fields s = true ->
  (2 * fields_size (schema_fields s) <= n)%nat ->
  read_object_record_into_map (S n) backend r s = Ok (record_map (schema_fields s) vals).
Proof.
  intros IH Hr Hwf Hob Hn. cbn [read_object_record_into_map]. unfold record_map.
  assert (Forall2 (fun f v => read_object_field n backend r f s = Ok v) (schema_fields s) vals) as Hall.
  { eapply Forall2_impl_elem; [exact Hr|]. intros f v Hf (e & lo & hi & Hd).
    eapply IH; [done|by eapply wf_field|by eapply object_fields_elem|].
    apply fields_size_elem in Hf. lia. }
  generalize (@nil (string * Value)). clear -Hall.
  induction Hall as [|f v fs vs Hf _ IH]; intros m; simpl; [done|]. rewrite Hf. apply IH.
Qed.

(** A record of either shape, from a reader over it. *)
Definition read_object_record (n : nat) (backend : string) (r : BufferReader) (s : Schema)
    : outcome RuntimeError Value :=
  if schema_is_tuple s then read_tuple_record_into_tuple n backend r s
  else let* map := read_object_record_into_map n backend r s in
       Ok (branded_dict map (Some (schema_name s))).

Lemma object_record_reads backend n r s vals :
  field_reads backend n -> reads r s vals -> wf_type (TSchema s) -> object_fields s = true ->
  (2 * fields_size (schema_fields s) <= n)%nat ->
  read_object_record (S n) backend r s = Ok (mk_record s vals).
Proof.
  intros IH Hr Hwf Hob Hn. unfold read_object_record, mk_record. destruct (schema_is_tuple s).
  - by apply tuple_reads.
  - by erewrite map_reads.
Qed.

Lemma list_record_reads backend n r name v e lo hi s t :
  field_reads backend n -> holds r name (TList (TSchema s)) v e lo hi -> wf_type (TSchema s) ->
  offsets_for s = Ok t -> object_fields s = true -> (2 * fields_size (schema_fields s) <= n)%nat ->
  exists subs items, read_list_record r name t s = Ok subs /\ v = VList items /\
    mapM (fun sub => read_object_record (S n) backend sub s) subs = Ok items.
Proof.
  intros IH Hd Hwf Ht Hob Hn. destruct (typed_entries _ _ _ _ _ _ _ Hd eq_refl)
    as (items & q & -> & Hq & Hat & Henc & Hh & Hchk & Hent).
  pose proof (hd_slice _ _ _ _ _ _ _ Hd) as Hb.
  unfold read_list_record. rewrite (holds_find _ _ _ _ _ _ _ Hd). cbn [bind].
  rewrite (hd_ty _ _ _ _ _ _ _ Hd), (hd_list _ _ _ _ _ _ _ Hd _ eq_refl).
  rewrite (proj2 (schema_eqb_eq s s) eq_refl). cbn [negb is_pointer_indirect guard bind].
  rewrite Hh. cbn [bind]. rewrite Hchk. cbn [bind]. unfold blen. rewrite Nat2Z.id.
  match goal with |- context [loop ?g 0 _] =>
    destruct (loop_then_mapM g (fun sub => read_object_record (S n) backend sub s) items 0)
      as (subs & Hl & Hm) end; [|by exists subs, items].
  intros k it Hk. rewrite Z.add_0_l. destruct (Hent k it Hk) as (p & lo' & hi' & Hp & Hat' & Hs & Hle).
  pose proof (bytes_at_bound _ _ _ Hat') as H1. rewrite blen_u32 in H1. cbv zeta.
  rewrite (proj2 (Z.ltb_ge _ _)) by (unfold blen in *; lia).
  rewrite (get_u32_at (rd_bytes r) _ _ Hat') by done. cbn [bind].
  destruct (sub_reader_ok (rd_bytes r) p s t it lo' hi' name "list sub-record end overflows usize"
    "list sub-record exceeds buffer end" Hb Hp Hs Hwf Ht Hle) as (sub & vals & Hsub & -> & Hr).
  exists sub. split; [done|]. by apply object_record_reads.
Qed.

Lemma wrap_ok {E F A B} (c : A -> B) (g : E -> F) (m : outcome E A) v :
  map_ok c m = Ok v -> map_ok c (map_err g m) = Ok v.
Proof. destruct m; unfold map_ok; simpl; congruence. Qed.

Lemma object_walk backend n : field_reads backend n.
Proof.
  induction n as [n IH] using lt_wf_ind. intros r f parent v e lo hi Hd Hwf Hob Hn.
  destruct n as [|n]; [pose proof (tsize_pos (field_ty f)); lia|]. cbn [read_object_field].
  destruct (field_ty f) as [| | | | |el|i|o er|nm vs|s|] eqn:Hty; try (by destruct Hwf as [_ [? _]]).
  - by eapply wrap_ok, typed_unit.
  - by eapply wrap_ok, typed_bool.
  - by eapply wrap_ok, typed_int.
  - by eapply wrap_ok, typed_float.
  - by eapply wrap_ok, typed_string.
  - destruct el as [| | | | |inner|i|o er|nm vs|s|] eqn:Hel; try (by destruct Hwf as [_ [? _]]);
      try (by eapply wrap_ok, typed_list_value; [done|apply Hwf]).
    + by eapply wrap_ok, typed_list_bool.
    + by eapply wrap_ok, typed_list_int.
    + by eapply wrap_ok, typed_list_float.
    + by eapply wrap_ok, typed_list_string.
    + destruct inner; try (by eapply wrap_ok, typed_list_value; [done|apply Hwf]);
        by eapply wrap_ok, typed_list_list.
    + apply wf_list in Hwf. destruct (offsets_for_complete s (proj2 Hwf)) as [t Ht]. rewrite Ht.
      cbn [map_err bind]. rewrite tsize_list, tsize_schema in Hn. destruct n as [|n]; [lia|].
      destruct (list_record_reads backend n r _ v e lo hi s t (IH n ltac:(lia)) Hd Hwf Ht Hob)
        as (subs & items & -> & -> & Hm); [lia|]. cbn [map_err bind].
      unfold read_object_record in Hm. by rewrite Hm.
  - by erewrite typed_value; [|done|apply Hwf].
  - by erewrite typed_value; [|done|apply Hwf].
  - by erewrite typed_value; [|done|apply Hwf].
  - destruct (offsets_for_complete s (proj2 Hwf)) as [t Ht]. rewrite Ht. cbn [map_err bind].
    rewrite tsize_schema in Hn. destruct n as [|n]; [lia|].
    cbn [object_type] in Hob. apply andb_true_iff in Hob as [Htup%negb_true_iff Hob].
    destruct (holds_pointer _ _ _ _ _ _ _ Hd eq_refl) as (q & Hq & Hat & Henc).
    pose proof (hd_slice _ _ _ _ _ _ _ Hd) as Hb.
    unfold reader_sub_record. rewrite (hd_entry _ _ _ _ _ _ _ Hd). cbn [ok_or bind].
    rewrite (hd_ty _ _ _ _ _ _ _ Hd), (hd_kind _ _ _ _ _ _ _ Hd). cbn [inline_type negb guard bind].
    rewrite (past_end_at _ Hb _ _ 4 Hat (blen_u32 q)) by lia. rewrite (get_u32_at _ _ _ Hat) by done.
    cbn [bind]. edestruct (sub_reader_ok (rd_bytes r) q s t v lo hi (field_name f))
      as (sub & vals & -> & -> & Hr); try done; [apply (hd_end _ _ _ _ _ _ _ Hd)|].
    cbn [map_err bind]. rewrite (map_reads backend n sub s vals (IH n ltac:(lia))) by (done || lia).
    cbn [bind]. unfold mk_record. by rewrite Htup.
Qed.
End Typed.

(** ** The pipeline *)

Section Pipeline.
Context {H : HostTypes}.

Lemma out_region_in a m :
  multi_region a = Ok m -> (ROut, MkRegion (out_ptr a) (out_ptr a + out_cap a)) ∈ regions m.
Proof.
  unfold multi_region, multi_region_new, region_new. simpl.
  repeat (destruct (_ <? _); [done|]; simpl). intros [= <-]. simpl. set_solver.
Qed.

(** A span of the [out] area is covered. *)
Lemma out_region_covers a m (arena : bytes) lo hi :
  multi_region a = Ok m -> is_slice arena -> max_end m <= blen arena ->
  out_ptr a <= lo -> hi <= out_ptr a + out_cap a -> covers (Multi m) lo hi.
Proof.
  intros Hm Hsl Hmax Hlo Hhi. pose proof (out_region_in a m Hm) as Hin.
  pose proof (region_end_le (Multi m) (MkRegion (out_ptr a) (out_ptr a + out_cap a))) as Hle.
  simpl in Hle. specialize (Hle ltac:(apply list_elem_of_fmap; by eexists (ROut, _))).
  unfold is_slice in Hsl. destruct (covers_multi m ROut _ Hin) as [Hc1 Hc2]; [simpl; lia|].
  simpl in *. split; intros; [apply Hc1|apply Hc2]; lia.
Qed.

(** The value a single-value wrapper record carries. *)
Definition wrapped (s : Schema) (v : Value) : option Value :=
  match schema_fields s, v with
  | f :: _, VDict d => map_get (field_name f) (dict_map d)
  | _ :: _, VTuple (w :: _) => Some w
  | _, _ => None
  end.

Lemma wrapped_record s f fs w ws :
  distinct_names (TSchema s) = true -> schema_fields s = f :: fs -> length fs = length ws ->
  wrapped s (mk_record s (w :: ws)) = Some w.
Proof.
  intros Hd Hfs Hlen. unfold wrapped, mk_record. rewrite Hfs. destruct (schema_is_tuple s); [done|].
  simpl in Hd. apply andb_true_iff in Hd as [Hnd%bool_decide_eq_true _]. rewrite Hfs in Hnd.
  pose proof (record_map_get (f :: fs) (w :: ws) Hnd ltac:(simpl; lia)) as Hall.
  by inversion Hall.
Qed.

(** What [decode_object_return] returns in its two modes. *)
Definition returned (s : Schema) (single : bool) (v : Value) : option Value :=
  if single then wrapped s v else Some v.

Lemma object_decodes backend arena base regions s t v lo hi m single w :
  is_slice arena -> 0 <= base -> enc_at 0 arena base (TSchema s) v lo hi -> hi <= blen arena ->
  wf_type (TSchema s) -> offsets_for s = Ok t -> object_fields s = true ->
  multi_region regions = Ok m -> verify_record_multi arena t (schema_fields s) base m = Ok tt ->
  returned s single v = Some w ->
  decode_object_return backend arena base regions t s single = Ok w.
Proof.
  intros Hsl Hbase Henc Hhi Hwf Ht Hob Hm Hver Hret. unfold decode_object_return. rewrite Hm.
  cbn [map_err bind]. unfold verify_object_return_multi. rewrite Hver. cbn [map_err bind].
  destruct (record_reader arena base s t v lo hi Hsl Hbase Henc Hwf Ht Hhi)
    as (Hend & idx & vals & Hidx & -> & Hr).
  unfold reader_new_at_base. pose proof (offsets_bounded s t Ht). unfold is_slice in Hsl.
  rewrite checked_add_small by (unfold ISIZE_MAX, USIZE_MAX in *; lia). cbn [ok_or bind].
  rewrite (proj2 (Z.ltb_ge _ _)) by done. rewrite Hidx. cbn [bind map_err].
  assert (object_fuel s = S (2 * fields_size (schema_fields s) + 1)) as Hfuel
    by (unfold object_fuel; rewrite tsize_schema; lia).
  destruct single; cbn [returned] in Hret.
  - destruct (schema_fields s) as [|f fs] eqn:Hfs; [by unfold wrapped in Hret; rewrite Hfs in Hret|].
    pose proof Hr as Hr'. unfold reads in Hr'. rewrite Hfs in Hr'.
    inversion Hr' as [|? x ? xs Hx Hxs]; subst. destruct Hx as (e & lo' & hi' & Hd).
    rewrite (wrapped_record s f fs x xs (proj1 Hwf) Hfs) in Hret by (by eapply Forall2_length).
    injection Hret as <-. assert (f ∈ schema_fields s) as Hin by (rewrite Hfs; left).
    eapply object_walk; [done|by eapply wf_field|by eapply object_fields_elem|].
    rewrite Hfuel. simpl. lia.
  - injection Hret as <-. rewrite Hfuel.
    apply (object_record_reads backend _ _ s vals (object_walk backend _) Hr Hwf Hob). lia.
Qed.
End Pipeline.

(** ** Properties *)

Section Properties.
Context {H : HostTypes}.

(** C2 The object return path end to end, for the schemas it serves: [writable] (it can be laid
    out, is of at most 2^59 fields per record, has distinct names and no list whose inner
    pointers relocation loses), nested at most [MAX_DEPTH] deep, and with [object_fields] (no
    tuple record in a field, which the reader returns as a branded dictionary, see
    [nested_tuple_branded]). A Rust value of the shape of the record, marshalled by the builder,
    finished for an aligned arena offset and placed inside the [out] area of an arena, passes
    verification and decodes through [decode_object_return] to its canonical value, as a whole
    record or, for a single-value wrapper, to the canonical value of its first field, whatever
    else the arena holds. Marshalling fails only on a value without canonical form or on 32-bit
    size limits, and never aborts. *)
Theorem object_return_roundtrip s t v base :
  offsets_for s = Ok t -> writable (TSchema s) -> value_ok v = true -> record_shape s v = true ->
  nesting (TSchema s) <= MAX_DEPTH -> object_fields s = true ->
  is_u32 base -> base mod type_graph_align (TSchema s) = 0 ->
  match (let* bb := builder_new t (schema_fields s) in
         let* bb := marshal_fields bb s v in finish_arena_absolute bb base) with
  | Ok out => exists v', canon (TSchema s) v = Some v' /\
      forall backend pre suf arena_regions m single w,
        blen pre = base -> is_slice (pre ++ out ++ suf) -> arena_wf arena_regions ->
        multi_region arena_regions = Ok m -> max_end m <= blen (pre ++ out ++ suf) ->
        out_ptr arena_regions <= base -> base + blen out <= out_ptr arena_regions + out_cap arena_regions ->
        returned s single v' = Some w ->
        decode_object_return backend (pre ++ out ++ suf) base arena_regions t s single = Ok w
  | Err e => canon (TSchema s) v = None \/ size_error e
  | Abort => False
  end.
Proof.
  intros Ht Hw Hok Hsh Hn Hob Hbase Hal. destruct (builder_new_for s t Ht) as (bb0 & Hnew & _).
  pose proof (marshal_written s t bb0 v Ht Hw Hok Hsh Hnew) as Hm. rewrite Hnew. cbn [bind].
  destruct (marshal_fields bb0 s v) as [bb| |]; cbn [bind]; [|done|done].
  destruct Hm as (v' & Hc & Hbf & Henc).
  pose proof (arena_moved s t bb base v' Ht Hw Hbf Hbase Hal Henc) as Hmove.
  destruct (finish_arena_absolute bb base) as [out| |]; [|by right|done].
  destruct Hmove as [_ Hout]. exists v'. split; [done|].
  intros backend pre suf a m single w <- Hsl Ha Hm Hmax Ho Hend Hret.
  assert (verify_record_multi (pre ++ out ++ suf) t (schema_fields s) (blen pre) m = Ok tt) as Hver.
  { eapply (arena_accepted (Multi m)); try done; [by eapply multi_region_wf| |apply (wr_wf _ Hw)].
    by eapply out_region_covers. }
  apply (enc_shift pre out suf (blen pre) eq_refl) in Hout. rewrite !Z.add_0_r in Hout.
  eapply object_decodes; try done; [apply Hbase| |apply (wr_wf _ Hw)].
  rewrite !blen_app. pose proof (blen_nonneg suf). lia.
Qed.
End Properties.

(** ** Witness *)

#[local] Existing Instance unit_host.

(** [const], an empty input, [out] from offset 64 and no scratch. *)
Definition order_arena : ArenaRegions := MkArena 8 8 0 64 136 200 200.

Lemma object_return_roundtrip_witness :
  match (let* bb := builder_new order_table (schema_fields order) in
         let* bb := marshal_fields bb order order_value in finish_arena_absolute bb 64) with
  | Ok out => exists v', canon (TSchema order) order_value = Some v' /\
      forall backend pre suf arena_regions m single w,
        blen pre = 64 -> is_slice (pre ++ out ++ suf) -> arena_wf arena_regions ->
        multi_region arena_regions = Ok m -> max_end m <= blen (pre ++ out ++ suf) ->
        out_ptr arena_regions <= 64 -> 64 + blen out <= out_ptr arena_regions + out_cap arena_regions ->
        returned order single v' = Some w ->
        decode_object_return backend (pre ++ out ++ suf) 64 arena_regions order_table order single = Ok w
  | Err e => canon (TSchema order) order_value = None \/ size_error e
  | Abort => False
  end.
Proof.
  apply (object_return_roundtrip order order_table order_value 64);
    [vm_compute; reflexivity|apply order_writable|vm_compute; reflexivity|vm_compute; reflexivity
    |vm_compute; congruence|vm_compute; reflexivity|split; vm_compute; congruence
    |vm_compute; reflexivity].
Defined.

Example order_returned :
  decode_object_return "llvm" (zeros 64 ++ order_out ++ zeros 100) 64 order_arena order_table order false
  = Ok (mk_record order order_values) /\
  decode_object_return "llvm" (zeros 64 ++ order_out ++ zeros 100) 64 order_arena order_table order true
  = Ok (VInt (-7)).
Proof. split; vm_compute; reflexivity. Qed.

(** Places where the code departs from its comments or from its own reference
    path, each shown by evaluating the model on a concrete input.  They are
    also the reason for the side conditions of the round-trip theorems:
    [relocatable] excludes the first, [object_type] the second. *)

#[local] Existing Instance unit_host.

(** Marshal [v] as a record of schema [s] for arena offset [base], place it
    there and read it back. *)
Definition through_arena (s : Schema) (v : Value) (base : Z) : option Value :=
  match offsets_for s with
  | Ok t =>
      ok (let* bb := builder_new t (schema_fields s) in
          let* bb := marshal_fields bb s v in
          let* out := finish_arena_absolute bb base in
          read_record_at (read_fuel (TSchema s)) (zeros base ++ out) base t s)
  | _ => None
  end.

(** ** Three nested lists lose their inner pointers

    [layout.rs] accepts [List<List<List<Int>>>] and says that relocation rebases
    the inner pointers, but [ptr_array_elem_for] in [buffer.rs] returns [None]
    for an element [List<List<Int>>], because its own element [List<Int>] has
    no descriptor. *)
Definition deep_lists : Schema :=
  MkSchema "Deep" [] [MkField "x" (TList (TList (TList TInt))) None] false.

Definition deep_value : Value :=
  branded_dict [("x"%string, VList [VList [VList [VInt 7; VInt 9]; VList [VInt 3]]])]
               (Some "Deep"%string).

(** A [List<List<List<Int>>>] field marshals and decodes at offset 0, but after
    rebasing to a non-zero arena offset it no longer decodes to the value that
    was written. *)
Theorem deep_lists_not_relocated :
  canon (TSchema deep_lists) deep_value = Some deep_value /\
  through_arena deep_lists deep_value 0 = Some deep_value /\
  through_arena deep_lists deep_value 8 <> Some deep_value.
Proof. split_and!; [vm_compute; reflexivity|vm_compute; reflexivity|vm_compute; congruence]. Qed.

(** The condition of the round-trip theorems rules the schema out. *)
Example deep_lists_not_relocatable : relocatable (TSchema deep_lists) = false.
Proof. vm_compute. reflexivity. Qed.

(** ** A nested tuple comes back as a dict

    [read_object_field] brands every nested record as a dict, while the
    recursive reader of [buffer.rs] and [read_object_field] itself under a list
    return tuples. *)
Definition pair_schema : Schema :=
  MkSchema "Pair" [] [MkField "_0" TInt None; MkField "_1" TInt None] true.
Definition holder : Schema := MkSchema "Holder" [] [MkField "p" (TSchema pair_schema) None] false.
Definition holder_value : Value :=
  branded_dict [("p"%string, VTuple [VInt 1; VInt 2])] (Some "Holder"%string).

(** The same bytes, through the object return path. *)
Definition through_object_return (s : Schema) (v : Value) (base : Z) (a : ArenaRegions) : option Value :=
  match offsets_for s with
  | Ok t =>
      match (let* bb := builder_new t (schema_fields s) in
             let* bb := marshal_fields bb s v in finish_arena_absolute bb base) with
      | Ok out => ok (decode_object_return "llvm" (zeros base ++ out ++ zeros 64) base a t s false)
      | _ => None
      end
  | _ => None
  end.

(** A nested tuple field decodes to a tuple through the recursive reader and to
    a branded dict through the object return path, from the same bytes. *)
Theorem nested_tuple_branded :
  through_arena holder holder_value 8 = Some holder_value /\
  through_object_return holder holder_value 8 (MkArena 8 8 0 8 64 72 72)
  = Some (branded_dict
      [("p"%string, branded_dict [("_0"%string, VInt 1); ("_1"%string, VInt 2)] (Some "Pair"%string))]
      (Some "Holder"%string)).
Proof. split; vm_compute; reflexivity. Qed.

(** ** Two alignments for one type

    The comment on [type_graph_align] says it covers the fixed area and the
    tail of every value of the type, and [layout.rs] says its
    [type_graph_alignment] mirrors it; on an optional record with an [Int] they
    disagree, because only the latter counts the fixed area of the record. *)
Definition optional_counter : TypeRepr :=
  TOption (TSchema (MkSchema "Counter" [] [MkField "n" TInt None] false)).

(** The run-time and the layout-time deep alignment of an optional record with
    an [Int] field are 4 and 8. *)
Theorem alignments_differ :
  type_graph_align optional_counter = 4 /\
  type_graph_alignment (layout_fuel optional_counter) "x" optional_counter = Ok 8.
Proof. split; vm_compute; reflexivity. Qed.
