(* ===== verification/ListReturn.v ===== *)
(** The in-place list return end to end: an arena that holds an encoded list at
    the reported root passes verification and decodes to that list. *)

From Stdlib Require Import ZArith Lia Bool.
From coqutil Require Import Byte Word.LittleEndianList.
From stdpp Require Import base list strings gmap.
From S2P Require Import Prelude Bytes SchemaCanonical Layout LayoutFacts Value Verifier VerifierFacts.
From S2P Require Import BufferTypes IndexFacts Reader ReaderFacts VerifiedRead InplaceReturn InplaceFacts.
From S2P Require Import Relocation Encoding DecodeFacts RelocFacts Rebase Builder Marshal Canon.
From S2P Require Import WriteFacts CanonFacts RoundTrip Acceptance ObjectReturn.
Local Open Scope Z_scope.
Local Open Scope abi_scope.

Section List.
Context {H : HostTypes}.

(** ** Verification of a bare root *)

Lemma value_accepted b bounds lo hi ty le root v lo' hi' :
  bounds_wf bounds -> required_len bounds <= blen b -> covers bounds lo hi ->
  0 <= lo -> hi <= ISIZE_MAX -> enc_at 0 b root ty v lo' hi' -> lo <= lo' -> hi' <= hi ->
  wf_type ty -> has_sidecar ty le -> nesting ty < MAX_DEPTH ->
  verify_value_at_with_bounds b ty le root bounds = Ok tt.
Proof.
  intros Hb Hlen Hcov Hlo Hmax Henc Hl Hh Hwf Hside Hn. unfold verify_value_at_with_bounds.
  rewrite (proj2 (Z.ltb_ge _ _)) by done.
  pose proof (accept_walk b bounds lo hi Hcov Hlo Hmax (verify_fuel (tsize ty)) "<in-place root>"
    ty le root v lo' hi' 0 Henc Hl Hh Hwf Hside ltac:(lia)) as Hpass.
  pose proof (verify_fuel_enough b bounds Hb Hlen (verify_fuel (tsize ty))) as (_ & Hna & _).
  specialize (Hna "<in-place root>" ty le root 0 ltac:(unfold verify_fuel; lia)).
  by destruct (verify_pointer_target _ _ _ _ _ _ _ _) as [[]| |].
Qed.

(** ** Element types the in-place path decodes *)

(** Fields [read_record_field] supports: everything but a nested record. *)
Definition flat_field (ty : TypeRepr) : bool := match ty with TSchema _ => false | _ => true end.

Definition inplace_element (e : TypeRepr) : bool :=
  match e with
  | TString | TList _ | TOption _ | TResult _ _ | TEnum _ _ => true
  | TSchema s => if schema_is_tuple s then object_fields s
                 else forallb (fun f => flat_field (field_ty f)) (schema_fields s)
  | _ => false
  end.

Lemma record_field_reads backend r f v e lo hi :
  holds r (field_name f) (field_ty f) v e lo hi -> wf_type (field_ty f) ->
  flat_field (field_ty f) = true -> read_record_field backend r f = Ok v.
Proof.
  intros Hd Hwf Hflat. unfold read_record_field.
  destruct (field_ty f) as [| | | | |el|i|o er|nm vs|s|]; try (by destruct Hwf as [_ [? _]]); try done.
  - by eapply wrap_ok, typed_unit.
  - by eapply wrap_ok, typed_bool.
  - by eapply wrap_ok, typed_int.
  - by eapply wrap_ok, typed_float.
  - by eapply wrap_ok, typed_string.
  - by eapply wrap_ok, typed_list_value; [done|apply Hwf].
  - by erewrite typed_value; [|done|apply Hwf].
  - by erewrite typed_value; [|done|apply Hwf].
  - by erewrite typed_value; [|done|apply Hwf].
Qed.

Lemma branded_map_reads backend r s vals :
  reads r s vals -> wf_type (TSchema s) ->
  forallb (fun f => flat_field (field_ty f)) (schema_fields s) = true ->
  read_record_into_branded_map backend r s = Ok (record_map (schema_fields s) vals).
Proof.
  intros Hr Hwf Hflat. unfold read_record_into_branded_map, record_map. rewrite forallb_elem in Hflat.
  assert (Forall2 (fun f v => read_record_field backend r f = Ok v) (schema_fields s) vals) as Hall.
  { eapply Forall2_impl_elem; [exact Hr|]. intros f v Hf (e & lo & hi & Hd).
    eapply record_field_reads; [done|by eapply wf_field|by apply Hflat]. }
  generalize (@nil (string * Value)). clear -Hall.
  induction Hall as [|f v fs vs Hf _ IH]; intros m; simpl; [done|]. rewrite Hf. apply IH.
Qed.

(** ** Lists behind a root offset *)

Section Root.
Context (b : bytes) (root : Z) (items : list Value) (lo hi : Z).
Context (Hb : is_slice b) (Hhi : hi <= blen b).

Lemma header_parts e :
  enc_at 0 b root (TList e) (VList items) lo hi -> list_payload_is_pointer_array e = true ->
  0 <= root /\ past_end b root 4 = false /\ get_u32 b root = Ok (blen items) (E := BufferError) /\
  check_pointer_entries_in_bounds b "<in-place root>" (root + 4) (blen items) = Ok tt /\
  forall k v, items !! k = Some v -> entry_at b (root + 4 + Z.of_nat k * 4) e v.
Proof using Hb Hhi.
  intros Henc He. destruct (pointer_array_at b Hb _ _ _ _ _ Henc He Hhi) as [Hh Hent].
  split; [inversion Henc; subst; match goal with Hat : bytes_at b root _ |- _ => apply Hat | _ => done end|].
  unfold read_pointer_array_header in Hh. destruct (past_end b root 4); [done|].
  destruct (get_u32 b root) as [c| |]; [|done|done]. cbn [bind] in Hh.
  apply bind_ok in Hh as ([] & Hc & [= ->]). split_and!; try done.
  intros k v Hk. rewrite Z.mul_comm. by apply Hent.
Qed.

Lemma rows_at inner size align :
  enc_at 0 b root (TList (TList inner)) (VList items) lo hi -> scalar_elem inner = Some (size, align) ->
  map_ok (fun rows => VList (map VList rows)) (read_list_list_at b root inner) = Ok (VList items).
Proof using Hb Hhi.
  intros Henc Hel. destruct (header_parts _ Henc eq_refl) as (H0 & Hp & Hu & Hc & Hent).
  unfold read_list_list_at.
  assert (nested_inner_align inner = Ok align) as ->
    by (destruct inner; try discriminate Hel; by injection Hel as <- <-).
  cbn [map_err bind]. rewrite Hp, Hu. cbn [bind]. unfold decode_list_list_rows. rewrite Hc. cbn [bind].
  assert (Z.to_nat (blen items) = length items) as -> by (unfold blen; lia).
  pose proof (loop_map_ok VList (decode_row b "<in-place root>" inner align (root + 4)) items 0) as Hl.
  rewrite map_ok_ok in Hl. destruct Hl as (l & -> & ->); [|done]. intros k it Hk. rewrite Z.add_0_l.
  destruct (row_at (MkReader (MkOffsetTable [] 0 1) [] b) "<in-place root>" _ _ _ _ _ Hb Hel (Hent k it Hk))
    as (row & -> & Hrow).
  by rewrite Hrow by lia.
Qed.

Lemma records_decode {F} (dec : BufferReader -> outcome F Value) s t :
  enc_at 0 b root (TList (TSchema s)) (VList items) lo hi -> offsets_for s = Ok t ->
  wf_type (TSchema s) ->
  (forall r vals, reads r s vals -> dec r = Ok (mk_record s vals)) ->
  exists subs, read_list_record_at b root t s = Ok subs /\ mapM dec subs = Ok items.
Proof using Hb Hhi.
  intros Henc Ht Hwf Hdec. destruct (header_parts _ Henc eq_refl) as (H0 & Hp & Hu & Hc & Hent).
  unfold read_list_record_at. rewrite Hp, Hu. cbn [bind]. rewrite Hc. cbn [bind].
  assert (Z.to_nat (blen items) = length items) as -> by (unfold blen; lia).
  match goal with |- context [loop ?g 0 _] =>
    destruct (loop_then_mapM g dec items 0) as (subs & Hl & Hm) end; [|by exists subs].
  intros k it Hk. rewrite Z.add_0_l. destruct (Hent k it Hk) as (p & lo' & hi' & Hq & Hat & Hs & Hle).
  pose proof (bytes_at_bound _ _ _ Hat) as H1. rewrite blen_u32 in H1. unfold is_slice in Hb.
  rewrite checked_add_small by (unfold ISIZE_MAX, USIZE_MAX in *; lia). cbn [ok_or bind].
  rewrite (proj2 (Z.ltb_ge _ _)) by lia. rewrite (get_u32_at b _ _ Hat) by done. cbn [bind].
  edestruct (sub_reader_ok b p s t it lo' hi' "<in-place root>") as (sub & vals & Hsub & -> & Hr); try done.
  exists sub. split; [exact Hsub|]. by apply Hdec.
Qed.
End Root.

(** ** The pipeline *)

Lemma inplace_shape_ok backend e :
  inplace_element e = true -> wf_type (TList e) ->
  inplace_shape backend (TList e) =
  Ok (match e with
      | TString => ListString
      | TSchema s => ListSchema s
      | TList inner => match inner with TInt | TFloat | TBool => ListListScalar inner
                       | _ => ListListPointerArray e end
      | _ => ListVariant e
      end).
Proof. intros He Hwf. destruct e as [| | | | |[]| | | | |]; done. Qed.

Lemma slice_front {E} (a rest : bytes) : slice (a ++ rest) 0 (blen a) = Ok a (E := E).
Proof. apply (slice_app_exact [] a rest). Qed.

Lemma reader_new_ok s t b :
  offsets_for s = Ok t -> root_size t <= blen b -> is_slice b ->
  exists r, reader_new t (schema_fields s) b = Ok r.
Proof.
  intros Ht Hroot Hb. unfold reader_new, is_slice in *. rewrite (proj2 (Z.ltb_ge _ _)) by lia.
  destruct (offsets_bounded s t Ht) as (? & ? & Hoff). rewrite index_fields_base0 by done.
  destruct (index_fields_ok s t 0 Ht) as [idx ->]; [lia|unfold ISIZE_MAX, USIZE_MAX in *; lia|].
  by eexists.
Qed.

Lemma first_sidecar s t f fs e :
  offsets_for s = Ok t -> schema_fields s = f :: fs -> field_ty f = TList e ->
  has_sidecar (TList e) (match ot_fields t with fo :: _ => fo_list_element fo | [] => None end).
Proof.
  intros Ht Hfs Hf e' [= <-]. destruct (offsets_for_typed _ _ Ht) as [_ Hall]. rewrite Hfs in Hall.
  inversion Hall as [|? fo ? fos [_ Hty]]; subst.
  destruct (st_list _ _ Hty e Hf) as (k & Hk & Hs & _). by exists k.
Qed.

(** The two remaining decode branches: records, and the recursive list reader. *)
Lemma records_reads backend b root s t items lo hi :
  is_slice b -> enc_at 0 b root (TList (TSchema s)) (VList items) lo hi -> hi <= blen b ->
  wf_type (TSchema s) -> inplace_element (TSchema s) = true -> offsets_for s = Ok t ->
  exists subs, read_list_record_at b root t s = Ok subs /\
    mapM (fun sub =>
      if schema_is_tuple s
      then read_tuple_record_into_tuple (object_fuel s) backend sub s
      else let* map := read_record_into_branded_map backend sub s in
           Ok (branded_dict map (Some (schema_name s)))) subs = Ok items.
Proof.
  intros Hb Henc Hhi Hwf He Ht.
  apply (records_decode b root items lo hi Hb Hhi _ s t Henc Ht Hwf). intros r vals Hr.
  unfold mk_record. cbn [inplace_element] in He. destruct (schema_is_tuple s).
  - assert (object_fuel s = S (2 * fields_size (schema_fields s) + 1)) as ->
      by (unfold object_fuel; rewrite tsize_schema; lia).
    apply (tuple_reads backend _ r s vals (object_walk backend _) Hr Hwf He). lia.
  - by rewrite (branded_map_reads backend r s vals Hr Hwf He).
Qed.

Lemma list_values_read b root e items lo hi :
  is_slice b -> enc_at 0 b root (TList e) (VList items) lo hi -> hi <= blen b -> lays_out e ->
  read_list_value_at (read_fuel e) b root e = Ok items.
Proof.
  intros Hb Henc Hhi Hl. eapply (proj1 (decode_walk b Hb _)); [done|done|done|]. unfold read_fuel. lia.
Qed.
End List.

(** ** Properties *)

Section Properties.
Context {H : HostTypes}.

End Properties.

(** ** Witness *)

#[local] Existing Instance unit_host.

Definition names : Schema := MkSchema "Names" [] [MkField "value" (TList TString) None] false.

Definition names_table : OffsetTable :=
  match offsets_for names with Ok t => t | _ => MkOffsetTable [] 0 1 end.

(** A list of one string at offset 8, in the [out] area of 14 bytes. *)
Definition names_bytes : bytes :=
  zeros 8 ++ u32_to_le 1 ++ u32_to_le 16 ++ u32_to_le 2 ++ as_bytes "hi".

Definition names_arena : ArenaRegions := MkArena 8 8 0 8 14 22 22.

Lemma names_encoded : enc_at 0 names_bytes 8 (TList TString) (VList [VString "hi"]) 8 22.
Proof.
  apply (ea_list 0 names_bytes 8 TString [VString "hi"] 8 16 22 22);
    [reflexivity|vm_compute; congruence|lia|vm_compute; congruence| |lia|lia|left; vm_compute; congruence|].
  - bytes_literal.
  - apply ee_cons with (mid := 22); [|apply ee_nil; lia].
    apply (es_pointer 0 names_bytes _ 16 TString (VString "hi") 16 22);
      [reflexivity|split; vm_compute; congruence|lia| |].
    + bytes_literal.
    + apply ea_string; [vm_compute; reflexivity|vm_compute; congruence|lia| |vm_compute; congruence].
      bytes_literal.
Qed.


Example names_returned :
  decode_inplace_return "llvm" (names_bytes ++ zeros 3) names_arena 8
    (MkField "value" (TList TString) None) names_table (schema_fields names)
  = Ok (VList [VString "hi"]).
Proof. vm_compute. reflexivity. Qed.
