(* ===== verification/Chars.v ===== *)
(** Rust strings as sequences of code points: [str::chars], and the fact that a
    string is determined by its code points.  Shared by the components of
    [relon-unicode]. *)

From Stdlib Require Import ZArith Lia Bool.
From coqutil Require Import Byte Z.BitOps.
From stdpp Require Import base list strings.
From S2P Require Import Prelude Bytes Value.
Local Open Scope Z_scope.
Local Open Scope abi_scope.

(** ** Decoding

    [core::str::next_code_point], over the bytes of a string. *)

(** [utf8_acc_cont_byte] *)
Definition acc_cont (ch byte : Z) : Z := Z.lor (Z.shiftl ch 6) (Z.land byte 63).

Fixpoint code_points (b : list Z) : list Z :=
  match b with
  | [] => []
  | x :: b1 =>
    if x <? 128 then x :: code_points b1 else
    let init := Z.land x 31 in
    match b1 with
    | [] => []
    | y :: b2 =>
      if x <? 224 then acc_cont init y :: code_points b2 else
      match b2 with
      | [] => []
      | z :: b3 =>
        let y_z := acc_cont (Z.land y 63) z in
        if x <? 240 then Z.lor (Z.shiftl init 12) y_z :: code_points b3 else
        match b3 with
        | [] => []
        | w :: b4 => Z.lor (Z.shiftl (Z.land init 7) 18) (acc_cont y_z w) :: code_points b4
        end
      end
    end
  end.

Definition chars (s : string) : list Z := code_points (map byte.unsigned (as_bytes s)).

(** ** Encoding, [char::encode_utf8] *)

Definition utf8_encode (c : Z) : list Z :=
  if c <? 128 then [c]
  else if c <? 2048 then [192 + c / 64; 128 + c mod 64]
  else if c <? 65536 then [224 + c / 4096; 128 + (c / 64) mod 64; 128 + c mod 64]
  else [240 + c / 262144; 128 + (c / 4096) mod 64; 128 + (c / 64) mod 64; 128 + c mod 64].

(** A Unicode scalar value, the range of [char]. *)
Definition is_scalar_value (c : Z) : bool :=
  (0 <=? c) && (c <? 55296) || (57344 <=? c) && (c <? 1114112).

(** ** Arithmetic of the decoder *)

Lemma land_mod x n m : m = Z.ones n -> 0 <= n -> Z.land x m = x mod 2 ^ n.
Proof. intros -> Hn. by apply Z.land_ones. Qed.

Lemma lor_shiftl a n y : 0 <= n -> 0 <= y < 2 ^ n -> Z.lor (Z.shiftl a n) y = a * 2 ^ n + y.
Proof.
  intros Hn Hy. rewrite or_to_plus, Z.shiftl_mul_pow2; [done|done|].
  apply Z.bits_inj'. intros i Hi. rewrite Z.land_spec, Z.bits_0.
  destruct (Z.lt_ge_cases i n) as [Hlt|Hge].
  - by rewrite Z.shiftl_spec_low.
  - rewrite <-(Z.mod_small y (2 ^ n)) by done. by rewrite Z.mod_pow2_bits_high, andb_false_r.
Qed.

Lemma acc_cont_eq ch byte : acc_cont ch byte = ch * 64 + byte mod 64.
Proof.
  unfold acc_cont. rewrite (land_mod byte 6 63) by done.
  rewrite lor_shiftl; [done|done|]. by apply Z.mod_pos_bound.
Qed.

(** The decoder in arithmetic form. *)
Lemma code_points_arith b :
  code_points b =
  match b with
  | [] => []
  | x :: b1 =>
    if x <? 128 then x :: code_points b1 else
    match b1 with
    | [] => []
    | y :: b2 =>
      if x <? 224 then (x mod 32) * 64 + y mod 64 :: code_points b2 else
      match b2 with
      | [] => []
      | z :: b3 =>
        if x <? 240 then (x mod 32) * 4096 + ((y mod 64) * 64 + z mod 64) :: code_points b3 else
        match b3 with
        | [] => []
        | w :: b4 =>
            (x mod 32 mod 8) * 262144 + (((y mod 64) * 64 + z mod 64) * 64 + w mod 64) :: code_points b4
        end
      end
    end
  end.
Proof.
  destruct b as [|x [|y [|z [|w b]]]]; cbn [code_points]; try done;
    rewrite ?acc_cont_eq, ?(land_mod x 5 31), ?(land_mod y 6 63), ?(land_mod (x mod 2 ^ 5) 3 7) by done;
    change (2 ^ 5) with 32; change (2 ^ 6) with 64; change (2 ^ 3) with 8; try done;
    pose proof (Z.mod_pos_bound y 64 eq_refl); pose proof (Z.mod_pos_bound z 64 eq_refl);
    try pose proof (Z.mod_pos_bound w 64 eq_refl);
    rewrite ?(lor_shiftl (x mod 32) 12), ?(lor_shiftl (x mod 32 mod 8) 18) by lia; done.
Qed.

(** ** Round trips *)

Ltac div_mod := Z.to_euclidean_division_equations; lia.

Lemma code_points_encode c r :
  is_scalar_value c = true -> code_points (utf8_encode c ++ r) = c :: code_points r.
Proof.
  unfold is_scalar_value, utf8_encode. intros Hc. rewrite code_points_arith.
  repeat match goal with |- context [if ?x then _ else _] => destruct x eqn:? end; cbn [app];
    repeat match goal with |- context [if ?x then _ else _] => destruct x eqn:? end;
    zb; try done; try (exfalso; div_mod); f_equal; div_mod.
Qed.

Lemma utf8_codes_encode c r :
  is_scalar_value c = true -> utf8_codes (utf8_encode c ++ r) = utf8_codes r.
Proof.
  unfold is_scalar_value, utf8_encode. intros Hc.
  repeat match goal with |- context [if ?x then _ else _] => destruct x eqn:? end;
    cbn [app utf8_codes]; unfold cont, cont_in;
    repeat match goal with |- context [if ?x then _ else _] => destruct x eqn:? end; zb; try done;
    try (exfalso; div_mod);
    repeat (rewrite (proj2 (Z.leb_le _ _)) by div_mod); done.
Qed.

Lemma scalar_value_iff c :
  is_scalar_value c = true <-> 0 <= c < 55296 \/ 57344 <= c < 1114112.
Proof.
  unfold is_scalar_value. rewrite orb_true_iff, !andb_true_iff, !Z.leb_le, !Z.ltb_lt. lia.
Qed.

(** The code point of each well-formed byte sequence. *)
Lemma encode_two x y :
  194 <= x <= 223 -> 128 <= y <= 191 ->
  exists c, is_scalar_value c = true /\ utf8_encode c = [x; y].
Proof.
  intros Hx Hy. exists ((x - 192) * 64 + (y - 128)). rewrite scalar_value_iff. split; [lia|].
  unfold utf8_encode. rewrite (proj2 (Z.ltb_ge _ _)), (proj2 (Z.ltb_lt _ _)) by lia.
  repeat f_equal; div_mod.
Qed.

Lemma encode_three x y z :
  224 <= x <= 239 -> 128 <= y <= 191 -> 128 <= z <= 191 -> (x = 224 -> 160 <= y) ->
  (x = 237 -> y <= 159) -> exists c, is_scalar_value c = true /\ utf8_encode c = [x; y; z].
Proof.
  intros Hx Hy Hz H1 H2. exists ((x - 224) * 4096 + (y - 128) * 64 + (z - 128)).
  rewrite scalar_value_iff. split; [lia|].
  unfold utf8_encode. rewrite !(proj2 (Z.ltb_ge _ _)), (proj2 (Z.ltb_lt _ _)) by lia.
  repeat f_equal; div_mod.
Qed.

Lemma encode_four x y z w :
  240 <= x <= 244 -> 128 <= y <= 191 -> 128 <= z <= 191 -> 128 <= w <= 191 -> (x = 240 -> 144 <= y) ->
  (x = 244 -> y <= 143) -> exists c, is_scalar_value c = true /\ utf8_encode c = [x; y; z; w].
Proof.
  intros Hx Hy Hz Hw H1 H2.
  exists ((x - 240) * 262144 + (y - 128) * 4096 + (z - 128) * 64 + (w - 128)).
  rewrite scalar_value_iff. split; [lia|].
  unfold utf8_encode. rewrite !(proj2 (Z.ltb_ge _ _)) by lia. repeat f_equal; div_mod.
Qed.

(** A non-empty well-formed sequence starts with the encoding of a scalar value. *)
Lemma utf8_head x r :
  0 <= x -> utf8_codes (x :: r) = true ->
  exists c r', is_scalar_value c = true /\ x :: r = utf8_encode c ++ r' /\ utf8_codes r' = true.
Proof.
  intros Hx Hv. cbn [utf8_codes] in Hv. unfold cont, cont_in in Hv.
  destruct (x <? 128) eqn:H1.
  { exists x, r. rewrite scalar_value_iff. unfold utf8_encode. rewrite H1. zb. split; [lia|done]. }
  destruct r as [|y r]; [done|].
  destruct ((194 <=? x) && (x <=? 223)) eqn:H2.
  { zb. destruct (encode_two x y) as (c & Hc & He); [lia..|]. exists c, r. by rewrite He. }
  destruct r as [|z r]; [done|].
  assert (forall r', utf8_codes r' = true -> r = r' -> 224 <= x <= 239 -> 128 <= y <= 191 ->
    128 <= z <= 191 -> (x = 224 -> 160 <= y) -> (x = 237 -> y <= 159) ->
    exists c r', is_scalar_value c = true /\ x :: y :: z :: r = utf8_encode c ++ r' /\ utf8_codes r' = true)
    as Hthree.
  { intros r' Hr' -> ? ? ? ? ?. destruct (encode_three x y z) as (c & Hc & He); [done..|].
    exists c, r'. by rewrite He. }
  destruct (x =? 224) eqn:H3; [zb; subst; eapply Hthree; (done || lia)|].
  destruct (_ || _) eqn:H4; [zb; eapply Hthree; (done || lia)|].
  destruct (x =? 237) eqn:H5; [zb; eapply Hthree; (done || lia)|].
  destruct r as [|w r]; [done|].
  assert (utf8_codes r = true /\ 240 <= x <= 244 /\ 128 <= y <= 191 /\ 128 <= z <= 191 /\
    128 <= w <= 191 /\ (x = 240 -> 144 <= y) /\ (x = 244 -> y <= 143)) as (Hr & ? & ? & ? & ? & ? & ?).
  { clear Hthree. repeat match type of Hv with context [if ?t then _ else _] => destruct t eqn:? end;
      zb; try done; split_and!; (done || lia). }
  destruct (encode_four x y z w) as (c & Hc & He); [done..|]. exists c, r. by rewrite He.
Qed.

Lemma encode_length c : (1 <= length (utf8_encode c) <= 4)%nat.
Proof. unfold utf8_encode. repeat case_match; simpl; lia. Qed.

Definition encode_all (cs : list Z) : list Z := concat (map utf8_encode cs).

(** Well-formed bytes are the encoding of their code points. *)
Lemma utf8_decode_encode b :
  Forall (fun x => 0 <= x) b -> utf8_codes b = true ->
  Forall (fun c => is_scalar_value c = true) (code_points b) /\ encode_all (code_points b) = b.
Proof.
  remember (length b) as n eqn:Hn. revert b Hn.
  induction n as [n IH] using lt_wf_ind. intros [|x b] Hn Hnn Hv; [done|]. inversion Hnn; subst.
  destruct (utf8_head x b) as (c & r & Hc & He & Hr); [done|done|]. rewrite He in *.
  rewrite code_points_encode by done. pose proof (encode_length c) as Hl.
  destruct (IH (length r)) with (b := r) as [Hs Hb]; try done.
  - rewrite length_app. lia.
  - by apply Forall_app in Hnn as [_ ?].
  - split; [by constructor|]. unfold encode_all in *. simpl. by rewrite Hb.
Qed.

Lemma encode_all_valid cs :
  Forall (fun c => is_scalar_value c = true) cs ->
  utf8_codes (encode_all cs) = true /\ code_points (encode_all cs) = cs.
Proof.
  unfold encode_all. induction 1 as [|c cs Hc _ [IH1 IH2]]; [done|]. simpl.
  by rewrite utf8_codes_encode, code_points_encode, IH2.
Qed.

(** ** Strings *)

Lemma byte_codes_nonneg (b : bytes) : Forall (fun x => 0 <= x) (map byte.unsigned b).
Proof. apply Forall_forall. intros x (y & -> & _)%list_elem_of_fmap. apply byte.unsigned_range. Qed.

Lemma map_unsigned_inj (b c : bytes) : map byte.unsigned b = map byte.unsigned c -> b = c.
Proof.
  revert c. induction b as [|x b IH]; intros [|y c] Hbc; try done. injection Hbc as Hxy Hbc.
  f_equal; [|by apply IH]. by rewrite <-(byte.of_Z_unsigned x), <-(byte.of_Z_unsigned y), Hxy.
Qed.

(** A string is determined by its code points, which are scalar values. *)
Lemma chars_scalar s : is_str s = true -> Forall (fun c => is_scalar_value c = true) (chars s).
Proof. intros Hs. by apply utf8_decode_encode; [apply byte_codes_nonneg|]. Qed.

Lemma chars_inj s t : is_str s = true -> is_str t = true -> chars s = chars t -> s = t.
Proof.
  intros Hs Ht Hst. rewrite <-(str_of_as_bytes s), <-(str_of_as_bytes t). f_equal.
  apply map_unsigned_inj.
  destruct (utf8_decode_encode _ (byte_codes_nonneg (as_bytes s)) Hs) as [_ <-].
  destruct (utf8_decode_encode _ (byte_codes_nonneg (as_bytes t)) Ht) as [_ <-].
  unfold chars in Hst. by rewrite Hst.
Qed.

Lemma encode_all_app cs b :
  Forall (fun c => is_scalar_value c = true) cs ->
  utf8_codes (encode_all cs ++ b) = utf8_codes b /\ code_points (encode_all cs ++ b) = cs ++ code_points b.
Proof.
  unfold encode_all. induction 1 as [|c cs Hc _ [IH1 IH2]]; [done|]. simpl.
  by rewrite <-!app_assoc, utf8_codes_encode, code_points_encode, IH1, IH2.
Qed.

(** Validity and decoding of a string split at a character boundary. *)
Lemma utf8_codes_app a b :
  Forall (fun x => 0 <= x) a -> utf8_codes a = true -> utf8_codes (a ++ b) = utf8_codes b.
Proof.
  intros Ha Hv. destruct (utf8_decode_encode a Ha Hv) as [Hs <-]. by apply encode_all_app.
Qed.

Lemma code_points_app a b :
  Forall (fun x => 0 <= x) a -> utf8_codes a = true ->
  code_points (a ++ b) = code_points a ++ code_points b.
Proof.
  intros Ha Hv. destruct (utf8_decode_encode a Ha Hv) as [Hs He]. rewrite <-He at 1.
  by apply encode_all_app.
Qed.

Lemma utf8_valid_app a b : utf8_valid a = true -> utf8_valid (a ++ b) = utf8_valid b.
Proof. unfold utf8_valid. rewrite map_app. apply utf8_codes_app, byte_codes_nonneg. Qed.
