(* ===== verification/Glob.v ===== *)
(** The glob matcher of [crates/relon-unicode/src/glob.rs]: [glob_match] with its
    two indices and single backtrack anchor, and [try_match_class]; then the
    declarative meaning of patterns and the proof that the loop decides it within
    [(|s|+1)*(|p|+1)] iterations.

    Indices are [usize] positions in the two code point vectors; they never
    exceed the vector lengths by more than one, so they are natural numbers. *)

From Stdlib Require Import ZArith Lia Bool.
From coqutil Require Import Byte.
From stdpp Require Import base list strings.
From S2P Require Import Prelude Bytes Value Chars.
Local Open Scope Z_scope.
Local Open Scope abi_scope.

Module Glob.

(** ['*'], ['?'], ['['], [']'], ['\\'] and ['^'] *)
Definition star : Z := 42.
Definition question : Z := 63.
Definition l_brack : Z := 91.
Definition r_brack : Z := 93.
Definition backslash : Z := 92.
Definition caret : Z := 94.

(** ** Character classes *)

(** The [while] loop of [try_match_class] over the rest [p] of the pattern,
    which starts at index [i]. *)
Fixpoint class_loop (p : list Z) (i : nat) (ch : Z) (negate matched : bool) : option (bool * nat) :=
  match p with
  | [] => None
  | c :: p1 =>
    if c =? r_brack then Some (if negate then negb matched else matched, S i) else
    match p1 with
    | e :: p2 =>
        if c =? backslash then class_loop p2 (i + 2) ch negate (matched || (e =? ch))
        else class_loop p1 (S i) ch negate (matched || (c =? ch))
    | [] => class_loop p1 (S i) ch negate (matched || (c =? ch))
    end
  end.

Definition try_match_class (p : list Z) (start : nat) (ch : Z) : option (bool * nat) :=
  let i := S start in
  match p !! i with
  | Some c => if c =? caret then class_loop (drop (S i) p) (S i) ch true false
              else class_loop (drop i p) i ch false false
  | None => class_loop (drop i p) i ch false false
  end.

(** ** The matching loop *)

Record state : Type := MkState {
  s_idx : nat;
  p_idx : nat;
  backtrack : option (nat * nat);
}.

Inductive progress : Type :=
| Continue (st : state)
| Return (result : bool).

(** [while p_idx < p.len() && p[p_idx] == '*'], over the rest [p] of the pattern. *)
Fixpoint drain_stars (p : list Z) (i : nat) : nat :=
  match p with
  | c :: p' => if c =? star then drain_stars p' (S i) else i
  | [] => i
  end.

(** The code after the token match: restore the last star, or give up. *)
Definition mismatch (st : state) : progress :=
  match backtrack st with
  | Some (star_p, star_s) => Continue (MkState (star_s + 1) (star_p + 1) (Some (star_p, star_s + 1)%nat))
  | None => Return false
  end.

(** One iteration of the main loop, or its exit with the trailing check. *)
Definition step (s p : list Z) (st : state) : progress :=
  match s !! s_idx st with
  | None => Return (Nat.eqb (drain_stars (drop (p_idx st) p) (p_idx st)) (length p))
  | Some s_ch =>
    match p !! p_idx st with
    | None => mismatch st
    | Some c =>
      if c =? star then
        Continue (MkState (s_idx st) (p_idx st + 1) (Some (p_idx st, s_idx st)))
      else if c =? question then
        Continue (MkState (s_idx st + 1) (p_idx st + 1) (backtrack st))
      else if c =? l_brack then
        match try_match_class p (p_idx st) s_ch with
        | Some (true, next_p) => Continue (MkState (s_idx st + 1) next_p (backtrack st))
        | Some (false, _) => mismatch st
        | None => Return false
        end
      else if c =? backslash then
        let lit := match p !! (p_idx st + 1)%nat with Some e => e | None => backslash end in
        if s_ch =? lit
        then Continue (MkState (s_idx st + 1)
                         (p_idx st + (if Nat.ltb (p_idx st + 1) (length p) then 2 else 1))
                         (backtrack st))
        else mismatch st
      else if s_ch =? c then Continue (MkState (s_idx st + 1) (p_idx st + 1) (backtrack st))
      else mismatch st
    end
  end.

Fixpoint run (n : nat) (s p : list Z) (st : state) : option bool :=
  match n with
  | O => None
  | S n =>
    match step s p st with
    | Continue st => run n s p st
    | Return b => Some b
    end
  end.

Definition glob_fuel (s p : list Z) : nat := (length s + 1) * (length p + 1).

(** [glob_match] on the two decoded vectors; [None] would mean that the loop
    runs longer than [glob_fuel]. *)
Definition glob_chars (s p : list Z) : option bool := run (glob_fuel s p) s p (MkState 0 0 None).

Definition glob_match (s pattern : string) : option bool := glob_chars (chars s) (chars pattern).

(** ** What patterns mean

    The syntax table of the module documentation. *)

(** [class_body p m rest]: [p] lists the members [m] up to the closing bracket,
    which [rest] follows. *)
Inductive class_body : list Z -> list Z -> list Z -> Prop :=
| cb_close rest : class_body (r_brack :: rest) [] rest
| cb_escape c p m rest : class_body p m rest -> class_body (backslash :: c :: p) (c :: m) rest
| cb_member c p m rest :
    c <> r_brack -> c <> backslash -> class_body p m rest -> class_body (c :: p) (c :: m) rest.

(** [accepts ch p p']: the first token of [p] matches the one code point [ch]
    and [p'] is the pattern after it. *)
Inductive accepts (ch : Z) : list Z -> list Z -> Prop :=
| ac_any p : accepts ch (question :: p) p
| ac_escape p : accepts ch (backslash :: ch :: p) p
| ac_trailing : ch = backslash -> accepts ch [backslash] []
| ac_class p m rest :
    head p <> Some caret -> class_body p m rest -> ch ∈ m -> accepts ch (l_brack :: p) rest
| ac_negated p m rest :
    class_body p m rest -> ch ∉ m -> accepts ch (l_brack :: caret :: p) rest
| ac_literal p :
    ch <> star -> ch <> question -> ch <> l_brack -> ch <> backslash -> accepts ch (ch :: p) p.

(** [matches p s]: the whole pattern matches the whole string. *)
Inductive matches : list Z -> list Z -> Prop :=
| mt_end : matches [] []
| mt_one ch p p' s : accepts ch p p' -> matches p' s -> matches p (ch :: s)
| mt_star_end p s : matches p s -> matches (star :: p) s
| mt_star_more p ch s : matches (star :: p) s -> matches (star :: p) (ch :: s).

(** ** Classes *)

Lemma class_body_det p m rest :
  class_body p m rest -> forall m' rest', class_body p m' rest' -> m = m' /\ rest = rest'.
Proof.
  induction 1 as [rest|c p m rest _ IH|c p m rest H1 H2 _ IH]; intros m' rest' Hb;
    inversion Hb; subst; try done; by edestruct IH as [-> ->].
Qed.

Lemma member_more matched (c ch : Z) m :
  matched || (c =? ch) || bool_decide (ch ∈ m) = matched || bool_decide (ch ∈ c :: m).
Proof.
  rewrite <-orb_assoc. f_equal. apply eq_iff_eq_true.
  rewrite orb_true_iff, !bool_decide_eq_true, Z.eqb_eq, elem_of_cons. naive_solver.
Qed.

(** The result of the class loop that starts at [p] with [matched] so far. *)
Definition class_result (ch : Z) (negate : bool) (p : list Z) (i : nat) (matched : bool)
    (r : option (bool * nat)) : Prop :=
  match r with
  | Some (b, j) => exists m, class_body p m (drop (j - i) p) /\ (i < j <= i + length p)%nat /\
      b = (let r := matched || bool_decide (ch ∈ m) in if negate then negb r else r)
  | None => forall m rest, ~ class_body p m rest
  end.

Lemma class_loop_spec ch negate p : forall i matched,
  class_result ch negate p i matched (class_loop p i ch negate matched).
Proof.
  remember (length p) as n eqn:Hn. revert p Hn. induction n as [n IH] using lt_wf_ind.
  intros [|c p1] Hn i matched; cbn [class_loop]; [intros m rest Hb; inversion Hb|].
  destruct (Z.eqb_spec c r_brack) as [->|Hc].
  { exists []. replace (S i - i)%nat with 1%nat by lia.
    rewrite bool_decide_false, orb_false_r by apply not_elem_of_nil.
    split_and!; [constructor|lia|simpl; lia|done]. }
  assert (c <> backslash \/ p1 = [] ->
    class_result ch negate (c :: p1) i matched (class_loop p1 (S i) ch negate (matched || (c =? ch))))
    as Hmember.
  { intros Hlit. specialize (IH (length p1) ltac:(simpl in Hn; lia) p1 eq_refl (S i) (matched || (c =? ch))).
    destruct (class_loop _ _ _ _ _) as [[b j]|]; simpl in *.
    - destruct IH as (m & Hb & Hj & ->). exists (c :: m). rewrite member_more.
      destruct Hlit as [Hlit| ->]; [|inversion Hb]. replace (j - i)%nat with (S (j - S i)) by lia.
      split_and!; [by constructor|lia|lia|done].
    - intros m rest Hb. inversion Hb; subst; [done|by destruct Hlit|by eapply IH]. }
  destruct p1 as [|e p2]; [by apply Hmember; right|].
  destruct (Z.eqb_spec c backslash) as [->|Hbs]; [|by apply Hmember; left].
  specialize (IH (length p2) ltac:(simpl in Hn; lia) p2 eq_refl (i + 2)%nat (matched || (e =? ch))).
  destruct (class_loop _ _ _ _ _) as [[b j]|]; simpl in *.
  - destruct IH as (m & Hb & Hj & ->). exists (e :: m). rewrite member_more.
    replace (j - i)%nat with (S (S (j - (i + 2)))) by lia. split_and!; [by constructor|lia|lia|done].
  - intros m rest Hb. inversion Hb; subst; [|done]. by eapply IH.
Qed.

(** ** Tokens *)

Lemma accepts_det ch p p1 : accepts ch p p1 -> forall ch' p2, accepts ch' p p2 -> p1 = p2.
Proof.
  intros H1 ch' p2 H2. inversion H1; subst; inversion H2; subst; try done;
    match goal with
    | Hb : class_body ?p _ _, Hb' : class_body ?p _ _ |- _ => by destruct (class_body_det _ _ _ Hb _ _ Hb')
    | _ => idtac
    end.
Qed.

Lemma accepts_not_star ch p p' : accepts ch p p' -> head p <> Some star.
Proof. destruct 1; simpl; first [discriminate | congruence]. Qed.

(** What a class body read by the helper says about the class token. *)
Lemma class_result_token ch (negate : bool) q i r :
  let P := if negate then l_brack :: caret :: q else l_brack :: q in
  (negate = false -> head q <> Some caret) -> class_result ch negate q i false r ->
  match r with
  | Some (true, j) => accepts ch P (drop (j - i) q) /\ (i < j <= i + length q)%nat
  | Some (false, _) => forall p', ~ accepts ch P p'
  | None => forall ch' p', ~ accepts ch' P p'
  end.
Proof.
  intros P Hhead Hr. destruct r as [[b j]|].
  - destruct Hr as (m & Hb & Hj & ->). cbv zeta. rewrite orb_false_l.
    destruct negate; subst P; cbn [negb].
    + destruct (bool_decide_reflect (ch ∈ m)) as [Hin|Hin]; cbn [negb]; [|split; [by econstructor|done]].
      intros p' Ha. inversion Ha; subst; try done.
      by destruct (class_body_det _ _ _ Hb _ _ ltac:(eassumption)) as [-> _].
    + destruct (bool_decide_reflect (ch ∈ m)) as [Hin|Hin]; [split; [by econstructor; auto|done]|].
      intros p' Ha. inversion Ha; subst; try (by destruct Hhead); try done.
      by destruct (class_body_det _ _ _ Hb _ _ ltac:(eassumption)) as [-> _].
  - intros ch' p' Ha. destruct negate; subst P; inversion Ha; subst; try done;
      try (by destruct Hhead); by eapply Hr.
Qed.

Lemma try_match_class_spec p start ch :
  p !! start = Some l_brack ->
  match try_match_class p start ch with
  | Some (true, next) => accepts ch (drop start p) (drop next p) /\ (start < next <= length p)%nat
  | Some (false, _) => forall p', ~ accepts ch (drop start p) p'
  | None => forall ch' p', ~ accepts ch' (drop start p) p'
  end.
Proof.
  intros Hp. rewrite (drop_S _ _ _ Hp). unfold try_match_class. apply lookup_lt_Some in Hp.
  assert (p !! S start = Some caret \/ head (drop (S start) p) <> Some caret /\
    (match p !! S start with
     | Some c => if c =? caret then class_loop (drop (S (S start)) p) (S (S start)) ch true false
                 else class_loop (drop (S start) p) (S start) ch false false
     | None => class_loop (drop (S start) p) (S start) ch false false
     end) = class_loop (drop (S start) p) (S start) ch false false) as [Hc|[Hh ->]].
  { rewrite head_lookup, lookup_drop, Nat.add_0_r. destruct (p !! S start) as [c|]; [|by right].
    destruct (Z.eqb_spec c caret) as [->|Hne]; [by left|right; split; congruence]. }
  - rewrite Hc. cbn [Z.eqb caret Pos.eqb]. apply lookup_lt_Some in Hc as Hlt.
    pose proof (class_result_token ch true _ (S (S start)) _ ltac:(done)
      (class_loop_spec ch true (drop (S (S start)) p) (S (S start)) false)) as Hr. cbv zeta iota in Hr.
    rewrite (drop_S _ _ _ Hc). destruct (class_loop _ _ _ _ _) as [[[] j]|]; [|done|done].
    destruct Hr as [Ha Hj]. rewrite drop_drop in Ha. rewrite length_drop in Hj.
    replace (S (S start) + (j - S (S start)))%nat with j in Ha by lia. split; [done|lia].
  - pose proof (class_result_token ch false _ (S start) _ (fun _ => Hh)
      (class_loop_spec ch false (drop (S start) p) (S start) false)) as Hr. cbv zeta iota in Hr.
    destruct (class_loop _ _ _ _ _) as [[[] j]|]; [|done|done].
    destruct Hr as [Ha Hj]. rewrite drop_drop in Ha. rewrite length_drop in Hj.
    replace (S start + (j - S start))%nat with j in Ha by lia. split; [done|lia].
Qed.

(** One iteration on a token that is not a star. *)
Lemma step_token s p st ch c :
  s !! s_idx st = Some ch -> p !! p_idx st = Some c -> c <> star ->
  (exists next, step s p st = Continue (MkState (s_idx st + 1) next (backtrack st)) /\
     accepts ch (drop (p_idx st) p) (drop next p) /\ (p_idx st < next <= length p)%nat) \/
  (step s p st = mismatch st /\ forall p', ~ accepts ch (drop (p_idx st) p) p') \/
  (step s p st = Return false /\ forall ch' p', ~ accepts ch' (drop (p_idx st) p) p').
Proof.
  intros Hs Hp Hstar. unfold step. rewrite Hs, Hp. apply lookup_lt_Some in Hp as Hlt.
  rewrite (proj2 (Z.eqb_neq _ _) Hstar).
  destruct (Z.eqb_spec c question) as [->|Hq].
  { left. eexists. split; [done|]. rewrite (drop_S _ _ _ Hp), Nat.add_1_r. split; [constructor|lia]. }
  destruct (Z.eqb_spec c l_brack) as [->|Hb].
  { pose proof (try_match_class_spec p (p_idx st) ch Hp) as Hc.
    destruct (try_match_class p (p_idx st) ch) as [[[] next]|]; [left; by exists next|by right; left|by right; right]. }
  rewrite (drop_S _ _ _ Hp).
  destruct (Z.eqb_spec c backslash) as [->|Hbs].
  { destruct (p !! (p_idx st + 1)%nat) as [e|] eqn:He.
    - apply lookup_lt_Some in He as Hlt'. rewrite (proj2 (Nat.ltb_lt _ _) Hlt').
      rewrite Nat.add_1_r in He. rewrite (drop_S _ _ _ He).
      destruct (Z.eqb_spec ch e) as [->|Hne].
      + left. eexists. split; [done|]. replace (p_idx st + 2)%nat with (S (S (p_idx st))) by lia.
        split; [constructor|lia].
      + right; left. split; [done|]. intros p' Ha. by inversion Ha; subst.
    - apply lookup_ge_None in He. rewrite (proj2 (Nat.ltb_ge _ _) He), (drop_ge p (S _)) by lia.
      destruct (Z.eqb_spec ch backslash) as [->|Hne].
      + left. eexists. split; [done|]. rewrite (drop_ge p (_ + 1)) by lia. split; [by constructor|lia].
      + right; left. split; [done|]. intros p' Ha. by inversion Ha; subst. }
  destruct (Z.eqb_spec ch c) as [->|Hne].
  - left. eexists. split; [done|]. rewrite Nat.add_1_r. split; [by constructor|lia].
  - right; left. split; [done|]. intros p' Ha. by inversion Ha; subst.
Qed.

(** ** Segments: runs of one-code-point tokens *)

Inductive segment : nat -> list Z -> list Z -> Prop :=
| sg_nil p : segment 0 p p
| sg_cons n ch p p1 p2 : accepts ch p p1 -> segment n p1 p2 -> segment (S n) p p2.

Lemma segment_snoc n p p1 p2 ch : segment n p p1 -> accepts ch p1 p2 -> segment (S n) p p2.
Proof. induction 1; intros; econstructor; eauto using segment. Qed.

Lemma accepts_matches ch p p' s :
  accepts ch p p' -> matches p s -> exists ch' s', s = ch' :: s' /\ accepts ch' p p' /\ matches p' s'.
Proof.
  intros Ha Hm. pose proof (accepts_not_star _ _ _ Ha) as Hs.
  destruct Hm as [|ch' p p1 s' Ha' Hm| |]; [inversion Ha| |done|done].
  exists ch', s'. by rewrite (accepts_det _ _ _ Ha _ _ Ha').
Qed.

(** A segment has a fixed width, so it can only start earlier than its end. *)
Lemma segment_matches n p p' : segment n p p' ->
  forall s, matches p s -> (n <= length s)%nat /\ matches p' (drop n s).
Proof.
  induction 1 as [p|n ch p p1 p2 Ha _ IH]; intros s Hm; [split; [lia|done]|].
  destruct (accepts_matches _ _ _ _ Ha Hm) as (ch' & s' & -> & _ & Hm').
  destruct (IH _ Hm'). simpl. split; [lia|done].
Qed.

Lemma star_matches p s :
  matches (star :: p) s <-> exists k, (k <= length s)%nat /\ matches p (drop k s).
Proof.
  split.
  - remember (star :: p) as q eqn:Hq. induction 1 as [|ch q q' s Ha _ _|q s Hm _|q ch s _ IH]; [done| | |].
    + subst. by destruct (accepts_not_star _ _ _ Ha).
    + injection Hq as ->. exists 0%nat. split; [lia|done].
    + injection Hq as ->. destruct (IH eq_refl) as (k & Hk & Hm). exists (S k). simpl. split; [lia|done].
  - intros (k & Hk & Hm). revert s Hk Hm. induction k as [|k IH]; intros s Hk Hm; [by constructor|].
    destruct s as [|ch s]; [simpl in Hk; lia|]. apply mt_star_more. apply IH; [simpl in Hk; lia|done].
Qed.

(** A star at [p'] absorbs every later start of the segment before it. *)
Lemma later_start_absorbed n p p' s a k :
  segment n p (star :: p') -> (a < k <= length s)%nat -> matches p (drop k s) ->
  matches (star :: p') (drop (a + n) s).
Proof.
  intros Hseg Hk Hm. destruct (segment_matches _ _ _ Hseg _ Hm) as [Hn Hm'].
  rewrite drop_drop in Hm'. rewrite length_drop in Hn. apply star_matches in Hm' as (j & Hj & Hm').
  rewrite drop_drop in Hm'. rewrite length_drop in Hj.
  apply star_matches. exists (k + n + j - (a + n))%nat. rewrite drop_drop, length_drop.
  replace (a + n + (k + n + j - (a + n)))%nat with (k + n + j)%nat by lia. split; [lia|done].
Qed.

(** ** The loop *)

Section Loop.
Context (s p : list Z).

(** What a state still has to decide. *)
Definition pending (st : state) : Prop :=
  matches (drop (p_idx st) p) (drop (s_idx st) s) \/
  match backtrack st with
  | Some (star_p, star_s) =>
      exists k, (star_s < k <= length s)%nat /\ matches (drop (S star_p) p) (drop k s)
  | None => False
  end.

Definition inv (st : state) : Prop :=
  (s_idx st <= length s)%nat /\ (p_idx st <= length p)%nat /\
  match backtrack st with
  | Some (star_p, star_s) => (star_p < p_idx st)%nat /\ (star_s <= s_idx st)%nat /\
      segment (s_idx st - star_s) (drop (S star_p) p) (drop (p_idx st) p)
  | None => True
  end.

Definition measure (st : state) : nat :=
  (length s - match backtrack st with Some (_, star_s) => star_s | None => 0 end) * (length p + 1) +
  (length p - p_idx st).

Definition decides (st : state) (r : progress) : Prop :=
  match r with
  | Continue st' => inv st' /\ (measure st' < measure st)%nat /\ (pending st' <-> pending st)
  | Return b => b = true <-> pending st
  end.

Lemma mismatch_decides st ch :
  inv st -> s !! s_idx st = Some ch -> ~ matches (drop (p_idx st) p) (drop (s_idx st) s) ->
  decides st (mismatch st).
Proof.
  destruct st as [si pi bt]. unfold decides, mismatch, pending, inv, measure. simpl.
  intros (H1 & H2 & Hbt) Hch Hno. apply lookup_lt_Some in Hch.
  destruct bt as [[sp ss]|]; [|naive_solver]. destruct Hbt as (H3 & H4 & Hseg).
  rewrite (Nat.add_1_r ss), (Nat.add_1_r sp). simpl. split_and!; [lia|lia|lia|lia| | |].
  - rewrite Nat.sub_diag. constructor.
  - assert (length s - ss = S (length s - S ss))%nat as -> by lia. lia.
  - split.
    + intros [Hm|(k & Hk & Hm)]; right; [exists (S ss)|exists k]; (split; [lia|done]).
    + intros [?|(k & Hk & Hm)]; [done|]. destruct (decide (k = S ss)) as [->|Hne]; [by left|].
      right. exists k. split; [lia|done].
Qed.

Lemma drain_stars_spec l i : drain_stars l i = (i + length l)%nat <-> matches l [].
Proof.
  revert i. induction l as [|c l IH]; intros i; simpl.
  - split; [constructor|lia].
  - destruct (Z.eqb_spec c star) as [->|Hc].
    + rewrite <-Nat.add_succ_comm, IH. rewrite star_matches. split; [intros; by exists 0%nat|].
      intros (k & _ & Hm). by rewrite drop_nil in Hm.
    + split; [lia|]. intros Hm. inversion Hm; subst; done.
Qed.

Lemma exit_decides st :
  inv st -> s !! s_idx st = None ->
  decides st (Return (Nat.eqb (drain_stars (drop (p_idx st) p) (p_idx st)) (length p))).
Proof.
  destruct st as [si pi bt]. unfold decides, pending, inv. simpl.
  intros (H1 & H2 & Hbt) Hs%lookup_ge_None. rewrite (drop_ge s) by lia.
  rewrite Nat.eqb_eq, <-(drain_stars_spec _ pi), length_drop.
  replace (pi + (length p - pi))%nat with (length p) by lia. split; [by left|].
  intros [?|Hk]; [done|]. destruct bt as [[sp ss]|]; [|done]. destruct Hk as (k & Hk & Hm).
  destruct Hbt as (_ & H4 & Hseg). destruct (segment_matches _ _ _ Hseg _ Hm) as [Hn _].
  rewrite length_drop in Hn. lia.
Qed.

Lemma star_decides st ch :
  inv st -> s !! s_idx st = Some ch -> p !! p_idx st = Some star ->
  decides st (Continue (MkState (s_idx st) (p_idx st + 1) (Some (p_idx st, s_idx st)))).
Proof.
  destruct st as [si pi bt]. unfold decides, pending, inv, measure. simpl.
  intros (H1 & H2 & Hbt) Hs Hp. pose proof (drop_S _ _ _ Hp) as Hd.
  apply lookup_lt_Some in Hp. apply lookup_lt_Some in Hs. rewrite Nat.add_1_r. split_and!; [lia|lia|lia|lia| | |].
  - rewrite Nat.sub_diag. constructor.
  - destruct bt as [[sp ss]|]; [destruct Hbt as (? & ? & _)|]; nia.
  - rewrite Hd, star_matches. split.
    + intros [Hm|(k & Hk & Hm)]; left; [exists 0%nat|exists (k - si)%nat]; rewrite drop_drop, length_drop.
      * rewrite Nat.add_0_r. split; [lia|done].
      * replace (si + (k - si))%nat with k by lia. split; [lia|done].
    + intros Hor. assert (exists k, (k <= length (drop si s))%nat /\ matches (drop (S pi) p) (drop k (drop si s)))
        as (k & Hk & Hm).
      { destruct Hor as [?|Hk]; [done|]. destruct bt as [[sp ss]|]; [|done]. destruct Hk as (k & Hk & Hm).
        destruct Hbt as (_ & H4 & Hseg). rewrite Hd in Hseg. apply star_matches.
        pose proof (later_start_absorbed _ _ _ s ss k Hseg Hk Hm) as Habs.
        by replace (ss + (si - ss))%nat with si in Habs by lia. }
      rewrite drop_drop in Hm. rewrite length_drop in Hk.
      destruct k as [|k]; [left; by rewrite Nat.add_0_r in Hm|].
      right. exists (si + S k)%nat. split; [lia|done].
Qed.

Lemma token_decides st ch next :
  inv st -> s !! s_idx st = Some ch -> accepts ch (drop (p_idx st) p) (drop next p) ->
  (p_idx st < next <= length p)%nat ->
  decides st (Continue (MkState (s_idx st + 1) next (backtrack st))).
Proof.
  destruct st as [si pi bt]. unfold decides, pending, inv, measure. simpl.
  intros (H1 & H2 & Hbt) Hs Ha Hn. pose proof (drop_S _ _ _ Hs) as Hd. apply lookup_lt_Some in Hs.
  rewrite Nat.add_1_r. split_and!; [lia|lia| |lia|].
  - destruct bt as [[sp ss]|]; [|done]. destruct Hbt as (? & ? & Hseg). split_and!; [lia|lia|].
    rewrite Nat.sub_succ_l by done. by eapply segment_snoc.
  - rewrite Hd. assert (matches (drop pi p) (ch :: drop (S si) s) <-> matches (drop next p) (drop (S si) s))
      as ->; [|done]. split; [|by econstructor].
    intros Hm. by destruct (accepts_matches _ _ _ _ Ha Hm) as (? & ? & [= -> ->] & _ & ?).
Qed.

Lemma malformed_decides st ch c :
  inv st -> s !! s_idx st = Some ch -> p !! p_idx st = Some c -> c <> star ->
  (forall ch' p', ~ accepts ch' (drop (p_idx st) p) p') -> decides st (Return false).
Proof.
  intros (H1 & H2 & Hbt) Hs Hp Hc Hno. simpl. split; [done|].
  assert (forall t, ~ matches (drop (p_idx st) p) t) as Hnm.
  { rewrite (drop_S _ _ _ Hp) in *. intros t Hm. inversion Hm; subst; naive_solver. }
  intros [Hm|Hk]; [by apply Hnm in Hm|]. destruct (backtrack st) as [[sp ss]|]; [|done].
  destruct Hk as (k & Hk & Hm). destruct Hbt as (_ & _ & Hseg).
  destruct (segment_matches _ _ _ Hseg _ Hm) as [_ Hm']. by apply Hnm in Hm'.
Qed.

Lemma step_decides st : inv st -> decides st (step s p st).
Proof.
  intros Hinv. destruct (s !! s_idx st) as [ch|] eqn:Hs;
    [|unfold step; rewrite Hs; by apply exit_decides].
  destruct (p !! p_idx st) as [c|] eqn:Hp; cycle 1.
  { unfold step. rewrite Hs, Hp. eapply mismatch_decides; [done|done|].
    apply lookup_ge_None in Hp. rewrite drop_ge, (drop_S _ _ _ Hs) by done. intros Hm.
    inversion Hm; subst. by match goal with Ha : accepts _ [] _ |- _ => inversion Ha end. }
  destruct (decide (c = star)) as [->|Hstar].
  - unfold step. rewrite Hs, Hp. by apply (star_decides st ch).
  - destruct (step_token s p st ch c Hs Hp Hstar) as [(next & -> & Ha & Hn)|[[-> Hno]|[-> Hno]]].
    + by apply (token_decides st ch).
    + eapply mismatch_decides; [done|done|]. rewrite (drop_S _ _ _ Hs), (drop_S _ _ _ Hp) in *.
      intros Hm. inversion Hm; subst; naive_solver.
    + by eapply malformed_decides.
Qed.

Lemma run_decides n : forall st, inv st -> (measure st < n)%nat ->
  exists b, run n s p st = Some b /\ (b = true <-> pending st).
Proof.
  induction n as [|n IH]; intros st Hinv Hn; [lia|]. simpl. pose proof (step_decides st Hinv) as Hd.
  destruct (step s p st) as [st'|b]; [|by exists b]. destruct Hd as (Hinv' & Hm & Hp).
  destruct (IH st' Hinv' ltac:(lia)) as (b & Hr & Hb). exists b. by rewrite Hb, Hp.
Qed.
End Loop.

(** ** Properties *)

Lemma glob_match_run s pattern :
  exists b, glob_match s pattern = Some b /\ (b = true <-> matches (chars pattern) (chars s)).
Proof.
  destruct (run_decides (chars s) (chars pattern) (glob_fuel (chars s) (chars pattern)) (MkState 0 0 None))
    as (b & Hr & Hb).
  - unfold inv. simpl. split_and!; [lia|lia|done].
  - unfold measure, glob_fuel. simpl. lia.
  - exists b. split; [done|]. rewrite Hb. unfold pending. simpl. rewrite !drop_0. tauto.
Qed.

Lemma empty_negated_class_matches c : glob_chars [c] (chars "[^]") = Some true.
Proof. reflexivity. Qed.

Lemma empty_class_fails c : glob_chars [c] (chars "[]") = Some false.
Proof. reflexivity. Qed.

(** C18 The glob matcher decides exactly the relation [matches], over code points and anchored
    at both ends, for every string and every pattern, malformed ones included; and its loop ends
    within [(|s|+1)*(|p|+1)] iterations, so no pattern makes it backtrack exponentially. As in
    the code, and against the module documentation, which says that both match nothing, the
    empty negated class accepts every code point; the empty class accepts none. *)
Theorem glob_match_decides s pattern :
  (exists b, glob_match s pattern = Some b /\ (b = true <-> matches (chars pattern) (chars s))) /\
  forall c, glob_chars [c] (chars "[^]") = Some true /\ glob_chars [c] (chars "[]") = Some false.
Proof. split; [apply glob_match_run|]. intros c. split; [apply empty_negated_class_matches|apply empty_class_fails]. Qed.

Example glob_examples :
  glob_match "src/main.rs" "*.rs" = Some true /\ glob_match "src/main.rs" "src/?ain.r[^st]" = Some false /\
  glob_match "a*b" "a\*b" = Some true /\ glob_match "aXb" "a\*b" = Some false /\
  glob_match "ab" "*[b" = Some false /\ glob_match "" "**" = Some true.
Proof. by vm_compute. Qed.
End Glob.
