(* ===== verification/SmolStr.v ===== *)
(** [crates/relon-eval-api/src/smol_str.rs]: the short-string-optimised string of
    [Value::String].  Payloads of at most 22 bytes live in an inline array, longer
    ones behind an [Arc<str>].  [as_str] converts the inline bytes with
    [from_utf8_unchecked], so every constructor must leave valid UTF-8 there;
    observers must not depend on the representation. *)

From Stdlib Require Import ZArith Lia Bool.
From Stdlib Require Import Strings.String Strings.Ascii.
From coqutil Require Import Byte.
From stdpp Require Import base list strings.
From S2P Require Import Prelude Bytes Value Chars.
Local Open Scope Z_scope.
Local Open Scope abi_scope.

Module Smol.

Definition SMOL_STR_INLINE_CAP : Z := 22.

(** The two representations; an [Arc<str>] is the string it points to. *)
Inductive SmolStr : Type :=
| Inline (len : Z) (data : bytes)
| Heap (arc : string).

(** [s.len()] of a [&str] *)
Definition str_len (s : string) : Z := blen (as_bytes s).

Section Ops.
(** No operation returns an error: the outcomes are values and panics. *)
Context {E : Type}.

Definition new_empty : SmolStr := Inline 0 (zeros SMOL_STR_INLINE_CAP).

(** [from_utf8_unchecked] is [str_of_bytes]: its result is only a [str] when the
    bytes are valid. *)
Definition as_str (s : SmolStr) : outcome E string :=
  match s with
  | Inline len data => let* b := slice data 0 len in Ok (str_of_bytes b)
  | Heap arc => Ok arc
  end.

Definition len (s : SmolStr) : Z :=
  match s with
  | Inline len _ => len
  | Heap arc => str_len arc
  end.

Definition is_empty (s : SmolStr) : bool := len s =? 0.

Definition is_inline (s : SmolStr) : bool :=
  match s with Inline _ _ => true | Heap _ => false end.

(** [[u8]::is_ascii] *)
Definition ascii_bytes (b : bytes) : bool := forallb (fun x => byte.unsigned x <? 128) b.

Definition is_ascii (s : SmolStr) : outcome E bool :=
  match s with
  | Inline len data => let* b := slice data 0 len in Ok (ascii_bytes b)
  | Heap arc => Ok (ascii_bytes (as_bytes arc))
  end.

Definition from_borrowed (s : string) : outcome E SmolStr :=
  if str_len s <=? SMOL_STR_INLINE_CAP then
    let* data := patch (zeros SMOL_STR_INLINE_CAP) 0 (as_bytes s) in
    Ok (Inline (str_len s) data)
  else Ok (Heap s).

Definition from_string (s : string) : outcome E SmolStr :=
  if str_len s <=? SMOL_STR_INLINE_CAP then from_borrowed s else Ok (Heap s).

Definition concat (a b : string) : outcome E SmolStr :=
  let total := str_len a + str_len b in
  if total <=? SMOL_STR_INLINE_CAP then
    let* data := patch (zeros SMOL_STR_INLINE_CAP) 0 (as_bytes a) in
    let* data := patch data (str_len a) (as_bytes b) in
    Ok (Inline total data)
  else Ok (Heap (a +:+ b)).

Definition concat_many (slices : list string) : outcome E SmolStr :=
  let total := foldr (fun s n => str_len s + n) 0 slices in
  if total <=? SMOL_STR_INLINE_CAP then
    let* (data, _) :=
      foldM (fun '(data, offset) s =>
        let* data := patch data offset (as_bytes s) in
        Ok (data, offset + str_len s)) (zeros SMOL_STR_INLINE_CAP, 0) slices in
    Ok (Inline total data)
  else Ok (Heap (foldl (fun buf s => buf +:+ s) EmptyString slices)).

Definition into_string (s : SmolStr) : outcome E string := as_str s.

(** [write] fills the slice it is given; it returns a slice of the same length. *)
Definition try_build_inline (out_len : Z) (write : bytes -> bytes) : outcome E (option SmolStr) :=
  if SMOL_STR_INLINE_CAP <? out_len then Ok None else
  let data := zeros SMOL_STR_INLINE_CAP in
  let* out := slice data 0 out_len in
  let* data := patch data 0 (write out) in
  let* written := slice data 0 out_len in
  match from_utf8 written with
  | None => Ok None
  | Some _ => Ok (Some (Inline out_len data))
  end.

(** [PartialEq::eq] and [Ord::cmp]: byte order of the two payloads. *)
Definition smol_eq (a b : SmolStr) : outcome E bool :=
  let* x := as_str a in let* y := as_str b in Ok (bool_decide (x = y)).

Definition smol_cmp (a b : SmolStr) : outcome E comparison :=
  let* x := as_str a in let* y := as_str b in Ok (String.compare x y).
End Ops.

(** ** The strings a program builds

    [builds x s]: the interface built [x] for the string [s]. *)
Inductive builds {E : Type} : SmolStr -> string -> Prop :=
| bl_empty : builds new_empty EmptyString
| bl_borrowed s x : is_str s = true -> from_borrowed (E := E) s = Ok x -> builds x s
| bl_string s x : is_str s = true -> from_string (E := E) s = Ok x -> builds x s
| bl_concat x y s t z :
    builds x s -> builds y t -> concat (E := E) s t = Ok z -> builds z (s +:+ t)
| bl_concat_many xs ss z :
    Forall2 builds xs ss -> concat_many (E := E) ss = Ok z ->
    builds z (foldl (fun buf s => buf +:+ s) EmptyString ss)
| bl_write n write x :
    0 <= n -> (forall b, length (write b) = length b) ->
    try_build_inline (E := E) n write = Ok (Some x) -> builds x (str_of_bytes (write (zeros n))).

(** ** Invariant *)

(** [x] holds the string [s]: the representation invariant with its meaning. *)
Definition denotes (x : SmolStr) (s : string) : Prop :=
  is_str s = true /\
  match x with
  | Inline len data => len = str_len s /\ len <= SMOL_STR_INLINE_CAP /\
      blen data = SMOL_STR_INLINE_CAP /\ take (Z.to_nat len) data = as_bytes s
  | Heap arc => arc = s /\ SMOL_STR_INLINE_CAP < str_len s
  end.

Lemma as_bytes_app a b : as_bytes (a +:+ b) = as_bytes a ++ as_bytes b.
Proof.
  induction a as [|c a IH]; [done|].
  change (Ascii.byte_of_ascii c :: as_bytes (a +:+ b) = Ascii.byte_of_ascii c :: as_bytes a ++ as_bytes b).
  by rewrite IH.
Qed.

Lemma str_len_app a b : str_len (a +:+ b) = str_len a + str_len b.
Proof. unfold str_len. by rewrite as_bytes_app, blen_app. Qed.

Lemma str_len_nonneg s : 0 <= str_len s.
Proof. apply blen_nonneg. Qed.

Lemma is_str_app a b : is_str a = true -> is_str b = true -> is_str (a +:+ b) = true.
Proof. unfold is_str. intros Ha Hb. by rewrite as_bytes_app, utf8_valid_app. Qed.

Lemma take_blen (b c : bytes) : take (Z.to_nat (blen b)) (b ++ c) = b.
Proof. unfold blen. by rewrite Nat2Z.id, take_app_length. Qed.

Section Facts.
Context {E : Type}.

Lemma denotes_slice n data s :
  denotes (Inline n data) s -> slice (E := E) data 0 n = Ok (as_bytes s).
Proof.
  intros (_ & -> & Hc & Hd & Ht). pose proof (str_len_nonneg s). apply slice_ok.
  rewrite drop_0. split_and!; try lia. done.
Qed.

(** Appending [src] behind the [pre] bytes written so far. *)
Lemma append_inline (data pre src : bytes) :
  blen data = SMOL_STR_INLINE_CAP -> take (length pre) data = pre ->
  blen pre + blen src <= SMOL_STR_INLINE_CAP ->
  exists data', patch (E := E) data (blen pre) src = Ok data' /\
    blen data' = SMOL_STR_INLINE_CAP /\ take (length (pre ++ src)) data' = pre ++ src.
Proof.
  intros Hd Hp Hle. pose proof (blen_nonneg pre).
  destruct (@patch_in_range E data (blen pre) src) as [r Hr]; [lia|lia|]. exists r. split; [done|].
  rewrite (patch_length _ _ _ _ Hr). split; [done|]. apply patch_ok in Hr as (_ & _ & ->).
  unfold blen. rewrite Nat2Z.id, Hp, app_assoc. by rewrite take_app_length.
Qed.

Lemma inline_denotes s data :
  is_str s = true -> str_len s <= SMOL_STR_INLINE_CAP -> blen data = SMOL_STR_INLINE_CAP ->
  take (length (as_bytes s)) data = as_bytes s -> denotes (Inline (str_len s) data) s.
Proof.
  intros Hs Hc Hd Ht. split; [done|]. split_and!; try done.
  unfold str_len, blen. by rewrite Nat2Z.id.
Qed.

Lemma from_borrowed_ok s :
  is_str s = true -> exists x, from_borrowed (E := E) s = Ok x /\ denotes x s.
Proof.
  intros Hs. unfold from_borrowed. destruct (_ <=? _) eqn:Hc; zb; [|by exists (Heap s)].
  destruct (append_inline (zeros SMOL_STR_INLINE_CAP) [] (as_bytes s)) as (data & Hp & Hd & Ht);
    [done|done|done|]. change (blen []) with 0 in Hp. rewrite Hp. cbn [bind].
  eexists. split; [done|]. by apply inline_denotes.
Qed.

Lemma from_string_ok s :
  is_str s = true -> exists x, from_string (E := E) s = Ok x /\ denotes x s.
Proof.
  intros Hs. unfold from_string. destruct (_ <=? _) eqn:Hc; [by apply from_borrowed_ok|].
  zb. by exists (Heap s).
Qed.

Lemma concat_ok a b :
  is_str a = true -> is_str b = true ->
  exists x, concat (E := E) a b = Ok x /\ denotes x (a +:+ b).
Proof.
  intros Ha Hb. pose proof (is_str_app _ _ Ha Hb) as Hab. pose proof (str_len_nonneg b).
  unfold concat. rewrite <-str_len_app.
  destruct (_ <=? _) eqn:Hc; zb; [|by exists (Heap (a +:+ b))].
  rewrite str_len_app in Hc. unfold str_len in *.
  destruct (append_inline (zeros SMOL_STR_INLINE_CAP) [] (as_bytes a)) as (d1 & Hp & Hd & Ht);
    [done|done|simpl; unfold blen in *; simpl in *; lia|].
  change (blen []) with 0 in Hp. rewrite Hp. cbn [bind].
  destruct (append_inline d1 (as_bytes a) (as_bytes b)) as (d2 & Hp2 & Hd2 & Ht2); [done|done|done|].
  rewrite Hp2. cbn [bind]. eexists. split; [done|]. apply inline_denotes; try done.
  - rewrite str_len_app. done.
  - by rewrite as_bytes_app.
Qed.

(** The buffer of [concat_many] after the slices [ss]. *)
Abbreviation joined s0 ss := (foldl (fun buf s => buf +:+ s) s0 ss).

Lemma joined_bytes ss s0 : as_bytes (joined s0 ss) = as_bytes s0 ++ mjoin (map as_bytes ss).
Proof.
  revert s0. induction ss as [|s ss IH]; intros s0; simpl; [by rewrite app_nil_r|].
  by rewrite IH, as_bytes_app, <-app_assoc.
Qed.

Lemma joined_str ss s0 :
  is_str s0 = true -> Forall (fun s => is_str s = true) ss -> is_str (joined s0 ss) = true.
Proof.
  intros H0 Hss. revert s0 H0. induction Hss as [|s ss Hs _ IH]; intros s0 H0; simpl; [done|].
  by apply IH, is_str_app.
Qed.

Lemma joined_len ss s0 : str_len (joined s0 ss) = str_len s0 + foldr (fun s n => str_len s + n) 0 ss.
Proof.
  revert s0. induction ss as [|s ss IH]; intros s0; simpl; [lia|]. rewrite IH, str_len_app. lia.
Qed.

Lemma concat_loop ss : forall s0 data,
  blen data = SMOL_STR_INLINE_CAP -> take (length (as_bytes s0)) data = as_bytes s0 ->
  str_len (joined s0 ss) <= SMOL_STR_INLINE_CAP ->
  exists data', foldM (E := E) (fun '(data, offset) s =>
      let* data := patch data offset (as_bytes s) in Ok (data, offset + str_len s)) (data, str_len s0) ss
    = Ok (data', str_len (joined s0 ss)) /\ blen data' = SMOL_STR_INLINE_CAP /\
    take (length (as_bytes (joined s0 ss))) data' = as_bytes (joined s0 ss).
Proof.
  induction ss as [|s ss IH]; intros s0 data Hd Ht Hc; simpl; [by exists data|]. simpl in Hc.
  assert (str_len (s0 +:+ s) <= str_len (joined (s0 +:+ s) ss)) as Hle.
  { rewrite joined_len. clear. induction ss as [|s' ss IH]; simpl; [lia|].
    pose proof (str_len_nonneg s'). lia. }
  rewrite str_len_app in Hle.
  destruct (append_inline data (as_bytes s0) (as_bytes s)) as (d1 & Hp & Hd1 & Ht1);
    [done|done|unfold str_len in *; lia|].
  change (blen (as_bytes s0)) with (str_len s0) in Hp. rewrite Hp. cbn [bind]. rewrite <-str_len_app.
  apply IH; [done| |done]. by rewrite as_bytes_app.
Qed.

Lemma concat_many_ok ss :
  Forall (fun s => is_str s = true) ss ->
  exists x, concat_many (E := E) ss = Ok x /\ denotes x (joined EmptyString ss).
Proof.
  intros Hss. pose proof (joined_str ss EmptyString eq_refl Hss) as Hj. unfold concat_many.
  assert (foldr (fun s n => str_len s + n) 0 ss = str_len (joined EmptyString ss)) as ->
    by (rewrite joined_len; done).
  destruct (_ <=? _) eqn:Hc; zb; [|by exists (Heap (joined EmptyString ss))].
  destruct (concat_loop ss EmptyString (zeros SMOL_STR_INLINE_CAP)) as (data & Hf & Hd & Ht);
    [done|done|done|]. change (str_len EmptyString) with 0 in Hf. rewrite Hf. cbn [bind].
  eexists. split; [done|]. by apply inline_denotes.
Qed.

(** A writer that keeps the slice length either builds its bytes or is refused. *)
Lemma try_build_inline_ok n write :
  0 <= n -> (forall b, length (write b) = length b) ->
  exists r, try_build_inline (E := E) n write = Ok r /\
    match r with
    | Some x => denotes x (str_of_bytes (write (zeros n)))
    | None => SMOL_STR_INLINE_CAP < n \/ utf8_valid (write (zeros n)) = false
    end.
Proof.
  intros Hn Hw. unfold try_build_inline. destruct (_ <? _) eqn:Hc; zb; [exists None; auto|].
  assert (slice (E := E) (zeros SMOL_STR_INLINE_CAP) 0 n = Ok (zeros n)) as ->.
  { apply slice_ok. split_and!; [lia|lia|done|]. rewrite drop_0. unfold zeros.
    rewrite take_replicate. f_equal. unfold SMOL_STR_INLINE_CAP in *. lia. }
  cbn [bind]. assert (blen (write (zeros n)) = n) as Hl
    by (unfold blen, zeros; rewrite Hw, length_replicate; lia).
  destruct (append_inline (zeros SMOL_STR_INLINE_CAP) [] (write (zeros n))) as (data & Hp & Hd & Ht);
    [done|done|simpl; unfold blen in *; simpl; lia|].
  change (blen []) with 0 in Hp. rewrite Hp. cbn [bind app] in *.
  assert (slice (E := E) data 0 n = Ok (write (zeros n))) as ->.
  { apply slice_ok. split_and!; [lia|lia|rewrite Hd; done|]. rewrite drop_0, <-Ht at 1. f_equal.
    unfold blen in Hl. lia. }
  cbn [bind]. unfold from_utf8. destruct (utf8_valid (write (zeros n))) eqn:Hv; [|exists None; auto].
  eexists. split; [done|].
  assert (n = str_len (str_of_bytes (write (zeros n)))) as Hn'
    by (unfold str_len; by rewrite as_bytes_of_str).
  cut (denotes (Inline (str_len (str_of_bytes (write (zeros n)))) data) (str_of_bytes (write (zeros n))));
    [by rewrite <-Hn'|]. apply inline_denotes.
  - unfold is_str. by rewrite as_bytes_of_str.
  - unfold str_len. rewrite as_bytes_of_str. lia.
  - done.
  - by rewrite as_bytes_of_str.
Qed.
End Facts.

(** ** Properties *)

(** What the interface promises of a value that stands for [s]. *)
Record stands_for {E : Type} (x : SmolStr) (s : string) : Prop := {
  sf_str : is_str s = true;
  sf_as_str : as_str (E := E) x = Ok s;
  sf_len : len x = str_len s;
  sf_inline : is_inline x = (str_len s <=? SMOL_STR_INLINE_CAP);
  sf_ascii : is_ascii (E := E) x = Ok (ascii_bytes (as_bytes s));
}.

Lemma denotes_stands_for {E} x s : denotes x s -> @stands_for E x s.
Proof.
  intros Hd. destruct x as [n data|arc].
  - pose proof (@denotes_slice E _ _ _ Hd) as Hs. destruct Hd as (H1 & H2 & H3 & H4 & H5).
    split; simpl; rewrite ?Hs; try done.
    + cbn [bind]. by rewrite str_of_as_bytes.
    + subst. symmetry. by apply Z.leb_le.
  - destruct Hd as (H1 & -> & H3). split; simpl; try done. symmetry. by apply Z.leb_gt.
Qed.

Lemma builds_denotes {E} x s : @builds E x s -> denotes x s.
Proof.
  revert x s. fix IH 3. intros x s [|s' x' Hs Hx|s' x' Hs Hx|x1 y1 s1 t1 z H1 H2 Hz|xs ss z Hall Hz|n write x' Hn Hw Hx].
  - by split_and!.
  - destruct (@from_borrowed_ok E s' Hs) as (y & Hy & Hd). congruence.
  - destruct (@from_string_ok E s' Hs) as (y & Hy & Hd). congruence.
  - destruct (IH _ _ H1) as [Hs1 _], (IH _ _ H2) as [Ht1 _].
    destruct (@concat_ok E s1 t1 Hs1 Ht1) as (y & Hy & Hd). congruence.
  - assert (Forall (fun s => is_str s = true) ss) as Hss.
    { clear Hz. induction Hall as [|a b xs' ss' Hab _ IHall]; constructor; [apply (IH _ _ Hab)|done]. }
    destruct (@concat_many_ok E ss Hss) as (y & Hy & Hd). congruence.
  - destruct (@try_build_inline_ok E n write Hn Hw) as (r & Hr & Hd). rewrite Hr in Hx.
    injection Hx as ->. done.
Qed.

(** C22 Every [SmolStr] a program can build satisfies the representation invariant
    that the unchecked UTF-8 conversion of [as_str] relies on, and stands for
    exactly the string it was built from: content, length, ASCII test and the
    inline/heap split at 22 bytes; equality and order against any other one are
    those of the two strings, whatever the representations. *)
Theorem smol_str_sound {E} x s :
  @builds E x s ->
  @stands_for E x s /\
  forall y t, @builds E y t ->
    smol_eq (E := E) x y = Ok (bool_decide (s = t)) /\ smol_cmp (E := E) x y = Ok (String.compare s t).
Proof.
  intros Hx. apply builds_denotes, (@denotes_stands_for E) in Hx. split; [done|]. intros y t Hy.
  apply builds_denotes, (@denotes_stands_for E) in Hy.
  unfold smol_eq, smol_cmp. by rewrite (sf_as_str _ _ Hx), (sf_as_str _ _ Hy).
Qed.

(** The constructors never panic: on valid strings [from_borrowed],
    [from_string], [concat] and [concat_many] build the string they name, and
    [try_build_inline] with a writer that fills its slice builds the written
    bytes, refusing only more than 22 bytes or invalid UTF-8. *)
Theorem smol_str_total {E} s t ss n write :
  is_str s = true -> is_str t = true -> Forall (fun s => is_str s = true) ss ->
  0 <= n -> (forall b, length (write b) = length b) ->
  (exists x, from_borrowed (E := E) s = Ok x /\ @stands_for E x s) /\
  (exists x, from_string (E := E) s = Ok x /\ @stands_for E x s) /\
  (exists x, concat (E := E) s t = Ok x /\ @stands_for E x (s +:+ t)) /\
  (exists x, concat_many (E := E) ss = Ok x /\
     @stands_for E x (foldl (fun buf s => buf +:+ s) EmptyString ss)) /\
  (exists r, try_build_inline (E := E) n write = Ok r /\
     match r with
     | Some x => @stands_for E x (str_of_bytes (write (zeros n)))
     | None => SMOL_STR_INLINE_CAP < n \/ utf8_valid (write (zeros n)) = false
     end).
Proof.
  intros Hs Ht Hss Hn Hw.
  destruct (@from_borrowed_ok E s Hs) as (x1 & E1 & ?), (@from_string_ok E s Hs) as (x2 & E2 & ?),
    (@concat_ok E s t Hs Ht) as (x3 & E3 & ?), (@concat_many_ok E ss Hss) as (x4 & E4 & ?),
    (@try_build_inline_ok E n write Hn Hw) as (r & E5 & ?).
  split_and!; eexists; (split; [eassumption|]); try (by apply denotes_stands_for).
  destruct r; [by apply denotes_stands_for|done].
Qed.

Lemma smol_str_sound_witness :
  @stands_for Empty_set (Inline 2 (as_bytes "hi" ++ zeros 20)) "hi" /\
  forall y t, @builds Empty_set y t ->
    smol_eq (E := Empty_set) (Inline 2 (as_bytes "hi" ++ zeros 20)) y = Ok (bool_decide ("hi" = t)) /\
    smol_cmp (E := Empty_set) (Inline 2 (as_bytes "hi" ++ zeros 20)) y = Ok (String.compare "hi" t).
Proof. apply smol_str_sound. apply bl_borrowed; reflexivity. Defined.

End Smol.
