(* ===== verification/UnicodeTables.v ===== *)
(** The constant tables of [crates/relon-unicode/src], entry for entry:
    [full_case_folding_data.rs], [combining_marks.rs], [whitespace.rs] and
    [normalization_data.rs].  A fold entry is [(input, out0, out1, out2, out_len)], a
    range is inclusive, an index entry is [(code point, offset, length)] into the pool
    of its table. *)

From Stdlib Require Import ZArith.
From stdpp Require Import base list.
Local Open Scope Z_scope.

Definition FULL_UPPER_FOLDING : list (Z * Z * Z * Z * Z) := [
  (223, 83, 83, 0, 2); (329, 700, 78, 0, 2); (496, 74, 780, 0, 2); (912, 921, 776, 769, 3);
  (944, 933, 776, 769, 3); (1415, 1333, 1362, 0, 2); (7830, 72, 817, 0, 2); (7831, 84, 776, 0, 2);
  (7832, 87, 778, 0, 2); (7833, 89, 778, 0, 2); (7834, 65, 702, 0, 2); (8016, 933, 787, 0, 2);
  (8018, 933, 787, 768, 3); (8020, 933, 787, 769, 3); (8022, 933, 787, 834, 3);
  (8064, 7944, 921, 0, 2); (8065, 7945, 921, 0, 2); (8066, 7946, 921, 0, 2);
  (8067, 7947, 921, 0, 2); (8068, 7948, 921, 0, 2); (8069, 7949, 921, 0, 2);
  (8070, 7950, 921, 0, 2); (8071, 7951, 921, 0, 2); (8072, 7944, 921, 0, 2);
  (8073, 7945, 921, 0, 2); (8074, 7946, 921, 0, 2); (8075, 7947, 921, 0, 2);
  (8076, 7948, 921, 0, 2); (8077, 7949, 921, 0, 2); (8078, 7950, 921, 0, 2);
  (8079, 7951, 921, 0, 2); (8080, 7976, 921, 0, 2); (8081, 7977, 921, 0, 2);
  (8082, 7978, 921, 0, 2); (8083, 7979, 921, 0, 2); (8084, 7980, 921, 0, 2);
  (8085, 7981, 921, 0, 2); (8086, 7982, 921, 0, 2); (8087, 7983, 921, 0, 2);
  (8088, 7976, 921, 0, 2); (8089, 7977, 921, 0, 2); (8090, 7978, 921, 0, 2);
  (8091, 7979, 921, 0, 2); (8092, 7980, 921, 0, 2); (8093, 7981, 921, 0, 2);
  (8094, 7982, 921, 0, 2); (8095, 7983, 921, 0, 2); (8096, 8040, 921, 0, 2);
  (8097, 8041, 921, 0, 2); (8098, 8042, 921, 0, 2); (8099, 8043, 921, 0, 2);
  (8100, 8044, 921, 0, 2); (8101, 8045, 921, 0, 2); (8102, 8046, 921, 0, 2);
  (8103, 8047, 921, 0, 2); (8104, 8040, 921, 0, 2); (8105, 8041, 921, 0, 2);
  (8106, 8042, 921, 0, 2); (8107, 8043, 921, 0, 2); (8108, 8044, 921, 0, 2);
  (8109, 8045, 921, 0, 2); (8110, 8046, 921, 0, 2); (8111, 8047, 921, 0, 2);
  (8114, 8122, 921, 0, 2); (8115, 913, 921, 0, 2); (8116, 902, 921, 0, 2); (8118, 913, 834, 0, 2);
  (8119, 913, 834, 921, 3); (8124, 913, 921, 0, 2); (8130, 8138, 921, 0, 2);
  (8131, 919, 921, 0, 2); (8132, 905, 921, 0, 2); (8134, 919, 834, 0, 2); (8135, 919, 834, 921, 3);
  (8140, 919, 921, 0, 2); (8146, 921, 776, 768, 3); (8147, 921, 776, 769, 3);
  (8150, 921, 834, 0, 2); (8151, 921, 776, 834, 3); (8162, 933, 776, 768, 3);
  (8163, 933, 776, 769, 3); (8164, 929, 787, 0, 2); (8166, 933, 834, 0, 2);
  (8167, 933, 776, 834, 3); (8178, 8186, 921, 0, 2); (8179, 937, 921, 0, 2);
  (8180, 911, 921, 0, 2); (8182, 937, 834, 0, 2); (8183, 937, 834, 921, 3); (8188, 937, 921, 0, 2);
  (64256, 70, 70, 0, 2); (64257, 70, 73, 0, 2); (64258, 70, 76, 0, 2); (64259, 70, 70, 73, 3);
  (64260, 70, 70, 76, 3); (64261, 83, 84, 0, 2); (64262, 83, 84, 0, 2); (64275, 1348, 1350, 0, 2);
  (64276, 1348, 1333, 0, 2); (64277, 1348, 1339, 0, 2); (64278, 1358, 1350, 0, 2);
  (64279, 1348, 1341, 0, 2)
].

Definition FULL_LOWER_FOLDING : list (Z * Z * Z * Z * Z) := [
  (304, 105, 775, 0, 2)
].

Definition CASED_RANGES : list (Z * Z) := [
  (65, 90); (97, 122); (170, 170); (181, 181); (186, 186); (192, 214); (216, 246); (248, 442);
  (444, 447); (452, 659); (661, 696); (704, 705); (736, 740); (837, 837); (880, 883); (886, 887);
  (890, 893); (895, 895); (902, 902); (904, 906); (908, 908); (910, 929); (931, 1013);
  (1015, 1153); (1162, 1327); (1329, 1366); (1376, 1416); (4256, 4293); (4295, 4295); (4301, 4301);
  (4304, 4346); (4349, 4351); (5024, 5109); (5112, 5117); (7296, 7304); (7312, 7354); (7357, 7359);
  (7424, 7615); (7680, 7957); (7960, 7965); (7968, 8005); (8008, 8013); (8016, 8023); (8025, 8025);
  (8027, 8027); (8029, 8029); (8031, 8061); (8064, 8116); (8118, 8124); (8126, 8126); (8130, 8132);
  (8134, 8140); (8144, 8147); (8150, 8155); (8160, 8172); (8178, 8180); (8182, 8188); (8305, 8305);
  (8319, 8319); (8336, 8348); (8450, 8450); (8455, 8455); (8458, 8467); (8469, 8469); (8473, 8477);
  (8484, 8484); (8486, 8486); (8488, 8488); (8490, 8493); (8495, 8500); (8505, 8505); (8508, 8511);
  (8517, 8521); (8526, 8526); (8544, 8575); (8579, 8580); (9398, 9449); (11264, 11492);
  (11499, 11502); (11506, 11507); (11520, 11557); (11559, 11559); (11565, 11565); (42560, 42605);
  (42624, 42653); (42786, 42887); (42891, 42894); (42896, 42954); (42960, 42961); (42963, 42963);
  (42965, 42969); (42997, 42998); (43000, 43002); (43824, 43866); (43868, 43880); (43888, 43967);
  (64256, 64262); (64275, 64279); (65313, 65338); (65345, 65370); (66560, 66639); (66736, 66771);
  (66776, 66811); (66928, 66938); (66940, 66954); (66956, 66962); (66964, 66965); (66967, 66977);
  (66979, 66993); (66995, 67001); (67003, 67004); (67456, 67456); (67459, 67461); (67463, 67504);
  (67506, 67514); (68736, 68786); (68800, 68850); (71840, 71903); (93760, 93823); (119808, 119892);
  (119894, 119964); (119966, 119967); (119970, 119970); (119973, 119974); (119977, 119980);
  (119982, 119993); (119995, 119995); (119997, 120003); (120005, 120069); (120071, 120074);
  (120077, 120084); (120086, 120092); (120094, 120121); (120123, 120126); (120128, 120132);
  (120134, 120134); (120138, 120144); (120146, 120485); (120488, 120512); (120514, 120538);
  (120540, 120570); (120572, 120596); (120598, 120628); (120630, 120654); (120656, 120686);
  (120688, 120712); (120714, 120744); (120746, 120770); (120772, 120779); (122624, 122633);
  (122635, 122654); (125184, 125251); (127280, 127305); (127312, 127337); (127344, 127369)
].

Definition CASE_IGNORABLE_RANGES : list (Z * Z) := [
  (39, 39); (46, 46); (58, 58); (94, 94); (96, 96); (168, 168); (173, 173); (175, 175); (180, 180);
  (183, 184); (688, 879); (884, 885); (890, 890); (900, 901); (903, 903); (1155, 1161);
  (1369, 1369); (1375, 1375); (1425, 1469); (1471, 1471); (1473, 1474); (1476, 1477); (1479, 1479);
  (1524, 1524); (1536, 1541); (1552, 1562); (1564, 1564); (1600, 1600); (1611, 1631); (1648, 1648);
  (1750, 1757); (1759, 1768); (1770, 1773); (1807, 1807); (1809, 1809); (1840, 1866); (1958, 1968);
  (2027, 2037); (2042, 2042); (2045, 2045); (2070, 2093); (2137, 2139); (2184, 2184); (2192, 2193);
  (2200, 2207); (2249, 2306); (2362, 2362); (2364, 2364); (2369, 2376); (2381, 2381); (2385, 2391);
  (2402, 2403); (2417, 2417); (2433, 2433); (2492, 2492); (2497, 2500); (2509, 2509); (2530, 2531);
  (2558, 2558); (2561, 2562); (2620, 2620); (2625, 2626); (2631, 2632); (2635, 2637); (2641, 2641);
  (2672, 2673); (2677, 2677); (2689, 2690); (2748, 2748); (2753, 2757); (2759, 2760); (2765, 2765);
  (2786, 2787); (2810, 2815); (2817, 2817); (2876, 2876); (2879, 2879); (2881, 2884); (2893, 2893);
  (2901, 2902); (2914, 2915); (2946, 2946); (3008, 3008); (3021, 3021); (3072, 3072); (3076, 3076);
  (3132, 3132); (3134, 3136); (3142, 3144); (3146, 3149); (3157, 3158); (3170, 3171); (3201, 3201);
  (3260, 3260); (3263, 3263); (3270, 3270); (3276, 3277); (3298, 3299); (3328, 3329); (3387, 3388);
  (3393, 3396); (3405, 3405); (3426, 3427); (3457, 3457); (3530, 3530); (3538, 3540); (3542, 3542);
  (3633, 3633); (3636, 3642); (3654, 3662); (3761, 3761); (3764, 3772); (3782, 3782); (3784, 3789);
  (3864, 3865); (3893, 3893); (3895, 3895); (3897, 3897); (3953, 3966); (3968, 3972); (3974, 3975);
  (3981, 3991); (3993, 4028); (4038, 4038); (4141, 4144); (4146, 4151); (4153, 4154); (4157, 4158);
  (4184, 4185); (4190, 4192); (4209, 4212); (4226, 4226); (4229, 4230); (4237, 4237); (4253, 4253);
  (4348, 4348); (4957, 4959); (5906, 5908); (5938, 5939); (5970, 5971); (6002, 6003); (6068, 6069);
  (6071, 6077); (6086, 6086); (6089, 6099); (6103, 6103); (6109, 6109); (6155, 6159); (6211, 6211);
  (6277, 6278); (6313, 6313); (6432, 6434); (6439, 6440); (6450, 6450); (6457, 6459); (6679, 6680);
  (6683, 6683); (6742, 6742); (6744, 6750); (6752, 6752); (6754, 6754); (6757, 6764); (6771, 6780);
  (6783, 6783); (6823, 6823); (6832, 6862); (6912, 6915); (6964, 6964); (6966, 6970); (6972, 6972);
  (6978, 6978); (7019, 7027); (7040, 7041); (7074, 7077); (7080, 7081); (7083, 7085); (7142, 7142);
  (7144, 7145); (7149, 7149); (7151, 7153); (7212, 7219); (7222, 7223); (7288, 7293); (7376, 7378);
  (7380, 7392); (7394, 7400); (7405, 7405); (7412, 7412); (7416, 7417); (7468, 7530); (7544, 7544);
  (7579, 7679); (8125, 8125); (8127, 8129); (8141, 8143); (8157, 8159); (8173, 8175); (8189, 8190);
  (8203, 8207); (8216, 8217); (8228, 8228); (8231, 8231); (8234, 8238); (8288, 8292); (8294, 8303);
  (8305, 8305); (8319, 8319); (8336, 8348); (8400, 8432); (11388, 11389); (11503, 11505);
  (11631, 11631); (11647, 11647); (11744, 11775); (11823, 11823); (12293, 12293); (12330, 12333);
  (12337, 12341); (12347, 12347); (12441, 12446); (12540, 12542); (40981, 40981); (42232, 42237);
  (42508, 42508); (42607, 42610); (42612, 42621); (42623, 42623); (42652, 42655); (42736, 42737);
  (42752, 42785); (42864, 42864); (42888, 42890); (42994, 42996); (43000, 43001); (43010, 43010);
  (43014, 43014); (43019, 43019); (43045, 43046); (43052, 43052); (43204, 43205); (43232, 43249);
  (43263, 43263); (43302, 43309); (43335, 43345); (43392, 43394); (43443, 43443); (43446, 43449);
  (43452, 43453); (43471, 43471); (43493, 43494); (43561, 43566); (43569, 43570); (43573, 43574);
  (43587, 43587); (43596, 43596); (43632, 43632); (43644, 43644); (43696, 43696); (43698, 43700);
  (43703, 43704); (43710, 43711); (43713, 43713); (43741, 43741); (43756, 43757); (43763, 43764);
  (43766, 43766); (43867, 43871); (43881, 43883); (44005, 44005); (44008, 44008); (44013, 44013);
  (64286, 64286); (64434, 64450); (65024, 65039); (65043, 65043); (65056, 65071); (65106, 65106);
  (65109, 65109); (65279, 65279); (65287, 65287); (65294, 65294); (65306, 65306); (65342, 65342);
  (65344, 65344); (65392, 65392); (65438, 65439); (65507, 65507); (65529, 65531); (66045, 66045);
  (66272, 66272); (66422, 66426); (67456, 67461); (67463, 67504); (67506, 67514); (68097, 68099);
  (68101, 68102); (68108, 68111); (68152, 68154); (68159, 68159); (68325, 68326); (68900, 68903);
  (69291, 69292); (69446, 69456); (69506, 69509); (69633, 69633); (69688, 69702); (69744, 69744);
  (69747, 69748); (69759, 69761); (69811, 69814); (69817, 69818); (69821, 69821); (69826, 69826);
  (69837, 69837); (69888, 69890); (69927, 69931); (69933, 69940); (70003, 70003); (70016, 70017);
  (70070, 70078); (70089, 70092); (70095, 70095); (70191, 70193); (70196, 70196); (70198, 70199);
  (70206, 70206); (70367, 70367); (70371, 70378); (70400, 70401); (70459, 70460); (70464, 70464);
  (70502, 70508); (70512, 70516); (70712, 70719); (70722, 70724); (70726, 70726); (70750, 70750);
  (70835, 70840); (70842, 70842); (70847, 70848); (70850, 70851); (71090, 71093); (71100, 71101);
  (71103, 71104); (71132, 71133); (71219, 71226); (71229, 71229); (71231, 71232); (71339, 71339);
  (71341, 71341); (71344, 71349); (71351, 71351); (71453, 71455); (71458, 71461); (71463, 71467);
  (71727, 71735); (71737, 71738); (71995, 71996); (71998, 71998); (72003, 72003); (72148, 72151);
  (72154, 72155); (72160, 72160); (72193, 72202); (72243, 72248); (72251, 72254); (72263, 72263);
  (72273, 72278); (72281, 72283); (72330, 72342); (72344, 72345); (72752, 72758); (72760, 72765);
  (72767, 72767); (72850, 72871); (72874, 72880); (72882, 72883); (72885, 72886); (73009, 73014);
  (73018, 73018); (73020, 73021); (73023, 73029); (73031, 73031); (73104, 73105); (73109, 73109);
  (73111, 73111); (73459, 73460); (78896, 78904); (92912, 92916); (92976, 92982); (92992, 92995);
  (94031, 94031); (94095, 94111); (94176, 94177); (94179, 94180); (110576, 110579);
  (110581, 110587); (110589, 110590); (113821, 113822); (113824, 113827); (118528, 118573);
  (118576, 118598); (119143, 119145); (119155, 119170); (119173, 119179); (119210, 119213);
  (119362, 119364); (121344, 121398); (121403, 121452); (121461, 121461); (121476, 121476);
  (121499, 121503); (121505, 121519); (122880, 122886); (122888, 122904); (122907, 122913);
  (122915, 122916); (122918, 122922); (123184, 123197); (123566, 123566); (123628, 123631);
  (125136, 125142); (125252, 125259); (127995, 127999); (917505, 917505); (917536, 917631);
  (917760, 917999)
].

Definition TURKISH_LOWER_FOLDING : list (Z * Z * Z * Z * Z) := [
  (73, 305, 0, 0, 1); (304, 105, 0, 0, 1)
].

Definition TURKISH_UPPER_FOLDING : list (Z * Z * Z * Z * Z) := [
  (105, 304, 0, 0, 1); (305, 73, 0, 0, 1)
].

Definition COMBINING_MARK_RANGES : list (Z * Z) := [
  (768, 879); (1155, 1161); (1425, 1469); (1471, 1471); (1473, 1474); (1476, 1477); (1479, 1479);
  (1552, 1562); (1611, 1631); (1648, 1648); (1750, 1756); (1759, 1764); (1767, 1768); (1770, 1773);
  (1809, 1809); (1840, 1866); (1958, 1968); (2027, 2035); (2045, 2045); (2070, 2073); (2075, 2083);
  (2085, 2087); (2089, 2093); (2137, 2139); (2259, 2273); (2275, 2306); (2307, 2307); (2362, 2362);
  (2363, 2363); (2364, 2364); (2366, 2383); (2385, 2391); (2402, 2403); (2433, 2435); (2492, 2492);
  (2494, 2500); (2503, 2504); (2507, 2509); (2519, 2519); (2530, 2531); (2558, 2558); (2561, 2563);
  (2620, 2620); (2622, 2626); (2631, 2632); (2635, 2637); (2641, 2641); (2672, 2673); (2677, 2677);
  (2689, 2691); (2748, 2748); (2750, 2757); (2759, 2761); (2763, 2765); (2786, 2787); (2810, 2815);
  (2817, 2819); (2876, 2876); (2878, 2884); (2887, 2888); (2891, 2893); (2901, 2903); (2914, 2915);
  (2946, 2946); (3006, 3010); (3014, 3016); (3018, 3021); (3031, 3031); (3072, 3076); (3132, 3132);
  (3134, 3140); (3142, 3144); (3146, 3149); (3157, 3158); (3170, 3171); (3201, 3203); (3260, 3260);
  (3262, 3268); (3270, 3272); (3274, 3277); (3285, 3286); (3298, 3299); (3328, 3331); (3387, 3388);
  (3390, 3396); (3398, 3400); (3402, 3405); (3415, 3415); (3426, 3427); (3457, 3459); (3530, 3530);
  (3535, 3540); (3542, 3542); (3544, 3551); (3570, 3571); (3633, 3633); (3636, 3642); (3655, 3662);
  (3761, 3761); (3764, 3772); (3784, 3789); (3864, 3865); (3893, 3893); (3895, 3895); (3897, 3897);
  (3902, 3903); (3953, 3972); (3974, 3975); (3981, 3991); (3993, 4028); (4038, 4038); (4139, 4158);
  (4182, 4185); (4190, 4192); (4194, 4196); (4199, 4205); (4209, 4212); (4226, 4237); (4239, 4239);
  (4250, 4253); (4957, 4959); (5906, 5909); (5938, 5940); (5970, 5971); (6002, 6003); (6068, 6099);
  (6109, 6109); (6155, 6157); (6277, 6278); (6313, 6313); (6432, 6443); (6448, 6459); (6679, 6683);
  (6741, 6750); (6752, 6780); (6783, 6783); (6832, 6862); (6912, 6916); (6964, 6980); (7019, 7027);
  (7040, 7042); (7073, 7085); (7142, 7155); (7204, 7223); (7376, 7378); (7380, 7400); (7405, 7405);
  (7412, 7412); (7415, 7417); (7616, 7679); (8400, 8432); (11503, 11505); (11647, 11647);
  (11744, 11775); (12330, 12335); (12441, 12442); (42607, 42610); (42612, 42621); (42654, 42655);
  (42736, 42737); (43010, 43010); (43014, 43014); (43019, 43019); (43043, 43047); (43052, 43052);
  (43136, 43137); (43188, 43205); (43232, 43249); (43263, 43263); (43302, 43309); (43335, 43347);
  (43392, 43395); (43443, 43456); (43493, 43493); (43561, 43574); (43587, 43587); (43596, 43597);
  (43643, 43645); (43696, 43696); (43698, 43700); (43703, 43704); (43710, 43711); (43713, 43713);
  (43755, 43759); (43765, 43766); (44003, 44010); (44012, 44013); (64286, 64286); (65024, 65039);
  (65056, 65071); (66045, 66045); (66272, 66272); (66422, 66426); (68097, 68099); (68101, 68102);
  (68108, 68111); (68152, 68154); (68159, 68159); (68325, 68326); (68900, 68903); (69291, 69292);
  (69446, 69456); (69506, 69509); (69632, 69634); (69688, 69702); (69744, 69744); (69747, 69748);
  (69759, 69762); (69808, 69818); (69826, 69826); (69888, 69890); (69927, 69940); (69957, 69958);
  (70003, 70003); (70016, 70018); (70067, 70080); (70089, 70092); (70094, 70095); (70188, 70199);
  (70206, 70206); (70367, 70378); (70400, 70403); (70459, 70460); (70462, 70468); (70471, 70472);
  (70475, 70477); (70487, 70487); (70498, 70499); (70502, 70508); (70512, 70516); (70709, 70726);
  (70750, 70750); (70832, 70851); (71087, 71093); (71096, 71104); (71132, 71133); (71216, 71232);
  (71339, 71351); (71453, 71467); (71724, 71738); (71984, 71989); (71991, 71992); (71995, 71998);
  (72000, 72000); (72002, 72003); (72145, 72151); (72154, 72160); (72164, 72164); (72193, 72202);
  (72243, 72249); (72251, 72254); (72263, 72263); (72273, 72283); (72330, 72345); (72751, 72758);
  (72760, 72767); (72850, 72871); (72873, 72886); (73009, 73014); (73018, 73018); (73020, 73021);
  (73023, 73029); (73031, 73031); (73098, 73102); (73104, 73105); (73107, 73111); (73459, 73462);
  (92912, 92916); (92976, 92982); (94031, 94031); (94033, 94087); (94095, 94098); (94180, 94180);
  (94192, 94193); (113821, 113822); (118528, 118573); (118576, 118598); (119141, 119145);
  (119149, 119154); (119163, 119170); (119173, 119179); (119210, 119213); (119362, 119364);
  (121344, 121398); (121403, 121452); (121461, 121461); (121476, 121476); (121499, 121503);
  (121505, 121519); (122880, 122886); (122888, 122904); (122907, 122913); (122915, 122916);
  (122918, 122922); (123184, 123190); (123566, 123566); (123628, 123631); (125136, 125142);
  (125252, 125258); (917760, 917999)
].

Definition NON_ASCII_WHITESPACE_RANGES : list (Z * Z) := [
  (133, 133); (160, 160); (5760, 5760); (8192, 8202); (8232, 8232); (8233, 8233); (8239, 8239);
  (8287, 8287); (12288, 12288)
].

Definition NFD_INDEX : list (Z * Z * Z) := [
  (192, 0, 2); (193, 2, 2); (194, 4, 2); (195, 6, 2); (196, 8, 2); (197, 10, 2); (199, 12, 2);
  (200, 14, 2); (201, 16, 2); (202, 18, 2); (203, 20, 2); (204, 22, 2); (205, 24, 2); (206, 26, 2);
  (207, 28, 2); (209, 30, 2); (210, 32, 2); (211, 34, 2); (212, 36, 2); (213, 38, 2); (214, 40, 2);
  (217, 42, 2); (218, 44, 2); (219, 46, 2); (220, 48, 2); (221, 50, 2); (224, 52, 2); (225, 54, 2);
  (226, 56, 2); (227, 58, 2); (228, 60, 2); (229, 62, 2); (231, 64, 2); (232, 66, 2); (233, 68, 2);
  (234, 70, 2); (235, 72, 2); (236, 74, 2); (237, 76, 2); (238, 78, 2); (239, 80, 2); (241, 82, 2);
  (242, 84, 2); (243, 86, 2); (244, 88, 2); (245, 90, 2); (246, 92, 2); (249, 94, 2); (250, 96, 2);
  (251, 98, 2); (252, 100, 2); (253, 102, 2); (255, 104, 2); (256, 106, 2); (257, 108, 2);
  (258, 110, 2); (259, 112, 2); (260, 114, 2); (261, 116, 2); (262, 118, 2); (263, 120, 2);
  (264, 122, 2); (265, 124, 2); (266, 126, 2); (267, 128, 2); (268, 130, 2); (269, 132, 2);
  (270, 134, 2); (271, 136, 2); (274, 138, 2); (275, 140, 2); (276, 142, 2); (277, 144, 2);
  (278, 146, 2); (279, 148, 2); (280, 150, 2); (281, 152, 2); (282, 154, 2); (283, 156, 2);
  (284, 158, 2); (285, 160, 2); (286, 162, 2); (287, 164, 2); (288, 166, 2); (289, 168, 2);
  (290, 170, 2); (291, 172, 2); (292, 174, 2); (293, 176, 2); (296, 178, 2); (297, 180, 2);
  (298, 182, 2); (299, 184, 2); (300, 186, 2); (301, 188, 2); (302, 190, 2); (303, 192, 2);
  (304, 194, 2); (308, 196, 2); (309, 198, 2); (310, 200, 2); (311, 202, 2); (313, 204, 2);
  (314, 206, 2); (315, 208, 2); (316, 210, 2); (317, 212, 2); (318, 214, 2); (323, 216, 2);
  (324, 218, 2); (325, 220, 2); (326, 222, 2); (327, 224, 2); (328, 226, 2); (332, 228, 2);
  (333, 230, 2); (334, 232, 2); (335, 234, 2); (336, 236, 2); (337, 238, 2); (340, 240, 2);
  (341, 242, 2); (342, 244, 2); (343, 246, 2); (344, 248, 2); (345, 250, 2); (346, 252, 2);
  (347, 254, 2); (348, 256, 2); (349, 258, 2); (350, 260, 2); (351, 262, 2); (352, 264, 2);
  (353, 266, 2); (354, 268, 2); (355, 270, 2); (356, 272, 2); (357, 274, 2); (360, 276, 2);
  (361, 278, 2); (362, 280, 2); (363, 282, 2); (364, 284, 2); (365, 286, 2); (366, 288, 2);
  (367, 290, 2); (368, 292, 2); (369, 294, 2); (370, 296, 2); (371, 298, 2); (372, 300, 2);
  (373, 302, 2); (374, 304, 2); (375, 306, 2); (376, 308, 2); (377, 310, 2); (378, 312, 2);
  (379, 314, 2); (380, 316, 2); (381, 318, 2); (382, 320, 2); (416, 322, 2); (417, 324, 2);
  (431, 326, 2); (432, 328, 2); (461, 330, 2); (462, 332, 2); (463, 334, 2); (464, 336, 2);
  (465, 338, 2); (466, 340, 2); (467, 342, 2); (468, 344, 2); (469, 346, 3); (470, 349, 3);
  (471, 352, 3); (472, 355, 3); (473, 358, 3); (474, 361, 3); (475, 364, 3); (476, 367, 3);
  (478, 370, 3); (479, 373, 3); (480, 376, 3); (481, 379, 3); (482, 382, 2); (483, 384, 2);
  (486, 386, 2); (487, 388, 2); (488, 390, 2); (489, 392, 2); (490, 394, 2); (491, 396, 2);
  (492, 398, 3); (493, 401, 3); (494, 404, 2); (495, 406, 2); (496, 408, 2); (500, 410, 2);
  (501, 412, 2); (504, 414, 2); (505, 416, 2); (506, 418, 3); (507, 421, 3); (508, 424, 2);
  (509, 426, 2); (510, 428, 2); (511, 430, 2); (512, 432, 2); (513, 434, 2); (514, 436, 2);
  (515, 438, 2); (516, 440, 2); (517, 442, 2); (518, 444, 2); (519, 446, 2); (520, 448, 2);
  (521, 450, 2); (522, 452, 2); (523, 454, 2); (524, 456, 2); (525, 458, 2); (526, 460, 2);
  (527, 462, 2); (528, 464, 2); (529, 466, 2); (530, 468, 2); (531, 470, 2); (532, 472, 2);
  (533, 474, 2); (534, 476, 2); (535, 478, 2); (536, 480, 2); (537, 482, 2); (538, 484, 2);
  (539, 486, 2); (542, 488, 2); (543, 490, 2); (550, 492, 2); (551, 494, 2); (552, 496, 2);
  (553, 498, 2); (554, 500, 3); (555, 503, 3); (556, 506, 3); (557, 509, 3); (558, 512, 2);
  (559, 514, 2); (560, 516, 3); (561, 519, 3); (562, 522, 2); (563, 524, 2); (832, 526, 1);
  (833, 527, 1); (835, 528, 1); (836, 529, 2); (884, 531, 1); (894, 532, 1); (901, 533, 2);
  (902, 535, 2); (903, 537, 1); (904, 538, 2); (905, 540, 2); (906, 542, 2); (908, 544, 2);
  (910, 546, 2); (911, 548, 2); (912, 550, 3); (938, 553, 2); (939, 555, 2); (940, 557, 2);
  (941, 559, 2); (942, 561, 2); (943, 563, 2); (944, 565, 3); (970, 568, 2); (971, 570, 2);
  (972, 572, 2); (973, 574, 2); (974, 576, 2); (979, 578, 2); (980, 580, 2); (1024, 582, 2);
  (1025, 584, 2); (1027, 586, 2); (1031, 588, 2); (1036, 590, 2); (1037, 592, 2); (1038, 594, 2);
  (1049, 596, 2); (1081, 598, 2); (1104, 600, 2); (1105, 602, 2); (1107, 604, 2); (1111, 606, 2);
  (1116, 608, 2); (1117, 610, 2); (1118, 612, 2); (1142, 614, 2); (1143, 616, 2); (1217, 618, 2);
  (1218, 620, 2); (1232, 622, 2); (1233, 624, 2); (1234, 626, 2); (1235, 628, 2); (1238, 630, 2);
  (1239, 632, 2); (1242, 634, 2); (1243, 636, 2); (1244, 638, 2); (1245, 640, 2); (1246, 642, 2);
  (1247, 644, 2); (1250, 646, 2); (1251, 648, 2); (1252, 650, 2); (1253, 652, 2); (1254, 654, 2);
  (1255, 656, 2); (1258, 658, 2); (1259, 660, 2); (1260, 662, 2); (1261, 664, 2); (1262, 666, 2);
  (1263, 668, 2); (1264, 670, 2); (1265, 672, 2); (1266, 674, 2); (1267, 676, 2); (1268, 678, 2);
  (1269, 680, 2); (1272, 682, 2); (1273, 684, 2); (1570, 686, 2); (1571, 688, 2); (1572, 690, 2);
  (1573, 692, 2); (1574, 694, 2); (1728, 696, 2); (1730, 698, 2); (1747, 700, 2); (2345, 702, 2);
  (2353, 704, 2); (2356, 706, 2); (2392, 708, 2); (2393, 710, 2); (2394, 712, 2); (2395, 714, 2);
  (2396, 716, 2); (2397, 718, 2); (2398, 720, 2); (2399, 722, 2); (2507, 724, 2); (2508, 726, 2);
  (2524, 728, 2); (2525, 730, 2); (2527, 732, 2); (2611, 734, 2); (2614, 736, 2); (2649, 738, 2);
  (2650, 740, 2); (2651, 742, 2); (2654, 744, 2); (2888, 746, 2); (2891, 748, 2); (2892, 750, 2);
  (2908, 752, 2); (2909, 754, 2); (2964, 756, 2); (3018, 758, 2); (3019, 760, 2); (3020, 762, 2);
  (3144, 764, 2); (3264, 766, 2); (3271, 768, 2); (3272, 770, 2); (3274, 772, 2); (3275, 774, 3);
  (3402, 777, 2); (3403, 779, 2); (3404, 781, 2); (3546, 783, 2); (3548, 785, 2); (3549, 787, 3);
  (3550, 790, 2); (3907, 792, 2); (3917, 794, 2); (3922, 796, 2); (3927, 798, 2); (3932, 800, 2);
  (3945, 802, 2); (3955, 804, 2); (3957, 806, 2); (3958, 808, 2); (3960, 810, 2); (3969, 812, 2);
  (3987, 814, 2); (3997, 816, 2); (4002, 818, 2); (4007, 820, 2); (4012, 822, 2); (4025, 824, 2);
  (4134, 826, 2); (6918, 828, 2); (6920, 830, 2); (6922, 832, 2); (6924, 834, 2); (6926, 836, 2);
  (6930, 838, 2); (6971, 840, 2); (6973, 842, 2); (6976, 844, 2); (6977, 846, 2); (6979, 848, 2);
  (7680, 850, 2); (7681, 852, 2); (7682, 854, 2); (7683, 856, 2); (7684, 858, 2); (7685, 860, 2);
  (7686, 862, 2); (7687, 864, 2); (7688, 866, 3); (7689, 869, 3); (7690, 872, 2); (7691, 874, 2);
  (7692, 876, 2); (7693, 878, 2); (7694, 880, 2); (7695, 882, 2); (7696, 884, 2); (7697, 886, 2);
  (7698, 888, 2); (7699, 890, 2); (7700, 892, 3); (7701, 895, 3); (7702, 898, 3); (7703, 901, 3);
  (7704, 904, 2); (7705, 906, 2); (7706, 908, 2); (7707, 910, 2); (7708, 912, 3); (7709, 915, 3);
  (7710, 918, 2); (7711, 920, 2); (7712, 922, 2); (7713, 924, 2); (7714, 926, 2); (7715, 928, 2);
  (7716, 930, 2); (7717, 932, 2); (7718, 934, 2); (7719, 936, 2); (7720, 938, 2); (7721, 940, 2);
  (7722, 942, 2); (7723, 944, 2); (7724, 946, 2); (7725, 948, 2); (7726, 950, 3); (7727, 953, 3);
  (7728, 956, 2); (7729, 958, 2); (7730, 960, 2); (7731, 962, 2); (7732, 964, 2); (7733, 966, 2);
  (7734, 968, 2); (7735, 970, 2); (7736, 972, 3); (7737, 975, 3); (7738, 978, 2); (7739, 980, 2);
  (7740, 982, 2); (7741, 984, 2); (7742, 986, 2); (7743, 988, 2); (7744, 990, 2); (7745, 992, 2);
  (7746, 994, 2); (7747, 996, 2); (7748, 998, 2); (7749, 1000, 2); (7750, 1002, 2);
  (7751, 1004, 2); (7752, 1006, 2); (7753, 1008, 2); (7754, 1010, 2); (7755, 1012, 2);
  (7756, 1014, 3); (7757, 1017, 3); (7758, 1020, 3); (7759, 1023, 3); (7760, 1026, 3);
  (7761, 1029, 3); (7762, 1032, 3); (7763, 1035, 3); (7764, 1038, 2); (7765, 1040, 2);
  (7766, 1042, 2); (7767, 1044, 2); (7768, 1046, 2); (7769, 1048, 2); (7770, 1050, 2);
  (7771, 1052, 2); (7772, 1054, 3); (7773, 1057, 3); (7774, 1060, 2); (7775, 1062, 2);
  (7776, 1064, 2); (7777, 1066, 2); (7778, 1068, 2); (7779, 1070, 2); (7780, 1072, 3);
  (7781, 1075, 3); (7782, 1078, 3); (7783, 1081, 3); (7784, 1084, 3); (7785, 1087, 3);
  (7786, 1090, 2); (7787, 1092, 2); (7788, 1094, 2); (7789, 1096, 2); (7790, 1098, 2);
  (7791, 1100, 2); (7792, 1102, 2); (7793, 1104, 2); (7794, 1106, 2); (7795, 1108, 2);
  (7796, 1110, 2); (7797, 1112, 2); (7798, 1114, 2); (7799, 1116, 2); (7800, 1118, 3);
  (7801, 1121, 3); (7802, 1124, 3); (7803, 1127, 3); (7804, 1130, 2); (7805, 1132, 2);
  (7806, 1134, 2); (7807, 1136, 2); (7808, 1138, 2); (7809, 1140, 2); (7810, 1142, 2);
  (7811, 1144, 2); (7812, 1146, 2); (7813, 1148, 2); (7814, 1150, 2); (7815, 1152, 2);
  (7816, 1154, 2); (7817, 1156, 2); (7818, 1158, 2); (7819, 1160, 2); (7820, 1162, 2);
  (7821, 1164, 2); (7822, 1166, 2); (7823, 1168, 2); (7824, 1170, 2); (7825, 1172, 2);
  (7826, 1174, 2); (7827, 1176, 2); (7828, 1178, 2); (7829, 1180, 2); (7830, 1182, 2);
  (7831, 1184, 2); (7832, 1186, 2); (7833, 1188, 2); (7835, 1190, 2); (7840, 1192, 2);
  (7841, 1194, 2); (7842, 1196, 2); (7843, 1198, 2); (7844, 1200, 3); (7845, 1203, 3);
  (7846, 1206, 3); (7847, 1209, 3); (7848, 1212, 3); (7849, 1215, 3); (7850, 1218, 3);
  (7851, 1221, 3); (7852, 1224, 3); (7853, 1227, 3); (7854, 1230, 3); (7855, 1233, 3);
  (7856, 1236, 3); (7857, 1239, 3); (7858, 1242, 3); (7859, 1245, 3); (7860, 1248, 3);
  (7861, 1251, 3); (7862, 1254, 3); (7863, 1257, 3); (7864, 1260, 2); (7865, 1262, 2);
  (7866, 1264, 2); (7867, 1266, 2); (7868, 1268, 2); (7869, 1270, 2); (7870, 1272, 3);
  (7871, 1275, 3); (7872, 1278, 3); (7873, 1281, 3); (7874, 1284, 3); (7875, 1287, 3);
  (7876, 1290, 3); (7877, 1293, 3); (7878, 1296, 3); (7879, 1299, 3); (7880, 1302, 2);
  (7881, 1304, 2); (7882, 1306, 2); (7883, 1308, 2); (7884, 1310, 2); (7885, 1312, 2);
  (7886, 1314, 2); (7887, 1316, 2); (7888, 1318, 3); (7889, 1321, 3); (7890, 1324, 3);
  (7891, 1327, 3); (7892, 1330, 3); (7893, 1333, 3); (7894, 1336, 3); (7895, 1339, 3);
  (7896, 1342, 3); (7897, 1345, 3); (7898, 1348, 3); (7899, 1351, 3); (7900, 1354, 3);
  (7901, 1357, 3); (7902, 1360, 3); (7903, 1363, 3); (7904, 1366, 3); (7905, 1369, 3);
  (7906, 1372, 3); (7907, 1375, 3); (7908, 1378, 2); (7909, 1380, 2); (7910, 1382, 2);
  (7911, 1384, 2); (7912, 1386, 3); (7913, 1389, 3); (7914, 1392, 3); (7915, 1395, 3);
  (7916, 1398, 3); (7917, 1401, 3); (7918, 1404, 3); (7919, 1407, 3); (7920, 1410, 3);
  (7921, 1413, 3); (7922, 1416, 2); (7923, 1418, 2); (7924, 1420, 2); (7925, 1422, 2);
  (7926, 1424, 2); (7927, 1426, 2); (7928, 1428, 2); (7929, 1430, 2); (7936, 1432, 2);
  (7937, 1434, 2); (7938, 1436, 3); (7939, 1439, 3); (7940, 1442, 3); (7941, 1445, 3);
  (7942, 1448, 3); (7943, 1451, 3); (7944, 1454, 2); (7945, 1456, 2); (7946, 1458, 3);
  (7947, 1461, 3); (7948, 1464, 3); (7949, 1467, 3); (7950, 1470, 3); (7951, 1473, 3);
  (7952, 1476, 2); (7953, 1478, 2); (7954, 1480, 3); (7955, 1483, 3); (7956, 1486, 3);
  (7957, 1489, 3); (7960, 1492, 2); (7961, 1494, 2); (7962, 1496, 3); (7963, 1499, 3);
  (7964, 1502, 3); (7965, 1505, 3); (7968, 1508, 2); (7969, 1510, 2); (7970, 1512, 3);
  (7971, 1515, 3); (7972, 1518, 3); (7973, 1521, 3); (7974, 1524, 3); (7975, 1527, 3);
  (7976, 1530, 2); (7977, 1532, 2); (7978, 1534, 3); (7979, 1537, 3); (7980, 1540, 3);
  (7981, 1543, 3); (7982, 1546, 3); (7983, 1549, 3); (7984, 1552, 2); (7985, 1554, 2);
  (7986, 1556, 3); (7987, 1559, 3); (7988, 1562, 3); (7989, 1565, 3); (7990, 1568, 3);
  (7991, 1571, 3); (7992, 1574, 2); (7993, 1576, 2); (7994, 1578, 3); (7995, 1581, 3);
  (7996, 1584, 3); (7997, 1587, 3); (7998, 1590, 3); (7999, 1593, 3); (8000, 1596, 2);
  (8001, 1598, 2); (8002, 1600, 3); (8003, 1603, 3); (8004, 1606, 3); (8005, 1609, 3);
  (8008, 1612, 2); (8009, 1614, 2); (8010, 1616, 3); (8011, 1619, 3); (8012, 1622, 3);
  (8013, 1625, 3); (8016, 1628, 2); (8017, 1630, 2); (8018, 1632, 3); (8019, 1635, 3);
  (8020, 1638, 3); (8021, 1641, 3); (8022, 1644, 3); (8023, 1647, 3); (8025, 1650, 2);
  (8027, 1652, 3); (8029, 1655, 3); (8031, 1658, 3); (8032, 1661, 2); (8033, 1663, 2);
  (8034, 1665, 3); (8035, 1668, 3); (8036, 1671, 3); (8037, 1674, 3); (8038, 1677, 3);
  (8039, 1680, 3); (8040, 1683, 2); (8041, 1685, 2); (8042, 1687, 3); (8043, 1690, 3);
  (8044, 1693, 3); (8045, 1696, 3); (8046, 1699, 3); (8047, 1702, 3); (8048, 1705, 2);
  (8049, 1707, 2); (8050, 1709, 2); (8051, 1711, 2); (8052, 1713, 2); (8053, 1715, 2);
  (8054, 1717, 2); (8055, 1719, 2); (8056, 1721, 2); (8057, 1723, 2); (8058, 1725, 2);
  (8059, 1727, 2); (8060, 1729, 2); (8061, 1731, 2); (8064, 1733, 3); (8065, 1736, 3);
  (8066, 1739, 4); (8067, 1743, 4); (8068, 1747, 4); (8069, 1751, 4); (8070, 1755, 4);
  (8071, 1759, 4); (8072, 1763, 3); (8073, 1766, 3); (8074, 1769, 4); (8075, 1773, 4);
  (8076, 1777, 4); (8077, 1781, 4); (8078, 1785, 4); (8079, 1789, 4); (8080, 1793, 3);
  (8081, 1796, 3); (8082, 1799, 4); (8083, 1803, 4); (8084, 1807, 4); (8085, 1811, 4);
  (8086, 1815, 4); (8087, 1819, 4); (8088, 1823, 3); (8089, 1826, 3); (8090, 1829, 4);
  (8091, 1833, 4); (8092, 1837, 4); (8093, 1841, 4); (8094, 1845, 4); (8095, 1849, 4);
  (8096, 1853, 3); (8097, 1856, 3); (8098, 1859, 4); (8099, 1863, 4); (8100, 1867, 4);
  (8101, 1871, 4); (8102, 1875, 4); (8103, 1879, 4); (8104, 1883, 3); (8105, 1886, 3);
  (8106, 1889, 4); (8107, 1893, 4); (8108, 1897, 4); (8109, 1901, 4); (8110, 1905, 4);
  (8111, 1909, 4); (8112, 1913, 2); (8113, 1915, 2); (8114, 1917, 3); (8115, 1920, 2);
  (8116, 1922, 3); (8118, 1925, 2); (8119, 1927, 3); (8120, 1930, 2); (8121, 1932, 2);
  (8122, 1934, 2); (8123, 1936, 2); (8124, 1938, 2); (8126, 1940, 1); (8129, 1941, 2);
  (8130, 1943, 3); (8131, 1946, 2); (8132, 1948, 3); (8134, 1951, 2); (8135, 1953, 3);
  (8136, 1956, 2); (8137, 1958, 2); (8138, 1960, 2); (8139, 1962, 2); (8140, 1964, 2);
  (8141, 1966, 2); (8142, 1968, 2); (8143, 1970, 2); (8144, 1972, 2); (8145, 1974, 2);
  (8146, 1976, 3); (8147, 1979, 3); (8150, 1982, 2); (8151, 1984, 3); (8152, 1987, 2);
  (8153, 1989, 2); (8154, 1991, 2); (8155, 1993, 2); (8157, 1995, 2); (8158, 1997, 2);
  (8159, 1999, 2); (8160, 2001, 2); (8161, 2003, 2); (8162, 2005, 3); (8163, 2008, 3);
  (8164, 2011, 2); (8165, 2013, 2); (8166, 2015, 2); (8167, 2017, 3); (8168, 2020, 2);
  (8169, 2022, 2); (8170, 2024, 2); (8171, 2026, 2); (8172, 2028, 2); (8173, 2030, 2);
  (8174, 2032, 2); (8175, 2034, 1); (8178, 2035, 3); (8179, 2038, 2); (8180, 2040, 3);
  (8182, 2043, 2); (8183, 2045, 3); (8184, 2048, 2); (8185, 2050, 2); (8186, 2052, 2);
  (8187, 2054, 2); (8188, 2056, 2); (8189, 2058, 1); (8192, 2059, 1); (8193, 2060, 1);
  (8486, 2061, 1); (8490, 2062, 1); (8491, 2063, 2); (8602, 2065, 2); (8603, 2067, 2);
  (8622, 2069, 2); (8653, 2071, 2); (8654, 2073, 2); (8655, 2075, 2); (8708, 2077, 2);
  (8713, 2079, 2); (8716, 2081, 2); (8740, 2083, 2); (8742, 2085, 2); (8769, 2087, 2);
  (8772, 2089, 2); (8775, 2091, 2); (8777, 2093, 2); (8800, 2095, 2); (8802, 2097, 2);
  (8813, 2099, 2); (8814, 2101, 2); (8815, 2103, 2); (8816, 2105, 2); (8817, 2107, 2);
  (8820, 2109, 2); (8821, 2111, 2); (8824, 2113, 2); (8825, 2115, 2); (8832, 2117, 2);
  (8833, 2119, 2); (8836, 2121, 2); (8837, 2123, 2); (8840, 2125, 2); (8841, 2127, 2);
  (8876, 2129, 2); (8877, 2131, 2); (8878, 2133, 2); (8879, 2135, 2); (8928, 2137, 2);
  (8929, 2139, 2); (8930, 2141, 2); (8931, 2143, 2); (8938, 2145, 2); (8939, 2147, 2);
  (8940, 2149, 2); (8941, 2151, 2); (9001, 2153, 1); (9002, 2154, 1); (10972, 2155, 2);
  (12364, 2157, 2); (12366, 2159, 2); (12368, 2161, 2); (12370, 2163, 2); (12372, 2165, 2);
  (12374, 2167, 2); (12376, 2169, 2); (12378, 2171, 2); (12380, 2173, 2); (12382, 2175, 2);
  (12384, 2177, 2); (12386, 2179, 2); (12389, 2181, 2); (12391, 2183, 2); (12393, 2185, 2);
  (12400, 2187, 2); (12401, 2189, 2); (12403, 2191, 2); (12404, 2193, 2); (12406, 2195, 2);
  (12407, 2197, 2); (12409, 2199, 2); (12410, 2201, 2); (12412, 2203, 2); (12413, 2205, 2);
  (12436, 2207, 2); (12446, 2209, 2); (12460, 2211, 2); (12462, 2213, 2); (12464, 2215, 2);
  (12466, 2217, 2); (12468, 2219, 2); (12470, 2221, 2); (12472, 2223, 2); (12474, 2225, 2);
  (12476, 2227, 2); (12478, 2229, 2); (12480, 2231, 2); (12482, 2233, 2); (12485, 2235, 2);
  (12487, 2237, 2); (12489, 2239, 2); (12496, 2241, 2); (12497, 2243, 2); (12499, 2245, 2);
  (12500, 2247, 2); (12502, 2249, 2); (12503, 2251, 2); (12505, 2253, 2); (12506, 2255, 2);
  (12508, 2257, 2); (12509, 2259, 2); (12532, 2261, 2); (12535, 2263, 2); (12536, 2265, 2);
  (12537, 2267, 2); (12538, 2269, 2); (12542, 2271, 2); (63744, 2273, 1); (63745, 2274, 1);
  (63746, 2275, 1); (63747, 2276, 1); (63748, 2277, 1); (63749, 2278, 1); (63750, 2279, 1);
  (63751, 2280, 1); (63752, 2281, 1); (63753, 2282, 1); (63754, 2283, 1); (63755, 2284, 1);
  (63756, 2285, 1); (63757, 2286, 1); (63758, 2287, 1); (63759, 2288, 1); (63760, 2289, 1);
  (63761, 2290, 1); (63762, 2291, 1); (63763, 2292, 1); (63764, 2293, 1); (63765, 2294, 1);
  (63766, 2295, 1); (63767, 2296, 1); (63768, 2297, 1); (63769, 2298, 1); (63770, 2299, 1);
  (63771, 2300, 1); (63772, 2301, 1); (63773, 2302, 1); (63774, 2303, 1); (63775, 2304, 1);
  (63776, 2305, 1); (63777, 2306, 1); (63778, 2307, 1); (63779, 2308, 1); (63780, 2309, 1);
  (63781, 2310, 1); (63782, 2311, 1); (63783, 2312, 1); (63784, 2313, 1); (63785, 2314, 1);
  (63786, 2315, 1); (63787, 2316, 1); (63788, 2317, 1); (63789, 2318, 1); (63790, 2319, 1);
  (63791, 2320, 1); (63792, 2321, 1); (63793, 2322, 1); (63794, 2323, 1); (63795, 2324, 1);
  (63796, 2325, 1); (63797, 2326, 1); (63798, 2327, 1); (63799, 2328, 1); (63800, 2329, 1);
  (63801, 2330, 1); (63802, 2331, 1); (63803, 2332, 1); (63804, 2333, 1); (63805, 2334, 1);
  (63806, 2335, 1); (63807, 2336, 1); (63808, 2337, 1); (63809, 2338, 1); (63810, 2339, 1);
  (63811, 2340, 1); (63812, 2341, 1); (63813, 2342, 1); (63814, 2343, 1); (63815, 2344, 1);
  (63816, 2345, 1); (63817, 2346, 1); (63818, 2347, 1); (63819, 2348, 1); (63820, 2349, 1);
  (63821, 2350, 1); (63822, 2351, 1); (63823, 2352, 1); (63824, 2353, 1); (63825, 2354, 1);
  (63826, 2355, 1); (63827, 2356, 1); (63828, 2357, 1); (63829, 2358, 1); (63830, 2359, 1);
  (63831, 2360, 1); (63832, 2361, 1); (63833, 2362, 1); (63834, 2363, 1); (63835, 2364, 1);
  (63836, 2365, 1); (63837, 2366, 1); (63838, 2367, 1); (63839, 2368, 1); (63840, 2369, 1);
  (63841, 2370, 1); (63842, 2371, 1); (63843, 2372, 1); (63844, 2373, 1); (63845, 2374, 1);
  (63846, 2375, 1); (63847, 2376, 1); (63848, 2377, 1); (63849, 2378, 1); (63850, 2379, 1);
  (63851, 2380, 1); (63852, 2381, 1); (63853, 2382, 1); (63854, 2383, 1); (63855, 2384, 1);
  (63856, 2385, 1); (63857, 2386, 1); (63858, 2387, 1); (63859, 2388, 1); (63860, 2389, 1);
  (63861, 2390, 1); (63862, 2391, 1); (63863, 2392, 1); (63864, 2393, 1); (63865, 2394, 1);
  (63866, 2395, 1); (63867, 2396, 1); (63868, 2397, 1); (63869, 2398, 1); (63870, 2399, 1);
  (63871, 2400, 1); (63872, 2401, 1); (63873, 2402, 1); (63874, 2403, 1); (63875, 2404, 1);
  (63876, 2405, 1); (63877, 2406, 1); (63878, 2407, 1); (63879, 2408, 1); (63880, 2409, 1);
  (63881, 2410, 1); (63882, 2411, 1); (63883, 2412, 1); (63884, 2413, 1); (63885, 2414, 1);
  (63886, 2415, 1); (63887, 2416, 1); (63888, 2417, 1); (63889, 2418, 1); (63890, 2419, 1);
  (63891, 2420, 1); (63892, 2421, 1); (63893, 2422, 1); (63894, 2423, 1); (63895, 2424, 1);
  (63896, 2425, 1); (63897, 2426, 1); (63898, 2427, 1); (63899, 2428, 1); (63900, 2429, 1);
  (63901, 2430, 1); (63902, 2431, 1); (63903, 2432, 1); (63904, 2433, 1); (63905, 2434, 1);
  (63906, 2435, 1); (63907, 2436, 1); (63908, 2437, 1); (63909, 2438, 1); (63910, 2439, 1);
  (63911, 2440, 1); (63912, 2441, 1); (63913, 2442, 1); (63914, 2443, 1); (63915, 2444, 1);
  (63916, 2445, 1); (63917, 2446, 1); (63918, 2447, 1); (63919, 2448, 1); (63920, 2449, 1);
  (63921, 2450, 1); (63922, 2451, 1); (63923, 2452, 1); (63924, 2453, 1); (63925, 2454, 1);
  (63926, 2455, 1); (63927, 2456, 1); (63928, 2457, 1); (63929, 2458, 1); (63930, 2459, 1);
  (63931, 2460, 1); (63932, 2461, 1); (63933, 2462, 1); (63934, 2463, 1); (63935, 2464, 1);
  (63936, 2465, 1); (63937, 2466, 1); (63938, 2467, 1); (63939, 2468, 1); (63940, 2469, 1);
  (63941, 2470, 1); (63942, 2471, 1); (63943, 2472, 1); (63944, 2473, 1); (63945, 2474, 1);
  (63946, 2475, 1); (63947, 2476, 1); (63948, 2477, 1); (63949, 2478, 1); (63950, 2479, 1);
  (63951, 2480, 1); (63952, 2481, 1); (63953, 2482, 1); (63954, 2483, 1); (63955, 2484, 1);
  (63956, 2485, 1); (63957, 2486, 1); (63958, 2487, 1); (63959, 2488, 1); (63960, 2489, 1);
  (63961, 2490, 1); (63962, 2491, 1); (63963, 2492, 1); (63964, 2493, 1); (63965, 2494, 1);
  (63966, 2495, 1); (63967, 2496, 1); (63968, 2497, 1); (63969, 2498, 1); (63970, 2499, 1);
  (63971, 2500, 1); (63972, 2501, 1); (63973, 2502, 1); (63974, 2503, 1); (63975, 2504, 1);
  (63976, 2505, 1); (63977, 2506, 1); (63978, 2507, 1); (63979, 2508, 1); (63980, 2509, 1);
  (63981, 2510, 1); (63982, 2511, 1); (63983, 2512, 1); (63984, 2513, 1); (63985, 2514, 1);
  (63986, 2515, 1); (63987, 2516, 1); (63988, 2517, 1); (63989, 2518, 1); (63990, 2519, 1);
  (63991, 2520, 1); (63992, 2521, 1); (63993, 2522, 1); (63994, 2523, 1); (63995, 2524, 1);
  (63996, 2525, 1); (63997, 2526, 1); (63998, 2527, 1); (63999, 2528, 1); (64000, 2529, 1);
  (64001, 2530, 1); (64002, 2531, 1); (64003, 2532, 1); (64004, 2533, 1); (64005, 2534, 1);
  (64006, 2535, 1); (64007, 2536, 1); (64008, 2537, 1); (64009, 2538, 1); (64010, 2539, 1);
  (64011, 2540, 1); (64012, 2541, 1); (64013, 2542, 1); (64016, 2543, 1); (64018, 2544, 1);
  (64021, 2545, 1); (64022, 2546, 1); (64023, 2547, 1); (64024, 2548, 1); (64025, 2549, 1);
  (64026, 2550, 1); (64027, 2551, 1); (64028, 2552, 1); (64029, 2553, 1); (64030, 2554, 1);
  (64032, 2555, 1); (64034, 2556, 1); (64037, 2557, 1); (64038, 2558, 1); (64042, 2559, 1);
  (64043, 2560, 1); (64044, 2561, 1); (64045, 2562, 1); (64046, 2563, 1); (64047, 2564, 1);
  (64048, 2565, 1); (64049, 2566, 1); (64050, 2567, 1); (64051, 2568, 1); (64052, 2569, 1);
  (64053, 2570, 1); (64054, 2571, 1); (64055, 2572, 1); (64056, 2573, 1); (64057, 2574, 1);
  (64058, 2575, 1); (64059, 2576, 1); (64060, 2577, 1); (64061, 2578, 1); (64062, 2579, 1);
  (64063, 2580, 1); (64064, 2581, 1); (64065, 2582, 1); (64066, 2583, 1); (64067, 2584, 1);
  (64068, 2585, 1); (64069, 2586, 1); (64070, 2587, 1); (64071, 2588, 1); (64072, 2589, 1);
  (64073, 2590, 1); (64074, 2591, 1); (64075, 2592, 1); (64076, 2593, 1); (64077, 2594, 1);
  (64078, 2595, 1); (64079, 2596, 1); (64080, 2597, 1); (64081, 2598, 1); (64082, 2599, 1);
  (64083, 2600, 1); (64084, 2601, 1); (64085, 2602, 1); (64086, 2603, 1); (64087, 2604, 1);
  (64088, 2605, 1); (64089, 2606, 1); (64090, 2607, 1); (64091, 2608, 1); (64092, 2609, 1);
  (64093, 2610, 1); (64094, 2611, 1); (64095, 2612, 1); (64096, 2613, 1); (64097, 2614, 1);
  (64098, 2615, 1); (64099, 2616, 1); (64100, 2617, 1); (64101, 2618, 1); (64102, 2619, 1);
  (64103, 2620, 1); (64104, 2621, 1); (64105, 2622, 1); (64106, 2623, 1); (64107, 2624, 1);
  (64108, 2625, 1); (64109, 2626, 1); (64112, 2627, 1); (64113, 2628, 1); (64114, 2629, 1);
  (64115, 2630, 1); (64116, 2631, 1); (64117, 2632, 1); (64118, 2633, 1); (64119, 2634, 1);
  (64120, 2635, 1); (64121, 2636, 1); (64122, 2637, 1); (64123, 2638, 1); (64124, 2639, 1);
  (64125, 2640, 1); (64126, 2641, 1); (64127, 2642, 1); (64128, 2643, 1); (64129, 2644, 1);
  (64130, 2645, 1); (64131, 2646, 1); (64132, 2647, 1); (64133, 2648, 1); (64134, 2649, 1);
  (64135, 2650, 1); (64136, 2651, 1); (64137, 2652, 1); (64138, 2653, 1); (64139, 2654, 1);
  (64140, 2655, 1); (64141, 2656, 1); (64142, 2657, 1); (64143, 2658, 1); (64144, 2659, 1);
  (64145, 2660, 1); (64146, 2661, 1); (64147, 2662, 1); (64148, 2663, 1); (64149, 2664, 1);
  (64150, 2665, 1); (64151, 2666, 1); (64152, 2667, 1); (64153, 2668, 1); (64154, 2669, 1);
  (64155, 2670, 1); (64156, 2671, 1); (64157, 2672, 1); (64158, 2673, 1); (64159, 2674, 1);
  (64160, 2675, 1); (64161, 2676, 1); (64162, 2677, 1); (64163, 2678, 1); (64164, 2679, 1);
  (64165, 2680, 1); (64166, 2681, 1); (64167, 2682, 1); (64168, 2683, 1); (64169, 2684, 1);
  (64170, 2685, 1); (64171, 2686, 1); (64172, 2687, 1); (64173, 2688, 1); (64174, 2689, 1);
  (64175, 2690, 1); (64176, 2691, 1); (64177, 2692, 1); (64178, 2693, 1); (64179, 2694, 1);
  (64180, 2695, 1); (64181, 2696, 1); (64182, 2697, 1); (64183, 2698, 1); (64184, 2699, 1);
  (64185, 2700, 1); (64186, 2701, 1); (64187, 2702, 1); (64188, 2703, 1); (64189, 2704, 1);
  (64190, 2705, 1); (64191, 2706, 1); (64192, 2707, 1); (64193, 2708, 1); (64194, 2709, 1);
  (64195, 2710, 1); (64196, 2711, 1); (64197, 2712, 1); (64198, 2713, 1); (64199, 2714, 1);
  (64200, 2715, 1); (64201, 2716, 1); (64202, 2717, 1); (64203, 2718, 1); (64204, 2719, 1);
  (64205, 2720, 1); (64206, 2721, 1); (64207, 2722, 1); (64208, 2723, 1); (64209, 2724, 1);
  (64210, 2725, 1); (64211, 2726, 1); (64212, 2727, 1); (64213, 2728, 1); (64214, 2729, 1);
  (64215, 2730, 1); (64216, 2731, 1); (64217, 2732, 1); (64285, 2733, 2); (64287, 2735, 2);
  (64298, 2737, 2); (64299, 2739, 2); (64300, 2741, 3); (64301, 2744, 3); (64302, 2747, 2);
  (64303, 2749, 2); (64304, 2751, 2); (64305, 2753, 2); (64306, 2755, 2); (64307, 2757, 2);
  (64308, 2759, 2); (64309, 2761, 2); (64310, 2763, 2); (64312, 2765, 2); (64313, 2767, 2);
  (64314, 2769, 2); (64315, 2771, 2); (64316, 2773, 2); (64318, 2775, 2); (64320, 2777, 2);
  (64321, 2779, 2); (64323, 2781, 2); (64324, 2783, 2); (64326, 2785, 2); (64327, 2787, 2);
  (64328, 2789, 2); (64329, 2791, 2); (64330, 2793, 2); (64331, 2795, 2); (64332, 2797, 2);
  (64333, 2799, 2); (64334, 2801, 2); (69786, 2803, 2); (69788, 2805, 2); (69803, 2807, 2);
  (69934, 2809, 2); (69935, 2811, 2); (70475, 2813, 2); (70476, 2815, 2); (70843, 2817, 2);
  (70844, 2819, 2); (70846, 2821, 2); (71098, 2823, 2); (71099, 2825, 2); (71992, 2827, 2);
  (119134, 2829, 2); (119135, 2831, 2); (119136, 2833, 3); (119137, 2836, 3); (119138, 2839, 3);
  (119139, 2842, 3); (119140, 2845, 3); (119227, 2848, 2); (119228, 2850, 2); (119229, 2852, 3);
  (119230, 2855, 3); (119231, 2858, 3); (119232, 2861, 3); (194560, 2864, 1); (194561, 2865, 1);
  (194562, 2866, 1); (194563, 2867, 1); (194564, 2868, 1); (194565, 2869, 1); (194566, 2870, 1);
  (194567, 2871, 1); (194568, 2872, 1); (194569, 2873, 1); (194570, 2874, 1); (194571, 2875, 1);
  (194572, 2876, 1); (194573, 2877, 1); (194574, 2878, 1); (194575, 2879, 1); (194576, 2880, 1);
  (194577, 2881, 1); (194578, 2882, 1); (194579, 2883, 1); (194580, 2884, 1); (194581, 2885, 1);
  (194582, 2886, 1); (194583, 2887, 1); (194584, 2888, 1); (194585, 2889, 1); (194586, 2890, 1);
  (194587, 2891, 1); (194588, 2892, 1); (194589, 2893, 1); (194590, 2894, 1); (194591, 2895, 1);
  (194592, 2896, 1); (194593, 2897, 1); (194594, 2898, 1); (194595, 2899, 1); (194596, 2900, 1);
  (194597, 2901, 1); (194598, 2902, 1); (194599, 2903, 1); (194600, 2904, 1); (194601, 2905, 1);
  (194602, 2906, 1); (194603, 2907, 1); (194604, 2908, 1); (194605, 2909, 1); (194606, 2910, 1);
  (194607, 2911, 1); (194608, 2912, 1); (194609, 2913, 1); (194610, 2914, 1); (194611, 2915, 1);
  (194612, 2916, 1); (194613, 2917, 1); (194614, 2918, 1); (194615, 2919, 1); (194616, 2920, 1);
  (194617, 2921, 1); (194618, 2922, 1); (194619, 2923, 1); (194620, 2924, 1); (194621, 2925, 1);
  (194622, 2926, 1); (194623, 2927, 1); (194624, 2928, 1); (194625, 2929, 1); (194626, 2930, 1);
  (194627, 2931, 1); (194628, 2932, 1); (194629, 2933, 1); (194630, 2934, 1); (194631, 2935, 1);
  (194632, 2936, 1); (194633, 2937, 1); (194634, 2938, 1); (194635, 2939, 1); (194636, 2940, 1);
  (194637, 2941, 1); (194638, 2942, 1); (194639, 2943, 1); (194640, 2944, 1); (194641, 2945, 1);
  (194642, 2946, 1); (194643, 2947, 1); (194644, 2948, 1); (194645, 2949, 1); (194646, 2950, 1);
  (194647, 2951, 1); (194648, 2952, 1); (194649, 2953, 1); (194650, 2954, 1); (194651, 2955, 1);
  (194652, 2956, 1); (194653, 2957, 1); (194654, 2958, 1); (194655, 2959, 1); (194656, 2960, 1);
  (194657, 2961, 1); (194658, 2962, 1); (194659, 2963, 1); (194660, 2964, 1); (194661, 2965, 1);
  (194662, 2966, 1); (194663, 2967, 1); (194664, 2968, 1); (194665, 2969, 1); (194666, 2970, 1);
  (194667, 2971, 1); (194668, 2972, 1); (194669, 2973, 1); (194670, 2974, 1); (194671, 2975, 1);
  (194672, 2976, 1); (194673, 2977, 1); (194674, 2978, 1); (194675, 2979, 1); (194676, 2980, 1);
  (194677, 2981, 1); (194678, 2982, 1); (194679, 2983, 1); (194680, 2984, 1); (194681, 2985, 1);
  (194682, 2986, 1); (194683, 2987, 1); (194684, 2988, 1); (194685, 2989, 1); (194686, 2990, 1);
  (194687, 2991, 1); (194688, 2992, 1); (194689, 2993, 1); (194690, 2994, 1); (194691, 2995, 1);
  (194692, 2996, 1); (194693, 2997, 1); (194694, 2998, 1); (194695, 2999, 1); (194696, 3000, 1);
  (194697, 3001, 1); (194698, 3002, 1); (194699, 3003, 1); (194700, 3004, 1); (194701, 3005, 1);
  (194702, 3006, 1); (194703, 3007, 1); (194704, 3008, 1); (194705, 3009, 1); (194706, 3010, 1);
  (194707, 3011, 1); (194708, 3012, 1); (194709, 3013, 1); (194710, 3014, 1); (194711, 3015, 1);
  (194712, 3016, 1); (194713, 3017, 1); (194714, 3018, 1); (194715, 3019, 1); (194716, 3020, 1);
  (194717, 3021, 1); (194718, 3022, 1); (194719, 3023, 1); (194720, 3024, 1); (194721, 3025, 1);
  (194722, 3026, 1); (194723, 3027, 1); (194724, 3028, 1); (194725, 3029, 1); (194726, 3030, 1);
  (194727, 3031, 1); (194728, 3032, 1); (194729, 3033, 1); (194730, 3034, 1); (194731, 3035, 1);
  (194732, 3036, 1); (194733, 3037, 1); (194734, 3038, 1); (194735, 3039, 1); (194736, 3040, 1);
  (194737, 3041, 1); (194738, 3042, 1); (194739, 3043, 1); (194740, 3044, 1); (194741, 3045, 1);
  (194742, 3046, 1); (194743, 3047, 1); (194744, 3048, 1); (194745, 3049, 1); (194746, 3050, 1);
  (194747, 3051, 1); (194748, 3052, 1); (194749, 3053, 1); (194750, 3054, 1); (194751, 3055, 1);
  (194752, 3056, 1); (194753, 3057, 1); (194754, 3058, 1); (194755, 3059, 1); (194756, 3060, 1);
  (194757, 3061, 1); (194758, 3062, 1); (194759, 3063, 1); (194760, 3064, 1); (194761, 3065, 1);
  (194762, 3066, 1); (194763, 3067, 1); (194764, 3068, 1); (194765, 3069, 1); (194766, 3070, 1);
  (194767, 3071, 1); (194768, 3072, 1); (194769, 3073, 1); (194770, 3074, 1); (194771, 3075, 1);
  (194772, 3076, 1); (194773, 3077, 1); (194774, 3078, 1); (194775, 3079, 1); (194776, 3080, 1);
  (194777, 3081, 1); (194778, 3082, 1); (194779, 3083, 1); (194780, 3084, 1); (194781, 3085, 1);
  (194782, 3086, 1); (194783, 3087, 1); (194784, 3088, 1); (194785, 3089, 1); (194786, 3090, 1);
  (194787, 3091, 1); (194788, 3092, 1); (194789, 3093, 1); (194790, 3094, 1); (194791, 3095, 1);
  (194792, 3096, 1); (194793, 3097, 1); (194794, 3098, 1); (194795, 3099, 1); (194796, 3100, 1);
  (194797, 3101, 1); (194798, 3102, 1); (194799, 3103, 1); (194800, 3104, 1); (194801, 3105, 1);
  (194802, 3106, 1); (194803, 3107, 1); (194804, 3108, 1); (194805, 3109, 1); (194806, 3110, 1);
  (194807, 3111, 1); (194808, 3112, 1); (194809, 3113, 1); (194810, 3114, 1); (194811, 3115, 1);
  (194812, 3116, 1); (194813, 3117, 1); (194814, 3118, 1); (194815, 3119, 1); (194816, 3120, 1);
  (194817, 3121, 1); (194818, 3122, 1); (194819, 3123, 1); (194820, 3124, 1); (194821, 3125, 1);
  (194822, 3126, 1); (194823, 3127, 1); (194824, 3128, 1); (194825, 3129, 1); (194826, 3130, 1);
  (194827, 3131, 1); (194828, 3132, 1); (194829, 3133, 1); (194830, 3134, 1); (194831, 3135, 1);
  (194832, 3136, 1); (194833, 3137, 1); (194834, 3138, 1); (194835, 3139, 1); (194836, 3140, 1);
  (194837, 3141, 1); (194838, 3142, 1); (194839, 3143, 1); (194840, 3144, 1); (194841, 3145, 1);
  (194842, 3146, 1); (194843, 3147, 1); (194844, 3148, 1); (194845, 3149, 1); (194846, 3150, 1);
  (194847, 3151, 1); (194848, 3152, 1); (194849, 3153, 1); (194850, 3154, 1); (194851, 3155, 1);
  (194852, 3156, 1); (194853, 3157, 1); (194854, 3158, 1); (194855, 3159, 1); (194856, 3160, 1);
  (194857, 3161, 1); (194858, 3162, 1); (194859, 3163, 1); (194860, 3164, 1); (194861, 3165, 1);
  (194862, 3166, 1); (194863, 3167, 1); (194864, 3168, 1); (194865, 3169, 1); (194866, 3170, 1);
  (194867, 3171, 1); (194868, 3172, 1); (194869, 3173, 1); (194870, 3174, 1); (194871, 3175, 1);
  (194872, 3176, 1); (194873, 3177, 1); (194874, 3178, 1); (194875, 3179, 1); (194876, 3180, 1);
  (194877, 3181, 1); (194878, 3182, 1); (194879, 3183, 1); (194880, 3184, 1); (194881, 3185, 1);
  (194882, 3186, 1); (194883, 3187, 1); (194884, 3188, 1); (194885, 3189, 1); (194886, 3190, 1);
  (194887, 3191, 1); (194888, 3192, 1); (194889, 3193, 1); (194890, 3194, 1); (194891, 3195, 1);
  (194892, 3196, 1); (194893, 3197, 1); (194894, 3198, 1); (194895, 3199, 1); (194896, 3200, 1);
  (194897, 3201, 1); (194898, 3202, 1); (194899, 3203, 1); (194900, 3204, 1); (194901, 3205, 1);
  (194902, 3206, 1); (194903, 3207, 1); (194904, 3208, 1); (194905, 3209, 1); (194906, 3210, 1);
  (194907, 3211, 1); (194908, 3212, 1); (194909, 3213, 1); (194910, 3214, 1); (194911, 3215, 1);
  (194912, 3216, 1); (194913, 3217, 1); (194914, 3218, 1); (194915, 3219, 1); (194916, 3220, 1);
  (194917, 3221, 1); (194918, 3222, 1); (194919, 3223, 1); (194920, 3224, 1); (194921, 3225, 1);
  (194922, 3226, 1); (194923, 3227, 1); (194924, 3228, 1); (194925, 3229, 1); (194926, 3230, 1);
  (194927, 3231, 1); (194928, 3232, 1); (194929, 3233, 1); (194930, 3234, 1); (194931, 3235, 1);
  (194932, 3236, 1); (194933, 3237, 1); (194934, 3238, 1); (194935, 3239, 1); (194936, 3240, 1);
  (194937, 3241, 1); (194938, 3242, 1); (194939, 3243, 1); (194940, 3244, 1); (194941, 3245, 1);
  (194942, 3246, 1); (194943, 3247, 1); (194944, 3248, 1); (194945, 3249, 1); (194946, 3250, 1);
  (194947, 3251, 1); (194948, 3252, 1); (194949, 3253, 1); (194950, 3254, 1); (194951, 3255, 1);
  (194952, 3256, 1); (194953, 3257, 1); (194954, 3258, 1); (194955, 3259, 1); (194956, 3260, 1);
  (194957, 3261, 1); (194958, 3262, 1); (194959, 3263, 1); (194960, 3264, 1); (194961, 3265, 1);
  (194962, 3266, 1); (194963, 3267, 1); (194964, 3268, 1); (194965, 3269, 1); (194966, 3270, 1);
  (194967, 3271, 1); (194968, 3272, 1); (194969, 3273, 1); (194970, 3274, 1); (194971, 3275, 1);
  (194972, 3276, 1); (194973, 3277, 1); (194974, 3278, 1); (194975, 3279, 1); (194976, 3280, 1);
  (194977, 3281, 1); (194978, 3282, 1); (194979, 3283, 1); (194980, 3284, 1); (194981, 3285, 1);
  (194982, 3286, 1); (194983, 3287, 1); (194984, 3288, 1); (194985, 3289, 1); (194986, 3290, 1);
  (194987, 3291, 1); (194988, 3292, 1); (194989, 3293, 1); (194990, 3294, 1); (194991, 3295, 1);
  (194992, 3296, 1); (194993, 3297, 1); (194994, 3298, 1); (194995, 3299, 1); (194996, 3300, 1);
  (194997, 3301, 1); (194998, 3302, 1); (194999, 3303, 1); (195000, 3304, 1); (195001, 3305, 1);
  (195002, 3306, 1); (195003, 3307, 1); (195004, 3308, 1); (195005, 3309, 1); (195006, 3310, 1);
  (195007, 3311, 1); (195008, 3312, 1); (195009, 3313, 1); (195010, 3314, 1); (195011, 3315, 1);
  (195012, 3316, 1); (195013, 3317, 1); (195014, 3318, 1); (195015, 3319, 1); (195016, 3320, 1);
  (195017, 3321, 1); (195018, 3322, 1); (195019, 3323, 1); (195020, 3324, 1); (195021, 3325, 1);
  (195022, 3326, 1); (195023, 3327, 1); (195024, 3328, 1); (195025, 3329, 1); (195026, 3330, 1);
  (195027, 3331, 1); (195028, 3332, 1); (195029, 3333, 1); (195030, 3334, 1); (195031, 3335, 1);
  (195032, 3336, 1); (195033, 3337, 1); (195034, 3338, 1); (195035, 3339, 1); (195036, 3340, 1);
  (195037, 3341, 1); (195038, 3342, 1); (195039, 3343, 1); (195040, 3344, 1); (195041, 3345, 1);
  (195042, 3346, 1); (195043, 3347, 1); (195044, 3348, 1); (195045, 3349, 1); (195046, 3350, 1);
  (195047, 3351, 1); (195048, 3352, 1); (195049, 3353, 1); (195050, 3354, 1); (195051, 3355, 1);
  (195052, 3356, 1); (195053, 3357, 1); (195054, 3358, 1); (195055, 3359, 1); (195056, 3360, 1);
  (195057, 3361, 1); (195058, 3362, 1); (195059, 3363, 1); (195060, 3364, 1); (195061, 3365, 1);
  (195062, 3366, 1); (195063, 3367, 1); (195064, 3368, 1); (195065, 3369, 1); (195066, 3370, 1);
  (195067, 3371, 1); (195068, 3372, 1); (195069, 3373, 1); (195070, 3374, 1); (195071, 3375, 1);
  (195072, 3376, 1); (195073, 3377, 1); (195074, 3378, 1); (195075, 3379, 1); (195076, 3380, 1);
  (195077, 3381, 1); (195078, 3382, 1); (195079, 3383, 1); (195080, 3384, 1); (195081, 3385, 1);
  (195082, 3386, 1); (195083, 3387, 1); (195084, 3388, 1); (195085, 3389, 1); (195086, 3390, 1);
  (195087, 3391, 1); (195088, 3392, 1); (195089, 3393, 1); (195090, 3394, 1); (195091, 3395, 1);
  (195092, 3396, 1); (195093, 3397, 1); (195094, 3398, 1); (195095, 3399, 1); (195096, 3400, 1);
  (195097, 3401, 1); (195098, 3402, 1); (195099, 3403, 1); (195100, 3404, 1); (195101, 3405, 1)
].

Definition NFD_POOL : list Z := [
  65; 768; 65; 769; 65; 770; 65; 771; 65; 776; 65; 778; 67; 807; 69; 768; 69; 769; 69; 770; 69;
  776; 73; 768; 73; 769; 73; 770; 73; 776; 78; 771; 79; 768; 79; 769; 79; 770; 79; 771; 79; 776;
  85; 768; 85; 769; 85; 770; 85; 776; 89; 769; 97; 768; 97; 769; 97; 770; 97; 771; 97; 776; 97;
  778; 99; 807; 101; 768; 101; 769; 101; 770; 101; 776; 105; 768; 105; 769; 105; 770; 105; 776;
  110; 771; 111; 768; 111; 769; 111; 770; 111; 771; 111; 776; 117; 768; 117; 769; 117; 770; 117;
  776; 121; 769; 121; 776; 65; 772; 97; 772; 65; 774; 97; 774; 65; 808; 97; 808; 67; 769; 99; 769;
  67; 770; 99; 770; 67; 775; 99; 775; 67; 780; 99; 780; 68; 780; 100; 780; 69; 772; 101; 772; 69;
  774; 101; 774; 69; 775; 101; 775; 69; 808; 101; 808; 69; 780; 101; 780; 71; 770; 103; 770; 71;
  774; 103; 774; 71; 775; 103; 775; 71; 807; 103; 807; 72; 770; 104; 770; 73; 771; 105; 771; 73;
  772; 105; 772; 73; 774; 105; 774; 73; 808; 105; 808; 73; 775; 74; 770; 106; 770; 75; 807; 107;
  807; 76; 769; 108; 769; 76; 807; 108; 807; 76; 780; 108; 780; 78; 769; 110; 769; 78; 807; 110;
  807; 78; 780; 110; 780; 79; 772; 111; 772; 79; 774; 111; 774; 79; 779; 111; 779; 82; 769; 114;
  769; 82; 807; 114; 807; 82; 780; 114; 780; 83; 769; 115; 769; 83; 770; 115; 770; 83; 807; 115;
  807; 83; 780; 115; 780; 84; 807; 116; 807; 84; 780; 116; 780; 85; 771; 117; 771; 85; 772; 117;
  772; 85; 774; 117; 774; 85; 778; 117; 778; 85; 779; 117; 779; 85; 808; 117; 808; 87; 770; 119;
  770; 89; 770; 121; 770; 89; 776; 90; 769; 122; 769; 90; 775; 122; 775; 90; 780; 122; 780; 79;
  795; 111; 795; 85; 795; 117; 795; 65; 780; 97; 780; 73; 780; 105; 780; 79; 780; 111; 780; 85;
  780; 117; 780; 85; 776; 772; 117; 776; 772; 85; 776; 769; 117; 776; 769; 85; 776; 780; 117; 776;
  780; 85; 776; 768; 117; 776; 768; 65; 776; 772; 97; 776; 772; 65; 775; 772; 97; 775; 772; 198;
  772; 230; 772; 71; 780; 103; 780; 75; 780; 107; 780; 79; 808; 111; 808; 79; 808; 772; 111; 808;
  772; 439; 780; 658; 780; 106; 780; 71; 769; 103; 769; 78; 768; 110; 768; 65; 778; 769; 97; 778;
  769; 198; 769; 230; 769; 216; 769; 248; 769; 65; 783; 97; 783; 65; 785; 97; 785; 69; 783; 101;
  783; 69; 785; 101; 785; 73; 783; 105; 783; 73; 785; 105; 785; 79; 783; 111; 783; 79; 785; 111;
  785; 82; 783; 114; 783; 82; 785; 114; 785; 85; 783; 117; 783; 85; 785; 117; 785; 83; 806; 115;
  806; 84; 806; 116; 806; 72; 780; 104; 780; 65; 775; 97; 775; 69; 807; 101; 807; 79; 776; 772;
  111; 776; 772; 79; 771; 772; 111; 771; 772; 79; 775; 111; 775; 79; 775; 772; 111; 775; 772; 89;
  772; 121; 772; 768; 769; 787; 776; 769; 697; 59; 168; 769; 913; 769; 183; 917; 769; 919; 769;
  921; 769; 927; 769; 933; 769; 937; 769; 953; 776; 769; 921; 776; 933; 776; 945; 769; 949; 769;
  951; 769; 953; 769; 965; 776; 769; 953; 776; 965; 776; 959; 769; 965; 769; 969; 769; 978; 769;
  978; 776; 1045; 768; 1045; 776; 1043; 769; 1030; 776; 1050; 769; 1048; 768; 1059; 774; 1048; 774;
  1080; 774; 1077; 768; 1077; 776; 1075; 769; 1110; 776; 1082; 769; 1080; 768; 1091; 774; 1140;
  783; 1141; 783; 1046; 774; 1078; 774; 1040; 774; 1072; 774; 1040; 776; 1072; 776; 1045; 774;
  1077; 774; 1240; 776; 1241; 776; 1046; 776; 1078; 776; 1047; 776; 1079; 776; 1048; 772; 1080;
  772; 1048; 776; 1080; 776; 1054; 776; 1086; 776; 1256; 776; 1257; 776; 1069; 776; 1101; 776;
  1059; 772; 1091; 772; 1059; 776; 1091; 776; 1059; 779; 1091; 779; 1063; 776; 1095; 776; 1067;
  776; 1099; 776; 1575; 1619; 1575; 1620; 1608; 1620; 1575; 1621; 1610; 1620; 1749; 1620; 1729;
  1620; 1746; 1620; 2344; 2364; 2352; 2364; 2355; 2364; 2325; 2364; 2326; 2364; 2327; 2364; 2332;
  2364; 2337; 2364; 2338; 2364; 2347; 2364; 2351; 2364; 2503; 2494; 2503; 2519; 2465; 2492; 2466;
  2492; 2479; 2492; 2610; 2620; 2616; 2620; 2582; 2620; 2583; 2620; 2588; 2620; 2603; 2620; 2887;
  2902; 2887; 2878; 2887; 2903; 2849; 2876; 2850; 2876; 2962; 3031; 3014; 3006; 3015; 3006; 3014;
  3031; 3142; 3158; 3263; 3285; 3270; 3285; 3270; 3286; 3270; 3266; 3270; 3266; 3285; 3398; 3390;
  3399; 3390; 3398; 3415; 3545; 3530; 3545; 3535; 3545; 3535; 3530; 3545; 3551; 3906; 4023; 3916;
  4023; 3921; 4023; 3926; 4023; 3931; 4023; 3904; 4021; 3953; 3954; 3953; 3956; 4018; 3968; 4019;
  3968; 3953; 3968; 3986; 4023; 3996; 4023; 4001; 4023; 4006; 4023; 4011; 4023; 3984; 4021; 4133;
  4142; 6917; 6965; 6919; 6965; 6921; 6965; 6923; 6965; 6925; 6965; 6929; 6965; 6970; 6965; 6972;
  6965; 6974; 6965; 6975; 6965; 6978; 6965; 65; 805; 97; 805; 66; 775; 98; 775; 66; 803; 98; 803;
  66; 817; 98; 817; 67; 807; 769; 99; 807; 769; 68; 775; 100; 775; 68; 803; 100; 803; 68; 817; 100;
  817; 68; 807; 100; 807; 68; 813; 100; 813; 69; 772; 768; 101; 772; 768; 69; 772; 769; 101; 772;
  769; 69; 813; 101; 813; 69; 816; 101; 816; 69; 807; 774; 101; 807; 774; 70; 775; 102; 775; 71;
  772; 103; 772; 72; 775; 104; 775; 72; 803; 104; 803; 72; 776; 104; 776; 72; 807; 104; 807; 72;
  814; 104; 814; 73; 816; 105; 816; 73; 776; 769; 105; 776; 769; 75; 769; 107; 769; 75; 803; 107;
  803; 75; 817; 107; 817; 76; 803; 108; 803; 76; 803; 772; 108; 803; 772; 76; 817; 108; 817; 76;
  813; 108; 813; 77; 769; 109; 769; 77; 775; 109; 775; 77; 803; 109; 803; 78; 775; 110; 775; 78;
  803; 110; 803; 78; 817; 110; 817; 78; 813; 110; 813; 79; 771; 769; 111; 771; 769; 79; 771; 776;
  111; 771; 776; 79; 772; 768; 111; 772; 768; 79; 772; 769; 111; 772; 769; 80; 769; 112; 769; 80;
  775; 112; 775; 82; 775; 114; 775; 82; 803; 114; 803; 82; 803; 772; 114; 803; 772; 82; 817; 114;
  817; 83; 775; 115; 775; 83; 803; 115; 803; 83; 769; 775; 115; 769; 775; 83; 780; 775; 115; 780;
  775; 83; 803; 775; 115; 803; 775; 84; 775; 116; 775; 84; 803; 116; 803; 84; 817; 116; 817; 84;
  813; 116; 813; 85; 804; 117; 804; 85; 816; 117; 816; 85; 813; 117; 813; 85; 771; 769; 117; 771;
  769; 85; 772; 776; 117; 772; 776; 86; 771; 118; 771; 86; 803; 118; 803; 87; 768; 119; 768; 87;
  769; 119; 769; 87; 776; 119; 776; 87; 775; 119; 775; 87; 803; 119; 803; 88; 775; 120; 775; 88;
  776; 120; 776; 89; 775; 121; 775; 90; 770; 122; 770; 90; 803; 122; 803; 90; 817; 122; 817; 104;
  817; 116; 776; 119; 778; 121; 778; 383; 775; 65; 803; 97; 803; 65; 777; 97; 777; 65; 770; 769;
  97; 770; 769; 65; 770; 768; 97; 770; 768; 65; 770; 777; 97; 770; 777; 65; 770; 771; 97; 770; 771;
  65; 803; 770; 97; 803; 770; 65; 774; 769; 97; 774; 769; 65; 774; 768; 97; 774; 768; 65; 774; 777;
  97; 774; 777; 65; 774; 771; 97; 774; 771; 65; 803; 774; 97; 803; 774; 69; 803; 101; 803; 69; 777;
  101; 777; 69; 771; 101; 771; 69; 770; 769; 101; 770; 769; 69; 770; 768; 101; 770; 768; 69; 770;
  777; 101; 770; 777; 69; 770; 771; 101; 770; 771; 69; 803; 770; 101; 803; 770; 73; 777; 105; 777;
  73; 803; 105; 803; 79; 803; 111; 803; 79; 777; 111; 777; 79; 770; 769; 111; 770; 769; 79; 770;
  768; 111; 770; 768; 79; 770; 777; 111; 770; 777; 79; 770; 771; 111; 770; 771; 79; 803; 770; 111;
  803; 770; 79; 795; 769; 111; 795; 769; 79; 795; 768; 111; 795; 768; 79; 795; 777; 111; 795; 777;
  79; 795; 771; 111; 795; 771; 79; 795; 803; 111; 795; 803; 85; 803; 117; 803; 85; 777; 117; 777;
  85; 795; 769; 117; 795; 769; 85; 795; 768; 117; 795; 768; 85; 795; 777; 117; 795; 777; 85; 795;
  771; 117; 795; 771; 85; 795; 803; 117; 795; 803; 89; 768; 121; 768; 89; 803; 121; 803; 89; 777;
  121; 777; 89; 771; 121; 771; 945; 787; 945; 788; 945; 787; 768; 945; 788; 768; 945; 787; 769;
  945; 788; 769; 945; 787; 834; 945; 788; 834; 913; 787; 913; 788; 913; 787; 768; 913; 788; 768;
  913; 787; 769; 913; 788; 769; 913; 787; 834; 913; 788; 834; 949; 787; 949; 788; 949; 787; 768;
  949; 788; 768; 949; 787; 769; 949; 788; 769; 917; 787; 917; 788; 917; 787; 768; 917; 788; 768;
  917; 787; 769; 917; 788; 769; 951; 787; 951; 788; 951; 787; 768; 951; 788; 768; 951; 787; 769;
  951; 788; 769; 951; 787; 834; 951; 788; 834; 919; 787; 919; 788; 919; 787; 768; 919; 788; 768;
  919; 787; 769; 919; 788; 769; 919; 787; 834; 919; 788; 834; 953; 787; 953; 788; 953; 787; 768;
  953; 788; 768; 953; 787; 769; 953; 788; 769; 953; 787; 834; 953; 788; 834; 921; 787; 921; 788;
  921; 787; 768; 921; 788; 768; 921; 787; 769; 921; 788; 769; 921; 787; 834; 921; 788; 834; 959;
  787; 959; 788; 959; 787; 768; 959; 788; 768; 959; 787; 769; 959; 788; 769; 927; 787; 927; 788;
  927; 787; 768; 927; 788; 768; 927; 787; 769; 927; 788; 769; 965; 787; 965; 788; 965; 787; 768;
  965; 788; 768; 965; 787; 769; 965; 788; 769; 965; 787; 834; 965; 788; 834; 933; 788; 933; 788;
  768; 933; 788; 769; 933; 788; 834; 969; 787; 969; 788; 969; 787; 768; 969; 788; 768; 969; 787;
  769; 969; 788; 769; 969; 787; 834; 969; 788; 834; 937; 787; 937; 788; 937; 787; 768; 937; 788;
  768; 937; 787; 769; 937; 788; 769; 937; 787; 834; 937; 788; 834; 945; 768; 945; 769; 949; 768;
  949; 769; 951; 768; 951; 769; 953; 768; 953; 769; 959; 768; 959; 769; 965; 768; 965; 769; 969;
  768; 969; 769; 945; 787; 837; 945; 788; 837; 945; 787; 768; 837; 945; 788; 768; 837; 945; 787;
  769; 837; 945; 788; 769; 837; 945; 787; 834; 837; 945; 788; 834; 837; 913; 787; 837; 913; 788;
  837; 913; 787; 768; 837; 913; 788; 768; 837; 913; 787; 769; 837; 913; 788; 769; 837; 913; 787;
  834; 837; 913; 788; 834; 837; 951; 787; 837; 951; 788; 837; 951; 787; 768; 837; 951; 788; 768;
  837; 951; 787; 769; 837; 951; 788; 769; 837; 951; 787; 834; 837; 951; 788; 834; 837; 919; 787;
  837; 919; 788; 837; 919; 787; 768; 837; 919; 788; 768; 837; 919; 787; 769; 837; 919; 788; 769;
  837; 919; 787; 834; 837; 919; 788; 834; 837; 969; 787; 837; 969; 788; 837; 969; 787; 768; 837;
  969; 788; 768; 837; 969; 787; 769; 837; 969; 788; 769; 837; 969; 787; 834; 837; 969; 788; 834;
  837; 937; 787; 837; 937; 788; 837; 937; 787; 768; 837; 937; 788; 768; 837; 937; 787; 769; 837;
  937; 788; 769; 837; 937; 787; 834; 837; 937; 788; 834; 837; 945; 774; 945; 772; 945; 768; 837;
  945; 837; 945; 769; 837; 945; 834; 945; 834; 837; 913; 774; 913; 772; 913; 768; 913; 769; 913;
  837; 953; 168; 834; 951; 768; 837; 951; 837; 951; 769; 837; 951; 834; 951; 834; 837; 917; 768;
  917; 769; 919; 768; 919; 769; 919; 837; 8127; 768; 8127; 769; 8127; 834; 953; 774; 953; 772; 953;
  776; 768; 953; 776; 769; 953; 834; 953; 776; 834; 921; 774; 921; 772; 921; 768; 921; 769; 8190;
  768; 8190; 769; 8190; 834; 965; 774; 965; 772; 965; 776; 768; 965; 776; 769; 961; 787; 961; 788;
  965; 834; 965; 776; 834; 933; 774; 933; 772; 933; 768; 933; 769; 929; 788; 168; 768; 168; 769;
  96; 969; 768; 837; 969; 837; 969; 769; 837; 969; 834; 969; 834; 837; 927; 768; 927; 769; 937;
  768; 937; 769; 937; 837; 180; 8194; 8195; 937; 75; 65; 778; 8592; 824; 8594; 824; 8596; 824;
  8656; 824; 8660; 824; 8658; 824; 8707; 824; 8712; 824; 8715; 824; 8739; 824; 8741; 824; 8764;
  824; 8771; 824; 8773; 824; 8776; 824; 61; 824; 8801; 824; 8781; 824; 60; 824; 62; 824; 8804; 824;
  8805; 824; 8818; 824; 8819; 824; 8822; 824; 8823; 824; 8826; 824; 8827; 824; 8834; 824; 8835;
  824; 8838; 824; 8839; 824; 8866; 824; 8872; 824; 8873; 824; 8875; 824; 8828; 824; 8829; 824;
  8849; 824; 8850; 824; 8882; 824; 8883; 824; 8884; 824; 8885; 824; 12296; 12297; 10973; 824;
  12363; 12441; 12365; 12441; 12367; 12441; 12369; 12441; 12371; 12441; 12373; 12441; 12375; 12441;
  12377; 12441; 12379; 12441; 12381; 12441; 12383; 12441; 12385; 12441; 12388; 12441; 12390; 12441;
  12392; 12441; 12399; 12441; 12399; 12442; 12402; 12441; 12402; 12442; 12405; 12441; 12405; 12442;
  12408; 12441; 12408; 12442; 12411; 12441; 12411; 12442; 12358; 12441; 12445; 12441; 12459; 12441;
  12461; 12441; 12463; 12441; 12465; 12441; 12467; 12441; 12469; 12441; 12471; 12441; 12473; 12441;
  12475; 12441; 12477; 12441; 12479; 12441; 12481; 12441; 12484; 12441; 12486; 12441; 12488; 12441;
  12495; 12441; 12495; 12442; 12498; 12441; 12498; 12442; 12501; 12441; 12501; 12442; 12504; 12441;
  12504; 12442; 12507; 12441; 12507; 12442; 12454; 12441; 12527; 12441; 12528; 12441; 12529; 12441;
  12530; 12441; 12541; 12441; 35912; 26356; 36554; 36040; 28369; 20018; 21477; 40860; 40860; 22865;
  37329; 21895; 22856; 25078; 30313; 32645; 34367; 34746; 35064; 37007; 27138; 27931; 28889; 29662;
  33853; 37226; 39409; 20098; 21365; 27396; 29211; 34349; 40478; 23888; 28651; 34253; 35172; 25289;
  33240; 34847; 24266; 26391; 28010; 29436; 37070; 20358; 20919; 21214; 25796; 27347; 29200; 30439;
  32769; 34310; 34396; 36335; 38706; 39791; 40442; 30860; 31103; 32160; 33737; 37636; 40575; 35542;
  22751; 24324; 31840; 32894; 29282; 30922; 36034; 38647; 22744; 23650; 27155; 28122; 28431; 32047;
  32311; 38475; 21202; 32907; 20956; 20940; 31260; 32190; 33777; 38517; 35712; 25295; 27138; 35582;
  20025; 23527; 24594; 29575; 30064; 21271; 30971; 20415; 24489; 19981; 27852; 25976; 32034; 21443;
  22622; 30465; 33865; 35498; 27578; 36784; 27784; 25342; 33509; 25504; 30053; 20142; 20841; 20937;
  26753; 31975; 33391; 35538; 37327; 21237; 21570; 22899; 24300; 26053; 28670; 31018; 38317; 39530;
  40599; 40654; 21147; 26310; 27511; 36706; 24180; 24976; 25088; 25754; 28451; 29001; 29833; 31178;
  32244; 32879; 36646; 34030; 36899; 37706; 21015; 21155; 21693; 28872; 35010; 35498; 24265; 24565;
  25467; 27566; 31806; 29557; 20196; 22265; 23527; 23994; 24604; 29618; 29801; 32666; 32838; 37428;
  38646; 38728; 38936; 20363; 31150; 37300; 38584; 24801; 20102; 20698; 23534; 23615; 26009; 27138;
  29134; 30274; 34044; 36988; 40845; 26248; 38446; 21129; 26491; 26611; 27969; 28316; 29705; 30041;
  30827; 32016; 39006; 20845; 25134; 38520; 20523; 23833; 28138; 36650; 24459; 24900; 26647; 29575;
  38534; 21033; 21519; 23653; 26131; 26446; 26792; 27877; 29702; 30178; 32633; 35023; 35041; 37324;
  38626; 21311; 28346; 21533; 29136; 29848; 34298; 38563; 40023; 40607; 26519; 28107; 33256; 31435;
  31520; 31890; 29376; 28825; 35672; 20160; 33590; 21050; 20999; 24230; 25299; 31958; 23429; 27934;
  26292; 36667; 34892; 38477; 35211; 24275; 20800; 21952; 22618; 26228; 20958; 29482; 30410; 31036;
  31070; 31077; 31119; 38742; 31934; 32701; 34322; 35576; 36920; 37117; 39151; 39164; 39208; 40372;
  37086; 38583; 20398; 20711; 20813; 21193; 21220; 21329; 21917; 22022; 22120; 22592; 22696; 23652;
  23662; 24724; 24936; 24974; 25074; 25935; 26082; 26257; 26757; 28023; 28186; 28450; 29038; 29227;
  29730; 30865; 31038; 31049; 31048; 31056; 31062; 31069; 31117; 31118; 31296; 31361; 31680; 32244;
  32265; 32321; 32626; 32773; 33261; 33401; 33401; 33879; 35088; 35222; 35585; 35641; 36051; 36104;
  36790; 36920; 38627; 38911; 38971; 24693; 148206; 33304; 20006; 20917; 20840; 20352; 20805;
  20864; 21191; 21242; 21917; 21845; 21913; 21986; 22618; 22707; 22852; 22868; 23138; 23336; 24274;
  24281; 24425; 24493; 24792; 24910; 24840; 24974; 24928; 25074; 25140; 25540; 25628; 25682; 25942;
  26228; 26391; 26395; 26454; 27513; 27578; 27969; 28379; 28363; 28450; 28702; 29038; 30631; 29237;
  29359; 29482; 29809; 29958; 30011; 30237; 30239; 30410; 30427; 30452; 30538; 30528; 30924; 31409;
  31680; 31867; 32091; 32244; 32574; 32773; 33618; 33775; 34681; 35137; 35206; 35222; 35519; 35576;
  35531; 35585; 35582; 35565; 35641; 35722; 36104; 36664; 36978; 37273; 37494; 38524; 38627; 38742;
  38875; 38911; 38923; 38971; 39698; 40860; 141386; 141380; 144341; 15261; 16408; 16441; 152137;
  154832; 163539; 40771; 40846; 1497; 1460; 1522; 1463; 1513; 1473; 1513; 1474; 1513; 1468; 1473;
  1513; 1468; 1474; 1488; 1463; 1488; 1464; 1488; 1468; 1489; 1468; 1490; 1468; 1491; 1468; 1492;
  1468; 1493; 1468; 1494; 1468; 1496; 1468; 1497; 1468; 1498; 1468; 1499; 1468; 1500; 1468; 1502;
  1468; 1504; 1468; 1505; 1468; 1507; 1468; 1508; 1468; 1510; 1468; 1511; 1468; 1512; 1468; 1513;
  1468; 1514; 1468; 1493; 1465; 1489; 1471; 1499; 1471; 1508; 1471; 69785; 69818; 69787; 69818;
  69797; 69818; 69937; 69927; 69938; 69927; 70471; 70462; 70471; 70487; 70841; 70842; 70841; 70832;
  70841; 70845; 71096; 71087; 71097; 71087; 71989; 71984; 119127; 119141; 119128; 119141; 119128;
  119141; 119150; 119128; 119141; 119151; 119128; 119141; 119152; 119128; 119141; 119153; 119128;
  119141; 119154; 119225; 119141; 119226; 119141; 119225; 119141; 119150; 119226; 119141; 119150;
  119225; 119141; 119151; 119226; 119141; 119151; 20029; 20024; 20033; 131362; 20320; 20398; 20411;
  20482; 20602; 20633; 20711; 20687; 13470; 132666; 20813; 20820; 20836; 20855; 132380; 13497;
  20839; 20877; 132427; 20887; 20900; 20172; 20908; 20917; 168415; 20981; 20995; 13535; 21051;
  21062; 21106; 21111; 13589; 21191; 21193; 21220; 21242; 21253; 21254; 21271; 21321; 21329; 21338;
  21363; 21373; 21375; 21375; 21375; 133676; 28784; 21450; 21471; 133987; 21483; 21489; 21510;
  21662; 21560; 21576; 21608; 21666; 21750; 21776; 21843; 21859; 21892; 21892; 21913; 21931; 21939;
  21954; 22294; 22022; 22295; 22097; 22132; 20999; 22766; 22478; 22516; 22541; 22411; 22578; 22577;
  22700; 136420; 22770; 22775; 22790; 22810; 22818; 22882; 136872; 136938; 23020; 23067; 23079;
  23000; 23142; 14062; 14076; 23304; 23358; 23358; 137672; 23491; 23512; 23527; 23539; 138008;
  23551; 23558; 24403; 23586; 14209; 23648; 23662; 23744; 23693; 138724; 23875; 138726; 23918;
  23915; 23932; 24033; 24034; 14383; 24061; 24104; 24125; 24169; 14434; 139651; 14460; 24240;
  24243; 24246; 24266; 172946; 24318; 140081; 140081; 33281; 24354; 24354; 14535; 144056; 156122;
  24418; 24427; 14563; 24474; 24525; 24535; 24569; 24705; 14650; 14620; 24724; 141012; 24775;
  24904; 24908; 24910; 24908; 24954; 24974; 25010; 24996; 25007; 25054; 25074; 25078; 25104; 25115;
  25181; 25265; 25300; 25424; 142092; 25405; 25340; 25448; 25475; 25572; 142321; 25634; 25541;
  25513; 14894; 25705; 25726; 25757; 25719; 14956; 25935; 25964; 143370; 26083; 26360; 26185;
  15129; 26257; 15112; 15076; 20882; 20885; 26368; 26268; 32941; 17369; 26391; 26395; 26401; 26462;
  26451; 144323; 15177; 26618; 26501; 26706; 26757; 144493; 26766; 26655; 26900; 15261; 26946;
  27043; 27114; 27304; 145059; 27355; 15384; 27425; 145575; 27476; 15438; 27506; 27551; 27578;
  27579; 146061; 138507; 146170; 27726; 146620; 27839; 27853; 27751; 27926; 27966; 28023; 27969;
  28009; 28024; 28037; 146718; 27956; 28207; 28270; 15667; 28363; 28359; 147153; 28153; 28526;
  147294; 147342; 28614; 28729; 28702; 28699; 15766; 28746; 28797; 28791; 28845; 132389; 28997;
  148067; 29084; 148395; 29224; 29237; 29264; 149000; 29312; 29333; 149301; 149524; 29562; 29579;
  16044; 29605; 16056; 16056; 29767; 29788; 29809; 29829; 29898; 16155; 29988; 150582; 30014;
  150674; 30064; 139679; 30224; 151457; 151480; 151620; 16380; 16392; 30452; 151795; 151794;
  151833; 151859; 30494; 30495; 30495; 30538; 16441; 30603; 16454; 16534; 152605; 30798; 30860;
  30924; 16611; 153126; 31062; 153242; 153285; 31119; 31211; 16687; 31296; 31306; 31311; 153980;
  154279; 154279; 31470; 16898; 154539; 31686; 31689; 16935; 154752; 31954; 17056; 31976; 31971;
  32000; 155526; 32099; 17153; 32199; 32258; 32325; 17204; 156200; 156231; 17241; 156377; 32634;
  156478; 32661; 32762; 32773; 156890; 156963; 32864; 157096; 32880; 144223; 17365; 32946; 33027;
  17419; 33086; 23221; 157607; 157621; 144275; 144284; 33281; 33284; 36766; 17515; 33425; 33419;
  33437; 21171; 33457; 33459; 33469; 33510; 158524; 33509; 33565; 33635; 33709; 33571; 33725;
  33767; 33879; 33619; 33738; 33740; 33756; 158774; 159083; 158933; 17707; 34033; 34035; 34070;
  160714; 34148; 159532; 17757; 17761; 159665; 159954; 17771; 34384; 34396; 34407; 34409; 34473;
  34440; 34574; 34530; 34681; 34600; 34667; 34694; 17879; 34785; 34817; 17913; 34912; 34915;
  161383; 35031; 35038; 17973; 35066; 13499; 161966; 162150; 18110; 18119; 35488; 35565; 35722;
  35925; 162984; 36011; 36033; 36123; 36215; 163631; 133124; 36299; 36284; 36336; 133342; 36564;
  36664; 165330; 165357; 37012; 37105; 37137; 165678; 37147; 37432; 37591; 37592; 37500; 37881;
  37909; 166906; 38283; 18837; 38327; 167287; 18918; 38595; 23986; 38691; 168261; 168474; 19054;
  19062; 38880; 168970; 19122; 169110; 38923; 38923; 38953; 169398; 39138; 19251; 39209; 39335;
  39362; 39422; 19406; 170800; 39698; 40000; 40189; 19662; 19693; 40295; 172238; 19704; 172293;
  172558; 172689; 40635; 19798; 40697; 40702; 40709; 40719; 40726; 40763; 173568
].

Definition NFKD_INDEX : list (Z * Z * Z) := [
  (160, 0, 1); (168, 1, 2); (170, 3, 1); (175, 4, 2); (178, 6, 1); (179, 7, 1); (180, 8, 2);
  (181, 10, 1); (184, 11, 2); (185, 13, 1); (186, 14, 1); (188, 15, 3); (189, 18, 3); (190, 21, 3);
  (192, 24, 2); (193, 26, 2); (194, 28, 2); (195, 30, 2); (196, 32, 2); (197, 34, 2); (199, 36, 2);
  (200, 38, 2); (201, 40, 2); (202, 42, 2); (203, 44, 2); (204, 46, 2); (205, 48, 2); (206, 50, 2);
  (207, 52, 2); (209, 54, 2); (210, 56, 2); (211, 58, 2); (212, 60, 2); (213, 62, 2); (214, 64, 2);
  (217, 66, 2); (218, 68, 2); (219, 70, 2); (220, 72, 2); (221, 74, 2); (224, 76, 2); (225, 78, 2);
  (226, 80, 2); (227, 82, 2); (228, 84, 2); (229, 86, 2); (231, 88, 2); (232, 90, 2); (233, 92, 2);
  (234, 94, 2); (235, 96, 2); (236, 98, 2); (237, 100, 2); (238, 102, 2); (239, 104, 2);
  (241, 106, 2); (242, 108, 2); (243, 110, 2); (244, 112, 2); (245, 114, 2); (246, 116, 2);
  (249, 118, 2); (250, 120, 2); (251, 122, 2); (252, 124, 2); (253, 126, 2); (255, 128, 2);
  (256, 130, 2); (257, 132, 2); (258, 134, 2); (259, 136, 2); (260, 138, 2); (261, 140, 2);
  (262, 142, 2); (263, 144, 2); (264, 146, 2); (265, 148, 2); (266, 150, 2); (267, 152, 2);
  (268, 154, 2); (269, 156, 2); (270, 158, 2); (271, 160, 2); (274, 162, 2); (275, 164, 2);
  (276, 166, 2); (277, 168, 2); (278, 170, 2); (279, 172, 2); (280, 174, 2); (281, 176, 2);
  (282, 178, 2); (283, 180, 2); (284, 182, 2); (285, 184, 2); (286, 186, 2); (287, 188, 2);
  (288, 190, 2); (289, 192, 2); (290, 194, 2); (291, 196, 2); (292, 198, 2); (293, 200, 2);
  (296, 202, 2); (297, 204, 2); (298, 206, 2); (299, 208, 2); (300, 210, 2); (301, 212, 2);
  (302, 214, 2); (303, 216, 2); (304, 218, 2); (306, 220, 2); (307, 222, 2); (308, 224, 2);
  (309, 226, 2); (310, 228, 2); (311, 230, 2); (313, 232, 2); (314, 234, 2); (315, 236, 2);
  (316, 238, 2); (317, 240, 2); (318, 242, 2); (319, 244, 2); (320, 246, 2); (323, 248, 2);
  (324, 250, 2); (325, 252, 2); (326, 254, 2); (327, 256, 2); (328, 258, 2); (329, 260, 2);
  (332, 262, 2); (333, 264, 2); (334, 266, 2); (335, 268, 2); (336, 270, 2); (337, 272, 2);
  (340, 274, 2); (341, 276, 2); (342, 278, 2); (343, 280, 2); (344, 282, 2); (345, 284, 2);
  (346, 286, 2); (347, 288, 2); (348, 290, 2); (349, 292, 2); (350, 294, 2); (351, 296, 2);
  (352, 298, 2); (353, 300, 2); (354, 302, 2); (355, 304, 2); (356, 306, 2); (357, 308, 2);
  (360, 310, 2); (361, 312, 2); (362, 314, 2); (363, 316, 2); (364, 318, 2); (365, 320, 2);
  (366, 322, 2); (367, 324, 2); (368, 326, 2); (369, 328, 2); (370, 330, 2); (371, 332, 2);
  (372, 334, 2); (373, 336, 2); (374, 338, 2); (375, 340, 2); (376, 342, 2); (377, 344, 2);
  (378, 346, 2); (379, 348, 2); (380, 350, 2); (381, 352, 2); (382, 354, 2); (383, 356, 1);
  (416, 357, 2); (417, 359, 2); (431, 361, 2); (432, 363, 2); (452, 365, 3); (453, 368, 3);
  (454, 371, 3); (455, 374, 2); (456, 376, 2); (457, 378, 2); (458, 380, 2); (459, 382, 2);
  (460, 384, 2); (461, 386, 2); (462, 388, 2); (463, 390, 2); (464, 392, 2); (465, 394, 2);
  (466, 396, 2); (467, 398, 2); (468, 400, 2); (469, 402, 3); (470, 405, 3); (471, 408, 3);
  (472, 411, 3); (473, 414, 3); (474, 417, 3); (475, 420, 3); (476, 423, 3); (478, 426, 3);
  (479, 429, 3); (480, 432, 3); (481, 435, 3); (482, 438, 2); (483, 440, 2); (486, 442, 2);
  (487, 444, 2); (488, 446, 2); (489, 448, 2); (490, 450, 2); (491, 452, 2); (492, 454, 3);
  (493, 457, 3); (494, 460, 2); (495, 462, 2); (496, 464, 2); (497, 466, 2); (498, 468, 2);
  (499, 470, 2); (500, 472, 2); (501, 474, 2); (504, 476, 2); (505, 478, 2); (506, 480, 3);
  (507, 483, 3); (508, 486, 2); (509, 488, 2); (510, 490, 2); (511, 492, 2); (512, 494, 2);
  (513, 496, 2); (514, 498, 2); (515, 500, 2); (516, 502, 2); (517, 504, 2); (518, 506, 2);
  (519, 508, 2); (520, 510, 2); (521, 512, 2); (522, 514, 2); (523, 516, 2); (524, 518, 2);
  (525, 520, 2); (526, 522, 2); (527, 524, 2); (528, 526, 2); (529, 528, 2); (530, 530, 2);
  (531, 532, 2); (532, 534, 2); (533, 536, 2); (534, 538, 2); (535, 540, 2); (536, 542, 2);
  (537, 544, 2); (538, 546, 2); (539, 548, 2); (542, 550, 2); (543, 552, 2); (550, 554, 2);
  (551, 556, 2); (552, 558, 2); (553, 560, 2); (554, 562, 3); (555, 565, 3); (556, 568, 3);
  (557, 571, 3); (558, 574, 2); (559, 576, 2); (560, 578, 3); (561, 581, 3); (562, 584, 2);
  (563, 586, 2); (688, 588, 1); (689, 589, 1); (690, 590, 1); (691, 591, 1); (692, 592, 1);
  (693, 593, 1); (694, 594, 1); (695, 595, 1); (696, 596, 1); (728, 597, 2); (729, 599, 2);
  (730, 601, 2); (731, 603, 2); (732, 605, 2); (733, 607, 2); (736, 609, 1); (737, 610, 1);
  (738, 611, 1); (739, 612, 1); (740, 613, 1); (832, 614, 1); (833, 615, 1); (835, 616, 1);
  (836, 617, 2); (884, 619, 1); (890, 620, 2); (894, 622, 1); (900, 623, 2); (901, 625, 3);
  (902, 628, 2); (903, 630, 1); (904, 631, 2); (905, 633, 2); (906, 635, 2); (908, 637, 2);
  (910, 639, 2); (911, 641, 2); (912, 643, 3); (938, 646, 2); (939, 648, 2); (940, 650, 2);
  (941, 652, 2); (942, 654, 2); (943, 656, 2); (944, 658, 3); (970, 661, 2); (971, 663, 2);
  (972, 665, 2); (973, 667, 2); (974, 669, 2); (976, 671, 1); (977, 672, 1); (978, 673, 1);
  (979, 674, 2); (980, 676, 2); (981, 678, 1); (982, 679, 1); (1008, 680, 1); (1009, 681, 1);
  (1010, 682, 1); (1012, 683, 1); (1013, 684, 1); (1017, 685, 1); (1024, 686, 2); (1025, 688, 2);
  (1027, 690, 2); (1031, 692, 2); (1036, 694, 2); (1037, 696, 2); (1038, 698, 2); (1049, 700, 2);
  (1081, 702, 2); (1104, 704, 2); (1105, 706, 2); (1107, 708, 2); (1111, 710, 2); (1116, 712, 2);
  (1117, 714, 2); (1118, 716, 2); (1142, 718, 2); (1143, 720, 2); (1217, 722, 2); (1218, 724, 2);
  (1232, 726, 2); (1233, 728, 2); (1234, 730, 2); (1235, 732, 2); (1238, 734, 2); (1239, 736, 2);
  (1242, 738, 2); (1243, 740, 2); (1244, 742, 2); (1245, 744, 2); (1246, 746, 2); (1247, 748, 2);
  (1250, 750, 2); (1251, 752, 2); (1252, 754, 2); (1253, 756, 2); (1254, 758, 2); (1255, 760, 2);
  (1258, 762, 2); (1259, 764, 2); (1260, 766, 2); (1261, 768, 2); (1262, 770, 2); (1263, 772, 2);
  (1264, 774, 2); (1265, 776, 2); (1266, 778, 2); (1267, 780, 2); (1268, 782, 2); (1269, 784, 2);
  (1272, 786, 2); (1273, 788, 2); (1415, 790, 2); (1570, 792, 2); (1571, 794, 2); (1572, 796, 2);
  (1573, 798, 2); (1574, 800, 2); (1653, 802, 2); (1654, 804, 2); (1655, 806, 2); (1656, 808, 2);
  (1728, 810, 2); (1730, 812, 2); (1747, 814, 2); (2345, 816, 2); (2353, 818, 2); (2356, 820, 2);
  (2392, 822, 2); (2393, 824, 2); (2394, 826, 2); (2395, 828, 2); (2396, 830, 2); (2397, 832, 2);
  (2398, 834, 2); (2399, 836, 2); (2507, 838, 2); (2508, 840, 2); (2524, 842, 2); (2525, 844, 2);
  (2527, 846, 2); (2611, 848, 2); (2614, 850, 2); (2649, 852, 2); (2650, 854, 2); (2651, 856, 2);
  (2654, 858, 2); (2888, 860, 2); (2891, 862, 2); (2892, 864, 2); (2908, 866, 2); (2909, 868, 2);
  (2964, 870, 2); (3018, 872, 2); (3019, 874, 2); (3020, 876, 2); (3144, 878, 2); (3264, 880, 2);
  (3271, 882, 2); (3272, 884, 2); (3274, 886, 2); (3275, 888, 3); (3402, 891, 2); (3403, 893, 2);
  (3404, 895, 2); (3546, 897, 2); (3548, 899, 2); (3549, 901, 3); (3550, 904, 2); (3635, 906, 2);
  (3763, 908, 2); (3804, 910, 2); (3805, 912, 2); (3852, 914, 1); (3907, 915, 2); (3917, 917, 2);
  (3922, 919, 2); (3927, 921, 2); (3932, 923, 2); (3945, 925, 2); (3955, 927, 2); (3957, 929, 2);
  (3958, 931, 2); (3959, 933, 3); (3960, 936, 2); (3961, 938, 3); (3969, 941, 2); (3987, 943, 2);
  (3997, 945, 2); (4002, 947, 2); (4007, 949, 2); (4012, 951, 2); (4025, 953, 2); (4134, 955, 2);
  (4348, 957, 1); (6918, 958, 2); (6920, 960, 2); (6922, 962, 2); (6924, 964, 2); (6926, 966, 2);
  (6930, 968, 2); (6971, 970, 2); (6973, 972, 2); (6976, 974, 2); (6977, 976, 2); (6979, 978, 2);
  (7468, 980, 1); (7469, 981, 1); (7470, 982, 1); (7472, 983, 1); (7473, 984, 1); (7474, 985, 1);
  (7475, 986, 1); (7476, 987, 1); (7477, 988, 1); (7478, 989, 1); (7479, 990, 1); (7480, 991, 1);
  (7481, 992, 1); (7482, 993, 1); (7484, 994, 1); (7485, 995, 1); (7486, 996, 1); (7487, 997, 1);
  (7488, 998, 1); (7489, 999, 1); (7490, 1000, 1); (7491, 1001, 1); (7492, 1002, 1);
  (7493, 1003, 1); (7494, 1004, 1); (7495, 1005, 1); (7496, 1006, 1); (7497, 1007, 1);
  (7498, 1008, 1); (7499, 1009, 1); (7500, 1010, 1); (7501, 1011, 1); (7503, 1012, 1);
  (7504, 1013, 1); (7505, 1014, 1); (7506, 1015, 1); (7507, 1016, 1); (7508, 1017, 1);
  (7509, 1018, 1); (7510, 1019, 1); (7511, 1020, 1); (7512, 1021, 1); (7513, 1022, 1);
  (7514, 1023, 1); (7515, 1024, 1); (7516, 1025, 1); (7517, 1026, 1); (7518, 1027, 1);
  (7519, 1028, 1); (7520, 1029, 1); (7521, 1030, 1); (7522, 1031, 1); (7523, 1032, 1);
  (7524, 1033, 1); (7525, 1034, 1); (7526, 1035, 1); (7527, 1036, 1); (7528, 1037, 1);
  (7529, 1038, 1); (7530, 1039, 1); (7544, 1040, 1); (7579, 1041, 1); (7580, 1042, 1);
  (7581, 1043, 1); (7582, 1044, 1); (7583, 1045, 1); (7584, 1046, 1); (7585, 1047, 1);
  (7586, 1048, 1); (7587, 1049, 1); (7588, 1050, 1); (7589, 1051, 1); (7590, 1052, 1);
  (7591, 1053, 1); (7592, 1054, 1); (7593, 1055, 1); (7594, 1056, 1); (7595, 1057, 1);
  (7596, 1058, 1); (7597, 1059, 1); (7598, 1060, 1); (7599, 1061, 1); (7600, 1062, 1);
  (7601, 1063, 1); (7602, 1064, 1); (7603, 1065, 1); (7604, 1066, 1); (7605, 1067, 1);
  (7606, 1068, 1); (7607, 1069, 1); (7608, 1070, 1); (7609, 1071, 1); (7610, 1072, 1);
  (7611, 1073, 1); (7612, 1074, 1); (7613, 1075, 1); (7614, 1076, 1); (7615, 1077, 1);
  (7680, 1078, 2); (7681, 1080, 2); (7682, 1082, 2); (7683, 1084, 2); (7684, 1086, 2);
  (7685, 1088, 2); (7686, 1090, 2); (7687, 1092, 2); (7688, 1094, 3); (7689, 1097, 3);
  (7690, 1100, 2); (7691, 1102, 2); (7692, 1104, 2); (7693, 1106, 2); (7694, 1108, 2);
  (7695, 1110, 2); (7696, 1112, 2); (7697, 1114, 2); (7698, 1116, 2); (7699, 1118, 2);
  (7700, 1120, 3); (7701, 1123, 3); (7702, 1126, 3); (7703, 1129, 3); (7704, 1132, 2);
  (7705, 1134, 2); (7706, 1136, 2); (7707, 1138, 2); (7708, 1140, 3); (7709, 1143, 3);
  (7710, 1146, 2); (7711, 1148, 2); (7712, 1150, 2); (7713, 1152, 2); (7714, 1154, 2);
  (7715, 1156, 2); (7716, 1158, 2); (7717, 1160, 2); (7718, 1162, 2); (7719, 1164, 2);
  (7720, 1166, 2); (7721, 1168, 2); (7722, 1170, 2); (7723, 1172, 2); (7724, 1174, 2);
  (7725, 1176, 2); (7726, 1178, 3); (7727, 1181, 3); (7728, 1184, 2); (7729, 1186, 2);
  (7730, 1188, 2); (7731, 1190, 2); (7732, 1192, 2); (7733, 1194, 2); (7734, 1196, 2);
  (7735, 1198, 2); (7736, 1200, 3); (7737, 1203, 3); (7738, 1206, 2); (7739, 1208, 2);
  (7740, 1210, 2); (7741, 1212, 2); (7742, 1214, 2); (7743, 1216, 2); (7744, 1218, 2);
  (7745, 1220, 2); (7746, 1222, 2); (7747, 1224, 2); (7748, 1226, 2); (7749, 1228, 2);
  (7750, 1230, 2); (7751, 1232, 2); (7752, 1234, 2); (7753, 1236, 2); (7754, 1238, 2);
  (7755, 1240, 2); (7756, 1242, 3); (7757, 1245, 3); (7758, 1248, 3); (7759, 1251, 3);
  (7760, 1254, 3); (7761, 1257, 3); (7762, 1260, 3); (7763, 1263, 3); (7764, 1266, 2);
  (7765, 1268, 2); (7766, 1270, 2); (7767, 1272, 2); (7768, 1274, 2); (7769, 1276, 2);
  (7770, 1278, 2); (7771, 1280, 2); (7772, 1282, 3); (7773, 1285, 3); (7774, 1288, 2);
  (7775, 1290, 2); (7776, 1292, 2); (7777, 1294, 2); (7778, 1296, 2); (7779, 1298, 2);
  (7780, 1300, 3); (7781, 1303, 3); (7782, 1306, 3); (7783, 1309, 3); (7784, 1312, 3);
  (7785, 1315, 3); (7786, 1318, 2); (7787, 1320, 2); (7788, 1322, 2); (7789, 1324, 2);
  (7790, 1326, 2); (7791, 1328, 2); (7792, 1330, 2); (7793, 1332, 2); (7794, 1334, 2);
  (7795, 1336, 2); (7796, 1338, 2); (7797, 1340, 2); (7798, 1342, 2); (7799, 1344, 2);
  (7800, 1346, 3); (7801, 1349, 3); (7802, 1352, 3); (7803, 1355, 3); (7804, 1358, 2);
  (7805, 1360, 2); (7806, 1362, 2); (7807, 1364, 2); (7808, 1366, 2); (7809, 1368, 2);
  (7810, 1370, 2); (7811, 1372, 2); (7812, 1374, 2); (7813, 1376, 2); (7814, 1378, 2);
  (7815, 1380, 2); (7816, 1382, 2); (7817, 1384, 2); (7818, 1386, 2); (7819, 1388, 2);
  (7820, 1390, 2); (7821, 1392, 2); (7822, 1394, 2); (7823, 1396, 2); (7824, 1398, 2);
  (7825, 1400, 2); (7826, 1402, 2); (7827, 1404, 2); (7828, 1406, 2); (7829, 1408, 2);
  (7830, 1410, 2); (7831, 1412, 2); (7832, 1414, 2); (7833, 1416, 2); (7834, 1418, 2);
  (7835, 1420, 2); (7840, 1422, 2); (7841, 1424, 2); (7842, 1426, 2); (7843, 1428, 2);
  (7844, 1430, 3); (7845, 1433, 3); (7846, 1436, 3); (7847, 1439, 3); (7848, 1442, 3);
  (7849, 1445, 3); (7850, 1448, 3); (7851, 1451, 3); (7852, 1454, 3); (7853, 1457, 3);
  (7854, 1460, 3); (7855, 1463, 3); (7856, 1466, 3); (7857, 1469, 3); (7858, 1472, 3);
  (7859, 1475, 3); (7860, 1478, 3); (7861, 1481, 3); (7862, 1484, 3); (7863, 1487, 3);
  (7864, 1490, 2); (7865, 1492, 2); (7866, 1494, 2); (7867, 1496, 2); (7868, 1498, 2);
  (7869, 1500, 2); (7870, 1502, 3); (7871, 1505, 3); (7872, 1508, 3); (7873, 1511, 3);
  (7874, 1514, 3); (7875, 1517, 3); (7876, 1520, 3); (7877, 1523, 3); (7878, 1526, 3);
  (7879, 1529, 3); (7880, 1532, 2); (7881, 1534, 2); (7882, 1536, 2); (7883, 1538, 2);
  (7884, 1540, 2); (7885, 1542, 2); (7886, 1544, 2); (7887, 1546, 2); (7888, 1548, 3);
  (7889, 1551, 3); (7890, 1554, 3); (7891, 1557, 3); (7892, 1560, 3); (7893, 1563, 3);
  (7894, 1566, 3); (7895, 1569, 3); (7896, 1572, 3); (7897, 1575, 3); (7898, 1578, 3);
  (7899, 1581, 3); (7900, 1584, 3); (7901, 1587, 3); (7902, 1590, 3); (7903, 1593, 3);
  (7904, 1596, 3); (7905, 1599, 3); (7906, 1602, 3); (7907, 1605, 3); (7908, 1608, 2);
  (7909, 1610, 2); (7910, 1612, 2); (7911, 1614, 2); (7912, 1616, 3); (7913, 1619, 3);
  (7914, 1622, 3); (7915, 1625, 3); (7916, 1628, 3); (7917, 1631, 3); (7918, 1634, 3);
  (7919, 1637, 3); (7920, 1640, 3); (7921, 1643, 3); (7922, 1646, 2); (7923, 1648, 2);
  (7924, 1650, 2); (7925, 1652, 2); (7926, 1654, 2); (7927, 1656, 2); (7928, 1658, 2);
  (7929, 1660, 2); (7936, 1662, 2); (7937, 1664, 2); (7938, 1666, 3); (7939, 1669, 3);
  (7940, 1672, 3); (7941, 1675, 3); (7942, 1678, 3); (7943, 1681, 3); (7944, 1684, 2);
  (7945, 1686, 2); (7946, 1688, 3); (7947, 1691, 3); (7948, 1694, 3); (7949, 1697, 3);
  (7950, 1700, 3); (7951, 1703, 3); (7952, 1706, 2); (7953, 1708, 2); (7954, 1710, 3);
  (7955, 1713, 3); (7956, 1716, 3); (7957, 1719, 3); (7960, 1722, 2); (7961, 1724, 2);
  (7962, 1726, 3); (7963, 1729, 3); (7964, 1732, 3); (7965, 1735, 3); (7968, 1738, 2);
  (7969, 1740, 2); (7970, 1742, 3); (7971, 1745, 3); (7972, 1748, 3); (7973, 1751, 3);
  (7974, 1754, 3); (7975, 1757, 3); (7976, 1760, 2); (7977, 1762, 2); (7978, 1764, 3);
  (7979, 1767, 3); (7980, 1770, 3); (7981, 1773, 3); (7982, 1776, 3); (7983, 1779, 3);
  (7984, 1782, 2); (7985, 1784, 2); (7986, 1786, 3); (7987, 1789, 3); (7988, 1792, 3);
  (7989, 1795, 3); (7990, 1798, 3); (7991, 1801, 3); (7992, 1804, 2); (7993, 1806, 2);
  (7994, 1808, 3); (7995, 1811, 3); (7996, 1814, 3); (7997, 1817, 3); (7998, 1820, 3);
  (7999, 1823, 3); (8000, 1826, 2); (8001, 1828, 2); (8002, 1830, 3); (8003, 1833, 3);
  (8004, 1836, 3); (8005, 1839, 3); (8008, 1842, 2); (8009, 1844, 2); (8010, 1846, 3);
  (8011, 1849, 3); (8012, 1852, 3); (8013, 1855, 3); (8016, 1858, 2); (8017, 1860, 2);
  (8018, 1862, 3); (8019, 1865, 3); (8020, 1868, 3); (8021, 1871, 3); (8022, 1874, 3);
  (8023, 1877, 3); (8025, 1880, 2); (8027, 1882, 3); (8029, 1885, 3); (8031, 1888, 3);
  (8032, 1891, 2); (8033, 1893, 2); (8034, 1895, 3); (8035, 1898, 3); (8036, 1901, 3);
  (8037, 1904, 3); (8038, 1907, 3); (8039, 1910, 3); (8040, 1913, 2); (8041, 1915, 2);
  (8042, 1917, 3); (8043, 1920, 3); (8044, 1923, 3); (8045, 1926, 3); (8046, 1929, 3);
  (8047, 1932, 3); (8048, 1935, 2); (8049, 1937, 2); (8050, 1939, 2); (8051, 1941, 2);
  (8052, 1943, 2); (8053, 1945, 2); (8054, 1947, 2); (8055, 1949, 2); (8056, 1951, 2);
  (8057, 1953, 2); (8058, 1955, 2); (8059, 1957, 2); (8060, 1959, 2); (8061, 1961, 2);
  (8064, 1963, 3); (8065, 1966, 3); (8066, 1969, 4); (8067, 1973, 4); (8068, 1977, 4);
  (8069, 1981, 4); (8070, 1985, 4); (8071, 1989, 4); (8072, 1993, 3); (8073, 1996, 3);
  (8074, 1999, 4); (8075, 2003, 4); (8076, 2007, 4); (8077, 2011, 4); (8078, 2015, 4);
  (8079, 2019, 4); (8080, 2023, 3); (8081, 2026, 3); (8082, 2029, 4); (8083, 2033, 4);
  (8084, 2037, 4); (8085, 2041, 4); (8086, 2045, 4); (8087, 2049, 4); (8088, 2053, 3);
  (8089, 2056, 3); (8090, 2059, 4); (8091, 2063, 4); (8092, 2067, 4); (8093, 2071, 4);
  (8094, 2075, 4); (8095, 2079, 4); (8096, 2083, 3); (8097, 2086, 3); (8098, 2089, 4);
  (8099, 2093, 4); (8100, 2097, 4); (8101, 2101, 4); (8102, 2105, 4); (8103, 2109, 4);
  (8104, 2113, 3); (8105, 2116, 3); (8106, 2119, 4); (8107, 2123, 4); (8108, 2127, 4);
  (8109, 2131, 4); (8110, 2135, 4); (8111, 2139, 4); (8112, 2143, 2); (8113, 2145, 2);
  (8114, 2147, 3); (8115, 2150, 2); (8116, 2152, 3); (8118, 2155, 2); (8119, 2157, 3);
  (8120, 2160, 2); (8121, 2162, 2); (8122, 2164, 2); (8123, 2166, 2); (8124, 2168, 2);
  (8125, 2170, 2); (8126, 2172, 1); (8127, 2173, 2); (8128, 2175, 2); (8129, 2177, 3);
  (8130, 2180, 3); (8131, 2183, 2); (8132, 2185, 3); (8134, 2188, 2); (8135, 2190, 3);
  (8136, 2193, 2); (8137, 2195, 2); (8138, 2197, 2); (8139, 2199, 2); (8140, 2201, 2);
  (8141, 2203, 3); (8142, 2206, 3); (8143, 2209, 3); (8144, 2212, 2); (8145, 2214, 2);
  (8146, 2216, 3); (8147, 2219, 3); (8150, 2222, 2); (8151, 2224, 3); (8152, 2227, 2);
  (8153, 2229, 2); (8154, 2231, 2); (8155, 2233, 2); (8157, 2235, 3); (8158, 2238, 3);
  (8159, 2241, 3); (8160, 2244, 2); (8161, 2246, 2); (8162, 2248, 3); (8163, 2251, 3);
  (8164, 2254, 2); (8165, 2256, 2); (8166, 2258, 2); (8167, 2260, 3); (8168, 2263, 2);
  (8169, 2265, 2); (8170, 2267, 2); (8171, 2269, 2); (8172, 2271, 2); (8173, 2273, 3);
  (8174, 2276, 3); (8175, 2279, 1); (8178, 2280, 3); (8179, 2283, 2); (8180, 2285, 3);
  (8182, 2288, 2); (8183, 2290, 3); (8184, 2293, 2); (8185, 2295, 2); (8186, 2297, 2);
  (8187, 2299, 2); (8188, 2301, 2); (8189, 2303, 2); (8190, 2305, 2); (8192, 2307, 1);
  (8193, 2308, 1); (8194, 2309, 1); (8195, 2310, 1); (8196, 2311, 1); (8197, 2312, 1);
  (8198, 2313, 1); (8199, 2314, 1); (8200, 2315, 1); (8201, 2316, 1); (8202, 2317, 1);
  (8209, 2318, 1); (8215, 2319, 2); (8228, 2321, 1); (8229, 2322, 2); (8230, 2324, 3);
  (8239, 2327, 1); (8243, 2328, 2); (8244, 2330, 3); (8246, 2333, 2); (8247, 2335, 3);
  (8252, 2338, 2); (8254, 2340, 2); (8263, 2342, 2); (8264, 2344, 2); (8265, 2346, 2);
  (8279, 2348, 4); (8287, 2352, 1); (8304, 2353, 1); (8305, 2354, 1); (8308, 2355, 1);
  (8309, 2356, 1); (8310, 2357, 1); (8311, 2358, 1); (8312, 2359, 1); (8313, 2360, 1);
  (8314, 2361, 1); (8315, 2362, 1); (8316, 2363, 1); (8317, 2364, 1); (8318, 2365, 1);
  (8319, 2366, 1); (8320, 2367, 1); (8321, 2368, 1); (8322, 2369, 1); (8323, 2370, 1);
  (8324, 2371, 1); (8325, 2372, 1); (8326, 2373, 1); (8327, 2374, 1); (8328, 2375, 1);
  (8329, 2376, 1); (8330, 2377, 1); (8331, 2378, 1); (8332, 2379, 1); (8333, 2380, 1);
  (8334, 2381, 1); (8336, 2382, 1); (8337, 2383, 1); (8338, 2384, 1); (8339, 2385, 1);
  (8340, 2386, 1); (8341, 2387, 1); (8342, 2388, 1); (8343, 2389, 1); (8344, 2390, 1);
  (8345, 2391, 1); (8346, 2392, 1); (8347, 2393, 1); (8348, 2394, 1); (8360, 2395, 2);
  (8448, 2397, 3); (8449, 2400, 3); (8450, 2403, 1); (8451, 2404, 2); (8453, 2406, 3);
  (8454, 2409, 3); (8455, 2412, 1); (8457, 2413, 2); (8458, 2415, 1); (8459, 2416, 1);
  (8460, 2417, 1); (8461, 2418, 1); (8462, 2419, 1); (8463, 2420, 1); (8464, 2421, 1);
  (8465, 2422, 1); (8466, 2423, 1); (8467, 2424, 1); (8469, 2425, 1); (8470, 2426, 2);
  (8473, 2428, 1); (8474, 2429, 1); (8475, 2430, 1); (8476, 2431, 1); (8477, 2432, 1);
  (8480, 2433, 2); (8481, 2435, 3); (8482, 2438, 2); (8484, 2440, 1); (8486, 2441, 1);
  (8488, 2442, 1); (8490, 2443, 1); (8491, 2444, 2); (8492, 2446, 1); (8493, 2447, 1);
  (8495, 2448, 1); (8496, 2449, 1); (8497, 2450, 1); (8499, 2451, 1); (8500, 2452, 1);
  (8501, 2453, 1); (8502, 2454, 1); (8503, 2455, 1); (8504, 2456, 1); (8505, 2457, 1);
  (8507, 2458, 3); (8508, 2461, 1); (8509, 2462, 1); (8510, 2463, 1); (8511, 2464, 1);
  (8512, 2465, 1); (8517, 2466, 1); (8518, 2467, 1); (8519, 2468, 1); (8520, 2469, 1);
  (8521, 2470, 1); (8528, 2471, 3); (8529, 2474, 3); (8530, 2477, 4); (8531, 2481, 3);
  (8532, 2484, 3); (8533, 2487, 3); (8534, 2490, 3); (8535, 2493, 3); (8536, 2496, 3);
  (8537, 2499, 3); (8538, 2502, 3); (8539, 2505, 3); (8540, 2508, 3); (8541, 2511, 3);
  (8542, 2514, 3); (8543, 2517, 2); (8544, 2519, 1); (8545, 2520, 2); (8546, 2522, 3);
  (8547, 2525, 2); (8548, 2527, 1); (8549, 2528, 2); (8550, 2530, 3); (8551, 2533, 4);
  (8552, 2537, 2); (8553, 2539, 1); (8554, 2540, 2); (8555, 2542, 3); (8556, 2545, 1);
  (8557, 2546, 1); (8558, 2547, 1); (8559, 2548, 1); (8560, 2549, 1); (8561, 2550, 2);
  (8562, 2552, 3); (8563, 2555, 2); (8564, 2557, 1); (8565, 2558, 2); (8566, 2560, 3);
  (8567, 2563, 4); (8568, 2567, 2); (8569, 2569, 1); (8570, 2570, 2); (8571, 2572, 3);
  (8572, 2575, 1); (8573, 2576, 1); (8574, 2577, 1); (8575, 2578, 1); (8585, 2579, 3);
  (8602, 2582, 2); (8603, 2584, 2); (8622, 2586, 2); (8653, 2588, 2); (8654, 2590, 2);
  (8655, 2592, 2); (8708, 2594, 2); (8713, 2596, 2); (8716, 2598, 2); (8740, 2600, 2);
  (8742, 2602, 2); (8748, 2604, 2); (8749, 2606, 3); (8751, 2609, 2); (8752, 2611, 3);
  (8769, 2614, 2); (8772, 2616, 2); (8775, 2618, 2); (8777, 2620, 2); (8800, 2622, 2);
  (8802, 2624, 2); (8813, 2626, 2); (8814, 2628, 2); (8815, 2630, 2); (8816, 2632, 2);
  (8817, 2634, 2); (8820, 2636, 2); (8821, 2638, 2); (8824, 2640, 2); (8825, 2642, 2);
  (8832, 2644, 2); (8833, 2646, 2); (8836, 2648, 2); (8837, 2650, 2); (8840, 2652, 2);
  (8841, 2654, 2); (8876, 2656, 2); (8877, 2658, 2); (8878, 2660, 2); (8879, 2662, 2);
  (8928, 2664, 2); (8929, 2666, 2); (8930, 2668, 2); (8931, 2670, 2); (8938, 2672, 2);
  (8939, 2674, 2); (8940, 2676, 2); (8941, 2678, 2); (9001, 2680, 1); (9002, 2681, 1);
  (9312, 2682, 1); (9313, 2683, 1); (9314, 2684, 1); (9315, 2685, 1); (9316, 2686, 1);
  (9317, 2687, 1); (9318, 2688, 1); (9319, 2689, 1); (9320, 2690, 1); (9321, 2691, 2);
  (9322, 2693, 2); (9323, 2695, 2); (9324, 2697, 2); (9325, 2699, 2); (9326, 2701, 2);
  (9327, 2703, 2); (9328, 2705, 2); (9329, 2707, 2); (9330, 2709, 2); (9331, 2711, 2);
  (9332, 2713, 3); (9333, 2716, 3); (9334, 2719, 3); (9335, 2722, 3); (9336, 2725, 3);
  (9337, 2728, 3); (9338, 2731, 3); (9339, 2734, 3); (9340, 2737, 3); (9341, 2740, 4);
  (9342, 2744, 4); (9343, 2748, 4); (9344, 2752, 4); (9345, 2756, 4); (9346, 2760, 4);
  (9347, 2764, 4); (9348, 2768, 4); (9349, 2772, 4); (9350, 2776, 4); (9351, 2780, 4);
  (9352, 2784, 2); (9353, 2786, 2); (9354, 2788, 2); (9355, 2790, 2); (9356, 2792, 2);
  (9357, 2794, 2); (9358, 2796, 2); (9359, 2798, 2); (9360, 2800, 2); (9361, 2802, 3);
  (9362, 2805, 3); (9363, 2808, 3); (9364, 2811, 3); (9365, 2814, 3); (9366, 2817, 3);
  (9367, 2820, 3); (9368, 2823, 3); (9369, 2826, 3); (9370, 2829, 3); (9371, 2832, 3);
  (9372, 2835, 3); (9373, 2838, 3); (9374, 2841, 3); (9375, 2844, 3); (9376, 2847, 3);
  (9377, 2850, 3); (9378, 2853, 3); (9379, 2856, 3); (9380, 2859, 3); (9381, 2862, 3);
  (9382, 2865, 3); (9383, 2868, 3); (9384, 2871, 3); (9385, 2874, 3); (9386, 2877, 3);
  (9387, 2880, 3); (9388, 2883, 3); (9389, 2886, 3); (9390, 2889, 3); (9391, 2892, 3);
  (9392, 2895, 3); (9393, 2898, 3); (9394, 2901, 3); (9395, 2904, 3); (9396, 2907, 3);
  (9397, 2910, 3); (9398, 2913, 1); (9399, 2914, 1); (9400, 2915, 1); (9401, 2916, 1);
  (9402, 2917, 1); (9403, 2918, 1); (9404, 2919, 1); (9405, 2920, 1); (9406, 2921, 1);
  (9407, 2922, 1); (9408, 2923, 1); (9409, 2924, 1); (9410, 2925, 1); (9411, 2926, 1);
  (9412, 2927, 1); (9413, 2928, 1); (9414, 2929, 1); (9415, 2930, 1); (9416, 2931, 1);
  (9417, 2932, 1); (9418, 2933, 1); (9419, 2934, 1); (9420, 2935, 1); (9421, 2936, 1);
  (9422, 2937, 1); (9423, 2938, 1); (9424, 2939, 1); (9425, 2940, 1); (9426, 2941, 1);
  (9427, 2942, 1); (9428, 2943, 1); (9429, 2944, 1); (9430, 2945, 1); (9431, 2946, 1);
  (9432, 2947, 1); (9433, 2948, 1); (9434, 2949, 1); (9435, 2950, 1); (9436, 2951, 1);
  (9437, 2952, 1); (9438, 2953, 1); (9439, 2954, 1); (9440, 2955, 1); (9441, 2956, 1);
  (9442, 2957, 1); (9443, 2958, 1); (9444, 2959, 1); (9445, 2960, 1); (9446, 2961, 1);
  (9447, 2962, 1); (9448, 2963, 1); (9449, 2964, 1); (9450, 2965, 1); (10764, 2966, 4);
  (10868, 2970, 3); (10869, 2973, 2); (10870, 2975, 3); (10972, 2978, 2); (11388, 2980, 1);
  (11389, 2981, 1); (11631, 2982, 1); (11935, 2983, 1); (12019, 2984, 1); (12032, 2985, 1);
  (12033, 2986, 1); (12034, 2987, 1); (12035, 2988, 1); (12036, 2989, 1); (12037, 2990, 1);
  (12038, 2991, 1); (12039, 2992, 1); (12040, 2993, 1); (12041, 2994, 1); (12042, 2995, 1);
  (12043, 2996, 1); (12044, 2997, 1); (12045, 2998, 1); (12046, 2999, 1); (12047, 3000, 1);
  (12048, 3001, 1); (12049, 3002, 1); (12050, 3003, 1); (12051, 3004, 1); (12052, 3005, 1);
  (12053, 3006, 1); (12054, 3007, 1); (12055, 3008, 1); (12056, 3009, 1); (12057, 3010, 1);
  (12058, 3011, 1); (12059, 3012, 1); (12060, 3013, 1); (12061, 3014, 1); (12062, 3015, 1);
  (12063, 3016, 1); (12064, 3017, 1); (12065, 3018, 1); (12066, 3019, 1); (12067, 3020, 1);
  (12068, 3021, 1); (12069, 3022, 1); (12070, 3023, 1); (12071, 3024, 1); (12072, 3025, 1);
  (12073, 3026, 1); (12074, 3027, 1); (12075, 3028, 1); (12076, 3029, 1); (12077, 3030, 1);
  (12078, 3031, 1); (12079, 3032, 1); (12080, 3033, 1); (12081, 3034, 1); (12082, 3035, 1);
  (12083, 3036, 1); (12084, 3037, 1); (12085, 3038, 1); (12086, 3039, 1); (12087, 3040, 1);
  (12088, 3041, 1); (12089, 3042, 1); (12090, 3043, 1); (12091, 3044, 1); (12092, 3045, 1);
  (12093, 3046, 1); (12094, 3047, 1); (12095, 3048, 1); (12096, 3049, 1); (12097, 3050, 1);
  (12098, 3051, 1); (12099, 3052, 1); (12100, 3053, 1); (12101, 3054, 1); (12102, 3055, 1);
  (12103, 3056, 1); (12104, 3057, 1); (12105, 3058, 1); (12106, 3059, 1); (12107, 3060, 1);
  (12108, 3061, 1); (12109, 3062, 1); (12110, 3063, 1); (12111, 3064, 1); (12112, 3065, 1);
  (12113, 3066, 1); (12114, 3067, 1); (12115, 3068, 1); (12116, 3069, 1); (12117, 3070, 1);
  (12118, 3071, 1); (12119, 3072, 1); (12120, 3073, 1); (12121, 3074, 1); (12122, 3075, 1);
  (12123, 3076, 1); (12124, 3077, 1); (12125, 3078, 1); (12126, 3079, 1); (12127, 3080, 1);
  (12128, 3081, 1); (12129, 3082, 1); (12130, 3083, 1); (12131, 3084, 1); (12132, 3085, 1);
  (12133, 3086, 1); (12134, 3087, 1); (12135, 3088, 1); (12136, 3089, 1); (12137, 3090, 1);
  (12138, 3091, 1); (12139, 3092, 1); (12140, 3093, 1); (12141, 3094, 1); (12142, 3095, 1);
  (12143, 3096, 1); (12144, 3097, 1); (12145, 3098, 1); (12146, 3099, 1); (12147, 3100, 1);
  (12148, 3101, 1); (12149, 3102, 1); (12150, 3103, 1); (12151, 3104, 1); (12152, 3105, 1);
  (12153, 3106, 1); (12154, 3107, 1); (12155, 3108, 1); (12156, 3109, 1); (12157, 3110, 1);
  (12158, 3111, 1); (12159, 3112, 1); (12160, 3113, 1); (12161, 3114, 1); (12162, 3115, 1);
  (12163, 3116, 1); (12164, 3117, 1); (12165, 3118, 1); (12166, 3119, 1); (12167, 3120, 1);
  (12168, 3121, 1); (12169, 3122, 1); (12170, 3123, 1); (12171, 3124, 1); (12172, 3125, 1);
  (12173, 3126, 1); (12174, 3127, 1); (12175, 3128, 1); (12176, 3129, 1); (12177, 3130, 1);
  (12178, 3131, 1); (12179, 3132, 1); (12180, 3133, 1); (12181, 3134, 1); (12182, 3135, 1);
  (12183, 3136, 1); (12184, 3137, 1); (12185, 3138, 1); (12186, 3139, 1); (12187, 3140, 1);
  (12188, 3141, 1); (12189, 3142, 1); (12190, 3143, 1); (12191, 3144, 1); (12192, 3145, 1);
  (12193, 3146, 1); (12194, 3147, 1); (12195, 3148, 1); (12196, 3149, 1); (12197, 3150, 1);
  (12198, 3151, 1); (12199, 3152, 1); (12200, 3153, 1); (12201, 3154, 1); (12202, 3155, 1);
  (12203, 3156, 1); (12204, 3157, 1); (12205, 3158, 1); (12206, 3159, 1); (12207, 3160, 1);
  (12208, 3161, 1); (12209, 3162, 1); (12210, 3163, 1); (12211, 3164, 1); (12212, 3165, 1);
  (12213, 3166, 1); (12214, 3167, 1); (12215, 3168, 1); (12216, 3169, 1); (12217, 3170, 1);
  (12218, 3171, 1); (12219, 3172, 1); (12220, 3173, 1); (12221, 3174, 1); (12222, 3175, 1);
  (12223, 3176, 1); (12224, 3177, 1); (12225, 3178, 1); (12226, 3179, 1); (12227, 3180, 1);
  (12228, 3181, 1); (12229, 3182, 1); (12230, 3183, 1); (12231, 3184, 1); (12232, 3185, 1);
  (12233, 3186, 1); (12234, 3187, 1); (12235, 3188, 1); (12236, 3189, 1); (12237, 3190, 1);
  (12238, 3191, 1); (12239, 3192, 1); (12240, 3193, 1); (12241, 3194, 1); (12242, 3195, 1);
  (12243, 3196, 1); (12244, 3197, 1); (12245, 3198, 1); (12288, 3199, 1); (12342, 3200, 1);
  (12344, 3201, 1); (12345, 3202, 1); (12346, 3203, 1); (12364, 3204, 2); (12366, 3206, 2);
  (12368, 3208, 2); (12370, 3210, 2); (12372, 3212, 2); (12374, 3214, 2); (12376, 3216, 2);
  (12378, 3218, 2); (12380, 3220, 2); (12382, 3222, 2); (12384, 3224, 2); (12386, 3226, 2);
  (12389, 3228, 2); (12391, 3230, 2); (12393, 3232, 2); (12400, 3234, 2); (12401, 3236, 2);
  (12403, 3238, 2); (12404, 3240, 2); (12406, 3242, 2); (12407, 3244, 2); (12409, 3246, 2);
  (12410, 3248, 2); (12412, 3250, 2); (12413, 3252, 2); (12436, 3254, 2); (12443, 3256, 2);
  (12444, 3258, 2); (12446, 3260, 2); (12447, 3262, 2); (12460, 3264, 2); (12462, 3266, 2);
  (12464, 3268, 2); (12466, 3270, 2); (12468, 3272, 2); (12470, 3274, 2); (12472, 3276, 2);
  (12474, 3278, 2); (12476, 3280, 2); (12478, 3282, 2); (12480, 3284, 2); (12482, 3286, 2);
  (12485, 3288, 2); (12487, 3290, 2); (12489, 3292, 2); (12496, 3294, 2); (12497, 3296, 2);
  (12499, 3298, 2); (12500, 3300, 2); (12502, 3302, 2); (12503, 3304, 2); (12505, 3306, 2);
  (12506, 3308, 2); (12508, 3310, 2); (12509, 3312, 2); (12532, 3314, 2); (12535, 3316, 2);
  (12536, 3318, 2); (12537, 3320, 2); (12538, 3322, 2); (12542, 3324, 2); (12543, 3326, 2);
  (12593, 3328, 1); (12594, 3329, 1); (12595, 3330, 1); (12596, 3331, 1); (12597, 3332, 1);
  (12598, 3333, 1); (12599, 3334, 1); (12600, 3335, 1); (12601, 3336, 1); (12602, 3337, 1);
  (12603, 3338, 1); (12604, 3339, 1); (12605, 3340, 1); (12606, 3341, 1); (12607, 3342, 1);
  (12608, 3343, 1); (12609, 3344, 1); (12610, 3345, 1); (12611, 3346, 1); (12612, 3347, 1);
  (12613, 3348, 1); (12614, 3349, 1); (12615, 3350, 1); (12616, 3351, 1); (12617, 3352, 1);
  (12618, 3353, 1); (12619, 3354, 1); (12620, 3355, 1); (12621, 3356, 1); (12622, 3357, 1);
  (12623, 3358, 1); (12624, 3359, 1); (12625, 3360, 1); (12626, 3361, 1); (12627, 3362, 1);
  (12628, 3363, 1); (12629, 3364, 1); (12630, 3365, 1); (12631, 3366, 1); (12632, 3367, 1);
  (12633, 3368, 1); (12634, 3369, 1); (12635, 3370, 1); (12636, 3371, 1); (12637, 3372, 1);
  (12638, 3373, 1); (12639, 3374, 1); (12640, 3375, 1); (12641, 3376, 1); (12642, 3377, 1);
  (12643, 3378, 1); (12644, 3379, 1); (12645, 3380, 1); (12646, 3381, 1); (12647, 3382, 1);
  (12648, 3383, 1); (12649, 3384, 1); (12650, 3385, 1); (12651, 3386, 1); (12652, 3387, 1);
  (12653, 3388, 1); (12654, 3389, 1); (12655, 3390, 1); (12656, 3391, 1); (12657, 3392, 1);
  (12658, 3393, 1); (12659, 3394, 1); (12660, 3395, 1); (12661, 3396, 1); (12662, 3397, 1);
  (12663, 3398, 1); (12664, 3399, 1); (12665, 3400, 1); (12666, 3401, 1); (12667, 3402, 1);
  (12668, 3403, 1); (12669, 3404, 1); (12670, 3405, 1); (12671, 3406, 1); (12672, 3407, 1);
  (12673, 3408, 1); (12674, 3409, 1); (12675, 3410, 1); (12676, 3411, 1); (12677, 3412, 1);
  (12678, 3413, 1); (12679, 3414, 1); (12680, 3415, 1); (12681, 3416, 1); (12682, 3417, 1);
  (12683, 3418, 1); (12684, 3419, 1); (12685, 3420, 1); (12686, 3421, 1); (12690, 3422, 1);
  (12691, 3423, 1); (12692, 3424, 1); (12693, 3425, 1); (12694, 3426, 1); (12695, 3427, 1);
  (12696, 3428, 1); (12697, 3429, 1); (12698, 3430, 1); (12699, 3431, 1); (12700, 3432, 1);
  (12701, 3433, 1); (12702, 3434, 1); (12703, 3435, 1); (12800, 3436, 3); (12801, 3439, 3);
  (12802, 3442, 3); (12803, 3445, 3); (12804, 3448, 3); (12805, 3451, 3); (12806, 3454, 3);
  (12807, 3457, 3); (12808, 3460, 3); (12809, 3463, 3); (12810, 3466, 3); (12811, 3469, 3);
  (12812, 3472, 3); (12813, 3475, 3); (12814, 3478, 4); (12815, 3482, 4); (12816, 3486, 4);
  (12817, 3490, 4); (12818, 3494, 4); (12819, 3498, 4); (12820, 3502, 4); (12821, 3506, 4);
  (12822, 3510, 4); (12823, 3514, 4); (12824, 3518, 4); (12825, 3522, 4); (12826, 3526, 4);
  (12827, 3530, 4); (12828, 3534, 4); (12829, 3538, 7); (12830, 3545, 6); (12832, 3551, 3);
  (12833, 3554, 3); (12834, 3557, 3); (12835, 3560, 3); (12836, 3563, 3); (12837, 3566, 3);
  (12838, 3569, 3); (12839, 3572, 3); (12840, 3575, 3); (12841, 3578, 3); (12842, 3581, 3);
  (12843, 3584, 3); (12844, 3587, 3); (12845, 3590, 3); (12846, 3593, 3); (12847, 3596, 3);
  (12848, 3599, 3); (12849, 3602, 3); (12850, 3605, 3); (12851, 3608, 3); (12852, 3611, 3);
  (12853, 3614, 3); (12854, 3617, 3); (12855, 3620, 3); (12856, 3623, 3); (12857, 3626, 3);
  (12858, 3629, 3); (12859, 3632, 3); (12860, 3635, 3); (12861, 3638, 3); (12862, 3641, 3);
  (12863, 3644, 3); (12864, 3647, 3); (12865, 3650, 3); (12866, 3653, 3); (12867, 3656, 3);
  (12868, 3659, 1); (12869, 3660, 1); (12870, 3661, 1); (12871, 3662, 1); (12880, 3663, 3);
  (12881, 3666, 2); (12882, 3668, 2); (12883, 3670, 2); (12884, 3672, 2); (12885, 3674, 2);
  (12886, 3676, 2); (12887, 3678, 2); (12888, 3680, 2); (12889, 3682, 2); (12890, 3684, 2);
  (12891, 3686, 2); (12892, 3688, 2); (12893, 3690, 2); (12894, 3692, 2); (12895, 3694, 2);
  (12896, 3696, 1); (12897, 3697, 1); (12898, 3698, 1); (12899, 3699, 1); (12900, 3700, 1);
  (12901, 3701, 1); (12902, 3702, 1); (12903, 3703, 1); (12904, 3704, 1); (12905, 3705, 1);
  (12906, 3706, 1); (12907, 3707, 1); (12908, 3708, 1); (12909, 3709, 1); (12910, 3710, 2);
  (12911, 3712, 2); (12912, 3714, 2); (12913, 3716, 2); (12914, 3718, 2); (12915, 3720, 2);
  (12916, 3722, 2); (12917, 3724, 2); (12918, 3726, 2); (12919, 3728, 2); (12920, 3730, 2);
  (12921, 3732, 2); (12922, 3734, 2); (12923, 3736, 2); (12924, 3738, 5); (12925, 3743, 4);
  (12926, 3747, 2); (12928, 3749, 1); (12929, 3750, 1); (12930, 3751, 1); (12931, 3752, 1);
  (12932, 3753, 1); (12933, 3754, 1); (12934, 3755, 1); (12935, 3756, 1); (12936, 3757, 1);
  (12937, 3758, 1); (12938, 3759, 1); (12939, 3760, 1); (12940, 3761, 1); (12941, 3762, 1);
  (12942, 3763, 1); (12943, 3764, 1); (12944, 3765, 1); (12945, 3766, 1); (12946, 3767, 1);
  (12947, 3768, 1); (12948, 3769, 1); (12949, 3770, 1); (12950, 3771, 1); (12951, 3772, 1);
  (12952, 3773, 1); (12953, 3774, 1); (12954, 3775, 1); (12955, 3776, 1); (12956, 3777, 1);
  (12957, 3778, 1); (12958, 3779, 1); (12959, 3780, 1); (12960, 3781, 1); (12961, 3782, 1);
  (12962, 3783, 1); (12963, 3784, 1); (12964, 3785, 1); (12965, 3786, 1); (12966, 3787, 1);
  (12967, 3788, 1); (12968, 3789, 1); (12969, 3790, 1); (12970, 3791, 1); (12971, 3792, 1);
  (12972, 3793, 1); (12973, 3794, 1); (12974, 3795, 1); (12975, 3796, 1); (12976, 3797, 1);
  (12977, 3798, 2); (12978, 3800, 2); (12979, 3802, 2); (12980, 3804, 2); (12981, 3806, 2);
  (12982, 3808, 2); (12983, 3810, 2); (12984, 3812, 2); (12985, 3814, 2); (12986, 3816, 2);
  (12987, 3818, 2); (12988, 3820, 2); (12989, 3822, 2); (12990, 3824, 2); (12991, 3826, 2);
  (12992, 3828, 2); (12993, 3830, 2); (12994, 3832, 2); (12995, 3834, 2); (12996, 3836, 2);
  (12997, 3838, 2); (12998, 3840, 2); (12999, 3842, 2); (13000, 3844, 2); (13001, 3846, 3);
  (13002, 3849, 3); (13003, 3852, 3); (13004, 3855, 2); (13005, 3857, 3); (13006, 3860, 2);
  (13007, 3862, 3); (13008, 3865, 1); (13009, 3866, 1); (13010, 3867, 1); (13011, 3868, 1);
  (13012, 3869, 1); (13013, 3870, 1); (13014, 3871, 1); (13015, 3872, 1); (13016, 3873, 1);
  (13017, 3874, 1); (13018, 3875, 1); (13019, 3876, 1); (13020, 3877, 1); (13021, 3878, 1);
  (13022, 3879, 1); (13023, 3880, 1); (13024, 3881, 1); (13025, 3882, 1); (13026, 3883, 1);
  (13027, 3884, 1); (13028, 3885, 1); (13029, 3886, 1); (13030, 3887, 1); (13031, 3888, 1);
  (13032, 3889, 1); (13033, 3890, 1); (13034, 3891, 1); (13035, 3892, 1); (13036, 3893, 1);
  (13037, 3894, 1); (13038, 3895, 1); (13039, 3896, 1); (13040, 3897, 1); (13041, 3898, 1);
  (13042, 3899, 1); (13043, 3900, 1); (13044, 3901, 1); (13045, 3902, 1); (13046, 3903, 1);
  (13047, 3904, 1); (13048, 3905, 1); (13049, 3906, 1); (13050, 3907, 1); (13051, 3908, 1);
  (13052, 3909, 1); (13053, 3910, 1); (13054, 3911, 1); (13055, 3912, 2); (13056, 3914, 5);
  (13057, 3919, 4); (13058, 3923, 5); (13059, 3928, 3); (13060, 3931, 5); (13061, 3936, 3);
  (13062, 3939, 3); (13063, 3942, 6); (13064, 3948, 4); (13065, 3952, 3); (13066, 3955, 3);
  (13067, 3958, 3); (13068, 3961, 4); (13069, 3965, 4); (13070, 3969, 4); (13071, 3973, 4);
  (13072, 3977, 4); (13073, 3981, 4); (13074, 3985, 4); (13075, 3989, 6); (13076, 3995, 2);
  (13077, 3997, 6); (13078, 4003, 6); (13079, 4009, 5); (13080, 4014, 4); (13081, 4018, 6);
  (13082, 4024, 6); (13083, 4030, 4); (13084, 4034, 3); (13085, 4037, 3); (13086, 4040, 4);
  (13087, 4044, 4); (13088, 4048, 5); (13089, 4053, 5); (13090, 4058, 3); (13091, 4061, 3);
  (13092, 4064, 4); (13093, 4068, 3); (13094, 4071, 3); (13095, 4074, 2); (13096, 4076, 2);
  (13097, 4078, 3); (13098, 4081, 3); (13099, 4084, 6); (13100, 4090, 4); (13101, 4094, 5);
  (13102, 4099, 6); (13103, 4105, 4); (13104, 4109, 3); (13105, 4112, 3); (13106, 4115, 6);
  (13107, 4121, 4); (13108, 4125, 6); (13109, 4131, 3); (13110, 4134, 5); (13111, 4139, 3);
  (13112, 4142, 4); (13113, 4146, 3); (13114, 4149, 4); (13115, 4153, 5); (13116, 4158, 4);
  (13117, 4162, 5); (13118, 4167, 4); (13119, 4171, 2); (13120, 4173, 5); (13121, 4178, 3);
  (13122, 4181, 3); (13123, 4184, 4); (13124, 4188, 3); (13125, 4191, 3); (13126, 4194, 3);
  (13127, 4197, 5); (13128, 4202, 4); (13129, 4206, 2); (13130, 4208, 6); (13131, 4214, 3);
  (13132, 4217, 5); (13133, 4222, 4); (13134, 4226, 4); (13135, 4230, 3); (13136, 4233, 3);
  (13137, 4236, 4); (13138, 4240, 2); (13139, 4242, 4); (13140, 4246, 5); (13141, 4251, 2);
  (13142, 4253, 6); (13143, 4259, 3); (13144, 4262, 2); (13145, 4264, 2); (13146, 4266, 2);
  (13147, 4268, 2); (13148, 4270, 2); (13149, 4272, 2); (13150, 4274, 2); (13151, 4276, 2);
  (13152, 4278, 2); (13153, 4280, 2); (13154, 4282, 3); (13155, 4285, 3); (13156, 4288, 3);
  (13157, 4291, 3); (13158, 4294, 3); (13159, 4297, 3); (13160, 4300, 3); (13161, 4303, 3);
  (13162, 4306, 3); (13163, 4309, 3); (13164, 4312, 3); (13165, 4315, 3); (13166, 4318, 3);
  (13167, 4321, 3); (13168, 4324, 3); (13169, 4327, 3); (13170, 4330, 2); (13171, 4332, 2);
  (13172, 4334, 3); (13173, 4337, 2); (13174, 4339, 2); (13175, 4341, 2); (13176, 4343, 3);
  (13177, 4346, 3); (13178, 4349, 2); (13179, 4351, 2); (13180, 4353, 2); (13181, 4355, 2);
  (13182, 4357, 2); (13183, 4359, 4); (13184, 4363, 2); (13185, 4365, 2); (13186, 4367, 2);
  (13187, 4369, 2); (13188, 4371, 2); (13189, 4373, 2); (13190, 4375, 2); (13191, 4377, 2);
  (13192, 4379, 3); (13193, 4382, 4); (13194, 4386, 2); (13195, 4388, 2); (13196, 4390, 2);
  (13197, 4392, 2); (13198, 4394, 2); (13199, 4396, 2); (13200, 4398, 2); (13201, 4400, 3);
  (13202, 4403, 3); (13203, 4406, 3); (13204, 4409, 3); (13205, 4412, 2); (13206, 4414, 2);
  (13207, 4416, 2); (13208, 4418, 2); (13209, 4420, 2); (13210, 4422, 2); (13211, 4424, 2);
  (13212, 4426, 2); (13213, 4428, 2); (13214, 4430, 2); (13215, 4432, 3); (13216, 4435, 3);
  (13217, 4438, 2); (13218, 4440, 3); (13219, 4443, 3); (13220, 4446, 3); (13221, 4449, 2);
  (13222, 4451, 3); (13223, 4454, 3); (13224, 4457, 4); (13225, 4461, 2); (13226, 4463, 3);
  (13227, 4466, 3); (13228, 4469, 3); (13229, 4472, 3); (13230, 4475, 5); (13231, 4480, 6);
  (13232, 4486, 2); (13233, 4488, 2); (13234, 4490, 2); (13235, 4492, 2); (13236, 4494, 2);
  (13237, 4496, 2); (13238, 4498, 2); (13239, 4500, 2); (13240, 4502, 2); (13241, 4504, 2);
  (13242, 4506, 2); (13243, 4508, 2); (13244, 4510, 2); (13245, 4512, 2); (13246, 4514, 2);
  (13247, 4516, 2); (13248, 4518, 2); (13249, 4520, 2); (13250, 4522, 4); (13251, 4526, 2);
  (13252, 4528, 2); (13253, 4530, 2); (13254, 4532, 4); (13255, 4536, 3); (13256, 4539, 2);
  (13257, 4541, 2); (13258, 4543, 2); (13259, 4545, 2); (13260, 4547, 2); (13261, 4549, 2);
  (13262, 4551, 2); (13263, 4553, 2); (13264, 4555, 2); (13265, 4557, 2); (13266, 4559, 3);
  (13267, 4562, 2); (13268, 4564, 2); (13269, 4566, 3); (13270, 4569, 3); (13271, 4572, 2);
  (13272, 4574, 4); (13273, 4578, 3); (13274, 4581, 2); (13275, 4583, 2); (13276, 4585, 2);
  (13277, 4587, 2); (13278, 4589, 3); (13279, 4592, 3); (13280, 4595, 2); (13281, 4597, 2);
  (13282, 4599, 2); (13283, 4601, 2); (13284, 4603, 2); (13285, 4605, 2); (13286, 4607, 2);
  (13287, 4609, 2); (13288, 4611, 2); (13289, 4613, 3); (13290, 4616, 3); (13291, 4619, 3);
  (13292, 4622, 3); (13293, 4625, 3); (13294, 4628, 3); (13295, 4631, 3); (13296, 4634, 3);
  (13297, 4637, 3); (13298, 4640, 3); (13299, 4643, 3); (13300, 4646, 3); (13301, 4649, 3);
  (13302, 4652, 3); (13303, 4655, 3); (13304, 4658, 3); (13305, 4661, 3); (13306, 4664, 3);
  (13307, 4667, 3); (13308, 4670, 3); (13309, 4673, 3); (13310, 4676, 3); (13311, 4679, 3);
  (42652, 4682, 1); (42653, 4683, 1); (42864, 4684, 1); (42994, 4685, 1); (42995, 4686, 1);
  (42996, 4687, 1); (43000, 4688, 1); (43001, 4689, 1); (43868, 4690, 1); (43869, 4691, 1);
  (43870, 4692, 1); (43871, 4693, 1); (43881, 4694, 1); (63744, 4695, 1); (63745, 4696, 1);
  (63746, 4697, 1); (63747, 4698, 1); (63748, 4699, 1); (63749, 4700, 1); (63750, 4701, 1);
  (63751, 4702, 1); (63752, 4703, 1); (63753, 4704, 1); (63754, 4705, 1); (63755, 4706, 1);
  (63756, 4707, 1); (63757, 4708, 1); (63758, 4709, 1); (63759, 4710, 1); (63760, 4711, 1);
  (63761, 4712, 1); (63762, 4713, 1); (63763, 4714, 1); (63764, 4715, 1); (63765, 4716, 1);
  (63766, 4717, 1); (63767, 4718, 1); (63768, 4719, 1); (63769, 4720, 1); (63770, 4721, 1);
  (63771, 4722, 1); (63772, 4723, 1); (63773, 4724, 1); (63774, 4725, 1); (63775, 4726, 1);
  (63776, 4727, 1); (63777, 4728, 1); (63778, 4729, 1); (63779, 4730, 1); (63780, 4731, 1);
  (63781, 4732, 1); (63782, 4733, 1); (63783, 4734, 1); (63784, 4735, 1); (63785, 4736, 1);
  (63786, 4737, 1); (63787, 4738, 1); (63788, 4739, 1); (63789, 4740, 1); (63790, 4741, 1);
  (63791, 4742, 1); (63792, 4743, 1); (63793, 4744, 1); (63794, 4745, 1); (63795, 4746, 1);
  (63796, 4747, 1); (63797, 4748, 1); (63798, 4749, 1); (63799, 4750, 1); (63800, 4751, 1);
  (63801, 4752, 1); (63802, 4753, 1); (63803, 4754, 1); (63804, 4755, 1); (63805, 4756, 1);
  (63806, 4757, 1); (63807, 4758, 1); (63808, 4759, 1); (63809, 4760, 1); (63810, 4761, 1);
  (63811, 4762, 1); (63812, 4763, 1); (63813, 4764, 1); (63814, 4765, 1); (63815, 4766, 1);
  (63816, 4767, 1); (63817, 4768, 1); (63818, 4769, 1); (63819, 4770, 1); (63820, 4771, 1);
  (63821, 4772, 1); (63822, 4773, 1); (63823, 4774, 1); (63824, 4775, 1); (63825, 4776, 1);
  (63826, 4777, 1); (63827, 4778, 1); (63828, 4779, 1); (63829, 4780, 1); (63830, 4781, 1);
  (63831, 4782, 1); (63832, 4783, 1); (63833, 4784, 1); (63834, 4785, 1); (63835, 4786, 1);
  (63836, 4787, 1); (63837, 4788, 1); (63838, 4789, 1); (63839, 4790, 1); (63840, 4791, 1);
  (63841, 4792, 1); (63842, 4793, 1); (63843, 4794, 1); (63844, 4795, 1); (63845, 4796, 1);
  (63846, 4797, 1); (63847, 4798, 1); (63848, 4799, 1); (63849, 4800, 1); (63850, 4801, 1);
  (63851, 4802, 1); (63852, 4803, 1); (63853, 4804, 1); (63854, 4805, 1); (63855, 4806, 1);
  (63856, 4807, 1); (63857, 4808, 1); (63858, 4809, 1); (63859, 4810, 1); (63860, 4811, 1);
  (63861, 4812, 1); (63862, 4813, 1); (63863, 4814, 1); (63864, 4815, 1); (63865, 4816, 1);
  (63866, 4817, 1); (63867, 4818, 1); (63868, 4819, 1); (63869, 4820, 1); (63870, 4821, 1);
  (63871, 4822, 1); (63872, 4823, 1); (63873, 4824, 1); (63874, 4825, 1); (63875, 4826, 1);
  (63876, 4827, 1); (63877, 4828, 1); (63878, 4829, 1); (63879, 4830, 1); (63880, 4831, 1);
  (63881, 4832, 1); (63882, 4833, 1); (63883, 4834, 1); (63884, 4835, 1); (63885, 4836, 1);
  (63886, 4837, 1); (63887, 4838, 1); (63888, 4839, 1); (63889, 4840, 1); (63890, 4841, 1);
  (63891, 4842, 1); (63892, 4843, 1); (63893, 4844, 1); (63894, 4845, 1); (63895, 4846, 1);
  (63896, 4847, 1); (63897, 4848, 1); (63898, 4849, 1); (63899, 4850, 1); (63900, 4851, 1);
  (63901, 4852, 1); (63902, 4853, 1); (63903, 4854, 1); (63904, 4855, 1); (63905, 4856, 1);
  (63906, 4857, 1); (63907, 4858, 1); (63908, 4859, 1); (63909, 4860, 1); (63910, 4861, 1);
  (63911, 4862, 1); (63912, 4863, 1); (63913, 4864, 1); (63914, 4865, 1); (63915, 4866, 1);
  (63916, 4867, 1); (63917, 4868, 1); (63918, 4869, 1); (63919, 4870, 1); (63920, 4871, 1);
  (63921, 4872, 1); (63922, 4873, 1); (63923, 4874, 1); (63924, 4875, 1); (63925, 4876, 1);
  (63926, 4877, 1); (63927, 4878, 1); (63928, 4879, 1); (63929, 4880, 1); (63930, 4881, 1);
  (63931, 4882, 1); (63932, 4883, 1); (63933, 4884, 1); (63934, 4885, 1); (63935, 4886, 1);
  (63936, 4887, 1); (63937, 4888, 1); (63938, 4889, 1); (63939, 4890, 1); (63940, 4891, 1);
  (63941, 4892, 1); (63942, 4893, 1); (63943, 4894, 1); (63944, 4895, 1); (63945, 4896, 1);
  (63946, 4897, 1); (63947, 4898, 1); (63948, 4899, 1); (63949, 4900, 1); (63950, 4901, 1);
  (63951, 4902, 1); (63952, 4903, 1); (63953, 4904, 1); (63954, 4905, 1); (63955, 4906, 1);
  (63956, 4907, 1); (63957, 4908, 1); (63958, 4909, 1); (63959, 4910, 1); (63960, 4911, 1);
  (63961, 4912, 1); (63962, 4913, 1); (63963, 4914, 1); (63964, 4915, 1); (63965, 4916, 1);
  (63966, 4917, 1); (63967, 4918, 1); (63968, 4919, 1); (63969, 4920, 1); (63970, 4921, 1);
  (63971, 4922, 1); (63972, 4923, 1); (63973, 4924, 1); (63974, 4925, 1); (63975, 4926, 1);
  (63976, 4927, 1); (63977, 4928, 1); (63978, 4929, 1); (63979, 4930, 1); (63980, 4931, 1);
  (63981, 4932, 1); (63982, 4933, 1); (63983, 4934, 1); (63984, 4935, 1); (63985, 4936, 1);
  (63986, 4937, 1); (63987, 4938, 1); (63988, 4939, 1); (63989, 4940, 1); (63990, 4941, 1);
  (63991, 4942, 1); (63992, 4943, 1); (63993, 4944, 1); (63994, 4945, 1); (63995, 4946, 1);
  (63996, 4947, 1); (63997, 4948, 1); (63998, 4949, 1); (63999, 4950, 1); (64000, 4951, 1);
  (64001, 4952, 1); (64002, 4953, 1); (64003, 4954, 1); (64004, 4955, 1); (64005, 4956, 1);
  (64006, 4957, 1); (64007, 4958, 1); (64008, 4959, 1); (64009, 4960, 1); (64010, 4961, 1);
  (64011, 4962, 1); (64012, 4963, 1); (64013, 4964, 1); (64016, 4965, 1); (64018, 4966, 1);
  (64021, 4967, 1); (64022, 4968, 1); (64023, 4969, 1); (64024, 4970, 1); (64025, 4971, 1);
  (64026, 4972, 1); (64027, 4973, 1); (64028, 4974, 1); (64029, 4975, 1); (64030, 4976, 1);
  (64032, 4977, 1); (64034, 4978, 1); (64037, 4979, 1); (64038, 4980, 1); (64042, 4981, 1);
  (64043, 4982, 1); (64044, 4983, 1); (64045, 4984, 1); (64046, 4985, 1); (64047, 4986, 1);
  (64048, 4987, 1); (64049, 4988, 1); (64050, 4989, 1); (64051, 4990, 1); (64052, 4991, 1);
  (64053, 4992, 1); (64054, 4993, 1); (64055, 4994, 1); (64056, 4995, 1); (64057, 4996, 1);
  (64058, 4997, 1); (64059, 4998, 1); (64060, 4999, 1); (64061, 5000, 1); (64062, 5001, 1);
  (64063, 5002, 1); (64064, 5003, 1); (64065, 5004, 1); (64066, 5005, 1); (64067, 5006, 1);
  (64068, 5007, 1); (64069, 5008, 1); (64070, 5009, 1); (64071, 5010, 1); (64072, 5011, 1);
  (64073, 5012, 1); (64074, 5013, 1); (64075, 5014, 1); (64076, 5015, 1); (64077, 5016, 1);
  (64078, 5017, 1); (64079, 5018, 1); (64080, 5019, 1); (64081, 5020, 1); (64082, 5021, 1);
  (64083, 5022, 1); (64084, 5023, 1); (64085, 5024, 1); (64086, 5025, 1); (64087, 5026, 1);
  (64088, 5027, 1); (64089, 5028, 1); (64090, 5029, 1); (64091, 5030, 1); (64092, 5031, 1);
  (64093, 5032, 1); (64094, 5033, 1); (64095, 5034, 1); (64096, 5035, 1); (64097, 5036, 1);
  (64098, 5037, 1); (64099, 5038, 1); (64100, 5039, 1); (64101, 5040, 1); (64102, 5041, 1);
  (64103, 5042, 1); (64104, 5043, 1); (64105, 5044, 1); (64106, 5045, 1); (64107, 5046, 1);
  (64108, 5047, 1); (64109, 5048, 1); (64112, 5049, 1); (64113, 5050, 1); (64114, 5051, 1);
  (64115, 5052, 1); (64116, 5053, 1); (64117, 5054, 1); (64118, 5055, 1); (64119, 5056, 1);
  (64120, 5057, 1); (64121, 5058, 1); (64122, 5059, 1); (64123, 5060, 1); (64124, 5061, 1);
  (64125, 5062, 1); (64126, 5063, 1); (64127, 5064, 1); (64128, 5065, 1); (64129, 5066, 1);
  (64130, 5067, 1); (64131, 5068, 1); (64132, 5069, 1); (64133, 5070, 1); (64134, 5071, 1);
  (64135, 5072, 1); (64136, 5073, 1); (64137, 5074, 1); (64138, 5075, 1); (64139, 5076, 1);
  (64140, 5077, 1); (64141, 5078, 1); (64142, 5079, 1); (64143, 5080, 1); (64144, 5081, 1);
  (64145, 5082, 1); (64146, 5083, 1); (64147, 5084, 1); (64148, 5085, 1); (64149, 5086, 1);
  (64150, 5087, 1); (64151, 5088, 1); (64152, 5089, 1); (64153, 5090, 1); (64154, 5091, 1);
  (64155, 5092, 1); (64156, 5093, 1); (64157, 5094, 1); (64158, 5095, 1); (64159, 5096, 1);
  (64160, 5097, 1); (64161, 5098, 1); (64162, 5099, 1); (64163, 5100, 1); (64164, 5101, 1);
  (64165, 5102, 1); (64166, 5103, 1); (64167, 5104, 1); (64168, 5105, 1); (64169, 5106, 1);
  (64170, 5107, 1); (64171, 5108, 1); (64172, 5109, 1); (64173, 5110, 1); (64174, 5111, 1);
  (64175, 5112, 1); (64176, 5113, 1); (64177, 5114, 1); (64178, 5115, 1); (64179, 5116, 1);
  (64180, 5117, 1); (64181, 5118, 1); (64182, 5119, 1); (64183, 5120, 1); (64184, 5121, 1);
  (64185, 5122, 1); (64186, 5123, 1); (64187, 5124, 1); (64188, 5125, 1); (64189, 5126, 1);
  (64190, 5127, 1); (64191, 5128, 1); (64192, 5129, 1); (64193, 5130, 1); (64194, 5131, 1);
  (64195, 5132, 1); (64196, 5133, 1); (64197, 5134, 1); (64198, 5135, 1); (64199, 5136, 1);
  (64200, 5137, 1); (64201, 5138, 1); (64202, 5139, 1); (64203, 5140, 1); (64204, 5141, 1);
  (64205, 5142, 1); (64206, 5143, 1); (64207, 5144, 1); (64208, 5145, 1); (64209, 5146, 1);
  (64210, 5147, 1); (64211, 5148, 1); (64212, 5149, 1); (64213, 5150, 1); (64214, 5151, 1);
  (64215, 5152, 1); (64216, 5153, 1); (64217, 5154, 1); (64256, 5155, 2); (64257, 5157, 2);
  (64258, 5159, 2); (64259, 5161, 3); (64260, 5164, 3); (64261, 5167, 2); (64262, 5169, 2);
  (64275, 5171, 2); (64276, 5173, 2); (64277, 5175, 2); (64278, 5177, 2); (64279, 5179, 2);
  (64285, 5181, 2); (64287, 5183, 2); (64288, 5185, 1); (64289, 5186, 1); (64290, 5187, 1);
  (64291, 5188, 1); (64292, 5189, 1); (64293, 5190, 1); (64294, 5191, 1); (64295, 5192, 1);
  (64296, 5193, 1); (64297, 5194, 1); (64298, 5195, 2); (64299, 5197, 2); (64300, 5199, 3);
  (64301, 5202, 3); (64302, 5205, 2); (64303, 5207, 2); (64304, 5209, 2); (64305, 5211, 2);
  (64306, 5213, 2); (64307, 5215, 2); (64308, 5217, 2); (64309, 5219, 2); (64310, 5221, 2);
  (64312, 5223, 2); (64313, 5225, 2); (64314, 5227, 2); (64315, 5229, 2); (64316, 5231, 2);
  (64318, 5233, 2); (64320, 5235, 2); (64321, 5237, 2); (64323, 5239, 2); (64324, 5241, 2);
  (64326, 5243, 2); (64327, 5245, 2); (64328, 5247, 2); (64329, 5249, 2); (64330, 5251, 2);
  (64331, 5253, 2); (64332, 5255, 2); (64333, 5257, 2); (64334, 5259, 2); (64335, 5261, 2);
  (64336, 5263, 1); (64337, 5264, 1); (64338, 5265, 1); (64339, 5266, 1); (64340, 5267, 1);
  (64341, 5268, 1); (64342, 5269, 1); (64343, 5270, 1); (64344, 5271, 1); (64345, 5272, 1);
  (64346, 5273, 1); (64347, 5274, 1); (64348, 5275, 1); (64349, 5276, 1); (64350, 5277, 1);
  (64351, 5278, 1); (64352, 5279, 1); (64353, 5280, 1); (64354, 5281, 1); (64355, 5282, 1);
  (64356, 5283, 1); (64357, 5284, 1); (64358, 5285, 1); (64359, 5286, 1); (64360, 5287, 1);
  (64361, 5288, 1); (64362, 5289, 1); (64363, 5290, 1); (64364, 5291, 1); (64365, 5292, 1);
  (64366, 5293, 1); (64367, 5294, 1); (64368, 5295, 1); (64369, 5296, 1); (64370, 5297, 1);
  (64371, 5298, 1); (64372, 5299, 1); (64373, 5300, 1); (64374, 5301, 1); (64375, 5302, 1);
  (64376, 5303, 1); (64377, 5304, 1); (64378, 5305, 1); (64379, 5306, 1); (64380, 5307, 1);
  (64381, 5308, 1); (64382, 5309, 1); (64383, 5310, 1); (64384, 5311, 1); (64385, 5312, 1);
  (64386, 5313, 1); (64387, 5314, 1); (64388, 5315, 1); (64389, 5316, 1); (64390, 5317, 1);
  (64391, 5318, 1); (64392, 5319, 1); (64393, 5320, 1); (64394, 5321, 1); (64395, 5322, 1);
  (64396, 5323, 1); (64397, 5324, 1); (64398, 5325, 1); (64399, 5326, 1); (64400, 5327, 1);
  (64401, 5328, 1); (64402, 5329, 1); (64403, 5330, 1); (64404, 5331, 1); (64405, 5332, 1);
  (64406, 5333, 1); (64407, 5334, 1); (64408, 5335, 1); (64409, 5336, 1); (64410, 5337, 1);
  (64411, 5338, 1); (64412, 5339, 1); (64413, 5340, 1); (64414, 5341, 1); (64415, 5342, 1);
  (64416, 5343, 1); (64417, 5344, 1); (64418, 5345, 1); (64419, 5346, 1); (64420, 5347, 2);
  (64421, 5349, 2); (64422, 5351, 1); (64423, 5352, 1); (64424, 5353, 1); (64425, 5354, 1);
  (64426, 5355, 1); (64427, 5356, 1); (64428, 5357, 1); (64429, 5358, 1); (64430, 5359, 1);
  (64431, 5360, 1); (64432, 5361, 2); (64433, 5363, 2); (64467, 5365, 1); (64468, 5366, 1);
  (64469, 5367, 1); (64470, 5368, 1); (64471, 5369, 1); (64472, 5370, 1); (64473, 5371, 1);
  (64474, 5372, 1); (64475, 5373, 1); (64476, 5374, 1); (64477, 5375, 2); (64478, 5377, 1);
  (64479, 5378, 1); (64480, 5379, 1); (64481, 5380, 1); (64482, 5381, 1); (64483, 5382, 1);
  (64484, 5383, 1); (64485, 5384, 1); (64486, 5385, 1); (64487, 5386, 1); (64488, 5387, 1);
  (64489, 5388, 1); (64490, 5389, 3); (64491, 5392, 3); (64492, 5395, 3); (64493, 5398, 3);
  (64494, 5401, 3); (64495, 5404, 3); (64496, 5407, 3); (64497, 5410, 3); (64498, 5413, 3);
  (64499, 5416, 3); (64500, 5419, 3); (64501, 5422, 3); (64502, 5425, 3); (64503, 5428, 3);
  (64504, 5431, 3); (64505, 5434, 3); (64506, 5437, 3); (64507, 5440, 3); (64508, 5443, 1);
  (64509, 5444, 1); (64510, 5445, 1); (64511, 5446, 1); (64512, 5447, 3); (64513, 5450, 3);
  (64514, 5453, 3); (64515, 5456, 3); (64516, 5459, 3); (64517, 5462, 2); (64518, 5464, 2);
  (64519, 5466, 2); (64520, 5468, 2); (64521, 5470, 2); (64522, 5472, 2); (64523, 5474, 2);
  (64524, 5476, 2); (64525, 5478, 2); (64526, 5480, 2); (64527, 5482, 2); (64528, 5484, 2);
  (64529, 5486, 2); (64530, 5488, 2); (64531, 5490, 2); (64532, 5492, 2); (64533, 5494, 2);
  (64534, 5496, 2); (64535, 5498, 2); (64536, 5500, 2); (64537, 5502, 2); (64538, 5504, 2);
  (64539, 5506, 2); (64540, 5508, 2); (64541, 5510, 2); (64542, 5512, 2); (64543, 5514, 2);
  (64544, 5516, 2); (64545, 5518, 2); (64546, 5520, 2); (64547, 5522, 2); (64548, 5524, 2);
  (64549, 5526, 2); (64550, 5528, 2); (64551, 5530, 2); (64552, 5532, 2); (64553, 5534, 2);
  (64554, 5536, 2); (64555, 5538, 2); (64556, 5540, 2); (64557, 5542, 2); (64558, 5544, 2);
  (64559, 5546, 2); (64560, 5548, 2); (64561, 5550, 2); (64562, 5552, 2); (64563, 5554, 2);
  (64564, 5556, 2); (64565, 5558, 2); (64566, 5560, 2); (64567, 5562, 2); (64568, 5564, 2);
  (64569, 5566, 2); (64570, 5568, 2); (64571, 5570, 2); (64572, 5572, 2); (64573, 5574, 2);
  (64574, 5576, 2); (64575, 5578, 2); (64576, 5580, 2); (64577, 5582, 2); (64578, 5584, 2);
  (64579, 5586, 2); (64580, 5588, 2); (64581, 5590, 2); (64582, 5592, 2); (64583, 5594, 2);
  (64584, 5596, 2); (64585, 5598, 2); (64586, 5600, 2); (64587, 5602, 2); (64588, 5604, 2);
  (64589, 5606, 2); (64590, 5608, 2); (64591, 5610, 2); (64592, 5612, 2); (64593, 5614, 2);
  (64594, 5616, 2); (64595, 5618, 2); (64596, 5620, 2); (64597, 5622, 2); (64598, 5624, 2);
  (64599, 5626, 2); (64600, 5628, 2); (64601, 5630, 2); (64602, 5632, 2); (64603, 5634, 2);
  (64604, 5636, 2); (64605, 5638, 2); (64606, 5640, 3); (64607, 5643, 3); (64608, 5646, 3);
  (64609, 5649, 3); (64610, 5652, 3); (64611, 5655, 3); (64612, 5658, 3); (64613, 5661, 3);
  (64614, 5664, 3); (64615, 5667, 3); (64616, 5670, 3); (64617, 5673, 3); (64618, 5676, 2);
  (64619, 5678, 2); (64620, 5680, 2); (64621, 5682, 2); (64622, 5684, 2); (64623, 5686, 2);
  (64624, 5688, 2); (64625, 5690, 2); (64626, 5692, 2); (64627, 5694, 2); (64628, 5696, 2);
  (64629, 5698, 2); (64630, 5700, 2); (64631, 5702, 2); (64632, 5704, 2); (64633, 5706, 2);
  (64634, 5708, 2); (64635, 5710, 2); (64636, 5712, 2); (64637, 5714, 2); (64638, 5716, 2);
  (64639, 5718, 2); (64640, 5720, 2); (64641, 5722, 2); (64642, 5724, 2); (64643, 5726, 2);
  (64644, 5728, 2); (64645, 5730, 2); (64646, 5732, 2); (64647, 5734, 2); (64648, 5736, 2);
  (64649, 5738, 2); (64650, 5740, 2); (64651, 5742, 2); (64652, 5744, 2); (64653, 5746, 2);
  (64654, 5748, 2); (64655, 5750, 2); (64656, 5752, 2); (64657, 5754, 2); (64658, 5756, 2);
  (64659, 5758, 2); (64660, 5760, 2); (64661, 5762, 2); (64662, 5764, 2); (64663, 5766, 3);
  (64664, 5769, 3); (64665, 5772, 3); (64666, 5775, 3); (64667, 5778, 3); (64668, 5781, 2);
  (64669, 5783, 2); (64670, 5785, 2); (64671, 5787, 2); (64672, 5789, 2); (64673, 5791, 2);
  (64674, 5793, 2); (64675, 5795, 2); (64676, 5797, 2); (64677, 5799, 2); (64678, 5801, 2);
  (64679, 5803, 2); (64680, 5805, 2); (64681, 5807, 2); (64682, 5809, 2); (64683, 5811, 2);
  (64684, 5813, 2); (64685, 5815, 2); (64686, 5817, 2); (64687, 5819, 2); (64688, 5821, 2);
  (64689, 5823, 2); (64690, 5825, 2); (64691, 5827, 2); (64692, 5829, 2); (64693, 5831, 2);
  (64694, 5833, 2); (64695, 5835, 2); (64696, 5837, 2); (64697, 5839, 2); (64698, 5841, 2);
  (64699, 5843, 2); (64700, 5845, 2); (64701, 5847, 2); (64702, 5849, 2); (64703, 5851, 2);
  (64704, 5853, 2); (64705, 5855, 2); (64706, 5857, 2); (64707, 5859, 2); (64708, 5861, 2);
  (64709, 5863, 2); (64710, 5865, 2); (64711, 5867, 2); (64712, 5869, 2); (64713, 5871, 2);
  (64714, 5873, 2); (64715, 5875, 2); (64716, 5877, 2); (64717, 5879, 2); (64718, 5881, 2);
  (64719, 5883, 2); (64720, 5885, 2); (64721, 5887, 2); (64722, 5889, 2); (64723, 5891, 2);
  (64724, 5893, 2); (64725, 5895, 2); (64726, 5897, 2); (64727, 5899, 2); (64728, 5901, 2);
  (64729, 5903, 2); (64730, 5905, 2); (64731, 5907, 2); (64732, 5909, 2); (64733, 5911, 2);
  (64734, 5913, 2); (64735, 5915, 3); (64736, 5918, 3); (64737, 5921, 2); (64738, 5923, 2);
  (64739, 5925, 2); (64740, 5927, 2); (64741, 5929, 2); (64742, 5931, 2); (64743, 5933, 2);
  (64744, 5935, 2); (64745, 5937, 2); (64746, 5939, 2); (64747, 5941, 2); (64748, 5943, 2);
  (64749, 5945, 2); (64750, 5947, 2); (64751, 5949, 2); (64752, 5951, 2); (64753, 5953, 2);
  (64754, 5955, 3); (64755, 5958, 3); (64756, 5961, 3); (64757, 5964, 2); (64758, 5966, 2);
  (64759, 5968, 2); (64760, 5970, 2); (64761, 5972, 2); (64762, 5974, 2); (64763, 5976, 2);
  (64764, 5978, 2); (64765, 5980, 2); (64766, 5982, 2); (64767, 5984, 2); (64768, 5986, 2);
  (64769, 5988, 2); (64770, 5990, 2); (64771, 5992, 2); (64772, 5994, 2); (64773, 5996, 2);
  (64774, 5998, 2); (64775, 6000, 2); (64776, 6002, 2); (64777, 6004, 2); (64778, 6006, 2);
  (64779, 6008, 2); (64780, 6010, 2); (64781, 6012, 2); (64782, 6014, 2); (64783, 6016, 2);
  (64784, 6018, 2); (64785, 6020, 2); (64786, 6022, 2); (64787, 6024, 2); (64788, 6026, 2);
  (64789, 6028, 2); (64790, 6030, 2); (64791, 6032, 2); (64792, 6034, 2); (64793, 6036, 2);
  (64794, 6038, 2); (64795, 6040, 2); (64796, 6042, 2); (64797, 6044, 2); (64798, 6046, 2);
  (64799, 6048, 2); (64800, 6050, 2); (64801, 6052, 2); (64802, 6054, 2); (64803, 6056, 2);
  (64804, 6058, 2); (64805, 6060, 2); (64806, 6062, 2); (64807, 6064, 2); (64808, 6066, 2);
  (64809, 6068, 2); (64810, 6070, 2); (64811, 6072, 2); (64812, 6074, 2); (64813, 6076, 2);
  (64814, 6078, 2); (64815, 6080, 2); (64816, 6082, 2); (64817, 6084, 2); (64818, 6086, 2);
  (64819, 6088, 2); (64820, 6090, 2); (64821, 6092, 2); (64822, 6094, 2); (64823, 6096, 2);
  (64824, 6098, 2); (64825, 6100, 2); (64826, 6102, 2); (64827, 6104, 2); (64828, 6106, 2);
  (64829, 6108, 2); (64848, 6110, 3); (64849, 6113, 3); (64850, 6116, 3); (64851, 6119, 3);
  (64852, 6122, 3); (64853, 6125, 3); (64854, 6128, 3); (64855, 6131, 3); (64856, 6134, 3);
  (64857, 6137, 3); (64858, 6140, 3); (64859, 6143, 3); (64860, 6146, 3); (64861, 6149, 3);
  (64862, 6152, 3); (64863, 6155, 3); (64864, 6158, 3); (64865, 6161, 3); (64866, 6164, 3);
  (64867, 6167, 3); (64868, 6170, 3); (64869, 6173, 3); (64870, 6176, 3); (64871, 6179, 3);
  (64872, 6182, 3); (64873, 6185, 3); (64874, 6188, 3); (64875, 6191, 3); (64876, 6194, 3);
  (64877, 6197, 3); (64878, 6200, 3); (64879, 6203, 3); (64880, 6206, 3); (64881, 6209, 3);
  (64882, 6212, 3); (64883, 6215, 3); (64884, 6218, 3); (64885, 6221, 3); (64886, 6224, 3);
  (64887, 6227, 3); (64888, 6230, 3); (64889, 6233, 3); (64890, 6236, 3); (64891, 6239, 3);
  (64892, 6242, 3); (64893, 6245, 3); (64894, 6248, 3); (64895, 6251, 3); (64896, 6254, 3);
  (64897, 6257, 3); (64898, 6260, 3); (64899, 6263, 3); (64900, 6266, 3); (64901, 6269, 3);
  (64902, 6272, 3); (64903, 6275, 3); (64904, 6278, 3); (64905, 6281, 3); (64906, 6284, 3);
  (64907, 6287, 3); (64908, 6290, 3); (64909, 6293, 3); (64910, 6296, 3); (64911, 6299, 3);
  (64914, 6302, 3); (64915, 6305, 3); (64916, 6308, 3); (64917, 6311, 3); (64918, 6314, 3);
  (64919, 6317, 3); (64920, 6320, 3); (64921, 6323, 3); (64922, 6326, 3); (64923, 6329, 3);
  (64924, 6332, 3); (64925, 6335, 3); (64926, 6338, 3); (64927, 6341, 3); (64928, 6344, 3);
  (64929, 6347, 3); (64930, 6350, 3); (64931, 6353, 3); (64932, 6356, 3); (64933, 6359, 3);
  (64934, 6362, 3); (64935, 6365, 3); (64936, 6368, 3); (64937, 6371, 3); (64938, 6374, 3);
  (64939, 6377, 3); (64940, 6380, 3); (64941, 6383, 3); (64942, 6386, 3); (64943, 6389, 3);
  (64944, 6392, 3); (64945, 6395, 3); (64946, 6398, 3); (64947, 6401, 3); (64948, 6404, 3);
  (64949, 6407, 3); (64950, 6410, 3); (64951, 6413, 3); (64952, 6416, 3); (64953, 6419, 3);
  (64954, 6422, 3); (64955, 6425, 3); (64956, 6428, 3); (64957, 6431, 3); (64958, 6434, 3);
  (64959, 6437, 3); (64960, 6440, 3); (64961, 6443, 3); (64962, 6446, 3); (64963, 6449, 3);
  (64964, 6452, 3); (64965, 6455, 3); (64966, 6458, 3); (64967, 6461, 3); (65008, 6464, 3);
  (65009, 6467, 3); (65010, 6470, 4); (65011, 6474, 4); (65012, 6478, 4); (65013, 6482, 4);
  (65014, 6486, 4); (65015, 6490, 4); (65016, 6494, 4); (65017, 6498, 3); (65018, 6501, 18);
  (65019, 6519, 8); (65020, 6527, 4); (65040, 6531, 1); (65041, 6532, 1); (65042, 6533, 1);
  (65043, 6534, 1); (65044, 6535, 1); (65045, 6536, 1); (65046, 6537, 1); (65047, 6538, 1);
  (65048, 6539, 1); (65049, 6540, 3); (65072, 6543, 2); (65073, 6545, 1); (65074, 6546, 1);
  (65075, 6547, 1); (65076, 6548, 1); (65077, 6549, 1); (65078, 6550, 1); (65079, 6551, 1);
  (65080, 6552, 1); (65081, 6553, 1); (65082, 6554, 1); (65083, 6555, 1); (65084, 6556, 1);
  (65085, 6557, 1); (65086, 6558, 1); (65087, 6559, 1); (65088, 6560, 1); (65089, 6561, 1);
  (65090, 6562, 1); (65091, 6563, 1); (65092, 6564, 1); (65095, 6565, 1); (65096, 6566, 1);
  (65097, 6567, 2); (65098, 6569, 2); (65099, 6571, 2); (65100, 6573, 2); (65101, 6575, 1);
  (65102, 6576, 1); (65103, 6577, 1); (65104, 6578, 1); (65105, 6579, 1); (65106, 6580, 1);
  (65108, 6581, 1); (65109, 6582, 1); (65110, 6583, 1); (65111, 6584, 1); (65112, 6585, 1);
  (65113, 6586, 1); (65114, 6587, 1); (65115, 6588, 1); (65116, 6589, 1); (65117, 6590, 1);
  (65118, 6591, 1); (65119, 6592, 1); (65120, 6593, 1); (65121, 6594, 1); (65122, 6595, 1);
  (65123, 6596, 1); (65124, 6597, 1); (65125, 6598, 1); (65126, 6599, 1); (65128, 6600, 1);
  (65129, 6601, 1); (65130, 6602, 1); (65131, 6603, 1); (65136, 6604, 2); (65137, 6606, 2);
  (65138, 6608, 2); (65140, 6610, 2); (65142, 6612, 2); (65143, 6614, 2); (65144, 6616, 2);
  (65145, 6618, 2); (65146, 6620, 2); (65147, 6622, 2); (65148, 6624, 2); (65149, 6626, 2);
  (65150, 6628, 2); (65151, 6630, 2); (65152, 6632, 1); (65153, 6633, 2); (65154, 6635, 2);
  (65155, 6637, 2); (65156, 6639, 2); (65157, 6641, 2); (65158, 6643, 2); (65159, 6645, 2);
  (65160, 6647, 2); (65161, 6649, 2); (65162, 6651, 2); (65163, 6653, 2); (65164, 6655, 2);
  (65165, 6657, 1); (65166, 6658, 1); (65167, 6659, 1); (65168, 6660, 1); (65169, 6661, 1);
  (65170, 6662, 1); (65171, 6663, 1); (65172, 6664, 1); (65173, 6665, 1); (65174, 6666, 1);
  (65175, 6667, 1); (65176, 6668, 1); (65177, 6669, 1); (65178, 6670, 1); (65179, 6671, 1);
  (65180, 6672, 1); (65181, 6673, 1); (65182, 6674, 1); (65183, 6675, 1); (65184, 6676, 1);
  (65185, 6677, 1); (65186, 6678, 1); (65187, 6679, 1); (65188, 6680, 1); (65189, 6681, 1);
  (65190, 6682, 1); (65191, 6683, 1); (65192, 6684, 1); (65193, 6685, 1); (65194, 6686, 1);
  (65195, 6687, 1); (65196, 6688, 1); (65197, 6689, 1); (65198, 6690, 1); (65199, 6691, 1);
  (65200, 6692, 1); (65201, 6693, 1); (65202, 6694, 1); (65203, 6695, 1); (65204, 6696, 1);
  (65205, 6697, 1); (65206, 6698, 1); (65207, 6699, 1); (65208, 6700, 1); (65209, 6701, 1);
  (65210, 6702, 1); (65211, 6703, 1); (65212, 6704, 1); (65213, 6705, 1); (65214, 6706, 1);
  (65215, 6707, 1); (65216, 6708, 1); (65217, 6709, 1); (65218, 6710, 1); (65219, 6711, 1);
  (65220, 6712, 1); (65221, 6713, 1); (65222, 6714, 1); (65223, 6715, 1); (65224, 6716, 1);
  (65225, 6717, 1); (65226, 6718, 1); (65227, 6719, 1); (65228, 6720, 1); (65229, 6721, 1);
  (65230, 6722, 1); (65231, 6723, 1); (65232, 6724, 1); (65233, 6725, 1); (65234, 6726, 1);
  (65235, 6727, 1); (65236, 6728, 1); (65237, 6729, 1); (65238, 6730, 1); (65239, 6731, 1);
  (65240, 6732, 1); (65241, 6733, 1); (65242, 6734, 1); (65243, 6735, 1); (65244, 6736, 1);
  (65245, 6737, 1); (65246, 6738, 1); (65247, 6739, 1); (65248, 6740, 1); (65249, 6741, 1);
  (65250, 6742, 1); (65251, 6743, 1); (65252, 6744, 1); (65253, 6745, 1); (65254, 6746, 1);
  (65255, 6747, 1); (65256, 6748, 1); (65257, 6749, 1); (65258, 6750, 1); (65259, 6751, 1);
  (65260, 6752, 1); (65261, 6753, 1); (65262, 6754, 1); (65263, 6755, 1); (65264, 6756, 1);
  (65265, 6757, 1); (65266, 6758, 1); (65267, 6759, 1); (65268, 6760, 1); (65269, 6761, 3);
  (65270, 6764, 3); (65271, 6767, 3); (65272, 6770, 3); (65273, 6773, 3); (65274, 6776, 3);
  (65275, 6779, 2); (65276, 6781, 2); (65281, 6783, 1); (65282, 6784, 1); (65283, 6785, 1);
  (65284, 6786, 1); (65285, 6787, 1); (65286, 6788, 1); (65287, 6789, 1); (65288, 6790, 1);
  (65289, 6791, 1); (65290, 6792, 1); (65291, 6793, 1); (65292, 6794, 1); (65293, 6795, 1);
  (65294, 6796, 1); (65295, 6797, 1); (65296, 6798, 1); (65297, 6799, 1); (65298, 6800, 1);
  (65299, 6801, 1); (65300, 6802, 1); (65301, 6803, 1); (65302, 6804, 1); (65303, 6805, 1);
  (65304, 6806, 1); (65305, 6807, 1); (65306, 6808, 1); (65307, 6809, 1); (65308, 6810, 1);
  (65309, 6811, 1); (65310, 6812, 1); (65311, 6813, 1); (65312, 6814, 1); (65313, 6815, 1);
  (65314, 6816, 1); (65315, 6817, 1); (65316, 6818, 1); (65317, 6819, 1); (65318, 6820, 1);
  (65319, 6821, 1); (65320, 6822, 1); (65321, 6823, 1); (65322, 6824, 1); (65323, 6825, 1);
  (65324, 6826, 1); (65325, 6827, 1); (65326, 6828, 1); (65327, 6829, 1); (65328, 6830, 1);
  (65329, 6831, 1); (65330, 6832, 1); (65331, 6833, 1); (65332, 6834, 1); (65333, 6835, 1);
  (65334, 6836, 1); (65335, 6837, 1); (65336, 6838, 1); (65337, 6839, 1); (65338, 6840, 1);
  (65339, 6841, 1); (65340, 6842, 1); (65341, 6843, 1); (65342, 6844, 1); (65343, 6845, 1);
  (65344, 6846, 1); (65345, 6847, 1); (65346, 6848, 1); (65347, 6849, 1); (65348, 6850, 1);
  (65349, 6851, 1); (65350, 6852, 1); (65351, 6853, 1); (65352, 6854, 1); (65353, 6855, 1);
  (65354, 6856, 1); (65355, 6857, 1); (65356, 6858, 1); (65357, 6859, 1); (65358, 6860, 1);
  (65359, 6861, 1); (65360, 6862, 1); (65361, 6863, 1); (65362, 6864, 1); (65363, 6865, 1);
  (65364, 6866, 1); (65365, 6867, 1); (65366, 6868, 1); (65367, 6869, 1); (65368, 6870, 1);
  (65369, 6871, 1); (65370, 6872, 1); (65371, 6873, 1); (65372, 6874, 1); (65373, 6875, 1);
  (65374, 6876, 1); (65375, 6877, 1); (65376, 6878, 1); (65377, 6879, 1); (65378, 6880, 1);
  (65379, 6881, 1); (65380, 6882, 1); (65381, 6883, 1); (65382, 6884, 1); (65383, 6885, 1);
  (65384, 6886, 1); (65385, 6887, 1); (65386, 6888, 1); (65387, 6889, 1); (65388, 6890, 1);
  (65389, 6891, 1); (65390, 6892, 1); (65391, 6893, 1); (65392, 6894, 1); (65393, 6895, 1);
  (65394, 6896, 1); (65395, 6897, 1); (65396, 6898, 1); (65397, 6899, 1); (65398, 6900, 1);
  (65399, 6901, 1); (65400, 6902, 1); (65401, 6903, 1); (65402, 6904, 1); (65403, 6905, 1);
  (65404, 6906, 1); (65405, 6907, 1); (65406, 6908, 1); (65407, 6909, 1); (65408, 6910, 1);
  (65409, 6911, 1); (65410, 6912, 1); (65411, 6913, 1); (65412, 6914, 1); (65413, 6915, 1);
  (65414, 6916, 1); (65415, 6917, 1); (65416, 6918, 1); (65417, 6919, 1); (65418, 6920, 1);
  (65419, 6921, 1); (65420, 6922, 1); (65421, 6923, 1); (65422, 6924, 1); (65423, 6925, 1);
  (65424, 6926, 1); (65425, 6927, 1); (65426, 6928, 1); (65427, 6929, 1); (65428, 6930, 1);
  (65429, 6931, 1); (65430, 6932, 1); (65431, 6933, 1); (65432, 6934, 1); (65433, 6935, 1);
  (65434, 6936, 1); (65435, 6937, 1); (65436, 6938, 1); (65437, 6939, 1); (65438, 6940, 1);
  (65439, 6941, 1); (65440, 6942, 1); (65441, 6943, 1); (65442, 6944, 1); (65443, 6945, 1);
  (65444, 6946, 1); (65445, 6947, 1); (65446, 6948, 1); (65447, 6949, 1); (65448, 6950, 1);
  (65449, 6951, 1); (65450, 6952, 1); (65451, 6953, 1); (65452, 6954, 1); (65453, 6955, 1);
  (65454, 6956, 1); (65455, 6957, 1); (65456, 6958, 1); (65457, 6959, 1); (65458, 6960, 1);
  (65459, 6961, 1); (65460, 6962, 1); (65461, 6963, 1); (65462, 6964, 1); (65463, 6965, 1);
  (65464, 6966, 1); (65465, 6967, 1); (65466, 6968, 1); (65467, 6969, 1); (65468, 6970, 1);
  (65469, 6971, 1); (65470, 6972, 1); (65474, 6973, 1); (65475, 6974, 1); (65476, 6975, 1);
  (65477, 6976, 1); (65478, 6977, 1); (65479, 6978, 1); (65482, 6979, 1); (65483, 6980, 1);
  (65484, 6981, 1); (65485, 6982, 1); (65486, 6983, 1); (65487, 6984, 1); (65490, 6985, 1);
  (65491, 6986, 1); (65492, 6987, 1); (65493, 6988, 1); (65494, 6989, 1); (65495, 6990, 1);
  (65498, 6991, 1); (65499, 6992, 1); (65500, 6993, 1); (65504, 6994, 1); (65505, 6995, 1);
  (65506, 6996, 1); (65507, 6997, 2); (65508, 6999, 1); (65509, 7000, 1); (65510, 7001, 1);
  (65512, 7002, 1); (65513, 7003, 1); (65514, 7004, 1); (65515, 7005, 1); (65516, 7006, 1);
  (65517, 7007, 1); (65518, 7008, 1); (67457, 7009, 1); (67458, 7010, 1); (67459, 7011, 1);
  (67460, 7012, 1); (67461, 7013, 1); (67463, 7014, 1); (67464, 7015, 1); (67465, 7016, 1);
  (67466, 7017, 1); (67467, 7018, 1); (67468, 7019, 1); (67469, 7020, 1); (67470, 7021, 1);
  (67471, 7022, 1); (67472, 7023, 1); (67473, 7024, 1); (67474, 7025, 1); (67475, 7026, 1);
  (67476, 7027, 1); (67477, 7028, 1); (67478, 7029, 1); (67479, 7030, 1); (67480, 7031, 1);
  (67481, 7032, 1); (67482, 7033, 1); (67483, 7034, 1); (67484, 7035, 1); (67485, 7036, 1);
  (67486, 7037, 1); (67487, 7038, 1); (67488, 7039, 1); (67489, 7040, 1); (67490, 7041, 1);
  (67491, 7042, 1); (67492, 7043, 1); (67493, 7044, 1); (67494, 7045, 1); (67495, 7046, 1);
  (67496, 7047, 1); (67497, 7048, 1); (67498, 7049, 1); (67499, 7050, 1); (67500, 7051, 1);
  (67501, 7052, 1); (67502, 7053, 1); (67503, 7054, 1); (67504, 7055, 1); (67506, 7056, 1);
  (67507, 7057, 1); (67508, 7058, 1); (67509, 7059, 1); (67510, 7060, 1); (67511, 7061, 1);
  (67512, 7062, 1); (67513, 7063, 1); (67514, 7064, 1); (69786, 7065, 2); (69788, 7067, 2);
  (69803, 7069, 2); (69934, 7071, 2); (69935, 7073, 2); (70475, 7075, 2); (70476, 7077, 2);
  (70843, 7079, 2); (70844, 7081, 2); (70846, 7083, 2); (71098, 7085, 2); (71099, 7087, 2);
  (71992, 7089, 2); (119134, 7091, 2); (119135, 7093, 2); (119136, 7095, 3); (119137, 7098, 3);
  (119138, 7101, 3); (119139, 7104, 3); (119140, 7107, 3); (119227, 7110, 2); (119228, 7112, 2);
  (119229, 7114, 3); (119230, 7117, 3); (119231, 7120, 3); (119232, 7123, 3); (119808, 7126, 1);
  (119809, 7127, 1); (119810, 7128, 1); (119811, 7129, 1); (119812, 7130, 1); (119813, 7131, 1);
  (119814, 7132, 1); (119815, 7133, 1); (119816, 7134, 1); (119817, 7135, 1); (119818, 7136, 1);
  (119819, 7137, 1); (119820, 7138, 1); (119821, 7139, 1); (119822, 7140, 1); (119823, 7141, 1);
  (119824, 7142, 1); (119825, 7143, 1); (119826, 7144, 1); (119827, 7145, 1); (119828, 7146, 1);
  (119829, 7147, 1); (119830, 7148, 1); (119831, 7149, 1); (119832, 7150, 1); (119833, 7151, 1);
  (119834, 7152, 1); (119835, 7153, 1); (119836, 7154, 1); (119837, 7155, 1); (119838, 7156, 1);
  (119839, 7157, 1); (119840, 7158, 1); (119841, 7159, 1); (119842, 7160, 1); (119843, 7161, 1);
  (119844, 7162, 1); (119845, 7163, 1); (119846, 7164, 1); (119847, 7165, 1); (119848, 7166, 1);
  (119849, 7167, 1); (119850, 7168, 1); (119851, 7169, 1); (119852, 7170, 1); (119853, 7171, 1);
  (119854, 7172, 1); (119855, 7173, 1); (119856, 7174, 1); (119857, 7175, 1); (119858, 7176, 1);
  (119859, 7177, 1); (119860, 7178, 1); (119861, 7179, 1); (119862, 7180, 1); (119863, 7181, 1);
  (119864, 7182, 1); (119865, 7183, 1); (119866, 7184, 1); (119867, 7185, 1); (119868, 7186, 1);
  (119869, 7187, 1); (119870, 7188, 1); (119871, 7189, 1); (119872, 7190, 1); (119873, 7191, 1);
  (119874, 7192, 1); (119875, 7193, 1); (119876, 7194, 1); (119877, 7195, 1); (119878, 7196, 1);
  (119879, 7197, 1); (119880, 7198, 1); (119881, 7199, 1); (119882, 7200, 1); (119883, 7201, 1);
  (119884, 7202, 1); (119885, 7203, 1); (119886, 7204, 1); (119887, 7205, 1); (119888, 7206, 1);
  (119889, 7207, 1); (119890, 7208, 1); (119891, 7209, 1); (119892, 7210, 1); (119894, 7211, 1);
  (119895, 7212, 1); (119896, 7213, 1); (119897, 7214, 1); (119898, 7215, 1); (119899, 7216, 1);
  (119900, 7217, 1); (119901, 7218, 1); (119902, 7219, 1); (119903, 7220, 1); (119904, 7221, 1);
  (119905, 7222, 1); (119906, 7223, 1); (119907, 7224, 1); (119908, 7225, 1); (119909, 7226, 1);
  (119910, 7227, 1); (119911, 7228, 1); (119912, 7229, 1); (119913, 7230, 1); (119914, 7231, 1);
  (119915, 7232, 1); (119916, 7233, 1); (119917, 7234, 1); (119918, 7235, 1); (119919, 7236, 1);
  (119920, 7237, 1); (119921, 7238, 1); (119922, 7239, 1); (119923, 7240, 1); (119924, 7241, 1);
  (119925, 7242, 1); (119926, 7243, 1); (119927, 7244, 1); (119928, 7245, 1); (119929, 7246, 1);
  (119930, 7247, 1); (119931, 7248, 1); (119932, 7249, 1); (119933, 7250, 1); (119934, 7251, 1);
  (119935, 7252, 1); (119936, 7253, 1); (119937, 7254, 1); (119938, 7255, 1); (119939, 7256, 1);
  (119940, 7257, 1); (119941, 7258, 1); (119942, 7259, 1); (119943, 7260, 1); (119944, 7261, 1);
  (119945, 7262, 1); (119946, 7263, 1); (119947, 7264, 1); (119948, 7265, 1); (119949, 7266, 1);
  (119950, 7267, 1); (119951, 7268, 1); (119952, 7269, 1); (119953, 7270, 1); (119954, 7271, 1);
  (119955, 7272, 1); (119956, 7273, 1); (119957, 7274, 1); (119958, 7275, 1); (119959, 7276, 1);
  (119960, 7277, 1); (119961, 7278, 1); (119962, 7279, 1); (119963, 7280, 1); (119964, 7281, 1);
  (119966, 7282, 1); (119967, 7283, 1); (119970, 7284, 1); (119973, 7285, 1); (119974, 7286, 1);
  (119977, 7287, 1); (119978, 7288, 1); (119979, 7289, 1); (119980, 7290, 1); (119982, 7291, 1);
  (119983, 7292, 1); (119984, 7293, 1); (119985, 7294, 1); (119986, 7295, 1); (119987, 7296, 1);
  (119988, 7297, 1); (119989, 7298, 1); (119990, 7299, 1); (119991, 7300, 1); (119992, 7301, 1);
  (119993, 7302, 1); (119995, 7303, 1); (119997, 7304, 1); (119998, 7305, 1); (119999, 7306, 1);
  (120000, 7307, 1); (120001, 7308, 1); (120002, 7309, 1); (120003, 7310, 1); (120005, 7311, 1);
  (120006, 7312, 1); (120007, 7313, 1); (120008, 7314, 1); (120009, 7315, 1); (120010, 7316, 1);
  (120011, 7317, 1); (120012, 7318, 1); (120013, 7319, 1); (120014, 7320, 1); (120015, 7321, 1);
  (120016, 7322, 1); (120017, 7323, 1); (120018, 7324, 1); (120019, 7325, 1); (120020, 7326, 1);
  (120021, 7327, 1); (120022, 7328, 1); (120023, 7329, 1); (120024, 7330, 1); (120025, 7331, 1);
  (120026, 7332, 1); (120027, 7333, 1); (120028, 7334, 1); (120029, 7335, 1); (120030, 7336, 1);
  (120031, 7337, 1); (120032, 7338, 1); (120033, 7339, 1); (120034, 7340, 1); (120035, 7341, 1);
  (120036, 7342, 1); (120037, 7343, 1); (120038, 7344, 1); (120039, 7345, 1); (120040, 7346, 1);
  (120041, 7347, 1); (120042, 7348, 1); (120043, 7349, 1); (120044, 7350, 1); (120045, 7351, 1);
  (120046, 7352, 1); (120047, 7353, 1); (120048, 7354, 1); (120049, 7355, 1); (120050, 7356, 1);
  (120051, 7357, 1); (120052, 7358, 1); (120053, 7359, 1); (120054, 7360, 1); (120055, 7361, 1);
  (120056, 7362, 1); (120057, 7363, 1); (120058, 7364, 1); (120059, 7365, 1); (120060, 7366, 1);
  (120061, 7367, 1); (120062, 7368, 1); (120063, 7369, 1); (120064, 7370, 1); (120065, 7371, 1);
  (120066, 7372, 1); (120067, 7373, 1); (120068, 7374, 1); (120069, 7375, 1); (120071, 7376, 1);
  (120072, 7377, 1); (120073, 7378, 1); (120074, 7379, 1); (120077, 7380, 1); (120078, 7381, 1);
  (120079, 7382, 1); (120080, 7383, 1); (120081, 7384, 1); (120082, 7385, 1); (120083, 7386, 1);
  (120084, 7387, 1); (120086, 7388, 1); (120087, 7389, 1); (120088, 7390, 1); (120089, 7391, 1);
  (120090, 7392, 1); (120091, 7393, 1); (120092, 7394, 1); (120094, 7395, 1); (120095, 7396, 1);
  (120096, 7397, 1); (120097, 7398, 1); (120098, 7399, 1); (120099, 7400, 1); (120100, 7401, 1);
  (120101, 7402, 1); (120102, 7403, 1); (120103, 7404, 1); (120104, 7405, 1); (120105, 7406, 1);
  (120106, 7407, 1); (120107, 7408, 1); (120108, 7409, 1); (120109, 7410, 1); (120110, 7411, 1);
  (120111, 7412, 1); (120112, 7413, 1); (120113, 7414, 1); (120114, 7415, 1); (120115, 7416, 1);
  (120116, 7417, 1); (120117, 7418, 1); (120118, 7419, 1); (120119, 7420, 1); (120120, 7421, 1);
  (120121, 7422, 1); (120123, 7423, 1); (120124, 7424, 1); (120125, 7425, 1); (120126, 7426, 1);
  (120128, 7427, 1); (120129, 7428, 1); (120130, 7429, 1); (120131, 7430, 1); (120132, 7431, 1);
  (120134, 7432, 1); (120138, 7433, 1); (120139, 7434, 1); (120140, 7435, 1); (120141, 7436, 1);
  (120142, 7437, 1); (120143, 7438, 1); (120144, 7439, 1); (120146, 7440, 1); (120147, 7441, 1);
  (120148, 7442, 1); (120149, 7443, 1); (120150, 7444, 1); (120151, 7445, 1); (120152, 7446, 1);
  (120153, 7447, 1); (120154, 7448, 1); (120155, 7449, 1); (120156, 7450, 1); (120157, 7451, 1);
  (120158, 7452, 1); (120159, 7453, 1); (120160, 7454, 1); (120161, 7455, 1); (120162, 7456, 1);
  (120163, 7457, 1); (120164, 7458, 1); (120165, 7459, 1); (120166, 7460, 1); (120167, 7461, 1);
  (120168, 7462, 1); (120169, 7463, 1); (120170, 7464, 1); (120171, 7465, 1); (120172, 7466, 1);
  (120173, 7467, 1); (120174, 7468, 1); (120175, 7469, 1); (120176, 7470, 1); (120177, 7471, 1);
  (120178, 7472, 1); (120179, 7473, 1); (120180, 7474, 1); (120181, 7475, 1); (120182, 7476, 1);
  (120183, 7477, 1); (120184, 7478, 1); (120185, 7479, 1); (120186, 7480, 1); (120187, 7481, 1);
  (120188, 7482, 1); (120189, 7483, 1); (120190, 7484, 1); (120191, 7485, 1); (120192, 7486, 1);
  (120193, 7487, 1); (120194, 7488, 1); (120195, 7489, 1); (120196, 7490, 1); (120197, 7491, 1);
  (120198, 7492, 1); (120199, 7493, 1); (120200, 7494, 1); (120201, 7495, 1); (120202, 7496, 1);
  (120203, 7497, 1); (120204, 7498, 1); (120205, 7499, 1); (120206, 7500, 1); (120207, 7501, 1);
  (120208, 7502, 1); (120209, 7503, 1); (120210, 7504, 1); (120211, 7505, 1); (120212, 7506, 1);
  (120213, 7507, 1); (120214, 7508, 1); (120215, 7509, 1); (120216, 7510, 1); (120217, 7511, 1);
  (120218, 7512, 1); (120219, 7513, 1); (120220, 7514, 1); (120221, 7515, 1); (120222, 7516, 1);
  (120223, 7517, 1); (120224, 7518, 1); (120225, 7519, 1); (120226, 7520, 1); (120227, 7521, 1);
  (120228, 7522, 1); (120229, 7523, 1); (120230, 7524, 1); (120231, 7525, 1); (120232, 7526, 1);
  (120233, 7527, 1); (120234, 7528, 1); (120235, 7529, 1); (120236, 7530, 1); (120237, 7531, 1);
  (120238, 7532, 1); (120239, 7533, 1); (120240, 7534, 1); (120241, 7535, 1); (120242, 7536, 1);
  (120243, 7537, 1); (120244, 7538, 1); (120245, 7539, 1); (120246, 7540, 1); (120247, 7541, 1);
  (120248, 7542, 1); (120249, 7543, 1); (120250, 7544, 1); (120251, 7545, 1); (120252, 7546, 1);
  (120253, 7547, 1); (120254, 7548, 1); (120255, 7549, 1); (120256, 7550, 1); (120257, 7551, 1);
  (120258, 7552, 1); (120259, 7553, 1); (120260, 7554, 1); (120261, 7555, 1); (120262, 7556, 1);
  (120263, 7557, 1); (120264, 7558, 1); (120265, 7559, 1); (120266, 7560, 1); (120267, 7561, 1);
  (120268, 7562, 1); (120269, 7563, 1); (120270, 7564, 1); (120271, 7565, 1); (120272, 7566, 1);
  (120273, 7567, 1); (120274, 7568, 1); (120275, 7569, 1); (120276, 7570, 1); (120277, 7571, 1);
  (120278, 7572, 1); (120279, 7573, 1); (120280, 7574, 1); (120281, 7575, 1); (120282, 7576, 1);
  (120283, 7577, 1); (120284, 7578, 1); (120285, 7579, 1); (120286, 7580, 1); (120287, 7581, 1);
  (120288, 7582, 1); (120289, 7583, 1); (120290, 7584, 1); (120291, 7585, 1); (120292, 7586, 1);
  (120293, 7587, 1); (120294, 7588, 1); (120295, 7589, 1); (120296, 7590, 1); (120297, 7591, 1);
  (120298, 7592, 1); (120299, 7593, 1); (120300, 7594, 1); (120301, 7595, 1); (120302, 7596, 1);
  (120303, 7597, 1); (120304, 7598, 1); (120305, 7599, 1); (120306, 7600, 1); (120307, 7601, 1);
  (120308, 7602, 1); (120309, 7603, 1); (120310, 7604, 1); (120311, 7605, 1); (120312, 7606, 1);
  (120313, 7607, 1); (120314, 7608, 1); (120315, 7609, 1); (120316, 7610, 1); (120317, 7611, 1);
  (120318, 7612, 1); (120319, 7613, 1); (120320, 7614, 1); (120321, 7615, 1); (120322, 7616, 1);
  (120323, 7617, 1); (120324, 7618, 1); (120325, 7619, 1); (120326, 7620, 1); (120327, 7621, 1);
  (120328, 7622, 1); (120329, 7623, 1); (120330, 7624, 1); (120331, 7625, 1); (120332, 7626, 1);
  (120333, 7627, 1); (120334, 7628, 1); (120335, 7629, 1); (120336, 7630, 1); (120337, 7631, 1);
  (120338, 7632, 1); (120339, 7633, 1); (120340, 7634, 1); (120341, 7635, 1); (120342, 7636, 1);
  (120343, 7637, 1); (120344, 7638, 1); (120345, 7639, 1); (120346, 7640, 1); (120347, 7641, 1);
  (120348, 7642, 1); (120349, 7643, 1); (120350, 7644, 1); (120351, 7645, 1); (120352, 7646, 1);
  (120353, 7647, 1); (120354, 7648, 1); (120355, 7649, 1); (120356, 7650, 1); (120357, 7651, 1);
  (120358, 7652, 1); (120359, 7653, 1); (120360, 7654, 1); (120361, 7655, 1); (120362, 7656, 1);
  (120363, 7657, 1); (120364, 7658, 1); (120365, 7659, 1); (120366, 7660, 1); (120367, 7661, 1);
  (120368, 7662, 1); (120369, 7663, 1); (120370, 7664, 1); (120371, 7665, 1); (120372, 7666, 1);
  (120373, 7667, 1); (120374, 7668, 1); (120375, 7669, 1); (120376, 7670, 1); (120377, 7671, 1);
  (120378, 7672, 1); (120379, 7673, 1); (120380, 7674, 1); (120381, 7675, 1); (120382, 7676, 1);
  (120383, 7677, 1); (120384, 7678, 1); (120385, 7679, 1); (120386, 7680, 1); (120387, 7681, 1);
  (120388, 7682, 1); (120389, 7683, 1); (120390, 7684, 1); (120391, 7685, 1); (120392, 7686, 1);
  (120393, 7687, 1); (120394, 7688, 1); (120395, 7689, 1); (120396, 7690, 1); (120397, 7691, 1);
  (120398, 7692, 1); (120399, 7693, 1); (120400, 7694, 1); (120401, 7695, 1); (120402, 7696, 1);
  (120403, 7697, 1); (120404, 7698, 1); (120405, 7699, 1); (120406, 7700, 1); (120407, 7701, 1);
  (120408, 7702, 1); (120409, 7703, 1); (120410, 7704, 1); (120411, 7705, 1); (120412, 7706, 1);
  (120413, 7707, 1); (120414, 7708, 1); (120415, 7709, 1); (120416, 7710, 1); (120417, 7711, 1);
  (120418, 7712, 1); (120419, 7713, 1); (120420, 7714, 1); (120421, 7715, 1); (120422, 7716, 1);
  (120423, 7717, 1); (120424, 7718, 1); (120425, 7719, 1); (120426, 7720, 1); (120427, 7721, 1);
  (120428, 7722, 1); (120429, 7723, 1); (120430, 7724, 1); (120431, 7725, 1); (120432, 7726, 1);
  (120433, 7727, 1); (120434, 7728, 1); (120435, 7729, 1); (120436, 7730, 1); (120437, 7731, 1);
  (120438, 7732, 1); (120439, 7733, 1); (120440, 7734, 1); (120441, 7735, 1); (120442, 7736, 1);
  (120443, 7737, 1); (120444, 7738, 1); (120445, 7739, 1); (120446, 7740, 1); (120447, 7741, 1);
  (120448, 7742, 1); (120449, 7743, 1); (120450, 7744, 1); (120451, 7745, 1); (120452, 7746, 1);
  (120453, 7747, 1); (120454, 7748, 1); (120455, 7749, 1); (120456, 7750, 1); (120457, 7751, 1);
  (120458, 7752, 1); (120459, 7753, 1); (120460, 7754, 1); (120461, 7755, 1); (120462, 7756, 1);
  (120463, 7757, 1); (120464, 7758, 1); (120465, 7759, 1); (120466, 7760, 1); (120467, 7761, 1);
  (120468, 7762, 1); (120469, 7763, 1); (120470, 7764, 1); (120471, 7765, 1); (120472, 7766, 1);
  (120473, 7767, 1); (120474, 7768, 1); (120475, 7769, 1); (120476, 7770, 1); (120477, 7771, 1);
  (120478, 7772, 1); (120479, 7773, 1); (120480, 7774, 1); (120481, 7775, 1); (120482, 7776, 1);
  (120483, 7777, 1); (120484, 7778, 1); (120485, 7779, 1); (120488, 7780, 1); (120489, 7781, 1);
  (120490, 7782, 1); (120491, 7783, 1); (120492, 7784, 1); (120493, 7785, 1); (120494, 7786, 1);
  (120495, 7787, 1); (120496, 7788, 1); (120497, 7789, 1); (120498, 7790, 1); (120499, 7791, 1);
  (120500, 7792, 1); (120501, 7793, 1); (120502, 7794, 1); (120503, 7795, 1); (120504, 7796, 1);
  (120505, 7797, 1); (120506, 7798, 1); (120507, 7799, 1); (120508, 7800, 1); (120509, 7801, 1);
  (120510, 7802, 1); (120511, 7803, 1); (120512, 7804, 1); (120513, 7805, 1); (120514, 7806, 1);
  (120515, 7807, 1); (120516, 7808, 1); (120517, 7809, 1); (120518, 7810, 1); (120519, 7811, 1);
  (120520, 7812, 1); (120521, 7813, 1); (120522, 7814, 1); (120523, 7815, 1); (120524, 7816, 1);
  (120525, 7817, 1); (120526, 7818, 1); (120527, 7819, 1); (120528, 7820, 1); (120529, 7821, 1);
  (120530, 7822, 1); (120531, 7823, 1); (120532, 7824, 1); (120533, 7825, 1); (120534, 7826, 1);
  (120535, 7827, 1); (120536, 7828, 1); (120537, 7829, 1); (120538, 7830, 1); (120539, 7831, 1);
  (120540, 7832, 1); (120541, 7833, 1); (120542, 7834, 1); (120543, 7835, 1); (120544, 7836, 1);
  (120545, 7837, 1); (120546, 7838, 1); (120547, 7839, 1); (120548, 7840, 1); (120549, 7841, 1);
  (120550, 7842, 1); (120551, 7843, 1); (120552, 7844, 1); (120553, 7845, 1); (120554, 7846, 1);
  (120555, 7847, 1); (120556, 7848, 1); (120557, 7849, 1); (120558, 7850, 1); (120559, 7851, 1);
  (120560, 7852, 1); (120561, 7853, 1); (120562, 7854, 1); (120563, 7855, 1); (120564, 7856, 1);
  (120565, 7857, 1); (120566, 7858, 1); (120567, 7859, 1); (120568, 7860, 1); (120569, 7861, 1);
  (120570, 7862, 1); (120571, 7863, 1); (120572, 7864, 1); (120573, 7865, 1); (120574, 7866, 1);
  (120575, 7867, 1); (120576, 7868, 1); (120577, 7869, 1); (120578, 7870, 1); (120579, 7871, 1);
  (120580, 7872, 1); (120581, 7873, 1); (120582, 7874, 1); (120583, 7875, 1); (120584, 7876, 1);
  (120585, 7877, 1); (120586, 7878, 1); (120587, 7879, 1); (120588, 7880, 1); (120589, 7881, 1);
  (120590, 7882, 1); (120591, 7883, 1); (120592, 7884, 1); (120593, 7885, 1); (120594, 7886, 1);
  (120595, 7887, 1); (120596, 7888, 1); (120597, 7889, 1); (120598, 7890, 1); (120599, 7891, 1);
  (120600, 7892, 1); (120601, 7893, 1); (120602, 7894, 1); (120603, 7895, 1); (120604, 7896, 1);
  (120605, 7897, 1); (120606, 7898, 1); (120607, 7899, 1); (120608, 7900, 1); (120609, 7901, 1);
  (120610, 7902, 1); (120611, 7903, 1); (120612, 7904, 1); (120613, 7905, 1); (120614, 7906, 1);
  (120615, 7907, 1); (120616, 7908, 1); (120617, 7909, 1); (120618, 7910, 1); (120619, 7911, 1);
  (120620, 7912, 1); (120621, 7913, 1); (120622, 7914, 1); (120623, 7915, 1); (120624, 7916, 1);
  (120625, 7917, 1); (120626, 7918, 1); (120627, 7919, 1); (120628, 7920, 1); (120629, 7921, 1);
  (120630, 7922, 1); (120631, 7923, 1); (120632, 7924, 1); (120633, 7925, 1); (120634, 7926, 1);
  (120635, 7927, 1); (120636, 7928, 1); (120637, 7929, 1); (120638, 7930, 1); (120639, 7931, 1);
  (120640, 7932, 1); (120641, 7933, 1); (120642, 7934, 1); (120643, 7935, 1); (120644, 7936, 1);
  (120645, 7937, 1); (120646, 7938, 1); (120647, 7939, 1); (120648, 7940, 1); (120649, 7941, 1);
  (120650, 7942, 1); (120651, 7943, 1); (120652, 7944, 1); (120653, 7945, 1); (120654, 7946, 1);
  (120655, 7947, 1); (120656, 7948, 1); (120657, 7949, 1); (120658, 7950, 1); (120659, 7951, 1);
  (120660, 7952, 1); (120661, 7953, 1); (120662, 7954, 1); (120663, 7955, 1); (120664, 7956, 1);
  (120665, 7957, 1); (120666, 7958, 1); (120667, 7959, 1); (120668, 7960, 1); (120669, 7961, 1);
  (120670, 7962, 1); (120671, 7963, 1); (120672, 7964, 1); (120673, 7965, 1); (120674, 7966, 1);
  (120675, 7967, 1); (120676, 7968, 1); (120677, 7969, 1); (120678, 7970, 1); (120679, 7971, 1);
  (120680, 7972, 1); (120681, 7973, 1); (120682, 7974, 1); (120683, 7975, 1); (120684, 7976, 1);
  (120685, 7977, 1); (120686, 7978, 1); (120687, 7979, 1); (120688, 7980, 1); (120689, 7981, 1);
  (120690, 7982, 1); (120691, 7983, 1); (120692, 7984, 1); (120693, 7985, 1); (120694, 7986, 1);
  (120695, 7987, 1); (120696, 7988, 1); (120697, 7989, 1); (120698, 7990, 1); (120699, 7991, 1);
  (120700, 7992, 1); (120701, 7993, 1); (120702, 7994, 1); (120703, 7995, 1); (120704, 7996, 1);
  (120705, 7997, 1); (120706, 7998, 1); (120707, 7999, 1); (120708, 8000, 1); (120709, 8001, 1);
  (120710, 8002, 1); (120711, 8003, 1); (120712, 8004, 1); (120713, 8005, 1); (120714, 8006, 1);
  (120715, 8007, 1); (120716, 8008, 1); (120717, 8009, 1); (120718, 8010, 1); (120719, 8011, 1);
  (120720, 8012, 1); (120721, 8013, 1); (120722, 8014, 1); (120723, 8015, 1); (120724, 8016, 1);
  (120725, 8017, 1); (120726, 8018, 1); (120727, 8019, 1); (120728, 8020, 1); (120729, 8021, 1);
  (120730, 8022, 1); (120731, 8023, 1); (120732, 8024, 1); (120733, 8025, 1); (120734, 8026, 1);
  (120735, 8027, 1); (120736, 8028, 1); (120737, 8029, 1); (120738, 8030, 1); (120739, 8031, 1);
  (120740, 8032, 1); (120741, 8033, 1); (120742, 8034, 1); (120743, 8035, 1); (120744, 8036, 1);
  (120745, 8037, 1); (120746, 8038, 1); (120747, 8039, 1); (120748, 8040, 1); (120749, 8041, 1);
  (120750, 8042, 1); (120751, 8043, 1); (120752, 8044, 1); (120753, 8045, 1); (120754, 8046, 1);
  (120755, 8047, 1); (120756, 8048, 1); (120757, 8049, 1); (120758, 8050, 1); (120759, 8051, 1);
  (120760, 8052, 1); (120761, 8053, 1); (120762, 8054, 1); (120763, 8055, 1); (120764, 8056, 1);
  (120765, 8057, 1); (120766, 8058, 1); (120767, 8059, 1); (120768, 8060, 1); (120769, 8061, 1);
  (120770, 8062, 1); (120771, 8063, 1); (120772, 8064, 1); (120773, 8065, 1); (120774, 8066, 1);
  (120775, 8067, 1); (120776, 8068, 1); (120777, 8069, 1); (120778, 8070, 1); (120779, 8071, 1);
  (120782, 8072, 1); (120783, 8073, 1); (120784, 8074, 1); (120785, 8075, 1); (120786, 8076, 1);
  (120787, 8077, 1); (120788, 8078, 1); (120789, 8079, 1); (120790, 8080, 1); (120791, 8081, 1);
  (120792, 8082, 1); (120793, 8083, 1); (120794, 8084, 1); (120795, 8085, 1); (120796, 8086, 1);
  (120797, 8087, 1); (120798, 8088, 1); (120799, 8089, 1); (120800, 8090, 1); (120801, 8091, 1);
  (120802, 8092, 1); (120803, 8093, 1); (120804, 8094, 1); (120805, 8095, 1); (120806, 8096, 1);
  (120807, 8097, 1); (120808, 8098, 1); (120809, 8099, 1); (120810, 8100, 1); (120811, 8101, 1);
  (120812, 8102, 1); (120813, 8103, 1); (120814, 8104, 1); (120815, 8105, 1); (120816, 8106, 1);
  (120817, 8107, 1); (120818, 8108, 1); (120819, 8109, 1); (120820, 8110, 1); (120821, 8111, 1);
  (120822, 8112, 1); (120823, 8113, 1); (120824, 8114, 1); (120825, 8115, 1); (120826, 8116, 1);
  (120827, 8117, 1); (120828, 8118, 1); (120829, 8119, 1); (120830, 8120, 1); (120831, 8121, 1);
  (126464, 8122, 1); (126465, 8123, 1); (126466, 8124, 1); (126467, 8125, 1); (126469, 8126, 1);
  (126470, 8127, 1); (126471, 8128, 1); (126472, 8129, 1); (126473, 8130, 1); (126474, 8131, 1);
  (126475, 8132, 1); (126476, 8133, 1); (126477, 8134, 1); (126478, 8135, 1); (126479, 8136, 1);
  (126480, 8137, 1); (126481, 8138, 1); (126482, 8139, 1); (126483, 8140, 1); (126484, 8141, 1);
  (126485, 8142, 1); (126486, 8143, 1); (126487, 8144, 1); (126488, 8145, 1); (126489, 8146, 1);
  (126490, 8147, 1); (126491, 8148, 1); (126492, 8149, 1); (126493, 8150, 1); (126494, 8151, 1);
  (126495, 8152, 1); (126497, 8153, 1); (126498, 8154, 1); (126500, 8155, 1); (126503, 8156, 1);
  (126505, 8157, 1); (126506, 8158, 1); (126507, 8159, 1); (126508, 8160, 1); (126509, 8161, 1);
  (126510, 8162, 1); (126511, 8163, 1); (126512, 8164, 1); (126513, 8165, 1); (126514, 8166, 1);
  (126516, 8167, 1); (126517, 8168, 1); (126518, 8169, 1); (126519, 8170, 1); (126521, 8171, 1);
  (126523, 8172, 1); (126530, 8173, 1); (126535, 8174, 1); (126537, 8175, 1); (126539, 8176, 1);
  (126541, 8177, 1); (126542, 8178, 1); (126543, 8179, 1); (126545, 8180, 1); (126546, 8181, 1);
  (126548, 8182, 1); (126551, 8183, 1); (126553, 8184, 1); (126555, 8185, 1); (126557, 8186, 1);
  (126559, 8187, 1); (126561, 8188, 1); (126562, 8189, 1); (126564, 8190, 1); (126567, 8191, 1);
  (126568, 8192, 1); (126569, 8193, 1); (126570, 8194, 1); (126572, 8195, 1); (126573, 8196, 1);
  (126574, 8197, 1); (126575, 8198, 1); (126576, 8199, 1); (126577, 8200, 1); (126578, 8201, 1);
  (126580, 8202, 1); (126581, 8203, 1); (126582, 8204, 1); (126583, 8205, 1); (126585, 8206, 1);
  (126586, 8207, 1); (126587, 8208, 1); (126588, 8209, 1); (126590, 8210, 1); (126592, 8211, 1);
  (126593, 8212, 1); (126594, 8213, 1); (126595, 8214, 1); (126596, 8215, 1); (126597, 8216, 1);
  (126598, 8217, 1); (126599, 8218, 1); (126600, 8219, 1); (126601, 8220, 1); (126603, 8221, 1);
  (126604, 8222, 1); (126605, 8223, 1); (126606, 8224, 1); (126607, 8225, 1); (126608, 8226, 1);
  (126609, 8227, 1); (126610, 8228, 1); (126611, 8229, 1); (126612, 8230, 1); (126613, 8231, 1);
  (126614, 8232, 1); (126615, 8233, 1); (126616, 8234, 1); (126617, 8235, 1); (126618, 8236, 1);
  (126619, 8237, 1); (126625, 8238, 1); (126626, 8239, 1); (126627, 8240, 1); (126629, 8241, 1);
  (126630, 8242, 1); (126631, 8243, 1); (126632, 8244, 1); (126633, 8245, 1); (126635, 8246, 1);
  (126636, 8247, 1); (126637, 8248, 1); (126638, 8249, 1); (126639, 8250, 1); (126640, 8251, 1);
  (126641, 8252, 1); (126642, 8253, 1); (126643, 8254, 1); (126644, 8255, 1); (126645, 8256, 1);
  (126646, 8257, 1); (126647, 8258, 1); (126648, 8259, 1); (126649, 8260, 1); (126650, 8261, 1);
  (126651, 8262, 1); (127232, 8263, 2); (127233, 8265, 2); (127234, 8267, 2); (127235, 8269, 2);
  (127236, 8271, 2); (127237, 8273, 2); (127238, 8275, 2); (127239, 8277, 2); (127240, 8279, 2);
  (127241, 8281, 2); (127242, 8283, 2); (127248, 8285, 3); (127249, 8288, 3); (127250, 8291, 3);
  (127251, 8294, 3); (127252, 8297, 3); (127253, 8300, 3); (127254, 8303, 3); (127255, 8306, 3);
  (127256, 8309, 3); (127257, 8312, 3); (127258, 8315, 3); (127259, 8318, 3); (127260, 8321, 3);
  (127261, 8324, 3); (127262, 8327, 3); (127263, 8330, 3); (127264, 8333, 3); (127265, 8336, 3);
  (127266, 8339, 3); (127267, 8342, 3); (127268, 8345, 3); (127269, 8348, 3); (127270, 8351, 3);
  (127271, 8354, 3); (127272, 8357, 3); (127273, 8360, 3); (127274, 8363, 3); (127275, 8366, 1);
  (127276, 8367, 1); (127277, 8368, 2); (127278, 8370, 2); (127280, 8372, 1); (127281, 8373, 1);
  (127282, 8374, 1); (127283, 8375, 1); (127284, 8376, 1); (127285, 8377, 1); (127286, 8378, 1);
  (127287, 8379, 1); (127288, 8380, 1); (127289, 8381, 1); (127290, 8382, 1); (127291, 8383, 1);
  (127292, 8384, 1); (127293, 8385, 1); (127294, 8386, 1); (127295, 8387, 1); (127296, 8388, 1);
  (127297, 8389, 1); (127298, 8390, 1); (127299, 8391, 1); (127300, 8392, 1); (127301, 8393, 1);
  (127302, 8394, 1); (127303, 8395, 1); (127304, 8396, 1); (127305, 8397, 1); (127306, 8398, 2);
  (127307, 8400, 2); (127308, 8402, 2); (127309, 8404, 2); (127310, 8406, 3); (127311, 8409, 2);
  (127338, 8411, 2); (127339, 8413, 2); (127340, 8415, 2); (127376, 8417, 2); (127488, 8419, 2);
  (127489, 8421, 2); (127490, 8423, 1); (127504, 8424, 1); (127505, 8425, 1); (127506, 8426, 1);
  (127507, 8427, 2); (127508, 8429, 1); (127509, 8430, 1); (127510, 8431, 1); (127511, 8432, 1);
  (127512, 8433, 1); (127513, 8434, 1); (127514, 8435, 1); (127515, 8436, 1); (127516, 8437, 1);
  (127517, 8438, 1); (127518, 8439, 1); (127519, 8440, 1); (127520, 8441, 1); (127521, 8442, 1);
  (127522, 8443, 1); (127523, 8444, 1); (127524, 8445, 1); (127525, 8446, 1); (127526, 8447, 1);
  (127527, 8448, 1); (127528, 8449, 1); (127529, 8450, 1); (127530, 8451, 1); (127531, 8452, 1);
  (127532, 8453, 1); (127533, 8454, 1); (127534, 8455, 1); (127535, 8456, 1); (127536, 8457, 1);
  (127537, 8458, 1); (127538, 8459, 1); (127539, 8460, 1); (127540, 8461, 1); (127541, 8462, 1);
  (127542, 8463, 1); (127543, 8464, 1); (127544, 8465, 1); (127545, 8466, 1); (127546, 8467, 1);
  (127547, 8468, 1); (127552, 8469, 3); (127553, 8472, 3); (127554, 8475, 3); (127555, 8478, 3);
  (127556, 8481, 3); (127557, 8484, 3); (127558, 8487, 3); (127559, 8490, 3); (127560, 8493, 3);
  (127568, 8496, 1); (127569, 8497, 1); (130032, 8498, 1); (130033, 8499, 1); (130034, 8500, 1);
  (130035, 8501, 1); (130036, 8502, 1); (130037, 8503, 1); (130038, 8504, 1); (130039, 8505, 1);
  (130040, 8506, 1); (130041, 8507, 1); (194560, 8508, 1); (194561, 8509, 1); (194562, 8510, 1);
  (194563, 8511, 1); (194564, 8512, 1); (194565, 8513, 1); (194566, 8514, 1); (194567, 8515, 1);
  (194568, 8516, 1); (194569, 8517, 1); (194570, 8518, 1); (194571, 8519, 1); (194572, 8520, 1);
  (194573, 8521, 1); (194574, 8522, 1); (194575, 8523, 1); (194576, 8524, 1); (194577, 8525, 1);
  (194578, 8526, 1); (194579, 8527, 1); (194580, 8528, 1); (194581, 8529, 1); (194582, 8530, 1);
  (194583, 8531, 1); (194584, 8532, 1); (194585, 8533, 1); (194586, 8534, 1); (194587, 8535, 1);
  (194588, 8536, 1); (194589, 8537, 1); (194590, 8538, 1); (194591, 8539, 1); (194592, 8540, 1);
  (194593, 8541, 1); (194594, 8542, 1); (194595, 8543, 1); (194596, 8544, 1); (194597, 8545, 1);
  (194598, 8546, 1); (194599, 8547, 1); (194600, 8548, 1); (194601, 8549, 1); (194602, 8550, 1);
  (194603, 8551, 1); (194604, 8552, 1); (194605, 8553, 1); (194606, 8554, 1); (194607, 8555, 1);
  (194608, 8556, 1); (194609, 8557, 1); (194610, 8558, 1); (194611, 8559, 1); (194612, 8560, 1);
  (194613, 8561, 1); (194614, 8562, 1); (194615, 8563, 1); (194616, 8564, 1); (194617, 8565, 1);
  (194618, 8566, 1); (194619, 8567, 1); (194620, 8568, 1); (194621, 8569, 1); (194622, 8570, 1);
  (194623, 8571, 1); (194624, 8572, 1); (194625, 8573, 1); (194626, 8574, 1); (194627, 8575, 1);
  (194628, 8576, 1); (194629, 8577, 1); (194630, 8578, 1); (194631, 8579, 1); (194632, 8580, 1);
  (194633, 8581, 1); (194634, 8582, 1); (194635, 8583, 1); (194636, 8584, 1); (194637, 8585, 1);
  (194638, 8586, 1); (194639, 8587, 1); (194640, 8588, 1); (194641, 8589, 1); (194642, 8590, 1);
  (194643, 8591, 1); (194644, 8592, 1); (194645, 8593, 1); (194646, 8594, 1); (194647, 8595, 1);
  (194648, 8596, 1); (194649, 8597, 1); (194650, 8598, 1); (194651, 8599, 1); (194652, 8600, 1);
  (194653, 8601, 1); (194654, 8602, 1); (194655, 8603, 1); (194656, 8604, 1); (194657, 8605, 1);
  (194658, 8606, 1); (194659, 8607, 1); (194660, 8608, 1); (194661, 8609, 1); (194662, 8610, 1);
  (194663, 8611, 1); (194664, 8612, 1); (194665, 8613, 1); (194666, 8614, 1); (194667, 8615, 1);
  (194668, 8616, 1); (194669, 8617, 1); (194670, 8618, 1); (194671, 8619, 1); (194672, 8620, 1);
  (194673, 8621, 1); (194674, 8622, 1); (194675, 8623, 1); (194676, 8624, 1); (194677, 8625, 1);
  (194678, 8626, 1); (194679, 8627, 1); (194680, 8628, 1); (194681, 8629, 1); (194682, 8630, 1);
  (194683, 8631, 1); (194684, 8632, 1); (194685, 8633, 1); (194686, 8634, 1); (194687, 8635, 1);
  (194688, 8636, 1); (194689, 8637, 1); (194690, 8638, 1); (194691, 8639, 1); (194692, 8640, 1);
  (194693, 8641, 1); (194694, 8642, 1); (194695, 8643, 1); (194696, 8644, 1); (194697, 8645, 1);
  (194698, 8646, 1); (194699, 8647, 1); (194700, 8648, 1); (194701, 8649, 1); (194702, 8650, 1);
  (194703, 8651, 1); (194704, 8652, 1); (194705, 8653, 1); (194706, 8654, 1); (194707, 8655, 1);
  (194708, 8656, 1); (194709, 8657, 1); (194710, 8658, 1); (194711, 8659, 1); (194712, 8660, 1);
  (194713, 8661, 1); (194714, 8662, 1); (194715, 8663, 1); (194716, 8664, 1); (194717, 8665, 1);
  (194718, 8666, 1); (194719, 8667, 1); (194720, 8668, 1); (194721, 8669, 1); (194722, 8670, 1);
  (194723, 8671, 1); (194724, 8672, 1); (194725, 8673, 1); (194726, 8674, 1); (194727, 8675, 1);
  (194728, 8676, 1); (194729, 8677, 1); (194730, 8678, 1); (194731, 8679, 1); (194732, 8680, 1);
  (194733, 8681, 1); (194734, 8682, 1); (194735, 8683, 1); (194736, 8684, 1); (194737, 8685, 1);
  (194738, 8686, 1); (194739, 8687, 1); (194740, 8688, 1); (194741, 8689, 1); (194742, 8690, 1);
  (194743, 8691, 1); (194744, 8692, 1); (194745, 8693, 1); (194746, 8694, 1); (194747, 8695, 1);
  (194748, 8696, 1); (194749, 8697, 1); (194750, 8698, 1); (194751, 8699, 1); (194752, 8700, 1);
  (194753, 8701, 1); (194754, 8702, 1); (194755, 8703, 1); (194756, 8704, 1); (194757, 8705, 1);
  (194758, 8706, 1); (194759, 8707, 1); (194760, 8708, 1); (194761, 8709, 1); (194762, 8710, 1);
  (194763, 8711, 1); (194764, 8712, 1); (194765, 8713, 1); (194766, 8714, 1); (194767, 8715, 1);
  (194768, 8716, 1); (194769, 8717, 1); (194770, 8718, 1); (194771, 8719, 1); (194772, 8720, 1);
  (194773, 8721, 1); (194774, 8722, 1); (194775, 8723, 1); (194776, 8724, 1); (194777, 8725, 1);
  (194778, 8726, 1); (194779, 8727, 1); (194780, 8728, 1); (194781, 8729, 1); (194782, 8730, 1);
  (194783, 8731, 1); (194784, 8732, 1); (194785, 8733, 1); (194786, 8734, 1); (194787, 8735, 1);
  (194788, 8736, 1); (194789, 8737, 1); (194790, 8738, 1); (194791, 8739, 1); (194792, 8740, 1);
  (194793, 8741, 1); (194794, 8742, 1); (194795, 8743, 1); (194796, 8744, 1); (194797, 8745, 1);
  (194798, 8746, 1); (194799, 8747, 1); (194800, 8748, 1); (194801, 8749, 1); (194802, 8750, 1);
  (194803, 8751, 1); (194804, 8752, 1); (194805, 8753, 1); (194806, 8754, 1); (194807, 8755, 1);
  (194808, 8756, 1); (194809, 8757, 1); (194810, 8758, 1); (194811, 8759, 1); (194812, 8760, 1);
  (194813, 8761, 1); (194814, 8762, 1); (194815, 8763, 1); (194816, 8764, 1); (194817, 8765, 1);
  (194818, 8766, 1); (194819, 8767, 1); (194820, 8768, 1); (194821, 8769, 1); (194822, 8770, 1);
  (194823, 8771, 1); (194824, 8772, 1); (194825, 8773, 1); (194826, 8774, 1); (194827, 8775, 1);
  (194828, 8776, 1); (194829, 8777, 1); (194830, 8778, 1); (194831, 8779, 1); (194832, 8780, 1);
  (194833, 8781, 1); (194834, 8782, 1); (194835, 8783, 1); (194836, 8784, 1); (194837, 8785, 1);
  (194838, 8786, 1); (194839, 8787, 1); (194840, 8788, 1); (194841, 8789, 1); (194842, 8790, 1);
  (194843, 8791, 1); (194844, 8792, 1); (194845, 8793, 1); (194846, 8794, 1); (194847, 8795, 1);
  (194848, 8796, 1); (194849, 8797, 1); (194850, 8798, 1); (194851, 8799, 1); (194852, 8800, 1);
  (194853, 8801, 1); (194854, 8802, 1); (194855, 8803, 1); (194856, 8804, 1); (194857, 8805, 1);
  (194858, 8806, 1); (194859, 8807, 1); (194860, 8808, 1); (194861, 8809, 1); (194862, 8810, 1);
  (194863, 8811, 1); (194864, 8812, 1); (194865, 8813, 1); (194866, 8814, 1); (194867, 8815, 1);
  (194868, 8816, 1); (194869, 8817, 1); (194870, 8818, 1); (194871, 8819, 1); (194872, 8820, 1);
  (194873, 8821, 1); (194874, 8822, 1); (194875, 8823, 1); (194876, 8824, 1); (194877, 8825, 1);
  (194878, 8826, 1); (194879, 8827, 1); (194880, 8828, 1); (194881, 8829, 1); (194882, 8830, 1);
  (194883, 8831, 1); (194884, 8832, 1); (194885, 8833, 1); (194886, 8834, 1); (194887, 8835, 1);
  (194888, 8836, 1); (194889, 8837, 1); (194890, 8838, 1); (194891, 8839, 1); (194892, 8840, 1);
  (194893, 8841, 1); (194894, 8842, 1); (194895, 8843, 1); (194896, 8844, 1); (194897, 8845, 1);
  (194898, 8846, 1); (194899, 8847, 1); (194900, 8848, 1); (194901, 8849, 1); (194902, 8850, 1);
  (194903, 8851, 1); (194904, 8852, 1); (194905, 8853, 1); (194906, 8854, 1); (194907, 8855, 1);
  (194908, 8856, 1); (194909, 8857, 1); (194910, 8858, 1); (194911, 8859, 1); (194912, 8860, 1);
  (194913, 8861, 1); (194914, 8862, 1); (194915, 8863, 1); (194916, 8864, 1); (194917, 8865, 1);
  (194918, 8866, 1); (194919, 8867, 1); (194920, 8868, 1); (194921, 8869, 1); (194922, 8870, 1);
  (194923, 8871, 1); (194924, 8872, 1); (194925, 8873, 1); (194926, 8874, 1); (194927, 8875, 1);
  (194928, 8876, 1); (194929, 8877, 1); (194930, 8878, 1); (194931, 8879, 1); (194932, 8880, 1);
  (194933, 8881, 1); (194934, 8882, 1); (194935, 8883, 1); (194936, 8884, 1); (194937, 8885, 1);
  (194938, 8886, 1); (194939, 8887, 1); (194940, 8888, 1); (194941, 8889, 1); (194942, 8890, 1);
  (194943, 8891, 1); (194944, 8892, 1); (194945, 8893, 1); (194946, 8894, 1); (194947, 8895, 1);
  (194948, 8896, 1); (194949, 8897, 1); (194950, 8898, 1); (194951, 8899, 1); (194952, 8900, 1);
  (194953, 8901, 1); (194954, 8902, 1); (194955, 8903, 1); (194956, 8904, 1); (194957, 8905, 1);
  (194958, 8906, 1); (194959, 8907, 1); (194960, 8908, 1); (194961, 8909, 1); (194962, 8910, 1);
  (194963, 8911, 1); (194964, 8912, 1); (194965, 8913, 1); (194966, 8914, 1); (194967, 8915, 1);
  (194968, 8916, 1); (194969, 8917, 1); (194970, 8918, 1); (194971, 8919, 1); (194972, 8920, 1);
  (194973, 8921, 1); (194974, 8922, 1); (194975, 8923, 1); (194976, 8924, 1); (194977, 8925, 1);
  (194978, 8926, 1); (194979, 8927, 1); (194980, 8928, 1); (194981, 8929, 1); (194982, 8930, 1);
  (194983, 8931, 1); (194984, 8932, 1); (194985, 8933, 1); (194986, 8934, 1); (194987, 8935, 1);
  (194988, 8936, 1); (194989, 8937, 1); (194990, 8938, 1); (194991, 8939, 1); (194992, 8940, 1);
  (194993, 8941, 1); (194994, 8942, 1); (194995, 8943, 1); (194996, 8944, 1); (194997, 8945, 1);
  (194998, 8946, 1); (194999, 8947, 1); (195000, 8948, 1); (195001, 8949, 1); (195002, 8950, 1);
  (195003, 8951, 1); (195004, 8952, 1); (195005, 8953, 1); (195006, 8954, 1); (195007, 8955, 1);
  (195008, 8956, 1); (195009, 8957, 1); (195010, 8958, 1); (195011, 8959, 1); (195012, 8960, 1);
  (195013, 8961, 1); (195014, 8962, 1); (195015, 8963, 1); (195016, 8964, 1); (195017, 8965, 1);
  (195018, 8966, 1); (195019, 8967, 1); (195020, 8968, 1); (195021, 8969, 1); (195022, 8970, 1);
  (195023, 8971, 1); (195024, 8972, 1); (195025, 8973, 1); (195026, 8974, 1); (195027, 8975, 1);
  (195028, 8976, 1); (195029, 8977, 1); (195030, 8978, 1); (195031, 8979, 1); (195032, 8980, 1);
  (195033, 8981, 1); (195034, 8982, 1); (195035, 8983, 1); (195036, 8984, 1); (195037, 8985, 1);
  (195038, 8986, 1); (195039, 8987, 1); (195040, 8988, 1); (195041, 8989, 1); (195042, 8990, 1);
  (195043, 8991, 1); (195044, 8992, 1); (195045, 8993, 1); (195046, 8994, 1); (195047, 8995, 1);
  (195048, 8996, 1); (195049, 8997, 1); (195050, 8998, 1); (195051, 8999, 1); (195052, 9000, 1);
  (195053, 9001, 1); (195054, 9002, 1); (195055, 9003, 1); (195056, 9004, 1); (195057, 9005, 1);
  (195058, 9006, 1); (195059, 9007, 1); (195060, 9008, 1); (195061, 9009, 1); (195062, 9010, 1);
  (195063, 9011, 1); (195064, 9012, 1); (195065, 9013, 1); (195066, 9014, 1); (195067, 9015, 1);
  (195068, 9016, 1); (195069, 9017, 1); (195070, 9018, 1); (195071, 9019, 1); (195072, 9020, 1);
  (195073, 9021, 1); (195074, 9022, 1); (195075, 9023, 1); (195076, 9024, 1); (195077, 9025, 1);
  (195078, 9026, 1); (195079, 9027, 1); (195080, 9028, 1); (195081, 9029, 1); (195082, 9030, 1);
  (195083, 9031, 1); (195084, 9032, 1); (195085, 9033, 1); (195086, 9034, 1); (195087, 9035, 1);
  (195088, 9036, 1); (195089, 9037, 1); (195090, 9038, 1); (195091, 9039, 1); (195092, 9040, 1);
  (195093, 9041, 1); (195094, 9042, 1); (195095, 9043, 1); (195096, 9044, 1); (195097, 9045, 1);
  (195098, 9046, 1); (195099, 9047, 1); (195100, 9048, 1); (195101, 9049, 1)
].

Definition NFKD_POOL : list Z := [
  32; 32; 776; 97; 32; 772; 50; 51; 32; 769; 956; 32; 807; 49; 111; 49; 8260; 52; 49; 8260; 50; 51;
  8260; 52; 65; 768; 65; 769; 65; 770; 65; 771; 65; 776; 65; 778; 67; 807; 69; 768; 69; 769; 69;
  770; 69; 776; 73; 768; 73; 769; 73; 770; 73; 776; 78; 771; 79; 768; 79; 769; 79; 770; 79; 771;
  79; 776; 85; 768; 85; 769; 85; 770; 85; 776; 89; 769; 97; 768; 97; 769; 97; 770; 97; 771; 97;
  776; 97; 778; 99; 807; 101; 768; 101; 769; 101; 770; 101; 776; 105; 768; 105; 769; 105; 770; 105;
  776; 110; 771; 111; 768; 111; 769; 111; 770; 111; 771; 111; 776; 117; 768; 117; 769; 117; 770;
  117; 776; 121; 769; 121; 776; 65; 772; 97; 772; 65; 774; 97; 774; 65; 808; 97; 808; 67; 769; 99;
  769; 67; 770; 99; 770; 67; 775; 99; 775; 67; 780; 99; 780; 68; 780; 100; 780; 69; 772; 101; 772;
  69; 774; 101; 774; 69; 775; 101; 775; 69; 808; 101; 808; 69; 780; 101; 780; 71; 770; 103; 770;
  71; 774; 103; 774; 71; 775; 103; 775; 71; 807; 103; 807; 72; 770; 104; 770; 73; 771; 105; 771;
  73; 772; 105; 772; 73; 774; 105; 774; 73; 808; 105; 808; 73; 775; 73; 74; 105; 106; 74; 770; 106;
  770; 75; 807; 107; 807; 76; 769; 108; 769; 76; 807; 108; 807; 76; 780; 108; 780; 76; 183; 108;
  183; 78; 769; 110; 769; 78; 807; 110; 807; 78; 780; 110; 780; 700; 110; 79; 772; 111; 772; 79;
  774; 111; 774; 79; 779; 111; 779; 82; 769; 114; 769; 82; 807; 114; 807; 82; 780; 114; 780; 83;
  769; 115; 769; 83; 770; 115; 770; 83; 807; 115; 807; 83; 780; 115; 780; 84; 807; 116; 807; 84;
  780; 116; 780; 85; 771; 117; 771; 85; 772; 117; 772; 85; 774; 117; 774; 85; 778; 117; 778; 85;
  779; 117; 779; 85; 808; 117; 808; 87; 770; 119; 770; 89; 770; 121; 770; 89; 776; 90; 769; 122;
  769; 90; 775; 122; 775; 90; 780; 122; 780; 115; 79; 795; 111; 795; 85; 795; 117; 795; 68; 90;
  780; 68; 122; 780; 100; 122; 780; 76; 74; 76; 106; 108; 106; 78; 74; 78; 106; 110; 106; 65; 780;
  97; 780; 73; 780; 105; 780; 79; 780; 111; 780; 85; 780; 117; 780; 85; 776; 772; 117; 776; 772;
  85; 776; 769; 117; 776; 769; 85; 776; 780; 117; 776; 780; 85; 776; 768; 117; 776; 768; 65; 776;
  772; 97; 776; 772; 65; 775; 772; 97; 775; 772; 198; 772; 230; 772; 71; 780; 103; 780; 75; 780;
  107; 780; 79; 808; 111; 808; 79; 808; 772; 111; 808; 772; 439; 780; 658; 780; 106; 780; 68; 90;
  68; 122; 100; 122; 71; 769; 103; 769; 78; 768; 110; 768; 65; 778; 769; 97; 778; 769; 198; 769;
  230; 769; 216; 769; 248; 769; 65; 783; 97; 783; 65; 785; 97; 785; 69; 783; 101; 783; 69; 785;
  101; 785; 73; 783; 105; 783; 73; 785; 105; 785; 79; 783; 111; 783; 79; 785; 111; 785; 82; 783;
  114; 783; 82; 785; 114; 785; 85; 783; 117; 783; 85; 785; 117; 785; 83; 806; 115; 806; 84; 806;
  116; 806; 72; 780; 104; 780; 65; 775; 97; 775; 69; 807; 101; 807; 79; 776; 772; 111; 776; 772;
  79; 771; 772; 111; 771; 772; 79; 775; 111; 775; 79; 775; 772; 111; 775; 772; 89; 772; 121; 772;
  104; 614; 106; 114; 633; 635; 641; 119; 121; 32; 774; 32; 775; 32; 778; 32; 808; 32; 771; 32;
  779; 611; 108; 115; 120; 661; 768; 769; 787; 776; 769; 697; 32; 837; 59; 32; 769; 32; 776; 769;
  913; 769; 183; 917; 769; 919; 769; 921; 769; 927; 769; 933; 769; 937; 769; 953; 776; 769; 921;
  776; 933; 776; 945; 769; 949; 769; 951; 769; 953; 769; 965; 776; 769; 953; 776; 965; 776; 959;
  769; 965; 769; 969; 769; 946; 952; 933; 933; 769; 933; 776; 966; 960; 954; 961; 962; 920; 949;
  931; 1045; 768; 1045; 776; 1043; 769; 1030; 776; 1050; 769; 1048; 768; 1059; 774; 1048; 774;
  1080; 774; 1077; 768; 1077; 776; 1075; 769; 1110; 776; 1082; 769; 1080; 768; 1091; 774; 1140;
  783; 1141; 783; 1046; 774; 1078; 774; 1040; 774; 1072; 774; 1040; 776; 1072; 776; 1045; 774;
  1077; 774; 1240; 776; 1241; 776; 1046; 776; 1078; 776; 1047; 776; 1079; 776; 1048; 772; 1080;
  772; 1048; 776; 1080; 776; 1054; 776; 1086; 776; 1256; 776; 1257; 776; 1069; 776; 1101; 776;
  1059; 772; 1091; 772; 1059; 776; 1091; 776; 1059; 779; 1091; 779; 1063; 776; 1095; 776; 1067;
  776; 1099; 776; 1381; 1410; 1575; 1619; 1575; 1620; 1608; 1620; 1575; 1621; 1610; 1620; 1575;
  1652; 1608; 1652; 1735; 1652; 1610; 1652; 1749; 1620; 1729; 1620; 1746; 1620; 2344; 2364; 2352;
  2364; 2355; 2364; 2325; 2364; 2326; 2364; 2327; 2364; 2332; 2364; 2337; 2364; 2338; 2364; 2347;
  2364; 2351; 2364; 2503; 2494; 2503; 2519; 2465; 2492; 2466; 2492; 2479; 2492; 2610; 2620; 2616;
  2620; 2582; 2620; 2583; 2620; 2588; 2620; 2603; 2620; 2887; 2902; 2887; 2878; 2887; 2903; 2849;
  2876; 2850; 2876; 2962; 3031; 3014; 3006; 3015; 3006; 3014; 3031; 3142; 3158; 3263; 3285; 3270;
  3285; 3270; 3286; 3270; 3266; 3270; 3266; 3285; 3398; 3390; 3399; 3390; 3398; 3415; 3545; 3530;
  3545; 3535; 3545; 3535; 3530; 3545; 3551; 3661; 3634; 3789; 3762; 3755; 3737; 3755; 3745; 3851;
  3906; 4023; 3916; 4023; 3921; 4023; 3926; 4023; 3931; 4023; 3904; 4021; 3953; 3954; 3953; 3956;
  4018; 3968; 4018; 3953; 3968; 4019; 3968; 4019; 3953; 3968; 3953; 3968; 3986; 4023; 3996; 4023;
  4001; 4023; 4006; 4023; 4011; 4023; 3984; 4021; 4133; 4142; 4316; 6917; 6965; 6919; 6965; 6921;
  6965; 6923; 6965; 6925; 6965; 6929; 6965; 6970; 6965; 6972; 6965; 6974; 6965; 6975; 6965; 6978;
  6965; 65; 198; 66; 68; 69; 398; 71; 72; 73; 74; 75; 76; 77; 78; 79; 546; 80; 82; 84; 85; 87; 97;
  592; 593; 7426; 98; 100; 101; 601; 603; 604; 103; 107; 109; 331; 111; 596; 7446; 7447; 112; 116;
  117; 7453; 623; 118; 7461; 946; 947; 948; 966; 967; 105; 114; 117; 118; 946; 947; 961; 966; 967;
  1085; 594; 99; 597; 240; 604; 102; 607; 609; 613; 616; 617; 618; 7547; 669; 621; 7557; 671; 625;
  624; 626; 627; 628; 629; 632; 642; 643; 427; 649; 650; 7452; 651; 652; 122; 656; 657; 658; 952;
  65; 805; 97; 805; 66; 775; 98; 775; 66; 803; 98; 803; 66; 817; 98; 817; 67; 807; 769; 99; 807;
  769; 68; 775; 100; 775; 68; 803; 100; 803; 68; 817; 100; 817; 68; 807; 100; 807; 68; 813; 100;
  813; 69; 772; 768; 101; 772; 768; 69; 772; 769; 101; 772; 769; 69; 813; 101; 813; 69; 816; 101;
  816; 69; 807; 774; 101; 807; 774; 70; 775; 102; 775; 71; 772; 103; 772; 72; 775; 104; 775; 72;
  803; 104; 803; 72; 776; 104; 776; 72; 807; 104; 807; 72; 814; 104; 814; 73; 816; 105; 816; 73;
  776; 769; 105; 776; 769; 75; 769; 107; 769; 75; 803; 107; 803; 75; 817; 107; 817; 76; 803; 108;
  803; 76; 803; 772; 108; 803; 772; 76; 817; 108; 817; 76; 813; 108; 813; 77; 769; 109; 769; 77;
  775; 109; 775; 77; 803; 109; 803; 78; 775; 110; 775; 78; 803; 110; 803; 78; 817; 110; 817; 78;
  813; 110; 813; 79; 771; 769; 111; 771; 769; 79; 771; 776; 111; 771; 776; 79; 772; 768; 111; 772;
  768; 79; 772; 769; 111; 772; 769; 80; 769; 112; 769; 80; 775; 112; 775; 82; 775; 114; 775; 82;
  803; 114; 803; 82; 803; 772; 114; 803; 772; 82; 817; 114; 817; 83; 775; 115; 775; 83; 803; 115;
  803; 83; 769; 775; 115; 769; 775; 83; 780; 775; 115; 780; 775; 83; 803; 775; 115; 803; 775; 84;
  775; 116; 775; 84; 803; 116; 803; 84; 817; 116; 817; 84; 813; 116; 813; 85; 804; 117; 804; 85;
  816; 117; 816; 85; 813; 117; 813; 85; 771; 769; 117; 771; 769; 85; 772; 776; 117; 772; 776; 86;
  771; 118; 771; 86; 803; 118; 803; 87; 768; 119; 768; 87; 769; 119; 769; 87; 776; 119; 776; 87;
  775; 119; 775; 87; 803; 119; 803; 88; 775; 120; 775; 88; 776; 120; 776; 89; 775; 121; 775; 90;
  770; 122; 770; 90; 803; 122; 803; 90; 817; 122; 817; 104; 817; 116; 776; 119; 778; 121; 778; 97;
  702; 115; 775; 65; 803; 97; 803; 65; 777; 97; 777; 65; 770; 769; 97; 770; 769; 65; 770; 768; 97;
  770; 768; 65; 770; 777; 97; 770; 777; 65; 770; 771; 97; 770; 771; 65; 803; 770; 97; 803; 770; 65;
  774; 769; 97; 774; 769; 65; 774; 768; 97; 774; 768; 65; 774; 777; 97; 774; 777; 65; 774; 771; 97;
  774; 771; 65; 803; 774; 97; 803; 774; 69; 803; 101; 803; 69; 777; 101; 777; 69; 771; 101; 771;
  69; 770; 769; 101; 770; 769; 69; 770; 768; 101; 770; 768; 69; 770; 777; 101; 770; 777; 69; 770;
  771; 101; 770; 771; 69; 803; 770; 101; 803; 770; 73; 777; 105; 777; 73; 803; 105; 803; 79; 803;
  111; 803; 79; 777; 111; 777; 79; 770; 769; 111; 770; 769; 79; 770; 768; 111; 770; 768; 79; 770;
  777; 111; 770; 777; 79; 770; 771; 111; 770; 771; 79; 803; 770; 111; 803; 770; 79; 795; 769; 111;
  795; 769; 79; 795; 768; 111; 795; 768; 79; 795; 777; 111; 795; 777; 79; 795; 771; 111; 795; 771;
  79; 795; 803; 111; 795; 803; 85; 803; 117; 803; 85; 777; 117; 777; 85; 795; 769; 117; 795; 769;
  85; 795; 768; 117; 795; 768; 85; 795; 777; 117; 795; 777; 85; 795; 771; 117; 795; 771; 85; 795;
  803; 117; 795; 803; 89; 768; 121; 768; 89; 803; 121; 803; 89; 777; 121; 777; 89; 771; 121; 771;
  945; 787; 945; 788; 945; 787; 768; 945; 788; 768; 945; 787; 769; 945; 788; 769; 945; 787; 834;
  945; 788; 834; 913; 787; 913; 788; 913; 787; 768; 913; 788; 768; 913; 787; 769; 913; 788; 769;
  913; 787; 834; 913; 788; 834; 949; 787; 949; 788; 949; 787; 768; 949; 788; 768; 949; 787; 769;
  949; 788; 769; 917; 787; 917; 788; 917; 787; 768; 917; 788; 768; 917; 787; 769; 917; 788; 769;
  951; 787; 951; 788; 951; 787; 768; 951; 788; 768; 951; 787; 769; 951; 788; 769; 951; 787; 834;
  951; 788; 834; 919; 787; 919; 788; 919; 787; 768; 919; 788; 768; 919; 787; 769; 919; 788; 769;
  919; 787; 834; 919; 788; 834; 953; 787; 953; 788; 953; 787; 768; 953; 788; 768; 953; 787; 769;
  953; 788; 769; 953; 787; 834; 953; 788; 834; 921; 787; 921; 788; 921; 787; 768; 921; 788; 768;
  921; 787; 769; 921; 788; 769; 921; 787; 834; 921; 788; 834; 959; 787; 959; 788; 959; 787; 768;
  959; 788; 768; 959; 787; 769; 959; 788; 769; 927; 787; 927; 788; 927; 787; 768; 927; 788; 768;
  927; 787; 769; 927; 788; 769; 965; 787; 965; 788; 965; 787; 768; 965; 788; 768; 965; 787; 769;
  965; 788; 769; 965; 787; 834; 965; 788; 834; 933; 788; 933; 788; 768; 933; 788; 769; 933; 788;
  834; 969; 787; 969; 788; 969; 787; 768; 969; 788; 768; 969; 787; 769; 969; 788; 769; 969; 787;
  834; 969; 788; 834; 937; 787; 937; 788; 937; 787; 768; 937; 788; 768; 937; 787; 769; 937; 788;
  769; 937; 787; 834; 937; 788; 834; 945; 768; 945; 769; 949; 768; 949; 769; 951; 768; 951; 769;
  953; 768; 953; 769; 959; 768; 959; 769; 965; 768; 965; 769; 969; 768; 969; 769; 945; 787; 837;
  945; 788; 837; 945; 787; 768; 837; 945; 788; 768; 837; 945; 787; 769; 837; 945; 788; 769; 837;
  945; 787; 834; 837; 945; 788; 834; 837; 913; 787; 837; 913; 788; 837; 913; 787; 768; 837; 913;
  788; 768; 837; 913; 787; 769; 837; 913; 788; 769; 837; 913; 787; 834; 837; 913; 788; 834; 837;
  951; 787; 837; 951; 788; 837; 951; 787; 768; 837; 951; 788; 768; 837; 951; 787; 769; 837; 951;
  788; 769; 837; 951; 787; 834; 837; 951; 788; 834; 837; 919; 787; 837; 919; 788; 837; 919; 787;
  768; 837; 919; 788; 768; 837; 919; 787; 769; 837; 919; 788; 769; 837; 919; 787; 834; 837; 919;
  788; 834; 837; 969; 787; 837; 969; 788; 837; 969; 787; 768; 837; 969; 788; 768; 837; 969; 787;
  769; 837; 969; 788; 769; 837; 969; 787; 834; 837; 969; 788; 834; 837; 937; 787; 837; 937; 788;
  837; 937; 787; 768; 837; 937; 788; 768; 837; 937; 787; 769; 837; 937; 788; 769; 837; 937; 787;
  834; 837; 937; 788; 834; 837; 945; 774; 945; 772; 945; 768; 837; 945; 837; 945; 769; 837; 945;
  834; 945; 834; 837; 913; 774; 913; 772; 913; 768; 913; 769; 913; 837; 32; 787; 953; 32; 787; 32;
  834; 32; 776; 834; 951; 768; 837; 951; 837; 951; 769; 837; 951; 834; 951; 834; 837; 917; 768;
  917; 769; 919; 768; 919; 769; 919; 837; 32; 787; 768; 32; 787; 769; 32; 787; 834; 953; 774; 953;
  772; 953; 776; 768; 953; 776; 769; 953; 834; 953; 776; 834; 921; 774; 921; 772; 921; 768; 921;
  769; 32; 788; 768; 32; 788; 769; 32; 788; 834; 965; 774; 965; 772; 965; 776; 768; 965; 776; 769;
  961; 787; 961; 788; 965; 834; 965; 776; 834; 933; 774; 933; 772; 933; 768; 933; 769; 929; 788;
  32; 776; 768; 32; 776; 769; 96; 969; 768; 837; 969; 837; 969; 769; 837; 969; 834; 969; 834; 837;
  927; 768; 927; 769; 937; 768; 937; 769; 937; 837; 32; 769; 32; 788; 32; 32; 32; 32; 32; 32; 32;
  32; 32; 32; 32; 8208; 32; 819; 46; 46; 46; 46; 46; 46; 32; 8242; 8242; 8242; 8242; 8242; 8245;
  8245; 8245; 8245; 8245; 33; 33; 32; 773; 63; 63; 63; 33; 33; 63; 8242; 8242; 8242; 8242; 32; 48;
  105; 52; 53; 54; 55; 56; 57; 43; 8722; 61; 40; 41; 110; 48; 49; 50; 51; 52; 53; 54; 55; 56; 57;
  43; 8722; 61; 40; 41; 97; 101; 111; 120; 601; 104; 107; 108; 109; 110; 112; 115; 116; 82; 115;
  97; 47; 99; 97; 47; 115; 67; 176; 67; 99; 47; 111; 99; 47; 117; 400; 176; 70; 103; 72; 72; 72;
  104; 295; 73; 73; 76; 108; 78; 78; 111; 80; 81; 82; 82; 82; 83; 77; 84; 69; 76; 84; 77; 90; 937;
  90; 75; 65; 778; 66; 67; 101; 69; 70; 77; 111; 1488; 1489; 1490; 1491; 105; 70; 65; 88; 960; 947;
  915; 928; 8721; 68; 100; 101; 105; 106; 49; 8260; 55; 49; 8260; 57; 49; 8260; 49; 48; 49; 8260;
  51; 50; 8260; 51; 49; 8260; 53; 50; 8260; 53; 51; 8260; 53; 52; 8260; 53; 49; 8260; 54; 53; 8260;
  54; 49; 8260; 56; 51; 8260; 56; 53; 8260; 56; 55; 8260; 56; 49; 8260; 73; 73; 73; 73; 73; 73; 73;
  86; 86; 86; 73; 86; 73; 73; 86; 73; 73; 73; 73; 88; 88; 88; 73; 88; 73; 73; 76; 67; 68; 77; 105;
  105; 105; 105; 105; 105; 105; 118; 118; 118; 105; 118; 105; 105; 118; 105; 105; 105; 105; 120;
  120; 120; 105; 120; 105; 105; 108; 99; 100; 109; 48; 8260; 51; 8592; 824; 8594; 824; 8596; 824;
  8656; 824; 8660; 824; 8658; 824; 8707; 824; 8712; 824; 8715; 824; 8739; 824; 8741; 824; 8747;
  8747; 8747; 8747; 8747; 8750; 8750; 8750; 8750; 8750; 8764; 824; 8771; 824; 8773; 824; 8776; 824;
  61; 824; 8801; 824; 8781; 824; 60; 824; 62; 824; 8804; 824; 8805; 824; 8818; 824; 8819; 824;
  8822; 824; 8823; 824; 8826; 824; 8827; 824; 8834; 824; 8835; 824; 8838; 824; 8839; 824; 8866;
  824; 8872; 824; 8873; 824; 8875; 824; 8828; 824; 8829; 824; 8849; 824; 8850; 824; 8882; 824;
  8883; 824; 8884; 824; 8885; 824; 12296; 12297; 49; 50; 51; 52; 53; 54; 55; 56; 57; 49; 48; 49;
  49; 49; 50; 49; 51; 49; 52; 49; 53; 49; 54; 49; 55; 49; 56; 49; 57; 50; 48; 40; 49; 41; 40; 50;
  41; 40; 51; 41; 40; 52; 41; 40; 53; 41; 40; 54; 41; 40; 55; 41; 40; 56; 41; 40; 57; 41; 40; 49;
  48; 41; 40; 49; 49; 41; 40; 49; 50; 41; 40; 49; 51; 41; 40; 49; 52; 41; 40; 49; 53; 41; 40; 49;
  54; 41; 40; 49; 55; 41; 40; 49; 56; 41; 40; 49; 57; 41; 40; 50; 48; 41; 49; 46; 50; 46; 51; 46;
  52; 46; 53; 46; 54; 46; 55; 46; 56; 46; 57; 46; 49; 48; 46; 49; 49; 46; 49; 50; 46; 49; 51; 46;
  49; 52; 46; 49; 53; 46; 49; 54; 46; 49; 55; 46; 49; 56; 46; 49; 57; 46; 50; 48; 46; 40; 97; 41;
  40; 98; 41; 40; 99; 41; 40; 100; 41; 40; 101; 41; 40; 102; 41; 40; 103; 41; 40; 104; 41; 40; 105;
  41; 40; 106; 41; 40; 107; 41; 40; 108; 41; 40; 109; 41; 40; 110; 41; 40; 111; 41; 40; 112; 41;
  40; 113; 41; 40; 114; 41; 40; 115; 41; 40; 116; 41; 40; 117; 41; 40; 118; 41; 40; 119; 41; 40;
  120; 41; 40; 121; 41; 40; 122; 41; 65; 66; 67; 68; 69; 70; 71; 72; 73; 74; 75; 76; 77; 78; 79;
  80; 81; 82; 83; 84; 85; 86; 87; 88; 89; 90; 97; 98; 99; 100; 101; 102; 103; 104; 105; 106; 107;
  108; 109; 110; 111; 112; 113; 114; 115; 116; 117; 118; 119; 120; 121; 122; 48; 8747; 8747; 8747;
  8747; 58; 58; 61; 61; 61; 61; 61; 61; 10973; 824; 106; 86; 11617; 27597; 40863; 19968; 20008;
  20022; 20031; 20057; 20101; 20108; 20128; 20154; 20799; 20837; 20843; 20866; 20886; 20907; 20960;
  20981; 20992; 21147; 21241; 21269; 21274; 21304; 21313; 21340; 21353; 21378; 21430; 21448; 21475;
  22231; 22303; 22763; 22786; 22794; 22805; 22823; 22899; 23376; 23424; 23544; 23567; 23586; 23608;
  23662; 23665; 24027; 24037; 24049; 24062; 24178; 24186; 24191; 24308; 24318; 24331; 24339; 24400;
  24417; 24435; 24515; 25096; 25142; 25163; 25903; 25908; 25991; 26007; 26020; 26041; 26080; 26085;
  26352; 26376; 26408; 27424; 27490; 27513; 27571; 27595; 27604; 27611; 27663; 27668; 27700; 28779;
  29226; 29238; 29243; 29247; 29255; 29273; 29275; 29356; 29572; 29577; 29916; 29926; 29976; 29983;
  29992; 30000; 30091; 30098; 30326; 30333; 30382; 30399; 30446; 30683; 30690; 30707; 31034; 31160;
  31166; 31348; 31435; 31481; 31859; 31992; 32566; 32593; 32650; 32701; 32769; 32780; 32786; 32819;
  32895; 32905; 33251; 33258; 33267; 33276; 33292; 33307; 33311; 33390; 33394; 33400; 34381; 34411;
  34880; 34892; 34915; 35198; 35211; 35282; 35328; 35895; 35910; 35925; 35960; 35997; 36196; 36208;
  36275; 36523; 36554; 36763; 36784; 36789; 37009; 37193; 37318; 37324; 37329; 38263; 38272; 38428;
  38582; 38585; 38632; 38737; 38750; 38754; 38761; 38859; 38893; 38899; 38913; 39080; 39131; 39135;
  39318; 39321; 39340; 39592; 39640; 39647; 39717; 39727; 39730; 39740; 39770; 40165; 40565; 40575;
  40613; 40635; 40643; 40653; 40657; 40697; 40701; 40718; 40723; 40736; 40763; 40778; 40786; 40845;
  40860; 40864; 32; 12306; 21313; 21316; 21317; 12363; 12441; 12365; 12441; 12367; 12441; 12369;
  12441; 12371; 12441; 12373; 12441; 12375; 12441; 12377; 12441; 12379; 12441; 12381; 12441; 12383;
  12441; 12385; 12441; 12388; 12441; 12390; 12441; 12392; 12441; 12399; 12441; 12399; 12442; 12402;
  12441; 12402; 12442; 12405; 12441; 12405; 12442; 12408; 12441; 12408; 12442; 12411; 12441; 12411;
  12442; 12358; 12441; 32; 12441; 32; 12442; 12445; 12441; 12424; 12426; 12459; 12441; 12461;
  12441; 12463; 12441; 12465; 12441; 12467; 12441; 12469; 12441; 12471; 12441; 12473; 12441; 12475;
  12441; 12477; 12441; 12479; 12441; 12481; 12441; 12484; 12441; 12486; 12441; 12488; 12441; 12495;
  12441; 12495; 12442; 12498; 12441; 12498; 12442; 12501; 12441; 12501; 12442; 12504; 12441; 12504;
  12442; 12507; 12441; 12507; 12442; 12454; 12441; 12527; 12441; 12528; 12441; 12529; 12441; 12530;
  12441; 12541; 12441; 12467; 12488; 4352; 4353; 4522; 4354; 4524; 4525; 4355; 4356; 4357; 4528;
  4529; 4530; 4531; 4532; 4533; 4378; 4358; 4359; 4360; 4385; 4361; 4362; 4363; 4364; 4365; 4366;
  4367; 4368; 4369; 4370; 4449; 4450; 4451; 4452; 4453; 4454; 4455; 4456; 4457; 4458; 4459; 4460;
  4461; 4462; 4463; 4464; 4465; 4466; 4467; 4468; 4469; 4448; 4372; 4373; 4551; 4552; 4556; 4558;
  4563; 4567; 4569; 4380; 4573; 4575; 4381; 4382; 4384; 4386; 4387; 4391; 4393; 4395; 4396; 4397;
  4398; 4399; 4402; 4406; 4416; 4423; 4428; 4593; 4594; 4439; 4440; 4441; 4484; 4485; 4488; 4497;
  4498; 4500; 4510; 4513; 19968; 20108; 19977; 22235; 19978; 20013; 19979; 30002; 20057; 19993;
  19969; 22825; 22320; 20154; 40; 4352; 41; 40; 4354; 41; 40; 4355; 41; 40; 4357; 41; 40; 4358; 41;
  40; 4359; 41; 40; 4361; 41; 40; 4363; 41; 40; 4364; 41; 40; 4366; 41; 40; 4367; 41; 40; 4368; 41;
  40; 4369; 41; 40; 4370; 41; 40; 4352; 4449; 41; 40; 4354; 4449; 41; 40; 4355; 4449; 41; 40; 4357;
  4449; 41; 40; 4358; 4449; 41; 40; 4359; 4449; 41; 40; 4361; 4449; 41; 40; 4363; 4449; 41; 40;
  4364; 4449; 41; 40; 4366; 4449; 41; 40; 4367; 4449; 41; 40; 4368; 4449; 41; 40; 4369; 4449; 41;
  40; 4370; 4449; 41; 40; 4364; 4462; 41; 40; 4363; 4457; 4364; 4453; 4523; 41; 40; 4363; 4457;
  4370; 4462; 41; 40; 19968; 41; 40; 20108; 41; 40; 19977; 41; 40; 22235; 41; 40; 20116; 41; 40;
  20845; 41; 40; 19971; 41; 40; 20843; 41; 40; 20061; 41; 40; 21313; 41; 40; 26376; 41; 40; 28779;
  41; 40; 27700; 41; 40; 26408; 41; 40; 37329; 41; 40; 22303; 41; 40; 26085; 41; 40; 26666; 41; 40;
  26377; 41; 40; 31038; 41; 40; 21517; 41; 40; 29305; 41; 40; 36001; 41; 40; 31069; 41; 40; 21172;
  41; 40; 20195; 41; 40; 21628; 41; 40; 23398; 41; 40; 30435; 41; 40; 20225; 41; 40; 36039; 41; 40;
  21332; 41; 40; 31085; 41; 40; 20241; 41; 40; 33258; 41; 40; 33267; 41; 21839; 24188; 25991;
  31631; 80; 84; 69; 50; 49; 50; 50; 50; 51; 50; 52; 50; 53; 50; 54; 50; 55; 50; 56; 50; 57; 51;
  48; 51; 49; 51; 50; 51; 51; 51; 52; 51; 53; 4352; 4354; 4355; 4357; 4358; 4359; 4361; 4363; 4364;
  4366; 4367; 4368; 4369; 4370; 4352; 4449; 4354; 4449; 4355; 4449; 4357; 4449; 4358; 4449; 4359;
  4449; 4361; 4449; 4363; 4449; 4364; 4449; 4366; 4449; 4367; 4449; 4368; 4449; 4369; 4449; 4370;
  4449; 4366; 4449; 4535; 4352; 4457; 4364; 4462; 4363; 4468; 4363; 4462; 19968; 20108; 19977;
  22235; 20116; 20845; 19971; 20843; 20061; 21313; 26376; 28779; 27700; 26408; 37329; 22303; 26085;
  26666; 26377; 31038; 21517; 29305; 36001; 31069; 21172; 31192; 30007; 22899; 36969; 20778; 21360;
  27880; 38917; 20241; 20889; 27491; 19978; 20013; 19979; 24038; 21491; 21307; 23447; 23398; 30435;
  20225; 36039; 21332; 22812; 51; 54; 51; 55; 51; 56; 51; 57; 52; 48; 52; 49; 52; 50; 52; 51; 52;
  52; 52; 53; 52; 54; 52; 55; 52; 56; 52; 57; 53; 48; 49; 26376; 50; 26376; 51; 26376; 52; 26376;
  53; 26376; 54; 26376; 55; 26376; 56; 26376; 57; 26376; 49; 48; 26376; 49; 49; 26376; 49; 50;
  26376; 72; 103; 101; 114; 103; 101; 86; 76; 84; 68; 12450; 12452; 12454; 12456; 12458; 12459;
  12461; 12463; 12465; 12467; 12469; 12471; 12473; 12475; 12477; 12479; 12481; 12484; 12486; 12488;
  12490; 12491; 12492; 12493; 12494; 12495; 12498; 12501; 12504; 12507; 12510; 12511; 12512; 12513;
  12514; 12516; 12518; 12520; 12521; 12522; 12523; 12524; 12525; 12527; 12528; 12529; 12530; 20196;
  21644; 12450; 12495; 12442; 12540; 12488; 12450; 12523; 12501; 12449; 12450; 12531; 12504; 12442;
  12450; 12450; 12540; 12523; 12452; 12491; 12531; 12463; 12441; 12452; 12531; 12481; 12454; 12457;
  12531; 12456; 12473; 12463; 12540; 12488; 12441; 12456; 12540; 12459; 12540; 12458; 12531; 12473;
  12458; 12540; 12512; 12459; 12452; 12522; 12459; 12521; 12483; 12488; 12459; 12525; 12522; 12540;
  12459; 12441; 12525; 12531; 12459; 12441; 12531; 12510; 12461; 12441; 12459; 12441; 12461; 12441;
  12491; 12540; 12461; 12517; 12522; 12540; 12461; 12441; 12523; 12479; 12441; 12540; 12461; 12525;
  12461; 12525; 12463; 12441; 12521; 12512; 12461; 12525; 12513; 12540; 12488; 12523; 12461; 12525;
  12527; 12483; 12488; 12463; 12441; 12521; 12512; 12463; 12441; 12521; 12512; 12488; 12531; 12463;
  12523; 12475; 12441; 12452; 12525; 12463; 12525; 12540; 12493; 12465; 12540; 12473; 12467; 12523;
  12490; 12467; 12540; 12507; 12442; 12469; 12452; 12463; 12523; 12469; 12531; 12481; 12540; 12512;
  12471; 12522; 12531; 12463; 12441; 12475; 12531; 12481; 12475; 12531; 12488; 12479; 12441; 12540;
  12473; 12486; 12441; 12471; 12488; 12441; 12523; 12488; 12531; 12490; 12494; 12494; 12483; 12488;
  12495; 12452; 12484; 12495; 12442; 12540; 12475; 12531; 12488; 12495; 12442; 12540; 12484; 12495;
  12441; 12540; 12524; 12523; 12498; 12442; 12450; 12473; 12488; 12523; 12498; 12442; 12463; 12523;
  12498; 12442; 12467; 12498; 12441; 12523; 12501; 12449; 12521; 12483; 12488; 12441; 12501; 12451;
  12540; 12488; 12501; 12441; 12483; 12471; 12455; 12523; 12501; 12521; 12531; 12504; 12463; 12479;
  12540; 12523; 12504; 12442; 12477; 12504; 12442; 12491; 12498; 12504; 12523; 12484; 12504; 12442;
  12531; 12473; 12504; 12442; 12540; 12471; 12441; 12504; 12441; 12540; 12479; 12507; 12442; 12452;
  12531; 12488; 12507; 12441; 12523; 12488; 12507; 12531; 12507; 12442; 12531; 12488; 12441; 12507;
  12540; 12523; 12507; 12540; 12531; 12510; 12452; 12463; 12525; 12510; 12452; 12523; 12510; 12483;
  12495; 12510; 12523; 12463; 12510; 12531; 12471; 12519; 12531; 12511; 12463; 12525; 12531; 12511;
  12522; 12511; 12522; 12495; 12441; 12540; 12523; 12513; 12459; 12441; 12513; 12459; 12441; 12488;
  12531; 12513; 12540; 12488; 12523; 12516; 12540; 12488; 12441; 12516; 12540; 12523; 12518; 12450;
  12531; 12522; 12483; 12488; 12523; 12522; 12521; 12523; 12498; 12442; 12540; 12523; 12540; 12501;
  12441; 12523; 12524; 12512; 12524; 12531; 12488; 12465; 12441; 12531; 12527; 12483; 12488; 48;
  28857; 49; 28857; 50; 28857; 51; 28857; 52; 28857; 53; 28857; 54; 28857; 55; 28857; 56; 28857;
  57; 28857; 49; 48; 28857; 49; 49; 28857; 49; 50; 28857; 49; 51; 28857; 49; 52; 28857; 49; 53;
  28857; 49; 54; 28857; 49; 55; 28857; 49; 56; 28857; 49; 57; 28857; 50; 48; 28857; 50; 49; 28857;
  50; 50; 28857; 50; 51; 28857; 50; 52; 28857; 104; 80; 97; 100; 97; 65; 85; 98; 97; 114; 111; 86;
  112; 99; 100; 109; 100; 109; 50; 100; 109; 51; 73; 85; 24179; 25104; 26157; 21644; 22823; 27491;
  26126; 27835; 26666; 24335; 20250; 31038; 112; 65; 110; 65; 956; 65; 109; 65; 107; 65; 75; 66;
  77; 66; 71; 66; 99; 97; 108; 107; 99; 97; 108; 112; 70; 110; 70; 956; 70; 956; 103; 109; 103;
  107; 103; 72; 122; 107; 72; 122; 77; 72; 122; 71; 72; 122; 84; 72; 122; 956; 108; 109; 108; 100;
  108; 107; 108; 102; 109; 110; 109; 956; 109; 109; 109; 99; 109; 107; 109; 109; 109; 50; 99; 109;
  50; 109; 50; 107; 109; 50; 109; 109; 51; 99; 109; 51; 109; 51; 107; 109; 51; 109; 8725; 115; 109;
  8725; 115; 50; 80; 97; 107; 80; 97; 77; 80; 97; 71; 80; 97; 114; 97; 100; 114; 97; 100; 8725;
  115; 114; 97; 100; 8725; 115; 50; 112; 115; 110; 115; 956; 115; 109; 115; 112; 86; 110; 86; 956;
  86; 109; 86; 107; 86; 77; 86; 112; 87; 110; 87; 956; 87; 109; 87; 107; 87; 77; 87; 107; 937; 77;
  937; 97; 46; 109; 46; 66; 113; 99; 99; 99; 100; 67; 8725; 107; 103; 67; 111; 46; 100; 66; 71;
  121; 104; 97; 72; 80; 105; 110; 75; 75; 75; 77; 107; 116; 108; 109; 108; 110; 108; 111; 103; 108;
  120; 109; 98; 109; 105; 108; 109; 111; 108; 80; 72; 112; 46; 109; 46; 80; 80; 77; 80; 82; 115;
  114; 83; 118; 87; 98; 86; 8725; 109; 65; 8725; 109; 49; 26085; 50; 26085; 51; 26085; 52; 26085;
  53; 26085; 54; 26085; 55; 26085; 56; 26085; 57; 26085; 49; 48; 26085; 49; 49; 26085; 49; 50;
  26085; 49; 51; 26085; 49; 52; 26085; 49; 53; 26085; 49; 54; 26085; 49; 55; 26085; 49; 56; 26085;
  49; 57; 26085; 50; 48; 26085; 50; 49; 26085; 50; 50; 26085; 50; 51; 26085; 50; 52; 26085; 50; 53;
  26085; 50; 54; 26085; 50; 55; 26085; 50; 56; 26085; 50; 57; 26085; 51; 48; 26085; 51; 49; 26085;
  103; 97; 108; 1098; 1100; 42863; 67; 70; 81; 294; 339; 42791; 43831; 619; 43858; 653; 35912;
  26356; 36554; 36040; 28369; 20018; 21477; 40860; 40860; 22865; 37329; 21895; 22856; 25078; 30313;
  32645; 34367; 34746; 35064; 37007; 27138; 27931; 28889; 29662; 33853; 37226; 39409; 20098; 21365;
  27396; 29211; 34349; 40478; 23888; 28651; 34253; 35172; 25289; 33240; 34847; 24266; 26391; 28010;
  29436; 37070; 20358; 20919; 21214; 25796; 27347; 29200; 30439; 32769; 34310; 34396; 36335; 38706;
  39791; 40442; 30860; 31103; 32160; 33737; 37636; 40575; 35542; 22751; 24324; 31840; 32894; 29282;
  30922; 36034; 38647; 22744; 23650; 27155; 28122; 28431; 32047; 32311; 38475; 21202; 32907; 20956;
  20940; 31260; 32190; 33777; 38517; 35712; 25295; 27138; 35582; 20025; 23527; 24594; 29575; 30064;
  21271; 30971; 20415; 24489; 19981; 27852; 25976; 32034; 21443; 22622; 30465; 33865; 35498; 27578;
  36784; 27784; 25342; 33509; 25504; 30053; 20142; 20841; 20937; 26753; 31975; 33391; 35538; 37327;
  21237; 21570; 22899; 24300; 26053; 28670; 31018; 38317; 39530; 40599; 40654; 21147; 26310; 27511;
  36706; 24180; 24976; 25088; 25754; 28451; 29001; 29833; 31178; 32244; 32879; 36646; 34030; 36899;
  37706; 21015; 21155; 21693; 28872; 35010; 35498; 24265; 24565; 25467; 27566; 31806; 29557; 20196;
  22265; 23527; 23994; 24604; 29618; 29801; 32666; 32838; 37428; 38646; 38728; 38936; 20363; 31150;
  37300; 38584; 24801; 20102; 20698; 23534; 23615; 26009; 27138; 29134; 30274; 34044; 36988; 40845;
  26248; 38446; 21129; 26491; 26611; 27969; 28316; 29705; 30041; 30827; 32016; 39006; 20845; 25134;
  38520; 20523; 23833; 28138; 36650; 24459; 24900; 26647; 29575; 38534; 21033; 21519; 23653; 26131;
  26446; 26792; 27877; 29702; 30178; 32633; 35023; 35041; 37324; 38626; 21311; 28346; 21533; 29136;
  29848; 34298; 38563; 40023; 40607; 26519; 28107; 33256; 31435; 31520; 31890; 29376; 28825; 35672;
  20160; 33590; 21050; 20999; 24230; 25299; 31958; 23429; 27934; 26292; 36667; 34892; 38477; 35211;
  24275; 20800; 21952; 22618; 26228; 20958; 29482; 30410; 31036; 31070; 31077; 31119; 38742; 31934;
  32701; 34322; 35576; 36920; 37117; 39151; 39164; 39208; 40372; 37086; 38583; 20398; 20711; 20813;
  21193; 21220; 21329; 21917; 22022; 22120; 22592; 22696; 23652; 23662; 24724; 24936; 24974; 25074;
  25935; 26082; 26257; 26757; 28023; 28186; 28450; 29038; 29227; 29730; 30865; 31038; 31049; 31048;
  31056; 31062; 31069; 31117; 31118; 31296; 31361; 31680; 32244; 32265; 32321; 32626; 32773; 33261;
  33401; 33401; 33879; 35088; 35222; 35585; 35641; 36051; 36104; 36790; 36920; 38627; 38911; 38971;
  24693; 148206; 33304; 20006; 20917; 20840; 20352; 20805; 20864; 21191; 21242; 21917; 21845;
  21913; 21986; 22618; 22707; 22852; 22868; 23138; 23336; 24274; 24281; 24425; 24493; 24792; 24910;
  24840; 24974; 24928; 25074; 25140; 25540; 25628; 25682; 25942; 26228; 26391; 26395; 26454; 27513;
  27578; 27969; 28379; 28363; 28450; 28702; 29038; 30631; 29237; 29359; 29482; 29809; 29958; 30011;
  30237; 30239; 30410; 30427; 30452; 30538; 30528; 30924; 31409; 31680; 31867; 32091; 32244; 32574;
  32773; 33618; 33775; 34681; 35137; 35206; 35222; 35519; 35576; 35531; 35585; 35582; 35565; 35641;
  35722; 36104; 36664; 36978; 37273; 37494; 38524; 38627; 38742; 38875; 38911; 38923; 38971; 39698;
  40860; 141386; 141380; 144341; 15261; 16408; 16441; 152137; 154832; 163539; 40771; 40846; 102;
  102; 102; 105; 102; 108; 102; 102; 105; 102; 102; 108; 115; 116; 115; 116; 1396; 1398; 1396;
  1381; 1396; 1387; 1406; 1398; 1396; 1389; 1497; 1460; 1522; 1463; 1506; 1488; 1491; 1492; 1499;
  1500; 1501; 1512; 1514; 43; 1513; 1473; 1513; 1474; 1513; 1468; 1473; 1513; 1468; 1474; 1488;
  1463; 1488; 1464; 1488; 1468; 1489; 1468; 1490; 1468; 1491; 1468; 1492; 1468; 1493; 1468; 1494;
  1468; 1496; 1468; 1497; 1468; 1498; 1468; 1499; 1468; 1500; 1468; 1502; 1468; 1504; 1468; 1505;
  1468; 1507; 1468; 1508; 1468; 1510; 1468; 1511; 1468; 1512; 1468; 1513; 1468; 1514; 1468; 1493;
  1465; 1489; 1471; 1499; 1471; 1508; 1471; 1488; 1500; 1649; 1649; 1659; 1659; 1659; 1659; 1662;
  1662; 1662; 1662; 1664; 1664; 1664; 1664; 1658; 1658; 1658; 1658; 1663; 1663; 1663; 1663; 1657;
  1657; 1657; 1657; 1700; 1700; 1700; 1700; 1702; 1702; 1702; 1702; 1668; 1668; 1668; 1668; 1667;
  1667; 1667; 1667; 1670; 1670; 1670; 1670; 1671; 1671; 1671; 1671; 1677; 1677; 1676; 1676; 1678;
  1678; 1672; 1672; 1688; 1688; 1681; 1681; 1705; 1705; 1705; 1705; 1711; 1711; 1711; 1711; 1715;
  1715; 1715; 1715; 1713; 1713; 1713; 1713; 1722; 1722; 1723; 1723; 1723; 1723; 1749; 1620; 1749;
  1620; 1729; 1729; 1729; 1729; 1726; 1726; 1726; 1726; 1746; 1746; 1746; 1620; 1746; 1620; 1709;
  1709; 1709; 1709; 1735; 1735; 1734; 1734; 1736; 1736; 1735; 1652; 1739; 1739; 1733; 1733; 1737;
  1737; 1744; 1744; 1744; 1744; 1609; 1609; 1610; 1620; 1575; 1610; 1620; 1575; 1610; 1620; 1749;
  1610; 1620; 1749; 1610; 1620; 1608; 1610; 1620; 1608; 1610; 1620; 1735; 1610; 1620; 1735; 1610;
  1620; 1734; 1610; 1620; 1734; 1610; 1620; 1736; 1610; 1620; 1736; 1610; 1620; 1744; 1610; 1620;
  1744; 1610; 1620; 1744; 1610; 1620; 1609; 1610; 1620; 1609; 1610; 1620; 1609; 1740; 1740; 1740;
  1740; 1610; 1620; 1580; 1610; 1620; 1581; 1610; 1620; 1605; 1610; 1620; 1609; 1610; 1620; 1610;
  1576; 1580; 1576; 1581; 1576; 1582; 1576; 1605; 1576; 1609; 1576; 1610; 1578; 1580; 1578; 1581;
  1578; 1582; 1578; 1605; 1578; 1609; 1578; 1610; 1579; 1580; 1579; 1605; 1579; 1609; 1579; 1610;
  1580; 1581; 1580; 1605; 1581; 1580; 1581; 1605; 1582; 1580; 1582; 1581; 1582; 1605; 1587; 1580;
  1587; 1581; 1587; 1582; 1587; 1605; 1589; 1581; 1589; 1605; 1590; 1580; 1590; 1581; 1590; 1582;
  1590; 1605; 1591; 1581; 1591; 1605; 1592; 1605; 1593; 1580; 1593; 1605; 1594; 1580; 1594; 1605;
  1601; 1580; 1601; 1581; 1601; 1582; 1601; 1605; 1601; 1609; 1601; 1610; 1602; 1581; 1602; 1605;
  1602; 1609; 1602; 1610; 1603; 1575; 1603; 1580; 1603; 1581; 1603; 1582; 1603; 1604; 1603; 1605;
  1603; 1609; 1603; 1610; 1604; 1580; 1604; 1581; 1604; 1582; 1604; 1605; 1604; 1609; 1604; 1610;
  1605; 1580; 1605; 1581; 1605; 1582; 1605; 1605; 1605; 1609; 1605; 1610; 1606; 1580; 1606; 1581;
  1606; 1582; 1606; 1605; 1606; 1609; 1606; 1610; 1607; 1580; 1607; 1605; 1607; 1609; 1607; 1610;
  1610; 1580; 1610; 1581; 1610; 1582; 1610; 1605; 1610; 1609; 1610; 1610; 1584; 1648; 1585; 1648;
  1609; 1648; 32; 1612; 1617; 32; 1613; 1617; 32; 1614; 1617; 32; 1615; 1617; 32; 1616; 1617; 32;
  1617; 1648; 1610; 1620; 1585; 1610; 1620; 1586; 1610; 1620; 1605; 1610; 1620; 1606; 1610; 1620;
  1609; 1610; 1620; 1610; 1576; 1585; 1576; 1586; 1576; 1605; 1576; 1606; 1576; 1609; 1576; 1610;
  1578; 1585; 1578; 1586; 1578; 1605; 1578; 1606; 1578; 1609; 1578; 1610; 1579; 1585; 1579; 1586;
  1579; 1605; 1579; 1606; 1579; 1609; 1579; 1610; 1601; 1609; 1601; 1610; 1602; 1609; 1602; 1610;
  1603; 1575; 1603; 1604; 1603; 1605; 1603; 1609; 1603; 1610; 1604; 1605; 1604; 1609; 1604; 1610;
  1605; 1575; 1605; 1605; 1606; 1585; 1606; 1586; 1606; 1605; 1606; 1606; 1606; 1609; 1606; 1610;
  1609; 1648; 1610; 1585; 1610; 1586; 1610; 1605; 1610; 1606; 1610; 1609; 1610; 1610; 1610; 1620;
  1580; 1610; 1620; 1581; 1610; 1620; 1582; 1610; 1620; 1605; 1610; 1620; 1607; 1576; 1580; 1576;
  1581; 1576; 1582; 1576; 1605; 1576; 1607; 1578; 1580; 1578; 1581; 1578; 1582; 1578; 1605; 1578;
  1607; 1579; 1605; 1580; 1581; 1580; 1605; 1581; 1580; 1581; 1605; 1582; 1580; 1582; 1605; 1587;
  1580; 1587; 1581; 1587; 1582; 1587; 1605; 1589; 1581; 1589; 1582; 1589; 1605; 1590; 1580; 1590;
  1581; 1590; 1582; 1590; 1605; 1591; 1581; 1592; 1605; 1593; 1580; 1593; 1605; 1594; 1580; 1594;
  1605; 1601; 1580; 1601; 1581; 1601; 1582; 1601; 1605; 1602; 1581; 1602; 1605; 1603; 1580; 1603;
  1581; 1603; 1582; 1603; 1604; 1603; 1605; 1604; 1580; 1604; 1581; 1604; 1582; 1604; 1605; 1604;
  1607; 1605; 1580; 1605; 1581; 1605; 1582; 1605; 1605; 1606; 1580; 1606; 1581; 1606; 1582; 1606;
  1605; 1606; 1607; 1607; 1580; 1607; 1605; 1607; 1648; 1610; 1580; 1610; 1581; 1610; 1582; 1610;
  1605; 1610; 1607; 1610; 1620; 1605; 1610; 1620; 1607; 1576; 1605; 1576; 1607; 1578; 1605; 1578;
  1607; 1579; 1605; 1579; 1607; 1587; 1605; 1587; 1607; 1588; 1605; 1588; 1607; 1603; 1604; 1603;
  1605; 1604; 1605; 1606; 1605; 1606; 1607; 1610; 1605; 1610; 1607; 1600; 1614; 1617; 1600; 1615;
  1617; 1600; 1616; 1617; 1591; 1609; 1591; 1610; 1593; 1609; 1593; 1610; 1594; 1609; 1594; 1610;
  1587; 1609; 1587; 1610; 1588; 1609; 1588; 1610; 1581; 1609; 1581; 1610; 1580; 1609; 1580; 1610;
  1582; 1609; 1582; 1610; 1589; 1609; 1589; 1610; 1590; 1609; 1590; 1610; 1588; 1580; 1588; 1581;
  1588; 1582; 1588; 1605; 1588; 1585; 1587; 1585; 1589; 1585; 1590; 1585; 1591; 1609; 1591; 1610;
  1593; 1609; 1593; 1610; 1594; 1609; 1594; 1610; 1587; 1609; 1587; 1610; 1588; 1609; 1588; 1610;
  1581; 1609; 1581; 1610; 1580; 1609; 1580; 1610; 1582; 1609; 1582; 1610; 1589; 1609; 1589; 1610;
  1590; 1609; 1590; 1610; 1588; 1580; 1588; 1581; 1588; 1582; 1588; 1605; 1588; 1585; 1587; 1585;
  1589; 1585; 1590; 1585; 1588; 1580; 1588; 1581; 1588; 1582; 1588; 1605; 1587; 1607; 1588; 1607;
  1591; 1605; 1587; 1580; 1587; 1581; 1587; 1582; 1588; 1580; 1588; 1581; 1588; 1582; 1591; 1605;
  1592; 1605; 1575; 1611; 1575; 1611; 1578; 1580; 1605; 1578; 1581; 1580; 1578; 1581; 1580; 1578;
  1581; 1605; 1578; 1582; 1605; 1578; 1605; 1580; 1578; 1605; 1581; 1578; 1605; 1582; 1580; 1605;
  1581; 1580; 1605; 1581; 1581; 1605; 1610; 1581; 1605; 1609; 1587; 1581; 1580; 1587; 1580; 1581;
  1587; 1580; 1609; 1587; 1605; 1581; 1587; 1605; 1581; 1587; 1605; 1580; 1587; 1605; 1605; 1587;
  1605; 1605; 1589; 1581; 1581; 1589; 1581; 1581; 1589; 1605; 1605; 1588; 1581; 1605; 1588; 1581;
  1605; 1588; 1580; 1610; 1588; 1605; 1582; 1588; 1605; 1582; 1588; 1605; 1605; 1588; 1605; 1605;
  1590; 1581; 1609; 1590; 1582; 1605; 1590; 1582; 1605; 1591; 1605; 1581; 1591; 1605; 1581; 1591;
  1605; 1605; 1591; 1605; 1610; 1593; 1580; 1605; 1593; 1605; 1605; 1593; 1605; 1605; 1593; 1605;
  1609; 1594; 1605; 1605; 1594; 1605; 1610; 1594; 1605; 1609; 1601; 1582; 1605; 1601; 1582; 1605;
  1602; 1605; 1581; 1602; 1605; 1605; 1604; 1581; 1605; 1604; 1581; 1610; 1604; 1581; 1609; 1604;
  1580; 1580; 1604; 1580; 1580; 1604; 1582; 1605; 1604; 1582; 1605; 1604; 1605; 1581; 1604; 1605;
  1581; 1605; 1581; 1580; 1605; 1581; 1605; 1605; 1581; 1610; 1605; 1580; 1581; 1605; 1580; 1605;
  1605; 1582; 1580; 1605; 1582; 1605; 1605; 1580; 1582; 1607; 1605; 1580; 1607; 1605; 1605; 1606;
  1581; 1605; 1606; 1581; 1609; 1606; 1580; 1605; 1606; 1580; 1605; 1606; 1580; 1609; 1606; 1605;
  1610; 1606; 1605; 1609; 1610; 1605; 1605; 1610; 1605; 1605; 1576; 1582; 1610; 1578; 1580; 1610;
  1578; 1580; 1609; 1578; 1582; 1610; 1578; 1582; 1609; 1578; 1605; 1610; 1578; 1605; 1609; 1580;
  1605; 1610; 1580; 1581; 1609; 1580; 1605; 1609; 1587; 1582; 1609; 1589; 1581; 1610; 1588; 1581;
  1610; 1590; 1581; 1610; 1604; 1580; 1610; 1604; 1605; 1610; 1610; 1581; 1610; 1610; 1580; 1610;
  1610; 1605; 1610; 1605; 1605; 1610; 1602; 1605; 1610; 1606; 1581; 1610; 1602; 1605; 1581; 1604;
  1581; 1605; 1593; 1605; 1610; 1603; 1605; 1610; 1606; 1580; 1581; 1605; 1582; 1610; 1604; 1580;
  1605; 1603; 1605; 1605; 1604; 1580; 1605; 1606; 1580; 1581; 1580; 1581; 1610; 1581; 1580; 1610;
  1605; 1580; 1610; 1601; 1605; 1610; 1576; 1581; 1610; 1603; 1605; 1605; 1593; 1580; 1605; 1589;
  1605; 1605; 1587; 1582; 1610; 1606; 1580; 1610; 1589; 1604; 1746; 1602; 1604; 1746; 1575; 1604;
  1604; 1607; 1575; 1603; 1576; 1585; 1605; 1581; 1605; 1583; 1589; 1604; 1593; 1605; 1585; 1587;
  1608; 1604; 1593; 1604; 1610; 1607; 1608; 1587; 1604; 1605; 1589; 1604; 1609; 1589; 1604; 1609;
  32; 1575; 1604; 1604; 1607; 32; 1593; 1604; 1610; 1607; 32; 1608; 1587; 1604; 1605; 1580; 1604;
  32; 1580; 1604; 1575; 1604; 1607; 1585; 1740; 1575; 1604; 44; 12289; 12290; 58; 59; 33; 63;
  12310; 12311; 46; 46; 46; 46; 46; 8212; 8211; 95; 95; 40; 41; 123; 125; 12308; 12309; 12304;
  12305; 12298; 12299; 12296; 12297; 12300; 12301; 12302; 12303; 91; 93; 32; 773; 32; 773; 32; 773;
  32; 773; 95; 95; 95; 44; 12289; 46; 59; 58; 63; 33; 8212; 40; 41; 123; 125; 12308; 12309; 35; 38;
  42; 43; 45; 60; 62; 61; 92; 36; 37; 64; 32; 1611; 1600; 1611; 32; 1612; 32; 1613; 32; 1614; 1600;
  1614; 32; 1615; 1600; 1615; 32; 1616; 1600; 1616; 32; 1617; 1600; 1617; 32; 1618; 1600; 1618;
  1569; 1575; 1619; 1575; 1619; 1575; 1620; 1575; 1620; 1608; 1620; 1608; 1620; 1575; 1621; 1575;
  1621; 1610; 1620; 1610; 1620; 1610; 1620; 1610; 1620; 1575; 1575; 1576; 1576; 1576; 1576; 1577;
  1577; 1578; 1578; 1578; 1578; 1579; 1579; 1579; 1579; 1580; 1580; 1580; 1580; 1581; 1581; 1581;
  1581; 1582; 1582; 1582; 1582; 1583; 1583; 1584; 1584; 1585; 1585; 1586; 1586; 1587; 1587; 1587;
  1587; 1588; 1588; 1588; 1588; 1589; 1589; 1589; 1589; 1590; 1590; 1590; 1590; 1591; 1591; 1591;
  1591; 1592; 1592; 1592; 1592; 1593; 1593; 1593; 1593; 1594; 1594; 1594; 1594; 1601; 1601; 1601;
  1601; 1602; 1602; 1602; 1602; 1603; 1603; 1603; 1603; 1604; 1604; 1604; 1604; 1605; 1605; 1605;
  1605; 1606; 1606; 1606; 1606; 1607; 1607; 1607; 1607; 1608; 1608; 1609; 1609; 1610; 1610; 1610;
  1610; 1604; 1575; 1619; 1604; 1575; 1619; 1604; 1575; 1620; 1604; 1575; 1620; 1604; 1575; 1621;
  1604; 1575; 1621; 1604; 1575; 1604; 1575; 33; 34; 35; 36; 37; 38; 39; 40; 41; 42; 43; 44; 45; 46;
  47; 48; 49; 50; 51; 52; 53; 54; 55; 56; 57; 58; 59; 60; 61; 62; 63; 64; 65; 66; 67; 68; 69; 70;
  71; 72; 73; 74; 75; 76; 77; 78; 79; 80; 81; 82; 83; 84; 85; 86; 87; 88; 89; 90; 91; 92; 93; 94;
  95; 96; 97; 98; 99; 100; 101; 102; 103; 104; 105; 106; 107; 108; 109; 110; 111; 112; 113; 114;
  115; 116; 117; 118; 119; 120; 121; 122; 123; 124; 125; 126; 10629; 10630; 12290; 12300; 12301;
  12289; 12539; 12530; 12449; 12451; 12453; 12455; 12457; 12515; 12517; 12519; 12483; 12540; 12450;
  12452; 12454; 12456; 12458; 12459; 12461; 12463; 12465; 12467; 12469; 12471; 12473; 12475; 12477;
  12479; 12481; 12484; 12486; 12488; 12490; 12491; 12492; 12493; 12494; 12495; 12498; 12501; 12504;
  12507; 12510; 12511; 12512; 12513; 12514; 12516; 12518; 12520; 12521; 12522; 12523; 12524; 12525;
  12527; 12531; 12441; 12442; 4448; 4352; 4353; 4522; 4354; 4524; 4525; 4355; 4356; 4357; 4528;
  4529; 4530; 4531; 4532; 4533; 4378; 4358; 4359; 4360; 4385; 4361; 4362; 4363; 4364; 4365; 4366;
  4367; 4368; 4369; 4370; 4449; 4450; 4451; 4452; 4453; 4454; 4455; 4456; 4457; 4458; 4459; 4460;
  4461; 4462; 4463; 4464; 4465; 4466; 4467; 4468; 4469; 162; 163; 172; 32; 772; 166; 165; 8361;
  9474; 8592; 8593; 8594; 8595; 9632; 9675; 720; 721; 230; 665; 595; 675; 43878; 677; 676; 598;
  599; 7569; 600; 606; 681; 612; 610; 608; 667; 295; 668; 615; 644; 682; 683; 620; 122628; 42894;
  622; 122629; 654; 122630; 248; 630; 631; 113; 634; 122632; 637; 638; 640; 680; 678; 43879; 679;
  648; 11377; 655; 673; 674; 664; 448; 449; 450; 122634; 122654; 69785; 69818; 69787; 69818; 69797;
  69818; 69937; 69927; 69938; 69927; 70471; 70462; 70471; 70487; 70841; 70842; 70841; 70832; 70841;
  70845; 71096; 71087; 71097; 71087; 71989; 71984; 119127; 119141; 119128; 119141; 119128; 119141;
  119150; 119128; 119141; 119151; 119128; 119141; 119152; 119128; 119141; 119153; 119128; 119141;
  119154; 119225; 119141; 119226; 119141; 119225; 119141; 119150; 119226; 119141; 119150; 119225;
  119141; 119151; 119226; 119141; 119151; 65; 66; 67; 68; 69; 70; 71; 72; 73; 74; 75; 76; 77; 78;
  79; 80; 81; 82; 83; 84; 85; 86; 87; 88; 89; 90; 97; 98; 99; 100; 101; 102; 103; 104; 105; 106;
  107; 108; 109; 110; 111; 112; 113; 114; 115; 116; 117; 118; 119; 120; 121; 122; 65; 66; 67; 68;
  69; 70; 71; 72; 73; 74; 75; 76; 77; 78; 79; 80; 81; 82; 83; 84; 85; 86; 87; 88; 89; 90; 97; 98;
  99; 100; 101; 102; 103; 105; 106; 107; 108; 109; 110; 111; 112; 113; 114; 115; 116; 117; 118;
  119; 120; 121; 122; 65; 66; 67; 68; 69; 70; 71; 72; 73; 74; 75; 76; 77; 78; 79; 80; 81; 82; 83;
  84; 85; 86; 87; 88; 89; 90; 97; 98; 99; 100; 101; 102; 103; 104; 105; 106; 107; 108; 109; 110;
  111; 112; 113; 114; 115; 116; 117; 118; 119; 120; 121; 122; 65; 67; 68; 71; 74; 75; 78; 79; 80;
  81; 83; 84; 85; 86; 87; 88; 89; 90; 97; 98; 99; 100; 102; 104; 105; 106; 107; 108; 109; 110; 112;
  113; 114; 115; 116; 117; 118; 119; 120; 121; 122; 65; 66; 67; 68; 69; 70; 71; 72; 73; 74; 75; 76;
  77; 78; 79; 80; 81; 82; 83; 84; 85; 86; 87; 88; 89; 90; 97; 98; 99; 100; 101; 102; 103; 104; 105;
  106; 107; 108; 109; 110; 111; 112; 113; 114; 115; 116; 117; 118; 119; 120; 121; 122; 65; 66; 68;
  69; 70; 71; 74; 75; 76; 77; 78; 79; 80; 81; 83; 84; 85; 86; 87; 88; 89; 97; 98; 99; 100; 101;
  102; 103; 104; 105; 106; 107; 108; 109; 110; 111; 112; 113; 114; 115; 116; 117; 118; 119; 120;
  121; 122; 65; 66; 68; 69; 70; 71; 73; 74; 75; 76; 77; 79; 83; 84; 85; 86; 87; 88; 89; 97; 98; 99;
  100; 101; 102; 103; 104; 105; 106; 107; 108; 109; 110; 111; 112; 113; 114; 115; 116; 117; 118;
  119; 120; 121; 122; 65; 66; 67; 68; 69; 70; 71; 72; 73; 74; 75; 76; 77; 78; 79; 80; 81; 82; 83;
  84; 85; 86; 87; 88; 89; 90; 97; 98; 99; 100; 101; 102; 103; 104; 105; 106; 107; 108; 109; 110;
  111; 112; 113; 114; 115; 116; 117; 118; 119; 120; 121; 122; 65; 66; 67; 68; 69; 70; 71; 72; 73;
  74; 75; 76; 77; 78; 79; 80; 81; 82; 83; 84; 85; 86; 87; 88; 89; 90; 97; 98; 99; 100; 101; 102;
  103; 104; 105; 106; 107; 108; 109; 110; 111; 112; 113; 114; 115; 116; 117; 118; 119; 120; 121;
  122; 65; 66; 67; 68; 69; 70; 71; 72; 73; 74; 75; 76; 77; 78; 79; 80; 81; 82; 83; 84; 85; 86; 87;
  88; 89; 90; 97; 98; 99; 100; 101; 102; 103; 104; 105; 106; 107; 108; 109; 110; 111; 112; 113;
  114; 115; 116; 117; 118; 119; 120; 121; 122; 65; 66; 67; 68; 69; 70; 71; 72; 73; 74; 75; 76; 77;
  78; 79; 80; 81; 82; 83; 84; 85; 86; 87; 88; 89; 90; 97; 98; 99; 100; 101; 102; 103; 104; 105;
  106; 107; 108; 109; 110; 111; 112; 113; 114; 115; 116; 117; 118; 119; 120; 121; 122; 65; 66; 67;
  68; 69; 70; 71; 72; 73; 74; 75; 76; 77; 78; 79; 80; 81; 82; 83; 84; 85; 86; 87; 88; 89; 90; 97;
  98; 99; 100; 101; 102; 103; 104; 105; 106; 107; 108; 109; 110; 111; 112; 113; 114; 115; 116; 117;
  118; 119; 120; 121; 122; 65; 66; 67; 68; 69; 70; 71; 72; 73; 74; 75; 76; 77; 78; 79; 80; 81; 82;
  83; 84; 85; 86; 87; 88; 89; 90; 97; 98; 99; 100; 101; 102; 103; 104; 105; 106; 107; 108; 109;
  110; 111; 112; 113; 114; 115; 116; 117; 118; 119; 120; 121; 122; 305; 567; 913; 914; 915; 916;
  917; 918; 919; 920; 921; 922; 923; 924; 925; 926; 927; 928; 929; 920; 931; 932; 933; 934; 935;
  936; 937; 8711; 945; 946; 947; 948; 949; 950; 951; 952; 953; 954; 955; 956; 957; 958; 959; 960;
  961; 962; 963; 964; 965; 966; 967; 968; 969; 8706; 949; 952; 954; 966; 961; 960; 913; 914; 915;
  916; 917; 918; 919; 920; 921; 922; 923; 924; 925; 926; 927; 928; 929; 920; 931; 932; 933; 934;
  935; 936; 937; 8711; 945; 946; 947; 948; 949; 950; 951; 952; 953; 954; 955; 956; 957; 958; 959;
  960; 961; 962; 963; 964; 965; 966; 967; 968; 969; 8706; 949; 952; 954; 966; 961; 960; 913; 914;
  915; 916; 917; 918; 919; 920; 921; 922; 923; 924; 925; 926; 927; 928; 929; 920; 931; 932; 933;
  934; 935; 936; 937; 8711; 945; 946; 947; 948; 949; 950; 951; 952; 953; 954; 955; 956; 957; 958;
  959; 960; 961; 962; 963; 964; 965; 966; 967; 968; 969; 8706; 949; 952; 954; 966; 961; 960; 913;
  914; 915; 916; 917; 918; 919; 920; 921; 922; 923; 924; 925; 926; 927; 928; 929; 920; 931; 932;
  933; 934; 935; 936; 937; 8711; 945; 946; 947; 948; 949; 950; 951; 952; 953; 954; 955; 956; 957;
  958; 959; 960; 961; 962; 963; 964; 965; 966; 967; 968; 969; 8706; 949; 952; 954; 966; 961; 960;
  913; 914; 915; 916; 917; 918; 919; 920; 921; 922; 923; 924; 925; 926; 927; 928; 929; 920; 931;
  932; 933; 934; 935; 936; 937; 8711; 945; 946; 947; 948; 949; 950; 951; 952; 953; 954; 955; 956;
  957; 958; 959; 960; 961; 962; 963; 964; 965; 966; 967; 968; 969; 8706; 949; 952; 954; 966; 961;
  960; 988; 989; 48; 49; 50; 51; 52; 53; 54; 55; 56; 57; 48; 49; 50; 51; 52; 53; 54; 55; 56; 57;
  48; 49; 50; 51; 52; 53; 54; 55; 56; 57; 48; 49; 50; 51; 52; 53; 54; 55; 56; 57; 48; 49; 50; 51;
  52; 53; 54; 55; 56; 57; 1575; 1576; 1580; 1583; 1608; 1586; 1581; 1591; 1610; 1603; 1604; 1605;
  1606; 1587; 1593; 1601; 1589; 1602; 1585; 1588; 1578; 1579; 1582; 1584; 1590; 1592; 1594; 1646;
  1722; 1697; 1647; 1576; 1580; 1607; 1581; 1610; 1603; 1604; 1605; 1606; 1587; 1593; 1601; 1589;
  1602; 1588; 1578; 1579; 1582; 1590; 1594; 1580; 1581; 1610; 1604; 1606; 1587; 1593; 1589; 1602;
  1588; 1582; 1590; 1594; 1722; 1647; 1576; 1580; 1607; 1581; 1591; 1610; 1603; 1605; 1606; 1587;
  1593; 1601; 1589; 1602; 1588; 1578; 1579; 1582; 1590; 1592; 1594; 1646; 1697; 1575; 1576; 1580;
  1583; 1607; 1608; 1586; 1581; 1591; 1610; 1604; 1605; 1606; 1587; 1593; 1601; 1589; 1602; 1585;
  1588; 1578; 1579; 1582; 1584; 1590; 1592; 1594; 1576; 1580; 1583; 1608; 1586; 1581; 1591; 1610;
  1604; 1605; 1606; 1587; 1593; 1601; 1589; 1602; 1585; 1588; 1578; 1579; 1582; 1584; 1590; 1592;
  1594; 48; 46; 48; 44; 49; 44; 50; 44; 51; 44; 52; 44; 53; 44; 54; 44; 55; 44; 56; 44; 57; 44; 40;
  65; 41; 40; 66; 41; 40; 67; 41; 40; 68; 41; 40; 69; 41; 40; 70; 41; 40; 71; 41; 40; 72; 41; 40;
  73; 41; 40; 74; 41; 40; 75; 41; 40; 76; 41; 40; 77; 41; 40; 78; 41; 40; 79; 41; 40; 80; 41; 40;
  81; 41; 40; 82; 41; 40; 83; 41; 40; 84; 41; 40; 85; 41; 40; 86; 41; 40; 87; 41; 40; 88; 41; 40;
  89; 41; 40; 90; 41; 12308; 83; 12309; 67; 82; 67; 68; 87; 90; 65; 66; 67; 68; 69; 70; 71; 72; 73;
  74; 75; 76; 77; 78; 79; 80; 81; 82; 83; 84; 85; 86; 87; 88; 89; 90; 72; 86; 77; 86; 83; 68; 83;
  83; 80; 80; 86; 87; 67; 77; 67; 77; 68; 77; 82; 68; 74; 12411; 12363; 12467; 12467; 12469; 25163;
  23383; 21452; 12486; 12441; 20108; 22810; 35299; 22825; 20132; 26144; 28961; 26009; 21069; 24460;
  20877; 26032; 21021; 32066; 29983; 36009; 22768; 21561; 28436; 25237; 25429; 19968; 19977; 36938;
  24038; 20013; 21491; 25351; 36208; 25171; 31105; 31354; 21512; 28288; 26377; 26376; 30003; 21106;
  21942; 37197; 12308; 26412; 12309; 12308; 19977; 12309; 12308; 20108; 12309; 12308; 23433; 12309;
  12308; 28857; 12309; 12308; 25171; 12309; 12308; 30423; 12309; 12308; 21213; 12309; 12308; 25943;
  12309; 24471; 21487; 48; 49; 50; 51; 52; 53; 54; 55; 56; 57; 20029; 20024; 20033; 131362; 20320;
  20398; 20411; 20482; 20602; 20633; 20711; 20687; 13470; 132666; 20813; 20820; 20836; 20855;
  132380; 13497; 20839; 20877; 132427; 20887; 20900; 20172; 20908; 20917; 168415; 20981; 20995;
  13535; 21051; 21062; 21106; 21111; 13589; 21191; 21193; 21220; 21242; 21253; 21254; 21271; 21321;
  21329; 21338; 21363; 21373; 21375; 21375; 21375; 133676; 28784; 21450; 21471; 133987; 21483;
  21489; 21510; 21662; 21560; 21576; 21608; 21666; 21750; 21776; 21843; 21859; 21892; 21892; 21913;
  21931; 21939; 21954; 22294; 22022; 22295; 22097; 22132; 20999; 22766; 22478; 22516; 22541; 22411;
  22578; 22577; 22700; 136420; 22770; 22775; 22790; 22810; 22818; 22882; 136872; 136938; 23020;
  23067; 23079; 23000; 23142; 14062; 14076; 23304; 23358; 23358; 137672; 23491; 23512; 23527;
  23539; 138008; 23551; 23558; 24403; 23586; 14209; 23648; 23662; 23744; 23693; 138724; 23875;
  138726; 23918; 23915; 23932; 24033; 24034; 14383; 24061; 24104; 24125; 24169; 14434; 139651;
  14460; 24240; 24243; 24246; 24266; 172946; 24318; 140081; 140081; 33281; 24354; 24354; 14535;
  144056; 156122; 24418; 24427; 14563; 24474; 24525; 24535; 24569; 24705; 14650; 14620; 24724;
  141012; 24775; 24904; 24908; 24910; 24908; 24954; 24974; 25010; 24996; 25007; 25054; 25074;
  25078; 25104; 25115; 25181; 25265; 25300; 25424; 142092; 25405; 25340; 25448; 25475; 25572;
  142321; 25634; 25541; 25513; 14894; 25705; 25726; 25757; 25719; 14956; 25935; 25964; 143370;
  26083; 26360; 26185; 15129; 26257; 15112; 15076; 20882; 20885; 26368; 26268; 32941; 17369; 26391;
  26395; 26401; 26462; 26451; 144323; 15177; 26618; 26501; 26706; 26757; 144493; 26766; 26655;
  26900; 15261; 26946; 27043; 27114; 27304; 145059; 27355; 15384; 27425; 145575; 27476; 15438;
  27506; 27551; 27578; 27579; 146061; 138507; 146170; 27726; 146620; 27839; 27853; 27751; 27926;
  27966; 28023; 27969; 28009; 28024; 28037; 146718; 27956; 28207; 28270; 15667; 28363; 28359;
  147153; 28153; 28526; 147294; 147342; 28614; 28729; 28702; 28699; 15766; 28746; 28797; 28791;
  28845; 132389; 28997; 148067; 29084; 148395; 29224; 29237; 29264; 149000; 29312; 29333; 149301;
  149524; 29562; 29579; 16044; 29605; 16056; 16056; 29767; 29788; 29809; 29829; 29898; 16155;
  29988; 150582; 30014; 150674; 30064; 139679; 30224; 151457; 151480; 151620; 16380; 16392; 30452;
  151795; 151794; 151833; 151859; 30494; 30495; 30495; 30538; 16441; 30603; 16454; 16534; 152605;
  30798; 30860; 30924; 16611; 153126; 31062; 153242; 153285; 31119; 31211; 16687; 31296; 31306;
  31311; 153980; 154279; 154279; 31470; 16898; 154539; 31686; 31689; 16935; 154752; 31954; 17056;
  31976; 31971; 32000; 155526; 32099; 17153; 32199; 32258; 32325; 17204; 156200; 156231; 17241;
  156377; 32634; 156478; 32661; 32762; 32773; 156890; 156963; 32864; 157096; 32880; 144223; 17365;
  32946; 33027; 17419; 33086; 23221; 157607; 157621; 144275; 144284; 33281; 33284; 36766; 17515;
  33425; 33419; 33437; 21171; 33457; 33459; 33469; 33510; 158524; 33509; 33565; 33635; 33709;
  33571; 33725; 33767; 33879; 33619; 33738; 33740; 33756; 158774; 159083; 158933; 17707; 34033;
  34035; 34070; 160714; 34148; 159532; 17757; 17761; 159665; 159954; 17771; 34384; 34396; 34407;
  34409; 34473; 34440; 34574; 34530; 34681; 34600; 34667; 34694; 17879; 34785; 34817; 17913; 34912;
  34915; 161383; 35031; 35038; 17973; 35066; 13499; 161966; 162150; 18110; 18119; 35488; 35565;
  35722; 35925; 162984; 36011; 36033; 36123; 36215; 163631; 133124; 36299; 36284; 36336; 133342;
  36564; 36664; 165330; 165357; 37012; 37105; 37137; 165678; 37147; 37432; 37591; 37592; 37500;
  37881; 37909; 166906; 38283; 18837; 38327; 167287; 18918; 38595; 23986; 38691; 168261; 168474;
  19054; 19062; 38880; 168970; 19122; 169110; 38923; 38923; 38953; 169398; 39138; 19251; 39209;
  39335; 39362; 39422; 19406; 170800; 39698; 40000; 40189; 19662; 19693; 40295; 172238; 19704;
  172293; 172558; 172689; 40635; 19798; 40697; 40702; 40709; 40719; 40726; 40763; 173568
].

Definition CCC_TABLE : list (Z * Z) := [
  (768, 230); (769, 230); (770, 230); (771, 230); (772, 230); (773, 230); (774, 230); (775, 230);
  (776, 230); (777, 230); (778, 230); (779, 230); (780, 230); (781, 230); (782, 230); (783, 230);
  (784, 230); (785, 230); (786, 230); (787, 230); (788, 230); (789, 232); (790, 220); (791, 220);
  (792, 220); (793, 220); (794, 232); (795, 216); (796, 220); (797, 220); (798, 220); (799, 220);
  (800, 220); (801, 202); (802, 202); (803, 220); (804, 220); (805, 220); (806, 220); (807, 202);
  (808, 202); (809, 220); (810, 220); (811, 220); (812, 220); (813, 220); (814, 220); (815, 220);
  (816, 220); (817, 220); (818, 220); (819, 220); (820, 1); (821, 1); (822, 1); (823, 1); (824, 1);
  (825, 220); (826, 220); (827, 220); (828, 220); (829, 230); (830, 230); (831, 230); (832, 230);
  (833, 230); (834, 230); (835, 230); (836, 230); (837, 240); (838, 230); (839, 220); (840, 220);
  (841, 220); (842, 230); (843, 230); (844, 230); (845, 220); (846, 220); (848, 230); (849, 230);
  (850, 230); (851, 220); (852, 220); (853, 220); (854, 220); (855, 230); (856, 232); (857, 220);
  (858, 220); (859, 230); (860, 233); (861, 234); (862, 234); (863, 233); (864, 234); (865, 234);
  (866, 233); (867, 230); (868, 230); (869, 230); (870, 230); (871, 230); (872, 230); (873, 230);
  (874, 230); (875, 230); (876, 230); (877, 230); (878, 230); (879, 230); (1155, 230); (1156, 230);
  (1157, 230); (1158, 230); (1159, 230); (1425, 220); (1426, 230); (1427, 230); (1428, 230);
  (1429, 230); (1430, 220); (1431, 230); (1432, 230); (1433, 230); (1434, 222); (1435, 220);
  (1436, 230); (1437, 230); (1438, 230); (1439, 230); (1440, 230); (1441, 230); (1442, 220);
  (1443, 220); (1444, 220); (1445, 220); (1446, 220); (1447, 220); (1448, 230); (1449, 230);
  (1450, 220); (1451, 230); (1452, 230); (1453, 222); (1454, 228); (1455, 230); (1456, 10);
  (1457, 11); (1458, 12); (1459, 13); (1460, 14); (1461, 15); (1462, 16); (1463, 17); (1464, 18);
  (1465, 19); (1466, 19); (1467, 20); (1468, 21); (1469, 22); (1471, 23); (1473, 24); (1474, 25);
  (1476, 230); (1477, 220); (1479, 18); (1552, 230); (1553, 230); (1554, 230); (1555, 230);
  (1556, 230); (1557, 230); (1558, 230); (1559, 230); (1560, 30); (1561, 31); (1562, 32);
  (1611, 27); (1612, 28); (1613, 29); (1614, 30); (1615, 31); (1616, 32); (1617, 33); (1618, 34);
  (1619, 230); (1620, 230); (1621, 220); (1622, 220); (1623, 230); (1624, 230); (1625, 230);
  (1626, 230); (1627, 230); (1628, 220); (1629, 230); (1630, 230); (1631, 220); (1648, 35);
  (1750, 230); (1751, 230); (1752, 230); (1753, 230); (1754, 230); (1755, 230); (1756, 230);
  (1759, 230); (1760, 230); (1761, 230); (1762, 230); (1763, 220); (1764, 230); (1767, 230);
  (1768, 230); (1770, 220); (1771, 230); (1772, 230); (1773, 220); (1809, 36); (1840, 230);
  (1841, 220); (1842, 230); (1843, 230); (1844, 220); (1845, 230); (1846, 230); (1847, 220);
  (1848, 220); (1849, 220); (1850, 230); (1851, 220); (1852, 220); (1853, 230); (1854, 220);
  (1855, 230); (1856, 230); (1857, 230); (1858, 220); (1859, 230); (1860, 220); (1861, 230);
  (1862, 220); (1863, 230); (1864, 220); (1865, 230); (1866, 230); (2027, 230); (2028, 230);
  (2029, 230); (2030, 230); (2031, 230); (2032, 230); (2033, 230); (2034, 220); (2035, 230);
  (2045, 220); (2070, 230); (2071, 230); (2072, 230); (2073, 230); (2075, 230); (2076, 230);
  (2077, 230); (2078, 230); (2079, 230); (2080, 230); (2081, 230); (2082, 230); (2083, 230);
  (2085, 230); (2086, 230); (2087, 230); (2089, 230); (2090, 230); (2091, 230); (2092, 230);
  (2093, 230); (2137, 220); (2138, 220); (2139, 220); (2200, 230); (2201, 220); (2202, 220);
  (2203, 220); (2204, 230); (2205, 230); (2206, 230); (2207, 230); (2250, 230); (2251, 230);
  (2252, 230); (2253, 230); (2254, 230); (2255, 220); (2256, 220); (2257, 220); (2258, 220);
  (2259, 220); (2260, 230); (2261, 230); (2262, 230); (2263, 230); (2264, 230); (2265, 230);
  (2266, 230); (2267, 230); (2268, 230); (2269, 230); (2270, 230); (2271, 230); (2272, 230);
  (2273, 230); (2275, 220); (2276, 230); (2277, 230); (2278, 220); (2279, 230); (2280, 230);
  (2281, 220); (2282, 230); (2283, 230); (2284, 230); (2285, 220); (2286, 220); (2287, 220);
  (2288, 27); (2289, 28); (2290, 29); (2291, 230); (2292, 230); (2293, 230); (2294, 220);
  (2295, 230); (2296, 230); (2297, 220); (2298, 220); (2299, 230); (2300, 230); (2301, 230);
  (2302, 230); (2303, 230); (2364, 7); (2381, 9); (2385, 230); (2386, 220); (2387, 230);
  (2388, 230); (2492, 7); (2509, 9); (2558, 230); (2620, 7); (2637, 9); (2748, 7); (2765, 9);
  (2876, 7); (2893, 9); (3021, 9); (3132, 7); (3149, 9); (3157, 84); (3158, 91); (3260, 7);
  (3277, 9); (3387, 9); (3388, 9); (3405, 9); (3530, 9); (3640, 103); (3641, 103); (3642, 9);
  (3656, 107); (3657, 107); (3658, 107); (3659, 107); (3768, 118); (3769, 118); (3770, 9);
  (3784, 122); (3785, 122); (3786, 122); (3787, 122); (3864, 220); (3865, 220); (3893, 220);
  (3895, 220); (3897, 216); (3953, 129); (3954, 130); (3956, 132); (3962, 130); (3963, 130);
  (3964, 130); (3965, 130); (3968, 130); (3970, 230); (3971, 230); (3972, 9); (3974, 230);
  (3975, 230); (4038, 220); (4151, 7); (4153, 9); (4154, 9); (4237, 220); (4957, 230); (4958, 230);
  (4959, 230); (5908, 9); (5909, 9); (5940, 9); (6098, 9); (6109, 230); (6313, 228); (6457, 222);
  (6458, 230); (6459, 220); (6679, 230); (6680, 220); (6752, 9); (6773, 230); (6774, 230);
  (6775, 230); (6776, 230); (6777, 230); (6778, 230); (6779, 230); (6780, 230); (6783, 220);
  (6832, 230); (6833, 230); (6834, 230); (6835, 230); (6836, 230); (6837, 220); (6838, 220);
  (6839, 220); (6840, 220); (6841, 220); (6842, 220); (6843, 230); (6844, 230); (6845, 220);
  (6847, 220); (6848, 220); (6849, 230); (6850, 230); (6851, 220); (6852, 220); (6853, 230);
  (6854, 230); (6855, 230); (6856, 230); (6857, 230); (6858, 220); (6859, 230); (6860, 230);
  (6861, 230); (6862, 230); (6964, 7); (6980, 9); (7019, 230); (7020, 220); (7021, 230);
  (7022, 230); (7023, 230); (7024, 230); (7025, 230); (7026, 230); (7027, 230); (7082, 9);
  (7083, 9); (7142, 7); (7154, 9); (7155, 9); (7223, 7); (7376, 230); (7377, 230); (7378, 230);
  (7380, 1); (7381, 220); (7382, 220); (7383, 220); (7384, 220); (7385, 220); (7386, 230);
  (7387, 230); (7388, 220); (7389, 220); (7390, 220); (7391, 220); (7392, 230); (7394, 1);
  (7395, 1); (7396, 1); (7397, 1); (7398, 1); (7399, 1); (7400, 1); (7405, 220); (7412, 230);
  (7416, 230); (7417, 230); (7616, 230); (7617, 230); (7618, 220); (7619, 230); (7620, 230);
  (7621, 230); (7622, 230); (7623, 230); (7624, 230); (7625, 230); (7626, 220); (7627, 230);
  (7628, 230); (7629, 234); (7630, 214); (7631, 220); (7632, 202); (7633, 230); (7634, 230);
  (7635, 230); (7636, 230); (7637, 230); (7638, 230); (7639, 230); (7640, 230); (7641, 230);
  (7642, 230); (7643, 230); (7644, 230); (7645, 230); (7646, 230); (7647, 230); (7648, 230);
  (7649, 230); (7650, 230); (7651, 230); (7652, 230); (7653, 230); (7654, 230); (7655, 230);
  (7656, 230); (7657, 230); (7658, 230); (7659, 230); (7660, 230); (7661, 230); (7662, 230);
  (7663, 230); (7664, 230); (7665, 230); (7666, 230); (7667, 230); (7668, 230); (7669, 230);
  (7670, 232); (7671, 228); (7672, 228); (7673, 220); (7674, 218); (7675, 230); (7676, 233);
  (7677, 220); (7678, 230); (7679, 220); (8400, 230); (8401, 230); (8402, 1); (8403, 1);
  (8404, 230); (8405, 230); (8406, 230); (8407, 230); (8408, 1); (8409, 1); (8410, 1); (8411, 230);
  (8412, 230); (8417, 230); (8421, 1); (8422, 1); (8423, 230); (8424, 220); (8425, 230); (8426, 1);
  (8427, 1); (8428, 220); (8429, 220); (8430, 220); (8431, 220); (8432, 230); (11503, 230);
  (11504, 230); (11505, 230); (11647, 9); (11744, 230); (11745, 230); (11746, 230); (11747, 230);
  (11748, 230); (11749, 230); (11750, 230); (11751, 230); (11752, 230); (11753, 230); (11754, 230);
  (11755, 230); (11756, 230); (11757, 230); (11758, 230); (11759, 230); (11760, 230); (11761, 230);
  (11762, 230); (11763, 230); (11764, 230); (11765, 230); (11766, 230); (11767, 230); (11768, 230);
  (11769, 230); (11770, 230); (11771, 230); (11772, 230); (11773, 230); (11774, 230); (11775, 230);
  (12330, 218); (12331, 228); (12332, 232); (12333, 222); (12334, 224); (12335, 224); (12441, 8);
  (12442, 8); (42607, 230); (42612, 230); (42613, 230); (42614, 230); (42615, 230); (42616, 230);
  (42617, 230); (42618, 230); (42619, 230); (42620, 230); (42621, 230); (42654, 230); (42655, 230);
  (42736, 230); (42737, 230); (43014, 9); (43052, 9); (43204, 9); (43232, 230); (43233, 230);
  (43234, 230); (43235, 230); (43236, 230); (43237, 230); (43238, 230); (43239, 230); (43240, 230);
  (43241, 230); (43242, 230); (43243, 230); (43244, 230); (43245, 230); (43246, 230); (43247, 230);
  (43248, 230); (43249, 230); (43307, 220); (43308, 220); (43309, 220); (43347, 9); (43443, 7);
  (43456, 9); (43696, 230); (43698, 230); (43699, 230); (43700, 220); (43703, 230); (43704, 230);
  (43710, 230); (43711, 230); (43713, 230); (43766, 9); (44013, 9); (64286, 26); (65056, 230);
  (65057, 230); (65058, 230); (65059, 230); (65060, 230); (65061, 230); (65062, 230); (65063, 220);
  (65064, 220); (65065, 220); (65066, 220); (65067, 220); (65068, 220); (65069, 220); (65070, 230);
  (65071, 230); (66045, 220); (66272, 220); (66422, 230); (66423, 230); (66424, 230); (66425, 230);
  (66426, 230); (68109, 220); (68111, 230); (68152, 230); (68153, 1); (68154, 220); (68159, 9);
  (68325, 230); (68326, 220); (68900, 230); (68901, 230); (68902, 230); (68903, 230); (69291, 230);
  (69292, 230); (69446, 220); (69447, 220); (69448, 230); (69449, 230); (69450, 230); (69451, 220);
  (69452, 230); (69453, 220); (69454, 220); (69455, 220); (69456, 220); (69506, 230); (69507, 220);
  (69508, 230); (69509, 220); (69702, 9); (69744, 9); (69759, 9); (69817, 9); (69818, 7);
  (69888, 230); (69889, 230); (69890, 230); (69939, 9); (69940, 9); (70003, 7); (70080, 9);
  (70090, 7); (70197, 9); (70198, 7); (70377, 7); (70378, 9); (70459, 7); (70460, 7); (70477, 9);
  (70502, 230); (70503, 230); (70504, 230); (70505, 230); (70506, 230); (70507, 230); (70508, 230);
  (70512, 230); (70513, 230); (70514, 230); (70515, 230); (70516, 230); (70722, 9); (70726, 7);
  (70750, 230); (70850, 9); (70851, 7); (71103, 9); (71104, 7); (71231, 9); (71350, 9); (71351, 7);
  (71467, 9); (71737, 9); (71738, 7); (71997, 9); (71998, 9); (72003, 7); (72160, 9); (72244, 9);
  (72263, 9); (72345, 9); (72767, 9); (73026, 7); (73028, 9); (73029, 9); (73111, 9); (92912, 1);
  (92913, 1); (92914, 1); (92915, 1); (92916, 1); (92976, 230); (92977, 230); (92978, 230);
  (92979, 230); (92980, 230); (92981, 230); (92982, 230); (94192, 6); (94193, 6); (113822, 1);
  (119141, 216); (119142, 216); (119143, 1); (119144, 1); (119145, 1); (119149, 226);
  (119150, 216); (119151, 216); (119152, 216); (119153, 216); (119154, 216); (119163, 220);
  (119164, 220); (119165, 220); (119166, 220); (119167, 220); (119168, 220); (119169, 220);
  (119170, 220); (119173, 230); (119174, 230); (119175, 230); (119176, 230); (119177, 230);
  (119178, 220); (119179, 220); (119210, 230); (119211, 230); (119212, 230); (119213, 230);
  (119362, 230); (119363, 230); (119364, 230); (122880, 230); (122881, 230); (122882, 230);
  (122883, 230); (122884, 230); (122885, 230); (122886, 230); (122888, 230); (122889, 230);
  (122890, 230); (122891, 230); (122892, 230); (122893, 230); (122894, 230); (122895, 230);
  (122896, 230); (122897, 230); (122898, 230); (122899, 230); (122900, 230); (122901, 230);
  (122902, 230); (122903, 230); (122904, 230); (122907, 230); (122908, 230); (122909, 230);
  (122910, 230); (122911, 230); (122912, 230); (122913, 230); (122915, 230); (122916, 230);
  (122918, 230); (122919, 230); (122920, 230); (122921, 230); (122922, 230); (123184, 230);
  (123185, 230); (123186, 230); (123187, 230); (123188, 230); (123189, 230); (123190, 230);
  (123566, 230); (123628, 230); (123629, 230); (123630, 230); (123631, 230); (125136, 220);
  (125137, 220); (125138, 220); (125139, 220); (125140, 220); (125141, 220); (125142, 220);
  (125252, 230); (125253, 230); (125254, 230); (125255, 230); (125256, 230); (125257, 230);
  (125258, 7)
].

Definition COMPOSITION_PAIRS : list (Z * Z * Z) := [
  (60, 824, 8814); (61, 824, 8800); (62, 824, 8815); (65, 768, 192); (65, 769, 193);
  (65, 770, 194); (65, 771, 195); (65, 772, 256); (65, 774, 258); (65, 775, 550); (65, 776, 196);
  (65, 777, 7842); (65, 778, 197); (65, 780, 461); (65, 783, 512); (65, 785, 514); (65, 803, 7840);
  (65, 805, 7680); (65, 808, 260); (66, 775, 7682); (66, 803, 7684); (66, 817, 7686);
  (67, 769, 262); (67, 770, 264); (67, 775, 266); (67, 780, 268); (67, 807, 199); (68, 775, 7690);
  (68, 780, 270); (68, 803, 7692); (68, 807, 7696); (68, 813, 7698); (68, 817, 7694);
  (69, 768, 200); (69, 769, 201); (69, 770, 202); (69, 771, 7868); (69, 772, 274); (69, 774, 276);
  (69, 775, 278); (69, 776, 203); (69, 777, 7866); (69, 780, 282); (69, 783, 516); (69, 785, 518);
  (69, 803, 7864); (69, 807, 552); (69, 808, 280); (69, 813, 7704); (69, 816, 7706);
  (70, 775, 7710); (71, 769, 500); (71, 770, 284); (71, 772, 7712); (71, 774, 286); (71, 775, 288);
  (71, 780, 486); (71, 807, 290); (72, 770, 292); (72, 775, 7714); (72, 776, 7718); (72, 780, 542);
  (72, 803, 7716); (72, 807, 7720); (72, 814, 7722); (73, 768, 204); (73, 769, 205);
  (73, 770, 206); (73, 771, 296); (73, 772, 298); (73, 774, 300); (73, 775, 304); (73, 776, 207);
  (73, 777, 7880); (73, 780, 463); (73, 783, 520); (73, 785, 522); (73, 803, 7882); (73, 808, 302);
  (73, 816, 7724); (74, 770, 308); (75, 769, 7728); (75, 780, 488); (75, 803, 7730);
  (75, 807, 310); (75, 817, 7732); (76, 769, 313); (76, 780, 317); (76, 803, 7734); (76, 807, 315);
  (76, 813, 7740); (76, 817, 7738); (77, 769, 7742); (77, 775, 7744); (77, 803, 7746);
  (78, 768, 504); (78, 769, 323); (78, 771, 209); (78, 775, 7748); (78, 780, 327); (78, 803, 7750);
  (78, 807, 325); (78, 813, 7754); (78, 817, 7752); (79, 768, 210); (79, 769, 211); (79, 770, 212);
  (79, 771, 213); (79, 772, 332); (79, 774, 334); (79, 775, 558); (79, 776, 214); (79, 777, 7886);
  (79, 779, 336); (79, 780, 465); (79, 783, 524); (79, 785, 526); (79, 795, 416); (79, 803, 7884);
  (79, 808, 490); (80, 769, 7764); (80, 775, 7766); (82, 769, 340); (82, 775, 7768);
  (82, 780, 344); (82, 783, 528); (82, 785, 530); (82, 803, 7770); (82, 807, 342); (82, 817, 7774);
  (83, 769, 346); (83, 770, 348); (83, 775, 7776); (83, 780, 352); (83, 803, 7778); (83, 806, 536);
  (83, 807, 350); (84, 775, 7786); (84, 780, 356); (84, 803, 7788); (84, 806, 538); (84, 807, 354);
  (84, 813, 7792); (84, 817, 7790); (85, 768, 217); (85, 769, 218); (85, 770, 219); (85, 771, 360);
  (85, 772, 362); (85, 774, 364); (85, 776, 220); (85, 777, 7910); (85, 778, 366); (85, 779, 368);
  (85, 780, 467); (85, 783, 532); (85, 785, 534); (85, 795, 431); (85, 803, 7908); (85, 804, 7794);
  (85, 808, 370); (85, 813, 7798); (85, 816, 7796); (86, 771, 7804); (86, 803, 7806);
  (87, 768, 7808); (87, 769, 7810); (87, 770, 372); (87, 775, 7814); (87, 776, 7812);
  (87, 803, 7816); (88, 775, 7818); (88, 776, 7820); (89, 768, 7922); (89, 769, 221);
  (89, 770, 374); (89, 771, 7928); (89, 772, 562); (89, 775, 7822); (89, 776, 376);
  (89, 777, 7926); (89, 803, 7924); (90, 769, 377); (90, 770, 7824); (90, 775, 379);
  (90, 780, 381); (90, 803, 7826); (90, 817, 7828); (97, 768, 224); (97, 769, 225); (97, 770, 226);
  (97, 771, 227); (97, 772, 257); (97, 774, 259); (97, 775, 551); (97, 776, 228); (97, 777, 7843);
  (97, 778, 229); (97, 780, 462); (97, 783, 513); (97, 785, 515); (97, 803, 7841); (97, 805, 7681);
  (97, 808, 261); (98, 775, 7683); (98, 803, 7685); (98, 817, 7687); (99, 769, 263);
  (99, 770, 265); (99, 775, 267); (99, 780, 269); (99, 807, 231); (100, 775, 7691);
  (100, 780, 271); (100, 803, 7693); (100, 807, 7697); (100, 813, 7699); (100, 817, 7695);
  (101, 768, 232); (101, 769, 233); (101, 770, 234); (101, 771, 7869); (101, 772, 275);
  (101, 774, 277); (101, 775, 279); (101, 776, 235); (101, 777, 7867); (101, 780, 283);
  (101, 783, 517); (101, 785, 519); (101, 803, 7865); (101, 807, 553); (101, 808, 281);
  (101, 813, 7705); (101, 816, 7707); (102, 775, 7711); (103, 769, 501); (103, 770, 285);
  (103, 772, 7713); (103, 774, 287); (103, 775, 289); (103, 780, 487); (103, 807, 291);
  (104, 770, 293); (104, 775, 7715); (104, 776, 7719); (104, 780, 543); (104, 803, 7717);
  (104, 807, 7721); (104, 814, 7723); (104, 817, 7830); (105, 768, 236); (105, 769, 237);
  (105, 770, 238); (105, 771, 297); (105, 772, 299); (105, 774, 301); (105, 776, 239);
  (105, 777, 7881); (105, 780, 464); (105, 783, 521); (105, 785, 523); (105, 803, 7883);
  (105, 808, 303); (105, 816, 7725); (106, 770, 309); (106, 780, 496); (107, 769, 7729);
  (107, 780, 489); (107, 803, 7731); (107, 807, 311); (107, 817, 7733); (108, 769, 314);
  (108, 780, 318); (108, 803, 7735); (108, 807, 316); (108, 813, 7741); (108, 817, 7739);
  (109, 769, 7743); (109, 775, 7745); (109, 803, 7747); (110, 768, 505); (110, 769, 324);
  (110, 771, 241); (110, 775, 7749); (110, 780, 328); (110, 803, 7751); (110, 807, 326);
  (110, 813, 7755); (110, 817, 7753); (111, 768, 242); (111, 769, 243); (111, 770, 244);
  (111, 771, 245); (111, 772, 333); (111, 774, 335); (111, 775, 559); (111, 776, 246);
  (111, 777, 7887); (111, 779, 337); (111, 780, 466); (111, 783, 525); (111, 785, 527);
  (111, 795, 417); (111, 803, 7885); (111, 808, 491); (112, 769, 7765); (112, 775, 7767);
  (114, 769, 341); (114, 775, 7769); (114, 780, 345); (114, 783, 529); (114, 785, 531);
  (114, 803, 7771); (114, 807, 343); (114, 817, 7775); (115, 769, 347); (115, 770, 349);
  (115, 775, 7777); (115, 780, 353); (115, 803, 7779); (115, 806, 537); (115, 807, 351);
  (116, 775, 7787); (116, 776, 7831); (116, 780, 357); (116, 803, 7789); (116, 806, 539);
  (116, 807, 355); (116, 813, 7793); (116, 817, 7791); (117, 768, 249); (117, 769, 250);
  (117, 770, 251); (117, 771, 361); (117, 772, 363); (117, 774, 365); (117, 776, 252);
  (117, 777, 7911); (117, 778, 367); (117, 779, 369); (117, 780, 468); (117, 783, 533);
  (117, 785, 535); (117, 795, 432); (117, 803, 7909); (117, 804, 7795); (117, 808, 371);
  (117, 813, 7799); (117, 816, 7797); (118, 771, 7805); (118, 803, 7807); (119, 768, 7809);
  (119, 769, 7811); (119, 770, 373); (119, 775, 7815); (119, 776, 7813); (119, 778, 7832);
  (119, 803, 7817); (120, 775, 7819); (120, 776, 7821); (121, 768, 7923); (121, 769, 253);
  (121, 770, 375); (121, 771, 7929); (121, 772, 563); (121, 775, 7823); (121, 776, 255);
  (121, 777, 7927); (121, 778, 7833); (121, 803, 7925); (122, 769, 378); (122, 770, 7825);
  (122, 775, 380); (122, 780, 382); (122, 803, 7827); (122, 817, 7829); (168, 768, 8173);
  (168, 769, 901); (168, 834, 8129); (194, 768, 7846); (194, 769, 7844); (194, 771, 7850);
  (194, 777, 7848); (196, 772, 478); (197, 769, 506); (198, 769, 508); (198, 772, 482);
  (199, 769, 7688); (202, 768, 7872); (202, 769, 7870); (202, 771, 7876); (202, 777, 7874);
  (207, 769, 7726); (212, 768, 7890); (212, 769, 7888); (212, 771, 7894); (212, 777, 7892);
  (213, 769, 7756); (213, 772, 556); (213, 776, 7758); (214, 772, 554); (216, 769, 510);
  (220, 768, 475); (220, 769, 471); (220, 772, 469); (220, 780, 473); (226, 768, 7847);
  (226, 769, 7845); (226, 771, 7851); (226, 777, 7849); (228, 772, 479); (229, 769, 507);
  (230, 769, 509); (230, 772, 483); (231, 769, 7689); (234, 768, 7873); (234, 769, 7871);
  (234, 771, 7877); (234, 777, 7875); (239, 769, 7727); (244, 768, 7891); (244, 769, 7889);
  (244, 771, 7895); (244, 777, 7893); (245, 769, 7757); (245, 772, 557); (245, 776, 7759);
  (246, 772, 555); (248, 769, 511); (252, 768, 476); (252, 769, 472); (252, 772, 470);
  (252, 780, 474); (258, 768, 7856); (258, 769, 7854); (258, 771, 7860); (258, 777, 7858);
  (259, 768, 7857); (259, 769, 7855); (259, 771, 7861); (259, 777, 7859); (274, 768, 7700);
  (274, 769, 7702); (275, 768, 7701); (275, 769, 7703); (332, 768, 7760); (332, 769, 7762);
  (333, 768, 7761); (333, 769, 7763); (346, 775, 7780); (347, 775, 7781); (352, 775, 7782);
  (353, 775, 7783); (360, 769, 7800); (361, 769, 7801); (362, 776, 7802); (363, 776, 7803);
  (383, 775, 7835); (416, 768, 7900); (416, 769, 7898); (416, 771, 7904); (416, 777, 7902);
  (416, 803, 7906); (417, 768, 7901); (417, 769, 7899); (417, 771, 7905); (417, 777, 7903);
  (417, 803, 7907); (431, 768, 7914); (431, 769, 7912); (431, 771, 7918); (431, 777, 7916);
  (431, 803, 7920); (432, 768, 7915); (432, 769, 7913); (432, 771, 7919); (432, 777, 7917);
  (432, 803, 7921); (439, 780, 494); (490, 772, 492); (491, 772, 493); (550, 772, 480);
  (551, 772, 481); (552, 774, 7708); (553, 774, 7709); (558, 772, 560); (559, 772, 561);
  (658, 780, 495); (913, 768, 8122); (913, 769, 902); (913, 772, 8121); (913, 774, 8120);
  (913, 787, 7944); (913, 788, 7945); (913, 837, 8124); (917, 768, 8136); (917, 769, 904);
  (917, 787, 7960); (917, 788, 7961); (919, 768, 8138); (919, 769, 905); (919, 787, 7976);
  (919, 788, 7977); (919, 837, 8140); (921, 768, 8154); (921, 769, 906); (921, 772, 8153);
  (921, 774, 8152); (921, 776, 938); (921, 787, 7992); (921, 788, 7993); (927, 768, 8184);
  (927, 769, 908); (927, 787, 8008); (927, 788, 8009); (929, 788, 8172); (933, 768, 8170);
  (933, 769, 910); (933, 772, 8169); (933, 774, 8168); (933, 776, 939); (933, 788, 8025);
  (937, 768, 8186); (937, 769, 911); (937, 787, 8040); (937, 788, 8041); (937, 837, 8188);
  (940, 837, 8116); (942, 837, 8132); (945, 768, 8048); (945, 769, 940); (945, 772, 8113);
  (945, 774, 8112); (945, 787, 7936); (945, 788, 7937); (945, 834, 8118); (945, 837, 8115);
  (949, 768, 8050); (949, 769, 941); (949, 787, 7952); (949, 788, 7953); (951, 768, 8052);
  (951, 769, 942); (951, 787, 7968); (951, 788, 7969); (951, 834, 8134); (951, 837, 8131);
  (953, 768, 8054); (953, 769, 943); (953, 772, 8145); (953, 774, 8144); (953, 776, 970);
  (953, 787, 7984); (953, 788, 7985); (953, 834, 8150); (959, 768, 8056); (959, 769, 972);
  (959, 787, 8000); (959, 788, 8001); (961, 787, 8164); (961, 788, 8165); (965, 768, 8058);
  (965, 769, 973); (965, 772, 8161); (965, 774, 8160); (965, 776, 971); (965, 787, 8016);
  (965, 788, 8017); (965, 834, 8166); (969, 768, 8060); (969, 769, 974); (969, 787, 8032);
  (969, 788, 8033); (969, 834, 8182); (969, 837, 8179); (970, 768, 8146); (970, 769, 912);
  (970, 834, 8151); (971, 768, 8162); (971, 769, 944); (971, 834, 8167); (974, 837, 8180);
  (978, 769, 979); (978, 776, 980); (1030, 776, 1031); (1040, 774, 1232); (1040, 776, 1234);
  (1043, 769, 1027); (1045, 768, 1024); (1045, 774, 1238); (1045, 776, 1025); (1046, 774, 1217);
  (1046, 776, 1244); (1047, 776, 1246); (1048, 768, 1037); (1048, 772, 1250); (1048, 774, 1049);
  (1048, 776, 1252); (1050, 769, 1036); (1054, 776, 1254); (1059, 772, 1262); (1059, 774, 1038);
  (1059, 776, 1264); (1059, 779, 1266); (1063, 776, 1268); (1067, 776, 1272); (1069, 776, 1260);
  (1072, 774, 1233); (1072, 776, 1235); (1075, 769, 1107); (1077, 768, 1104); (1077, 774, 1239);
  (1077, 776, 1105); (1078, 774, 1218); (1078, 776, 1245); (1079, 776, 1247); (1080, 768, 1117);
  (1080, 772, 1251); (1080, 774, 1081); (1080, 776, 1253); (1082, 769, 1116); (1086, 776, 1255);
  (1091, 772, 1263); (1091, 774, 1118); (1091, 776, 1265); (1091, 779, 1267); (1095, 776, 1269);
  (1099, 776, 1273); (1101, 776, 1261); (1110, 776, 1111); (1140, 783, 1142); (1141, 783, 1143);
  (1240, 776, 1242); (1241, 776, 1243); (1256, 776, 1258); (1257, 776, 1259); (1575, 1619, 1570);
  (1575, 1620, 1571); (1575, 1621, 1573); (1608, 1620, 1572); (1610, 1620, 1574);
  (1729, 1620, 1730); (1746, 1620, 1747); (1749, 1620, 1728); (2344, 2364, 2345);
  (2352, 2364, 2353); (2355, 2364, 2356); (2503, 2494, 2507); (2503, 2519, 2508);
  (2887, 2878, 2891); (2887, 2902, 2888); (2887, 2903, 2892); (2962, 3031, 2964);
  (3014, 3006, 3018); (3014, 3031, 3020); (3015, 3006, 3019); (3142, 3158, 3144);
  (3263, 3285, 3264); (3270, 3266, 3274); (3270, 3285, 3271); (3270, 3286, 3272);
  (3274, 3285, 3275); (3398, 3390, 3402); (3398, 3415, 3404); (3399, 3390, 3403);
  (3545, 3530, 3546); (3545, 3535, 3548); (3545, 3551, 3550); (3548, 3530, 3549);
  (4133, 4142, 4134); (6917, 6965, 6918); (6919, 6965, 6920); (6921, 6965, 6922);
  (6923, 6965, 6924); (6925, 6965, 6926); (6929, 6965, 6930); (6970, 6965, 6971);
  (6972, 6965, 6973); (6974, 6965, 6976); (6975, 6965, 6977); (6978, 6965, 6979);
  (7734, 772, 7736); (7735, 772, 7737); (7770, 772, 7772); (7771, 772, 7773); (7778, 775, 7784);
  (7779, 775, 7785); (7840, 770, 7852); (7840, 774, 7862); (7841, 770, 7853); (7841, 774, 7863);
  (7864, 770, 7878); (7865, 770, 7879); (7884, 770, 7896); (7885, 770, 7897); (7936, 768, 7938);
  (7936, 769, 7940); (7936, 834, 7942); (7936, 837, 8064); (7937, 768, 7939); (7937, 769, 7941);
  (7937, 834, 7943); (7937, 837, 8065); (7938, 837, 8066); (7939, 837, 8067); (7940, 837, 8068);
  (7941, 837, 8069); (7942, 837, 8070); (7943, 837, 8071); (7944, 768, 7946); (7944, 769, 7948);
  (7944, 834, 7950); (7944, 837, 8072); (7945, 768, 7947); (7945, 769, 7949); (7945, 834, 7951);
  (7945, 837, 8073); (7946, 837, 8074); (7947, 837, 8075); (7948, 837, 8076); (7949, 837, 8077);
  (7950, 837, 8078); (7951, 837, 8079); (7952, 768, 7954); (7952, 769, 7956); (7953, 768, 7955);
  (7953, 769, 7957); (7960, 768, 7962); (7960, 769, 7964); (7961, 768, 7963); (7961, 769, 7965);
  (7968, 768, 7970); (7968, 769, 7972); (7968, 834, 7974); (7968, 837, 8080); (7969, 768, 7971);
  (7969, 769, 7973); (7969, 834, 7975); (7969, 837, 8081); (7970, 837, 8082); (7971, 837, 8083);
  (7972, 837, 8084); (7973, 837, 8085); (7974, 837, 8086); (7975, 837, 8087); (7976, 768, 7978);
  (7976, 769, 7980); (7976, 834, 7982); (7976, 837, 8088); (7977, 768, 7979); (7977, 769, 7981);
  (7977, 834, 7983); (7977, 837, 8089); (7978, 837, 8090); (7979, 837, 8091); (7980, 837, 8092);
  (7981, 837, 8093); (7982, 837, 8094); (7983, 837, 8095); (7984, 768, 7986); (7984, 769, 7988);
  (7984, 834, 7990); (7985, 768, 7987); (7985, 769, 7989); (7985, 834, 7991); (7992, 768, 7994);
  (7992, 769, 7996); (7992, 834, 7998); (7993, 768, 7995); (7993, 769, 7997); (7993, 834, 7999);
  (8000, 768, 8002); (8000, 769, 8004); (8001, 768, 8003); (8001, 769, 8005); (8008, 768, 8010);
  (8008, 769, 8012); (8009, 768, 8011); (8009, 769, 8013); (8016, 768, 8018); (8016, 769, 8020);
  (8016, 834, 8022); (8017, 768, 8019); (8017, 769, 8021); (8017, 834, 8023); (8025, 768, 8027);
  (8025, 769, 8029); (8025, 834, 8031); (8032, 768, 8034); (8032, 769, 8036); (8032, 834, 8038);
  (8032, 837, 8096); (8033, 768, 8035); (8033, 769, 8037); (8033, 834, 8039); (8033, 837, 8097);
  (8034, 837, 8098); (8035, 837, 8099); (8036, 837, 8100); (8037, 837, 8101); (8038, 837, 8102);
  (8039, 837, 8103); (8040, 768, 8042); (8040, 769, 8044); (8040, 834, 8046); (8040, 837, 8104);
  (8041, 768, 8043); (8041, 769, 8045); (8041, 834, 8047); (8041, 837, 8105); (8042, 837, 8106);
  (8043, 837, 8107); (8044, 837, 8108); (8045, 837, 8109); (8046, 837, 8110); (8047, 837, 8111);
  (8048, 837, 8114); (8052, 837, 8130); (8060, 837, 8178); (8118, 837, 8119); (8127, 768, 8141);
  (8127, 769, 8142); (8127, 834, 8143); (8134, 837, 8135); (8182, 837, 8183); (8190, 768, 8157);
  (8190, 769, 8158); (8190, 834, 8159); (8592, 824, 8602); (8594, 824, 8603); (8596, 824, 8622);
  (8656, 824, 8653); (8658, 824, 8655); (8660, 824, 8654); (8707, 824, 8708); (8712, 824, 8713);
  (8715, 824, 8716); (8739, 824, 8740); (8741, 824, 8742); (8764, 824, 8769); (8771, 824, 8772);
  (8773, 824, 8775); (8776, 824, 8777); (8781, 824, 8813); (8801, 824, 8802); (8804, 824, 8816);
  (8805, 824, 8817); (8818, 824, 8820); (8819, 824, 8821); (8822, 824, 8824); (8823, 824, 8825);
  (8826, 824, 8832); (8827, 824, 8833); (8828, 824, 8928); (8829, 824, 8929); (8834, 824, 8836);
  (8835, 824, 8837); (8838, 824, 8840); (8839, 824, 8841); (8849, 824, 8930); (8850, 824, 8931);
  (8866, 824, 8876); (8872, 824, 8877); (8873, 824, 8878); (8875, 824, 8879); (8882, 824, 8938);
  (8883, 824, 8939); (8884, 824, 8940); (8885, 824, 8941); (12358, 12441, 12436);
  (12363, 12441, 12364); (12365, 12441, 12366); (12367, 12441, 12368); (12369, 12441, 12370);
  (12371, 12441, 12372); (12373, 12441, 12374); (12375, 12441, 12376); (12377, 12441, 12378);
  (12379, 12441, 12380); (12381, 12441, 12382); (12383, 12441, 12384); (12385, 12441, 12386);
  (12388, 12441, 12389); (12390, 12441, 12391); (12392, 12441, 12393); (12399, 12441, 12400);
  (12399, 12442, 12401); (12402, 12441, 12403); (12402, 12442, 12404); (12405, 12441, 12406);
  (12405, 12442, 12407); (12408, 12441, 12409); (12408, 12442, 12410); (12411, 12441, 12412);
  (12411, 12442, 12413); (12445, 12441, 12446); (12454, 12441, 12532); (12459, 12441, 12460);
  (12461, 12441, 12462); (12463, 12441, 12464); (12465, 12441, 12466); (12467, 12441, 12468);
  (12469, 12441, 12470); (12471, 12441, 12472); (12473, 12441, 12474); (12475, 12441, 12476);
  (12477, 12441, 12478); (12479, 12441, 12480); (12481, 12441, 12482); (12484, 12441, 12485);
  (12486, 12441, 12487); (12488, 12441, 12489); (12495, 12441, 12496); (12495, 12442, 12497);
  (12498, 12441, 12499); (12498, 12442, 12500); (12501, 12441, 12502); (12501, 12442, 12503);
  (12504, 12441, 12505); (12504, 12442, 12506); (12507, 12441, 12508); (12507, 12442, 12509);
  (12527, 12441, 12535); (12528, 12441, 12536); (12529, 12441, 12537); (12530, 12441, 12538);
  (12541, 12441, 12542); (69785, 69818, 69786); (69787, 69818, 69788); (69797, 69818, 69803);
  (69937, 69927, 69934); (69938, 69927, 69935); (70471, 70462, 70475); (70471, 70487, 70476);
  (70841, 70832, 70844); (70841, 70842, 70843); (70841, 70845, 70846); (71096, 71087, 71098);
  (71097, 71087, 71099); (71989, 71984, 71992)
].
