(* ===== verification/UnicodeSearch.v ===== *)
(** Table lookups of [crates/relon-unicode/src]: [cp_in_ranges] and
    [encode_u32_pair_table] of [lib.rs], the predicates of [combining_marks.rs],
    [whitespace.rs] and [full_case_folding.rs], and the encoders of the tables
    that compiled code searches.  The tables are sorted, so the binary searches
    are exact. *)

From Stdlib Require Import ZArith Lia Bool Sorted.
From coqutil Require Import Byte Word.LittleEndianList.
From stdpp Require Import base list strings.
From S2P Require Import Prelude Bytes Value Chars UnicodeTables.
Local Open Scope Z_scope.
Local Open Scope abi_scope.

(** ** [slice::binary_search_by]

    The comparator says how an element compares to the target. *)

Section Search.
Context {A : Type} (f : A -> comparison).

(** The halving loop; [size] elements from [base] are still candidates. *)
Fixpoint search_loop (n : nat) (l : list A) (size base : nat) : nat :=
  match n with
  | O => base
  | S n =>
    if Nat.leb size 1 then base else
    let half := Nat.div size 2 in
    let mid := (base + half)%nat in
    let base := match l !! mid with
                | Some x => match f x with Gt => base | _ => mid end
                | None => base
                end in
    search_loop n l (size - half) base
  end.

(** [binary_search_by(f).ok()] *)
Definition binary_search_by (l : list A) : option nat :=
  let i := search_loop (length l) l (length l) 0 in
  match l !! i with
  | Some x => match f x with Eq => Some i | _ => None end
  | None => None
  end.

(** The order a binary search relies on. *)
Definition searchable (l : list A) : Prop :=
  forall i j x y, (i < j)%nat -> l !! i = Some x -> l !! j = Some y ->
    (f y = Lt -> f x = Lt) /\ (f x = Gt -> f y = Gt).

Lemma search_loop_spec l n : forall size base,
  searchable l -> (size <= n)%nat -> (0 < size)%nat -> (base + size <= length l)%nat ->
  (forall j y, (base + size <= j)%nat -> l !! j = Some y -> f y = Gt) ->
  (base = 0%nat \/ exists x, l !! base = Some x /\ f x <> Gt) ->
  let i := search_loop n l size base in
  (i < length l)%nat /\ (forall j y, (i < j)%nat -> l !! j = Some y -> f y = Gt) /\
  (i = 0%nat \/ exists x, l !! i = Some x /\ f x <> Gt).
Proof.
  induction n as [|n IH]; intros size base Hs Hn Hpos Hlen Hhi Hlo; [lia|]. cbn [search_loop]. cbv zeta.
  destruct (Nat.leb_spec size 1); [split_and!; [lia| |done]; intros j y Hj Hy; apply (Hhi j y); [lia|done]|].
  assert (0 < Nat.div size 2 <= size - Nat.div size 2)%nat as Hhalf.
  { pose proof (Nat.div_mod_eq size 2). pose proof (Nat.mod_upper_bound size 2). lia. }
  set (half := Nat.div size 2) in *. clearbody half.
  destruct (lookup_lt_is_Some_2 l (base + half)) as [x Hx]; [lia|]. rewrite Hx.
  destruct (f x) eqn:Hf; apply IH; try done; try lia;
    try (right; exists x; split; [done|congruence]); intros j y Hj Hy.
  - apply (Hhi j y); [lia|done].
  - apply (Hhi j y); [lia|done].
  - destruct (decide (j = base + half)%nat) as [->|Hne]; [congruence|].
    by eapply (Hs (base + half)%nat j); [lia| | |].
Qed.

Lemma binary_search_found l i : binary_search_by l = Some i -> exists x, l !! i = Some x /\ f x = Eq.
Proof.
  unfold binary_search_by. destruct (l !! _) as [x|] eqn:Hx; [|done].
  destruct (f x) eqn:Hf; try done. intros [= <-]. by exists x.
Qed.

Lemma binary_search_complete l j y :
  searchable l -> l !! j = Some y -> f y = Eq -> is_Some (binary_search_by l).
Proof.
  intros Hs Hj Hy. apply lookup_lt_Some in Hj as Hlt. unfold binary_search_by.
  destruct (search_loop_spec l (length l) (length l) 0) as (Hi & Hhi & Hlo);
    [done|lia|lia|lia| |by left|].
  { intros k z Hk Hz. apply lookup_lt_Some in Hz. lia. }
  set (i := search_loop _ _ _ _) in *. clearbody i.
  destruct (lookup_lt_is_Some_2 l i Hi) as [x Hx]. rewrite Hx.
  destruct (Nat.lt_total i j) as [Hij|[->|Hij]].
  - by rewrite (Hhi j y Hij Hj) in Hy.
  - assert (x = y) as -> by congruence. by rewrite Hy.
  - destruct (Hs j i y x Hij Hj Hx) as [H1 H2].
    destruct Hlo as [->|(x' & Hx' & Hne)]; [lia|]. assert (x' = x) as -> by congruence.
    destruct (f x) eqn:Hf; [done|by rewrite H1 in Hy|done].
Qed.
End Search.

(** ** Ranges *)

(** [(u32, u32)] ranges, inclusive. *)
Definition range_cmp (cp : Z) (r : Z * Z) : comparison :=
  let '(lo, hi) := r in if cp <? lo then Gt else if hi <? cp then Lt else Eq.

Definition cp_in_ranges (cp : Z) (ranges : list (Z * Z)) : bool :=
  match binary_search_by (range_cmp cp) ranges with Some _ => true | None => false end.

(** The layout invariants the tables document: ascending, non-overlapping. *)
Fixpoint ranges_wf (l : list (Z * Z)) : bool :=
  match l with
  | (lo, hi) :: (((lo', _) :: _) as l') => (lo <=? hi) && (hi <? lo') && ranges_wf l'
  | [(lo, hi)] => lo <=? hi
  | [] => true
  end.

Definition in_range (cp : Z) (r : Z * Z) : Prop := fst r <= cp <= snd r.

Lemma ranges_wf_cons r l : ranges_wf (r :: l) = true ->
  fst r <= snd r /\ ranges_wf l = true /\
  forall j r', l !! j = Some r' -> snd r < fst r' /\ fst r' <= snd r'.
Proof.
  revert r. induction l as [|[lo' hi'] l IH]; intros [lo hi] Hw; simpl in Hw.
  - zb. split_and!; try done.
  - zb. destruct (IH (lo', hi')) as (Ha & Hb & Hc); [done|]. simpl in *.
    split_and!; try done. intros [|j] r' Hr'; [injection Hr' as <-; simpl; lia|].
    destruct (Hc j r' Hr'). lia.
Qed.

Lemma ranges_searchable cp l : ranges_wf l = true -> searchable (range_cmp cp) l.
Proof.
  induction l as [|r l IH]; intros Hw i j x y Hij Hx Hy; [done|].
  destruct (ranges_wf_cons _ _ Hw) as (Hr & Hw' & Hall).
  destruct j as [|j]; [lia|]. destruct i as [|i]; [|by apply (IH Hw' i j); [lia| |]].
  injection Hx as ->. destruct (Hall j y Hy) as [H1 H2]. unfold range_cmp.
  destruct x as [lo hi], y as [lo' hi']. simpl in *.
  repeat match goal with |- context [if ?c then _ else _] => destruct c eqn:? end; zb; split; (done || lia).
Qed.

(** The binary search is exact membership. *)
Lemma cp_in_ranges_iff cp l :
  ranges_wf l = true -> cp_in_ranges cp l = true <-> exists r, r ∈ l /\ in_range cp r.
Proof.
  intros Hw. unfold cp_in_ranges, in_range. split.
  - destruct (binary_search_by _ _) as [i|] eqn:Hb; [|done]. intros _.
    apply binary_search_found in Hb as ([lo hi] & Hx & Hc). exists (lo, hi).
    split; [by eapply list_elem_of_lookup_2|]. unfold range_cmp in Hc. simpl.
    destruct (cp <? lo) eqn:?; [done|]. destruct (hi <? cp) eqn:?; [done|]. zb. lia.
  - intros ([lo hi] & Hr & Hin). apply list_elem_of_lookup_1 in Hr as [i Hi]. simpl in Hin.
    destruct (binary_search_complete (range_cmp cp) l i (lo, hi)) as [k ->];
      [by apply ranges_searchable|done| |done].
    unfold range_cmp. by rewrite !(proj2 (Z.ltb_ge _ _)) by lia.
Qed.

Definition is_combining_mark (cp : Z) : bool := cp_in_ranges cp COMBINING_MARK_RANGES.
Definition is_cased (cp : Z) : bool := cp_in_ranges cp CASED_RANGES.
Definition is_case_ignorable (cp : Z) : bool := cp_in_ranges cp CASE_IGNORABLE_RANGES.

Definition is_unicode_whitespace (cp : Z) : bool :=
  ((9 <=? cp) && (cp <=? 13) || (cp =? 32)) || cp_in_ranges cp NON_ASCII_WHITESPACE_RANGES.

(** ** Fold entries *)

Abbreviation fold_entry := (Z * Z * Z * Z * Z)%type.
Definition entry_key (e : fold_entry) : Z := let '(k, _, _, _, _) := e in k.

(** [entry_for]: [(out_len, [out0, out1, out2])]. *)
Definition entry_for (table : list fold_entry) (cp : Z) : option (Z * list Z) :=
  match binary_search_by (fun e => Z.compare (entry_key e) cp) table with
  | Some idx => match table !! idx with
                | Some (_, a, b, c, n) => Some (n, [a; b; c])
                | None => None
                end
  | None => None
  end.

Definition full_upper_entry (cp : Z) := entry_for FULL_UPPER_FOLDING cp.
Definition full_lower_entry (cp : Z) := entry_for FULL_LOWER_FOLDING cp.
Definition turkish_upper_entry (cp : Z) := entry_for TURKISH_UPPER_FOLDING cp.
Definition turkish_lower_entry (cp : Z) := entry_for TURKISH_LOWER_FOLDING cp.

Fixpoint keys_wf (l : list fold_entry) : bool :=
  match l with
  | e :: ((e' :: _) as l') => (entry_key e <? entry_key e') && keys_wf l'
  | _ => true
  end.

Lemma keys_wf_cons e l : keys_wf (e :: l) = true ->
  keys_wf l = true /\ forall j e', l !! j = Some e' -> entry_key e < entry_key e'.
Proof.
  revert e. induction l as [|e1 l IH]; intros e Hw; cbn [keys_wf] in Hw; [done|]. zb.
  destruct (IH e1) as [H1 H2]; [done|]. split; [done|]. intros [|j] e' He'; [by injection He' as <-|].
  specialize (H2 j e' He'). lia.
Qed.

Lemma keys_sorted l i j x y :
  keys_wf l = true -> (i < j)%nat -> l !! i = Some x -> l !! j = Some y -> entry_key x < entry_key y.
Proof.
  revert i j. induction l as [|e l IH]; intros i j Hw Hij Hx Hy; [done|].
  destruct (keys_wf_cons _ _ Hw) as [Hw' Hall].
  destruct j as [|j]; [lia|]. destruct i as [|i]; [|by apply (IH i j); [|lia| |]].
  injection Hx as ->. by eapply Hall.
Qed.

Lemma keys_searchable cp l : keys_wf l = true -> searchable (fun e => Z.compare (entry_key e) cp) l.
Proof.
  intros Hw i j x y Hij Hx Hy. pose proof (keys_sorted l i j x y Hw Hij Hx Hy).
  rewrite !Z.compare_lt_iff, !Z.compare_gt_iff. lia.
Qed.

(** The lookup finds the entry of the code point whenever there is one. *)
Lemma entry_for_iff table cp n slots :
  keys_wf table = true ->
  entry_for table cp = Some (n, slots) <->
  exists a b c, slots = [a; b; c] /\ (cp, a, b, c, n) ∈ table.
Proof.
  intros Hw. unfold entry_for. split.
  - destruct (binary_search_by _ _) as [i|] eqn:Hb; [|done].
    apply binary_search_found in Hb as (((((k & a) & b) & c) & m) & Hx & Hc). rewrite Hx.
    apply Z.compare_eq in Hc. simpl in Hc. subst k. intros [= -> <-]. exists a, b, c.
    split; [done|]. by eapply list_elem_of_lookup_2.
  - intros (a & b & c & -> & Hin). apply list_elem_of_lookup_1 in Hin as [j Hj].
    destruct (binary_search_complete (fun e => Z.compare (entry_key e) cp) table j (cp, a, b, c, n))
      as [i Hi]; [by apply keys_searchable|done|apply Z.compare_refl|]. rewrite Hi.
    apply binary_search_found in Hi as (x & Hx & Hc). rewrite Hx.
    assert (i = j) as ->; [|by rewrite Hj in Hx; injection Hx as <-].
    apply Z.compare_eq in Hc. destruct (Nat.lt_total i j) as [Hij|[?|Hij]]; [|done|].
    + pose proof (keys_sorted _ _ _ _ _ Hw Hij Hx Hj) as Hk. simpl in Hk. lia.
    + pose proof (keys_sorted _ _ _ _ _ Hw Hij Hj Hx) as Hk. simpl in Hk. lia.
Qed.

(** ** The encoded tables

    Little-endian [u32] words: a count, then the fields of every entry. *)

Definition encode_u32_pair_table (table : list (Z * Z)) : bytes :=
  u32_to_le (blen table `mod` 2 ^ 32) ++
  mjoin (map (fun '(a, b) => u32_to_le a ++ u32_to_le b) table).

Definition encoded_u32_pair_table_size (len : Z) : Z := 4 + len * 8.

Definition encode_full_table_bytes (table : list fold_entry) : bytes :=
  u32_to_le (blen table `mod` 2 ^ 32) ++
  mjoin (map (fun '(k, a, b, c, n) =>
    u32_to_le k ++ u32_to_le a ++ u32_to_le b ++ u32_to_le c ++ u32_to_le n) table).

Definition encoded_full_table_size (table : list fold_entry) : Z := 4 + blen table * 20.

Definition encode_simple_view_bytes (table : list fold_entry) : bytes :=
  u32_to_le (blen table `mod` 2 ^ 32) ++
  mjoin (map (fun '(k, a, _, _, _) => u32_to_le k ++ u32_to_le a) table).

(** The [u32] at a byte address of an encoded table, as compiled code loads it. *)
Definition load_u32 (b : bytes) (addr : Z) : option Z :=
  match slice (E := unit) b addr 4 with Ok s => Some (u32_from_le s) | _ => None end.

Definition words (ws : list Z) : bytes := mjoin (map u32_to_le ws).

Lemma words_app a b : words (a ++ b) = words a ++ words b.
Proof. unfold words. by rewrite map_app, join_app. Qed.

Lemma blen_words ws : blen (words ws) = 4 * blen ws.
Proof.
  induction ws as [|w ws IH]; [done|]. change (words (w :: ws)) with (u32_to_le w ++ words ws).
  rewrite blen_app, blen_u32, blen_cons, IH. lia.
Qed.

Lemma load_word ws k w :
  ws !! k = Some w -> is_u32 w -> load_u32 (words ws) (4 * Z.of_nat k) = Some w.
Proof.
  intros Hk Hw. unfold load_u32. apply list_elem_of_split_length in Hk as (l1 & l2 & -> & ->).
  rewrite words_app. change (words (w :: l2)) with (u32_to_le w ++ words l2).
  pose proof (@slice_app_exact unit (words l1) (u32_to_le w) (words l2)) as Hs.
  rewrite blen_words, blen_u32 in Hs. unfold blen in Hs. rewrite Hs. f_equal. by apply u32_from_to.
Qed.

(** The rows of [width] words of a table behind its count. *)
Lemma load_row {A} (f : A -> list Z) (width : nat) table i x j w :
  (forall y, length (f y) = width) -> table !! i = Some x -> f x !! j = Some w -> is_u32 w ->
  load_u32 (words (blen table `mod` 2 ^ 32 :: mjoin (map f table)))
    (4 + (Z.of_nat i * Z.of_nat width + Z.of_nat j) * 4) = Some w.
Proof.
  intros Hf Hi Hj Hw.
  replace (4 + (Z.of_nat i * Z.of_nat width + Z.of_nat j) * 4)
    with (4 * Z.of_nat (S (i * width + j))) by lia.
  apply load_word; [|done]. simpl. generalize dependent i. induction table as [|y table IH]; intros i Hi; [done|].
  simpl. destruct i as [|i]; simpl in *.
  - injection Hi as ->. by apply lookup_app_l_Some.
  - rewrite lookup_app_r by (rewrite Hf; lia). rewrite Hf.
    replace (width + i * width + j - width)%nat with (i * width + j)%nat by lia. by apply IH.
Qed.

Lemma words_rows {A} (f : A -> list Z) (g : A -> bytes) table :
  (forall x, g x = words (f x)) -> mjoin (map g table) = words (mjoin (map f table)).
Proof.
  intros Hg. induction table as [|x table IH]; [done|].
  change (g x ++ mjoin (map g table) = words (f x ++ mjoin (map f table))).
  by rewrite words_app, Hg, IH.
Qed.

Lemma pair_table_words table :
  encode_u32_pair_table table = words (blen table `mod` 2 ^ 32 :: mjoin (map (fun '(a, b) => [a; b]) table)).
Proof.
  unfold encode_u32_pair_table. change (words (?w :: ?ws)) with (u32_to_le w ++ words ws). f_equal.
  apply words_rows. intros [a b]. unfold words. cbn. by rewrite ?app_nil_r.
Qed.

Lemma full_table_words table :
  encode_full_table_bytes table =
  words (blen table `mod` 2 ^ 32 :: mjoin (map (fun '(k, a, b, c, n) => [k; a; b; c; n]) table)).
Proof.
  unfold encode_full_table_bytes. change (words (?w :: ?ws)) with (u32_to_le w ++ words ws). f_equal.
  apply words_rows. intros [[[[k a] b] c] n]. unfold words. cbn. by rewrite ?app_nil_r.
Qed.

Lemma simple_view_words table :
  encode_simple_view_bytes table =
  words (blen table `mod` 2 ^ 32 :: mjoin (map (fun '(k, a, _, _, _) => [k; a]) table)).
Proof.
  unfold encode_simple_view_bytes. change (words (?w :: ?ws)) with (u32_to_le w ++ words ws). f_equal.
  apply words_rows. intros [[[[k a] b] c] n]. unfold words. cbn. by rewrite ?app_nil_r.
Qed.

Lemma blen_rows {A} (f : A -> list Z) (width : nat) table :
  (forall y, length (f y) = width) -> blen (mjoin (map f table)) = blen table * Z.of_nat width.
Proof.
  intros Hf. unfold blen. induction table as [|y table IH]; [done|]. simpl.
  rewrite length_app, Hf. lia.
Qed.

(** The sort order of every table. *)
Lemma marks_wf : ranges_wf COMBINING_MARK_RANGES = true. Proof. by vm_compute. Qed.
Lemma cased_wf : ranges_wf CASED_RANGES = true. Proof. by vm_compute. Qed.
Lemma ignorable_wf : ranges_wf CASE_IGNORABLE_RANGES = true. Proof. by vm_compute. Qed.
Lemma whitespace_wf : ranges_wf NON_ASCII_WHITESPACE_RANGES = true. Proof. by vm_compute. Qed.
Lemma upper_wf : keys_wf FULL_UPPER_FOLDING = true. Proof. by vm_compute. Qed.
Lemma lower_wf : keys_wf FULL_LOWER_FOLDING = true. Proof. by vm_compute. Qed.
Lemma turkish_upper_wf : keys_wf TURKISH_UPPER_FOLDING = true. Proof. by vm_compute. Qed.
Lemma turkish_lower_wf : keys_wf TURKISH_LOWER_FOLDING = true. Proof. by vm_compute. Qed.

Lemma entry_lengths :
  Forall (fun '(_, _, _, _, n) => 1 <= n <= 3)
    (FULL_UPPER_FOLDING ++ FULL_LOWER_FOLDING ++ TURKISH_UPPER_FOLDING ++ TURKISH_LOWER_FOLDING).
Proof.
  apply Forall_forall. intros [[[[a b] c] d] n] Hin. apply list_elem_of_In in Hin.
  assert (forallb (fun '(_, _, _, _, n) => (1 <=? n) && (n <=? 3))
    (FULL_UPPER_FOLDING ++ FULL_LOWER_FOLDING ++ TURKISH_UPPER_FOLDING ++ TURKISH_LOWER_FOLDING) = true) as Hall
    by (by vm_compute).
  apply (proj1 (forallb_forall _ _)) with (1 := Hall) in Hin. lia.
Qed.

(** ** Properties *)

(** The table predicates and lookups of the crate are exact: on every code
    point the binary searches over the combining-mark, cased, case-ignorable and
    white-space ranges answer membership in some listed range, and the fold
    lookups return the listed entry of the code point and nothing else; every
    listed entry maps to one, two or three code points, so the slices of its
    three slots are in range. *)
Theorem table_lookups_exact cp :
  (is_combining_mark cp = true <-> exists r, r ∈ COMBINING_MARK_RANGES /\ in_range cp r) /\
  (is_cased cp = true <-> exists r, r ∈ CASED_RANGES /\ in_range cp r) /\
  (is_case_ignorable cp = true <-> exists r, r ∈ CASE_IGNORABLE_RANGES /\ in_range cp r) /\
  (is_unicode_whitespace cp = true <->
     9 <= cp <= 13 \/ cp = 32 \/ exists r, r ∈ NON_ASCII_WHITESPACE_RANGES /\ in_range cp r) /\
  (forall n slots, full_upper_entry cp = Some (n, slots) <->
     exists a b c, slots = [a; b; c] /\ (cp, a, b, c, n) ∈ FULL_UPPER_FOLDING) /\
  (forall n slots, full_lower_entry cp = Some (n, slots) <->
     exists a b c, slots = [a; b; c] /\ (cp, a, b, c, n) ∈ FULL_LOWER_FOLDING) /\
  (forall n slots, turkish_upper_entry cp = Some (n, slots) <->
     exists a b c, slots = [a; b; c] /\ (cp, a, b, c, n) ∈ TURKISH_UPPER_FOLDING) /\
  (forall n slots, turkish_lower_entry cp = Some (n, slots) <->
     exists a b c, slots = [a; b; c] /\ (cp, a, b, c, n) ∈ TURKISH_LOWER_FOLDING) /\
  Forall (fun '(_, _, _, _, n) => 1 <= n <= 3)
    (FULL_UPPER_FOLDING ++ FULL_LOWER_FOLDING ++ TURKISH_UPPER_FOLDING ++ TURKISH_LOWER_FOLDING).
Proof.
  split_and!; [exact (cp_in_ranges_iff cp _ marks_wf)|exact (cp_in_ranges_iff cp _ cased_wf)
    |exact (cp_in_ranges_iff cp _ ignorable_wf)| |intros; exact (entry_for_iff _ cp n slots upper_wf)
    |intros; exact (entry_for_iff _ cp n slots lower_wf)
    |intros; exact (entry_for_iff _ cp n slots turkish_upper_wf)
    |intros; exact (entry_for_iff _ cp n slots turkish_lower_wf)|exact entry_lengths].
  unfold is_unicode_whitespace.
  rewrite !orb_true_iff, andb_true_iff, !Z.leb_le, Z.eqb_eq, (cp_in_ranges_iff cp _ whitespace_wf). tauto.
Qed.

(** The encoded tables are addressed the way compiled code searches them:
    entry [i] of a pair table is at [4 + 8*i], of a full fold table at
    [4 + 20*i], each field the next word, and the table is exactly as long as
    the size functions say. *)
Theorem encoded_tables_load (pairs : list (Z * Z)) (full : list fold_entry) :
  Forall (fun '(a, b) => is_u32 a /\ is_u32 b) pairs ->
  Forall (fun '(k, a, b, c, n) => is_u32 k /\ is_u32 a /\ is_u32 b /\ is_u32 c /\ is_u32 n) full ->
  (forall i a b, pairs !! i = Some (a, b) ->
     load_u32 (encode_u32_pair_table pairs) (4 + Z.of_nat i * 8) = Some a /\
     load_u32 (encode_u32_pair_table pairs) (4 + Z.of_nat i * 8 + 4) = Some b) /\
  blen (encode_u32_pair_table pairs) = encoded_u32_pair_table_size (blen pairs) /\
  (forall i k a b c n, full !! i = Some (k, a, b, c, n) ->
     let at_word j := load_u32 (encode_full_table_bytes full) (4 + Z.of_nat i * 20 + 4 * j) in
     at_word 0 = Some k /\ at_word 1 = Some a /\ at_word 2 = Some b /\ at_word 3 = Some c /\
     at_word 4 = Some n /\
     load_u32 (encode_simple_view_bytes full) (4 + Z.of_nat i * 8) = Some k /\
     load_u32 (encode_simple_view_bytes full) (4 + Z.of_nat i * 8 + 4) = Some a) /\
  blen (encode_full_table_bytes full) = encoded_full_table_size full.
Proof.
  intros Hp Hf. rewrite pair_table_words, full_table_words, simple_view_words, !blen_words, !blen_cons.
  rewrite (blen_rows _ 2), (blen_rows _ 5) by (by intros; repeat case_match).
  rewrite Forall_lookup in Hp. rewrite Forall_lookup in Hf. split_and!; try (unfold encoded_u32_pair_table_size, encoded_full_table_size; lia).
  - intros i a b Hi. destruct (Hp i _ Hi) as [Ha Hb].
    pose proof (load_row (fun '(a, b) => [a; b]) 2 pairs i (a, b)) as Hl.
    split; [rewrite <-(Hl 0%nat a)|rewrite <-(Hl 1%nat b)]; try done; try (by intros []);
      f_equal; lia.
  - intros i k a b c n Hi. destruct (Hf i _ Hi) as (? & ? & ? & ? & ?).
    pose proof (load_row (fun '(k, a, b, c, n) => [k; a; b; c; n]) 5 full i (k, a, b, c, n)) as Hl.
    pose proof (load_row (fun '(k, a, _, _, _) => [k; a]) 2 full i (k, a, b, c, n)) as Hs.
    cbv zeta.
    split_and!; [rewrite <-(Hl 0%nat k)|rewrite <-(Hl 1%nat a)|rewrite <-(Hl 2%nat b)
      |rewrite <-(Hl 3%nat c)|rewrite <-(Hl 4%nat n)|rewrite <-(Hs 0%nat k)|rewrite <-(Hs 1%nat a)];
      try done; try (by intros; repeat case_match); f_equal; lia.
Qed.

