(* ===== verification/CaseFold.v ===== *)
(** Case folding: the ASCII fast path of
    [crates/relon-unicode/src/ascii_fold_simd.rs] in both of its compilations,
    the sigma context and locale test of [full_case_folding.rs], and the fold
    engine of [crates/relon-evaluator/src/stdlib.rs] that chooses between the fast
    paths and the code point walk.

    A [u8] is a number below 256, an output [String] the list of its bytes.
    [char::to_uppercase] and [char::to_lowercase] come from the Unicode tables of
    the Rust toolchain: they are the class [CharCase], with their documented
    behaviour on ASCII as [CharCaseOk].  Debug assertions are not modelled. *)

From Stdlib Require Import ZArith Lia Bool.
From coqutil Require Import Byte.
From stdpp Require Import base list strings.
From S2P Require Import Prelude Bytes Value Chars UnicodeTables UnicodeSearch SmolStr.
Local Open Scope Z_scope.
Local Open Scope abi_scope.

(** ** Bytes *)

Definition is_ascii_lowercase (b : Z) : bool := (97 <=? b) && (b <=? 122).
Definition is_ascii_uppercase (b : Z) : bool := (65 <=? b) && (b <=? 90).

(** [u8::is_ascii_whitespace]: no vertical tab. *)
Definition is_ascii_whitespace (b : Z) : bool :=
  (b =? 32) || (b =? 9) || (b =? 10) || (b =? 12) || (b =? 13).

(** [char::is_whitespace], the Unicode property [White_Space]. *)
Definition char_is_whitespace (c : Z) : bool :=
  (9 <=? c) && (c <=? 13) || (c =? 32) || (c =? 133) || (c =? 160) || (c =? 5760) ||
  (8192 <=? c) && (c <=? 8202) || (c =? 8232) || (c =? 8233) || (c =? 8239) || (c =? 8287) ||
  (c =? 12288).

Definition wrapping_sub8 (a b : Z) : Z := (a - b) mod 256.

(** [u64::trailing_zeros] *)
Fixpoint pos_trailing_zeros (p : positive) : Z :=
  match p with xO p => 1 + pos_trailing_zeros p | _ => 0 end.
Definition trailing_zeros (width x : Z) : Z :=
  match x with Zpos p => pos_trailing_zeros p | _ => width end.

(** [u64::from_le_bytes] *)
Fixpoint le_word (b : list Z) : Z :=
  match b with [] => 0 | x :: b => x + 256 * le_word b end.

(** ** Scanning the ASCII prefix *)

(** The scalar tail loops: the rest [b] starts at index [i]. *)
Fixpoint scan_tail (b : list Z) (i : nat) : nat :=
  match b with
  | [] => i
  | x :: b => if 128 <=? x then i else scan_tail b (S i)
  end.

Definition HIGH_BITS : Z := 9259542123273814144.

(** [scan_ascii_prefix_impl], eight bytes at a time. *)
Fixpoint scan_words (n : nat) (b : list Z) (i : nat) : nat :=
  match n with
  | O => scan_tail b i
  | S n =>
    if Nat.leb 8 (length b) then
      let hits := Z.land (le_word (take 8 b)) HIGH_BITS in
      if negb (hits =? 0) then (i + Z.to_nat (trailing_zeros 64 hits / 8))%nat
      else scan_words n (drop 8 b) (i + 8)
    else scan_tail b i
  end.

Definition scan_ascii_prefix (b : list Z) : nat := scan_words (length b) b 0.

(** [i8x16_bitmask] of a sixteen byte vector: the high bit of each lane. *)
Fixpoint bitmask (b : list Z) : Z :=
  match b with [] => 0 | x :: b => (if 128 <=? x then 1 else 0) + 2 * bitmask b end.

(** [scan_ascii_prefix_impl] compiled for wasm32 with SIMD. *)
Fixpoint scan_vectors (n : nat) (b : list Z) (i : nat) : nat :=
  match n with
  | O => scan_tail b i
  | S n =>
    if Nat.leb 16 (length b) then
      let mask := bitmask (take 16 b) in
      if negb (mask =? 0) then (i + Z.to_nat (trailing_zeros 32 mask))%nat
      else scan_vectors n (drop 16 b) (i + 16)
    else scan_tail b i
  end.

Definition scan_ascii_prefix_simd (b : list Z) : nat := scan_vectors (length b) b 0.

(** ** Folding ASCII bytes *)

Inductive CaseFoldMode : Type := Upper | Lower | Title.

(** The branch-free loop body. *)
Definition fold_byte (upper : bool) (b : Z) : Z :=
  let in_range := wrapping_sub8 b (if upper then 97 else 65) <? 26 in
  Z.lxor b (if in_range then 32 else 0).

(** [fold_ascii_upper_lower_impl]; [out] is resized and every slot stored. *)
Definition fold_ascii_upper_lower (prefix : list Z) (upper : bool) (out : list Z) : list Z :=
  out ++ map (fold_byte upper) prefix.

(** One lane of the SIMD loop: [v128_xor] with a masked bit. *)
Definition fold_lane (upper : bool) (b : Z) : Z :=
  let '(lo, hi) := if upper then (97, 122) else (65, 90) in
  let ge_lo := if lo <=? b then 255 else 0 in
  let le_hi := if b <=? hi then 255 else 0 in
  Z.lxor b (Z.land (Z.land ge_lo le_hi) 32).

Definition fold_scalar_tail (upper : bool) (b : Z) : Z :=
  if upper then if is_ascii_lowercase b then Z.lxor b 32 else b
  else if is_ascii_uppercase b then Z.lxor b 32 else b.

Fixpoint fold_vectors (n : nat) (prefix : list Z) (upper : bool) : list Z :=
  match n with
  | O => map (fold_scalar_tail upper) prefix
  | S n =>
    if Nat.leb 16 (length prefix)
    then map (fold_lane upper) (take 16 prefix) ++ fold_vectors n (drop 16 prefix) upper
    else map (fold_scalar_tail upper) prefix
  end.

(** [fold_ascii_upper_lower_impl] compiled for wasm32 with SIMD. *)
Definition fold_ascii_upper_lower_simd (prefix : list Z) (upper : bool) (out : list Z) : list Z :=
  out ++ fold_vectors (length prefix) prefix upper.

(** [fold_ascii_prefix_title]: the bytes and the final [at_word_start]. *)
Fixpoint title_loop (prefix : list Z) (at_word_start : bool) : list Z * bool :=
  match prefix with
  | [] => ([], at_word_start)
  | b :: prefix =>
    if (b =? 32) || (b =? 9) || (b =? 10) || (b =? 11) || (b =? 12) || (b =? 13) then
      let '(rest, w) := title_loop prefix true in (b :: rest, w)
    else
      let c := if at_word_start
               then if is_ascii_lowercase b then Z.land b 223 else b
               else if is_ascii_uppercase b then Z.lor b 32 else b in
      let '(rest, w) := title_loop prefix false in (c :: rest, w)
  end.

Definition fold_ascii_prefix_title (prefix : list Z) (at_word_start : bool) (out : list Z)
    : list Z * bool :=
  let '(folded, w) := title_loop prefix at_word_start in (out ++ folded, w).

(** [AsciiFastResult] with the extended [out]. *)
Record AsciiFastResult : Type := MkFast { consumed : nat; at_word_start : bool; fast_out : list Z }.

Definition fold_ascii (prefix : list Z) (mode : CaseFoldMode) (w : bool) (out : list Z) : list Z * bool :=
  match mode with
  | Upper => (fold_ascii_upper_lower prefix true out, w)
  | Lower => (fold_ascii_upper_lower prefix false out, w)
  | Title => fold_ascii_prefix_title prefix w out
  end.

Definition fold_ascii_prefix (b : list Z) (mode : CaseFoldMode) (w : bool) (out : list Z)
    : AsciiFastResult :=
  let prefix_len := scan_ascii_prefix b in
  if Nat.eqb prefix_len 0 then MkFast 0 w out else
  let '(out, w) := fold_ascii (take prefix_len b) mode w out in
  MkFast prefix_len w out.

Definition case_fold_ascii_fast (b : list Z) (mode : CaseFoldMode) (w : bool) (out : list Z)
    : AsciiFastResult :=
  if Nat.eqb (length b) 0 then MkFast 0 w out else
  let '(out, w) := fold_ascii b mode w out in
  MkFast (length b) w out.

(** [fold_ascii_prefix_into_string], with its release-mode check of the appended
    bytes. *)
Definition fold_ascii_prefix_into_string (b : list Z) (mode : CaseFoldMode) (w : bool) (out : list Z)
    : outcome unit AsciiFastResult :=
  let pre_len := length out in
  let r := fold_ascii_prefix b mode w out in
  if Nat.ltb (length (fast_out r)) (pre_len + consumed r) then Abort else
  if forallb (fun x => x <? 128) (take (consumed r) (drop pre_len (fast_out r))) then Ok r else Abort.

(** ** Context and locale *)

Fixpoint cased_before (rev_before : list Z) : bool :=
  match rev_before with
  | [] => false
  | cp :: l => if is_cased cp then true else if negb (is_case_ignorable cp) then false else cased_before l
  end.

Fixpoint not_cased_after (after : list Z) : bool :=
  match after with
  | [] => true
  | cp :: l => if is_cased cp then false else if negb (is_case_ignorable cp) then true else not_cased_after l
  end.

Definition is_final_sigma_context (cps : list Z) (anchor : nat) : bool :=
  if cased_before (rev (take anchor cps)) then not_cased_after (drop (anchor + 1) cps) else false.

Definition to_ascii_lowercase (b : Z) : Z := if is_ascii_uppercase b then b + 32 else b.

Definition is_turkish_locale (locale : string) : bool :=
  match map byte.unsigned (as_bytes locale) with
  | x :: y :: rest =>
      let a := to_ascii_lowercase x in
      let b := to_ascii_lowercase y in
      let boundary_ok := match rest with [] => true | z :: _ => (z =? 45) || (z =? 95) end in
      boundary_ok && ((a =? 116) && (b =? 114) || (a =? 97) && (b =? 122))
  | _ => false
  end.

(** ** The fold engine *)

Inductive AsciiHint : Type := Unknown | AllAscii | KnownNonAscii.

Class CharCase : Type := {
  to_uppercase : Z -> list Z;
  to_lowercase : Z -> list Z;
}.

Section Engine.
Context {C : CharCase}.

(** [if let Some(c) = char::from_u32(cp) { out.push(c) }] *)
Definition push_cp (out : list Z) (cp : Z) : list Z :=
  if is_scalar_value cp then out ++ utf8_encode cp else out.

Definition push_all (out cps : list Z) : list Z := foldl push_cp out cps.

(** The body of the code point loop of [fold_string_with_ascii_hint]; the state
    is [at_word_start] and [out].  Every table entry has at most three outputs,
    so the slice [slots[..len]] is in range. *)
Definition slow_step (cps : list Z) (mode : CaseFoldMode) (locale_turkish : bool)
    (i : nat) (cp : Z) (st : bool * list Z) : bool * list Z :=
  let '(at_word_start, out) := st in
  if is_combining_mark cp then (at_word_start, push_cp out cp) else
  if match mode with Title => is_scalar_value cp && char_is_whitespace cp | _ => false end
  then (true, push_cp out cp) else
  let upper := match mode with Upper => true | Lower => false | Title => at_word_start end in
  if negb upper && (cp =? 931) then
    (false, push_cp out (if is_final_sigma_context cps i then 962 else 963))
  else
    match (if locale_turkish
           then if upper then turkish_upper_entry cp else turkish_lower_entry cp
           else None) with
    | Some (len, slots) => (false, push_all out (take (Z.to_nat len) slots))
    | None =>
      match (if upper then full_upper_entry cp else full_lower_entry cp) with
      | Some (len, slots) => (false, push_all out (take (Z.to_nat len) slots))
      | None =>
        (false, if is_scalar_value cp
                then push_all out (if upper then to_uppercase cp else to_lowercase cp)
                else out)
      end
    end.

Fixpoint slow_loop (cps : list Z) (mode : CaseFoldMode) (locale_turkish : bool)
    (i : nat) (rest : list Z) (st : bool * list Z) : bool * list Z :=
  match rest with
  | [] => st
  | cp :: rest => slow_loop cps mode locale_turkish (S i) rest (slow_step cps mode locale_turkish i cp st)
  end.

(** [fold_string_with_ascii_hint] on the bytes of a string. *)
Definition fold_string_with_ascii_hint (b : list Z) (mode : CaseFoldMode) (locale_turkish : bool)
    (hint : AsciiHint) : outcome unit (list Z) :=
  let* fast :=
    if negb locale_turkish then
      match hint with
      | AllAscii => Ok (case_fold_ascii_fast b mode true [])
      | KnownNonAscii => Ok (MkFast 0 true [])
      | Unknown => fold_ascii_prefix_into_string b mode true []
      end
    else Ok (MkFast 0 true []) in
  if Nat.eqb (consumed fast) (length b) then Ok (fast_out fast) else
  let cps := code_points b in
  Ok (snd (slow_loop cps mode locale_turkish (consumed fast) (drop (consumed fast) cps)
                     (at_word_start fast, fast_out fast))).

(** The title loop of the inline writer. *)
Fixpoint inline_title (b : list Z) (at_word_start : bool) : list Z :=
  match b with
  | [] => []
  | x :: b =>
    if is_ascii_whitespace x then x :: inline_title b true
    else fold_byte at_word_start x :: inline_title b false
  end.

Definition inline_fold (b : list Z) (mode : CaseFoldMode) : list Z :=
  match mode with
  | Upper => map (fold_byte true) b
  | Lower => map (fold_byte false) b
  | Title => inline_title b true
  end.

(** The writer stores [inline_fold] over the slice it is given. *)
Definition store_bytes (src : list Z) (out : bytes) : bytes :=
  take (length out) (map byte.of_Z src) ++ drop (length src) out.

Definition fold_string_to_smol_ascii_fast (b : list Z) (mode : CaseFoldMode) (hint : AsciiHint)
    : outcome unit (option Smol.SmolStr) :=
  if Smol.SMOL_STR_INLINE_CAP <? blen b then Ok None else
  match hint with
  | KnownNonAscii => Ok None
  | AllAscii => Smol.try_build_inline (blen b) (store_bytes (inline_fold b mode))
  | Unknown =>
      if forallb (fun x => x <? 128) b
      then Smol.try_build_inline (blen b) (store_bytes (inline_fold b mode))
      else Ok None
  end.

Definition fold_string_to_smol_with_hint (b : list Z) (mode : CaseFoldMode) (locale_turkish : bool)
    (hint : AsciiHint) : outcome unit Smol.SmolStr :=
  let* fast := if negb locale_turkish then fold_string_to_smol_ascii_fast b mode hint else Ok None in
  match fast with
  | Some smol => Ok smol
  | None =>
      let* out := fold_string_with_ascii_hint b mode locale_turkish hint in
      Smol.from_string (str_of_bytes (map byte.of_Z out))
  end.

(** The body of [upper], [lower], [title] and their locale variants. *)
Definition case_fold (smol : Smol.SmolStr) (mode : CaseFoldMode) (locale_turkish : bool)
    : outcome unit Smol.SmolStr :=
  let* ascii := Smol.is_ascii smol in
  let hint := if ascii then AllAscii else KnownNonAscii in
  let* s := Smol.as_str smol in
  fold_string_to_smol_with_hint (map byte.unsigned (as_bytes s)) mode locale_turkish hint.
End Engine.
