(* ===== verification/CaseFoldFacts.v ===== *)
(** Case folding is one function: the word-at-a-time and SIMD scans find the ASCII
    prefix, the byte folds agree with the code point walk on it, so the result
    does not depend on the fast path a caller's hint selects.  The inline title
    writer is the exception: it does not treat the vertical tab as white space. *)

From Stdlib Require Import ZArith Lia Bool.
From coqutil Require Import Byte.
From stdpp Require Import base list strings.
From S2P Require Import Prelude Bytes Value Chars UnicodeTables UnicodeSearch SmolStr CaseFold.
Local Open Scope Z_scope.
Local Open Scope abi_scope.

(** ** Facts about bytes *)

Definition is_u8 (b : Z) : Prop := 0 <= b < 256.

(** A boolean fact about every byte, by evaluation. *)
Lemma u8_forall (P : Z -> bool) (b : Z) : forallb P (seqZ 0 256) = true -> is_u8 b -> P b = true.
Proof.
  intros HP Hb. apply forallb_forall with (x := b) in HP; [done|].
  apply list_elem_of_In, elem_of_seqZ. unfold is_u8 in Hb. lia.
Qed.

Lemma testbit_split x a i :
  is_u8 x -> 0 <= i -> Z.testbit (x + 256 * a) i = if i <? 8 then Z.testbit x i else Z.testbit a (i - 8).
Proof.
  unfold is_u8. intros Hx Hi. destruct (i <? 8) eqn:Hlt; zb.
  - rewrite <-(Z.mod_pow2_bits_low (x + 256 * a) 8 i) by lia. f_equal.
    change (2 ^ 8) with 256. rewrite Z.mul_comm, Z.mod_add by lia. by apply Z.mod_small.
  - replace i with (i - 8 + 8) at 1 by lia. rewrite <-Z.div_pow2_bits by lia. f_equal.
    change (2 ^ 8) with 256. rewrite Z.mul_comm, Z.div_add, Z.div_small by lia. lia.
Qed.

Lemma land_split x y a b :
  is_u8 x -> is_u8 y -> is_u8 (Z.land x y) ->
  Z.land (x + 256 * a) (y + 256 * b) = Z.land x y + 256 * Z.land a b.
Proof.
  intros Hx Hy Hxy. apply Z.bits_inj'. intros i Hi. rewrite Z.land_spec, !testbit_split by done.
  destruct (i <? 8); by rewrite Z.land_spec.
Qed.

Lemma land_high x : is_u8 x -> Z.land x 128 = if 128 <=? x then 128 else 0.
Proof.
  intros Hx. apply Z.eqb_eq.
  apply (u8_forall (fun x => Z.land x 128 =? (if 128 <=? x then 128 else 0)) x); [by vm_compute|done].
Qed.

(** ** Trailing zeros *)

Lemma tz_double w y : 0 < y -> trailing_zeros w (2 * y) = 1 + trailing_zeros w y.
Proof. destruct y as [|p|p]; [lia|done|lia]. Qed.

Lemma tz_odd w y : 0 <= y -> trailing_zeros w (1 + 2 * y) = 0.
Proof. destruct y as [|[p|p|]|p]; try done; lia. Qed.

Lemma tz_nonneg w y : 0 <= w -> 0 <= trailing_zeros w y.
Proof.
  intros Hw. destruct y as [|p|p]; [done| |done]. simpl. induction p; simpl; lia.
Qed.

Lemma tz_high w y : 0 <= y -> trailing_zeros w (128 + 256 * y) = 7.
Proof.
  intros Hy. replace (128 + 256 * y) with (2 * (2 * (2 * (2 * (2 * (2 * (2 * (1 + 2 * y)))))))) by lia.
  rewrite !tz_double by lia. by rewrite tz_odd.
Qed.

Lemma tz_256 w y : 0 < y -> trailing_zeros w (256 * y) = 8 + trailing_zeros w y.
Proof.
  intros Hy. replace (256 * y) with (2 * (2 * (2 * (2 * (2 * (2 * (2 * (2 * y)))))))) by lia.
  rewrite !tz_double by lia. lia.
Qed.

(** ** Scans *)

Lemma scan_tail_shift b i : scan_tail b i = (i + scan_tail b 0)%nat.
Proof.
  revert i. induction b as [|x b IH]; intros i; simpl; [lia|]. destruct (_ <=? _); [lia|].
  rewrite (IH (S i)), (IH 1%nat). lia.
Qed.

Lemma scan_tail_app b c i : Forall (fun x => x < 128) b -> scan_tail (b ++ c) i = scan_tail c (i + length b).
Proof.
  intros Hb. revert i. induction Hb as [|x b Hx _ IH]; intros i; simpl; [f_equal; lia|].
  rewrite (proj2 (Z.leb_gt _ _)) by done. rewrite IH. f_equal. lia.
Qed.

Lemma scan_tail_hit b c i : (scan_tail b 0 < length b)%nat -> scan_tail (b ++ c) i = (i + scan_tail b 0)%nat.
Proof.
  revert i. induction b as [|x b IH]; intros i; simpl; [lia|]. destruct (_ <=? _); [lia|].
  rewrite (scan_tail_shift b 1). intros Hlt. rewrite IH by lia. lia.
Qed.

Fixpoint high_word (n : nat) : Z := match n with O => 0 | S n => 128 + 256 * high_word n end.

Lemma high_word_nonneg n : 0 <= high_word n.
Proof. induction n; simpl; lia. Qed.

(** The high bits of a little-endian word locate its first non-ASCII byte. *)
Lemma word_hits b :
  Forall is_u8 b -> let hits := Z.land (le_word b) (high_word (length b)) in
  0 <= hits /\
  if hits =? 0 then Forall (fun x => x < 128) b
  else (scan_tail b 0 < length b)%nat /\ trailing_zeros 64 hits / 8 = Z.of_nat (scan_tail b 0).
Proof.
  induction 1 as [|x b Hx _ IH]; cbv zeta in *; [by simpl|]. cbn [le_word length high_word scan_tail].
  rewrite land_split; [|done|done|rewrite land_high by done; unfold is_u8; destruct (128 <=? x); lia].
  rewrite land_high by done. destruct IH as [Hnn IH].
  set (h := Z.land (le_word b) (high_word (length b))) in *. clearbody h.
  destruct (128 <=? x) eqn:Hhi; zb.
  - split; [lia|]. rewrite (proj2 (Z.eqb_neq _ _)) by lia. split; [lia|]. rewrite tz_high by lia. done.
  - split; [lia|]. rewrite Z.add_0_l. destruct (Z.eqb_spec h 0) as [->|Hne].
    + simpl. by constructor.
    + rewrite (proj2 (Z.eqb_neq _ _)) by lia. destruct IH as [Hlt Heq].
      rewrite (scan_tail_shift b 1). split; [lia|]. rewrite tz_256 by lia.
      replace (8 + trailing_zeros 64 h) with (1 * 8 + trailing_zeros 64 h) by lia.
      rewrite Z.div_add_l, Heq by lia. lia.
Qed.

Lemma mask_hits b :
  let mask := bitmask b in
  0 <= mask /\
  if mask =? 0 then Forall (fun x => x < 128) b
  else (scan_tail b 0 < length b)%nat /\ trailing_zeros 32 mask = Z.of_nat (scan_tail b 0).
Proof.
  induction b as [|x b IH]; cbv zeta in *; [by simpl|]. cbn [bitmask length scan_tail].
  destruct IH as [Hnn IH]. set (m := bitmask b) in *. clearbody m. destruct (128 <=? x) eqn:Hhi; zb.
  - split; [lia|]. rewrite (proj2 (Z.eqb_neq _ _)) by lia. split; [lia|]. rewrite tz_odd by lia. done.
  - split; [lia|]. rewrite Z.add_0_l. destruct (Z.eqb_spec m 0) as [->|Hne].
    + simpl. by constructor.
    + rewrite (proj2 (Z.eqb_neq _ _)) by lia. destruct IH as [Hlt Heq].
      rewrite (scan_tail_shift b 1). split; [lia|]. rewrite tz_double by lia. lia.
Qed.

Lemma scan_words_spec n : forall b i, Forall is_u8 b -> scan_words n b i = scan_tail b i.
Proof.
  induction n as [|n IH]; intros b i Hb; cbn [scan_words]; [done|].
  destruct (Nat.leb_spec 8 (length b)) as [Hl|]; [|done]. cbv zeta.
  assert (length (take 8 b) = 8%nat) as Hlen by (rewrite length_take; lia).
  rewrite <-(take_drop 8 b) in Hb. apply Forall_app in Hb as [Hb1 Hb2].
  destruct (word_hits (take 8 b) Hb1) as [_ Hh]. rewrite Hlen in Hh.
  change (high_word 8) with HIGH_BITS in Hh.
  replace (scan_tail b i) with (scan_tail (take 8 b ++ drop 8 b) i) by (by rewrite take_drop).
  destruct (Z.land _ _ =? 0); cbn [negb].
  - rewrite IH by done. by rewrite scan_tail_app, Hlen.
  - destruct Hh as [Hlt Heq]. rewrite Heq, Nat2Z.id. by rewrite scan_tail_hit by lia.
Qed.

Lemma scan_vectors_spec n : forall b i, scan_vectors n b i = scan_tail b i.
Proof.
  induction n as [|n IH]; intros b i; cbn [scan_vectors]; [done|].
  destruct (Nat.leb_spec 16 (length b)) as [Hl|]; [|done]. cbv zeta.
  assert (length (take 16 b) = 16%nat) as Hlen by (rewrite length_take; lia).
  destruct (mask_hits (take 16 b)) as [_ Hh].
  replace (scan_tail b i) with (scan_tail (take 16 b ++ drop 16 b) i) by (by rewrite take_drop).
  destruct (_ =? 0); cbn [negb].
  - rewrite IH. by rewrite scan_tail_app, Hlen.
  - destruct Hh as [Hlt Heq]. rewrite Heq, Nat2Z.id. by rewrite scan_tail_hit by lia.
Qed.

(** ** The byte folds *)

Lemma scan_prefix_spec b :
  Forall is_u8 b ->
  scan_ascii_prefix b = scan_tail b 0 /\ scan_ascii_prefix_simd b = scan_tail b 0.
Proof. intros Hb. by split; [apply scan_words_spec|apply scan_vectors_spec]. Qed.

Lemma scan_tail_prefix b :
  (scan_tail b 0 <= length b)%nat /\ Forall (fun x => x < 128) (take (scan_tail b 0) b) /\
  forall x, b !! scan_tail b 0 = Some x -> 128 <= x.
Proof.
  induction b as [|x b (IH1 & IH2 & IH3)]; simpl; [done|]. destruct (128 <=? x) eqn:Hx; zb.
  { split_and!; [lia|done|by intros y [= <-]]. }
  rewrite (scan_tail_shift b 1). simpl. split_and!; [lia|by constructor|done].
Qed.

Lemma lane_is_byte u b : is_u8 b -> fold_lane u b = fold_byte u b /\ fold_scalar_tail u b = fold_byte u b.
Proof.
  intros Hb. rewrite <-!Z.eqb_eq, <-andb_true_iff.
  destruct u; [apply (u8_forall (fun b => (fold_lane true b =? fold_byte true b) &&
      (fold_scalar_tail true b =? fold_byte true b)))
    |apply (u8_forall (fun b => (fold_lane false b =? fold_byte false b) &&
      (fold_scalar_tail false b =? fold_byte false b)))]; done.
Qed.

Lemma map_ext_forall {A B} (f g : A -> B) (P : A -> Prop) l :
  (forall x, P x -> f x = g x) -> Forall P l -> map f l = map g l.
Proof. intros Hfg. induction 1 as [|x l Hx _ IH]; simpl; [done|]. by rewrite IH, (Hfg x Hx). Qed.

Lemma fold_vectors_spec u n : forall b, Forall is_u8 b -> fold_vectors n b u = map (fold_byte u) b.
Proof.
  assert (forall b, Forall is_u8 b -> map (fold_scalar_tail u) b = map (fold_byte u) b) as Htail.
  { intros b. apply map_ext_forall. intros x Hx. by apply lane_is_byte. }
  induction n as [|n IH]; intros b Hb; cbn [fold_vectors]; [by apply Htail|].
  destruct (Nat.leb 16 (length b)); [|by apply Htail].
  rewrite <-(take_drop 16 b) at 3. rewrite map_app. rewrite IH by (by apply Forall_drop). f_equal.
  apply map_ext_forall with (P := is_u8); [|by apply Forall_take]. intros x Hx. by apply lane_is_byte.
Qed.

(** ** Words *)

Definition is_ascii_cp (c : Z) : Prop := 0 <= c < 128.

Lemma ascii_forall (P : Z -> bool) (b : Z) : forallb P (seqZ 0 128) = true -> is_ascii_cp b -> P b = true.
Proof.
  intros HP Hb. apply forallb_forall with (x := b) in HP; [done|].
  apply list_elem_of_In, elem_of_seqZ. unfold is_ascii_cp in Hb. lia.
Qed.

Definition word_byte (w : bool) (b : Z) : Z := if char_is_whitespace b then b else fold_byte w b.

(** Title casing in one pass: a letter is upper case after white space. *)
Fixpoint title_words (b : list Z) (w : bool) : list Z :=
  match b with
  | [] => []
  | x :: b => word_byte w x :: title_words b (char_is_whitespace x)
  end.

Fixpoint title_end (b : list Z) (w : bool) : bool :=
  match b with [] => w | x :: b => title_end b (char_is_whitespace x) end.

Definition title_byte (w : bool) (b : Z) : Z :=
  if w then if is_ascii_lowercase b then Z.land b 223 else b
  else if is_ascii_uppercase b then Z.lor b 32 else b.

Lemma title_byte_ok w b : is_ascii_cp b ->
  title_byte w b = fold_byte w b /\
  ((b =? 32) || (b =? 9) || (b =? 10) || (b =? 11) || (b =? 12) || (b =? 13)) = char_is_whitespace b /\
  0 <= fold_byte w b < 128.
Proof.
  intros Hb.
  assert (forall w, forallb (fun b => (title_byte w b =? fold_byte w b) &&
    eqb ((b =? 32) || (b =? 9) || (b =? 10) || (b =? 11) || (b =? 12) || (b =? 13)) (char_is_whitespace b) &&
    ((0 <=? fold_byte w b) && (fold_byte w b <? 128))) (seqZ 0 128) = true) as Hall
    by (intros []; by vm_compute).
  pose proof (ascii_forall _ b (Hall w) Hb) as H. cbv beta in H.
  apply andb_true_iff in H as [H ?]. apply andb_true_iff in H as [H1 H2].
  apply eqb_prop in H2. zb. split_and!; (done || lia).
Qed.

Lemma title_loop_spec b w : Forall is_ascii_cp b -> title_loop b w = (title_words b w, title_end b w).
Proof.
  intros Hb. revert w. induction Hb as [|x b Hx _ IH]; intros w; [done|].
  cbn [title_loop title_words title_end]. unfold word_byte.
  destruct (title_byte_ok w x Hx) as (Ht & -> & _). rewrite <-Ht.
  destruct (char_is_whitespace x); rewrite IH; done.
Qed.

Definition fold_prefix (mode : CaseFoldMode) (w : bool) (b : list Z) : list Z :=
  match mode with
  | Upper => map (fold_byte true) b
  | Lower => map (fold_byte false) b
  | Title => title_words b w
  end.

Definition end_word (mode : CaseFoldMode) (w : bool) (b : list Z) : bool :=
  match mode with Title => title_end b w | _ => w end.

Lemma fold_ascii_spec b mode w out :
  Forall is_ascii_cp b -> fold_ascii b mode w out = (out ++ fold_prefix mode w b, end_word mode w b).
Proof.
  intros Hb. destruct mode; [done|done|]. simpl. unfold fold_ascii_prefix_title.
  by rewrite title_loop_spec.
Qed.

Lemma fold_prefix_ascii mode w b :
  Forall is_ascii_cp b -> Forall is_ascii_cp (fold_prefix mode w b) /\ length (fold_prefix mode w b) = length b.
Proof.
  assert (forall u x, is_ascii_cp x -> is_ascii_cp (fold_byte u x)) as Hf
    by (intros u x Hx; by destruct (title_byte_ok u x Hx) as (_ & _ & ?)).
  intros Hb. destruct mode; simpl; rewrite ?length_map.
  1, 2: split; [|done]; apply Forall_fmap; eapply Forall_impl; [exact Hb|]; intros x Hx; by apply Hf.
  revert w. induction Hb as [|x b Hx _ IH]; intros w; [done|]. destruct (IH (char_is_whitespace x)) as [H1 H2].
  simpl. rewrite H2. split; [|done]. constructor; [|done]. unfold word_byte.
  destruct (char_is_whitespace x); [done|by apply Hf].
Qed.

(** ** The code point walk *)

(** What the fold engine relies on in the [char] methods of the standard library. *)
Class CharCaseOk (C : CharCase) : Prop := {
  upper_ascii c : is_ascii_cp c -> to_uppercase c = [fold_byte true c];
  lower_ascii c : is_ascii_cp c -> to_lowercase c = [fold_byte false c];
}.

(** No table has an entry for an ASCII code point. *)
Lemma tables_skip_ascii c : is_ascii_cp c ->
  is_combining_mark c = false /\ full_upper_entry c = None /\ full_lower_entry c = None /\
  is_scalar_value c = true /\ (c =? 931) = false.
Proof.
  intros Hc.
  assert (forallb (fun c => negb (is_combining_mark c) &&
    (match full_upper_entry c with None => true | _ => false end &&
     match full_lower_entry c with None => true | _ => false end)) (seqZ 0 128) = true) as Hall
    by (by vm_compute).
  pose proof (ascii_forall _ c Hall Hc) as H. cbv beta in H.
  apply andb_true_iff in H as [H1 H]. apply andb_true_iff in H as [H2 H3]. apply negb_true_iff in H1.
  unfold is_ascii_cp in Hc. split_and!; [done|by destruct (full_upper_entry c)|by destruct (full_lower_entry c)| |].
  - apply scalar_value_iff. lia.
  - lia.
Qed.

#[local] Opaque is_combining_mark full_upper_entry full_lower_entry turkish_upper_entry turkish_lower_entry
  is_final_sigma_context.

Section Walk.
Context {C : CharCase} {HC : CharCaseOk C}.

Lemma push_ascii out c : is_ascii_cp c -> push_cp out c = out ++ [c].
Proof.
  intros Hc. destruct (tables_skip_ascii c Hc) as (_ & _ & _ & Hs & _). unfold push_cp. rewrite Hs.
  unfold utf8_encode. unfold is_ascii_cp in Hc. by rewrite (proj2 (Z.ltb_lt _ _)) by lia.
Qed.

(** On ASCII the walk is the byte fold. *)
Lemma slow_step_ascii cps mode i c w out :
  is_ascii_cp c ->
  slow_step cps mode false i c (w, out) =
  (match mode with Title => char_is_whitespace c | _ => false end,
   out ++ fold_prefix mode w [c]).
Proof.
  intros Hc. destruct (tables_skip_ascii c Hc) as (Hm & Hu & Hl & Hs & Hsig).
  assert (forall u : bool, push_all out (if u then to_uppercase c else to_lowercase c) = out ++ [fold_byte u c]) as Hp.
  { intros u. destruct (title_byte_ok u c Hc) as (_ & _ & Hr).
    destruct u; rewrite ?upper_ascii, ?lower_ascii by done; simpl; by apply push_ascii. }
  unfold slow_step. rewrite Hm, Hs, Hsig, andb_false_r, Hu, Hl.
  assert (forall u : bool, (if u then None else None) = @None (Z * list Z)) as Hnone by (by intros []).
  destruct mode; simpl; rewrite ?Hnone.
  - f_equal. apply (Hp true).
  - f_equal. apply (Hp false).
  - unfold word_byte. destruct (char_is_whitespace c); [by rewrite push_ascii|]. by rewrite Hp.
Qed.

(** Outside title casing the word state is not read. *)
Lemma slow_step_word cps mode tr i c w w' out :
  mode <> Title -> snd (slow_step cps mode tr i c (w, out)) = snd (slow_step cps mode tr i c (w', out)).
Proof.
  intros Hm. unfold slow_step. destruct (is_combining_mark c); [reflexivity|].
  destruct mode; [reflexivity|reflexivity|done].
Qed.

Lemma slow_loop_cons cps mode tr i c rest st :
  slow_loop cps mode tr i (c :: rest) st = slow_loop cps mode tr (S i) rest (slow_step cps mode tr i c st).
Proof. reflexivity. Qed.

Lemma slow_loop_word cps mode tr rest : forall i w w' out,
  mode <> Title ->
  snd (slow_loop cps mode tr i rest (w, out)) = snd (slow_loop cps mode tr i rest (w', out)).
Proof.
  induction rest as [|c rest IH]; intros i w w' out Hm; [done|]. rewrite !slow_loop_cons.
  pose proof (slow_step_word cps mode tr i c w w' out Hm) as Hstep.
  destruct (slow_step cps mode tr i c (w, out)) as [v o], (slow_step cps mode tr i c (w', out)) as [v' o'].
  simpl in Hstep. subst. by apply IH.
Qed.

Lemma fold_prefix_cons mode w c b :
  fold_prefix mode w (c :: b) = fold_prefix mode w [c] ++ fold_prefix mode (char_is_whitespace c) b.
Proof. by destruct mode. Qed.

(** The walk over an ASCII prefix continues where the byte fold ends. *)
Lemma slow_loop_prefix cps mode p rest : forall i w out,
  Forall is_ascii_cp p ->
  snd (slow_loop cps mode false i (p ++ rest) (w, out)) =
  snd (slow_loop cps mode false (i + length p) rest (end_word mode w p, out ++ fold_prefix mode w p)).
Proof.
  induction p as [|c p IH]; intros i w out Hp.
  { simpl. rewrite Nat.add_0_r. destruct mode; simpl; by rewrite app_nil_r. }
  apply Forall_cons in Hp as [Hc Hp]. cbn [app length]. rewrite slow_loop_cons.
  rewrite slow_step_ascii, IH by done.
  rewrite (fold_prefix_cons mode w c p), (app_assoc out), Nat.add_succ_r.
  destruct mode; [by apply slow_loop_word|by apply slow_loop_word|done].
Qed.
End Walk.

(** ** The reference fold and the engine *)

(** The fold of a string: the code point walk from its start, without any fast path. *)
Definition fold_reference {C : CharCase} (b : list Z) (mode : CaseFoldMode) (locale_turkish : bool) : list Z :=
  let cps := code_points b in snd (slow_loop cps mode locale_turkish 0 cps (true, [])).

Definition hint_true (b : list Z) (hint : AsciiHint) : Prop :=
  match hint with AllAscii => Forall (fun x => x < 128) b | _ => True end.

Lemma ascii_cps b : Forall is_u8 b -> Forall (fun x => x < 128) b -> Forall is_ascii_cp b.
Proof. rewrite !Forall_forall. unfold is_u8, is_ascii_cp. intros H1 H2 x Hx. specialize (H1 x Hx). specialize (H2 x Hx). lia. Qed.

Lemma ascii_codes b r : Forall is_ascii_cp b -> code_points (b ++ r) = b ++ code_points r.
Proof.
  unfold is_ascii_cp. induction 1 as [|x b Hx _ IH]; [done|]. simpl. rewrite (proj2 (Z.ltb_lt _ _)) by lia.
  by rewrite IH.
Qed.

Section EngineFacts.
Context {C : CharCase} {HC : CharCaseOk C}.

(** Resuming the walk after a folded ASCII prefix gives the reference fold. *)
Lemma resume_reference p r mode :
  Forall is_ascii_cp p ->
  fold_reference (p ++ r) mode false =
  snd (slow_loop (code_points (p ++ r)) mode false (length p) (drop (length p) (code_points (p ++ r)))
         (end_word mode true p, fold_prefix mode true p)).
Proof.
  intros Hp. unfold fold_reference. rewrite ascii_codes by done. rewrite slow_loop_prefix by done.
  by rewrite drop_app_length, app_nil_l.
Qed.

Lemma reference_ascii p mode : Forall is_ascii_cp p -> fold_reference p mode false = fold_prefix mode true p.
Proof.
  intros Hp. pose proof (resume_reference p [] mode Hp) as H. rewrite app_nil_r in H. rewrite H.
  pose proof (ascii_codes p [] Hp) as Hc. simpl in Hc. rewrite !app_nil_r in Hc. rewrite Hc.
  by rewrite drop_all.
Qed.

(** The prefix fold never fails its final check. *)
Lemma prefix_into_string b mode :
  Forall is_u8 b ->
  exists p r, b = p ++ r /\ Forall is_ascii_cp p /\
    fold_ascii_prefix_into_string b mode true [] =
    Ok (MkFast (length p) (end_word mode true p) (fold_prefix mode true p)).
Proof.
  intros Hb. destruct (scan_prefix_spec b Hb) as [Hscan _].
  destruct (scan_tail_prefix b) as (Hle & Hascii & _).
  set (n := scan_tail b 0) in *. exists (take n b), (drop n b).
  assert (Forall is_ascii_cp (take n b)) as Hp by (apply ascii_cps; [by apply Forall_take|done]).
  assert (length (take n b) = n) as Hlen by (rewrite length_take; lia).
  split_and!; [by rewrite take_drop|done|].
  assert (fold_ascii_prefix b mode true [] =
    MkFast n (end_word mode true (take n b)) (fold_prefix mode true (take n b))) as Hfold.
  { unfold fold_ascii_prefix. rewrite Hscan. destruct (Nat.eqb_spec n 0) as [->|Hne].
    - by destruct mode.
    - by rewrite fold_ascii_spec, app_nil_l. }
  unfold fold_ascii_prefix_into_string. rewrite Hfold, Hlen. cbn [length consumed fast_out Nat.add].
  destruct (fold_prefix_ascii mode true (take n b) Hp) as [Hout Hol]. rewrite Hlen in Hol.
  rewrite Hol, Nat.ltb_irrefl, drop_0.
  rewrite (proj2 (forallb_forall _ _)); [done|]. intros x Hx. apply Z.ltb_lt.
  apply list_elem_of_In, elem_of_take in Hx as (i & Hx & _). rewrite Forall_lookup in Hout.
  apply (Hout i x Hx).
Qed.

Lemma fold_hint_reference b mode tr hint :
  Forall is_u8 b -> hint_true b hint ->
  fold_string_with_ascii_hint b mode tr hint = Ok (fold_reference b mode tr).
Proof.
  intros Hb Hh. unfold fold_string_with_ascii_hint.
  assert (forall p r, b = p ++ r -> Forall is_ascii_cp p ->
    (if Nat.eqb (length p) (length b) then Ok (fold_prefix mode true p)
     else Ok (snd (slow_loop (code_points b) mode false (length p) (drop (length p) (code_points b))
            (end_word mode true p, fold_prefix mode true p)))) =
    Ok (E := unit) (fold_reference b mode false)) as Hmain.
  { intros p r -> Hp. destruct (Nat.eqb_spec (length p) (length (p ++ r))) as [Hl|].
    - rewrite length_app in Hl. assert (r = []) as -> by (apply nil_length_inv; lia).
      rewrite app_nil_r. by rewrite reference_ascii.
    - by rewrite resume_reference. }
  assert (forall w, fold_prefix mode w [] = []) as Hnil by (by destruct mode).
  assert (forall w, end_word mode w [] = w) as Hw by (by destruct mode).
  destruct tr; simpl.
  { destruct b; [done|]. simpl. by rewrite drop_0. }
  destruct hint; simpl.
  - destruct (prefix_into_string b mode Hb) as (p & r & Hpr & Hp & Hfast). rewrite Hfast. simpl.
    by apply (Hmain p r).
  - pose proof (ascii_cps b Hb Hh) as Hp. specialize (Hmain b []). rewrite app_nil_r in Hmain.
    specialize (Hmain eq_refl Hp). unfold case_fold_ascii_fast.
    destruct (Nat.eqb_spec (length b) 0) as [Hz|Hz]; simpl.
    + rewrite Hz in *. simpl in *. by rewrite (nil_length_inv b Hz) in *.
    + rewrite fold_ascii_spec by done. simpl. done.
  - specialize (Hmain [] b eq_refl (Forall_nil_2 _)). rewrite Hnil, Hw in Hmain. done.
Qed.
End EngineFacts.

(** ** The result is a string *)

Definition valid_out (out : list Z) : Prop := Forall is_u8 out /\ utf8_codes out = true.

Lemma encode_u8 c : is_scalar_value c = true -> Forall is_u8 (utf8_encode c).
Proof.
  rewrite scalar_value_iff. intros Hc. unfold utf8_encode, is_u8.
  repeat match goal with |- context [if ?x then _ else _] => destruct x eqn:? end; zb;
    repeat constructor; div_mod.
Qed.

Lemma push_cp_valid out c : valid_out out -> valid_out (push_cp out c).
Proof.
  intros [Hu Hv]. unfold push_cp. destruct (is_scalar_value c) eqn:Hc; [|done]. split.
  - apply Forall_app. split; [done|by apply encode_u8].
  - rewrite utf8_codes_app; [|eapply Forall_impl; [exact Hu|]; unfold is_u8; lia|done].
    rewrite <-(app_nil_r (utf8_encode c)). by rewrite utf8_codes_encode.
Qed.

Lemma push_all_valid cps : forall out, valid_out out -> valid_out (push_all out cps).
Proof.
  unfold push_all. induction cps as [|c cps IH]; intros out Ho; [done|]. apply IH. by apply push_cp_valid.
Qed.

#[local] Hint Resolve push_cp_valid push_all_valid : core.

Section Validity.
Context {C : CharCase}.

Lemma slow_step_valid cps mode tr i c w out :
  valid_out out -> valid_out (snd (slow_step cps mode tr i c (w, out))).
Proof.
  intros Ho. unfold slow_step. destruct (is_combining_mark c); [simpl; auto|].
  destruct (match mode with Title => _ | _ => false end); [simpl; auto|].
  set (upper := match mode with Upper => true | Lower => false | Title => w end). clearbody upper.
  destruct (negb upper && (c =? 931)); [simpl; auto|].
  destruct (if tr then if upper then turkish_upper_entry c else turkish_lower_entry c else None)
    as [[]|]; [simpl; auto|].
  destruct (if upper then full_upper_entry c else full_lower_entry c) as [[]|]; [simpl; auto|].
  simpl. destruct (is_scalar_value c); auto.
Qed.

Lemma slow_loop_valid cps mode tr rest : forall i st,
  valid_out (snd st) -> valid_out (snd (slow_loop cps mode tr i rest st)).
Proof.
  induction rest as [|c rest IH]; intros i [w out] Ho; [done|]. rewrite slow_loop_cons. apply IH.
  by apply slow_step_valid.
Qed.

Lemma reference_valid b mode tr : valid_out (fold_reference b mode tr).
Proof. by apply slow_loop_valid. Qed.
End Validity.

(** ** The inline writer *)

Lemma of_codes l : Forall is_u8 l -> map byte.unsigned (map byte.of_Z l) = l.
Proof.
  induction 1 as [|x l Hx _ IH]; simpl; [done|]. rewrite IH, byte.unsigned_of_Z. f_equal.
  unfold byte.wrap. by apply Z.mod_small.
Qed.

Lemma valid_is_str l : valid_out l ->
  is_str (str_of_bytes (map byte.of_Z l)) = true /\
  map byte.unsigned (as_bytes (str_of_bytes (map byte.of_Z l))) = l.
Proof. intros [Hu Hv]. unfold is_str, utf8_valid. by rewrite as_bytes_of_str, of_codes. Qed.

Lemma codes_u8 (b : bytes) : Forall is_u8 (map byte.unsigned b).
Proof. apply Forall_forall. intros x (y & -> & _)%list_elem_of_fmap. apply byte.unsigned_range. Qed.

Lemma inline_title_spec b w :
  Forall is_ascii_cp b -> 11 ∉ b -> inline_title b w = title_words b w.
Proof.
  intros Hb. revert w. induction Hb as [|x b Hx _ IH]; intros w Hn; [done|].
  rewrite not_elem_of_cons in Hn. destruct Hn as [Hne Hn].
  assert (is_ascii_whitespace x = char_is_whitespace x) as Hws.
  { assert (forallb (fun x => (x =? 11) || eqb (is_ascii_whitespace x) (char_is_whitespace x)) (seqZ 0 128) = true)
      as Hall by (by vm_compute).
    pose proof (ascii_forall _ x Hall Hx) as H. cbv beta in H.
    rewrite (proj2 (Z.eqb_neq _ _)) in H by congruence. by apply eqb_prop in H. }
  cbn [inline_title title_words]. unfold word_byte. rewrite Hws.
  destruct (char_is_whitespace x); by rewrite IH.
Qed.

Lemma inline_fold_spec b mode :
  Forall is_ascii_cp b -> (mode = Title -> 11 ∉ b) -> inline_fold b mode = fold_prefix mode true b.
Proof. intros Hb Hvt. destruct mode; [done|done|]. apply inline_title_spec; auto. Qed.

Lemma store_length src out : length (store_bytes src out) = length out.
Proof. unfold store_bytes. rewrite length_app, length_take, length_map, length_drop. lia. Qed.

Lemma store_exact src n : n = blen src -> store_bytes src (zeros n) = map byte.of_Z src.
Proof.
  intros ->. unfold store_bytes, zeros, blen. rewrite length_replicate, Nat2Z.id.
  rewrite take_ge by (by rewrite length_map). rewrite drop_ge by (by rewrite length_replicate).
  apply app_nil_r.
Qed.

Lemma ascii_valid l : Forall is_ascii_cp l -> valid_out l.
Proof.
  unfold is_ascii_cp. induction 1 as [|x l Hx _ [IH1 IH2]]; [by split; constructor|].
  split; [constructor; [unfold is_u8; lia|done]|]. simpl. by rewrite (proj2 (Z.ltb_lt _ _)) by lia.
Qed.

(** The inputs on which the inline title writer sees a vertical tab. *)
Definition inline_vertical_tab (s : string) (mode : CaseFoldMode) (locale_turkish : bool) : Prop :=
  mode = Title /\ locale_turkish = false /\ Smol.str_len s <= Smol.SMOL_STR_INLINE_CAP /\
  11 ∈ map byte.unsigned (as_bytes s).

Lemma ascii_bytes_iff b : Smol.ascii_bytes b = true <-> Forall (fun x => x < 128) (map byte.unsigned b).
Proof.
  unfold Smol.ascii_bytes. rewrite forallb_forall, Forall_fmap, Forall_forall.
  split; intros H x Hx; [apply Z.ltb_lt, H, list_elem_of_In, Hx|apply Z.ltb_lt, H, list_elem_of_In, Hx].
Qed.

Section Smol.
Context {C : CharCase} {HC : CharCaseOk C}.

(** [y] is the string of the reference fold of [s]. *)
Definition folds_to (y : Smol.SmolStr) (s : string) (mode : CaseFoldMode) (tr : bool) : Prop :=
  exists t, Smol.denotes y t /\
    map byte.unsigned (as_bytes t) = fold_reference (map byte.unsigned (as_bytes s)) mode tr.

Lemma general_path s mode tr hint :
  hint_true (map byte.unsigned (as_bytes s)) hint ->
  exists y, (let* out := fold_string_with_ascii_hint (map byte.unsigned (as_bytes s)) mode tr hint in
             Smol.from_string (str_of_bytes (map byte.of_Z out))) = Ok y /\ folds_to y s mode tr.
Proof.
  intros Hh. rewrite fold_hint_reference by (done || apply codes_u8). cbn [bind].
  destruct (valid_is_str _ (reference_valid (map byte.unsigned (as_bytes s)) mode tr)) as [Hs Hb].
  destruct (Smol.from_string_ok (E := unit) _ Hs) as (y & Hy & Hd). exists y. split; [done|].
  by eexists.
Qed.

Lemma inline_path s mode :
  Forall (fun x => x < 128) (map byte.unsigned (as_bytes s)) ->
  Smol.str_len s <= Smol.SMOL_STR_INLINE_CAP -> ~ inline_vertical_tab s mode false ->
  let b := map byte.unsigned (as_bytes s) in
  exists y, Smol.try_build_inline (E := unit) (blen b) (store_bytes (inline_fold b mode)) = Ok (Some y) /\
    folds_to y s mode false.
Proof.
  intros Ha Hlen Hvt b. pose proof (ascii_cps b (codes_u8 _) Ha) as Hb.
  destruct (fold_prefix_ascii mode true b Hb) as [Hf Hfl].
  assert (inline_fold b mode = fold_prefix mode true b) as Hin.
  { apply inline_fold_spec; [done|]. intros -> Hin. apply Hvt. by split_and!. }
  destruct (valid_is_str _ (ascii_valid _ Hf)) as [Hs Hbytes].
  destruct (Smol.try_build_inline_ok (E := unit) (blen b) (store_bytes (inline_fold b mode)))
    as (r & Hr & Hd); [unfold blen; lia|apply store_length|].
  rewrite store_exact, Hin in Hd by (rewrite Hin; unfold blen; by rewrite Hfl).
  destruct r as [y|].
  - exists y. split; [done|]. eexists. split; [exact Hd|]. by rewrite Hbytes, reference_ascii.
  - exfalso. destruct Hd as [Hd|Hd].
    + unfold Smol.str_len, b, blen in *. rewrite length_map in Hd. lia.
    + unfold is_str in Hs. rewrite as_bytes_of_str in Hs. congruence.
Qed.
Lemma inline_fold_ascii b mode :
  Forall is_ascii_cp b -> Forall is_ascii_cp (inline_fold b mode) /\ length (inline_fold b mode) = length b.
Proof.
  assert (forall u x, is_ascii_cp x -> is_ascii_cp (fold_byte u x)) as Hf
    by (intros u x Hx; by destruct (title_byte_ok u x Hx) as (_ & _ & ?)).
  intros Hb. assert (forall u, Forall is_ascii_cp (map (fold_byte u) b)) as Hm.
  { intros u. apply Forall_fmap. eapply Forall_impl; [exact Hb|]. intros x Hx. by apply Hf. }
  destruct mode; cbn [inline_fold]; [by rewrite length_map|by rewrite length_map|]. generalize true. clear Hm.
  induction Hb as [|x b Hx _ IH]; intros w; [done|]. cbn [inline_title].
  destruct (is_ascii_whitespace x); cbn [length]; destruct (IH true), (IH false);
    (split; [constructor; auto|by f_equal]).
Qed.

(** Case folding returns a string for every string, the exception of [case_fold_correct] included. *)
Lemma case_fold_total x s mode tr : Smol.denotes x s -> exists y t, case_fold x mode tr = Ok y /\ Smol.denotes y t.
Proof.
  intros Hd. destruct (Smol.denotes_stands_for (E := unit) x s Hd) as [_ Hstr _ _ Hasc].
  unfold case_fold. rewrite Hasc. cbn [bind]. rewrite Hstr. cbn [bind].
  pose proof (ascii_bytes_iff (as_bytes s)) as Ha. unfold fold_string_to_smol_with_hint.
  assert (hint_true (map byte.unsigned (as_bytes s))
    (if Smol.ascii_bytes (as_bytes s) then AllAscii else KnownNonAscii)) as Hh
    by (destruct (Smol.ascii_bytes _); [by apply Ha|done]).
  assert (exists y t, (let* out := fold_string_with_ascii_hint (map byte.unsigned (as_bytes s)) mode tr
      (if Smol.ascii_bytes (as_bytes s) then AllAscii else KnownNonAscii) in
    Smol.from_string (str_of_bytes (map byte.of_Z out))) = Ok y /\ Smol.denotes y t) as Hgen.
  { destruct (general_path s mode tr _ Hh) as (y & -> & t & Ht & _). by exists y, t. }
  destruct tr; cbn [negb bind]; [done|].
  unfold fold_string_to_smol_ascii_fast. destruct (_ <? _) eqn:Hcap; [done|].
  destruct (Smol.ascii_bytes (as_bytes s)); [|done]. set (b := map byte.unsigned (as_bytes s)) in *.
  destruct (inline_fold_ascii b mode (ascii_cps b (codes_u8 _) (proj1 Ha eq_refl))) as [Hf Hl].
  destruct (Smol.try_build_inline_ok (E := unit) (blen b) (store_bytes (inline_fold b mode)))
    as (r & Hr & Hy); [unfold blen; lia|apply store_length|].
  rewrite store_exact in Hy by (unfold blen; by rewrite Hl). rewrite Hr. cbn [bind].
  destruct (valid_is_str _ (ascii_valid _ Hf)) as [Hv _].
  destruct r as [y|]; [by eauto|]. exfalso. destruct Hy as [Hy|Hy]; [zb; lia|].
  unfold is_str in Hv. rewrite as_bytes_of_str in Hv. congruence.
Qed.
End Smol.

(** ** Properties *)

(** The ASCII scan of the fold fast path finds the longest ASCII prefix, and its
    two compilations agree: eight bytes at a time with the high-bit mask of a
    little-endian word, or sixteen lanes at a time; the branch-free byte fold
    and the masked vector fold give the same bytes. *)
Theorem ascii_kernels_agree b upper out :
  Forall is_u8 b ->
  let n := scan_ascii_prefix b in
  (n <= length b)%nat /\ Forall (fun x => x < 128) (take n b) /\ (forall x, b !! n = Some x -> 128 <= x) /\
  scan_ascii_prefix_simd b = n /\
  fold_ascii_upper_lower_simd b upper out = fold_ascii_upper_lower b upper out.
Proof.
  intros Hb n. destruct (scan_prefix_spec b Hb) as [Hn Hs]. unfold n. rewrite Hn, Hs.
  destruct (scan_tail_prefix b) as (H1 & H2 & H3). split_and!; try done.
  unfold fold_ascii_upper_lower_simd, fold_ascii_upper_lower. by rewrite fold_vectors_spec.
Qed.

(** C21 Case folding a [SmolStr] always returns, and returns the string of the
    reference fold, whichever of the inline, all-ASCII, ASCII-prefix and code
    point paths the string selects: the fast paths are optimisations.  Excepted
    is title casing of a short string with a vertical tab. *)
Theorem case_fold_correct {C : CharCase} {HC : CharCaseOk C} x s mode locale_turkish :
  Smol.denotes x s -> ~ inline_vertical_tab s mode locale_turkish ->
  exists y, case_fold x mode locale_turkish = Ok y /\ folds_to y s mode locale_turkish.
Proof.
  intros Hd Hvt. destruct (Smol.denotes_stands_for (E := unit) x s Hd) as [_ Hstr _ _ Hasc].
  unfold case_fold. rewrite Hasc. cbn [bind]. rewrite Hstr. cbn [bind].
  pose proof (ascii_bytes_iff (as_bytes s)) as Ha. unfold fold_string_to_smol_with_hint.
  assert (hint_true (map byte.unsigned (as_bytes s))
    (if Smol.ascii_bytes (as_bytes s) then AllAscii else KnownNonAscii)) as Hh
    by (destruct (Smol.ascii_bytes _); [by apply Ha|done]).
  destruct locale_turkish; cbn [negb bind]; [by apply general_path|].
  unfold fold_string_to_smol_ascii_fast. destruct (_ <? _) eqn:Hcap; [by apply general_path|].
  destruct (Smol.ascii_bytes (as_bytes s)); [|by apply general_path].
  destruct (inline_path s mode) as (y & Hy & Hf); [by apply Ha| |done|by rewrite Hy; exists y].
  unfold Smol.str_len, blen in *. rewrite length_map in Hcap. zb. lia.
Qed.

(** The result of the fold engine does not depend on the caller's hint: on every
    byte string each truthful hint gives the reference fold, which is valid UTF-8. *)
Theorem fold_hint_irrelevant {C : CharCase} {HC : CharCaseOk C} b mode locale_turkish hint hint' :
  Forall is_u8 b -> hint_true b hint -> hint_true b hint' ->
  fold_string_with_ascii_hint b mode locale_turkish hint = fold_string_with_ascii_hint b mode locale_turkish hint' /\
  exists out, fold_string_with_ascii_hint b mode locale_turkish hint = Ok out /\
    out = fold_reference b mode locale_turkish /\ utf8_codes out = true.
Proof.
  intros Hb Hh Hh'. rewrite !fold_hint_reference by done. split; [done|]. eexists. split_and!; [done|done|].
  apply reference_valid.
Qed.

(** ** Witnesses *)

(** The [char] methods of a toolchain whose tables stop at ASCII. *)
#[local] Instance ascii_case : CharCase := {|
  to_uppercase c := [if is_ascii_lowercase c then c - 32 else c];
  to_lowercase c := [if is_ascii_uppercase c then c + 32 else c];
|}.

#[local] Instance ascii_case_ok : CharCaseOk ascii_case.
Proof.
  split; intros c Hc; simpl; f_equal; apply Z.eqb_eq.
  - by apply (ascii_forall (fun c => (if is_ascii_lowercase c then c - 32 else c) =? fold_byte true c)).
  - by apply (ascii_forall (fun c => (if is_ascii_uppercase c then c + 32 else c) =? fold_byte false c)).
Qed.

(** Title casing treats the vertical tab as white space, except in a string of at
    most 22 ASCII bytes: there the inline writer leaves the letter after it in
    lower case, where the general path raises it. *)
Theorem inline_title_vertical_tab :
  let s := str_of_bytes (map byte.of_Z [97; 11; 98]) in
  (let* x := Smol.from_string s in let* y := case_fold x Title false in Smol.as_str y)
    = Ok (E := unit) (str_of_bytes (map byte.of_Z [65; 11; 98])) /\
  fold_string_with_ascii_hint [97; 11; 98] Title false AllAscii = Ok [65; 11; 66] /\
  fold_reference [97; 11; 98] Title false = [65; 11; 66].
Proof. split_and!; by vm_compute. Qed.

Lemma ascii_kernels_agree_witness :
  Forall is_u8 [104; 233; 97; 98; 99; 100; 101; 102; 200] /\
  scan_ascii_prefix_simd [104; 233; 97; 98; 99; 100; 101; 102; 200] =
  scan_ascii_prefix [104; 233; 97; 98; 99; 100; 101; 102; 200].
Proof.
  assert (Forall is_u8 [104; 233; 97; 98; 99; 100; 101; 102; 200]) as H
    by (repeat constructor; unfold is_u8; lia).
  split; [exact H|]. exact (proj1 (proj2 (proj2 (proj2 (ascii_kernels_agree _ true [] H))))).
Defined.


Lemma case_fold_correct_witness :
  exists y, case_fold (Smol.Inline 2 (map byte.of_Z [104; 105] ++ zeros 20)) Title false = Ok y /\
    folds_to y (str_of_bytes (map byte.of_Z [104; 105])) Title false.
Proof.
  apply case_fold_correct; [by split_and!|]. intros (_ & _ & _ & H).
  apply list_elem_of_In in H. vm_compute in H. intuition discriminate.
Defined.
