(* ===== verification/Normalization.v ===== *)
(** Unicode normalization, [crates/relon-unicode/src/normalization.rs]: the four normal forms with
    the table lookups, the Hangul arithmetic, the canonical reordering, the composition pass and
    the encoders of the tables for compiled code.

    [NFD] and [NFKD] decide canonical and compatibility equivalence, the equivalences that
    decompositions and exchanges of marks generate.  [NFC] and [NFKC] decide them on texts in which
    no mark stands before a starter that composes with what precedes it; without that condition
    the composition pass joins a starter across marks and the forms decide nothing.

    A code point is a [u32]; an index outside a table or a buffer is [Abort]. *)

From Stdlib Require Import ZArith Lia Bool.
From coqutil Require Import Byte Word.LittleEndianList.
From stdpp Require Import base list strings relations zmap.
From S2P Require Import Prelude Bytes Value Chars UnicodeTables UnicodeSearch CaseFold CaseFoldFacts.
Local Open Scope Z_scope.
Local Open Scope abi_scope.

Module Normalization.

(** ** Hangul *)

Definition HANGUL_S_BASE : Z := 44032.
Definition HANGUL_L_BASE : Z := 4352.
Definition HANGUL_V_BASE : Z := 4449.
Definition HANGUL_T_BASE : Z := 4519.
Definition HANGUL_L_COUNT : Z := 19.
Definition HANGUL_V_COUNT : Z := 21.
Definition HANGUL_T_COUNT : Z := 28.
Definition HANGUL_N_COUNT : Z := HANGUL_V_COUNT * HANGUL_T_COUNT.
Definition HANGUL_S_COUNT : Z := HANGUL_L_COUNT * HANGUL_N_COUNT.

(** [(lo..hi).contains(&x)] *)
Definition contains (lo hi x : Z) : bool := (lo <=? x) && (x <? hi).

Definition hangul_decompose_into (cp : Z) (out : list Z) : bool * list Z :=
  if negb (contains HANGUL_S_BASE (HANGUL_S_BASE + HANGUL_S_COUNT) cp) then (false, out) else
  let s_index := cp - HANGUL_S_BASE in
  let l := HANGUL_L_BASE + s_index / HANGUL_N_COUNT in
  let v := HANGUL_V_BASE + (s_index mod HANGUL_N_COUNT) / HANGUL_T_COUNT in
  let t_offset := s_index mod HANGUL_T_COUNT in
  let out := (out ++ [l]) ++ [v] in
  (true, if negb (t_offset =? 0) then out ++ [HANGUL_T_BASE + t_offset] else out).

Definition hangul_compose (first second : Z) : option Z :=
  if contains HANGUL_L_BASE (HANGUL_L_BASE + HANGUL_L_COUNT) first
     && contains HANGUL_V_BASE (HANGUL_V_BASE + HANGUL_V_COUNT) second
  then
    let l_index := first - HANGUL_L_BASE in
    let v_index := second - HANGUL_V_BASE in
    Some (HANGUL_S_BASE + (l_index * HANGUL_V_COUNT + v_index) * HANGUL_T_COUNT)
  else if contains HANGUL_S_BASE (HANGUL_S_BASE + HANGUL_S_COUNT) first then
    let s_index := first - HANGUL_S_BASE in
    if (s_index mod HANGUL_T_COUNT =? 0)
       && contains (HANGUL_T_BASE + 1) (HANGUL_T_BASE + HANGUL_T_COUNT) second
    then Some (first + (second - HANGUL_T_BASE)) else None
  else None.

(** ** Lookups *)

Definition ccc (cp : Z) : Z :=
  match binary_search_by (fun entry => Z.compare (fst entry) cp) CCC_TABLE with
  | Some idx => match CCC_TABLE !! idx with Some entry => snd entry | None => 0 end
  | None => 0
  end.

(** The index entry and the slice of the pool; [None] when there is no entry. *)
Definition decomp_lookup (index : list (Z * Z * Z)) (pool : list Z) (cp : Z) : outcome unit (option (list Z)) :=
  match binary_search_by (fun entry => Z.compare (fst (fst entry)) cp) index with
  | None => Ok None
  | Some idx =>
      match index !! idx with
      | None => Abort
      | Some (_, off, len) =>
          if off + len <=? Z.of_nat (length pool) then Ok (Some (take (Z.to_nat len) (drop (Z.to_nat off) pool))) else Abort
      end
  end.

Definition nfd_lookup (cp : Z) : outcome unit (option (list Z)) := decomp_lookup NFD_INDEX NFD_POOL cp.
Definition nfkd_lookup (cp : Z) : outcome unit (option (list Z)) := decomp_lookup NFKD_INDEX NFKD_POOL cp.

(** [(a, b).cmp(&(first, second))] *)
Definition pair_cmp (first second : Z) (entry : Z * Z * Z) : comparison :=
  let '(a, b, _) := entry in match Z.compare a first with Eq => Z.compare b second | c => c end.

Definition compose_pair (first second : Z) : option Z :=
  match binary_search_by (pair_cmp first second) COMPOSITION_PAIRS with
  | Some idx => match COMPOSITION_PAIRS !! idx with Some (_, _, composed) => Some composed | None => None end
  | None => None
  end.

(** ** Decomposition and reordering *)

Inductive DecompKind : Type := Canonical | Compatibility.

Definition decompose_char (kind : DecompKind) (out : list Z) (cp : Z) : outcome unit (list Z) :=
  let (done_, out) := hangul_decompose_into cp out in
  if done_ then Ok out else
  let* mapping := match kind with Canonical => nfd_lookup cp | Compatibility => nfkd_lookup cp end in
  match mapping with Some slice => Ok (out ++ slice) | None => Ok (out ++ [cp]) end.

Definition decompose_to_buffer (input : string) (kind : DecompKind) (out : list Z) : outcome unit (list Z) :=
  foldM (decompose_char kind) out (chars input).

(** [slice::sort_by_key], a stable sort *)
Fixpoint insert_by (key : Z -> Z) (x : Z) (l : list Z) : list Z :=
  match l with [] => [x] | y :: l' => if key x <=? key y then x :: l else y :: insert_by key x l' end.
Definition sort_by_key (key : Z -> Z) (l : list Z) : list Z := foldr (insert_by key) [] l.

(** [run] is [buf[start..i]], the non-starters since the last starter. *)
Fixpoint reorder_runs (run buf : list Z) : list Z :=
  match buf with
  | [] => sort_by_key ccc run
  | c :: buf => if ccc c =? 0 then sort_by_key ccc run ++ c :: reorder_runs [] buf else reorder_runs (run ++ [c]) buf
  end.
Definition canonical_reorder (buf : list Z) : list Z := reorder_runs [] buf.

Definition decompose_and_reorder (input : string) (kind : DecompKind) : outcome unit (list Z) :=
  let* buf := decompose_to_buffer input kind [] in Ok (canonical_reorder buf).

Definition encode (cps : list Z) : string := str_of_bytes (map byte.of_Z (push_all [] cps)).

Definition to_nfd (input : string) : outcome unit string :=
  let* buf := decompose_and_reorder input Canonical in Ok (encode buf).
Definition to_nfkd (input : string) : outcome unit string :=
  let* buf := decompose_and_reorder input Compatibility in Ok (encode buf).

(** ** Composition *)

Record composing : Type := MkComposing { out : list Z; last_starter : option nat; last_ccc : Z }.

(** [out.push(cp)] and the bookkeeping behind it *)
Definition push (s : composing) (cp : Z) : composing :=
  let out := out s ++ [cp] in
  if ccc cp =? 0 then MkComposing out (Some (length out - 1)%nat) 0
  else MkComposing out (last_starter s) (ccc cp).

Definition compose_step (s : composing) (cp : Z) : outcome unit composing :=
  match last_starter s with
  | None => Ok (push s cp)
  | Some i =>
      match out s !! i with
      | None => Abort
      | Some starter_cp =>
          let composed := match hangul_compose starter_cp cp with Some c => Some c | None => compose_pair starter_cp cp end in
          match composed with
          | Some comp =>
              let blocked := negb (ccc cp =? 0) && (last_ccc s >=? ccc cp) in
              if negb blocked then Ok (MkComposing (<[i := comp]> (out s)) (last_starter s) (last_ccc s)) else Ok (push s cp)
          | None => Ok (push s cp)
          end
      end
  end.

Definition compose (buf : list Z) : outcome unit (list Z) :=
  let* s := foldM compose_step (MkComposing [] None 0) buf in Ok (out s).

Definition to_nfc (input : string) : outcome unit string :=
  let* decomposed := decompose_and_reorder input Canonical in
  let* buf := compose decomposed in Ok (encode buf).
Definition to_nfkc (input : string) : outcome unit string :=
  let* decomposed := decompose_and_reorder input Compatibility in
  let* buf := compose decomposed in Ok (encode buf).

(** ** Tables for compiled code *)

Definition encode_decomp_table_bytes (index : list (Z * Z * Z)) (pool : list Z) : bytes :=
  u32_to_le (blen index `mod` 2 ^ 32) ++
  mjoin (map (fun '(cp, off, len) => u32_to_le cp ++ u32_to_le off ++ u32_to_le len) index) ++
  u32_to_le (blen pool `mod` 2 ^ 32) ++ mjoin (map u32_to_le pool).

Definition encode_ccc_table_bytes (table : list (Z * Z)) : bytes :=
  u32_to_le (blen table `mod` 2 ^ 32) ++ mjoin (map (fun '(cp, c) => u32_to_le cp ++ u32_to_le c) table).

Definition encode_composition_table_bytes (table : list (Z * Z * Z)) : bytes :=
  u32_to_le (blen table `mod` 2 ^ 32) ++
  mjoin (map (fun '(first, second, composed) => u32_to_le first ++ u32_to_le second ++ u32_to_le composed) table).

(** ** Searching sorted tables *)

Section Ascending.
Context {A : Type} (before : A -> A -> bool).

Fixpoint ascending (l : list A) : bool :=
  match l with x :: ((y :: _) as l') => before x y && ascending l' | _ => true end.

Hypothesis before_trans : forall x y z, before x y = true -> before y z = true -> before x z = true.

Lemma ascending_lookup l : ascending l = true ->
  forall i j x y, (i < j)%nat -> l !! i = Some x -> l !! j = Some y -> before x y = true.
Proof.
  assert (forall l x, ascending (x :: l) = true -> ascending l = true /\ Forall (fun y => before x y = true) l) as Hc.
  { clear l. induction l as [|y l IH]; intros x Ha; [by split|]. cbn [ascending] in Ha.
    apply andb_true_iff in Ha as [Hxy Ha]. split; [done|]. constructor; [done|].
    destruct (IH y Ha) as [_ Hl]. eapply Forall_impl; [exact Hl|]. intros z Hz. by eapply before_trans. }
  induction l as [|z l IH]; intros Ha i j x y Hij Hx Hy; [done|]. destruct (Hc l z Ha) as [Ha' Hl].
  destruct j as [|j]; [lia|]. destruct i as [|i]; [|by apply (IH Ha' i j); [lia|..]].
  injection Hx as ->. by eapply Forall_lookup_1 in Hl.
Qed.

(** How a comparator against a target must agree with the order. *)
Definition compares (f : A -> comparison) : Prop := forall x y, before x y = true ->
  (f y = Lt -> f x = Lt) /\ (f x = Gt -> f y = Gt) /\ (f x = Eq -> f y <> Eq).

Lemma search_hit f l x :
  ascending l = true -> compares f -> x ∈ l -> f x = Eq ->
  exists i, binary_search_by f l = Some i /\ l !! i = Some x.
Proof.
  intros Ha Hf (j & Hj)%list_elem_of_lookup_1 Hx. pose proof (ascending_lookup l Ha) as Hl.
  destruct (binary_search_complete f l j x) as [i Hi]; [|done..|].
  { intros a b y z Hab Hy Hz. by destruct (Hf y z (Hl a b y z Hab Hy Hz)) as (? & ? & _). }
  exists i. split; [done|]. apply binary_search_found in Hi as (y & Hy & Hfy).
  destruct (Nat.lt_total i j) as [Hij|[->|Hij]]; [|done|].
  - by destruct (Hf y x (Hl i j y x Hij Hy Hj)) as (_ & _ & []).
  - by destruct (Hf x y (Hl j i x y Hij Hj Hy)) as (_ & _ & []).
Qed.
End Ascending.

Definition key_before {A} (key : A -> Z) (x y : A) : bool := key x <? key y.

Lemma key_before_trans {A} (key : A -> Z) x y z :
  key_before key x y = true -> key_before key y z = true -> key_before key x z = true.
Proof. unfold key_before. rewrite !Z.ltb_lt. lia. Qed.

Lemma key_compares {A} (key : A -> Z) cp : compares (key_before key) (fun x => Z.compare (key x) cp).
Proof.
  intros x y Hxy. unfold key_before in Hxy. apply Z.ltb_lt in Hxy.
  rewrite !Z.compare_lt_iff, !Z.compare_gt_iff, !Z.compare_eq_iff. lia.
Qed.

Definition pair_before (x y : Z * Z * Z) : bool :=
  let '(a, b, _) := x in let '(c, d, _) := y in (a <? c) || (a =? c) && (b <? d).

Lemma pair_before_trans x y z : pair_before x y = true -> pair_before y z = true -> pair_before x z = true.
Proof.
  destruct x as [[a b] e], y as [[c d] e'], z as [[c' d'] e'']. unfold pair_before.
  rewrite !orb_true_iff, !andb_true_iff, !Z.ltb_lt, !Z.eqb_eq. lia.
Qed.

Lemma pair_compares a b : compares pair_before (pair_cmp a b).
Proof.
  intros [[x y] e] [[x' y'] e']. unfold pair_before, pair_cmp.
  rewrite orb_true_iff, andb_true_iff, !Z.ltb_lt, Z.eqb_eq.
  destruct (Z.compare_spec x a), (Z.compare_spec x' a), (Z.compare_spec y b), (Z.compare_spec y' b); intros;
    repeat split; intros; try congruence; try lia.
Qed.

(** ** The decomposition tables as maps *)

(** The payload of every entry, when the entries lie in the pool one after another. *)
Fixpoint entries (index : list (Z * Z * Z)) (pool : list Z) (at_ : Z) : option (list (Z * list Z)) :=
  match index with
  | [] => Some []
  | (cp, off, len) :: index =>
      let payload := take (Z.to_nat len) pool in
      if (off =? at_) && (0 <? len) && (Z.of_nat (length payload) =? len)
      then match entries index (drop (Z.to_nat len) pool) (at_ + len) with Some l => Some ((cp, payload) :: l) | None => None end
      else None
  end.

Lemma entries_sound pool index : forall at_ l, 0 <= at_ -> entries index (drop (Z.to_nat at_) pool) at_ = Some l ->
  Forall2 (fun e p => let '(cp, off, len) := e in
    p = (cp, take (Z.to_nat len) (drop (Z.to_nat off) pool)) /\ off + len <= Z.of_nat (length pool)) index l.
Proof.
  induction index as [|[[cp off] len] index IH]; intros at_ l Hat; cbn [entries]; [intros [= <-]; constructor|].
  cbv zeta. destruct (_ && _) eqn:Hc; [|done]. zb. subst off. rewrite drop_drop.
  rewrite <-Z2Nat.inj_add by lia. destruct (entries _ _ _) as [l'|] eqn:He; [|done]. intros [= <-].
  constructor; [|by apply IH in He; [|lia]]. split; [done|].
  match goal with H : Z.of_nat (length _) = len |- _ => rewrite length_take, length_drop in H end. lia.
Qed.

Lemma ascending_keys {A} (key : A -> Z) l : ascending (key_before key) l = true -> NoDup (key <$> l).
Proof.
  intros Ha. pose proof (ascending_lookup _ (key_before_trans key) l Ha) as Hl. apply NoDup_alt.
  intros i j x. rewrite !list_lookup_fmap. intros (y & Hi & ->)%fmap_Some (z & Hj & Hk)%fmap_Some.
  destruct (Nat.lt_total i j) as [Hij|[?|Hij]]; [|done|].
  - specialize (Hl i j y z Hij Hi Hj). unfold key_before in Hl. lia.
  - specialize (Hl j i z y Hij Hj Hi). unfold key_before in Hl. lia.
Qed.

Section Table.
Context (index : list (Z * Z * Z)) (pool : list Z) (l : list (Z * list Z)).
Hypothesis Hsorted : ascending (key_before (fun e => fst (fst e))) index = true.
Hypothesis Hentries : entries index pool 0 = Some l.

Lemma table_entries : Forall2 (fun e p => let '(cp, off, len) := e in
  p = (cp, take (Z.to_nat len) (drop (Z.to_nat off) pool)) /\ off + len <= Z.of_nat (length pool)) index l.
Proof. by apply (entries_sound pool index 0). Qed.

Lemma table_keys : NoDup l.*1.
Proof.
  replace l.*1 with (fst ∘ fst <$> index); [by apply (ascending_keys (fun e => fst (fst e)))|].
  apply list_eq_Forall2, Forall2_fmap. eapply Forall2_impl; [apply table_entries|].
  by intros [[cp off] len] p [-> _].
Qed.

Lemma table_listed cp v : (list_to_map l : Zmap (list Z)) !! cp = Some v <->
  exists off len, (cp, off, len) ∈ index /\ v = take (Z.to_nat len) (drop (Z.to_nat off) pool).
Proof.
  rewrite <-elem_of_list_to_map by apply table_keys. pose proof table_entries as Ht. split.
  - intros (i & Hi)%list_elem_of_lookup_1. destruct (Forall2_lookup_r _ _ _ _ _ Ht Hi) as ([[k off] len] & He & [= -> ->] & _).
    exists off, len. split; [by eapply list_elem_of_lookup_2|done].
  - intros (off & len & (i & Hi)%list_elem_of_lookup_1 & ->).
    destruct (Forall2_lookup_l _ _ _ _ _ Ht Hi) as (p & Hp & -> & _). by eapply list_elem_of_lookup_2.
Qed.

Lemma table_lookup cp : decomp_lookup index pool cp = Ok ((list_to_map l : Zmap (list Z)) !! cp).
Proof.
  pose proof table_entries as Ht. unfold decomp_lookup.
  destruct (_ !! cp) as [v|] eqn:Hv.
  - apply table_listed in Hv as (off & len & Hin & ->).
    destruct (search_hit _ (key_before_trans (fun e => fst (fst e))) _ index (cp, off, len) Hsorted
      (key_compares (fun e => fst (fst e)) cp) Hin) as (i & -> & Hi); [apply Z.compare_refl|]. rewrite Hi.
    destruct (Forall2_lookup_l _ _ _ _ _ Ht Hi) as (p & _ & _ & Hb). by rewrite (proj2 (Z.leb_le _ _) Hb).
  - destruct (binary_search_by _ _) as [i|] eqn:Hs; [|done].
    apply binary_search_found in Hs as ([[k off] len] & Hi & Hk). apply Z.compare_eq in Hk. simpl in Hk. subst k.
    assert (exists v, (list_to_map l : Zmap (list Z)) !! cp = Some v) as [v Hv'];
      [eexists; apply table_listed; exists off, len; split; [by eapply list_elem_of_lookup_2|done]|congruence].
Qed.
End Table.

(** ** What the tables hold *)

Definition index_of (kind : DecompKind) : list (Z * Z * Z) :=
  match kind with Canonical => NFD_INDEX | Compatibility => NFKD_INDEX end.
Definition pool_of (kind : DecompKind) : list Z :=
  match kind with Canonical => NFD_POOL | Compatibility => NFKD_POOL end.
Definition payloads (kind : DecompKind) : list (Z * list Z) := default [] (entries (index_of kind) (pool_of kind) 0).
Definition table (kind : DecompKind) : Zmap (list Z) := list_to_map (payloads kind).
Definition classes : Zmap Z := list_to_map CCC_TABLE.

Definition syllable (cp : Z) : bool := contains HANGUL_S_BASE (HANGUL_S_BASE + HANGUL_S_COUNT) cp.
Definition listed (m : Zmap (list Z)) (cp : Z) : bool := match m !! cp with Some _ => true | None => false end.
Definition mapping (m : Zmap (list Z)) (cp : Z) : list Z := default [cp] (m !! cp).

(** Payloads are made of scalar values that do not decompose, no syllable is listed, and a listed
    mark maps to marks of its own class. *)
Definition payload_ok (m : Zmap (list Z)) (cs : Zmap Z) (e : Z * list Z) : bool :=
  let class c := default 0 (cs !! c) in
  negb (syllable (fst e)) &&
  forallb (fun c => is_scalar_value c && negb (syllable c) && negb (listed m c)) (snd e) &&
  ((class (fst e) =? 0) || forallb (fun c => class c =? class (fst e)) (snd e)).

(** A composition undoes a decomposition. *)
Definition pair_ok (m : Zmap (list Z)) (e : Z * Z * Z) : bool :=
  let '(a, b, c) := e in
  is_scalar_value c && negb (syllable a) && negb (syllable c) && bool_decide (mapping m c = mapping m a ++ mapping m b).

Definition jamo : list Z :=
  seqZ HANGUL_L_BASE HANGUL_L_COUNT ++ seqZ HANGUL_V_BASE HANGUL_V_COUNT ++ seqZ HANGUL_T_BASE HANGUL_T_COUNT.

Definition table_ok (m : Zmap (list Z)) (l : list (Z * list Z)) : bool :=
  forallb (payload_ok m classes) l && forallb (pair_ok m) COMPOSITION_PAIRS && forallb (fun c => negb (listed m c)) jamo.

Lemma index_sorted kind : ascending (key_before (fun e => fst (fst e))) (index_of kind) = true.
Proof. destruct kind; by vm_compute. Qed.

Lemma entries_payloads kind : entries (index_of kind) (pool_of kind) 0 = Some (payloads kind).
Proof. destruct kind; by vm_compute. Qed.

Lemma tables_ok kind : table_ok (table kind) (payloads kind) = true.
Proof. destruct kind; by vm_compute. Qed.

Lemma classes_sorted : ascending (key_before fst) CCC_TABLE = true. Proof. by vm_compute. Qed.
Lemma classes_ok : forallb (fun e => (0 <? snd e) && negb (syllable (fst e))) CCC_TABLE = true. Proof. by vm_compute. Qed.
Lemma pairs_sorted : ascending pair_before COMPOSITION_PAIRS = true. Proof. by vm_compute. Qed.

(** The class of a code point is the listed one, or 0. *)
Lemma ccc_classes cp : ccc cp = default 0 (classes !! cp).
Proof.
  pose proof (ascending_keys fst CCC_TABLE classes_sorted) as Hnd. unfold ccc.
  destruct (classes !! cp) as [c|] eqn:Hc.
  - apply elem_of_list_to_map in Hc; [|done].
    destruct (search_hit _ (key_before_trans fst) _ CCC_TABLE (cp, c) classes_sorted (key_compares fst cp) Hc)
      as (i & -> & ->); [apply Z.compare_refl|done].
  - destruct (binary_search_by _ _) as [i|] eqn:Hs; [|done].
    apply binary_search_found in Hs as ([k c] & Hi & Hk). apply Z.compare_eq in Hk. simpl in Hk. subst k.
    apply list_elem_of_lookup_2, (elem_of_list_to_map (M := Zmap)) in Hi; [|done]. unfold classes in Hc. congruence.
Qed.

Lemma listed_class cp : ccc cp <> 0 -> 0 < ccc cp /\ syllable cp = false.
Proof.
  rewrite ccc_classes. destruct (classes !! cp) as [c|] eqn:Hc; [|done]. intros _.
  apply elem_of_list_to_map_2, list_elem_of_In in Hc.
  pose proof (proj1 (forallb_forall _ _) classes_ok _ Hc) as Hp.
  rewrite andb_true_iff, negb_true_iff, Z.ltb_lt in Hp. done.
Qed.

Lemma ccc_nonneg cp : 0 <= ccc cp.
Proof. destruct (decide (ccc cp = 0)) as [->|Hc]; [done|]. apply listed_class in Hc. lia. Qed.

(** The decomposition of one code point. *)
Definition decomposed (kind : DecompKind) (cp : Z) : list Z :=
  if syllable cp then snd (hangul_decompose_into cp []) else mapping (table kind) cp.
Definition expand (kind : DecompKind) (cps : list Z) : list Z := mjoin (decomposed kind <$> cps).

(** A code point that decomposes to itself. *)
Definition fixed (kind : DecompKind) (cp : Z) : Prop :=
  is_scalar_value cp = true /\ syllable cp = false /\ table kind !! cp = None.

Lemma fixed_decomposed kind cp : fixed kind cp -> decomposed kind cp = [cp].
Proof. intros (_ & Hs & Ht). unfold decomposed, mapping. by rewrite Hs, Ht. Qed.

Lemma expand_cons kind c l : expand kind (c :: l) = decomposed kind c ++ expand kind l.
Proof. done. Qed.
Lemma expand_app kind a b : expand kind (a ++ b) = expand kind a ++ expand kind b.
Proof. unfold expand. by rewrite fmap_app, join_app. Qed.

Lemma expand_fixed kind l : Forall (fixed kind) l -> expand kind l = l.
Proof. induction 1 as [|c l Hc _ IH]; [done|]. by rewrite expand_cons, fixed_decomposed, IH. Qed.

Lemma decompose_char_eq kind out cp : decompose_char kind out cp = Ok (out ++ decomposed kind cp).
Proof.
  unfold decompose_char, decomposed, hangul_decompose_into, syllable. destruct (contains _ _ cp); cbn [negb].
  - cbv zeta. destruct (negb _); cbn [snd app]; by rewrite <-!app_assoc.
  - assert (match kind with Canonical => nfd_lookup cp | Compatibility => nfkd_lookup cp end = Ok (table kind !! cp)) as ->
      by (destruct kind; [apply (table_lookup _ _ _ (index_sorted Canonical) (entries_payloads Canonical))
                         |apply (table_lookup _ _ _ (index_sorted Compatibility) (entries_payloads Compatibility))]).
    cbn [bind]. unfold mapping. by destruct (table kind !! cp).
Qed.

Lemma decompose_to_buffer_eq kind s out : decompose_to_buffer s kind out = Ok (out ++ expand kind (chars s)).
Proof.
  unfold decompose_to_buffer. generalize (chars s). intros l. revert out.
  induction l as [|c l IH]; intros out; cbn [foldM]; [by rewrite app_nil_r|].
  rewrite decompose_char_eq. cbn [bind]. by rewrite IH, expand_cons, app_assoc.
Qed.

Lemma contains_iff lo hi x : contains lo hi x = true <-> lo <= x < hi.
Proof. unfold contains. rewrite andb_true_iff, Z.leb_le, Z.ltb_lt. done. Qed.
Lemma contains_false lo hi x : contains lo hi x = false <-> ~ lo <= x < hi.
Proof. rewrite <-contains_iff. by destruct (contains _ _ _). Qed.

Ltac hangul :=
  unfold syllable, HANGUL_S_COUNT, HANGUL_N_COUNT, HANGUL_S_BASE, HANGUL_L_BASE, HANGUL_V_BASE, HANGUL_T_BASE,
    HANGUL_L_COUNT, HANGUL_V_COUNT, HANGUL_T_COUNT in *.

Lemma table_checks kind :
  (forall e, e ∈ payloads kind -> payload_ok (table kind) classes e = true) /\
  (forall e, e ∈ COMPOSITION_PAIRS -> pair_ok (table kind) e = true) /\
  (forall c, c ∈ jamo -> table kind !! c = None).
Proof.
  pose proof (tables_ok kind) as Ht. unfold table_ok in Ht. rewrite !andb_true_iff, !forallb_forall in Ht.
  destruct Ht as [[H1 H2] H3]. split_and!; intros x Hx%list_elem_of_In; [by apply H1|by apply H2|].
  specialize (H3 x Hx). unfold listed in H3. by destruct (table kind !! x).
Qed.

Lemma jamo_fixed kind cp :
  4352 <= cp < 4371 \/ 4449 <= cp < 4470 \/ 4519 <= cp < 4547 -> fixed kind cp.
Proof.
  intros Hc. split_and!.
  - apply scalar_value_iff. lia.
  - apply contains_false. hangul. lia.
  - apply (table_checks kind). unfold jamo. rewrite !elem_of_app, !elem_of_seqZ. hangul. lia.
Qed.

(** Decompositions are fixed. *)
Lemma decomposed_fixed kind cp :
  is_scalar_value cp = true \/ syllable cp = true \/ is_Some (table kind !! cp) -> Forall (fixed kind) (decomposed kind cp).
Proof.
  intros Hsv. unfold decomposed. destruct (syllable cp) eqn:Hs.
  - unfold hangul_decompose_into. fold (syllable cp). rewrite Hs. cbn [negb snd app].
    apply contains_iff in Hs. hangul.
    destruct (negb _) eqn:Ht; cbn [app]; zb; repeat (apply Forall_cons_2; [apply jamo_fixed; div_mod|]); apply Forall_nil_2.
  - unfold mapping. destruct (table kind !! cp) as [v|] eqn:Ht; [|apply Forall_singleton; destruct Hsv as [?|[?|[]]]; done].
    simpl. apply elem_of_list_to_map_2 in Ht. pose proof (proj1 (table_checks kind) _ Ht) as Hp.
    unfold payload_ok in Hp. rewrite !andb_true_iff in Hp. destruct Hp as [[_ Hp] _]. cbn [snd] in Hp.
    apply Forall_forall. intros c Hc%list_elem_of_In. pose proof (proj1 (forallb_forall _ _) Hp c Hc) as Hx.
    rewrite !andb_true_iff, !negb_true_iff in Hx. destruct Hx as [[? ?] Hl]. split_and!; [done..|].
    unfold listed in Hl. by destruct (table kind !! c).
Qed.

(** A mark decomposes to marks of its class. *)
Lemma decomposed_class kind cp : ccc cp <> 0 -> Forall (fun c => ccc c = ccc cp) (decomposed kind cp).
Proof.
  intros Hm. unfold decomposed. rewrite (proj2 (listed_class cp Hm)).
  unfold mapping. destruct (table kind !! cp) as [v|] eqn:Ht; [|by repeat constructor].
  simpl. apply elem_of_list_to_map_2 in Ht. pose proof (proj1 (table_checks kind) _ Ht) as Hp.
  unfold payload_ok in Hp. rewrite !andb_true_iff, orb_true_iff in Hp. destruct Hp as [_ [Hp|Hp]]; cbn [fst snd] in Hp.
  { rewrite <-ccc_classes in Hp. lia. }
  apply Forall_forall. intros c Hc%list_elem_of_In. pose proof (proj1 (forallb_forall _ _) Hp c Hc) as Hx.
  simpl in Hx. rewrite <-!ccc_classes in Hx. lia.
Qed.

(** The class, without its search. *)
Definition class_aux : seal ccc. Proof. by eexists. Qed.
Definition class : Z -> Z := class_aux.(unseal).
Lemma class_eq : class = ccc. Proof. apply class_aux.(seal_eq). Qed.

Lemma class_nonneg c : 0 <= class c.
Proof. rewrite class_eq. apply ccc_nonneg. Qed.

(** ** Reordering *)

(** Where reordering puts a mark in front of an ordered text. *)
Fixpoint put (c : Z) (l : list Z) : list Z :=
  match l with
  | [] => [c]
  | d :: l' => if (0 <? class d) && (class d <? class c) then d :: put c l' else c :: l
  end.

Lemma put_starter c l : class c = 0 -> put c l = c :: l.
Proof.
  intros Hc. destruct l as [|d l]; [done|]. cbn [put]. rewrite Hc.
  destruct (_ && _) eqn:Hb; [|done]. zb. lia.
Qed.

(** A starter stops the marks in front of it. *)
Lemma put_before c l rest :
  class c <> 0 -> Forall (fun d => class d <> 0) l -> match rest with [] => True | d :: _ => class d = 0 end ->
  put c (l ++ rest) = insert_by class c l ++ rest.
Proof.
  intros Hc Hl Hr. induction Hl as [|d l Hd _ IH]; cbn [app put insert_by].
  - destruct rest as [|d rest]; [done|]. cbn [put]. by rewrite Hr.
  - pose proof (class_nonneg d). rewrite (proj2 (Z.ltb_lt 0 (class d))) by lia. cbn [andb].
    rewrite Z.ltb_antisym. destruct (class c <=? class d); cbn [negb]; [done|]. by rewrite IH.
Qed.

Lemma insert_by_marks c l :
  class c <> 0 -> Forall (fun d => class d <> 0) l -> Forall (fun d => class d <> 0) (insert_by class c l).
Proof.
  intros Hc. induction 1 as [|d l Hd Hl IH]; cbn [insert_by]; [by apply Forall_singleton|].
  destruct (_ <=? _); by repeat constructor.
Qed.

Lemma put_run run rest :
  Forall (fun d => class d <> 0) run -> match rest with [] => True | d :: _ => class d = 0 end ->
  foldr put rest run = sort_by_key class run ++ rest /\ Forall (fun d => class d <> 0) (sort_by_key class run).
Proof.
  intros Hm Hr. induction Hm as [|c run Hc _ [IH Hs]]; [done|].
  split; [|by apply insert_by_marks]. cbn [foldr]. rewrite IH. by apply put_before.
Qed.

Lemma reorder_runs_eq buf : forall run,
  Forall (fun d => class d <> 0) run -> reorder_runs run buf = foldr put [] (run ++ buf).
Proof.
  induction buf as [|c buf IH]; intros run Hm; cbn [reorder_runs]; rewrite <-class_eq.
  - rewrite app_nil_r. destruct (put_run run []) as [-> _]; [done..|]. by rewrite app_nil_r.
  - destruct (Z.eqb_spec (class c) 0) as [Hc|Hc].
    + rewrite foldr_app. cbn [foldr]. rewrite put_starter by done.
      destruct (put_run run (c :: foldr put [] buf)) as [-> _]; [done..|]. by rewrite IH.
    + rewrite IH by (apply Forall_app; split; [done|by apply Forall_singleton]). by rewrite <-app_assoc.
Qed.

(** The reordering as a fold. *)
Lemma canonical_reorder_eq buf : canonical_reorder buf = foldr put [] buf.
Proof. by apply (reorder_runs_eq buf []). Qed.

(** Two adjacent marks of different classes change places. *)
Inductive exchange : list Z -> list Z -> Prop :=
| Exchange l1 a b l2 : class a <> 0 -> class b <> 0 -> class a <> class b ->
    exchange (l1 ++ a :: b :: l2) (l1 ++ b :: a :: l2).

Definition shuffled : list Z -> list Z -> Prop := rtsc exchange.
#[export] Instance shuffled_equiv : Equivalence shuffled := rtsc_equivalence.

#[export] Instance shuffled_app : Proper (shuffled ==> shuffled ==> shuffled) app.
Proof.
  intros a a' Ha b b' Hb. transitivity (a' ++ b).
  - revert Ha. apply (rtsc_congruence (.++ b)). intros x y [l1 c d l2]. rewrite <-!app_assoc. by apply Exchange.
  - revert Hb. apply (rtsc_congruence (a' ++.)). intros x y [l1 c d l2]. rewrite !app_assoc. by apply Exchange.
Qed.

#[export] Instance shuffled_cons c : Proper (shuffled ==> shuffled) (cons c).
Proof. intros a b Hab. by apply (shuffled_app [c] [c] (reflexivity _) a b). Qed.

(** A mark moves over marks of other classes. *)
Lemma shuffled_past c l :
  class c <> 0 -> Forall (fun d => class d <> 0 /\ class d <> class c) l -> shuffled (c :: l) (l ++ [c]).
Proof.
  intros Hc. induction 1 as [|d l [Hd Hdc] _ IH]; [done|]. cbn [app]. rewrite <-IH.
  apply rtsc_lr. apply (Exchange [] c d l); [done..|congruence].
Qed.

Lemma shuffled_blocks a b :
  Forall (fun c => class c <> 0 /\ Forall (fun d => class d <> 0 /\ class d <> class c) b) a -> shuffled (a ++ b) (b ++ a).
Proof.
  induction 1 as [|c a [Hc Hb] _ IH]; [by rewrite app_nil_r|]. cbn [app]. rewrite IH.
  change (b ++ c :: a) with (b ++ [c] ++ a). rewrite (app_assoc b [c]), <-(shuffled_past c b) by done. done.
Qed.

Lemma put_skip c d l : 0 < class d < class c -> put c (d :: l) = d :: put c l.
Proof. intros Hd. cbn [put]. by rewrite !(proj2 (Z.ltb_lt _ _)) by lia. Qed.

Lemma put_stop c d l : ~ 0 < class d < class c -> put c (d :: l) = c :: d :: l.
Proof. intros Hd. cbn [put]. destruct (_ && _) eqn:Hb; [zb; lia|done]. Qed.

Lemma put_comm_lt a b l : 0 < class a < class b -> put a (put b l) = put b (put a l).
Proof.
  intros Hab. induction l as [|d l IH].
  - change (put b []) with [b]. change (put a []) with [a]. by rewrite put_stop, put_skip by lia.
  - destruct (decide (0 < class d < class a)) as [Hd|Hd].
    + rewrite (put_skip b), !(put_skip a), (put_skip b), IH by lia. done.
    + rewrite (put_stop a), (put_skip b a) by lia.
      destruct (decide (0 < class d < class b)) as [Hb|Hb].
      * by rewrite (put_skip b d), put_stop by lia.
      * by rewrite (put_stop b d), put_stop by lia.
Qed.

Lemma put_comm a b l : class a <> 0 -> class b <> 0 -> class a <> class b -> put a (put b l) = put b (put a l).
Proof.
  intros Ha Hb Hab. pose proof (class_nonneg a). pose proof (class_nonneg b).
  destruct (Z.lt_total (class a) (class b)) as [?|[?|?]]; [|lia|symmetry]; apply put_comm_lt; lia.
Qed.

Lemma shuffled_reorder l l' : shuffled l l' -> canonical_reorder l = canonical_reorder l'.
Proof.
  assert (forall x y, exchange x y -> canonical_reorder x = canonical_reorder y) as He.
  { intros x y [l1 a b l2 Ha Hb Hab]. rewrite !canonical_reorder_eq, !foldr_app. cbn [foldr]. by rewrite put_comm. }
  induction 1 as [|x y z Hxy _ <-]; [done|]. destruct Hxy as [H|H]; apply He in H; congruence.
Qed.

Lemma put_shuffled c l : shuffled (put c l) (c :: l).
Proof.
  induction l as [|d l IH]; [done|]. cbn [put]. destruct (_ && _) eqn:Hb; [|done]. zb.
  rewrite IH. apply rtsc_lr. apply (Exchange [] d c l); lia.
Qed.

Lemma reorder_shuffled l : shuffled (canonical_reorder l) l.
Proof.
  rewrite canonical_reorder_eq. induction l as [|c l IH]; [done|]. cbn [foldr]. by rewrite put_shuffled, IH.
Qed.

(** Within a text, the classes of adjacent marks do not decrease; [prev] is the class before it. *)
Fixpoint ordered (prev : Z) (l : list Z) : Prop :=
  match l with [] => True | c :: l' => (class c = 0 \/ prev <= class c) /\ ordered (class c) l' end.

Definition in_order (l : list Z) : Prop :=
  forall i a b, l !! i = Some a -> l !! S i = Some b -> ccc b = 0 \/ ccc a <= ccc b.

Lemma ordered_in_order l : forall prev, ordered prev l -> in_order l.
Proof.
  unfold in_order. rewrite <-class_eq. induction l as [|c l IH]; intros prev Ho; [done|]. destruct Ho as [_ Hl].
  intros [|i] a b Ha Hb; [|by apply (IH _ Hl i)]. injection Ha as <-. destruct l as [|d l]; [done|].
  injection Hb as <-. apply Hl.
Qed.

Lemma ordered_weaken prev l : ordered prev l -> ordered 0 l.
Proof. destruct l as [|c l]; [done|]. intros [_ Hl]. split; [right; apply class_nonneg|done]. Qed.

Lemma put_ordered c l : forall prev, ordered prev l -> class c = 0 \/ prev <= class c -> ordered prev (put c l).
Proof.
  induction l as [|d l IH]; intros prev Hl Hc; [by split|]. destruct Hl as [Hd Hl]. cbn [put].
  destruct (_ && _) eqn:Hb; [zb; split; [done|apply IH; [done|lia]]|].
  split; [done|]. split; [|done]. apply andb_false_iff in Hb. pose proof (class_nonneg d).
  rewrite !Z.ltb_ge in Hb. lia.
Qed.

Lemma reorder_ordered l : ordered 0 (canonical_reorder l).
Proof.
  rewrite canonical_reorder_eq. induction l as [|c l IH]; [done|]. apply put_ordered; [done|right; apply class_nonneg].
Qed.

Lemma ordered_reorder l : ordered 0 l -> canonical_reorder l = l.
Proof.
  rewrite canonical_reorder_eq. induction l as [|c l IH]; [done|]. intros [_ Hl]. cbn [foldr].
  rewrite IH by (by eapply ordered_weaken). destruct l as [|d l]; [done|]. cbn [put].
  destruct Hl as [Hd _]. destruct (_ && _) eqn:Hb; [|done]. zb. lia.
Qed.

Lemma reorder_forall P l : Forall P l -> Forall P (canonical_reorder l).
Proof.
  rewrite canonical_reorder_eq. induction 1 as [|c l Hc _ IH]; [done|]. cbn [foldr].
  induction IH as [|d m Hd Hm IH]; cbn [put]; [by apply Forall_singleton|].
  destruct (_ && _); by repeat constructor.
Qed.

(** ** Equivalence *)

(** What the data says a code point decomposes to. *)
Inductive decomposes (kind : DecompKind) : Z -> list Z -> Prop :=
| Syllable l v t : 0 <= l < HANGUL_L_COUNT -> 0 <= v < HANGUL_V_COUNT -> 0 <= t < HANGUL_T_COUNT ->
    decomposes kind (HANGUL_S_BASE + (l * HANGUL_V_COUNT + v) * HANGUL_T_COUNT + t)
      ([HANGUL_L_BASE + l; HANGUL_V_BASE + v] ++ if t =? 0 then [] else [HANGUL_T_BASE + t])
| Listed cp off len : (cp, off, len) ∈ index_of kind ->
    decomposes kind cp (take (Z.to_nat len) (drop (Z.to_nat off) (pool_of kind))).

Inductive step (kind : DecompKind) : list Z -> list Z -> Prop :=
| Decompose l1 cp v l2 : decomposes kind cp v -> step kind (l1 ++ cp :: l2) (l1 ++ v ++ l2)
| Reorder l1 a b l2 : ccc a <> 0 -> ccc b <> 0 -> ccc a <> ccc b ->
    step kind (l1 ++ a :: b :: l2) (l1 ++ b :: a :: l2).

(** Canonical or compatibility equivalence, definitions D70 and D67 of the Unicode standard. *)
Definition equivalent (kind : DecompKind) : list Z -> list Z -> Prop := rtsc (step kind).

#[export] Instance equivalent_equiv kind : Equivalence (equivalent kind) := rtsc_equivalence.

Lemma equivalent_app_l kind l a b : equivalent kind a b -> equivalent kind (l ++ a) (l ++ b).
Proof.
  apply (rtsc_congruence (l ++.)). intros x y [l1 c v l2 Hd|l1 c d l2]; rewrite !app_assoc;
    [rewrite <-(app_assoc _ v)|]; by constructor.
Qed.

Lemma equivalent_app_r kind l a b : equivalent kind a b -> equivalent kind (a ++ l) (b ++ l).
Proof.
  apply (rtsc_congruence (.++ l)). intros x y [l1 c v l2 Hd|l1 c d l2]; rewrite <-!app_assoc; by constructor.
Qed.

Lemma shuffled_equivalent kind a b : shuffled a b -> equivalent kind a b.
Proof. apply (rtsc_congruence id). intros x y []. rewrite class_eq in *. by constructor. Qed.

Lemma decomposed_sound kind cp : decomposes kind cp (decomposed kind cp) \/ decomposed kind cp = [cp].
Proof.
  unfold decomposed. destruct (syllable cp) eqn:Hs.
  - left. unfold hangul_decompose_into. fold (syllable cp). rewrite Hs. cbn [negb snd app].
    apply contains_iff in Hs. hangul.
    pose proof (Syllable kind ((cp - 44032) / 588) ((cp - 44032) mod 588 / 28) ((cp - 44032) mod 28)) as Hd. hangul.
    replace (44032 + ((cp - 44032) / 588 * 21 + (cp - 44032) mod 588 / 28) * 28 + (cp - 44032) mod 28) with cp in Hd by div_mod.
    change (21 * 28) with 588. destruct (_ =? 0); apply Hd; div_mod.
  - unfold mapping. destruct (table kind !! cp) as [v|] eqn:Ht; [|by right]. left. simpl.
    apply (table_listed _ _ _ (index_sorted kind) (entries_payloads kind)) in Ht as (off & len & Hin & ->).
    by constructor.
Qed.

Lemma decomposed_complete kind cp v : decomposes kind cp v -> decomposed kind cp = v.
Proof.
  intros [l u t Hl Hu Ht|c off len Hin]; unfold decomposed.
  - assert (syllable (HANGUL_S_BASE + (l * HANGUL_V_COUNT + u) * HANGUL_T_COUNT + t) = true) as Hs
      by (apply contains_iff; hangul; lia).
    unfold hangul_decompose_into. fold (syllable (HANGUL_S_BASE + (l * HANGUL_V_COUNT + u) * HANGUL_T_COUNT + t)).
    rewrite Hs. cbn [negb snd app]. hangul. change (21 * 28) with 588.
    replace ((44032 + (l * 21 + u) * 28 + t - 44032) / 588) with l by div_mod.
    replace ((44032 + (l * 21 + u) * 28 + t - 44032) mod 588 / 28) with u by div_mod.
    replace ((44032 + (l * 21 + u) * 28 + t - 44032) mod 28) with t by div_mod.
    by destruct (t =? 0).
  - assert (table kind !! c = Some (take (Z.to_nat len) (drop (Z.to_nat off) (pool_of kind)))) as Ht.
    { apply (table_listed _ _ _ (index_sorted kind) (entries_payloads kind)). by exists off, len. }
    unfold mapping. rewrite Ht. apply elem_of_list_to_map_2 in Ht.
    pose proof (proj1 (table_checks kind) _ Ht) as Hp. unfold payload_ok in Hp.
    rewrite !andb_true_iff, negb_true_iff in Hp. destruct Hp as [[Hs _] _]. cbn [fst] in Hs. by rewrite Hs.
Qed.

(** The normal form of a text, and that it decides equivalence. *)
Definition normal (kind : DecompKind) (cps : list Z) : list Z := canonical_reorder (expand kind cps).

Lemma normal_equivalent kind cps : equivalent kind cps (normal kind cps).
Proof.
  transitivity (expand kind cps); [|symmetry; apply shuffled_equivalent, reorder_shuffled].
  induction cps as [|c cps IH]; [done|]. rewrite expand_cons.
  transitivity (decomposed kind c ++ cps); [|by apply equivalent_app_l].
  change (c :: cps) with ([c] ++ cps). apply equivalent_app_r.
  destruct (decomposed_sound kind c) as [Hd| ->]; [|done].
  apply rtsc_lr. rewrite <-(app_nil_r (decomposed kind c)). by apply (Decompose kind [] c _ []).
Qed.

Definition scalars (cps : list Z) : Prop := Forall (fun c => is_scalar_value c = true) cps.

Lemma expand_all_fixed kind cps : scalars cps -> Forall (fixed kind) (expand kind cps).
Proof.
  induction 1 as [|c cps Hc _ IH]; [done|]. rewrite expand_cons. apply Forall_app. split; [apply decomposed_fixed; by left|done].
Qed.

Lemma normal_fixed kind cps : scalars cps -> Forall (fixed kind) (normal kind cps).
Proof. intros Hc. by apply reorder_forall, expand_all_fixed. Qed.

Lemma fixed_scalars kind cps : Forall (fixed kind) cps -> scalars cps.
Proof. intros Hf. eapply Forall_impl; [exact Hf|]. by intros c [? _]. Qed.

Lemma decomposed_marks kind c : class c <> 0 -> Forall (fun d => class d = class c) (decomposed kind c).
Proof. rewrite class_eq. apply decomposed_class. Qed.

Lemma decomposes_known kind c v : decomposes kind c v -> syllable c = true \/ is_Some (table kind !! c).
Proof.
  intros [l u t Hl Hu Ht|cp off len Hin]; [left; apply contains_iff; hangul; lia|right].
  exists (take (Z.to_nat len) (drop (Z.to_nat off) (pool_of kind))).
  apply (table_listed _ _ _ (index_sorted kind) (entries_payloads kind)). by exists off, len.
Qed.

Lemma decomposes_fixed kind c v : decomposes kind c v -> Forall (fixed kind) v.
Proof.
  intros Hd. rewrite <-(decomposed_complete kind c v Hd). apply decomposed_fixed. right. by eapply decomposes_known.
Qed.

Lemma fixed_stays kind c v : fixed kind c -> ~ decomposes kind c v.
Proof. intros (_ & Hs & Ht) [Hk|[w Hw]]%decomposes_known; congruence. Qed.

Lemma normal_step kind a b : step kind a b -> normal kind a = normal kind b.
Proof.
  unfold normal. intros [l1 c v l2 Hd|l1 c d l2 Hc Hd Hcd].
  - by rewrite !expand_app, expand_cons, (decomposed_complete _ _ _ Hd), (expand_fixed kind v) by (by eapply decomposes_fixed).
  - rewrite <-class_eq in *. rewrite !expand_app, !expand_cons, !(app_assoc (decomposed kind _) (decomposed kind _)).
    apply shuffled_reorder. rewrite (shuffled_blocks (decomposed kind c) (decomposed kind d)); [done|].
    eapply Forall_impl; [by apply decomposed_marks|]. intros x Hx. simpl in Hx. split; [lia|].
    eapply Forall_impl; [by apply decomposed_marks|]. intros y Hy. simpl in Hy. lia.
Qed.

(** Equivalent texts are those with the same normal form. *)
Lemma normal_iff kind a b : normal kind a = normal kind b <-> equivalent kind a b.
Proof.
  split.
  - intros He. rewrite (normal_equivalent kind a), He. symmetry. apply normal_equivalent.
  - induction 1 as [|x y z Hxy _ <-]; [done|]. destruct Hxy as [H|H]; by apply normal_step in H.
Qed.

Lemma normal_idempotent kind l : Forall (fixed kind) l -> ordered 0 l -> normal kind l = l.
Proof. intros Hf Ho. unfold normal. rewrite expand_fixed by done. by apply ordered_reorder. Qed.

Lemma push_all_scalars cps : forall out, scalars cps -> push_all out cps = out ++ encode_all cps.
Proof.
  unfold push_all, encode_all. induction cps as [|c cps IH]; intros o Hs; [by rewrite app_nil_r|].
  apply Forall_cons in Hs as [Hc Hs]. cbn [foldl map concat]. rewrite IH by done. unfold push_cp.
  by rewrite Hc, <-app_assoc.
Qed.

Lemma encode_str cps : is_str (encode cps) = true.
Proof. apply valid_is_str, push_all_valid. by split. Qed.

Lemma chars_encode cps : scalars cps -> chars (encode cps) = cps.
Proof.
  intros Hs. unfold chars, encode. rewrite (proj2 (valid_is_str _ (push_all_valid cps [] (conj (Forall_nil_2 _) eq_refl)))).
  rewrite push_all_scalars by done. by apply encode_all_valid.
Qed.

Lemma encode_inj a b : scalars a -> scalars b -> encode a = encode b -> a = b.
Proof. intros Ha Hb He. by rewrite <-(chars_encode a), <-(chars_encode b), He. Qed.

Lemma encode_chars s : is_str s = true -> encode (chars s) = s.
Proof. intros Hs. apply chars_inj; [apply encode_str|done|]. apply chars_encode. by apply chars_scalar. Qed.

Lemma decompose_and_reorder_eq kind s : decompose_and_reorder s kind = Ok (normal kind (chars s)).
Proof. unfold decompose_and_reorder. by rewrite decompose_to_buffer_eq. Qed.

(** The forms without composition. *)
Definition decomposing_form (kind : DecompKind) : string -> outcome unit string :=
  match kind with Canonical => to_nfd | Compatibility => to_nfkd end.
Definition composing_form (kind : DecompKind) : string -> outcome unit string :=
  match kind with Canonical => to_nfc | Compatibility => to_nfkc end.

Lemma decomposing_form_eq kind s : decomposing_form kind s = Ok (encode (normal kind (chars s))).
Proof. destruct kind; unfold decomposing_form, to_nfd, to_nfkd; by rewrite decompose_and_reorder_eq. Qed.

Lemma normal_scalars kind s : is_str s = true -> scalars (normal kind (chars s)).
Proof. intros Hs. eapply fixed_scalars, normal_fixed. by apply chars_scalar. Qed.

(** C19 The decomposed normal forms are exact: on every string [to_nfd] and [to_nfkd] return a string
    (they never panic), it is equivalent to the argument, made of code points that decompose no
    further with the classes of adjacent marks in order, and already in normal form; and two strings
    have the same form exactly when they are canonically (compatibility) equivalent, that is, related
    by the decompositions the data lists, the Hangul decompositions, and exchanges of adjacent marks
    of different combining classes. *)
Theorem decomposed_forms_decide kind s t :
  is_str s = true -> is_str t = true ->
  (exists r, decomposing_form kind s = Ok r /\ is_str r = true /\ equivalent kind (chars s) (chars r) /\
     Forall (fun c => forall v, ~ decomposes kind c v) (chars r) /\ in_order (chars r) /\
     decomposing_form kind r = Ok r) /\
  (decomposing_form kind s = decomposing_form kind t <-> equivalent kind (chars s) (chars t)).
Proof.
  intros Hs Ht. pose proof (normal_scalars kind s Hs) as Hn. pose proof (normal_scalars kind t Ht) as Hm.
  assert (Forall (fixed kind) (normal kind (chars s))) as Hf by (by apply normal_fixed, chars_scalar).
  split.
  - exists (encode (normal kind (chars s))). rewrite !decomposing_form_eq, chars_encode by done.
    assert (ordered 0 (normal kind (chars s))) as Ho by apply reorder_ordered.
    split_and!; [done|apply encode_str|apply normal_equivalent| |by eapply ordered_in_order|by rewrite normal_idempotent].
    eapply Forall_impl; [exact Hf|]. intros c Hc v. by apply fixed_stays.
  - rewrite !decomposing_form_eq, <-normal_iff. split; [|by intros ->].
    intros [= He]. by apply encode_inj.
Qed.

(** A letter with two marks, in both orders. *)
Lemma decomposed_forms_decide_witness :
  equivalent Canonical (chars (encode [97; 775; 803])) (chars (encode [97; 803; 775])).
Proof.
  apply (decomposed_forms_decide Canonical (encode [97; 775; 803]) (encode [97; 803; 775])); by vm_compute.
Defined.

(** ** Composition *)

(** The code points that can be the second part of a composition. *)
Definition joins (c : Z) : bool :=
  contains HANGUL_V_BASE (HANGUL_V_BASE + HANGUL_V_COUNT) c ||
  contains (HANGUL_T_BASE + 1) (HANGUL_T_BASE + HANGUL_T_COUNT) c ||
  existsb (fun e => snd (fst e) =? c) COMPOSITION_PAIRS.

(** No mark stands directly before a starter that may join what precedes it. *)
Definition unbroken (l : list Z) : bool :=
  forallb (fun '(p, c) => (ccc p =? 0) || negb (ccc c =? 0) || negb (joins c)) (zip l (tail l)).

Definition joined (first second : Z) : option Z :=
  match hangul_compose first second with Some c => Some c | None => compose_pair first second end.

Lemma hangul_joined kind a b c :
  hangul_compose a b = Some c -> decomposed kind c = decomposed kind a ++ [b] /\ is_scalar_value c = true /\ joins b = true.
Proof.
  unfold hangul_compose. destruct (_ && _) eqn:HLV.
  - apply andb_true_iff in HLV as [HL HV]. intros [= <-]. unfold joins. rewrite HV. rewrite contains_iff in HL, HV.
    pose proof (decomposed_complete kind _ _ (Syllable kind (a - HANGUL_L_BASE) (b - HANGUL_V_BASE) 0
      ltac:(hangul; lia) ltac:(hangul; lia) ltac:(hangul; lia))) as Hd.
    rewrite (fixed_decomposed kind a) by (apply jamo_fixed; hangul; lia).
    rewrite Z.add_0_r in Hd. rewrite Hd. split_and!; [|apply scalar_value_iff; hangul; lia|done].
    cbn [Z.eqb app]. repeat f_equal; lia.
  - destruct (contains HANGUL_S_BASE _ a) eqn:HS; [|done]. cbv zeta.
    destruct (_ =? 0) eqn:H0; cbn [andb]; [|done]. destruct (contains (HANGUL_T_BASE + 1) _ b) eqn:HT; [|done]. intros [= <-].
    unfold joins. rewrite HT, orb_true_r. rewrite contains_iff in HS, HT. apply Z.eqb_eq in H0.
    set (l := (a - HANGUL_S_BASE) / HANGUL_N_COUNT). set (v := (a - HANGUL_S_BASE) mod HANGUL_N_COUNT / HANGUL_T_COUNT).
    assert (0 <= l < HANGUL_L_COUNT /\ 0 <= v < HANGUL_V_COUNT /\
      a = HANGUL_S_BASE + (l * HANGUL_V_COUNT + v) * HANGUL_T_COUNT) as (Hl & Hv & Ha)
      by (subst l v; hangul; change (21 * 28) with 588 in *; div_mod).
    pose proof (decomposed_complete kind _ _ (Syllable kind l v 0 Hl Hv ltac:(hangul; lia))) as Hd0.
    pose proof (decomposed_complete kind _ _ (Syllable kind l v (b - HANGUL_T_BASE) Hl Hv ltac:(hangul; lia))) as Hd.
    rewrite Z.add_0_r, <-Ha in Hd0. rewrite <-Ha in Hd. rewrite Hd0, Hd.
    split_and!; [|apply scalar_value_iff; hangul; lia|done].
    destruct (Z.eqb_spec (b - HANGUL_T_BASE) 0); [hangul; lia|]. cbn [Z.eqb app]. repeat f_equal; lia.
Qed.

Lemma pair_joined kind a b c :
  compose_pair a b = Some c -> fixed kind b ->
  decomposed kind c = decomposed kind a ++ [b] /\ is_scalar_value c = true /\ joins b = true.
Proof.
  unfold compose_pair. destruct (binary_search_by _ _) as [i|] eqn:Hs; [|done].
  apply binary_search_found in Hs as ([[a' b'] c'] & Hi & Hc). rewrite Hi. intros [= ->] (_ & Hsb & Hb).
  unfold pair_cmp in Hc. destruct (Z.compare_spec a' a) as [->|?|?]; [|done..]. apply Z.compare_eq in Hc. subst b'.
  apply list_elem_of_lookup_2 in Hi. pose proof (proj1 (proj2 (table_checks kind)) _ Hi) as Hp.
  unfold pair_ok in Hp. rewrite !andb_true_iff, !negb_true_iff, bool_decide_eq_true in Hp.
  destruct Hp as [[[Hsc Ha] Hsyl] Hm]. unfold decomposed. rewrite Ha, Hsyl, Hm. unfold mapping at 2. rewrite Hb.
  split_and!; [done|done|]. unfold joins. rewrite !orb_true_iff. right.
  apply existsb_exists. exists (a, b, c). split; [by apply list_elem_of_In|apply Z.eqb_refl].
Qed.

Lemma joined_decomposed kind a b c :
  joined a b = Some c -> fixed kind b ->
  decomposed kind c = decomposed kind a ++ [b] /\ is_scalar_value c = true /\ joins b = true.
Proof.
  unfold joined. destruct (hangul_compose a b) as [c'|] eqn:Hh; [|apply pair_joined].
  intros [= ->] _. by apply hangul_joined.
Qed.

(** [compose_step], without the search. *)
Lemma compose_step_eq s cp :
  compose_step s cp =
  match last_starter s with
  | None => Ok (push s cp)
  | Some i =>
      match out s !! i with
      | None => Abort
      | Some st =>
          match joined st cp with
          | Some c => if negb (class cp =? 0) && (last_ccc s >=? class cp) then Ok (push s cp)
                      else Ok (MkComposing (<[i := c]> (out s)) (last_starter s) (last_ccc s))
          | None => Ok (push s cp)
          end
      end
  end.
Proof.
  unfold compose_step. rewrite <-class_eq. destruct (last_starter s); [|done]. destruct (out s !! _); [|done].
  fold (joined z cp). destruct (joined z cp); [|done]. by destruct (negb _ && _).
Qed.

Lemma push_eq s cp :
  push s cp = if class cp =? 0 then MkComposing (out s ++ [cp]) (Some (length (out s))) 0
              else MkComposing (out s ++ [cp]) (last_starter s) (class cp).
Proof. unfold push. rewrite <-class_eq. destruct (_ =? 0); [|done]. rewrite length_app. simpl. do 2 f_equal. lia. Qed.

(** [compose] always returns: the index of the last starter is in range. *)
Lemma compose_total buf : exists r, compose buf = Ok r.
Proof.
  assert (forall buf s, (forall i, last_starter s = Some i -> (i < length (out s))%nat) ->
    exists s', foldM compose_step s buf = Ok s') as Hall.
  { clear buf. induction buf as [|c buf IH]; intros s Hs; cbn [foldM]; [eauto|]. rewrite compose_step_eq.
    assert (forall i, last_starter (push s c) = Some i -> (i < length (out (push s c)))%nat) as Hp.
    { rewrite push_eq. intros i. destruct (_ =? 0); cbn [last_starter out]; rewrite length_app; simpl;
        [intros [= <-]; lia|intros Hi%Hs; lia]. }
    destruct (last_starter s) as [i|] eqn:Hi; [|by apply IH].
    destruct (lookup_lt_is_Some_2 (out s) i) as [st ->]; [by apply Hs|].
    destruct (joined st c); [|by apply IH]. destruct (_ && _); [by apply IH|]. apply IH. cbn [last_starter out].
    intros j Hj. rewrite length_insert. by apply Hs. }
  unfold compose. destruct (Hall buf (MkComposing [] None 0)) as [s' ->]; [done|]. simpl. eauto.
Qed.

(** What composing needs of the text ahead, [prev] being the class of the code point before it. *)
Fixpoint chain (prev : Z) (l : list Z) : Prop :=
  match l with
  | [] => True
  | c :: l' => (class c = 0 \/ prev <= class c) /\ (prev <> 0 -> class c = 0 -> joins c = false) /\ chain (class c) l'
  end.

Lemma unbroken_cons c d l :
  unbroken (c :: d :: l) = ((class c =? 0) || negb (class d =? 0) || negb (joins d)) && unbroken (d :: l).
Proof. unfold unbroken. by rewrite class_eq. Qed.

Lemma unbroken_chain l : forall prev,
  ordered prev l -> match l with c :: _ => prev <> 0 -> class c = 0 -> joins c = false | [] => True end ->
  unbroken l = true -> chain prev l.
Proof.
  induction l as [|c l IH]; intros prev Ho Hh Hu; [done|]. destruct Ho as [Hc Ho]. split_and!; [done..|].
  destruct l as [|d l]; [done|]. rewrite unbroken_cons, andb_true_iff in Hu. destruct Hu as [Hd Hu].
  apply IH; [done| |done]. intros H1 H2. rewrite !orb_true_iff, !negb_true_iff, Z.eqb_eq, Z.eqb_neq in Hd.
  destruct Hd as [[Hd|Hd]|Hd]; [destruct (H1 Hd)|destruct (Hd H2)|exact Hd].
Qed.

(** After [p], of which the last code point has class [prev]: the text composed so far decomposes
    to [p] up to exchanges, and behind the last starter are marks of classes up to [last_ccc]. *)
Definition composing_ok (kind : DecompKind) (p : list Z) (prev : Z) (s : composing) : Prop :=
  shuffled (expand kind (out s)) p /\ scalars (out s) /\
  forall i, last_starter s = Some i ->
    last_ccc s <= prev /\
    exists pre st marks, out s = pre ++ st :: marks /\ i = length pre /\
      Forall (fun c => fixed kind c /\ 0 < class c <= last_ccc s) marks.

Section Compose.
Context (kind : DecompKind).

Lemma push_ok p prev s c :
  composing_ok kind p prev s -> fixed kind c -> class c = 0 \/ prev <= class c ->
  composing_ok kind (p ++ [c]) (class c) (push s c).
Proof.
  intros (Hsh & Hsc & Hst) Hf Hc.
  assert (shuffled (expand kind (out s ++ [c])) (p ++ [c]) /\ scalars (out s ++ [c])) as [H1 H2].
  { split; [by rewrite expand_app, (expand_fixed kind [c]), Hsh by (by apply Forall_singleton)|].
    apply Forall_app. split; [done|]. apply Forall_singleton, Hf. }
  rewrite push_eq. destruct (Z.eqb_spec (class c) 0) as [H0|H0]; (split_and!; [done|done|]); cbn [last_starter last_ccc out].
  - intros i [= <-]. split; [lia|]. by exists (out s), c, [].
  - intros i Hi. destruct (Hst i Hi) as (Hl & pre & st & marks & -> & -> & Hm). split; [done|].
    exists pre, st, (marks ++ [c]). rewrite <-app_assoc. split_and!; [done..|]. pose proof (class_nonneg c).
    apply Forall_app. split; [|by apply Forall_singleton; split; [|lia]].
    eapply Forall_impl; [exact Hm|]. intros d [? ?]. split; [done|lia].
Qed.

Lemma join_ok p prev s c pre st marks comp :
  composing_ok kind p prev s -> fixed kind c ->
  last_starter s = Some (length pre) -> out s = pre ++ st :: marks -> joined st c = Some comp ->
  Forall (fun d => fixed kind d /\ 0 < class d <= last_ccc s) marks -> last_ccc s <= class c -> marks = [] \/ last_ccc s < class c ->
  composing_ok kind (p ++ [c]) (class c) (MkComposing (pre ++ comp :: marks) (last_starter s) (last_ccc s)).
Proof.
  intros (Hsh & Hsc & _) Hf Hi Ho Hj Hm Hle Hlt. destruct (joined_decomposed kind _ _ _ Hj Hf) as (Hd & Hcomp & _).
  split_and!; cbn [out last_starter last_ccc].
  - rewrite <-Hsh, Ho, !expand_app, !expand_cons, Hd, <-!app_assoc. f_equiv. f_equiv.
    rewrite (expand_fixed kind marks) by (eapply Forall_impl; [exact Hm|]; by intros d []).
    destruct marks as [|d marks]; [done|]. destruct Hlt as [|Hlt]; [done|].
    apply shuffled_past; [apply Forall_cons in Hm; lia|]. eapply Forall_impl; [exact Hm|]. simpl. lia.
  - unfold scalars in *. rewrite Ho in Hsc. rewrite !Forall_app, !Forall_cons in *. naive_solver.
  - intros i Hi'. split; [done|]. exists pre, comp, marks. rewrite Hi in Hi'. injection Hi' as <-. done.
Qed.

Lemma compose_step_ok p prev s c :
  composing_ok kind p prev s -> fixed kind c -> class c = 0 \/ prev <= class c ->
  (prev <> 0 -> class c = 0 -> joins c = false) ->
  exists s', compose_step s c = Ok s' /\ composing_ok kind (p ++ [c]) (class c) s'.
Proof.
  intros Hs Hf Hc Hj. rewrite compose_step_eq. pose proof (push_ok p prev s c Hs Hf Hc) as Hp.
  destruct (last_starter s) as [i|] eqn:Hi; [|by eexists].
  destruct Hs as (Hsh & Hsc & Hst). destruct (Hst i Hi) as (Hl & pre & st & marks & Ho & -> & Hm).
  assert (out s !! length pre = Some st) as -> by (rewrite Ho; by apply list_lookup_middle).
  destruct (joined st c) as [comp|] eqn:Hcomp; [|by eexists]. destruct (_ && _) eqn:Hb; [by eexists|].
  assert (joins c = true) as Hjc by (by apply (joined_decomposed kind st c comp)).
  eexists. split; [done|].
  assert (<[length pre := comp]> (out s) = pre ++ comp :: marks) as ->
    by (rewrite Ho; rewrite <-(Nat.add_0_r (length pre)) at 1; by rewrite insert_app_r).
  assert (last_ccc s <= class c /\ (marks = [] \/ last_ccc s < class c)) as [H1 H2].
  { apply andb_false_iff in Hb as [Hb|Hb].
    - apply negb_false_iff, Z.eqb_eq in Hb. destruct (decide (prev = 0)) as [->|Hprev].
      + split; [lia|]. left. destruct marks as [|d marks]; [done|]. apply Forall_cons in Hm. lia.
      + by rewrite (Hj Hprev Hb) in Hjc.
    - split; [|right]; lia. }
  rewrite <-Hi. by apply (join_ok p prev s c pre st marks comp).
Qed.

Lemma compose_fold_ok buf : forall p prev s,
  composing_ok kind p prev s -> Forall (fixed kind) buf -> chain prev buf ->
  exists s' prev', foldM compose_step s buf = Ok s' /\ composing_ok kind (p ++ buf) prev' s'.
Proof.
  induction buf as [|c buf IH]; intros p prev s Hs Hf Hch; cbn [foldM].
  - exists s, prev. by rewrite app_nil_r.
  - apply Forall_cons in Hf as [Hc Hf]. destruct Hch as (H1 & H2 & Hch).
    destruct (compose_step_ok p prev s c Hs Hc H1 H2) as (s1 & -> & Hs1). cbn [bind].
    destruct (IH _ _ s1 Hs1 Hf Hch) as (s' & prev' & Hr & Hok). exists s', prev'. split; [done|].
    by rewrite <-app_assoc in Hok.
Qed.

(** The composed text has the normal form of the text it was made from. *)
Lemma compose_ok l :
  Forall (fixed kind) l -> ordered 0 l -> unbroken l = true ->
  exists r, compose l = Ok r /\ scalars r /\ normal kind r = l.
Proof.
  intros Hf Ho Hu. destruct (compose_fold_ok l [] 0 (MkComposing [] None 0)) as (s & prev & Hr & Hsh & Hsc & _).
  - split_and!; [done|constructor|done].
  - done.
  - apply unbroken_chain; [done| |done]. by destruct l.
  - exists (out s). unfold compose. rewrite Hr. split_and!; [done|done|].
    unfold normal. rewrite (shuffled_reorder _ _ Hsh). by apply ordered_reorder.
Qed.
End Compose.

Lemma composing_form_eq kind s :
  composing_form kind s = let* r := compose (normal kind (chars s)) in Ok (encode r).
Proof. destruct kind; unfold composing_form, to_nfc, to_nfkc; by rewrite decompose_and_reorder_eq. Qed.

Lemma forms_total kind :
  (forall s, exists r, composing_form kind s = Ok r /\ is_str r = true) /\
  (forall s, exists r, decomposing_form kind s = Ok r /\ is_str r = true).
Proof.
  split; intros s.
  - rewrite composing_form_eq. destruct (compose_total (normal kind (chars s))) as [r ->].
    exists (encode r). split; [done|apply encode_str].
  - rewrite decomposing_form_eq. eexists. split; [done|apply encode_str].
Qed.

(** A string whose decomposed form is [unbroken]. *)
Definition composable (kind : DecompKind) (s : string) : bool := unbroken (normal kind (chars s)).

Lemma composing_form_ok kind s : is_str s = true -> composable kind s = true ->
  exists r, composing_form kind s = Ok r /\ is_str r = true /\ normal kind (chars r) = normal kind (chars s).
Proof.
  intros Hs Hc. assert (Forall (fixed kind) (normal kind (chars s))) as Hf by (by apply normal_fixed, chars_scalar).
  destruct (compose_ok kind _ Hf (reorder_ordered _) Hc) as (r & Hr & Hsc & Hn).
  exists (encode r). rewrite composing_form_eq, Hr, chars_encode by done. split_and!; [done|apply encode_str|done].
Qed.

(** C20 The composed normal forms: on every string [to_nfc] and [to_nfkc] return a string (they never
    panic).  They are exact on strings in whose decomposition no mark stands directly before a starter
    that can join a preceding one: the result is then equivalent to the argument and already in the
    form, and two such strings have the same form exactly when they are canonically (compatibility)
    equivalent. *)
Theorem composed_forms_decide kind s t :
  is_str s = true -> is_str t = true ->
  (exists r, composing_form kind s = Ok r /\ is_str r = true) /\
  (composable kind s = true ->
   exists r, composing_form kind s = Ok r /\ equivalent kind (chars s) (chars r) /\ composing_form kind r = Ok r) /\
  (composable kind s = true -> composable kind t = true ->
   (composing_form kind s = composing_form kind t <-> equivalent kind (chars s) (chars t))).
Proof.
  intros Hs Ht. split_and!.
  - apply forms_total.
  - intros Hc. destruct (composing_form_ok kind s Hs Hc) as (r & Hr & _ & Hn). exists r.
    split_and!; [done|by apply normal_iff|]. rewrite composing_form_eq, Hn, <-composing_form_eq. exact Hr.
  - intros Hcs Hct. destruct (composing_form_ok kind s Hs Hcs) as (r & Hr & _ & Hn).
    destruct (composing_form_ok kind t Ht Hct) as (q & Hq & _ & Hm). rewrite <-normal_iff. split.
    + rewrite Hr, Hq. intros [= ->]. congruence.
    + intros He. by rewrite !composing_form_eq, He.
Qed.

(** A Hangul syllable and its jamo. *)
Lemma composed_forms_decide_witness :
  equivalent Canonical (chars (encode [4370; 4449; 4523])) (chars (encode [54620])).
Proof.
  apply (composed_forms_decide Canonical (encode [4370; 4449; 4523]) (encode [54620])); by vm_compute.
Defined.

(** Without that condition [to_nfc] changes the text: a mark between two jamo does not keep them
    from being joined, so a string and its own normal form are not canonically equivalent. *)
Theorem nfc_joins_across_marks :
  let s := encode [4352; 768; 4449] in
  let t := encode [44032; 768] in
  to_nfc s = Ok t /\ to_nfc t = Ok t /\ ~ equivalent Canonical (chars s) (chars t).
Proof.
  cbv zeta. split_and!; [by vm_compute|by vm_compute|]. rewrite <-normal_iff. by vm_compute.
Qed.

(** ** The encoded tables *)

Lemma decomp_table_words index pool :
  encode_decomp_table_bytes index pool =
  words (blen index `mod` 2 ^ 32 :: mjoin (map (fun '(cp, off, len) => [cp; off; len]) index)) ++
  words (blen pool `mod` 2 ^ 32 :: pool).
Proof.
  unfold encode_decomp_table_bytes. change (words (?w :: ?ws)) with (u32_to_le w ++ words ws). rewrite <-app_assoc. f_equal.
  f_equal. apply words_rows. intros [[cp off] len]. unfold words. cbn. by rewrite ?app_nil_r.
Qed.

Lemma triple_table_words table :
  encode_composition_table_bytes table =
  words (blen table `mod` 2 ^ 32 :: mjoin (map (fun '(a, b, c) => [a; b; c]) table)).
Proof.
  unfold encode_composition_table_bytes. change (words (?w :: ?ws)) with (u32_to_le w ++ words ws). f_equal.
  apply words_rows. intros [[a b] c]. unfold words. cbn. by rewrite ?app_nil_r.
Qed.

(** A load before the end of a table does not see what follows it, and one behind it sees that. *)
Lemma load_u32_app a b addr w : load_u32 a addr = Some w -> load_u32 (a ++ b) addr = Some w.
Proof.
  unfold load_u32. destruct (slice a addr 4) as [r| |] eqn:Hr; [|done..]. intros [= <-].
  by rewrite (slice_app_l _ b _ _ _ Hr).
Qed.

Lemma load_u32_after a b addr : 0 <= addr -> load_u32 (a ++ b) (blen a + addr) = load_u32 b addr.
Proof. intros Ha. unfold load_u32. by rewrite slice_app_r. Qed.

Lemma ccc_table_pairs table : encode_ccc_table_bytes table = encode_u32_pair_table table.
Proof. done. Qed.

(** Compiled code finds the tables where it searches them: entry [i] of an index or of the
    composition table at [4 + 12*i], its fields the next words, entry [j] of the pool behind the
    index and a second count. *)
Theorem normalization_tables_load (index pairs : list (Z * Z * Z)) (pool : list Z) :
  Forall (fun '(a, b, c) => is_u32 a /\ is_u32 b /\ is_u32 c) index ->
  Forall (fun '(a, b, c) => is_u32 a /\ is_u32 b /\ is_u32 c) pairs -> Forall is_u32 pool ->
  (forall i a b c, index !! i = Some (a, b, c) ->
     let at_word k := load_u32 (encode_decomp_table_bytes index pool) (4 + Z.of_nat i * 12 + 4 * k) in
     at_word 0 = Some a /\ at_word 1 = Some b /\ at_word 2 = Some c) /\
  (forall j c, pool !! j = Some c ->
     load_u32 (encode_decomp_table_bytes index pool) (4 + blen index * 12 + (4 + Z.of_nat j * 4)) = Some c) /\
  (forall i a b c, pairs !! i = Some (a, b, c) ->
     let at_word k := load_u32 (encode_composition_table_bytes pairs) (4 + Z.of_nat i * 12 + 4 * k) in
     at_word 0 = Some a /\ at_word 1 = Some b /\ at_word 2 = Some c).
Proof.
  intros Hi Hp Hl. rewrite Forall_lookup in Hi. rewrite Forall_lookup in Hp. rewrite Forall_lookup in Hl. rewrite decomp_table_words, triple_table_words.
  assert (forall (t : list (Z * Z * Z)), (forall i x, t !! i = Some x -> let '(a, b, c) := x in is_u32 a /\ is_u32 b /\ is_u32 c) ->
    forall i a b c, t !! i = Some (a, b, c) ->
    let at_word k := load_u32 (words (blen t `mod` 2 ^ 32 :: mjoin (map (fun '(a, b, c) => [a; b; c]) t))) (4 + Z.of_nat i * 12 + 4 * k) in
    at_word 0 = Some a /\ at_word 1 = Some b /\ at_word 2 = Some c) as Hrows.
  { intros t Ht i a b c Hx. destruct (Ht i _ Hx) as (? & ? & ?). cbv zeta.
    pose proof (load_row (fun '(a, b, c) => [a; b; c]) 3 t i (a, b, c)) as Hr.
    split_and!; [rewrite <-(Hr 0%nat a)|rewrite <-(Hr 1%nat b)|rewrite <-(Hr 2%nat c)];
      try done; try (by intros; repeat case_match); f_equal; lia. }
  split_and!; [|intros j c Hj|by apply Hrows].
  - intros i a b c Hx. destruct (Hrows index Hi i a b c Hx) as (? & ? & ?). cbv zeta in *.
    split_and!; by apply load_u32_app.
  - replace (4 + blen index * 12)
      with (blen (words (blen index `mod` 2 ^ 32 :: mjoin (map (fun '(cp, off, len) => [cp; off; len]) index))))
      by (rewrite blen_words, blen_cons, (blen_rows _ 3) by (by intros; repeat case_match); lia).
    rewrite load_u32_after by lia. replace (4 + Z.of_nat j * 4) with (4 * Z.of_nat (S j)) by lia.
    apply load_word; [done|by apply (Hl j)].
Qed.

End Normalization.
