(* ===== verification/Lexer.v ===== *)
(** The lossless lexer of [crates/relon-parser/src/lex.rs] and the token and node
    kinds of [syntax.rs].

    A source is the list of its bytes as numbers and an index a natural number.
    [while end < len && p(bytes[end]) { end += 1 }] is [end] plus the length of
    the run of [p] bytes at [end]; the loops that step by whole code points carry
    fuel, the length of the source.  [&source[i..j]] panics off a character
    boundary. *)

From Stdlib Require Import ZArith Lia Bool.
From coqutil Require Import Byte.
From stdpp Require Import base list strings.
From S2P Require Import Prelude Bytes Value Chars.
Local Open Scope Z_scope.
Local Open Scope abi_scope.

Module Lex.

(** ** Kinds *)

Inductive SyntaxKind : Type :=
| WHITESPACE | LINE_COMMENT | BLOCK_COMMENT | IDENT | NUMBER | STRING | L_BRACE | R_BRACE
| L_BRACK | R_BRACK | L_PAREN | R_PAREN | COMMA | COLON | DOT | AT | HASH | AMP | QUESTION
| EQ | ELLIPSIS | EQ_EQ | BANG_EQ | LT_EQ | GT_EQ | AMP_AMP | PIPE_PIPE | PLUS_PLUS
| FAT_ARROW | THIN_ARROW | LT | GT | PLUS | MINUS | STAR | SLASH | PERCENT | BANG | PIPE
| UNDERSCORE | UNKNOWN | F_STRING_OPEN | F_STRING_CLOSE | F_STRING_LITERAL
| F_STRING_INTERP_START | F_STRING_INTERP_END | DOCUMENT | DIRECTIVE | DECORATOR | DICT
| DICT_FIELD | LIST | COMPREHENSION | CLOSURE | CLOSURE_PARAM | CALL_EXPR | CALL_ARG
| BINARY_EXPR | UNARY_EXPR | TERNARY_EXPR | REFERENCE_EXPR | VARIABLE_EXPR | WHERE_EXPR
| MATCH_EXPR | MATCH_ARM | MATCH_PATTERN | VARIANT_CTOR | F_STRING | F_STRING_INTERPOLATION
| SPREAD_EXPR | TYPE_NODE | WILDCARD | LITERAL | ERROR | TUPLE_TYPE | SCHEMA_WITH
| SCHEMA_METHOD | ENUM_VARIANT | ENUM_VARIANT_FIELD | TUPLE | LAST_.

#[export] Instance SyntaxKind_eq_dec : EqDecision SyntaxKind.
Proof. solve_decision. Defined.

(** The declaration order, which is the discriminant order. *)
Definition all_kinds : list SyntaxKind :=
  [WHITESPACE; LINE_COMMENT; BLOCK_COMMENT; IDENT; NUMBER; STRING; L_BRACE; R_BRACE; L_BRACK; R_BRACK; L_PAREN; R_PAREN; COMMA; COLON; DOT; AT; HASH; AMP; QUESTION; EQ; ELLIPSIS; EQ_EQ; BANG_EQ; LT_EQ; GT_EQ; AMP_AMP; PIPE_PIPE; PLUS_PLUS; FAT_ARROW; THIN_ARROW; LT; GT; PLUS; MINUS; STAR; SLASH; PERCENT; BANG; PIPE; UNDERSCORE; UNKNOWN; F_STRING_OPEN; F_STRING_CLOSE; F_STRING_LITERAL; F_STRING_INTERP_START; F_STRING_INTERP_END; DOCUMENT; DIRECTIVE; DECORATOR; DICT; DICT_FIELD; LIST; COMPREHENSION; CLOSURE; CLOSURE_PARAM; CALL_EXPR; CALL_ARG; BINARY_EXPR; UNARY_EXPR; TERNARY_EXPR; REFERENCE_EXPR; VARIABLE_EXPR; WHERE_EXPR; MATCH_EXPR; MATCH_ARM; MATCH_PATTERN; VARIANT_CTOR; F_STRING; F_STRING_INTERPOLATION; SPREAD_EXPR; TYPE_NODE; WILDCARD; LITERAL; ERROR; TUPLE_TYPE; SCHEMA_WITH; SCHEMA_METHOD; ENUM_VARIANT; ENUM_VARIANT_FIELD; TUPLE; LAST_].

Fixpoint position (k : SyntaxKind) (l : list SyntaxKind) : nat :=
  match l with
  | [] => O
  | k' :: l => if bool_decide (k = k') then O else S (position k l)
  end.

(** [kind as u16] *)
Definition kind_to_raw (k : SyntaxKind) : Z := Z.of_nat (position k all_kinds).

(** [SyntaxKind::from_raw]: one arm per kind but the sentinel. *)
Definition from_raw (raw : Z) : option SyntaxKind :=
  find (fun k => raw =? kind_to_raw k) (filter (fun k => k <> LAST_) all_kinds).

Definition is_trivia (k : SyntaxKind) : bool :=
  match k with WHITESPACE | LINE_COMMENT | BLOCK_COMMENT => true | _ => false end.

Definition is_token (k : SyntaxKind) : bool := kind_to_raw k <? kind_to_raw DOCUMENT.
Definition is_node (k : SyntaxKind) : bool := negb (is_token k).

(** ** Bytes *)

(** The bytes of a literal. *)
Definition lit (s : string) : list Z := map byte.unsigned (as_bytes s).

Definition is_whitespace_byte (b : Z) : bool := (b =? 32) || (b =? 9) || (b =? 10) || (b =? 13).
Definition is_ascii_alphabetic (b : Z) : bool := (65 <=? b) && (b <=? 90) || (97 <=? b) && (b <=? 122).
Definition is_ascii_digit (b : Z) : bool := (48 <=? b) && (b <=? 57).
Definition is_ascii_hexdigit (b : Z) : bool :=
  is_ascii_digit b || (65 <=? b) && (b <=? 70) || (97 <=? b) && (b <=? 102).
Definition is_ident_start (b : Z) : bool := (b =? 95) || is_ascii_alphabetic b.
Definition is_ident_continue (b : Z) : bool := (b =? 95) || (is_ascii_alphabetic b || is_ascii_digit b).

Definition utf8_codepoint_len (b : Z) : nat :=
  if (0 <=? b) && (b <=? 127) then 1
  else if (194 <=? b) && (b <=? 223) then 2
  else if (224 <=? b) && (b <=? 239) then 3
  else if (240 <=? b) && (b <=? 244) then 4
  else 1.

(** [bytes.get(i) == Some(&x)], [bytes.get(i).is_some_and(p)] *)
Definition get_is (p : Z -> bool) (bytes : list Z) (i : nat) : bool :=
  match bytes !! i with Some b => p b | None => false end.
Definition byte_is (x : Z) (b : Z) : bool := b =? x.

(** [bytes[i]] *)
Definition index (bytes : list Z) (i : nat) : outcome unit Z :=
  match bytes !! i with Some b => Ok b | None => Abort end.

Fixpoint prefix_of (needle l : list Z) : bool :=
  match needle, l with
  | [], _ => true
  | x :: needle, y :: l => (x =? y) && prefix_of needle l
  | _, _ => false
  end.

Definition starts_with (bytes : list Z) (idx : nat) (needle : list Z) : bool :=
  Nat.leb (idx + length needle) (length bytes) && prefix_of needle (drop idx bytes).

(** The length of the run of [p] bytes at the head of [l]. *)
Fixpoint run (p : Z -> bool) (l : list Z) : nat :=
  match l with
  | [] => O
  | b :: l => if p b then S (run p l) else O
  end.

(** The index a [while] loop over [p] bytes stops at. *)
Definition skip (p : Z -> bool) (bytes : list Z) (i : nat) : nat := (i + run p (drop i bytes))%nat.

(** [str::is_char_boundary] and [&source[i..j]] *)
Definition is_char_boundary (bytes : list Z) (i : nat) : bool :=
  Nat.eqb i 0 || Nat.eqb i (length bytes) ||
  match bytes !! i with Some b => negb ((128 <=? b) && (b <=? 191)) | None => false end.

Definition str_slice (bytes : list Z) (i j : nat) : outcome unit (list Z) :=
  if Nat.leb i j && Nat.leb j (length bytes) && is_char_boundary bytes i && is_char_boundary bytes j
  then Ok (take (j - i) (drop i bytes)) else Abort.

(** [str::find] of a string *)
Fixpoint find_bytes (needle l : list Z) : option nat :=
  if prefix_of needle l then Some O else
  match l with
  | [] => None
  | _ :: l => match find_bytes needle l with Some n => Some (S n) | None => None end
  end.

(** ** Scanners *)

Definition scan_line_comment (bytes : list Z) (start : nat) : nat :=
  skip (fun b => negb (b =? 10)) bytes (start + 2).

(** The loop of [scan_block_comment] on the bytes from [end]. *)
Fixpoint close_comment (l : list Z) (endb : nat) : option nat :=
  match l with
  | x :: ((y :: _) as l) => if (x =? 42) && (y =? 47) then Some (endb + 2)%nat else close_comment l (S endb)
  | _ => None
  end.

Definition scan_block_comment (bytes : list Z) (start : nat) : nat :=
  match close_comment (drop (start + 2) bytes) (start + 2) with
  | Some e => e
  | None => length bytes
  end.

Definition next_is_hash_quote (bytes : list Z) (off : nat) : bool :=
  get_is (byte_is 34) bytes (skip (byte_is 35) bytes off).

Fixpoint normal_loop (fuel : nat) (bytes : list Z) (idx : nat) : outcome unit nat :=
  match fuel with
  | O => Abort
  | S fuel =>
    if Nat.ltb idx (length bytes) then
      let* b := index bytes idx in
      if b =? 92 then
        let idx := S idx in
        if Nat.ltb idx (length bytes) then
          let* c := index bytes idx in
          normal_loop fuel bytes (idx + utf8_codepoint_len c)
        else normal_loop fuel bytes idx
      else if b =? 34 then Ok (S idx)
      else normal_loop fuel bytes (idx + utf8_codepoint_len b)
    else Ok (length bytes)
  end.

Definition scan_normal_string (bytes : list Z) (start : nat) : outcome unit nat :=
  normal_loop (S (length bytes)) bytes (S start).

Definition closing_of (hashes : nat) : list Z := 34 :: replicate hashes 35.

Definition scan_raw_string (bytes : list Z) (start prefix_len : nat) : outcome unit nat :=
  let quote := skip (byte_is 35) bytes (start + prefix_len) in
  if negb (get_is (byte_is 34) bytes quote) then Ok (start + 1)%nat else
  let hashes := (quote - start - prefix_len)%nat in
  let body_start := (quote + 1)%nat in
  let closing := closing_of hashes in
  let* body := str_slice bytes body_start (length bytes) in
  match find_bytes closing body with
  | Some rel => Ok (body_start + rel + length closing)%nat
  | None => Ok (length bytes)
  end.

Fixpoint f_loop (fuel : nat) (bytes closing : list Z) (hashes : nat) (idx interp_depth : nat)
    : outcome unit nat :=
  match fuel with
  | O => Abort
  | S fuel =>
    if Nat.ltb idx (length bytes) then
      if Nat.eqb interp_depth 0 then
        if starts_with bytes idx closing then Ok (idx + length closing)%nat
        else if starts_with bytes idx (lit "${") then f_loop fuel bytes closing hashes (idx + 2) 1
        else
          let* b := index bytes idx in
          if Nat.eqb hashes 0 && (b =? 92) then
            let idx := S idx in
            if Nat.ltb idx (length bytes) then
              let* c := index bytes idx in
              f_loop fuel bytes closing hashes (idx + utf8_codepoint_len c) interp_depth
            else f_loop fuel bytes closing hashes idx interp_depth
          else f_loop fuel bytes closing hashes (idx + utf8_codepoint_len b) interp_depth
      else
        let* b := index bytes idx in
        if b =? 123 then f_loop fuel bytes closing hashes (idx + 1) (S interp_depth)
        else if b =? 125 then f_loop fuel bytes closing hashes (idx + 1) (interp_depth - 1)
        else if b =? 34 then
          let* idx := scan_normal_string bytes idx in
          f_loop fuel bytes closing hashes idx interp_depth
        else f_loop fuel bytes closing hashes (idx + utf8_codepoint_len b) interp_depth
    else Ok (length bytes)
  end.

Definition scan_f_string (bytes : list Z) (start : nat) : outcome unit nat :=
  let quote := skip (byte_is 35) bytes (start + 1) in
  if negb (get_is (byte_is 34) bytes quote) then Ok (start + 1)%nat else
  let hashes := (quote - start - 1)%nat in
  f_loop (S (length bytes)) bytes (closing_of hashes) hashes (quote + 1) 0.

Definition scan_string_like (bytes : list Z) (idx : nat) : outcome unit (option nat) :=
  let* b := index bytes idx in
  if b =? 34 then let* e := scan_normal_string bytes idx in Ok (Some e)
  else if (b =? 114) && next_is_hash_quote bytes (idx + 1)
       then let* e := scan_raw_string bytes idx 1 in Ok (Some e)
  else if (b =? 102) && next_is_hash_quote bytes (idx + 1)
       then let* e := scan_f_string bytes idx in Ok (Some e)
  else Ok None.

Definition scan_ident (bytes : list Z) (start : nat) : nat := skip is_ident_continue bytes (start + 1).

Definition either (x y : Z) (b : Z) : bool := (b =? x) || (b =? y).

Definition scan_number (bytes : list Z) (start : nat) : nat :=
  let idx := start in
  if get_is (byte_is 48) bytes idx && get_is (either 120 88) bytes (idx + 1)
  then skip is_ascii_hexdigit bytes (idx + 2)
  else if get_is (byte_is 48) bytes idx && get_is (either 111 79) bytes (idx + 1)
  then skip (fun b => (48 <=? b) && (b <=? 55)) bytes (idx + 2)
  else if get_is (byte_is 48) bytes idx && get_is (either 98 66) bytes (idx + 1)
  then skip (either 48 49) bytes (idx + 2)
  else
    let idx := skip is_ascii_digit bytes idx in
    let idx := if get_is (byte_is 46) bytes idx && get_is is_ascii_digit bytes (idx + 1)
               then skip is_ascii_digit bytes (idx + 1) else idx in
    if get_is (either 101 69) bytes idx then
      let checkpoint := idx in
      let idx := (idx + 1)%nat in
      let idx := if get_is (either 43 45) bytes idx then (idx + 1)%nat else idx in
      let digits_start := idx in
      let idx := skip is_ascii_digit bytes idx in
      if Nat.eqb idx digits_start then checkpoint else idx
    else idx.

Definition single_char_kinds : list (Z * SyntaxKind) :=
  [(123, L_BRACE); (125, R_BRACE); (91, L_BRACK); (93, R_BRACK); (40, L_PAREN); (41, R_PAREN);
   (44, COMMA); (58, COLON); (46, DOT); (64, AT); (35, HASH); (38, AMP); (63, QUESTION); (61, EQ);
   (60, LT); (62, GT); (43, PLUS); (45, MINUS); (42, STAR); (47, SLASH); (37, PERCENT); (33, BANG);
   (124, PIPE)].

Definition single_char_kind (b : Z) : option SyntaxKind :=
  match find (fun '(x, _) => b =? x) single_char_kinds with
  | Some (_, kind) => Some kind
  | None => None
  end.

Definition MULTI_CHAR_OPS : list (list Z * SyntaxKind) :=
  [(lit "==", EQ_EQ); (lit "!=", BANG_EQ); (lit "<=", LT_EQ); (lit ">=", GT_EQ); (lit "&&", AMP_AMP);
   (lit "||", PIPE_PIPE); (lit "++", PLUS_PLUS); (lit "=>", FAT_ARROW); (lit "->", THIN_ARROW)].

Definition multi_char_op (bytes : list Z) (idx : nat) : option (SyntaxKind * nat) :=
  match find (fun '(lexeme, _) => starts_with bytes idx lexeme) MULTI_CHAR_OPS with
  | Some (lexeme, kind) => Some (kind, (idx + length lexeme)%nat)
  | None => None
  end.

(** ** The lexer *)

Definition scan_one (bytes : list Z) (idx : nat) : outcome unit (SyntaxKind * nat) :=
  let* b := index bytes idx in
  if is_whitespace_byte b then Ok (WHITESPACE, skip is_whitespace_byte bytes (idx + 1)) else
  if (b =? 47) && get_is (byte_is 47) bytes (idx + 1) then Ok (LINE_COMMENT, scan_line_comment bytes idx) else
  if (b =? 47) && get_is (byte_is 42) bytes (idx + 1) then Ok (BLOCK_COMMENT, scan_block_comment bytes idx) else
  let* s := scan_string_like bytes idx in
  match s with
  | Some e => Ok (STRING, e)
  | None =>
    if starts_with bytes idx (lit "...") then Ok (ELLIPSIS, (idx + 3)%nat) else
    match multi_char_op bytes idx with
    | Some r => Ok r
    | None =>
      if (b =? 95) && negb (get_is is_ident_continue bytes (idx + 1)) then Ok (UNDERSCORE, (idx + 1)%nat) else
      if is_ident_start b then Ok (IDENT, scan_ident bytes idx) else
      if is_ascii_digit b then Ok (NUMBER, scan_number bytes idx) else
      match single_char_kind b with
      | Some kind => Ok (kind, (idx + 1)%nat)
      | None => Ok (UNKNOWN, (idx + utf8_codepoint_len b)%nat)
      end
    end
  end.

Fixpoint lex_loop (fuel : nat) (bytes : list Z) (idx : nat) (out : list (SyntaxKind * list Z))
    : outcome unit (list (SyntaxKind * list Z)) :=
  match fuel with
  | O => Abort
  | S fuel =>
    if Nat.ltb idx (length bytes) then
      let* (kind, endb) := scan_one bytes idx in
      let* text := str_slice bytes idx endb in
      lex_loop fuel bytes endb (out ++ [(kind, text)])
    else Ok out
  end.

Definition lex (bytes : list Z) : outcome unit (list (SyntaxKind * list Z)) :=
  lex_loop (S (length bytes)) bytes 0 [].
End Lex.
