(* ===== verification/LexerFacts.v ===== *)
(** The lexer is total and lossless: on valid UTF-8 every index it stops at is a
    character boundary, every loop ends, and the lexemes concatenate to the
    source.  [shape] says what each kind of token is. *)

From Stdlib Require Import ZArith Lia Bool.
From coqutil Require Import Byte.
From stdpp Require Import base list strings sets.
From S2P Require Import Prelude Bytes Value Chars Lexer.
Local Open Scope Z_scope.
Local Open Scope abi_scope.

Import Lex.

(** ** Runs *)

Lemma run_le p l : (run p l <= length l)%nat.
Proof. induction l as [|x l IH]; simpl; [done|]. destruct (p x); lia. Qed.

Lemma run_take p l : Forall (fun x => p x = true) (take (run p l) l).
Proof. induction l as [|x l IH]; simpl; [done|]. destruct (p x) eqn:Hx; simpl; [by constructor|done]. Qed.

Lemma run_stop p l x : l !! run p l = Some x -> p x = false.
Proof. induction l as [|y l IH]; simpl; [done|]. destruct (p y) eqn:Hy; [apply IH|]. intros [= <-]. done. Qed.

Lemma skip_bounds p b i : (i <= length b)%nat -> (i <= skip p b i <= length b)%nat.
Proof. intros Hi. unfold skip. pose proof (run_le p (drop i b)) as H. rewrite length_drop in H. lia. Qed.

Lemma skip_stop p b i x : b !! skip p b i = Some x -> p x = false.
Proof. unfold skip. rewrite <-lookup_drop. apply run_stop. Qed.

Lemma skip_take p b i : Forall (fun x => p x = true) (take (skip p b i - i) (drop i b)).
Proof. unfold skip. rewrite Nat.add_comm, Nat.add_sub. apply run_take. Qed.

Lemma skip_elem p b i j x : (i <= j < skip p b i)%nat -> b !! j = Some x -> p x = true.
Proof.
  intros Hj Hx. pose proof (skip_take p b i) as Hall. rewrite Forall_lookup in Hall.
  apply (Hall (j - i)%nat). rewrite lookup_take_lt by lia. rewrite lookup_drop.
  rewrite <-Hx. f_equal. lia.
Qed.

(** ** Prefixes *)

Lemma prefix_of_iff n l : prefix_of n l = true <-> exists r, l = n ++ r.
Proof.
  revert l. induction n as [|x n IH]; intros l; simpl; [split; [by eexists|done]|].
  destruct l as [|y l]; [split; [done|by intros [? ?]]|]. rewrite andb_true_iff, Z.eqb_eq, IH.
  split; [intros [-> [r ->]]; by exists r|]. intros [r [= -> ->]]. by split; [|exists r].
Qed.

Lemma starts_with_iff b i n :
  (i <= length b)%nat -> starts_with b i n = true <-> exists r, drop i b = n ++ r.
Proof.
  intros Hi. unfold starts_with. rewrite andb_true_iff, Nat.leb_le, prefix_of_iff. split; [by intros [_ ?]|].
  intros [r Hr]. split; [|by exists r]. apply (f_equal length) in Hr.
  rewrite length_drop, length_app in Hr. lia.
Qed.

Lemma find_bytes_spec n l rel :
  find_bytes n l = Some rel -> (rel <= length l)%nat /\ exists r, drop rel l = n ++ r.
Proof.
  revert rel. induction l as [|x l IH]; intros rel; cbn [find_bytes].
  - destruct (prefix_of n []) eqn:Hp; [|done]. intros [= <-]. split; [done|]. by apply prefix_of_iff.
  - destruct (prefix_of n (x :: l)) eqn:Hp.
    + intros [= <-]. split; [simpl; lia|]. by apply prefix_of_iff.
    + destruct (find_bytes n l) as [m|]; [|done]. intros [= <-].
      destruct (IH m eq_refl) as [Hm Hr]. split; [simpl; lia|done].
Qed.

(** ** Character boundaries *)

Section Boundary.
Context (b : list Z).
Hypothesis Hnn : Forall (fun x => 0 <= x) b.
Hypothesis Hv : utf8_codes b = true.

(** [i] is a character boundary of the source. *)
Definition bd (i : nat) : Prop := (i <= length b)%nat /\ utf8_codes (drop i b) = true.

Lemma bd_zero : bd 0.
Proof. split; [lia|done]. Qed.

Lemma bd_end : bd (length b).
Proof. split; [lia|]. by rewrite drop_all. Qed.

Lemma lookup_nonneg i x : b !! i = Some x -> 0 <= x.
Proof. rewrite Forall_lookup in Hnn. apply Hnn. Qed.

Lemma drop_nonneg i : Forall (fun x => 0 <= x) (drop i b).
Proof. by apply Forall_drop. Qed.

(** A prefix of whole characters moves a boundary to a boundary. *)
Lemma bd_app i p r : bd i -> drop i b = p ++ r -> utf8_codes p = true -> bd (i + length p).
Proof.
  intros [Hi Hd] Hpr Hp. pose proof (drop_nonneg i) as Hdn. rewrite Hpr in Hd, Hdn.
  apply Forall_app in Hdn as [Hpn _]. rewrite utf8_codes_app in Hd by done.
  split.
  - apply (f_equal length) in Hpr. rewrite length_drop, length_app in Hpr. lia.
  - by rewrite <-drop_drop, Hpr, drop_app_length.
Qed.

Lemma ascii_codes_valid p : Forall (fun x => x < 128) p -> utf8_codes p = true.
Proof. induction 1 as [|x p Hx _ IH]; [done|]. simpl. by rewrite (proj2 (Z.ltb_lt _ _)). Qed.

Lemma bd_head i x : bd i -> b !! i = Some x ->
  exists c r, is_scalar_value c = true /\ drop i b = utf8_encode c ++ r /\ bd (i + length (utf8_encode c)).
Proof.
  intros Hi Hx. pose proof (drop_nonneg i) as Hd. rewrite (drop_S b x i Hx) in *.
  destruct Hi as [Hi Hu]. rewrite (drop_S b x i Hx) in Hu.
  destruct (utf8_head x (drop (S i) b)) as (c & r & Hc & He & Hr); [by eapply lookup_nonneg|done|].
  exists c, r. split_and!; [done|done|]. apply (bd_app i (utf8_encode c) r).
  - split; [done|]. by rewrite (drop_S b x i Hx).
  - by rewrite (drop_S b x i Hx).
  - rewrite <-(app_nil_r (utf8_encode c)). by rewrite utf8_codes_encode.
Qed.

(** The leading byte gives the length of the character. *)
Lemma encode_codepoint_len c x r : is_scalar_value c = true -> utf8_encode c = x :: r ->
  utf8_codepoint_len x = length (utf8_encode c).
Proof.
  rewrite scalar_value_iff. unfold utf8_encode. intros Hc.
  repeat match goal with |- context [if ?t then _ else _] => destruct t eqn:? end; zb; intros [= <- <-];
    unfold utf8_codepoint_len;
    repeat match goal with |- context [if ?t then _ else _] => destruct t eqn:? end; zb; try done;
    exfalso; repeat match goal with H : _ && _ = false |- _ => apply andb_false_iff in H end; zb; div_mod.
Qed.

Lemma bd_step i x : bd i -> b !! i = Some x -> bd (i + utf8_codepoint_len x).
Proof.
  intros Hi Hx. destruct (bd_head i x Hi Hx) as (c & r & Hc & He & Hb).
  destruct (utf8_encode c) as [|y t] eqn:Hy; [by pose proof (encode_length c) as H; rewrite Hy in H; simpl in H; lia|].
  rewrite (drop_S b x i Hx) in He. injection He as <- _.
  rewrite (encode_codepoint_len c x t Hc Hy), Hy. done.
Qed.

Lemma encode_tail_high c k x : (0 < k)%nat -> utf8_encode c !! k = Some x -> 0 <= c -> 128 <= x.
Proof.
  intros Hk. unfold utf8_encode.
  repeat match goal with |- context [if ?t then _ else _] => destruct t eqn:? end;
    destruct k as [|[|[|[|k]]]]; simpl; try done; try lia; intros [= <-] _; div_mod.
Qed.

(** An ASCII byte of a valid source is a character. *)
Lemma bd_ascii i x : b !! i = Some x -> x < 128 -> bd i /\ bd (S i).
Proof.
  intros Hx Hlt.
  assert (forall n j, (i - j <= n)%nat -> (j <= i)%nat -> bd j -> bd i) as Hwalk.
  { induction n as [|n IH]; intros j Hn Hj Hb; [by replace i with j by lia|].
    destruct (decide (j = i)) as [->|Hne]; [done|].
    destruct (lookup_lt_is_Some_2 b j) as [y Hy]; [apply lookup_lt_Some in Hx; lia|].
    destruct (bd_head j y Hb Hy) as (c & r & Hc & He & Hb'). pose proof (encode_length c) as Hl.
    destruct (decide (j + length (utf8_encode c) <= i)%nat) as [Hle|Hgt]; [by apply (IH (j + length (utf8_encode c))%nat); [lia|..]|].
    exfalso. assert (utf8_encode c !! (i - j)%nat = Some x) as Hin.
    { rewrite <-Hx. replace i with (j + (i - j))%nat at 2 by lia. rewrite <-lookup_drop, He.
      by rewrite lookup_app_l by lia. }
    apply encode_tail_high in Hin; [lia|lia|]. apply scalar_value_iff in Hc. lia. }
  assert (bd i) as Hi by (apply (Hwalk i 0%nat); [lia|lia|apply bd_zero]). split; [done|].
  replace (S i) with (i + length [x])%nat by (simpl; lia). apply (bd_app i [x] (drop (S i) b)).
  - done.
  - by apply drop_S.
  - apply ascii_codes_valid. by repeat constructor.
Qed.

Lemma bd_boundary i : bd i -> is_char_boundary b i = true.
Proof.
  intros [Hi Hd]. unfold is_char_boundary. destruct (b !! i) as [x|] eqn:Hx.
  - rewrite (drop_S b x i Hx) in Hd. rewrite !orb_true_iff. right. apply negb_true_iff, andb_false_iff.
    destruct (x <? 128) eqn:Hlo; [zb; left; lia|]. right. cbn [utf8_codes] in Hd. rewrite Hlo in Hd.
    destruct (x <=? 191) eqn:Hhi; [|done]. exfalso. unfold cont_in in Hd. zb.
    assert (194 <=? x = false) as H1 by lia. assert (225 <=? x = false) as H2 by lia.
    assert (238 <=? x = false) as H3 by lia. assert (x =? 224 = false) as H4 by lia.
    assert (x =? 237 = false) as H5 by lia. assert (x =? 240 = false) as H6 by lia.
    assert (241 <=? x = false) as H7 by lia. assert (x =? 244 = false) as H8 by lia.
    rewrite H1, H2, H3, H4, H5, H6, H7, H8 in Hd. by destruct (drop (S i) b) as [|? [|? [|? ?]]].
  - apply lookup_ge_None in Hx. assert (i = length b) as -> by lia. by rewrite Nat.eqb_refl, orb_true_r.
Qed.

Lemma str_slice_ok i j : bd i -> bd j -> (i <= j)%nat -> str_slice b i j = Ok (take (j - i) (drop i b)).
Proof.
  intros Hi Hj Hij. unfold str_slice. rewrite !bd_boundary by done.
  rewrite (proj2 (Nat.leb_le i j)), (proj2 (Nat.leb_le j (length b))) by (done || apply Hj). done.
Qed.

Lemma bd_skip p i : (forall x, p x = true -> x < 128) -> bd i -> bd (skip p b i).
Proof.
  intros Hp Hi. unfold skip. set (n := run p (drop i b)).
  assert (length (take n (drop i b)) = n) as Hlen.
  { rewrite length_take. pose proof (run_le p (drop i b)). unfold n. lia. }
  rewrite <-Hlen. apply (bd_app i _ (drop n (drop i b))); [done|by rewrite take_drop|].
  apply ascii_codes_valid. eapply Forall_impl; [apply run_take|]. exact Hp.
Qed.

(** A scan up to an ASCII byte, or to the end. *)
Lemma bd_skip_until p i :
  (i <= length b)%nat -> (forall x, p x = false -> x < 128) -> bd (skip p b i).
Proof.
  intros Hi Hp. destruct (b !! skip p b i) as [x|] eqn:Hx.
  - apply (bd_ascii _ x Hx). apply Hp. by eapply skip_stop.
  - apply lookup_ge_None in Hx. pose proof (skip_bounds p b i Hi).
    replace (skip p b i) with (length b) by lia. apply bd_end.
Qed.

Lemma bd_starts i n : bd i -> starts_with b i n = true -> Forall (fun x => x < 128) n -> bd (i + length n).
Proof.
  intros Hi Hs Hn. apply starts_with_iff in Hs as [r Hr]; [|apply Hi].
  apply (bd_app i n r); [done|done|by apply ascii_codes_valid].
Qed.
End Boundary.

(** ** Scanners *)

(** A scanner from [i] that returns [m]: it ends at a boundary after [i]. *)
Definition ends (b : list Z) (i : nat) (m : outcome unit nat) : Prop :=
  exists e, m = Ok e /\ (i <= e)%nat /\ bd b e.

Lemma lex_index_ok b i x : b !! i = Some x -> index b i = Ok x.
Proof. unfold index. by intros ->. Qed.

Lemma codepoint_len_pos x : (1 <= utf8_codepoint_len x)%nat.
Proof. unfold utf8_codepoint_len. repeat case_match; lia. Qed.

Lemma get_is_true p b i : get_is p b i = true -> exists x, b !! i = Some x /\ p x = true.
Proof. unfold get_is. destruct (b !! i) as [x|]; [|done]. by exists x. Qed.

Lemma byte_is_true x y : byte_is x y = true -> y = x.
Proof. apply Z.eqb_eq. Qed.

Lemma get_byte v b i : get_is (byte_is v) b i = true -> b !! i = Some v.
Proof. intros (x & Hx & ->%byte_is_true)%get_is_true. done. Qed.

Lemma close_comment_spec l e e' :
  close_comment l e = Some e' -> exists k, e' = (e + k + 2)%nat /\ l !! S k = Some 47 /\ l !! k = Some 42.
Proof.
  revert e. induction l as [|x l IH]; intros e; [done|]. cbn [close_comment].
  destruct l as [|y l]; [done|]. destruct ((x =? 42) && (y =? 47)) eqn:Hc.
  - intros [= <-]. zb. subst. exists 0%nat. split_and!; [lia|done|done].
  - intros (k & -> & H1 & H2)%IH. exists (S k). split_and!; [lia|done|done].
Qed.

Section Scanners.
Context (b : list Z).
Hypothesis Hnn : Forall (fun x => 0 <= x) b.
Hypothesis Hv : utf8_codes b = true.

Lemma line_comment_ends i : (i + 2 <= length b)%nat -> bd b (scan_line_comment b i).
Proof.
  intros Hi. apply bd_skip_until; [done|done|done|]. intros x Hx.
  apply negb_false_iff, Z.eqb_eq in Hx. lia.
Qed.

Lemma block_comment_ends i :
  (i + 2 <= length b)%nat -> (i + 2 <= scan_block_comment b i)%nat /\ bd b (scan_block_comment b i).
Proof.
  intros Hi. unfold scan_block_comment. destruct (close_comment _ _) as [e|] eqn:He.
  - apply close_comment_spec in He as (k & -> & Hk & _). rewrite lookup_drop in Hk. split; [lia|].
    replace (i + 2 + k + 2)%nat with (S (i + 2 + S k)) by lia. by apply (bd_ascii b Hnn Hv _ 47).
  - split; [done|apply bd_end].
Qed.

Lemma normal_loop_ends n : forall i, (length b - i < n)%nat -> bd b i -> ends b i (normal_loop n b i).
Proof.
  induction n as [|n IH]; intros i Hn Hi; [lia|]. cbn [normal_loop].
  assert (forall j, (i < j)%nat -> bd b j -> ends b i (normal_loop n b j)) as Hnext.
  { intros j Hj Hb. destruct (IH j) as (e & He & Hle & Hbe); [destruct Hb; lia|done|].
    exists e. split_and!; [done|lia|done]. }
  destruct (Nat.ltb_spec i (length b)) as [Hlt|Hge].
  2: { exists (length b). split_and!; [done|by destruct Hi|apply bd_end]. }
  destruct (lookup_lt_is_Some_2 b i Hlt) as [x Hx]. rewrite (lex_index_ok b i x Hx). cbn [bind].
  pose proof (codepoint_len_pos x) as Hpos. destruct (Z.eqb_spec x 92) as [->|].
  - assert (bd b (S i)) as Hs by (by apply (bd_ascii b Hnn Hv i 92)). cbv zeta.
    destruct (Nat.ltb_spec (S i) (length b)) as [Hlt'|]; [|by apply Hnext; [lia|]].
    destruct (lookup_lt_is_Some_2 b (S i) Hlt') as [y Hy]. rewrite (lex_index_ok b (S i) y Hy). cbn [bind].
    pose proof (codepoint_len_pos y). apply Hnext; [lia|]. by apply bd_step.
  - destruct (Z.eqb_spec x 34) as [->|].
    + exists (S i). split_and!; [done|lia|]. by apply (bd_ascii b Hnn Hv i 34).
    + apply Hnext; [lia|]. by apply bd_step.
Qed.

Lemma normal_string_ends i : b !! i = Some 34 -> ends b (S i) (scan_normal_string b i).
Proof. intros Hi. apply normal_loop_ends; [lia|]. by apply (bd_ascii b Hnn Hv i 34). Qed.

(** The opening quote after the hashes. *)
Lemma quote_bounds i :
  (i <= length b)%nat -> get_is (byte_is 34) b (skip (byte_is 35) b i) = true ->
  (i <= skip (byte_is 35) b i)%nat /\ bd b (skip (byte_is 35) b i + 1).
Proof.
  intros Hi Hq%get_byte. split; [by apply skip_bounds|]. rewrite Nat.add_1_r.
  by apply (bd_ascii b Hnn Hv _ 34).
Qed.

Lemma closing_ascii n : Forall (fun x => x < 128) (closing_of n).
Proof. constructor; [lia|]. apply Forall_replicate. lia. Qed.

Lemma raw_string_ends i :
  (S i <= length b)%nat -> next_is_hash_quote b (i + 1) = true -> ends b (S i) (scan_raw_string b i 1).
Proof.
  intros Hi Hq. unfold scan_raw_string. unfold next_is_hash_quote in Hq. rewrite Hq. cbn [negb].
  destruct (quote_bounds (i + 1)) as [Hle Hb]; [lia|done|]. set (q := skip (byte_is 35) b (i + 1)) in *.
  rewrite str_slice_ok by (done || apply bd_end || apply Hb). cbn [bind].
  rewrite take_ge by (rewrite length_drop; lia).
  destruct (find_bytes _ _) as [rel|] eqn:Hf; [|exists (length b); split_and!; [done|lia|apply bd_end]].
  apply find_bytes_spec in Hf as [Hrel [r Hr]]. eexists. split; [done|]. split; [lia|].
  rewrite drop_drop in Hr. apply (bd_app b Hnn _ _ r); [|done|apply ascii_codes_valid, closing_ascii].
  apply (bd_ascii b Hnn Hv _ 34); [|lia]. rewrite <-(Nat.add_0_r (q + 1 + rel)), <-lookup_drop, Hr. done.
Qed.

Lemma f_loop_ends n : forall closing hashes i depth,
  Forall (fun x => x < 128) closing -> (length b - i < n)%nat -> bd b i ->
  ends b i (f_loop n b closing hashes i depth).
Proof.
  induction n as [|n IH]; intros closing hashes i depth Hc Hn Hi; [lia|]. cbn [f_loop].
  assert (forall j d, (i < j)%nat -> bd b j -> ends b i (f_loop n b closing hashes j d)) as Hnext.
  { intros j d Hj Hb. destruct (IH closing hashes j d) as (e & He & Hle & Hbe); [done|destruct Hb; lia|done|].
    exists e. split_and!; [done|lia|done]. }
  destruct (Nat.ltb_spec i (length b)) as [Hlt|Hge].
  2: { exists (length b). split_and!; [done|by destruct Hi|apply bd_end]. }
  destruct (lookup_lt_is_Some_2 b i Hlt) as [x Hx]. rewrite (lex_index_ok b i x Hx). cbn [bind].
  assert (ends b i (f_loop n b closing hashes (i + utf8_codepoint_len x) depth)) as Hstep.
  { pose proof (codepoint_len_pos x). apply Hnext; [lia|]. by apply bd_step. }
  assert (x < 128 -> bd b (i + 1)) as Hone.
  { intros Hlo. rewrite Nat.add_1_r. by apply (bd_ascii b Hnn Hv i x). }
  destruct (Nat.eqb depth 0).
  - destruct (starts_with b i closing) eqn:Hs.
    { exists (i + length closing)%nat. split_and!; [done|lia|by apply bd_starts]. }
    destruct (starts_with b i (lit "${")) eqn:Hd.
    { apply Hnext; [lia|]. apply (bd_starts b Hnn i (lit "${") Hi Hd). by repeat constructor. }
    destruct (Nat.eqb hashes 0 && (x =? 92)) eqn:He; [|done]. zb. subst. cbv zeta.
    assert (bd b (S i)) as Hbs by (rewrite <-Nat.add_1_r; apply Hone; lia).
    destruct (Nat.ltb_spec (S i) (length b)) as [Hlt'|]; [|by apply Hnext; [lia|]].
    destruct (lookup_lt_is_Some_2 b (S i) Hlt') as [y Hy]. rewrite (lex_index_ok b (S i) y Hy). cbn [bind].
    pose proof (codepoint_len_pos y). apply Hnext; [lia|]. by apply bd_step.
  - destruct (Z.eqb_spec x 123) as [->|]; [apply Hnext; [lia|apply Hone; lia]|].
    destruct (Z.eqb_spec x 125) as [->|]; [apply Hnext; [lia|apply Hone; lia]|].
    destruct (Z.eqb_spec x 34) as [->|]; [|done].
    destruct (normal_string_ends i Hx) as (e & -> & Hle & Hbe). cbn [bind]. apply Hnext; [lia|done].
Qed.

Lemma f_string_ends i :
  (S i <= length b)%nat -> next_is_hash_quote b (i + 1) = true -> ends b (S i) (scan_f_string b i).
Proof.
  intros Hi Hq. unfold scan_f_string. unfold next_is_hash_quote in Hq. rewrite Hq. cbn [negb].
  destruct (quote_bounds (i + 1)) as [Hle Hb]; [lia|done|]. set (q := skip (byte_is 35) b (i + 1)) in *.
  destruct (f_loop_ends (S (length b)) (closing_of (q - i - 1)) (q - i - 1) (q + 1) 0)
    as (e & He & Hle' & Hbe); [apply closing_ascii|lia|done|].
  exists e. split_and!; [done|lia|done].
Qed.
End Scanners.

(** ** Spans: the text between two indices *)

Definition spans (b : list Z) (i j : nat) (t : list Z) : Prop :=
  j = (i + length t)%nat /\ (j <= length b)%nat /\ drop i b = t ++ drop j b.

Lemma spans_app b i j k t u : spans b i j t -> spans b j k u -> spans b i k (t ++ u).
Proof.
  intros (-> & H1 & H2) (-> & H3 & H4). split_and!; [rewrite length_app; lia|done|].
  by rewrite H2, H4, <-app_assoc.
Qed.

Lemma spans_nil b i : (i <= length b)%nat -> spans b i i [].
Proof. intros Hi. split_and!; [simpl; lia|done|done]. Qed.

Lemma spans_cut b i j : (i <= j <= length b)%nat -> spans b i j (take (j - i) (drop i b)).
Proof.
  intros Hij. split_and!; [rewrite length_take, length_drop; lia|lia|].
  rewrite <-(take_drop (j - i) (drop i b)) at 1. f_equal. rewrite drop_drop. f_equal. lia.
Qed.

Lemma spans_text b i j t : spans b i j t -> take (j - i) (drop i b) = t.
Proof.
  intros (-> & _ & Hd). rewrite Hd. replace (i + length t - i)%nat with (length t) by lia.
  apply take_app_length.
Qed.

Lemma spans_byte b i x : b !! i = Some x -> spans b i (i + 1) [x].
Proof.
  intros Hx. pose proof (lookup_lt_Some _ _ _ Hx). split_and!; [simpl; lia|lia|].
  rewrite Nat.add_1_r. by apply drop_S.
Qed.

Lemma spans_skip p b i : (i <= length b)%nat ->
  exists t, spans b i (skip p b i) t /\ Forall (fun x => p x = true) t /\ length t = run p (drop i b).
Proof.
  intros Hi. exists (take (skip p b i - i) (drop i b)). pose proof (skip_bounds p b i Hi).
  split_and!; [by apply spans_cut|apply skip_take|].
  unfold skip. replace (i + run p (drop i b) - i)%nat with (run p (drop i b)) by lia.
  rewrite length_take. pose proof (run_le p (drop i b)). lia.
Qed.

Lemma spans_starts b i n : (i <= length b)%nat -> starts_with b i n = true -> spans b i (i + length n) n.
Proof.
  intros Hi Hs. apply starts_with_iff in Hs as [r Hr]; [|done]. pose proof (f_equal length Hr) as Hl.
  rewrite length_drop, length_app in Hl. split_and!; [done|lia|].
  by rewrite <-drop_drop, Hr, drop_app_length.
Qed.

(** ** Numbers *)

Definition digits (p : Z -> bool) (ds : list Z) : Prop := ds <> [] /\ Forall (fun x => p x = true) ds.

Inductive fraction : list Z -> Prop :=
| no_fraction : fraction []
| some_fraction ds : digits is_ascii_digit ds -> fraction (46 :: ds).

Inductive exponent : list Z -> Prop :=
| no_exponent : exponent []
| some_exponent m sign ds :
    either 101 69 m = true -> sign ∈ [[]; [43]; [45]] -> digits is_ascii_digit ds -> exponent (m :: sign ++ ds).

Definition is_octal (b : Z) : bool := (48 <=? b) && (b <=? 55).

(** The digits a radix marker admits. *)
Definition radix_digit (m : Z) : option (Z -> bool) :=
  if either 120 88 m then Some is_ascii_hexdigit
  else if either 111 79 m then Some is_octal
  else if either 98 66 m then Some (either 48 49)
  else None.

(** The texts of NUMBER tokens. *)
Inductive number : list Z -> Prop :=
| radix_number m p ds : radix_digit m = Some p -> Forall (fun x => p x = true) ds -> number (48 :: m :: ds)
| decimal_number ds f e : digits is_ascii_digit ds -> fraction f -> exponent e -> number (ds ++ f ++ e).

Lemma spans_digits p b i :
  get_is p b i = true -> exists t, spans b i (skip p b i) t /\ digits p t.
Proof.
  intros (x & Hx & Hp)%get_is_true. pose proof (lookup_lt_Some _ _ _ Hx).
  destruct (spans_skip p b i) as (t & Hs & Ht & Hl); [lia|]. exists t. split; [done|]. split; [|done].
  intros ->. rewrite (drop_S b x i Hx) in Hl. simpl in Hl. by rewrite Hp in Hl.
Qed.

Lemma radix_spans b i m p :
  b !! i = Some 48 -> b !! (i + 1)%nat = Some m -> radix_digit m = Some p ->
  exists t, spans b i (skip p b (i + 2)) t /\ number t.
Proof.
  intros H0 Hm Hp. pose proof (lookup_lt_Some _ _ _ Hm).
  destruct (spans_skip p b (i + 2)) as (t & Hs & Ht & _); [lia|]. exists ([48] ++ [m] ++ t). split.
  - eapply spans_app; [by apply spans_byte|]. eapply spans_app; [by apply spans_byte|].
    by replace (i + 1 + 1)%nat with (i + 2)%nat by lia.
  - by apply (radix_number m p).
Qed.

Lemma fraction_spans b i :
  (i <= length b)%nat ->
  let j := if get_is (byte_is 46) b i && get_is is_ascii_digit b (i + 1)
           then skip is_ascii_digit b (i + 1) else i in
  exists t, spans b i j t /\ fraction t.
Proof.
  intros Hi. cbv zeta. destruct (get_is (byte_is 46) b i && _) eqn:Hf.
  - apply andb_true_iff in Hf as [Hd%get_byte Hg]. destruct (spans_digits _ _ _ Hg) as (t & Hs & Ht).
    exists ([46] ++ t). split; [|by constructor]. eapply spans_app; [by apply spans_byte|done].
  - exists []. split; [by apply spans_nil|constructor].
Qed.

Lemma exponent_spans b i :
  (i <= length b)%nat ->
  let j :=
    if get_is (either 101 69) b i then
      let k := (i + 1)%nat in
      let k := if get_is (either 43 45) b k then (k + 1)%nat else k in
      let e := skip is_ascii_digit b k in
      if Nat.eqb e k then i else e
    else i in
  exists t, spans b i j t /\ exponent t.
Proof.
  intros Hi. cbv zeta.
  assert (exists t, spans b i i t /\ exponent t) as Hnone.
  { exists []. split; [by apply spans_nil|constructor]. }
  destruct (get_is (either 101 69) b i) eqn:Hm; [|done].
  apply get_is_true in Hm as (m & Hm & Hme). pose proof (lookup_lt_Some _ _ _ Hm).
  assert (exists sign, sign ∈ [[]; [43]; [45]] /\
    spans b (i + 1) (if get_is (either 43 45) b (i + 1) then i + 1 + 1 else i + 1)%nat sign) as (sign & Hin & Hs).
  { destruct (get_is (either 43 45) b (i + 1)) eqn:Hg.
    - apply get_is_true in Hg as (x & Hx & Hxe). exists [x]. split; [|by apply spans_byte].
      unfold either in Hxe. apply orb_true_iff in Hxe as [->%Z.eqb_eq| ->%Z.eqb_eq]; set_solver.
    - exists []. split; [set_solver|apply spans_nil; lia]. }
  set (k := (if get_is (either 43 45) b (i + 1) then i + 1 + 1 else i + 1)%nat) in *.
  destruct (Nat.eqb_spec (skip is_ascii_digit b k) k) as [He|He]; [done|].
  destruct (spans_skip is_ascii_digit b k) as (t & Ht & Hd & Hl); [apply Hs|].
  exists ([m] ++ sign ++ t). split.
  - eapply spans_app; [by apply spans_byte|]. by eapply spans_app.
  - apply (some_exponent m sign t); [done|done|]. split; [|done]. intros ->. apply He. destruct Ht as (-> & _). simpl. lia.
Qed.

Lemma number_spans b i :
  get_is is_ascii_digit b i = true -> exists t, spans b i (scan_number b i) t /\ number t.
Proof.
  intros Hd. unfold scan_number. cbv zeta.
  destruct (get_is (byte_is 48) b i && get_is (either 120 88) b (i + 1)) eqn:Hx.
  { apply andb_true_iff in Hx as [H0%get_byte (m & Hm & Hme)%get_is_true].
    apply (radix_spans b i m); [done|done|]. unfold radix_digit. by rewrite Hme. }
  destruct (get_is (byte_is 48) b i && get_is (either 111 79) b (i + 1)) eqn:Ho.
  { apply andb_true_iff in Ho as [H0%get_byte (m & Hm & Hme)%get_is_true].
    apply (radix_spans b i m is_octal); [done|done|]. unfold radix_digit. rewrite Hme.
    destruct (either 120 88 m) eqn:Hc; [|done]. unfold either in *. lia. }
  destruct (get_is (byte_is 48) b i && get_is (either 98 66) b (i + 1)) eqn:Hb.
  { apply andb_true_iff in Hb as [H0%get_byte (m & Hm & Hme)%get_is_true].
    apply (radix_spans b i m); [done|done|]. unfold radix_digit. rewrite Hme.
    destruct (either 120 88 m) eqn:Hc; [unfold either in *; lia|].
    destruct (either 111 79 m) eqn:Hc'; [unfold either in *; lia|done]. }
  destruct (spans_digits _ _ _ Hd) as (ds & Hs & Hds).
  destruct (fraction_spans b (skip is_ascii_digit b i)) as (f & Hf & Hfs); [apply Hs|].
  edestruct (exponent_spans b) as (e & He & Hes); [exact (proj1 (proj2 Hf))|].
  exists (ds ++ f ++ e). split; [|by constructor]. eapply spans_app; [done|]. by eapply spans_app.
Qed.

(** ** What each kind of token is

    [shape k t r]: [t] is a token of kind [k] in front of the rest [r]. *)

Definition stops (p : Z -> bool) (r : list Z) : Prop :=
  match r with x :: _ => p x = false | [] => True end.

Definition operators : list (list Z * SyntaxKind) :=
  (lit "...", ELLIPSIS) :: MULTI_CHAR_OPS ++ map (fun '(x, k) => ([x], k)) single_char_kinds.

(** What follows the opening quote of a plain string: up to and with the first quote that is not
    escaped, or, if [closed] is false, to the end of the source without such a quote. *)
Inductive string_body : bool -> list Z -> Prop :=
| body_close : string_body true [34]
| body_end : string_body false []
| body_hanging : string_body false [92]
| body_char closed c u : is_scalar_value c = true -> c <> 34 -> c <> 92 -> string_body closed u ->
    string_body closed (utf8_encode c ++ u)
| body_escape closed c u : is_scalar_value c = true -> string_body closed u -> string_body closed (92 :: utf8_encode c ++ u).

(** What follows the opening quote of an f-string with [h] hashes, in front of [r], when [depth]
    braces of an interpolation are open: up to and with the first closing delimiter outside the
    interpolations, escapes and nested plain strings, or to the end of the source without one. *)
Inductive f_body (h : nat) (r : list Z) : bool -> nat -> list Z -> Prop :=
| f_close : f_body h r true 0 (closing_of h)
| f_end depth : f_body h r false depth []
| f_hanging : h = 0%nat -> f_body h r false 0 [92]
| f_interp closed u : f_body h r closed 1 u -> f_body h r closed 0 (lit "${" ++ u)
| f_escape closed c u : h = 0%nat -> is_scalar_value c = true -> f_body h r closed 0 u ->
    f_body h r closed 0 (92 :: utf8_encode c ++ u)
| f_char closed c u : is_scalar_value c = true -> (h = 0%nat -> c <> 92) ->
    prefix_of (closing_of h) (utf8_encode c ++ u ++ r) = false -> prefix_of (lit "${") (utf8_encode c ++ u ++ r) = false ->
    f_body h r closed 0 u -> f_body h r closed 0 (utf8_encode c ++ u)
| in_open closed depth u : f_body h r closed (S (S depth)) u -> f_body h r closed (S depth) (123 :: u)
| in_close closed depth u : f_body h r closed depth u -> f_body h r closed (S depth) (125 :: u)
| in_string closed depth ended v u : string_body ended v -> (ended = false -> u = []) ->
    f_body h r closed (S depth) u -> f_body h r closed (S depth) (34 :: v ++ u)
| in_char closed depth c u : is_scalar_value c = true -> c <> 123 -> c <> 125 -> c <> 34 ->
    f_body h r closed (S depth) u -> f_body h r closed (S depth) (utf8_encode c ++ u).

(** A string token: a closed one, or one that runs to the end of the source unclosed. *)
Inductive string_token : list Z -> list Z -> Prop :=
| plain_string closed u r : string_body closed u -> (closed = false -> r = []) -> string_token (34 :: u) r
| raw_string h u r :
    find_bytes (closing_of h) u = Some (length u - length (closing_of h))%nat \/
    r = [] /\ find_bytes (closing_of h) u = None ->
    string_token (114 :: replicate h 35 ++ 34 :: u) r
| f_string h closed u r : f_body h r closed 0 u -> (closed = false -> r = []) ->
    string_token (102 :: replicate h 35 ++ 34 :: u) r.

Definition shape (k : SyntaxKind) (t r : list Z) : Prop :=
  match k with
  | WHITESPACE => digits is_whitespace_byte t /\ stops is_whitespace_byte r
  | LINE_COMMENT => exists u, t = lit "//" ++ u /\ 10 ∉ u /\ (r = [] \/ exists r', r = 10 :: r')
  | BLOCK_COMMENT => exists u, t = lit "/*" ++ u /\
      (find_bytes (lit "*/") u = Some (length u - 2)%nat \/ r = [] /\ find_bytes (lit "*/") u = None)
  | STRING => string_token t r
  | IDENT => exists x u, t = x :: u /\ is_ident_start x = true /\ t <> [95] /\
      Forall (fun x => is_ident_continue x = true) u /\ stops is_ident_continue r
  | UNDERSCORE => t = [95] /\ stops is_ident_continue r
  | NUMBER => number t
  | UNKNOWN => exists c, t = utf8_encode c /\ is_scalar_value c = true /\ single_char_kind c = None
  | _ => (t, k) ∈ operators /\
      Forall (fun '(t', _) => prefix_of t' (t ++ r) = true -> (length t' <= length t)%nat)
        ((lit "//", LINE_COMMENT) :: (lit "/*", BLOCK_COMMENT) :: operators)
  end.

(** The tokens of a source. *)
Inductive lexed : list Z -> list (SyntaxKind * list Z) -> Prop :=
| lexed_end : lexed [] []
| lexed_token k t r toks : t <> [] -> shape k t r -> lexed r toks -> lexed (t ++ r) ((k, t) :: toks).

(** ** Shapes of the scanned tokens *)

Lemma stops_skip p b i : stops p (drop (skip p b i) b).
Proof.
  destruct (drop (skip p b i) b) as [|x r] eqn:Hd; [done|]. simpl. apply (skip_stop p b i).
  rewrite <-(Nat.add_0_r (skip p b i)), <-lookup_drop, Hd. done.
Qed.

Lemma starts_with_prefix b i n : (i <= length b)%nat -> starts_with b i n = prefix_of n (drop i b).
Proof.
  intros Hi. apply eq_true_iff_eq. rewrite starts_with_iff by done. by rewrite prefix_of_iff.
Qed.

Lemma close_comment_find l e :
  close_comment l e = match find_bytes (lit "*/") l with Some k => Some (e + k + 2)%nat | None => None end.
Proof.
  revert e. induction l as [|x l IH]; intros e; [done|].
  destruct l as [|y l].
  { cbn [find_bytes]. assert (prefix_of (lit "*/") [x] = false) as -> by apply andb_false_r. done. }
  change (close_comment (x :: y :: l) e) with
    (if (x =? 42) && (y =? 47) then Some (e + 2)%nat else close_comment (y :: l) (S e)).
  change (find_bytes (lit "*/") (x :: y :: l)) with
    (if prefix_of (lit "*/") (x :: y :: l) then Some 0%nat else
     match find_bytes (lit "*/") (y :: l) with Some n => Some (S n) | None => None end).
  assert (prefix_of (lit "*/") (x :: y :: l) = ((x =? 42) && (y =? 47))) as ->.
  { cbn [lit prefix_of map as_bytes String.list_byte_of_string]. simpl.
    rewrite (Z.eqb_sym x), (Z.eqb_sym y). by rewrite andb_true_r. }
  destruct ((x =? 42) && (y =? 47)); [f_equal; lia|]. rewrite IH.
  destruct (find_bytes (lit "*/") (y :: l)); [f_equal; lia|done].
Qed.

(** The first occurrence is also the first one in the text that ends with it. *)
Lemma find_bytes_take n l k :
  n <> [] -> find_bytes n l = Some k -> find_bytes n (take (k + length n) l) = Some k.
Proof.
  intros Hn. revert k. induction l as [|x l IH]; intros k; cbn [find_bytes].
  - destruct (prefix_of n []) eqn:Hp; [|done]. destruct n; done.
  - destruct (prefix_of n (x :: l)) eqn:Hp.
    + intros [= <-]. apply prefix_of_iff in Hp as [r Hr]. rewrite Hr. simpl Nat.add. rewrite take_app_length.
      destruct n as [|y n]; [done|]. cbn [find_bytes].
      by rewrite (proj2 (prefix_of_iff (y :: n) (y :: n))) by (exists []; by rewrite app_nil_r).
    + destruct (find_bytes n l) as [m|]; [|done]. intros [= <-]. simpl Nat.add. cbn [take find_bytes].
      destruct (prefix_of n (x :: take (m + length n) l)) eqn:Hp'.
      { exfalso. apply prefix_of_iff in Hp' as [r Hr].
        rewrite (proj2 (prefix_of_iff n (x :: l))) in Hp; [done|].
        exists (r ++ drop (m + length n) l). rewrite app_assoc, <-Hr. simpl. by rewrite take_drop. }
      by rewrite IH.
Qed.

Section Shapes.
Context (b : list Z).
Hypothesis Hnn : Forall (fun x => 0 <= x) b.
Hypothesis Hv : utf8_codes b = true.

(** The character at a boundary. *)
Lemma char_spans i x : bd b i -> b !! i = Some x ->
  exists c, is_scalar_value c = true /\ spans b i (i + utf8_codepoint_len x) (utf8_encode c) /\
    (c < 128 -> c = x) /\ (x < 128 -> c = x).
Proof.
  intros Hi Hx. destruct (bd_head b Hnn i x Hi Hx) as (c & r & Hc & He & Hb). exists c.
  assert (exists u, utf8_encode c = x :: u) as [u Hu].
  { pose proof (encode_length c). rewrite (drop_S b x i Hx) in He.
    destruct (utf8_encode c) as [|y u]; [simpl in *; lia|]. injection He as <- _. by exists u. }
  rewrite (encode_codepoint_len c x u Hc Hu). split_and!; [done|split_and!; [done|apply Hb|]| |].
  - by rewrite <-drop_drop, He, drop_app_length.
  - unfold utf8_encode in Hu. intros Hlt. rewrite (proj2 (Z.ltb_lt _ _)) in Hu by done. by injection Hu.
  - apply scalar_value_iff in Hc. unfold utf8_encode in Hu. intros Hlt.
    repeat match type of Hu with context [if ?t then _ else _] => destruct t eqn:? end; zb;
      injection Hu as Hh Ht; try done; exfalso; clear Ht; div_mod.
Qed.

Lemma spans_empty i : (i <= length b)%nat -> spans b i i [].
Proof. intros Hi. split_and!; [simpl; lia|done|done]. Qed.

Lemma normal_loop_body n : forall i e, bd b i -> normal_loop n b i = Ok e ->
  exists closed u, spans b i e u /\ string_body closed u /\ (closed = false -> e = length b).
Proof.
  induction n as [|n IH]; intros i e Hi; cbn [normal_loop]; [done|].
  destruct (Nat.ltb_spec i (length b)) as [Hlt|Hge].
  2: { intros [= <-]. destruct Hi as [Hi _]. replace i with (length b) by lia.
       exists false, []. split_and!; [by apply spans_empty|constructor|done]. }
  destruct (lookup_lt_is_Some_2 b i Hlt) as [x Hx]. rewrite (lex_index_ok b i x Hx). cbn [bind].
  destruct (char_spans i x Hi Hx) as (c & Hc & Hs & Hcx & Hxc).
  destruct (Z.eqb_spec x 92) as [->|Hne].
  - cbv zeta. destruct (bd_ascii b Hnn Hv i 92 Hx) as [_ Hb]; [lia|].
    destruct (Nat.ltb_spec (S i) (length b)) as [Hlt'|Hge].
    + destruct (lookup_lt_is_Some_2 b (S i) Hlt') as [y Hy]. rewrite (lex_index_ok b (S i) y Hy). cbn [bind].
      destruct (char_spans (S i) y Hb Hy) as (d & Hd & Hds & _).
      intros (closed & u & Hu & Hsu & He)%IH; [|by apply bd_step].
      exists closed, ([92] ++ utf8_encode d ++ u). split_and!; [|by apply (body_escape closed d u)|done].
      eapply spans_app; [by apply spans_byte|]. rewrite Nat.add_1_r. by eapply spans_app.
    + destruct n; cbn [normal_loop]; [done|]. rewrite (proj2 (Nat.ltb_ge _ _)) by done.
      intros [= <-]. exists false, [92]. split_and!; [|constructor|done].
      replace (length b) with (i + 1)%nat by lia. by apply spans_byte.
  - destruct (Z.eqb_spec x 34) as [->|Hne'].
    + intros [= <-]. exists true, [34]. split_and!; [|constructor|done]. rewrite <-Nat.add_1_r. by apply spans_byte.
    + intros (closed & u & Hu & Hsu & He)%IH; [|by apply bd_step].
      exists closed, (utf8_encode c ++ u). split_and!; [by eapply spans_app| |done].
      apply body_char; [done| | |done]; intros ->; [apply Hne'|apply Hne]; symmetry; apply Hcx; lia.
Qed.

(** A scanned body of an f-string. *)
Definition f_ends (h : nat) (i depth e : nat) : Prop :=
  exists closed u, spans b i e u /\ f_body h (drop e b) closed depth u /\ (closed = false -> e = length b).

Lemma f_ends_at_end h depth : f_ends h (length b) depth (length b).
Proof. exists false, []. split_and!; [by apply spans_empty|constructor|done]. Qed.

(** A piece in front of a scanned body. *)
Lemma f_ends_after h i j depth depth' e t :
  spans b i j t -> f_ends h j depth' e ->
  (forall closed u, spans b j e u -> (closed = false -> e = length b) -> f_body h (drop e b) closed depth' u ->
     f_body h (drop e b) closed depth (t ++ u)) ->
  f_ends h i depth e.
Proof.
  intros Ht (closed & u & Hu & Hf & He) Hstep. exists closed, (t ++ u).
  split_and!; [by eapply spans_app|by apply Hstep|done].
Qed.

Lemma starts_with_false i j e t u n :
  spans b i j t -> spans b j e u -> starts_with b i n = false -> prefix_of n (t ++ u ++ drop e b) = false.
Proof.
  intros Ht Hu Hs. destruct (prefix_of n _) eqn:Hp; [|done]. apply prefix_of_iff in Hp as [r Hr].
  assert (starts_with b i n = true); [|congruence]. destruct (spans_app _ _ _ _ _ _ Ht Hu) as (He & Hi & Hd).
  apply starts_with_iff; [lia|]. exists r. by rewrite Hd, <-app_assoc.
Qed.

Lemma f_loop_body n : forall h i depth e,
  bd b i -> f_loop n b (closing_of h) h i depth = Ok e -> f_ends h i depth e.
Proof.
  induction n as [|n IH]; intros h i depth e Hi; cbn [f_loop]; [done|].
  destruct (Nat.ltb_spec i (length b)) as [Hlt|Hge].
  2: { intros [= <-]. destruct Hi as [Hi _]. replace i with (length b) by lia. apply f_ends_at_end. }
  destruct (lookup_lt_is_Some_2 b i Hlt) as [x Hx]. rewrite (lex_index_ok b i x Hx). cbn [bind].
  destruct (char_spans i x Hi Hx) as (c & Hc & Hs & Hcx & Hxc). pose proof (bd_step b Hnn i x Hi Hx) as Hstep.
  assert (x < 128 -> bd b (i + 1)) as Hone.
  { intros Hlo. rewrite Nat.add_1_r. by apply (bd_ascii b Hnn Hv i x). }
  destruct depth as [|depth]; cbn [Nat.eqb].
  - destruct (starts_with b i (closing_of h)) eqn:Hcl.
    { intros [= <-]. exists true, (closing_of h).
      split; [exact (spans_starts b i (closing_of h) ltac:(lia) Hcl)|split; [constructor|done]]. }
    destruct (starts_with b i (lit "${")) eqn:Hd.
    { intros Hl%IH; [|apply (bd_starts b Hnn i (lit "${") Hi Hd); by repeat constructor].
      eapply f_ends_after; [apply spans_starts; [lia|exact Hd]|exact Hl|]. intros closed u _ _. apply f_interp. }
    destruct (Nat.eqb h 0 && (x =? 92)) eqn:He; cbv zeta.
    + apply andb_true_iff in He as [Hh%Nat.eqb_eq ->%Z.eqb_eq].
      assert (bd b (S i)) as Hbs by (rewrite <-Nat.add_1_r; apply Hone; lia).
      destruct (Nat.ltb_spec (S i) (length b)) as [Hlt'|Hge'].
      * destruct (lookup_lt_is_Some_2 b (S i) Hlt') as [y Hy]. rewrite (lex_index_ok b (S i) y Hy). cbn [bind].
        destruct (char_spans (S i) y Hbs Hy) as (d & Hd' & Hds & _). intros Hl%IH; [|by apply bd_step].
        eapply f_ends_after; [|exact Hl|].
        { eapply (spans_app _ _ _ _ [92]); [by apply spans_byte|rewrite Nat.add_1_r; exact Hds]. }
        intros closed u _ _ Hf. by apply (f_escape _ _ closed d u).
      * intros Hl. destruct n; cbn [f_loop] in Hl; [discriminate Hl|]. rewrite (proj2 (Nat.ltb_ge _ _)) in Hl by done. injection Hl as <-.
        exists false, [92]. split_and!; [|by apply f_hanging|done].
        replace (length b) with (i + 1)%nat by lia. by apply spans_byte.
    + intros Hl%IH; [|done]. eapply f_ends_after; [exact Hs|exact Hl|]. intros closed u Hu _ Hf. apply f_char; try done.
      * intros -> ->. by rewrite <-(Hcx ltac:(lia)) in He.
      * by apply (starts_with_false i (i + utf8_codepoint_len x)).
      * by apply (starts_with_false i (i + utf8_codepoint_len x)).
  - destruct (Z.eqb_spec x 123) as [->|H1].
    { intros Hl%IH; [|apply Hone; lia]. eapply (f_ends_after _ _ _ _ _ _ [123]); [by apply spans_byte|exact Hl|].
      intros closed u _ _. apply in_open. }
    destruct (Z.eqb_spec x 125) as [->|H2].
    { intros Hl%IH; [|apply Hone; lia]. eapply (f_ends_after _ _ _ _ _ _ [125]); [by apply spans_byte| |].
      - rewrite Nat.sub_1_r in Hl. exact Hl.
      - intros closed u _ _. apply in_close. }
    destruct (Z.eqb_spec x 34) as [->|H3].
    + destruct (normal_string_ends b Hnn Hv i Hx) as (j & Hj & Hle & Hbe). rewrite Hj. cbn [bind]. intros Hl%IH; [|done].
      apply normal_loop_body in Hj as (ended & v & Hvs & Hvb & Hve); [|rewrite <-Nat.add_1_r; apply Hone; lia].
      eapply f_ends_after; [|exact Hl|].
      { eapply (spans_app _ _ _ _ [34]); [by apply spans_byte|rewrite Nat.add_1_r; exact Hvs]. }
      intros closed u Hu _ Hf. apply (in_string h _ closed depth ended v u); [done| |done].
      intros ->. destruct Hu as (Hlen & Hb & _). specialize (Hve eq_refl). apply nil_length_inv. lia.
    + intros Hl%IH; [|done]. eapply f_ends_after; [exact Hs|exact Hl|]. intros closed u _ _.
      apply in_char; [done|..]; intros ->; [apply H1|apply H2|apply H3]; symmetry; apply Hcx; lia.
Qed.

Lemma hashes_are b' i : (i <= length b')%nat ->
  spans b' i (skip (byte_is 35) b' i) (replicate (skip (byte_is 35) b' i - i) 35).
Proof.
  intros Hi. destruct (spans_skip (byte_is 35) b' i Hi) as (t & Hs & Ht & _).
  assert (t = replicate (skip (byte_is 35) b' i - i) 35) as <-; [|done].
  assert (length t = (skip (byte_is 35) b' i - i)%nat) as <- by (destruct Hs as (-> & _); lia).
  clear Hs. induction Ht as [|x t Hx _ IH]; [done|]. simpl. by rewrite (byte_is_true _ _ Hx), <-IH.
Qed.

(** The opener of a raw or interpolated string and its body. *)
Lemma opener_spans i x e u :
  b !! i = Some x -> next_is_hash_quote b (i + 1) = true ->
  let q := skip (byte_is 35) b (i + 1) in
  spans b (q + 1) e u -> spans b i e (x :: replicate (q - i - 1) 35 ++ 34 :: u).
Proof.
  intros Hx Hq q Hu. pose proof (lookup_lt_Some _ _ _ Hx). apply get_byte in Hq.
  replace (x :: replicate (q - i - 1) 35 ++ 34 :: u) with ([x] ++ replicate (q - i - 1) 35 ++ [34] ++ u) by done.
  eapply spans_app; [by apply spans_byte|]. eapply spans_app; [|eapply spans_app; [by apply spans_byte|done]].
  replace (q - i - 1)%nat with (q - (i + 1))%nat by lia. apply hashes_are. lia.
Qed.

Lemma raw_shape i e :
  b !! i = Some 114 -> next_is_hash_quote b (i + 1) = true -> scan_raw_string b i 1 = Ok e ->
  exists t, spans b i e t /\ string_token t (drop e b).
Proof.
  intros Hx Hr Hj. pose proof (lookup_lt_Some _ _ _ Hx) as Hlt.
  destruct (raw_string_ends b Hnn Hv i) as (j & Hj' & Hle & Hb); [lia|done|].
  rewrite Hj in Hj'. injection Hj' as <-.
  destruct (quote_bounds b Hnn Hv (i + 1)) as [Hge Hqb]; [lia|exact Hr|].
  pose proof (opener_spans i 114) as Hop. revert Hj. unfold scan_raw_string.
  pose proof Hr as Hr0. unfold next_is_hash_quote in Hr. rewrite Hr. cbn [negb]. cbv zeta in *.
  set (q := skip (byte_is 35) b (i + 1)) in *. set (h := (q - i - 1)%nat) in *.
  rewrite str_slice_ok by (done || apply bd_end || apply Hqb). cbn [bind].
  rewrite take_ge by (rewrite length_drop; lia). pose proof (proj1 Hqb).
  destruct (find_bytes (closing_of h) (drop (q + 1) b)) as [rel|] eqn:Hf; intros He; injection He as He.
  - change (S (length (replicate h 35))) with (length (closing_of h)) in He. subst e.
    assert (spans b (q + 1) (q + 1 + rel + length (closing_of h))
      (take (rel + length (closing_of h)) (drop (q + 1) b))) as Hs.
    { replace (rel + length (closing_of h))%nat
        with (q + 1 + rel + length (closing_of h) - (q + 1))%nat by lia. apply spans_cut. destruct Hb. lia. }
    eexists. split; [apply (Hop _ _ Hx Hr0 Hs)|]. apply raw_string. left.
    rewrite (find_bytes_take (closing_of h) _ _ ltac:(done) Hf). f_equal. destruct Hs as (Hs & _). lia.
  - subst e. eexists. split; [eapply (Hop (length b)); [done|done|apply spans_cut; lia]|].
    apply raw_string. right. split; [apply drop_all|]. by rewrite take_ge by (rewrite length_drop; lia).
Qed.

Lemma f_shape i e :
  b !! i = Some 102 -> next_is_hash_quote b (i + 1) = true -> scan_f_string b i = Ok e ->
  exists t, spans b i e t /\ string_token t (drop e b).
Proof.
  intros Hx Hf Hj. pose proof (lookup_lt_Some _ _ _ Hx) as Hlt.
  destruct (quote_bounds b Hnn Hv (i + 1)) as [Hge Hqb]; [lia|exact Hf|].
  pose proof (opener_spans i 102) as Hop. revert Hj. unfold scan_f_string.
  pose proof Hf as Hf0. unfold next_is_hash_quote in Hf. rewrite Hf. cbn [negb]. cbv zeta in *.
  set (q := skip (byte_is 35) b (i + 1)) in *. pose proof (proj1 Hqb).
  intros (closed & u & Hu & Hb & He)%f_loop_body; [|done].
  eexists. split; [by apply (Hop e u)|]. eapply f_string; [exact Hb|]. intros Hc. rewrite (He Hc). apply drop_all.
Qed.

Lemma plain_shape i e :
  b !! i = Some 34 -> scan_normal_string b i = Ok e -> exists t, spans b i e t /\ string_token t (drop e b).
Proof.
  intros Hx Hj. apply normal_loop_body in Hj as (closed & u & Hu & Hbody & He); [|by apply (bd_ascii b Hnn Hv i 34)].
  exists ([34] ++ u). split; [eapply spans_app; [by apply spans_byte|by rewrite Nat.add_1_r]|].
  eapply plain_string; [exact Hbody|]. intros Hc. rewrite (He Hc). apply drop_all.
Qed.

Lemma string_like_shape i e :
  scan_string_like b i = Ok (Some e) -> exists t, spans b i e t /\ string_token t (drop e b).
Proof.
  unfold scan_string_like, index. destruct (b !! i) as [x|] eqn:Hx; [|done]. cbn [bind].
  destruct (Z.eqb_spec x 34) as [->|].
  { destruct (scan_normal_string b i) eqn:Hj; [|done|done]. intros [= <-]. by apply plain_shape. }
  destruct ((x =? 114) && next_is_hash_quote b (i + 1)) eqn:Hr.
  { apply andb_true_iff in Hr as [->%Z.eqb_eq Hr].
    destruct (scan_raw_string b i 1) eqn:Hj; [|done|done]. intros [= <-]. by apply raw_shape. }
  destruct ((x =? 102) && next_is_hash_quote b (i + 1)) eqn:Hf; [|done].
  apply andb_true_iff in Hf as [->%Z.eqb_eq Hf].
  destruct (scan_f_string b i) eqn:Hj; [|done|done]. intros [= <-]. by apply f_shape.
Qed.

Lemma string_like_ends i :
  (i < length b)%nat -> exists r, scan_string_like b i = Ok r /\
    match r with Some e => (S i <= e)%nat /\ bd b e | None => True end.
Proof.
  intros Hlt. destruct (lookup_lt_is_Some_2 b i Hlt) as [x Hx]. unfold scan_string_like.
  rewrite (lex_index_ok b i x Hx). cbn [bind]. destruct (Z.eqb_spec x 34) as [->|].
  { destruct (normal_string_ends b Hnn Hv i Hx) as (e & -> & He). by exists (Some e). }
  destruct ((x =? 114) && _) eqn:Hr.
  { apply andb_true_iff in Hr as [_ Hr].
    destruct (raw_string_ends b Hnn Hv i) as (e & -> & He); [lia|done|]. by exists (Some e). }
  destruct ((x =? 102) && _) eqn:Hf; [|by exists None]. apply andb_true_iff in Hf as [_ Hf].
  destruct (f_string_ends b Hnn Hv i) as (e & -> & He); [lia|done|]. by exists (Some e).
Qed.

(** [m] scans a token at [i]. *)
Definition token_at (i : nat) (m : outcome unit (SyntaxKind * nat)) : Prop :=
  exists k e t, m = Ok (k, e) /\ spans b i e t /\ t <> [] /\ bd b e /\ shape k t (drop e b).

Lemma ascii_token i k e t :
  bd b i -> spans b i e t -> t <> [] -> Forall (fun x => x < 128) t -> shape k t (drop e b) ->
  token_at i (Ok (k, e)).
Proof.
  intros Hi Hs Hne Ht Hsh. exists k, e, t. split_and!; [done|done|done| |done].
  destruct Hs as (-> & _ & Hd). apply (bd_app b Hnn i t _ Hi Hd). by apply ascii_codes_valid.
Qed.

Lemma whitespace_token i x :
  bd b i -> b !! i = Some x -> is_whitespace_byte x = true ->
  token_at i (Ok (WHITESPACE, skip is_whitespace_byte b (i + 1))).
Proof.
  intros Hi Hx Hw. pose proof (lookup_lt_Some _ _ _ Hx).
  destruct (spans_skip is_whitespace_byte b (i + 1)) as (u & Hs & Hu & _); [lia|].
  assert (Forall (fun x => is_whitespace_byte x = true) ([x] ++ u)) as Hall by (by constructor).
  apply (ascii_token i _ _ ([x] ++ u)); [done| |done| |].
  - eapply spans_app; [by apply spans_byte|done].
  - eapply Forall_impl; [exact Hall|]. unfold is_whitespace_byte. lia.
  - split; [done|]. apply stops_skip.
Qed.

Lemma line_comment_token i :
  b !! i = Some 47 -> b !! (i + 1)%nat = Some 47 -> token_at i (Ok (LINE_COMMENT, scan_line_comment b i)).
Proof.
  intros Hx Hy. pose proof (lookup_lt_Some _ _ _ Hy).
  destruct (spans_skip (fun b => negb (b =? 10)) b (i + 2)) as (u & Hs & Hu & _); [lia|].
  exists LINE_COMMENT, (scan_line_comment b i), ([47] ++ [47] ++ u).
  split_and!; [done| |done|apply line_comment_ends; (done || lia)|].
  - eapply spans_app; [by apply spans_byte|]. eapply spans_app; [by apply spans_byte|].
    by replace (i + 1 + 1)%nat with (i + 2)%nat by lia.
  - exists u. split_and!; [done| |].
    + intros Hin. rewrite Forall_forall in Hu. by apply Hu in Hin.
    + pose proof (stops_skip (fun b => negb (b =? 10)) b (i + 2)) as Hst. unfold scan_line_comment.
      destruct (drop _ b) as [|z r]; [by left|]. right. simpl in Hst.
      apply negb_false_iff, Z.eqb_eq in Hst. subst. by eexists.
Qed.

Lemma block_comment_token i :
  b !! i = Some 47 -> b !! (i + 1)%nat = Some 42 -> token_at i (Ok (BLOCK_COMMENT, scan_block_comment b i)).
Proof.
  intros Hx Hy. pose proof (lookup_lt_Some _ _ _ Hy).
  destruct (block_comment_ends b Hnn Hv i) as [Hge Hb]; [lia|]. pose proof (proj1 Hb).
  set (e := scan_block_comment b i) in *.
  exists BLOCK_COMMENT, e, ([47] ++ [42] ++ take (e - (i + 2)) (drop (i + 2) b)).
  split_and!; [done| |done|done|].
  - eapply spans_app; [by apply spans_byte|]. eapply spans_app; [by apply spans_byte|].
    replace (i + 1 + 1)%nat with (i + 2)%nat by lia. apply spans_cut. lia.
  - eexists. split; [done|]. unfold e, scan_block_comment. rewrite close_comment_find.
    destruct (find_bytes (lit "*/") (drop (i + 2) b)) as [k|] eqn:Hf.
    + left. replace (i + 2 + k + 2 - (i + 2))%nat with (k + length (lit "*/"))%nat by (simpl; lia).
      rewrite (find_bytes_take (lit "*/") _ _ ltac:(done) Hf). f_equal.
      apply find_bytes_spec in Hf as [_ [r Hr]]. apply (f_equal length) in Hr.
      rewrite length_drop, length_app in Hr. rewrite length_take. simpl in *. lia.
    + right. split; [apply drop_all|]. by rewrite take_ge by (rewrite length_drop; lia).
Qed.

Lemma ident_token i x :
  bd b i -> b !! i = Some x -> (x =? 95) && negb (get_is is_ident_continue b (i + 1)) = false ->
  is_ident_start x = true -> token_at i (Ok (IDENT, scan_ident b i)).
Proof.
  intros Hi Hx Hbare Hst. pose proof (lookup_lt_Some _ _ _ Hx).
  destruct (spans_skip is_ident_continue b (i + 1)) as (u & Hs & Hu & Hlen); [lia|].
  apply (ascii_token i _ _ ([x] ++ u)); [done|eapply spans_app; [by apply spans_byte|done]|done| |].
  - constructor; [unfold is_ident_start, is_ascii_alphabetic in Hst; lia|].
    eapply Forall_impl; [exact Hu|]. unfold is_ident_continue, is_ascii_alphabetic, is_ascii_digit. lia.
  - exists x, u. split_and!; [done|done| |done|apply stops_skip]. intros [= -> ->].
    apply andb_false_iff in Hbare as [?|Hg]; [done|]. apply negb_false_iff in Hg.
    apply get_is_true in Hg as (y & Hy & Hyc). rewrite (drop_S b y _ Hy) in Hlen. simpl in Hlen.
    by rewrite Hyc in Hlen.
Qed.

Lemma underscore_token i :
  bd b i -> b !! i = Some 95 -> get_is is_ident_continue b (i + 1) = false ->
  token_at i (Ok (UNDERSCORE, (i + 1)%nat)).
Proof.
  intros Hi Hx Hg. apply (ascii_token i _ _ [95]); [done|by apply spans_byte|done|by repeat constructor|].
  split; [done|]. unfold get_is in Hg. destruct (drop (i + 1) b) as [|y r] eqn:Hd; [done|]. simpl.
  assert (b !! (i + 1)%nat = Some y) as Hy by (rewrite <-(Nat.add_0_r (i + 1)), <-lookup_drop, Hd; done).
  by rewrite Hy in Hg.
Qed.

Lemma number_ascii t : number t -> Forall (fun x => x < 128) t.
Proof.
  assert (forall ds, digits is_ascii_digit ds -> Forall (fun x => x < 128) ds) as Hdig.
  { intros ds [_ Hds]. eapply Forall_impl; [exact Hds|]. unfold is_ascii_digit. lia. }
  intros [m p ds Hp Hds|ds f e Hds Hf He].
  - unfold radix_digit in Hp. constructor; [lia|]. constructor.
    { destruct (either 120 88 m) eqn:H1; [unfold either in H1; lia|].
      destruct (either 111 79 m) eqn:H2; [unfold either in H2; lia|].
      destruct (either 98 66 m) eqn:H3; [unfold either in H3; lia|done]. }
    eapply Forall_impl; [exact Hds|]. intros x Hx. clear Hds.
    destruct (either 120 88 m); [injection Hp as <-; unfold is_ascii_hexdigit, is_ascii_digit in Hx; lia|].
    destruct (either 111 79 m); [injection Hp as <-; unfold is_octal in Hx; lia|].
    destruct (either 98 66 m); [injection Hp as <-; unfold either in Hx; lia|done].
  - apply Forall_app. split; [by apply Hdig|]. apply Forall_app. split.
    + destruct Hf; [constructor|]. constructor; [lia|by apply Hdig].
    + destruct He as [|m sign ds' Hm Hs Hd]; [constructor|]. constructor; [unfold either in Hm; lia|].
      apply Forall_app. split; [|by apply Hdig].
      apply list_elem_of_In in Hs. simpl in Hs. destruct Hs as [<-|[<-|[<-|[]]]]; by repeat constructor.
Qed.

Lemma number_token i x :
  bd b i -> b !! i = Some x -> is_ascii_digit x = true -> token_at i (Ok (NUMBER, scan_number b i)).
Proof.
  intros Hi Hx Hd. destruct (number_spans b i) as (t & Hs & Ht); [unfold get_is; by rewrite Hx|].
  apply (ascii_token i _ _ t); [done|done| |by apply number_ascii|done].
  destruct Ht as [|ds f e [Hne _] _ _]; [done|]. by destruct ds.
Qed.

(** ** Operators and the fallback *)

Definition is_operator (k : SyntaxKind) : bool :=
  match k with
  | WHITESPACE | LINE_COMMENT | BLOCK_COMMENT | STRING | IDENT | UNDERSCORE | NUMBER | UNKNOWN => false
  | _ => true
  end.

Definition longest (t r : list Z) : Prop :=
  Forall (fun '(t', _) => prefix_of t' (t ++ r) = true -> (length t' <= length t)%nat)
    ((lit "//", LINE_COMMENT) :: (lit "/*", BLOCK_COMMENT) :: operators).

Lemma operator_shape k t r : (t, k) ∈ operators -> longest t r -> shape k t r.
Proof.
  intros Hin Hl. assert (is_operator k = true) as Hk.
  { assert (Forall (fun '(_, k) => is_operator k = true) operators) as Hall by (by repeat constructor).
    rewrite Forall_forall in Hall. apply (Hall _ Hin). }
  destruct k; try done; by split.
Qed.

Lemma operators_facts :
  Forall (fun '(t, _) => t <> [] /\ Forall (fun x => x < 128) t /\ (length t <= 3)%nat) operators.
Proof. repeat constructor; simpl; (done || lia). Qed.

Lemma operator_token i t k :
  bd b i -> spans b i (i + length t) t -> (t, k) ∈ operators -> longest t (drop (i + length t) b) ->
  token_at i (Ok (k, (i + length t)%nat)).
Proof.
  intros Hi Hs Hin Hl. pose proof operators_facts as Hall. rewrite Forall_forall in Hall.
  destruct (Hall _ Hin) as (Hne & Ha & _).
  apply (ascii_token i k _ t); [done|done|done|done|by apply operator_shape].
Qed.

(** [starts_with] of a two byte opener. *)
Lemma prefix_two i x v w :
  b !! i = Some x -> prefix_of [v; w] (drop i b) = (x =? v) && get_is (byte_is w) b (i + 1).
Proof.
  intros Hx. rewrite (drop_S b x i Hx). cbn [prefix_of]. rewrite (Z.eqb_sym v x). f_equal.
  unfold get_is. rewrite Nat.add_1_r. destruct (b !! S i) as [y|] eqn:Hy.
  - rewrite (drop_S b y (S i) Hy). rewrite andb_true_r. apply Z.eqb_sym.
  - by rewrite drop_ge by (by apply lookup_ge_None in Hy).
Qed.

Section Punctuation.
Context (i : nat) (x : Z).
Hypothesis Hi : bd b i.
Hypothesis Hx : b !! i = Some x.
Hypothesis Hline : (x =? 47) && get_is (byte_is 47) b (i + 1) = false.
Hypothesis Hblock : (x =? 47) && get_is (byte_is 42) b (i + 1) = false.

Lemma longest_intro t :
  spans b i (i + length t) t ->
  Forall (fun '(t', _) => prefix_of t' (drop i b) = true -> (length t' <= length t)%nat) operators ->
  longest t (drop (i + length t) b).
Proof.
  intros (_ & _ & Hd) Hall. unfold longest. rewrite <-Hd.
  constructor; [|constructor; [|done]]; change (lit "//") with [47; 47]; change (lit "/*") with [47; 42];
    rewrite (prefix_two i x _ _ Hx); [by rewrite Hline|by rewrite Hblock].
Qed.

Lemma ellipsis_token : starts_with b i (lit "...") = true -> token_at i (Ok (ELLIPSIS, (i + 3)%nat)).
Proof.
  intros Hs. apply spans_starts in Hs; [|apply Hi].
  apply (operator_token i (lit "...") ELLIPSIS Hi Hs); [apply list_elem_of_here|].
  apply longest_intro; [done|]. eapply Forall_impl; [apply operators_facts|]. intros [t k] (_ & _ & ?) _. done.
Qed.

Hypothesis Hdots : starts_with b i (lit "...") = false.

Lemma multi_token r : multi_char_op b i = Some r -> token_at i (Ok r).
Proof.
  unfold multi_char_op. destruct (find _ _) as [[t k]|] eqn:Hf; [|done]. intros [= <-].
  apply find_some in Hf as [Hin Hs]. apply list_elem_of_In in Hin. apply spans_starts in Hs; [|apply Hi].
  apply operator_token; [done|done| |].
  { apply list_elem_of_further, elem_of_app. by left. }
  assert (length t = 2%nat) as Hlen.
  { assert (Forall (fun '(t, _) => length t = 2%nat) MULTI_CHAR_OPS) as Hall by (by repeat constructor).
    rewrite Forall_forall in Hall. apply (Hall _ Hin). }
  apply longest_intro; [done|]. constructor.
  - rewrite <-starts_with_prefix by apply Hi. by rewrite Hdots.
  - rewrite Hlen. repeat constructor; simpl; lia.
Qed.

Lemma single_token k :
  multi_char_op b i = None -> single_char_kind x = Some k -> token_at i (Ok (k, (i + 1)%nat)).
Proof.
  unfold multi_char_op, single_char_kind. destruct (find _ MULTI_CHAR_OPS) as [[? ?]|] eqn:Hm; [done|].
  intros _. destruct (find _ single_char_kinds) as [[y k']|] eqn:Hf; [|done]. intros [= ->].
  apply find_some in Hf as [Hin Hy]. apply Z.eqb_eq in Hy. subst y. apply list_elem_of_In in Hin.
  apply (operator_token i [x] k Hi (spans_byte b i x Hx)).
  { apply list_elem_of_further, elem_of_app. right. apply list_elem_of_fmap. by exists (x, k). }
  apply longest_intro; [by apply spans_byte|]. constructor.
  { rewrite <-starts_with_prefix by apply Hi. by rewrite Hdots. }
  apply Forall_app. split; [|repeat constructor; simpl; lia].
  apply Forall_forall. intros [t k'] Hin' Hp. rewrite <-starts_with_prefix in Hp by apply Hi.
  apply list_elem_of_In in Hin'. pose proof (find_none _ _ Hm _ Hin') as Hno. simpl in Hno. congruence.
Qed.

Lemma single_ascii c : single_char_kind c <> None -> c < 128.
Proof.
  unfold single_char_kind. destruct (find _ _) as [[y k]|] eqn:Hf; [|done]. intros _.
  apply find_some in Hf as [Hin Hy]. apply Z.eqb_eq in Hy. subst y. apply list_elem_of_In in Hin.
  assert (Forall (fun '(x, _) => x < 128) single_char_kinds) as Hall by (repeat constructor; lia).
  rewrite Forall_forall in Hall. apply (Hall _ Hin).
Qed.

Lemma unknown_token :
  single_char_kind x = None -> token_at i (Ok (UNKNOWN, (i + utf8_codepoint_len x)%nat)).
Proof.
  intros Hn. destruct (char_spans i x Hi Hx) as (c & Hc & Hs & Hcx & _).
  exists UNKNOWN, (i + utf8_codepoint_len x)%nat, (utf8_encode c).
  split_and!; [done|done| |by apply bd_step|].
  - pose proof (encode_length c). intros He. rewrite He in *. simpl in *. lia.
  - exists c. split_and!; [done|done|]. destruct (single_char_kind c) as [k|] eqn:Hk; [|done].
    assert (c < 128) as Hlo by (apply single_ascii; congruence). rewrite (Hcx Hlo) in Hk. congruence.
Qed.
End Punctuation.

Lemma scan_one_token i : bd b i -> (i < length b)%nat -> token_at i (scan_one b i).
Proof.
  intros Hi Hlt. destruct (lookup_lt_is_Some_2 b i Hlt) as [x Hx]. unfold scan_one.
  rewrite (lex_index_ok b i x Hx). cbn [bind].
  destruct (is_whitespace_byte x) eqn:Hw; [by apply (whitespace_token i x)|].
  destruct ((x =? 47) && get_is (byte_is 47) b (i + 1)) eqn:Hline.
  { apply andb_true_iff in Hline as [->%Z.eqb_eq Hy%get_byte]. by apply line_comment_token. }
  destruct ((x =? 47) && get_is (byte_is 42) b (i + 1)) eqn:Hblock.
  { apply andb_true_iff in Hblock as [->%Z.eqb_eq Hy%get_byte]. by apply block_comment_token. }
  destruct (string_like_ends i Hlt) as (r & Hr & He). rewrite Hr. cbn [bind]. destruct r as [e|].
  { apply string_like_shape in Hr as (t & Hs & Ht). exists STRING, e, t. destruct He as [He Hb].
    split_and!; [done|done| |done|done]. intros ->. destruct Hs as (-> & _). simpl in He. lia. }
  destruct (starts_with b i (lit "...")) eqn:Hd; [by apply (ellipsis_token i x)|].
  destruct (multi_char_op b i) as [r|] eqn:Hm; [by apply (multi_token i x)|].
  destruct ((x =? 95) && negb _) eqn:Hu.
  { apply andb_true_iff in Hu as [->%Z.eqb_eq Hg%negb_true_iff]. by apply underscore_token. }
  destruct (is_ident_start x) eqn:Hs; [by apply (ident_token i x)|].
  destruct (is_ascii_digit x) eqn:Hdig; [by apply (number_token i x)|].
  destruct (single_char_kind x) as [k|] eqn:Hk; [by apply (single_token i x)|by apply unknown_token].
Qed.

Lemma lex_loop_lexed n : forall i out,
  bd b i -> (length b - i < n)%nat ->
  exists toks, lex_loop n b i out = Ok (out ++ toks) /\ lexed (drop i b) toks.
Proof.
  induction n as [|n IH]; intros i out Hi Hn; [lia|]. cbn [lex_loop].
  destruct (Nat.ltb_spec i (length b)) as [Hlt|Hge].
  2: { exists []. rewrite app_nil_r. split; [done|]. rewrite drop_ge by done. constructor. }
  destruct (scan_one_token i Hi Hlt) as (k & e & t & -> & Hs & Hne & Hb & Hsh). cbn [bind].
  pose proof Hs as (He & Hle & Hd). assert (0 < length t)%nat by (destruct t; [done|simpl; lia]).
  rewrite str_slice_ok by (done || lia). cbn [bind]. rewrite (spans_text b i e t Hs).
  destruct (IH e (out ++ [(k, t)]) Hb) as (toks & Ht & Hl); [lia|].
  exists ((k, t) :: toks). rewrite Ht, <-app_assoc. split; [done|]. rewrite Hd. by constructor.
Qed.
End Shapes.

(** ** Properties *)

Lemma lexed_concat s toks : lexed s toks -> concat (map snd toks) = s /\ Forall (fun '(_, t) => t <> []) toks.
Proof.
  induction 1 as [|k t r toks Ht _ _ [IH1 IH2]]; [done|]. simpl. rewrite IH1. split; [done|by constructor].
Qed.

Lemma lexed_leaf s toks : lexed s toks -> Forall (fun '(k, _) => is_token k = true) toks.
Proof.
  induction 1 as [|k t r toks Ht Hs _ IH]; [done|]. constructor; [|done].
  assert (Forall (fun '(_, k) => is_token k = true) operators) as Hops by (by repeat constructor).
  rewrite Forall_forall in Hops. destruct k; try (by vm_compute); destruct Hs as [Hs _]; apply (Hops _ Hs).
Qed.

Lemma lex_total s : is_str s = true -> exists toks, lex (lit s) = Ok toks /\ lexed (lit s) toks.
Proof.
  intros Hs. apply (lex_loop_lexed (lit s) (byte_codes_nonneg _) Hs (S (length (lit s))) 0 []);
    [by apply bd_zero|lia].
Qed.

(** The lexer is total and lossless: on every Rust string it returns (no slice is
    cut inside a character and every scanning loop ends), each lexeme is
    non-empty and of a leaf kind, and the lexemes in order concatenate to the
    source. *)
Theorem lex_lossless s :
  is_str s = true ->
  exists toks, lex (lit s) = Ok toks /\ concat (map snd toks) = lit s /\
    Forall (fun '(_, t) => t <> []) toks /\ Forall (fun '(k, _) => is_token k = true) toks.
Proof.
  intros Hs. destruct (lex_total s Hs) as (toks & Ht & Hl). exists toks. split; [done|].
  destruct (lexed_concat _ _ Hl) as [Hc Hn]. split_and!; [done|done|by eapply lexed_leaf].
Qed.

(** C16 Every token the lexer produces is what its kind says: white space and identifiers are
    maximal runs; comments and raw strings end at the first closing delimiter, plain strings at
    the first quote that is not escaped, f-strings at the first closing delimiter outside
    escapes and interpolations, or, when there is none, at the end of the source; numbers follow
    the literal grammar; an operator is the longest one that matches, and an unknown token is a
    single character. *)
Theorem lex_tokens_shaped s toks : is_str s = true -> lex (lit s) = Ok toks -> lexed (lit s) toks.
Proof.
  intros Hs Ht. destruct (lex_total s Hs) as (toks' & Ht' & Hl). congruence.
Qed.

Lemma lex_lossless_witness :
  is_str "a == 0x1F // z" = true /\ exists toks, lex (lit "a == 0x1F // z") = Ok toks /\
    concat (map snd toks) = lit "a == 0x1F // z".
Proof.
  split; [reflexivity|]. destruct (lex_lossless "a == 0x1F // z" eq_refl) as (toks & H1 & H2 & _).
  by exists toks.
Defined.

Lemma lex_tokens_shaped_witness :
  lexed (lit "a=>1") [(IDENT, lit "a"); (FAT_ARROW, lit "=>"); (NUMBER, lit "1")].
Proof. apply lex_tokens_shaped; reflexivity. Defined.
