(* ===== verification/NumberLit.v ===== *)
(** Numeric literals: [decode_number_text] of [crates/relon-parser/src/lex.rs], with
    the integer and float parsers of the standard library it calls, and its
    agreement with the scanner.

    A text is the list of its bytes; an [f64] is its bit pattern. *)

From Stdlib Require Import ZArith Lia Bool.
From coqutil Require Import Byte.
From stdpp Require Import base list strings.
From S2P Require Import Prelude Bytes Value Chars Lexer LexerFacts.
Local Open Scope Z_scope.
Local Open Scope abi_scope.

Import Lex.

Module Num.

(** [Expr::Int] and [Expr::Float] *)
Inductive Expr : Type := Int (i : Z) | Float (bits : Z).

Definition I64_MAX : Z := 2 ^ 63 - 1.
Definition U64_MAX : Z := 2 ^ 64 - 1.
Definition in_i64 (v : Z) : bool := (- 2 ^ 63 <=? v) && (v <=? I64_MAX).

Definition F64_INFINITY : Z := 2047 * 2 ^ 52.
Definition F64_NAN : Z := 2047 * 2 ^ 52 + 2 ^ 51.
Definition SIGN_BIT : Z := 2 ^ 63.

(** ** Integer parsing *)

(** [char::to_digit] on a byte *)
Definition to_digit (radix b : Z) : option Z :=
  let d := if (48 <=? b) && (b <=? 57) then b - 48
           else if (97 <=? b) && (b <=? 122) then b - 97 + 10
           else if (65 <=? b) && (b <=? 90) then b - 65 + 10
           else radix in
  if d <? radix then Some d else None.

Fixpoint digits_value (radix acc : Z) (ds : list Z) : option Z :=
  match ds with
  | [] => Some acc
  | b :: ds => match to_digit radix b with Some d => digits_value radix (acc * radix + d) ds | None => None end
  end.

(** A leading sign and the rest. *)
Definition split_sign (s : list Z) : Z * list Z :=
  match s with
  | c :: r => if c =? 43 then (1, r) else if c =? 45 then (-1, r) else (1, s)
  | [] => (1, s)
  end.

(** [u64::from_str_radix] and [i64::from_str_radix]: a sign, then digits; the
    accumulated value must stay in range. *)
Definition from_str_radix_u64 (s : list Z) (radix : Z) : option Z :=
  let ds := match s with c :: r => if c =? 43 then r else s | [] => s end in
  match ds, digits_value radix 0 ds with
  | _ :: _, Some v => if v <=? U64_MAX then Some v else None
  | _, _ => None
  end.

Definition from_str_radix_i64 (s : list Z) (radix : Z) : option Z :=
  let '(sign, ds) := split_sign s in
  match ds, digits_value radix 0 ds with
  | _ :: _, Some v => if in_i64 (sign * v) then Some (sign * v) else None
  | _, _ => None
  end.

(** [i64::checked_mul] *)
Definition checked_mul_i64 (a b : Z) : option Z := if in_i64 (a * b) then Some (a * b) else None.

(** ** Float parsing: [f64::from_str] *)

(** The double nearest to [num / den], ties to even. *)
Definition round_ratio (num den : Z) : Z :=
  if num =? 0 then 0 else
  let e := Z.log2 num - Z.log2 den in
  let below := if 0 <=? e then num <? den * 2 ^ e else num * 2 ^ (- e) <? den in
  let e := if below then e - 1 else e in
  let q := Z.max (e - 52) (-1074) in
  let '(n, d) := if 0 <=? q then (num, den * 2 ^ q) else (num * 2 ^ (- q), den) in
  let m := n / d in
  let r := n mod d in
  let m := if (d <? 2 * r) || (2 * r =? d) && Z.odd m then m + 1 else m in
  Z.min ((q + 1074) * 2 ^ 52 + m) F64_INFINITY.

Definition round_decimal (mant exp : Z) : Z :=
  if 0 <=? exp then round_ratio (mant * 10 ^ exp) 1 else round_ratio mant (10 ^ (- exp)).

Definition decimal_value (ds : list Z) : Z := foldl (fun v d => v * 10 + (d - 48)) 0 ds.

(** [parse_scientific]; the exponent saturates. *)
Definition parse_scientific (s : list Z) : option (Z * list Z) :=
  let '(sign, s) := split_sign s in
  let n := run is_ascii_digit s in
  match n with
  | O => None
  | _ =>
    let e := foldl (fun e d => if e <? 65536 then e * 10 + (d - 48) else e) 0 (take n s) in
    Some (sign * e, drop n s)
  end.

(** The optional fraction and exponent of [parse_number]. *)
Definition parse_fraction (s : list Z) : list Z * list Z :=
  match s with
  | c :: r => if c =? 46 then let n := run is_ascii_digit r in (take n r, drop n r) else ([], s)
  | [] => ([], s)
  end.

Definition parse_exponent (s : list Z) : option (Z * list Z) :=
  match s with
  | m :: r => if either 101 69 m then parse_scientific r else Some (0, s)
  | [] => Some (0, s)
  end.

(** [parse_number]: mantissa and decimal exponent of the whole text. *)
Definition parse_number (s : list Z) : option (Z * Z) :=
  let n1 := run is_ascii_digit s in
  let '(frac, rest) := parse_fraction (drop n1 s) in
  if Nat.eqb (n1 + length frac) 0 then None else
  let mant := decimal_value (take n1 s ++ frac) in
  match parse_exponent rest with
  | Some (e, []) => Some (mant, e - blen frac)
  | _ => None
  end.

Definition lower_case (b : Z) : Z := if (65 <=? b) && (b <=? 90) then b + 32 else b.

Definition parse_inf_nan (s : list Z) : option Z :=
  let s := map lower_case s in
  if bool_decide (s = lit "inf") || bool_decide (s = lit "infinity") then Some F64_INFINITY
  else if bool_decide (s = lit "nan") then Some F64_NAN else None.

Definition parse_f64 (s : list Z) : option Z :=
  match s with
  | [] => None
  | c :: r =>
    let '(sign, s) := if c =? 45 then (SIGN_BIT, r) else if c =? 43 then (0, r) else (0, s) in
    match s with
    | [] => None
    | _ =>
      match parse_number s with
      | Some (mant, exp) => Some (sign + round_decimal mant exp)
      | None => match parse_inf_nan s with Some v => Some (sign + v) | None => None end
      end
    end
  end.

(** [f * sign as f64] for [sign] one or minus one. *)
Definition f64_mul_sign (f sign : Z) : Z := if sign =? 1 then f else Z.lxor f SIGN_BIT.

(** ** [decode_number_text] *)

Definition strip_prefix (p s : list Z) : option (list Z) :=
  if prefix_of p s then Some (drop (length p) s) else None.

Definition contains (x : Z) (s : list Z) : bool := existsb (Z.eqb x) s.

Definition decode_hex (sign : Z) (hex : list Z) : option Expr :=
  if bool_decide (hex = []) || negb (forallb is_ascii_hexdigit hex) then None else
  match from_str_radix_u64 hex 16 with
  | None => None
  | Some v =>
    if 0 <=? sign then if v <=? I64_MAX then Some (Int v) else None
    else if I64_MAX + 1 <? v then None
    else if v =? I64_MAX + 1 then Some (Int (- 2 ^ 63))
    else Some (Int (- v))
  end.

(** The [0o] and [0b] arms. *)
Definition decode_radix (sign : Z) (payload : list Z) (radix : Z) : option Expr :=
  if bool_decide (payload = []) then None else
  match from_str_radix_i64 payload radix with
  | None => None
  | Some v => match checked_mul_i64 v sign with Some v => Some (Int v) | None => None end
  end.

Definition decode_number_text (text : list Z) : option Expr :=
  let '(sign, rest) := split_sign text in
  match strip_prefix (lit "0x") rest with Some hex => decode_hex sign hex | None =>
  match strip_prefix (lit "0o") rest with Some oct => decode_radix sign oct 8 | None =>
  match strip_prefix (lit "0b") rest with Some bin => decode_radix sign bin 2 | None =>
  if bool_decide (rest = lit "Infinity")
  then Some (Float (if sign =? 1 then F64_INFINITY else SIGN_BIT + F64_INFINITY)) else
  if bool_decide (rest = lit "NaN") then Some (Float F64_NAN) else
  if contains 46 rest || contains 101 rest || contains 69 rest then
    match parse_f64 rest with Some f => Some (Float (f64_mul_sign f sign)) | None => None end
  else
    match from_str_radix_i64 rest 10 with
    | None => None
    | Some i => match checked_mul_i64 i sign with Some v => Some (Int v) | None => None end
    end
  end end end.

Example decode_samples :
  decode_number_text (lit "1.5") = Some (Float 4609434218613702656) /\
  decode_number_text (lit "1e10") = Some (Float 4756540486875873280) /\
  decode_number_text (lit "-0.5") = Some (Float 13826050856027422720) /\
  decode_number_text (lit "-0x8000000000000000") = Some (Int (- 2 ^ 63)) /\
  decode_number_text (lit "0x8000000000000000") = None /\
  decode_number_text (lit "1e") = None /\ decode_number_text (lit "1_2") = None /\
  decode_number_text (lit "5e-324") = Some (Float 1) /\
  decode_number_text (lit "1.7976931348623157e308") = Some (Float 9218868437227405311) /\
  decode_number_text (lit "1e309") = Some (Float F64_INFINITY) /\
  decode_number_text (lit "0o-7") = Some (Int (-7)).
Proof. by vm_compute. Qed.
End Num.

Import Num.

(** ** Values of digit strings *)

(** The value a digit byte has in its radix. *)
Definition digit_of (b : Z) : Z :=
  if b <=? 57 then b - 48 else if b <=? 90 then b - 55 else b - 87.

Definition numeral (radix : Z) (ds : list Z) : Z := foldl (fun v d => v * radix + digit_of d) 0 ds.

Definition radix_of (m : Z) : Z := if either 120 88 m then 16 else if either 111 79 m then 8 else 2.

Lemma to_digit_ok radix p b :
  (radix, p) ∈ [(16, is_ascii_hexdigit); (8, is_octal); (2, either 48 49); (10, is_ascii_digit)] ->
  p b = true -> to_digit radix b = Some (digit_of b) /\ 0 <= digit_of b.
Proof.
  intros Hin Hp. apply list_elem_of_In in Hin. simpl in Hin.
  unfold to_digit, digit_of.
  destruct Hin as [[= <- <-]|[[= <- <-]|[[= <- <-]|[[= <- <-]|[]]]]];
    unfold is_ascii_hexdigit, is_ascii_digit, is_octal, either in Hp;
    destruct ((48 <=? b) && (b <=? 57)) eqn:?, ((97 <=? b) && (b <=? 122)) eqn:?, ((65 <=? b) && (b <=? 90)) eqn:?,
      (b <=? 57) eqn:?, (b <=? 90) eqn:?; cbv zeta; try (exfalso; lia);
    (rewrite (proj2 (Z.ltb_lt _ _)) by lia); split; (lia || (f_equal; lia)).
Qed.

Lemma digits_value_ok radix p ds acc :
  (radix, p) ∈ [(16, is_ascii_hexdigit); (8, is_octal); (2, either 48 49); (10, is_ascii_digit)] ->
  Forall (fun x => p x = true) ds -> 0 <= acc ->
  digits_value radix acc ds = Some (foldl (fun v d => v * radix + digit_of d) acc ds) /\
  0 <= foldl (fun v d => v * radix + digit_of d) acc ds.
Proof.
  intros Hin Hds. revert acc. induction Hds as [|x ds Hx _ IH]; intros acc Ha; [done|].
  destruct (to_digit_ok radix p x Hin Hx) as [Hd Hge]. simpl. rewrite Hd. apply IH.
  assert (0 <= radix).
  { apply list_elem_of_In in Hin. simpl in Hin. destruct Hin as [[= <- <-]|[[= <- <-]|[[= <- <-]|[[= <- <-]|[]]]]]; lia. }
  nia.
Qed.

(** ** Dispatch on the text *)

(** A text that starts with a digit has no sign. *)
Lemma unsigned_text x r : 48 <= x -> split_sign (x :: r) = (1, x :: r).
Proof. intros Hx. simpl. by rewrite (proj2 (Z.eqb_neq x 43)), (proj2 (Z.eqb_neq x 45)) by lia. Qed.

Lemma from_str_radix_digits radix p ds :
  (radix, p) ∈ [(16, is_ascii_hexdigit); (8, is_octal); (2, either 48 49); (10, is_ascii_digit)] ->
  digits p ds ->
  from_str_radix_i64 ds radix = (if numeral radix ds <=? I64_MAX then Some (numeral radix ds) else None) /\
  from_str_radix_u64 ds radix = (if numeral radix ds <=? U64_MAX then Some (numeral radix ds) else None) /\
  0 <= numeral radix ds.
Proof.
  intros Hin [Hne Hds]. destruct (digits_value_ok radix p ds 0 Hin Hds) as [Hv Hge]; [lia|].
  fold (numeral radix ds) in *. destruct ds as [|x ds]; [done|]. apply Forall_cons in Hds as [Hx _].
  assert (48 <= x) as Hd.
  { apply list_elem_of_In in Hin. simpl in Hin.
    destruct Hin as [[= <- <-]|[[= <- <-]|[[= <- <-]|[[= <- <-]|[]]]]];
      unfold is_ascii_hexdigit, is_octal, either, is_ascii_digit in Hx; lia. }
  unfold from_str_radix_i64, from_str_radix_u64. rewrite unsigned_text by done.
  rewrite (proj2 (Z.eqb_neq x 43)) by lia.
  rewrite Hv, Z.mul_1_l. unfold in_i64, I64_MAX in *. rewrite (proj2 (Z.leb_le (- 2 ^ 63) _)) by lia. done.
Qed.

(** The decoder's three arms for a text without radix prefix. *)
Lemma decode_unprefixed x r :
  48 <= x -> x < 73 -> head r ∉ [Some 120; Some 111; Some 98] ->
  decode_number_text (x :: r) =
  if contains 46 (x :: r) || contains 101 (x :: r) || contains 69 (x :: r) then
    match parse_f64 (x :: r) with Some f => Some (Float f) | None => None end
  else match from_str_radix_i64 (x :: r) 10 with
       | None => None
       | Some i => match checked_mul_i64 i 1 with Some v => Some (Int v) | None => None end
       end.
Proof.
  intros H1 H2 Hr. unfold decode_number_text. rewrite unsigned_text by done.
  assert (forall m, Some m ∈ [Some 120; Some 111; Some 98] -> prefix_of [48; m] (x :: r) = false) as Hp.
  { intros m Hm. destruct r as [|y r]; [apply andb_false_r|]. simpl. apply andb_false_iff. right.
    rewrite andb_true_r. apply Z.eqb_neq. intros <-. apply Hr. done. }
  unfold strip_prefix. change (lit "0x") with [48; 120]. change (lit "0o") with [48; 111].
  change (lit "0b") with [48; 98].
  rewrite !Hp by (apply list_elem_of_In; simpl; tauto).
  change (lit "Infinity") with (73 :: lit "nfinity"). change (lit "NaN") with (78 :: lit "aN").
  rewrite !bool_decide_eq_false_2 by (intros [= He _]; lia).
  unfold f64_mul_sign. done.
Qed.

Lemma checked_mul_one i : in_i64 i = true -> checked_mul_i64 i 1 = Some i.
Proof. unfold checked_mul_i64. rewrite Z.mul_1_r. by intros ->. Qed.

Lemma decode_decimal ds :
  digits is_ascii_digit ds ->
  decode_number_text ds = if numeral 10 ds <=? I64_MAX then Some (Int (numeral 10 ds)) else None.
Proof.
  intros Hds. destruct (from_str_radix_digits 10 is_ascii_digit ds) as (Hi & _ & Hge);
    [apply list_elem_of_In; simpl; tauto|done|]. destruct Hds as [Hne Hds].
  destruct ds as [|x ds]; [done|].
  assert (forall y, y ∈ x :: ds -> 48 <= y <= 57) as Hall.
  { intros y Hy. rewrite Forall_forall in Hds. specialize (Hds y Hy). unfold is_ascii_digit in Hds. lia. }
  pose proof (Hall x (list_elem_of_here _ _)).
  rewrite decode_unprefixed; [|lia|lia|].
  - assert (forall v, v < 48 \/ 57 < v -> contains v (x :: ds) = false) as Hc.
    { intros v Hv. unfold contains. apply not_true_iff_false. intros (y & Hy & He)%existsb_exists.
      apply Z.eqb_eq in He. subst. apply list_elem_of_In, Hall in Hy. lia. }
    rewrite !Hc by lia. cbn [orb]. rewrite Hi. destruct (_ <=? I64_MAX) eqn:Hm; [|done].
    rewrite checked_mul_one; [done|]. unfold in_i64. rewrite Hm, andb_true_r. apply Z.leb_le. lia.
  - destruct ds as [|y ds]; simpl.
    + intros Hin%list_elem_of_In. simpl in Hin. intuition discriminate.
    + pose proof (Hall y ltac:(apply list_elem_of_further, list_elem_of_here)).
      intros Hin%list_elem_of_In. simpl in Hin. destruct Hin as [[= <-]|[[= <-]|[[= <-]|[]]]]; lia.
Qed.

(** The texts the lexer produces for a radix marker. *)
Definition lower_marker (m : Z) : bool := (m =? 120) || (m =? 111) || (m =? 98).

Lemma decode_lower m p ds :
  radix_digit m = Some p -> lower_marker m = true -> digits p ds ->
  decode_number_text (48 :: m :: ds) =
  if numeral (radix_of m) ds <=? I64_MAX then Some (Int (numeral (radix_of m) ds)) else None.
Proof.
  intros Hp Hm Hds. unfold lower_marker in Hm.
  assert (forall radix, (radix, p) ∈ [(16, is_ascii_hexdigit); (8, is_octal); (2, either 48 49); (10, is_ascii_digit)] ->
    decode_radix 1 ds radix = if numeral radix ds <=? I64_MAX then Some (Int (numeral radix ds)) else None) as Hradix.
  { intros radix Hin. destruct (from_str_radix_digits radix p ds Hin Hds) as (Hi & _ & Hge).
    unfold decode_radix. rewrite bool_decide_eq_false_2 by apply Hds. rewrite Hi.
    destruct (_ <=? I64_MAX) eqn:Hle; [|done]. rewrite checked_mul_one; [done|].
    unfold in_i64. rewrite Hle, andb_true_r. apply Z.leb_le. lia. }
  assert (m = 120 \/ m = 111 \/ m = 98) as [->|[->| ->]] by lia; injection Hp as <-.
  - change (decode_hex 1 ds = if numeral 16 ds <=? I64_MAX then Some (Int (numeral 16 ds)) else None).
    destruct (from_str_radix_digits 16 is_ascii_hexdigit ds) as (_ & Hu & Hge);
      [apply list_elem_of_In; simpl; tauto|done|].
    unfold decode_hex. rewrite bool_decide_eq_false_2 by apply Hds. rewrite Hu.
    rewrite (proj2 (forallb_forall _ _)); [|intros x Hx; destruct Hds as [_ Hds]; rewrite Forall_forall in Hds;
      by apply Hds, list_elem_of_In]. cbn [negb orb].
    destruct (_ <=? U64_MAX) eqn:H64; [done|]. unfold U64_MAX, I64_MAX in *.
    rewrite (proj2 (Z.leb_gt _ _)) by lia. done.
  - apply (Hradix 8). apply list_elem_of_In. simpl. tauto.
  - apply (Hradix 2). apply list_elem_of_In. simpl. tauto.
Qed.

Lemma decode_upper m p ds :
  radix_digit m = Some p -> lower_marker m = false -> decode_number_text (48 :: m :: ds) = None.
Proof.
  intros Hp Hm. unfold lower_marker in Hm.
  assert (m = 88 \/ m = 79 \/ m = 66) as Hcase.
  { unfold radix_digit, either in Hp.
    destruct ((m =? 120) || (m =? 88)) eqn:H1; [lia|]. destruct ((m =? 111) || (m =? 79)) eqn:H2; [lia|].
    destruct ((m =? 98) || (m =? 66)) eqn:H3; [lia|done]. }
  rewrite decode_unprefixed; [|lia|lia|simpl; intros Hin%list_elem_of_In; simpl in Hin;
    destruct Hin as [[= <-]|[[= <-]|[[= <-]|[]]]]; lia].
  assert (parse_inf_nan (48 :: m :: ds) = None) as Hinf.
  { unfold parse_inf_nan. cbn [map]. change (lower_case 48) with 48.
    by rewrite !bool_decide_eq_false_2 by (intros He; discriminate He). }
  assert (parse_f64 (48 :: m :: ds) = None) as Hf.
  { unfold parse_f64. cbn [Z.eqb Pos.eqb]. rewrite Hinf. destruct Hcase as [->|[->| ->]]; done. }
  assert (from_str_radix_i64 (48 :: m :: ds) 10 = None) as Hi by (by destruct Hcase as [->|[->| ->]]).
  rewrite Hf, Hi. by destruct (contains 46 _ || contains 101 _ || contains 69 _).
Qed.

Lemma decode_empty m : decode_number_text [48; m] = None \/ lower_marker m = false.
Proof.
  destruct (lower_marker m) eqn:Hm; [left|by right]. unfold lower_marker in Hm.
  assert (m = 120 \/ m = 111 \/ m = 98) as [->|[->| ->]] by lia; done.
Qed.

(** ** Floats *)

Lemma run_app p ds r : Forall (fun x => p x = true) ds -> stops p r -> run p (ds ++ r) = length ds.
Proof.
  intros Hds Hr. induction Hds as [|x ds Hx _ IH]; simpl.
  - destruct r as [|y r]; [done|]. simpl in *. by rewrite Hr.
  - by rewrite Hx, IH.
Qed.

Lemma parse_scientific_ok sign ds :
  sign ∈ [[]; [43]; [45]] -> digits is_ascii_digit ds ->
  exists e, parse_scientific (sign ++ ds) = Some (e, []).
Proof.
  intros Hs [Hne Hds].
  assert (exists v, split_sign (sign ++ ds) = (v, ds)) as [v Hv].
  { destruct ds as [|x ds]; [done|]. apply Forall_cons in Hds as [Hx _].
    apply list_elem_of_In in Hs. simpl in Hs. destruct Hs as [<-|[<-|[<-|[]]]]; [|by exists 1|by exists (-1)].
    exists 1. apply unsigned_text. unfold is_ascii_digit in Hx. lia. }
  unfold parse_scientific. rewrite Hv.
  assert (run is_ascii_digit ds = length ds) as Hrun.
  { rewrite <-(app_nil_r ds) at 1. by apply run_app. }
  rewrite Hrun, drop_all. destruct ds as [|x ds]; [done|]. cbn [length]. by eexists.
Qed.

Lemma exponent_parsed e : exponent e -> exists v, parse_exponent e = Some (v, []).
Proof.
  intros [|m sign ds Hm Hs Hd]; [by exists 0|]. simpl. rewrite Hm. by apply parse_scientific_ok.
Qed.

Lemma exponent_stops e : exponent e -> stops is_ascii_digit e /\ head e <> Some 46.
Proof.
  intros [|m sign ds Hm _ _]; [done|]. simpl. unfold either in Hm. unfold is_ascii_digit.
  split; [lia|]. intros [= ->]. lia.
Qed.

Lemma decimal_value_nonneg ds : Forall (fun x => is_ascii_digit x = true) ds -> 0 <= decimal_value ds.
Proof.
  intros Hds. unfold decimal_value.
  assert (forall acc, 0 <= acc -> 0 <= foldl (fun v d => v * 10 + (d - 48)) acc ds) as H; [|by apply H].
  induction Hds as [|x ds Hx _ IH]; intros acc Ha; [done|]. simpl. apply IH. unfold is_ascii_digit in Hx. lia.
Qed.

Lemma parse_number_ok ds f e :
  digits is_ascii_digit ds -> fraction f -> exponent e ->
  exists mant exp, parse_number (ds ++ f ++ e) = Some (mant, exp) /\ 0 <= mant.
Proof.
  intros [Hne Hds] Hf He. destruct (exponent_stops e He) as [Hst Hhd].
  destruct (exponent_parsed e He) as [v Hv].
  assert (stops is_ascii_digit (f ++ e)) as Hfe by (by destruct Hf).
  unfold parse_number. rewrite run_app by done. rewrite drop_app_length, take_app_length.
  destruct Hf as [|fs [Hfne Hfs]]; cbn [app].
  - assert (parse_fraction e = ([], e)) as ->.
    { destruct e as [|c r]; [done|]. simpl. rewrite (proj2 (Z.eqb_neq c 46)); [done|]. intros ->. by apply Hhd. }
    rewrite Nat.add_0_r. destruct (Nat.eqb_spec (length ds) 0) as [Hz|_]; [by destruct ds|]. rewrite Hv.
    eexists _, _. split; [done|]. rewrite app_nil_r. by apply decimal_value_nonneg.
  - cbn [parse_fraction]. rewrite Z.eqb_refl. rewrite run_app, take_app_length, drop_app_length by done.
    destruct (Nat.eqb_spec (length ds + length fs) 0) as [Hz|_]; [destruct ds; simpl in Hz; [done|lia]|].
    rewrite Hv. eexists _, _. split; [done|]. apply decimal_value_nonneg. by apply Forall_app.
Qed.

Lemma round_ratio_range num den : 0 <= num -> 0 < den -> 0 <= round_ratio num den <= F64_INFINITY.
Proof.
  intros Hn Hd. unfold round_ratio. destruct (num =? 0); [unfold F64_INFINITY; lia|]. cbv zeta.
  match goal with |- context [Z.max (?e - 52) (-1074)] =>
    assert (0 <= Z.max (e - 52) (-1074) + 1074) as Hq by lia; set (q := Z.max (e - 52) (-1074)) in *; clearbody q
  end.
  assert (exists n d, (if 0 <=? q then (num, den * 2 ^ q) else (num * 2 ^ (- q), den)) = (n, d) /\ 0 <= n /\ 0 < d)
    as (n & d & -> & H1 & H2).
  { destruct (0 <=? q) eqn:Hc; zb; eexists _, _; (split; [reflexivity|]);
      [pose proof (Z.pow_pos_nonneg 2 q)|pose proof (Z.pow_pos_nonneg 2 (- q))]; nia. }
  pose proof (Z.div_pos n d H1 H2) as Hm. split; [|lia].
  apply Z.min_glb; [|unfold F64_INFINITY; lia]. apply Z.add_nonneg_nonneg; [lia|].
  destruct (_ || _); lia.
Qed.

Lemma round_decimal_range mant exp : 0 <= mant -> 0 <= round_decimal mant exp <= F64_INFINITY.
Proof.
  intros Hm. unfold round_decimal. destruct (0 <=? exp) eqn:He; zb; apply round_ratio_range;
    solve [lia|apply Z.pow_pos_nonneg; lia|pose proof (Z.pow_pos_nonneg 10 exp); nia].
Qed.

Lemma decode_float ds f e :
  digits is_ascii_digit ds -> fraction f -> exponent e -> f ++ e <> [] ->
  exists bits, decode_number_text (ds ++ f ++ e) = Some (Float bits) /\ 0 <= bits <= F64_INFINITY.
Proof.
  intros Hds Hf He Hne. destruct (parse_number_ok ds f e Hds Hf He) as (mant & exp & Hp & Hm).
  exists (round_decimal mant exp). split; [|by apply round_decimal_range].
  destruct Hds as [Hdne Hds]. destruct ds as [|x ds]; [done|]. apply Forall_cons in Hds as [Hx Hds].
  assert (48 <= x <= 57) as Hr by (unfold is_ascii_digit in Hx; lia). cbn [app] in *.
  rewrite decode_unprefixed; [|lia|lia|].
  - assert (forall v r, (f ++ e) = v :: r -> contains v (x :: ds ++ f ++ e) = true) as Hc.
    { intros v r Hv. unfold contains. apply existsb_exists. exists v. rewrite Z.eqb_refl. split; [|done].
      right. apply in_or_app. right. rewrite Hv. by left. }
    assert (contains 46 (x :: ds ++ f ++ e) || contains 101 (x :: ds ++ f ++ e) || contains 69 (x :: ds ++ f ++ e)
      = true) as ->.
    { destruct Hf as [|fs Hfs]; [|by rewrite (Hc 46 (fs ++ e) eq_refl)].
      destruct He as [|m sign es Hme _ _]; [done|].
      unfold either in Hme. apply orb_true_iff in Hme as [->%Z.eqb_eq| ->%Z.eqb_eq];
        rewrite (Hc _ _ eq_refl); by rewrite ?orb_true_r. }
    unfold parse_f64. rewrite (proj2 (Z.eqb_neq x 45)), (proj2 (Z.eqb_neq x 43)) by lia. by rewrite Hp.
  - intros Hin. assert (exists y, head (ds ++ f ++ e) = Some y /\ y ∈ [120; 111; 98]) as (y & Hy & Hin').
    { apply list_elem_of_In in Hin. simpl in Hin. destruct Hin as [<-|[<-|[<-|[]]]];
        eexists; (split; [reflexivity|]); apply list_elem_of_In; simpl; tauto. }
    assert (y < 102 /\ y <> 98) as [Hy1 Hy2].
    { destruct Hds as [|z ds Hz _]; simpl in Hy; [|injection Hy as ->; unfold is_ascii_digit in Hz; lia].
      destruct Hf as [|fs Hfs]; simpl in Hy; [|injection Hy as <-; lia].
      destruct He as [|m sign es Hme _ _]; [done|]. injection Hy as ->. unfold either in Hme. lia. }
    apply list_elem_of_In in Hin'. simpl in Hin'. lia.
Qed.

(** ** Properties *)

(** What a NUMBER token decodes to. *)
Inductive decoded : list Z -> option Expr -> Prop :=
| dec_radix m p ds :
    radix_digit m = Some p -> lower_marker m = true -> digits p ds ->
    decoded (48 :: m :: ds)
      (if numeral (radix_of m) ds <=? I64_MAX then Some (Int (numeral (radix_of m) ds)) else None)
| dec_bad_radix m p ds :
    radix_digit m = Some p -> lower_marker m = false \/ ds = [] -> decoded (48 :: m :: ds) None
| dec_decimal ds :
    digits is_ascii_digit ds ->
    decoded ds (if numeral 10 ds <=? I64_MAX then Some (Int (numeral 10 ds)) else None)
| dec_float ds f e bits :
    digits is_ascii_digit ds -> fraction f -> exponent e -> f ++ e <> [] -> 0 <= bits <= F64_INFINITY ->
    decoded (ds ++ f ++ e) (Some (Float bits)).

Lemma number_decoded t : number t -> decoded t (decode_number_text t).
Proof.
  intros [m p ds Hp Hds|ds f e Hds Hf He].
  - destruct (lower_marker m) eqn:Hm.
    + destruct ds as [|x ds].
      * destruct (decode_empty m) as [->|?]; [|congruence]. by apply (dec_bad_radix m p); [|right].
      * rewrite (decode_lower m p) by done. by apply (dec_radix m p).
    + rewrite (decode_upper m p ds Hp Hm). by apply (dec_bad_radix m p); [|left].
  - destruct (decide (f ++ e = [])) as [Hnil|Hne].
    + rewrite Hnil, app_nil_r. rewrite decode_decimal by done. by constructor.
    + destruct (decode_float ds f e Hds Hf He Hne) as (bits & -> & Hb). by constructor.
Qed.

Lemma lexed_number s toks t : lexed s toks -> (NUMBER, t) ∈ toks -> number t.
Proof.
  induction 1 as [|k t' r toks _ Hs _ IH]; intros Hin; [by apply elem_of_nil in Hin|].
  apply elem_of_cons in Hin as [[= <- <-]|Hin]; [done|by apply IH].
Qed.

(** C17 Scanning and decoding of numeric literals agree: every NUMBER token of a source
    decodes to the value of its digits in its radix, or to a float when it has a
    fraction or an exponent; it is rejected only for an upper-case or empty radix
    prefix or a value above the largest 64-bit integer. *)
Theorem scanned_numbers_decode s toks t :
  is_str s = true -> lex (lit s) = Ok toks -> (NUMBER, t) ∈ toks -> decoded t (decode_number_text t).
Proof.
  intros Hs Ht Hin. apply number_decoded, (lexed_number (lit s) toks); [|done].
  destruct (lex_total s Hs) as (toks' & Ht' & Hl). congruence.
Qed.

Lemma scanned_numbers_decode_witness : decoded (lit "0x1F") (Some (Int 31)).
Proof.
  apply (scanned_numbers_decode "a 0x1F" [(IDENT, lit "a"); (WHITESPACE, lit " "); (NUMBER, lit "0x1F")]);
    [reflexivity|reflexivity|]. apply list_elem_of_In. simpl. tauto.
Defined.
