(* ===== verification/Arith.v ===== *)
(** Numeric operators of the tree-walking evaluator: the arithmetic, division,
    comparison and unary operators of [crates/relon-evaluator/src/arithmetic.rs]
    on evaluated operands, and [Value::is_truthy].

    An [f64] is its bit pattern.  Its arithmetic is the specification of
    IEEE-754 binary64 of the standard library; a NaN result is the canonical
    quiet NaN, since every NaN is equal under [OrderedFloat].  A source range is
    an abstract value carried into the errors. *)

From Stdlib Require Import ZArith Lia Bool SpecFloat.
From coqutil Require Import Byte.
From stdpp Require Import base list strings.
From S2P Require Import Prelude Bytes SchemaCanonical Value WriteFacts Lexer NumberLit.
Local Open Scope Z_scope.
Local Open Scope abi_scope.

Module Arith.

(** ** Binary64 *)

Definition f64_sign (bits : Z) : bool := 2 ^ 63 <=? bits.
Definition f64_exponent (bits : Z) : Z := (bits / 2 ^ 52) mod 2048.
Definition f64_fraction (bits : Z) : Z := bits mod 2 ^ 52.
Definition f64_is_nan (bits : Z) : bool := (f64_exponent bits =? 2047) && negb (f64_fraction bits =? 0).

Definition to_spec (bits : Z) : spec_float :=
  let s := f64_sign bits in
  let e := f64_exponent bits in
  let m := f64_fraction bits in
  if e =? 2047 then if m =? 0 then S754_infinity s else S754_nan
  else
    let '(m, e) := if e =? 0 then (m, -1074) else (m + 2 ^ 52, e - 1075) in
    match m with
    | Zpos p => S754_finite s p e
    | _ => S754_zero s
    end.

Definition of_spec (f : spec_float) : Z :=
  let sign (s : bool) := if s then 2 ^ 63 else 0 in
  match f with
  | S754_zero s => sign s
  | S754_infinity s => sign s + Num.F64_INFINITY
  | S754_nan => Num.F64_NAN
  | S754_finite s m e =>
      sign s + (if Zpos m <? 2 ^ 52 then Zpos m else (e + 1074) * 2 ^ 52 + Zpos m)
  end.

Definition f64_op (op : spec_float -> spec_float -> spec_float) (a b : Z) : Z :=
  of_spec (op (to_spec a) (to_spec b)).

Definition f64_add := f64_op (SFadd 53 1024).
Definition f64_sub := f64_op (SFsub 53 1024).
Definition f64_mul := f64_op (SFmul 53 1024).
Definition f64_div := f64_op (SFdiv 53 1024).

(** [%] on [f64]: the remainder of the truncated quotient, which is exact. *)
Definition spec_rem (x y : spec_float) : spec_float :=
  match x, y with
  | S754_nan, _ | _, S754_nan | S754_infinity _, _ | _, S754_zero _ => S754_nan
  | _, S754_infinity _ | S754_zero _, _ => x
  | S754_finite sx mx ex, S754_finite _ my ey =>
      let e := Z.min ex ey in
      let r := (Zpos mx * 2 ^ (ex - e)) mod (Zpos my * 2 ^ (ey - e)) in
      binary_normalize 53 1024 (if sx then - r else r) e sx
  end.

Definition f64_rem := f64_op spec_rem.

(** Numeric order of two doubles, by the order of their bit patterns; [None] with
    a NaN. *)
Definition f64_key (bits : Z) : Z := if f64_sign bits then - (bits - 2 ^ 63) else bits.
Definition f64_compare (a b : Z) : option comparison :=
  if f64_is_nan a || f64_is_nan b then None else Some (f64_key a ?= f64_key b).

Definition f64_lt (a b : Z) : bool := match f64_compare a b with Some Lt => true | _ => false end.
Definition f64_le (a b : Z) : bool := match f64_compare a b with Some Lt | Some Eq => true | _ => false end.
Definition f64_eq (a b : Z) : bool := match f64_compare a b with Some Eq => true | _ => false end.

(** [-f] *)
Definition f64_neg (bits : Z) : Z := if f64_sign bits then bits - 2 ^ 63 else bits + 2 ^ 63.

(** ** 64-bit integers *)

Definition checked (v : Z) : option Z := if Num.in_i64 v then Some v else None.
Definition checked_div (a b : Z) : option Z := if b =? 0 then None else checked (Z.quot a b).
(** [i64::MIN % -1] overflows as well. *)
Definition checked_rem (a b : Z) : option Z :=
  if (b =? 0) || ((a =? - 2 ^ 63) && (b =? -1)) then None else Some (Z.rem a b).

(** ** Operators *)

Inductive Operator : Type :=
| Add | Sub | Mul | Div | Mod | Eq | Ne | Lt | Gt | Le | Ge | And | Or | Not | Pipe | Concat.

Section Ops.
Context {H : HostTypes} {TokenRange : Type}.

Inductive RuntimeError : Type :=
| TypeMismatch (expected found : string) (range : TokenRange)
| DivisionByZero (range : TokenRange)
| NumericOverflow (range : TokenRange)
| UnsupportedOperator (op : Operator) (range : TokenRange).

Inductive NumericValue : Type := NInt (i : Z) | NFloat (bits : Z).

Definition as_f64 (v : NumericValue) : Z :=
  match v with NInt value => i64_as_f64 value | NFloat value => value end.

Definition expect_number (value : Value) (range : TokenRange) : outcome RuntimeError NumericValue :=
  match value with
  | VInt v => Ok (NInt v)
  | VFloat v => Ok (NFloat v)
  | _ => Err (TypeMismatch "Number" (type_name value) range)
  end.

Definition or_overflow (r : option Z) (range : TokenRange) : outcome RuntimeError Value :=
  match r with Some v => Ok (VInt v) | None => Err (NumericOverflow range) end.

Definition eval_numeric_arithmetic (op : Operator) (range : TokenRange) (left : Value)
    (left_range : TokenRange) (right : Value) (right_range : TokenRange) : outcome RuntimeError Value :=
  let* left := expect_number left left_range in
  let* right := expect_number right right_range in
  match op, left, right with
  | Add, NInt a, NInt b => or_overflow (checked (a + b)) range
  | Sub, NInt a, NInt b => or_overflow (checked (a - b)) range
  | Mul, NInt a, NInt b => or_overflow (checked (a * b)) range
  | Add, a, b => Ok (VFloat (f64_add (as_f64 a) (as_f64 b)))
  | Sub, a, b => Ok (VFloat (f64_sub (as_f64 a) (as_f64 b)))
  | Mul, a, b => Ok (VFloat (f64_mul (as_f64 a) (as_f64 b)))
  | _, _, _ => Abort
  end.

Definition eval_numeric_division (op : Operator) (range : TokenRange) (left : Value)
    (left_range : TokenRange) (right : Value) (right_range : TokenRange) : outcome RuntimeError Value :=
  let* left := expect_number left left_range in
  let* right := expect_number right right_range in
  if f64_eq (as_f64 right) 0 then Err (DivisionByZero right_range) else
  match op, left, right with
  | Div, NInt a, NInt b => or_overflow (checked_div a b) range
  | Mod, NInt a, NInt b => or_overflow (checked_rem a b) range
  | Div, a, b => Ok (VFloat (f64_div (as_f64 a) (as_f64 b)))
  | Mod, a, b => Ok (VFloat (f64_rem (as_f64 a) (as_f64 b)))
  | _, _, _ => Abort
  end.

Definition eval_numeric_comparison (op : Operator) (left : Value) (left_range : TokenRange)
    (right : Value) (right_range : TokenRange) : outcome RuntimeError Value :=
  let* l := expect_number left left_range in
  let* r := expect_number right right_range in
  let left := as_f64 l in
  let right := as_f64 r in
  match op with
  | Lt => Ok (VBool (f64_lt left right))
  | Gt => Ok (VBool (f64_lt right left))
  | Le => Ok (VBool (f64_le left right))
  | Ge => Ok (VBool (f64_le right left))
  | _ => Abort
  end.

(** [Value::is_truthy] *)
Definition is_truthy (v : Value) : bool :=
  match v with
  | VBool b => b
  | VInt i => negb (i =? 0)
  | VFloat f => negb (f64_eq f 0)
  | VString s => negb (bool_decide (s = EmptyString))
  | VList l | VTuple l => negb (bool_decide (length l = 0%nat))
  | VDict d => negb (bool_decide (length (dict_map d) = 0%nat))
  | _ => true
  end.

(** [eval_unary] on the evaluated operand. *)
Definition eval_unary (op : Operator) (range : TokenRange) (val : Value) (node_range : TokenRange)
    : outcome RuntimeError Value :=
  match op, val with
  | Not, v => Ok (VBool (negb (is_truthy v)))
  | Sub, VInt i => or_overflow (checked (- i)) range
  | Sub, VFloat f => Ok (VFloat (f64_neg f))
  | Sub, v => Err (TypeMismatch "Number" (type_name v) node_range)
  | _, _ => Err (UnsupportedOperator op node_range)
  end.
End Ops.

Example f64_samples :
  f64_add 4607182418800017408 4611686018427387904 = 4613937818241073152 /\
  f64_sub 4607182418800017408 4607182418800017408 = 0 /\
  f64_mul 4609434218613702656 4609434218613702656 = 4612248968380809216 /\
  f64_div 4607182418800017408 4613937818241073152 = 4599676419421066581 /\
  f64_rem 4619567317775286272 4613937818241073152 = 4607182418800017408 /\
  f64_add 4591870180066957722 4596373779694328218 = 4599075939470750516 /\
  f64_mul 9218868437227405311 4611686018427387904 = Num.F64_INFINITY /\
  f64_mul 1 4602678819172646912 = 0.
Proof. by vm_compute. Qed.
End Arith.

(** The numeric operators on 64-bit integers: exact or an overflow error, and how
    far comparisons, which go through [f64], are exact. *)

Import Arith.

(** ** The double of an integer *)

(** The rounded mantissa of a magnitude, between [2^52] and [2^53]. *)
Definition mantissa (m : Z) : Z :=
  let e := Z.log2 m in
  if e <=? 52 then Z.shiftl m (52 - e) else
  let s := e - 52 in
  let q := Z.shiftr m s in
  let r := m mod 2 ^ s in
  let half := 2 ^ (s - 1) in
  if (half <? r) || ((r =? half) && Z.odd q) then q + 1 else q.

(** The bit pattern of a magnitude. *)
Definition magnitude (m : Z) : Z := if m =? 0 then 0 else (Z.log2 m + 1022) * 2 ^ 52 + mantissa m.

Lemma mantissa_range m : 0 < m -> 2 ^ 52 <= mantissa m <= 2 ^ 53.
Proof. apply f64_mantissa. Qed.

Lemma log2_i64 m : 0 < m <= 2 ^ 63 -> 0 <= Z.log2 m <= 63.
Proof.
  intros Hm. split; [apply Z.log2_nonneg|]. apply Z.lt_succ_r, Z.log2_lt_pow2; [lia|].
  change (2 ^ Z.succ 63) with (2 * 2 ^ 63). lia.
Qed.

Lemma i64_as_f64_bits i :
  Num.in_i64 i = true -> i64_as_f64 i = (if i <? 0 then 2 ^ 63 else 0) + magnitude (Z.abs i) /\
    0 <= magnitude (Z.abs i) < 2 ^ 63 - 2 ^ 52.
Proof.
  intros Hi. unfold i64_as_f64, magnitude. unfold Num.in_i64, Num.I64_MAX in Hi.
  destruct (Z.eqb_spec i 0) as [->|Hne]; [done|]. rewrite (proj2 (Z.eqb_neq (Z.abs i) 0)) by lia.
  pose proof (mantissa_range (Z.abs i) ltac:(lia)) as Hq. pose proof (log2_i64 (Z.abs i) ltac:(lia)) as He.
  cbv zeta. fold (mantissa (Z.abs i)).
  change (if Z.log2 (Z.abs i) <=? 52 then _ else _) with (mantissa (Z.abs i)).
  set (q := mantissa (Z.abs i)) in *. set (e := Z.log2 (Z.abs i)) in *. clearbody q e.
  destruct (Z.eqb_spec q (2 ^ 53)) as [->|]; destruct (i <? 0); lia.
Qed.

Lemma i64_as_f64_key i :
  Num.in_i64 i = true ->
  f64_is_nan (i64_as_f64 i) = false /\ f64_key (i64_as_f64 i) = if i <? 0 then - magnitude (Z.abs i) else magnitude (Z.abs i).
Proof.
  intros Hi. destruct (i64_as_f64_bits i Hi) as [-> Hm]. unfold f64_key, f64_sign, f64_is_nan.
  set (m := magnitude (Z.abs i)) in *. clearbody m. split.
  - apply andb_false_iff. left. apply Z.eqb_neq. unfold f64_exponent.
    replace (((if i <? 0 then 2 ^ 63 else 0) + m) / 2 ^ 52 mod 2048) with (m / 2 ^ 52).
    + intros Heq. pose proof (Z.div_lt_upper_bound m (2 ^ 52) 2047 ltac:(lia) ltac:(lia)). lia.
    + pose proof (Z.div_pos m (2 ^ 52) ltac:(lia) ltac:(lia)).
      pose proof (Z.div_lt_upper_bound m (2 ^ 52) 2048 ltac:(lia) ltac:(lia)).
      destruct (i <? 0); [|by rewrite Z.add_0_l, Z.mod_small by lia].
      replace (2 ^ 63 + m) with (m + 2048 * 2 ^ 52) by lia. rewrite Z.div_add by lia.
      replace (m / 2 ^ 52 + 2048) with (m / 2 ^ 52 + 1 * 2048) by lia.
      by rewrite Z.mod_add, Z.mod_small by lia.
  - destruct (Z.ltb_spec i 0).
    + rewrite (proj2 (Z.leb_le _ _)) by lia. lia.
    + rewrite (proj2 (Z.leb_gt _ _)) by lia. lia.
Qed.

(** ** Monotonicity of the rounding *)

Lemma round_mono s m m' : 0 < s -> 0 <= m <= m' ->
  let rnd m := let q := Z.shiftr m s in let r := m mod 2 ^ s in
    if (2 ^ (s - 1) <? r) || ((r =? 2 ^ (s - 1)) && Z.odd q) then q + 1 else q in
  rnd m <= rnd m'.
Proof.
  intros Hs Hm rnd. unfold rnd. rewrite !Z.shiftr_div_pow2 by lia. cbv zeta.
  assert (0 < 2 ^ s) as Hp by (apply Z.pow_pos_nonneg; lia).
  pose proof (Z.div_le_mono m m' (2 ^ s) Hp ltac:(lia)) as Hq.
  pose proof (Z.div_mod m (2 ^ s) ltac:(lia)) as H1. pose proof (Z.div_mod m' (2 ^ s) ltac:(lia)) as H2.
  set (q := m / 2 ^ s) in *. set (q' := m' / 2 ^ s) in *.
  set (r := m mod 2 ^ s) in *. set (r' := m' mod 2 ^ s) in *. clearbody q q' r r'.
  destruct (Z.eq_dec q q') as [->|Hne].
  - assert (r <= r') by lia. set (o := Z.odd q'). set (h := 2 ^ (s - 1)). clearbody o h.
    destruct ((h <? r) || ((r =? h) && o)) eqn:Hu, ((h <? r') || ((r' =? h) && o)) eqn:Hu';
      try lia. exfalso. clear -H Hu Hu'. destruct o; lia.
  - destruct (_ || _), (_ || _); lia.
Qed.

Lemma magnitude_mono m m' : 0 <= m <= m' -> magnitude m <= magnitude m'.
Proof.
  intros Hm. unfold magnitude. destruct (Z.eqb_spec m 0) as [->|Hm0].
  { destruct (Z.eqb_spec m' 0); [done|]. pose proof (mantissa_range m' ltac:(lia)).
    pose proof (Z.log2_nonneg m'). lia. }
  rewrite (proj2 (Z.eqb_neq m' 0)) by lia.
  pose proof (mantissa_range m ltac:(lia)). pose proof (mantissa_range m' ltac:(lia)).
  pose proof (Z.log2_le_mono m m' ltac:(lia)) as He. pose proof (Z.log2_nonneg m).
  destruct (Z.eq_dec (Z.log2 m) (Z.log2 m')) as [Heq|]; [|lia].
  rewrite Heq. apply Z.add_le_mono_l. unfold mantissa. rewrite Heq. cbv zeta.
  destruct (Z.leb_spec (Z.log2 m') 52).
  - rewrite !Z.shiftl_mul_pow2 by lia. apply Z.mul_le_mono_nonneg_r; [apply Z.pow_nonneg; lia|lia].
  - apply (round_mono (Z.log2 m' - 52) m m'); lia.
Qed.

(** Up to [2^53] every integer has its own double. *)
Lemma magnitude_strict m m' : 0 <= m < m' -> m' <= 2 ^ 53 -> magnitude m < magnitude m'.
Proof.
  intros Hm Hb. pose proof (mantissa_range m' ltac:(lia)). pose proof (Z.log2_nonneg m').
  unfold magnitude. rewrite (proj2 (Z.eqb_neq m' 0)) by lia.
  destruct (Z.eqb_spec m 0) as [->|Hm0]; [lia|].
  pose proof (Z.log2_le_mono m m' ltac:(lia)) as He. pose proof (Z.log2_nonneg m).
  assert (Z.log2 m <= 52) as Hlo.
  { apply Z.lt_succ_r, Z.log2_lt_pow2; [lia|]. change (2 ^ Z.succ 52) with (2 ^ 53). lia. }
  assert (mantissa m = m * 2 ^ (52 - Z.log2 m)) as Hq.
  { unfold mantissa. cbv zeta. rewrite (proj2 (Z.leb_le _ _)) by lia. apply Z.shiftl_mul_pow2. lia. }
  assert (mantissa m < 2 ^ 53) as Hlt.
  { rewrite Hq. pose proof (Z.log2_spec m ltac:(lia)) as [_ Hhi].
    replace (2 ^ 53) with (2 ^ Z.succ (Z.log2 m) * 2 ^ (52 - Z.log2 m))
      by (rewrite <-Z.pow_add_r by lia; f_equal; lia).
    apply Z.mul_lt_mono_pos_r; [apply Z.pow_pos_nonneg; lia|done]. }
  destruct (Z.eq_dec (Z.log2 m) (Z.log2 m')) as [Heq|]; [|lia].
  rewrite Hq, Heq. unfold mantissa. cbv zeta. rewrite (proj2 (Z.leb_le (Z.log2 m') 52)) by lia.
  rewrite Z.shiftl_mul_pow2 by lia. apply Z.add_lt_mono_l, Z.mul_lt_mono_pos_r; [apply Z.pow_pos_nonneg; lia|lia].
Qed.

(** ** Comparison of integers through doubles *)

Lemma key_mono a b :
  Num.in_i64 a = true -> Num.in_i64 b = true -> a <= b -> f64_key (i64_as_f64 a) <= f64_key (i64_as_f64 b).
Proof.
  intros Ha Hb Hab. rewrite (proj2 (i64_as_f64_key a Ha)), (proj2 (i64_as_f64_key b Hb)).
  pose proof (proj2 (i64_as_f64_bits a Ha)). pose proof (proj2 (i64_as_f64_bits b Hb)).
  pose proof (magnitude_mono (Z.abs a) (Z.abs b)). pose proof (magnitude_mono (Z.abs b) (Z.abs a)).
  destruct (Z.ltb_spec a 0), (Z.ltb_spec b 0); lia.
Qed.

Lemma key_strict a b :
  Z.abs a <= 2 ^ 53 -> Z.abs b <= 2 ^ 53 -> a < b -> f64_key (i64_as_f64 a) < f64_key (i64_as_f64 b).
Proof.
  intros Ha Hb Hab.
  assert (forall x, Z.abs x <= 2 ^ 53 -> Num.in_i64 x = true) as Hin
    by (intros x Hx; unfold Num.in_i64, Num.I64_MAX; lia).
  rewrite (proj2 (i64_as_f64_key a (Hin a Ha))), (proj2 (i64_as_f64_key b (Hin b Hb))).
  pose proof (proj2 (i64_as_f64_bits a (Hin a Ha))). pose proof (proj2 (i64_as_f64_bits b (Hin b Hb))).
  pose proof (magnitude_strict 0 (Z.abs a)). change (magnitude 0) with 0 in *.
  pose proof (magnitude_strict (Z.abs a) (Z.abs b)). pose proof (magnitude_strict (Z.abs b) (Z.abs a)).
  destruct (Z.ltb_spec a 0), (Z.ltb_spec b 0); lia.
Qed.

Lemma f64_order_i64 a b :
  Num.in_i64 a = true -> Num.in_i64 b = true ->
  f64_lt (i64_as_f64 a) (i64_as_f64 b) = (f64_key (i64_as_f64 a) <? f64_key (i64_as_f64 b)) /\
  f64_le (i64_as_f64 a) (i64_as_f64 b) = (f64_key (i64_as_f64 a) <=? f64_key (i64_as_f64 b)) /\
  f64_eq (i64_as_f64 a) (i64_as_f64 b) = (f64_key (i64_as_f64 a) =? f64_key (i64_as_f64 b)).
Proof.
  intros Ha Hb. unfold f64_lt, f64_le, f64_eq, f64_compare.
  rewrite (proj1 (i64_as_f64_key a Ha)), (proj1 (i64_as_f64_key b Hb)). cbn [orb].
  unfold Z.ltb, Z.leb. rewrite Z.eqb_compare. by destruct (_ ?= _).
Qed.

Lemma zero_divisor b : Num.in_i64 b = true -> f64_eq (i64_as_f64 b) 0 = (b =? 0).
Proof.
  intros Hb. destruct (f64_order_i64 b 0 Hb eq_refl) as (_ & _ & Heq). change (i64_as_f64 0) with 0 in Heq.
  rewrite Heq, (proj2 (i64_as_f64_key b Hb)). change (f64_key 0) with 0.
  destruct (Z.eqb_spec b 0) as [->|Hne]; [done|]. apply Z.eqb_neq.
  unfold Num.in_i64, Num.I64_MAX in Hb.
  pose proof (magnitude_mono 1 (Z.abs b) ltac:(lia)). change (magnitude 1) with (1023 * 2 ^ 52) in *.
  destruct (b <? 0); lia.
Qed.

(** The quotient overflows in one case. *)
Lemma quot_in_i64 a b : Num.in_i64 a = true -> Num.in_i64 b = true -> b <> 0 ->
  Num.in_i64 (Z.quot a b) = negb ((a =? - 2 ^ 63) && (b =? -1)).
Proof.
  intros Ha Hb Hne. unfold Num.in_i64, Num.I64_MAX in *.
  destruct ((a =? - 2 ^ 63) && (b =? -1)) eqn:Hc; zb; [subst; done|].
  pose proof (Z.quot_abs a b Hne) as Hq.
  assert (Z.abs (a ÷ b) <= Z.abs a) by (rewrite <-Hq; apply Z.quot_le_upper_bound; nia).
  assert (Z.abs (a ÷ b) = 2 ^ 63 -> a = - 2 ^ 63 /\ Z.abs b = 1) as Hmin.
  { intros Heq. assert (Z.abs a = 2 ^ 63) as Habs by lia. rewrite <-Hq, Habs in Heq.
    split; [lia|]. destruct (Z.eq_dec (Z.abs b) 1); [done|exfalso].
    assert (2 ^ 63 ÷ Z.abs b <= 2 ^ 62) by (apply Z.quot_le_upper_bound; lia). lia. }
  destruct (Z.eq_dec (Z.abs (a ÷ b)) (2 ^ 63)) as [Heq|]; [|simpl; lia].
  destruct (Hmin Heq) as [-> Hb1]. assert (b = 1) as -> by lia. done.
Qed.

(** ** Properties *)

Section Properties.
Context {H : HostTypes} {TokenRange : Type}.
Implicit Types (range lr rr : TokenRange).

(** The mathematical result of an integer operator. *)
Definition int_result (op : Operator) (a b : Z) : option Z :=
  match op with
  | Add => Some (a + b) | Sub => Some (a - b) | Mul => Some (a * b)
  | Div => if b =? 0 then None else Some (Z.quot a b)
  | Mod => if b =? 0 then None else Some (Z.rem a b)
  | _ => None
  end.

(** C38 Integer arithmetic is exact or an error: on 64-bit operands [+], [-] and [*] return the
    mathematical result when it is a 64-bit integer and [NumericOverflow] otherwise; [/] and [%]
    return the truncated quotient and remainder, [DivisionByZero] exactly for divisor zero, and
    [NumericOverflow] exactly for the smallest integer by minus one, also for [%], whose
    mathematical result 0 would fit; negation overflows exactly on the smallest integer. *)
Theorem int_operators_exact range a lr b rr :
  Num.in_i64 a = true -> Num.in_i64 b = true ->
  (forall op, op ∈ [Add; Sub; Mul] -> exists v, int_result op a b = Some v /\
     eval_numeric_arithmetic op range (VInt a) lr (VInt b) rr =
     if Num.in_i64 v then Ok (VInt v) else Err (NumericOverflow range)) /\
  (forall op, op ∈ [Div; Mod] ->
     eval_numeric_division op range (VInt a) lr (VInt b) rr =
     match int_result op a b with
     | None => Err (DivisionByZero rr)
     | Some v => if (a =? - 2 ^ 63) && (b =? -1) then Err (NumericOverflow range) else Ok (VInt v)
     end) /\
  eval_unary Sub range (VInt a) lr = (if a =? - 2 ^ 63 then Err (NumericOverflow range) else Ok (VInt (- a))).
Proof.
  intros Ha Hb. split_and!.
  - intros op Hop. apply list_elem_of_In in Hop. simpl in Hop.
    destruct Hop as [<-|[<-|[<-|[]]]]; eexists; (split; [reflexivity|]);
      unfold eval_numeric_arithmetic, checked; cbn [expect_number bind]; clear Ha Hb;
      by destruct (Num.in_i64 _).
  - intros op Hop. unfold eval_numeric_division. cbn [expect_number bind as_f64]. rewrite zero_divisor by done.
    apply list_elem_of_In in Hop. simpl in Hop. destruct Hop as [<-|[<-|[]]]; unfold int_result;
      unfold checked_div, checked_rem, checked; destruct (Z.eqb_spec b 0) as [->|Hne]; try done.
    + rewrite quot_in_i64 by done. by destruct (_ && _).
    + by destruct (_ && _).
  - cbn [eval_unary]. unfold checked, Num.in_i64, Num.I64_MAX in *.
    destruct (Z.eqb_spec a (- 2 ^ 63)) as [->|]; [done|].
    rewrite (proj2 (Z.leb_le _ _)), (proj2 (Z.leb_le _ _)) by lia. done.
Qed.

Definition is_number (v : Value) : bool := match v with VInt _ | VFloat _ => true | _ => false end.

(** The numeric operators return on every pair of values and report the first
    operand that is not a number, with its type and its own range; on numbers
    they return an integer or an overflow for two integers and a float
    otherwise, division by zero apart, and comparisons a boolean. *)
Theorem numeric_operators_total op range left lr right rr :
  let mismatch v r := Err (TypeMismatch "Number" (type_name v) r) in
  let numeric (m : outcome RuntimeError Value) (result : outcome RuntimeError Value -> Prop) :=
    if negb (is_number left) then m = mismatch left lr
    else if negb (is_number right) then m = mismatch right rr
    else result m in
  (op ∈ [Add; Sub; Mul] -> numeric (eval_numeric_arithmetic op range left lr right rr) (fun m =>
     m = Err (NumericOverflow range) \/ exists v, m = Ok v /\ is_number v = true)) /\
  (op ∈ [Div; Mod] -> numeric (eval_numeric_division op range left lr right rr) (fun m =>
     m = Err (NumericOverflow range) \/ m = Err (DivisionByZero rr) \/ exists v, m = Ok v /\ is_number v = true)) /\
  (op ∈ [Lt; Gt; Le; Ge] -> numeric (eval_numeric_comparison op left lr right rr) (fun m =>
     exists b, m = Ok (VBool b))).
Proof.
  cbv zeta.
  assert (forall r, or_overflow r range = Err (NumericOverflow range) \/
    exists v, or_overflow r range = Ok v /\ is_number v = true) as Hov.
  { intros [v|]; [right; by exists (VInt v)|by left]. }
  split_and!; intros Hop; apply list_elem_of_In in Hop; simpl in Hop.
  - destruct left; try done; destruct right; try done; unfold eval_numeric_arithmetic;
      cbn [expect_number bind is_number negb]; destruct Hop as [<-|[<-|[<-|[]]]];
      solve [apply Hov|right; eexists; by split].
  - destruct left; try done; destruct right; try done; unfold eval_numeric_division;
      cbn [expect_number bind is_number negb]; (destruct (f64_eq _ 0); [by right; left|]);
      destruct Hop as [<-|[<-|[]]];
      solve [right; right; eexists; by split
            |match goal with |- or_overflow ?r _ = _ \/ _ => destruct (Hov r) as [?|?]; by auto end].
  - destruct left; try done; destruct right; try done; simpl;
      destruct Hop as [<-|[<-|[<-|[<-|[]]]]]; by eexists.
Qed.

(** Integer comparisons are exact up to [2^53] in magnitude; beyond, where the
    operands are rounded to doubles, a strict comparison that answers true is
    right and a weak one that answers false is right. *)
Theorem int_comparison_sound a lr b rr :
  Num.in_i64 a = true -> Num.in_i64 b = true ->
  let holds op := eval_numeric_comparison op (VInt a) lr (VInt b) rr = Ok (VBool true) in
  (holds Lt -> a < b) /\ (holds Gt -> b < a) /\ (a <= b -> holds Le) /\ (b <= a -> holds Ge) /\
  (Z.abs a <= 2 ^ 53 -> Z.abs b <= 2 ^ 53 ->
     (holds Lt <-> a < b) /\ (holds Gt <-> b < a) /\ (holds Le <-> a <= b) /\ (holds Ge <-> b <= a)).
Proof.
  intros Ha Hb holds. unfold holds, eval_numeric_comparison. cbn [expect_number bind as_f64].
  destruct (f64_order_i64 a b Ha Hb) as (Hlt & Hle & _). destruct (f64_order_i64 b a Hb Ha) as (Hgt & Hge & _).
  rewrite Hlt, Hle, Hgt, Hge.
  assert (forall x, @Ok (@RuntimeError TokenRange) Value (VBool x) = Ok (VBool true) <-> x = true) as Hok
    by (intros x; split; [by intros [= ->]|by intros ->]).
  rewrite !Hok, !Z.ltb_lt, !Z.leb_le.
  pose proof (key_mono a b Ha Hb) as Hab. pose proof (key_mono b a Hb Ha) as Hba.
  split_and!; [lia|lia|done|done|]. intros Ha' Hb'.
  pose proof (key_strict a b Ha' Hb') as Sab. pose proof (key_strict b a Hb' Ha') as Sba.
  split_and!; split; lia.
Qed.

(** Beyond [2^53] integer comparisons are wrong: the double comparison says that
    [2^53 + 1 <= 2^53], and denies that the first is greater. *)
Theorem int_comparison_inexact lr rr :
  eval_numeric_comparison Le (VInt (2 ^ 53 + 1)) lr (VInt (2 ^ 53)) rr = Ok (VBool true) /\
  eval_numeric_comparison Gt (VInt (2 ^ 53 + 1)) lr (VInt (2 ^ 53)) rr = Ok (VBool false).
Proof. by vm_compute. Qed.
End Properties.

#[local] Existing Instance unit_host.

Lemma int_operators_exact_witness :
  eval_numeric_division Div tt (VInt (-7)) tt (VInt 2) tt = Ok (VInt (-3)).
Proof.
  apply (proj1 (proj2 (int_operators_exact tt (-7) tt 2 tt eq_refl eq_refl)) Div).
  apply list_elem_of_In. simpl. tauto.
Defined.

Lemma numeric_operators_total_witness :
  eval_numeric_comparison Lt (VBool true) 1 (VInt 2) 2 = Err (TypeMismatch "Number" "Bool" 1).
Proof.
  apply (proj2 (proj2 (numeric_operators_total Lt 0 (VBool true) 1 (VInt 2) 2))).
  apply list_elem_of_In. simpl. tauto.
Defined.

Lemma int_comparison_sound_witness :
  2 <= 5 /\ eval_numeric_comparison Le (VInt 2) tt (VInt 5) tt = Ok (VBool true).
Proof.
  split; [lia|].
  apply (proj1 (proj2 (proj2 (int_comparison_sound 2 tt 5 tt eq_refl eq_refl)))). lia.
Defined.
