(* ===== verification/Capability.v ===== *)
(** Capabilities: the data types of [crates/relon-cap/src/lib.rs], the decision
    boundary of [crates/relon-eval-api/src/capability.rs], the registration of
    native functions of [context.rs], and the dispatch check of the evaluator.

    A host policy is the class [CapabilityGate], one method that answers for one
    bit; [check_gate] is proved against the interface and the default policy, a
    [Capabilities] value, is an instance. *)

From Stdlib Require Import ZArith Lia Bool Sorted.
From stdpp Require Import base list strings gmap.
From S2P Require Import Prelude.
Local Open Scope Z_scope.
Local Open Scope abi_scope.

Module Cap.

(** ** Bits *)

Inductive CapabilityBit : Type := ReadsFs | WritesFs | Network | ReadsClock | ReadsEnv | UsesRng.

#[export] Instance CapabilityBit_eq_dec : EqDecision CapabilityBit.
Proof. solve_decision. Defined.

Definition bit_index (b : CapabilityBit) : Z :=
  match b with
  | ReadsFs => 0 | WritesFs => 1 | Network => 2 | ReadsClock => 3 | ReadsEnv => 4 | UsesRng => 5
  end.

Definition as_str (b : CapabilityBit) : string :=
  match b with
  | ReadsFs => "reads_fs"
  | WritesFs => "writes_fs"
  | Network => "network"
  | ReadsClock => "reads_clock"
  | ReadsEnv => "reads_env"
  | UsesRng => "uses_rng"
  end.

Definition deny_message (b : CapabilityBit) : string :=
  "function declared `" +:+ as_str b +:+ "` but caller did not grant it".

(** ** Requirements *)

Record NativeFnGate : Type := MkGate {
  gate_reads_fs : bool; gate_writes_fs : bool; gate_network : bool;
  gate_reads_clock : bool; gate_reads_env : bool; gate_uses_rng : bool;
}.

(** [NativeFnGate::default] *)
Definition default_gate : NativeFnGate := MkGate false false false false false false.

(** [NativeFnGate::require] *)
Definition require (g : NativeFnGate) (bit : CapabilityBit) : NativeFnGate :=
  let '(MkGate a b c d e f) := g in
  match bit with
  | ReadsFs => MkGate true b c d e f
  | WritesFs => MkGate a true c d e f
  | Network => MkGate a b true d e f
  | ReadsClock => MkGate a b c true e f
  | ReadsEnv => MkGate a b c d true f
  | UsesRng => MkGate a b c d e true
  end.

(** ** Grants *)

Record Capabilities : Type := MkCaps {
  reads_fs : bool; writes_fs : bool; network : bool;
  reads_clock : bool; reads_env : bool; uses_rng : bool;
  max_steps : option Z;
  max_value_elements : option Z;
}.

(** [Capabilities::default] *)
Definition default_caps : Capabilities := MkCaps false false false false false false None None.

Definition all_granted : Capabilities := MkCaps true true true true true true None None.

Definition grant (c : Capabilities) (bit : CapabilityBit) : Capabilities :=
  let '(MkCaps x1 x2 x3 x4 x5 x6 s v) := c in
  match bit with
  | ReadsFs => MkCaps true x2 x3 x4 x5 x6 s v
  | WritesFs => MkCaps x1 true x3 x4 x5 x6 s v
  | Network => MkCaps x1 x2 true x4 x5 x6 s v
  | ReadsClock => MkCaps x1 x2 x3 true x5 x6 s v
  | ReadsEnv => MkCaps x1 x2 x3 x4 true x6 s v
  | UsesRng => MkCaps x1 x2 x3 x4 x5 true s v
  end.

Definition is_granted (c : Capabilities) (bit : CapabilityBit) : bool :=
  match bit with
  | ReadsFs => reads_fs c
  | WritesFs => writes_fs c
  | Network => network c
  | ReadsClock => reads_clock c
  | ReadsEnv => reads_env c
  | UsesRng => uses_rng c
  end.

(** [NativeFnGate::missing_bits] *)
Definition missing_bits (g : NativeFnGate) (caps : Capabilities) : list string :=
  (if gate_reads_fs g && negb (reads_fs caps) then [as_str ReadsFs] else []) ++
  (if gate_writes_fs g && negb (writes_fs caps) then [as_str WritesFs] else []) ++
  (if gate_network g && negb (network caps) then [as_str Network] else []) ++
  (if gate_reads_clock g && negb (reads_clock caps) then [as_str ReadsClock] else []) ++
  (if gate_reads_env g && negb (reads_env caps) then [as_str ReadsEnv] else []) ++
  (if gate_uses_rng g && negb (uses_rng caps) then [as_str UsesRng] else []).

(** [NativeFnGate::required_bit_indices] *)
Definition required_bit_indices (g : NativeFnGate) : list Z :=
  (if gate_reads_fs g then [bit_index ReadsFs] else []) ++
  (if gate_writes_fs g then [bit_index WritesFs] else []) ++
  (if gate_network g then [bit_index Network] else []) ++
  (if gate_reads_clock g then [bit_index ReadsClock] else []) ++
  (if gate_reads_env g then [bit_index ReadsEnv] else []) ++
  (if gate_uses_rng g then [bit_index UsesRng] else []).

(** ** Budgets *)

Inductive ResourceBudgetProfile : Type := Off | Dev | Untrusted.

Record ResourceBudget : Type := MkBudget { b_max_steps : option Z; b_max_value_elements : option Z }.

Definition from_profile (p : ResourceBudgetProfile) : ResourceBudget :=
  match p with
  | Off => MkBudget None None
  | Dev => MkBudget (Some 5000000) (Some 100000)
  | Untrusted => MkBudget (Some 1000000) (Some 10000)
  end.

Definition has_evaluator_limits (b : ResourceBudget) : bool :=
  match b_max_steps b, b_max_value_elements b with None, None => false | _, _ => true end.

Definition apply_to_capabilities (b : ResourceBudget) (c : Capabilities) : Capabilities :=
  let '(MkCaps x1 x2 x3 x4 x5 x6 s v) := c in
  MkCaps x1 x2 x3 x4 x5 x6
    (match b_max_steps b with Some n => Some n | None => s end)
    (match b_max_value_elements b with Some n => Some n | None => v end).

(** ** The decision boundary *)

Class CapabilityGate (P : Type) : Type := check : P -> CapabilityBit -> outcome CapabilityBit unit.

Definition check_if {P} `{CapabilityGate P} (p : P) (required : bool) (bit : CapabilityBit)
    : outcome CapabilityBit unit :=
  if required then check p bit else Ok tt.

(** [CapabilityGate::check_gate] *)
Definition check_gate {P} `{CapabilityGate P} (p : P) (g : NativeFnGate) : outcome CapabilityBit unit :=
  let* _ := check_if p (gate_reads_fs g) ReadsFs in
  let* _ := check_if p (gate_writes_fs g) WritesFs in
  let* _ := check_if p (gate_network g) Network in
  let* _ := check_if p (gate_reads_clock g) ReadsClock in
  let* _ := check_if p (gate_reads_env g) ReadsEnv in
  let* _ := check_if p (gate_uses_rng g) UsesRng in
  Ok tt.

(** [impl CapabilityGate for Capabilities] *)
#[export] Instance caps_gate : CapabilityGate Capabilities := fun c bit =>
  if is_granted c bit then Ok tt else Err bit.

(** ** Registration and dispatch *)

Section Registry.
Context {RelonFunction TokenRange : Type}.

Record GatedNativeFn : Type := MkFn { fn_func : RelonFunction; fn_gate : NativeFnGate }.

(** The function tables of [Context]. *)
Record registry : Type := MkRegistry {
  functions : gmap string GatedNativeFn;
  native_methods : gmap string (gmap string GatedNativeFn);
  pure_fn_names : gset string;
}.

Definition empty_registry : registry := MkRegistry ∅ ∅ ∅.

Definition register_fn (r : registry) (name : string) (gate : NativeFnGate) (func : RelonFunction) : registry :=
  MkRegistry (<[name := MkFn func gate]> (functions r)) (native_methods r) (pure_fn_names r ∖ {[name]}).

Definition register_pure_fn (r : registry) (name : string) (func : RelonFunction) : registry :=
  let r := register_fn r name default_gate func in
  MkRegistry (functions r) (native_methods r) ({[name]} ∪ pure_fn_names r).

Definition register_method (r : registry) (schema method : string) (gate : NativeFnGate)
    (func : RelonFunction) : registry :=
  let methods := default ∅ (native_methods r !! schema) in
  MkRegistry (functions r) (<[schema := <[method := MkFn func gate]> methods]> (native_methods r))
    (pure_fn_names r).

Definition register_pure_method (r : registry) (schema method : string) (func : RelonFunction) : registry :=
  register_method r schema method default_gate func.

(** [RuntimeError::CapabilityDenied] *)
Inductive RuntimeError : Type :=
| CapabilityDenied (cap_bit : option Z) (reason : string) (range : TokenRange).

Definition check_native_fn_capability (caps : Capabilities) (name : string) (entry : GatedNativeFn)
    (range : TokenRange) : outcome RuntimeError unit :=
  match check_gate caps (fn_gate entry) with
  | Ok _ => Ok tt
  | Err bit => Err (CapabilityDenied (Some (bit_index bit))
                      ("native function `" +:+ name +:+ "`: " +:+ deny_message bit) range)
  | Abort => Abort
  end.
End Registry.
Arguments GatedNativeFn : clear implicits.
Arguments registry : clear implicits.
Arguments RuntimeError : clear implicits.

(** ** Facts *)

(** The requirement a gate has on a bit. *)
Definition requires (g : NativeFnGate) (bit : CapabilityBit) : bool :=
  match bit with
  | ReadsFs => gate_reads_fs g
  | WritesFs => gate_writes_fs g
  | Network => gate_network g
  | ReadsClock => gate_reads_clock g
  | ReadsEnv => gate_reads_env g
  | UsesRng => gate_uses_rng g
  end.

Definition all_bits : list CapabilityBit := [ReadsFs; WritesFs; Network; ReadsClock; ReadsEnv; UsesRng].

Definition required (g : NativeFnGate) : list CapabilityBit := List.filter (requires g) all_bits.

(** What a policy promises: it answers, and refuses with the bit it was asked. *)
Class GateOk (P : Type) `{CapabilityGate P} : Prop :=
  check_answers : forall (p : P) bit, check p bit = Ok tt \/ check p bit = Err bit.

#[export] Instance caps_gate_ok : GateOk Capabilities.
Proof. intros c bit. unfold check, caps_gate. destruct (is_granted c bit); auto. Qed.

Section Gate.
Context {P : Type} `{HP : GateOk P}.

(** Check the bits of a list in order. *)
Fixpoint check_all (p : P) (bits : list CapabilityBit) : outcome CapabilityBit unit :=
  match bits with
  | [] => Ok tt
  | b :: bits => let* _ := check p b in check_all p bits
  end.

Lemma check_gate_all p g : check_gate p g = check_all p (required g).
Proof.
  unfold check_gate, required, check_if, all_bits.
  destruct g as [a b c d e f]; destruct a, b, c, d, e, f; cbn -[check];
    repeat match goal with |- context [check p ?x] => destruct (check_answers p x) as [->| ->]; cbn end; done.
Qed.

Lemma check_all_spec p bits :
  (check_all p bits = Ok tt <-> Forall (fun b => check p b = Ok tt) bits) /\
  (forall b, check_all p bits = Err b <->
     exists before after, bits = before ++ b :: after /\ check p b = Err b /\
       Forall (fun b => check p b = Ok tt) before) /\
  check_all p bits <> Abort.
Proof.
  induction bits as [|x bits (IH1 & IH2 & IH3)]; simpl.
  { split_and!; [split; auto|intros b; split; [done|by intros ([] & ? & ? & _)]|done]. }
  destruct (check_answers p x) as [Hx|Hx]; rewrite Hx; cbn [bind].
  - rewrite Forall_cons, IH1. split_and!; [naive_solver| |done]. intros b. rewrite IH2. split.
    + intros (before & after & -> & Hb & Hall). exists (x :: before), after. by rewrite Forall_cons.
    + intros ([|y before] & after & [= -> ->] & Hb & Hall); [congruence|]. apply Forall_cons in Hall as [_ Hall]. eauto.
  - split_and!; [split; [done|]|intros b; split|done].
    + intros Hall%Forall_cons. destruct Hall as [Hbad _]. congruence.
    + intros [= <-]. by exists [], bits.
    + intros ([|y before] & after & [= -> ->] & Hb & Hall); [congruence|]. apply Forall_cons in Hall as [Hbad _]. congruence.
Qed.
End Gate.

(** The gate a host builds with [require], and the grants it builds with [grant]. *)
Definition gate_of (bits : list CapabilityBit) : NativeFnGate := foldl require default_gate bits.
Definition caps_of (bits : list CapabilityBit) (c : Capabilities) : Capabilities := foldl grant c bits.

Lemma requires_require g b x : requires (require g b) x = bool_decide (x = b) || requires g x.
Proof. destruct g, b, x; done. Qed.

Lemma granted_grant c b x : is_granted (grant c b) x = bool_decide (x = b) || is_granted c x.
Proof. destruct c, b, x; done. Qed.

Lemma requires_gate_of bits g x :
  requires (foldl require g bits) x = true <-> x ∈ bits \/ requires g x = true.
Proof.
  revert g. induction bits as [|b bits IH]; intros g; simpl.
  - split; [by right|]. intros [Hin|?]; [by apply elem_of_nil in Hin|done].
  - rewrite IH, requires_require, orb_true_iff, bool_decide_eq_true, elem_of_cons. tauto.
Qed.

Lemma granted_caps_of bits c x :
  is_granted (caps_of bits c) x = true <-> x ∈ bits \/ is_granted c x = true.
Proof.
  unfold caps_of. revert c. induction bits as [|b bits IH]; intros c; simpl.
  - split; [by right|]. intros [Hin|?]; [by apply elem_of_nil in Hin|done].
  - rewrite IH, granted_grant, orb_true_iff, bool_decide_eq_true, elem_of_cons. tauto.
Qed.

Lemma required_elem g b : b ∈ required g <-> requires g b = true.
Proof.
  unfold required. rewrite list_elem_of_In, filter_In. split; [by intros [_ ?]|]. intros Hr. split; [|done].
  destruct b; simpl; tauto.
Qed.

Lemma filter_none {A} (p : A -> bool) l : (forall x, x ∈ l -> p x = false) -> List.filter p l = [].
Proof.
  induction l as [|x l IH]; intros Hl; simpl; [done|].
  rewrite (Hl x (list_elem_of_here _ _)). apply IH. intros y Hy. by apply Hl, list_elem_of_further.
Qed.

Lemma caps_check c b : check c b = Ok tt <-> is_granted c b = true.
Proof. unfold check, caps_gate. by destruct (is_granted c b). Qed.

Lemma granted_budget b c x : is_granted (apply_to_capabilities b c) x = is_granted c x.
Proof. by destruct c, x. Qed.

Lemma missing_bits_filter g c :
  missing_bits g c = map as_str (List.filter (fun b => negb (is_granted c b)) (required g)).
Proof.
  unfold missing_bits, required, all_bits. destruct g as [g1 g2 g3 g4 g5 g6], c as [c1 c2 c3 c4 c5 c6 s v].
  simpl. destruct g1, g2, g3, g4, g5, g6; simpl; destruct c1, c2, c3, c4, c5, c6; reflexivity.
Qed.

(** Registered functions that claim purity need nothing. *)
Definition pure_ok {F} (r : registry F) : Prop :=
  forall name, name ∈ pure_fn_names r -> exists f, functions r !! name = Some (MkFn f default_gate).

(** The registries a host can build. *)
Inductive registers {F} : registry F -> Prop :=
| reg_empty : registers empty_registry
| reg_fn r name gate f : registers r -> registers (register_fn r name gate f)
| reg_pure r name f : registers r -> registers (register_pure_fn r name f)
| reg_method r s m gate f : registers r -> registers (register_method r s m gate f)
| reg_pure_method r s m f : registers r -> registers (register_pure_method r s m f).

Lemma registers_pure {F} (r : registry F) : registers r -> pure_ok r.
Proof.
  assert (forall (r : registry F) name gate f x,
    pure_ok r -> x ∈ pure_fn_names (register_fn r name gate f) ->
    exists f', functions (register_fn r name gate f) !! x = Some (MkFn f' default_gate)) as Hfn.
  { intros r0 name gate f x Hok Hx. simpl in *. apply elem_of_difference in Hx as [Hx Hne].
    rewrite lookup_insert_ne by (intros ->; apply Hne, elem_of_singleton; done). by apply Hok. }
  induction 1 as [|r name gate f _ IH|r name f _ IH|r s m gate f _ IH|r s m f _ IH]; intros x Hx.
  - by apply elem_of_empty in Hx.
  - by apply Hfn.
  - simpl in Hx. apply elem_of_union in Hx as [->%elem_of_singleton|Hx].
    + exists f. apply lookup_insert_eq.
    + by apply (Hfn r name default_gate f x IH).
  - by apply IH.
  - by apply IH.
Qed.

(** ** Properties *)

(** A host policy decides every native call: against any policy that answers for
    each bit, the gate check passes exactly when every required bit is allowed,
    and otherwise reports the first refused bit in declaration order. *)
Theorem check_gate_exact {P} `{GateOk P} (p : P) (g : NativeFnGate) :
  (check_gate p g = Ok tt <-> forall b, requires g b = true -> check p b = Ok tt) /\
  (forall b, check_gate p g = Err b -> requires g b = true /\ check p b = Err b /\
     forall b', requires g b' = true -> bit_index b' < bit_index b -> check p b' = Ok tt) /\
  check_gate p g <> Abort.
Proof.
  rewrite check_gate_all. destruct (check_all_spec p (required g)) as (H1 & H2 & H3).
  split_and!; [|intros b Hb|done].
  - rewrite H1, Forall_forall. by setoid_rewrite required_elem.
  - apply H2 in Hb as (before & after & Heq & Hb & Hall). rewrite <-!required_elem, Heq.
    split_and!; [set_solver|done|]. intros b' Hb' Hlt. rewrite <-required_elem, Heq in Hb'.
    assert (StronglySorted (fun x y => bit_index x < bit_index y) (before ++ b :: after)) as Hs.
    { rewrite <-Heq. unfold required, all_bits. destruct g as [g1 g2 g3 g4 g5 g6]. simpl.
      destruct g1, g2, g3, g4, g5, g6; repeat constructor. }
    rewrite Forall_forall in Hall. apply elem_of_app in Hb' as [Hb'|Hb']; [by apply Hall|].
    exfalso. apply elem_of_cons in Hb' as [->|Hb']; [lia|].
    clear -Hs Hb' Hlt. induction before as [|x before IH]; simpl in Hs; apply StronglySorted_inv in Hs as [Hs Hf]; [|by apply IH].
    rewrite Forall_forall in Hf. specialize (Hf b' Hb'). lia.
Qed.

(** C27 A call goes through exactly when every bit the function was registered with
    was granted: for a gate built by [require] and grants built by [grant], under
    any resource budget.  A refusal names the first missing bit, the head of
    [missing_bits], and carries its index. *)
Theorem native_call_allowed_iff {F R} (f : F) (name : string) (needs grants : list CapabilityBit)
    (budget : ResourceBudget) (range : R) :
  let caps := apply_to_capabilities budget (caps_of grants default_caps) in
  let entry := MkFn f (gate_of needs) in
  (check_native_fn_capability caps name entry range = Ok tt <-> needs ⊆ grants) /\
  (missing_bits (fn_gate entry) caps = [] <-> needs ⊆ grants) /\
  (forall e, check_native_fn_capability caps name entry range = Err e ->
     exists b rest, b ∈ needs /\ b ∉ grants /\ missing_bits (fn_gate entry) caps = as_str b :: rest /\
       e = CapabilityDenied (Some (bit_index b)) ("native function `" +:+ name +:+ "`: " +:+ deny_message b) range).
Proof.
  cbv zeta. set (caps := apply_to_capabilities _ _). cbn [fn_gate].
  assert (forall b, is_granted caps b = true <-> b ∈ grants) as Hg.
  { intros b. unfold caps. rewrite granted_budget, granted_caps_of. split; [|by left].
    intros [?|Hd]; [done|by destruct b]. }
  assert (forall b, requires (gate_of needs) b = true <-> b ∈ needs) as Hr.
  { intros b. unfold gate_of. rewrite requires_gate_of. split; [|by left]. intros [?|Hd]; [done|by destruct b]. }
  destruct (check_all_spec caps (required (gate_of needs))) as (H1 & H2 & H3).
  assert (Forall (fun b => check caps b = Ok tt) (required (gate_of needs)) <-> needs ⊆ grants) as Hsub.
  { rewrite Forall_forall. setoid_rewrite caps_check. setoid_rewrite Hg. setoid_rewrite required_elem.
    setoid_rewrite Hr. done. }
  unfold check_native_fn_capability. cbn [fn_gate]. rewrite check_gate_all, missing_bits_filter. split_and!.
  - rewrite <-Hsub, <-H1. destruct (check_all caps _) as [[]| |]; naive_solver.
  - rewrite <-Hsub, Forall_forall. split.
    + intros Hnil%map_eq_nil b Hb. apply caps_check. destruct (is_granted caps b) eqn:Hb'; [done|].
      assert (In b (List.filter (fun b => negb (is_granted caps b)) (required (gate_of needs)))) as Hin.
      { apply filter_In. rewrite Hb'. split; [by apply list_elem_of_In|done]. }
      by rewrite Hnil in Hin.
    + intros Hall. rewrite filter_none; [done|]. intros b Hb. by rewrite (proj1 (caps_check caps b) (Hall b Hb)).
  - intros e. destruct (check_all caps _) as [[]|b|] eqn:Hc; [done| |done]. intros [= <-].
    destruct (proj1 (H2 b) eq_refl) as (before & after & Heq & Hb & Hall).
    assert (is_granted caps b = false) as Hng.
    { apply not_true_iff_false. rewrite <-caps_check. congruence. }
    assert (b ∈ required (gate_of needs)) as Hin by (rewrite Heq; set_solver).
    exists b, (map as_str (List.filter (fun b => negb (is_granted caps b)) after)). rewrite <-Hr, <-Hg, Hng.
    split_and!; [by apply required_elem|done| |done].
    rewrite Heq, List.filter_app, (filter_none _ before); [simpl; by rewrite Hng|].
    rewrite Forall_forall in Hall. intros x Hx. by rewrite (proj1 (caps_check caps x) (Hall x Hx)).
Qed.

(** A function registered as pure keeps its empty gate until it is registered
    again with an explicit one, so it can be called under every grant. *)
Theorem pure_functions_callable {F R} (r : registry F) name caps (range : R) :
  registers r -> name ∈ pure_fn_names r ->
  exists entry, functions r !! name = Some entry /\ check_native_fn_capability caps name entry range = Ok tt.
Proof.
  intros Hr Hn. destruct (registers_pure r Hr name Hn) as [f Hf]. eexists. by split.
Qed.

Lemma check_gate_exact_witness :
  check_gate default_caps (require (require default_gate Network) ReadsFs) = Err ReadsFs /\
  check default_caps ReadsFs = Err ReadsFs.
Proof.
  split; [reflexivity|].
  apply (proj1 (proj2 (check_gate_exact default_caps (require (require default_gate Network) ReadsFs))) ReadsFs).
  reflexivity.
Defined.

Lemma native_call_allowed_iff_witness :
  exists b rest, b ∈ [Network] /\ b ∉ [ReadsFs] /\
    missing_bits (gate_of [Network]) (apply_to_capabilities (from_profile Dev) (caps_of [ReadsFs] default_caps))
    = as_str b :: rest.
Proof.
  destruct (proj2 (proj2 (native_call_allowed_iff tt "fetch" [Network] [ReadsFs] (from_profile Dev) tt)) _ eq_refl)
    as (b & rest & H1 & H2 & H3 & _). exists b, rest. by split_and!.
Defined.

Lemma pure_functions_callable_witness :
  exists entry, functions (register_pure_fn empty_registry "len" tt) !! "len"%string = Some entry /\
    check_native_fn_capability default_caps "len" entry tt = Ok tt.
Proof.
  apply pure_functions_callable; [constructor; constructor|].
  vm_compute. reflexivity.
Defined.
End Cap.
