(* ===== verification/Context.v ===== *)
(** The shared evaluation context of [crates/relon-eval-api/src/context.rs] under
    concurrent use: the protocol that serialises top-level runs, the step budget
    that a run resets and charges ([eval_internal] and [tick] of
    [crates/relon-evaluator/src/eval.rs]) and the iterator cursors.

    Threads interleave at every access to the shared state: a critical section
    under the slot mutex, one atomic operation, one [clear] of a table.  A
    condition variable may wake a waiter without a notification.  Any thread may
    charge steps, mint or advance iterators at any time, as the non-resetting
    entry points let it. *)

From Stdlib Require Import ZArith Lia Bool.
From stdpp Require Import base list strings gmap relations functions.
From S2P Require Import Prelude Bytes.
Local Open Scope Z_scope.

Module Ctx.

Definition U64 : Z := 2 ^ 64.

(** ** Step budget *)

(** [AtomicU64::fetch_add]: the previous value and the stored one. *)
Definition fetch_add (c n : Z) : Z * Z := (c, (c + n) mod U64).

(** The check at the head of [eval_internal]; the result is whether the node may
    be evaluated, and the counter. *)
Definition charge_node (max_steps : option Z) (counter : Z) : bool * Z :=
  match max_steps with
  | None => (true, counter)
  | Some limit => let '(prev, counter) := fetch_add counter 1 in (negb (limit <=? prev), counter)
  end.

(** [tick] *)
Definition tick (max_steps : option Z) (counter n : Z) : bool * Z :=
  match max_steps with
  | None => (true, counter)
  | Some limit =>
      let '(prev, counter) := fetch_add counter n in
      (negb (limit <? Z.min (prev + n) (U64 - 1)), counter)
  end.

(** ** Iterators *)

(** [next_iter_id] makes two accesses, between which other threads may step: it
    takes an id from the counter, then seeds the id's cursor. *)
Definition next_iter_id (counter : Z) : Z * Z := fetch_add counter 1.

Definition seed_cursor (cursors : gmap Z nat) (id : Z) : gmap Z nat := <[id := O]> cursors.

Definition iter_cursor_fetch_and_inc (cursors : gmap Z nat) (iter_id : Z) (len : nat)
    : option nat * gmap Z nat :=
  match cursors !! iter_id with
  | None => (None, cursors)
  | Some cursor => if Nat.ltb cursor len then (Some cursor, <[iter_id := S cursor]> cursors) else (None, cursors)
  end.

(** ** Threads *)

(** Where a thread is in [eval_root] or [run_main]. *)
Inductive pc : Type :=
| Outside          (* not in a top-level run *)
| Entering         (* about to lock the slot *)
| Waiting          (* in [Condvar::wait] *)
| ResetSteps       (* owns the slot; the step counter is reset next *)
| ResetPaths       (* the path cache is cleared next *)
| ResetIters       (* the iterator cursors are cleared next *)
| Running          (* in the body *)
| Exiting          (* leaving the body, by a result or a panic; the guard is about to drop *)
| Dropping.        (* the slot is released; [notify_all] is next *)

Record state : Type := MkState {
  slot : option nat;            (* [top_level_run_slot] *)
  threads : nat -> pc;
  counter : Z;                  (* [step_counter] *)
  cursors : gmap Z nat;         (* [iter_cursors] *)
  iter_ids : Z;                 (* [iter_id_counter] *)
  (* ids taken by [next_iter_id] calls that have not seeded their cursor yet *)
  pending : list Z;
  (* bookkeeping of the proofs: by thread, the steps charged and the steps granted
     (whoever charged them) since that thread last reset the counter; the number of
     ids ever taken *)
  charged : nat -> Z;
  granted : nat -> Z;
  minted : Z;
}.

Definition initial : state :=
  MkState None (fun _ => Outside) 0 ∅ 0 [] (fun _ => 0) (fun _ => 0) 0.

Definition move (s : state) (t : nat) (p : pc) : state :=
  MkState (slot s) (<[t := p]> (threads s)) (counter s) (cursors s) (iter_ids s) (pending s)
    (charged s) (granted s) (minted s).

Definition set_slot (s : state) (o : option nat) : state :=
  MkState o (threads s) (counter s) (cursors s) (iter_ids s) (pending s)
    (charged s) (granted s) (minted s).

Definition store_zero (s : state) (t : nat) : state :=
  MkState (slot s) (threads s) 0 (cursors s) (iter_ids s) (pending s)
    (<[t := 0]> (charged s)) (<[t := 0]> (granted s)) (minted s).

Definition clear_cursors (s : state) : state :=
  MkState (slot s) (threads s) (counter s) ∅ (iter_ids s) (pending s)
    (charged s) (granted s) (minted s).

Definition wake (p : pc) : pc := match p with Waiting => Entering | _ => p end.

Definition notify_all (s : state) : state :=
  MkState (slot s) (fun t => wake (threads s t)) (counter s) (cursors s) (iter_ids s) (pending s)
    (charged s) (granted s) (minted s).

(** A charge of [n] steps with the decision and the counter it leaves. *)
Definition charge (s : state) (n : Z) (r : bool * Z) : state :=
  MkState (slot s) (threads s) (snd r) (cursors s) (iter_ids s) (pending s)
    (fun t => charged s t + n) (fun t => granted s t + if fst r then n else 0) (minted s).

Definition set_cursors (s : state) (cs : gmap Z nat) : state :=
  MkState (slot s) (threads s) (counter s) cs (iter_ids s) (pending s)
    (charged s) (granted s) (minted s).

Definition take_id (s : state) : state :=
  let '(id, ids) := next_iter_id (iter_ids s) in
  MkState (slot s) (threads s) (counter s) (cursors s) ids (id :: pending s)
    (charged s) (granted s) (minted s + 1).

Definition seed (s : state) (before : list Z) (id : Z) (after : list Z) : state :=
  MkState (slot s) (threads s) (counter s) (seed_cursor (cursors s) id) (iter_ids s) (before ++ after)
    (charged s) (granted s) (minted s).

Section Steps.
Context (max_steps : option Z) (spurious_wakeups : bool).

(** One step of one thread. *)
Inductive step : state -> state -> Prop :=
| st_call s t : threads s t = Outside -> step s (move s t Entering)
(* [begin_top_level_run]: the slot is free, or another thread's *)
| st_claim s t : threads s t = Entering -> slot s = None ->
    step s (move (set_slot s (Some t)) t ResetSteps)
| st_wait s t o : threads s t = Entering -> slot s = Some o -> o <> t -> step s (move s t Waiting)
| st_spurious s t : spurious_wakeups = true -> threads s t = Waiting -> step s (move s t Entering)
(* the three resets *)
| st_reset_steps s t : threads s t = ResetSteps -> step s (move (store_zero s t) t ResetPaths)
| st_reset_paths s t : threads s t = ResetPaths -> step s (move s t ResetIters)
| st_reset_iters s t : threads s t = ResetIters -> step s (move (clear_cursors s) t Running)
(* the body returns, or it makes a top-level call that finds the slot its own and panics,
   or finds it another thread's and waits *)
| st_return s t : threads s t = Running -> step s (move s t Exiting)
| st_reenter_panic s t : threads s t = Running -> slot s = Some t -> step s (move s t Exiting)
| st_reenter_wait s t o : threads s t = Running -> slot s = Some o -> o <> t -> step s (move s t Waiting)
(* the guard drops *)
| st_release s t : threads s t = Exiting -> step s (move (set_slot s None) t Dropping)
| st_notify s t : threads s t = Dropping -> step s (move (notify_all s) t Outside)
(* accesses to the shared counters, by any thread *)
| st_node s : step s (charge s 1 (charge_node max_steps (counter s)))
| st_tick s n : 0 <= n < U64 -> step s (charge s n (tick max_steps (counter s) n))
| st_take_id s : step s (take_id s)
| st_seed s before id after : pending s = before ++ id :: after -> step s (seed s before id after)
| st_next s id len : step s (set_cursors s (snd (iter_cursor_fetch_and_inc (cursors s) id len))).

End Steps.

Definition reachable (max_steps : option Z) (s : state) : Prop := rtc (step max_steps true) initial s.

(** ** The run slot *)

Definition holds (p : pc) : bool :=
  match p with ResetSteps | ResetPaths | ResetIters | Running | Exiting => true | _ => false end.

(** The slot names exactly the threads between claiming it and dropping the guard. *)
Definition slot_ok (s : state) : Prop := forall t, slot s = Some t <-> holds (threads s t) = true.

(** Whoever sleeps will be woken: the slot is taken, or a notification is on its way. *)
Definition wakeup_ok (s : state) : Prop :=
  (exists t, threads s t = Waiting) -> slot s <> None \/ exists d, threads s d = Dropping.

(** The steps granted since thread [t] reset the counter fit the budget. *)
Definition budget_ok (limit : Z) (s : state) : Prop :=
  forall t, match threads s t with ResetPaths | ResetIters | Running | Exiting => True | _ => False end ->
    0 <= charged s t /\ 0 <= granted s t <= charged s t /\
    (charged s t < U64 -> counter s = charged s t /\ granted s t <= limit).

Definition iters_ok (s : state) : Prop :=
  0 <= minted s /\
  (minted s <= U64 ->
    iter_ids s = minted s mod U64 /\
    NoDup (pending s) /\
    (forall id, id ∈ pending s -> 0 <= id < minted s /\ cursors s !! id = None) /\
    (forall id, is_Some (cursors s !! id) -> 0 <= id < minted s)).

Ltac thread_case t u :=
  destruct (decide (t = u)) as [->|?];
  [rewrite ?fn_lookup_insert in * | rewrite ?fn_lookup_insert_ne in * by congruence].

Lemma holds_wake p : holds (wake p) = holds p.
Proof. destruct p; reflexivity. Qed.

(** Close a goal about thread [u] after a step of thread [t]. *)
Ltac step_case t u :=
  thread_case t u; simpl; rewrite ?holds_wake in *;
  try match goal with H : threads _ _ = _ |- _ => rewrite H in * end; simpl in *; intuition congruence.

Lemma slot_ok_step m b s s' : step m b s s' -> slot_ok s -> slot_ok s'.
Proof.
  intros Hs Hi; destruct Hs; intros u; pose proof (Hi u) as Hu; try pose proof (Hi t) as Ht; cbn -[insert] in *;
    try exact Hu; try step_case t u.
  all: try (rewrite holds_wake; exact Hu).
  all: try (unfold take_id; destruct (next_iter_id _); exact Hu).
Qed.

(** A thread that neither falls asleep nor owed a notification keeps the others' wakeup. *)
Lemma wakeup_ok_frame s t p u :
  wakeup_ok s -> threads s t <> Dropping -> p <> Waiting -> (<[t := p]> (threads s)) u = Waiting ->
  slot s <> None \/ exists d, (<[t := p]> (threads s)) d = Dropping.
Proof.
  intros Hi Ht Hp Hu. thread_case t u; [congruence|].
  destruct (Hi (ex_intro _ u Hu)) as [|[d Hd]]; [by left|right; exists d].
  by rewrite fn_lookup_insert_ne by congruence.
Qed.

Lemma wakeup_ok_step m b s s' : step m b s s' -> wakeup_ok s -> wakeup_ok s'.
Proof.
  intros Hs Hi; destruct Hs; intros [u Hu]; cbn -[insert] in *.
  all: try (unfold take_id in *; destruct (next_iter_id _); apply Hi; exists u; exact Hu).
  all: try (apply Hi; exists u; exact Hu).
  all: try (left; congruence).
  all: try (eapply wakeup_ok_frame; [exact Hi|congruence|discriminate|exact Hu]).
  - right. exists t. apply fn_lookup_insert.
  - thread_case t u; [congruence|]. by destruct (threads s u).
Qed.

(** The charge made by a step fits the budget it is decided against. *)
Lemma charge_sound limit c g n (r : bool * Z) :
  (r = charge_node (Some limit) c /\ n = 1) \/ (r = tick (Some limit) c n /\ 0 <= n < U64) ->
  0 <= g <= c -> g <= limit -> c + n < U64 ->
  snd r = c + n /\ g + (if fst r then n else 0) <= limit.
Proof.
  intros Hr Hg Hl Hc.
  assert (Hm : (c + n) mod U64 = c + n) by (apply Z.mod_small; unfold U64 in *; destruct Hr as [[_ ->]|[_ ?]]; lia).
  destruct Hr as [[-> ->]|[-> Hn]]; simpl; rewrite Hm; (split; [reflexivity|]).
  - destruct (Z.leb_spec limit c); simpl; lia.
  - rewrite Z.min_l by (unfold U64 in *; lia). destruct (Z.ltb_spec limit (c + n)); simpl; lia.
Qed.

Lemma budget_ok_charge limit s n r :
  0 <= limit ->
  (r = charge_node (Some limit) (counter s) /\ n = 1) \/ (r = tick (Some limit) (counter s) n /\ 0 <= n < U64) ->
  budget_ok limit s -> budget_ok limit (charge s n r).
Proof.
  intros Hl Hr Hi t Ht. specialize (Hi t Ht) as (Hc & Hg & Hb). simpl.
  assert (Hn : 0 <= n) by (destruct Hr as [[_ ->]|[_ ?]]; lia).
  split; [lia|]. split; [destruct (fst r); lia|]. intros Hu.
  destruct Hb as [E Hg2]; [lia|]. rewrite <- E in *.
  by destruct (charge_sound limit (counter s) (granted s t) n r) as [-> ?].
Qed.

Lemma budget_ok_step limit b s s' :
  0 <= limit -> step (Some limit) b s s' -> slot_ok s -> budget_ok limit s -> budget_ok limit s'.
Proof.
  intros Hl Hs Ho Hi; destruct Hs.
  all: try (intros u Hu; specialize (Hi u); cbn -[insert] in *; exact (Hi Hu)).
  all: try (apply budget_ok_charge; auto; fail).
  all: try (unfold take_id; destruct (next_iter_id _); intros u Hu; exact (Hi u Hu)).
  all: intros u Hu; pose proof (Hi u) as Hiu; cbn -[insert] in *; thread_case t u; simpl in *; try tauto.
  all: try (rewrite H in Hiu; exact (Hiu I)).
  - unfold U64; lia.
  - (* another thread resets the counter only when [u] does not hold the slot *)
    pose proof (proj2 (Ho u)) as Hou. pose proof (proj2 (Ho t)) as Hot. rewrite H in Hot.
    destruct (threads s u); try tauto; simpl in *; intuition congruence.
  - apply Hiu. by destruct (threads s u).
Qed.

Lemma iters_ok_step m b s s' : step m b s s' -> iters_ok s -> iters_ok s'.
Proof.
  intros Hs [H0 Hi]; destruct Hs; try (split; [exact H0|exact Hi]).
  - (* clear *) split; [exact H0|]; intros Hm; destruct (Hi Hm) as (A & B & C & D); simpl in *.
    split_and!; auto; intros id Hid.
    + split; [by apply C|apply lookup_empty].
    + rewrite lookup_empty in Hid. by destruct Hid.
  - (* take *) unfold take_id, next_iter_id, fetch_add. split; simpl; [lia|]. intros Hm.
    destruct Hi as (A & B & C & D); [lia|].
    rewrite Z.mod_small in A by (unfold U64 in *; lia). split_and!.
    + by rewrite A.
    + apply list.NoDup_cons. split; [|done]. intros Hin. apply C in Hin. lia.
    + intros id [->|Hid]%elem_of_cons.
      * split; [lia|]. apply eq_None_not_Some. intros Hs. apply D in Hs. lia.
      * destruct (C id Hid). split; [lia|done].
    + intros id Hs. apply D in Hs. lia.
  - (* seed *) split; simpl; [done|]. intros Hm. destruct (Hi Hm) as (A & B & C & D). rewrite H in B, C.
    apply list.NoDup_app in B as (B1 & B2 & B3). apply list.NoDup_cons in B3 as [B3 B4].
    assert (Hid0 : 0 <= id < minted s) by (apply C; set_solver).
    split_and!; auto.
    + apply list.NoDup_app. split_and!; auto. intros x Hx Hy. apply (B2 x Hx). set_solver.
    + intros x Hx. assert (x <> id) by (intros ->; apply elem_of_app in Hx as [Hx|Hx]; [apply (B2 _ Hx)|]; set_solver).
      unfold seed_cursor. rewrite lookup_insert_ne by congruence. apply C. set_solver.
    + unfold seed_cursor. intros x Hx. destruct (decide (x = id)) as [->|]; [done|].
      rewrite lookup_insert_ne in Hx by congruence. by apply D.
  - (* next *) split; simpl; [done|]. intros Hm. destruct (Hi Hm) as (A & B & C & D).
    unfold iter_cursor_fetch_and_inc.
    destruct (cursors s !! id) as [c|] eqn:E; [destruct (Nat.ltb c len)|]; simpl; split_and!; auto; intros x Hx.
    + destruct (C x Hx) as [? Hn]. split; [done|]. rewrite lookup_insert_ne; [done|congruence].
    + destruct (decide (x = id)) as [->|]; [apply D; by rewrite E|].
      rewrite lookup_insert_ne in Hx by congruence. by apply D.
Qed.

(** Rule induction over the interleavings. *)
Lemma reachable_ind' m (P : state -> Prop) :
  P initial -> (forall s s', reachable m s -> P s -> step m true s s' -> P s') ->
  forall s, reachable m s -> P s.
Proof.
  intros H0 Hstep s Hr. eapply (rtc_ind_r (R := step m true) P initial); eauto.
Qed.

Lemma reachable_slot_ok m s : reachable m s -> slot_ok s /\ wakeup_ok s.
Proof.
  revert s; apply reachable_ind'.
  - split; [intros t; simpl; split; discriminate | intros [t Ht]; discriminate].
  - intros s s' _ [] Hs. eauto using slot_ok_step, wakeup_ok_step.
Qed.

Lemma reachable_budget_ok limit s : 0 <= limit -> reachable (Some limit) s -> budget_ok limit s.
Proof.
  intros Hl. revert s; apply reachable_ind'; [intros t []|].
  intros s s' Hr Hb Hs. eapply budget_ok_step; eauto. by apply reachable_slot_ok in Hr as [].
Qed.

Lemma reachable_iters_ok m s : reachable m s -> iters_ok s.
Proof.
  revert s; apply reachable_ind'; [|intros s s' _ Hi Hs; by eapply iters_ok_step].
  split; simpl; [lia|]. intros _. split_and!; [done|apply base.NoDup_nil_2| |].
  - intros id Hid. by apply not_elem_of_nil in Hid.
  - intros id [? Hid]. by rewrite lookup_empty in Hid.
Qed.

(** ** Progress *)

(** A chain of at most [k] steps without spurious wakeups. *)
Definition within (m : option Z) (k : nat) (s s' : state) : Prop :=
  exists n, (n <= k)%nat /\ nsteps (step m false) n s s'.

Lemma within_step m k s s' s'' : step m false s s' -> within m k s' s'' -> within m (S k) s s''.
Proof. intros Hs (n & Hn & H). exists (S n). split; [lia|]. by apply nsteps_l with s'. Qed.

Lemma within_refl m k s : within m k s s.
Proof. exists O. split; [lia|constructor]. Qed.

Lemma within_weaken m k k' s s' : (k <= k')%nat -> within m k s s' -> within m k' s s'.
Proof. intros Hk (n & Hn & H). exists n. split; [lia|done]. Qed.

(** What the waiting thread needs: it is queued and either the slot is free (and, asleep,
    a notification is on its way) or someone else owns it. *)
Lemma claim_free m s t d :
  slot s = None -> threads s t = Entering \/ (threads s t = Waiting /\ threads s d = Dropping) ->
  exists s', within m 2 s s' /\ slot s' = Some t /\ threads s' t = ResetSteps.
Proof.
  intros Hn [Ht|[Ht Hd]].
  - eexists. split; [apply within_step with (2 := within_refl _ _ _), (st_claim _ _ _ t)|]; [done..|].
    split; [done|]. apply fn_lookup_insert.
  - eexists. split; [eapply within_step; [apply (st_notify _ _ _ d Hd)|]|].
    + eapply within_step; [apply (st_claim _ _ _ t)|apply within_refl]; [|done].
      cbn -[insert]. rewrite fn_lookup_insert_ne by congruence. by rewrite Ht.
    + split; [done|]. apply fn_lookup_insert.
Qed.

Lemma claim_free_queued m s t :
  slot s = None -> wakeup_ok s -> threads s t = Entering \/ threads s t = Waiting ->
  exists s', within m 2 s s' /\ slot s' = Some t /\ threads s' t = ResetSteps.
Proof.
  intros Hn Hw [Ht|Ht]; [apply (claim_free m s t t); auto|].
  destruct (Hw (ex_intro _ t Ht)) as [|[d Hd]]; [done|]. apply (claim_free m s t d); auto.
Qed.

(** The owner of the slot can always finish: a queued thread is then next. *)
Lemma claim_owned m o t : forall k s,
  slot s = Some o -> o <> t -> threads s t = Entering \/ threads s t = Waiting ->
  match threads s o with
  | Exiting => k = 0 | Running => k = 1 | ResetIters => k = 2 | ResetPaths => k = 3 | ResetSteps => k = 4
  | _ => False
  end%nat ->
  exists s', within m (3 + k) s s' /\ slot s' = Some t /\ threads s' t = ResetSteps.
Proof.
  induction k as [|k IH]; intros s Hs Hne Ht Ho; destruct (threads s o) eqn:E; try done.
  - destruct (claim_free m (move (set_slot s None) o Dropping) t o) as (s' & Hw & ?); [done| |].
    + cbn -[insert]. rewrite fn_lookup_insert, fn_lookup_insert_ne by done. tauto.
    + exists s'. split; [|done]. eapply within_step; [by apply st_release|done].
  - destruct (IH (move (store_zero s o) o ResetPaths)) as (s' & Hw & ?);
      cbn -[insert]; rewrite ?fn_lookup_insert, ?fn_lookup_insert_ne by done; auto with lia.
    exists s'. split; [|done]. eapply within_step; [by apply st_reset_steps|done].
  - destruct (IH (move s o ResetIters)) as (s' & Hw & ?);
      cbn -[insert]; rewrite ?fn_lookup_insert, ?fn_lookup_insert_ne by done; auto with lia.
    exists s'. split; [|done]. eapply within_step; [by apply st_reset_paths|done].
  - destruct (IH (move (clear_cursors s) o Running)) as (s' & Hw & ?);
      cbn -[insert]; rewrite ?fn_lookup_insert, ?fn_lookup_insert_ne by done; auto with lia.
    exists s'. split; [|done]. eapply within_step; [by apply st_reset_iters|done].
  - destruct (IH (move s o Exiting)) as (s' & Hw & ?);
      cbn -[insert]; rewrite ?fn_lookup_insert, ?fn_lookup_insert_ne by done; auto with lia.
    exists s'. split; [|done]. eapply within_step; [by apply st_return|done].
Qed.

(** ** Advancing iterators *)

(** The results of a sequence of [next] calls [(iterator, length of its source)], in order. *)
Fixpoint nexts (cursors : gmap Z nat) (calls : list (Z * nat)) : list (Z * option nat) :=
  match calls with
  | [] => []
  | (id, len) :: calls =>
      let '(r, cursors) := iter_cursor_fetch_and_inc cursors id len in (id, r) :: nexts cursors calls
  end.

(** What iterator [id] was answered. *)
Definition answers (id : Z) (rs : list (Z * option nat)) : list (option nat) :=
  map snd (List.filter (fun r => fst r =? id) rs).

(** The answers a source of [len] elements owes from position [c] on. *)
Definition positions (c len calls : nat) : list (option nat) :=
  map (fun k => if Nat.ltb k len then Some k else None) (seq c calls).

Lemma positions_exhausted c c' len calls :
  (len <= c)%nat -> (len <= c')%nat -> positions c len calls = positions c' len calls.
Proof.
  intros H H'. unfold positions. revert c c' H H'. induction calls as [|n IH]; intros c c' H H'; [done|]. simpl.
  rewrite (proj2 (Nat.ltb_ge c len)), (proj2 (Nat.ltb_ge c' len)) by lia. f_equal. apply IH; lia.
Qed.

Lemma nexts_positions id len : forall calls cursors c,
  cursors !! id = Some c ->
  Forall (fun call => fst call = id -> snd call = len) calls ->
  answers id (nexts cursors calls) =
  positions c len (length (List.filter (fun call => fst call =? id) calls)).
Proof.
  induction calls as [|[i l] calls IH]; intros cursors c Hc Hall; [done|].
  apply list.Forall_cons in Hall as [Hl Hall]. simpl in Hl. simpl nexts.
  unfold iter_cursor_fetch_and_inc. destruct (Z.eqb_spec i id) as [->|Hne].
  - rewrite Hc, (Hl eq_refl). unfold answers, positions in *. simpl. rewrite Z.eqb_refl. simpl.
    destruct (Nat.ltb_spec c len) as [Hlt|Hge]; simpl; rewrite Z.eqb_refl; simpl; f_equal.
    + apply IH; [|done]. apply lookup_insert_eq.
    + rewrite (IH _ c) by done. by apply positions_exhausted; lia.
  - destruct (cursors !! i) as [ci|] eqn:Ei; [destruct (Nat.ltb ci l)|]; unfold answers in *; simpl;
      rewrite (proj2 (Z.eqb_neq i id) Hne); simpl; apply IH; try done.
    by rewrite lookup_insert_ne.
Qed.

(** ** Claims *)

(** C23 Top-level runs on one context are serialised under every interleaving: at most one
    thread is between claiming the slot and dropping its guard, and the slot names exactly
    that thread; a thread that is not mid-run never finds the slot its own, so only a
    re-entrant call panics, and a re-entrant call never goes to sleep; and no wakeup is
    lost: while a thread sleeps, the slot is owned or a notification is on its way. *)
Theorem top_level_runs_serialised (m : option Z) (s : state) (Hr : reachable m s) :
  (forall t u, holds (threads s t) = true -> holds (threads s u) = true -> t = u) /\
  (forall t, slot s = Some t <-> holds (threads s t) = true) /\
  (forall t, threads s t = Entering -> slot s <> Some t) /\
  (forall t, threads s t = Running -> slot s = Some t) /\
  ((exists t, threads s t = Waiting) -> slot s <> None \/ exists d, threads s d = Dropping).
Proof.
  apply reachable_slot_ok in Hr as [Ho Hw]. split_and!; auto.
  - intros t u Ht Hu. apply Ho in Ht, Hu. congruence.
  - intros t Ht Hs. apply Ho in Hs. by rewrite Ht in Hs.
  - intros t Ht. apply Ho. by rewrite Ht.
Qed.

(** C24 The step budget cannot be escaped: while a thread is in a top-level run, the steps
    granted since it reset the counter, whichever threads charged them, never exceed the
    limit, and the shared counter holds exactly the steps charged since that reset: no
    other thread resets it.  This holds under every interleaving, as long as fewer than
    2^64 steps were charged since the reset. *)
Theorem step_budget_enforced (limit : Z) (s : state) (t : nat) (Hl : 0 <= limit)
    (Hr : reachable (Some limit) s) (Ht : threads s t = Running) (Hc : charged s t < U64) :
  granted s t <= limit /\ counter s = charged s t.
Proof.
  apply reachable_budget_ok in Hr; [|done].
  destruct (Hr t) as (_ & _ & Hb); [by rewrite Ht|]. destruct (Hb Hc). done.
Qed.

(** C25 A queued thread is never stuck: from every reachable state in which a thread is
    about to lock the slot or asleep on the condition variable, at most seven steps,
    none of them a spurious wakeup, lead to a state in which it owns the slot. *)
Theorem queued_run_can_start (m : option Z) (s : state) (t : nat) (Hr : reachable m s)
    (Ht : threads s t = Entering \/ threads s t = Waiting) :
  exists s', within m 7 s s' /\ slot s' = Some t /\ threads s' t = ResetSteps.
Proof.
  apply reachable_slot_ok in Hr as [Ho Hw].
  destruct (slot s) as [o|] eqn:Es.
  - assert (Hot : o <> t) by (intros ->; apply Ho in Es; by destruct Ht as [Ht|Ht]; rewrite Ht in Es).
    pose proof (proj1 (Ho o) Es) as Hh.
    destruct (threads s o) eqn:E; try done;
      (edestruct (claim_owned m o t) as (s' & Hw' & ?); [done..|by rewrite E|]; exists s'; split; [|done]);
      eapply within_weaken; try exact Hw'; lia.
  - destruct (claim_free_queued m s t) as (s' & Hw' & ?); auto. exists s'. split; [|done].
    eapply within_weaken; [|exact Hw']. lia.
Qed.

(** Iterators: ids are never reused while fewer than 2^64 were minted, so that seeding
    the cursor of a new id never rewinds a live iterator, and an iterator whose cursor
    stands at [c] is answered [c], [c+1], ... up to the length of its source and then
    always the end, however the calls on it interleave with calls on others. *)
Theorem iterators_advance (m : option Z) (s : state) (Hr : reachable m s) (Hm : minted s < U64) :
  (forall id, id ∈ fst (next_iter_id (iter_ids s)) :: pending s -> cursors s !! id = None) /\
  NoDup (fst (next_iter_id (iter_ids s)) :: pending s) /\
  (forall id c len calls, cursors s !! id = Some c ->
    Forall (fun call => fst call = id -> snd call = len) calls ->
    answers id (nexts (cursors s) calls) =
    positions c len (length (List.filter (fun call => fst call =? id) calls))).
Proof.
  apply reachable_iters_ok in Hr as [H0 Hi]. destruct Hi as (A & B & C & D); [lia|].
  rewrite Z.mod_small in A by (unfold U64 in *; lia). simpl. split_and!.
  - intros id [->|Hid]%elem_of_cons; [|by apply C].
    apply eq_None_not_Some. intros Hs. apply D in Hs. lia.
  - apply list.NoDup_cons. split; [|done]. intros Hin. apply C in Hin. lia.
  - intros id c len calls. apply nexts_positions.
Qed.

(** Thread 0 runs under a budget of ten, has charged one node and minted an iterator;
    thread 1 sleeps. *)
Definition scenario : state :=
  let s := move initial 0 Entering in
  let s := move (set_slot s (Some 0%nat)) 0 ResetSteps in
  let s := move (store_zero s 0) 0 ResetPaths in
  let s := move s 0 ResetIters in
  let s := move (clear_cursors s) 0 Running in
  let s := charge s 1 (charge_node (Some 10) (counter s)) in
  let s := move s 1 Entering in
  let s := move s 1 Waiting in
  let s := take_id s in
  seed s [] 0 [].

Lemma scenario_reachable : reachable (Some 10) scenario.
Proof.
  eapply rtc_l; [apply (st_call _ _ _ 0%nat); reflexivity|].
  eapply rtc_l; [apply (st_claim _ _ _ 0%nat); reflexivity|].
  eapply rtc_l; [apply (st_reset_steps _ _ _ 0%nat); reflexivity|].
  eapply rtc_l; [apply (st_reset_paths _ _ _ 0%nat); reflexivity|].
  eapply rtc_l; [apply (st_reset_iters _ _ _ 0%nat); reflexivity|].
  eapply rtc_l; [apply st_node|].
  eapply rtc_l; [apply (st_call _ _ _ 1%nat); reflexivity|].
  eapply rtc_l; [apply (st_wait _ _ _ 1%nat 0%nat); [reflexivity..|discriminate]|].
  eapply rtc_l; [apply st_take_id|].
  apply rtc_once, (st_seed _ _ _ [] 0 []). reflexivity.
Qed.

Lemma top_level_runs_serialised_witness :
  slot scenario = Some 0%nat <-> holds (threads scenario 0%nat) = true.
Proof. exact (proj1 (proj2 (top_level_runs_serialised (Some 10) scenario scenario_reachable)) 0%nat). Defined.

Lemma step_budget_enforced_witness : granted scenario 0%nat <= 10 /\ counter scenario = 1.
Proof.
  destruct (step_budget_enforced 10 scenario 0%nat ltac:(lia) scenario_reachable eq_refl ltac:(vm_compute; reflexivity))
    as [H1 H2].
  split; [exact H1|rewrite H2; reflexivity].
Defined.

Lemma queued_run_can_start_witness :
  exists s', within (Some 10) 7 scenario s' /\ slot s' = Some 1%nat /\ threads s' 1%nat = ResetSteps.
Proof. exact (queued_run_can_start (Some 10) scenario 1%nat scenario_reachable (or_intror eq_refl)). Defined.

Lemma iterators_advance_witness :
  answers 0 (nexts (cursors scenario) [(0, 2%nat); (7, 5%nat); (0, 2%nat); (0, 2%nat)])
  = [Some 0%nat; Some 1%nat; None].
Proof.
  destruct (iterators_advance (Some 10) scenario scenario_reachable ltac:(vm_compute; reflexivity)) as (_ & _ & H).
  rewrite (H 0 0%nat 2%nat); [reflexivity|vm_compute; reflexivity|].
  repeat constructor; simpl; lia.
Defined.
End Ctx.
