(* ===== verification/Modules.v ===== *)
(** Module loading: [load_module], [resolve_module_source], [evaluate_module_source] and
    [verify_module_integrity] of [crates/relon-evaluator/src/eval.rs], over the module
    cache and the table of modules being loaded of
    [crates/relon-eval-api/src/context.rs].

    The evaluation of a module's body is any computation that may load further modules on
    the way, as a tree: a result, an import and what follows from its outcome, or an
    evaluation that never returns, such as an unbounded recursion of closures.  What the import path resolves to is any list of resolvers; the
    digest is any function. *)

From Stdlib Require Import ZArith Lia Bool Ascii.
From stdpp Require Import base list strings gmap sets fin_sets.
From S2P Require Import Prelude.

Module Modules.

(** ** Sources and pins *)

Record ModuleSource : Type := MkModuleSource {
  canonical_id : string;
  source : string;
  current_dir : string;
}.

Inductive HashAlgorithm : Type := Sha256.

Definition as_str (a : HashAlgorithm) : string := match a with Sha256 => "sha256" end.

Definition from_ident (name : string) : option HashAlgorithm :=
  if String.eqb name "sha256" then Some Sha256 else None.

Definition hex_len (a : HashAlgorithm) : nat := match a with Sha256 => 64 end.

Record IntegrityHash : Type := MkIntegrityHash {
  algorithm : option HashAlgorithm;
  algorithm_text : string;
  hex : string;
}.

Inductive RuntimeError : Type :=
| ModuleNotFound (path : string)
| CircularImport (loading : gset string)
| ImportHashUnknownAlgorithm (path algorithm : string)
| ImportHashInvalidHex (path algorithm : string) (expected_len got_len : nat)
| ImportHashMismatch (path algorithm expected got : string)
| Other (message : string).

(** [u8::is_ascii_hexdigit], on the bytes of the pin. *)
Definition is_ascii_hexdigit (c : ascii) : bool :=
  let n := N_of_ascii c in
  ((48 <=? n)%N && (n <=? 57)%N) || ((65 <=? n)%N && (n <=? 70)%N) || ((97 <=? n)%N && (n <=? 102)%N).

Definition to_ascii_lowercase_byte (c : ascii) : ascii :=
  let n := N_of_ascii c in if ((65 <=? n)%N && (n <=? 90)%N) then ascii_of_N (n + 32) else c.

Fixpoint string_all (f : ascii -> bool) (s : string) : bool :=
  match s with EmptyString => true | String c s => f c && string_all f s end.

Fixpoint to_ascii_lowercase (s : string) : string :=
  match s with EmptyString => EmptyString | String c s => String (to_ascii_lowercase_byte c) (to_ascii_lowercase s) end.

Definition eq_ignore_ascii_case (s t : string) : bool := String.eqb (to_ascii_lowercase s) (to_ascii_lowercase t).

Section Loading.
Context {V : Type}.
(* the lower-case hex digest of a body *)
Context (digest : HashAlgorithm -> string -> string).

Definition result : Type := RuntimeError + V.

Definition verify_module_integrity (raw_path : string) (pin : IntegrityHash) (body : string)
    : RuntimeError + unit :=
  match algorithm pin with
  | None => inl (ImportHashUnknownAlgorithm raw_path (algorithm_text pin))
  | Some algo =>
      if negb (Nat.eqb (String.length (hex pin)) (hex_len algo)) || negb (string_all is_ascii_hexdigit (hex pin))
      then inl (ImportHashInvalidHex raw_path (as_str algo) (hex_len algo) (String.length (hex pin)))
      else
        let computed := digest algo body in
        if negb (eq_ignore_ascii_case (hex pin) computed)
        then inl (ImportHashMismatch raw_path (as_str algo) (to_ascii_lowercase (hex pin)) computed)
        else inr tt
  end.

(** ** The shared tables *)

Record state : Type := MkState {
  module_cache : gmap string V;
  loading_modules : gmap string nat;
}.

Definition enter_loading_module (s : state) (id : string) : state :=
  MkState (module_cache s) (<[id := S (default O (loading_modules s !! id))]> (loading_modules s)).

(** [LoadingModuleGuard::drop] *)
Definition drop_guard (s : state) (id : string) : state :=
  MkState (module_cache s)
    (match loading_modules s !! id with
     | None => loading_modules s
     | Some count =>
         if Nat.eqb (count - 1) 0 then delete id (loading_modules s)
         else <[id := (count - 1)%nat]> (loading_modules s)
     end).

Definition cache_module (s : state) (id : string) (v : V) : state :=
  MkState (<[id := v]> (module_cache s)) (loading_modules s).

(** ** Bodies *)

Inductive body : Type :=
| Done (r : result)
| Import (path : string) (integrity : option IntegrityHash) (k : result -> body)
| Diverge.

(** No run of the body diverges by itself, whatever its imports answer. *)
Fixpoint settles (b : body) : Prop :=
  match b with
  | Done _ => True
  | Import _ _ k => forall r, settles (k r)
  | Diverge => False
  end.

(* [current_dir] stands for the scope an import is resolved in *)
Definition resolver : Type := string -> string -> RuntimeError + option ModuleSource.

Context (module_resolvers : list resolver).
(* parsing, analysing and walking a module's source in its own scope *)
Context (body_of : ModuleSource -> body).

Fixpoint resolve_with (resolvers : list resolver) (path dir : string) : RuntimeError + ModuleSource :=
  match resolvers with
  | [] => inl (ModuleNotFound path)
  | r :: resolvers =>
      match r path dir with
      | inl e => inl e
      | inr (Some source) => inr source
      | inr None => resolve_with resolvers path dir
      end
  end.

Definition resolve_module_source (path dir : string) : RuntimeError + ModuleSource :=
  resolve_with module_resolvers path dir.

(** The body of a module whose directory is [dir]; [load] serves its imports. *)
Fixpoint run_body (load : string -> option IntegrityHash -> string -> state -> option (result * state))
    (dir : string) (b : body) (s : state) : option (result * state) :=
  match b with
  | Done r => Some (r, s)
  | Import path integrity k =>
      match load path integrity dir s with
      | None => None
      | Some (r, s) => run_body load dir (k r) s
      end
  | Diverge => None
  end.

(** [evaluate_module_source], its imports served by [load]. *)
Definition evaluate_with load (src : ModuleSource) (s : state) : option (result * state) :=
  let id := canonical_id src in
  match module_cache s !! id with
  | Some cached => Some (inr cached, s)
  | None =>
      if bool_decide (is_Some (loading_modules s !! id))
      then Some (inl (CircularImport (dom (loading_modules s))), s)
      else
        match run_body load (current_dir src) (body_of src) (enter_loading_module s id) with
        | None => None
        | Some (inl e, s) => Some (inl e, drop_guard s id)
        | Some (inr v, s) => Some (inr v, drop_guard (cache_module s id v) id)
        end
  end.

(** [load_module]; the fuel bounds the depth of nested imports. *)
Fixpoint load_module (fuel : nat) (path : string) (integrity : option IntegrityHash) (dir : string) (s : state)
    : option (result * state) :=
  match fuel with
  | O => None
  | S fuel =>
      match resolve_module_source path dir with
      | inl e => Some (inl e, s)
      | inr src =>
          match (match integrity with
                 | Some pin => verify_module_integrity path pin (source src)
                 | None => inr tt
                 end) with
          | inl e => Some (inl e, s)
          | inr _ => evaluate_with (load_module fuel) src s
          end
      end
  end.

(** ** Guards balance on every path *)

(** What one load leaves of the state: the same modules are loading, the cache has only
    grown, and not by a module that is still loading. *)
Definition frame (s s' : state) : Prop :=
  loading_modules s' = loading_modules s /\ module_cache s ⊆ module_cache s' /\
  forall id, is_Some (loading_modules s !! id) -> module_cache s' !! id = module_cache s !! id.

#[local] Instance frame_preorder : PreOrder frame.
Proof.
  split; [by repeat split|]. intros s1 s2 s3 (L1 & C1 & N1) (L2 & C2 & N2). split_and!; [congruence|by etrans|].
  intros id Hid. rewrite N2, N1; [done..|by rewrite L1].
Qed.

Definition framed (load : string -> option IntegrityHash -> string -> state -> option (result * state)) : Prop :=
  forall path pin dir s r s', load path pin dir s = Some (r, s') -> frame s s'.

Lemma run_body_frame load dir b : framed load -> forall s r s',
  run_body load dir b s = Some (r, s') -> frame s s'.
Proof.
  intros Hl. induction b as [r0|path pin k IH|]; intros s r s' H; simpl in H; [by simplify_eq| |done].
  destruct (load path pin dir s) as [[r1 s1]|] eqn:E; [|done].
  etrans; [by eapply Hl|by eapply IH].
Qed.

Lemma guard_balanced s s' id :
  loading_modules s !! id = None -> frame (enter_loading_module s id) s' -> frame s (drop_guard s' id).
Proof.
  intros Hn (HL & HC & HN). split_and!; simpl in *; [|done|].
  - rewrite HL, lookup_insert_eq, Hn. simpl. by apply delete_insert_id.
  - intros i Hi. apply HN. rewrite lookup_insert_ne by (intros ->; rewrite Hn in Hi; by destruct Hi). done.
Qed.

(** Caching the module that was being loaded, which nothing else has cached. *)
Lemma cache_balanced s s' id v :
  loading_modules s !! id = None -> module_cache s !! id = None ->
  frame (enter_loading_module s id) s' -> frame s (drop_guard (cache_module s' id v) id).
Proof.
  intros Hn Hc Hf. pose proof (guard_balanced s s' id Hn Hf) as (HL & HC & HN).
  destruct Hf as (_ & _ & HN'). split_and!; simpl in *; [done| |].
  - apply insert_subseteq_r; [done|]. done.
  - intros i Hi. rewrite lookup_insert_ne by (intros ->; rewrite Hn in Hi; by destruct Hi). by apply HN.
Qed.

Lemma evaluate_with_frame load src s r s' :
  framed load -> evaluate_with load src s = Some (r, s') -> frame s s'.
Proof.
  intros Hl H. unfold evaluate_with in H.
  destruct (module_cache s !! canonical_id src) as [v|] eqn:Ec; [by simplify_eq|].
  case_bool_decide as Hlo; [by simplify_eq|]. apply eq_None_not_Some in Hlo.
  destruct (run_body _ _ _ _) as [[[e|v] s1]|] eqn:E; [| |done]; simplify_eq;
    apply run_body_frame in E; auto using guard_balanced, cache_balanced.
Qed.

Lemma load_module_frame fuel : framed (load_module fuel).
Proof.
  induction fuel as [|fuel IH]; intros path pin dir s r s' H; [done|]. simpl in H.
  destruct (resolve_module_source path dir) as [e|src]; [by simplify_eq|].
  destruct (match pin with Some _ => _ | None => _ end); [by simplify_eq|].
  by eapply evaluate_with_frame.
Qed.

(** ** Termination *)

Section Termination.
Context (ids : gset string).
Context (Hids : forall path dir src, resolve_module_source path dir = inr src -> canonical_id src ∈ ids).
Context (Hbody : forall path dir src, resolve_module_source path dir = inr src -> settles (body_of src)).

(** The modules that may still start loading. *)
Definition room (s : state) : nat := size (ids ∖ dom (loading_modules s)).

Lemma room_enter s id :
  id ∈ ids -> loading_modules s !! id = None -> (room (enter_loading_module s id) < room s)%nat.
Proof.
  clear Hids Hbody. intros Hin Hn. unfold room. simpl. apply not_elem_of_dom in Hn. rewrite dom_insert_L.
  apply subset_size. set_solver.
Qed.

Lemma run_body_total load dir b :
  framed load -> settles b -> forall s,
  (forall path pin s', loading_modules s' = loading_modules s -> load path pin dir s' <> None) ->
  run_body load dir b s <> None.
Proof.
  intros Hf. induction b as [r|path pin k IH|]; intros Hset s Hl; simpl; [done| |done].
  destruct (load path pin dir s) as [[r s1]|] eqn:E; [|by apply Hl in E].
  apply IH; [apply Hset|]. intros path' pin' s' Hs'. apply Hl. rewrite Hs'. by apply Hf in E as [-> _].
Qed.

Lemma load_module_total : forall fuel path pin dir s,
  (room s < fuel)%nat -> load_module fuel path pin dir s <> None.
Proof.
  induction fuel as [|fuel IH]; intros path pin dir s Hr; [lia|]. simpl.
  destruct (resolve_module_source path dir) as [e|src] eqn:Es; [done|].
  destruct (match pin with Some _ => _ | None => _ end); [done|]. unfold evaluate_with.
  destruct (module_cache s !! canonical_id src); [done|]. case_bool_decide as Hl; [done|].
  apply eq_None_not_Some in Hl.
  pose proof (room_enter s (canonical_id src) (Hids _ _ _ Es) Hl).
  destruct (run_body _ _ _ _) as [[[e|v] s1]|] eqn:E; [done..|].
  apply run_body_total in E; [done|apply load_module_frame|by eapply Hbody|].
  intros path' pin' s' Hs'. apply IH. unfold room in *. rewrite Hs'. lia.
Qed.
End Termination.

(** ** Fuel *)

Lemma run_body_more load load' dir b :
  (forall path pin s x, load path pin dir s = Some x -> load' path pin dir s = Some x) ->
  forall s x, run_body load dir b s = Some x -> run_body load' dir b s = Some x.
Proof.
  intros Hl. induction b as [r|path pin k IH|]; intros s x H; simpl in *; [done| |done].
  destruct (load path pin dir s) as [[r s1]|] eqn:E; [|done]. rewrite (Hl _ _ _ _ E). by apply IH.
Qed.

Lemma load_module_S : forall fuel path pin dir s x,
  load_module fuel path pin dir s = Some x -> load_module (S fuel) path pin dir s = Some x.
Proof.
  induction fuel as [|fuel IH]; intros path pin dir s x H; [done|]. revert H.
  change (load_module (S (S fuel)) path pin dir s) with
    (match resolve_module_source path dir with
     | inl e => Some (inl e, s)
     | inr src =>
         match (match pin with Some pin => verify_module_integrity path pin (source src) | None => inr tt end) with
         | inl e => Some (inl e, s)
         | inr _ => evaluate_with (load_module (S fuel)) src s
         end
     end).
  simpl load_module at 1. destruct (resolve_module_source path dir) as [e|src]; [done|].
  destruct (match pin with Some _ => _ | None => _ end); [done|]. unfold evaluate_with.
  destruct (module_cache s !! canonical_id src); [done|]. case_bool_decide; [done|].
  destruct (run_body (load_module fuel) _ _ _) as [[r s1]|] eqn:E; [|done].
  by rewrite (run_body_more _ (load_module (S fuel)) _ _ (fun path pin s x => IH path pin _ s x) _ _ E).
Qed.

Lemma load_module_more fuel fuel' path pin dir s x :
  (fuel <= fuel')%nat -> load_module fuel path pin dir s = Some x -> load_module fuel' path pin dir s = Some x.
Proof. induction 1; auto using load_module_S. Qed.

(** ** Claims *)

(** C26 Loading a module terminates on every import graph, cyclic ones included: when the
    resolvers can produce only finitely many modules, and the evaluation of none of their
    bodies diverges by itself, a load returns a value or an error whatever the bodies
    import in whatever order; the depth of nested imports it needs is at most one more than
    the number of modules not already loading, and more fuel changes nothing. *)
Theorem load_module_terminates (ids : gset string)
    (Hids : forall path dir src, resolve_module_source path dir = inr src -> canonical_id src ∈ ids)
    (Hbody : forall path dir src, resolve_module_source path dir = inr src -> settles (body_of src))
    (path : string) (pin : option IntegrityHash) (dir : string) (s : state) :
  exists r s', forall fuel, (size (ids ∖ dom (loading_modules s)) < fuel)%nat ->
    load_module fuel path pin dir s = Some (r, s').
Proof.
  pose proof (load_module_total ids Hids Hbody (S (room ids s)) path pin dir s (le_n _)) as Ht.
  destruct (load_module (S (room ids s)) path pin dir s) as [[r s']|] eqn:E; [|done].
  exists r, s'. intros fuel Hf. eapply load_module_more; [|exact E]. done.
Qed.

(** Guards and cache: whether a load succeeds or fails, at any depth, the modules marked
    as loading afterwards are exactly those marked before, and no cached module is lost or
    replaced; after a success the module is cached, and every later load of the same path
    (unpinned, from a state that kept the cache) returns the same value and touches
    nothing: a body is evaluated at most once. *)
Theorem load_module_balanced (fuel : nat) (path : string) (pin : option IntegrityHash) (dir : string)
    (s : state) (r : result) (s' : state) (H : load_module fuel path pin dir s = Some (r, s')) :
  loading_modules s' = loading_modules s /\ module_cache s ⊆ module_cache s' /\
  (forall v, r = inr v -> forall s'' n, module_cache s' ⊆ module_cache s'' ->
     load_module (S n) path None dir s'' = Some (inr v, s'')).
Proof.
  pose proof (load_module_frame fuel _ _ _ _ _ _ H) as (HL & HC & _). split_and!; [done..|].
  intros v -> s'' n Hsub. destruct fuel as [|fuel]; [done|]. simpl in *.
  destruct (resolve_module_source path dir) as [e|src]; [done|].
  destruct (match pin with Some _ => _ | None => _ end); [done|].
  unfold evaluate_with in H |- *.
  assert (Hv : module_cache s' !! canonical_id src = Some v).
  { destruct (module_cache s !! canonical_id src) as [w|] eqn:Ec; [by simplify_eq|].
    case_bool_decide; [done|]. destruct (run_body _ _ _ _) as [[[e|w] s1]|]; simplify_eq. apply lookup_insert_eq. }
  by rewrite (lookup_weaken _ _ _ _ Hv Hsub).
Qed.

(** An integrity pin is enforced before a body is looked at: a pinned load that returns
    a value, or that changes any state, resolved to a source whose digest is the pin up to
    letter case, under a known algorithm; any other pin is refused with an error that says
    why and leaves every table as it was. *)
Theorem pinned_import_verified (fuel : nat) (path : string) (pin : IntegrityHash) (dir : string) (s : state)
    (src : ModuleSource) (Hsrc : resolve_module_source path dir = inr src) :
  (algorithm pin = Some Sha256 /\ String.length (hex pin) = 64 /\ string_all is_ascii_hexdigit (hex pin) = true /\
   to_ascii_lowercase (hex pin) = to_ascii_lowercase (digest Sha256 (source src)) /\
   load_module (S fuel) path (Some pin) dir s = load_module (S fuel) path None dir s) \/
  exists e, load_module (S fuel) path (Some pin) dir s = Some (inl e, s) /\
    match e with
    | ImportHashUnknownAlgorithm p a => algorithm pin = None /\ p = path /\ a = algorithm_text pin
    | ImportHashInvalidHex p a n k =>
        p = path /\ k = String.length (hex pin) /\ (k <> n \/ string_all is_ascii_hexdigit (hex pin) = false)
    | ImportHashMismatch p a x g =>
        p = path /\ x = to_ascii_lowercase (hex pin) /\ g = digest Sha256 (source src) /\ x <> to_ascii_lowercase g
    | _ => False
    end.
Proof.
  simpl. rewrite Hsrc. unfold verify_module_integrity.
  destruct (algorithm pin) as [[]|] eqn:Ea; [|right; by eexists].
  destruct (Nat.eqb_spec (String.length (hex pin)) (hex_len Sha256)) as [El|El]; simpl.
  2: { right. eexists. split; [reflexivity|]. simpl. tauto. }
  destruct (string_all is_ascii_hexdigit (hex pin)) eqn:Eh; simpl.
  2: { right. eexists. split; [reflexivity|]. simpl. tauto. }
  unfold eq_ignore_ascii_case. destruct (String.eqb_spec (to_ascii_lowercase (hex pin)) (to_ascii_lowercase (digest Sha256 (source src)))) as [Ed|Ed];
    simpl; [left; tauto|right; eexists; split; [reflexivity|]; simpl; tauto].
Qed.

(** A body whose first act is to import [path] and which passes an error of that import on. *)
Definition first_imports (b : body) (path : string) : Prop :=
  exists k, b = Import path None k /\ forall e, k (inl e) = Done (inl e).

Lemma drop_enter s id : loading_modules s !! id = None -> drop_guard (enter_loading_module s id) id = s.
Proof.
  intros Hn. destruct s as [c l]. unfold drop_guard, enter_loading_module. simpl in *.
  rewrite lookup_insert_eq, Hn. simpl. by rewrite delete_insert_id.
Qed.

(** Import cycles are rejected, not followed: when every module of a chain starts by
    importing the next one, forever (so that, the modules being finitely many, the chain
    comes back on itself), loading any module of it answers [CircularImport] with a set
    that contains a module of the chain, and leaves every table as it was. *)
Theorem import_cycle_rejected (ids : gset string)
    (Hids : forall path dir src, resolve_module_source path dir = inr src -> canonical_id src ∈ ids)
    (chain : nat -> ModuleSource) (path : nat -> string)
    (Hfirst : forall i, first_imports (body_of (chain i)) (path i))
    (Hnext : forall i, resolve_module_source (path i) (current_dir (chain i)) = inr (chain (S i)))
    (s : state) (Hcold : forall i, module_cache s !! canonical_id (chain i) = None)
    (i fuel : nat) (Hfuel : (size (ids ∖ dom (loading_modules s)) < fuel)%nat) :
  exists loading j, load_module fuel (path i) None (current_dir (chain i)) s = Some (inl (CircularImport loading), s) /\
    canonical_id (chain j) ∈ loading.
Proof.
  revert i s Hcold Hfuel. induction fuel as [|fuel IH]; intros i s Hcold Hfuel; [lia|]. simpl. rewrite Hnext.
  unfold evaluate_with. rewrite Hcold. case_bool_decide as Hl.
  - exists (dom (loading_modules s)), (S i). split; [done|]. by apply elem_of_dom.
  - apply eq_None_not_Some in Hl. destruct (Hfirst (S i)) as (k & -> & Hk). simpl.
    pose proof (room_enter ids s _ (Hids _ _ _ (Hnext i)) Hl) as Hroom. unfold room in Hroom.
    destruct (IH (S i) (enter_loading_module s (canonical_id (chain (S i))))) as (L & j & E & Hj); [done|lia|].
    rewrite E, Hk. simpl. exists L, j. split; [|done]. by rewrite drop_enter.
Qed.
End Loading.

(** ** Witnesses *)

(** Two modules that import each other, and a leaf. *)
Definition example_resolver : resolver := fun path _ =>
  if String.eqb path "a" then inr (Some (MkModuleSource "a" "import b" ""))
  else if String.eqb path "b" then inr (Some (MkModuleSource "b" "import a" ""))
  else if String.eqb path "leaf" then inr (Some (MkModuleSource "leaf" "1" ""))
  else inr None.

Definition example_body (src : ModuleSource) : @body Z :=
  if String.eqb (canonical_id src) "a" then Import "b" None Done
  else if String.eqb (canonical_id src) "b" then Import "a" None Done
  else Done (inr 1%Z).

(* a stand-in digest *)
Definition example_digest (_ : HashAlgorithm) (body : string) : string :=
  "0000000000000000000000000000000000000000000000000000000000000abc".

Definition example_ids : gset string := {["a"; "b"; "leaf"]}.

Lemma example_ids_ok path dir src :
  resolve_module_source [example_resolver] path dir = inr src -> canonical_id src ∈ example_ids.
Proof.
  unfold resolve_module_source, resolve_with, example_resolver. intros H.
  destruct (String.eqb path "a"); [|destruct (String.eqb path "b"); [|destruct (String.eqb path "leaf")]];
    simplify_eq; set_solver.
Qed.

Lemma example_settles path dir src :
  resolve_module_source [example_resolver] path dir = inr src -> settles (example_body src).
Proof. intros _. unfold example_body. by repeat case_match. Qed.

Definition cold : @state Z := MkState ∅ ∅.

Lemma load_module_terminates_witness :
  exists r s', forall fuel, (size (example_ids ∖ dom (loading_modules cold)) < fuel)%nat ->
    load_module example_digest [example_resolver] example_body fuel "a" None "" cold = Some (r, s').
Proof. exact (load_module_terminates example_digest _ example_body example_ids example_ids_ok example_settles "a" None "" cold). Defined.

Lemma load_module_balanced_witness :
  load_module example_digest [example_resolver] example_body 7 "leaf" None "" (MkState {["leaf" := 1%Z]} ∅)
  = Some (inr 1%Z, MkState {["leaf" := 1%Z]} ∅).
Proof.
  refine (proj2 (proj2 (load_module_balanced example_digest [example_resolver] example_body 1 "leaf" None "" cold
    (inr 1%Z) (MkState {["leaf" := 1%Z]} ∅) _)) 1%Z eq_refl _ 6%nat _).
  - vm_compute. reflexivity.
  - reflexivity.
Defined.

Lemma pinned_import_verified_witness :
  load_module example_digest [example_resolver] example_body 1 "leaf"
    (Some (MkIntegrityHash None "md5" "00")) "" cold
  = Some (inl (ImportHashUnknownAlgorithm "leaf" "md5"), cold).
Proof.
  destruct (pinned_import_verified example_digest [example_resolver] example_body 0 "leaf"
    (MkIntegrityHash None "md5" "00") "" cold (MkModuleSource "leaf" "1" "") eq_refl) as [[H _]|(e & H & He)].
  - discriminate H.
  - rewrite H. destruct e; try (exfalso; exact He); destruct He as (H1 & H2 & H3); simpl in *; try discriminate.
    all: try (vm_compute in H; discriminate H). subst. reflexivity.
Defined.

Definition ab (i : nat) : ModuleSource :=
  if Nat.even i then MkModuleSource "a" "import b" "" else MkModuleSource "b" "import a" "".

Lemma import_cycle_rejected_witness :
  exists loading j, load_module example_digest [example_resolver] example_body 9 "b" None "" cold
    = Some (inl (CircularImport loading), cold) /\ canonical_id (ab j) ∈ loading.
Proof.
  refine (import_cycle_rejected example_digest [example_resolver] example_body example_ids example_ids_ok ab
    (fun i => if Nat.even i then "b" else "a") _ _ cold _ 0 9 _).
  - intros i. unfold ab. destruct (Nat.even i); (eexists; split; [reflexivity|reflexivity]).
  - intros i. unfold ab. rewrite Nat.even_succ, <- Nat.negb_even. destruct (Nat.even i); reflexivity.
  - intros i. apply lookup_empty.
  - vm_compute. lia.
Defined.
End Modules.
