(* ===== verification/Cst.v ===== *)
(** The concrete syntax tree builder of [crates/relon-parser/src/cst.rs]: parser state,
    token-stream introspection, consumption, node bracketing and look-ahead.

    The token vector and the cursor into it are the list of the tokens still ahead; an
    index into the vector is the corresponding suffix.  The green-tree builder of the
    [rowan] library is the class [GreenNodeBuilder]; [GreenNodeBuilderOk] states what its
    documentation promises, in terms of the text written so far and of the number of
    children of each open node, and where it refuses a call.  Assertions that only debug
    builds check do not stop the parser here: the one on [bump] past the end of the input
    is recorded in [past_end]. *)

From Stdlib Require Import ZArith Lia Bool.
From stdpp Require Import base list strings.
From S2P Require Import Prelude Bytes Value Chars Lexer.
Local Open Scope abi_scope.

Declare Scope cst_scope.
Delimit Scope cst_scope with cst.

Module Cst.
Import Lex.

Definition tok : Type := SyntaxKind * list Z.

(** ** The builder *)

Class GreenNodeBuilder : Type := {
  builder : Type;
  Checkpoint : Type;
  GreenNode : Type;
  builder_new : builder;
  token : builder -> SyntaxKind -> list Z -> builder;
  start_node : builder -> SyntaxKind -> builder;
  builder_checkpoint : builder -> Checkpoint;
  start_node_at : builder -> Checkpoint -> SyntaxKind -> outcome unit builder;
  finish_node : builder -> outcome unit builder;
  builder_finish : builder -> outcome unit GreenNode;
  green_text : GreenNode -> list Z;
}.

(** [text]: the tokens written so far; [frames]: how many children the innermost open node
    has, then its parent, and so on to the root level; [mark]: how many levels were open
    around the node a checkpoint was taken in, and how many children it had. *)
Class GreenNodeBuilderOk `{GreenNodeBuilder} : Type := {
  text : builder -> list Z;
  frames : builder -> list nat;
  mark : Checkpoint -> nat * nat;
  new_ok : text builder_new = [] /\ frames builder_new = [0];
  token_ok b k t n fs : frames b = n :: fs ->
    text (token b k t) = text b ++ t /\ frames (token b k t) = S n :: fs;
  start_ok b k : text (start_node b k) = text b /\ frames (start_node b k) = 0 :: frames b;
  checkpoint_ok b n fs : frames b = n :: fs -> mark (builder_checkpoint b) = (length fs, n);
  start_at_ok b c k n m fs : frames b = n :: fs -> mark c = (length fs, m) -> m <= n ->
    exists b', start_node_at b c k = Ok b' /\ text b' = text b /\ frames b' = (n - m) :: m :: fs;
  finish_ok b n m fs : frames b = n :: m :: fs ->
    exists b', finish_node b = Ok b' /\ text b' = text b /\ frames b' = S m :: fs;
  root_ok b n b' : frames b = [n; 0] -> finish_node b = Ok b' ->
    exists t, builder_finish b' = Ok t /\ green_text t = text b;
}.

(** ** Parser state *)

Inductive Message : Type :=
| Text (s : string)
| Expected (kind : SyntaxKind) (found : option SyntaxKind).

Record ParseError : Type := MkError { message : Message; offset : nat }.

Section Parser.
Context `{GreenNodeBuilder}.

Record parser : Type := MkParser {
  ahead : list tok;          (* [tokens[pos..]] *)
  build : builder;
  errors : list ParseError;
  cursor_byte : nat;
  depth : nat;
  past_end : bool;
}.

Definition MAX_DEPTH : nat := 32.

Definition new (tokens : list tok) : parser := MkParser tokens builder_new [] 0 0 false.

(** ** The state monad *)

Definition M (A : Type) : Type := parser -> outcome unit (A * parser).
Definition cond : Type := parser -> bool.

Definition ret {A} (a : A) : M A := fun p => Ok (a, p).
Definition bind {A B} (m : M A) (k : A -> M B) : M B := fun p =>
  match m p with Ok (a, p) => k a p | Err e => Err e | Abort => Abort end.
Definition skip : M unit := ret tt.
Definition ite {A} (c : cond) (a b : M A) : M A := fun p => if c p then a p else b p.
Definition get {A} (f : parser -> A) : M A := fun p => Ok (f p, p).

(** [while c { body }]; the body returns [false] to break.  Every iteration that goes on
    consumes a token, so the number of tokens ahead bounds the iterations. *)
Fixpoint loop (n : nat) (c : cond) (body : M bool) : M unit := fun p =>
  match n with
  | O => Abort
  | S n =>
      if c p then
        match body p with
        | Ok (true, p) => loop n c body p
        | Ok (false, p) => Ok (tt, p)
        | Err e => Err e
        | Abort => Abort
        end
      else Ok (tt, p)
  end.

Definition while (c : cond) (body : M bool) : M unit := fun p => loop (S (length (ahead p))) c body p.

Definition cand (c d : cond) : cond := fun p => c p && d p.
Definition cor (c d : cond) : cond := fun p => c p || d p.
Definition cnot (c : cond) : cond := fun p => negb (c p).
Definition always : cond := fun _ => true.

(** ** Token-stream introspection *)

Fixpoint skip_trivia (l : list tok) : list tok :=
  match l with
  | (k, t) :: l' => if is_trivia k then skip_trivia l' else l
  | [] => []
  end.

(** [tokens.get(idx).map(|(k, _)| *k)] *)
Definition kind_of (l : list tok) : option SyntaxKind :=
  match l with (k, _) :: _ => Some k | [] => None end.

Definition is_kind (k : SyntaxKind) (l : list tok) : bool := bool_decide (kind_of l = Some k).

Fixpoint nth_kind (l : list tok) (n : nat) : option SyntaxKind :=
  match l with
  | [] => None
  | (k, _) :: l =>
      if is_trivia k then nth_kind l n
      else match n with O => Some k | S n => nth_kind l n end
  end.

Definition nth (n : nat) (p : parser) : option SyntaxKind := nth_kind (ahead p) n.
Definition current (p : parser) : option SyntaxKind := nth 0 p.
Definition at_ (k : SyntaxKind) : cond := fun p => bool_decide (current p = Some k).
Definition at_set (set : list SyntaxKind) : cond := fun p =>
  match current p with Some k => bool_decide (k ∈ set) | None => false end.
Definition at_end : cond := fun p => match current p with None => true | Some _ => false end.

(** [tokens[pos_skip_trivia()..]] *)
Definition here (p : parser) : list tok := skip_trivia (ahead p).

Definition current_text (p : parser) : option (list Z) :=
  match here p with (_, t) :: _ => Some t | [] => None end.
Definition text_is (s : string) : cond := fun p => bool_decide (current_text p = Some (lit s)).
Definition text_in (l : list string) : cond := fun p => existsb (fun s => text_is s p) l.

Fixpoint ternary_scan (l : list tok) (square round brace : nat) : bool :=
  match l with
  | [] => false
  | (kind, _) :: l =>
      if is_trivia kind then ternary_scan l square round brace else
      let flat := Nat.eqb square 0 && Nat.eqb round 0 && Nat.eqb brace 0 in
      match kind with
      | L_BRACK => ternary_scan l (S square) round brace
      | L_PAREN => ternary_scan l square (S round) brace
      | L_BRACE => ternary_scan l square round (S brace)
      | R_BRACK => if Nat.ltb 0 square then ternary_scan l (square - 1) round brace
                   else if flat then false else ternary_scan l square round brace
      | R_PAREN => if Nat.ltb 0 round then ternary_scan l square (round - 1) brace
                   else if flat then false else ternary_scan l square round brace
      | R_BRACE => if Nat.ltb 0 brace then ternary_scan l square round (brace - 1)
                   else if flat then false else ternary_scan l square round brace
      | COLON => if flat then true else ternary_scan l square round brace
      | COMMA => if flat then false else ternary_scan l square round brace
      | _ => ternary_scan l square round brace
      end
  end.

Definition question_heads_ternary_list : cond := fun p => ternary_scan (tail (here p)) 0 0 0.

Definition at_optional_path_prefix : cond := fun p =>
  at_ QUESTION p &&
  match nth 1 p with
  | Some DOT => true
  | Some L_BRACK => negb (question_heads_ternary_list p)
  | _ => false
  end.

(** ** Consumption *)

Definition emit (k : SyntaxKind) (t : list Z) (rest : list tok) (p : parser) : parser :=
  MkParser rest (token (build p) k t) (errors p) (cursor_byte p + length t) (depth p) (past_end p).

Fixpoint flush (l : list tok) (p : parser) : parser :=
  match l with
  | (k, t) :: l' => if is_trivia k then flush l' (emit k t l' p) else p
  | [] => p
  end.

Definition flush_trivia : M unit := fun p => Ok (tt, flush (ahead p) p).

Definition bump : M unit :=
  bind flush_trivia (fun _ p =>
    match ahead p with
    | [] => Ok (tt, MkParser (ahead p) (build p) (errors p) (cursor_byte p) (depth p) true)
    | (k, t) :: rest => Ok (tt, emit k t rest p)
    end).

Definition eat (k : SyntaxKind) : M bool := ite (at_ k) (bind bump (fun _ => ret true)) (ret false).

Definition error (m : Message) : M unit := fun p =>
  Ok (tt, MkParser (ahead p) (build p) (errors p ++ [MkError m (cursor_byte p)]) (cursor_byte p) (depth p) (past_end p)).

Definition expect (k : SyntaxKind) : M bool :=
  bind (eat k) (fun ok : bool =>
    if ok then ret true
    else bind (get current) (fun found => bind (error (Expected k found)) (fun _ => ret false))).

(** ** Node bracketing *)

Definition set_build (p : parser) (b : builder) : parser :=
  MkParser (ahead p) b (errors p) (cursor_byte p) (depth p) (past_end p).

Definition open (k : SyntaxKind) : M unit := fun p => flush_trivia (set_build p (start_node (build p) k)).

Definition checkpoint : M Checkpoint := bind flush_trivia (fun _ => get (fun p => builder_checkpoint (build p))).

Definition open_at (ck : Checkpoint) (k : SyntaxKind) : M unit := fun p =>
  let* b := start_node_at (build p) ck k in Ok (tt, set_build p b).

Definition close : M unit := fun p => let* b := finish_node (build p) in Ok (tt, set_build p b).

Definition error_at_current (m : string) : M unit :=
  bind (error (Text m)) (fun _ =>
  bind (open ERROR) (fun _ =>
  bind (ite (cnot at_end) bump skip) (fun _ =>
  close))).

Definition error_recover (m : string) (sync_set : list SyntaxKind) : M unit :=
  bind (error (Text m)) (fun _ =>
  bind (open ERROR) (fun _ =>
  bind (while (cand (cnot at_end) (cnot (at_set sync_set))) (bind bump (fun _ => ret true))) (fun _ =>
  close))).

Definition STRUCTURAL_SYNC : list SyntaxKind := [COMMA; R_BRACE; R_BRACK; R_PAREN; HASH].

(** ** Look-ahead *)

Definition known_heads : list string := ["Int"; "String"; "Bool"; "Float"; "Any"; "List"; "Dict"]%string.

Definition peek_is_bare_type_body : cond := fun p =>
  at_ IDENT p && text_in known_heads p &&
  let after := tail (here p) in
  let had_ws := match after with (k, _) :: _ => is_trivia k | [] => false end in
  let next := kind_of (skip_trivia after) in
  bool_decide (next = Some LT) && negb had_ws ||
  match next with Some HASH | Some L_BRACE | None => true | _ => false end.

Definition at_method_terminator : cond := cor (at_ R_BRACE) at_end.

Definition directive_name_after_hash (p : parser) : option (list Z) :=
  if is_kind HASH (here p) then
    match skip_trivia (tail (here p)) with
    | (IDENT, t) :: _ => Some t
    | _ => None
    end
  else None.

Definition peek_attribute_terminator : cond := fun p =>
  is_kind IDENT (here p) &&
  match kind_of (skip_trivia (tail (here p))) with
  | Some COLON | Some COMMA | Some R_BRACE => true
  | _ => false
  end.

Definition is_attribute_body_start : cond :=
  at_set [IDENT; NUMBER; STRING; L_BRACE; L_BRACK; L_PAREN; AMP; MINUS; BANG; STAR; F_STRING_OPEN].

(** Past [(DOT IDENT)*], with the number of segments; [None] after a dot without identifier.
    The list starts at a token that is not trivia. *)
Fixpoint dotted (n : nat) (l : list tok) (segs : nat) : option (list tok * nat) :=
  match n with
  | O => None
  | S n =>
      if is_kind DOT l then
        let l := skip_trivia (tail l) in
        if is_kind IDENT l then dotted n (skip_trivia (tail l)) (S segs) else None
      else Some (l, segs)
  end.

Definition dotted_tail (l : list tok) : option (list tok * nat) := dotted (S (length l)) l 1.

Definition looks_like_match_payload_pattern : cond := fun p =>
  at_ IDENT p &&
  match dotted_tail (skip_trivia (tail (here p))) with
  | Some (l, _) => is_kind L_PAREN l || is_kind L_BRACE l
  | None => false
  end.

Definition looks_like_variant_ctor : cond := fun p =>
  at_ IDENT p &&
  match dotted_tail (skip_trivia (tail (here p))) with
  | Some (l, segs) => negb (Nat.ltb segs 2) && is_kind L_BRACE l
  | None => false
  end.

(** Past the [>] that closes an argument list; [None] when it is missing or a token that
    cannot be part of a type comes first. *)
Fixpoint angle_scan (bad : SyntaxKind -> bool) (l : list tok) (depth paren_depth : nat) : option (list tok) :=
  if Nat.eqb depth 0 then Some l else
  match l with
  | [] => None
  | (k, _) :: l =>
      match k with
      | LT => angle_scan bad l (S depth) paren_depth
      | GT => angle_scan bad l (depth - 1) paren_depth
      | L_PAREN => angle_scan bad l depth (S paren_depth)
      | _ =>
          if bool_decide (k = R_PAREN) && Nat.ltb 0 paren_depth then angle_scan bad l depth (paren_depth - 1)
          else if bad k && Nat.eqb depth 1 && Nat.eqb paren_depth 0 then None
          else angle_scan bad l depth paren_depth
      end
  end.

Definition not_in_type (k : SyntaxKind) : bool :=
  match k with L_BRACE | R_BRACE | R_PAREN | FAT_ARROW => true | _ => false end.
Definition not_in_key_type (k : SyntaxKind) : bool :=
  match k with THIN_ARROW | COLON => true | _ => not_in_type k end.

Definition looks_like_type_atom : cond := fun p =>
  at_ IDENT p &&
  let known_head := text_in known_heads p in
  let after := tail (here p) in
  let had_ws := match after with (k, _) :: _ => is_trivia k | [] => false end in
  let l := skip_trivia after in
  if is_kind LT l && negb had_ws then
    match angle_scan not_in_type (tail l) 1 0 with Some _ => true | None => false end
  else if known_head && (is_kind QUESTION l || is_kind L_BRACE l) then true
  else is_kind QUESTION l && is_kind L_BRACE (skip_trivia (tail l)).

(** From an opening parenthesis to the first token after the matching one. *)
Fixpoint paren_scan (l : list tok) (depth : Z) : option (list tok) :=
  match l with
  | [] => None
  | (L_PAREN, _) :: l => paren_scan l (depth + 1)
  | (R_PAREN, _) :: l => if (depth - 1 =? 0)%Z then Some (skip_trivia l) else paren_scan l (depth - 1)
  | _ :: l => paren_scan l depth
  end.

Definition scan_after_matching_paren (l : list tok) : option (list tok) := paren_scan l 0.

Fixpoint return_type_scan (l : list tok) (bracket_depth : nat) : bool :=
  match l with
  | [] => false
  | (kind, _) :: l =>
      if is_trivia kind then return_type_scan l bracket_depth else
      let flat := Nat.eqb bracket_depth 0 in
      match kind with
      | FAT_ARROW => if flat then true else return_type_scan l bracket_depth
      | COMMA | R_PAREN | COLON => if flat then false else return_type_scan l bracket_depth
      | R_BRACE | R_BRACK => if flat then false else return_type_scan l (bracket_depth - 1)
      | L_BRACE | L_BRACK | L_PAREN | LT => return_type_scan l (S bracket_depth)
      | GT => if flat then return_type_scan l bracket_depth else return_type_scan l (bracket_depth - 1)
      | _ => return_type_scan l bracket_depth
      end
  end.

Definition looks_like_closure_after_paren : cond := fun p =>
  match scan_after_matching_paren (here p) with
  | None => false
  | Some after =>
      is_kind FAT_ARROW after || (is_kind THIN_ARROW after && return_type_scan (tail after) 0)
  end.

(** The optional [?] of a type. *)
Definition past_question (l : list tok) : list tok :=
  if is_kind QUESTION l then skip_trivia (tail l) else l.

Definition peek_is_typed_param : cond := fun p =>
  at_ IDENT p &&
  let after := tail (here p) in
  let had_trivia := match after with (k, _) :: _ => is_trivia k | [] => false end in
  match dotted_tail (skip_trivia after) with
  | None => false
  | Some (l, segs) =>
      let had_trivia_after_head := had_trivia && Nat.eqb segs 1 in
      if is_kind LT l then
        if had_trivia_after_head then false else
        match angle_scan not_in_type (tail l) 1 0 with
        | None => false
        | Some l => is_kind IDENT (past_question (skip_trivia l))
        end
      else is_kind IDENT (past_question l)
  end.

(** An identifier or a string, then [:] or an opening parenthesis. *)
Definition key_follows (l : list tok) : bool :=
  (is_kind IDENT l || is_kind STRING l) &&
  (is_kind COLON (skip_trivia (tail l)) || is_kind L_PAREN (skip_trivia (tail l))).

Definition peek_is_typed_dict_key : cond := fun p =>
  at_ IDENT p &&
  match dotted_tail (skip_trivia (tail (here p))) with
  | None => false
  | Some (l, _) =>
      if is_kind LT l then
        match angle_scan not_in_key_type (tail l) 1 0 with
        | None => false
        | Some l => key_follows (past_question (skip_trivia l))
        end
      else key_follows (past_question l)
  end.

Definition peek_is_tuple_typed_dict_key : cond := fun p =>
  at_ L_PAREN p &&
  match scan_after_matching_paren (here p) with
  | None => false
  | Some l => key_follows (past_question l)
  end.

(** ** Operators *)

Definition infix_bp (k : SyntaxKind) : option (nat * nat) :=
  match k with
  | PIPE_PIPE => Some (10, 11)
  | AMP_AMP => Some (20, 21)
  | EQ_EQ | BANG_EQ => Some (30, 31)
  | LT | GT | LT_EQ | GT_EQ => Some (40, 41)
  | PLUS_PLUS => Some (50, 51)
  | PLUS | MINUS => Some (60, 61)
  | STAR | SLASH | PERCENT => Some (70, 71)
  | PIPE => Some (80, 81)
  | _ => None
  end.
End Parser.
End Cst.

Notation "x ;; z" := (Cst.bind x (fun _ => z)) (at level 100, z at level 200, right associativity) : cst_scope.
Notation "'let!' x ':=' m 'in' k" := (Cst.bind m (fun x => k)) (at level 200, x pattern, m at level 100, k at level 200) : cst_scope.
Notation "'If' c 'Then' a 'Else' b" := (Cst.ite c a b) (at level 200, c at level 100, a at level 200, b at level 200) : cst_scope.
Notation "c &&& d" := (Cst.cand c d) (at level 40, left associativity) : cst_scope.
Notation "c ||| d" := (Cst.cor c d) (at level 50, left associativity) : cst_scope.
Notation "'Not' c" := (Cst.cnot c) (at level 35, right associativity) : cst_scope.
