(* ===== verification/CstParser.v ===== *)
(** The productions of the parser of [crates/relon-parser/src/cst.rs], over the state and the
    look-ahead of [Cst], and the directive shapes of [directive.rs].

    Every cycle of the grammar passes through one of the five productions of [call];
    [parse] unfolds them with a fuel that bounds the nesting of calls, the depth of the
    call stack in units of these productions.  The productions below take the way to call
    them, [rec], as an argument.  Loops are [while] loops bounded by the tokens ahead. *)

From Stdlib Require Import ZArith Lia Bool.
From stdpp Require Import base list strings.
From S2P Require Import Prelude Bytes Value Chars Lexer Cst.
Local Open Scope abi_scope.
Local Open Scope cst_scope.

Module CstParser.
Import Lex Cst.

(** ** Directive shapes *)

Inductive DirectiveShape : Type := Bare | Value | NameBody | Enum | Import | Main.

Definition DIRECTIVE_SHAPES : list (string * DirectiveShape) :=
  [("internal", Bare); ("default", Value); ("expect", Value); ("msg", Value); ("error", Value);
   ("brand", Value); ("schema", NameBody); ("enum", Enum); ("import", Import); ("main", Main);
   ("relaxed", Bare); ("unstrict", Bare); ("derive", Value); ("no_auto_derive", Value);
   ("native", Bare); ("extend", NameBody)]%string.

Definition directive_shape (name : list Z) : option DirectiveShape :=
  match find (fun e => bool_decide (lit (fst e) = name)) DIRECTIVE_SHAPES with
  | Some (_, s) => Some s
  | None => None
  end.

Section Productions.
Context `{GreenNodeBuilder}.

Inductive call : Type := Expr | ExprBp (min_bp : nat) | Unary | Type_ | Attribute.

Context (rec : call -> M unit).

Definition parse_expr : M unit := rec Expr.
Definition parse_type : M unit := rec Type_.
Definition parse_attribute : M unit := rec Attribute.

Definition break : M bool := ret false.
Definition continue : M bool := ret true.
(** [let _ = m] for the calls whose boolean result is dropped *)
Definition ignore (m : M bool) : M unit := m ;; skip.

(** ** Types *)

Definition parse_tuple_type : M unit :=
  open TUPLE_TYPE ;;
  bump ;;
  while (Not (at_ R_PAREN) &&& Not at_end) (
    parse_type ;;
    let! more := eat COMMA in
    if more then continue else break) ;;
  ignore (expect R_PAREN) ;;
  (If at_ QUESTION Then error (Text "optional types are written `Option<T>`, not `T?`") ;; bump Else skip) ;;
  close.

Definition type_body : M unit :=
  If at_ L_PAREN Then parse_tuple_type Else
  open TYPE_NODE ;;
  If at_ IDENT ||| at_ STRING Then
    bump ;;
    while (at_ DOT) (
      bump ;;
      (If at_ IDENT ||| at_ STRING Then bump Else error_at_current "expected identifier after `.` in type") ;;
      continue) ;;
    (If at_ LT Then
       bump ;;
       while always (
         If at_ GT ||| at_end Then break Else
         parse_type ;;
         let! more := eat COMMA in
         if more then continue else break) ;;
       ignore (expect GT)
     Else skip) ;;
    (If at_ QUESTION Then error (Text "optional types are written `Option<T>`, not `T?`") ;; bump Else skip) ;;
    close
  Else
    error_at_current "expected type name" ;;
    close.

(** ** Closures, calls, tuples *)

Definition parse_closure_param : M unit :=
  open CLOSURE_PARAM ;;
  (If peek_is_typed_param Then parse_type Else skip) ;;
  (If at_ IDENT ||| at_ UNDERSCORE Then bump Else error_at_current "expected closure parameter name") ;;
  close.

(** [if !eat(COMMA) && !at(end) { error_recover(..); eat(COMMA) }] *)
Definition separator (endk : SyntaxKind) (m : string) : M unit :=
  let! comma := eat COMMA in
  if comma then skip else
  If Not (at_ endk) Then error_recover m [COMMA; endk] ;; ignore (eat COMMA) Else skip.

Definition closure_params : M unit :=
  while (Not (at_ R_PAREN) &&& Not at_end) (
    parse_closure_param ;;
    separator R_PAREN "expected `,` or `)` in closure parameter list" ;;
    continue).

Definition try_parse_paren_closure : M bool :=
  If at_ L_PAREN &&& looks_like_closure_after_paren Then
    open CLOSURE ;;
    bump ;;
    closure_params ;;
    ignore (expect R_PAREN) ;;
    let! arrow := eat THIN_ARROW in
    (if arrow then parse_type else skip) ;;
    let! fat := expect FAT_ARROW in
    (if fat then parse_expr else skip) ;;
    close ;;
    ret true
  Else ret false.

Definition parse_paren_or_tuple : M unit :=
  let! ck := checkpoint in
  bump ;;
  If at_ R_PAREN Then
    open_at ck TUPLE ;; bump ;; close
  Else
    parse_expr ;;
    If at_ COMMA Then
      open_at ck TUPLE ;;
      while always (
        let! comma := eat COMMA in
        if comma then
          If at_ R_PAREN ||| at_end Then break Else parse_expr ;; continue
        else break) ;;
      ignore (expect R_PAREN) ;;
      close
    Else ignore (expect R_PAREN).

Definition parse_call_arg : M unit :=
  If at_ IDENT &&& (fun p => bool_decide (nth 1 p = Some EQ)) Then
    bump ;; bump ;; parse_expr
  Else parse_expr.

Definition parse_call_args : M unit :=
  open CALL_ARG ;;
  bump ;;
  while (Not (at_ R_PAREN) &&& Not at_end) (
    parse_call_arg ;;
    separator R_PAREN "expected `,` or `)` in argument list" ;;
    continue) ;;
  ignore (expect R_PAREN) ;;
  close.

(** ** Paths *)

(** One access of a path, [.field], [.0] or [[index]], with an optional [?] before it;
    [false] when there is none. *)
Definition path_segment : M bool :=
  let! go := (If at_optional_path_prefix Then bump ;; ret true
              Else If Not (at_ DOT) &&& Not (at_ L_BRACK) Then ret false Else ret true) in
  if go then
    If at_ DOT Then
      bump ;;
      (If at_ IDENT ||| at_ NUMBER Then bump Else error_at_current "expected identifier or index after `.`") ;;
      continue
    Else If at_ L_BRACK Then
      bump ;; parse_expr ;; ignore (expect R_BRACK) ;; continue
    Else break
  else break.

Definition path_segments : M unit := while always path_segment.

Definition parse_reference : M unit :=
  open REFERENCE_EXPR ;;
  bump ;;
  (If at_ IDENT Then bump Else error_at_current "expected reference base after `&`") ;;
  path_segments ;;
  close.

(** ** Lists *)

Definition parse_list_body_tail : M unit :=
  while (Not (at_ R_BRACK) &&& Not at_end) (
    parse_expr ;;
    separator R_BRACK "expected `,` or `]` in list" ;;
    continue) ;;
  ignore (expect R_BRACK) ;;
  close.

Definition parse_list : M unit :=
  let! outer_ck := checkpoint in
  bump ;;
  If at_ R_BRACK Then open_at outer_ck LIST ;; bump ;; close Else
  If at_ ELLIPSIS Then open_at outer_ck LIST ;; parse_list_body_tail Else
  parse_expr ;;
  If at_ IDENT &&& text_is "for" Then
    open_at outer_ck COMPREHENSION ;;
    bump ;;
    (If at_ IDENT Then bump Else error_at_current "expected identifier after `for`") ;;
    (If at_ IDENT &&& text_is "in" Then bump Else error (Text "expected `in` in comprehension")) ;;
    parse_expr ;;
    (If at_ IDENT &&& text_is "if" Then bump ;; parse_expr Else skip) ;;
    ignore (expect R_BRACK) ;;
    close
  Else
    open_at outer_ck LIST ;;
    separator R_BRACK "expected `,` or `]` in list" ;;
    parse_list_body_tail.

(** ** Dicts *)

Definition attributes : M unit :=
  while (at_ HASH ||| at_ AT) (parse_attribute ;; continue).

(** [...] with its optional type hint *)
Definition type_hint : M unit :=
  If at_ LT Then bump ;; parse_type ;; ignore (expect GT) Else skip.

Definition dict_key : M unit :=
  (If peek_is_tuple_typed_dict_key Then parse_tuple_type
   Else If peek_is_typed_dict_key Then parse_type Else skip) ;;
  If at_ IDENT ||| at_ STRING Then bump
  Else If at_ L_BRACK Then
    bump ;; type_hint ;; parse_expr ;; ignore (expect R_BRACK)
  Else error_recover "expected dict key" [COLON; COMMA; R_BRACE].

Definition dict_value : M unit :=
  If at_ L_PAREN Then
    let! closure_ck := checkpoint in
    bump ;;
    closure_params ;;
    ignore (expect R_PAREN) ;;
    let! arrow := eat THIN_ARROW in
    (if arrow then parse_type else skip) ;;
    let! colon := eat COLON in
    if colon then open_at closure_ck CLOSURE ;; parse_expr ;; close
    else error (Text "expected `:` in dict field")
  Else
    let! colon := eat COLON in
    if colon then parse_expr else error (Text "expected `:` in dict field").

Definition parse_dict_field : M unit :=
  open DICT_FIELD ;;
  attributes ;;
  If at_end Then close Else
  If at_ COMMA ||| at_ R_BRACE Then close Else
  If at_ ELLIPSIS Then
    open SPREAD_EXPR ;; bump ;; type_hint ;; parse_expr ;; close ;; close
  Else
    dict_key ;;
    dict_value ;;
    close.

Definition parse_dict : M unit :=
  open DICT ;;
  bump ;;
  while (Not (at_ R_BRACE) &&& Not at_end) (
    parse_dict_field ;;
    separator R_BRACE "expected `,` or `}` in dict" ;;
    continue) ;;
  ignore (expect R_BRACE) ;;
  close.

Definition parse_variant_ctor : M unit :=
  open VARIANT_CTOR ;;
  bump ;;
  while (at_ DOT) (
    bump ;;
    If at_ IDENT Then bump ;; continue
    Else error_at_current "expected identifier after `.` in variant constructor" ;; break) ;;
  (If at_ L_BRACE Then parse_dict Else error (Text "expected `{` in variant constructor")) ;;
  close.

(** ** F-strings *)

Definition starts_with_at (bytes : list Z) (idx : nat) (needle : list Z) : bool := starts_with bytes idx needle.

(** The scan past a balanced interpolation in [find_fstring_close]: where it stops, and the
    brackets still open there. *)
Fixpoint close_interp (fuel : nat) (bytes : list Z) (j dep : nat) : outcome unit (nat * nat) :=
  match fuel with
  | O => Abort
  | S fuel =>
      if Nat.ltb j (length bytes) && Nat.ltb 0 dep then
        let* b := index bytes j in
        if (b =? 34)%Z then
          let* j := scan_normal_string bytes j in close_interp fuel bytes j dep
        else
          let dep := if (b =? 123)%Z then S dep else if (b =? 125)%Z then (dep - 1)%nat else dep in
          if Nat.eqb dep 0 then Ok (j + 1, dep)%nat else close_interp fuel bytes (j + 1) dep
      else Ok (j, dep)
  end.

Fixpoint close_loop (fuel : nat) (bytes closing : list Z) (raw : bool) (idx : nat) : outcome unit (option nat) :=
  match fuel with
  | O => Abort
  | S fuel =>
      if Nat.leb (idx + length closing) (length bytes) then
        if starts_with_at bytes idx (lit "${") then
          let* (j, dep) := close_interp (S (length bytes)) bytes (idx + 2) 1 in
          if negb (Nat.eqb dep 0) then Ok None else close_loop fuel bytes closing raw j
        else
          let* b := index bytes idx in
          if negb raw && (b =? 92)%Z then
            if Nat.leb (length bytes) (idx + 1) then Ok None else
            let* c := index bytes (idx + 1) in
            close_loop fuel bytes closing raw (idx + (1 + utf8_codepoint_len c))
          else if starts_with_at bytes idx closing then Ok (Some idx)
          else close_loop fuel bytes closing raw (idx + utf8_codepoint_len b)
      else Ok None
  end.

Definition find_fstring_close (bytes : list Z) (body_start : nat) (closing : list Z) (hashes : nat)
    : outcome unit (option nat) :=
  close_loop (S (length bytes)) bytes closing (Nat.ltb 0 hashes) body_start.

(** The scan for the bracket that ends an interpolation, which must come before [close_pos]. *)
Fixpoint interp_end (fuel : nat) (bytes : list Z) (close_pos j dep : nat) : outcome unit (nat * nat) :=
  match fuel with
  | O => Abort
  | S fuel =>
      if Nat.ltb j close_pos && Nat.ltb 0 dep then
        let* b := index bytes j in
        if (b =? 123)%Z then interp_end fuel bytes close_pos (j + 1) (S dep)
        else if (b =? 125)%Z then
          if Nat.eqb (dep - 1) 0 then Ok (j, 0%nat) else interp_end fuel bytes close_pos (j + 1) (dep - 1)
        else if (b =? 34)%Z then
          let* j := scan_normal_string bytes j in interp_end fuel bytes close_pos j dep
        else interp_end fuel bytes close_pos (j + utf8_codepoint_len b) dep
      else Ok (j, dep)
  end.

Definition lift {A} (m : outcome unit A) : M A := fun p => let* a := m in Ok (a, p).

Definition emit_raw_token (k : SyntaxKind) (t : list Z) : M unit := fun p =>
  Ok (tt, set_build p (token (build p) k t)).

Definition set_stream (tokens : list tok) (cursor : nat) : M unit := fun p =>
  Ok (tt, MkParser tokens (build p) (errors p) cursor (depth p) (past_end p)).

Definition parse_fstring_interp_inner (t : list Z) : M unit :=
  let! inner_tokens := lift (lex t) in
  let! outer_tokens := get ahead in
  let! outer_cursor := get cursor_byte in
  set_stream inner_tokens 0 ;;
  (If Not at_end Then parse_expr Else skip) ;;
  (If Not at_end Then error_recover "trailing input in interpolation" [] Else skip) ;;
  flush_trivia ;;
  set_stream outer_tokens (outer_cursor + length t).

(** The walk over the body; the result is where the last literal chunk starts. *)
Fixpoint fstring_walk (fuel : nat) (full_text : list Z) (close_pos : nat) (raw_string : bool)
    (i literal_start : nat) : M nat :=
  match fuel with
  | O => fun _ => Abort
  | S fuel =>
      if Nat.ltb i close_pos then
        if starts_with_at full_text i (lit "${") then
          (if Nat.ltb literal_start i then
             let! chunk := lift (str_slice full_text literal_start i) in
             emit_raw_token F_STRING_LITERAL chunk
           else skip) ;;
          let interp_body_start := (i + 2)%nat in
          let! (j, dep) := lift (interp_end (S (length full_text)) full_text close_pos interp_body_start 1) in
          if negb (Nat.eqb dep 0) then
            let! chunk := lift (str_slice full_text i close_pos) in
            emit_raw_token F_STRING_LITERAL chunk ;;
            ret close_pos
          else
            let interp_close := (j + 1)%nat in
            open F_STRING_INTERPOLATION ;;
            let! start := lift (str_slice full_text i interp_body_start) in
            emit_raw_token F_STRING_INTERP_START start ;;
            let! inner := lift (str_slice full_text interp_body_start j) in
            parse_fstring_interp_inner inner ;;
            let! stop := lift (str_slice full_text j interp_close) in
            emit_raw_token F_STRING_INTERP_END stop ;;
            close ;;
            fstring_walk fuel full_text close_pos raw_string interp_close interp_close
        else
          let! b := lift (index full_text i) in
          if negb raw_string && (b =? 92)%Z && Nat.ltb (i + 1) close_pos then
            let! c := lift (index full_text (i + 1)) in
            fstring_walk fuel full_text close_pos raw_string (i + (1 + utf8_codepoint_len c)) literal_start
          else fstring_walk fuel full_text close_pos raw_string (i + utf8_codepoint_len b) literal_start
      else ret literal_start
  end.

Definition literal : M unit := open LITERAL ;; bump ;; close.

(** Past the token that was emitted piece by piece. *)
Definition advance_past (rest : list tok) (cursor : nat) : M unit := set_stream rest cursor.

Definition parse_f_string : M unit :=
  flush_trivia ;;
  let! toks := get ahead in
  let! start_byte := get cursor_byte in
  match toks with
  | [] => fun _ => Abort
  | (_, full_text) :: rest =>
      if negb (get_is (byte_is 102) full_text 0) then literal else
      let idx := Lex.skip (byte_is 35) full_text 1 in
      if negb (get_is (byte_is 34) full_text idx) then literal else
      let hash_count := (idx - 1)%nat in
      let open_end := (idx + 1)%nat in
      let closing := closing_of hash_count in
      let! close_pos := lift (find_fstring_close full_text open_end closing hash_count) in
      match close_pos with
      | None => literal
      | Some close_pos =>
          open F_STRING ;;
          let! opener := lift (str_slice full_text 0 open_end) in
          emit_raw_token F_STRING_OPEN opener ;;
          let! literal_start :=
            fstring_walk (S (length full_text)) full_text close_pos (Nat.ltb 0 hash_count) open_end open_end in
          (if Nat.ltb literal_start close_pos then
             let! chunk := lift (str_slice full_text literal_start close_pos) in
             emit_raw_token F_STRING_LITERAL chunk
           else skip) ;;
          let! closer := lift (str_slice full_text close_pos (length full_text)) in
          emit_raw_token F_STRING_CLOSE closer ;;
          close ;;
          advance_past rest (start_byte + length full_text)
      end
  end.

(** ** Atoms *)

(** The attributes above an atom; the loop ends when one makes no progress. *)
Definition atom_attributes : M unit :=
  while (at_ HASH ||| at_ AT) (
    let! before := get (fun p => length (ahead p)) in
    parse_attribute ;;
    let! after := get (fun p => length (ahead p)) in
    if Nat.eqb after before then break else continue).

Definition leaf (k : SyntaxKind) : M unit := open k ;; bump ;; close.

(** The atom at a token of kind [k]. *)
Definition atom_of (k : option SyntaxKind) : M unit :=
  match k with
  | Some NUMBER => leaf LITERAL
  | Some STRING =>
      If (fun p => match current_text p with Some t => prefix_of (lit "f") t | None => false end)
      Then parse_f_string Else leaf LITERAL
  | Some IDENT =>
      If text_in ["null"; "true"; "false"; "Infinity"; "NaN"]%string Then leaf LITERAL
      Else If looks_like_variant_ctor Then parse_variant_ctor
      Else If looks_like_type_atom Then parse_type
      Else leaf VARIABLE_EXPR
  | Some AMP => parse_reference
  | Some L_BRACE => parse_dict
  | Some L_BRACK => parse_list
  | Some L_PAREN =>
      let! closure := try_parse_paren_closure in
      if closure then skip else parse_paren_or_tuple
  | Some STAR => leaf WILDCARD
  | Some ELLIPSIS =>
      open SPREAD_EXPR ;; bump ;; type_hint ;; rec Unary ;; close
  | _ => error_recover "expected expression" STRUCTURAL_SYNC
  end.

Definition parse_atom : M unit :=
  atom_attributes ;;
  let! k := get current in
  atom_of k.

Definition parse_postfix : M unit :=
  let! ck := checkpoint in
  parse_atom ;;
  while always (
    If at_ L_PAREN Then
      open_at ck CALL_EXPR ;; parse_call_args ;; close ;; continue
    Else If at_ DOT ||| at_ L_BRACK ||| at_optional_path_prefix Then
      open_at ck VARIABLE_EXPR ;; path_segments ;; close ;; continue
    Else break).

Definition set_depth (f : nat -> nat) : M unit := fun p =>
  Ok (tt, MkParser (ahead p) (build p) (errors p) (cursor_byte p) (f (depth p)) (past_end p)).

Definition unary_body : M unit :=
  set_depth S ;;
  If (fun p => Nat.ltb MAX_DEPTH (depth p)) Then
    error_recover "expression nesting too deep" [] ;; set_depth pred
  Else
    (If at_set [MINUS; BANG; PLUS] Then
       open UNARY_EXPR ;; bump ;; rec Unary ;; close
     Else parse_postfix) ;;
    set_depth pred.

(** ** Operators *)

Definition expr_bp_body (min_bp : nat) : M unit :=
  let! lhs_ck := checkpoint in
  rec Unary ;;
  while always (
    let! op := get current in
    match op with
    | None => break
    | Some op =>
        match infix_bp op with
        | None => break
        | Some (lbp, rbp) =>
            if Nat.ltb lbp min_bp then break else
            open_at lhs_ck BINARY_EXPR ;;
            (if bool_decide (op = PLUS_PLUS)
             then error (Text "`++` is not an operator — use `+` to concatenate strings") else skip) ;;
            bump ;;
            rec (ExprBp rbp) ;;
            close ;;
            continue
        end
    end).

(** ** Matches *)

Definition star_binding (m : string) : M unit := error_at_current m ;; bump.

Definition parse_match_pattern : M unit :=
  open MATCH_PATTERN ;;
  ignore (expect IDENT) ;;
  while (at_ DOT) (bump ;; ignore (expect IDENT) ;; continue) ;;
  (If at_ L_PAREN Then
     bump ;;
     while (Not (at_ R_PAREN) &&& Not at_end) (
       let! ok := (If at_ UNDERSCORE ||| at_ IDENT Then bump ;; ret true
                   Else If at_ STAR Then
                     star_binding "`*` is no longer a pattern wildcard — use `_` to ignore a payload slot" ;; ret true
                   Else error_at_current "expected tuple pattern binding" ;; ret false) in
       if ok then
         let! more := eat COMMA in
         if more then continue else break
       else break) ;;
     ignore (expect R_PAREN)
   Else If at_ L_BRACE Then
     bump ;;
     while (Not (at_ R_BRACE) &&& Not at_end) (
       let! ok := (If at_ IDENT Then
                     bump ;;
                     let! colon := eat COLON in
                     if colon then
                       If at_ UNDERSCORE ||| at_ IDENT Then bump ;; ret true
                       Else If at_ STAR Then
                         star_binding "`*` is no longer a pattern wildcard — use `_` to ignore a payload slot" ;; ret true
                       Else error_at_current "expected struct pattern binding" ;; ret false
                     else ret true
                   Else error_at_current "expected struct pattern field" ;; ret false) in
       if ok then
         let! more := eat COMMA in
         if more then continue else break
       else break) ;;
     ignore (expect R_BRACE)
   Else skip) ;;
  close.

Definition parse_match_arm : M unit :=
  open MATCH_ARM ;;
  (If at_ UNDERSCORE Then leaf WILDCARD
   Else If at_ STAR Then
     open WILDCARD ;;
     error_at_current "`*` is no longer a match wildcard — use `_` for the catch-all arm" ;;
     bump ;;
     close
   Else If looks_like_match_payload_pattern Then parse_match_pattern
   Else If at_ IDENT Then parse_type
   Else error_at_current "expected match-arm pattern") ;;
  (let! colon := eat COLON in
   if colon then parse_expr else error (Text "expected `:` in match arm")) ;;
  close.

Definition postfix_forms (ck : Checkpoint) : M unit :=
  while always (
    If at_ IDENT &&& text_is "match" &&& (fun p => bool_decide (nth 1 p = Some L_BRACE)) Then
      open_at ck MATCH_EXPR ;;
      bump ;;
      bump ;;
      while (Not (at_ R_BRACE) &&& Not at_end) (
        parse_match_arm ;;
        separator R_BRACE "expected `,` or `}` in match" ;;
        continue) ;;
      ignore (expect R_BRACE) ;;
      close ;;
      continue
    Else If at_ IDENT &&& text_is "where" &&& (fun p => bool_decide (nth 1 p = Some L_BRACE)) Then
      open_at ck WHERE_EXPR ;;
      bump ;;
      parse_dict ;;
      close ;;
      continue
    Else break).

Definition expr_body : M unit :=
  let! ck := checkpoint in
  rec (ExprBp 0) ;;
  If at_ QUESTION &&& Not at_optional_path_prefix Then
    open_at ck TERNARY_EXPR ;;
    bump ;;
    parse_expr ;;
    let! colon := expect COLON in
    if colon then parse_expr ;; close ;; postfix_forms ck else close
  Else postfix_forms ck.

(** ** Directives *)

(** [<T, U>] of a declaration *)
Definition generic_params (m : string) : M unit :=
  If at_ LT Then
    bump ;;
    while (Not (at_ GT) &&& Not at_end) (
      If at_ IDENT Then
        bump ;;
        let! more := eat COMMA in
        if more then continue else break
      Else error_at_current m ;; break) ;;
    ignore (expect GT)
  Else skip.

Definition enum_variant_fields : M unit :=
  while (Not (at_ R_BRACE) &&& Not at_end) (
    If at_ COMMA Then bump ;; continue Else
    open ENUM_VARIANT_FIELD ;;
    (If at_ IDENT Then bump Else error_at_current "expected enum variant field name") ;;
    ignore (expect COLON) ;;
    parse_type ;;
    close ;;
    let! more := eat COMMA in
    if more then continue else break).

Definition enum_variants : M unit :=
  while (Not (at_ R_BRACE) &&& Not at_end) (
    If at_ COMMA Then bump ;; continue Else
    open ENUM_VARIANT ;;
    If at_ IDENT Then
      bump ;;
      (If at_ L_BRACE Then bump ;; enum_variant_fields ;; ignore (expect R_BRACE)
       Else If at_ L_PAREN Then parse_tuple_type Else skip) ;;
      close ;;
      let! comma := eat COMMA in
      if comma then continue else
      If Not (at_ R_BRACE) Then
        error_at_current "expected `,` or `}` after enum variant" ;; break
      Else continue
    Else
      error_at_current "expected enum variant name" ;; close ;; break).

Definition parse_directive_enum : M unit :=
  If at_ IDENT Then
    bump ;;
    generic_params "expected generic param" ;;
    let! brace := eat L_BRACE in
    if brace then enum_variants ;; ignore (expect R_BRACE) else skip
  Else skip.

Definition parse_schema_method_param : M unit :=
  open CLOSURE_PARAM ;;
  If at_ IDENT Then
    bump ;;
    (let! colon := eat COLON in
     if colon then parse_type else error (Text "expected `:` in schema method parameter")) ;;
    close
  Else error_at_current "expected parameter name" ;; close.

Definition parse_schema_method_after_pragmas : M unit :=
  If at_ IDENT Then
    bump ;;
    generic_params "expected method generic parameter" ;;
    let! paren := expect L_PAREN in
    if paren then
      while (Not (at_ R_PAREN) &&& Not at_end) (
        parse_schema_method_param ;;
        let! more := eat COMMA in
        if more then continue else break) ;;
      ignore (expect R_PAREN) ;;
      (let! arrow := eat THIN_ARROW in if arrow then parse_type else skip) ;;
      let! colon := eat COLON in
      if colon then parse_expr else skip
    else skip
  Else error_at_current "expected method name".

Definition method_pragma (name : option (list Z)) : bool :=
  existsb (fun s => bool_decide (name = Some (lit s))) ["derive"; "native"; "internal"]%string.

(** The pragmas before a method; whether one of them asks for a method. *)
Fixpoint pragma_loop (n : nat) (had : bool) : M bool := fun p =>
  match n with
  | O => Abort
  | S n =>
      if at_ HASH p then
        let had := had || method_pragma (directive_name_after_hash p) in
        (parse_attribute ;; pragma_loop n had) p
      else Ok (had, p)
  end.

Definition pragmas : M bool := fun p => pragma_loop (S (length (ahead p))) false p.

Definition parse_schema_with : M unit :=
  open SCHEMA_WITH ;;
  bump ;;
  while (Not (at_ R_BRACE) &&& Not at_end) (
    If at_ HASH Then
      let! ck := checkpoint in
      let! had_method_pragma := pragmas in
      (If at_ IDENT &&& Not at_method_terminator Then
         open_at ck SCHEMA_METHOD ;; parse_schema_method_after_pragmas ;; close
       Else if had_method_pragma
         then error (Text "expected method declaration after `#derive` / `#native` / `#internal`") else skip) ;;
      continue
    Else If at_ IDENT Then
      open SCHEMA_METHOD ;; parse_schema_method_after_pragmas ;; close ;; continue
    Else
      error_recover "expected method or pragma inside `with { ... }`" [HASH; IDENT; R_BRACE] ;;
      continue) ;;
  ignore (expect R_BRACE) ;;
  close.

Definition parse_directive_name_body : M unit :=
  If at_ IDENT Then
    bump ;;
    generic_params "expected generic param" ;;
    let! saw_with := get (at_ IDENT &&& text_is "with") in
    (If (fun _ => negb saw_with) &&& at_ COLON Then bump Else skip) ;;
    (If (fun _ => negb saw_with) &&& is_attribute_body_start &&& Not peek_attribute_terminator Then
       (If peek_is_bare_type_body Then parse_type Else parse_expr)
     Else skip) ;;
    If at_ IDENT &&& text_is "with" Then
      bump ;;
      If at_ L_BRACE Then parse_schema_with Else skip
    Else skip
  Else skip.

Definition parse_import_destructure : M unit :=
  bump ;;
  while always (
    If at_ R_BRACE ||| at_end Then break Else
    (If at_ IDENT Then
       bump ;;
       If at_ IDENT &&& text_is "as" Then
         bump ;;
         If at_ IDENT Then bump Else error_at_current "expected identifier after `as` in #import"
       Else skip
     Else error_recover "expected identifier in #import destructure" [COMMA; R_BRACE]) ;;
    let! more := eat COMMA in
    if more then continue else break) ;;
  ignore (expect R_BRACE).

Definition import_pin : M unit :=
  If at_ IDENT Then
    bump ;;
    If at_ COLON Then
      bump ;;
      If at_ STRING Then bump Else error_at_current "expected hex string in #import integrity pin"
    Else error_at_current "expected `:` in #import integrity pin"
  Else skip.

Definition import_source : M unit :=
  If at_ IDENT &&& text_is "from" Then
    bump ;;
    If at_ STRING Then bump ;; import_pin
    Else error_at_current "expected path string in #import"
  Else error (Text "expected `from` in #import").

Definition parse_directive_import : M unit :=
  If at_ STAR Then bump ;; import_source
  Else If at_ L_BRACE Then parse_import_destructure ;; import_source
  Else If at_ IDENT Then bump ;; import_source
  Else error_at_current "expected import spec".

Definition parse_directive_main : M unit :=
  let! paren := eat L_PAREN in
  if paren then
    while (Not (at_ R_PAREN) &&& Not at_end) (
      parse_closure_param ;;
      let! more := eat COMMA in
      if more then continue else break) ;;
    ignore (expect R_PAREN) ;;
    let! arrow := eat THIN_ARROW in
    if arrow then parse_type else skip
  else error (Text "expected `(` after `#main`").

(** The dotted rest of a decorator's name. *)
Definition decorator_path : M unit :=
  while (at_ DOT) (
    bump ;;
    If at_ IDENT Then bump ;; continue
    Else error_at_current "expected identifier after `.` in decorator name" ;; break).

Definition directive_tail (shape : DirectiveShape) : M unit :=
  match shape with
  | Bare => skip
  | Value => If is_attribute_body_start Then parse_expr Else skip
  | NameBody => parse_directive_name_body
  | Enum => parse_directive_enum
  | Import => parse_directive_import
  | Main => parse_directive_main
  end.

Definition attribute_body : M unit :=
  let! is_directive := get (at_ HASH) in
  open (if is_directive then DIRECTIVE else DECORATOR) ;;
  bump ;;
  let! name_text := (If at_ IDENT Then let! t := get current_text in bump ;; ret t
                     Else error_at_current "expected attribute name" ;; ret None) in
  (if is_directive then
     directive_tail (default Value (name_text ≫= directive_shape))
   else
     decorator_path ;;
     If at_ L_PAREN Then parse_call_args Else skip) ;;
  close.

Definition parse_document : M unit :=
  open DOCUMENT ;;
  attributes ;;
  (If Not at_end Then parse_expr Else skip) ;;
  (If Not at_end Then error_recover "trailing input after root value" [] Else skip) ;;
  flush_trivia ;;
  close.

Definition production (c : call) : M unit :=
  match c with
  | Expr => expr_body
  | ExprBp min_bp => expr_bp_body min_bp
  | Unary => unary_body
  | Type_ => type_body
  | Attribute => attribute_body
  end.
End Productions.

Section Entry.
Context `{GreenNodeBuilder}.

Fixpoint parse (fuel : nat) (c : call) : M unit :=
  match fuel with
  | O => fun _ => Abort
  | S fuel => production (parse fuel) c
  end.

Record Parse : Type := MkParse { green : GreenNode; parse_errors : list ParseError; ran_past_end : bool }.

Definition finish (p : parser) : outcome unit Parse :=
  let* g := builder_finish (build p) in Ok (MkParse g (errors p) (past_end p)).

(** The nesting of calls is at most four per byte of the source. *)
Definition cst_fuel (source : list Z) : nat := 4 * length source + 4.

Definition parse_cst (source : list Z) : outcome unit Parse :=
  let* tokens := lex source in
  let* (_, p) := parse_document (parse (cst_fuel source)) (new tokens) in
  finish p.
End Entry.
End CstParser.
