(* ===== verification/CstFacts.v ===== *)
(** A green-tree builder that keeps the trees under construction as lists: the instance of
    [GreenNodeBuilder] on which the parser can be run, with the proof that it keeps the
    promises of [GreenNodeBuilderOk]. *)

From Stdlib Require Import ZArith Lia Bool.
From stdpp Require Import base list strings sets.
From S2P Require Import Prelude Bytes Value Chars Lexer LexerFacts Cst CstParser.
Local Open Scope abi_scope.

Module CstTree.
Import Lex Cst.

Inductive tree : Type :=
| Leaf (kind : SyntaxKind) (t : list Z)
| Node (kind : SyntaxKind) (children : list tree).

Fixpoint tree_text (t : tree) : list Z :=
  match t with
  | Leaf _ t => t
  | Node _ children => (fix go (l : list tree) := match l with [] => [] | t :: l => tree_text t ++ go l end) children
  end.

Definition forest_text (l : list tree) : list Z := concat (map tree_text l).

(** The children of the innermost open node, and the open nodes around with theirs. *)
Record stack : Type := MkStack { top : list tree; outer : list (list tree * SyntaxKind) }.

Definition wrap (s : stack) (n : nat) (k : SyntaxKind) : stack :=
  MkStack (drop n (top s)) ((take n (top s), k) :: outer s).

#[export] Instance tree_builder : GreenNodeBuilder := {
  builder := stack;
  Checkpoint := nat * nat;
  GreenNode := tree;
  builder_new := MkStack [] [];
  token s k t := MkStack (top s ++ [Leaf k t]) (outer s);
  start_node s k := wrap s (length (top s)) k;
  builder_checkpoint s := (length (outer s), length (top s));
  start_node_at s c k :=
    if Nat.eqb (fst c) (length (outer s)) && Nat.leb (snd c) (length (top s))
    then Ok (wrap s (snd c) k) else Abort;
  finish_node s :=
    match outer s with
    | [] => Abort
    | (before, k) :: rest => Ok (MkStack (before ++ [Node k (top s)]) rest)
    end;
  builder_finish s :=
    match top s, outer s with
    | [Node k l], [] => Ok (Node k l)
    | _, _ => Abort
    end;
  green_text := tree_text;
}.

(** The text of the open nodes, the outermost first. *)
Definition outer_text (l : list (list tree * SyntaxKind)) : list Z := concat (map (fun x => forest_text (fst x)) (rev l)).

Lemma forest_text_app l l' : forest_text (l ++ l') = forest_text l ++ forest_text l'.
Proof. unfold forest_text. by rewrite map_app, concat_app. Qed.

Lemma node_text k l : tree_text (Node k l) = forest_text l.
Proof. unfold forest_text. simpl. induction l as [|t l IH]; [done|]. simpl. by rewrite IH. Qed.

Lemma forest_text_one t : forest_text [t] = tree_text t.
Proof. apply app_nil_r. Qed.

Lemma outer_text_cons before k rest : outer_text ((before, k) :: rest) = outer_text rest ++ forest_text before.
Proof. unfold outer_text. simpl. rewrite map_app, concat_app. simpl. by rewrite app_nil_r. Qed.

Definition stack_text (s : stack) : list Z := outer_text (outer s) ++ forest_text (top s).
Definition stack_frames (s : stack) : list nat := length (top s) :: map (fun x => length (fst x)) (outer s).

Lemma wrap_text s n k : stack_text (wrap s n k) = stack_text s.
Proof.
  unfold stack_text, wrap. simpl. rewrite outer_text_cons, <-app_assoc, <-forest_text_app, take_drop. done.
Qed.

Lemma wrap_frames s n k : (n <= length (top s))%nat ->
  stack_frames (wrap s n k) = (length (top s) - n)%nat :: n :: map (fun x => length (fst x)) (outer s).
Proof. intros Hn. unfold stack_frames, wrap. simpl. by rewrite length_drop, length_take_le. Qed.

#[export] Instance tree_builder_ok : GreenNodeBuilderOk.
Proof.
  unshelve refine {| text := stack_text : builder -> list Z; frames := stack_frames : builder -> list nat;
                     mark := (fun c => c) : Checkpoint -> nat * nat |}.
  - done.
  - intros b k t n fs [= <- <-]. cbn [token tree_builder]. unfold stack_text, stack_frames. cbn [top outer].
    rewrite forest_text_app, app_assoc, length_app, Nat.add_comm. by rewrite forest_text_one.
  - intros b k. cbn [start_node tree_builder]. rewrite wrap_text, wrap_frames, Nat.sub_diag by done. done.
  - intros b n fs [= <- <-]. cbn. by rewrite length_map.
  - intros b c k n m fs [= <- <-] -> Hm. cbn. rewrite length_map, Nat.eqb_refl, (proj2 (Nat.leb_le _ _) Hm).
    eexists. split; [reflexivity|]. by rewrite wrap_text, wrap_frames.
  - intros b n m fs Hf. cbn. destruct b as [tp [|[before k] rest]]; unfold stack_frames in Hf; simpl in Hf; [done|].
    injection Hf as <- <- <-. eexists. split; [reflexivity|]. unfold stack_text, stack_frames. cbn [top outer].
    by rewrite forest_text_app, outer_text_cons, forest_text_one, node_text, app_assoc, length_app, Nat.add_comm.
  - intros b n b' Hf Hb. destruct b as [tp [|[before k] rest]]; unfold stack_frames in Hf; simpl in Hf; [done|].
    injection Hf as <- Hb0 Hr. destruct rest; [|done]. destruct before; [|done]. injection Hb as <-.
    eexists. split; [reflexivity|]. unfold stack_text. cbn [top outer green_text tree_builder]. by rewrite node_text.
Defined.
End CstTree.

(** Execution of the syntax-tree parser: what every primitive and every production does to
    the state, as rules for running a program forwards from a known state.

    [adv p p'] says that tokens were moved from the stream into the tree, each once and in
    order, and that errors were only added; [lvl b fs p] that the innermost open node has
    at least [b] children and the nodes around it exactly [fs].  A production keeps the
    level it starts at.  [sz] is the number of bytes ahead; with a fuel of four calls per
    byte every production returns. *)

Local Open Scope nat_scope.
Local Open Scope cst_scope.

Import Lex Cst CstParser.

(** ** States *)

Definition tok_ok (x : tok) : Prop := snd x <> [] /\ Forall (fun z => (0 <= z)%Z) (snd x) /\ utf8_codes (snd x) = true.

Definition bytes_of (l : list tok) : list Z := concat (map snd l).

Section Rules.
Context `{GB : GreenNodeBuilder} {GOk : GreenNodeBuilderOk}.

Definition sz (p : parser) : nat := length (bytes_of (ahead p)).

Definition wf (p : parser) : Prop := Forall tok_ok (ahead p).

Definition lvl (b : nat) (fs : list nat) (p : parser) : Prop := exists n, b <= n /\ frames (build p) = n :: fs.

Definition adv (p p' : parser) : Prop :=
  (exists used, ahead p = used ++ ahead p' /\ text (build p') = text (build p) ++ bytes_of used) /\
  cursor_byte p' + sz p' = cursor_byte p + sz p /\
  depth p' = depth p /\
  exists new, errors p' = errors p ++ new /\ Forall (fun e => offset e <= cursor_byte p + sz p) new.

Lemma bytes_of_app l l' : bytes_of (l ++ l') = bytes_of l ++ bytes_of l'.
Proof. unfold bytes_of. by rewrite map_app, concat_app. Qed.

#[export] Instance adv_preorder : PreOrder adv.
Proof.
  split.
  - intros p. split_and!; [exists []|done|done|exists []]; by rewrite ?app_nil_r.
  - intros p1 p2 p3 ((u1 & A1 & T1) & C1 & D1 & e1 & E1 & F1) ((u2 & A2 & T2) & C2 & D2 & e2 & E2 & F2).
    split_and!; [exists (u1 ++ u2)|lia|congruence|exists (e1 ++ e2)].
    + rewrite A1, A2, T2, T1, bytes_of_app, !app_assoc. done.
    + rewrite E2, E1, app_assoc. split; [done|]. apply Forall_app. split; [done|].
      eapply Forall_impl; [exact F2|]. simpl. intros e He. lia.
Qed.

Lemma adv_sz p p' : adv p p' -> sz p' <= sz p.
Proof. intros ((u & A & _) & _). unfold sz. rewrite A, bytes_of_app, length_app. lia. Qed.

Lemma adv_wf p p' : adv p p' -> wf p -> wf p'.
Proof. intros ((u & A & _) & _) Hw. unfold wf in *. rewrite A in Hw. by apply Forall_app in Hw as [_ Hw]. Qed.

Lemma bytes_of_pos l : Forall tok_ok l -> l <> [] -> 0 < length (bytes_of l).
Proof.
  intros Hl Hn. destruct l as [|[k t] l]; [done|]. inversion Hl as [|? ? (Ht & _) _]; subst. simpl in Ht.
  unfold bytes_of. simpl. rewrite length_app. destruct t; [done|simpl; lia].
Qed.

(** Nothing consumed means the same tokens ahead. *)
Lemma adv_still p p' : adv p p' -> wf p -> sz p <= sz p' -> ahead p' = ahead p.
Proof.
  intros ((u & A & _) & _) Hw Hs. unfold sz, wf in *. rewrite A in *. rewrite bytes_of_app, length_app in Hs.
  apply Forall_app in Hw as [Hu _]. destruct u as [|x u]; [done|].
  pose proof (bytes_of_pos (x :: u) Hu). assert (0 < length (bytes_of (x :: u))) by (apply H; discriminate). lia.
Qed.

Lemma adv_length p p' : adv p p' -> sz p' < sz p -> length (ahead p') < length (ahead p).
Proof.
  intros ((u & A & _) & _) Hs. unfold sz in *. rewrite A in *. rewrite length_app, bytes_of_app, length_app in *.
  destruct u; simpl in *; lia.
Qed.

Lemma lvl_le b b' fs p : b' <= b -> lvl b fs p -> lvl b' fs p.
Proof. intros Hb (n & Hn & F). exists n. split; [lia|done]. Qed.

(** A step that moves no token and reports nothing. *)
Lemma adv_same p p' :
  ahead p' = ahead p -> text (build p') = text (build p) -> errors p' = errors p ->
  cursor_byte p' = cursor_byte p -> depth p' = depth p -> adv p p'.
Proof.
  intros A T E C D. split_and!; [exists []|unfold sz; by rewrite A, C|done|exists []]; by rewrite ?A, ?T, ?E, ?app_nil_r.
Qed.

(** ** Running forwards *)

Definition wp {A} (m : M A) (p : parser) (Q : A -> parser -> Prop) : Prop :=
  exists a p', m p = Ok (a, p') /\ Q a p'.

Lemma wp_ret {A} (a : A) p (Q : A -> parser -> Prop) : Q a p -> wp (ret a) p Q.
Proof. intros HQ. by exists a, p. Qed.

Lemma wp_get {A B} (f : parser -> A) (k : A -> M B) p Q : wp (k (f p)) p Q -> wp (bind (get f) k) p Q.
Proof. done. Qed.

Lemma wp_bind {A B} (m : M A) (k : A -> M B) p Q :
  wp m p (fun a p' => wp (k a) p' Q) -> wp (bind m k) p Q.
Proof. intros (a & p' & Hm & b & p'' & Hk & HQ). exists b, p''. unfold bind. by rewrite Hm. Qed.

Lemma wp_assoc {A B C} (m : M A) (k : A -> M B) (k' : B -> M C) p Q :
  wp (bind m (fun a => bind (k a) k')) p Q -> wp (bind (bind m k) k') p Q.
Proof.
  intros (c & p' & Hm & HQ). exists c, p'. split; [|done]. unfold bind in *. by destruct (m p) as [[a p1]| |].
Qed.

Lemma wp_mono {A} (m : M A) p (Q Q' : A -> parser -> Prop) :
  wp m p Q -> (forall a p', Q a p' -> Q' a p') -> wp m p Q'.
Proof. intros (a & p' & Hm & HQ) HQ'. exists a, p'. auto. Qed.

Lemma wp_ite {A} (c : cond) (a b : M A) p Q :
  (c p = true -> wp a p Q) -> (c p = false -> wp b p Q) -> wp (ite c a b) p Q.
Proof. intros Ha Hb. unfold wp, ite in *. destruct (c p); auto. Qed.

(** ** Primitives *)

(** What a statement that keeps the level leaves. *)
Definition keeps (b : nat) (fs : list nat) (p p' : parser) : Prop := adv p p' /\ lvl b fs p'.

Lemma flush_spec p b fs : lvl b fs p ->
  keeps b fs p (flush (ahead p) p) /\ ahead (flush (ahead p) p) = skip_trivia (ahead p) /\
  errors (flush (ahead p) p) = errors p.
Proof.
  remember (ahead p) as l eqn:E. revert p E. induction l as [|[k t] l IH]; intros p E HL; simpl.
  - split_and!; [split; [reflexivity|done]|done|done].
  - destruct (is_trivia k); [|split_and!; [split; [reflexivity|done]|done|done]].
    destruct HL as (n & Hn & F). pose proof (token_ok (build p) k t n fs F) as [T F'].
    destruct (IH (emit k t l p)) as ((A & L) & H1 & H2); [done|by exists (S n); split; [lia|]|].
    split_and!; [|done|done]. split; [|done]. etrans; [|exact A]. split_and!; simpl.
    + exists [(k, t)]. rewrite <-E, T. unfold bytes_of. simpl. by rewrite app_nil_r.
    + unfold sz. simpl. rewrite <-E. unfold bytes_of. simpl. rewrite length_app. lia.
    + done.
    + exists []. by rewrite app_nil_r.
Qed.

Lemma nth_skip l n : nth_kind (skip_trivia l) n = nth_kind l n.
Proof. induction l as [|[k t] l IH]; [done|]. simpl. destruct (is_trivia k) eqn:E; [done|]. simpl. by rewrite E. Qed.

Lemma current_skip p p' : ahead p' = skip_trivia (ahead p) -> current p' = current p.
Proof. intros E. unfold current, nth. by rewrite E, nth_skip. Qed.

Lemma skip_idem l : skip_trivia (skip_trivia l) = skip_trivia l.
Proof. induction l as [|[k t] l IH]; [done|]. simpl. destruct (is_trivia k) eqn:E; [done|]. simpl. by rewrite E. Qed.

Lemma wp_flush {B} (k : unit -> M B) p b fs Q : lvl b fs p ->
  (forall p', adv p p' -> lvl b fs p' -> ahead p' = skip_trivia (ahead p) -> wp (k tt) p' Q) ->
  wp (bind flush_trivia k) p Q.
Proof.
  intros HL Hk. apply wp_bind. destruct (flush_spec p b fs HL) as ((A & L) & Ha & _).
  exists tt, (flush (ahead p) p). auto.
Qed.

(** The kind of the token at the head of a stream without leading trivia. *)
Lemma skip_head l : match skip_trivia l with
  | (k, t) :: _ => nth_kind l 0 = Some k
  | [] => nth_kind l 0 = None end.
Proof. induction l as [|[k t] l IH]; [done|]. simpl. destruct (is_trivia k) eqn:E; done. Qed.

(** [bump]: strict progress unless the input is exhausted. *)
Lemma wp_bump {B} (k : unit -> M B) p b fs Q : lvl b fs p ->
  (forall p', adv p p' -> lvl b fs p' -> (wf p -> current p <> None -> sz p' < sz p) -> wp (k tt) p' Q) ->
  wp (bind bump k) p Q.
Proof.
  intros HL Hk. unfold bump. apply wp_assoc, (wp_flush _ _ b fs); [done|]. intros p1 A1 L1 Ha. apply wp_bind.
  pose proof (skip_head (ahead p)) as Hh. rewrite <-Ha in Hh.
  unfold wp. destruct (ahead p1) as [|[kd t] rest] eqn:E.
  - eexists tt, _. split; [reflexivity|]. apply Hk; [|done|].
    + etrans; [exact A1|]. by apply adv_same.
    + intros _ Hc. unfold current, nth in Hc. congruence.
  - destruct L1 as (n & Hn & F). pose proof (token_ok (build p1) kd t n fs F) as [T F'].
    eexists tt, _. split; [reflexivity|]. assert (adv p1 (emit kd t rest p1)) as A2.
    { split_and!; simpl.
      - exists [(kd, t)]. rewrite E, T. unfold bytes_of. simpl. by rewrite app_nil_r.
      - unfold sz. rewrite E. unfold bytes_of. simpl. rewrite length_app. lia.
      - done.
      - exists []. by rewrite app_nil_r. }
    apply Hk; [by etrans|exists (S n); split; [lia|done]|].
    intros Hw _. apply (adv_wf _ _ A1) in Hw. unfold wf in Hw. rewrite E in Hw. inversion Hw as [|? ? (Ht & _) _]; subst.
    pose proof (adv_sz _ _ A1). unfold sz in *. rewrite E in *. simpl in *. unfold bytes_of in *. simpl in *.
    rewrite length_app in *. destruct t; [done|simpl in *; lia].
Qed.

Lemma wp_error {B} (k : unit -> M B) m p b fs Q : lvl b fs p ->
  (forall p', adv p p' -> lvl b fs p' -> ahead p' = ahead p -> wp (k tt) p' Q) ->
  wp (bind (error m) k) p Q.
Proof.
  intros HL Hk. apply wp_bind. eexists tt, _. split; [reflexivity|]. apply Hk; [|done|done].
  split_and!; simpl; try done.
  - exists []. by rewrite app_nil_r.
  - exists [MkError m (cursor_byte p)]. split; [done|]. constructor; [simpl; lia|done].
Qed.

Lemma set_build_adv p b' : text b' = text (build p) -> adv p (set_build p b').
Proof. intros T. by apply adv_same. Qed.

(** [open], with the exact number of children of the node around. *)
Lemma wp_open_exact {B} (k : unit -> M B) K p n fs Q : frames (build p) = n :: fs ->
  (forall p', adv p p' -> lvl 0 (n :: fs) p' -> ahead p' = skip_trivia (ahead p) -> wp (k tt) p' Q) ->
  wp (bind (open K) k) p Q.
Proof.
  intros F Hk. apply wp_bind. pose proof (start_ok (build p) K) as [T F'].
  destruct (flush_spec (set_build p (start_node (build p) K)) 0 (n :: fs)) as ((A & L) & Ha & _).
  { exists 0. split; [lia|]. simpl. by rewrite F', F. }
  exists tt, (flush (ahead p) (set_build p (start_node (build p) K))). split; [done|].
  apply Hk; [|done|done]. etrans; [apply set_build_adv; exact T|exact A].
Qed.

Lemma wp_open {B} (k : unit -> M B) K p b fs Q : lvl b fs p ->
  (forall n p', b <= n -> adv p p' -> lvl 0 (n :: fs) p' -> ahead p' = skip_trivia (ahead p) -> wp (k tt) p' Q) ->
  wp (bind (open K) k) p Q.
Proof. intros (n & Hn & F) Hk. apply (wp_open_exact _ _ _ n fs); [done|]. intros p'. by apply Hk. Qed.

Lemma wp_close {B} (k : unit -> M B) p b n fs Q : lvl b (n :: fs) p ->
  (forall p', adv p p' -> lvl (S n) fs p' -> ahead p' = ahead p -> wp (k tt) p' Q) ->
  wp (bind close k) p Q.
Proof.
  intros (m & Hm & F) Hk. apply wp_bind. destruct (finish_ok _ _ _ _ F) as (b' & E & T & F').
  eexists tt, _. unfold close. rewrite E. simpl. split; [reflexivity|]. apply Hk; [by apply set_build_adv| |done].
  exists (S n). split; [lia|done].
Qed.

Lemma wp_checkpoint {B} (k : Checkpoint -> M B) p b fs Q : lvl b fs p ->
  (forall ck n p', b <= n -> mark ck = (length fs, n) -> adv p p' -> lvl n fs p' ->
     ahead p' = skip_trivia (ahead p) -> wp (k ck) p' Q) ->
  wp (bind checkpoint k) p Q.
Proof.
  intros HL Hk. unfold checkpoint. apply wp_assoc, (wp_flush _ _ b fs); [done|]. intros p1 A1 (n & Hn & F) Ha.
  apply wp_get. apply (Hk _ n); [done|by apply checkpoint_ok|done| |done]. by exists n.
Qed.

Lemma wp_open_at {B} (k : unit -> M B) ck K p n fs Q : mark ck = (length fs, n) -> lvl n fs p ->
  (forall p', adv p p' -> lvl 0 (n :: fs) p' -> ahead p' = ahead p -> wp (k tt) p' Q) ->
  wp (bind (open_at ck K) k) p Q.
Proof.
  intros Hm (m & Hn & F) Hk. apply wp_bind. destruct (start_at_ok _ _ K _ _ _ F Hm Hn) as (b' & E & T & F').
  eexists tt, _. unfold open_at. rewrite E. simpl. split; [reflexivity|]. apply Hk; [by apply set_build_adv| |done].
  exists (m - n). split; [lia|done].
Qed.

(** ** Statements that keep the level *)

Definition does {A} (m : M A) (p : parser) (R : A -> parser -> Prop) : Prop :=
  forall b fs, lvl b fs p -> wp m p (fun a p' => adv p p' /\ lvl b fs p' /\ R a p').

Lemma wp_does {A B} (m : M A) (k : A -> M B) p R b fs Q :
  does m p R -> lvl b fs p ->
  (forall a p', adv p p' -> lvl b fs p' -> R a p' -> wp (k a) p' Q) -> wp (bind m k) p Q.
Proof.
  intros Hm HL Hk. apply wp_bind. eapply wp_mono; [by apply Hm|]. intros a p' (A1 & L1 & HR). auto.
Qed.

Lemma wp_last {A} (m : M A) p Q : wp (bind m ret) p Q -> wp m p Q.
Proof.
  intros (a & p' & Hm & HQ). exists a, p'. split; [|done]. unfold bind in Hm.
  destruct (m p) as [[a1 p1]|[]|] eqn:E; by simplify_eq.
Qed.

Lemma wp_unlast {A} (m : M A) p Q : wp m p Q -> wp (bind m ret) p Q.
Proof. intros (a & p' & Hm & HQ). exists a, p'. split; [|done]. unfold bind. by rewrite Hm. Qed.

Lemma at_true k p : at_ k p = true <-> current p = Some k.
Proof. unfold at_. by rewrite bool_decide_eq_true. Qed.

Lemma at_false k p : at_ k p = false <-> current p <> Some k.
Proof. unfold at_. by rewrite bool_decide_eq_false. Qed.

Lemma at_end_true p : at_end p = true <-> current p = None.
Proof. unfold at_end. by destruct (current p). Qed.

Lemma at_end_false p : at_end p = false <-> current p <> None.
Proof. unfold at_end. by destruct (current p). Qed.

Lemma at_set_false set p : at_set set p = false <-> forall k, current p = Some k -> k ∉ set.
Proof.
  unfold at_set. destruct (current p) as [k|]; [|done]. rewrite bool_decide_eq_false. naive_solver.
Qed.

Lemma at_set_true set p : at_set set p = true <-> exists k, current p = Some k /\ k ∈ set.
Proof. unfold at_set. destruct (current p) as [k|]; [rewrite bool_decide_eq_true|]; naive_solver. Qed.

Lemma eat_does k p : does (eat k) p (fun ok p' =>
  if ok then current p = Some k /\ (wf p -> sz p' < sz p) else p' = p /\ current p <> Some k).
Proof.
  intros b fs HL. apply wp_ite; intros Hc.
  - apply at_true in Hc. apply (wp_bump _ _ b fs); [done|]. intros p' A L Hs. apply wp_ret.
    split_and!; [done..|]. intros Hw. apply Hs; [done|congruence].
  - apply wp_ret. split_and!; [reflexivity|done|done|]. by apply at_false.
Qed.

Lemma expect_does k p : does (expect k) p (fun ok p' =>
  current p <> None /\ (wf p -> sz p' < sz p) /\ ok = true \/ ok = false /\ ahead p' = ahead p).
Proof.
  intros b fs HL. apply (wp_does _ _ _ _ b fs _ (eat_does k p)); [done|]. intros [] p' A L HR.
  - apply wp_ret. split_and!; [done..|]. left. split; [|tauto]. destruct HR as [-> _]. discriminate.
  - destruct HR as [-> _]. apply wp_get, (wp_error _ _ _ b fs); [done|]. intros p1 A1 L1 E. apply wp_ret. auto.
Qed.

Lemma error_at_current_does m p : does (error_at_current m) p (fun _ p' =>
  wf p -> current p <> None -> sz p' < sz p).
Proof.
  intros b fs HL. unfold error_at_current. apply (wp_error _ _ _ b fs); [done|]. intros p1 A1 L1 E1.
  apply (wp_open _ _ _ b fs); [done|]. intros n p2 Hn A2 L2 E2.
  assert (Hc : current p2 = current p).
  { rewrite (current_skip p1 p2 E2). unfold current, nth. by rewrite E1. }
  pose proof (adv_sz _ _ A1). pose proof (adv_sz _ _ A2). apply wp_bind, wp_ite; intros Hb.
  - apply wp_last, (wp_bump _ _ 0 (n :: fs)); [done|]. intros p3 A3 L3 S3. apply wp_ret, wp_last.
    apply (wp_close _ _ 0 n fs); [done|]. intros p4 A4 L4 E4. apply wp_ret. pose proof (adv_sz _ _ A4).
    split_and!; [do 3 (etrans; [eassumption|]); done|apply (lvl_le (S n)); [lia|done]|].
    intros Hw Hc'. enough (sz p3 < sz p2) by lia. apply S3; [|congruence].
    eapply adv_wf; [exact A2|]. by eapply adv_wf.
  - apply wp_ret, wp_last, (wp_close _ _ 0 n fs); [done|]. intros p4 A4 L4 E4. apply wp_ret.
    split_and!; [do 2 (etrans; [eassumption|]); done|apply (lvl_le (S n)); [lia|done]|].
    intros _ Hc'. unfold cnot in Hb. apply negb_false_iff, at_end_true in Hb. congruence.
Qed.

(** The [while] rule: the body keeps the level and, to go on, consumes something. *)
Definition body_at (b : nat) (fs : list nat) (c : cond) (body : M bool) (p : parser) : Prop :=
  forall p1, adv p p1 -> wf p1 -> lvl b fs p1 -> c p1 = true ->
  wp body p1 (fun go p2 => adv p1 p2 /\ lvl b fs p2 /\ (go = true -> sz p2 < sz p1)).

Definition body_ok (c : cond) (body : M bool) (p : parser) : Prop :=
  forall p1, adv p p1 -> wf p1 -> c p1 = true -> does body p1 (fun go p2 => go = true -> sz p2 < sz p1).

Lemma body_ok_at c body p b fs : body_ok c body p -> body_at b fs c body p.
Proof. intros Hb p1 A1 W1 L1 Hc. by apply Hb. Qed.

Lemma loop_does c body p b fs : wf p -> body_at b fs c body p ->
  forall n p1, length (ahead p1) < n -> adv p p1 -> lvl b fs p1 ->
  wp (loop n c body) p1 (fun _ p' => adv p1 p' /\ lvl b fs p' /\
    (c p' = false \/ exists p1, adv p p1 /\ wp body p1 (fun go p2 => go = false /\ p2 = p'))).
Proof.
  intros Hw Hbody. induction n as [|n IH]; intros p1 Hn A1 L1; [lia|]. unfold wp. simpl.
  destruct (c p1) eqn:Hc; [|exists tt, p1; split_and!; auto; reflexivity].
  destruct (Hbody p1 A1 (adv_wf _ _ A1 Hw) L1 Hc) as (go & p2 & Hb & A2 & L2 & Hs). rewrite Hb.
  destruct go; [|exists tt, p2; split_and!; try done; right; exists p1; split; [done|]; by exists false, p2].
  assert (A12 : adv p p2) by (by etrans). pose proof (adv_length _ _ A2 (Hs eq_refl)).
  destruct (IH p2 ltac:(lia) A12 L2) as ([] & p' & Hl & A & L & HR). exists tt, p'. split_and!; try done. by etrans.
Qed.

Lemma while_does c body p : wf p -> body_ok c body p ->
  does (while c body) p (fun _ p' => c p' = false \/ exists p1, adv p p1 /\ wp body p1 (fun go p2 => go = false /\ p2 = p')).
Proof.
  intros Hw Hbody b fs HL. apply (loop_does c body p b fs Hw (body_ok_at _ _ _ _ _ Hbody) (S (length (ahead p))) p); [lia|reflexivity|done].
Qed.

(** When the first round consumes something, so does the loop. *)
Lemma while_strict c body p : wf p -> body_ok c body p -> c p = true ->
  does body p (fun _ p2 => sz p2 < sz p) -> does (while c body) p (fun _ p' => sz p' < sz p).
Proof.
  intros Hw Hbody Hc Hfirst b fs HL. unfold while, wp. simpl. rewrite Hc.
  destruct (Hfirst b fs HL) as (go & p2 & Hb & A2 & L2 & Hs). rewrite Hb.
  destruct go; [|by exists tt, p2]. pose proof (adv_length _ _ A2 Hs).
  destruct (loop_does c body p b fs Hw (body_ok_at _ _ _ _ _ Hbody) (length (ahead p)) p2 ltac:(lia) A2 L2) as ([] & p' & Hl & A & L & _).
  exists tt, p'. split_and!; [done|by etrans|done|]. pose proof (adv_sz _ _ A). lia.
Qed.

Lemma error_recover_does m set p : wf p -> does (error_recover m set) p (fun _ p' =>
  at_end p' || at_set set p' = true /\
  (forall k, current p = Some k -> k ∉ set -> sz p' < sz p)).
Proof.
  intros Hw b fs HL. unfold error_recover. apply (wp_error _ _ _ b fs); [done|]. intros p1 A1 L1 E1.
  apply (wp_open _ _ _ b fs); [done|]. intros n p2 Hn A2 L2 E2.
  assert (W2 : wf p2) by (eapply adv_wf; [exact A2|]; by eapply adv_wf).
  assert (Hc : current p2 = current p).
  { rewrite (current_skip p1 p2 E2). unfold current, nth. by rewrite E1. }
  pose proof (adv_sz _ _ A1). pose proof (adv_sz _ _ A2).
  set (c := cand (cnot at_end) (cnot (at_set set))).
  assert (Hbody : forall q, wf q -> c q = true -> does (bind bump (fun _ => ret true)) q (fun go q' => go = true /\ sz q' < sz q)).
  { intros q Wq Hq b' fs' HLq. apply (wp_bump _ _ b' fs'); [done|]. intros q' A L Hs. apply wp_ret.
    split_and!; [done..|]. apply Hs; [done|]. unfold c, cand, cnot in Hq.
    apply andb_true_iff in Hq as [Hq _]. apply at_end_false. by destruct (at_end q). }
  apply (wp_does _ _ _ _ 0 (n :: fs) _ (while_does c _ p2 W2
    (fun p1 _ W1 Hc1 b' fs' L' => wp_mono _ _ _ _ (Hbody p1 W1 Hc1 b' fs' L')
       (fun a p' '(conj A (conj L R)) => conj A (conj L (fun _ => proj2 R)))))); [done|].
  intros [] p3 A3 L3 Hend. apply wp_last, (wp_close _ _ 0 n fs); [done|]. intros p4 A4 L4 E4. apply wp_ret.
  pose proof (adv_sz _ _ A3). pose proof (adv_sz _ _ A4).
  assert (Hc4 : current p4 = current p3) by (unfold current, nth; by rewrite E4).
  assert (Hstop : c p3 = false).
  { destruct Hend as [|(q & _ & go & q' & Hq & -> & ->)]; [done|]. unfold bind in Hq.
    destruct (bump q) as [[]| |]; by simplify_eq. }
  assert (Hst : at_end p3 || at_set set p3 = true).
  { unfold c, cand, cnot in Hstop. destruct (at_end p3), (at_set set p3); done. }
  split_and!; [do 3 (etrans; [eassumption|]); done|apply (lvl_le (S n)); [lia|done]| |].
  - unfold at_end, at_set in *. by rewrite Hc4.
  - intros k Hk Hns. destruct (decide (sz p3 < sz p2)); [lia|exfalso].
    pose proof (adv_still _ _ A3 W2 ltac:(lia)) as Ha.
    assert (current p3 = Some k) as Hk3 by (unfold current, nth; rewrite Ha; fold (nth 0 p2); fold (current p2); congruence).
    unfold at_end, at_set in Hst. rewrite Hk3, (bool_decide_eq_false_2 _ Hns) in Hst. done.
Qed.

(** ** Automation *)

(** A state a production can be entered in. *)
Definition good (p : parser) : Prop := wf p /\ depth p <= MAX_DEPTH.

Lemma adv_good p p' : adv p p' -> good p -> good p'.
Proof. intros A [Hw Hd]. split; [by eapply adv_wf|]. destruct A as (_ & _ & -> & _). done. Qed.

Lemma adv_still_current p p' : adv p p' -> good p -> sz p <= sz p' -> current p' = current p.
Proof. intros A [Hw _] Hs. unfold current, nth. by rewrite (adv_still _ _ A Hw Hs). Qed.

Lemma ahead_current p p' : ahead p' = ahead p -> current p' = current p.
Proof. intros E. unfold current, nth. by rewrite E. Qed.

Lemma wp_ret_bind {A B} (a : A) (k : A -> M B) p Q : wp (k a) p Q -> wp (bind (ret a) k) p Q.
Proof. done. Qed.

Lemma wp_while {B} c body (k : unit -> M B) p b fs Q :
  good p -> lvl b fs p ->
  (forall p1, adv p p1 -> good p1 -> lvl b fs p1 -> c p1 = true ->
     wp body p1 (fun go p2 => adv p1 p2 /\ lvl b fs p2 /\ (go = true -> sz p2 < sz p1))) ->
  (forall p', adv p p' -> lvl b fs p' -> wp (k tt) p' Q) ->
  wp (bind (while c body) k) p Q.
Proof.
  intros Hg HL Hbody Hk. apply wp_bind.
  eapply wp_mono; [apply (loop_does c body p b fs (proj1 Hg)) with (n := S (length (ahead p)))|].
  - intros p1 A1 W1 L1 Hc. apply Hbody; [done|by eapply adv_good|done..].
  - lia.
  - reflexivity.
  - done.
  - cbv beta. intros [] p' (A & L & _). auto.
Qed.

(** The first state of an optional statement may be its last. *)
Lemma skip_does p : does skip p (fun _ p' => p' = p).
Proof. intros b fs HL. apply wp_ret. split_and!; [reflexivity|done|done]. Qed.

Lemma separator_does endk m p : good p -> does (separator endk m) p (fun _ p' =>
  current p <> Some endk -> current p <> None -> sz p' < sz p).
Proof.
  intros Hg b fs HL. unfold separator. eapply wp_does; [apply eat_does|exact HL|]. intros [] p1 A1 L1 HR.
  - apply wp_ret. split_and!; [done..|]. intros _ _. apply HR, Hg.
  - destruct HR as [-> Hc]. apply wp_ite; intros Ha; unfold cnot in Ha.
    + eapply wp_does; [apply error_recover_does, Hg|exact L1|]. intros [] p2 A2 L2 [_ Hs].
      eapply wp_does; [apply eat_does|exact L2|]. intros ok p3 A3 L3 _. apply wp_ret.
      split_and!; [by etrans|done|]. intros Hn Hnn. pose proof (adv_sz _ _ A3).
      destruct (current p) as [k|] eqn:E; [|done]. enough (sz p2 < sz p) by lia.
      apply (Hs k); [done|]. set_solver.
    + apply negb_false_iff, at_true in Ha. apply wp_ret. split_and!; [reflexivity|done|]. congruence.
Qed.

(** One round of a separated list: the element or the separator consumes something. *)
Lemma round_progress endk p1 p2 p3 :
  adv p1 p2 -> adv p2 p3 -> good p1 -> current p1 <> Some endk -> current p1 <> None ->
  (current p2 <> Some endk -> current p2 <> None -> sz p3 < sz p2) -> sz p3 < sz p1.
Proof.
  intros A1 A2 Hg He Hn Hs. pose proof (adv_sz _ _ A1). pose proof (adv_sz _ _ A2).
  destruct (decide (sz p2 < sz p1)); [lia|].
  rewrite (adv_still_current _ _ A1 Hg) in Hs by lia. enough (sz p3 < sz p2) by lia. auto.
Qed.
End Rules.

(** Conditions on the current token as propositions. *)
Ltac cond_in H :=
  unfold cand, cor, cnot, always, at_method_terminator in H;
  repeat first
    [ rewrite negb_true_iff in H | rewrite negb_false_iff in H | rewrite andb_true_iff in H
    | rewrite andb_false_iff in H | rewrite orb_true_iff in H | rewrite orb_false_iff in H
    | rewrite at_true in H | rewrite at_false in H | rewrite at_end_true in H | rewrite at_end_false in H
    | rewrite at_set_true in H | rewrite at_set_false in H ];
  try (lazymatch type of H with ex _ => destruct H as (? & H & ?) end).

(** The current token exists. *)
Ltac nn := solve [discriminate | congruence | intuition congruence].

Ltac chain :=
  solve [reflexivity | assumption
        | match goal with A : adv ?q ?c |- adv ?a ?c => etransitivity; [|exact A]; chain end].

(** Note what an advance from [p] to [p'] keeps. *)
Ltac note A :=
  lazymatch type of A with
  | adv ?p ?p' =>
      let Z := fresh "Z" in pose proof (adv_sz _ _ A) as Z;
      try (match goal with G : good p |- _ => let G' := fresh "G" in pose proof (adv_good _ _ A G) as G' end)
  end.

(** Discharge the side conditions of a progress fact when they are known. *)
Ltac gain H :=
  try (let T := fresh "P" in
       match type of H with
       | wf ?p -> current ?p <> None -> ?C =>
           match goal with G : good p |- _ => assert (T : C) by (apply H; [exact (proj1 G)|nn]); clear H end
       | wf ?p -> ?C => match goal with G : good p |- _ => pose proof (H (proj1 G)) as T; clear H end
       end).

Ltac fin := split_and!; [chain | first [assumption | eapply lvl_le; [|eassumption]; lia] | ..].

Ltac step :=
  lazymatch goal with
  | |- wp (bind (bind _ _) _) _ _ => apply wp_assoc
  | |- wp (bind (ignore _) _) _ _ => unfold ignore at 1
  | |- wp (bind (ret _) _) _ _ => apply wp_ret_bind
  | |- wp (bind skip _) _ _ => apply wp_ret_bind
  | |- wp (bind continue _) _ _ => apply wp_ret_bind
  | |- wp (bind break _) _ _ => apply wp_ret_bind
  | |- wp (bind (get _) _) _ _ => apply wp_get
  | |- wp (bind (ite _ _ _) _) _ _ => let C := fresh "C" in apply wp_bind, wp_ite; intros C; cond_in C
  | |- wp (ite _ _ _) _ _ => let C := fresh "C" in apply wp_ite; intros C; cond_in C
  | HL : lvl ?b ?fs ?p |- wp (bind bump _) ?p _ =>
      let p' := fresh "p" in let A := fresh "A" in let L := fresh "L" in let S := fresh "S" in
      apply (wp_bump _ _ b fs _ HL); intros p' A L S; note A; gain S
  | HL : lvl ?b ?fs ?p |- wp (bind (open _) _) ?p _ =>
      let p' := fresh "p" in let A := fresh "A" in let L := fresh "L" in let E := fresh "E" in
      apply (wp_open _ _ _ b fs _ HL); intros ?n p' ? A L E; note A; pose proof (current_skip _ _ E)
  | HL : lvl ?b (?n :: ?fs) ?p |- wp (bind close _) ?p _ =>
      let p' := fresh "p" in let A := fresh "A" in let L := fresh "L" in let E := fresh "E" in
      apply (wp_close _ _ b n fs _ HL); intros p' A L E; note A; pose proof (ahead_current _ _ E)
  | HL : lvl ?b ?fs ?p |- wp (bind checkpoint _) ?p _ =>
      let p' := fresh "p" in let A := fresh "A" in let L := fresh "L" in let E := fresh "E" in
      apply (wp_checkpoint _ _ b fs _ HL); intros ?ck ?n p' ? ? A L E; note A; pose proof (current_skip _ _ E)
  | HM : mark ?ck = (length ?fs, ?n), HL : lvl ?n ?fs ?p |- wp (bind (open_at ?ck _) _) ?p _ =>
      let p' := fresh "p" in let A := fresh "A" in let L := fresh "L" in let E := fresh "E" in
      apply (wp_open_at _ _ _ _ n fs _ HM HL); intros p' A L E; note A; pose proof (ahead_current _ _ E)
  | HL : lvl ?b ?fs ?p |- wp (bind (error _) _) ?p _ =>
      let p' := fresh "p" in let A := fresh "A" in let L := fresh "L" in let E := fresh "E" in
      apply (wp_error _ _ _ b fs _ HL); intros p' A L E; note A; pose proof (ahead_current _ _ E)
  | HL : lvl ?b ?fs ?p |- wp (bind (eat ?k) _) ?p _ =>
      let p' := fresh "p" in let A := fresh "A" in let L := fresh "L" in let S := fresh "S" in
      apply (wp_does _ _ _ _ b fs _ (eat_does k p) HL); intros [] p' A L S;
      [let C := fresh "C" in destruct S as [C S]; note A; gain S
      |let C := fresh "C" in destruct S as [-> C]; clear A L]
  | HL : lvl ?b ?fs ?p |- wp (bind (expect ?k) _) ?p _ =>
      let p' := fresh "p" in let A := fresh "A" in let L := fresh "L" in let S := fresh "S" in
      apply (wp_does _ _ _ _ b fs _ (expect_does k p) HL); intros ? p' A L [(? & S & ->)|[-> S]];
      [note A; gain S|note A; pose proof (ahead_current _ _ S)]
  | HL : lvl ?b ?fs ?p |- wp (bind (error_at_current ?m) _) ?p _ =>
      let p' := fresh "p" in let A := fresh "A" in let L := fresh "L" in let S := fresh "S" in
      apply (wp_does _ _ _ _ b fs _ (error_at_current_does m p) HL); intros [] p' A L S; note A; gain S
  | HL : lvl ?b ?fs ?p, G : good ?p |- wp (bind (error_recover ?m ?set) _) ?p _ =>
      let p' := fresh "p" in let A := fresh "A" in let L := fresh "L" in let S := fresh "S" in
      apply (wp_does _ _ _ _ b fs _ (error_recover_does m set p (proj1 G)) HL); intros [] p' A L [? S]; note A
  | HL : lvl ?b ?fs ?p, G : good ?p |- wp (bind (while ?c ?body) _) ?p _ =>
      let p' := fresh "p" in let A := fresh "A" in let L := fresh "L" in
      apply (wp_while c body _ p b fs _ G HL);
      [let q := fresh "p" in let A := fresh "A" in let G' := fresh "G" in let C := fresh "C" in
       let L' := fresh "L" in
       intros q A G' L' C; cond_in C; pose proof (adv_sz _ _ A)
      |intros p' A L; note A]
  | HL : lvl ?b ?fs ?p, G : good ?p |- wp (bind (separator ?k ?m) _) ?p _ =>
      let p' := fresh "p" in let A := fresh "A" in let L := fresh "L" in let S := fresh "S" in
      apply (wp_does _ _ _ _ b fs _ (separator_does k m p G) HL); intros [] p' A L S; note A
  | |- wp (bind (if ?b then _ else _) _) _ _ => destruct b
  | |- wp (if ?b then _ else _) _ _ => destruct b
  | |- wp (ret _) _ _ => apply wp_ret; cbv beta
  | |- wp skip _ _ => apply wp_ret; cbv beta
  | |- wp continue _ _ => apply wp_ret; cbv beta
  | |- wp break _ _ => apply wp_ret; cbv beta
  | |- wp (bind _ _) _ _ => fail
  | |- wp _ _ _ => apply wp_last
  end.
