(* ===== verification/CstSound.v ===== *)
(** Every production of the syntax-tree parser returns, keeps the level of the tree it
    starts at, and makes progress where the loops around it need it. *)

From Stdlib Require Import ZArith Lia Bool.
From stdpp Require Import base list strings sets.
From S2P Require Import Prelude Bytes Value Chars Lexer LexerFacts Cst CstParser CstFacts.
Local Open Scope nat_scope.

Import Lex Cst CstParser.

(** ** The scans of an f-string

    [find_fstring_close] and the search for the end of an interpolation return on every string
    and stop at character boundaries. *)

Lemma encode_tail_cont c k x : 0 < k -> utf8_encode c !! k = Some x -> (0 <= c)%Z -> (128 <= x <= 191)%Z.
Proof.
  intros Hk. unfold utf8_encode.
  repeat match goal with |- context [if ?t then _ else _] => destruct t eqn:? end;
    destruct k as [|[|[|[|k]]]]; simpl; try done; try lia; intros [= <-] _; div_mod.
Qed.

Section Scans.
Context (b : list Z).
Hypothesis Hnn : Forall (fun x => (0 <= x)%Z) b.
Hypothesis Hv : utf8_codes b = true.

Lemma close_interp_ok : forall fuel j dep, length b - j < fuel -> 0 < dep ->
  exists j' dep', close_interp fuel b j dep = Ok (j', dep') /\ (dep' = 0 -> j < j' /\ bd b j').
Proof.
  induction fuel as [|fuel IH]; intros j dep Hf Hd; [lia|]. cbn [close_interp].
  destruct (Nat.ltb_spec j (length b)) as [Hj|Hj]; [|exists j, dep; split; [done|lia]].
  rewrite (proj2 (Nat.ltb_lt 0 dep) Hd). cbn [andb].
  destruct (lookup_lt_is_Some_2 b j Hj) as [x Hx]. rewrite (lex_index_ok b j x Hx). cbn [Prelude.bind].
  assert (Hnext : forall j1 dep1, j < j1 -> 0 < dep1 -> exists j' dep',
    close_interp fuel b j1 dep1 = Ok (j', dep') /\ (dep' = 0 -> j < j' /\ bd b j')).
  { intros j1 dep1 Hj1 Hd1. destruct (IH j1 dep1) as (j' & dep' & E & HB); [lia|done|].
    exists j', dep'. split; [done|]. intros H0. destruct (HB H0). split; [lia|done]. }
  destruct (Z.eqb_spec x 34) as [->|].
  - destruct (normal_string_ends b Hnn Hv j Hx) as (e & -> & He & _). cbn [Prelude.bind]. apply Hnext; lia.
  - destruct (Z.eqb_spec x 123); [cbv zeta; cbn [Nat.eqb]; apply Hnext; lia|].
    destruct (Z.eqb_spec x 125) as [->|]; cbv zeta.
    + destruct (Nat.eqb_spec (dep - 1) 0); [|apply Hnext; lia].
      exists (j + 1), (dep - 1). split; [done|]. intros _. split; [lia|].
      rewrite Nat.add_1_r. by apply (bd_ascii b Hnn Hv j 125).
    + rewrite (proj2 (Nat.eqb_neq dep 0)) by lia. apply Hnext; lia.
Qed.

Lemma interp_end_ok close_pos : close_pos <= length b ->
  forall fuel j dep, close_pos - j < fuel -> 0 < dep ->
  exists j' dep', interp_end fuel b close_pos j dep = Ok (j', dep') /\
    (dep' = 0 -> j <= j' < close_pos /\ bd b j' /\ bd b (j' + 1)).
Proof.
  intros Hc. induction fuel as [|fuel IH]; intros j dep Hf Hd; [lia|]. cbn [interp_end].
  destruct (Nat.ltb_spec j close_pos) as [Hj|Hj]; [|exists j, dep; split; [done|lia]].
  rewrite (proj2 (Nat.ltb_lt 0 dep) Hd). cbn [andb].
  destruct (lookup_lt_is_Some_2 b j) as [x Hx]; [lia|]. rewrite (lex_index_ok b j x Hx). cbn [Prelude.bind].
  assert (Hnext : forall j1 dep1, j < j1 -> 0 < dep1 -> exists j' dep',
    interp_end fuel b close_pos j1 dep1 = Ok (j', dep') /\ (dep' = 0 -> j <= j' < close_pos /\ bd b j' /\ bd b (j' + 1))).
  { intros j1 dep1 Hj1 Hd1. destruct (IH j1 dep1) as (j' & dep' & E & HB); [lia|done|].
    exists j', dep'. split; [done|]. intros H0. destruct (HB H0) as (? & ? & ?). split_and!; [lia|lia|done..]. }
  pose proof (codepoint_len_pos x) as Hpos.
  destruct (Z.eqb_spec x 123); [apply Hnext; lia|].
  destruct (Z.eqb_spec x 125) as [->|].
  - destruct (Nat.eqb_spec (dep - 1) 0); [|apply Hnext; lia].
    exists j, 0. split; [done|]. intros _. rewrite Nat.add_1_r. pose proof (bd_ascii b Hnn Hv j 125 Hx ltac:(lia)).
    split_and!; [lia|lia|tauto..].
  - destruct (Z.eqb_spec x 34) as [->|]; [|apply Hnext; lia].
    destruct (normal_string_ends b Hnn Hv j Hx) as (e & -> & He & _). cbn [Prelude.bind]. apply Hnext; lia.
Qed.

Lemma close_loop_ok closing raw : closing <> [] -> Forall (fun x => (x < 128)%Z) closing ->
  forall fuel idx, length b - idx < fuel -> bd b idx ->
  exists r, close_loop fuel b closing raw idx = Ok r /\
    (forall c, r = Some c -> idx <= c /\ bd b c /\ c + length closing <= length b).
Proof.
  intros Hcl Hca. assert (0 < length closing) by (destruct closing; [done|simpl; lia]).
  induction fuel as [|fuel IH]; intros idx Hf Hi; [lia|]. cbn [close_loop].
  assert (Hnext : forall j, idx < j -> bd b j -> exists r, close_loop fuel b closing raw j = Ok r /\
    (forall c, r = Some c -> idx <= c /\ bd b c /\ c + length closing <= length b)).
  { intros j Hj Hb. destruct (IH j) as (r & E & HR); [destruct Hb; lia|done|]. exists r. split; [done|].
    intros c Hc. destruct (HR c Hc) as (? & ? & ?). split_and!; [lia|done|done]. }
  destruct (Nat.leb_spec (idx + length closing) (length b)) as [Hle|Hle]; [|by exists None].
  destruct (starts_with_at b idx (lit "${")) eqn:Es.
  - destruct (close_interp_ok (S (length b)) (idx + 2) 1) as (j & dep & E & HB); [lia|lia|]. rewrite E. cbn [Prelude.bind].
    destruct (Nat.eqb_spec dep 0) as [->|]; cbn [negb]; [|by exists None]. destruct (HB eq_refl). apply Hnext; [lia|done].
  - destruct (lookup_lt_is_Some_2 b idx) as [x Hx]; [lia|]. rewrite (lex_index_ok b idx x Hx). cbn [Prelude.bind].
    pose proof (codepoint_len_pos x). destruct (negb raw && (x =? 92)%Z) eqn:Ee.
    + destruct (Nat.leb_spec (length b) (idx + 1)) as [|Hlt]; [by exists None|].
      destruct (lookup_lt_is_Some_2 b (idx + 1)) as [y Hy]; [lia|]. rewrite (lex_index_ok b _ y Hy). cbn [Prelude.bind].
      pose proof (codepoint_len_pos y). apply Hnext; [lia|].
      apply andb_true_iff in Ee as [_ Ex%Z.eqb_eq]. subst x.
      replace (idx + (1 + utf8_codepoint_len y)) with (idx + 1 + utf8_codepoint_len y) by lia.
      apply bd_step; try assumption. rewrite Nat.add_1_r. by apply (bd_ascii b Hnn Hv idx 92).
    + destruct (starts_with_at b idx closing) eqn:Ec.
      * exists (Some idx). split; [done|]. intros c [= <-]. split_and!; [lia|done|done].
      * apply Hnext; [lia|]. by apply bd_step.
Qed.

(** The text between two character boundaries is a string. *)
Lemma slice_valid i j : bd b i -> bd b j -> i <= j -> utf8_codes (take (j - i) (drop i b)) = true.
Proof.
  intros Hi Hj Hij. remember (j - i) as n eqn:En. revert i Hi Hij En.
  induction n as [n IH] using lt_wf_ind. intros i Hi Hij En. destruct n as [|n]; [done|].
  destruct (lookup_lt_is_Some_2 b i) as [x Hx]; [destruct Hj; lia|].
  destruct (bd_head b Hnn i x Hi Hx) as (c & r & Hc & He & Hb). pose proof (encode_length c) as Hl.
  destruct (decide (i + length (utf8_encode c) <= j)) as [Hle|Hgt].
  - rewrite He, take_app_ge by lia. rewrite utf8_codes_encode by done.
    replace r with (drop (i + length (utf8_encode c)) b) by (by rewrite <-drop_drop, He, drop_app_length).
    apply IH; [lia|done|lia|lia].
  - exfalso. apply (bd_boundary b) in Hj as Hbj. destruct Hb as [Hlen _].
    destruct (lookup_lt_is_Some_2 b j) as [y Hy]; [lia|].
    assert (utf8_encode c !! (j - i) = Some y) as Hin.
    { rewrite <-Hy. replace j with (i + (j - i)) at 2 by lia. rewrite <-lookup_drop, He. by rewrite lookup_app_l by lia. }
    apply scalar_value_iff in Hc. apply encode_tail_cont in Hin; [|lia|lia].
    unfold is_char_boundary in Hbj. rewrite Hy in Hbj.
    rewrite (proj2 (Nat.eqb_neq j 0)), (proj2 (Nat.eqb_neq j (length b))) in Hbj by lia. cbn [orb] in Hbj.
    apply negb_true_iff, andb_false_iff in Hbj. lia.
Qed.

Lemma lex_valid : exists toks, lex b = Ok toks /\ bytes_of toks = b /\ Forall tok_ok toks.
Proof.
  assert (forall n i out, bd b i -> length b - i < n -> exists toks,
    lex_loop n b i out = Ok (out ++ toks) /\ bytes_of toks = drop i b /\ Forall tok_ok toks) as Hloop.
  { induction n as [|n IH]; intros i out Hi Hn; [lia|]. cbn [lex_loop].
    destruct (Nat.ltb_spec i (length b)) as [Hlt|Hge].
    2: { exists []. rewrite app_nil_r, drop_ge by done. done. }
    destruct (scan_one_token b Hnn Hv i Hi Hlt) as (k & e & t & -> & Hs & Hne & Hb & _). cbn [Prelude.bind].
    pose proof Hs as (He & Hle & Hd). assert (0 < length t) by (destruct t; [done|simpl; lia]).
    rewrite str_slice_ok by (done || lia). cbn [Prelude.bind].
    pose proof (slice_valid i e Hi Hb ltac:(lia)) as Hu. rewrite (spans_text b i e t Hs) in *.
    destruct (IH e (out ++ [(k, t)]) Hb) as (toks & Ht & Hl & Hok); [lia|].
    exists ((k, t) :: toks). rewrite Ht, <-app_assoc. split_and!; [done|by unfold bytes_of in *; simpl; rewrite Hl, Hd|].
    constructor; [|done]. split_and!; [done| |done]. simpl. pose proof (drop_nonneg b Hnn i) as Hf. rewrite Hd in Hf.
    by apply Forall_app in Hf as [? _]. }
  destruct (Hloop (S (length b)) 0 [] (bd_zero b Hv) ltac:(lia)) as (toks & Ht & Hb & Hok). by exists toks.
Qed.
End Scans.

(** ** Productions *)

Local Open Scope cst_scope.

Section Productions.
Context `{GB : GreenNodeBuilder} {GOk : GreenNodeBuilderOk}.

(** The tokens on which an expression may start without consuming anything. *)
Definition stoppers : list SyntaxKind := [COMMA; R_BRACE; R_BRACK; R_PAREN].

Definition rank (c : call) : nat :=
  match c with Expr => 3 | ExprBp _ => 2 | Unary => 1 | Type_ | Attribute => 0 end.

Definition starts (p : parser) : Prop := exists k, current p = Some k /\ k ∉ stoppers.

Lemma starts_eq p p' : current p' = current p -> starts p -> starts p'.
Proof. unfold starts. by intros ->. Qed.

Definition strict (c : call) (p : parser) : Prop :=
  match c with
  | Type_ | Attribute => current p <> None
  | _ => starts p
  end.

(** Attributes are only parsed at a token. *)
Definition callable (c : call) (p : parser) : Prop :=
  match c with Attribute => current p <> None | _ => True end.

Definition call_ok (N : nat) (rec : call -> M unit) : Prop :=
  forall c p, good p -> callable c p -> 4 * sz p + rank c < N -> does (rec c) p (fun _ p' => strict c p -> sz p' < sz p).

Context (N : nat) (rec : call -> M unit) (Hrec : call_ok N rec).

Lemma wp_call {B} c (k : unit -> M B) p b fs Q :
  good p -> lvl b fs p -> callable c p -> 4 * sz p + rank c < N ->
  (forall p', adv p p' -> lvl b fs p' -> (strict c p -> sz p' < sz p) -> wp (k tt) p' Q) ->
  wp (bind (rec c) k) p Q.
Proof. intros G L HC HN Hk. eapply wp_does; [by apply Hrec|exact L|]. intros [] p' A L' S. auto. Qed.

Ltac call_step :=
  lazymatch goal with
  | G : good ?p, HL : lvl ?b ?fs ?p |- wp (bind (rec ?c) _) ?p _ =>
      let p' := fresh "p" in let A := fresh "A" in let L := fresh "L" in let S := fresh "S" in
      apply (wp_call c _ p b fs _ G HL); [first [exact I | cbn [callable]; nn]|cbn [rank]; lia|intros p' A L S; note A; cbn [strict] in S]
  | |- wp (bind (parse_expr rec) _) _ _ => unfold parse_expr at 1
  | |- wp (bind (parse_type rec) _) _ _ => unfold parse_type at 1
  | |- wp (bind (parse_attribute rec) _) _ _ => unfold parse_attribute at 1
  end.

(** Run a helper by its lemma [lem]. *)
Ltac use lem :=
  eapply wp_does; [apply lem; first [assumption | lia | nn | left; lia | right; split; [nn|lia]] | eassumption
                  | let p' := fresh "p" in let A := fresh "A" in let L := fresh "L" in let S := fresh "S" in
                    intros ? p' A L S; cbv beta in S; note A].

Ltac helper := fail.
Ltac sim := repeat first [call_step | helper | step].

(** Use the progress facts whose side conditions are known. *)
Ltac boost :=
  repeat match goal with
         | S : current ?q <> None -> sz _ < sz _ |- _ =>
             let T := fresh "P" in assert (T := S ltac:(nn)); clear S
         | S : starts ?q -> sz _ < sz _, H : starts ?p, E : current ?q = current ?p |- _ =>
             let T := fresh "P" in assert (T := S (starts_eq _ _ E H)); clear S
         | S : starts ?q -> sz _ < sz _, H : starts ?q |- _ =>
             let T := fresh "P" in assert (T := S H); clear S
         end.

Ltac leaf_ok := fin; intros; first
  [lia | discriminate | nn | boost; lia | solve [eapply round_progress; try eassumption; tauto] | idtac].
Ltac auto_sim := sim; leaf_ok.

Lemma tuple_type_does p : good p -> current p <> None -> 4 * sz p <= N ->
  does (parse_tuple_type rec) p (fun _ p' => sz p' < sz p).
Proof. intros G Hc HN b fs HL. unfold parse_tuple_type. auto_sim. Qed.

Lemma closure_param_does p : good p -> 4 * sz p < N ->
  does (parse_closure_param rec) p (fun _ p' => current p <> None -> sz p' < sz p).
Proof. intros G HN b fs HL. unfold parse_closure_param. auto_sim. Qed.

Ltac helper ::=
  lazymatch goal with
  | |- wp (bind (parse_tuple_type rec) _) _ _ => use tuple_type_does
  | |- wp (bind (parse_closure_param rec) _) _ _ => use closure_param_does
  end.

Lemma closure_params_does p : good p -> 4 * sz p < N -> does (closure_params rec) p (fun _ _ => True).
Proof. intros G HN b fs HL. unfold closure_params. auto_sim. Qed.

Lemma type_body_does p : good p -> 4 * sz p <= N ->
  does (type_body rec) p (fun _ p' => current p <> None -> sz p' < sz p).
Proof. intros G HN b fs HL. unfold type_body. auto_sim. Qed.

(** A list of items, each followed by a separator. *)
Lemma items_does (item : M unit) endk m p : good p ->
  (forall q, adv p q -> good q -> does item q (fun _ _ => True)) ->
  does (while (Not (at_ endk) &&& Not at_end) (item ;; separator endk m ;; continue)) p (fun _ _ => True).
Proof.
  intros G Hitem b fs HL. sim; [|leaf_ok].
  eapply wp_does; [by apply Hitem|eassumption|]. intros [] p2 A2 L2 _. note A2. sim. leaf_ok.
Qed.

Lemma call_arg_does p : good p -> 4 * sz p + 3 < N -> does (parse_call_arg rec) p (fun _ _ => True).
Proof. intros G HN b fs HL. unfold parse_call_arg. auto_sim. Qed.

Lemma call_args_does p : good p -> current p <> None -> 4 * sz p <= N ->
  does (parse_call_args rec) p (fun _ p' => sz p' < sz p).
Proof.
  intros G Hc HN b fs HL. unfold parse_call_args. do 2 step.
  eapply wp_does; [apply items_does; [done|]|eassumption|].
  - intros q A1 Gq. apply call_arg_does; [done|]. pose proof (adv_sz _ _ A1). lia.
  - intros [] p2 A2 L2 _. note A2. auto_sim.
Qed.

(** The tokens that continue a path. *)
Definition path_lead (p : parser) : Prop :=
  current p = Some DOT \/ current p = Some L_BRACK \/ at_optional_path_prefix p = true.

Lemma optional_prefix p : at_optional_path_prefix p = true -> current p = Some QUESTION.
Proof. unfold at_optional_path_prefix. intros [H _]%andb_true_iff. by apply at_true in H. Qed.

Lemma path_lead_current p : path_lead p -> current p <> None.
Proof. intros [H|[H|H%optional_prefix]]; congruence. Qed.

(** What the look-aheads say about the current token. *)
Ltac leads :=
  repeat match goal with
         | C : at_optional_path_prefix ?q = true |- _ =>
             lazymatch goal with _ : current q = Some QUESTION |- _ => fail | _ => pose proof (optional_prefix q C) end
         end.

Lemma path_segment_does p : good p -> 4 * sz p <= N ->
  does (path_segment rec) p (fun go p' => (go = true -> sz p' < sz p) /\ (path_lead p -> sz p' < sz p)).
Proof.
  intros G HN b fs HL. unfold path_segment. sim.
  all: leads; fin; unfold path_lead; intros; first [discriminate | lia | boost; lia | exfalso; intuition congruence].
Qed.

Lemma path_segments_does p : good p -> 4 * sz p <= N ->
  does (path_segments rec) p (fun _ p' => path_lead p -> sz p' < sz p).
Proof.
  intros G HN b fs HL.
  assert (Hbody : body_ok always (path_segment rec) p).
  { intros p1 A1 W1 _ b1 fs1 L1. pose proof (adv_sz _ _ A1).
    eapply wp_mono; [apply path_segment_does; [by eapply adv_good|lia|exact L1]|]. simpl. tauto. }
  destruct (decide (current p = Some DOT \/ current p = Some L_BRACK \/ at_optional_path_prefix p = true)) as [Hl|Hl].
  - eapply wp_mono; [apply while_strict; [apply G|done|done| |exact HL]|simpl; tauto].
    intros b1 fs1 L1. eapply wp_mono; [apply path_segment_does; [done|lia|exact L1]|].
    cbv beta. intros go p1 (A1 & L2 & _ & Hs). auto.
  - eapply wp_mono; [apply while_does; [apply G|done|exact HL]|]. cbv beta. unfold path_lead. intros a p1 (A1 & L1 & _). split_and!; [done|done|]. intros Hl2. by destruct (Hl Hl2).
Qed.

Lemma reference_does p : good p -> current p <> None -> 4 * sz p <= N ->
  does (parse_reference rec) p (fun _ p' => sz p' < sz p).
Proof.
  intros G Hc HN b fs HL. unfold parse_reference. sim; use path_segments_does; auto_sim.
Qed.

Lemma list_tail_wp {B} (k : unit -> M B) p b n fs Q : good p -> lvl b (n :: fs) p -> 4 * sz p + 3 < N ->
  (forall p', adv p p' -> lvl (S n) fs p' -> wp (k tt) p' Q) -> wp (bind (parse_list_body_tail rec) k) p Q.
Proof.
  intros G HL HN HQ. unfold parse_list_body_tail. step.
  eapply wp_does; [apply items_does; [done|]|eassumption|].
  - intros q A1 Gq b1 fs1 L1. pose proof (adv_sz _ _ A1). auto_sim.
  - intros [] p2 A2 L2 _. note A2. sim; (apply wp_unlast, HQ; [chain|done]).
Qed.

Lemma list_does p : good p -> current p <> None -> 4 * sz p <= N ->
  does (parse_list rec) p (fun _ p' => sz p' < sz p).
Proof.
  intros G Hc HN b fs HL. unfold parse_list. sim.
  all: try leaf_ok.
  all: eapply list_tail_wp; [eassumption..|lia|]; intros pe Ae Le; note Ae; auto_sim.
Qed.

Lemma paren_or_tuple_does p : good p -> current p <> None -> 4 * sz p <= N ->
  does (parse_paren_or_tuple rec) p (fun _ p' => sz p' < sz p).
Proof. intros G Hc HN b fs HL. unfold parse_paren_or_tuple. auto_sim. Qed.

Ltac helper ::=
  lazymatch goal with
  | |- wp (bind (parse_tuple_type rec) _) _ _ => use tuple_type_does
  | |- wp (bind (parse_closure_param rec) _) _ _ => use closure_param_does
  | |- wp (bind (closure_params rec) _) _ _ => use closure_params_does
  | |- wp (bind (parse_call_args rec) _) _ _ => use call_args_does
  | |- wp (bind (path_segments rec) _) _ _ => use path_segments_does
  end.

Lemma paren_closure_does p : good p -> 4 * sz p <= N ->
  does (try_parse_paren_closure rec) p (fun ok p' => if ok then sz p' < sz p else p' = p).
Proof. intros G HN b fs HL. unfold try_parse_paren_closure. auto_sim. Qed.

Lemma attributes_does p : good p -> 4 * sz p < N -> does (attributes rec) p (fun _ _ => True).
Proof. intros G HN b fs HL. unfold attributes. auto_sim. Qed.

Lemma type_hint_does p : good p -> 4 * sz p < N -> does (type_hint rec) p (fun _ _ => True).
Proof. intros G HN b fs HL. unfold type_hint. auto_sim. Qed.

Lemma tuple_key_lead p : peek_is_tuple_typed_dict_key p = true -> current p = Some L_PAREN.
Proof. unfold peek_is_tuple_typed_dict_key. intros [H _]%andb_true_iff. by apply at_true in H. Qed.

Lemma dict_key_does p : good p -> 4 * sz p + 3 < N -> does (dict_key rec) p (fun _ _ => True).
Proof.
  intros G HN b fs HL. unfold dict_key.
  eapply wp_does with (R := fun _ _ => True); [|exact HL|].
  - intros b1 fs1 L1. step; [apply tuple_key_lead in C|]; auto_sim.
  - intros [] p1 A1 L1 _. note A1. sim; try use type_hint_does; auto_sim.
Qed.

Lemma dict_value_does p : good p -> 4 * sz p + 3 < N -> does (dict_value rec) p (fun _ _ => True).
Proof. intros G HN b fs HL. unfold dict_value. auto_sim. Qed.

Ltac helper ::=
  lazymatch goal with
  | |- wp (bind (parse_tuple_type rec) _) _ _ => use tuple_type_does
  | |- wp (bind (parse_closure_param rec) _) _ _ => use closure_param_does
  | |- wp (bind (closure_params rec) _) _ _ => use closure_params_does
  | |- wp (bind (parse_call_args rec) _) _ _ => use call_args_does
  | |- wp (bind (path_segments rec) _) _ _ => use path_segments_does
  | |- wp (bind (attributes rec) _) _ _ => use attributes_does
  | |- wp (bind (type_hint rec) _) _ _ => use type_hint_does
  | |- wp (bind (dict_key rec) _) _ _ => use dict_key_does
  | |- wp (bind (dict_value rec) _) _ _ => use dict_value_does
  end.

Lemma dict_field_does p : good p -> 4 * sz p + 3 < N -> does (parse_dict_field rec) p (fun _ _ => True).
Proof. intros G HN b fs HL. unfold parse_dict_field. auto_sim. Qed.

Lemma dict_does p : good p -> 4 * sz p + 3 < N \/ current p <> None /\ 4 * sz p <= N ->
  does (parse_dict rec) p (fun _ p' => current p <> None -> sz p' < sz p).
Proof.
  intros G HN b fs HL. unfold parse_dict. do 2 step.
  assert (4 * sz p1 + 3 < N) by (destruct HN as [|[Hc HN]]; [lia|]; boost; lia).
  eapply wp_does; [apply items_does; [done|]|eassumption|].
  - intros q A1 Gq. apply dict_field_does; [done|]. pose proof (adv_sz _ _ A1). lia.
  - intros [] p2 A2 L2 _. note A2. auto_sim.
Qed.

Lemma variant_ctor_does p : good p -> current p <> None -> 4 * sz p <= N ->
  does (parse_variant_ctor rec) p (fun _ p' => sz p' < sz p).
Proof.
  intros G Hc HN b fs HL. unfold parse_variant_ctor. sim; try use dict_does; auto_sim.
Qed.

Lemma leaf_does k p : good p -> current p <> None -> does (leaf k) p (fun _ p' => sz p' < sz p).
Proof. intros G Hc b fs HL. unfold leaf. auto_sim. Qed.

Lemma at_set_nil p : at_set [] p = false.
Proof. apply at_set_false. intros k _. apply not_elem_of_nil. Qed.

(** An expression, and what is left of the input in an error node. *)
Lemma rest_does m p : good p -> 4 * sz p + 3 < N ->
  does ((If Not at_end Then parse_expr rec Else skip) ;;
        (If Not at_end Then error_recover m [] Else skip) ;;
        flush_trivia) p (fun _ p' => ahead p' = []).
Proof.
  intros G HN b fs HL.
  eapply wp_does with (R := fun _ _ => True); [intros b1 fs1 L1; auto_sim|eassumption|].
  intros [] q1 B1 M1 _. note B1.
  eapply wp_does with (R := fun _ p' => current p' = None); [intros b1 fs1 L1|eassumption|].
  - sim; leaf_ok. apply at_end_true.
    match goal with He : at_end _ || _ = true |- _ => by rewrite at_set_nil, orb_false_r in He end.
  - intros [] q2 B2 M2 Hend. note B2. apply wp_last, (wp_flush _ _ b fs); [done|]. intros q3 B3 M3 E3. apply wp_ret.
    split_and!; [chain|done|]. rewrite E3. pose proof (skip_head (ahead q2)) as Hh.
    unfold current, nth in Hend. destruct (skip_trivia (ahead q2)) as [|[k t] l]; [done|congruence].
Qed.

Lemma wp_regroup {B} (m1 m2 m3 : M unit) (k : unit -> M B) p Q :
  wp (bind (m1 ;; m2 ;; m3) k) p Q -> wp (m1 ;; m2 ;; bind m3 k) p Q.
Proof.
  unfold wp, bind. intros (a & p' & Hm & HQ). exists a, p'. split; [|done].
  destruct (m1 p) as [[[] p1]| |]; [|done..]. by destruct (m2 p1) as [[[] p2]| |].
Qed.

(** ** F-strings *)

(** [p] has added the bytes [t] to the tree of [p0] and is at the same token. *)
Definition part (p0 : parser) (t : list Z) (p : parser) : Prop :=
  ahead p = ahead p0 /\ text (build p) = text (build p0) ++ t /\ depth p = depth p0 /\
  exists new, errors p = errors p0 ++ new /\ Forall (fun e => offset e <= cursor_byte p0 + sz p0) new.

Lemma part_refl p : part p [] p.
Proof. split_and!; [done|by rewrite app_nil_r|done|exists []; by rewrite app_nil_r]. Qed.

Lemma part_build p0 t t' p b' : part p0 t p -> text b' = text (build p) ++ t' -> part p0 (t ++ t') (set_build p b').
Proof. intros (A & T & D & E) Hb. split_and!; [done| |done|done]. simpl. by rewrite Hb, T, app_assoc. Qed.

Lemma part_close {B} (k : unit -> M B) p0 t p b n fs Q : part p0 t p -> lvl b (n :: fs) p ->
  (forall p', part p0 t p' -> lvl (S n) fs p' -> wp (k tt) p' Q) -> wp (bind close k) p Q.
Proof.
  intros HP (m & Hm & F) Hk. apply wp_bind. destruct (finish_ok _ _ _ _ F) as (b' & E & T & F').
  eexists tt, _. unfold close. rewrite E. simpl. split; [reflexivity|]. apply Hk; [|by exists (S n)].
  rewrite <-(app_nil_r t). apply part_build; [done|]. by rewrite app_nil_r.
Qed.

Lemma part_token {B} (k : unit -> M B) K u p0 t p b fs Q : part p0 t p -> lvl b fs p ->
  (forall p', part p0 (t ++ u) p' -> lvl b fs p' -> wp (k tt) p' Q) -> wp (bind (emit_raw_token K u) k) p Q.
Proof.
  intros HP (n & Hn & F) Hk. apply wp_bind. destruct (token_ok (build p) K u n fs F) as [T F'].
  eexists tt, _. split; [reflexivity|]. apply Hk; [by apply part_build|]. exists (S n). split; [lia|done].
Qed.

Lemma wp_lift {A B} (m : outcome unit A) (a : A) (k : A -> M B) p Q :
  m = Ok a -> wp (k a) p Q -> wp (bind (lift m) k) p Q.
Proof. intros -> Hk. by apply wp_bind; exists a, p. Qed.

Section FString.
Context (p0 : parser) (K0 : SyntaxKind) (full_text : list Z) (rest : list tok).
Hypothesis Hahead : ahead p0 = (K0, full_text) :: rest.
Hypothesis Hkind : is_trivia K0 = false.
Hypothesis Hgood : good p0.
Hypothesis HN : 4 * sz p0 <= N.

Lemma full_ok : full_text <> [] /\ Forall (fun z => (0 <= z)%Z) full_text /\ utf8_codes full_text = true.
Proof. destruct Hgood as [Hw _]. unfold wf in Hw. rewrite Hahead in Hw. by inversion Hw. Qed.

Lemma full_length : length full_text <= sz p0.
Proof. unfold sz. rewrite Hahead. unfold bytes_of. simpl. rewrite length_app. lia. Qed.

Lemma part_open {B} (k : unit -> M B) K t p b fs Q : part p0 t p -> lvl b fs p ->
  (forall n p', b <= n -> part p0 t p' -> lvl 0 (n :: fs) p' -> wp (k tt) p' Q) -> wp (bind (open K) k) p Q.
Proof.
  intros HP (n & Hn & F) Hk. apply wp_bind. pose proof (start_ok (build p) K) as [T F'].
  eexists tt, (set_build p (start_node (build p) K)). split.
  - unfold open, flush_trivia. simpl. destruct HP as (A & _). rewrite A, Hahead. simpl. by rewrite Hkind.
  - apply (Hk n); [done| |exists 0; split; [lia|]; simpl; by rewrite F', F].
    rewrite <-(app_nil_r t). apply part_build; [done|]. by rewrite app_nil_r.
Qed.

Lemma part_inner {B} (k : unit -> M B) u t p b fs Q :
  Forall (fun z => (0 <= z)%Z) u -> utf8_codes u = true -> length u < length full_text ->
  part p0 t p -> lvl b fs p -> (forall p', part p0 (t ++ u) p' -> lvl b fs p' -> wp (k tt) p' Q) ->
  wp (bind (parse_fstring_interp_inner rec u) k) p Q.
Proof.
  intros Hnn Hv Hlen HP HL Hk. destruct (lex_valid u Hnn Hv) as (toks & El & Eb & Hok). pose proof full_length.
  unfold parse_fstring_interp_inner. apply wp_assoc, (wp_lift _ toks); [done|]. apply wp_assoc, wp_get, wp_assoc, wp_get.
  apply wp_bind. set (p1 := MkParser toks (build p) (errors p) 0 (depth p) (past_end p)).
  assert (Hsz : sz p1 = length u) by (unfold sz; simpl; by rewrite Eb).
  destruct HP as (A & T & D & new & E & F).
  assert (G1 : good p1) by (split; [done|]; destruct Hgood as [_ Hd]; simpl; by rewrite D).
  enough (wp ((If Not at_end Then parse_expr rec Else skip) ;;
              (If Not at_end Then error_recover "trailing input in interpolation" [] Else skip) ;;
              bind flush_trivia (fun _ => set_stream (ahead p) (cursor_byte p + length u))) p1
            (fun _ p' => part p0 (t ++ u) p' /\ lvl b fs p')) as (a & p' & Hrun & HP' & HL').
  { exists tt, p'. split; [destruct a; exact Hrun|by apply Hk]. }
  apply wp_regroup. eapply wp_does; [apply (rest_does _ p1 G1); lia|exact HL|].
  intros [] p2 ((used & A2 & T2) & C2 & D2 & new2 & E2 & F2) L2 Hend.
  rewrite Hend, app_nil_r in A2. simpl in *. subst used. rewrite Hsz in *.
  eexists tt, _. split; [reflexivity|]. split; [|exact L2]. split_and!; simpl; [done| |congruence|].
  - by rewrite T2, T, Eb, app_assoc.
  - exists (new ++ new2). rewrite E2, E, app_assoc. split; [done|]. apply Forall_app. split; [done|].
    eapply Forall_impl; [exact F2|]. simpl. intros. lia.
Qed.
Local Notation bdf := (bd full_text).
Local Notation upto j := (part p0 (take j full_text)).

Lemma part_slice {B} (k : unit -> M B) K i j p b fs Q : bdf i -> bdf j -> i <= j -> upto i p -> lvl b fs p ->
  (forall p', upto j p' -> lvl b fs p' -> wp (k tt) p' Q) ->
  wp (let! c := lift (str_slice full_text i j) in bind (emit_raw_token K c) k) p Q.
Proof.
  intros Hi Hj Hij HP HL Hk. apply (wp_lift _ (take (j - i) (drop i full_text))); [by apply str_slice_ok|].
  apply (part_token _ _ _ p0 (take i full_text) _ b fs); [done|done|]. intros p' HP'. apply Hk.
  rewrite take_take_drop in HP'. by replace (i + (j - i)) with j in HP' by lia.
Qed.

(** The literal text since the last interpolation, if there is any. *)
Lemma part_chunk {B} (k : unit -> M B) i j p b fs Q : bdf i -> bdf j -> i <= j -> upto i p -> lvl b fs p ->
  (forall p', upto j p' -> lvl b fs p' -> wp (k tt) p' Q) ->
  wp (bind (if Nat.ltb i j then let! chunk := lift (str_slice full_text i j) in emit_raw_token F_STRING_LITERAL chunk
            else skip) k) p Q.
Proof.
  intros Hi Hj Hij HP HL Hk. destruct (Nat.ltb_spec i j).
  - by apply wp_assoc, (part_slice _ _ i j _ b fs).
  - apply wp_ret_bind, Hk; [|done]. by replace j with i by lia.
Qed.

Lemma slice_part i j u : bdf i -> bdf j -> i <= j -> u = take (j - i) (drop i full_text) ->
  Forall (fun z => (0 <= z)%Z) u /\ utf8_codes u = true /\ length u = j - i.
Proof.
  intros Hi Hj Hij ->. destruct full_ok as (_ & Hnn & Hv). split_and!; [by apply Forall_take, Forall_drop| |].
  - by apply slice_valid.
  - rewrite length_take, length_drop. destruct Hj. lia.
Qed.

Lemma walk_wp close_pos raw : bdf close_pos -> close_pos < length full_text ->
  forall fuel i ls p b fs, close_pos - i < fuel -> bdf i -> bdf ls -> ls <= i -> ls <= close_pos -> upto ls p -> lvl b fs p ->
  wp (fstring_walk rec fuel full_text close_pos raw i ls) p (fun ls' p' =>
    ls' <= close_pos /\ bdf ls' /\ upto ls' p' /\ lvl b fs p').
Proof.
  intros Hc Hcl. destruct full_ok as (_ & Hnn & Hv).
  induction fuel as [|fuel IH]; intros i ls p b fs Hf Hi Hls Hle Hlc HP HL; [lia|]. cbn [fstring_walk].
  destruct (Nat.ltb_spec i close_pos) as [Hlt|]; [|by apply wp_ret].
  destruct (starts_with_at full_text i (lit "${")) eqn:Es.
  - assert (Hi2 : bdf (i + 2)) by (apply (bd_starts _ Hnn i (lit "${")); [done|done|by repeat constructor]).
    apply (part_chunk _ ls i _ b fs); try done. intros p1 P1 L1. cbv zeta.
    destruct (interp_end_ok _ Hnn Hv close_pos ltac:(lia) (S (length full_text)) (i + 2) 1) as (j & dep & E & HB); [lia|lia|].
    apply (wp_lift _ (j, dep)); [done|]. cbv beta iota. destruct (Nat.eqb_spec dep 0) as [->|]; cbn [negb].
    + destruct (HB eq_refl) as (Hj & Bj & Bj1).
      apply (part_open _ _ (take i full_text) _ b fs); [done|done|]. intros n p2 Hn P2 L2.
      apply (part_slice _ _ i (i + 2) _ 0 (n :: fs)); try done; [lia|]. intros p3 P3 L3.
      apply (wp_lift _ (take (j - (i + 2)) (drop (i + 2) full_text))); [by apply str_slice_ok; [..|lia]|].
      destruct (slice_part (i + 2) j _ Hi2 Bj ltac:(lia) eq_refl) as (Un & Uv & Ul).
      apply (part_inner _ _ (take (i + 2) full_text) _ 0 (n :: fs)); try done; [lia|]. intros p4 P4 L4.
      rewrite take_take_drop in P4. replace (i + 2 + (j - (i + 2))) with j in P4 by lia.
      apply (part_slice _ _ j (j + 1) _ 0 (n :: fs)); try done; [lia|]. intros p5 P5 L5.
      apply (part_close _ p0 (take (j + 1) full_text) _ 0 n fs); [done|done|]. intros p6 P6 L6.
      apply IH; try done; try lia. by apply (lvl_le (S n)); [lia|].
    + apply (part_slice _ _ i close_pos _ b fs); try done; [lia|]. intros p2 P2 L2. by apply wp_ret.
  - destruct (lookup_lt_is_Some_2 full_text i) as [x Hx]; [lia|]. apply (wp_lift _ x); [by apply lex_index_ok|].
    pose proof (codepoint_len_pos x). destruct (negb raw && (x =? 92)%Z && Nat.ltb (i + 1) close_pos) eqn:Ee.
    + apply andb_true_iff in Ee as [[_ Ex%Z.eqb_eq]%andb_true_iff Hi1%Nat.ltb_lt]. subst x.
      destruct (lookup_lt_is_Some_2 full_text (i + 1)) as [y Hy]; [lia|]. apply (wp_lift _ y); [by apply lex_index_ok|].
      pose proof (codepoint_len_pos y). apply IH; try done; try lia.
      replace (i + (1 + utf8_codepoint_len y)) with (i + 1 + utf8_codepoint_len y) by lia.
      apply bd_step; try assumption. rewrite Nat.add_1_r. by apply (bd_ascii _ Hnn Hv i 92).
    + apply IH; try done; try lia. by apply bd_step.
Qed.

(** The pieces together are the token. *)
Lemma part_whole p b fs cursor : cursor = cursor_byte p0 + length full_text -> upto (length full_text) p -> lvl b fs p ->
  wp (advance_past rest cursor) p (fun _ p' => adv p0 p' /\ lvl b fs p' /\ sz p' < sz p0).
Proof.
  intros -> (A & T & D & new & E & F) L. destruct full_ok as (Hne & _). rewrite firstn_all in T.
  assert (Hsz : sz p0 = length full_text + length (bytes_of rest)) by (unfold sz; rewrite Hahead; unfold bytes_of; simpl; by rewrite length_app).
  eexists tt, _. split; [reflexivity|]. split_and!; [|exact L|].
  - split_and!; simpl; [|unfold sz at 1; simpl; lia|done|by exists new].
    exists [(K0, full_text)]. rewrite Hahead, T. unfold bytes_of. simpl. by rewrite app_nil_r.
  - unfold sz at 1. simpl. destruct full_text; [done|simpl in *; lia].
Qed.
End FString.

Lemma literal_does p : good p -> current p <> None -> does literal p (fun _ p' => sz p' < sz p).
Proof. intros G Hc b fs HL. unfold literal. auto_sim. Qed.

(** From a token that is there, piece by piece or as a plain literal. *)
Lemma f_string_does p : good p -> current p = Some STRING -> 4 * sz p <= N ->
  does (parse_f_string rec) p (fun _ p' => sz p' < sz p).
Proof.
  intros G Hc HN b fs HL. unfold parse_f_string. apply (wp_flush _ _ b fs); [done|]. intros p0 A0 L0 E0. note A0.
  pose proof (current_skip _ _ E0) as Hc0. rewrite Hc in Hc0. do 2 apply wp_get.
  assert (Hlit : wp literal p0 (fun _ p' => adv p p' /\ lvl b fs p' /\ sz p' < sz p)).
  { eapply wp_mono; [apply literal_does; [done|congruence|exact L0]|]. cbv beta. intros [] p' (A & L & Hs).
    split_and!; [by etrans|done|lia]. }
  pose proof (skip_head (ahead p)) as Hh. rewrite <-E0 in Hh. fold (nth 0 p) in Hh. fold (current p) in Hh. rewrite Hc in Hh.
  destruct (ahead p0) as [|[K0 full_text] rest] eqn:Ea; [done|]. injection Hh as <-.
  destruct (full_ok p0 STRING full_text rest Ea ltac:(done)) as (Hne & Hnn & Hv).
  destruct (get_is (byte_is 102) full_text 0) eqn:E1; cbn [negb]; [|done]. cbv zeta.
  set (idx := Lex.skip (byte_is 35) full_text 1).
  destruct (get_is (byte_is 34) full_text idx) eqn:E2; cbn [negb]; [|done]. apply get_byte in E1, E2.
  destruct (bd_ascii _ Hnn Hv idx 34 E2 ltac:(lia)) as [_ Hopen].
  destruct (close_loop_ok _ Hnn Hv (closing_of (idx - 1)) (Nat.ltb 0 (idx - 1)) ltac:(done) (closing_ascii _)
    (S (length full_text)) (idx + 1)) as (r & Er & HR); [lia|by rewrite Nat.add_1_r|].
  apply (wp_lift _ r); [done|]. destruct r as [close_pos|]; [|done].
  destruct (HR close_pos eq_refl) as (Hle & Hcb & Hcl). rewrite Nat.add_1_r in *.
  assert (HN0 : 4 * sz p0 <= N) by lia. assert (0 < length (closing_of (idx - 1))) by (simpl; lia).
  assert (Hw : forall p', wp (advance_past rest (cursor_byte p0 + length full_text)) p' (fun _ p' => adv p0 p' /\ lvl b fs p' /\ sz p' < sz p0) ->
    wp (advance_past rest (cursor_byte p0 + length full_text)) p' (fun _ p' => adv p p' /\ lvl b fs p' /\ sz p' < sz p)).
  { intros p' Hp'. eapply wp_mono; [exact Hp'|]. cbv beta. intros [] p'' (A & L & Hs). split_and!; [by etrans|done|lia]. }
  apply (part_open p0 STRING full_text rest Ea eq_refl HN0) with (t := []) (b := b) (fs := fs); [apply part_refl|done|]. intros n p1 Hn P1 L1.
  apply (part_slice p0 full_text HN0 _ _ 0 (S idx) _ 0 (n :: fs)); try done; [by apply bd_zero|lia|]. intros p2 P2 L2.
  apply wp_bind. eapply wp_mono; [apply (walk_wp p0 STRING full_text rest Ea eq_refl G0 HN0) with (b := 0) (fs := n :: fs); try done; lia|].
  cbv beta. intros ls p3 (Hls & Bls & P3 & L3).
  apply (part_chunk p0 full_text HN0 _ ls close_pos _ 0 (n :: fs)); try done. intros p4 P4 L4.
  apply (part_slice p0 full_text HN0 _ _ close_pos (length full_text) _ 0 (n :: fs)); try done; [by apply bd_end|lia|]. intros p5 P5 L5.
  apply (part_close _ p0 (take (length full_text) full_text) _ 0 n fs); [done|done|]. intros p6 P6 L6.
  apply Hw, (part_whole p0 STRING full_text rest Ea G0 HN0); try done. by apply (lvl_le (S n)); [lia|].
Qed.

Lemma atom_attributes_does p : good p -> 4 * sz p < N -> does (atom_attributes rec) p (fun _ p' =>
  current p = Some HASH \/ current p = Some AT -> sz p' < sz p).
Proof.
  intros G HN b fs HL. unfold atom_attributes.
  set (body := bind (get (fun p => length (ahead p))) _).
  assert (Hone : forall p1, adv p p1 -> good p1 -> current p1 <> None -> does body p1 (fun _ p2 => sz p2 < sz p1)).
  { intros p1 A1 G1 Hc b1 fs1 L1. pose proof (adv_sz _ _ A1). unfold body. auto_sim. }
  assert (Hbody : body_ok (at_ HASH ||| at_ AT) body p).
  { intros p1 A1 W1 C. cond_in C. intros b1 fs1 L1.
    eapply wp_mono; [apply (Hone p1 A1 (adv_good _ _ A1 G) ltac:(nn) b1 fs1 L1)|]. cbv beta. intuition. }
  destruct ((at_ HASH ||| at_ AT) p) eqn:C.
  - pose proof C as C'. cond_in C'. eapply wp_mono; [apply while_strict; [apply G|done|done| |exact HL]|].
    + apply Hone; [reflexivity|done|nn].
    + cbv beta. intuition.
  - cond_in C. eapply wp_mono; [apply while_does; [apply G|done|exact HL]|]. cbv beta.
    intros a p1 (A1 & L1 & _). split_and!; [done|done|]. intuition.
Qed.

Lemma ident_leads p :
  (looks_like_variant_ctor p = true -> current p = Some IDENT) /\
  (looks_like_type_atom p = true -> current p = Some IDENT).
Proof.
  unfold looks_like_variant_ctor, looks_like_type_atom.
  split; intros [H _]%andb_true_iff; by apply at_true in H.
Qed.

Ltac helper ::=
  lazymatch goal with
  | |- wp (bind (parse_tuple_type rec) _) _ _ => use tuple_type_does
  | |- wp (bind (parse_closure_param rec) _) _ _ => use closure_param_does
  | |- wp (bind (closure_params rec) _) _ _ => use closure_params_does
  | |- wp (bind (parse_call_args rec) _) _ _ => use call_args_does
  | |- wp (bind (path_segments rec) _) _ _ => use path_segments_does
  | |- wp (bind (attributes rec) _) _ _ => use attributes_does
  | |- wp (bind (type_hint rec) _) _ _ => use type_hint_does
  | |- wp (bind (dict_key rec) _) _ _ => use dict_key_does
  | |- wp (bind (dict_value rec) _) _ _ => use dict_value_does
  | |- wp (bind (parse_dict rec) _) _ _ => use dict_does
  | |- wp (bind (leaf _) _) _ _ => use leaf_does
  | |- wp (bind (parse_f_string rec) _) _ _ => use f_string_does
  | |- wp (bind (parse_variant_ctor rec) _) _ _ => use variant_ctor_does
  | |- wp (bind (parse_paren_or_tuple rec) _) _ _ => use paren_or_tuple_does
  end.

Lemma atom_of_does k p : good p -> current p = k -> 4 * sz p + 1 <= N ->
  does (atom_of rec k) p (fun _ p' => forall k', k = Some k' -> k' ∉ HASH :: stoppers -> sz p' < sz p).
Proof.
  intros G Hk HN.
  assert (Hweak : forall m : M unit, does m p (fun _ p' => sz p' < sz p) ->
    does m p (fun _ p' => forall k', k = Some k' -> k' ∉ HASH :: stoppers -> sz p' < sz p)).
  { intros m Hm b fs HL. eapply wp_mono; [by apply Hm|]. cbv beta. naive_solver. }
  assert (Hrecover : does (error_recover "expected expression" STRUCTURAL_SYNC) p
    (fun _ p' => forall k', k = Some k' -> k' ∉ HASH :: stoppers -> sz p' < sz p)).
  { intros b fs HL. eapply wp_mono; [apply error_recover_does; [apply G|exact HL]|]. cbv beta.
    intros [] p1 (A1 & L1 & _ & S). split_and!; [done|done|]. intros k' -> Hk'. apply (S k'); [done|].
    unfold STRUCTURAL_SYNC, stoppers in *. set_solver. }
  destruct k as [[]|]; cbn [atom_of]; try exact Hrecover; apply Hweak.
  all: try (first [ apply leaf_does | apply reference_does | apply list_does ]; first [done | congruence | lia]).
  all: intros b fs HL.
  - auto_sim.
  - auto_sim.
  - apply wp_last. use dict_does. auto_sim.
  - eapply wp_does; [apply paren_closure_does; [done|lia]|exact HL|]. intros [] p1 A1 L1 S1; [note A1; auto_sim|subst].
    auto_sim.
  - auto_sim.
Qed.

Lemma atom_does p : good p -> 4 * sz p + 1 <= N ->
  does (parse_atom rec) p (fun _ p' => starts p -> sz p' < sz p).
Proof.
  intros G HN b fs HL. unfold parse_atom. eapply wp_does; [apply atom_attributes_does; [done|lia]|exact HL|].
  intros [] p1 A1 L1 S1. note A1. apply wp_get. 
  eapply wp_mono; [apply atom_of_does; [done|done|lia|exact L1]|]. cbv beta. intros [] p2 (A2 & L2 & S2). note A2.
  split_and!; [chain|done|]. intros (k & Hk & Hns).
  destruct (decide (sz p1 < sz p)); [lia|].
  rewrite (adv_still_current _ _ A1 G ltac:(lia)) in S2.
  destruct (decide (k = HASH)) as [->|]; [specialize (S1 (or_introl Hk)); lia|].
  specialize (S2 k Hk ltac:(set_solver)). lia.
Qed.

Lemma path_lead_eq p p' : ahead p' = ahead p -> path_lead p -> path_lead p'.
Proof.
  unfold path_lead, at_optional_path_prefix, question_heads_ternary_list, at_, here, current, nth. by intros ->.
Qed.

Lemma postfix_does p : good p -> 4 * sz p + 1 <= N ->
  does (parse_postfix rec) p (fun _ p' => starts p -> sz p' < sz p).
Proof.
  intros G HN b fs HL. unfold parse_postfix. step. use atom_does. sim.
  all: try leaf_ok. leads.
  assert (sz p4 < sz p2); [|lia]. apply S0, (path_lead_eq p3); [done|]. unfold path_lead. tauto.
Qed.

Definition at_depth (d : nat) (p : parser) : parser :=
  MkParser (ahead p) (build p) (errors p) (cursor_byte p) d (past_end p).

Lemma at_depth_adv d p p' : adv (at_depth d p) p' -> adv p (at_depth (depth p) p').
Proof. intros (T & C & _ & E). by split_and!. Qed.

(** A statement run one level deeper. *)
Lemma deeper_wp (m : M unit) p b fs (R : Prop -> Prop) (S : Prop) :
  lvl b fs p ->
  (forall b fs, lvl b fs (at_depth (Datatypes.S (depth p)) p) ->
     wp m (at_depth (Datatypes.S (depth p)) p) (fun _ p' => adv (at_depth (Datatypes.S (depth p)) p) p' /\ lvl b fs p' /\ (S -> sz p' < sz p))) ->
  wp (m ;; set_depth pred) (at_depth (Datatypes.S (depth p)) p)
    (fun _ p' => adv p p' /\ lvl b fs p' /\ (S -> sz p' < sz p)).
Proof.
  intros HL Hm. apply wp_bind. eapply wp_mono; [by apply Hm|]. cbv beta. intros [] p' (A & L & HS).
  eexists tt, _. split; [reflexivity|]. pose proof A as (_ & _ & D & _). cbn [at_depth depth] in D.
  pose proof (at_depth_adv _ _ _ A) as A'. rewrite D. split_and!; [exact A'|exact L|exact HS].
Qed.

Lemma unary_does p : good p -> 4 * sz p + 1 <= N ->
  does (unary_body rec) p (fun _ p' => starts p -> sz p' < sz p).
Proof.
  intros G HN b fs HL. unfold unary_body. apply wp_bind. eexists tt, (at_depth (S (depth p)) p). split; [reflexivity|].
  assert (HL' : lvl b fs (at_depth (S (depth p)) p)) by exact HL.
  apply wp_ite; intros C; [|apply Nat.ltb_ge in C]; apply deeper_wp; try done; clear HL HL' b fs; intros b fs HL.
  - eapply wp_mono; [apply error_recover_does; [apply G|exact HL]|]. cbv beta.
    intros [] p' (A & L & _ & Hs). split_and!; [done|done|]. intros (k & Hk & _). apply (Hs k); [done|set_solver].
  - assert (G1 : good (at_depth (S (depth p)) p)) by (split; [apply G|exact C]).
    enough (Hgen : forall q, lvl b fs q -> good q -> 4 * sz q + 1 <= N ->
      wp (If at_set [MINUS; BANG; PLUS] Then open UNARY_EXPR ;; bump ;; rec Unary ;; close Else parse_postfix rec) q
        (fun _ p' => adv q p' /\ lvl b fs p' /\ (starts q -> sz p' < sz q))) by exact (Hgen _ HL G1 HN).
    clear HL G1 C G HN p. intros p HL G HN. step; [|apply wp_last; use postfix_does]; auto_sim.
Qed.

Lemma expr_bp_does min_bp p : good p -> 4 * sz p + 2 <= N ->
  does (expr_bp_body rec min_bp) p (fun _ p' => starts p -> sz p' < sz p).
Proof.
  intros G HN b fs HL. unfold expr_bp_body. sim.
  - destruct (current p3) as [op|] eqn:Eop; [|auto_sim].
    destruct (infix_bp op) as [[lbp rbp]|]; auto_sim.
  - leaf_ok.
Qed.

(** ** Matches *)

Lemma star_binding_does m p : good p -> current p <> None -> does (star_binding m) p (fun _ p' => sz p' < sz p).
Proof. intros G Hc b fs HL. unfold star_binding. auto_sim. Qed.

Lemma match_pattern_does p : good p -> does parse_match_pattern p (fun _ p' => True).
Proof.
  intros G b fs HL. unfold parse_match_pattern, star_binding. sim; leaf_ok.
Qed.

Lemma match_arm_does p : good p -> 4 * sz p + 3 < N -> does (parse_match_arm rec) p (fun _ _ => True).
Proof.
  intros G HN b fs HL. unfold parse_match_arm. step.
  eapply wp_does with (R := fun _ _ => True); [|eassumption|].
  - intros b1 fs1 L1. sim; try leaf_ok. use match_pattern_does. auto_sim.
  - intros [] p2 A2 L2 _. note A2. auto_sim.
Qed.

(** The forms that wrap the expression a checkpoint was taken before. *)
Lemma postfix_forms_wp ck n m fs p b Q :
  mark ck = (length fs, n) -> b <= n -> good p -> lvl m fs p -> n <= m -> 4 * sz p <= N ->
  (forall p', adv p p' -> lvl b fs p' -> Q tt p') -> wp (postfix_forms rec ck) p Q.
Proof.
  intros Hm Hb G HL0 Hnm HN HQ. pose proof (lvl_le _ n _ _ Hnm HL0) as HL. clear HL0.
  unfold postfix_forms. sim; try (use match_arm_does; sim); try leaf_ok.
  apply HQ; [done|]. by apply (lvl_le n).
Qed.

Lemma expr_does p : good p -> 4 * sz p + 3 <= N ->
  does (expr_body rec) p (fun _ p' => starts p -> sz p' < sz p).
Proof.
  intros G HN b fs HL. unfold expr_body. sim; try leaf_ok.
  all: apply wp_unlast; eapply postfix_forms_wp; [eassumption..|lia|lia|]; intros pe Ae Le; note Ae; leaf_ok.
Qed.

(** ** Directives *)

Lemma generic_params_does m p : good p -> does (generic_params m) p (fun _ _ => True).
Proof. intros G b fs HL. unfold generic_params. auto_sim. Qed.

Lemma enum_fields_does p : good p -> 4 * sz p < N -> does (enum_variant_fields rec) p (fun _ _ => True).
Proof. intros G HN b fs HL. unfold enum_variant_fields. auto_sim. Qed.

Ltac helper ::=
  lazymatch goal with
  | |- wp (bind (parse_tuple_type rec) _) _ _ => use tuple_type_does
  | |- wp (bind (parse_closure_param rec) _) _ _ => use closure_param_does
  | |- wp (bind (parse_call_args rec) _) _ _ => use call_args_does
  | |- wp (bind (attributes rec) _) _ _ => use attributes_does
  | |- wp (bind (generic_params _) _) _ _ => use generic_params_does
  | |- wp (bind (enum_variant_fields rec) _) _ _ => use enum_fields_does
  end.

Lemma enum_variants_does p : good p -> 4 * sz p < N -> does (enum_variants rec) p (fun _ _ => True).
Proof. intros G HN b fs HL. unfold enum_variants. auto_sim. Qed.

Lemma enum_does p : good p -> 4 * sz p + 3 < N -> does (parse_directive_enum rec) p (fun _ _ => True).
Proof. intros G HN b fs HL. unfold parse_directive_enum. sim; try use enum_variants_does; auto_sim. Qed.

Lemma method_param_does p : good p -> 4 * sz p + 3 < N -> does (parse_schema_method_param rec) p (fun _ _ => True).
Proof. intros G HN b fs HL. unfold parse_schema_method_param. auto_sim. Qed.

Lemma method_does p : good p -> 4 * sz p + 3 < N ->
  does (parse_schema_method_after_pragmas rec) p (fun _ p' => current p <> None -> sz p' < sz p).
Proof.
  intros G HN b fs HL. unfold parse_schema_method_after_pragmas.
  sim; try use method_param_does; auto_sim.
Qed.

Lemma pragma_loop_does : forall n had p, length (ahead p) < n -> good p -> 4 * sz p < N ->
  does (pragma_loop rec n had) p (fun _ p' => current p = Some HASH -> sz p' < sz p).
Proof.
  induction n as [|n IH]; intros had p Hn G HN b fs HL; [lia|]. unfold wp. simpl.
  destruct (at_ HASH p) eqn:C; [|exists had, p; apply at_false in C; split_and!; try done; reflexivity].
  apply at_true in C. enough (Hw : wp (parse_attribute rec ;; pragma_loop rec n (had || method_pragma (directive_name_after_hash p))) p
    (fun _ p' => adv p p' /\ lvl b fs p' /\ (current p = Some HASH -> sz p' < sz p))) by exact Hw.
  do 2 call_step. boost. pose proof (adv_length _ _ A ltac:(lia)).
  apply wp_last. eapply wp_does; [apply IH; [lia|done|lia]|eassumption|]. intros had' p1 A1 L1 _. note A1. auto_sim.
Qed.

Lemma pragmas_does p : good p -> 4 * sz p < N ->
  does (pragmas rec) p (fun _ p' => current p = Some HASH -> sz p' < sz p).
Proof. intros G HN b fs HL. unfold pragmas, wp. apply pragma_loop_does; [lia|done..]. Qed.

Ltac helper ::=
  lazymatch goal with
  | |- wp (bind (parse_tuple_type rec) _) _ _ => use tuple_type_does
  | |- wp (bind (parse_closure_param rec) _) _ _ => use closure_param_does
  | |- wp (bind (parse_call_args rec) _) _ _ => use call_args_does
  | |- wp (bind (attributes rec) _) _ _ => use attributes_does
  | |- wp (bind (generic_params _) _) _ _ => use generic_params_does
  | |- wp (bind (parse_schema_method_after_pragmas rec) _) _ _ => use method_does
  end.

(** Recovery consumes the token it is called at unless that is one to stop at. *)
Lemma recover_progress p p' set :
  (forall k, current p = Some k -> k ∉ set -> sz p' < sz p) ->
  current p <> None -> Forall (fun k => current p <> Some k) set -> sz p' < sz p.
Proof.
  intros Hs Hc Hall. destruct (current p) as [k|]; [|done]. apply (Hs k); [done|].
  rewrite Forall_forall in Hall. intros Hin. by apply (Hall k Hin).
Qed.

Lemma schema_with_does p : good p -> 4 * sz p + 3 < N -> does (parse_schema_with rec) p (fun _ _ => True).
Proof.
  intros G HN b fs HL. unfold parse_schema_with. sim; try leaf_ok.
  - use pragmas_does. assert (sz p4 < sz p2) by (apply S; congruence). auto_sim.
  - eapply recover_progress; [eassumption|nn|]. repeat constructor; nn.
Qed.

Lemma name_body_does p : good p -> 4 * sz p + 3 < N -> does (parse_directive_name_body rec) p (fun _ _ => True).
Proof.
  intros G HN b fs HL. unfold parse_directive_name_body. step; [|auto_sim]. step. helper. step.
  eapply wp_does with (R := fun _ _ => True); [intros b1 fs1 L1; auto_sim|eassumption|].
  intros [] q1 B1 M1 _. note B1.
  eapply wp_does with (R := fun _ _ => True); [intros b1 fs1 L1; auto_sim|eassumption|].
  intros [] q2 B2 M2 _. note B2.
  sim; try use schema_with_does; auto_sim.
Qed.

Lemma destructure_does p : good p -> does parse_import_destructure p (fun _ _ => True).
Proof. intros G b fs HL. unfold parse_import_destructure. auto_sim. Qed.

Lemma import_does p : good p -> does parse_directive_import p (fun _ _ => True).
Proof.
  intros G b fs HL. unfold parse_directive_import, import_source, import_pin.
  sim; try use destructure_does; auto_sim.
Qed.

Lemma main_does p : good p -> 4 * sz p + 3 < N -> does (parse_directive_main rec) p (fun _ _ => True).
Proof. intros G HN b fs HL. unfold parse_directive_main. auto_sim. Qed.

Lemma directive_tail_does shape p : good p -> 4 * sz p + 3 < N ->
  does (directive_tail rec shape) p (fun _ _ => True).
Proof.
  intros G HN. destruct shape; cbn [directive_tail].
  - intros b fs HL. auto_sim.
  - intros b fs HL. auto_sim.
  - by apply name_body_does.
  - by apply enum_does.
  - by apply import_does.
  - by apply main_does.
Qed.

Lemma decorator_path_does p : good p -> does decorator_path p (fun _ _ => True).
Proof. intros G b fs HL. unfold decorator_path. auto_sim. Qed.

Lemma attribute_does p : good p -> current p <> None -> 4 * sz p <= N ->
  does (attribute_body rec) p (fun _ p' => sz p' < sz p).
Proof.
  intros G Hc HN b fs HL. unfold attribute_body. do 3 step.
  eapply wp_does with (R := fun _ _ => True); [intros b1 fs1 L1; auto_sim|eassumption|].
  intros name q1 B1 M1 _. note B1.
  eapply wp_does with (R := fun _ _ => True); [intros b1 fs1 L1|eassumption|intros [] q2 B2 M2 _; note B2; auto_sim].
  destruct (at_ HASH p); [apply wp_last; use directive_tail_does; auto_sim|].
  use decorator_path_does. auto_sim.
Qed.

Lemma production_does c p : good p -> callable c p -> 4 * sz p + rank c <= N ->
  does (production rec c) p (fun _ p' => strict c p -> sz p' < sz p).
Proof.
  intros G HC HN. destruct c; cbn [production rank strict callable] in *.
  - by apply expr_does.
  - by apply expr_bp_does.
  - by apply unary_does.
  - apply type_body_does; [done|lia].
  - intros b fs HL. eapply wp_mono; [apply attribute_does; [done|done|lia|exact HL]|]. cbv beta. tauto.
Qed.

(** The whole document, as a node at the root level. *)
Lemma document_wp p : good p -> frames (build p) = [0] -> 4 * sz p + 3 < N ->
  wp (parse_document rec) p (fun _ p' => adv p p' /\ ahead p' = [] /\
    exists t, builder_finish (build p') = Ok t /\ green_text t = text (build p')).
Proof.
  intros G HF HN. unfold parse_document. apply (wp_open_exact _ _ _ 0 []); [done|]. intros p1 A1 L1 _. note A1.
  use attributes_does.
  apply wp_regroup.
  use rest_does. 
  destruct L0 as (n & _ & F). destruct (finish_ok _ _ _ _ F) as (b' & E & T & F').
  destruct (root_ok _ _ _ F E) as (t & Et & Tt).
  pose proof (set_build_adv p2 b' T) as A2.
  eexists tt, _. unfold close. rewrite E. simpl. split; [reflexivity|]. simpl.
  split_and!; [chain|done|]. exists t. by rewrite T.
Qed.
End Productions.

(** The syntax-tree parser on whole sources: it returns on every string, the tree it builds
    spells the source, and how its errors and its look-ahead behave. *)

Import Lex Cst CstParser.

Section Sound.
Context `{GB : GreenNodeBuilder} {GOk : GreenNodeBuilderOk}.

(** With [n] nested calls allowed, every production that needs fewer returns. *)
Lemma parse_call_ok : forall n, call_ok n (parse n).
Proof.
  induction n as [|n IH]; intros c p G HC Hn; [lia|]. cbn [parse]. apply (production_does n _ IH); [done|done|lia].
Qed.

Lemma new_good toks : Forall tok_ok toks -> good (new toks).
Proof. intros Ht. split; [done|]. simpl. unfold MAX_DEPTH. lia. Qed.

Lemma parse_cst_ok s : is_str s = true ->
  exists r, parse_cst (lit s) = Ok r /\ green_text (green r) = lit s /\
    Forall (fun e => offset e <= length (lit s)) (parse_errors r).
Proof.
  intros Hs. destruct (lex_valid (lit s) (byte_codes_nonneg _) Hs) as (toks & El & Eb & Hok).
  assert (Hsz : sz (new toks) = length (lit s)) by (unfold sz; simpl; by rewrite Eb).
  destruct new_ok as [T0 F0].
  destruct (document_wp (cst_fuel (lit s)) _ (parse_call_ok _) (new toks) (new_good _ Hok) F0)
    as ([] & p & Hrun & ((used & A & T) & _ & _ & new & E & F) & Hend & t & Ef & Et).
  { rewrite Hsz. unfold cst_fuel. lia. }
  simpl in *. rewrite Hend, app_nil_r in A. subst used.
  eexists. unfold parse_cst. rewrite El. cbn [Prelude.bind]. rewrite Hrun. cbn [Prelude.bind]. unfold finish. rewrite Ef.
  cbn [Prelude.bind]. split; [reflexivity|]. simpl. split.
  - by rewrite Et, T, T0, Eb.
  - rewrite E. eapply Forall_impl; [exact F|]. simpl. rewrite Hsz. done.
Qed.
End Sound.


