(* ===== verification/CstPrecedence.v ===== *)
(** Operator precedence and associativity of the syntax-tree parser: the tree it builds for
    a sequence of numbers and infix operators, with trivia anywhere between them, is the
    one in which tighter operators sit below looser ones and equal ones lean left. *)

From Stdlib Require Import ZArith Lia Bool.
From stdpp Require Import base list strings sets.
From S2P Require Import Prelude Bytes Value Chars Lexer LexerFacts Cst CstParser CstFacts.
Local Open Scope nat_scope.
Local Open Scope cst_scope.

Import Lex Cst CstParser CstTree.

Module Precedence.

(** ** Expressions *)

Definition trivia (ws : list tok) : Prop := Forall (fun x => is_trivia (fst x) = true) ws.

Definition leaves (l : list tok) : list tree := map (fun x => Leaf (fst x) (snd x)) l.

(** A number, or an operation with the trivia before its operator and its right operand. *)
Inductive exp : Type :=
| Num (t : list Z)
| Bin (l : exp) (w1 : list tok) (op : tok) (w2 : list tok) (r : exp).

Fixpoint spell (e : exp) : list tok :=
  match e with
  | Num t => [(NUMBER, t)]
  | Bin l w1 op w2 r => spell l ++ w1 ++ op :: w2 ++ spell r
  end.

Fixpoint tree_of (e : exp) : tree :=
  match e with
  | Num t => Node LITERAL [Leaf NUMBER t]
  | Bin l w1 op w2 r => Node BINARY_EXPR ([tree_of l] ++ leaves w1 ++ leaves [op] ++ leaves w2 ++ [tree_of r])
  end.

(** How tight an operator binds. *)
Definition level (k : SyntaxKind) : nat :=
  match k with
  | PIPE_PIPE => 1
  | AMP_AMP => 2
  | EQ_EQ | BANG_EQ => 3
  | LT | GT | LT_EQ | GT_EQ => 4
  | PLUS | MINUS => 6
  | STAR | SLASH | PERCENT => 7
  | PIPE => 8
  | _ => 0
  end.

Definition operator (k : SyntaxKind) : Prop := 0 < level k.

(** The root of [e] is a number or binds at least as tight as [m]. *)
Definition tight (m : nat) (e : exp) : Prop := match e with Num _ => True | Bin _ _ op _ _ => m <= level (fst op) end.

Fixpoint respects (e : exp) : Prop :=
  match e with
  | Num _ => True
  | Bin l _ op _ r => respects l /\ respects r /\ tight (level (fst op)) l /\ tight (S (level (fst op))) r
  end.

(** ** Sequences *)

(** What follows the first number: trivia, operator, trivia, number. *)
Definition item : Type := list tok * tok * list tok * list Z.

Definition item_ok (x : item) : Prop :=
  let '(w1, op, w2, _) := x in trivia w1 /\ operator (fst op) /\ trivia w2.

Definition item_toks (x : item) : list tok := let '(w1, op, w2, n) := x in w1 ++ op :: w2 ++ [(NUMBER, n)].

Definition items_toks (l : list item) : list tok := concat (map item_toks l).

Definition stops (rest : list tok) : Prop :=
  match nth_kind rest 0 with
  | Some k => infix_bp k = None /\ k ∉ [L_PAREN; DOT; L_BRACK; QUESTION]
  | None => True
  end.

Lemma infix_level k : operator k -> infix_bp k = Some (10 * level k, S (10 * level k)) /\
  is_trivia k = false /\ k <> PLUS_PLUS /\ k ∉ [L_PAREN; DOT; L_BRACK; QUESTION].
Proof. unfold operator. destruct k; simpl; try lia; intros _; (split_and!; [done|done|done|set_solver]). Qed.

(** ** Runs *)

(** [p'] is past the tokens before [rest] and has added the trees [ts]. *)
Definition put (ts : list tree) (rest : list tok) (p p' : parser) : Prop :=
  ahead p' = rest /\ build p' = MkStack (top (build p) ++ ts) (outer (build p)) /\
  errors p' = errors p /\ depth p' = depth p /\ past_end p' = past_end p.

Lemma put_trans ts ts' l l' p p1 p2 : put ts l p p1 -> put ts' l' p1 p2 -> put (ts ++ ts') l' p p2.
Proof.
  intros (_ & B1 & E1 & D1 & P1) (A2 & B2 & E2 & D2 & P2).
  split_and!; [done| |congruence..]. rewrite B2, B1. simpl. by rewrite app_assoc.
Qed.

Lemma put_refl p : put [] (ahead p) p p.
Proof. split_and!; [done| |done..]. rewrite app_nil_r. by destruct (build p). Qed.

Lemma nth_kind_trivia ws l n : trivia ws -> nth_kind (ws ++ l) n = nth_kind l n.
Proof. induction 1 as [|[k t] ws Hk _ IH]; [done|]. simpl in *. by rewrite Hk. Qed.

Lemma flush_put ws l p : trivia ws -> skip_trivia l = l -> ahead p = ws ++ l -> put (leaves ws) l p (flush (ahead p) p).
Proof.
  intros Hw Hl E. rewrite E. revert p E. induction Hw as [|[k t] ws Hk _ IH]; intros p E.
  - simpl in *. subst l. assert (flush (ahead p) p = p) as ->; [|apply put_refl].
    destruct (ahead p) as [|[k t] l]; [done|]. simpl in *. destruct (is_trivia k); [|done].
    exfalso. pose proof (f_equal length Hl) as Hn. assert (forall l, length (skip_trivia l) <= length l) as Hs.
    { clear. induction l as [|[k t] l IH]; simpl; [lia|]. destruct (is_trivia k); simpl; lia. }
    specialize (Hs l). simpl in Hn. lia.
  - simpl in *. rewrite Hk. apply (put_trans [Leaf k t] (leaves ws) (ws ++ l) l p (emit k t (ws ++ l) p)); [|by apply IH].
    by split_and!.
Qed.

Lemma put_bump {B} (k : unit -> M B) ws x l p Q : trivia ws -> is_trivia (fst x) = false -> ahead p = ws ++ x :: l ->
  (forall p', put (leaves ws ++ leaves [x]) l p p' -> wp (k tt) p' Q) -> wp (bind bump k) p Q.
Proof.
  destruct x as [K t]. intros Hw Hx E Hk. apply wp_bind.
  assert (Hs : skip_trivia ((K, t) :: l) = (K, t) :: l) by (simpl in *; by rewrite Hx).
  pose proof (flush_put ws ((K, t) :: l) p Hw Hs E) as HP. remember (flush (ahead p) p) as q eqn:Eq.
  eexists tt, (emit K t l q). split.
  { unfold bump, bind, flush_trivia. rewrite <-Eq. cbv beta iota. by destruct HP as (-> & _). }
  apply Hk. eapply put_trans; [exact HP|]. by split_and!.
Qed.

Lemma put_checkpoint {B} (k : Checkpoint -> M B) ws l p Q : trivia ws -> skip_trivia l = l -> ahead p = ws ++ l ->
  (forall p', put (leaves ws) l p p' -> wp (k (length (outer (build p')), length (top (build p')))) p' Q) ->
  wp (bind checkpoint k) p Q.
Proof.
  intros Hw Hl E Hk. unfold checkpoint. apply wp_assoc, wp_bind. eexists tt, _. split; [reflexivity|].
  apply wp_get, Hk. by apply flush_put.
Qed.

(** A node opened around the last [ts] and closed after [ts']. *)
Definition nested (n : nat) (K : SyntaxKind) (p p' : parser) : Prop :=
  ahead p' = ahead p /\ build p' = wrap (build p) n K /\
  errors p' = errors p /\ depth p' = depth p /\ past_end p' = past_end p.

Lemma nested_open {B} (k : unit -> M B) K p Q : skip_trivia (ahead p) = ahead p ->
  (forall p', nested (length (top (build p))) K p p' -> wp (k tt) p' Q) -> wp (bind (open K) k) p Q.
Proof.
  intros Hs Hk. apply wp_bind. set (q := set_build p (start_node (build p) K)).
  eexists tt, (flush (ahead q) q). split; [reflexivity|]. apply Hk.
  destruct (flush_put [] (ahead q) q) as (A & Bq & E & D & P); [constructor|done|done|].
  unfold nested. rewrite A, Bq, E, D, P. split_and!; try done. simpl. by rewrite app_nil_r.
Qed.

Lemma nested_open_at {B} (k : unit -> M B) K n p Q : n <= length (top (build p)) ->
  (forall p', nested n K p p' -> wp (k tt) p' Q) -> wp (bind (open_at (length (outer (build p)), n) K) k) p Q.
Proof.
  intros Hn Hk. apply wp_bind. eexists tt, (set_build p (wrap (build p) n K)). split; [|by apply Hk].
  unfold open_at. cbn [start_node_at tree_builder fst snd]. by rewrite Nat.eqb_refl, (proj2 (Nat.leb_le _ _) Hn).
Qed.

Lemma nested_close {B} (k : unit -> M B) n K ts l p p1 p2 Q :
  nested n K p p1 -> put ts l p1 p2 ->
  (forall p', ahead p' = l /\ build p' = MkStack (take n (top (build p)) ++ [Node K (drop n (top (build p)) ++ ts)]) (outer (build p)) /\
     errors p' = errors p /\ depth p' = depth p /\ past_end p' = past_end p -> wp (k tt) p' Q) ->
  wp (bind close k) p2 Q.
Proof.
  intros (A1 & B1 & E1 & D1 & P1) (A2 & B2 & E2 & D2 & P2) Hk. apply wp_bind.
  rewrite B1 in B2. simpl in B2. eexists tt, _. split; [unfold close; rewrite B2; reflexivity|].
  apply Hk. simpl. split_and!; congruence.
Qed.

Lemma whole_node {B} (k : unit -> M B) K ts l p p1 p2 Q :
  nested (length (top (build p))) K p p1 -> put ts l p1 p2 ->
  (forall p', put [Node K ts] l p p' -> wp (k tt) p' Q) -> wp (bind close k) p2 Q.
Proof.
  intros H1 H2 Hk. apply (nested_close _ _ _ _ _ _ _ _ _ H1 H2). intros p' (A & Bp & E & D & P). apply Hk.
  split_and!; try done. by rewrite Bp, firstn_all, drop_all.
Qed.

(** A loop whose body breaks at once. *)
Lemma while_break {B} (k : unit -> M B) c body p Q :
  (c p = true -> body p = Ok (false, p)) -> wp (k tt) p Q -> wp (bind (while c body) k) p Q.
Proof.
  intros Hb Hk. apply wp_bind. exists tt, p. split; [|done]. unfold while. cbn [loop]. destruct (c p); [|done]. by rewrite Hb.
Qed.

Lemma current_is p k t l : ahead p = (k, t) :: l -> is_trivia k = false -> current p = Some k.
Proof. intros E Hk. unfold current, nth. rewrite E. simpl. by rewrite Hk. Qed.

Definition no_postfix (l : list tok) : Prop := forall k, nth_kind l 0 = Some k -> k ∉ [L_PAREN; DOT; L_BRACK; QUESTION].

(** Nothing after the atom belongs to it. *)
Lemma postfix_break ck p rec : no_postfix (ahead p) ->
  (If at_ L_PAREN Then open_at ck CALL_EXPR ;; parse_call_args rec ;; close ;; continue
   Else If at_ DOT ||| at_ L_BRACK ||| at_optional_path_prefix Then
     open_at ck VARIABLE_EXPR ;; path_segments rec ;; close ;; continue
   Else break) p = Ok (false, p).
Proof.
  intros Hn. unfold no_postfix in Hn. change (nth_kind (ahead p) 0) with (current p) in Hn.
  assert (Hno : forall k, k ∈ [L_PAREN; DOT; L_BRACK; QUESTION] -> at_ k p = false).
  { intros k Hk. apply at_false. intros E. by apply (Hn k). }
  unfold ite, cor, at_optional_path_prefix. rewrite !Hno by set_solver. done.
Qed.

Lemma number_postfix rec t l p : ahead p = (NUMBER, t) :: l -> no_postfix l ->
  wp (parse_postfix rec) p (fun _ p' => put [tree_of (Num t)] l p p').
Proof.
  intros E Hl. unfold parse_postfix. apply (put_checkpoint _ [] (ahead p)); [constructor|by rewrite E|done|].
  intros p1 H1. pose proof H1 as (A1 & _). rewrite E in A1. unfold parse_atom, atom_attributes. apply wp_assoc, while_break.
  { intros C. apply orb_true_iff in C. rewrite !at_true, (current_is p1 NUMBER t l A1 eq_refl) in C. naive_solver. }
  apply wp_assoc, wp_get. rewrite (current_is p1 NUMBER t l A1 eq_refl). cbn [atom_of]. unfold leaf. apply wp_assoc.
  apply nested_open; [by rewrite A1|]. intros p2 H2. pose proof H2 as (A2 & _). rewrite A1 in A2. apply wp_assoc.
  apply (put_bump _ [] (NUMBER, t) l); [constructor|done|done|]. intros p3 H3.
  apply (whole_node _ _ _ _ _ _ _ _ H2 H3). intros p4 H4. apply wp_last, while_break.
  - intros _. apply postfix_break. by destruct H4 as (-> & _).
  - apply wp_ret. apply (put_trans [] _ _ _ p p1 p4 H1 H4).
Qed.

Lemma number_unary {B} (k : unit -> M B) fuel t l p Q : ahead p = (NUMBER, t) :: l -> no_postfix l -> depth p < MAX_DEPTH ->
  (forall p', put [tree_of (Num t)] l p p' -> wp (k tt) p' Q) -> wp (bind (parse (S fuel) Unary) k) p Q.
Proof.
  intros E Hl Hd Hk. cbn [parse production]. unfold unary_body. apply wp_assoc, wp_bind.
  eexists tt, _. split; [reflexivity|]. set (q := MkParser _ _ _ _ _ _).
  apply wp_bind, wp_ite; [intros C%Nat.ltb_lt; simpl in C; lia|intros _]. apply wp_bind, wp_ite.
  { intros (k' & Hc & Hin)%at_set_true. rewrite (current_is q NUMBER t l) in Hc by done. set_solver. }
  intros _. eapply wp_mono; [by apply (number_postfix _ t l)|]. cbv beta. intros [] p1 (A & Bp & Er & D & P).
  eexists tt, _. split; [reflexivity|]. apply Hk. simpl. split_and!; simpl; try done. by rewrite D.
Qed.

(** ** The operator loop *)

Definition head_below (m : nat) (l : list item) : Prop := match l with [] => True | (_, op, _, _) :: _ => level (fst op) < m end.

Definition head_tight (l : list item) (e : exp) : Prop := match l with [] => True | (_, op, _, _) :: _ => tight (level (fst op)) e end.

(** From [start] to [p']: the expression [e] was read, spelled by the tokens [used] and part of
    the items [l]; the items [l'] are left, the first of them below the minimum [m]. *)
Definition reads (m : nat) (used : list tok) (l : list item) (rest : list tok) (start p' : parser) : Prop :=
  exists e l', put [tree_of e] (items_toks l' ++ rest) start p' /\ respects e /\ tight m e /\
    spell e ++ items_toks l' = used ++ items_toks l /\ Forall item_ok l' /\ length l' <= length l /\ head_below m l'.

(** The minimum binding power [mb] separates the operators at levels below [m] from the rest. *)
Definition min_level (mb m : nat) : Prop := forall lv, Nat.ltb (10 * lv) mb = Nat.ltb lv m.

Lemma items_head w1 op w2 n l rest : items_toks ((w1, op, w2, n) :: l) ++ rest = w1 ++ op :: w2 ++ (NUMBER, n) :: items_toks l ++ rest.
Proof. unfold items_toks. simpl. rewrite <-!app_assoc. simpl. by rewrite <-!app_assoc. Qed.

Lemma items_ok_cons w1 op w2 n l : Forall item_ok ((w1, op, w2, n) :: l) ->
  trivia w1 /\ operator (fst op) /\ trivia w2 /\ Forall item_ok l.
Proof. intros H. inversion H as [|? ? Hi Hl]; subst. unfold item_ok in Hi. tauto. Qed.

Lemma items_current l rest : Forall item_ok l ->
  nth_kind (items_toks l ++ rest) 0 = match l with [] => nth_kind rest 0 | (_, op, _, _) :: _ => Some (fst op) end.
Proof.
  intros Hl. destruct l as [|[[[w1 [k t]] w2] n] l]; [done|]. rewrite items_head. apply items_ok_cons in Hl as (H1 & Ho & _).
  rewrite nth_kind_trivia by done. simpl in *. apply infix_level in Ho as (_ & -> & _). done.
Qed.

Lemma items_no_postfix l rest : Forall item_ok l -> stops rest -> no_postfix (items_toks l ++ rest).
Proof.
  intros Hl Hs k. rewrite items_current by done. destruct l as [|[[[w1 op] w2] n] l].
  - unfold stops in Hs. intros E. rewrite E in Hs. apply Hs.
  - apply items_ok_cons in Hl as (_ & Ho & _). intros [= <-]. apply infix_level, Ho.
Qed.

(** One round of the loop of [parse_expr_bp]. *)
Definition round (rec : call -> M unit) (mb : nat) (ck : Checkpoint) : M bool :=
  let! op := get current in
  match op with
  | None => break
  | Some op =>
      match infix_bp op with
      | None => break
      | Some (lbp, rbp) =>
          if Nat.ltb lbp mb then break else
          open_at ck BINARY_EXPR ;;
          (if bool_decide (op = PLUS_PLUS)
           then error (Text "`++` is not an operator — use `+` to concatenate strings") else skip) ;;
          bump ;;
          rec (ExprBp rbp) ;;
          close ;;
          continue
      end
  end.

Definition here_mark (p : parser) : Checkpoint := (length (outer (build p)), length (top (build p))).

Section Loop.
Context (rec : call -> M unit) (m mb L : nat) (rest : list tok).
Hypothesis Hstops : stops rest.
Hypothesis Hmb : min_level mb m.
Hypothesis Hrec : forall lv w n l p, length l < L -> trivia w -> ahead p = w ++ (NUMBER, n) :: items_toks l ++ rest -> Forall item_ok l ->
  depth p < MAX_DEPTH ->
  wp (rec (ExprBp (S (10 * lv)))) p (fun _ p' => exists q,
    put (leaves w) ((NUMBER, n) :: items_toks l ++ rest) p q /\ reads (S lv) [(NUMBER, n)] l rest q p').

(** One more operator: the left operand so far, the operator, the operand after it. *)
Lemma operator_step start p e0 w1 op w2 n l :
  put [tree_of e0] (items_toks ((w1, op, w2, n) :: l) ++ rest) start p -> Forall item_ok ((w1, op, w2, n) :: l) ->
  depth start < MAX_DEPTH -> m <= level (fst op) -> length l < L ->
  wp (round rec mb (here_mark start)) p (fun go p' => go = true /\ exists r l', put [tree_of (Bin e0 w1 op w2 r)] (items_toks l' ++ rest) start p' /\
    respects r /\ tight (S (level (fst op))) r /\ spell r ++ items_toks l' = (NUMBER, n) :: items_toks l /\
    Forall item_ok l' /\ length l' <= length l /\ head_below (S (level (fst op))) l').
Proof.
  intros HP Hok Hd Hm HL. pose proof HP as (A & Bp & E & D & P). apply wp_get. unfold current, nth, here_mark.
  rewrite A, items_current by done. destruct (items_ok_cons _ _ _ _ _ Hok) as (H1 & Ho & H2 & Hl).
  destruct (infix_level _ Ho) as (Hi & Ht & Hpp & _). rewrite Hi, Hmb. cbv iota beta.
  rewrite (proj2 (Nat.ltb_ge _ _) Hm).
  replace (outer (build start)) with (outer (build p)) by (by rewrite Bp).
  apply nested_open_at; [rewrite Bp; simpl; rewrite length_app; lia|]. intros p1 N1.
  rewrite bool_decide_eq_false_2 by done. apply wp_ret_bind. pose proof N1 as (A1 & _ & _ & D1 & _).
  rewrite items_head in A. apply (put_bump _ w1 op (w2 ++ (NUMBER, n) :: items_toks l ++ rest)); [done|done|by rewrite A1, A|].
  intros p2 P2. pose proof P2 as (A2 & _ & _ & D2 & _). apply wp_bind.
  eapply wp_mono; [apply (Hrec (level (fst op)) w2 n l); [done|done|done|done|by rewrite D2, D1, D]|]. cbv beta.
  intros [] p3 (q & P3 & r & l' & P3' & Hr & Htr & Hsp & Hokl' & Hlen & Hhd).
  apply (nested_close _ _ _ _ _ _ _ _ _ N1 (put_trans _ _ _ _ _ _ _ (put_trans _ _ _ _ _ _ _ P2 P3) P3')).
  intros p4 (A4 & B4 & E4 & D4 & P4). apply wp_ret. split; [done|]. exists r, l'. split_and!; try done.
  split_and!; [done| |congruence..]. rewrite B4, Bp. cbn [top outer]. rewrite take_app_length, drop_app_length.
  cbn [tree_of]. by rewrite <-!app_assoc.
Qed.

Lemma operator_loop start : depth start < MAX_DEPTH ->
  forall n e0 l p, length l <= L -> length l < n -> put [tree_of e0] (items_toks l ++ rest) start p -> Forall item_ok l ->
  respects e0 -> tight m e0 -> head_tight l e0 ->
  wp (loop n always (round rec mb (here_mark start))) p (fun _ p' => reads m (spell e0) l rest start p').
Proof.
  intros Hd. induction n as [|n IH]; intros e0 l p HL Hn HP Hok Hr Ht Hh; [lia|].
  pose proof HP as (A & _). unfold wp. cbn [loop always].
  destruct l as [|[[[w1 op] w2] x] l].
  - exists tt, p. split; [|by exists e0, []]. unfold round, bind at 1, get. unfold current, nth. rewrite A, items_current by done.
    unfold stops in Hstops. destruct (nth_kind rest 0) as [k|]; [|done]. by destruct Hstops as [-> _].
  - destruct (decide (level (fst op) < m)) as [Hlt|Hge].
    + exists tt, p. split; [|exists e0, ((w1, op, w2, x) :: l); by split_and!]. unfold round, bind at 1, get.
      unfold current, nth. rewrite A, items_current by done. destruct (items_ok_cons _ _ _ _ _ Hok) as (_ & Ho & _).
      destruct (infix_level _ Ho) as (-> & _). cbv iota beta. by rewrite Hmb, (proj2 (Nat.ltb_lt _ _) Hlt).
    + destruct (operator_step start p e0 w1 op w2 x l HP Hok Hd ltac:(lia) ltac:(unfold item in *; simpl in HL; lia))
        as (go & p1 & Hrun & -> & r & l' & P1 & Hr1 & Ht1 & Hsp & Hok1 & Hlen & Hhd). rewrite Hrun.
      destruct (IH (Bin e0 w1 op w2 r) l' p1) as ([] & p' & Hl & e & l'' & Q); try done.
      * unfold item in *. simpl in *. lia.
      * unfold item in *. simpl in *. lia.
      * simpl in *. lia.
      * destruct l' as [|[[[? ?] ?] ?] ?]; [done|]. simpl in *. lia.
      * exists tt, p'. split; [done|]. exists e, l''. destruct Q as (Q1 & Q2 & Q3 & Q4 & Q5 & Q6 & Q7).
        split_and!; try done; [|unfold item in *; simpl; lia]. rewrite Q4. cbn [spell].
        rewrite <-(app_nil_r (items_toks (_ :: l))), items_head, app_nil_r, <-!app_assoc. simpl. by rewrite <-!app_assoc, Hsp.
Qed.
End Loop.

Lemma min_level_next lv : min_level (S (10 * lv)) (S lv).
Proof. intros n. destruct (Nat.ltb_spec (10 * n) (S (10 * lv))), (Nat.ltb_spec n (S lv)); lia || done. Qed.

Lemma min_level_zero : min_level 0 0.
Proof. intros n. done. Qed.

Lemma expr_bp_reads rest : stops rest -> forall fuel mb m w n l p, min_level mb m -> length l + 2 <= fuel ->
  trivia w -> ahead p = w ++ (NUMBER, n) :: items_toks l ++ rest -> Forall item_ok l -> depth p < MAX_DEPTH ->
  wp (parse fuel (ExprBp mb)) p (fun _ p' => exists q,
    put (leaves w) ((NUMBER, n) :: items_toks l ++ rest) p q /\ reads m [(NUMBER, n)] l rest q p').
Proof.
  intros Hs. induction fuel as [|fuel IH]; intros mb m w n l p Hmb Hf Hw E Hl Hd; [lia|].
  cbn [parse production]. unfold expr_bp_body. apply (put_checkpoint _ w ((NUMBER, n) :: items_toks l ++ rest)); [done|done|done|].
  intros q Pq. pose proof Pq as (Aq & _ & _ & Dq & _). destruct fuel as [|fuel]; [lia|].
  apply (number_unary _ fuel n (items_toks l ++ rest)); [done|by apply items_no_postfix|by rewrite Dq|]. intros p1 P1.
  pose proof P1 as (A1 & _). eapply wp_mono.
  - apply (operator_loop (parse (S fuel)) m mb (length l) rest Hs Hmb) with (start := q) (e0 := Num n) (l := l); try done.
    + intros lv w' n' l' p' Hlen Hw' E' Hl' Hd'. apply (IH _ (S lv)); try done; [apply min_level_next|lia].
    + by rewrite Dq.
    + rewrite A1, length_app. enough (length l <= length (items_toks l)) by lia. clear.
      induction l as [|[[[w1 op] w2] n] l IHl]; [simpl; lia|]. unfold items_toks in *. simpl. rewrite !length_app. simpl. lia.
    + by destruct l as [|[[[w1 op] w2] x] l].
  - cbv beta. intros _ p' HR. by exists q.
Qed.

(** ** Documents *)

Lemma put_open {B} (k : unit -> M B) K ws l p Q : trivia ws -> skip_trivia l = l -> ahead p = ws ++ l ->
  (forall p1 p2, nested (length (top (build p))) K p p1 -> put (leaves ws) l p1 p2 -> wp (k tt) p2 Q) -> wp (bind (open K) k) p Q.
Proof.
  intros Hw Hl E Hk. apply wp_bind. set (q := set_build p (start_node (build p) K)).
  eexists tt, (flush (ahead q) q). split; [reflexivity|]. apply (Hk q); [by split_and!|]. by apply flush_put.
Qed.

Lemma trivia_stops ws : trivia ws -> nth_kind ws 0 = None /\ skip_trivia ws = [].
Proof. induction 1 as [|[k t] ws Hk _ IH]; [done|]. simpl in *. by rewrite Hk. Qed.

Lemma expr_reads fuel rest n l p : trivia rest -> length l + 3 <= fuel ->
  ahead p = (NUMBER, n) :: items_toks l ++ rest -> Forall item_ok l -> depth p < MAX_DEPTH ->
  wp (parse fuel Expr) p (fun _ p' => exists e, put [tree_of e] rest p p' /\ respects e /\ spell e = (NUMBER, n) :: items_toks l).
Proof.
  intros Hr Hf E Hl Hd. destruct fuel as [|fuel]; [lia|]. destruct (trivia_stops rest Hr) as [Hk _].
  assert (Hs : stops rest) by (unfold stops; by rewrite Hk).
  cbn [parse production]. unfold expr_body. apply (put_checkpoint _ [] (ahead p)); [constructor|by rewrite E|done|].
  intros p1 P1. pose proof P1 as (A1 & _ & _ & D1 & _). rewrite E in A1. apply wp_bind.
  eapply wp_mono; [apply (expr_bp_reads rest Hs fuel 0 0 [] n l p1 min_level_zero); try done; [lia|constructor|by rewrite D1]|].
  cbv beta. intros [] p2 (q & Pq & e & l' & P2 & He & _ & Hsp & Hl' & _ & Hhd).
  assert (l' = []) as -> by (destruct l' as [|[[[? ?] ?] ?] ?]; [done|simpl in Hhd; lia]).
  pose proof P2 as (A2 & _). assert (Hc : current p2 = None) by (unfold current, nth; by rewrite A2).
  apply wp_ite.
  { intros C. apply andb_true_iff in C as [C _]. apply at_true in C. congruence. }
  intros _. unfold postfix_forms. apply wp_last, while_break.
  - intros _. unfold ite, cand, at_. rewrite Hc. done.
  - apply wp_ret. exists e. unfold items_toks in Hsp at 1. simpl in Hsp. rewrite app_nil_r in Hsp. split_and!; [|done|done].
    apply (put_trans [] _ _ _ _ _ _ P1), (put_trans [] _ _ _ _ _ _ Pq P2).
Qed.

Lemma document_reads fuel w0 n l wend : trivia w0 -> trivia wend -> length l + 3 <= fuel -> Forall item_ok l ->
  exists e p, respects e /\ spell e = (NUMBER, n) :: items_toks l /\
    parse_document (parse fuel) (new (w0 ++ (NUMBER, n) :: items_toks l ++ wend)) = Ok (tt, p) /\
    build p = MkStack [Node DOCUMENT (leaves w0 ++ [tree_of e] ++ leaves wend)] [] /\ errors p = [] /\ past_end p = false.
Proof.
  intros H0 Hend Hf Hl. set (p := new _). destruct (trivia_stops wend Hend) as [Hk _].
  enough (wp (parse_document (parse fuel)) p (fun _ p' => exists e, respects e /\ spell e = (NUMBER, n) :: items_toks l /\
    put [Node DOCUMENT (leaves w0 ++ [tree_of e] ++ leaves wend)] [] p p')) as ([] & p' & Hrun & e & He & Hsp & _ & Bp & Er & _ & Pe).
  { exists e, p'. split_and!; done. }
  unfold parse_document. apply (put_open _ _ w0 ((NUMBER, n) :: items_toks l ++ wend)); [done|done|done|]. intros p1 p2 N1 P2.
  pose proof P2 as (A2 & _ & _ & D2 & _). pose proof N1 as (_ & _ & _ & D1 & _).
  pose proof (current_is p2 _ _ _ A2 eq_refl) as Hc. unfold attributes. apply while_break.
  { intros C. apply orb_true_iff in C. rewrite !at_true, Hc in C. naive_solver. }
  apply wp_bind, wp_ite; [intros _|intros C; unfold cnot, at_end in C; by rewrite Hc in C].
  eapply wp_mono; [apply (expr_reads fuel wend n l p2); try done; rewrite D2, D1; unfold MAX_DEPTH; simpl; lia|].
  cbv beta. intros [] p3 (e & P3 & He & Hsp). pose proof P3 as (A3 & _).
  apply wp_bind, wp_ite; [intros C; unfold cnot, at_end, current, nth in C; by rewrite A3, Hk in C|intros _]. apply wp_ret.
  apply wp_bind. eexists tt, _. split; [reflexivity|].
  pose proof (flush_put wend [] p3 Hend eq_refl ltac:(by rewrite app_nil_r)) as P4.
  apply wp_last, (whole_node _ _ _ _ _ _ _ _ N1 (put_trans _ _ _ _ _ _ _ (put_trans _ _ _ _ _ _ _ P2 P3) P4)).
  intros p5 P5. apply wp_ret. exists e. split_and!; [done|done|]. by rewrite <-app_assoc in P5.
Qed.

Lemma items_length l rest : length l <= length (items_toks l ++ rest).
Proof.
  rewrite length_app. induction l as [|[[[w1 op] w2] n] l IH]; simpl; [lia|].
  unfold items_toks in *. simpl. rewrite !length_app. simpl. lia.
Qed.

Lemma tokens_length (toks : list tok) : Forall (fun '(_, t) => t <> []) toks -> length toks <= length (concat (map snd toks)).
Proof.
  induction 1 as [|[k t] l Ht _ IH]; [simpl; lia|]. simpl. rewrite length_app. destruct t; [done|simpl; lia].
Qed.

(** C12 Operator precedence and associativity: a source whose tokens are numbers separated by
    infix operators, with white space and comments anywhere, parses without errors to a
    document that holds one expression tree [e], which spells exactly these tokens and in
    which every left operand binds at least as tight as its operator and every right
    operand tighter ([|], then [* / %], [+ -], comparisons, equality, [&&], [||]), all
    operators associating to the left. *)
Theorem operators_climb s w0 n l wend :
  is_str s = true ->
  lex (lit s) = Ok (w0 ++ (NUMBER, n) :: items_toks l ++ wend) ->
  trivia w0 -> trivia wend -> Forall item_ok l ->
  exists e, respects e /\ spell e = (NUMBER, n) :: items_toks l /\
    parse_cst (lit s) = Ok (MkParse (Node DOCUMENT (leaves w0 ++ [tree_of e] ++ leaves wend)) [] false).
Proof.
  intros Hs El H0 Hend Hl. destruct (lex_total s Hs) as (toks & El' & Hlx). rewrite El in El'. injection El' as <-.
  destruct (lexed_concat _ _ Hlx) as [Hc Hne]. apply tokens_length in Hne. rewrite Hc, length_app in Hne. simpl in Hne.
  pose proof (items_length l wend).
  destruct (document_reads (cst_fuel (lit s)) w0 n l wend) as (e & p & He & Hsp & Hrun & Hb & Her & Hpe); try done.
  { unfold cst_fuel. unfold item, tok in *. lia. }
  exists e. split_and!; [done|done|]. unfold parse_cst. rewrite El. cbn [Prelude.bind]. unfold tok in *. rewrite Hrun. cbn [Prelude.bind].
  unfold finish. rewrite Hb, Her, Hpe. done.
Qed.

Lemma operators_climb_witness :
  exists e, respects e /\ spell e = (NUMBER, lit "1") :: items_toks
      [([(WHITESPACE, lit " ")], (MINUS, lit "-"), [(WHITESPACE, lit " ")], lit "2"); ([], (STAR, lit "*"), [], lit "3");
       ([], (MINUS, lit "-"), [], lit "4")] /\
    parse_cst (lit "1 - 2*3-4 ") = Ok (MkParse (Node DOCUMENT (leaves [] ++ [tree_of e] ++ leaves [(WHITESPACE, lit " ")])) [] false).
Proof.
  apply operators_climb; [reflexivity|reflexivity|constructor|by repeat constructor|].
  repeat constructor; unfold operator; simpl; lia.
Defined.
End Precedence.

(** Where the syntax-tree parser does not do what its comments say: the nesting that its
    depth guard does not see, the match wildcard it refuses, and the closures its
    look-ahead misses. *)

Import Lex Cst CstParser CstTree Precedence.

(** ** Nested types *)

(** [A<] [n] times *)
Fixpoint nest (n : nat) : list tok :=
  match n with O => [] | S n => (IDENT, lit "A") :: (LT, lit "<") :: nest n end.

Lemma abort_bind {A B} (m : M A) (k : A -> M B) p : m p = Abort -> bind m k p = Abort.
Proof. unfold bind. by intros ->. Qed.

Lemma abort_after {A B} (m : M A) (k : A -> M B) p : wp m p (fun a p' => k a p' = Abort) -> bind m k p = Abort.
Proof. intros (a & p' & Hm & Hk). unfold bind. by rewrite Hm. Qed.

Lemma ite_if {A} (c : cond) (a b : M A) p : ite c a b p = if c p then a p else b p.
Proof. done. Qed.

Lemma at_is p k k' t l : ahead p = (k, t) :: l -> is_trivia k = false -> at_ k' p = bool_decide (k = k').
Proof.
  intros E Hk. unfold at_. rewrite (current_is p k t l E Hk). apply bool_decide_ext. naive_solver.
Qed.

(** A type that starts with an identifier and an argument list calls itself at the first argument. *)
Lemma type_descends rec p l x : ahead p = (IDENT, lit "A") :: (LT, lit "<") :: (IDENT, x) :: l ->
  (forall p', ahead p' = (IDENT, x) :: l -> rec Type_ p' = Abort) -> type_body rec p = Abort.
Proof.
  intros E Hrec. unfold type_body. rewrite ite_if, (at_is p _ _ _ _ E eq_refl). simpl.
  apply abort_after, wp_last, nested_open; [by rewrite E|]. intros p1 (A1 & _). apply wp_ret. rewrite E in A1.
  rewrite ite_if. unfold cor. rewrite !(at_is p1 _ _ _ _ A1 eq_refl). simpl.
  apply abort_after, wp_last, (put_bump _ [] (IDENT, lit "A") ((LT, lit "<") :: (IDENT, x) :: l)); [constructor|done|done|].
  intros p2 (A2 & _). apply wp_ret. apply abort_after, wp_last, while_break.
  { rewrite (at_is p2 _ _ _ _ A2 eq_refl). done. }
  apply wp_ret, abort_bind. rewrite ite_if, (at_is p2 _ _ _ _ A2 eq_refl). simpl.
  apply abort_after, wp_last, (put_bump _ [] (LT, lit "<") ((IDENT, x) :: l)); [constructor|done|done|].
  intros p3 (A3 & _). apply wp_ret, abort_bind. unfold while. cbn [loop always]. unfold ite at 1, cor, at_end.
  rewrite (at_is p3 _ _ _ _ A3 eq_refl), (current_is p3 _ _ _ A3 eq_refl). simpl.
  assert (Hr : parse_type rec p3 = Abort) by (by apply Hrec). unfold bind at 1. by rewrite Hr.
Qed.

(** The depth guard does not bound the nesting of types: whatever number [n] of nested calls
    is allowed, [n + 1] opening [A<] make the type production call itself more often, while
    the depth counter, which only [parse_unary] advances, does not move. *)
Theorem type_nesting_unguarded n p : ahead p = nest (S n) -> parse n Type_ p = Abort.
Proof.
  revert p. induction n as [|n IH]; intros p E; [done|]. cbn [parse production].
  apply (type_descends _ _ ((LT, lit "<") :: nest n) (lit "A")); [done|]. intros p' E'. by apply IH.
Qed.

Lemma type_nesting_unguarded_witness : parse 100 Type_ (new (nest 101)) = Abort.
Proof. apply type_nesting_unguarded. reflexivity. Defined.

(** ** The refused wildcard *)

(** The messages of the errors, and whether the parser bumped past the end of the input. *)
Definition outcome_of (s : string) : option (list Message * bool) :=
  match parse_cst (lit s) with Ok r => Some (map message (parse_errors r), ran_past_end r) | _ => None end.

(** The recovery from a [*] match arm consumes one token too many: the error node already
    holds the [*], so the [bump] after it takes the [:], which is then reported as missing;
    at the end of the input the same [bump] runs past the last token, which debug builds
    assert never to happen. *)
Theorem star_arm_overruns :
  outcome_of "a match { _: 1 }" = Some ([], false) /\
  outcome_of "a match { *: 1 }" =
    Some ([Text "`*` is no longer a match wildcard — use `_` for the catch-all arm"; Text "expected `:` in match arm";
           Text "expected `,` or `}` in match"], false) /\
  (exists es, outcome_of "a match { *" = Some (es, true)).
Proof. split_and!; [vm_compute; reflexivity..|eexists; vm_compute; reflexivity]. Qed.

(** ** Tuple return types *)

(** A closure whose return type is a tuple is not recognised: the look-ahead for [=>] counts
    the opening parenthesis of the tuple but not the closing one, so the arrow after it never
    appears at the top level; the same closure with a plain return type parses cleanly. *)
Theorem tuple_return_not_a_closure :
  outcome_of "(x) -> Int => x" = Some ([], false) /\
  outcome_of "(x) => (x, x)" = Some ([], false) /\
  exists e es b, outcome_of "(x) -> (Int, Int) => (x, x)" = Some (e :: es, b).
Proof. split_and!; [vm_compute; reflexivity..|]. do 3 eexists. vm_compute. reflexivity. Qed.
