(* ===== verification/Operators.v ===== *)
(** Evaluation of operator expressions: the literal, binary, unary and ternary cases of
    [eval_internal] of [crates/relon-evaluator/src/eval.rs] with [eval_binary],
    [eval_unary] and the string concatenation fast path of [arithmetic.rs].

    Nodes carry no decorators, directives or type hints.  What the operators reach beyond
    numbers, booleans and strings is the class [Evaluator]: the other kinds of expression,
    the operator methods of branded values, and the merging of dictionaries and schemas.
    The state is the step counter and whatever those may change; it survives errors. *)

From Stdlib Require Import ZArith Lia Bool.
From stdpp Require Import base list strings.
From S2P Require Import Prelude Bytes SchemaCanonical Value Arith Context.
Local Open Scope Z_scope.
Local Open Scope abi_scope.

Module Operators.
Import Arith.

(** ** Syntax *)

Section Syntax.
Context {TokenRange : Type}.

Inductive node : Type :=
| Node (range : TokenRange) (e : expr)
with expr : Type :=
| EMissing
| EBool (b : bool)
| EInt (i : Z)
| EFloat (bits : Z)
| EString (s : string)
| EBinary (op : Operator) (l r : node)
| EUnary (op : Operator) (n : node)
| ETernary (cond_ then_ els : node)
| EDict (id : nat)
| EFString (id : nat)
| EOther (id : nat).

Definition range_of (n : node) : TokenRange := let 'Node r _ := n in r.
Definition expr_of (n : node) : expr := let 'Node _ e := n in e.

Definition is_string_add_chain_head (n : node) : bool :=
  match expr_of n with EBinary Add _ _ => true | _ => false end.

Definition is_statically_string_expr (n : node) : bool :=
  match expr_of n with EString _ | EFString _ => true | _ => false end.

(** Where the descent along the left operands of [+] ends. *)
Fixpoint chain_leaf (n : node) : node :=
  match n with
  | Node _ (EBinary Add l _) => chain_leaf l
  | _ => n
  end.
End Syntax.
Arguments node : clear implicits.
Arguments expr : clear implicits.

(** ** Evaluation *)

Section Errors.
Context {TokenRange : Type}.

Inductive EvalError {Foreign : Type} : Type :=
| Runtime (e : RuntimeError (TokenRange := TokenRange))
| StepLimitExceeded (limit : Z) (range : TokenRange)
| ValidationError (message : string) (range : TokenRange)
| ForeignError (e : Foreign).
End Errors.
Arguments EvalError : clear implicits.

Record state (W : Type) : Type := MkState { step_counter : Z; world : W }.
Arguments MkState {W} _ _.
Arguments step_counter {W} _.
Arguments world {W} _.

(** What the operators call. *)
Class Evaluator {H : HostTypes} (TokenRange : Type) : Type := {
  World : Type;
  Foreign : Type;
  max_steps : option Z;
  (* expressions of the other kinds *)
  eval_other : node TokenRange -> state World -> outcome (EvalError TokenRange Foreign) Value * state World;
  (* the method of a branded receiver, when its schema has one *)
  call_method : string -> Value -> Value -> string -> TokenRange ->
    state World -> outcome (EvalError TokenRange Foreign) (option Value) * state World;
  merge_dicts : Value -> Value -> TokenRange -> state World -> outcome (EvalError TokenRange Foreign) Value * state World;
  extend_schema : Value -> node TokenRange -> state World -> outcome (EvalError TokenRange Foreign) Value * state World;
  merge_schemas : Value -> Value -> Value;
  value_eq : Value -> Value -> bool;
  display : Value -> string;
}.

Section Eval.
Context {H : HostTypes} {TokenRange : Type} {Ev : Evaluator TokenRange}.

Definition Eval (A : Type) : Type := state World -> outcome (EvalError TokenRange Foreign) A * state World.
Definition ret {A} (a : A) : Eval A := fun s => (Ok a, s).
Definition fail {A} (e : EvalError TokenRange Foreign) : Eval A := fun s => (Err e, s).
Definition bind {A B} (m : Eval A) (k : A -> Eval B) : Eval B := fun s =>
  match m s with (Ok a, s) => k a s | (Err e, s) => (Err e, s) | (Abort, s) => (Abort, s) end.
Definition lift {A} (m : outcome RuntimeError A) : Eval A := fun s =>
  (match m with Ok a => Ok a | Err e => Err (Runtime e) | Abort => Abort end, s).

Local Notation "'let!' x ':=' m 'in' k" := (bind m (fun x => k)) (at level 200, x pattern, m at level 100, k at level 200).

(** The charge at the head of [eval_internal]. *)
Definition charge (range : TokenRange) : Eval unit := fun s =>
  let '(granted, counter) := Ctx.charge_node max_steps (step_counter s) in
  let s := MkState counter (world s) in
  match max_steps with
  | Some limit => if granted then (Ok tt, s) else (Err (StepLimitExceeded limit range), s)
  | None => (Ok tt, s)
  end.

(** ** Operators on values *)

Definition try_branded_binary_method (receiver other : Value) (method_name : string) (range : TokenRange) : Eval (option Value) :=
  match receiver with
  | VDict d =>
      match dict_brand d with
      | Some brand => call_method brand receiver other method_name range
      | None => ret None
      end
  | _ => ret None
  end.

Definition or_default (m : Eval (option Value)) (d : Eval Value) : Eval Value :=
  let! out := m in match out with Some v => ret v | None => d end.

Definition arith_method_for (op : Operator) : string :=
  match op with Add => "add" | Sub => "sub" | Mul => "mul" | Div => "div" | _ => "rem" end.

Definition invert_bool (v : Value) : Value := match v with VBool b => VBool (negb b) | other => other end.

Definition try_le_ge_lowering (a b : Value) (range : TokenRange) (swap_lt : bool) : Eval (option Value) :=
  let '(lt_recv, lt_other) := if swap_lt then (b, a) else (a, b) in
  let! lt_val := try_branded_binary_method lt_recv lt_other "lt" range in
  match lt_val with
  | None => ret None
  | Some lt_val =>
      let! eq := try_branded_binary_method a b "eq" range in
      let eq_bool := match eq with Some (VBool b) => b | Some _ => false | None => value_eq a b end in
      let lt_bool := match lt_val with VBool true => true | _ => false end in
      ret (Some (VBool (lt_bool || eq_bool)))
  end.

Definition binary_values (op : Operator) (range : TokenRange) (l : Value) (lr : TokenRange) (r : Value) (rr : TokenRange)
    : Eval Value :=
  let arithmetic := lift (eval_numeric_arithmetic op range l lr r rr) in
  let division := lift (eval_numeric_division op range l lr r rr) in
  let comparison := lift (eval_numeric_comparison op l lr r rr) in
  let witness a b name := try_branded_binary_method a b name range in
  match op with
  | Add =>
      match l, r with
      | VDict _, VDict _ => or_default (witness l r "add") (merge_dicts l r lr)
      | VSchema _, VSchema _ => ret (merge_schemas l r)
      | VString a, VString b => ret (VString (a +:+ b))
      | VString a, b => ret (VString (a +:+ display b))
      | a, VString b => ret (VString (display a +:+ b))
      | a, b => or_default (witness a b (arith_method_for op)) arithmetic
      end
  | Sub | Mul => or_default (witness l r (arith_method_for op)) arithmetic
  | Div | Mod => or_default (witness l r (arith_method_for op)) division
  | Eq => or_default (witness l r "eq") (ret (VBool (value_eq l r)))
  | Ne =>
      let! out := witness l r "eq" in
      match out with Some v => ret (invert_bool v) | None => ret (VBool (negb (value_eq l r))) end
  | Lt => or_default (witness l r "lt") comparison
  | Gt => or_default (witness r l "lt") comparison
  | Le => or_default (try_le_ge_lowering l r range false) comparison
  | Ge => or_default (try_le_ge_lowering l r range true) comparison
  | _ => fail (Runtime (UnsupportedOperator op lr))
  end.

(** [Schema + Dict] and [Schema + (.. + ..)] read the right operand as a definition. *)
Definition extends_schema (op : Operator) (l : Value) (right : node TokenRange) : bool :=
  match op, l, expr_of right with
  | Add, VSchema _, (EDict _ | EBinary Add _ _) => true
  | _, _, _ => false
  end.

Definition is_add (op : Operator) : bool := match op with Add => true | _ => false end.

(** The operands one after the other. *)
Definition binary_operands (eval_left eval_right : Eval Value) (op : Operator) (range : TokenRange) (left right : node TokenRange)
    : Eval Value :=
  let! l := eval_left in
  if extends_schema op l right then extend_schema l right
  else
    let! r := eval_right in
    binary_values op range l (range_of left) r (range_of right).

Fixpoint as_strings (values : list Value) : option (list string) :=
  match values with
  | [] => Some []
  | VString s :: values => match as_strings values with Some ss => Some (s :: ss) | None => None end
  | _ :: _ => None
  end.

(** [SmolStr::concat_many] of the leaves when all of them are strings. *)
Definition concat_leaves (values : list Value) : option Value :=
  match as_strings values with
  | Some slices => Some (VString (foldl (fun buf s => buf +:+ s) EmptyString slices))
  | None => None
  end.

(** ** The walk *)

Fixpoint eval (n : node TokenRange) : Eval Value :=
  match n with
  | Node range e =>
      let! _ := charge range in
      match e with
      | EMissing => fail (ValidationError "`null` is not a Relon value; use None with an Option<T> target type" range)
      | EBool b => ret (VBool b)
      | EInt i => ret (VInt i)
      | EFloat f => ret (VFloat f)
      | EString s => ret (VString s)
      | EBinary And lhs rhs =>
          let! l := eval lhs in
          if negb (is_truthy l) then ret l else eval rhs
      | EBinary Or lhs rhs =>
          let! l := eval lhs in
          if is_truthy l then ret l else eval rhs
      | EBinary Pipe _ _ => eval_other n
      | EBinary op lhs rhs =>
          (* the leaves of a chain of additions, from the left *)
          let chain := fix chain (c : node TokenRange) : Eval (list Value) :=
            match c with
            | Node _ (EBinary Add inner_l inner_r) =>
                let! values := chain inner_l in
                let! v := eval inner_r in
                ret (values ++ [v])
            | _ => let! v := eval c in ret [v]
            end in
          let! folded :=
            if is_add op && is_string_add_chain_head lhs && is_statically_string_expr (chain_leaf lhs) then
              let! values := chain lhs in
              let! v := eval rhs in
              ret (concat_leaves (values ++ [v]))
            else ret None in
          match folded with
          | Some v => ret v
          | None => binary_operands (eval lhs) (eval rhs) op range lhs rhs
          end
      | EUnary op inner =>
          let! val := eval inner in
          lift (eval_unary op range val (range_of inner))
      | ETernary cond_ then_ els =>
          let! c := eval cond_ in
          if is_truthy c then eval then_ else eval els
      | EDict _ | EFString _ | EOther _ => eval_other n
      end
  end.
End Eval.
End Operators.
