(* ===== verification/ConstFold.v ===== *)
(** Constant folding of [crates/relon-analyzer/src/const_fold.rs] and its agreement with
    evaluation: what folds to a value evaluates to it, what folds to an error is an
    expression that fails with that error. *)

From Stdlib Require Import ZArith Lia Bool.
From stdpp Require Import base list strings.
From S2P Require Import Prelude Bytes SchemaCanonical Value NumberLit Arith Context Operators.
Local Open Scope Z_scope.
Local Open Scope abi_scope.

Module ConstFold.
Import Arith Operators.

Inductive ConstValue : Type := CInt (i : Z) | CFloat (bits : Z) | CBool (b : bool) | CString (s : string).

Section Fold.
Context {TokenRange : Type}.

Inductive FoldError : Type :=
| DivByZero (range : TokenRange)
| Overflow (op : Operator) (range : TokenRange).

Definition Fold : Type := outcome FoldError (option ConstValue).

Definition checked_int (r : option Z) (op : Operator) (range : TokenRange) : Fold :=
  match r with Some v => Ok (Some (CInt v)) | None => Err (Overflow op range) end.

Definition float (v : Z) : Fold := Ok (Some (CFloat v)).

Definition apply_binary (op : Operator) (l r : ConstValue) (range : TokenRange) : Fold :=
  match op, l, r with
  | Add, CInt a, CInt b => checked_int (checked (a + b)) op range
  | Sub, CInt a, CInt b => checked_int (checked (a - b)) op range
  | Mul, CInt a, CInt b => checked_int (checked (a * b)) op range
  | Div, CInt a, CInt b => if b =? 0 then Err (DivByZero range) else checked_int (checked_div a b) op range
  | Mod, CInt a, CInt b => if b =? 0 then Err (DivByZero range) else checked_int (checked_rem a b) op range
  | Add, CFloat a, CFloat b => float (f64_add a b)
  | Sub, CFloat a, CFloat b => float (f64_sub a b)
  | Mul, CFloat a, CFloat b => float (f64_mul a b)
  | Div, CFloat a, CFloat b => float (f64_div a b)
  | Mod, CFloat a, CFloat b => float (f64_rem a b)
  | Add, CInt a, CFloat b => float (f64_add (i64_as_f64 a) b)
  | Add, CFloat a, CInt b => float (f64_add a (i64_as_f64 b))
  | Sub, CInt a, CFloat b => float (f64_sub (i64_as_f64 a) b)
  | Sub, CFloat a, CInt b => float (f64_sub a (i64_as_f64 b))
  | Mul, CInt a, CFloat b => float (f64_mul (i64_as_f64 a) b)
  | Mul, CFloat a, CInt b => float (f64_mul a (i64_as_f64 b))
  | Div, CInt a, CFloat b => float (f64_div (i64_as_f64 a) b)
  | Div, CFloat a, CInt b => float (f64_div a (i64_as_f64 b))
  | Mod, CInt a, CFloat b => float (f64_rem (i64_as_f64 a) b)
  | Mod, CFloat a, CInt b => float (f64_rem a (i64_as_f64 b))
  | And, CBool a, CBool b => Ok (Some (CBool (a && b)))
  | Or, CBool a, CBool b => Ok (Some (CBool (a || b)))
  | Add, CString a, CString b | Concat, CString a, CString b => Ok (Some (CString (a +:+ b)))
  | _, _, _ => Ok None
  end.

Definition apply_unary (op : Operator) (v : ConstValue) (range : TokenRange) : Fold :=
  match op, v with
  | Sub, CInt a => checked_int (checked (- a)) op range
  | Sub, CFloat a => float (f64_neg a)
  | Not, CBool b => Ok (Some (CBool (negb b)))
  | _, _ => Ok None
  end.

Fixpoint try_fold (n : node TokenRange) : Fold :=
  match n with
  | Node range e =>
      match e with
      | EInt i => Ok (Some (CInt i))
      | EFloat f => Ok (Some (CFloat f))
      | EBool b => Ok (Some (CBool b))
      | EString s => Ok (Some (CString s))
      | EBinary op l r =>
          let* lv := try_fold l in
          let* rv := try_fold r in
          match lv, rv with
          | Some a, Some b => apply_binary op a b range
          | _, _ => Ok None
          end
      | EUnary op inner =>
          let* v := try_fold inner in
          match v with Some a => apply_unary op a range | None => Ok None end
      | ETernary cond_ then_ els =>
          let* cond_val := try_fold cond_ in
          match cond_val with
          | Some (CBool true) => try_fold then_
          | Some (CBool false) => try_fold els
          | _ => Ok None
          end
      | _ => Ok None
      end
  end.

(** ** Where folding and evaluation differ *)

Definition num (c : ConstValue) : option (Z * bool) :=
  match c with CInt i => Some (i64_as_f64 i, true) | CFloat f => Some (f, false) | _ => None end.

(** Operands on which the fold gives a value and evaluation an error: a division of numbers,
    not both integers, by zero, where the fold follows IEEE-754; and the retired [++]. *)
Definition fails_at_runtime (op : Operator) (l r : ConstValue) : bool :=
  match op, num l, num r with
  | Div, Some (_, li), Some (d, ri) | Mod, Some (_, li), Some (d, ri) => f64_eq d 0 && negb (li && ri)
  | Concat, _, _ => true
  | _, _, _ => false
  end.

(** Such operands occur in [n]. *)
Fixpoint risky (n : node TokenRange) : bool :=
  match n with
  | Node _ e =>
      match e with
      | EBinary op l r =>
          risky l || risky r ||
          match try_fold l, try_fold r with
          | Ok (Some a), Ok (Some b) => fails_at_runtime op a b
          | _, _ => false
          end
      | EUnary _ inner => risky inner
      | ETernary cond_ then_ els => risky cond_ || risky then_ || risky els
      | _ => false
      end
  end.

(** [m] occurs in [n]. *)
Inductive occurs : node TokenRange -> node TokenRange -> Prop :=
| occ_here n : occurs n n
| occ_left m g op l r : occurs m l -> occurs m (Node g (EBinary op l r))
| occ_right m g op l r : occurs m r -> occurs m (Node g (EBinary op l r))
| occ_unary m g op i : occurs m i -> occurs m (Node g (EUnary op i))
| occ_cond m g c t e : occurs m c -> occurs m (Node g (ETernary c t e))
| occ_then m g c t e : occurs m t -> occurs m (Node g (ETernary c t e))
| occ_else m g c t e : occurs m e -> occurs m (Node g (ETernary c t e)).

(** Integer literals of the syntax are [i64] values. *)
Fixpoint ints_ok (n : node TokenRange) : bool :=
  match n with
  | Node _ e =>
      match e with
      | EInt i => Num.in_i64 i
      | EBinary _ l r => ints_ok l && ints_ok r
      | EUnary _ i => ints_ok i
      | ETernary c t e => ints_ok c && ints_ok t && ints_ok e
      | _ => true
      end
  end.
End Fold.
Arguments FoldError : clear implicits.

Definition value_of {H : HostTypes} (c : ConstValue) : Value :=
  match c with CInt i => VInt i | CFloat f => VFloat f | CBool b => VBool b | CString s => VString s end.
End ConstFold.

(** Constant folding agrees with evaluation. *)

Import Arith Operators ConstFold.

Section Induction.
Context {R : Type} (P : node R -> Prop).

Definition compound (e : expr R) : bool :=
  match e with EBinary _ _ _ | EUnary _ _ | ETernary _ _ _ => true | _ => false end.

Lemma node_ind2 :
  (forall g e, compound e = false -> P (Node g e)) ->
  (forall g op l r, P l -> P r -> P (Node g (EBinary op l r))) ->
  (forall g op i, P i -> P (Node g (EUnary op i))) ->
  (forall g c t e, P c -> P t -> P e -> P (Node g (ETernary c t e))) ->
  forall n, P n.
Proof.
  intros Hleaf Hbin Hun Htern. fix IH 1. intros [g e].
  destruct e; try (by apply Hleaf); [apply Hbin|apply Hun|apply Htern]; apply IH.
Qed.
End Induction.

Section Agreement.
Context {H : HostTypes} {R : Type} {Ev : Evaluator R}.

(** [m] ends with [r] and changes nothing but the step counter, or exceeds the step limit. *)
Definition yields {A} (m : Eval A) (r : outcome (EvalError R Foreign) A) : Prop :=
  forall s, exists k, m s = (r, MkState k (world s)) \/
    exists limit g, m s = (Err (StepLimitExceeded limit g), MkState k (world s)).

Lemma yields_ret {A} (a : A) : yields (ret a) (Ok a).
Proof. intros [k w]. exists k. by left. Qed.

Lemma yields_lift {A} (r : outcome RuntimeError A) :
  yields (lift r) (match r with Ok a => Ok a | Err e => Err (Runtime e) | Abort => Abort end).
Proof. intros [k w]. exists k. by left. Qed.

Lemma eval_yields_bind {A B} (m : Eval A) (k : A -> Eval B) a r : yields m (Ok a) -> yields (k a) r -> yields (bind m k) r.
Proof.
  intros Hm Hk s. unfold bind. destruct (Hm s) as (c & [->|(limit & g & ->)]); [|exists c; right; by exists limit, g].
  destruct (Hk (MkState c (world s))) as (c' & Hc). exists c'. exact Hc.
Qed.

Lemma yields_err {A B} (m : Eval A) (k : A -> Eval B) e : yields m (Err e) -> yields (bind m k) (Err e).
Proof.
  intros Hm s. unfold bind. destruct (Hm s) as (c & [->|(limit & g & ->)]); exists c; [by left|right; by exists limit, g].
Qed.

Lemma yields_charge g : yields (charge g) (Ok tt).
Proof.
  intros s. unfold charge. destruct (Ctx.charge_node max_steps (step_counter s)) as [granted k]. exists k.
  destruct max_steps as [limit|]; [|by left]. destruct granted; [by left|right]. by exists limit, g.
Qed.

(** The leaves of a chain, as a function of its own. *)
Fixpoint chain_values (c : node R) : Eval (list Value) :=
  match c with
  | Node _ (EBinary Add inner_l inner_r) =>
      bind (chain_values inner_l) (fun values => bind (eval inner_r) (fun v => ret (values ++ [v])))
  | _ => bind (eval c) (fun v => ret [v])
  end.

Definition plain (op : Operator) : bool := match op with And | Or | Pipe => false | _ => true end.

Lemma eval_plain g op l r : plain op = true ->
  eval (Node g (EBinary op l r)) =
    bind (charge g) (fun _ =>
    bind (if is_add op && is_string_add_chain_head l && is_statically_string_expr (chain_leaf l)
          then bind (chain_values l) (fun values => bind (eval r) (fun v => ret (concat_leaves (values ++ [v]))))
          else ret None) (fun folded =>
    match folded with Some v => ret v | None => binary_operands (eval l) (eval r) op g l r end)).
Proof. destruct op; try done; intros _; reflexivity. Qed.

(** ** Values *)

Lemma yields_none {A} (k : option Value -> Eval A) r : yields (k None) r -> yields (bind (ret None) k) r.
Proof. done. Qed.

Lemma fold_int_range (n : node R) i : ints_ok n = true -> try_fold n = Ok (Some (CInt i)) -> Num.in_i64 i = true.
Proof.
  assert (Hc : forall v op (g : R) j, checked_int v op g = Ok (Some (CInt j)) ->
    (forall x, v = Some x -> Num.in_i64 x = true) -> Num.in_i64 j = true).
  { intros [v|] op g j Hv Hx; [|done]. injection Hv as <-. by apply Hx. }
  assert (Hck : forall v x, checked v = Some x -> Num.in_i64 x = true).
  { unfold checked. intros v x. destruct (Num.in_i64 v) eqn:E; [|done]. by intros [= <-]. }
  revert i. induction n as [g e He|g op l r IHl IHr|g op j IHj|g c t e IHc IHt IHe] using node_ind2; intros i Hok Hf.
  - destruct e; try done. simpl in *. by injection Hf as <-.
  - simpl in Hok. apply andb_true_iff in Hok as [Hl Hr]. cbn [try_fold] in Hf.
    destruct (try_fold l) as [[a|]| |]; try done; destruct (try_fold r) as [[b|]| |]; try done; cbn [Prelude.bind] in Hf.
    destruct op, a, b; try done; simpl in Hf; repeat case_match; try done; eapply Hc; try exact Hf; try apply Hck.
    + unfold checked_div. intros x. destruct (_ =? 0); [done|apply Hck].
    + intros x. unfold checked_rem. destruct (_ || _); [done|]. intros [= <-].
      specialize (IHr _ Hr eq_refl). unfold Num.in_i64, Num.I64_MAX in *.
      match goal with |- context [Z.rem ?u ?v] => pose proof (Z.rem_bound_abs u v) end. lia.
  - simpl in Hok. cbn [try_fold] in Hf. destruct (try_fold j) as [[a|]| |]; try done. cbn [Prelude.bind] in Hf.
    destruct op, a; try done; simpl in Hf. eapply Hc; [exact Hf|apply Hck].
  - simpl in Hok. rewrite !andb_true_iff in Hok. destruct Hok as [[Hoc Ht] He]. cbn [try_fold] in Hf.
    destruct (try_fold c) as [[[| |[]|]|]| |]; try done; cbn [Prelude.bind] in Hf; auto.
Qed.

Definition const_ok (c : ConstValue) : Prop := match c with CInt i => Num.in_i64 i = true | _ => True end.

Lemma fold_ok (n : node R) c : ints_ok n = true -> try_fold n = Ok (Some c) -> const_ok c.
Proof. intros Hn Hf. destruct c; try done. by eapply fold_int_range. Qed.

(** The operators on constants: every value of the fold is the value of the evaluator. *)
Lemma binary_const op a b (g lr rr : R) c :
  plain op = true -> const_ok b -> fails_at_runtime op a b = false -> apply_binary op a b g = Ok (Some c) ->
  yields (binary_values op g (value_of a) lr (value_of b) rr) (Ok (value_of c)).
Proof.
  intros Hp Hb Hz Hf.
  destruct op, a as [i|f|x|s], b as [j|f'|x'|s']; try done; simpl in Hf;
    try (injection Hf as <-; apply yields_ret);
    try (simpl; unfold or_default; apply yields_none; cbn; injection Hf as <-; apply (yields_lift (Ok _)));
    unfold checked_int in Hf; simpl; unfold or_default; apply yields_none; unfold binary_values; cbn.
  all: try (destruct (checked _); [|done]; injection Hf as <-; apply (yields_lift (Ok _))).
  all: unfold eval_numeric_division; cbn [expect_number Prelude.bind as_f64]; simpl in Hz.
  all: rewrite ?andb_true_r in Hz; rewrite ?Hz; rewrite ?zero_divisor by done.
  all: try (injection Hf as <-; apply (yields_lift (Ok _))).
  all: destruct (_ =? 0); [done|]; destruct (_ i j); [|done]; injection Hf as <-; apply (yields_lift (Ok _)).
Qed.

Lemma unary_const op a (g nr : R) c : apply_unary op a g = Ok (Some c) ->
  eval_unary op g (value_of a) nr = Ok (value_of c).
Proof.
  destruct op, a as [i|f|x|s]; try done; simpl; unfold checked_int, or_overflow.
  - destruct (checked (- i)); [|done]. by intros [= <-].
  - by intros [= <-].
  - by intros [= <-].
Qed.

(** ** Expressions *)

Lemma as_strings_app vs ws : as_strings (vs ++ ws) =
  match as_strings vs, as_strings ws with Some a, Some b => Some (a ++ b) | _, _ => None end.
Proof.
  induction vs as [|v vs IH]; simpl; [by destruct (as_strings ws)|]. destruct v; try done.
  rewrite IH. by destruct (as_strings vs), (as_strings ws).
Qed.

(** What a chain of additions with a literal at its left end gives, as leaves. *)
Definition chain_ok (n : node R) (c : ConstValue) : Prop :=
  exists vs ss, yields (chain_values n) (Ok vs) /\ as_strings vs = Some ss /\
    c = CString (foldl (fun buf s => buf +:+ s) EmptyString ss).

Lemma chain_add (g : R) l r a b :
  chain_ok l a -> yields (eval r) (Ok (value_of b)) -> forall c, apply_binary Add a b g = Ok (Some c) ->
  chain_ok (Node g (EBinary Add l r)) c /\
  yields (bind (chain_values l) (fun values => bind (eval r) (fun v => ret (concat_leaves (values ++ [v])))))
    (Ok (Some (value_of c))).
Proof.
  intros (vs & ss & Hl & Hs & ->) Hr c Hf. destruct b as [| | |s]; try done. injection Hf as <-.
  assert (Has : as_strings (vs ++ [value_of (CString s)]) = Some (ss ++ [s])) by (by rewrite as_strings_app, Hs).
  split.
  - exists (vs ++ [VString s]), (ss ++ [s]). split_and!; [|done|by rewrite foldl_app].
    cbn [chain_values]. do 2 (eapply eval_yields_bind; [eassumption|]). apply yields_ret.
  - do 2 (eapply eval_yields_bind; [eassumption|]).
    replace (Some (value_of _)) with (concat_leaves (vs ++ [value_of (CString s)])); [apply yields_ret|].
    unfold concat_leaves. rewrite Has. by rewrite foldl_app.
Qed.

Lemma eval_leaf (g : R) e : compound e = false -> forall c, try_fold (Node g e) = Ok (Some c) ->
  yields (eval (Node g e)) (Ok (value_of c)).
Proof.
  intros He c Hf. destruct e; try done; injection Hf as <-; cbn [eval]; (eapply eval_yields_bind; [apply yields_charge|apply yields_ret]).
Qed.

(** What folds evaluates to it; and a folded chain gives its leaves. *)
Lemma fold_yields (n : node R) : ints_ok n = true -> risky n = false -> forall c, try_fold n = Ok (Some c) ->
  yields (eval n) (Ok (value_of c)) /\ (is_statically_string_expr (chain_leaf n) = true -> chain_ok n c).
Proof.
  induction n as [g e He|g op l r IHl IHr|g op j IHj|g co t e IHc IHt IHe] using node_ind2; intros Hok Hz c Hf.
  - pose proof (eval_leaf g e He c Hf) as Hy. split; [done|]. intros Hst. destruct e; try done. injection Hf as <-.
    exists [VString s], [s]. split_and!; [|done|done]. cbn [chain_values]. eapply eval_yields_bind; [exact Hy|apply yields_ret].
  - simpl in Hok. apply andb_true_iff in Hok as [Hol Hor].
    cbn [risky try_fold] in Hz, Hf. apply orb_false_iff in Hz as [[Hzl Hzr]%orb_false_iff Hz].
    destruct (try_fold l) as [[a|]| |] eqn:El; try done; destruct (try_fold r) as [[b|]| |] eqn:Er; try done.
    cbn [Prelude.bind] in Hf. destruct (IHl Hol Hzl a eq_refl) as [Ya Ca]. destruct (IHr Hor Hzr b eq_refl) as [Yb _].
    pose proof (fold_ok r b Hor Er) as Hb.
    assert (Yop : plain op = true -> yields (binary_operands (eval l) (eval r) op g l r) (Ok (value_of c))).
    { intros Hp. unfold binary_operands. eapply eval_yields_bind; [exact Ya|].
      replace (extends_schema op (value_of a) r) with false by (by destruct op, a).
      eapply eval_yields_bind; [exact Yb|]. by apply binary_const. }
    split.
    + destruct (plain op) eqn:Hp.
      * rewrite eval_plain by done. eapply eval_yields_bind; [apply yields_charge|].
        destruct (is_add op && _ && _) eqn:Ec; [|apply yields_none; auto].
        apply andb_true_iff in Ec as [[Ho _]%andb_true_iff Hst]. destruct op; try done.
        eapply eval_yields_bind; [apply (chain_add g l r a b (Ca Hst) Yb c Hf)|apply yields_ret].
      * destruct op; try done; destruct a as [| |x|]; try done; destruct b as [| |x'|]; try done; injection Hf as <-;
          cbn [eval]; (eapply eval_yields_bind; [apply yields_charge|]); (eapply eval_yields_bind; [exact Ya|]);
          destruct x; simpl; (apply yields_ret || exact Yb).
    + intros Hst. destruct op; try done. by apply (chain_add g l r a b (Ca Hst) Yb).
  - simpl in Hok, Hz. cbn [try_fold] in Hf. destruct (try_fold j) as [[a|]| |]; try done. cbn [Prelude.bind] in Hf.
    split; [|done]. cbn [eval]. eapply eval_yields_bind; [apply yields_charge|].
    eapply eval_yields_bind; [by apply (IHj Hok Hz a)|]. rewrite (unary_const _ _ _ (range_of j) _ Hf). apply (yields_lift (Ok _)).
  - simpl in Hok, Hz. rewrite !andb_true_iff in Hok. rewrite !orb_false_iff in Hz.
    destruct Hok as [[Oc Ot] Oe], Hz as [[Zc Zt] Ze]. cbn [try_fold] in Hf.
    destruct (try_fold co) as [[[| |x|]|]| |]; try done. cbn [Prelude.bind] in Hf.
    split; [|done]. cbn [eval]. eapply eval_yields_bind; [apply yields_charge|].
    eapply eval_yields_bind; [by apply (IHc Oc Zc (CBool x))|]. destruct x; simpl; [by apply IHt|by apply IHe].
Qed.

(** ** Errors *)

(** The expression [m], when evaluated, fails the way the fold reports. *)
Definition fails_as (e : FoldError R) (m : node R) : Prop :=
  match e with
  | DivByZero g => range_of m = g /\ exists dr, yields (eval m) (Err (Runtime (DivisionByZero dr)))
  | Overflow _ g => range_of m = g /\ yields (eval m) (Err (Runtime (NumericOverflow g)))
  end.

Definition matches_error (e : FoldError R) (g : R) (r : outcome (EvalError R Foreign) Value) : Prop :=
  match e with
  | DivByZero g' => g' = g /\ exists dr, r = Err (Runtime (DivisionByZero dr))
  | Overflow _ g' => g' = g /\ r = Err (Runtime (NumericOverflow g))
  end.

Lemma binary_const_err op a b (g lr rr : R) e : const_ok b -> apply_binary op a b g = Err e ->
  exists i j r, a = CInt i /\ b = CInt j /\ plain op = true /\ matches_error e g r /\
    yields (binary_values op g (value_of a) lr (value_of b) rr) r.
Proof.
  intros Hb Hf. destruct op, a as [i|f|x|s], b as [j|f'|x'|s']; try done; exists i, j.
  all: simpl in Hf; unfold checked_int in Hf; simpl; unfold or_default.
  1-3: destruct (checked _) eqn:Ec; [done|]; injection Hf as <-;
    exists (Err (Runtime (NumericOverflow g))); split_and!; try done; apply yields_none;
    unfold eval_numeric_arithmetic; cbn [expect_number Prelude.bind]; rewrite Ec; apply (yields_lift (Err _)).
  all: unfold eval_numeric_division; cbn [expect_number Prelude.bind as_f64]; rewrite zero_divisor by done.
  all: destruct (j =? 0) eqn:Ej.
  1,3: injection Hf as <-; exists (Err (Runtime (DivisionByZero rr))); split_and!; try done;
    [split; [done|by eexists]|apply yields_none, (yields_lift (Err _))].
  all: match type of Hf with (match ?t with _ => _ end) = _ => destruct t eqn:Ec; [done|] end; injection Hf as <-;
    exists (Err (Runtime (NumericOverflow g))); split_and!; try done; apply yields_none; simpl;
    apply (yields_lift (Err _)).
Qed.

Lemma fold_err (n : node R) e : ints_ok n = true -> risky n = false -> try_fold n = Err e ->
  exists m, occurs m n /\ fails_as e m.
Proof.
  induction n as [g ex He|g op l r IHl IHr|g op j IHj|g co t el IHc IHt IHe] using node_ind2; intros Hok Hz Hf.
  - by destruct ex.
  - simpl in Hok. apply andb_true_iff in Hok as [Hol Hor].
    cbn [risky try_fold] in Hz, Hf. apply orb_false_iff in Hz as [[Hzl Hzr]%orb_false_iff Hz].
    destruct (try_fold l) as [ov|e'|] eqn:El; try done; cbn [Prelude.bind] in Hf.
    2: { injection Hf as ->. destruct (IHl Hol Hzl eq_refl) as (m & Hm & Hfa). exists m. split; [by constructor|done]. }
    destruct (try_fold r) as [ov'|e'|] eqn:Er; try done; cbn [Prelude.bind] in Hf.
    2: { injection Hf as ->. destruct (IHr Hor Hzr eq_refl) as (m & Hm & Hfa). exists m. split; [by constructor|done]. }
    destruct ov as [a|], ov' as [b|]; try done. pose proof (fold_ok r b Hor Er) as Hb.
    destruct (binary_const_err op a b g (range_of l) (range_of r) e Hb Hf) as (i & j & res & -> & -> & Hp & Hm & Hy).
    destruct (fold_yields l Hol Hzl _ El) as [Yl Cl]. destruct (fold_yields r Hor Hzr _ Er) as [Yr _].
    assert (Hev : yields (eval (Node g (EBinary op l r))) res).
    { rewrite eval_plain by done. eapply eval_yields_bind; [apply yields_charge|].
      destruct (is_add op && _ && _) eqn:Ec.
      - apply andb_true_iff in Ec as [_ Hst]. by destruct (Cl Hst) as (vs & ss & _ & _ & Hcc).
      - apply yields_none. unfold binary_operands. eapply eval_yields_bind; [exact Yl|].
        replace (extends_schema op (value_of (CInt i)) r) with false by (by destruct op).
        eapply eval_yields_bind; [exact Yr|exact Hy]. }
    exists (Node g (EBinary op l r)). split; [constructor|].
    destruct e as [g'|o g']; destruct Hm as [-> Hm]; (split; [done|]).
    + destruct Hm as [dr ->]. by exists dr.
    + by rewrite Hm in Hev.
  - simpl in Hok, Hz. cbn [try_fold] in Hf. destruct (try_fold j) as [ov|e'|] eqn:Ej; try done; cbn [Prelude.bind] in Hf.
    2: { injection Hf as ->. destruct (IHj Hok Hz eq_refl) as (m & Hm & Hfa). exists m. split; [by constructor|done]. }
    destruct ov as [a|]; [|done]. destruct (fold_yields j Hok Hz a Ej) as [Ya _].
    destruct op, a; try done. simpl in Hf. unfold checked_int in Hf. destruct (checked (- i)) eqn:Ec; [done|].
    injection Hf as <-. exists (Node g (EUnary Sub j)). split; [constructor|]. split; [done|]. cbn [eval].
    eapply eval_yields_bind; [apply yields_charge|]. eapply eval_yields_bind; [exact Ya|]. simpl. rewrite Ec. apply (yields_lift (Err _)).
  - simpl in Hok, Hz. rewrite !andb_true_iff in Hok. rewrite !orb_false_iff in Hz.
    destruct Hok as [[Oc Ot] Oe], Hz as [[Zc Zt] Ze]. cbn [try_fold] in Hf.
    destruct (try_fold co) as [ov|e'|] eqn:Ec; try done; cbn [Prelude.bind] in Hf.
    2: { injection Hf as ->. destruct (IHc Oc Zc eq_refl) as (m & Hm & Hfa). exists m. split; [by constructor|done]. }
    destruct ov as [[| |[]|]|]; try done.
    + destruct (IHt Ot Zt Hf) as (m & Hm & Hfa). exists m. split; [by apply occ_then|done].
    + destruct (IHe Oe Ze Hf) as (m & Hm & Hfa). exists m. split; [by apply occ_else|done].
Qed.
End Agreement.

(** ** Properties *)

Section Properties.
Context {H : HostTypes} {R : Type} {Ev : Evaluator R}.

Lemma fold_returns (n : node R) : try_fold n <> Abort.
Proof.
  induction n as [g e He|g op l r IHl IHr|g op j IHj|g c t e IHc IHt IHe] using node_ind2.
  - by destruct e.
  - cbn [try_fold]. destruct (try_fold l) as [[a|]| |], (try_fold r) as [[b|]| |]; try done. cbn [Prelude.bind].
    destruct op, a, b; simpl; unfold checked_int, float; by repeat case_match.
  - cbn [try_fold]. destruct (try_fold j) as [[a|]| |]; try done. destruct op, a; simpl; unfold checked_int, float; by repeat case_match.
  - cbn [try_fold]. destruct (try_fold c) as [[[| |[]|]|]| |]; done.
Qed.

(** C39 Constant folding is sound for the evaluator: whatever the evaluator does beyond the
    operators, an expression of [i64] literals that folds to a value evaluates to that value,
    and when the fold reports an error, the expression it points at fails with that error,
    if the step budget lets it finish; excepted are divisions of floats by zero and the
    retired [++], which the fold accepts and evaluation refuses. *)
Theorem const_fold_sound (n : node R) :
  ints_ok n = true -> risky n = false ->
  match try_fold n with
  | Ok (Some c) => yields (eval n) (Ok (value_of c))
  | Ok None => True
  | Err e => exists m, occurs m n /\ fails_as e m
  | Abort => False
  end.
Proof.
  intros Hok Hz. destruct (try_fold n) as [[c|]|e|] eqn:E; [|done| |by apply fold_returns in E].
  - by apply fold_yields.
  - by apply fold_err.
Qed.

(** The fold and the evaluator disagree on floats divided by zero: [1.0 / 0.0] folds to
    infinity, and evaluation reports a division by zero. *)
Theorem float_zero_division_folds (g gl gr : R) :
  let n := Node g (EBinary Div (Node gl (EFloat 4607182418800017408)) (Node gr (EFloat 0))) in
  try_fold n = Ok (Some (CFloat Num.F64_INFINITY)) /\ yields (eval n) (Err (Runtime (DivisionByZero gr))).
Proof.
  intros n. split; [by vm_compute|]. unfold n. rewrite eval_plain by done. eapply eval_yields_bind; [apply yields_charge|].
  apply yields_none. unfold binary_operands.
  eapply eval_yields_bind; [exact (eval_leaf gl (EFloat 4607182418800017408) eq_refl (CFloat _) eq_refl)|]. cbn [extends_schema value_of].
  eapply eval_yields_bind; [exact (eval_leaf gr (EFloat 0) eq_refl (CFloat 0) eq_refl)|]. cbn [value_of].
  apply (yields_lift (Err (DivisionByZero gr))).
Qed.
End Properties.

(** An evaluator that knows only the operators, for concrete runs. *)
Definition bare_evaluator (limit : option Z) : @Evaluator unit_host unit :=
  {| World := unit; Foreign := unit; max_steps := limit;
     eval_other := fun _ s => (Err (ForeignError tt), s);
     call_method := fun _ _ _ _ _ s => (Ok None, s);
     merge_dicts := fun _ _ _ s => (Err (ForeignError tt), s);
     extend_schema := fun _ _ s => (Err (ForeignError tt), s);
     merge_schemas := fun a _ => a;
     value_eq := fun _ _ => false;
     display := fun v => match v with VBool true => "true" | VBool false => "false" | _ => "?" end |}.

(** [(1 + 2) * 3 / 0], and the chain ["a" + "b" + "c"]. *)
Definition lit_int (k : Z) : node unit := Node tt (EInt k).
Definition lit_str (x : string) : node unit := Node tt (EString x).
Definition op2 (op : Operator) (l r : node unit) : node unit := Node tt (EBinary op l r).
Definition sample_division : node unit := op2 Div (op2 Mul (op2 Add (lit_int 1) (lit_int 2)) (lit_int 3)) (lit_int 0).
Definition sample_chain : node unit := op2 Add (op2 Add (lit_str "a") (lit_str "b")) (lit_str "c").

Lemma const_fold_sound_witness :
  (exists k, occurs k sample_division /\ @fails_as _ _ (bare_evaluator None) (DivByZero tt) k) /\
  @yields _ _ (bare_evaluator None) _ (eval sample_chain) (Ok (VString "abc")).
Proof.
  exact (conj (@const_fold_sound _ _ (bare_evaluator None) sample_division eq_refl eq_refl)
              (@const_fold_sound _ _ (bare_evaluator None) sample_chain eq_refl eq_refl)).
Defined.
