(* ===== verification/ConcatChain.v ===== *)
(** The fast path for chains of string concatenations: it computes what the plain walk
    computes, and what its fallback costs. *)

From Stdlib Require Import ZArith Lia Bool.
From stdpp Require Import base list strings.
From S2P Require Import Prelude Bytes SchemaCanonical Value Arith Context Operators ConstFold.
Local Open Scope Z_scope.
Local Open Scope abi_scope.

Import Arith Operators.

Section Reference.
Context {H : HostTypes} {R : Type} {Ev : Evaluator R}.

(** Evaluation without the fast path. *)
Fixpoint eval_ref (n : node R) : Eval Value :=
  match n with
  | Node range e =>
      bind (charge range) (fun _ =>
      match e with
      | EBinary And l r => bind (eval_ref l) (fun v => if negb (is_truthy v) then ret v else eval_ref r)
      | EBinary Or l r => bind (eval_ref l) (fun v => if is_truthy v then ret v else eval_ref r)
      | EBinary Pipe _ _ => eval_other n
      | EBinary op l r => binary_operands (eval_ref l) (eval_ref r) op range l r
      | EUnary op i => bind (eval_ref i) (fun v => lift (eval_unary op range v (range_of i)))
      | ETernary c t e => bind (eval_ref c) (fun v => if is_truthy v then eval_ref t else eval_ref e)
      | EMissing => fail (ValidationError "`null` is not a Relon value; use None with an Option<T> target type" range)
      | EBool b => ret (VBool b)
      | EInt i => ret (VInt i)
      | EFloat f => ret (VFloat f)
      | EString s => ret (VString s)
      | EDict _ | EFString _ | EOther _ => eval_other n
      end)
  end.

(** What the other code is assumed to do: it changes no state, and an f-string is a string. *)
Definition still {A} (m : Eval A) : Prop := forall s, snd (m s) = s.

Hypothesis Hsteps : max_steps = None.
Hypothesis Hother : forall n, still (eval_other n).
Hypothesis Hmethod : forall a b c d g, still (call_method a b c d g).
Hypothesis Hmerge : forall a b g, still (merge_dicts a b g).
Hypothesis Hextend : forall a n, still (extend_schema a n).
Hypothesis Hfstring : forall g i s v, fst (eval_other (Node g (EFString i)) s) = Ok v -> exists x, v = VString x.

Lemma still_bind {A B} (m : Eval A) (k : A -> Eval B) : still m -> (forall a, still (k a)) -> still (bind m k).
Proof.
  intros Hm Hk s. unfold bind. specialize (Hm s). destruct (m s) as [[a|e|] s']; simpl in *; subst; [apply Hk|done|done].
Qed.

Lemma still_ret {A} (a : A) : still (ret a).
Proof. done. Qed.

Lemma still_lift {A} (m : outcome RuntimeError A) : still (lift m).
Proof. done. Qed.

Lemma charge_free g s : charge (Ev := Ev) g s = (Ok tt, s).
Proof. unfold charge. rewrite Hsteps. by destruct s. Qed.

Lemma still_charge g : still (charge g).
Proof. intros s. by rewrite charge_free. Qed.

Lemma still_method a b name g : still (try_branded_binary_method a b name g).
Proof. destruct a; try apply still_ret. simpl. destruct (dict_brand d); [apply Hmethod|apply still_ret]. Qed.

Lemma still_default m d : still m -> still d -> still (or_default m d).
Proof. intros Hm Hd. apply still_bind; [done|]. intros [v|]; [apply still_ret|done]. Qed.

Lemma still_values op g l lr r rr : still (binary_values op g l lr r rr).
Proof.
  assert (Hle : forall b, still (try_le_ge_lowering l r g b)).
  { intros b. unfold try_le_ge_lowering. destruct b; (apply still_bind; [apply still_method|]);
      (intros [v|]; [apply still_bind; [apply still_method|intros; apply still_ret]|apply still_ret]). }
  destruct op; cbn [binary_values]; try (apply still_default; [first [apply still_method | apply Hle]|done]); try done.
  - destruct l, r; try apply still_ret; (apply still_default; [apply still_method|first [apply Hmerge | apply still_lift]]).
  - apply still_bind; [apply still_method|]. intros [v|]; apply still_ret.
Qed.

Lemma still_operands m1 m2 op g l r : still m1 -> still m2 -> still (binary_operands m1 m2 op g l r).
Proof.
  intros H1 H2. apply still_bind; [done|]. intros v. destruct (extends_schema op v r); [apply Hextend|].
  apply still_bind; [done|]. intros w. apply still_values.
Qed.

Lemma still_ref n : still (eval_ref n).
Proof.
  induction n as [g e He|g op l r IHl IHr|g op j IHj|g c t e IHc IHt IHe] using node_ind2; cbn [eval_ref];
    (apply still_bind; [apply still_charge|]); intros _.
  - destruct e; try done; apply Hother.
  - destruct op; try (by apply still_operands); try apply Hother;
      (apply still_bind; [done|]); intros v; destruct (is_truthy v); simpl; done.
  - apply still_bind; [done|]. intros v. apply still_lift.
  - apply still_bind; [done|]. intros v. by destruct (is_truthy v).
Qed.

(** Running a program that changes no state. *)
Lemma run_still {A} (m : Eval A) s : still m -> m s = (fst (m s), s).
Proof. intros Hm. specialize (Hm s). destruct (m s). simpl in *. by subst. Qed.

Lemma run_bind {A B} (m : Eval A) (k : A -> Eval B) s : still m ->
  bind m k s = match fst (m s) with Ok a => k a s | Err e => (Err e, s) | Abort => (Abort, s) end.
Proof. intros Hm. unfold bind. rewrite (run_still m s Hm). simpl. by destruct (fst (m s)). Qed.

Definition joined (vs : list Value) (str : string) : Prop :=
  forall ss, as_strings vs = Some ss -> str = foldl (fun buf s => buf +:+ s) EmptyString ss.

(** The leaves of a chain against its plain evaluation. *)
Definition chain_spec (c : node R) (s : state World) : Prop :=
  match fst (chain_values c s) with
  | Ok vs => exists str, eval_ref c s = (Ok (VString str), s) /\ joined vs str
  | Err e => eval_ref c s = (Err e, s)
  | Abort => eval_ref c s = (Abort, s)
  end /\ snd (chain_values c s) = s.

Lemma ref_add g l r s : eval_ref (Node g (EBinary Add l r)) s = binary_operands (eval_ref l) (eval_ref r) Add g l r s.
Proof. cbn [eval_ref]. by rewrite run_bind, charge_free by apply still_charge. Qed.

(** An addition to a string: it appends, whatever the right operand is. *)
Lemma ref_append g l r s a : eval_ref l s = (Ok (VString a), s) ->
  eval_ref (Node g (EBinary Add l r)) s =
    (match fst (eval_ref r s) with
     | Ok v => Ok (VString (a +:+ match v with VString b => b | _ => display v end))
     | Err e => Err e | Abort => Abort end, s).
Proof.
  intros El. rewrite ref_add. unfold binary_operands. rewrite run_bind, El by apply still_ref. cbn [fst extends_schema].
  rewrite run_bind by apply still_ref. destruct (fst (eval_ref r s)) as [v| |]; [|done|done]. by destruct v.
Qed.

Lemma ref_stops g l r s : (forall v, fst (eval_ref l s) <> Ok v) ->
  eval_ref (Node g (EBinary Add l r)) s = (fst (eval_ref l s), s).
Proof.
  intros Hn. rewrite ref_add. unfold binary_operands. rewrite run_bind by apply still_ref.
  destruct (fst (eval_ref l s)) as [v| |] eqn:E; [by destruct (Hn v)|done|done].
Qed.

Lemma joined_snoc vs str v : joined vs str ->
  joined (vs ++ [v]) (str +:+ match v with VString b => b | _ => display v end).
Proof.
  intros Hj ss Hs. rewrite as_strings_app in Hs. destruct (as_strings vs) as [ss'|] eqn:E; [|done].
  simpl in Hs. destruct v; try done. injection Hs as <-. by rewrite foldl_app, (Hj ss' E).
Qed.

Lemma chain_leaf_spec g e s : compound e = false -> is_statically_string_expr (Node g e) = true ->
  (forall s, eval (Node g e) s = eval_ref (Node g e) s) -> chain_spec (Node g e) s.
Proof.
  intros He Hst Heq. assert (Hc : chain_values (Node g e) s = bind (eval (Node g e)) (fun v => ret [v]) s) by (by destruct e).
  unfold chain_spec. rewrite Hc. unfold bind. rewrite Heq, (run_still (eval_ref _) s (still_ref _)).
  destruct (fst (eval_ref (Node g e) s)) as [v|e'|] eqn:E; simpl; [|done|done]. split; [|done].
  assert (exists x, v = VString x) as [x ->].
  { cbn [eval_ref] in E. rewrite run_bind, charge_free in E by apply still_charge. simpl in E. destruct e; try done.
    - injection E as <-. by eexists.
    - by apply Hfstring in E. }
  exists x. split; [done|]. intros ss [= <-]. done.
Qed.

Lemma chain_add_spec g l r s : chain_spec l s -> (forall s, eval r s = eval_ref r s) ->
  chain_spec (Node g (EBinary Add l r)) s.
Proof.
  intros [Hl Hsl] Hr. unfold chain_spec. cbn [chain_values]. unfold bind at 1 3.
  destruct (chain_values l s) as [[vs|e|] s1]; cbn [fst snd] in *; subst s1.
  - destruct Hl as (str & El & Hj). rewrite (ref_append g l r s str El). unfold bind. rewrite Hr.
    rewrite (run_still (eval_ref r) s (still_ref r)). destruct (fst (eval_ref r s)) as [v| |]; cbn [fst snd ret]; [|done|done].
    split; [|done]. eexists. split; [done|]. by apply joined_snoc.
  - split; [|done]. rewrite ref_stops; rewrite Hl; done.
  - split; [|done]. rewrite ref_stops; rewrite Hl; done.
Qed.

(** The fast path as a whole: when it folds, it folds to the plain result. *)
Lemma fold_step g l r s : chain_spec l s -> (forall s, eval r s = eval_ref r s) ->
  bind (bind (chain_values l) (fun values => bind (eval r) (fun v => ret (concat_leaves (values ++ [v])))))
    (fun folded => match folded with Some v => ret v | None => binary_operands (eval_ref l) (eval_ref r) Add g l r end) s
  = eval_ref (Node g (EBinary Add l r)) s.
Proof.
  intros [Hl Hsl] Hr. unfold bind at 1 2. destruct (chain_values l s) as [[vs|e|] s1]; cbn [fst snd] in *; subst s1.
  - destruct Hl as (str & El & Hj). unfold bind at 1. rewrite Hr, (run_still (eval_ref r) s (still_ref r)).
    destruct (fst (eval_ref r s)) as [v| |] eqn:Er.
    + cbn [ret]. unfold concat_leaves. destruct (as_strings (vs ++ [v])) as [ss|] eqn:Es; [|by rewrite ref_add].
      rewrite (ref_append g l r s str El), Er. unfold ret. by rewrite (joined_snoc vs str v Hj ss Es).
    + by rewrite (ref_append g l r s str El), Er.
    + by rewrite (ref_append g l r s str El), Er.
  - rewrite ref_stops; rewrite Hl; done.
  - rewrite ref_stops; rewrite Hl; done.
Qed.

Lemma eval_bind_ext {A B} (m m' : Eval A) (k k' : A -> Eval B) s :
  m s = m' s -> (forall a s, k a s = k' a s) -> bind m k s = bind m' k' s.
Proof. intros Hm Hk. unfold bind. rewrite Hm. by destruct (m' s) as [[a| |] s']. Qed.

Lemma operands_ext op g l r s : (forall s, eval l s = eval_ref l s) -> (forall s, eval r s = eval_ref r s) ->
  binary_operands (eval l) (eval r) op g l r s = binary_operands (eval_ref l) (eval_ref r) op g l r s.
Proof.
  intros Hl Hr. apply eval_bind_ext; [done|]. intros v s'. destruct (extends_schema op v r); [done|]. by apply eval_bind_ext.
Qed.

Lemma eval_is_ref n : (forall s, eval n s = eval_ref n s) /\
  (is_statically_string_expr (chain_leaf n) = true -> forall s, chain_spec n s).
Proof.
  induction n as [g e He|g op l r [IHl Cl] [IHr _]|g op j [IHj _]|g c t e [IHc _] [IHt _] [IHe _]] using node_ind2.
  - assert (Heq : forall s, eval (Node g e) s = eval_ref (Node g e) s) by (intros s; by destruct e). split; [done|].
    intros Hst s. apply chain_leaf_spec; [done| |done]. by destruct e.
  - split.
    + intros s. destruct (plain op) eqn:Hp.
      * rewrite eval_plain by done. rewrite run_bind, charge_free by apply still_charge. cbn [fst].
        transitivity (binary_operands (eval_ref l) (eval_ref r) op g l r s).
        2: { symmetry. destruct op; try done; cbn [eval_ref]; rewrite run_bind, charge_free by apply still_charge; done. }
        destruct (is_add op && _ && _) eqn:Ec.
        -- apply andb_true_iff in Ec as [[Ho _]%andb_true_iff Hst]. destruct op; try done.
           rewrite <-(ref_add g l r s), <-(fold_step g l r s (Cl Hst s) IHr). apply eval_bind_ext; [done|].
           intros [v|] s'; [done|]. by apply operands_ext.
        -- by apply operands_ext.
      * destruct op; try done; cbn [eval eval_ref]; (apply eval_bind_ext; [done|]); intros _ s'; try done;
          (apply eval_bind_ext; [done|]); intros v s''; destruct (is_truthy v); simpl; done.
    + intros Hst s. destruct op; try done. by apply chain_add_spec; [apply Cl|].
  - split; [|done]. intros s. cbn [eval eval_ref]. apply eval_bind_ext; [done|]. intros _ s'. by apply eval_bind_ext.
  - split; [|done]. intros s. cbn [eval eval_ref]. apply eval_bind_ext; [done|]. intros _ s'. apply eval_bind_ext; [done|].
    intros v s''. by destruct (is_truthy v).
Qed.
End Reference.

(** C40 The concatenation fast path changes no result when no step limit is set, the code an
    expression calls leaves the state alone and f-strings give strings: evaluation with the
    single-allocation fold of [+] chains then returns exactly what the operator-by-operator walk
    returns, values and errors alike, also for chains that mix strings with other values. Such
    mixed chains are evaluated twice, so that under a step limit, or with effects in the
    operands, the two differ ([mixed_chain_exponential]). *)
Theorem concat_chain_exact {H : HostTypes} {R : Type} {Ev : Evaluator R} (n : node R) (s : state World) :
  max_steps = None ->
  (forall n, still (eval_other n)) -> (forall a b c d g, still (call_method a b c d g)) ->
  (forall a b g, still (merge_dicts a b g)) -> (forall a n, still (extend_schema a n)) ->
  (forall g i s v, fst (eval_other (Node g (EFString i)) s) = Ok v -> exists x, v = VString x) ->
  eval n s = eval_ref n s.
Proof. intros H1 H2 H3 H4 H5 H6. by apply eval_is_ref. Qed.

Lemma concat_chain_exact_witness :
  @eval _ _ (bare_evaluator None) sample_chain (MkState 0 tt) = @eval_ref _ _ (bare_evaluator None) sample_chain (MkState 0 tt).
Proof. apply concat_chain_exact; done. Defined.

(** ** The cost of the fallback *)

(** [("a" + true) + (("a" + true) + ...)], [n] levels. *)
Fixpoint nest (n : nat) : node unit :=
  match n with
  | O => lit_str "a"
  | S n => op2 Add (op2 Add (lit_str "a") (Node tt (EBool true))) (nest n)
  end.

Fixpoint node_count {R} (n : node R) : nat :=
  match n with
  | Node _ e =>
      S match e with
        | EBinary _ l r => node_count l + node_count r
        | EUnary _ i => node_count i
        | ETernary c t e => node_count c + node_count t + node_count e
        | _ => 0
        end
  end.

Lemma nest_count n : node_count (nest n) = (4 * n + 1)%nat.
Proof. induction n as [|n IH]; [done|]. cbn [nest op2 node_count lit_str]. rewrite IH. lia. Qed.

Section Cost.
#[local] Existing Instance unit_host.
Context (limit : Z).
Hypothesis Hlimit : 0 <= limit < Ctx.U64.
#[local] Instance limited : @Evaluator unit_host unit := bare_evaluator (Some limit).

(** [m] charges exactly [c] steps and returns [v], or runs out of steps. *)
Definition costs {A} (c : Z) (m : Eval A) (v : A) : Prop := forall k w, 0 <= k <= limit ->
  (k + c <= limit /\ m (MkState k w) = (Ok v, MkState (k + c) w)) \/
  (limit < k + c /\ exists s, m (MkState k w) = (Err (StepLimitExceeded limit tt), s)).

Lemma costs_ret {A} (v : A) : costs 0 (ret v) v.
Proof. intros k w Hk. left. split; [lia|]. by rewrite Z.add_0_r. Qed.

Lemma costs_bind {A B} c c' (m : Eval A) (f : A -> Eval B) a b : 0 <= c -> 0 <= c' ->
  costs c m a -> costs c' (f a) b -> costs (c + c') (bind m f) b.
Proof.
  intros Hc Hc' Hm Hf k w Hk. unfold bind. destruct (Hm k w Hk) as [[Hl ->]|[Hl [s ->]]].
  - destruct (Hf (k + c) w ltac:(lia)) as [[Hl' ->]|[Hl' [s Hs]]].
    + left. split; [lia|]. by rewrite Z.add_assoc.
    + right. split; [lia|]. by exists s.
  - right. split; [lia|]. by exists s.
Qed.

Lemma costs_charge g : costs 1 (charge g) tt.
Proof.
  intros k w Hk. unfold charge, Ctx.charge_node. cbn [max_steps limited bare_evaluator]. unfold Ctx.fetch_add. cbn [step_counter Operators.world].
  destruct (Z.leb_spec limit k); cbn [negb].
  - right. split; [lia|]. destruct g. by eexists.
  - left. split; [lia|]. rewrite Z.mod_small by (unfold Ctx.U64 in *; lia). done.
Qed.

Lemma costs_leaf e v : compound e = false -> (forall s, eval (Node tt e) s = bind (charge tt) (fun _ => ret v) s) ->
  costs 1 (eval (Node tt e)) v.
Proof.
  intros He Heq k w Hk. rewrite Heq. apply (costs_bind 1 0 _ _ tt v ltac:(lia) ltac:(lia) (costs_charge tt) (costs_ret v) k w Hk).
Qed.

Fixpoint cost (n : nat) : Z := match n with O => 1 | S n => 2 * cost n + 6 end.
Fixpoint spelled (n : nat) : string := match n with O => "a" | S n => "atrue" +:+ spelled n end.

Lemma cost_pos n : 0 < cost n.
Proof. induction n; cbn [cost]; lia. Qed.

Lemma costs_ext {A} c c' (m m' : Eval A) v : (forall s, m s = m' s) -> c = c' -> costs c' m' v -> costs c m v.
Proof. intros Hm -> Hc k w Hk. rewrite Hm. by apply Hc. Qed.

Ltac run := first
  [ apply costs_ret
  | eapply costs_bind; [| |apply costs_charge|]; [lia|..]
  | eapply costs_bind; [| |eassumption|]; [lia|..] ].

(** Each level evaluates its right operand twice. *)
Lemma nest_costs n : costs (cost n) (eval (nest n)) (VString (spelled n)).
Proof.
  assert (Ha : costs 1 (eval (lit_str "a")) (VString "a")) by (apply costs_leaf; done).
  assert (Ht : costs 1 (eval (Node tt (EBool true))) (VBool true)) by (apply costs_leaf; done).
  set (left := op2 Add (lit_str "a") (Node tt (EBool true))).
  assert (Hl : costs 3 (eval left) (VString "atrue")).
  { unfold left, op2. rewrite eval_plain by done. cbn [is_add is_string_add_chain_head lit_str expr_of andb].
    change 3 with (1 + (0 + (1 + (1 + 0)))). run; [lia|]. apply (costs_bind _ _ _ _ None); [lia|lia|apply costs_ret|].
    unfold binary_operands. run; [lia|]. cbn [extends_schema]. run; [lia|]. apply costs_ret. }
  induction n as [|n IH]; [exact Ha|]. cbn [nest]. fold left. unfold op2. rewrite eval_plain by done.
  pose proof (cost_pos n). cbn [cost spelled].
  replace (2 * cost n + 6) with (1 + ((2 + (cost n + 0)) + (3 + (cost n + 0)))) by lia. run; [lia|].
  apply (costs_bind _ _ _ _ None); [lia|lia| |].
  - cbn [is_add is_string_add_chain_head left op2 expr_of andb chain_leaf is_statically_string_expr lit_str].
    apply (costs_bind _ _ _ _ [VString "a"; VBool true]); [lia|lia| |].
    + change 2 with ((1 + 0) + (1 + 0)). cbn [chain_values].
      apply (costs_bind _ _ _ _ [VString "a"]); [lia|lia| |].
      * run; [lia|]. apply costs_ret.
      * run; [lia|]. apply costs_ret.
    + run; [lia|]. apply costs_ret.
  - unfold binary_operands. run; [lia|]. cbn [extends_schema]. run; [lia|]. apply costs_ret.
Qed.
End Cost.

Lemma cost_exact n : cost n = 7 * 2 ^ Z.of_nat n - 6.
Proof. induction n as [|n IH]; [done|]. cbn [cost]. rewrite IH, Nat2Z.inj_succ, Z.pow_succ_r by lia. lia. Qed.

(** The fallback of the concatenation fast path is exponential: an expression of [4 n + 1]
    nodes that mixes strings with other values, nested [n] deep on the right, takes exactly
    [7 * 2 ^ n - 6] steps, because every level evaluates its right operand once for the
    attempt and once for the plain walk; with a budget of [2 ^ n] steps it is cut off. *)
Theorem mixed_chain_exponential n :
  (0 < n < 60)%nat ->
  node_count (nest n) = (4 * n + 1)%nat /\
  (forall limit, 7 * 2 ^ Z.of_nat n - 6 <= limit < Ctx.U64 ->
     @eval _ _ (bare_evaluator (Some limit)) (nest n) (MkState 0 tt) =
       (Ok (VString (spelled n)), MkState (7 * 2 ^ Z.of_nat n - 6) tt)) /\
  exists s, @eval _ _ (bare_evaluator (Some (2 ^ Z.of_nat n))) (nest n) (MkState 0 tt) =
    (Err (StepLimitExceeded (2 ^ Z.of_nat n) tt), s).
Proof.
  intros Hn. assert (Hp : 2 <= 2 ^ Z.of_nat n <= 2 ^ 59).
  { split; [change 2 with (2 ^ 1) at 1; apply Z.pow_le_mono_r; lia|apply Z.pow_le_mono_r; lia]. }
  split_and!; [apply nest_count| |].
  - intros limit Hl. destruct (nest_costs limit ltac:(lia) n 0 tt ltac:(lia)) as [[_ E]|[Hc _]].
    + etransitivity; [exact E|]. by rewrite cost_exact.
    + rewrite cost_exact in Hc. lia.
  - destruct (nest_costs (2 ^ Z.of_nat n) ltac:(unfold Ctx.U64; lia) n 0 tt ltac:(lia)) as [[Hc _]|[_ E]]; [|exact E].
    rewrite cost_exact in Hc. lia.
Qed.

Lemma mixed_chain_exponential_witness :
  node_count (nest 30) = 121%nat /\
  exists s, @eval _ _ (bare_evaluator (Some (2 ^ 30))) (nest 30) (MkState 0 tt) = (Err (StepLimitExceeded (2 ^ 30) tt), s).
Proof.
  destruct (mixed_chain_exponential 30 ltac:(lia)) as (H1 & _ & H2). exact (conj H1 H2).
Defined.
