(* ===== verification/Native.v ===== *)
(** What the functions of the standard library share: the argument bundle, the callbacks into
    the evaluator and the error type of [crates/relon-eval-api/src/native_fn.rs] and
    [error.rs], value equality and merging of [value.rs], and the argument checks of
    [crates/relon-evaluator/src/stdlib.rs].

    A function runs in a state that the callbacks may change, the step counter and the
    iterator table among it; the state survives errors. *)

From Stdlib Require Import ZArith Lia Bool.
From stdpp Require Import base list strings pretty gmap.
From S2P Require Import Prelude Bytes SchemaCanonical Value Arith Context.
Local Open Scope Z_scope.
Local Open Scope abi_scope.

Module Native.

(** ** Errors *)

Section Errors.
Context {TokenRange Foreign : Type}.

(** The errors the library itself reports; [ForeignError] stands for those of a closure it
    calls. *)
Inductive NativeError : Type :=
| TypeMismatch (expected found : string) (range : TokenRange)
| ValidationError (message : string) (range : TokenRange)
| NumericOverflow (range : TokenRange)
| UnsupportedOperator (message : string) (range : TokenRange)
| StepLimitExceeded (limit : option Z) (range : TokenRange)
| ValueTooLarge (limit actual : Z) (range : TokenRange)
| ForeignError (e : Foreign).
End Errors.
Arguments NativeError : clear implicits.

(** ** The host side *)

(** [NativeFnCaps], and the operations on payloads the library does not look into: equality
    of closures and types, merging of schemas, [Display] and [Debug]. *)
Class NativeFnCaps {H : HostTypes} (TokenRange : Type) : Type := {
  World : Type;
  Foreign : Type;
  call_relon : Value -> list Value -> TokenRange -> World -> outcome (NativeError TokenRange Foreign) Value * World;
  tick : Z -> TokenRange -> World -> outcome (NativeError TokenRange Foreign) unit * World;
  max_value_elements : option Z;
  next_iter_id : World -> Z * World;
  iter_cursor_fetch_and_inc : Z -> Z -> World -> option Z * World;
  closure_eq : opaque_payload -> opaque_payload -> bool;
  type_eq : opaque_payload -> opaque_payload -> bool;
  schema_merge : opaque_payload -> opaque_payload -> opaque_payload;
  schema_defaults : opaque_payload -> list (string * Value) -> opaque_payload;
  display : Value -> string;
  debug_list : list Value -> string;
}.

Record NativeArgs `{HostTypes} : Type := MkArgs { positional : list Value; named : list (string * Value) }.
Arguments MkArgs {_} _ _.
Arguments positional {_} _.
Arguments named {_} _.

Section Native.
Context {H : HostTypes} {TokenRange : Type} {Caps : NativeFnCaps TokenRange}.

(** A computation of the library. *)
Definition Call (A : Type) : Type := World -> outcome (NativeError TokenRange Foreign) A * World.
Definition ret {A} (a : A) : Call A := fun w => (Ok a, w).
Definition fail {A} (e : NativeError TokenRange Foreign) : Call A := fun w => (Err e, w).
Definition panic {A} : Call A := fun w => (Abort, w).
Definition bind {A B} (m : Call A) (k : A -> Call B) : Call B := fun w =>
  match m w with (Ok a, w) => k a w | (Err e, w) => (Err e, w) | (Abort, w) => (Abort, w) end.

(** [RelonFunction::call] *)
Definition RelonFunction : Type := NativeArgs -> TokenRange -> Call Value.
End Native.

Declare Scope native_scope.
Delimit Scope native_scope with native.
Notation "'let!' x ':=' m 'in' k" := (bind m (fun x => k))
  (at level 200, x pattern, m at level 100, k at level 200, right associativity) : native_scope.
Open Scope native_scope.

Section Checks.
Context {H : HostTypes} {TokenRange : Type} {Caps : NativeFnCaps TokenRange}.

(** [args[i]] *)
Definition index {A} (args : list A) (i : nat) : Call A :=
  match args !! i with Some a => ret a | None => panic end.

Definition mismatch {A} (expected found : string) (range : TokenRange) : Call A :=
  fail (TypeMismatch expected found range).

Definition expect_arg_count (args : list Value) (expected : nat) (range : TokenRange) : Call unit :=
  if (length args =? expected)%nat then ret tt
  else mismatch (pretty expected +:+ " argument(s)") (pretty (length args)) range.

Definition expect_int (value : Value) (range : TokenRange) : Call Z :=
  match value with VInt value => ret value | other => mismatch "Int" (type_name other) range end.

Definition expect_string (value : Value) (range : TokenRange) : Call string :=
  match value with VString value => ret value | other => mismatch "String" (type_name other) range end.

Definition expect_list (value : Value) (range : TokenRange) : Call (list Value) :=
  match value with VList value => ret value | other => mismatch "List" (type_name other) range end.

Definition expect_dict (value : Value) (range : TokenRange) : Call ValueDict :=
  match value with VDict value => ret value | other => mismatch "Dict" (type_name other) range end.

Fixpoint expect_strings (values : list Value) (range : TokenRange) : Call (list string) :=
  match values with
  | [] => ret []
  | value :: values =>
      let! s := expect_string value range in
      let! strings := expect_strings values range in
      ret (s :: strings)
  end.

Definition expect_string_list (value : Value) (range : TokenRange) : Call (list string) :=
  let! values := expect_list value range in
  expect_strings values range.

(** The arity test of the functions with an optional message. *)
Definition expect_arg_range (args : list Value) (lo hi : nat) (expected : string) (range : TokenRange) : Call unit :=
  if ((lo <=? length args) && (length args <=? hi))%nat then ret tt
  else mismatch expected (pretty (length args)) range.

Definition validation_failure (args : list Value) (message_index : nat) (default : NativeError TokenRange Foreign)
    (range : TokenRange) : Call Value :=
  match args !! message_index with
  | Some message => let! s := expect_string message range in fail (ValidationError s range)
  | None => fail default
  end.

(** ** Equality and merging of values *)

(** [OrderedFloat]: every NaN equals every other and is above the rest. *)
Definition ordered_eq (a b : Z) : bool :=
  if Arith.f64_is_nan a then Arith.f64_is_nan b else Arith.f64_eq a b.
Definition ordered_le (a b : Z) : bool :=
  if Arith.f64_is_nan b then true else Arith.f64_le a b.

Fixpoint value_eq (a b : Value) {struct a} : bool :=
  let list_eq := fix list_eq (l r : list Value) {struct l} : bool :=
    match l, r with
    | [], [] => true
    | x :: l, y :: r => value_eq x y && list_eq l r
    | _, _ => false
    end in
  let map_eq := fix map_eq (l r : list (string * Value)) {struct l} : bool :=
    match l, r with
    | [], [] => true
    | (k, x) :: l, (k', y) :: r => bool_decide (k = k') && value_eq x y && map_eq l r
    | _, _ => false
    end in
  match a, b with
  | VBool l, VBool r => Bool.eqb l r
  | VInt l, VInt r => l =? r
  | VFloat l, VFloat r => ordered_eq l r
  | VString l, VString r => bool_decide (l = r)
  | VList l, VList r => list_eq l r
  | VTuple l, VTuple r => list_eq l r
  | VDict l, VDict r =>
      map_eq (dict_map l) (dict_map r) && bool_decide (dict_brand l = dict_brand r) &&
      bool_decide (dict_variant_of l = dict_variant_of r)
  | VType l, VType r => type_eq l r
  | VWildcard, VWildcard => true
  | VClosure a, VClosure b => closure_eq a b
  | _, _ => false
  end.

(** [base.map.get_mut(k)] with [f] applied, or the insertion of [v]. *)
Definition upsert {V} (k : string) (v : V) (f : V -> V) (m : list (string * V)) : list (string * V) :=
  match map_get k m with Some b => map_insert k (f b) m | None => map_insert k v m end.

Fixpoint deep_merge (base patch : Value) {struct patch} : Value :=
  match base, patch with
  | VDict b, VDict p =>
      let merge_into := fix merge_into (p : list (string * Value)) (m : list (string * Value)) {struct p} :=
        match p with
        | [] => m
        | (k, v) :: p => merge_into p (upsert k v (fun b => deep_merge b v) m)
        end in
      VDict (MkDict (merge_into (dict_map p) (dict_map b)) (dict_brand b) (dict_variant_of b))
  | VSchema b, VSchema p => VSchema (schema_merge b p)
  | VSchema b, VDict p => VSchema (schema_defaults b (dict_map p))
  | _, p => p
  end.
End Checks.

(** ** Running the argument checks *)

Lemma bind_ret {H : HostTypes} {TokenRange : Type} {Caps : NativeFnCaps TokenRange} {A B} (a : A) (k : A -> Call B) :
  bind (ret a) k = k a.
Proof. done. Qed.

(** Runs the checks at the head of a function whose arguments are known. *)
Ltac run_checks :=
  cbn [positional]; unfold expect_arg_count, expect_arg_range, index, expect_int, expect_string, expect_list, expect_dict;
  cbn [length lookup list_lookup Nat.eqb Nat.leb andb]; rewrite ?bind_ret.
End Native.

(** [impl NativeFnCaps for EvaluatorCaps] of [crates/relon-evaluator/src/eval.rs]: the library
    runs on the step counter and the iterator table of the shared context, as one thread sees
    them.  The evaluation of closures is a parameter. *)

Module Evaluator.
Import Native.

Record world : Type := MkWorld { steps : Z; cursors : gmap Z nat; iter_ids : Z }.

(** What the library takes from the evaluator and from opaque payloads. *)
Record host {H : HostTypes} (TokenRange Foreign : Type) : Type := MkHost {
  max_steps : option Z;
  max_elements : option Z;
  call_function : Value -> list Value -> TokenRange -> world -> outcome (NativeError TokenRange Foreign) Value * world;
  host_closure_eq : opaque_payload -> opaque_payload -> bool;
  host_type_eq : opaque_payload -> opaque_payload -> bool;
  host_schema_merge : opaque_payload -> opaque_payload -> opaque_payload;
  host_schema_defaults : opaque_payload -> list (string * Value) -> opaque_payload;
  host_display : Value -> string;
  host_debug_list : list Value -> string;
}.
Arguments MkHost {_ _ _} _ _ _ _ _ _ _ _ _.
Arguments max_steps {_ _ _} _.
Arguments max_elements {_ _ _} _.
Arguments call_function {_ _ _} _.
Arguments host_closure_eq {_ _ _} _.
Arguments host_type_eq {_ _ _} _.
Arguments host_schema_merge {_ _ _} _.
Arguments host_schema_defaults {_ _ _} _.
Arguments host_display {_ _ _} _.
Arguments host_debug_list {_ _ _} _.

Section Caps.
Context {H : HostTypes} {TokenRange Foreign : Type} (h : host TokenRange Foreign).

Definition caps_tick (n : Z) (range : TokenRange) (w : world) : outcome (NativeError TokenRange Foreign) unit * world :=
  match max_steps h with
  | None => (Ok tt, w)
  | Some limit =>
      let '(granted, counter) := Ctx.tick (Some limit) (steps w) n in
      (if granted then Ok tt else Err (StepLimitExceeded (Some limit) range), MkWorld counter (cursors w) (iter_ids w))
  end.

Definition caps_next_iter_id (w : world) : Z * world :=
  let '(id, counter) := Ctx.next_iter_id (iter_ids w) in
  (id, MkWorld (steps w) (Ctx.seed_cursor (cursors w) id) counter).

Definition caps_fetch_and_inc (iter_id len : Z) (w : world) : option Z * world :=
  let '(cursor, table) := Ctx.iter_cursor_fetch_and_inc (cursors w) iter_id (Z.to_nat len) in
  (Z.of_nat <$> cursor, MkWorld (steps w) table (iter_ids w)).

#[export] Instance evaluator_caps : NativeFnCaps TokenRange := {
  World := world;
  Native.Foreign := Foreign;
  call_relon := call_function h;
  tick := caps_tick;
  max_value_elements := max_elements h;
  next_iter_id := caps_next_iter_id;
  iter_cursor_fetch_and_inc := caps_fetch_and_inc;
  closure_eq := host_closure_eq h;
  type_eq := host_type_eq h;
  schema_merge := host_schema_merge h;
  schema_defaults := host_schema_defaults h;
  display := host_display h;
  debug_list := host_debug_list h;
}.
End Caps.

(** A host for evaluating the model: a closure returns its first argument, strings display as
    themselves. *)
Definition plain_host {H : HostTypes} (limit elements : option Z) : host unit unit :=
  MkHost limit elements
    (fun _ args _ w => (match args with a :: _ => Ok a | [] => Err (ForeignError tt) end, w))
    (fun _ _ => false) (fun _ _ => false) (fun a _ => a) (fun a _ => a)
    (fun v => match v with VString s => s | _ => EmptyString end) (fun _ => EmptyString).
End Evaluator.
