(* ===== verification/StdSort.v ===== *)
(** Sorting of [crates/relon-evaluator/src/stdlib.rs]: [_list_sort_by] and
    [_list_sort_by_desc] decorate each element with its key, sort the indices by a bottom-up
    merge sort over two buffers, and undecorate.

    Positions are natural numbers: a list of values is far shorter than [usize::MAX / 3],
    which bounds every position computed here. *)

From Stdlib Require Import ZArith Lia Bool.
From stdpp Require Import base list strings sorting.
From S2P Require Import Prelude Bytes SchemaCanonical Value Arith Native.
Local Open Scope abi_scope.

Module StdSort.
Import Native.

Inductive SortDir : Type := Asc | Desc.

Section Sort.
Context {H : HostTypes} {TokenRange : Type} {Caps : NativeFnCaps TokenRange}.
Abbreviation E := (NativeError TokenRange Foreign).

(** [-0.0] is folded onto [+0.0]; the [expect] on [partial_cmp] panics. *)
Definition compare_sort_floats (x y : Z) : outcome E comparison :=
  let xn := if Arith.f64_eq x 0 then 0%Z else x in
  let yn := if Arith.f64_eq y 0 then 0%Z else y in
  match Arith.f64_is_nan xn, Arith.f64_is_nan yn with
  | true, true => Ok Eq
  | true, false => Ok Gt
  | false, true => Ok Lt
  | false, false => match Arith.f64_compare xn yn with Some c => Ok c | None => Abort end
  end.

Definition bool_cmp (x y : bool) : comparison :=
  match x, y with false, true => Lt | true, false => Gt | _, _ => Eq end.

Definition compare_sort_keys (a b : Value) (range : TokenRange) : outcome E comparison :=
  match a, b with
  | VInt x, VInt y => Ok (Z.compare x y)
  | VBool x, VBool y => Ok (bool_cmp x y)
  | VString x, VString y => Ok (String.compare x y)
  | VFloat x, VFloat y => compare_sort_floats x y
  | _, _ =>
      Err (TypeMismatch "sort key must be a homogeneous orderable scalar (Int, Float, String, or Bool)"
             (type_name a +:+ " vs " +:+ type_name b) range)
  end.

Definition take_left (dir : SortDir) (ord : comparison) : bool :=
  match dir, ord with Asc, Gt | Desc, Lt => false | _, _ => true end.

(** [v[i]] and [v[i] = x] *)
Definition at_ {A} (v : list A) (i : nat) : outcome E A := match v !! i with Some x => Ok x | None => Abort end.
Definition put {A} (v : list A) (i : nat) (x : A) : outcome E (list A) :=
  if (i <? length v)%nat then Ok (<[i := x]> v) else Abort.

(** The first loop of [merge_sort_runs]. *)
Fixpoint merge_loop (fuel : nat) (src dst : list nat) (a b k mid right : nat) (keys : list Value) (dir : SortDir)
    (range : TokenRange) : outcome E (list nat * nat * nat * nat) :=
  match fuel with
  | O => Abort
  | S fuel =>
      if (a <? mid)%nat && (b <? right)%nat then
        let* sa := at_ src a in
        let* sb := at_ src b in
        let* ka := at_ keys sa in
        let* kb := at_ keys sb in
        let* ord := compare_sort_keys ka kb range in
        if take_left dir ord then
          let* dst := put dst k sa in
          merge_loop fuel src dst (a + 1) b (k + 1) mid right keys dir range
        else
          let* dst := put dst k sb in
          merge_loop fuel src dst a (b + 1) (k + 1) mid right keys dir range
      else Ok (dst, a, b, k)
  end.

(** The two copying loops. *)
Fixpoint copy_loop (fuel : nat) (src dst : list nat) (a k mid : nat) : outcome E (list nat * nat) :=
  match fuel with
  | O => Abort
  | S fuel =>
      if (a <? mid)%nat then
        let* sa := at_ src a in
        let* dst := put dst k sa in
        copy_loop fuel src dst (a + 1) (k + 1) mid
      else Ok (dst, k)
  end.

Definition merge_sort_runs (src dst : list nat) (left mid right : nat) (keys : list Value) (dir : SortDir)
    (range : TokenRange) : outcome E (list nat) :=
  let fuel := S (right - left) in
  let* (dst, a, b, k) := merge_loop fuel src dst left mid left mid right keys dir range in
  let* (dst, k) := copy_loop fuel src dst a k mid in
  let* (dst, _) := copy_loop fuel src dst b k right in
  Ok dst.

(** One pass over the runs of a width. *)
Fixpoint pass_loop (fuel : nat) (idx buf : list nat) (i width n : nat) (keys : list Value) (dir : SortDir)
    (range : TokenRange) : outcome E (list nat) :=
  match fuel with
  | O => Abort
  | S fuel =>
      if (i <? n)%nat then
        let left := i in
        let mid := Nat.min (i + width) n in
        let right := Nat.min (i + 2 * width) n in
        let* buf := merge_sort_runs idx buf left mid right keys dir range in
        pass_loop fuel idx buf (i + 2 * width) width n keys dir range
      else Ok buf
  end.

Fixpoint width_loop (fuel : nat) (idx buf : list nat) (width n : nat) (keys : list Value) (dir : SortDir)
    (range : TokenRange) : outcome E (list nat) :=
  match fuel with
  | O => Abort
  | S fuel =>
      if (width <? n)%nat then
        let* merged := pass_loop (S n) idx buf 0 width n keys dir range in
        width_loop fuel merged idx (width * 2) n keys dir range
      else Ok idx
  end.

Definition stable_merge_sort_indices (keys : list Value) (dir : SortDir) (range : TokenRange) : outcome E (list nat) :=
  let n := length keys in
  let idx := seq 0 n in
  if (n <=? 1)%nat then Ok idx
  else width_loop (S n) idx (replicate n 0%nat) 1 n keys dir range.

Definition lift {A} (m : outcome E A) : Call A := fun w => (m, w).

(** The keys, in the order of the list. *)
Fixpoint decorate (key : Value) (items : list Value) (range : TokenRange) : Call (list Value) :=
  match items with
  | [] => ret []
  | item :: items =>
      let! _ := tick 1 range in
      let! k := call_relon key [item] range in
      let! keys := decorate key items range in
      ret (k :: keys)
  end.

Fixpoint undecorate (perm : list nat) (items : list Value) : outcome E (list Value) :=
  match perm with
  | [] => Ok []
  | i :: perm =>
      let* x := at_ items i in
      let* result := undecorate perm items in
      Ok (x :: result)
  end.

Definition list_sort_by_impl (args : NativeArgs) (range : TokenRange) (dir : SortDir) : Call Value :=
  let! _ := expect_arg_count (positional args) 2 range in
  let! arg0 := index (positional args) 0 in
  let! items := expect_list arg0 range in
  let! key := index (positional args) 1 in
  let! keys := decorate key items range in
  let! perm := lift (stable_merge_sort_indices keys dir range) in
  let! result := lift (undecorate perm items) in
  ret (VList result).

Definition ListSortBy : RelonFunction := fun args range => list_sort_by_impl args range Asc.
Definition ListSortByDesc : RelonFunction := fun args range => list_sort_by_impl args range Desc.
End Sort.
End StdSort.

(** The sort of the standard library is a stable sort: the order of the keys, merging at the
    level of lists, and the invariant of the passes over the two buffers. *)

Module StdSortFacts.
Import Native StdSort.

(** ** The order of the keys *)

Lemma string_compare_lt_trans a b c :
  String.compare a b = Lt -> String.compare b c = Lt -> String.compare a c = Lt.
Proof.
  revert b c. induction a as [|x a IH]; intros [|y b] [|z c]; simpl; try done.
  unfold Ascii.compare.
  destruct (N.compare_spec (Ascii.N_of_ascii x) (Ascii.N_of_ascii y)) as [Exy|?|?]; try done;
  destruct (N.compare_spec (Ascii.N_of_ascii y) (Ascii.N_of_ascii z)) as [Eyz|?|?]; try done; intros H1 H2.
  - rewrite Exy, Eyz, N.compare_refl. eauto.
  - rewrite Exy. by rewrite (proj2 (N.compare_lt_iff _ _)).
  - rewrite <- Eyz. by rewrite (proj2 (N.compare_lt_iff _ _)).
  - rewrite (proj2 (N.compare_lt_iff _ _)); [done|lia].
Qed.

Section Keys.
Context {H : HostTypes}.

(** The four orderable kinds of key, and the rest. *)
Definition key_class (v : Value) : nat :=
  match v with VInt _ => 1 | VFloat _ => 2 | VString _ => 3 | VBool _ => 4 | _ => 0 end.

(** The place of a key among those of its kind.  A NaN is above every other float, and both
    zeros have the place 0. *)
Definition key_rank (v : Value) : Z :=
  match v with
  | VInt i => i
  | VBool b => if b then 1%Z else 0%Z
  | VFloat f => if Arith.f64_is_nan f then (2 ^ 64)%Z else Arith.f64_key f
  | _ => 0%Z
  end.

Definition key_text (v : Value) : string := match v with VString s => s | _ => EmptyString end.

Definition lex (c d : comparison) : comparison := match c with Eq => d | _ => c end.

Definition key_cmp (a b : Value) : comparison :=
  lex (Nat.compare (key_class a) (key_class b))
    (lex (Z.compare (key_rank a) (key_rank b)) (String.compare (key_text a) (key_text b))).

Lemma key_cmp_flip a b : key_cmp b a = CompOpp (key_cmp a b).
Proof.
  unfold key_cmp. rewrite (Nat.compare_antisym (key_class a)), (Z.compare_antisym (key_rank a)), (String.compare_antisym (key_text b)).
  by destruct (Nat.compare _ _), (Z.compare _ _), (String.compare _ _).
Qed.

Lemma lex_lt_trans (c12 c23 c13 : comparison) (d12 d23 d13 : comparison) :
  (c12 = Eq -> c13 = c23) -> (c23 = Eq -> c13 = c12) -> (c12 = Lt -> c23 = Lt -> c13 = Lt) ->
  (d12 = Lt -> d23 = Lt -> d13 = Lt) ->
  lex c12 d12 = Lt -> lex c23 d23 = Lt -> lex c13 d13 = Lt.
Proof. intros H1 H2 H3 H4. destruct c12, c23; try done; intros; rewrite ?H1, ?H2, ?H3 by done; auto. Qed.

Lemma key_cmp_lt_trans a b c : key_cmp a b = Lt -> key_cmp b c = Lt -> key_cmp a c = Lt.
Proof.
  unfold key_cmp. apply lex_lt_trans; [..|apply lex_lt_trans; [..|apply string_compare_lt_trans]].
  - by intros ->%Nat.compare_eq.
  - by intros ->%Nat.compare_eq.
  - rewrite !Nat.compare_lt_iff. lia.
  - by intros ->%Z.compare_eq.
  - by intros ->%Z.compare_eq.
  - rewrite !Z.compare_lt_iff. lia.
Qed.

Lemma key_cmp_eq a b : key_cmp a b = Eq -> key_class a = key_class b /\ key_rank a = key_rank b /\ key_text a = key_text b.
Proof.
  unfold key_cmp. destruct (Nat.compare_spec (key_class a) (key_class b)); try done.
  destruct (Z.compare_spec (key_rank a) (key_rank b)); try done. intros ?%String.compare_eq_iff. done.
Qed.

Lemma key_cmp_eq_l a b c : key_cmp a b = Eq -> key_cmp a c = key_cmp b c.
Proof. intros (E1 & E2 & E3)%key_cmp_eq. unfold key_cmp. by rewrite E1, E2, E3. Qed.
Lemma key_cmp_eq_r a b c : key_cmp a b = Eq -> key_cmp c a = key_cmp c b.
Proof. intros (E1 & E2 & E3)%key_cmp_eq. unfold key_cmp. by rewrite E1, E2, E3. Qed.

(** [a] may stand before [b]. *)
Definition key_le (dir : SortDir) (a b : Value) : bool := take_left dir (key_cmp a b).

Lemma key_le_total dir a b : key_le dir a b = false -> key_le dir b a = true.
Proof. unfold key_le. rewrite (key_cmp_flip a b). by destruct dir, (key_cmp a b). Qed.

Lemma key_le_trans dir a b c : key_le dir a b = true -> key_le dir b c = true -> key_le dir a c = true.
Proof.
  unfold key_le. destruct (key_cmp a b) eqn:Eab; [by rewrite (key_cmp_eq_l a b c)|..];
    (destruct (key_cmp b c) eqn:Ebc; [by rewrite <- (key_cmp_eq_r b c a), Eab|..]); destruct dir; simpl; try done; intros _ _.
  - by rewrite (key_cmp_lt_trans a b c).
  - rewrite (key_cmp_flip c a), (key_cmp_lt_trans c b a); [done| |].
    + by rewrite key_cmp_flip, Ebc.
    + by rewrite key_cmp_flip, Eab.
Qed.

Context {TokenRange : Type} {Caps : NativeFnCaps TokenRange}.

Lemma f64_key_bound f : Arith.f64_is_nan f = false -> (Arith.f64_key f < 2 ^ 64)%Z.
Proof. intros _. unfold Arith.f64_key, Arith.f64_sign. destruct (Z.leb_spec (2 ^ 63) f); lia. Qed.

Lemma compare_floats_rank x y range :
  compare_sort_keys (VFloat x) (VFloat y) range = Ok (key_cmp (VFloat x) (VFloat y)).
Proof.
  unfold compare_sort_keys, compare_sort_floats, key_cmp. cbn [key_class key_rank key_text Nat.compare lex String.compare].
  assert (Hz : forall z, Arith.f64_eq z 0 = true -> Arith.f64_is_nan z = false /\ Arith.f64_key z = 0%Z).
  { intros z. unfold Arith.f64_eq, Arith.f64_compare. destruct (Arith.f64_is_nan z); simpl; [done|].
    change (Arith.f64_key 0) with 0%Z. by destruct (Z.compare_spec (Arith.f64_key z) 0). }
  assert (Hn : forall z, Arith.f64_is_nan (if Arith.f64_eq z 0 then 0%Z else z) = Arith.f64_is_nan z
                       /\ Arith.f64_key (if Arith.f64_eq z 0 then 0%Z else z) = Arith.f64_key z).
  { intros z. destruct (Arith.f64_eq z 0) eqn:E; [|done]. destruct (Hz _ E) as [-> ->]. done. }
  destruct (Hn x) as [Nx Kx], (Hn y) as [Ny Ky]. rewrite Nx, Ny. unfold Arith.f64_compare. rewrite Nx, Ny, Kx, Ky.
  pose proof (f64_key_bound x). pose proof (f64_key_bound y).
  destruct (Arith.f64_is_nan x), (Arith.f64_is_nan y); cbn [orb].
  - by rewrite Z.compare_refl.
  - rewrite (proj2 (Z.compare_gt_iff _ _)); [done|lia].
  - rewrite (proj2 (Z.compare_lt_iff _ _)); [done|lia].
  - by destruct (Z.compare _ _).
Qed.

(** Keys of one orderable kind compare by their order, others report a mismatch. *)
Lemma compare_sort_keys_spec a b range :
  (key_class a = key_class b /\ key_class a <> 0 /\ compare_sort_keys a b range = Ok (key_cmp a b)) \/
  ((key_class a <> key_class b \/ key_class a = 0) /\
   exists expected found, compare_sort_keys a b range = Err (TypeMismatch expected found range)).
Proof.
  destruct a, b; try (right; simpl; split; [lia|eauto; fail]); left; (split; [done|]); (split; [done|]).
  - unfold key_cmp. simpl. by destruct b0, b.
  - unfold key_cmp. simpl. by destruct (Z.compare _ _).
  - apply compare_floats_rank.
  - done.
Qed.
End Keys.

(** ** Merging *)

Definition span {A} (a m : nat) (v : list A) : list A := take (m - a) (drop a v).

Lemma span_nil {A} a m (v : list A) : m <= a -> span a m v = [].
Proof. intros ?. unfold span. by replace (m - a) with 0 by lia. Qed.

Lemma span_cons {A} a m (v : list A) :
  a < m -> m <= length v -> exists x, v !! a = Some x /\ span a m v = x :: span (a + 1) m v.
Proof.
  intros Ha Hm. destruct (lookup_lt_is_Some_2 v a) as [x Hx]; [lia|]. exists x. split; [done|].
  unfold span. rewrite (drop_S _ _ _ Hx). replace (m - a) with (S (m - (a + 1))) by lia. simpl. by rewrite Nat.add_1_r.
Qed.

Lemma span_length {A} a m (v : list A) : m <= length v -> length (span a m v) = m - a.
Proof. intros. unfold span. rewrite length_take, length_drop. lia. Qed.

Lemma span_split {A} a m r (v : list A) : a <= m -> m <= r -> span a r v = span a m v ++ span m r v.
Proof.
  intros. unfold span. replace (r - a) with ((m - a) + (r - m)) by lia. rewrite <- take_take_drop, drop_drop.
  by replace (a + (m - a)) with m by lia.
Qed.

Section Merge.
Context {H : HostTypes} {TokenRange : Type} {Caps : NativeFnCaps TokenRange}.
Context (keys : list Value) (dir : SortDir) (range : TokenRange).

Definition key_at (i : nat) : Value := default VWildcard (keys !! i).

(** Index [i] comes before index [j] in the sorted order: by key, and by position among
    equal keys. *)
Definition idx_le (i j : nat) : Prop := key_le dir (key_at i) (key_at j) = true.
Definition before (i j : nat) : Prop := idx_le i j /\ (idx_le j i -> i < j).

#[local] Instance idx_le_dec : RelDecision idx_le.
Proof. intros i j. unfold idx_le. apply _. Defined.

Lemma before_trans i j k : before i j -> before j k -> before i k.
Proof.
  intros [A1 B1] [A2 B2]. unfold idx_le in *. split; [by eapply key_le_trans|]. intros C.
  assert (i < j) by (apply B1; by eapply key_le_trans).
  assert (j < k) by (apply B2; by eapply key_le_trans). lia.
Qed.

Lemma list_merge_before l r :
  StronglySorted before l -> StronglySorted before r -> (forall x y, x ∈ l -> y ∈ r -> x < y) ->
  StronglySorted before (list_merge idx_le l r).
Proof.
  revert r. induction l as [|x l IHl]; intros r Hl Hr Hlt; [by destruct r|].
  induction r as [|y r IHr]; [done|]. rewrite list_merge_cons.
  apply StronglySorted_cons in Hl as Hl'. apply StronglySorted_cons in Hr as Hr'. destruct Hl' as [Hx Hl'], Hr' as [Hy Hr'].
  rewrite Forall_forall in Hx, Hy.
  assert (Hxy : x < y) by (apply Hlt; left).
  destruct (decide (idx_le x y)) as [E|E]; apply StronglySorted_cons; split.
  - rewrite merge_Permutation. apply Forall_app. rewrite !Forall_forall. split; [done|].
    assert (before x y) by (split; [done|lia]). intros z [->|Hz]%elem_of_cons; [done|]. eauto using before_trans.
  - apply IHl; [done..|]. intros. apply Hlt; [by right|done].
  - rewrite merge_Permutation. apply Forall_app. rewrite !Forall_forall. split; [|done].
    assert (before y x). { split; [|done]. unfold idx_le in *. apply key_le_total. by destruct (key_le _ _ _). }
    intros z [->|Hz]%elem_of_cons; [done|]. eauto using before_trans.
  - apply IHr; [done|]. intros. apply Hlt; [done|by right].
Qed.

(** Keys of one orderable kind. *)
Definition one_class (l : list nat) : Prop := exists t, t <> 0 /\ Forall (fun i => key_class (key_at i) = t) l.
Definition comparable (i j : nat) : Prop := key_class (key_at i) = key_class (key_at j) /\ key_class (key_at i) <> 0.

Lemma at_some {A} (v : list A) i x : v !! i = Some x -> at_ v i = Ok x.
Proof. unfold at_. by intros ->. Qed.

Lemma put_app {A} (d : list A) y hole x : put (d ++ y :: hole) (length d) x = Ok ((d ++ [x]) ++ hole).
Proof.
  unfold put. rewrite length_app. simpl. rewrite (proj2 (Nat.ltb_lt _ _)) by lia.
  rewrite insert_app_r_alt by lia. rewrite Nat.sub_diag. simpl. by rewrite <- app_assoc.
Qed.

Lemma copy_loop_spec fuel src d hole post a mid :
  mid <= length src -> length hole = length (span a mid src) -> length hole < fuel ->
  copy_loop fuel src (d ++ hole ++ post) a (length d) mid
  = Ok (d ++ span a mid src ++ post, length d + length hole).
Proof.
  revert d hole a. induction fuel as [|fuel IH]; intros d hole a Hm Hh Hf; [lia|]. simpl.
  destruct (Nat.ltb_spec a mid) as [Ha|Ha].
  - destruct (span_cons a mid src) as (x & Ex & Es); [done..|]. rewrite Es in *. destruct hole as [|y hole]; [done|].
    rewrite (at_some _ _ _ Ex). simpl. rewrite put_app. simpl. rewrite <- !app_assoc. simpl in *.
    replace (length d + 1) with (length (d ++ [x])) by (by rewrite length_app).
    replace (d ++ x :: hole ++ post) with ((d ++ [x]) ++ hole ++ post) by (by rewrite <- app_assoc).
    rewrite IH by (simpl in *; lia). rewrite <- app_assoc, length_app. simpl. do 2 f_equal. lia.
  - rewrite span_nil in * by lia. destruct hole; [|done]. simpl. by rewrite Nat.add_0_r.
Qed.

(** The indices are positions of keys. *)
Definition in_range (l : list nat) : Prop := Forall (fun i => i < length keys) l.

Lemma key_at_lookup i : i < length keys -> keys !! i = Some (key_at i).
Proof. intros Hi. unfold key_at. destruct (lookup_lt_is_Some_2 keys i Hi) as [k ->]. done. Qed.

Lemma compare_at i j : comparable i j -> compare_sort_keys (key_at i) (key_at j) range = Ok (key_cmp (key_at i) (key_at j)).
Proof. intros [E N]. destruct (compare_sort_keys_spec (key_at i) (key_at j) range) as [(_ & _ & ?)|[[|] _]]; done. Qed.

Definition all_comparable (l r : list nat) : Prop := forall i j, i ∈ l -> j ∈ r -> comparable i j.

Lemma merge_loop_spec fuel src d hole post a b mid right :
  mid <= length src -> right <= length src -> a <= mid -> b <= right ->
  in_range (span a mid src) -> in_range (span b right src) -> all_comparable (span a mid src) (span b right src) ->
  length hole = length (span a mid src) + length (span b right src) -> length hole < fuel ->
  exists m hole' a' b',
    merge_loop fuel src (d ++ hole ++ post) a b (length d) mid right keys dir range
    = Ok (d ++ m ++ hole' ++ post, a', b', length d + length m) /\
    a' <= mid /\ b' <= right /\ (span a' mid src = [] \/ span b' right src = []) /\
    length hole' = length (span a' mid src) + length (span b' right src) /\
    list_merge idx_le (span a mid src) (span b right src) = m ++ span a' mid src ++ span b' right src.
Proof.
  revert d hole a b. induction fuel as [|fuel IH]; intros d hole a b Hm Hr Ha Hb Rl Rr Hc Hh Hf; [lia|]. simpl.
  destruct (Nat.ltb_spec a mid) as [La|La]; simpl.
  2:{ exists [], hole, a, b. rewrite (span_nil a) in * by lia. rewrite list_merge_nil_l, Nat.add_0_r. naive_solver. }
  destruct (Nat.ltb_spec b right) as [Lb|Lb].
  2:{ exists [], hole, a, b. rewrite (span_nil b) in * by lia. rewrite list_merge_nil_r, Nat.add_0_r, app_nil_r. naive_solver. }
  destruct (span_cons a mid src) as (x & Ex & Es); [done..|].
  destruct (span_cons b right src) as (y & Ey & Et); [done..|].
  rewrite Es, Et in *. rewrite list_merge_cons. rewrite (at_some _ _ _ Ex), (at_some _ _ _ Ey). simpl.
  destruct hole as [|h hole]; [done|]. simpl in Hh, Hf.
  apply Forall_cons in Rl as [Rx Rl], Rr as [Ry Rr].
  rewrite (at_some _ _ _ (key_at_lookup _ Rx)). simpl. rewrite (at_some _ _ _ (key_at_lookup _ Ry)). simpl.
  rewrite compare_at by (apply Hc; left). simpl. fold (key_le dir (key_at x) (key_at y)).
  destruct (key_le dir (key_at x) (key_at y)) eqn:Ele;
    [rewrite (decide_True (P := idx_le x y)) by done|rewrite (decide_False (P := idx_le x y)) by (unfold idx_le; congruence)];
    rewrite put_app; simpl; rewrite <- app_assoc.
  - destruct (IH (d ++ [x]) hole (a + 1) b) as (m & hole' & a' & b' & E & ? & ? & ? & ? & Em); try done; try lia.
    + rewrite Et. by constructor.
    + rewrite Et. intros i j ? ?. apply Hc; [by right|done].
    + rewrite Et. simpl. lia.
    + exists (x :: m), hole', a', b'. rewrite Et in Em. rewrite Em. rewrite <- app_assoc in E. rewrite length_app in E. simpl in *.
      rewrite E. rewrite <- app_assoc. simpl. split_and!; try done. do 2 f_equal. lia.
  - destruct (IH (d ++ [y]) hole a (b + 1)) as (m & hole' & a' & b' & E & ? & ? & ? & ? & Em); try done; try lia.
    + rewrite Es. by constructor.
    + rewrite Es. intros i j ? ?. apply Hc; [done|by right].
    + rewrite Es. simpl. lia.
    + exists (y :: m), hole', a', b'. rewrite Es in Em. rewrite Em. rewrite <- app_assoc in E. rewrite length_app in E. simpl in *.
      rewrite E. rewrite <- app_assoc. simpl. split_and!; try done. do 2 f_equal. lia.
Qed.

Lemma runs_merge src d hole post mid right :
  length d <= mid -> mid <= right -> right <= length src -> length hole = right - length d ->
  in_range (span (length d) mid src) -> in_range (span mid right src) ->
  all_comparable (span (length d) mid src) (span mid right src) ->
  merge_sort_runs src (d ++ hole ++ post) (length d) mid right keys dir range
  = Ok (d ++ list_merge idx_le (span (length d) mid src) (span mid right src) ++ post).
Proof.
  intros Hl Hm Hr Hh Rl Rr Hc. unfold merge_sort_runs.
  destruct (merge_loop_spec (S (right - length d)) src d hole post (length d) mid mid right)
    as (m & hole' & a' & b' & E & Ha & Hb & Hone & Hh' & Em); try done; try lia.
  { rewrite !span_length by lia. lia. }
  rewrite E. cbn [Prelude.bind]. rewrite Em.
  assert (Hlen : length m + length hole' = length hole).
  { apply (f_equal length) in Em. rewrite merge_Permutation, !length_app, !span_length in Em by lia.
    rewrite !span_length in Hh' by lia. lia. }
  rewrite <- (take_drop (length (span a' mid src)) hole').
  set (h1 := take _ hole'). set (h2 := drop _ hole').
  assert (L1 : length h1 = length (span a' mid src)) by (subst h1; rewrite length_take; lia).
  assert (L2 : length h2 = length (span b' right src)) by (subst h2; rewrite length_drop; lia).
  replace (d ++ m ++ (h1 ++ h2) ++ post) with ((d ++ m) ++ h1 ++ (h2 ++ post)) by (by rewrite <- !app_assoc).
  rewrite <- length_app, copy_loop_spec; [|lia|done|lia]. cbn [Prelude.bind].
  replace ((d ++ m) ++ span a' mid src ++ h2 ++ post) with ((d ++ m ++ span a' mid src) ++ h2 ++ post) by (by rewrite <- !app_assoc).
  replace (length (d ++ m) + length h1) with (length (d ++ m ++ span a' mid src)) by (rewrite !length_app; lia).
  rewrite copy_loop_spec; [|lia|done|lia]. cbn [Prelude.bind]. by rewrite <- !app_assoc.
Qed.

Definition is_mismatch (e : NativeError TokenRange Foreign) : Prop :=
  exists expected found, e = TypeMismatch expected found range.

Lemma runs_mismatch src dst left mid right x y :
  left < mid -> mid < right -> right <= length src -> src !! left = Some x -> src !! mid = Some y ->
  x < length keys -> y < length keys -> ~ comparable x y ->
  exists e, merge_sort_runs src dst left mid right keys dir range = Err e /\ is_mismatch e.
Proof.
  intros Hl Hm Hr Ex Ey Rx Ry Hn. unfold merge_sort_runs. simpl.
  rewrite (proj2 (Nat.ltb_lt left mid)), (proj2 (Nat.ltb_lt mid right)) by lia. simpl.
  rewrite (at_some _ _ _ Ex), (at_some _ _ _ Ey). simpl.
  rewrite (at_some _ _ _ (key_at_lookup _ Rx)). simpl. rewrite (at_some _ _ _ (key_at_lookup _ Ry)). simpl.
  destruct (compare_sort_keys_spec (key_at x) (key_at y) range) as [(? & ? & _)|(_ & ex & fo & ->)].
  - by destruct Hn.
  - simpl. eexists. split; [done|]. by exists ex, fo.
Qed.

(** ** Runs *)

Definition good (l : list nat) : Prop := length l <= 1 \/ one_class l.

Definition run_ok (lo hi : nat) (v : list nat) : Prop :=
  span lo hi v ≡ₚ seq lo (hi - lo) /\ StronglySorted before (span lo hi v) /\ good (span lo hi v).

Lemma good_head l x : good l -> x ∈ l -> key_class (key_at x) <> 0 ->
  Forall (fun i => key_class (key_at i) = key_class (key_at x)) l.
Proof.
  intros [Hl|(t & Ht & Hl)] Hx Hn.
  - destruct l as [|y [|]]; [by apply not_elem_of_nil in Hx| |simpl in Hl; lia].
    apply list_elem_of_singleton in Hx as ->. by repeat constructor.
  - rewrite Forall_forall in *. intros i Hi. by rewrite (Hl _ Hx), (Hl _ Hi).
Qed.

Lemma good_merge l r x y : good l -> good r -> x ∈ l -> y ∈ r -> comparable x y -> one_class (l ++ r).
Proof.
  intros Gl Gr Hx Hy [E N]. exists (key_class (key_at x)). split; [done|]. apply Forall_app. split.
  - by apply good_head.
  - rewrite E. apply good_head; [done..|congruence].
Qed.

Lemma one_class_comparable l r : one_class (l ++ r) -> all_comparable l r.
Proof.
  intros (t & Ht & [Hl Hr]%Forall_app) i j Hi Hj. rewrite Forall_forall in Hl, Hr. split.
  - by rewrite Hl, Hr.
  - by rewrite Hl.
Qed.

Lemma one_class_perm l l' : l ≡ₚ l' -> one_class l -> one_class l'.
Proof. intros E (t & Ht & Hl). exists t. split; [done|]. by rewrite <- E. Qed.

Lemma span_app_l {A} lo hi (d t : list A) : hi <= length d -> span lo hi (d ++ t) = span lo hi d.
Proof.
  intros. unfold span. destruct (decide (lo <= hi)).
  - rewrite drop_app_le by lia. rewrite take_app_le; [done|]. rewrite length_drop. lia.
  - by replace (hi - lo) with 0 by lia.
Qed.

Lemma span_app_mid {A} (d m t : list A) : span (length d) (length d + length m) (d ++ m ++ t) = m.
Proof. unfold span. rewrite drop_app_length. replace (_ + _ - _) with (length m) by lia. apply take_app_length. Qed.

Abbreviation n := (length keys).

(** A merge step extends the sorted runs, or meets keys of different kinds. *)
Definition mixed : Prop := ~ one_class (seq 0 n).

Lemma run_in_range lo hi v : run_ok lo hi v -> hi <= n -> in_range (span lo hi v).
Proof. intros (E & _) Hh. unfold in_range. rewrite E. apply Forall_forall. intros i ?%elem_of_seq. lia. Qed.

Lemma run_elem lo hi v i : run_ok lo hi v -> i ∈ span lo hi v <-> lo <= i < lo + (hi - lo).
Proof. intros (E & _). by rewrite E, elem_of_seq. Qed.

Lemma runs_joined lo mid hi v w m :
  lo <= mid -> mid <= hi -> run_ok lo mid v -> run_ok mid hi v ->
  (span lo mid v = [] \/ span mid hi v = [] \/ one_class (span lo mid v ++ span mid hi v)) ->
  m = list_merge idx_le (span lo mid v) (span mid hi v) -> span lo hi w = m -> run_ok lo hi w.
Proof.
  intros Hl Hm (P1 & S1 & G1) (P2 & S2 & G2) Hcase -> Ew. unfold run_ok. rewrite Ew. split_and!.
  - etrans; [apply merge_Permutation|]. etrans; [by apply Permutation_app|]. replace (hi - lo) with ((mid - lo) + (hi - mid)) by lia.
    rewrite seq_app. by replace (lo + (mid - lo)) with mid by lia.
  - apply list_merge_before; [done..|]. intros x y. rewrite P1, P2, !elem_of_seq. lia.
  - destruct Hcase as [->|[->|Hone]].
    + by rewrite list_merge_nil_l.
    + by rewrite list_merge_nil_r.
    + right. eapply one_class_perm; [|exact Hone]. by rewrite merge_Permutation.
Qed.

Lemma one_class_sub l l' : (forall i, i ∈ l -> i ∈ l') -> one_class l' -> one_class l.
Proof. intros Hs (t & Ht & Hl). exists t. rewrite !Forall_forall in *. eauto. Qed.

Lemma merge_step src dst left mid right :
  length src = n -> length dst = n -> left < mid -> mid <= right -> right <= n ->
  run_ok left mid src -> run_ok mid right src ->
  (exists dst', merge_sort_runs src dst left mid right keys dir range = Ok dst' /\ length dst' = n /\
     run_ok left right dst' /\ forall lo hi, hi <= left -> span lo hi dst' = span lo hi dst) \/
  (exists e, merge_sort_runs src dst left mid right keys dir range = Err e /\ is_mismatch e /\ mixed).
Proof.
  intros Ls Ld Hl Hm Hr R1 R2.
  assert (Hok : all_comparable (span left mid src) (span mid right src) ->
    (span mid right src = [] \/ one_class (span left mid src ++ span mid right src)) ->
    exists dst', merge_sort_runs src dst left mid right keys dir range = Ok dst' /\ length dst' = n /\
     run_ok left right dst' /\ forall lo hi, hi <= left -> span lo hi dst' = span lo hi dst).
  { intros Hc Hcase. set (d := take left dst). set (hole := span left right dst). set (post := drop right dst).
    assert (Ed : dst = d ++ hole ++ post).
    { subst d hole post. unfold span. rewrite <- (take_drop left dst) at 1. f_equal.
      rewrite <- (take_drop (right - left) (drop left dst)) at 1. f_equal. rewrite drop_drop. f_equal. lia. }
    assert (Hd : length d = left) by (subst d; rewrite length_take; lia).
    assert (Hh : length hole = right - left) by (subst hole; rewrite span_length; lia).
    rewrite Ed, <- Hd in *. rewrite runs_merge; [|lia..|by apply run_in_range; [|lia]|by apply run_in_range|done].
    eexists. split; [done|].
    assert (Lm : length (list_merge idx_le (span (length d) mid src) (span mid right src)) = right - length d).
    { rewrite merge_Permutation, length_app, !span_length; lia. }
    split_and!.
    - rewrite !length_app, Lm. rewrite !length_app in Ld. lia.
    - eapply (runs_joined (length d) mid right src); [lia|done..|right; done|done|].
      replace right with (length d + (right - length d)) at 1 by lia. rewrite <- Lm at 1. apply span_app_mid.
    - intros lo hi Hh'. rewrite !span_app_l by lia. done. }
  destruct (span_cons left mid src) as (x & Ex & Es); [lia..|].
  destruct (decide (mid = right)) as [<-|Hne].
  { left. apply Hok; [|left; by rewrite span_nil]. rewrite (span_nil mid) by lia. by intros ? ? _ ?%not_elem_of_nil. }
  destruct (span_cons mid right src) as (y & Ey & Et); [lia..|].
  assert (Hx : x ∈ span left mid src) by (rewrite Es; left). assert (Hy : y ∈ span mid right src) by (rewrite Et; left).
  destruct (decide (comparable x y)) as [Hc|Hc].
  - left. pose proof (good_merge _ _ x y (proj2 (proj2 R1)) (proj2 (proj2 R2)) Hx Hy Hc).
    apply Hok; [by apply one_class_comparable|by right].
  - right. apply (run_elem _ _ _ _ R1) in Hx. apply (run_elem _ _ _ _ R2) in Hy.
    destruct (runs_mismatch src dst left mid right x y) as (e & -> & He); try done; try lia.
    exists e. split_and!; [done..|]. intros Hone. apply Hc.
    apply (one_class_comparable [x] [y]); [|by apply list_elem_of_singleton..].
    eapply one_class_sub; [|exact Hone]. intros i [->|[->|[]%not_elem_of_nil]%elem_of_cons]%elem_of_cons; apply elem_of_seq; lia.
Qed.

(** ** Passes *)

Definition runs_ok (w count : nat) (v : list nat) : Prop :=
  forall m, m < count -> m * w < n -> run_ok (m * w) (Nat.min (m * w + w) n) v.

Lemma run_ok_span lo hi v v' : span lo hi v' = span lo hi v -> run_ok lo hi v -> run_ok lo hi v'.
Proof. unfold run_ok. by intros ->. Qed.

Lemma pass_loop_spec fuel idx buf q w :
  0 < w -> length idx = n -> length buf = n -> (forall m, m * w < n -> run_ok (m * w) (Nat.min (m * w + w) n) idx) ->
  runs_ok (2 * w) q buf -> n - q * (2 * w) < fuel ->
  (exists buf', pass_loop fuel idx buf (q * (2 * w)) w n keys dir range = Ok buf' /\ length buf' = n /\
     forall m, m * (2 * w) < n -> run_ok (m * (2 * w)) (Nat.min (m * (2 * w) + 2 * w) n) buf') \/
  (exists e, pass_loop fuel idx buf (q * (2 * w)) w n keys dir range = Err e /\ is_mismatch e /\ mixed).
Proof.
  revert buf q. induction fuel as [|fuel IH]; intros buf q Hw Li Lb Hruns Hdone Hf; [lia|]. cbn [pass_loop].
  destruct (Nat.ltb_spec (q * (2 * w)) n) as [Hq|Hq].
  2:{ left. exists buf. split_and!; [done..|]. intros m Hm. apply Hdone; [|done]. by apply (Nat.mul_lt_mono_pos_r (2 * w)); lia. }
  set (lo := q * (2 * w)) in *.
  assert (R1 : run_ok lo (Nat.min (lo + w) n) idx).
  { specialize (Hruns (2 * q)). replace (2 * q * w) with lo in Hruns by (subst lo; lia). by apply Hruns. }
  assert (R2 : run_ok (Nat.min (lo + w) n) (Nat.min (lo + 2 * w) n) idx).
  { destruct (Nat.lt_ge_cases (lo + w) n) as [Hlt|Hge].
    - specialize (Hruns (2 * q + 1)). replace ((2 * q + 1) * w) with (lo + w) in Hruns by (subst lo; lia).
      rewrite (Nat.min_l (lo + w)) by lia. replace (lo + 2 * w) with (lo + w + w) by lia. by apply Hruns.
    - rewrite !Nat.min_r by lia. unfold run_ok. rewrite span_nil, Nat.sub_diag by lia. split_and!; [done|constructor|left; simpl; lia]. }
  destruct (merge_step idx buf lo (Nat.min (lo + w) n) (Nat.min (lo + 2 * w) n)) as [(buf' & -> & Lb' & R & Hsame)|(e & -> & ? & ?)];
    try done; try lia.
  2:{ right. exists e. done. }
  cbn [Prelude.bind]. replace (lo + 2 * w) with (S q * (2 * w)) by (subst lo; lia). apply IH; try done.
  - intros m Hm Hn. destruct (decide (m = q)) as [->|Hne]; [done|].
    eapply run_ok_span; [|by apply Hdone; [lia|]]. apply Hsame. subst lo. nia.
  - subst lo. nia.
Qed.

Lemma width_loop_spec fuel idx buf w :
  0 < w -> length idx = n -> length buf = n -> (forall m, m * w < n -> run_ok (m * w) (Nat.min (m * w + w) n) idx) ->
  0 < fuel -> n < fuel + w -> 0 < n ->
  (exists p, width_loop fuel idx buf w n keys dir range = Ok p /\ run_ok 0 n p /\ length p = n) \/
  (exists e, width_loop fuel idx buf w n keys dir range = Err e /\ is_mismatch e /\ mixed).
Proof.
  revert idx buf w. induction fuel as [|fuel IH]; intros idx buf w Hw Li Lb Hruns Hpos Hf Hn; [lia|]. cbn [width_loop].
  destruct (Nat.ltb_spec w n) as [Hlt|Hge].
  - destruct (pass_loop_spec (S n) idx buf 0 w) as [(merged & E & Lm & Hm)|(e & E & ? & ?)]; try done; try lia.
    { intros m ?. lia. }
    + rewrite Nat.mul_0_l in E. rewrite E. cbn [Prelude.bind]. replace (w * 2) with (2 * w) by lia. apply IH; try done; lia.
    + rewrite Nat.mul_0_l in E. rewrite E. right. by exists e.
  - left. exists idx. split_and!; [done| |done]. specialize (Hruns 0). rewrite Nat.mul_0_l, Nat.min_r in Hruns by lia. by apply Hruns.
Qed.

Lemma seq_runs m : m < n -> run_ok m (m + 1) (seq 0 n).
Proof.
  intros Hm. assert (E : span m (m + 1) (seq 0 n) = [m]).
  { unfold span. rewrite drop_seq, take_seq. replace ((m + 1 - m) `min` (n - m))%nat with 1 by lia. done. }
  unfold run_ok. rewrite E. replace (m + 1 - m) with 1 by lia. split_and!; [done|by repeat constructor|left; simpl; lia].
Qed.

(** A permutation sorts the keys. *)
Definition sorts (p : list nat) : Prop := p ≡ₚ seq 0 n /\ StronglySorted before p.

(** What the sort accepts: at most one key, or keys of one orderable kind. *)
Definition sortable : Prop := n <= 1 \/ exists t, t <> 0 /\ Forall (fun k => key_class k = t) keys.

Lemma one_class_keys : one_class (seq 0 n) <-> exists t, t <> 0 /\ Forall (fun k => key_class k = t) keys.
Proof.
  unfold one_class. apply exist_proper. intros t. apply and_iff_compat_l. rewrite !Forall_forall. split.
  - intros Hs k [i Hi]%list_elem_of_lookup. specialize (Hs i). unfold key_at in Hs. rewrite Hi in Hs. apply Hs.
    apply elem_of_seq. apply lookup_lt_Some in Hi. lia.
  - intros Hk i Hi%elem_of_seq. apply Hk. apply (list_elem_of_lookup_2 _ i), key_at_lookup. lia.
Qed.

Lemma sort_indices_spec :
  (sortable /\ exists p, stable_merge_sort_indices keys dir range = Ok p /\ sorts p) \/
  (~ sortable /\ exists e, stable_merge_sort_indices keys dir range = Err e /\ is_mismatch e).
Proof.
  unfold stable_merge_sort_indices. destruct (Nat.leb_spec n 1) as [Hn|Hn].
  { left. split; [by left|]. exists (seq 0 n). split; [done|]. split; [done|].
    destruct n as [|[|]]; [constructor|by repeat constructor|lia]. }
  destruct (width_loop_spec (S n) (seq 0 n) (replicate n 0) 1) as [(p & -> & (P & S & G) & L)|(e & -> & ? & Hm)]; try lia.
  { by rewrite length_seq. }
  { by rewrite length_replicate. }
  { intros m Hm. rewrite Nat.mul_1_r in *. rewrite Nat.min_l by lia. by apply seq_runs. }
  - left. assert (E : span 0 n p = p). { unfold span. rewrite drop_0, Nat.sub_0_r, <- L. by rewrite take_ge. }
    rewrite E, Nat.sub_0_r in *. split.
    + right. apply one_class_keys. destruct G as [G|G]; [lia|]. by eapply one_class_perm.
    + by exists p.
  - right. split; [|by exists e]. intros [?|Hone]; [lia|]. apply Hm. by apply one_class_keys.
Qed.
End Merge.

(** ** The library function *)

Section Function.
Context {H : HostTypes} {TokenRange : Type} {Caps : NativeFnCaps TokenRange}.

Lemma decorate_length key items range w keys w' :
  decorate key items range w = (Ok keys, w') -> length keys = length items.
Proof.
  revert w keys w'. induction items as [|x items IH]; intros w keys w'; simpl; [by intros [= <- <-]|].
  unfold bind. destruct (tick 1 range w) as [[] w1]; try done.
  destruct (call_relon key [x] range w1) as [[] w2]; try done.
  destruct (decorate key items range w2) as [[] w3] eqn:E; try done. intros [= <- <-]. simpl. f_equal. eauto.
Qed.

Lemma undecorate_spec perm items :
  Forall (fun i => i < length items) perm ->
  exists out, undecorate perm items = Ok out /\ Forall2 (fun i x => items !! i = Some x) perm out.
Proof.
  induction perm as [|i perm IH]; simpl; [eauto|]. intros [Hi Hp]%Forall_cons.
  destruct (lookup_lt_is_Some_2 items i Hi) as [x Hx]. rewrite (at_some _ _ _ Hx). cbn [Prelude.bind].
  destruct (IH Hp) as (out & -> & Ho). cbn [Prelude.bind]. eauto.
Qed.

(** C35 [list.sort_by] and its descending form are stable sorts.  They call the key function on
    the elements from first to last, after a tick each, and hand on the first failure.  Given
    the keys they charge nothing more and answer a permutation of the list that is ascending
    (descending) by key and keeps elements with equal keys in their order, if the list has at
    most one element or all keys are integers, all floats, all strings or all booleans, and a
    type mismatch for every other list of keys.  No index is out of range and every loop ends. *)
Theorem list_sort_by_stable (items : list Value) (key : Value) (named : list (string * Value)) (range : TokenRange)
    (dir : SortDir) (w : World) :
  let sorted := list_sort_by_impl (MkArgs [VList items; key] named) range dir w in
  match decorate key items range w with
  | (Ok keys, w') =>
      length keys = length items /\
      ((sortable keys /\ exists p out, sorted = (Ok (VList out), w') /\
          p ≡ₚ seq 0 (length items) /\ StronglySorted (before keys dir) p /\
          Forall2 (fun i x => items !! i = Some x) p out) \/
       (~ sortable keys /\ exists expected found, sorted = (Err (TypeMismatch expected found range), w')))
  | (Err e, w') => sorted = (Err e, w')
  | (Abort, w') => sorted = (Abort, w')
  end.
Proof.
  cbv zeta. unfold list_sort_by_impl, expect_arg_count, index, expect_list. unfold bind, ret.
  cbn -[decorate stable_merge_sort_indices].
  destruct (decorate key items range w) as [[keys|e|] w'] eqn:Ed; try done.
  pose proof (decorate_length _ _ _ _ _ _ Ed) as Hl. split; [done|]. unfold lift.
  destruct (sort_indices_spec keys dir range) as [(Hs & p & -> & P & S)|(Hs & e & -> & ex & fo & ->)].
  - left. split; [done|]. rewrite Hl in P. destruct (undecorate_spec p items) as (out & -> & Ho).
    { rewrite P. apply Forall_forall. intros i Hi%elem_of_seq. lia. }
    by exists p, out.
  - right. eauto.
Qed.
End Function.
End StdSortFacts.
