(* ===== verification/StdLists.v ===== *)
(** The functions on lists and sizes of [crates/relon-evaluator/src/stdlib.rs], apart from
    sorting. *)

From Stdlib Require Import ZArith Lia Bool.
From stdpp Require Import base list strings pretty.
From S2P Require Import Prelude Bytes SchemaCanonical Value Chars Arith Native.
Local Open Scope Z_scope.
Local Open Scope abi_scope.

Module StdLists.
Import Native.

Section Lists.
Context {H : HostTypes} {TokenRange : Type} {Caps : NativeFnCaps TokenRange}.

(** ** Functions that call back *)

Fixpoint map_loop (func : Value) (items : list Value) (range : TokenRange) : Call (list Value) :=
  match items with
  | [] => ret []
  | item :: items =>
      let! _ := tick 1 range in
      let! v := call_relon func [item] range in
      let! results := map_loop func items range in
      ret (v :: results)
  end.

Definition ListMap : RelonFunction := fun args range =>
  let! _ := expect_arg_count (positional args) 2 range in
  let! arg0 := index (positional args) 0 in
  let! items := expect_list arg0 range in
  let! func := index (positional args) 1 in
  let! results := map_loop func items range in
  ret (VList results).

Fixpoint filter_loop (func : Value) (items : list Value) (range : TokenRange) : Call (list Value) :=
  match items with
  | [] => ret []
  | item :: items =>
      let! _ := tick 1 range in
      let! v := call_relon func [item] range in
      let! results := filter_loop func items range in
      ret (if Arith.is_truthy v then item :: results else results)
  end.

Definition ListFilter : RelonFunction := fun args range =>
  let! _ := expect_arg_count (positional args) 2 range in
  let! arg0 := index (positional args) 0 in
  let! items := expect_list arg0 range in
  let! func := index (positional args) 1 in
  let! results := filter_loop func items range in
  ret (VList results).

Fixpoint reduce_loop (func acc : Value) (items : list Value) (range : TokenRange) : Call Value :=
  match items with
  | [] => ret acc
  | item :: items =>
      let! _ := tick 1 range in
      let! acc := call_relon func [acc; item] range in
      reduce_loop func acc items range
  end.

Definition ListReduce : RelonFunction := fun args range =>
  let! _ := expect_arg_count (positional args) 3 range in
  let! arg0 := index (positional args) 0 in
  let! items := expect_list arg0 range in
  let! acc := index (positional args) 1 in
  let! func := index (positional args) 2 in
  reduce_loop func acc items range.

(** The loop of [every] ([stop = false]) and of [some] ([stop = true]). *)
Fixpoint quantifier_loop (stop : bool) (func : Value) (items : list Value) (range : TokenRange) : Call Value :=
  match items with
  | [] => ret (VBool (negb stop))
  | item :: items =>
      let! _ := tick 1 range in
      let! result := call_relon func [item] range in
      match result with
      | VBool b => if Bool.eqb b stop then ret (VBool stop) else quantifier_loop stop func items range
      | other => mismatch "Bool" (type_name other) range
      end
  end.

Definition quantifier (stop : bool) : RelonFunction := fun args range =>
  let! _ := expect_arg_count (positional args) 2 range in
  let! arg0 := index (positional args) 0 in
  let! items := expect_list arg0 range in
  let! func := index (positional args) 1 in
  quantifier_loop stop func items range.

Definition ListEvery : RelonFunction := quantifier false.
Definition ListSome : RelonFunction := quantifier true.

(** ** Sizes *)

(** [s.len()] *)
Definition str_len (s : string) : Z := Z.of_nat (String.length s).

Definition size_of (v : Value) : option Z :=
  match v with
  | VString s => Some (str_len s)
  | VList l => Some (Z.of_nat (length l))
  | VDict d => Some (Z.of_nat (length (dict_map d)))
  | _ => None
  end.

Definition Len : RelonFunction := fun args range =>
  let! _ := expect_arg_count (positional args) 1 range in
  let! arg0 := index (positional args) 0 in
  match size_of arg0 with
  | Some len => ret (VInt len)
  | None => mismatch "String/List/Dict" (type_name arg0) range
  end.

Definition IsEmpty : RelonFunction := fun args range =>
  let! _ := expect_arg_count (positional args) 1 range in
  let! arg0 := index (positional args) 0 in
  match size_of arg0 with
  | Some len => ret (VBool (len =? 0))
  | None => mismatch "String/List/Dict" (type_name arg0) range
  end.

Definition ListCount : RelonFunction := fun args range =>
  let! _ := expect_arg_count (positional args) 1 range in
  let! arg0 := index (positional args) 0 in
  let! xs := expect_list arg0 range in
  ret (VInt (Z.of_nat (length xs))).

(** Characters, not bytes, for a string. *)
Definition SizeInRange : RelonFunction := fun args range =>
  let! _ := expect_arg_count (positional args) 3 range in
  let! arg0 := index (positional args) 0 in
  let! len :=
    match arg0 with
    | VDict d => ret (Z.of_nat (length (dict_map d)))
    | VList l => ret (Z.of_nat (length l))
    | VString s => ret (Z.of_nat (length (chars s)))
    | other => mismatch "Dict / List / String" (type_name other) range
    end in
  let! arg1 := index (positional args) 1 in
  let! lo := expect_int arg1 range in
  let! arg2 := index (positional args) 2 in
  let! hi := expect_int arg2 range in
  ret (VBool ((lo <=? len) && (len <=? hi))).

(** ** Ranges *)

(** [(start..end)] *)
Definition ints (start end_ : Z) : list Z := seqZ start (end_ - start).

Definition range_bounds (positional : list Value) (range : TokenRange) : Call (Z * Z) :=
  match positional with
  | [e] => let! e := expect_int e range in ret (0, e)
  | [s; e] => let! s := expect_int s range in let! e := expect_int e range in ret (s, e)
  | _ => mismatch "1 or 2 arguments" (pretty (length positional)) range
  end.

Definition Range : RelonFunction := fun args range =>
  let! (start, end_) := range_bounds (positional args) range in
  let requested_len := Z.max (end_ - start) 0 in
  let! _ :=
    if 0 <? requested_len then
      let ticks := if 2 ^ 64 - 1 <? requested_len then 2 ^ 64 - 1 else requested_len in
      tick ticks range
    else ret tt in
  let! _ :=
    match max_value_elements with
    | Some limit =>
        if limit <? requested_len then
          let actual := if USIZE_MAX <? requested_len then USIZE_MAX else requested_len in
          fail (ValueTooLarge limit actual range)
        else ret tt
    | None => ret tt
    end in
  ret (VList (VInt <$> ints start end_)).

(** ** Aggregations *)

(** The classification pass of [sum]: [(all_int, all_float)]. *)
Fixpoint sum_classify (items : list Value) (all_int all_float : bool) (range : TokenRange) : Call (bool * bool) :=
  match items with
  | [] => ret (all_int, all_float)
  | VInt _ :: items => sum_classify items all_int false range
  | VFloat _ :: items => sum_classify items false all_float range
  | v :: _ => mismatch "List<Int> or List<Float>" (type_name v) range
  end.

Fixpoint sum_ints (acc : Z) (items : list Value) (range : TokenRange) : Call Z :=
  match items with
  | [] => ret acc
  | VInt x :: items =>
      match Arith.checked (acc + x) with
      | Some acc => sum_ints acc items range
      | None => fail (NumericOverflow range)
      end
  | _ :: items => sum_ints acc items range
  end.

Fixpoint sum_floats (acc : Z) (items : list Value) : Z :=
  match items with
  | [] => acc
  | VFloat x :: items => sum_floats (Arith.f64_add acc x) items
  | _ :: items => sum_floats acc items
  end.

Definition ListSum : RelonFunction := fun args range =>
  let! _ := expect_arg_count (positional args) 1 range in
  let! arg0 := index (positional args) 0 in
  let! items := expect_list arg0 range in
  let! (all_int, all_float) := sum_classify items true true range in
  if all_int then let! acc := sum_ints 0 items range in ret (VInt acc)
  else if all_float then ret (VFloat (sum_floats 0 items))
  else ret (VInt 0).

(** The loops of [max] and [min], with the test that replaces the accumulator. *)
Fixpoint extremum_ints (better : Z -> Z -> bool) (acc : Z) (items : list Value) (range : TokenRange) : Call Z :=
  match items with
  | [] => ret acc
  | v :: items =>
      let! x := expect_int v range in
      extremum_ints better (if better x acc then x else acc) items range
  end.

Fixpoint extremum_floats (better : Z -> Z -> bool) (acc : Z) (items : list Value) (range : TokenRange) : Call Z :=
  match items with
  | [] => ret acc
  | VFloat x :: items => extremum_floats better (if better x acc then x else acc) items range
  | other :: _ => mismatch "List<Float>" (type_name other) range
  end.

Definition extremum (better_int better_float : Z -> Z -> bool) : RelonFunction := fun args range =>
  let! _ := expect_arg_count (positional args) 1 range in
  let! arg0 := index (positional args) 0 in
  let! items := expect_list arg0 range in
  match items with
  | [] => mismatch "non-empty list" "empty list" range
  | VInt seed :: rest => let! acc := extremum_ints better_int seed rest range in ret (VInt acc)
  | VFloat seed :: rest => let! acc := extremum_floats better_float seed rest range in ret (VFloat acc)
  | other :: _ => mismatch "List<Int> or List<Float>" (type_name other) range
  end.

Definition ListMax : RelonFunction := extremum (fun x acc => acc <? x) (fun x acc => Arith.f64_lt acc x).
Definition ListMin : RelonFunction := extremum (fun x acc => x <? acc) (fun x acc => Arith.f64_lt x acc).

(** The two nested loops over [i < j]. *)
Fixpoint unique_loop (xs : list Value) : bool :=
  match xs with
  | [] => true
  | x :: xs => if existsb (value_eq x) xs then false else unique_loop xs
  end.

Definition ListUnique : RelonFunction := fun args range =>
  let! _ := expect_arg_count (positional args) 1 range in
  let! arg0 := index (positional args) 0 in
  let! xs := expect_list arg0 range in
  ret (VBool (unique_loop xs)).

Definition Type_ : RelonFunction := fun args range =>
  let! _ := expect_arg_count (positional args) 1 range in
  let! arg0 := index (positional args) 0 in
  ret (VString (type_name arg0)).
End Lists.
End StdLists.
