(* ===== verification/StdMath.v ===== *)
(** The numeric functions of [crates/relon-evaluator/src/stdlib.rs]. *)

From Stdlib Require Import ZArith Lia Bool.
From Stdlib Require Import Floats.SpecFloat.
From stdpp Require Import base list strings.
From S2P Require Import Prelude Bytes SchemaCanonical Value NumberLit Arith Native.
Local Open Scope Z_scope.
Local Open Scope abi_scope.

Module StdMath.
Import Native.

(** ** Floats *)

(** [f64::abs] clears the sign bit. *)
Definition f64_abs (bits : Z) : Z := bits mod 2 ^ 63.

(** The integers around a finite double [+-m * 2^e]. *)
Definition floor_ratio (m e : Z) : Z := if 0 <=? e then m * 2 ^ e else m / 2 ^ (- e).
Definition signed (s : bool) (m : positive) : Z := if s then Z.neg m else Z.pos m.

Definition floor_int (s : bool) (m : positive) (e : Z) : Z := floor_ratio (signed s m) e.
Definition ceil_int (s : bool) (m : positive) (e : Z) : Z := - floor_ratio (- signed s m) e.
(** Halves go to the even neighbour. *)
Definition round_int (s : bool) (m : positive) (e : Z) : Z :=
  if 0 <=? e then signed s m * 2 ^ e else
  let v := signed s m in
  let d := 2 ^ (- e) in
  let q := v / d in
  let r := v mod d in
  if 2 * r <? d then q else if d <? 2 * r then q + 1 else if Z.even q then q else q + 1.

(** [x as i64] saturates, and sends NaN to 0. *)
Definition saturate (v : Z) : Z := Z.max (- 2 ^ 63) (Z.min v (2 ^ 63 - 1)).

(** [x.floor() as i64] and the like: rounding a double to an integer is exact, so that only the
    cast can change the value. *)
Definition f64_to_int (round : bool -> positive -> Z -> Z) (bits : Z) : Z :=
  match Arith.to_spec bits with
  | S754_finite s m e => saturate (round s m e)
  | S754_infinity s => if s then - 2 ^ 63 else 2 ^ 63 - 1
  | S754_zero _ | S754_nan => 0
  end.

(** [f64::trunc] and [f64::fract] *)
Definition f64_trunc (bits : Z) : Z :=
  match Arith.to_spec bits with
  | S754_finite s m e =>
      if 0 <=? e then bits
      else Arith.of_spec (binary_normalize 53 1024 (signed s m ÷ 2 ^ (- e)) 0 s)
  | _ => bits
  end.
Definition f64_fract (bits : Z) : Z := Arith.f64_sub bits (f64_trunc bits).

(** [1e-9] *)
Definition EPSILON_9 : Z := 0x3E112E0BE826D695.

Section Math.
Context {H : HostTypes} {TokenRange : Type} {Caps : NativeFnCaps TokenRange}.

Definition MathAbsFloat : RelonFunction := fun args range =>
  let! _ := expect_arg_count (positional args) 1 range in
  let! arg0 := index (positional args) 0 in
  match arg0 with
  | VFloat f => ret (VFloat (f64_abs f))
  | other => mismatch "Float" (type_name other) range
  end.

Definition to_f64_val (v : Value) : Z :=
  match v with VInt n => i64_as_f64 n | VFloat f => f | _ => 0 end.

Definition InRange : RelonFunction := fun args range =>
  let! _ := expect_arg_count (positional args) 3 range in
  let! arg0 := index (positional args) 0 in
  let! arg1 := index (positional args) 1 in
  let! arg2 := index (positional args) 2 in
  let n := to_f64_val arg0 in
  let lo := to_f64_val arg1 in
  let hi := to_f64_val arg2 in
  ret (VBool (Arith.f64_le lo n && Arith.f64_le n hi)).

(** [n % d] of two [i64]: the quotient of [i64::MIN] and [-1] overflows, which panics. *)
Definition rem_i64 (n d : Z) : Call Z :=
  match Arith.checked_rem n d with Some r => ret r | None => panic end.

(** [(n / d).fract().abs() < 1e-9] *)
Definition float_multiple (n d : Z) : bool := Arith.f64_lt (f64_abs (f64_fract (Arith.f64_div n d))) EPSILON_9.

Definition MultipleOf : RelonFunction := fun args range =>
  let! _ := expect_arg_count (positional args) 2 range in
  let! arg0 := index (positional args) 0 in
  let! arg1 := index (positional args) 1 in
  let! result :=
    match arg0, arg1 with
    | VInt n, VInt d => if d =? 0 then ret false else let! r := rem_i64 n d in ret (r =? 0)
    | VFloat n, VFloat d => ret (if Arith.f64_eq d 0 then false else float_multiple n d)
    | VInt n, VFloat d => ret (if Arith.f64_eq d 0 then false else float_multiple (i64_as_f64 n) d)
    | VFloat n, VInt d => ret (if d =? 0 then false else float_multiple n (i64_as_f64 d))
    | _, _ => mismatch "Int or Float operands" (type_name arg0 +:+ " / " +:+ type_name arg1) range
    end in
  ret (VBool result).

(** [round], [floor] and [ceil] *)
Definition rounding (round : bool -> positive -> Z -> Z) : RelonFunction := fun args range =>
  let! _ := expect_arg_count (positional args) 1 range in
  let! arg0 := index (positional args) 0 in
  match arg0 with
  | VInt n => ret (VInt n)
  | VFloat f => ret (VInt (f64_to_int round f))
  | other => mismatch "Number" (type_name other) range
  end.

Definition MathRound : RelonFunction := rounding round_int.
Definition MathFloor : RelonFunction := rounding floor_int.
Definition MathCeil : RelonFunction := rounding ceil_int.

Definition MathSqrt : RelonFunction := fun args range =>
  let! _ := expect_arg_count (positional args) 1 range in
  let! arg0 := index (positional args) 0 in
  ret (VFloat (Arith.of_spec (SFsqrt 53 1024 (Arith.to_spec (to_f64_val arg0))))).

(** [powf] is the platform's. *)
Definition MathPow (powf : Z -> Z -> Z) : RelonFunction := fun args range =>
  let! _ := expect_arg_count (positional args) 2 range in
  let! arg0 := index (positional args) 0 in
  let! arg1 := index (positional args) 1 in
  ret (VFloat (powf (to_f64_val arg0) (to_f64_val arg1))).
End Math.
End StdMath.
