(* ===== verification/StdStrings.v ===== *)
(** The functions on strings of [crates/relon-evaluator/src/stdlib.rs], with the operations on
    [str] they call.  A string is the list of its UTF-8 bytes. *)

From Stdlib Require Import ZArith Lia Bool.
From coqutil Require Import Byte.
From stdpp Require Import base list strings.
From S2P Require Import Prelude Bytes SchemaCanonical Value Chars Glob SmolStr Lexer CaseFold Normalization Arith Native.
Local Open Scope Z_scope.
Local Open Scope abi_scope.

Module StdStrings.
Import Native.

(** ** Operations on [str] *)

Definition codes (s : string) : list Z := map byte.unsigned (as_bytes s).
Definition of_codes (l : list Z) : string := str_of_bytes (map byte.of_Z l).

(** [str::split] of a non-empty separator: the matches are taken from the left and do not
    overlap.  [skip] counts the bytes left of the match just found, [cur] is the current piece
    in reverse. *)
Fixpoint split_bytes (sep l : list Z) (skip : nat) (cur : list Z) : list (list Z) :=
  match l with
  | [] => [rev cur]
  | c :: rest =>
      match skip with
      | S skip => split_bytes sep rest skip cur
      | O =>
          if Lex.prefix_of sep l then rev cur :: split_bytes sep rest (length sep - 1) []
          else split_bytes sep rest O (c :: cur)
      end
  end.

Definition split (sep l : list Z) : list (list Z) := split_bytes sep l 0 [].

(** [parts.join(sep)] *)
Fixpoint join (sep : list Z) (parts : list (list Z)) : list Z :=
  match parts with
  | [] => []
  | [p] => p
  | p :: parts => p ++ sep ++ join sep parts
  end.

(** [input.matches(from).count()] for a non-empty pattern; [skip] as in [split_bytes]. *)
Fixpoint count_matches (from l : list Z) (skip : nat) : nat :=
  match l with
  | [] => O
  | _ :: rest =>
      match skip with
      | S skip => count_matches from rest skip
      | O => if Lex.prefix_of from l then S (count_matches from rest (length from - 1)) else count_matches from rest O
      end
  end.
Definition matches_count (from l : list Z) : nat := count_matches from l 0.

(** [str::replace] of a non-empty pattern: one pass that copies what lies between the matches and
    puts [to] for each of them. *)
Fixpoint replace_bytes (from to l : list Z) (skip : nat) : list Z :=
  match l with
  | [] => []
  | c :: rest =>
      match skip with
      | S skip => replace_bytes from to rest skip
      | O =>
          if Lex.prefix_of from l then to ++ replace_bytes from to rest (length from - 1)
          else c :: replace_bytes from to rest O
      end
  end.

(** [input.replace(from, to)]: an empty pattern matches before every character and at the end. *)
Definition replace (from to l : list Z) : list Z :=
  match from with
  | [] => to ++ concat (map (fun c => utf8_encode c ++ to) (code_points l))
  | _ => replace_bytes from to l 0
  end.

Definition contains (l needle : list Z) : bool := match Lex.find_bytes needle l with Some _ => true | None => false end.
Definition starts_with (l p : list Z) : bool := Lex.prefix_of p l.
Definition ends_with (l p : list Z) : bool := Lex.prefix_of (rev p) (rev l).

Fixpoint drop_while (p : Z -> bool) (cs : list Z) : list Z :=
  match cs with c :: cs' => if p c then drop_while p cs' else cs | [] => [] end.

(** [trim_start], [trim_end] and [trim], over the characters *)
Definition trim_start (cs : list Z) : list Z := drop_while char_is_whitespace cs.
Definition trim_end (cs : list Z) : list Z := rev (drop_while char_is_whitespace (rev cs)).
Definition trim (cs : list Z) : list Z := trim_end (trim_start cs).

(** [s.char_indices().find(|(i, _)| *i >= pos)], or the length *)
Fixpoint ceil_boundary (cs : list Z) (i pos : Z) : Z :=
  match cs with
  | [] => i
  | c :: cs => if pos <=? i then i else ceil_boundary cs (i + Z.of_nat (length (utf8_encode c))) pos
  end.

Section Strings.
Context {H : HostTypes} {TokenRange : Type} {Caps : NativeFnCaps TokenRange}.

(** ** Splitting, joining, replacing *)

Fixpoint tick_each {A} (l : list A) (range : TokenRange) : Call unit :=
  match l with
  | [] => ret tt
  | _ :: l => let! _ := tick 1 range in tick_each l range
  end.

Definition StringSplit : RelonFunction := fun args range =>
  let! _ := expect_arg_count (positional args) 2 range in
  let! arg0 := index (positional args) 0 in
  let! input := expect_string arg0 range in
  let! arg1 := index (positional args) 1 in
  let! separator := expect_string arg1 range in
  if (String.length separator =? 0)%nat then fail (UnsupportedOperator "split separator cannot be empty" range)
  else
    let parts := split (codes separator) (codes input) in
    let! _ := tick_each parts range in
    ret (VList (map (fun p => VString (of_codes p)) parts)).

Definition StringJoin : RelonFunction := fun args range =>
  let! _ := expect_arg_count (positional args) 2 range in
  let! arg0 := index (positional args) 0 in
  let! values := expect_list arg0 range in
  let! arg1 := index (positional args) 1 in
  let! separator := expect_string arg1 range in
  let! _ := tick_each values range in
  ret (VString (of_codes (join (codes separator) (map (fun v => codes (display v)) values)))).

Definition StringReplace : RelonFunction := fun args range =>
  let! _ := expect_arg_count (positional args) 3 range in
  let! arg0 := index (positional args) 0 in
  let! input := expect_string arg0 range in
  let! arg1 := index (positional args) 1 in
  let! from := expect_string arg1 range in
  let! arg2 := index (positional args) 2 in
  let! to := expect_string arg2 range in
  let occurrences :=
    if (String.length from =? 0)%nat then (length (chars input) + 1)%nat
    else matches_count (codes from) (codes input) in
  let! _ := if (0 <? occurrences)%nat then tick (Z.of_nat occurrences) range else ret tt in
  ret (VString (of_codes (replace (codes from) (codes to) (codes input)))).

(** ** Predicates *)

(** A function of two strings to a boolean. *)
Definition string_test (test : string -> string -> Call bool) : RelonFunction := fun args range =>
  let! _ := expect_arg_count (positional args) 2 range in
  let! arg0 := index (positional args) 0 in
  let! s := expect_string arg0 range in
  let! arg1 := index (positional args) 1 in
  let! t := expect_string arg1 range in
  let! b := test s t in
  ret (VBool b).

Definition StringContains : RelonFunction := string_test (fun s t => ret (contains (codes s) (codes t))).
Definition StringStartsWith : RelonFunction := string_test (fun s t => ret (starts_with (codes s) (codes t))).
Definition StringEndsWith : RelonFunction := string_test (fun s t => ret (ends_with (codes s) (codes t))).
Definition StringGlobMatch : RelonFunction :=
  string_test (fun s t => match Glob.glob_match s t with Some b => ret b | None => panic end).

(** ** Parts of strings *)

Definition StringConcat : RelonFunction := fun args range =>
  let! _ := expect_arg_count (positional args) 2 range in
  let! arg0 := index (positional args) 0 in
  let! lhs := expect_string arg0 range in
  let! arg1 := index (positional args) 1 in
  let! rhs := expect_string arg1 range in
  ret (VString (lhs +:+ rhs)).

(** [&s[i..j]] *)
Definition str_slice (s : list Z) (i j : Z) : Call (list Z) :=
  match Lex.str_slice s (Z.to_nat i) (Z.to_nat j) with Ok l => ret l | _ => panic end.

(** [a + b] in [usize] *)
Definition usize_sum (a b : Z) : Call Z := if a + b <=? USIZE_MAX then ret (a + b) else panic.

Definition StringSubstring : RelonFunction := fun args range =>
  let! _ := expect_arg_count (positional args) 3 range in
  let! arg0 := index (positional args) 0 in
  let! s := expect_string arg0 range in
  let! arg1 := index (positional args) 1 in
  let! start := expect_int arg1 range in
  let! arg2 := index (positional args) 2 in
  let! length := expect_int arg2 range in
  let s_len := Z.of_nat (String.length s) in
  let start := Z.max 0 (Z.min start s_len) in
  let length := Z.max length 0 in
  let! sum := usize_sum start length in
  let end_ := Z.min sum s_len in
  if end_ <=? start then ret (VString EmptyString)
  else
    let real_start := ceil_boundary (chars s) 0 start in
    let real_end := ceil_boundary (chars s) 0 end_ in
    let! part := str_slice (codes s) real_start real_end in
    ret (VString (of_codes part)).

Definition trimming (f : list Z -> list Z) : RelonFunction := fun args range =>
  let! _ := expect_arg_count (positional args) 1 range in
  let! arg0 := index (positional args) 0 in
  let! s := expect_string arg0 range in
  ret (VString (of_codes (encode_all (f (chars s))))).

Definition StringTrim : RelonFunction := trimming trim.
Definition StringTrimStart : RelonFunction := trimming trim_start.
Definition StringTrimEnd : RelonFunction := trimming trim_end.

(** [upper], [lower] and [title], on the [SmolStr] that holds the string. *)
Definition fold_smol {C : CharCase} (s : string) (mode : CaseFoldMode) (locale_turkish : bool) : outcome unit string :=
  let* smol := Smol.from_string s in
  let* folded := case_fold smol mode locale_turkish in
  Smol.as_str folded.

Definition case_folding {C : CharCase} (mode : CaseFoldMode) : RelonFunction := fun args range =>
  let! _ := expect_arg_count (positional args) 1 range in
  let! arg0 := index (positional args) 0 in
  let! smol := expect_string arg0 range in
  match fold_smol smol mode false with Ok t => ret (VString t) | _ => panic end.

Definition case_folding_locale {C : CharCase} (mode : CaseFoldMode) : RelonFunction := fun args range =>
  let! _ := expect_arg_count (positional args) 2 range in
  let! arg0 := index (positional args) 0 in
  let! smol := expect_string arg0 range in
  let! arg1 := index (positional args) 1 in
  let! locale := expect_string arg1 range in
  let tr := is_turkish_locale locale in
  match fold_smol smol mode tr with Ok t => ret (VString t) | _ => panic end.

Definition StringUpper {C : CharCase} : RelonFunction := case_folding Upper.
Definition StringLower {C : CharCase} : RelonFunction := case_folding Lower.
Definition StringTitle {C : CharCase} : RelonFunction := case_folding Title.
Definition StringUpperLocale {C : CharCase} : RelonFunction := case_folding_locale Upper.
Definition StringLowerLocale {C : CharCase} : RelonFunction := case_folding_locale Lower.
Definition StringTitleLocale {C : CharCase} : RelonFunction := case_folding_locale Title.

Definition normalizing (f : string -> outcome unit string) : RelonFunction := fun args range =>
  let! _ := expect_arg_count (positional args) 1 range in
  let! arg0 := index (positional args) 0 in
  let! s := expect_string arg0 range in
  match f s with Ok t => ret (VString t) | _ => panic end.

Definition StringNfc : RelonFunction := normalizing Normalization.to_nfc.
Definition StringNfd : RelonFunction := normalizing Normalization.to_nfd.
Definition StringNfkc : RelonFunction := normalizing Normalization.to_nfkc.
Definition StringNfkd : RelonFunction := normalizing Normalization.to_nfkd.

(** [matches]: [regex::Regex::new] gives a matcher or the text of its error. *)
Definition StringMatches (regex_new : string -> outcome string (string -> bool)) : RelonFunction := fun args range =>
  let! _ := expect_arg_count (positional args) 2 range in
  let! arg0 := index (positional args) 0 in
  let! s := expect_string arg0 range in
  let! arg1 := index (positional args) 1 in
  let! pattern := expect_string arg1 range in
  match regex_new pattern with
  | Ok is_match => ret (VBool (is_match s))
  | Err e => fail (ValidationError ("invalid regex: " +:+ e) range)
  | Abort => panic
  end.
End Strings.
End StdStrings.
