(* ===== verification/StdDicts.v ===== *)
(** The functions on dictionaries, the iterators and [to_json] of
    [crates/relon-evaluator/src/stdlib.rs] with [iter_protocol.rs]. *)

From Stdlib Require Import ZArith Lia Bool.
From stdpp Require Import base list strings.
From S2P Require Import Prelude Bytes SchemaCanonical Value Chars Arith Native StdStrings.
Local Open Scope Z_scope.
Local Open Scope abi_scope.

Module StdDicts.
Import Native.

Section Dicts.
Context {H : HostTypes} {TokenRange : Type} {Caps : NativeFnCaps TokenRange}.

Definition dict_len (m : list (string * Value)) : Z := Z.of_nat (length m).

(** The charge for a scan over a map. *)
Definition tick_entries (m : list (string * Value)) (range : TokenRange) : Call unit :=
  match m with [] => ret tt | _ => tick (dict_len m) range end.

Fixpoint merge_loop (result : Value) (patches : list Value) (range : TokenRange) : Call Value :=
  match patches with
  | [] => ret result
  | patch :: patches =>
      let! _ := match patch with VDict d => tick_entries (dict_map d) range | _ => ret tt end in
      merge_loop (deep_merge result patch) patches range
  end.

Definition DictMerge : RelonFunction := fun args range =>
  match positional args with
  | [] => mismatch "at least 1 argument" "0" range
  | base :: patches =>
      let! result := merge_loop base patches range in
      match result with
      | VDict _ => ret result
      | other => mismatch "Dict" (type_name other) range
      end
  end.

Definition DictKeys : RelonFunction := fun args range =>
  let! _ := expect_arg_count (positional args) 1 range in
  let! arg0 := index (positional args) 0 in
  let! d := expect_dict arg0 range in
  let! _ := tick_entries (dict_map d) range in
  ret (VList (map (fun kv => VString (fst kv)) (dict_map d))).

Definition DictValues : RelonFunction := fun args range =>
  let! _ := expect_arg_count (positional args) 1 range in
  let! arg0 := index (positional args) 0 in
  let! d := expect_dict arg0 range in
  let! _ := tick_entries (dict_map d) range in
  ret (VList (map snd (dict_map d))).

Definition contains_key (k : string) (m : list (string * Value)) : bool :=
  match map_get k m with Some _ => true | None => false end.

Definition DictHasKey : RelonFunction := fun args range =>
  let! _ := expect_arg_count (positional args) 2 range in
  let! arg0 := index (positional args) 0 in
  let! d := expect_dict arg0 range in
  let! arg1 := index (positional args) 1 in
  let! k := expect_string arg1 range in
  ret (VBool (contains_key k (dict_map d))).

(** [Value::dict] *)
Definition plain_dict (m : list (string * Value)) : Value := VDict (MkDict m None None).

Definition select_keys (m : list (string * Value)) (keys : list string) : list (string * Value) :=
  foldl (fun out k => match map_get k m with Some v => map_insert k v out | None => out end) [] keys.

Definition DictSelectKeys : RelonFunction := fun args range =>
  let! _ := expect_arg_count (positional args) 2 range in
  let! arg0 := index (positional args) 0 in
  let! d := expect_dict arg0 range in
  let! arg1 := index (positional args) 1 in
  let! keys := expect_string_list arg1 range in
  ret (plain_dict (select_keys (dict_map d) keys)).

Definition omit_keys (m : list (string * Value)) (keys : list string) : list (string * Value) :=
  foldl (fun out kv => if bool_decide (fst kv ∈ keys) then out else map_insert (fst kv) (snd kv) out) [] m.

Definition DictOmitKeys : RelonFunction := fun args range =>
  let! _ := expect_arg_count (positional args) 2 range in
  let! arg0 := index (positional args) 0 in
  let! d := expect_dict arg0 range in
  let! arg1 := index (positional args) 1 in
  let! keys := expect_string_list arg1 range in
  ret (plain_dict (omit_keys (dict_map d) keys)).

(** ** Iterators *)

Definition BRAND : string := "Iter".
Definition FIELD_KIND : string := "_kind".
Definition FIELD_SOURCE : string := "_source".
Definition FIELD_ID : string := "_id".
Definition KIND_LIST : string := "list".
Definition KIND_STRING : string := "string".
Definition KIND_DICT_ENTRIES : string := "dict_entries".

(** [x as i64] and [x as u64] *)
Definition u64_as_i64 (x : Z) : Z := if x <? 2 ^ 63 then x else x - 2 ^ 64.
Definition i64_as_u64 (x : Z) : Z := x mod 2 ^ 64.

Definition make_iter_value (kind : string) (source : Value) : Call Value := fun w =>
  let '(id, w) := next_iter_id w in
  let map := map_insert FIELD_KIND (VString kind) [] in
  let map := map_insert FIELD_SOURCE source map in
  let map := map_insert FIELD_ID (VInt (u64_as_i64 id)) map in
  (Ok (branded_dict map (Some BRAND)), w).

Definition IterFromList : RelonFunction := fun args range =>
  let! _ := expect_arg_count (positional args) 1 range in
  let! arg0 := index (positional args) 0 in
  let! _ := expect_list arg0 range in
  make_iter_value KIND_LIST arg0.

Definition IterFromString : RelonFunction := fun args range =>
  let! _ := expect_arg_count (positional args) 1 range in
  let! arg0 := index (positional args) 0 in
  let! _ := expect_string arg0 range in
  make_iter_value KIND_STRING arg0.

Definition IterFromDict : RelonFunction := fun args range =>
  let! _ := expect_arg_count (positional args) 1 range in
  let! arg0 := index (positional args) 0 in
  let! _ := expect_dict arg0 range in
  make_iter_value KIND_DICT_ENTRIES arg0.

Definition option_value (inner : option Value) : Value :=
  match inner with Some v => option_some v | None => option_none end.

(** The cursor of an iterator over [len] elements, and the element there. *)
Definition fetch (iter_id len : Z) (element : nat -> Call Value) : Call (option Value) := fun w =>
  match iter_cursor_fetch_and_inc iter_id len w with
  | (Some idx, w) => (let! v := element (Z.to_nat idx) in ret (Some v)) w
  | (None, w) => (Ok None, w)
  end.

Definition get_string_field (m : list (string * Value)) (k : string) : option string :=
  match map_get k m with Some (VString s) => Some s | _ => None end.
Definition get_int_field (m : list (string * Value)) (k : string) : option Z :=
  match map_get k m with Some (VInt i) => Some i | _ => None end.

(** [opt.ok_or_else(..)?] *)
Definition require {A} (o : option A) (expected found : string) (range : TokenRange) : Call A :=
  match o with Some a => ret a | None => mismatch expected found range end.

Definition iter_element (kind : string) (source : Value) (iter_id : Z) (range : TokenRange) : Call (option Value) :=
  if bool_decide (kind = KIND_LIST) then
    match source with
    | VList items => fetch iter_id (Z.of_nat (length items)) (index items)
    | other => mismatch "List source for Iter(kind=list)" (type_name other) range
    end
  else if bool_decide (kind = KIND_STRING) then
    match source with
    | VString s =>
        let cs := chars s in
        fetch iter_id (Z.of_nat (length cs))
          (fun idx => let! c := index cs idx in ret (VString (StdStrings.of_codes (utf8_encode c))))
    | other => mismatch "String source for Iter(kind=string)" (type_name other) range
    end
  else if bool_decide (kind = KIND_DICT_ENTRIES) then
    match source with
    | VDict src =>
        fetch iter_id (dict_len (dict_map src))
          (fun idx =>
             let '(key, v) := default (EmptyString, option_none) (dict_map src !! idx) in
             ret (VTuple [VString key; v]))
    | other => mismatch "Dict source for Iter(kind=dict_entries)" (type_name other) range
    end
  else mismatch "Iter._kind in {list, string, dict_entries}" kind range.

Definition IterNext : RelonFunction := fun args range =>
  let! _ := expect_arg_count (positional args) 1 range in
  let! arg0 := index (positional args) 0 in
  let! iter_dict := expect_dict arg0 range in
  if negb (bool_decide (dict_brand iter_dict = Some BRAND)) then
    mismatch BRAND (default "Dict"%string (dict_brand iter_dict)) range
  else
    let m := dict_map iter_dict in
    let! kind := require (get_string_field m FIELD_KIND) "Iter with `_kind` String field" "Iter without `_kind`" range in
    let! source := require (map_get FIELD_SOURCE m) "Iter with `_source` field" "Iter without `_source`" range in
    let! id := require (get_int_field m FIELD_ID) "Iter with `_id` Int field" "Iter without `_id`" range in
    let! element := iter_element kind source (i64_as_u64 id) range in
    ret (option_value element).

(** ** JSON *)

(** [serde_json::Value] *)
Inductive Json : Type :=
| JNull
| JBool (b : bool)
| JInt (i : Z)
| JFloat (bits : Z)
| JString (s : string)
| JArray (items : list Json)
| JObject (fields : list (string * Json)).

Abbreviation E := (NativeError TokenRange Foreign).

Definition f64_is_finite (bits : Z) : bool := negb (Arith.f64_exponent bits =? 2047).

Fixpoint value_to_json (value : Value) (range : TokenRange) : outcome E Json :=
  let items_to_json := fix items_to_json (items : list Value) : outcome E (list Json) :=
    match items with
    | [] => Ok []
    | item :: items =>
        let* j := value_to_json item range in
        let* js := items_to_json items in
        Ok (j :: js)
    end in
  let map_to_json := fix map_to_json (m : list (string * Value)) : outcome E (list (string * Json)) :=
    match m with
    | [] => Ok []
    | (k, v) :: m =>
        let* j := value_to_json v range in
        let* js := map_to_json m in
        Ok ((k, j) :: js)
    end in
  (* the payload of [Some] *)
  let payload := fix payload (m : list (string * Value)) : option (outcome E Json) :=
    match m with
    | [] => None
    | (k, v) :: m => if bool_decide (k = "value"%string) then Some (value_to_json v range) else payload m
    end in
  match value with
  | VBool b => Ok (JBool b)
  | VInt i => Ok (JInt i)
  | VFloat f =>
      if f64_is_finite f then Ok (JFloat f)
      else Err (ValidationError "to_json cannot serialise non-finite Float" range)
  | VString s => Ok (JString s)
  | VList items | VTuple items => let* js := items_to_json items in Ok (JArray js)
  | VDict d =>
      if is_option_none value then Ok JNull
      else
        let inner := if bool_decide (dict_variant_of d = Some "Option"%string) &&
                        bool_decide (dict_brand d = Some "Some"%string) then payload (dict_map d) else None in
        match inner with
        | Some j => j
        | None => let* js := map_to_json (dict_map d) in Ok (JObject js)
        end
  | _ => Err (ValidationError ("to_json cannot serialise " +:+ type_name value) range)
  end.

(** [serde_json::to_string] renders the tree or reports an error. *)
Definition ToJson (to_string : Json -> outcome string string) : RelonFunction := fun args range =>
  let! _ := expect_arg_count (positional args) 1 range in
  let! arg0 := index (positional args) 0 in
  let! json := fun w => (value_to_json arg0 range, w) in
  match to_string json with
  | Ok s => ret (VString s)
  | Err e => fail (ValidationError ("to_json serialise failed: " +:+ e) range)
  | Abort => panic
  end.
End Dicts.
End StdDicts.
