(* ===== verification/StdValidate.v ===== *)
(** The validators of [crates/relon-evaluator/src/stdlib.rs]: the [ensure] family and the
    string formats, with the address parsers of [core::net]. *)

From Stdlib Require Import ZArith Lia Bool.
From stdpp Require Import base list strings pretty.
From S2P Require Import Prelude Bytes SchemaCanonical Value Chars Lexer Arith Native StdStrings StdDicts.
Local Open Scope Z_scope.
Local Open Scope abi_scope.

Module StdValidate.
Import Native StdStrings.

(** ** Formats *)

Definition is_ascii_alphanumeric (c : Z) : bool := Lex.is_ascii_alphabetic c || Lex.is_ascii_digit c.
Definition one_of (s : string) (c : Z) : bool := existsb (Z.eqb c) (codes s).

Definition LOCAL_PART : string := ".!#$%&'*+/=?^_`{|}~-".

Definition is_label (label : list Z) : bool :=
  negb ((length label =? 0)%nat || (63 <? length label)%nat) &&
  forallb (fun c => is_ascii_alphanumeric c || (c =? 45)) (code_points label) &&
  negb (starts_with label [45] || ends_with label [45]).

Definition is_email_str (s : list Z) : bool :=
  match Lex.find_bytes [64] s with
  | None => false
  | Some at_ =>
      let local := take at_ s in
      let domain := drop 1 (drop at_ s) in
      if (length local =? 0)%nat || (64 <? length local)%nat then false
      else if (length domain =? 0)%nat || (255 <? length domain)%nat then false
      else if negb (forallb (fun c => is_ascii_alphanumeric c || one_of LOCAL_PART c) (code_points local)) then false
      else if starts_with local [46] || ends_with local [46] || contains local [46; 46] then false
      else
        let labels := split [46] domain in
        if (length labels <? 2)%nat then false else forallb is_label labels
  end.

Definition is_uri_str (s : list Z) : bool :=
  match Lex.find_bytes [58] s with
  | None => false
  | Some colon =>
      let scheme := take colon s in
      let rest := drop (colon + 1) s in
      if (length scheme =? 0)%nat || (length rest =? 0)%nat then false
      else
        match code_points scheme with
        | [] => false
        | first :: chars =>
            Lex.is_ascii_alphabetic first &&
            forallb (fun c => is_ascii_alphanumeric c || (c =? 43) || (c =? 45) || (c =? 46)) chars
        end
  end.

Fixpoint uuid_loop (i : nat) (bytes : list Z) : bool :=
  match bytes with
  | [] => true
  | b :: bytes =>
      (if bool_decide (i ∈ [8; 13; 18; 23]%nat) then b =? 45 else Lex.is_ascii_hexdigit b) && uuid_loop (S i) bytes
  end.

Definition is_uuid_str (s : list Z) : bool := if (length s =? 36)%nat then uuid_loop 0 s else false.

(** ** Dates *)

(** Decimal digits, as many as there are. *)
Fixpoint digits (acc : Z) (l : list Z) : option Z :=
  match l with
  | [] => Some acc
  | c :: l => if Lex.is_ascii_digit c then digits (10 * acc + (c - 48)) l else None
  end.

(** [str::parse::<u32>] and [str::parse::<i64>] on texts too short to overflow: an optional
    plus sign, for [i64] an optional minus sign, and at least one digit. *)
Definition unsigned (l : list Z) : option Z := match l with [] => None | _ => digits 0 l end.
Definition parse_u32 (l : list Z) : option Z :=
  match l with 43 :: l => unsigned l | _ => unsigned l end.
Definition parse_i64 (l : list Z) : option Z :=
  match l with
  | 43 :: l => unsigned l
  | 45 :: l => Z.opp <$> unsigned l
  | _ => unsigned l
  end.

Definition is_leap (year : Z) : bool := (year mod 4 =? 0) && negb (year mod 100 =? 0) || (year mod 400 =? 0).

Definition max_day (year month : Z) : Z :=
  if bool_decide (month ∈ [1; 3; 5; 7; 8; 10; 12]) then 31
  else if bool_decide (month ∈ [4; 6; 9; 11]) then 30
  else if is_leap year then 29 else 28.

Section Formats.
Context {H : HostTypes} {TokenRange : Type} {Caps : NativeFnCaps TokenRange}.

Definition is_iso_date_str (s : list Z) : Call bool :=
  if negb (length s =? 10)%nat then ret false
  else
    let! b4 := index s 4 in
    let! dash7 := (if b4 =? 45 then let! b7 := index s 7 in ret (b7 =? 45) else ret false) in
    if negb dash7 then ret false
    else
      let! y := str_slice s 0 4 in
      let! m := str_slice s 5 7 in
      let! d := str_slice s 8 10 in
      match parse_u32 y, parse_u32 m, parse_u32 d with
      | Some year, Some month, Some day =>
          if negb ((1 <=? month) && (month <=? 12)) || (day <? 1) then ret false
          else ret (day <=? max_day year month)
      | _, _, _ => ret false
      end.

(** [text.parse().unwrap()] *)
Definition parse_unwrap (l : list Z) : Call Z := match parse_i64 l with Some v => ret v | None => panic end.

Definition ParseIsoDate : RelonFunction := fun args range =>
  let! _ := expect_arg_count (positional args) 1 range in
  let! arg0 := index (positional args) 0 in
  let! s := expect_string arg0 range in
  let! valid := is_iso_date_str (codes s) in
  if negb valid then ret option_none
  else
    let! y := str_slice (codes s) 0 4 in
    let! year := parse_unwrap y in
    let! m := str_slice (codes s) 5 7 in
    let! month := parse_unwrap m in
    let! d := str_slice (codes s) 8 10 in
    let! day := parse_unwrap d in
    let map := map_insert "year" (VInt year) [] in
    let map := map_insert "month" (VInt month) map in
    let map := map_insert "day" (VInt day) map in
    ret (option_some (StdDicts.plain_dict map)).
End Formats.

(** ** Addresses: the parser of [core::net] *)

(** [char::to_digit] *)
Definition to_digit (radix c : Z) : option Z :=
  let d := if Lex.is_ascii_digit c then c - 48
           else if (97 <=? c) && (c <=? 122) then c - 87
           else if (65 <=? c) && (c <=? 90) then c - 55 else 99 in
  if d <? radix then Some d else None.

(** [read_number]: the digits from the front, at most [max_digits]. *)
Fixpoint read_digits (radix : Z) (result : Z) (digit_count : nat) (l : list Z) : Z * nat * list Z :=
  match l with
  | c :: rest =>
      match to_digit radix c with
      | Some d => read_digits radix (result * radix + d) (S digit_count) rest
      | None => (result, digit_count, l)
      end
  | [] => (result, digit_count, [])
  end.

Definition read_number (radix : Z) (max_digits : nat) (allow_zero_prefix : bool) (max_value : Z) (l : list Z)
    : option (Z * list Z) :=
  let has_leading_zero := match l with 48 :: _ => true | _ => false end in
  let '(result, digit_count, rest) := read_digits radix 0 0 l in
  if (max_digits <? digit_count)%nat then None
  else if (digit_count =? 0)%nat then None
  else if negb allow_zero_prefix && has_leading_zero && (1 <? digit_count)%nat then None
  else if max_value <? result then None
  else Some (result, rest).

Definition read_given_char (c : Z) (l : list Z) : option (list Z) :=
  match l with x :: l => if x =? c then Some l else None | [] => None end.

(** [read_separator] *)
Definition read_separator {A} (sep : Z) (index : nat) (inner : list Z -> option (A * list Z)) (l : list Z)
    : option (A * list Z) :=
  match index with
  | O => inner l
  | S _ => match read_given_char sep l with Some l => inner l | None => None end
  end.

Fixpoint read_octets (i count : nat) (l : list Z) : option (list Z * list Z) :=
  match count with
  | O => Some ([], l)
  | S count =>
      match read_separator 46 i (read_number 10 3 false 255) l with
      | Some (o, l) =>
          match read_octets (S i) count l with
          | Some (os, l) => Some (o :: os, l)
          | None => None
          end
      | None => None
      end
  end.

Definition read_ipv4_addr (l : list Z) : option (list Z * list Z) := read_octets 0 4 l.

(** [str::parse::<Ipv4Addr>().is_ok()] *)
Definition is_ipv4_str (l : list Z) : bool :=
  if (15 <? length l)%nat then false
  else match read_ipv4_addr l with Some (_, []) => true | _ => false end.

(** [read_groups]: how many 16-bit groups were read, whether the last two were an IPv4
    address, and the rest. *)
Fixpoint read_groups (i remaining : nat) (l : list Z) : nat * bool * list Z :=
  match remaining with
  | O => (i, false, l)
  | S others =>
      match (if (1 <? remaining)%nat then read_separator 58 i read_ipv4_addr l else None) with
      | Some (_, l) => ((i + 2)%nat, true, l)
      | None =>
          match read_separator 58 i (read_number 16 4 true 65535) l with
          | Some (_, l) => read_groups (S i) others l
          | None => (i, false, l)
          end
      end
  end.

Definition read_ipv6_addr (l : list Z) : option (list Z) :=
  let '(head_size, head_ipv4, l) := read_groups 0 8 l in
  if (head_size =? 8)%nat then Some l
  else if head_ipv4 then None
  else
    match read_given_char 58 l with
    | None => None
    | Some l =>
        match read_given_char 58 l with
        | None => None
        | Some l => let '(_, _, l) := read_groups 0 (8 - (head_size + 1)) l in Some l
        end
    end.

Definition is_ipv6_str (l : list Z) : bool := match read_ipv6_addr l with Some [] => true | _ => false end.

(** ** Library functions *)

Section Validators.
Context {H : HostTypes} {TokenRange : Type} {Caps : NativeFnCaps TokenRange}.

Definition format_test (test : list Z -> Call bool) : RelonFunction := fun args range =>
  let! _ := expect_arg_count (positional args) 1 range in
  let! arg0 := index (positional args) 0 in
  let! s := expect_string arg0 range in
  let! b := test (codes s) in
  ret (VBool b).

Definition IsEmail : RelonFunction := format_test (fun s => ret (is_email_str s)).
Definition IsUri : RelonFunction := format_test (fun s => ret (is_uri_str s)).
Definition IsUuid : RelonFunction := format_test (fun s => ret (is_uuid_str s)).
Definition IsIsoDate : RelonFunction := format_test is_iso_date_str.
Definition IsIpv4 : RelonFunction := format_test (fun s => ret (is_ipv4_str s)).
Definition IsIpv6 : RelonFunction := format_test (fun s => ret (is_ipv6_str s)).

(** The macro [type_validator!]. *)
Definition type_validator (variant : Value -> bool) (expected : string) : RelonFunction := fun args range =>
  let args := positional args in
  let! _ := expect_arg_range args 1 2 "1 or 2 args (value, message?)" range in
  let! arg0 := index args 0 in
  if variant arg0 then ret arg0
  else validation_failure args 1 (TypeMismatch expected (type_name arg0) range) range.

Definition ValidatorInt := type_validator (fun v => match v with VInt _ => true | _ => false end) "Int".
Definition ValidatorString := type_validator (fun v => match v with VString _ => true | _ => false end) "String".
Definition ValidatorBool := type_validator (fun v => match v with VBool _ => true | _ => false end) "Bool".
Definition ValidatorFloat := type_validator (fun v => match v with VFloat _ => true | _ => false end) "Float".
Definition ValidatorList := type_validator (fun v => match v with VList _ => true | _ => false end) "List".
Definition ValidatorDict := type_validator (fun v => match v with VDict _ => true | _ => false end) "Dict".

(** [a <= b], as the two bound validators test it. *)
Definition number_le (a b : Value) : option bool :=
  match a, b with
  | VInt a, VInt b => Some (a <=? b)
  | VFloat a, VFloat b => Some (ordered_le a b)
  | VInt a, VFloat b => Some (Arith.f64_le (i64_as_f64 a) b)
  | VFloat a, VInt b => Some (Arith.f64_le a (i64_as_f64 b))
  | _, _ => None
  end.

Definition bound_validator (test : Value -> Value -> option bool) (sign usage : string) : RelonFunction := fun args range =>
  let args := positional args in
  let! _ := expect_arg_range args 2 3 usage range in
  let! arg0 := index args 0 in
  let! arg1 := index args 1 in
  match test arg0 arg1 with
  | None => mismatch "Number" (type_name arg0) range
  | Some true => ret arg0
  | Some false => validation_failure args 2 (TypeMismatch (sign +:+ display arg1) (display arg0) range) range
  end.

Definition ValidatorMin := bound_validator (fun v m => number_le m v) ">= " "2 or 3 args (value, min, message?)".
Definition ValidatorMax := bound_validator number_le "<= " "2 or 3 args (value, max, message?)".

Definition ValidatorOneOf : RelonFunction := fun args range =>
  let args := positional args in
  let! _ := expect_arg_range args 2 3 "2 or 3 args (value, list, message?)" range in
  let! arg0 := index args 0 in
  let! arg1 := index args 1 in
  match arg1 with
  | VList allowed =>
      if existsb (fun a => value_eq a arg0) allowed then ret arg0
      else validation_failure args 2 (TypeMismatch ("one of " +:+ debug_list allowed) (display arg0) range) range
  | other => mismatch "List for allowed values" (type_name other) range
  end.

Definition RequiredFields : RelonFunction := fun args range =>
  let args := positional args in
  let! _ := expect_arg_range args 2 3 "2 or 3 args (dict, fields, message?)" range in
  let! arg0 := index args 0 in
  let! dict := expect_dict arg0 range in
  let! arg1 := index args 1 in
  let! fields := expect_string_list arg1 range in
  match find (fun field => negb (StdDicts.contains_key field (dict_map dict))) fields with
  | Some field => validation_failure args 2 (ValidationError ("required field `" +:+ field +:+ "` is missing") range) range
  | None => ret arg0
  end.

Definition truthy_field (m : list (string * Value)) (k : string) : bool :=
  match map_get k m with Some v => Arith.is_truthy v | None => false end.

Definition Requires : RelonFunction := fun args range =>
  let args := positional args in
  let! _ := expect_arg_range args 3 4 "3 or 4 args (dict, field, required_field, message?)" range in
  let! arg0 := index args 0 in
  let! dict := expect_dict arg0 range in
  let! arg1 := index args 1 in
  let! field := expect_string arg1 range in
  let! arg2 := index args 2 in
  let! required := expect_string arg2 range in
  if truthy_field (dict_map dict) field && negb (truthy_field (dict_map dict) required) then
    validation_failure args 3
      (ValidationError ("field `" +:+ required +:+ "` is required when `" +:+ field +:+ "` is truthy") range) range
  else ret arg0.

Definition option_eq (a b : option Value) : bool :=
  match a, b with
  | Some a, Some b => value_eq a b
  | None, None => true
  | _, _ => false
  end.

Definition FieldEq : RelonFunction := fun args range =>
  let args := positional args in
  let! _ := expect_arg_range args 3 4 "3 or 4 args (dict, left_field, right_field, message?)" range in
  let! arg0 := index args 0 in
  let! dict := expect_dict arg0 range in
  let! arg1 := index args 1 in
  let! left_field := expect_string arg1 range in
  let! arg2 := index args 2 in
  let! right_field := expect_string arg2 range in
  if negb (option_eq (map_get left_field (dict_map dict)) (map_get right_field (dict_map dict))) then
    validation_failure args 3
      (ValidationError ("fields `" +:+ left_field +:+ "` and `" +:+ right_field +:+ "` must be equal") range) range
  else ret arg0.
End Validators.
End StdValidate.
