(* ===== verification/StdStringFacts.v ===== *)
(** The string functions of the standard library: splitting, joining and replacing are
    inverse and stay within UTF-8, and the slices they take are at character boundaries. *)

From Stdlib Require Import ZArith Lia Bool.
From coqutil Require Import Byte.
From stdpp Require Import base list strings gmap.
From S2P Require Import Prelude Bytes SchemaCanonical Value Chars Glob NumberLit Lexer LexerFacts CaseFold CaseFoldFacts Native StdStrings.
Local Open Scope Z_scope.
Local Open Scope abi_scope.

Module StdStringFacts.
Import Native StdStrings.

(** ** Bytes of strings *)

Lemma of_codes_codes s : of_codes (codes s) = s.
Proof.
  unfold of_codes, codes. rewrite map_map. rewrite (map_ext _ id), map_id; [apply str_of_as_bytes|].
  intros x. apply byte.of_Z_unsigned.
Qed.

Lemma codes_of_codes l : Forall is_u8 l -> codes (of_codes l) = l.
Proof. intros Hl. unfold codes, of_codes. by rewrite as_bytes_of_str, CaseFoldFacts.of_codes. Qed.

Lemma codes_is_u8 s : Forall is_u8 (codes s).
Proof. apply codes_u8. Qed.

Lemma codes_valid s : is_str s = true -> valid_out (codes s).
Proof. intros Hs. split; [apply codes_is_u8|done]. Qed.

Lemma of_codes_valid l : valid_out l -> is_str (of_codes l) = true.
Proof. intros Hl. by apply valid_is_str. Qed.

Lemma length_codes s : length (codes s) = String.length s.
Proof. unfold codes. rewrite length_map. unfold as_bytes. induction s; simpl; [done|]. by rewrite <- IHs. Qed.

Lemma codes_nil s : codes s = [] <-> String.length s = 0%nat.
Proof. rewrite <- length_codes. destruct (codes s); simpl; split; done || lia. Qed.

Lemma valid_nonneg l : valid_out l -> Forall (fun x => 0 <= x) l.
Proof. intros [Hu _]. eapply Forall_impl; [exact Hu|]. unfold is_u8. lia. Qed.

Lemma valid_app a b : valid_out a -> valid_out b -> valid_out (a ++ b).
Proof.
  intros Ha [Hu Hb]. split; [apply Forall_app; split; [apply Ha|done]|].
  rewrite utf8_codes_app; [done|by apply valid_nonneg|apply Ha].
Qed.

Lemma valid_app_inv a b : valid_out a -> valid_out (a ++ b) -> valid_out b.
Proof.
  intros Ha [Hu Hb]. apply Forall_app in Hu as [_ Hu]. split; [done|].
  rewrite utf8_codes_app in Hb; [done|by apply valid_nonneg|apply Ha].
Qed.

(** ** Boundaries *)

Lemma scalar_tail_cont c k x : (0 < k)%nat -> utf8_encode c !! k = Some x -> is_scalar_value c = true -> 128 <= x <= 191.
Proof.
  rewrite scalar_value_iff. intros Hk. unfold utf8_encode.
  repeat match goal with |- context [if ?t then _ else _] => destruct t eqn:? end;
    destruct k as [|[|[|[|k]]]]; simpl; try done; try lia; intros [= <-] Hc; div_mod.
Qed.

(** A byte that is no continuation byte starts a character. *)
Lemma lead_bd b i x : valid_out b -> b !! i = Some x -> ~ (128 <= x <= 191) -> bd b i.
Proof.
  intros Hv Hx Hn. pose proof (valid_nonneg _ Hv) as Hnn.
  assert (forall n j, (i - j <= n)%nat -> (j <= i)%nat -> bd b j -> bd b i) as Hwalk.
  { induction n as [|n IH]; intros j Hj Hji Hb; [by replace i with j by lia|].
    destruct (decide (j = i)) as [->|Hne]; [done|].
    destruct (lookup_lt_is_Some_2 b j) as [y Hy]; [apply lookup_lt_Some in Hx; lia|].
    destruct (bd_head b Hnn j y Hb Hy) as (c & r & Hc & He & Hb'). pose proof (encode_length c) as Hl.
    destruct (decide (j + length (utf8_encode c) <= i)%nat) as [Hle|Hgt]; [by apply (IH (j + length (utf8_encode c))%nat); [lia|..]|].
    exfalso. assert (utf8_encode c !! (i - j)%nat = Some x) as Hin.
    { rewrite <-Hx. replace i with (j + (i - j))%nat at 2 by lia. rewrite <-lookup_drop, He.
      by rewrite lookup_app_l by lia. }
    by apply scalar_tail_cont in Hin; [..|lia|]. }
  apply (Hwalk i 0%nat); [lia..|]. split; [lia|apply Hv].
Qed.

(** The two parts of a string at a boundary. *)
Lemma bd_take_drop b i : valid_out b -> bd b i -> valid_out (take i b) /\ valid_out (drop i b).
Proof.
  intros [Hu Hv] [Hi Hd]. split; [|split; [by apply Forall_drop|done]]. split; [by apply Forall_take|].
  assert (Hdec : forall n b, (length b <= n)%nat -> valid_out b -> forall i, (i <= length b)%nat ->
    utf8_codes (drop i b) = true -> utf8_codes (take i b) = true).
  { clear. induction n as [|n IH]; intros b Hn Hb i Hi Hd; [by destruct b; [destruct i|simpl in Hn; lia]|].
    destruct i as [|i]; [done|]. destruct b as [|x b]; [simpl in Hi; lia|].
    pose proof (valid_nonneg _ Hb) as Hnn.
    destruct (utf8_head x b) as (c & r & Hc & He & Hr); [by apply Forall_cons in Hnn as [? _]|apply Hb|].
    rewrite He in *. pose proof (encode_length c) as Hl.
    assert (Hvr : valid_out r). { split; [|done]. destruct Hb as [Hu _]. by apply Forall_app in Hu as [_ ?]. }
    destruct (decide (length (utf8_encode c) <= S i)%nat) as [Hle|Hgt].
    - rewrite take_app_ge by done. rewrite drop_app_ge in Hd by done. rewrite utf8_codes_encode by done.
      rewrite length_app in Hn, Hi. apply IH; try done; lia.
    - exfalso. rewrite drop_app_le in Hd by lia.
      destruct (lookup_lt_is_Some_2 (utf8_encode c) (S i)) as [y Hy]; [lia|].
      rewrite (drop_S _ _ _ Hy) in Hd. apply scalar_tail_cont in Hy; [|lia|done].
      cbn [app utf8_codes] in Hd. unfold cont_in in Hd.
      assert (y <? 128 = false) as H0 by lia.
      assert (194 <=? y = false) as H1 by lia. assert (225 <=? y = false) as H2 by lia.
      assert (238 <=? y = false) as H3 by lia. assert (y =? 224 = false) as H4 by lia.
      assert (y =? 237 = false) as H5 by lia. assert (y =? 240 = false) as H6 by lia.
      assert (241 <=? y = false) as H7 by lia. assert (y =? 244 = false) as H8 by lia.
      rewrite H0, H1, H2, H3, H4, H5, H6, H7, H8 in Hd. destruct (drop (S (S i)) (utf8_encode c) ++ r) as [|? [|? [|? ?]]]; done. }
  by apply (Hdec (length b)).
Qed.

(** ** Splitting *)

Lemma split_skip sep l skip cur : split_bytes sep l skip cur = split_bytes sep (drop skip l) 0 cur.
Proof.
  revert skip. induction l as [|c l IH]; intros [|skip]; try done. cbn [split_bytes drop]. apply IH.
Qed.

Lemma split_find sep l cur :
  sep <> [] ->
  split_bytes sep l 0 cur =
  match Lex.find_bytes sep l with
  | None => [rev cur ++ l]
  | Some i => (rev cur ++ take i l) :: split sep (drop (i + length sep) l)
  end.
Proof.
  intros Hs. revert cur. induction l as [|c l IH]; intros cur; cbn [split_bytes Lex.find_bytes].
  - destruct sep; [done|]. simpl. by rewrite app_nil_r.
  - destruct (Lex.prefix_of sep (c :: l)) eqn:Hp.
    + rewrite split_skip. simpl. rewrite app_nil_r. f_equal. unfold split. f_equal.
      destruct sep as [|x sep]; [done|]. simpl. by rewrite Nat.sub_0_r.
    + rewrite IH. destruct (Lex.find_bytes sep l) as [i|]; simpl; by rewrite <- app_assoc.
Qed.

Lemma split_unfold sep l :
  sep <> [] ->
  split sep l =
  match Lex.find_bytes sep l with
  | None => [l]
  | Some i => take i l :: split sep (drop (i + length sep) l)
  end.
Proof. intros Hs. unfold split at 1. by rewrite split_find. Qed.

(** Induction along the matches of a separator. *)
Lemma split_ind sep (P : list Z -> Prop) :
  sep <> [] ->
  (forall l, Lex.find_bytes sep l = None -> P l) ->
  (forall l i, Lex.find_bytes sep l = Some i -> P (drop (i + length sep) l) -> P l) ->
  forall l, P l.
Proof.
  intros Hs H1 H2 l. remember (length l) as n eqn:Hn. revert l Hn.
  induction (Nat.lt_wf_0 n) as [n _ IH]. intros l ->.
  destruct (Lex.find_bytes sep l) as [i|] eqn:Hf; [|auto]. eapply H2; [done|].
  apply find_bytes_spec in Hf as [Hi [r Hr]]. eapply IH; [|done]. apply (f_equal length) in Hr.
  rewrite length_app, !length_drop in *. destruct sep; [done|]. simpl in *. lia.
Qed.

Lemma split_not_nil sep l : sep <> [] -> split sep l <> [].
Proof. intros Hs. rewrite split_unfold by done. by destruct (Lex.find_bytes sep l). Qed.

Lemma join_cons sep p parts : parts <> [] -> join sep (p :: parts) = p ++ sep ++ join sep parts.
Proof. by destruct parts. Qed.

Lemma join_split sep l : sep <> [] -> join sep (split sep l) = l.
Proof.
  intros Hs. revert l. apply (split_ind sep); [done|..].
  - intros l Hf. by rewrite split_unfold, Hf.
  - intros l i Hf IH. rewrite split_unfold, Hf, join_cons, IH by (done || by apply split_not_nil).
    apply find_bytes_spec in Hf as [Hi [r Hr]]. rewrite <- drop_drop, Hr, drop_app_length, <- Hr. apply take_drop.
Qed.

Lemma find_bytes_first sep l i : Lex.find_bytes sep l = Some i -> forall j, (j < i)%nat -> Lex.prefix_of sep (drop j l) = false.
Proof.
  revert i. induction l as [|c l IH]; intros i; cbn [Lex.find_bytes].
  - destruct (Lex.prefix_of sep []); [|done]. intros [= <-]. lia.
  - destruct (Lex.prefix_of sep (c :: l)) eqn:Hp; [intros [= <-]; lia|].
    destruct (Lex.find_bytes sep l) as [m|]; [|done]. intros [= <-] [|j] Hj; [done|]. apply (IH m); [done|lia].
Qed.

Lemma find_bytes_none sep l : Lex.find_bytes sep l = None <-> forall j, (j <= length l)%nat -> Lex.prefix_of sep (drop j l) = false.
Proof.
  induction l as [|c l IH]; cbn [Lex.find_bytes].
  - split.
    + destruct (Lex.prefix_of sep []) eqn:E; [done|]. intros _ j _. by rewrite drop_nil.
    + intros Hj. specialize (Hj 0%nat (Nat.le_0_l _)). simpl in Hj. by rewrite Hj.
  - split.
    + destruct (Lex.prefix_of sep (c :: l)) eqn:E; [done|]. destruct (Lex.find_bytes sep l) as [m|]; [done|].
      intros _ [|j] Hj; [done|]. apply IH; [done|simpl in Hj; lia].
    + intros Hj. pose proof (Hj 0%nat (Nat.le_0_l _)) as H0. simpl in H0. change (drop 0 (c :: l)) with (c :: l) in H0.
      rewrite H0. rewrite (proj2 IH); [done|]. intros j ?. apply (Hj (S j)). simpl. lia.
Qed.

(** No piece contains the separator. *)
Lemma split_pieces sep l : sep <> [] -> Forall (fun p => Lex.find_bytes sep p = None) (split sep l).
Proof.
  intros Hs. revert l. apply (split_ind sep); [done|..].
  - intros l Hf. rewrite split_unfold, Hf by done. by repeat constructor.
  - intros l i Hf IH. rewrite split_unfold, Hf by done. constructor; [|done].
    apply find_bytes_none. intros j Hj. apply not_true_is_false. intros [r Hr]%prefix_of_iff.
    pose proof (find_bytes_spec _ _ _ Hf) as [Hi _]. rewrite length_take in Hj.
    destruct (decide (j < i)%nat) as [Hlt|Hge].
    + apply not_true_iff_false with (b := Lex.prefix_of sep (drop j l)); [by apply (find_bytes_first sep l i)|].
      apply prefix_of_iff. exists (r ++ drop i l). rewrite app_assoc, <- Hr, skipn_firstn_comm.
      rewrite <- (take_drop (i - j) (drop j l)) at 1. rewrite drop_drop. by replace (j + (i - j))%nat with i by lia.
    + rewrite drop_ge in Hr by (rewrite length_take; lia). by destruct sep.
Qed.

(** ** UTF-8 *)

Lemma valid_head_lead x l : valid_out (x :: l) -> ~ (128 <= x <= 191).
Proof.
  intros [Hu Hv] Hx. destruct (utf8_head x l) as (c & r & Hc & He & _); [lia|done|].
  revert He. rewrite scalar_value_iff in Hc. unfold utf8_encode.
  repeat match goal with |- context [if ?t then _ else _] => destruct t eqn:? end; zb; intros [= E _]; try lia;
    assert (0 <= c / 64 /\ 0 <= c / 4096 /\ 0 <= c / 262144) by (split_and!; apply Z.div_pos; lia); lia.
Qed.

Lemma find_valid sep l i :
  sep <> [] -> valid_out sep -> valid_out l -> Lex.find_bytes sep l = Some i ->
  valid_out (take i l) /\ valid_out (drop (i + length sep) l).
Proof.
  intros Hs Vs Vl Hf. apply find_bytes_spec in Hf as [Hi [r Hr]]. destruct sep as [|x sep]; [done|].
  assert (Hx : l !! i = Some x). { rewrite <- (Nat.add_0_r i), <- lookup_drop, Hr. done. }
  destruct (bd_take_drop l i Vl) as [V1 V2]. { by eapply lead_bd; [..|eapply valid_head_lead]. }
  split; [done|]. rewrite Hr in V2. rewrite <- drop_drop, Hr, drop_app_length. by apply (valid_app_inv (x :: sep)).
Qed.

Lemma split_valid sep l : sep <> [] -> valid_out sep -> valid_out l -> Forall valid_out (split sep l).
Proof.
  intros Hs Vs. revert l. apply (split_ind sep (fun l => valid_out l -> Forall valid_out (split sep l))); [done|..].
  - intros l Hf Hl. rewrite split_unfold, Hf by done. by apply Forall_singleton.
  - intros l i Hf IH Hl. rewrite split_unfold, Hf by done. destruct (find_valid sep l i) as [V1 V2]; [done..|]. constructor; auto.
Qed.

Lemma valid_nil : valid_out [].
Proof. by split. Qed.

Lemma join_valid sep parts : valid_out sep -> Forall valid_out parts -> valid_out (join sep parts).
Proof.
  intros Vs. induction 1 as [|p parts Hp _ IH]; [apply valid_nil|].
  destruct parts as [|q parts]; [done|]. rewrite join_cons by done. by repeat apply valid_app.
Qed.

Lemma encode_valid c : is_scalar_value c = true -> valid_out (utf8_encode c).
Proof.
  intros Hc. split; [by apply encode_u8|]. rewrite <- (app_nil_r (utf8_encode c)). by rewrite utf8_codes_encode.
Qed.

Lemma encode_all_ok cs : Forall (fun c => is_scalar_value c = true) cs -> valid_out (encode_all cs).
Proof. unfold encode_all. induction 1; simpl; [apply valid_nil|]. apply valid_app; [by apply encode_valid|done]. Qed.

Lemma code_points_scalar l : valid_out l -> Forall (fun c => is_scalar_value c = true) (code_points l).
Proof. intros Hl. by apply utf8_decode_encode; [apply valid_nonneg|apply Hl]. Qed.

Lemma split_bytes_not_nil sep l : forall skip cur, split_bytes sep l skip cur <> [].
Proof.
  induction l as [|c l IH]; intros skip cur; cbn [split_bytes]; [done|]. destruct skip; [|apply IH].
  destruct (Lex.prefix_of _ _); [done|apply IH].
Qed.

(** The one-pass replacement joins the parts with the replacement. *)
Lemma replace_bytes_split from to l : forall skip cur,
  rev cur ++ replace_bytes from to l skip = join to (split_bytes from l skip cur).
Proof.
  induction l as [|c l IH]; intros skip cur; cbn [replace_bytes split_bytes]; [by rewrite app_nil_r|].
  destruct skip as [|skip]; [|apply IH]. destruct (Lex.prefix_of from (c :: l)).
  - rewrite join_cons by apply split_bytes_not_nil. by rewrite <-(IH (length from - 1)%nat []).
  - rewrite <-IH. cbn [rev]. by rewrite <-app_assoc.
Qed.

Lemma replace_split from to l : from <> [] -> replace from to l = join to (split from l).
Proof. intros Hf. destruct from; [done|]. apply (replace_bytes_split _ to l 0 []). Qed.

Lemma matches_split from l : length (split from l) = S (matches_count from l).
Proof.
  unfold split, matches_count. generalize 0%nat, (@nil Z).
  induction l as [|c l IH]; intros skip cur; cbn [split_bytes count_matches]; [done|].
  destruct skip; [|apply IH]. destruct (Lex.prefix_of from (c :: l)); [|apply IH]. simpl. by rewrite IH.
Qed.

Lemma replace_valid from to l : valid_out from -> valid_out to -> valid_out l -> valid_out (replace from to l).
Proof.
  intros Vf Vt Vl. destruct from as [|x from]; [|rewrite replace_split by done; apply join_valid; [done|]; by apply split_valid].
  unfold replace.
  apply valid_app; [done|]. pose proof (code_points_scalar l Vl) as Hc.
  induction Hc as [|c cs Hc _ IH]; simpl; [apply valid_nil|].
  apply valid_app; [|done]. apply valid_app; [by apply encode_valid|done].
Qed.

Lemma drop_while_forall (P : Z -> Prop) p cs : Forall P cs -> Forall P (drop_while p cs).
Proof. induction 1; simpl; [done|]. destruct (p x); auto. Qed.

Lemma trim_start_forall (P : Z -> Prop) cs : Forall P cs -> Forall P (trim_start cs).
Proof. apply drop_while_forall. Qed.
Lemma trim_end_forall (P : Z -> Prop) cs : Forall P cs -> Forall P (trim_end cs).
Proof. intros Hc. unfold trim_end. by apply Forall_rev, drop_while_forall, Forall_rev. Qed.

Section Functions.
Context {H : HostTypes} {TokenRange : Type} {Caps : NativeFnCaps TokenRange}.

Lemma tick_each_length {A B} (l : list A) (l' : list B) (range : TokenRange) w :
  length l = length l' -> tick_each l range w = tick_each l' range w.
Proof.
  revert l' w. induction l as [|x l IH]; intros [|y l'] w; simpl; try done. intros [= Hl]. unfold bind.
  destruct (tick 1 range w) as [[] ?]; try done. by apply IH.
Qed.

Lemma bind_congr {A B C D} (m : A -> Call B) (m' : C -> Call B) (k : B -> Call D) a c w :
  m a w = m' c w -> bind (m a) k w = bind (m' c) k w.
Proof. unfold bind. by intros ->. Qed.

(** C37 [split], [join] and [replace] fit together.  Splitting a string at a non-empty separator
    ticks once for each part; the parts are strings none of which contains the separator, and
    joining them with the separator gives the string back.  Replacing the separator by another
    string gives exactly what joining the parts with that string gives, at one tick a match. *)
Theorem split_join_replace (s sep : string) :
  is_str s = true -> is_str sep = true -> sep <> EmptyString ->
  (forall t, display (VString t) = t) ->
  exists parts : list string,
    parts <> [] /\
    Forall (fun p => is_str p = true /\ contains (codes p) (codes sep) = false) parts /\
    forall (named : list (string * Value)) (range : TokenRange) (w : World),
      StringSplit (MkArgs [VString s; VString sep] named) range w
      = (let! _ := tick_each parts range in ret (VList (map VString parts))) w /\
      StringJoin (MkArgs [VList (map VString parts); VString sep] named) range w
      = (let! _ := tick_each parts range in ret (VString s)) w /\
      forall to, is_str to = true -> exists r, is_str r = true /\
        StringReplace (MkArgs [VString s; VString sep; VString to] named) range w
        = (let! _ := if (1 <? length parts)%nat then tick (Z.of_nat (length parts - 1)) range else ret tt in
           ret (VString r)) w /\
        StringJoin (MkArgs [VList (map VString parts); VString to] named) range w
        = (let! _ := tick_each parts range in ret (VString r)) w.
Proof.
  intros Vs Vp Hne Hd. apply codes_valid in Vs, Vp.
  assert (Hp : codes sep <> []). { rewrite codes_nil. by destruct sep. }
  assert (Hb : (String.length sep =? 0)%nat = false) by (by destruct sep).
  pose proof (split_valid _ _ Hp Vp Vs) as Hv. pose proof (split_pieces (codes sep) (codes s) Hp) as Hn.
  set (ps := split (codes sep) (codes s)) in *.
  exists (map of_codes ps). split; [by intros E%map_eq_nil; apply (split_not_nil _ _ Hp) in E|].
  assert (Hc : map codes (map of_codes ps) = ps).
  { rewrite map_map. rewrite <- (map_id ps) at 2. apply map_ext_Forall. eapply Forall_impl; [exact Hv|].
    intros p [Hu _]. by apply codes_of_codes. }
  split.
  { apply Forall_map. eapply Forall_impl; [apply Forall_and; exact (conj Hn Hv)|].
    intros p [Hf Hpv]. split; [by apply of_codes_valid|]. rewrite codes_of_codes by apply Hpv. unfold contains. by rewrite Hf. }
  assert (Hjoin : forall t named range w, StringJoin (MkArgs [VList (map VString (map of_codes ps)); VString t] named) range w
    = (let! _ := tick_each (map of_codes ps) range in ret (VString (of_codes (join (codes t) ps)))) w).
  { intros t named range w. unfold StringJoin. run_checks.
    rewrite (map_map VString). rewrite (map_ext _ codes) by (intros; by rewrite Hd). rewrite Hc.
    apply bind_congr, tick_each_length. by rewrite length_map. }
  intros named range w. split_and!.
  - unfold StringSplit. run_checks. rewrite Hb. cbv zeta. fold ps. rewrite (map_map of_codes).
    apply bind_congr, tick_each_length. by rewrite length_map.
  - rewrite Hjoin. unfold ps. by rewrite join_split, of_codes_codes.
  - intros to Vt. apply codes_valid in Vt. exists (of_codes (join (codes to) ps)).
    split; [by apply of_codes_valid, join_valid|]. split; [|apply Hjoin].
    unfold StringReplace. run_checks. rewrite Hb. cbv zeta. rewrite length_map, replace_split by done. fold ps.
    pose proof (matches_split (codes sep) (codes s)) as Hm. fold ps in Hm.
    replace (matches_count (codes sep) (codes s)) with (length ps - 1)%nat by lia.
    replace (0 <? length ps - 1)%nat with (1 <? length ps)%nat; [done|].
    destruct (Nat.ltb_spec 1 (length ps)), (Nat.ltb_spec 0 (length ps - 1)); done || lia.
Qed.
End Functions.

(** ** Substrings *)

(** [i] is the first character boundary of [b] at or after [pos]. *)
Definition first_boundary (b : list Z) (pos i : Z) : Prop :=
  0 <= i /\ bd b (Z.to_nat i) /\ pos <= i /\ forall k, bd b k -> pos <= Z.of_nat k -> i <= Z.of_nat k.

Lemma bd_next b (i k : nat) c r :
  valid_out b -> bd b i -> drop i b = utf8_encode c ++ r -> is_scalar_value c = true -> bd b k -> (i < k)%nat ->
  (i + length (utf8_encode c) <= k)%nat.
Proof.
  intros Vb Hi Hd Hc [Hk Hdk] Hlt. destruct (decide (i + length (utf8_encode c) <= k)%nat) as [|Hgt]; [done|]. exfalso.
  destruct (lookup_lt_is_Some_2 (utf8_encode c) (k - i)) as [x Hx]; [lia|].
  assert (Hbk : b !! k = Some x).
  { replace k with (i + (k - i))%nat by lia. rewrite <- lookup_drop, Hd. by rewrite lookup_app_l by lia. }
  apply scalar_tail_cont in Hx; [|lia|done].
  apply (valid_head_lead x (drop (S k) b)); [|done]. rewrite <- (drop_S _ _ _ Hbk).
  split; [|done]. apply Forall_drop, Vb.
Qed.

Lemma ceil_boundary_spec b cs (i : nat) pos :
  valid_out b -> bd b i -> drop i b = encode_all cs -> Forall (fun c => is_scalar_value c = true) cs ->
  pos <= Z.of_nat (length b) -> (forall k, bd b k -> pos <= Z.of_nat k -> (i <= k)%nat) ->
  first_boundary b pos (ceil_boundary cs (Z.of_nat i) pos).
Proof.
  intros Vb. revert i. induction cs as [|c cs IH]; intros i Hi Hd Hs Hp Hmin; simpl.
  - assert (i = length b) as ->.
    { apply (f_equal length) in Hd. rewrite length_drop in Hd. destruct Hi. simpl in Hd. lia. }
    split_and!; [lia|by rewrite Nat2Z.id|done|]. intros k Hk Hpk. specialize (Hmin k Hk Hpk). lia.
  - apply Forall_cons in Hs as [Hc Hs]. unfold encode_all in Hd. simpl in Hd.
    destruct (Z.leb_spec pos (Z.of_nat i)) as [Hle|Hgt].
    + split_and!; [lia|by rewrite Nat2Z.id|done|]. intros k Hk Hpk. specialize (Hmin k Hk Hpk). lia.
    + rewrite <- Nat2Z.inj_add. apply IH; try done.
      * eapply bd_app; [by apply valid_nonneg|done..|]. apply encode_valid. done.
      * rewrite <- drop_drop, Hd, drop_app_length. done.
      * intros k Hk Hpk. eapply bd_next; try done. lia.
Qed.

Lemma first_boundary_mono b p q i j : first_boundary b p i -> first_boundary b q j -> p <= q -> i <= j.
Proof.
  intros (_ & _ & _ & Hmin) (Hj & Hbj & Hqj & _) Hpq. rewrite <- (Z2Nat.id j) by done. apply Hmin; [done|lia].
Qed.

Section Substring.
Context {H : HostTypes} {TokenRange : Type} {Caps : NativeFnCaps TokenRange}.

Lemma substring_bounds (s : string) (start length_ : Z) (named : list (string * Value)) (range : TokenRange) (w : World) :
  is_str s = true -> Z.of_nat (String.length s) <= ISIZE_MAX -> Num.in_i64 start = true -> Num.in_i64 length_ = true ->
  let len := Z.of_nat (String.length s) in
  let from := Z.max 0 (Z.min start len) in
  let to := Z.max from (Z.min (from + Z.max length_ 0) len) in
  exists t i j,
    StringSubstring (MkArgs [VString s; VInt start; VInt length_] named) range w = (Ok (VString t), w) /\
    is_str t = true /\ first_boundary (codes s) from i /\ first_boundary (codes s) to j /\
    codes t = take (Z.to_nat (j - i)) (drop (Z.to_nat i) (codes s)).
Proof.
  intros Vs Hlen Hst Hle. cbv zeta. apply codes_valid in Vs. unfold Num.in_i64, Num.I64_MAX in *. zb.
  set (len := Z.of_nat (String.length s)) in *. set (from := Z.max 0 (Z.min start len)).
  set (to := Z.max from (Z.min (from + Z.max length_ 0) len)).
  assert (Hall : encode_all (chars s) = codes s /\ Forall (fun c => is_scalar_value c = true) (chars s)).
  { destruct (utf8_decode_encode (codes s)); [by apply valid_nonneg|apply Vs|]. by split. }
  destruct Hall as [Hall Hsc].
  assert (Hfb : forall pos, pos <= len -> first_boundary (codes s) pos (ceil_boundary (chars s) 0 pos)).
  { intros pos Hpos. apply (ceil_boundary_spec (codes s) (chars s) 0); try done; [|by rewrite length_codes|intros; lia].
    split; [lia|apply Vs]. }
  assert (Hf : from <= len) by lia. assert (Ht : to <= len) by lia.
  pose proof (Hfb from Hf) as Bi. pose proof (Hfb to Ht) as Bj. set (i := ceil_boundary (chars s) 0 from) in *.
  set (j := ceil_boundary (chars s) 0 to) in *.
  assert (Hij : i <= j) by (eapply first_boundary_mono; [done..|lia]).
  pose proof Bi as (Hi0 & Bdi & _). pose proof Bj as (Hj0 & Bdj & _).
  set (t := take (Z.to_nat (j - i)) (drop (Z.to_nat i) (codes s))).
  assert (Vt : valid_out t).
  { destruct (bd_take_drop (codes s) (Z.to_nat i) Vs Bdi) as [_ V].
    assert (B' : bd (drop (Z.to_nat i) (codes s)) (Z.to_nat (j - i))).
    { destruct Bdj as [L D]. split; [rewrite length_drop; lia|]. rewrite drop_drop.
      by replace (Z.to_nat i + Z.to_nat (j - i))%nat with (Z.to_nat j) by lia. }
    by apply (bd_take_drop _ _ V B'). }
  exists (of_codes t), i, j. split_and!; [|by apply of_codes_valid|done..|by apply codes_of_codes, Vt].
  unfold StringSubstring. run_checks. cbv zeta. fold len. fold from. unfold usize_sum.
  rewrite (proj2 (Z.leb_le (from + Z.max length_ 0) USIZE_MAX)) by (unfold USIZE_MAX, ISIZE_MAX in *; lia). rewrite bind_ret.
  destruct (Z.leb_spec (Z.min (from + Z.max length_ 0) len) from) as [Hemp|Hne].
  - assert (to = from) as E by lia. assert (j = i) by (unfold j, i; by rewrite E).
    assert (t = []) as ->. { unfold t. by replace (j - i) with 0 by lia. } done.
  - assert (Z.min (from + Z.max length_ 0) len = to) as -> by lia. fold i j. unfold str_slice.
    rewrite str_slice_ok; [|done..|lia]. rewrite bind_ret. unfold t.
    by replace (Z.to_nat j - Z.to_nat i)%nat with (Z.to_nat (j - i)) by lia.
Qed.

(** [substring] never panics: for every string and every start and length, negative, too
    large or inside a character, it returns the bytes between the first character boundaries
    at or after the clamped start and end, which are a string again, and leaves the state
    alone. *)
Theorem substring_total (s : string) (start length_ : Z) (named : list (string * Value)) (range : TokenRange) (w : World) :
  is_str s = true -> Z.of_nat (String.length s) <= ISIZE_MAX -> Num.in_i64 start = true -> Num.in_i64 length_ = true ->
  let len := Z.of_nat (String.length s) in
  let from := Z.max 0 (Z.min start len) in
  let to := Z.max from (Z.min (from + Z.max length_ 0) len) in
  exists t i j,
    StringSubstring (MkArgs [VString s; VInt start; VInt length_] named) range w = (Ok (VString t), w) /\
    is_str t = true /\ first_boundary (codes s) from i /\ first_boundary (codes s) to j /\
    codes t = take (Z.to_nat (j - i)) (drop (Z.to_nat i) (codes s)).
Proof. apply substring_bounds. Qed.
End Substring.

#[local] Existing Instance unit_host.

Lemma split_join_replace_witness :
  exists parts, parts <> [] /\
    fst (StringJoin (Caps := Evaluator.evaluator_caps (Evaluator.plain_host None None))
      (MkArgs [VList (map VString parts); VString ", "] []) tt (Evaluator.MkWorld 0 ∅ 0)) = Ok (VString "a, b, ") /\
    fst (StringSplit (Caps := Evaluator.evaluator_caps (Evaluator.plain_host None None))
      (MkArgs [VString "a, b, "; VString ", "] []) tt (Evaluator.MkWorld 0 ∅ 0)) = Ok (VList (map VString parts)).
Proof.
  destruct (split_join_replace (Caps := Evaluator.evaluator_caps (Evaluator.plain_host None None)) "a, b, " ", ")
    as (parts & A & _ & B); [vm_compute; reflexivity|vm_compute; reflexivity|discriminate|reflexivity|].
  exists parts. split; [exact A|]. destruct (B [] tt (Evaluator.MkWorld 0 ∅ 0)) as (S & J & _). rewrite S, J.
  assert (T : forall (l : list string) w, tick_each (Caps := Evaluator.evaluator_caps (Evaluator.plain_host None None)) l tt w = (Ok tt, w)).
  { induction l as [|x l IH]; intros w; [reflexivity|]. exact (IH w). }
  unfold bind. rewrite T. split; reflexivity.
Defined.

Lemma substring_total_witness :
  exists t, fst (StringSubstring (Caps := Evaluator.evaluator_caps (Evaluator.plain_host None None))
    (MkArgs [VString "héllo"; VInt 2; VInt (2 ^ 63 - 1)] []) tt (Evaluator.MkWorld 0 ∅ 0)) = Ok (VString t) /\ is_str t = true.
Proof.
  destruct (substring_total (Caps := Evaluator.evaluator_caps (Evaluator.plain_host None None)) "héllo" 2 (2 ^ 63 - 1) [] tt (Evaluator.MkWorld 0 ∅ 0))
    as (t & i & j & E & V & _); [vm_compute; reflexivity|vm_compute; discriminate|vm_compute; reflexivity..|].
  exists t. split; [rewrite E; reflexivity|exact V].
Defined.
End StdStringFacts.
