(* ===== verification/StdDictFacts.v ===== *)
(** The dictionary functions of the standard library: the maps they build stay sorted by key,
    and what their results hold at each key. *)

From Stdlib Require Import ZArith Lia Bool.
From stdpp Require Import base list strings sorting gmap.
From S2P Require Import Prelude Bytes SchemaCanonical Value Chars Context StdSort StdStrings StdDicts Native.
Local Open Scope Z_scope.
Local Open Scope abi_scope.

Module StdDictFacts.
Import Native StdDicts.

(** ** Sorted maps *)

Definition key_lt {V} (a b : string * V) : Prop := String.compare (fst a) (fst b) = Lt.
Definition sorted {V} (m : list (string * V)) : Prop := StronglySorted key_lt m.

Lemma compare_gt a b : String.compare a b = Gt -> String.compare b a = Lt.
Proof. rewrite String.compare_antisym. by destruct (String.compare b a). Qed.

Lemma insert_keys {V} k (v : V) m k' : k' ∈ (map_insert k v m).*1 <-> k' = k \/ k' ∈ m.*1.
Proof.
  induction m as [|[j x] m IH]; simpl; [set_solver|].
  destruct (String.compare k j) eqn:E; simpl; rewrite ?elem_of_cons, ?IH.
  - apply String.compare_eq_iff in E as ->. set_solver.
  - set_solver.
  - set_solver.
Qed.

Lemma insert_sorted {V} k (v : V) m : sorted m -> sorted (map_insert k v m).
Proof.
  unfold sorted. induction m as [|[j x] m IH]; intros Hm; simpl; [by repeat constructor|].
  apply StronglySorted_cons in Hm as [Hj Hm]. destruct (String.compare k j) eqn:E.
  - apply String.compare_eq_iff in E as ->. by apply StronglySorted_cons.
  - apply StronglySorted_cons. split; [|by apply StronglySorted_cons]. constructor; [done|].
    eapply Forall_impl; [exact Hj|]. intros [j' y] Hy. by eapply StdSortFacts.string_compare_lt_trans.
  - apply StronglySorted_cons. split; [|by apply IH]. apply Forall_forall. intros [j' y] Hin.
    assert (Hk : j' ∈ (map_insert k v m).*1) by (apply list_elem_of_fmap; by exists (j', y)).
    apply insert_keys in Hk as [->|Hk]; [by apply compare_gt|].
    apply list_elem_of_fmap in Hk as ([j2 y2] & -> & Hin2). rewrite Forall_forall in Hj. by apply (Hj (j2, y2)).
Qed.

Lemma get_insert {V} k (v : V) m j : map_get j (map_insert k v m) = if bool_decide (j = k) then Some v else map_get j m.
Proof.
  case_bool_decide as E; [subst; apply map_get_insert|]. by apply map_get_insert_ne.
Qed.

Lemma get_none {V} k (m : list (string * V)) : map_get k m = None <-> k ∉ m.*1.
Proof.
  induction m as [|[j x] m IH]; simpl; [set_solver|]. rewrite not_elem_of_cons. case_bool_decide; [naive_solver|]. rewrite IH. naive_solver.
Qed.

Lemma sorted_cons_get {V} j (x : V) m k : sorted ((j, x) :: m) -> map_get k m <> None -> j <> k.
Proof.
  intros [Hj _]%StronglySorted_cons Hk ->. apply Hk, get_none. intros ([k' y] & -> & Hin)%list_elem_of_fmap.
  rewrite Forall_forall in Hj. specialize (Hj _ Hin). unfold key_lt in Hj. simpl in Hj. by rewrite string_compare_refl in Hj.
Qed.

Section Dicts.
Context {H : HostTypes} {TokenRange : Type} {Caps : NativeFnCaps TokenRange}.

(** ** Merging *)

(** The entries of [patch] merged into [m], as [deep_merge] walks them. *)
Fixpoint merge_entries (patch m : list (string * Value)) : list (string * Value) :=
  match patch with
  | [] => m
  | (k, v) :: patch => merge_entries patch (upsert k v (fun b => deep_merge b v) m)
  end.

Lemma deep_merge_dict b p :
  deep_merge (VDict b) (VDict p) = VDict (MkDict (merge_entries (dict_map p) (dict_map b)) (dict_brand b) (dict_variant_of b)).
Proof.
  by destruct p as [p pb pv].
Qed.

Definition combine (b p : option Value) : option Value :=
  match b, p with
  | Some b, Some p => Some (deep_merge b p)
  | Some b, None => Some b
  | None, p => p
  end.

Lemma upsert_sorted {V} k (v : V) f m : sorted m -> sorted (upsert k v f m).
Proof. unfold upsert. destruct (map_get k m); apply insert_sorted. Qed.

Lemma merge_entries_sorted p m : sorted m -> sorted (merge_entries p m).
Proof. revert m. induction p as [|[k v] p IH]; intros m Hm; [done|]. apply IH. by apply upsert_sorted. Qed.

Lemma get_upsert k v f m j :
  map_get j (upsert k v f m) = if bool_decide (j = k) then Some (match map_get k m with Some b => f b | None => v end) else map_get (V := Value) j m.
Proof. unfold upsert. destruct (map_get k m); by rewrite get_insert. Qed.

Lemma merge_entries_get p m k :
  sorted p -> map_get k (merge_entries p m) = combine (map_get k m) (map_get k p).
Proof.
  revert m. induction p as [|[j v] p IH]; intros m Hp; simpl; [by destruct (map_get k m)|].
  pose proof Hp as [_ Hp']%StronglySorted_cons. rewrite IH by done. rewrite get_upsert.
  case_bool_decide as E.
  - subst j. assert (map_get k p = None) as ->.
    { destruct (map_get k p) eqn:E; [|done]. exfalso. by eapply (sorted_cons_get k v p k); [|rewrite E|]. }
    by destruct (map_get k m).
  - done.
Qed.

(** ** Selecting and omitting *)

Lemma select_spec m keys acc :
  sorted acc -> let out := foldl (fun out k => match map_get k m with Some v => map_insert k v out | None => out end) acc keys in
  sorted out /\ forall k, map_get k out = if bool_decide (k ∈ keys) then match map_get k m with Some v => Some v | None => map_get k acc end
                                           else map_get (V := Value) k acc.
Proof.
  revert acc. induction keys as [|j keys IH]; intros acc Ha; cbv zeta; simpl; [by split|].
  destruct (map_get j m) as [v|] eqn:Ej.
  - destruct (IH (map_insert j v acc)) as [S G]; [by apply insert_sorted|]. split; [done|]. intros k. rewrite G, get_insert.
    repeat case_bool_decide; simplify_eq; try set_solver; rewrite ?Ej; try done.
    all: destruct (map_get k m); done.
  - destruct (IH acc Ha) as [S G]. split; [done|]. intros k. rewrite G.
    repeat case_bool_decide; try set_solver. assert (k = j) as -> by set_solver. by rewrite Ej.
Qed.
Lemma omit_spec m (keys : list string) acc :
  sorted m -> sorted acc ->
  let out := foldl (fun out kv => if bool_decide (fst kv ∈ keys) then out else map_insert (fst kv) (snd kv) out) acc m in
  sorted out /\ forall k, map_get k out = if bool_decide (k ∈ keys) then map_get k acc
                                           else match map_get (V := Value) k m with Some v => Some v | None => map_get k acc end.
Proof.
  revert acc. induction m as [|[j v] m IH]; intros acc Hm Ha; cbv zeta; simpl.
  { split; [done|]. intros k. by case_bool_decide. }
  pose proof Hm as [_ Hm']%StronglySorted_cons.
  assert (Hj : forall k, bool_decide (k = j) = true -> map_get k m = None).
  { intros k ->%bool_decide_eq_true. destruct (map_get j m) eqn:E; [|done]. exfalso. by eapply (sorted_cons_get j v m j); [|rewrite E|]. }
  destruct (bool_decide (j ∈ keys)) eqn:Ek.
  - destruct (IH acc Hm' Ha) as [S G]. split; [done|]. intros k. rewrite G.
    destruct (bool_decide (k = j)) eqn:E; [|done]. apply bool_decide_eq_true in E as ->. by rewrite Ek.
  - destruct (IH (map_insert j v acc) Hm') as [S G]; [by apply insert_sorted|]. split; [done|]. intros k. rewrite G, get_insert.
    specialize (Hj k). destruct (bool_decide (k = j)) eqn:E; [|done]. rewrite Hj by done.
    apply bool_decide_eq_true in E as ->. by rewrite Ek.
Qed.

Lemma expect_strings_spec keys (range : TokenRange) : expect_strings (map VString keys) range = ret keys.
Proof. induction keys as [|k keys IH]; [done|]. cbn [map expect_strings]. unfold expect_string. rewrite bind_ret, IH. done. Qed.

Lemma keys_ascending (m : list (string * Value)) : sorted m -> StronglySorted (fun a b => String.compare a b = Lt) m.*1.
Proof. intros Hm. by apply (StronglySorted_fmap fst key_lt). Qed.

Lemma contains_key_iff k (m : list (string * Value)) : contains_key k m = true <-> k ∈ m.*1.
Proof.
  unfold contains_key. destruct (map_get k m) eqn:E.
  - split; [|done]. intros _. destruct (decide (k ∈ m.*1)) as [|Hn]; [done|]. apply get_none in Hn. congruence.
  - split; [done|]. by apply get_none in E.
Qed.

(** Dictionary functions on maps sorted by key.  [merge] keeps the brand of the first
    dictionary and holds, at every key, the value of the one operand that has it or the merge of
    both, after charging the entries of the second; [select_keys] and [omit_keys] divide the
    entries between them; [keys] lists, in ascending order, exactly the keys that [has_key]
    accepts, and [values] their values.  All maps built are sorted again. *)
Theorem dict_functions (b p : ValueDict) (ks : list string) (named : list (string * Value)) (range : TokenRange) :
  sorted (dict_map b) -> sorted (dict_map p) ->
  exists merged selected omitted names,
    sorted merged /\ sorted selected /\ sorted omitted /\
    (forall k, map_get k merged = combine (map_get k (dict_map b)) (map_get k (dict_map p))) /\
    (forall k, map_get k selected = if bool_decide (k ∈ ks) then map_get k (dict_map b) else None) /\
    (forall k, map_get k omitted = if bool_decide (k ∈ ks) then None else map_get k (dict_map b)) /\
    StronglySorted (fun x y => String.compare x y = Lt) names /\
    forall w,
      DictMerge (MkArgs [VDict b; VDict p] named) range w
      = (let! _ := tick_entries (dict_map p) range in ret (VDict (MkDict merged (dict_brand b) (dict_variant_of b)))) w /\
      DictSelectKeys (MkArgs [VDict b; VList (map VString ks)] named) range w = (Ok (plain_dict selected), w) /\
      DictOmitKeys (MkArgs [VDict b; VList (map VString ks)] named) range w = (Ok (plain_dict omitted), w) /\
      DictKeys (MkArgs [VDict b] named) range w
      = (let! _ := tick_entries (dict_map b) range in ret (VList (map VString names))) w /\
      DictValues (MkArgs [VDict b] named) range w
      = (let! _ := tick_entries (dict_map b) range in ret (VList (map snd (dict_map b)))) w /\
      forall k, DictHasKey (MkArgs [VDict b; VString k] named) range w = (Ok (VBool (bool_decide (k ∈ names))), w).
Proof.
  intros Hb Hp. exists (merge_entries (dict_map p) (dict_map b)), (select_keys (dict_map b) ks), (omit_keys (dict_map b) ks), (dict_map b).*1.
  destruct (select_spec (dict_map b) ks []) as [Ss Gs]; [constructor|].
  destruct (omit_spec (dict_map b) ks []) as [So Go]; [done|constructor|]. cbv zeta in *.
  split_and!; [by apply merge_entries_sorted|done|done|..|by apply keys_ascending|].
  - intros k. by apply merge_entries_get.
  - intros k. unfold select_keys. rewrite Gs. case_bool_decide; [|done]. by destruct (map_get k (dict_map b)).
  - intros k. unfold omit_keys. rewrite Go. case_bool_decide; [done|]. by destruct (map_get k (dict_map b)).
  - intros w. split_and!.
    + unfold DictMerge. cbn [positional merge_loop]. unfold bind.
      destruct (tick_entries (dict_map p) range w) as [[] ?]; [|done..]. rewrite deep_merge_dict. done.
    + unfold DictSelectKeys, expect_string_list. run_checks. by rewrite expect_strings_spec.
    + unfold DictOmitKeys, expect_string_list. run_checks. by rewrite expect_strings_spec.
    + unfold DictKeys. run_checks. unfold bind. destruct (tick_entries (dict_map b) range w) as [[] ?]; [|done..].
      unfold ret. do 3 f_equal. by rewrite <- (map_map fst VString).
    + done.
    + intros k. unfold DictHasKey. run_checks. unfold ret. do 3 f_equal. apply eq_bool_prop_intro.
      rewrite bool_decide_spec. rewrite Is_true_true. by rewrite contains_key_iff.
Qed.
End Dicts.

#[local] Existing Instance unit_host.

Lemma dict_functions_witness :
  exists merged,
    sorted merged /\ map_get "a" merged = Some (VInt 1) /\ map_get "b" merged = Some (VInt 3) /\
    map_get "c" merged = Some (VBool true) /\
    fst (DictMerge (Caps := Evaluator.evaluator_caps (Evaluator.plain_host None None))
      (MkArgs [plain_dict [("a"%string, VInt 1); ("b"%string, VInt 2)]; plain_dict [("b"%string, VInt 3); ("c"%string, VBool true)]] [])
      tt (Evaluator.MkWorld 0 ∅ 0)) = Ok (plain_dict merged).
Proof.
  destruct (dict_functions (Caps := Evaluator.evaluator_caps (Evaluator.plain_host None None))
    (MkDict [("a"%string, VInt 1); ("b"%string, VInt 2)] None None)
    (MkDict [("b"%string, VInt 3); ("c"%string, VBool true)] None None) [] [] tt)
    as (merged & sel & om & names & S & _ & _ & G & _ & _ & _ & R).
  - repeat constructor.
  - repeat constructor.
  - exists merged. split_and!; [exact S|rewrite G; reflexivity..|].
    destruct (R (Evaluator.MkWorld 0 ∅ 0)) as [E _]. unfold plain_dict. rewrite E. reflexivity.
Defined.
End StdDictFacts.

(** Iterators of the standard library over the iterator table of the context. *)

Module StdIterFacts.
Import Native StdDicts Evaluator.

Section Iter.
Context {H : HostTypes} {TokenRange Foreign : Type} (h : host TokenRange Foreign).
#[local] Existing Instance evaluator_caps.
#[local] Instance caps : NativeFnCaps TokenRange := evaluator_caps h.

(** The elements of a collection in iteration order, and how an iterator over it is made. *)
Definition elements (v : Value) : option (list Value) :=
  match v with
  | VList items => Some items
  | VString s => Some (map (fun c => VString (StdStrings.of_codes (utf8_encode c))) (chars s))
  | VDict d => Some (map (fun kv => VTuple [VString (fst kv); snd kv]) (dict_map d))
  | _ => None
  end.

Definition iter_of (v : Value) : RelonFunction :=
  match v with VString _ => IterFromString | VDict _ => IterFromDict | _ => IterFromList end.

Definition kind_of (v : Value) : string :=
  match v with VString _ => KIND_STRING | VDict _ => KIND_DICT_ENTRIES | _ => KIND_LIST end.

(** [k] calls of [next] one after the other. *)
Fixpoint nexts (it : Value) (k : nat) (range : TokenRange) : Call (list Value) :=
  match k with
  | O => ret []
  | S k =>
      let! v := IterNext (MkArgs [it] []) range in
      let! vs := nexts it k range in
      ret (v :: vs)
  end.

Definition iter_value (kind : string) (source : Value) (id : Z) : Value :=
  branded_dict [(FIELD_ID, VInt (u64_as_i64 id)); (FIELD_KIND, VString kind); (FIELD_SOURCE, source)] (Some BRAND).

Lemma id_roundtrip id : 0 <= id < 2 ^ 64 -> i64_as_u64 (u64_as_i64 id) = id.
Proof.
  intros Hi. unfold i64_as_u64, u64_as_i64. destruct (Z.ltb_spec id (2 ^ 63)); [by apply Z.mod_small; lia|].
  replace (id - 2 ^ 64) with (id + (-1) * 2 ^ 64) by lia. rewrite Z.mod_add by done. by apply Z.mod_small.
Qed.

Lemma iter_of_spec v items range w :
  elements v = Some items ->
  iter_of v (MkArgs [v] []) range w
  = (Ok (iter_value (kind_of v) v (iter_ids w)),
     MkWorld (steps w) (<[iter_ids w := O]> (cursors w)) ((iter_ids w + 1) mod 2 ^ 64)).
Proof. destruct v; try done. Qed.

(** One call of [next] with the cursor at [c]. *)
Lemma next_spec v items id c range w :
  elements v = Some items -> 0 <= id < 2 ^ 64 -> cursors w !! id = Some c -> (c <= length items)%nat ->
  IterNext (MkArgs [iter_value (kind_of v) v id] []) range w
  = (Ok (option_value (items !! c)),
     MkWorld (steps w) (<[id := Nat.min (S c) (length items)]> (cursors w)) (iter_ids w)).
Proof.
  intros Hv Hid Hc Hle. unfold IterNext, iter_value, branded_dict. run_checks. cbn [dict_brand dict_map].
  rewrite bool_decide_true by done. cbn [negb dict_map].
  change (get_string_field _ FIELD_KIND) with (Some (kind_of v)). change (map_get FIELD_SOURCE _) with (Some v).
  change (get_int_field _ FIELD_ID) with (Some (u64_as_i64 id)). unfold require. rewrite !bind_ret, id_roundtrip by done.
  assert (Hf : forall (element : nat -> Call Value) len, len = Z.of_nat (length items) ->
    (forall x w, items !! c = Some x -> element c w = (Ok x, w)) ->
    bind (fetch id len element) (fun e => ret (option_value e)) w
    = (Ok (option_value (items !! c)),
       MkWorld (steps w) (<[id := Nat.min (S c) (length items)]> (cursors w)) (iter_ids w))).
  { remember (Nat.min (S c) (length items)) as m eqn:Hm. intros element len -> He. unfold bind, fetch. simpl. unfold caps_fetch_and_inc, Ctx.iter_cursor_fetch_and_inc.
    rewrite Hc, Nat2Z.id. destruct (Nat.ltb_spec c (length items)) as [Hlt|Hge]; simpl.
    - rewrite Nat2Z.id. destruct (lookup_lt_is_Some_2 items c Hlt) as [x Hx]. rewrite Hx. unfold bind. rewrite (He x) by done.
      by rewrite Hm, Nat.min_l by lia.
    - rewrite (lookup_ge_None_2 items c) by lia. rewrite Hm, Nat.min_r by lia. replace (length items) with c by lia.
      rewrite insert_id by done. done. }
  destruct v; simplify_eq/=; unfold iter_element; cbn [kind_of];
    repeat first [rewrite bool_decide_true by done | rewrite bool_decide_false by done].
  - cbn zeta. apply Hf; [by rewrite length_map|]. intros x w' Hx. rewrite list_lookup_fmap in Hx.
    unfold index. destruct (chars s !! c) as [y|] eqn:E; simplify_eq/=; done.
  - apply Hf; [done|]. intros x w' Hx. unfold index. by rewrite Hx.
  - apply Hf; [by rewrite length_map|]. intros x w' Hx. rewrite list_lookup_fmap in Hx.
    destruct (dict_map d !! c) as [[k y]|] eqn:E; simplify_eq/=; done.
Qed.

Lemma nexts_spec v items id c k range w :
  elements v = Some items -> 0 <= id < 2 ^ 64 -> cursors w !! id = Some c -> (c <= length items)%nat ->
  exists w', nexts (iter_value (kind_of v) v id) k range w
    = (Ok (map option_value (map Some (take k (drop c items)) ++ replicate (k - (length items - c)) None)), w') /\
    steps w' = steps w /\ iter_ids w' = iter_ids w /\ forall j, j <> id -> cursors w' !! j = cursors w !! j.
Proof.
  intros Hv Hid. revert c w. induction k as [|k IH]; intros c w Hc Hle; [by exists w|].
  cbn [nexts]. unfold bind at 1. rewrite (next_spec v items id c) by done.
  destruct (IH (Nat.min (S c) (length items)) (MkWorld (steps w) (<[id := Nat.min (S c) (length items)]> (cursors w)) (iter_ids w)))
    as (w' & E & H1 & H2 & H3); [apply lookup_insert_eq|lia|].
  exists w'. unfold bind. rewrite E. split_and!; [|done..|].
  - destruct (decide (c < length items)%nat) as [Hlt|Hge].
    + destruct (lookup_lt_is_Some_2 items c Hlt) as [x Hx]. rewrite Hx, (drop_S _ _ _ Hx), Nat.min_l by lia. simpl.
      by replace (k - (length items - S c))%nat with (S k - (length items - c))%nat by lia.
    + rewrite (lookup_ge_None_2 items c), drop_ge, Nat.min_r, drop_ge by lia.
      replace (k - (length items - length items))%nat with k by lia. replace (S k - (length items - c))%nat with (S k) by lia.
      simpl. by rewrite take_nil.
  - intros j Hj. rewrite H3 by done. simpl. by rewrite lookup_insert_ne.
Qed.
End Iter.

(** Iterators walk their source: [iter] on a list, a string or a dictionary, followed by any
    number of calls of [next], answers the elements in order, each wrapped in [Some], the
    characters of a string as strings and the entries of a dictionary as pairs in key order,
    and then [None] for ever.  No other iterator is moved and no step is charged. *)
Theorem iterators_walk {H : HostTypes} {TokenRange Foreign : Type} (h : host TokenRange Foreign)
    (v : Value) (items : list Value) (k : nat) (range : TokenRange) (w : world) :
  elements v = Some items -> 0 <= iter_ids w < 2 ^ 64 ->
  exists it w1 w2,
    iter_of h v (MkArgs [v] []) range w = (Ok it, w1) /\
    nexts h it k range w1 = (Ok (map option_some (take k items) ++ replicate (k - length items) option_none), w2) /\
    steps w2 = steps w /\ forall j, j <> iter_ids w -> cursors w2 !! j = cursors w !! j.
Proof.
  intros Hv Hid.
  destruct (nexts_spec h v items (iter_ids w) 0 k range
    (MkWorld (steps w) (<[iter_ids w := O]> (cursors w)) ((iter_ids w + 1) mod 2 ^ 64))) as (w2 & E & H1 & _ & H2);
    [done..|apply lookup_insert_eq|lia|].
  do 2 eexists. exists w2. split; [by eapply iter_of_spec|]. split_and!.
  - rewrite E, drop_0, Nat.sub_0_r, map_app, map_map. do 3 f_equal. exact (fmap_replicate option_value _ None).
  - by rewrite H1.
  - intros j Hj. rewrite H2 by done. simpl. by rewrite lookup_insert_ne.
Qed.

#[local] Existing Instance unit_host.
Lemma iterators_walk_witness :
  exists it w1 w2,
    iter_of (plain_host None None) (VString "hi") (MkArgs [VString "hi"] []) tt (MkWorld 0 ∅ 5) = (Ok it, w1) /\
    nexts (plain_host None None) it 3 tt w1
    = (Ok [option_some (VString "h"); option_some (VString "i"); option_none], w2) /\
    steps w2 = 0 /\ forall j, j <> 5 -> cursors w2 !! j = (∅ : gmap Z nat) !! j.
Proof.
  exact (iterators_walk (plain_host None None) (VString "hi") [VString "h"; VString "i"] 3 tt (MkWorld 0 ∅ 5) eq_refl ltac:(split; vm_compute; done)).
Defined.
End StdIterFacts.
