(* ===== verification/StdFacts.v ===== *)
(** The list functions of the standard library compute what their names say. *)

From Stdlib Require Import ZArith Lia Bool SpecFloat.
From stdpp Require Import base list strings gmap.
From S2P Require Import Prelude Bytes SchemaCanonical Value Chars CaseFold CaseFoldFacts Lexer LexerFacts NumberLit Arith.
From S2P Require Import StdLists StdMath StdStrings StdDicts StdValidate Native StdStringFacts.
Local Open Scope Z_scope.
Local Open Scope abi_scope.

Module StdListFacts.
Import Native StdLists Evaluator.

Definition total (zs : list Z) : Z := foldr Z.add 0 zs.

Section Aggregations.
Context {H : HostTypes} {TokenRange : Type} {Caps : NativeFnCaps TokenRange}.

Lemma classify_ints zs b range w :
  sum_classify (map VInt zs) true b range w = (Ok (true, match zs with [] => b | _ => false end), w).
Proof.
  revert b. induction zs as [|z zs IH]; intros b; [done|]. cbn [map sum_classify]. rewrite IH. by destruct zs.
Qed.

Lemma sum_ints_spec zs acc range w :
  (forall k, Num.in_i64 (acc + total (take k zs)) = true) ->
  sum_ints acc (map VInt zs) range w = (Ok (acc + total zs), w).
Proof.
  revert acc. induction zs as [|z zs IH]; intros acc Hk; simpl.
  - unfold total. simpl. by rewrite Z.add_0_r.
  - unfold Arith.checked. pose proof (Hk 1%nat) as H1. unfold total in H1. simpl in H1.
    rewrite Z.add_0_r in H1. rewrite H1, IH.
    + do 2 f_equal. unfold total. simpl. lia.
    + intros k. specialize (Hk (S k)). unfold total in *. simpl in Hk. by rewrite Z.add_assoc in Hk.
Qed.

Lemma sum_ints_overflow zs acc range w k :
  Num.in_i64 acc = true -> Num.in_i64 (acc + total (take k zs)) = false ->
  sum_ints acc (map VInt zs) range w = (Err (NumericOverflow range), w).
Proof.
  revert acc k. induction zs as [|z zs IH]; intros acc k Ha Hk.
  - rewrite take_nil in Hk. unfold total in Hk. simpl in Hk. rewrite Z.add_0_r in Hk. congruence.
  - destruct k as [|k]; [unfold total in Hk; simpl in Hk; rewrite Z.add_0_r in Hk; congruence|].
    simpl. unfold Arith.checked. destruct (Num.in_i64 (acc + z)) eqn:E; [|done].
    apply (IH _ k); [done|]. unfold total in *. simpl in Hk. by rewrite Z.add_assoc in Hk.
Qed.

Lemma extremum_ints_spec better zs acc range w :
  (forall x y, better x y = false -> better y x = false -> x = y) ->
  (forall x y z, better x y = false -> better y z = false -> better x z = false) ->
  (forall x y, better x y = true -> better y x = false) ->
  exists m, extremum_ints better acc (map VInt zs) range w = (Ok m, w) /\ m ∈ acc :: zs /\ Forall (fun z => better z m = false) (acc :: zs).
Proof.
  intros Htot Htr Hasym. assert (Hrefl : forall x, better x x = false).
  { intros x. destruct (better x x) eqn:E; [|done]. by rewrite (Hasym _ _ E) in E. }
  revert acc. induction zs as [|z zs IH]; intros acc.
  { exists acc. split; [done|]. split; [left|]. by apply Forall_singleton. }
  cbn [map extremum_ints]. unfold expect_int. rewrite bind_ret.
  destruct (IH (if better z acc then z else acc)) as (m & E & Hin & Hall). exists m. split; [done|].
  destruct (better z acc) eqn:Eb.
  - split; [apply elem_of_cons in Hin; set_solver|]. apply Forall_cons in Hall as [H1 H2].
    constructor; [|by constructor]. eapply Htr; [|exact H1]. by apply Hasym.
  - split; [apply elem_of_cons in Hin; set_solver|]. apply Forall_cons in Hall as [H1 H2].
    constructor; [done|]. constructor; [|done]. by eapply Htr.
Qed.

Lemma in_i64_zero : Num.in_i64 0 = true.
Proof. done. Qed.

(** Aggregations of integer lists are exact: [sum] is the sum when every partial sum from the
    left fits a 64-bit integer and an overflow error otherwise; [max] and [min] of a non-empty
    list are an element that no element exceeds or undercuts, and an error on the empty list.
    None of them changes the state. *)
Theorem aggregations_exact (zs : list Z) (named : list (string * Value)) (range : TokenRange) (w : World) :
  let args := MkArgs [VList (map VInt zs)] named in
  ((forall k, Num.in_i64 (total (take k zs)) = true) -> ListSum args range w = (Ok (VInt (total zs)), w)) /\
  (forall k, Num.in_i64 (total (take k zs)) = false -> ListSum args range w = (Err (NumericOverflow range), w)) /\
  match zs with
  | [] => exists e e', ListMax args range w = (Err e, w) /\ ListMin args range w = (Err e', w)
  | _ =>
      exists hi lo, ListMax args range w = (Ok (VInt hi), w) /\ ListMin args range w = (Ok (VInt lo), w) /\
        hi ∈ zs /\ lo ∈ zs /\ Forall (fun z => lo <= z <= hi) zs
  end.
Proof.
  cbv zeta. split_and!.
  - intros Hk. unfold ListSum. run_checks. unfold bind at 1. rewrite classify_ints. unfold bind.
    by rewrite sum_ints_spec.
  - intros k Hk. unfold ListSum. run_checks. unfold bind at 1. rewrite classify_ints. unfold bind.
    by rewrite (sum_ints_overflow _ _ _ _ k).
  - destruct zs as [|z zs].
    { do 2 eexists. by split. }
    destruct (extremum_ints_spec (fun x acc => acc <? x) zs z range w) as (hi & Eh & Hh & Fh); [intros; lia..|].
    destruct (extremum_ints_spec (fun x acc => x <? acc) zs z range w) as (lo & El & Hl & Fl); [intros; lia..|].
    exists hi, lo. split_and!; [..|done|done|].
    + unfold ListMax, extremum. run_checks. cbn [map]. unfold bind. by rewrite Eh.
    + unfold ListMin, extremum. run_checks. cbn [map]. unfold bind. by rewrite El.
    + rewrite Forall_forall in *. intros x Hx. specialize (Fh x Hx). specialize (Fl x Hx). simpl in *. lia.
Qed.
End Aggregations.

#[local] Existing Instance unit_host.

Lemma aggregations_exact_witness :
  let c := evaluator_caps (plain_host None None) in
  let args := MkArgs [VList (map VInt [2 ^ 62; -1; 2 ^ 62; 2 ^ 62])] [] in
  ListSum (Caps := c) args tt (MkWorld 0 ∅ 0) = (Err (NumericOverflow tt), MkWorld 0 ∅ 0) /\
  exists hi lo, ListMax (Caps := c) args tt (MkWorld 0 ∅ 0) = (Ok (VInt hi), MkWorld 0 ∅ 0) /\
    ListMin (Caps := c) args tt (MkWorld 0 ∅ 0) = (Ok (VInt lo), MkWorld 0 ∅ 0).
Proof.
  cbv zeta.
  destruct (aggregations_exact (Caps := evaluator_caps (plain_host None None)) [2 ^ 62; -1; 2 ^ 62; 2 ^ 62] [] tt (MkWorld 0 ∅ 0))
    as (_ & A & hi & lo & B & C & _).
  split; [apply (A 4%nat); reflexivity|]. exists hi, lo. split; [exact B|exact C].
Defined.
End StdListFacts.

(** Dates of the standard library: [is_iso_date] and [parse_iso_date] against the Gregorian
    calendar. *)

Module StdDateFacts.
Import Native StdStrings StdValidate StdStringFacts.

(** ** The calendar *)

(** Days up to the end of a year, by the Gregorian rule. *)
Definition gregorian_days (year : Z) : Z := 365 * year + year / 4 - year / 100 + year / 400.

Lemma year_length year :
  foldr Z.add 0 (map (max_day year) [1; 2; 3; 4; 5; 6; 7; 8; 9; 10; 11; 12]) = gregorian_days year - gregorian_days (year - 1).
Proof.
  unfold max_day, gregorian_days. simpl. unfold is_leap.
  destruct (Z.eqb_spec (year mod 4) 0), (Z.eqb_spec (year mod 100) 0), (Z.eqb_spec (year mod 400) 0); simpl; div_mod.
Qed.

Definition is_date (y m d : Z) : Prop := 0 <= y <= 9999 /\ 1 <= m <= 12 /\ 1 <= d <= max_day y m.

(** ** Digits *)

Lemma digits_bound l acc v : 0 <= acc -> digits acc l = Some v -> 0 <= v < (acc + 1) * 10 ^ Z.of_nat (length l).
Proof.
  revert acc. induction l as [|c l IH]; intros acc Ha; cbn [digits length]; [intros [= <-]; simpl; lia|].
  unfold Lex.is_ascii_digit. destruct ((48 <=? c) && (c <=? 57)) eqn:E; [|done]. zb. intros Hd. apply IH in Hd; [|lia].
  rewrite Nat2Z.inj_succ, Z.pow_succ_r by lia. nia.
Qed.

Lemma unsigned_bound l v : unsigned l = Some v -> 0 <= v < 10 ^ Z.of_nat (length l).
Proof. unfold unsigned. destruct l as [|c l]; [done|]. intros Hd%digits_bound; lia. Qed.

Lemma parse_u32_cons x l : parse_u32 (x :: l) = if x =? 43 then unsigned l else unsigned (x :: l).
Proof. destruct (Z.eqb_spec x 43) as [->|]; [done|]. destruct x as [|p|p]; try done. by do 6 (destruct p as [p|p|]; try done). Qed.

Lemma parse_u32_bound l v : parse_u32 l = Some v -> 0 <= v < 10 ^ Z.of_nat (length l).
Proof.
  destruct l as [|x l]; [done|]. rewrite parse_u32_cons. destruct (x =? 43); [|apply unsigned_bound].
  intros Hd%unsigned_bound. cbn [length]. rewrite Nat2Z.inj_succ, Z.pow_succ_r by lia. lia.
Qed.

(** What parses as a [u32] parses as an [i64] to the same number. *)
Lemma parse_i64_u32 l v : parse_u32 l = Some v -> parse_i64 l = Some v.
Proof.
  unfold parse_u32, parse_i64. destruct l as [|[|p|p] l]; try done. do 6 (destruct p as [p|p|]; try done).
Qed.

(** The decimal digits of a number, [n] of them. *)
Fixpoint decimal (n : nat) (v : Z) : list Z :=
  match n with O => [] | S n => decimal n (v / 10) ++ [48 + v mod 10] end.

Lemma decimal_length n v : length (decimal n v) = n.
Proof. revert v. induction n as [|n IH]; intros v; [done|]. simpl. rewrite length_app, IH. simpl. lia. Qed.

Lemma digits_app a b acc v : digits acc a = Some v -> digits acc (a ++ b) = digits v b.
Proof. revert acc. induction a as [|c a IH]; intros acc; simpl; [by intros [= ->]|]. destruct (Lex.is_ascii_digit c); [apply IH|done]. Qed.

Lemma digit_ok v : Lex.is_ascii_digit (48 + v mod 10) = true.
Proof. unfold Lex.is_ascii_digit. pose proof (Z.mod_pos_bound v 10). rewrite andb_true_iff, !Z.leb_le. lia. Qed.

Lemma digits_decimal n v : 0 <= v < 10 ^ Z.of_nat n -> digits 0 (decimal n v) = Some v.
Proof.
  revert v. induction n as [|n IH]; intros v Hv; [simpl in *; f_equal; lia|]. cbn [decimal].
  rewrite Nat2Z.inj_succ, Z.pow_succ_r in Hv by lia.
  assert (Hd : 0 <= v / 10 < 10 ^ Z.of_nat n) by (split; [apply Z.div_pos; lia|apply Z.div_lt_upper_bound; lia]).
  rewrite (digits_app _ _ _ _ (IH _ Hd)). cbn [digits]. rewrite digit_ok. f_equal. pose proof (Z.div_mod v 10). lia.
Qed.

Lemma decimal_bytes n v x : x ∈ decimal n v -> 48 <= x <= 57.
Proof.
  revert v. induction n as [|n IH]; intros v; [by intros ?%not_elem_of_nil|]. cbn [decimal].
  intros [Hx|Hx]%elem_of_app; [by eapply IH|]. apply list_elem_of_singleton in Hx as ->. pose proof (Z.mod_pos_bound v 10). lia.
Qed.

Lemma parse_decimal n v : (0 < n)%nat -> 0 <= v < 10 ^ Z.of_nat n -> parse_u32 (decimal n v) = Some v.
Proof.
  intros Hn Hv. rewrite <- (digits_decimal n v Hv).
  destruct (decimal n v) as [|x l] eqn:E; [apply (f_equal length) in E; rewrite decimal_length in E; simpl in E; lia|].
  assert (Hx : 48 <= x <= 57). { apply (decimal_bytes n v). rewrite E. left. }
  rewrite parse_u32_cons. by destruct (Z.eqb_spec x 43); [lia|].
Qed.

(** ** The functions *)

Section Functions.
Context {H : HostTypes} {TokenRange : Type} {Caps : NativeFnCaps TokenRange}.

Definition date_value (y m d : Z) : Value :=
  StdDicts.plain_dict [("day"%string, VInt d); ("month"%string, VInt m); ("year"%string, VInt y)].

(** [YYYY-MM-DD] *)
Definition format_date (y m d : Z) : list Z := decimal 4 y ++ [45] ++ decimal 2 m ++ [45] ++ decimal 2 d.

(** The three fields of a text with dashes at the fourth and seventh byte. *)
Definition date_fields (s : list Z) : option (Z * Z * Z) :=
  match parse_u32 (take 4 s), parse_u32 (take 2 (drop 5 s)), parse_u32 (take 2 (drop 8 s)) with
  | Some y, Some m, Some d => Some (y, m, d)
  | _, _, _ => None
  end.

Lemma date_slices (s : list Z) :
  valid_out s -> length s = 10%nat -> s !! 4%nat = Some 45 -> s !! 7%nat = Some 45 ->
  str_slice s 0 4 = ret (take 4 s) /\ str_slice s 5 7 = ret (take 2 (drop 5 s)) /\ str_slice s 8 10 = ret (take 2 (drop 8 s)).
Proof.
  intros Vs Hl H4 H7. pose proof (valid_nonneg _ Vs) as Hnn. pose proof (proj2 Vs) as Hu.
  destruct (bd_ascii s Hnn Hu 4 45 H4 ltac:(lia)) as [B4 B5].
  destruct (bd_ascii s Hnn Hu 7 45 H7 ltac:(lia)) as [B7 B8].
  assert (B10 : bd s 10) by (split; [lia|by rewrite drop_ge by lia]).
  assert (B0 : bd s 0) by (split; [lia|done]).
  unfold str_slice. change (Z.to_nat 0) with 0%nat. change (Z.to_nat 4) with 4%nat. change (Z.to_nat 5) with 5%nat.
  change (Z.to_nat 7) with 7%nat. change (Z.to_nat 8) with 8%nat. change (Z.to_nat 10) with 10%nat.
  by rewrite !str_slice_ok by (done || lia).
Qed.

Lemma is_iso_date_spec (s : list Z) (w : World) :
  valid_out s ->
  exists b, is_iso_date_str s w = (Ok b, w) /\
    (b = true <-> length s = 10%nat /\ s !! 4%nat = Some 45 /\ s !! 7%nat = Some 45 /\
       exists y m d, date_fields s = Some (y, m, d) /\ is_date y m d).
Proof.
  intros Vs. unfold is_iso_date_str. destruct (Nat.eqb_spec (length s) 10) as [Hl|Hl]; cbn [negb].
  2:{ exists false. split; [done|]. split; [done|]. by intros [? _]. }
  destruct (lookup_lt_is_Some_2 s 4) as [b4 E4]; [lia|]. destruct (lookup_lt_is_Some_2 s 7) as [b7 E7]; [lia|].
  unfold index. rewrite E4, bind_ret. destruct (Z.eqb_spec b4 45) as [->|N4].
  2:{ exists false. split; [done|]. split; [done|]. intros (_ & [= ->] & _). done. }
  rewrite E7, bind_ret, bind_ret. destruct (Z.eqb_spec b7 45) as [->|N7]; cbn [negb].
  2:{ exists false. split; [done|]. split; [done|]. intros (_ & _ & [= ->] & _). done. }
  destruct (date_slices s Vs Hl E4 E7) as (-> & -> & ->). rewrite !bind_ret. unfold date_fields.
  destruct (parse_u32 (take 4 s)) as [y|] eqn:Ey.
  2:{ exists false. split; [done|]. split; [done|]. by intros (_ & _ & _ & ? & ? & ? & ? & _). }
  destruct (parse_u32 (take 2 (drop 5 s))) as [m|] eqn:Em.
  2:{ exists false. split; [done|]. split; [done|]. by intros (_ & _ & _ & ? & ? & ? & ? & _). }
  destruct (parse_u32 (take 2 (drop 8 s))) as [d|] eqn:Ed.
  2:{ exists false. split; [done|]. split; [done|]. by intros (_ & _ & _ & ? & ? & ? & ? & _). }
  apply parse_u32_bound in Ey. rewrite length_take in Ey. replace (4 `min` length s)%nat with 4%nat in Ey by lia.
  destruct (negb ((1 <=? m) && (m <=? 12)) || (d <? 1)) eqn:Eb.
  - exists false. split; [done|]. split; [done|]. intros (_ & _ & _ & y' & m' & d' & [= <- <- <-] & Hd).
    unfold is_date in Hd. apply orb_true_iff in Eb as [Eb|Eb]; [apply negb_true_iff, andb_false_iff in Eb; zb|zb]; lia.
  - exists (d <=? max_day y m). split; [done|]. apply orb_false_iff in Eb as [E1 E2].
    apply negb_false_iff, andb_true_iff in E1 as [? ?]. zb. rewrite Z.leb_le. unfold is_date. simpl in Ey. split.
    + intros ?. split_and!; try done. exists y, m, d. split; [done|]. lia.
    + intros (_ & _ & _ & y' & m' & d' & [= <- <- <-] & Hd). lia.
Qed.

Lemma date_fields_format y m d : is_date y m d -> date_fields (format_date y m d) = Some (y, m, d).
Proof.
  intros (Hy & Hm & Hd). assert (Hd' : d <= 31). { revert Hd. unfold max_day. repeat case_bool_decide; [lia..|]. destruct (is_leap y); lia. }
  unfold date_fields. change (take 4 (format_date y m d)) with (decimal 4 y).
  change (take 2 (drop 5 (format_date y m d))) with (decimal 2 m). change (take 2 (drop 8 (format_date y m d))) with (decimal 2 d).
  rewrite !parse_decimal by (lia || (simpl; lia)). done.
Qed.

Lemma iso_dates_run (s : string) (named : list (string * Value)) (range : TokenRange) (w : World) :
  is_str s = true ->
  (ParseIsoDate (MkArgs [VString s] named) range w = (Ok option_none, w) /\
   IsIsoDate (MkArgs [VString s] named) range w = (Ok (VBool false), w) /\
   (forall y m d, is_date y m d -> codes s <> format_date y m d)) \/
  (exists y m d, is_date y m d /\
   ParseIsoDate (MkArgs [VString s] named) range w = (Ok (option_some (date_value y m d)), w) /\
   IsIsoDate (MkArgs [VString s] named) range w = (Ok (VBool true), w) /\
   (forall y' m' d', is_date y' m' d' -> codes s = format_date y' m' d' -> (y', m', d') = (y, m, d))).
Proof.
  intros Vs%codes_valid. destruct (is_iso_date_spec (codes s) w Vs) as (b & E & Hb).
  assert (Hfmt : forall y m d, is_date y m d -> codes s = format_date y m d ->
    length (codes s) = 10%nat /\ codes s !! 4%nat = Some 45 /\ codes s !! 7%nat = Some 45 /\ date_fields (codes s) = Some (y, m, d)).
  { intros y m d Hd ->. rewrite date_fields_format by done. by split_and!. }
  assert (Hiso : IsIsoDate (MkArgs [VString s] named) range w = (Ok (VBool b), w)).
  { unfold IsIsoDate, format_test. run_checks. unfold bind. by rewrite E. }
  unfold ParseIsoDate. run_checks. destruct b.
  - right. destruct (proj1 Hb eq_refl) as (Hl & H4 & H7 & y & m & d & Ef & Hd). exists y, m, d.
    split_and!; [done| |done|].
    + destruct (date_slices (codes s) Vs Hl H4 H7) as (-> & -> & ->). rewrite !bind_ret. unfold date_fields in Ef.
      destruct (parse_u32 (take 4 _)) as [y'|] eqn:Ey; [|done]. destruct (parse_u32 (take 2 (drop 5 _))) as [m'|] eqn:Em; [|done].
      destruct (parse_u32 (take 2 (drop 8 _))) as [d'|] eqn:Ed; [|done]. injection Ef as -> -> ->.
      unfold parse_unwrap. rewrite (parse_i64_u32 _ _ Ey), bind_ret, bind_ret, (parse_i64_u32 _ _ Em), bind_ret, bind_ret, (parse_i64_u32 _ _ Ed), bind_ret.
      unfold bind. by rewrite E.
    + intros y' m' d' Hd' Hs. destruct (Hfmt _ _ _ Hd' Hs) as (_ & _ & _ & Ef'). congruence.
  - left. split_and!; [unfold bind; by rewrite E|done|]. intros y m d Hd Hs. destruct (Hfmt _ _ _ Hd Hs) as (A & B & C & D).
    assert (false = true) by (apply Hb; eauto 10). done.
Qed.

(** Dates: on every string [is_iso_date] and [parse_iso_date] return without a panic and
    agree; a parsed date is a day of the calendar, whose months add up to the Gregorian years,
    and every day of the years 0 to 9999 written [YYYY-MM-DD] is parsed to its year, month and
    day. *)
Theorem iso_dates (s : string) (named : list (string * Value)) (range : TokenRange) (w : World) :
  is_str s = true ->
  (ParseIsoDate (MkArgs [VString s] named) range w = (Ok option_none, w) /\
   IsIsoDate (MkArgs [VString s] named) range w = (Ok (VBool false), w) /\
   (forall y m d, is_date y m d -> codes s <> format_date y m d)) \/
  (exists y m d, is_date y m d /\
   ParseIsoDate (MkArgs [VString s] named) range w = (Ok (option_some (date_value y m d)), w) /\
   IsIsoDate (MkArgs [VString s] named) range w = (Ok (VBool true), w) /\
   (forall y' m' d', is_date y' m' d' -> codes s = format_date y' m' d' -> (y', m', d') = (y, m, d))).
Proof. apply iso_dates_run. Qed.
End Functions.

#[local] Existing Instance unit_host.

Lemma iso_dates_witness :
  exists y m d, is_date y m d /\
   fst (ParseIsoDate (Caps := Evaluator.evaluator_caps (Evaluator.plain_host None None)) (MkArgs [VString "2024-02-29"] []) tt (Evaluator.MkWorld 0 ∅ 0))
   = Ok (option_some (date_value y m d)).
Proof.
  destruct (iso_dates (Caps := Evaluator.evaluator_caps (Evaluator.plain_host None None)) "2024-02-29" [] tt (Evaluator.MkWorld 0 ∅ 0))
    as [(_ & B & _)|(y & m & d & D & E & _)]; [vm_compute; reflexivity|vm_compute in B; discriminate|].
  exists y, m, d. split; [exact D|]. rewrite E. reflexivity.
Defined.

(** The numbers of a date may carry a plus sign. *)
Example iso_date_plus_signs :
  fst (IsIsoDate (Caps := Evaluator.evaluator_caps (Evaluator.plain_host None None)) (MkArgs [VString "2024-+2-+9"] []) tt (Evaluator.MkWorld 0 ∅ 0))
  = Ok (VBool true).
Proof. reflexivity. Qed.
End StdDateFacts.

(** The numeric functions of the library: [floor], [ceil] and [round] are the integers around a
    number, and [multiple_of] decides divisibility, or panics. *)

Module StdMathFacts.
Import Native StdMath.

(** ** Rounding *)

(** The comparison of an integer with [m * 2^e]: [scaled v e] and [m * 2^(max e 0)] are both
    multiplied by [2^(max (-e) 0)]. *)
Definition scaled (v e : Z) : Z := v * 2 ^ Z.max 0 (- e).
Definition exact (s : bool) (m : positive) (e : Z) : Z := signed s m * 2 ^ Z.max 0 e.

Lemma floor_ratio_spec v e : scaled (floor_ratio v e) e <= v * 2 ^ Z.max 0 e < scaled (floor_ratio v e + 1) e.
Proof.
  unfold floor_ratio, scaled. destruct (Z.leb_spec 0 e) as [He|He].
  - rewrite (Z.max_r 0 e), Z.max_l by lia. pose proof (Z.pow_pos_nonneg 2 e). nia.
  - rewrite (Z.max_l 0 e), Z.max_r by lia. rewrite Z.pow_0_r, Z.mul_1_r.
    pose proof (Z.pow_pos_nonneg 2 (- e)). pose proof (Z.div_mod v (2 ^ - e)). pose proof (Z.mod_pos_bound v (2 ^ - e)). nia.
Qed.

Lemma round_int_spec s m e :
  let v := round_int s m e in
  2 * Z.abs (exact s m e - scaled v e) <= scaled 1 e /\ (2 * Z.abs (exact s m e - scaled v e) = scaled 1 e -> Z.even v = true).
Proof.
  cbv zeta. unfold round_int, exact, scaled. destruct (Z.leb_spec 0 e) as [He|He].
  - rewrite (Z.max_r 0 e), Z.max_l by lia. rewrite Z.pow_0_r, !Z.mul_1_r, Z.sub_diag. lia.
  - rewrite (Z.max_l 0 e), Z.max_r by lia. rewrite Z.pow_0_r, Z.mul_1_r. set (v := signed s m).
    pose proof (Z.pow_pos_nonneg 2 (- e)) as Hp. pose proof (Z.div_mod v (2 ^ - e)) as Hd. pose proof (Z.mod_pos_bound v (2 ^ - e)) as Hm.
    set (d := 2 ^ - e) in *. set (q := v / d) in *. set (r := v mod d) in *.
    destruct (Z.ltb_spec (2 * r) d); [|destruct (Z.ltb_spec d (2 * r))]; [nia..|].
    destruct (Z.even q) eqn:E; [split; [nia|done]|]. split; [nia|]. intros _. by rewrite Z.add_1_r, Z.even_succ, <- Z.negb_even, E.
Qed.

Lemma saturate_id v : Num.in_i64 v = true -> saturate v = v.
Proof. unfold Num.in_i64, Num.I64_MAX, saturate. rewrite andb_true_iff, !Z.leb_le. lia. Qed.

Section Facts.
Context {H : HostTypes} {TokenRange : Type} {Caps : NativeFnCaps TokenRange}.

(** On a finite double [x = +-m * 2^e], [floor], [ceil] and [round] return the largest
    integer not above [x], the smallest not below it and the nearest, a half going to the even
    one, each clamped to the range of [i64]. *)
Theorem rounding_exact (f : Z) (s : bool) (m : positive) (e : Z) (named : list (string * Value)) (range : TokenRange) (w : World) :
  Arith.to_spec f = S754_finite s m e ->
  exists lo hi near,
    MathFloor (MkArgs [VFloat f] named) range w = (Ok (VInt (Z.max (- 2 ^ 63) (Z.min lo (2 ^ 63 - 1)))), w) /\
    MathCeil (MkArgs [VFloat f] named) range w = (Ok (VInt (Z.max (- 2 ^ 63) (Z.min hi (2 ^ 63 - 1)))), w) /\
    MathRound (MkArgs [VFloat f] named) range w = (Ok (VInt (Z.max (- 2 ^ 63) (Z.min near (2 ^ 63 - 1)))), w) /\
    scaled lo e <= exact s m e < scaled (lo + 1) e /\
    scaled (hi - 1) e < exact s m e <= scaled hi e /\
    2 * Z.abs (exact s m e - scaled near e) <= scaled 1 e /\
    (2 * Z.abs (exact s m e - scaled near e) = scaled 1 e -> Z.even near = true).
Proof.
  intros E. exists (floor_int s m e), (ceil_int s m e), (round_int s m e).
  unfold MathFloor, MathCeil, MathRound, rounding, f64_to_int. cbn. rewrite E. repeat split; try done; try apply round_int_spec.
  - apply floor_ratio_spec.
  - apply floor_ratio_spec.
  - unfold ceil_int, exact. pose proof (floor_ratio_spec (- signed s m) e). unfold scaled in *. nia.
  - unfold ceil_int, exact. pose proof (floor_ratio_spec (- signed s m) e). unfold scaled in *. nia.
Qed.

(** [multiple_of] on integers returns whether the divisor is not zero and divides the
    number, except for [i64::MIN] and [-1], where the remainder overflows and the call panics. *)
Theorem multiple_of_ints (n d : Z) (named : list (string * Value)) (range : TokenRange) (w : World) :
  Num.in_i64 n = true -> Num.in_i64 d = true ->
  exists r, MultipleOf (MkArgs [VInt n; VInt d] named) range w = (r, w) /\
    (r = Abort <-> n = - 2 ^ 63 /\ d = -1) /\
    (r = Abort \/ exists b, r = Ok (VBool b) /\ (b = true <-> d <> 0 /\ (d | n))).
Proof.
  intros Hn Hd. unfold MultipleOf, rem_i64, Arith.checked_rem. cbn -[Z.pow Z.rem].
  destruct (Z.eqb_spec d 0) as [->|Hd0].
  { exists (Ok (VBool false)). split; [done|]. split; [split; [done|lia]|]. right. exists false. split; [done|]. split; [done|lia]. }
  cbn -[Z.pow Z.rem]. destruct ((n =? - 2 ^ 63) && (d =? -1)) eqn:E; cbn -[Z.pow Z.rem].
  - apply andb_true_iff in E as [->%Z.eqb_eq ->%Z.eqb_eq]. exists (@Abort (NativeError TokenRange Foreign) Value). by repeat split; left.
  - exists (Ok (VBool (Z.rem n d =? 0))). apply andb_false_iff in E. rewrite !Z.eqb_neq in E.
    split; [done|]. split; [split; [done|lia]|]. right. eexists. split; [done|]. rewrite Z.eqb_eq, Z.rem_divide by done. tauto.
Qed.
End Facts.

#[local] Existing Instance unit_host.

(** [round(2.5)]: the even neighbour. *)
Lemma rounding_exact_witness :
  exists near, fst (MathRound (Caps := Evaluator.evaluator_caps (Evaluator.plain_host None None))
      (MkArgs [VFloat 0x4004000000000000] []) tt (Evaluator.MkWorld 0 ∅ 0)) = Ok (VInt (Z.max (- 2 ^ 63) (Z.min near (2 ^ 63 - 1)))) /\
    2 * Z.abs (exact false 5629499534213120 (-51) - scaled near (-51)) <= scaled 1 (-51).
Proof.
  destruct (rounding_exact (Caps := Evaluator.evaluator_caps (Evaluator.plain_host None None))
    0x4004000000000000 false 5629499534213120 (-51) [] tt (Evaluator.MkWorld 0 ∅ 0)) as (lo & hi & near & _ & _ & E & _ & _ & N & _).
  { vm_compute. reflexivity. }
  exists near. split; [exact (f_equal fst E)|exact N].
Defined.

Lemma multiple_of_ints_witness :
  exists r, MultipleOf (Caps := Evaluator.evaluator_caps (Evaluator.plain_host None None)) (MkArgs [VInt (- 2 ^ 63); VInt (-1)] []) tt (Evaluator.MkWorld 0 ∅ 0)
    = (r, Evaluator.MkWorld 0 ∅ 0) /\ r = Abort.
Proof.
  destruct (multiple_of_ints (Caps := Evaluator.evaluator_caps (Evaluator.plain_host None None)) (- 2 ^ 63) (-1) [] tt (Evaluator.MkWorld 0 ∅ 0))
    as (r & E & A & _); [vm_compute; reflexivity..|].
  exists r. split; [exact E|]. apply A. split; reflexivity.
Defined.
End StdMathFacts.
