(* ===== verification/StdTypes.v ===== *)
(** The table of library functions with their result types, and its soundness: on well-formed
    arguments every function returns a well-formed value of its type or an error, and one call
    panics, [multiple_of] of the least integer and minus one. *)

From Stdlib Require Import ZArith Lia Bool.
From stdpp Require Import base list strings sorting gmap.
From S2P Require Import Prelude Bytes SchemaCanonical Value Context Chars Glob SmolStr NumberLit Lexer LexerFacts CaseFold CaseFoldFacts Normalization Arith Native StdSort StdLists StdMath StdStrings StdDicts StdValidate StdStringFacts StdDictFacts StdFacts.
Local Open Scope Z_scope.
Local Open Scope abi_scope.

Module StdTypes.
Import Native StdStringFacts StdDictFacts.

(** ** Well-formed values *)

#[local] Instance key_lt_dec {V} : RelDecision (@key_lt V).
Proof. intros a b. unfold key_lt. apply _. Defined.
#[local] Instance sorted_dec {V} (m : list (string * V)) : Decision (sorted m).
Proof. unfold sorted. apply _. Defined.

Section Values.
Context {H : HostTypes}.

(** The invariants of the Rust types inside a value: integers fit [i64], strings are UTF-8,
    and the maps of dictionaries are sorted by key without repetition. *)
Fixpoint wf_value (v : Value) : bool :=
  match v with
  | VInt i => Num.in_i64 i
  | VString s => is_str s
  | VList items | VTuple items => forallb wf_value items
  | VDict d =>
      bool_decide (sorted (dict_map d)) && forallb (fun kv => is_str (fst kv) && wf_value (snd kv)) (dict_map d)
  | _ => true
  end.

(** No collection is larger than the address space allows. *)
Definition sized (v : Value) : Prop :=
  match StdLists.size_of v with Some n => n <= ISIZE_MAX | None => True end.

Definition good (v : Value) : Prop := wf_value v = true /\ sized v.

Lemma forallb_all {A} (f : A -> bool) l : forallb f l = true <-> Forall (fun x => f x = true) l.
Proof. induction l as [|x l IH]; simpl; [by split|]. rewrite andb_true_iff, IH, Forall_cons. done. Qed.

Lemma wf_items items : wf_value (VList items) = true <-> Forall (fun v => wf_value v = true) items.
Proof. apply forallb_all. Qed.

Definition wf_map (m : list (string * Value)) : Prop :=
  sorted m /\ Forall (fun kv => is_str (fst kv) = true /\ wf_value (snd kv) = true) m.

Lemma wf_dict d : wf_value (VDict d) = true <-> wf_map (dict_map d).
Proof.
  simpl. rewrite andb_true_iff, bool_decide_eq_true, forallb_all. unfold wf_map.
  apply and_iff_compat_l, Forall_iff. intros kv. by rewrite andb_true_iff.
Qed.

Lemma wf_map_nil : wf_map [].
Proof. split; [constructor|done]. Qed.

Lemma wf_map_get m k v : wf_map m -> map_get k m = Some v -> wf_value v = true.
Proof.
  intros [_ Hm]. induction Hm as [|[j x] m [_ Hx] _ IH]; simpl; [done|]. case_bool_decide; [by intros [= <-]|done].
Qed.

Lemma insert_forall {V} (P : string * V -> Prop) k v m : P (k, v) -> Forall P m -> Forall P (map_insert k v m).
Proof.
  intros Hk. induction 1 as [|[j x] m Hx Hm IH]; simpl; [by repeat constructor|].
  destruct (String.compare k j); repeat constructor; done.
Qed.

Lemma wf_map_insert k v m : is_str k = true -> wf_value v = true -> wf_map m -> wf_map (map_insert k v m).
Proof. intros Hk Hv [Hs Hm]. split; [by apply insert_sorted|]. by apply insert_forall. Qed.

Lemma wf_option_some v : wf_value v = true -> wf_value (option_some v) = true.
Proof. intros Hv. apply wf_dict. simpl. split; [by repeat constructor|]. by repeat constructor. Qed.
End Values.

(** The size of a value, for induction on its parts. *)
Section Size.
Context {H : HostTypes}.

Fixpoint value_size (v : Value) : nat :=
  match v with
  | VList items | VTuple items => S (list_sum (map value_size items))
  | VDict d => S (list_sum (map (fun kv => value_size (snd kv)) (dict_map d)))
  | _ => 1
  end.

Lemma entry_size d k v : (k, v) ∈ dict_map d -> (value_size v < value_size (VDict d))%nat.
Proof.
  simpl. intros Hin. apply Nat.lt_succ_r. induction (dict_map d) as [|[j x] m IH]; [by apply not_elem_of_nil in Hin|].
  simpl. apply elem_of_cons in Hin as [[= <- <-]|Hin]; [lia|]. specialize (IH Hin). lia.
Qed.
End Size.

(** ** Safe runs *)

Section Safe.
Context {H : HostTypes} {TokenRange : Type} {Caps : NativeFnCaps TokenRange} {Inv : World -> Prop}.

(** From a world that satisfies [Inv], [m] does not panic, what it returns satisfies [Q], and it
    leaves a world that satisfies [Inv] also when it returns an error. *)
Definition safe {A} (m : Call A) (Q : A -> Prop) : Prop :=
  forall w, Inv w -> Inv (snd (m w)) /\ match fst (m w) with Ok a => Q a | Err _ => True | Abort => False end.

Lemma safe_ret {A} (a : A) (Q : A -> Prop) : Q a -> safe (ret a) Q.
Proof. by intros Ha w Hw. Qed.

Lemma safe_fail {A} e (Q : A -> Prop) : safe (fail e) Q.
Proof. by intros w Hw. Qed.

Lemma safe_mismatch {A} e f (range : TokenRange) (Q : A -> Prop) : safe (mismatch e f range) Q.
Proof. by intros w Hw. Qed.

Lemma safe_bind {A B} (m : Call A) (k : A -> Call B) (P : A -> Prop) (Q : B -> Prop) :
  safe m P -> (forall a, P a -> safe (k a) Q) -> safe (bind m k) Q.
Proof.
  intros Hm Hk w Hw. destruct (Hm w Hw) as [Hw' Ha]. unfold bind. destruct (m w) as [[a|e|] w']; simpl in *; [|done..].
  exact (Hk a Ha w' Hw').
Qed.

Lemma safe_weaken {A} (m : Call A) (P Q : A -> Prop) : safe m P -> (forall a, P a -> Q a) -> safe m Q.
Proof. intros Hm HQ w Hw. destruct (Hm w Hw) as [Hw' Ha]. split; [done|]. destruct (fst (m w)); auto. Qed.

Lemma safe_count args n (range : TokenRange) : safe (expect_arg_count args n range) (fun _ => length args = n).
Proof. unfold expect_arg_count. destruct (Nat.eqb_spec (length args) n); [by apply safe_ret|apply safe_mismatch]. Qed.

Lemma safe_arity args lo hi msg (range : TokenRange) : safe (expect_arg_range args lo hi msg range) (fun _ => (lo <= length args)%nat).
Proof.
  unfold expect_arg_range. destruct (_ && _) eqn:E; [|apply safe_mismatch]. apply andb_true_iff in E as [E _].
  apply safe_ret. by apply Nat.leb_le.
Qed.

Lemma safe_index {A} (l : list A) i (P : A -> Prop) : Forall P l -> (i < length l)%nat -> safe (index l i) P.
Proof.
  intros Hl Hi. unfold index. destruct (lookup_lt_is_Some_2 l i Hi) as [x Hx]. rewrite Hx. apply safe_ret.
  by eapply Forall_lookup_1.
Qed.

Lemma safe_int v (range : TokenRange) : good v -> safe (expect_int v range) (fun i => Num.in_i64 i = true).
Proof. intros [Hv _]. destruct v; first [by apply safe_ret | apply safe_mismatch]. Qed.

(** A string that is valid and fits the address space. *)
Definition good_str (s : string) : Prop := is_str s = true /\ Z.of_nat (String.length s) <= ISIZE_MAX.

Lemma safe_string v (range : TokenRange) : good v -> safe (expect_string v range) good_str.
Proof. intros [Hv Hs]. destruct v; first [apply safe_mismatch | by apply safe_ret; split]. Qed.

Lemma safe_list v (range : TokenRange) :
  good v -> safe (expect_list v range) (fun l => Forall (fun v => wf_value v = true) l /\ Z.of_nat (length l) <= ISIZE_MAX).
Proof. intros [Hv Hs]. destruct v; first [apply safe_mismatch | apply safe_ret; split; [by apply wf_items|done]]. Qed.

Lemma safe_dict v (range : TokenRange) : good v -> safe (expect_dict v range) (fun d => v = VDict d /\ wf_map (dict_map d)).
Proof. intros [Hv Hs]. destruct v; first [apply safe_mismatch | apply safe_ret; split; [done|by apply wf_dict]]. Qed.

Lemma safe_strings values (range : TokenRange) :
  Forall (fun v => wf_value v = true) values -> safe (expect_strings values range) (Forall (fun s => is_str s = true)).
Proof.
  induction 1 as [|v values Hv _ IH]; [by apply safe_ret|]. cbn [expect_strings].
  eapply (safe_bind _ _ (fun s => is_str s = true)).
  { destruct v; first [apply safe_mismatch | by apply safe_ret]. }
  intros s Hs. eapply safe_bind; [exact IH|]. intros ss Hss. apply safe_ret. by constructor.
Qed.

Lemma safe_string_list v (range : TokenRange) : good v -> safe (expect_string_list v range) (Forall (fun s => is_str s = true)).
Proof.
  intros Hv. eapply safe_bind; [by apply safe_list|]. intros l [Hl _]. by apply safe_strings.
Qed.

Lemma safe_failure args i e (range : TokenRange) (Q : Value -> Prop) : Forall good args -> safe (validation_failure args i e range) Q.
Proof.
  intros Ha. unfold validation_failure. destruct (args !! i) as [m|] eqn:E; [|apply safe_fail].
  eapply safe_bind; [apply safe_string; by eapply Forall_lookup_1|]. intros. apply safe_fail.
Qed.
End Safe.
Arguments safe {_ _ _} Inv {_} m Q.

(** ** The library *)

Inductive Ty : Type := TyBool | TyInt | TyFloat | TyString | TyList | TyDict | TyOption | TyIter | TyAny.

Definition has_type {H : HostTypes} (ty : Ty) (v : Value) : bool :=
  match ty, v with
  | TyBool, VBool _ | TyInt, VInt _ | TyFloat, VFloat _ | TyString, VString _ | TyList, VList _ | TyDict, VDict _ => true
  | TyOption, VDict d => bool_decide (dict_variant_of d = Some "Option"%string)
  | TyIter, VDict d => bool_decide (dict_brand d = Some StdDicts.BRAND)
  | TyAny, _ => true
  | _, _ => false
  end.

Create HintDb stdlib.

Section Library.
Context {H : HostTypes} {TokenRange : Type} {Caps : NativeFnCaps TokenRange} (Inv : World -> Prop).
Context {C : CharCase} {HC : CharCaseOk C}.
Context (regex_new : string -> outcome string (string -> bool)).
Context (json_to_string : StdDicts.Json -> outcome string string).
Context (powf : Z -> Z -> Z).

(** [register_to]: the functions and methods with a Rust body, under one of their names; the last
    one, [multiple_of], is the only one that can panic. *)
Definition steady_library : list (string * (RelonFunction * Ty)) :=
  [("len", (StdLists.Len, TyInt)); ("range", (StdLists.Range, TyList)); ("type", (StdLists.Type_, TyString));
   ("_list_map", (StdLists.ListMap, TyList)); ("_list_filter", (StdLists.ListFilter, TyList));
   ("_list_reduce", (StdLists.ListReduce, TyAny));
   ("_list_sort_by", (StdSort.ListSortBy, TyList)); ("_list_sort_by_desc", (StdSort.ListSortByDesc, TyList));
   ("_string_split", (StdStrings.StringSplit, TyList)); ("_string_join", (StdStrings.StringJoin, TyString));
   ("_string_replace", (StdStrings.StringReplace, TyString)); ("_string_contains", (StdStrings.StringContains, TyBool));
   ("_string_upper", (StdStrings.StringUpper, TyString)); ("_string_lower", (StdStrings.StringLower, TyString));
   ("_string_title", (StdStrings.StringTitle, TyString)); ("_string_upper_locale", (StdStrings.StringUpperLocale, TyString));
   ("_string_lower_locale", (StdStrings.StringLowerLocale, TyString));
   ("_string_title_locale", (StdStrings.StringTitleLocale, TyString));
   ("_string_nfc", (StdStrings.StringNfc, TyString)); ("_string_nfd", (StdStrings.StringNfd, TyString));
   ("_string_nfkc", (StdStrings.StringNfkc, TyString)); ("_string_nfkd", (StdStrings.StringNfkd, TyString));
   ("_string_glob_match", (StdStrings.StringGlobMatch, TyBool));
   ("_dict_merge", (StdDicts.DictMerge, TyDict)); ("_dict_keys", (StdDicts.DictKeys, TyList));
   ("_dict_values", (StdDicts.DictValues, TyList)); ("_dict_has_key", (StdDicts.DictHasKey, TyBool));
   ("_math_abs", (StdMath.MathAbsFloat, TyFloat));
   ("ensure.int", (StdValidate.ValidatorInt, TyInt)); ("ensure.string", (StdValidate.ValidatorString, TyString));
   ("ensure.bool", (StdValidate.ValidatorBool, TyBool)); ("ensure.float", (StdValidate.ValidatorFloat, TyFloat));
   ("ensure.list", (StdValidate.ValidatorList, TyList)); ("ensure.dict", (StdValidate.ValidatorDict, TyDict));
   ("ensure.at_least", (StdValidate.ValidatorMin, TyAny)); ("ensure.at_most", (StdValidate.ValidatorMax, TyAny));
   ("ensure.one_of", (StdValidate.ValidatorOneOf, TyAny)); ("ensure.required_fields", (StdValidate.RequiredFields, TyDict));
   ("ensure.requires", (StdValidate.Requires, TyDict)); ("ensure.fields_equal", (StdValidate.FieldEq, TyDict));
   ("matches", (StdStrings.StringMatches regex_new, TyBool)); ("starts_with", (StdStrings.StringStartsWith, TyBool));
   ("ends_with", (StdStrings.StringEndsWith, TyBool)); ("is_email", (StdValidate.IsEmail, TyBool));
   ("is_uri", (StdValidate.IsUri, TyBool)); ("is_uuid", (StdValidate.IsUuid, TyBool));
   ("is_iso_date", (StdValidate.IsIsoDate, TyBool)); ("is_ipv4", (StdValidate.IsIpv4, TyBool));
   ("is_ipv6", (StdValidate.IsIpv6, TyBool)); ("to_json", (StdDicts.ToJson json_to_string, TyString));
   ("in_range", (StdMath.InRange, TyBool)); ("round", (StdMath.MathRound, TyInt)); ("floor", (StdMath.MathFloor, TyInt));
   ("ceil", (StdMath.MathCeil, TyInt)); ("sqrt", (StdMath.MathSqrt, TyFloat)); ("pow", (StdMath.MathPow powf, TyFloat));
   ("unique", (StdLists.ListUnique, TyBool)); ("count", (StdLists.ListCount, TyInt)); ("every", (StdLists.ListEvery, TyBool));
   ("some", (StdLists.ListSome, TyBool)); ("trim", (StdStrings.StringTrim, TyString));
   ("trim_start", (StdStrings.StringTrimStart, TyString)); ("trim_end", (StdStrings.StringTrimEnd, TyString));
   ("select_keys", (StdDicts.DictSelectKeys, TyDict)); ("omit_keys", (StdDicts.DictOmitKeys, TyDict));
   ("size_in_range", (StdLists.SizeInRange, TyBool)); ("parse_iso_date", (StdValidate.ParseIsoDate, TyOption));
   ("String.is_empty", (StdLists.IsEmpty, TyBool)); ("String.concat", (StdStrings.StringConcat, TyString));
   ("String.substring", (StdStrings.StringSubstring, TyString)); ("List.sum", (StdLists.ListSum, TyAny));
   ("List.max", (StdLists.ListMax, TyAny)); ("List.min", (StdLists.ListMin, TyAny));
   ("List.iter", (StdDicts.IterFromList, TyIter)); ("String.iter", (StdDicts.IterFromString, TyIter));
   ("Dict.iter", (StdDicts.IterFromDict, TyIter)); ("Iter.next", (StdDicts.IterNext, TyOption))]%string.

Definition library : list (string * (RelonFunction * Ty)) :=
  steady_library ++ [("multiple_of"%string, (StdMath.MultipleOf, TyBool))].

(** The call whose remainder overflows. *)
Definition overflowing (args : list Value) : Prop := args = [VInt (- 2 ^ 63); VInt (-1)].

(** ** What the host provides *)

Notation safe := (safe Inv).

Record host_ok : Prop := {
  call_safe : forall f args range, Forall (fun v => wf_value v = true) args ->
    safe (call_relon f args range) (fun v => wf_value v = true);
  tick_safe : forall n range, safe (tick n range) (fun _ => True);
  display_valid : forall v, wf_value v = true -> is_str (display v) = true;
  fetch_inv : forall id len w, Inv w -> Inv (snd (iter_cursor_fetch_and_inc id len w));
  fetch_bounded : forall id len w, match fst (iter_cursor_fetch_and_inc id len w) with Some i => 0 <= i < len | None => True end;
  id_bounded : forall w, Inv w -> 0 <= fst (next_iter_id w) < 2 ^ 64 /\ Inv (snd (next_iter_id w));
  regex_total : forall p, regex_new p <> Abort;
  json_total : forall j, json_to_string j <> Abort;
  json_valid : forall j s, json_to_string j = Ok s -> is_str s = true;
}.
Hypothesis Hhost : host_ok.

(** A function that behaves as the table says. *)
Definition sound (f : RelonFunction) (ty : Ty) : Prop := forall args named range,
  Forall good args -> safe (f (MkArgs args named) range) (fun v => wf_value v = true /\ has_type ty v = true).

(** Runs the argument checks of a function. *)
#[local] Ltac checks :=
  repeat match goal with
  | |- safe (bind (ret _) _) _ => rewrite bind_ret
  | |- safe (bind (expect_arg_count _ _ _) _) _ => eapply safe_bind; [apply safe_count|cbn beta; intros _ ?]
  | |- safe (bind (expect_arg_range _ _ _ _ _) _) _ => eapply safe_bind; [apply safe_arity|cbn beta; intros _ ?]
  | |- safe (bind (index _ _) _) _ => eapply safe_bind; [apply (safe_index _ _ good); [assumption|lia]|cbn beta; intros ? ?]
  | |- safe (bind (expect_string _ _) _) _ => eapply safe_bind; [by apply safe_string|intros ? [? ?]]
  | |- safe (bind (expect_int _ _) _) _ => eapply safe_bind; [by apply safe_int|cbn beta; intros ? ?]
  | |- safe (bind (expect_list _ _) _) _ => eapply safe_bind; [by apply safe_list|intros ? [? ?]]
  | |- safe (bind (expect_dict _ _) _) _ => eapply safe_bind; [by apply safe_dict|intros ? [? ?]]
  | |- safe (bind (expect_string_list _ _) _) _ => eapply safe_bind; [by apply safe_string_list|cbn beta; intros ? ?]
  | |- safe (mismatch _ _ _) _ => apply safe_mismatch
  | |- safe (fail _) _ => apply safe_fail
  end.

#[local] Tactic Notation "start" reference(f) := intros args named range Hargs; unfold f; cbn [positional]; checks.
#[local] Ltac returns := apply safe_ret; first [done | split; [|done]].

Lemma in_i64_size n : 0 <= n -> n <= ISIZE_MAX -> Num.in_i64 n = true.
Proof. unfold Num.in_i64, Num.I64_MAX, ISIZE_MAX. rewrite andb_true_iff, !Z.leb_le. lia. Qed.

Lemma size_of_nonneg v n : StdLists.size_of v = Some n -> 0 <= n.
Proof. destruct v; simpl; try done; intros [= <-]; unfold StdLists.str_len; lia. Qed.

Lemma len_sound : sound StdLists.Len TyInt.
Proof.
  start StdLists.Len. match goal with Hg : good ?v |- _ => destruct Hg as [_ Hs] end. unfold sized in Hs.
  destruct (StdLists.size_of a) as [n|] eqn:E; checks. returns. apply in_i64_size; [by eapply size_of_nonneg|done].
Qed.

Lemma type_sound : sound StdLists.Type_ TyString.
Proof. start StdLists.Type_. returns. by destruct a. Qed.

Lemma tick_then {B} n range (k : unit -> Call B) Q : safe (k tt) Q -> safe (bind (tick n range) k) Q.
Proof. intros Hk. eapply safe_bind; [apply (tick_safe Hhost)|]. by intros []. Qed.

Lemma tick_if {B} (b : bool) n range (k : unit -> Call B) Q : safe (k tt) Q -> safe (bind (if b then tick n range else ret tt) k) Q.
Proof. intros Hk. destruct b; [by apply tick_then|done]. Qed.

Lemma tick_each_then {A B} (l : list A) range (k : unit -> Call B) Q : safe (k tt) Q -> safe (bind (StdStrings.tick_each l range) k) Q.
Proof.
  intros Hk. eapply (safe_bind _ _ (fun _ => True)); [|by intros []]. induction l as [|x l IH]; [by apply safe_ret|]. by apply tick_then.
Qed.

Lemma tick_entries_then {B} m range (k : unit -> Call B) Q : safe (k tt) Q -> safe (bind (StdDicts.tick_entries m range) k) Q.
Proof. intros Hk. destruct m; [done|]. by apply tick_then. Qed.

Lemma range_values s e :
  Num.in_i64 s = true -> Num.in_i64 e = true -> wf_value (VList (VInt <$> StdLists.ints s e)) = true.
Proof.
  unfold Num.in_i64, Num.I64_MAX. intros Hs He. zb. apply wf_items, Forall_fmap, Forall_forall. unfold StdLists.ints.
  intros x Hx%elem_of_seqZ. simpl. unfold Num.in_i64, Num.I64_MAX. rewrite andb_true_iff, !Z.leb_le. lia.
Qed.

Lemma range_sound : sound StdLists.Range TyList.
Proof.
  start StdLists.Range. eapply (safe_bind _ _ (fun se => Num.in_i64 (fst se) = true /\ Num.in_i64 (snd se) = true)).
  { unfold StdLists.range_bounds. destruct args as [|a [|b [|]]]; checks.
    - apply Forall_cons in Hargs as [? _]. checks. apply safe_ret. by split.
    - apply Forall_cons in Hargs as [? [? _]%Forall_cons]. checks. apply safe_ret. by split. }
  intros [s e] [Hs He]. cbv zeta. apply tick_if.
  eapply (safe_bind _ _ (fun _ => True)); [|intros _ _; returns; by apply range_values].
  destruct max_value_elements as [l|]; [|by apply safe_ret]. destruct (l <? _); [apply safe_fail|by apply safe_ret].
Qed.

Lemma map_loop_safe f items range : Forall (fun v => wf_value v = true) items ->
  safe (StdLists.map_loop f items range) (Forall (fun v => wf_value v = true)).
Proof.
  induction 1 as [|x items Hx _ IH]; [by apply safe_ret|]. cbn [StdLists.map_loop]. apply tick_then.
  eapply safe_bind; [apply (call_safe Hhost); by apply Forall_singleton|]. intros v Hv.
  eapply safe_bind; [exact IH|]. intros vs Hvs. apply safe_ret. by constructor.
Qed.

Lemma filter_loop_safe f items range : Forall (fun v => wf_value v = true) items ->
  safe (StdLists.filter_loop f items range) (Forall (fun v => wf_value v = true)).
Proof.
  induction 1 as [|x items Hx _ IH]; [by apply safe_ret|]. cbn [StdLists.filter_loop]. apply tick_then.
  eapply safe_bind; [apply (call_safe Hhost); by apply Forall_singleton|]. intros v Hv.
  eapply safe_bind; [exact IH|]. intros vs Hvs. apply safe_ret. destruct (Arith.is_truthy v); [by constructor|done].
Qed.

Lemma reduce_loop_safe f items range acc : Forall (fun v => wf_value v = true) items -> wf_value acc = true ->
  safe (StdLists.reduce_loop f acc items range) (fun v => wf_value v = true).
Proof.
  intros Hi. revert acc. induction Hi as [|x items Hx _ IH]; intros acc Ha; [by apply safe_ret|]. cbn [StdLists.reduce_loop]. apply tick_then.
  eapply safe_bind; [apply (call_safe Hhost); by repeat constructor|]. intros v Hv. by apply IH.
Qed.

Lemma quantifier_loop_safe stop f items range : Forall (fun v => wf_value v = true) items ->
  safe (StdLists.quantifier_loop stop f items range) (fun v => wf_value v = true /\ has_type TyBool v = true).
Proof.
  induction 1 as [|x items Hx _ IH]; [by apply safe_ret|]. cbn [StdLists.quantifier_loop]. apply tick_then.
  eapply safe_bind; [apply (call_safe Hhost); by apply Forall_singleton|]. intros v Hv.
  destruct v; checks. destruct (Bool.eqb b stop); [by apply safe_ret|done].
Qed.

Lemma map_sound : sound StdLists.ListMap TyList.
Proof. start StdLists.ListMap. eapply safe_bind; [by apply map_loop_safe|]. intros vs Hvs. returns. by apply wf_items. Qed.

Lemma filter_sound : sound StdLists.ListFilter TyList.
Proof. start StdLists.ListFilter. eapply safe_bind; [by apply filter_loop_safe|]. intros vs Hvs. returns. by apply wf_items. Qed.

Lemma reduce_sound : sound StdLists.ListReduce TyAny.
Proof.
  start StdLists.ListReduce. match goal with Hg : good ?acc |- safe (StdLists.reduce_loop _ ?acc _ _) _ => destruct Hg end.
  eapply safe_weaken; [by apply reduce_loop_safe|]. done.
Qed.

Lemma quantifier_sound stop : sound (StdLists.quantifier stop) TyBool.
Proof. start StdLists.quantifier. by apply quantifier_loop_safe. Qed.

Lemma undecorate_safe perm items w out :
  Forall (fun v => wf_value v = true) items -> fst (StdSort.lift (StdSort.undecorate perm items) w) = Ok out ->
  Forall (fun v => wf_value v = true) out.
Proof.
  simpl. intros Hi. revert out. induction perm as [|i perm IH]; intros out; simpl; [by intros [= <-]|].
  unfold StdSort.at_. destruct (items !! i) as [x|] eqn:E; [|done]. cbn [Prelude.bind].
  destruct (StdSort.undecorate perm items) as [out'| |]; try done. intros [= <-]. constructor; [exact (Forall_lookup_1 _ _ _ _ Hi E)|by apply IH].
Qed.

Lemma decorate_safe key items range : Forall (fun v => wf_value v = true) items ->
  safe (StdSort.decorate key items range) (fun keys => length keys = length items).
Proof.
  induction 1 as [|x items Hx _ IH]; [by apply safe_ret|]. cbn [StdSort.decorate]. apply tick_then.
  eapply safe_bind; [apply (call_safe Hhost); by apply Forall_singleton|]. intros v Hv.
  eapply safe_bind; [exact IH|]. intros vs Hvs. apply safe_ret. simpl in *. by f_equal.
Qed.

Lemma sort_sound dir : sound (fun args range => StdSort.list_sort_by_impl args range dir) TyList.
Proof.
  start StdSort.list_sort_by_impl. eapply safe_bind; [by apply decorate_safe|]. cbn beta. intros keys Hk.
  eapply (safe_bind _ _ (Forall (fun i => (i < length a0)%nat))).
  { intros w Hw. split; [done|]. simpl. destruct (StdSortFacts.sort_indices_spec keys dir range) as [(_ & p & -> & Hp & _)|(_ & e & -> & _)]; [|done].
    rewrite Hk in Hp. rewrite Hp. apply Forall_forall. intros i Hi%elem_of_seq. lia. }
  intros p Hp. eapply (safe_bind _ _ (Forall (fun v => wf_value v = true))).
  { intros w Hw. split; [done|]. destruct (StdSortFacts.undecorate_spec p a0 Hp) as (out & E & _).
    destruct (fst (StdSort.lift (StdSort.undecorate p a0) w)) eqn:E'; simpl in *; [|done|congruence]. by apply (undecorate_safe p a0 w). }
  intros out Ho. returns. by apply wf_items.
Qed.

Lemma is_empty_sound : sound StdLists.IsEmpty TyBool.
Proof. start StdLists.IsEmpty. destruct (StdLists.size_of a); checks. by apply safe_ret. Qed.

Lemma count_sound : sound StdLists.ListCount TyInt.
Proof. start StdLists.ListCount. returns. simpl. by apply in_i64_size; [lia|]. Qed.

Lemma size_in_range_sound : sound StdLists.SizeInRange TyBool.
Proof.
  start StdLists.SizeInRange. eapply (safe_bind _ _ (fun _ => True)).
  - destruct a; checks; by apply safe_ret.
  - intros n _. checks. by apply safe_ret.
Qed.

Lemma unique_sound : sound StdLists.ListUnique TyBool.
Proof. start StdLists.ListUnique. by apply safe_ret. Qed.

Lemma sum_classify_safe items ai af range : safe (StdLists.sum_classify items ai af range) (fun _ => True).
Proof. revert ai af. induction items as [|[] items IH]; intros ai af; cbn [StdLists.sum_classify]; first [by apply safe_ret|apply IH|apply safe_mismatch]. Qed.

Lemma checked_some v r : Arith.checked v = Some r -> Num.in_i64 r = true.
Proof. unfold Arith.checked. destruct (Num.in_i64 v) eqn:E; [by intros [= <-]|done]. Qed.

Lemma sum_ints_safe items acc range : Num.in_i64 acc = true -> safe (StdLists.sum_ints acc items range) (fun v => Num.in_i64 v = true).
Proof.
  revert acc. induction items as [|v items IH]; intros acc Ha; cbn [StdLists.sum_ints]; [by apply safe_ret|].
  destruct v; try by apply IH. destruct (Arith.checked (acc + i)) eqn:E; [|apply safe_fail]. apply IH. by eapply checked_some.
Qed.

Lemma sum_sound : sound StdLists.ListSum TyAny.
Proof.
  start StdLists.ListSum. eapply safe_bind; [apply sum_classify_safe|]. intros [ai af] _. destruct ai.
  - eapply safe_bind; [by apply sum_ints_safe|]. intros v Hv. by returns.
  - destruct af; by returns.
Qed.

Lemma extremum_ints_safe better items acc range : Forall (fun v => wf_value v = true) items -> Num.in_i64 acc = true ->
  safe (StdLists.extremum_ints better acc items range) (fun v => Num.in_i64 v = true).
Proof.
  intros Hi. revert acc. induction Hi as [|v items Hv _ IH]; intros acc Ha; cbn [StdLists.extremum_ints]; [by apply safe_ret|].
  eapply (safe_bind _ _ (fun x => Num.in_i64 x = true)).
  - destruct v; first [by apply safe_ret|apply safe_mismatch].
  - intros x Hx. apply IH. by destruct (better x acc).
Qed.

Lemma extremum_floats_safe better items acc range : safe (StdLists.extremum_floats better acc items range) (fun _ => True).
Proof.
  revert acc. induction items as [|v items IH]; intros acc; cbn [StdLists.extremum_floats]; [by apply safe_ret|].
  destruct v; first [apply IH|apply safe_mismatch].
Qed.

Lemma extremum_sound bi bf : sound (StdLists.extremum bi bf) TyAny.
Proof.
  start StdLists.extremum. destruct a0 as [|v items]; [apply safe_mismatch|].
  match goal with Hf : Forall _ (v :: items) |- _ => apply Forall_cons in Hf as [Hv Hi] end.
  destruct v; checks.
  - eapply safe_bind; [by apply extremum_ints_safe|]. intros x Hx. by returns.
  - eapply safe_bind; [apply extremum_floats_safe|]. intros x _. by returns.
Qed.

(** ** Strings *)

Lemma split_sound : sound StdStrings.StringSplit TyList.
Proof.
  start StdStrings.StringSplit. destruct (String.length a2 =? 0)%nat eqn:E; checks. cbv zeta. apply tick_each_then. returns.
  apply wf_items, Forall_map. apply Nat.eqb_neq in E. eapply Forall_impl; [apply split_valid; [by rewrite codes_nil|by apply codes_valid..]|].
  intros p Hp. by apply of_codes_valid.
Qed.

Lemma join_sound : sound StdStrings.StringJoin TyString.
Proof.
  start StdStrings.StringJoin. apply tick_each_then. returns. apply of_codes_valid, join_valid; [by apply codes_valid|].
  apply Forall_map. eapply Forall_impl; [eassumption|]. intros v Hv. by apply codes_valid, (display_valid Hhost).
Qed.

Lemma replace_sound : sound StdStrings.StringReplace TyString.
Proof.
  start StdStrings.StringReplace. cbv zeta. apply tick_if. returns. by apply of_codes_valid, replace_valid; apply codes_valid.
Qed.

Lemma string_test_sound test : (forall s t, safe (test s t) (fun _ => True)) -> sound (StdStrings.string_test test) TyBool.
Proof. intros Ht. start StdStrings.string_test. eapply safe_bind; [apply Ht|]. intros b _. by apply safe_ret. Qed.

Lemma glob_sound : sound StdStrings.StringGlobMatch TyBool.
Proof. apply string_test_sound. intros s t. destruct (Glob.glob_match s t) eqn:E; [by apply safe_ret|]. destruct (Glob.glob_match_run s t) as (b & E' & _). congruence. Qed.

Lemma is_str_append s t : is_str s = true -> is_str t = true -> is_str (s +:+ t) = true.
Proof.
  intros Hs Ht. rewrite <- (of_codes_codes (s +:+ t)). apply of_codes_valid.
  assert (StdStrings.codes (s +:+ t) = StdStrings.codes s ++ StdStrings.codes t) as ->.
  { unfold StdStrings.codes. by rewrite Smol.as_bytes_app, map_app. }
  by apply valid_app; apply codes_valid.
Qed.

Lemma concat_sound : sound StdStrings.StringConcat TyString.
Proof. start StdStrings.StringConcat. returns. by apply is_str_append. Qed.

Lemma trimming_sound f :
  (forall cs, Forall (fun c => is_scalar_value c = true) cs -> Forall (fun c => is_scalar_value c = true) (f cs)) ->
  sound (StdStrings.trimming f) TyString.
Proof. intros Hf. start StdStrings.trimming. returns. apply of_codes_valid, encode_all_ok, Hf. by apply chars_scalar. Qed.

Lemma trim_sound : sound StdStrings.StringTrim TyString.
Proof. apply trimming_sound. intros cs Hc. by apply trim_end_forall, trim_start_forall. Qed.

Lemma normalizing_sound f : (forall s, exists r, f s = Ok r /\ is_str r = true) -> sound (StdStrings.normalizing f) TyString.
Proof. intros Hf. start StdStrings.normalizing. destruct (Hf a0) as (r & -> & Hr). by apply safe_ret. Qed.

Lemma fold_smol_ok s mode tr : is_str s = true -> exists t, StdStrings.fold_smol s mode tr = Ok t /\ is_str t = true.
Proof.
  intros Hs. unfold StdStrings.fold_smol. destruct (Smol.from_string_ok (E := unit) s Hs) as (x & -> & Hx). cbn [Prelude.bind].
  destruct (case_fold_total x s mode tr Hx) as (y & t & -> & Hy). cbn [Prelude.bind]. exists t.
  by destruct (Smol.denotes_stands_for (E := unit) y t Hy) as [Ht -> _ _ _].
Qed.

Lemma case_folding_sound mode : sound (StdStrings.case_folding mode) TyString.
Proof. start StdStrings.case_folding. destruct (fold_smol_ok a0 mode false) as (t & -> & Ht); [done|]. by apply safe_ret. Qed.

Lemma case_folding_locale_sound mode : sound (StdStrings.case_folding_locale mode) TyString.
Proof.
  start StdStrings.case_folding_locale. cbv zeta.
  destruct (fold_smol_ok a0 mode (is_turkish_locale a2)) as (t & -> & Ht); [done|]. by apply safe_ret.
Qed.

Lemma nfc_sound : sound StdStrings.StringNfc TyString.
Proof. apply normalizing_sound. apply (Normalization.forms_total Normalization.Canonical). Qed.
Lemma nfd_sound : sound StdStrings.StringNfd TyString.
Proof. apply normalizing_sound. apply (Normalization.forms_total Normalization.Canonical). Qed.
Lemma nfkc_sound : sound StdStrings.StringNfkc TyString.
Proof. apply normalizing_sound. apply (Normalization.forms_total Normalization.Compatibility). Qed.
Lemma nfkd_sound : sound StdStrings.StringNfkd TyString.
Proof. apply normalizing_sound. apply (Normalization.forms_total Normalization.Compatibility). Qed.

Lemma substring_sound : sound StdStrings.StringSubstring TyString.
Proof.
  intros args named range Hargs w Hw. destruct args as [|v1 [|v2 [|v3 [|]]]]; try done.
  apply Forall_cons in Hargs as [[W1 S1] [[W2 _] [[W3 _] _]%Forall_cons]%Forall_cons].
  destruct v1; try done. destruct v2; try done. destruct v3; try done.
  destruct (substring_bounds s i i0 named range w) as (t & j & k & E & Ht & _); [done..|]. rewrite E. by repeat split.
Qed.

Lemma matches_sound : sound (StdStrings.StringMatches regex_new) TyBool.
Proof.
  start StdStrings.StringMatches. destruct (regex_new a2) eqn:E; [by apply safe_ret|checks|]. by apply (regex_total Hhost) in E.
Qed.

(** ** Dictionaries *)

Lemma get_wf_option m k : wf_map m -> match map_get k m with Some v => wf_value v = true | None => True end.
Proof. intros Hm. destruct (map_get k m) eqn:E; [|done]. by eapply wf_map_get. Qed.

Lemma deep_merge_wf patch : forall base, wf_value base = true -> wf_value patch = true -> wf_value (deep_merge base patch) = true.
Proof.
  induction patch as [patch IH] using (well_founded_induction (well_founded_ltof _ value_size)).
  intros base Hb Hp. destruct base, patch; try done. rewrite deep_merge_dict. apply wf_dict. apply wf_dict in Hb, Hp. cbn [dict_map].
  assert (Hsz : forall k v, (k, v) ∈ dict_map d0 -> (value_size v < value_size (VDict d0))%nat) by apply entry_size.
  destruct Hp as [_ Hp]. revert Hb. generalize (dict_map d). revert Hsz. induction Hp as [|[k v] p [Hk Hv] _ IHp]; intros Hsz m Hm; [done|].
  cbn [merge_entries]. apply IHp; [intros k' v' Hin; apply (Hsz k' v'); by right|].
  unfold upsert. pose proof (get_wf_option m k Hm). destruct (map_get k m) as [b|]; apply wf_map_insert; try done.
  apply IH; [|done..]. apply (Hsz k v). left.
Qed.

Lemma merge_loop_safe patches result range :
  Forall (fun v => wf_value v = true) patches -> wf_value result = true ->
  safe (StdDicts.merge_loop result patches range) (fun v => wf_value v = true).
Proof.
  intros Hp. revert result. induction Hp as [|p patches Hp _ IH]; intros result Hr; cbn [StdDicts.merge_loop]; [by apply safe_ret|].
  assert (wf_value (deep_merge result p) = true) by (by apply deep_merge_wf).
  destruct p; try by apply IH. by apply tick_entries_then, IH.
Qed.

Lemma goods_wf args : Forall good args -> Forall (fun v => wf_value v = true) args.
Proof. intros Ha. eapply Forall_impl; [exact Ha|]. by intros v [? _]. Qed.

Lemma merge_sound : sound StdDicts.DictMerge TyDict.
Proof.
  start StdDicts.DictMerge. destruct args as [|v args]; checks. apply goods_wf, Forall_cons in Hargs as [Hv Ha].
  eapply safe_bind; [by apply merge_loop_safe|]. intros r Hr. destruct r; checks. by apply safe_ret.
Qed.

Lemma keys_sound : sound StdDicts.DictKeys TyList.
Proof.
  start StdDicts.DictKeys. apply tick_entries_then. returns. apply wf_items, Forall_map.
  match goal with Hm : wf_map _ |- _ => destruct Hm as [_ Hm] end. eapply Forall_impl; [eassumption|]. by intros kv [? _].
Qed.

Lemma values_sound : sound StdDicts.DictValues TyList.
Proof.
  start StdDicts.DictValues. apply tick_entries_then. returns. apply wf_items, Forall_map.
  match goal with Hm : wf_map _ |- _ => destruct Hm as [_ Hm] end. eapply Forall_impl; [eassumption|]. by intros kv [_ ?].
Qed.

Lemma has_key_sound : sound StdDicts.DictHasKey TyBool.
Proof. start StdDicts.DictHasKey. by apply safe_ret. Qed.

Lemma select_wf m keys : wf_map m -> Forall (fun s => is_str s = true) keys -> wf_map (StdDicts.select_keys m keys).
Proof.
  intros Hm Hk. unfold StdDicts.select_keys. generalize wf_map_nil. generalize (@nil (string * Value)).
  induction Hk as [|k keys Hk _ IH]; intros acc Ha; [done|]. simpl. apply IH.
  pose proof (get_wf_option m k Hm). destruct (map_get k m); [by apply wf_map_insert|done].
Qed.

Lemma omit_wf m keys : wf_map m -> wf_map (StdDicts.omit_keys m keys).
Proof.
  intros [_ Hm]. unfold StdDicts.omit_keys. generalize wf_map_nil. generalize (@nil (string * Value)).
  induction Hm as [|[k v] m [Hk Hv] _ IH]; intros acc Ha; [done|]. simpl. apply IH.
  case_bool_decide; [done|by apply wf_map_insert].
Qed.

Lemma select_sound : sound StdDicts.DictSelectKeys TyDict.
Proof. start StdDicts.DictSelectKeys. returns. by apply wf_dict, select_wf. Qed.

Lemma omit_sound : sound StdDicts.DictOmitKeys TyDict.
Proof. start StdDicts.DictOmitKeys. returns. by apply wf_dict, omit_wf. Qed.

(** ** Iterators *)

Lemma make_iter_safe kind source : is_str kind = true -> wf_value source = true ->
  safe (StdDicts.make_iter_value kind source) (fun v => wf_value v = true /\ has_type TyIter v = true).
Proof.
  intros Hk Hs w Hw. unfold StdDicts.make_iter_value. destruct (id_bounded Hhost w Hw) as [Hid Hw'].
  destruct (next_iter_id w) as [id w'] eqn:E. simpl in Hid. cbn [fst]. split; [done|]. split; [|done]. apply wf_dict. cbn [dict_map branded_dict].
  repeat apply wf_map_insert; try done; try apply wf_map_nil. simpl. unfold StdDicts.u64_as_i64, Num.in_i64, Num.I64_MAX.
  rewrite andb_true_iff, !Z.leb_le. destruct (Z.ltb_spec id (2 ^ 63)); lia.
Qed.

Lemma iter_list_sound : sound StdDicts.IterFromList TyIter.
Proof. start StdDicts.IterFromList. apply make_iter_safe; [done|]. by match goal with Hg : good ?v |- wf_value ?v = true => destruct Hg end. Qed.
Lemma iter_string_sound : sound StdDicts.IterFromString TyIter.
Proof. start StdDicts.IterFromString. apply make_iter_safe; [done|]. by match goal with Hg : good ?v |- wf_value ?v = true => destruct Hg end. Qed.
Lemma iter_dict_sound : sound StdDicts.IterFromDict TyIter.
Proof. start StdDicts.IterFromDict. apply make_iter_safe; [done|]. by match goal with Hg : good ?v |- wf_value ?v = true => destruct Hg end. Qed.

Lemma fetch_safe id len element :
  (forall i, 0 <= i < len -> safe (element (Z.to_nat i)) (fun v => wf_value v = true)) ->
  safe (StdDicts.fetch id len element) (fun o => match o with Some v => wf_value v = true | None => True end).
Proof.
  intros He w Hw. unfold StdDicts.fetch. pose proof (fetch_bounded Hhost id len w) as Hf. pose proof (fetch_inv Hhost id len w Hw) as Hw'.
  destruct (iter_cursor_fetch_and_inc id len w) as [[i|] w']; [|done]. simpl in Hf, Hw'.
  revert w' Hw'. apply (safe_bind (element (Z.to_nat i)) (fun v => ret (Some v)) _ _ (He i Hf)). intros v Hv. by apply safe_ret.
Qed.

Lemma iter_element_safe kind source id range : wf_value source = true ->
  safe (StdDicts.iter_element kind source id range) (fun o => match o with Some v => wf_value v = true | None => True end).
Proof.
  intros Hs. unfold StdDicts.iter_element.
  case_bool_decide; [destruct source; checks; apply fetch_safe; intros i Hi; apply safe_index; [by apply wf_items|lia]|].
  case_bool_decide.
  { destruct source; checks. apply fetch_safe. intros i Hi. simpl in Hs.
    eapply (safe_bind _ _ (fun c => is_scalar_value c = true)); [apply safe_index; [by apply chars_scalar|lia]|].
    intros c Hc. apply safe_ret. by apply of_codes_valid, encode_valid. }
  case_bool_decide; checks. destruct source; checks. apply fetch_safe. intros i Hi. apply wf_dict in Hs as [_ Hm].
  unfold StdDicts.dict_len in Hi. destruct (lookup_lt_is_Some_2 (dict_map d) (Z.to_nat i)) as [[k v] E]; [lia|]. rewrite E.
  destruct (Forall_lookup_1 _ _ _ _ Hm E) as [Hk Hv]. apply safe_ret. simpl in *. by rewrite Hk, Hv.
Qed.

Lemma require_safe {A} (o : option A) e f range : safe (StdDicts.require o e f range) (fun a => o = Some a).
Proof. destruct o; [by apply safe_ret|apply safe_mismatch]. Qed.

Lemma next_sound : sound StdDicts.IterNext TyOption.
Proof.
  start StdDicts.IterNext. destruct (negb _); checks. cbv zeta. eapply safe_bind; [apply require_safe|]. intros kind _.
  eapply safe_bind; [apply require_safe|]. cbn beta. intros source Hs. eapply safe_bind; [apply require_safe|]. intros id _.
  eapply safe_bind; [apply iter_element_safe; by eapply wf_map_get|]. intros o Ho. apply safe_ret.
  destruct o as [v|]; [|done]. split; [by apply wf_option_some|done].
Qed.

(** ** Validation *)

Lemma type_validator_sound variant expected ty :
  (forall v, variant v = true -> has_type ty v = true) -> sound (StdValidate.type_validator variant expected) ty.
Proof.
  intros Hv. start StdValidate.type_validator. destruct (variant a) eqn:E; [|by apply safe_failure].
  match goal with Hg : good _ |- _ => destruct Hg end. apply safe_ret. auto.
Qed.

Lemma bound_validator_sound test sign usage : sound (StdValidate.bound_validator test sign usage) TyAny.
Proof.
  start StdValidate.bound_validator. destruct (test a a0) as [[|]|]; [|by apply safe_failure|checks].
  apply safe_ret. match goal with Hg : good ?v |- wf_value ?v = true /\ _ => destruct Hg end. by destruct a.
Qed.

Lemma good_any v : good v -> wf_value v = true /\ has_type TyAny v = true.
Proof. intros [Hv _]. by destruct v. Qed.

Lemma one_of_sound : sound StdValidate.ValidatorOneOf TyAny.
Proof.
  start StdValidate.ValidatorOneOf. destruct a0; checks. destruct (existsb _ _); [by apply safe_ret, good_any|by apply safe_failure].
Qed.

Lemma good_dict v d : good v -> v = VDict d -> wf_value v = true /\ has_type TyDict v = true.
Proof. by intros [? _] ->. Qed.

Lemma required_sound : sound StdValidate.RequiredFields TyDict.
Proof.
  start StdValidate.RequiredFields. destruct (find _ _); [by apply safe_failure|]. by eapply safe_ret, good_dict.
Qed.

Lemma requires_sound : sound StdValidate.Requires TyDict.
Proof.
  start StdValidate.Requires. destruct (_ && _); [by apply safe_failure|]. by eapply safe_ret, good_dict.
Qed.

Lemma field_eq_sound : sound StdValidate.FieldEq TyDict.
Proof.
  start StdValidate.FieldEq. destruct (negb _); [by apply safe_failure|]. by eapply safe_ret, good_dict.
Qed.

Lemma format_sound test :
  (forall s, is_str s = true -> safe (test (StdStrings.codes s)) (fun _ => True)) -> sound (StdValidate.format_test test) TyBool.
Proof.
  intros Ht. start StdValidate.format_test. eapply safe_bind; [by apply Ht|]. intros b _. by apply safe_ret.
Qed.

Lemma pure_format_sound test : sound (StdValidate.format_test (fun s => ret (test s))) TyBool.
Proof. apply format_sound. intros s _. by apply safe_ret. Qed.

Lemma is_iso_date_sound : sound StdValidate.IsIsoDate TyBool.
Proof.
  apply format_sound. intros s Hs w Hw. by destruct (StdDateFacts.is_iso_date_spec (StdStrings.codes s) w (codes_valid _ Hs)) as (b & -> & _).
Qed.

Lemma date_wf y m d : StdDateFacts.is_date y m d -> wf_value (StdDateFacts.date_value y m d) = true.
Proof.
  intros (Hy & Hm & Hd). assert (d <= 31) by (revert Hd; unfold StdValidate.max_day; repeat case_bool_decide; [lia..|]; destruct (StdValidate.is_leap y); lia).
  apply wf_dict. unfold wf_map. split; [by repeat constructor|].
  repeat constructor; simpl; unfold Num.in_i64, Num.I64_MAX; rewrite andb_true_iff, !Z.leb_le; lia.
Qed.

Lemma parse_iso_date_sound : sound StdValidate.ParseIsoDate TyOption.
Proof.
  intros args named range Hargs w Hw. destruct args as [|v [|]]; [done| |done].
  apply Forall_singleton in Hargs as [Hv _]. destruct v; try done.
  destruct (StdDateFacts.iso_dates_run s named range w Hv) as [(E & _)|(y & m & d & Hd & E & _)]; rewrite E; [done|].
  split; [done|]. split; [by apply wf_option_some, date_wf|done].
Qed.

(** ** Numbers and JSON *)

Lemma abs_sound : sound StdMath.MathAbsFloat TyFloat.
Proof. start StdMath.MathAbsFloat. destruct a; checks. by apply safe_ret. Qed.
Lemma in_range_sound : sound StdMath.InRange TyBool.
Proof. start StdMath.InRange. by apply safe_ret. Qed.
Lemma sqrt_sound : sound StdMath.MathSqrt TyFloat.
Proof. start StdMath.MathSqrt. by apply safe_ret. Qed.
Lemma pow_sound : sound (StdMath.MathPow powf) TyFloat.
Proof. start StdMath.MathPow. by apply safe_ret. Qed.

Lemma to_int_range round bits : Num.in_i64 (StdMath.f64_to_int round bits) = true.
Proof.
  unfold StdMath.f64_to_int, StdMath.saturate, Num.in_i64, Num.I64_MAX. rewrite andb_true_iff, !Z.leb_le.
  destruct (Arith.to_spec bits) as [|[]| |]; lia.
Qed.

Lemma rounding_sound round : sound (StdMath.rounding round) TyInt.
Proof.
  start StdMath.rounding. destruct a; checks; [by match goal with Hg : good _ |- _ => destruct Hg; returns end|].
  returns. apply to_int_range.
Qed.

Lemma obind_total {E A B} (m : outcome E A) (k : A -> outcome E B) :
  m <> Abort -> (forall a, k a <> Abort) -> Prelude.bind m k <> Abort.
Proof. intros Hm Hk. destruct m; [apply Hk|done..]. Qed.

Lemma value_to_json_total v (range : TokenRange) : StdDicts.value_to_json v range <> Abort.
Proof.
  induction v as [v IH] using (well_founded_induction (well_founded_ltof _ value_size)). unfold ltof in IH.
  assert (Hitems : forall l, (list_sum (map value_size l) < value_size v)%nat ->
    (fix items_to_json (items : list Value) : outcome (NativeError TokenRange Foreign) (list StdDicts.Json) :=
      match items with
      | [] => Ok []
      | item :: items => let* j := StdDicts.value_to_json item range in let* js := items_to_json items in Ok (j :: js)
      end) l <> Abort).
  { induction l as [|x l IHl]; unfold list_sum in *; cbn [map foldr]; intros Hl; [done|].
    apply obind_total; [apply IH; lia|]. intros j. apply obind_total; [apply IHl; lia|done]. }
  assert (Hmap : forall l, (list_sum (map (fun kv => value_size (snd kv)) l) < value_size v)%nat ->
    (fix map_to_json (m : list (string * Value)) : outcome (NativeError TokenRange Foreign) (list (string * StdDicts.Json)) :=
      match m with
      | [] => Ok []
      | (k, v) :: m => let* j := StdDicts.value_to_json v range in let* js := map_to_json m in Ok ((k, j) :: js)
      end) l <> Abort).
  { induction l as [|[k x] l IHl]; unfold list_sum in *; cbn [map foldr snd]; intros Hl; [done|].
    apply obind_total; [apply IH; lia|]. intros j. apply obind_total; [apply IHl; lia|done]. }
  assert (Hpay : forall l, (list_sum (map (fun kv => value_size (snd kv)) l) < value_size v)%nat ->
    (fix payload (m : list (string * Value)) : option (outcome (NativeError TokenRange Foreign) StdDicts.Json) :=
      match m with
      | [] => None
      | (k, v) :: m => if bool_decide (k = "value"%string) then Some (StdDicts.value_to_json v range) else payload m
      end) l <> Some Abort).
  { induction l as [|[k x] l IHl]; unfold list_sum in *; cbn [map foldr snd]; intros Hl; [done|]. case_bool_decide; [|apply IHl; lia].
    intros [= E]. revert E. apply IH. lia. }
  destruct v; cbn [StdDicts.value_to_json]; try done.
  - by destruct (StdDicts.f64_is_finite _).
  - apply obind_total; [apply Hitems; simpl; lia|done].
  - apply obind_total; [apply Hitems; simpl; lia|done].
  - destruct (is_option_none _); [done|]. destruct (bool_decide _ && bool_decide _).
    + pose proof (Hpay (dict_map d) ltac:(simpl; lia)) as Hp. revert Hp.
      match goal with |- ?o <> Some Abort -> _ => destruct o as [j|] end; [by intros ? ->|intros _].
      apply obind_total; [apply Hmap; simpl; lia|done].
    + apply obind_total; [apply Hmap; simpl; lia|done].
Qed.

Lemma to_json_sound : sound (StdDicts.ToJson json_to_string) TyString.
Proof.
  start StdDicts.ToJson. eapply (safe_bind _ _ (fun _ => True)).
  { intros w Hw. split; [done|]. simpl. pose proof (value_to_json_total a range). by destruct (StdDicts.value_to_json a range). }
  intros j _. destruct (json_to_string j) eqn:E; [|checks|by apply (json_total Hhost) in E].
  returns. by apply (json_valid Hhost) in E.
Qed.

#[local] Hint Resolve len_sound type_sound range_sound map_sound filter_sound reduce_sound is_empty_sound count_sound
  size_in_range_sound unique_sound sum_sound split_sound join_sound replace_sound glob_sound concat_sound nfc_sound nfd_sound nfkc_sound nfkd_sound trim_sound
  substring_sound matches_sound merge_sound keys_sound values_sound has_key_sound select_sound omit_sound iter_list_sound
  iter_string_sound iter_dict_sound next_sound one_of_sound required_sound requires_sound field_eq_sound is_iso_date_sound
  parse_iso_date_sound abs_sound in_range_sound sqrt_sound pow_sound to_json_sound : stdlib.
#[local] Hint Extern 2 (sound StdLists.ListEvery _) => apply quantifier_sound : stdlib.
#[local] Hint Extern 2 (sound StdLists.ListSome _) => apply quantifier_sound : stdlib.
#[local] Hint Extern 2 (sound StdSort.ListSortBy _) => apply sort_sound : stdlib.
#[local] Hint Extern 2 (sound StdSort.ListSortByDesc _) => apply sort_sound : stdlib.
#[local] Hint Extern 2 (sound StdLists.ListMax _) => apply extremum_sound : stdlib.
#[local] Hint Extern 2 (sound StdLists.ListMin _) => apply extremum_sound : stdlib.

(** [multiple_of] panics for the overflowing call only. *)
Lemma multiple_of_sound args named range w : Forall good args -> Inv w ->
  let (r, w') := StdMath.MultipleOf (MkArgs args named) range w in
  Inv w' /\ match r with Ok v => wf_value v = true /\ has_type TyBool v = true | Err _ => True | Abort => overflowing args end.
Proof.
  intros _ Hw. unfold StdMath.MultipleOf. destruct args as [|a [|b [|]]]; cbn; try done.
  destruct a; try (by cbn); destruct b; try (by cbn); cbn.
  destruct (_ =? 0) eqn:Hz; [by cbn|]. unfold StdMath.rem_i64, Arith.checked_rem. rewrite Hz. cbn [orb].
  match goal with |- context [if ?c then None else _] => destruct c eqn:Hp end; cbn; [|done].
  split; [done|]. unfold overflowing. zb. by subst.
Qed.

Lemma library_entries : Forall (fun entry => sound (fst (snd entry)) (snd (snd entry))) steady_library.
Proof.
  unfold steady_library. repeat (apply Forall_cons; split; [cbn [fst snd]|]); [..|by apply Forall_nil].
  all: try solve [auto 1 with stdlib nocore].
  all: first
    [ apply string_test_sound; intros; by apply safe_ret
    | apply pure_format_sound | apply bound_validator_sound | apply rounding_sound
    | apply type_validator_sound; by intros []
    | apply case_folding_sound | apply case_folding_locale_sound
    | apply trimming_sound; intros; first [by apply trim_start_forall | by apply trim_end_forall] ].
Qed.

Lemma steady_names f ty : ("multiple_of"%string, (f, ty)) ∉ steady_library.
Proof.
  intros Hin. assert (Forall (fun entry => bool_decide (fst entry <> "multiple_of"%string)) steady_library) as Hall
    by (repeat (apply Forall_cons; split; [by vm_compute|]); by apply Forall_nil).
  rewrite Forall_forall in Hall. specialize (Hall _ Hin). by apply bool_decide_spec in Hall.
Qed.
End Library.

(** ** The library on the evaluator *)

Section Evaluator.
Context {H : HostTypes} {TokenRange Foreign : Type} (h : Evaluator.host TokenRange Foreign).
Context {C : CharCase} {HC : CharCaseOk C}.
Context (regex_new : string -> outcome string (string -> bool)).
Context (json_to_string : StdDicts.Json -> outcome string string).
Context (powf : Z -> Z -> Z).

Definition counters_ok (w : Evaluator.world) : Prop := 0 <= Evaluator.iter_ids w < 2 ^ 64.

(** What is assumed of closures, of [Display], of the [regex] crate and of [serde_json]. *)
Record externals_ok : Prop := {
  closures_safe : forall f args range w, Forall (fun v => wf_value v = true) args -> counters_ok w ->
    counters_ok (snd (Evaluator.call_function h f args range w)) /\
    match fst (Evaluator.call_function h f args range w) with Ok v => wf_value v = true | Err _ => True | Abort => False end;
  display_utf8 : forall v, wf_value v = true -> is_str (Evaluator.host_display h v) = true;
  regex_no_panic : forall p, regex_new p <> Abort;
  json_no_panic : forall j, json_to_string j <> Abort;
  json_utf8 : forall j s, json_to_string j = Ok s -> is_str s = true;
}.

Lemma evaluator_host_ok :
  externals_ok -> host_ok (Caps := Evaluator.evaluator_caps h) counters_ok regex_new json_to_string.
Proof.
  intros [Hc Hd Hr Hj Hu]. split; try done.
  - intros f args range Ha w Hw. by apply Hc.
  - intros n range w Hw. simpl. unfold Evaluator.caps_tick. destruct (Evaluator.max_steps h); [|done].
    destruct (Ctx.tick _ _ _) as [[] c]; done.
  - intros id len w Hw. simpl. unfold Evaluator.caps_fetch_and_inc. by destruct (Ctx.iter_cursor_fetch_and_inc _ _ _).
  - intros id len w. simpl. unfold Evaluator.caps_fetch_and_inc, Ctx.iter_cursor_fetch_and_inc.
    destruct (_ !! id) as [c|]; [|done]. destruct (Nat.ltb_spec c (Z.to_nat len)); [|done]. simpl. lia.
  - intros w Hw. split; [exact Hw|]. simpl. unfold counters_ok. simpl. apply Z.mod_pos_bound. lia.
Qed.

End Evaluator.

#[local] Existing Instance unit_host.

Lemma plain_externals limit elements :
  externals_ok (Evaluator.plain_host limit elements) (fun p => Ok (fun s => bool_decide (s = p))) (fun _ => Ok "null"%string).
Proof.
  split; try done.
  - intros f args range w Ha Hw. split; [done|]. destruct Ha; simpl; done.
  - by intros [].
  - by intros j s [= <-].
Qed.

#[local] Existing Instance ascii_case.
#[local] Existing Instance ascii_case_ok.

End StdTypes.
