(* ===== verification/StdBudget.v ===== *)
(** Which functions of the standard library pay for their loops from the step budget of the
    evaluator, and how much; the others leave the budget alone. *)

From Stdlib Require Import ZArith Lia Bool.
From stdpp Require Import base list strings gmap.
From S2P Require Import Prelude Bytes SchemaCanonical Value Chars CaseFold CaseFoldFacts Context Native StdSort StdLists StdMath StdStrings StdDicts StdValidate StdTypes.
Local Open Scope Z_scope.
Local Open Scope abi_scope.

Module StdBudget.
Import Native StdSort StdLists StdMath StdStrings StdDicts StdValidate StdTypes Evaluator.

Section Budget.
Context {H : HostTypes} {TokenRange Foreign : Type} (h : host TokenRange Foreign) (limit : Z).
#[local] Instance caps : NativeFnCaps TokenRange := evaluator_caps h.

(** The pieces of work a call does, by its arguments. *)
Definition list_arg (args : list Value) : Z := match args with VList l :: _ => Z.of_nat (length l) | _ => 0 end.
Definition dict_arg (args : list Value) : Z := match args with VDict d :: _ => Z.of_nat (length (dict_map d)) | _ => 0 end.
Definition split_parts (args : list Value) : Z :=
  match args with [VString s; VString sep] => Z.of_nat (length (split (codes sep) (codes s))) | _ => 0 end.
Definition replacements (args : list Value) : Z :=
  match args with
  | [VString s; VString from; _] =>
      Z.of_nat (if (String.length from =? 0)%nat then (length (chars s) + 1)%nat else matches_count (codes from) (codes s))
  | _ => 0
  end.
Definition range_size (args : list Value) : Z :=
  match args with
  | [VInt e] => Z.max e 0
  | [VInt s; VInt e] => Z.max (e - s) 0
  | _ => 0
  end.
Fixpoint patch_entries (patches : list Value) : Z :=
  match patches with
  | [] => 0
  | VDict d :: patches => Z.of_nat (length (dict_map d)) + patch_entries patches
  | _ :: patches => patch_entries patches
  end.

(** [every] and [some] stop at the first element that decides the result: all elements were
    visited when none did, at least one when one did. *)
Definition visited (stop : bool) (args : list Value) (result : Value) : Z :=
  match result with VBool b => if Bool.eqb b stop then 1 else list_arg args | _ => 0 end.

(** The functions that charge steps, by name, and the work a call that returns [result] has
    done. *)
Definition charged : list (string * (list Value -> Value -> Z)) :=
  [("_list_map", fun args _ => list_arg args); ("_list_filter", fun args _ => list_arg args);
   ("_list_reduce", fun args _ => list_arg args);
   ("_list_sort_by", fun args _ => list_arg args); ("_list_sort_by_desc", fun args _ => list_arg args);
   ("every", visited false); ("some", visited true); ("range", fun args _ => range_size args);
   ("_string_split", fun args _ => split_parts args); ("_string_join", fun args _ => list_arg args);
   ("_string_replace", fun args _ => replacements args);
   ("_dict_merge", fun args _ => patch_entries (drop 1 args));
   ("_dict_keys", fun args _ => dict_arg args); ("_dict_values", fun args _ => dict_arg args)]%string.

Definition work_of (name : string) : option (list Value -> Value -> Z) :=
  match List.find (fun entry => String.eqb (fst entry) name) charged with Some entry => Some (snd entry) | None => None end.

(** A run that succeeds has charged [n] steps, within the limit. *)
Definition costs {A} (m : Call A) (n : Z) : Prop :=
  forall w v w', 0 <= steps w -> m w = (Ok v, w') -> steps w + n <= steps w' /\ (0 < n -> steps w + n <= limit).

Hypothesis Hlimit : 0 <= limit < Ctx.U64 - 1.
Hypothesis Hsteps : max_steps h = Some limit.
(** A closure may charge steps of its own. *)
Hypothesis Hcall : forall f args range w v w',
  call_function h f args range w = (Ok v, w') -> 0 <= steps w -> steps w <= steps w'.

Lemma paid_ret {A} (a : A) : costs (ret a) 0.
Proof. intros w v w' Hw [= _ <-]. lia. Qed.

Lemma costs_fail {A} e n : costs (fail e : Call A) n.
Proof. by intros w v w' Hw ?. Qed.

Lemma costs_err {A} (m : Call A) n : (forall w, exists r w', m w = (r, w') /\ ~ is_ok r) -> costs m n.
Proof. intros Hm w v w' _ E. destruct (Hm w) as (r & w1 & E' & Hr). rewrite E in E'. injection E' as <- <-. destruct Hr. by eexists. Qed.

Lemma paid_bind {A B} (m : Call A) (k : A -> Call B) a b n :
  costs m a -> (forall v, costs (k v) b) -> 0 <= a -> 0 <= b -> n = a + b -> costs (bind m k) n.
Proof.
  intros Hm Hk Ha Hb -> w v w' Hw. unfold bind. destruct (m w) as [[x| |] w1] eqn:E; try done. intros E2.
  destruct (Hm _ _ _ Hw E). destruct (Hk x w1 v w'); [lia|done|]. lia.
Qed.

Lemma costs_tick n range : 0 <= n -> costs (tick n range) n.
Proof.
  intros Hn w v w' Hw. cbn. unfold caps_tick. rewrite Hsteps. unfold Ctx.tick, Ctx.fetch_add.
  destruct (Z.ltb_spec limit (Z.min (steps w + n) (Ctx.U64 - 1))) as [|Hle]; simpl; [done|]. intros [= _ <-]. simpl.
  assert (steps w + n < Ctx.U64) by lia. rewrite Z.mod_small by lia. lia.
Qed.

Lemma costs_call f args range : costs (call_relon f args range) 0.
Proof. intros w v w' Hw E. apply Hcall in E; lia. Qed.

Lemma costs_pure {A} (m : outcome (NativeError TokenRange Foreign) A) : costs (StdSort.lift m) 0.
Proof. intros w v w' Hw [= _ <-]. lia. Qed.

(** Loops that tick and call once for each element. *)
Lemma costs_element {B} (items : list Value) range f args (k : Value -> Call B) :
  (forall v, costs (k v) (Z.of_nat (length items))) ->
  costs (let! _ := tick 1 range in let! v := call_relon f args range in k v) (Z.of_nat (S (length items))).
Proof.
  intros Hk. apply (paid_bind _ _ 1 (Z.of_nat (length items))); [by apply costs_tick|intros []|lia..].
  apply (paid_bind _ _ 0 (Z.of_nat (length items))); [apply costs_call|exact Hk|lia..].
Qed.

Lemma costs_then {A B} (m : Call A) (f : A -> Call B) n : costs m n -> 0 <= n -> (forall a, costs (f a) 0) -> costs (bind m f) n.
Proof. intros. by apply (paid_bind _ _ n 0); [..|lia]. Qed.

Lemma costs_map func items range : costs (map_loop func items range) (Z.of_nat (length items)).
Proof.
  induction items as [|x items IH]; [apply paid_ret|]. apply costs_element. intros v.
  apply costs_then; [done|lia|]. intros. apply paid_ret.
Qed.

Lemma costs_filter func items range : costs (filter_loop func items range) (Z.of_nat (length items)).
Proof.
  induction items as [|x items IH]; [apply paid_ret|]. apply costs_element. intros v.
  apply costs_then; [done|lia|]. intros. apply paid_ret.
Qed.

Lemma costs_reduce func acc items range : costs (reduce_loop func acc items range) (Z.of_nat (length items)).
Proof. revert acc. induction items as [|x items IH]; intros acc; [apply paid_ret|]. apply costs_element. intros v. apply IH. Qed.

Lemma costs_decorate key items range : costs (decorate key items range) (Z.of_nat (length items)).
Proof.
  induction items as [|x items IH]; [apply paid_ret|]. apply costs_element. intros v.
  apply costs_then; [done|lia|]. intros. apply paid_ret.
Qed.

Lemma costs_tick_each {A} (l : list A) range : costs (tick_each l range) (Z.of_nat (length l)).
Proof.
  induction l as [|x l IH]; [apply paid_ret|].
  apply (paid_bind _ _ 1 (Z.of_nat (length l))); [by apply costs_tick|done|simpl; lia..].
Qed.

Lemma costs_entries m range : costs (tick_entries m range) (Z.of_nat (length m)).
Proof. destruct m; [apply paid_ret|]. apply costs_tick. simpl. lia. Qed.

Lemma patch_entries_nonneg patches : 0 <= patch_entries patches.
Proof. induction patches as [|[] patches IH]; simpl; lia. Qed.

Lemma costs_merge patches result range : costs (merge_loop result patches range) (patch_entries patches).
Proof.
  revert result. induction patches as [|p patches IH]; intros result; [apply paid_ret|]. cbn [merge_loop].
  pose proof (patch_entries_nonneg patches).
  destruct p; try (apply (paid_bind _ _ 0 (patch_entries patches)); [apply paid_ret|intros; apply IH|simpl; lia..]).
  apply (paid_bind _ _ (Z.of_nat (length (dict_map d))) (patch_entries patches)); [apply costs_entries|intros; apply IH|simpl; lia..].
Qed.

Lemma costs_big_tick n range : 0 <= n -> costs (tick (if 2 ^ 64 - 1 <? n then 2 ^ 64 - 1 else n) range) n.
Proof.
  intros Hn. destruct (Z.ltb_spec (2 ^ 64 - 1) n) as [Hbig|]; [|by apply costs_tick].
  intros w v w' Hw. cbn. unfold caps_tick. rewrite Hsteps. unfold Ctx.tick, Ctx.fetch_add.
  rewrite Z.min_r by (unfold Ctx.U64; lia). rewrite (proj2 (Z.ltb_lt _ _)) by lia. done.
Qed.

Lemma costs_range {A} n range (limits : Call unit) (v : A) :
  costs limits 0 -> 0 <= n ->
  costs (let! _ := if 0 <? n then tick (if 2 ^ 64 - 1 <? n then 2 ^ 64 - 1 else n) range else ret tt in
         let! _ := limits in ret v) n.
Proof.
  intros Hl Hn. apply costs_then; [|done|intros; apply costs_then; [done|lia|intros; apply paid_ret]].
  destruct (Z.ltb_spec 0 n); [by apply costs_big_tick|]. replace n with 0 by lia. apply paid_ret.
Qed.

Lemma costs_cap n range :
  costs match max_value_elements with
        | Some limit => if limit <? n then fail (ValueTooLarge limit (if USIZE_MAX <? n then USIZE_MAX else n) range) else ret tt
        | None => ret tt
        end 0.
Proof. destruct max_value_elements as [l|]; [|apply paid_ret]. destruct (l <? n); [apply costs_fail|apply paid_ret]. Qed.

(** An argument check fails. *)
#[local] Ltac stops := intros ? ? ? ? ?; discriminate.

Lemma sort_work args named range dir : costs (list_sort_by_impl (MkArgs args named) range dir) (list_arg args).
Proof.
  unfold list_sort_by_impl. destruct args as [|a [|b [|]]]; run_checks; try stops.
  destruct a; try stops. rewrite ?bind_ret. apply costs_then; [apply costs_decorate|simpl; lia|]. intros keys.
  apply costs_then; [apply costs_pure|lia|]. intros. apply costs_then; [apply costs_pure|lia|]. intros. apply paid_ret.
Qed.

Lemma map_work args named range : costs (ListMap (MkArgs args named) range) (list_arg args).
Proof.
  unfold ListMap. destruct args as [|a [|b [|]]]; run_checks; try stops. destruct a; try stops. rewrite ?bind_ret.
  apply costs_then; [apply costs_map|simpl; lia|]. intros. apply paid_ret.
Qed.

Lemma filter_work args named range : costs (ListFilter (MkArgs args named) range) (list_arg args).
Proof.
  unfold ListFilter. destruct args as [|a [|b [|]]]; run_checks; try stops. destruct a; try stops. rewrite ?bind_ret.
  apply costs_then; [apply costs_filter|simpl; lia|]. intros. apply paid_ret.
Qed.

Lemma reduce_work args named range : costs (ListReduce (MkArgs args named) range) (list_arg args).
Proof.
  unfold ListReduce. destruct args as [|a [|b [|c [|]]]]; run_checks; try stops. destruct a; try stops. apply costs_reduce.
Qed.

Lemma split_work args named range : costs (StringSplit (MkArgs args named) range) (split_parts args).
Proof.
  unfold StringSplit. destruct args as [|a [|b [|]]]; run_checks; try stops. destruct a; try stops. rewrite ?bind_ret.
  destruct b; try stops. rewrite ?bind_ret. destruct (String.length _ =? 0)%nat; [apply costs_fail|]. cbv zeta.
  apply costs_then; [apply costs_tick_each|simpl; lia|]. intros. apply paid_ret.
Qed.

Lemma join_work args named range : costs (StringJoin (MkArgs args named) range) (list_arg args).
Proof.
  unfold StringJoin. destruct args as [|a [|b [|]]]; run_checks; try stops. destruct a; try stops. rewrite ?bind_ret.
  destruct b; try stops. rewrite ?bind_ret.
  apply costs_then; [apply costs_tick_each|simpl; lia|]. intros. apply paid_ret.
Qed.

Lemma replace_work args named range : costs (StringReplace (MkArgs args named) range) (replacements args).
Proof.
  unfold StringReplace. destruct args as [|a [|b [|c [|]]]]; run_checks; try stops. destruct a; try stops. rewrite ?bind_ret.
  destruct b; try stops. rewrite ?bind_ret. destruct c; try stops. rewrite ?bind_ret. cbv zeta. cbn [replacements].
  set (n := if (String.length _ =? 0)%nat then _ else _).
  apply costs_then; [|lia|intros; apply paid_ret].
  destruct (Nat.ltb_spec 0 n); [by apply costs_tick; lia|]. replace n with O by lia. apply paid_ret.
Qed.

Lemma range_work args named range : costs (Range (MkArgs args named) range) (range_size args).
Proof.
  unfold Range. cbn [positional].
  destruct args as [|a [|b [|]]]; unfold range_bounds; try stops; destruct a; try stops.
  - run_checks. cbv zeta. rewrite Z.sub_0_r. apply costs_range; [apply costs_cap|simpl; lia].
  - destruct b; try stops. run_checks. cbv zeta. apply costs_range; [apply costs_cap|simpl; lia].
Qed.

Lemma merge_work args named range : costs (DictMerge (MkArgs args named) range) (patch_entries (drop 1 args)).
Proof.
  unfold DictMerge. destruct args as [|a args]; cbn [positional]; [stops|]. simpl drop.
  apply costs_then; [apply costs_merge|apply patch_entries_nonneg|]. intros v. destruct v; first [apply paid_ret|stops].
Qed.

Lemma keys_work args named range : costs (DictKeys (MkArgs args named) range) (dict_arg args).
Proof.
  unfold DictKeys. destruct args as [|a [|]]; run_checks; try stops. destruct a; try stops. rewrite ?bind_ret.
  apply costs_then; [apply costs_entries|simpl; lia|]. intros. apply paid_ret.
Qed.

Lemma values_work args named range : costs (DictValues (MkArgs args named) range) (dict_arg args).
Proof.
  unfold DictValues. destruct args as [|a [|]]; run_checks; try stops. destruct a; try stops. rewrite ?bind_ret.
  apply costs_then; [apply costs_entries|simpl; lia|]. intros. apply paid_ret.
Qed.

Lemma quantifier_costs stop func items range w v w' :
  0 <= steps w -> quantifier_loop stop func items range w = (Ok v, w') ->
  exists b, v = VBool b /\ let n := if Bool.eqb b stop then 1 else Z.of_nat (length items) in
    steps w + n <= steps w' /\ (0 < n -> steps w + n <= limit).
Proof.
  revert w. induction items as [|x items IH]; intros w Hw; cbn [quantifier_loop].
  { intros [= <- <-]. exists (negb stop). split; [done|]. destruct stop; simpl; lia. }
  unfold bind. destruct (tick (NativeFnCaps := caps) 1 range w) as [[[]| |] w1] eqn:Et; try done.
  apply costs_tick in Et as [H1 H1']; [|lia|done].
  destruct (call_relon (NativeFnCaps := caps) func [x] range w1) as [[r| |] w2] eqn:Ec; try done. apply Hcall in Ec; [|lia].
  destruct r; try done. destruct (Bool.eqb b stop) eqn:Eb.
  - intros [= <- <-]. exists stop. split; [done|]. rewrite eqb_reflx. lia.
  - intros E. destruct (IH w2 ltac:(lia) E) as (b' & -> & Hb). exists b'. split; [done|].
    cbn [length]. cbv zeta in *. destruct Hb as [Hb1 Hb2]. specialize (H1' eq_refl). destruct (Bool.eqb b' stop); [lia|].
    destruct items; simpl in *; lia.
Qed.

(** ** Functions that charge nothing *)

Definition quiet {A} (m : Call A) : Prop := forall w, steps (snd (m w)) = steps w.

Lemma quiet_ret {A} (a : A) : quiet (ret a).
Proof. by intros w. Qed.

Lemma quiet_fail {A} e : quiet (fail e : Call A).
Proof. by intros w. Qed.

Lemma quiet_panic {A} : quiet (panic : Call A).
Proof. by intros w. Qed.

Lemma quiet_lift {A} (m : outcome (NativeError TokenRange Foreign) A) : quiet (StdSort.lift m).
Proof. by intros w. Qed.

Lemma quiet_bind {A B} (m : Call A) (k : A -> Call B) : quiet m -> (forall a, quiet (k a)) -> quiet (bind m k).
Proof.
  intros Hm Hk w. unfold bind. specialize (Hm w). destruct (m w) as [[a| |] w']; simpl in *; [|done..]. by rewrite Hk.
Qed.

Lemma quiet_fetch iter_id len element : (forall i, quiet (element i)) -> quiet (fetch iter_id len element).
Proof.
  intros He w. unfold fetch. cbn. unfold caps_fetch_and_inc. destruct (Ctx.iter_cursor_fetch_and_inc _ _ _) as [[c|] t]; [|done].
  cbn [fmap option_fmap option_map]. pose proof (quiet_bind _ (fun v => ret (Some v)) (He (Z.to_nat (Z.of_nat c))) (fun v => quiet_ret _)) as Hq.
  exact (Hq (MkWorld (steps w) t (iter_ids w))).
Qed.

#[local] Ltac hush :=
  repeat first
    [ apply quiet_ret | apply quiet_fail | apply quiet_panic | apply quiet_lift
    | apply quiet_bind; [|intros]
    | apply quiet_fetch; intros
    | progress unfold mismatch, index, expect_arg_count, expect_arg_range, expect_int, expect_string, expect_list, expect_dict,
        validation_failure, require, iter_element, is_iso_date_str, str_slice, usize_sum, parse_unwrap, rem_i64
    | match goal with |- quiet match ?x with _ => _ end => destruct x end
    | progress cbv beta zeta ].

Lemma quiet_strings values range : quiet (expect_strings values range).
Proof. induction values; cbn [expect_strings]; hush; done. Qed.

Lemma quiet_classify items all_int all_float range : quiet (sum_classify items all_int all_float range).
Proof. revert all_int all_float. induction items; intros; cbn [sum_classify]; hush; done. Qed.

Lemma quiet_sum acc items range : quiet (sum_ints acc items range).
Proof. revert acc. induction items; intros; cbn [sum_ints]; hush; done. Qed.

Lemma quiet_ints better acc items range : quiet (extremum_ints better acc items range).
Proof. revert acc. induction items; intros; cbn [extremum_ints]; hush; done. Qed.

Lemma quiet_floats better acc items range : quiet (extremum_floats better acc items range).
Proof. revert acc. induction items; intros; cbn [extremum_floats]; hush; done. Qed.

Lemma quiet_iter kind source : quiet (make_iter_value kind source).
Proof. by intros w. Qed.

#[local] Hint Resolve quiet_strings quiet_classify quiet_sum quiet_ints quiet_floats quiet_iter : quiet.

(** ** The table *)

Context {C : CharCase} {HC : CharCaseOk C}.
Context (regex_new : string -> outcome string (string -> bool)).
Context (json_to_string : StdDicts.Json -> outcome string string).
Context (powf : Z -> Z -> Z).

Create HintDb work.

(** What a call may do to the step counter. *)
Definition budgeted (entry : string * (RelonFunction * Ty)) : Prop :=
  forall args named range w, 0 <= steps w ->
  let (r, w') := fst (snd entry) (MkArgs args named) range w in
  match work_of (fst entry) with
  | Some work => forall v, r = Ok v -> steps w + work args v <= steps w' /\ (0 < work args v -> steps w + work args v <= limit)
  | None => steps w' = steps w
  end.

Lemma budgeted_costs name f ty work : work_of name = Some work ->
  (forall args named range v, costs (f (MkArgs args named) range) (work args v)) -> budgeted (name, (f, ty)).
Proof.
  intros Hn Hf args named range w Hw. cbn [fst snd]. rewrite Hn. destruct (f _ _ _) as [r w'] eqn:E. intros v ->.
  by apply (Hf args named range v w v w').
Qed.

Lemma budgeted_quiet name f ty : work_of name = None ->
  (forall args named range, quiet (f (MkArgs args named) range)) -> budgeted (name, (f, ty)).
Proof.
  intros Hn Hf args named range w Hw. cbn [fst snd]. rewrite Hn. specialize (Hf args named range w).
  by destruct (f _ _ _) as [r w'].
Qed.

Lemma budgeted_quantifier name stop ty : work_of name = Some (visited stop) -> budgeted (name, (quantifier stop, ty)).
Proof.
  intros Hn args named range w Hw. cbn [fst snd]. rewrite Hn. destruct (quantifier _ _ _ _) as [r w'] eqn:E. intros v ->.
  revert E. unfold quantifier. destruct args as [|a [|b [|]]]; run_checks; try done. destruct a; try done. rewrite ?bind_ret.
  intros E. apply quantifier_costs in E as (b' & -> & Hb); [|done]. exact Hb.
Qed.

#[local] Hint Resolve map_work filter_work reduce_work sort_work split_work join_work replace_work range_work merge_work
  keys_work values_work : work.
#[local] Hint Extern 1 (costs (ListSortBy _ _) _) => apply sort_work : work.
#[local] Hint Extern 1 (costs (ListSortByDesc _ _) _) => apply sort_work : work.

#[local] Ltac head t := match t with ?f _ => head f | _ => t end.
#[local] Ltac opened := match goal with |- quiet ?m => let f := head m in unfold f end; cbn [positional].

Lemma library_budgeted : Forall budgeted (library regex_new json_to_string powf).
Proof.
  unfold library, steady_library. cbn [app]. repeat (apply Forall_cons; split); [..|by apply Forall_nil].
  all: try (apply budgeted_quantifier; reflexivity).
  all: try (eapply budgeted_costs; [reflexivity|intros; cbn [snd]; solve [auto 2 with work]]).
  all: try (apply budgeted_quiet; [reflexivity|intros; opened; hush; solve [auto with quiet]]).
Qed.
End Budget.

(** C36 Which library calls pay for their loops, under a step limit below the greatest counter
    value and with closures that never give steps back.  A call that returns a value has charged
    at least one step for each element that [map], [filter], [reduce], the two sorts and [join]
    are given, each element that [every] and [some] must have visited for their result (all of
    them, or one when they stopped), each number of [range], each part of [split], each match of
    [replace], each entry of the patches of [merge], each entry of the dictionary of [keys] and
    [values], and all these steps were within the limit.  Every other function written in Rust
    charges nothing, whatever it returns, also those that loop over their arguments such as
    [unique], [sum], [max], [min], [select_keys] and [omit_keys]. *)
Theorem library_loops_budgeted {H : HostTypes} {TokenRange Foreign : Type} (h : host TokenRange Foreign) (limit : Z)
    {C : CharCase} (regex_new : string -> outcome string (string -> bool))
    (json_to_string : StdDicts.Json -> outcome string string) (powf : Z -> Z -> Z)
    (name : string) (f : @RelonFunction _ _ (evaluator_caps h)) (ty : Ty) (args : list Value) (named : list (string * Value))
    (range : TokenRange) (w : world) :
  max_steps h = Some limit -> 0 <= limit < Ctx.U64 - 1 ->
  (forall f args range w v w', call_function h f args range w = (Ok v, w') -> 0 <= steps w -> steps w <= steps w') ->
  (name, (f, ty)) ∈ library regex_new json_to_string powf -> 0 <= steps w ->
  let (r, w') := f (MkArgs args named) range w in
  match work_of name with
  | Some work => forall v, r = Ok v -> steps w + work args v <= steps w' /\ (0 < work args v -> steps w + work args v <= limit)
  | None => steps w' = steps w
  end.
Proof.
  intros Hs Hl Hc Hf Hw. pose proof (library_budgeted h limit Hl Hs Hc regex_new json_to_string powf) as Hb.
  rewrite Forall_forall in Hb. exact (Hb _ Hf args named range w Hw).
Qed.

#[local] Existing Instance unit_host.
#[local] Existing Instance ascii_case.

Lemma library_loops_budgeted_witness :
  exists w', Range (Caps := evaluator_caps (plain_host (Some 10) None)) (MkArgs [VInt 2; VInt 6] []) tt (MkWorld 3 ∅ 0)
    = (Ok (VList [VInt 2; VInt 3; VInt 4; VInt 5]), w') /\ 3 + 4 <= steps w' /\ 3 + 4 <= 10.
Proof.
  eexists. split; [vm_compute; reflexivity|].
  pose proof (library_loops_budgeted (plain_host (Some 10) None) 10 (fun p => Ok (fun s => bool_decide (s = p)))
    (fun _ => Ok "null"%string) (fun a _ => a) "range" Range TyList [VInt 2; VInt 6] [] tt (MkWorld 3 ∅ 0)
    eq_refl ltac:(split; vm_compute; [discriminate|reflexivity])
    ltac:(intros f args range w v w'; simpl; destruct args; [discriminate|]; intros [= _ <-]; lia)
    ltac:(apply elem_of_app; left; do 1 right; left) ltac:(simpl; lia)) as B.
  destruct (B (VList [VInt 2; VInt 3; VInt 4; VInt 5]) eq_refl) as [B1 B2].
  split; [exact B1|]. apply B2. vm_compute. reflexivity.
Defined.
End StdBudget.
