(* ===== verification/Ir.v ===== *)
(** The linear typed intermediate representation of [crates/relon-ir/src/ir.rs] and the machine
    that the Cranelift back end compiles it to.

    An [Op] is interpreted as the instructions that [crates/relon-codegen-cranelift] emits for
    it, under the default sandbox configuration (all checks on) with no deadline: an operand
    stack of 32-bit, 64-bit and float slots, let slots, and an arena of bytes whose end is a
    bump-allocated scratch region.  A pointer is a 32-bit arena offset.  The model has the ops
    that the bodies of the bundled library use, and those of literals and operators.  The class
    [Image] is what the emitted code is linked with: where the constant pool has the string
    constants, and the text of a double that the host helper writes.

    The bounds checks compare [off + size], computed modulo 2^32, with the arena length: an
    access that passes the check and is nevertheless outside the arena is a [Fault]. *)

From Stdlib Require Import ZArith Lia Bool SpecFloat.
From stdpp Require Import base list strings.
From S2P Require Import Prelude Bytes SchemaCanonical Value NumberLit Arith Native StdMath.
Local Open Scope Z_scope.
Local Open Scope abi_scope.

Module Ir.

Inductive IrType : Type :=
| I32 | I64 | F64 | Bool | Unit | String | ListInt | ListFloat | ListBool | ListString | ListSchema | ListList | Closure | Dict.

Inductive F64UnaryOp : Type := Floor | Ceil | Nearest | Sqrt | Abs.

(** The trap tags of the IR. *)
Inductive TrapKind : Type := IndexOutOfBounds | EmptyList | InvalidUtf8 | NoMatch | NumericOverflow.

(** The ops of the library bodies; source ranges are left out. *)
Inductive Op : Type :=
| ConstBool (b : bool)
| ConstI32 (i : Z)
| ConstI64 (i : Z)
| ConstF64 (bits : Z)
| LetGet (idx : nat) (ty : IrType)
| LetSet (idx : nat) (ty : IrType)
| LocalGet (idx : nat)
| Add (ty : IrType)
| Sub (ty : IrType)
| Mul (ty : IrType)
| Div (ty : IrType)
| Mod (ty : IrType)
| BitAnd (ty : IrType)
| ConvertI64ToF64
| F64ToI64Sat
| F64Unary (op : F64UnaryOp)
| F64Pow
| Eq (ty : IrType)
| Ne (ty : IrType)
| Lt (ty : IrType)
| Le (ty : IrType)
| Gt (ty : IrType)
| Ge (ty : IrType)
| If (result_ty : IrType) (then_body else_body : list Op)
| Return
| ReadStringLen
| Select (ty : IrType)
| Block (result_ty : option IrType) (body : list Op)
| Loop (result_ty : option IrType) (body : list Op)
| Br (label_depth : nat)
| BrIf (label_depth : nat)
| AllocScratchDyn
| LoadI32AtAbsolute (offset : Z)
| LoadI64AtAbsolute (offset : Z)
| LoadF64AtAbsolute (offset : Z)
| LoadI8UAtAbsolute (offset : Z)
| StoreI32AtAbsolute (offset : Z)
| StoreI64AtAbsolute (offset : Z)
| StoreF64AtAbsolute (offset : Z)
| StoreI8AtAbsolute (offset : Z)
| MemcpyAtAbsolute
| Trap (kind : TrapKind)
| CallClosure (param_tys : list IrType) (ret_ty : IrType)
| ConstString (idx : nat) (value : string)
| StrConcatN (operand_count : nat)
| IntToStr
| FloatToStr.

(** The body of [concat], which [Add] on strings calls. *)
Definition concat_string_string_body : list Op :=
  let LEN_A := 0%nat in
  let LEN_B := 1%nat in
  let BASE := 2%nat in
  [LocalGet 0; LoadI32AtAbsolute 0; LetSet LEN_A I32; LocalGet 1; LoadI32AtAbsolute 0; LetSet LEN_B I32;
   LetGet LEN_A I32; LetGet LEN_B I32; Add I32; ConstI32 4; Add I32; AllocScratchDyn; LetSet BASE I32;
   LetGet BASE I32; LetGet LEN_A I32; LetGet LEN_B I32; Add I32; StoreI32AtAbsolute 0; LetGet BASE I32;
   ConstI32 4; Add I32; LocalGet 0; ConstI32 4; Add I32; LetGet LEN_A I32; MemcpyAtAbsolute; LetGet BASE I32;
   ConstI32 4; Add I32; LetGet LEN_A I32; Add I32; LocalGet 1; ConstI32 4; Add I32; LetGet LEN_B I32;
   MemcpyAtAbsolute; LetGet BASE I32; Return].

(** ** The machine *)

(** Slots: a 32-bit slot holds its unsigned value, a float slot its bits. *)
Inductive slot : Type := Vi32 (u : Z) | Vi64 (i : Z) | Vf64 (bits : Z).

Definition wrap32 (z : Z) : Z := z mod 2 ^ 32.
Definition signed32 (u : Z) : Z := if u <? 2 ^ 31 then u else u - 2 ^ 32.

(** The traps of the sandbox. *)
Inductive SandboxTrap : Type :=
| DivisionByZero | BoundsViolation | CapabilityDenied | ResourceExhausted | Unreachable | Overflow | NoMatchingArm.

(** [visit_trap] *)
Definition sandbox_trap (kind : TrapKind) : SandboxTrap :=
  match kind with
  | IndexOutOfBounds | EmptyList => BoundsViolation
  | InvalidUtf8 => Unreachable
  | NoMatch => NoMatchingArm
  | NumericOverflow => Overflow
  end.

(** The parts of [SandboxState] the ops use; [trap_code] is what [raise_trap] stored last. *)
Record machine : Type := MkMachine { arena : bytes; scratch_base : Z; scratch_cursor : Z; trap_code : option SandboxTrap }.

Record frame : Type := MkFrame {
  stack : list slot;
  params : list slot;
  lets : nat -> option slot;
  mach : machine;
}.

(** Where control goes after some ops.  [Stuck] is code the generator rejects. *)
Inductive flow : Type :=
| Next (f : frame)
| Branch (depth : nat) (f : frame)
| Done (v : slot) (m : machine)
| Trapped (kind : SandboxTrap)
| Fault
| Stuck
| OutOfFuel.

(** A call through the closure table.  A closure in which an op traps returns like any other: its trap
    block stores the code in [trap_code] and returns the zero of the declared type. *)
Inductive closure_result : Type :=
| Returned (v : slot) (m : machine)
| NullEntry
| Faults
| Loops.

Definition set_stack (f : frame) (s : list slot) : frame := MkFrame s (params f) (lets f) (mach f).
Definition set_mach (f : frame) (m : machine) : frame := MkFrame (stack f) (params f) (lets f) m.
Definition push (f : frame) (s : list slot) (v : slot) : flow := Next (set_stack f (v :: s)).
Definition upd (l : nat -> option slot) (i : nat) (v : slot) : nat -> option slot :=
  fun j => if Nat.eqb j i then Some v else l j.

(** [coerce_to_cl_ty]: the integer slots are reduced or zero-extended to the type of the let. *)
Definition coerce (ty : IrType) (v : slot) : slot :=
  match ty, v with
  | I64, Vi32 u => Vi64 u
  | I64, v => v
  | F64, v => v
  | _, Vi64 i => Vi32 (wrap32 i)
  | _, v => v
  end.

(** ** Memory *)

Inductive access (A : Type) : Type := Granted (a : A) | Denied | Unsafe.
Arguments Granted {A} a.
Arguments Denied {A}.
Arguments Unsafe {A}.

(** [arena_addr]: the check of [size] bytes at [off], and whether they are in the arena. *)
Definition arena_addr (m : machine) (off size : Z) : access unit :=
  if blen (arena m) <? wrap32 (off + size) then Denied
  else if off + size <=? blen (arena m) then Granted tt else Unsafe.

Definition load (m : machine) (off size : Z) : access bytes :=
  match arena_addr m off size with
  | Granted _ => Granted (firstn (Z.to_nat size) (skipn (Z.to_nat off) (arena m)))
  | Denied => Denied
  | Unsafe => Unsafe
  end.

Definition splice (b : bytes) (off : Z) (src : bytes) : bytes :=
  firstn (Z.to_nat off) b ++ src ++ skipn (Z.to_nat off + length src) b.

Definition store (m : machine) (off : Z) (src : bytes) : access machine :=
  match arena_addr m off (blen src) with
  | Granted _ => Granted (MkMachine (splice (arena m) off src) (scratch_base m) (scratch_cursor m) (trap_code m))
  | Denied => Denied
  | Unsafe => Unsafe
  end.

(** [emit_alloc_scratch] *)
Definition alloc_scratch (m : machine) (size : Z) : option (Z * machine) :=
  if blen (arena m) <? wrap32 (scratch_base m + scratch_cursor m + size) then None
  else Some (wrap32 (scratch_base m + scratch_cursor m),
             MkMachine (arena m) (scratch_base m) (wrap32 (scratch_cursor m + size)) (trap_code m)).

(** [emit_memcpy_at_absolute]: both ends are checked, then [memcpy] is called, which is undefined
    on overlapping regions. *)
Definition memcpy (m : machine) (dest src len : Z) : access machine :=
  if (blen (arena m) <? wrap32 (dest + len)) || (blen (arena m) <? wrap32 (src + len)) then Denied
  else if negb ((dest + len <=? blen (arena m)) && (src + len <=? blen (arena m))) then Unsafe
  else if (0 <? len) && (dest <? src + len) && (src <? dest + len) then Unsafe
  else Granted (MkMachine (splice (arena m) dest (firstn (Z.to_nat len) (skipn (Z.to_nat src) (arena m))))
                          (scratch_base m) (scratch_cursor m) (trap_code m)).

Definition after {A} (r : access A) (k : A -> flow) : flow :=
  match r with Granted a => k a | Denied => Trapped BoundsViolation | Unsafe => Fault end.
(** ** Arithmetic *)

(** [llvm.floor] and its kin: a double rounded to an integral double. *)
Definition round_f64 (round : bool -> positive -> Z -> Z) (bits : Z) : Z :=
  match Arith.to_spec bits with
  | S754_finite s m e => if 0 <=? e then bits else Arith.of_spec (binary_normalize 53 1024 (round s m e) 0 s)
  | _ => bits
  end.

Definition f64_unary (op : F64UnaryOp) (bits : Z) : Z :=
  match op with
  | Floor => round_f64 StdMath.floor_int bits
  | Ceil => round_f64 StdMath.ceil_int bits
  | Nearest => round_f64 StdMath.round_int bits
  | Sqrt => Arith.of_spec (SFsqrt 53 1024 (Arith.to_spec bits))
  | Abs => StdMath.f64_abs bits
  end.

(** [fcvt_to_sint_sat] *)
Definition trunc_int (s : bool) (m : positive) (e : Z) : Z :=
  if 0 <=? e then StdMath.signed s m * 2 ^ e else StdMath.signed s m ÷ 2 ^ (- e).
Definition f64_to_i64_sat (bits : Z) : Z := StdMath.f64_to_int trunc_int bits.

Definition push_i64 (f : frame) (s : list slot) (z : Z) : flow :=
  match Arith.checked z with Some z => push f s (Vi64 z) | None => Trapped Overflow end.
Definition push_i32 (f : frame) (s : list slot) (z : Z) : flow := push f s (Vi32 (wrap32 z)).
Definition push_bool (f : frame) (s : list slot) (b : bool) : flow := push f s (Vi32 (if b then 1 else 0)).

(** Addition, subtraction and multiplication: 64 bits trap on overflow, 32 bits wrap. *)
Definition arith_op (f : frame) (ty : IrType) (op : Z -> Z -> Z) (fop : Z -> Z -> Z) : flow :=
  match ty, stack f with
  | I64, Vi64 b :: Vi64 a :: s => push_i64 f s (op a b)
  | I32, Vi32 b :: Vi32 a :: s => push_i32 f s (op a b)
  | F64, Vf64 b :: Vf64 a :: s => push f s (Vf64 (fop a b))
  | _, _ => Stuck
  end.

(** Division and remainder with their guards; the 32-bit quotient of the least integer and -1 is
    not guarded, and the instruction kills the process. *)
Definition div_op (f : frame) (ty : IrType) : flow :=
  match ty, stack f with
  | I64, Vi64 b :: Vi64 a :: s =>
      if b =? 0 then Trapped DivisionByZero
      else if (a =? - 2 ^ 63) && (b =? -1) then Trapped Overflow else push f s (Vi64 (a ÷ b))
  | I32, Vi32 b :: Vi32 a :: s =>
      if b =? 0 then Trapped DivisionByZero
      else if (signed32 a =? - 2 ^ 31) && (signed32 b =? -1) then Fault else push_i32 f s (signed32 a ÷ signed32 b)
  | F64, Vf64 b :: Vf64 a :: s => if Arith.f64_eq b 0 then Trapped DivisionByZero else push f s (Vf64 (Arith.f64_div a b))
  | _, _ => Stuck
  end.

Definition mod_op (f : frame) (ty : IrType) : flow :=
  match ty, stack f with
  | I64, Vi64 b :: Vi64 a :: s =>
      if b =? 0 then Trapped DivisionByZero
      else if (a =? - 2 ^ 63) && (b =? -1) then Trapped Overflow else push f s (Vi64 (Z.rem a b))
  | I32, Vi32 b :: Vi32 a :: s =>
      if b =? 0 then Trapped DivisionByZero else push_i32 f s (Z.rem (signed32 a) (signed32 b))
  | F64, Vf64 b :: Vf64 a :: s => if Arith.f64_eq b 0 then Trapped DivisionByZero else push f s (Vf64 (Arith.f64_rem a b))
  | _, _ => Stuck
  end.

Definition bit_and (f : frame) (ty : IrType) : flow :=
  match ty, stack f with
  | I64, Vi64 b :: Vi64 a :: s => push f s (Vi64 (Z.land a b))
  | I32, Vi32 b :: Vi32 a :: s => push f s (Vi32 (Z.land a b))
  | _, _ => Stuck
  end.

(** Equality also has booleans; the order is signed. *)
Definition eq_op (f : frame) (ty : IrType) (negate : bool) : flow :=
  match ty, stack f with
  | I64, Vi64 b :: Vi64 a :: s => push_bool f s (xorb negate (a =? b))
  | (I32 | Bool), Vi32 b :: Vi32 a :: s => push_bool f s (xorb negate (a =? b))
  | F64, Vf64 b :: Vf64 a :: s => push_bool f s (xorb negate (Native.ordered_eq a b))
  | _, _ => Stuck
  end.

Definition cmp_op (f : frame) (ty : IrType) (op : Z -> Z -> bool) (fop : Z -> Z -> bool) : flow :=
  match ty, stack f with
  | I64, Vi64 b :: Vi64 a :: s => push_bool f s (op a b)
  | I32, Vi32 b :: Vi32 a :: s => push_bool f s (op (signed32 a) (signed32 b))
  | F64, Vf64 b :: Vf64 a :: s => push_bool f s (fop a b)
  | _, _ => Stuck
  end.

(** ** Strings *)

(** What the code is linked with. *)
Class Image : Type := {
  string_offset : nat -> option Z;
  f64_display : Z -> string;
}.

(** An image without constants. *)
Definition blank_image : Image := {| string_offset := fun _ => None; f64_display := fun _ => EmptyString |}.

Fixpoint offsets (l : list slot) : option (list Z) :=
  match l with
  | [] => Some []
  | Vi32 off :: l => match offsets l with Some offs => Some (off :: offs) | None => None end
  | _ :: _ => None
  end.

(** The length headers of the operands. *)
Fixpoint load_lens (m : machine) (offs : list Z) : access (list Z) :=
  match offs with
  | [] => Granted []
  | off :: offs =>
      match load m off 4 with
      | Granted b =>
          match load_lens m offs with
          | Granted lens => Granted (u32_from_le b :: lens)
          | Denied => Denied
          | Unsafe => Unsafe
          end
      | Denied => Denied
      | Unsafe => Unsafe
      end
  end.

(** The payloads one after the other, from [cursor_off]. *)
Fixpoint copy_payloads (m : machine) (cursor_off : Z) (operands : list (Z * Z)) : access machine :=
  match operands with
  | [] => Granted m
  | (off, len) :: operands =>
      match memcpy m cursor_off (wrap32 (off + 4)) len with
      | Granted m => copy_payloads m (wrap32 (cursor_off + len)) operands
      | Denied => Denied
      | Unsafe => Unsafe
      end
  end.

(** [emit_str_concat_n] *)
Definition str_concat_n (f : frame) (operand_count : nat) : flow :=
  if (operand_count <? 2)%nat || (length (stack f) <? operand_count)%nat then Stuck else
  match offsets (rev (firstn operand_count (stack f))) with
  | None => Stuck
  | Some offs =>
      after (load_lens (mach f) offs) (fun lens =>
        let total_len := foldl (fun a b => wrap32 (a + b)) 0 lens in
        match alloc_scratch (mach f) (wrap32 (total_len + 4)) with
        | None => Trapped BoundsViolation
        | Some (base_off, m) =>
            after (store m base_off (u32_to_le total_len)) (fun m =>
            after (copy_payloads m (wrap32 (base_off + 4)) (combine offs lens)) (fun m =>
              Next (set_mach (set_stack f (Vi32 base_off :: skipn operand_count (stack f))) m)))
        end)
  end.

(** [emit_int_to_str]: the loop that counts the digits, and the one that writes them from the end.
    A magnitude has at most twenty digits. *)
Definition DIGITS : nat := 20.

Fixpoint count_digits (n : nat) (t cnt : Z) : Z :=
  match n with
  | O => cnt
  | S n => if 10 <=? t then count_digits n (t / 10) (wrap32 (cnt + 1)) else cnt
  end.

Fixpoint write_digits (n : nat) (m : machine) (mag cursor : Z) : access machine :=
  match n with
  | O => Granted m
  | S n =>
      let cursor := wrap32 (cursor - 1) in
      match store m cursor [byte_of_u8 (mag mod 10 + 48)] with
      | Granted m => if mag / 10 =? 0 then Granted m else write_digits n m (mag / 10) cursor
      | Denied => Denied
      | Unsafe => Unsafe
      end
  end.

Definition int_to_str (f : frame) : flow :=
  match stack f with
  | Vi64 v :: s =>
      let is_neg := v <? 0 in
      let mag := if is_neg then (- v) mod 2 ^ 64 else v in
      let sign_len := if is_neg then 1 else 0 in
      let digit_count := count_digits DIGITS mag 1 in
      let total_len := wrap32 (digit_count + sign_len) in
      let record_size := Z.land (wrap32 (total_len + 4 + 3)) (2 ^ 32 - 4) in
      match alloc_scratch (mach f) record_size with
      | None => Trapped BoundsViolation
      | Some (base_off, m) =>
          after (store m base_off (u32_to_le total_len)) (fun m =>
          let payload_off := wrap32 (base_off + 4) in
          let digits_off := wrap32 (payload_off + sign_len) in
          after (write_digits DIGITS m mag (wrap32 (digits_off + digit_count))) (fun m =>
          after (if is_neg then store m payload_off [byte_of_u8 45] else Granted m) (fun m =>
            Next (set_mach (set_stack f (Vi32 base_off :: s)) m))))
      end
  | _ => Stuck
  end.

(** [emit_float_to_str] with [relon_f64_to_str_helper]. *)
Definition FLOAT_TO_STR_MAX_PAYLOAD : Z := 352.
Definition FLOAT_TO_STR_RECORD_SIZE : Z := 768.

Definition relon_f64_to_str_helper `{Image} (bits dest_off : Z) (m : machine) : Z * machine :=
  let payload := as_bytes (f64_display bits) in
  if signed32 dest_off <? 0 then (-1, m)
  else if 2 ^ 32 <=? dest_off + FLOAT_TO_STR_RECORD_SIZE then (-1, m)
  else if blen (arena m) <? dest_off + FLOAT_TO_STR_RECORD_SIZE then (-1, m)
  else if FLOAT_TO_STR_MAX_PAYLOAD <? blen payload then (-1, m)
  else (blen payload, MkMachine (splice (arena m) dest_off (u32_to_le (blen payload) ++ payload)) (scratch_base m) (scratch_cursor m) (trap_code m)).

Definition float_to_str `{Image} (f : frame) : flow :=
  match stack f with
  | Vf64 bits :: s =>
      match alloc_scratch (mach f) FLOAT_TO_STR_RECORD_SIZE with
      | None => Trapped BoundsViolation
      | Some (base_off, m) =>
          let '(written, m) := relon_f64_to_str_helper bits base_off m in
          if written <? 0 then Trapped BoundsViolation else Next (set_mach (set_stack f (Vi32 base_off :: s)) m)
      end
  | _ => Stuck
  end.

(** ** Ops *)

Section Exec.
Context {Img : Image}.

(** [powf] of the platform, and the compiled closures: [closure_table_base] applied to an entry, a
    captures pointer and the arguments. *)
Context (powf : Z -> Z -> Z) (call_closure : Z -> Z -> list slot -> machine -> closure_result).

(** The number of iterations a loop may run. *)
Context (fuel : nat).

Definition load_op (f : frame) (offset size : Z) (decode : bytes -> slot) : flow :=
  match stack f with
  | Vi32 base :: s => after (load (mach f) (wrap32 (base + offset)) size) (fun b => push f s (decode b))
  | _ => Stuck
  end.

Definition store_at (f : frame) (s : list slot) (base offset : Z) (src : bytes) : flow :=
  after (store (mach f) (wrap32 (base + offset)) src) (fun m => Next (set_mach (set_stack f s) m)).

(** [emit_call_closure]: the handle holds the table entry and the captures pointer.  The caller goes
    on with whatever the closure returned, also after a trap in it. *)
Definition call_closure_op (f : frame) (n : nat) : flow :=
  match skipn n (stack f) with
  | Vi32 handle :: s =>
      after (load (mach f) handle 8) (fun b =>
        match call_closure (u32_from_le (firstn 4 b)) (u32_from_le (skipn 4 b)) (rev (firstn n (stack f))) (mach f) with
        | Returned v m => Next (set_mach (set_stack f (v :: s)) m)
        | NullEntry => Trapped CapabilityDenied
        | Faults => Fault
        | Loops => OutOfFuel
        end)
  | _ => Stuck
  end.

(** The ops without a body. *)
Definition step (o : Op) (f : frame) : flow :=
  match o with
  | ConstBool b => push_bool f (stack f) b
  | ConstI32 i => push_i32 f (stack f) i
  | ConstI64 i => push f (stack f) (Vi64 i)
  | ConstF64 bits => push f (stack f) (Vf64 bits)
  | LetGet idx _ => match lets f idx with Some v => push f (stack f) v | None => Stuck end
  | LetSet idx ty =>
      match stack f with
      | v :: s => Next (MkFrame s (params f) (upd (lets f) idx (coerce ty v)) (mach f))
      | [] => Stuck
      end
  | LocalGet idx => match params f !! idx with Some v => push f (stack f) v | None => Stuck end
  | Add ty => arith_op f ty Z.add Arith.f64_add
  | Sub ty => arith_op f ty Z.sub Arith.f64_sub
  | Mul ty => arith_op f ty Z.mul Arith.f64_mul
  | Div ty => div_op f ty
  | Mod ty => mod_op f ty
  | BitAnd ty => bit_and f ty
  | ConvertI64ToF64 => match stack f with Vi64 i :: s => push f s (Vf64 (i64_as_f64 i)) | _ => Stuck end
  | F64ToI64Sat => match stack f with Vf64 b :: s => push f s (Vi64 (f64_to_i64_sat b)) | _ => Stuck end
  | F64Unary op => match stack f with Vf64 b :: s => push f s (Vf64 (f64_unary op b)) | _ => Stuck end
  | F64Pow => match stack f with Vf64 e :: Vf64 b :: s => push f s (Vf64 (powf b e)) | _ => Stuck end
  | Eq ty => eq_op f ty false
  | Ne ty => eq_op f ty true
  | Lt ty => cmp_op f ty Z.ltb Arith.f64_lt
  | Le ty => cmp_op f ty Z.leb Arith.f64_le
  | Gt ty => cmp_op f ty Z.gtb (fun a b => Arith.f64_lt b a)
  | Ge ty => cmp_op f ty Z.geb (fun a b => Arith.f64_le b a)
  | Return => match stack f with v :: _ => Done v (mach f) | [] => Stuck end
  | ReadStringLen =>
      match stack f with
      | Vi32 p :: s => after (load (mach f) p 4) (fun b => push f s (Vi64 (u32_from_le b)))
      | _ => Stuck
      end
  | Select _ => match stack f with Vi32 c :: v :: u :: s => push f s (if c =? 0 then v else u) | _ => Stuck end
  | Br depth => Branch depth f
  | BrIf depth =>
      match stack f with
      | Vi32 c :: s => if c =? 0 then Next (set_stack f s) else Branch depth (set_stack f s)
      | _ => Stuck
      end
  | AllocScratchDyn =>
      match stack f with
      | Vi32 size :: s =>
          match alloc_scratch (mach f) size with
          | Some (off, m) => Next (set_mach (set_stack f (Vi32 off :: s)) m)
          | None => Trapped BoundsViolation
          end
      | _ => Stuck
      end
  | LoadI32AtAbsolute offset => load_op f offset 4 (fun b => Vi32 (u32_from_le b))
  | LoadI64AtAbsolute offset => load_op f offset 8 (fun b => Vi64 (i64_from_le b))
  | LoadF64AtAbsolute offset => load_op f offset 8 (fun b => Vf64 (u64_from_le b))
  | LoadI8UAtAbsolute offset => load_op f offset 1 (fun b => Vi32 (u32_from_le b))
  | StoreI32AtAbsolute offset =>
      match stack f with Vi32 v :: Vi32 base :: s => store_at f s base offset (u32_to_le v) | _ => Stuck end
  | StoreI64AtAbsolute offset =>
      match stack f with Vi64 v :: Vi32 base :: s => store_at f s base offset (i64_to_le v) | _ => Stuck end
  | StoreF64AtAbsolute offset =>
      match stack f with Vf64 v :: Vi32 base :: s => store_at f s base offset (u64_to_le v) | _ => Stuck end
  | StoreI8AtAbsolute offset =>
      match stack f with Vi32 v :: Vi32 base :: s => store_at f s base offset [byte_of_u8 (v mod 256)] | _ => Stuck end
  | MemcpyAtAbsolute =>
      match stack f with
      | Vi32 len :: Vi32 src :: Vi32 dest :: s =>
          after (memcpy (mach f) dest src len) (fun m => Next (set_mach (set_stack f s) m))
      | _ => Stuck
      end
  | Trap kind => Trapped (sandbox_trap kind)
  | CallClosure param_tys _ => call_closure_op f (length param_tys)
  | ConstString idx _ => match string_offset idx with Some off => push f (stack f) (Vi32 off) | None => Stuck end
  | StrConcatN operand_count => str_concat_n f operand_count
  | IntToStr => int_to_str f
  | FloatToStr => float_to_str f
  | If _ _ _ | Block _ _ | Loop _ _ => Stuck
  end.

(** [emit_block] of a [Block]: a branch to it goes past its end. *)
Definition end_block (result_ty : option IrType) (entry : list slot) (r : flow) : flow :=
  match r with
  | Branch O f =>
      match result_ty, stack f with
      | None, _ => Next (set_stack f entry)
      | Some _, v :: _ => Next (set_stack f (v :: entry))
      | Some _, [] => Stuck
      end
  | Branch (S n) f => Branch n f
  | r => r
  end.

(** [emit_if]: an arm leaves one value; the label of an [If] is not a target. *)
Definition end_if (entry : list slot) (r : flow) : flow :=
  match r with
  | Next f => match stack f with v :: s => if (length s =? length entry)%nat then Next f else Stuck | [] => Stuck end
  | Branch O _ => Stuck
  | Branch (S n) f => Branch n f
  | r => r
  end.

(** [emit_block] of a [Loop]: a branch to it starts the body again. *)
Fixpoint iterate (n : nat) (body : frame -> flow) (entry : list slot) (f : frame) : flow :=
  match n with
  | O => OutOfFuel
  | S n =>
      match body f with
      | Branch O f => iterate n body entry (set_stack f entry)
      | Branch (S d) f => Branch d f
      | r => r
      end
  end.

(** [visit_ops]: ops one after the other, until control leaves. *)
Definition run_ops (run : Op -> frame -> flow) : list Op -> frame -> flow :=
  fix seq (l : list Op) (f : frame) : flow :=
    match l with
    | [] => Next f
    | o :: l => match run o f with Next f => seq l f | r => r end
    end.

(** [Add] on strings: the body of [concat] in place, on the two operands. *)
Definition add_strings (f : frame) : flow :=
  match stack f with
  | Vi32 b :: Vi32 a :: s =>
      match run_ops step concat_string_string_body (MkFrame [] [Vi32 a; Vi32 b] (fun _ => None) (mach f)) with
      | Done v m => Next (set_mach (set_stack f (v :: s)) m)
      | Next _ | Branch _ _ => Stuck
      | r => r
      end
  | _ => Stuck
  end.

Fixpoint exec (o : Op) (f : frame) {struct o} : flow :=
  match o with
  | Add String => add_strings f
  | If _ then_body else_body =>
      match stack f with
      | Vi32 c :: s => end_if s (run_ops exec (if c =? 0 then else_body else then_body) (set_stack f s))
      | _ => Stuck
      end
  | Block result_ty body => end_block result_ty (stack f) (run_ops exec body f)
  | Loop None body => iterate fuel (run_ops exec body) (stack f) f
  | Loop (Some _) _ => Stuck
  | o => step o f
  end.

Definition exec_seq : list Op -> frame -> flow := run_ops exec.

(** A call of a library body ([emit_call_stdlib]): its arguments are the parameters, and its lets
    are a window of their own. *)
Definition call (body : list Op) (args : list slot) (m : machine) : flow :=
  exec_seq body (MkFrame [] args (fun _ => None) m).
End Exec.
End Ir.
