(* ===== verification/IrStdlib.v ===== *)
(** The bodies of the bundled library in the intermediate representation, transcribed op by op
    from [crates/relon-ir/src/stdlib]: [defs.rs], [string_ops.rs] and [validators.rs]. *)

From Stdlib Require Import ZArith.
From stdpp Require Import base list strings.
From S2P Require Import Prelude Ir.
Local Open Scope Z_scope.

Module IrStdlib.
Import Ir.

(** [StdlibFunction] of [signatures.rs] *)
Record StdlibFunction : Type := MkStdlib { name : string; params : list IrType; ret : IrType; body : list Op }.

(** ** Lengths and scalars *)

Definition list_length_record_header_body : list Op :=
  [LocalGet 0; ReadStringLen; Return].
Definition length_string_to_int : StdlibFunction := MkStdlib "length" [String] I64 [LocalGet 0; ReadStringLen; Return].
Definition list_int_length_to_int : StdlibFunction := MkStdlib "list_int_length" [ListInt] I64 [LocalGet 0; ReadStringLen; Return].
Definition list_float_length : StdlibFunction := MkStdlib "list_float_length" [ListFloat] I64 list_length_record_header_body.
Definition list_bool_length : StdlibFunction := MkStdlib "list_bool_length" [ListBool] I64 list_length_record_header_body.
Definition list_string_length : StdlibFunction := MkStdlib "list_string_length" [ListString] I64 list_length_record_header_body.
Definition list_schema_length : StdlibFunction := MkStdlib "list_schema_length" [ListSchema] I64 list_length_record_header_body.
Definition list_list_length : StdlibFunction := MkStdlib "list_list_length" [ListList] I64 list_length_record_header_body.

Definition abs_int : StdlibFunction := MkStdlib "abs" [I64] I64 
  [ConstI64 0; LocalGet 0; Sub I64; LocalGet 0; LocalGet 0; ConstI64 0; Lt I64; Select I64; Return].
Definition abs_float : StdlibFunction := MkStdlib "abs_float" [F64] F64 [LocalGet 0; F64Unary Abs; Return].
Definition floor_float_to_int : StdlibFunction := MkStdlib "floor" [F64] I64 [LocalGet 0; F64Unary Floor; F64ToI64Sat; Return].
Definition ceil_float_to_int : StdlibFunction := MkStdlib "ceil" [F64] I64 [LocalGet 0; F64Unary Ceil; F64ToI64Sat; Return].
Definition round_float_to_int : StdlibFunction := MkStdlib "round" [F64] I64 [LocalGet 0; F64Unary Nearest; F64ToI64Sat; Return].
Definition sqrt_float : StdlibFunction := MkStdlib "sqrt" [F64] F64 [LocalGet 0; F64Unary Sqrt; Return].
Definition min_int : StdlibFunction := MkStdlib "min" [I64; I64] I64 
  [LocalGet 0; LocalGet 1; LocalGet 0; LocalGet 1; Lt I64; Select I64; Return].
Definition max_int : StdlibFunction := MkStdlib "max" [I64; I64] I64 
  [LocalGet 0; LocalGet 1; LocalGet 0; LocalGet 1; Gt I64; Select I64; Return].
Definition pow_float : StdlibFunction := MkStdlib "pow" [F64; F64] F64 [LocalGet 0; LocalGet 1; F64Pow; Return].

(** ** Strings *)

Definition is_empty_string : StdlibFunction := MkStdlib "is_empty" [String] Bool 
  [LocalGet 0; ReadStringLen; ConstI64 0; Eq I64; Return].

Definition concat_string_string : StdlibFunction := MkStdlib "concat" [String; String] String concat_string_string_body.

Definition substring_string_body : list Op :=
  let S_LEN := 0%nat in
  let START_I32 := 1%nat in
  let LEN_I32 := 2%nat in
  let BASE := 3%nat in
  [LocalGet 0; LoadI32AtAbsolute 0; LetSet S_LEN I32; LocalGet 1; ConstI64 0; Lt I64;
   If I32
     [Trap IndexOutOfBounds; ConstI32 0]
     [ConstI32 0];
   LetSet BASE I32; LocalGet 2; ConstI64 0; Lt I64;
   If I32
     [Trap IndexOutOfBounds; ConstI32 0]
     [ConstI32 0];
   LetSet BASE I32; LocalGet 1; LocalGet 2; Add I64; LocalGet 0; ReadStringLen; Gt I64;
   If I32
     [Trap IndexOutOfBounds; ConstI32 0]
     [ConstI32 0];
   LetSet BASE I32; ConstI32 8; AllocScratchDyn; LetSet BASE I32; LetGet BASE I32; LocalGet 1;
   StoreI64AtAbsolute 0; LetGet BASE I32; LoadI32AtAbsolute 0; LetSet START_I32 I32; LetGet BASE I32;
   LocalGet 2; StoreI64AtAbsolute 0; LetGet BASE I32; LoadI32AtAbsolute 0; LetSet LEN_I32 I32;
   LetGet LEN_I32 I32; ConstI32 4; Add I32; AllocScratchDyn; LetSet BASE I32; LetGet BASE I32;
   LetGet LEN_I32 I32; StoreI32AtAbsolute 0; LetGet BASE I32; ConstI32 4; Add I32; LocalGet 0; ConstI32 4;
   Add I32; LetGet START_I32 I32; Add I32; LetGet LEN_I32 I32; MemcpyAtAbsolute; LetGet BASE I32; Return].
Definition substring_string : StdlibFunction := MkStdlib "substring" [String; I64; I64] String substring_string_body.

Definition starts_with_string_body : list Op :=
  let S_LEN := 0%nat in
  let P_LEN := 1%nat in
  let I := 2%nat in
  let ACC := 3%nat in
  [LocalGet 0; LoadI32AtAbsolute 0; LetSet S_LEN I32; LocalGet 1; LoadI32AtAbsolute 0; LetSet P_LEN I32;
   LetGet P_LEN I32; LetGet S_LEN I32; Gt I32;
   If Bool
     [ConstBool false]
     [ConstI32 1; LetSet ACC I32; ConstI32 0; LetSet I I32;
       Block None
         [Loop None
             [LetGet I I32; LetGet P_LEN I32; Ge I32; BrIf 1; LocalGet 0; ConstI32 4; Add I32; LetGet I I32;
               Add I32; LoadI8UAtAbsolute 0; LocalGet 1; ConstI32 4; Add I32; LetGet I I32; Add I32;
               LoadI8UAtAbsolute 0; Ne I32;
               If I32
                 [ConstI32 0; LetSet ACC I32; ConstI32 0; Br 2]
                 [ConstI32 0];
               LetSet ACC I32; ConstI32 1; LetSet ACC I32; LetGet I I32; ConstI32 1; Add I32; LetSet I I32;
               Br 0]];
       LetGet ACC I32; ConstI32 0; Ne I32];
   Return].
Definition starts_with_string : StdlibFunction := MkStdlib "starts_with" [String; String] Bool starts_with_string_body.

Definition contains_string_body : list Op :=
  let S_LEN := 0%nat in
  let P_LEN := 1%nat in
  let LAST_START := 2%nat in
  let I := 3%nat in
  let J := 4%nat in
  let MISMATCH := 5%nat in
  let FOUND := 6%nat in
  [LocalGet 0; LoadI32AtAbsolute 0; LetSet S_LEN I32; LocalGet 1; LoadI32AtAbsolute 0; LetSet P_LEN I32;
   LetGet P_LEN I32; LetGet S_LEN I32; Gt I32;
   If Bool
     [ConstBool false]
     [LetGet P_LEN I32; ConstI32 0; Eq I32;
       If Bool
         [ConstBool true]
         [LetGet S_LEN I32; LetGet P_LEN I32; Sub I32; LetSet LAST_START I32; ConstI32 0; LetSet I I32;
           ConstI32 0; LetSet FOUND I32;
           Block None
             [Loop None
                 [LetGet FOUND I32; ConstI32 0; Ne I32; BrIf 1; LetGet I I32; LetGet LAST_START I32; Gt I32;
                   BrIf 1; ConstI32 0; LetSet J I32; ConstI32 0; LetSet MISMATCH I32;
                   Block None
                     [Loop None
                         [LetGet J I32; LetGet P_LEN I32; Ge I32; BrIf 1; LocalGet 0; ConstI32 4; Add I32;
                           LetGet I I32; Add I32; LetGet J I32; Add I32; LoadI8UAtAbsolute 0; LocalGet 1;
                           ConstI32 4; Add I32; LetGet J I32; Add I32; LoadI8UAtAbsolute 0; Ne I32;
                           LetSet MISMATCH I32; LetGet MISMATCH I32; ConstI32 0; Ne I32; BrIf 1;
                           LetGet J I32; ConstI32 1; Add I32; LetSet J I32; Br 0]];
                   LetGet MISMATCH I32; ConstI32 0; Eq I32; LetSet FOUND I32; LetGet I I32; ConstI32 1;
                   Add I32; LetSet I I32; Br 0]];
           LetGet FOUND I32; ConstI32 0; Ne I32]];
   Return].
Definition contains_string : StdlibFunction := MkStdlib "contains" [String; String] Bool contains_string_body.

Definition ends_with_string_body : list Op :=
  let S_LEN := 0%nat in
  let P_LEN := 1%nat in
  let I := 2%nat in
  let ACC := 3%nat in
  let BASE_OFF := 4%nat in
  [LocalGet 0; LoadI32AtAbsolute 0; LetSet S_LEN I32; LocalGet 1; LoadI32AtAbsolute 0; LetSet P_LEN I32;
   LetGet P_LEN I32; LetGet S_LEN I32; Gt I32;
   If Bool
     [ConstBool false]
     [LetGet S_LEN I32; LetGet P_LEN I32; Sub I32; LetSet BASE_OFF I32; ConstI32 1; LetSet ACC I32;
       ConstI32 0; LetSet I I32;
       Block None
         [Loop None
             [LetGet I I32; LetGet P_LEN I32; Ge I32; BrIf 1; LocalGet 0; ConstI32 4; Add I32;
               LetGet BASE_OFF I32; Add I32; LetGet I I32; Add I32; LoadI8UAtAbsolute 0; LocalGet 1;
               ConstI32 4; Add I32; LetGet I I32; Add I32; LoadI8UAtAbsolute 0; Eq I32; LetGet ACC I32;
               BitAnd I32; LetSet ACC I32; LetGet ACC I32; ConstI32 0; Eq I32; BrIf 1; LetGet I I32;
               ConstI32 1; Add I32; LetSet I I32; Br 0]];
       LetGet ACC I32; ConstI32 0; Ne I32];
   Return].
Definition ends_with_string : StdlibFunction := MkStdlib "ends_with" [String; String] Bool ends_with_string_body.

(** ** Lists *)

Definition list_int_sum_body : list Op :=
  let N := 0%nat in
  let I := 1%nat in
  let ACC := 2%nat in
  let PAYLOAD := 3%nat in
  let VAL := 4%nat in
  let SINK := 5%nat in
  [LocalGet 0; LoadI32AtAbsolute 0; LetSet N I32; LocalGet 0; ConstI32 (4 + 7); Add I32; ConstI32 (-8);
   BitAnd I32; LetSet PAYLOAD I32; ConstI64 0; LetSet ACC I64; ConstI32 0; LetSet I I32;
   Block None
     [Loop None
         [LetGet I I32; LetGet N I32; Ge I32; BrIf 1; LetGet PAYLOAD I32; LetGet I I32; ConstI32 8; Mul I32;
           Add I32; LoadI64AtAbsolute 0; LetSet VAL I64; LetGet VAL I64; ConstI64 0; Ge I64;
           If I32
             [LetGet ACC I64; ConstI64 (2 ^ 63 - 1); LetGet VAL I64; Sub I64; Gt I64;
               If I32
                 [Trap NumericOverflow; ConstI32 0]
                 [ConstI32 0]]
             [LetGet ACC I64; ConstI64 (- 2 ^ 63); LetGet VAL I64; Sub I64; Lt I64;
               If I32
                 [Trap NumericOverflow; ConstI32 0]
                 [ConstI32 0]];
           LetSet SINK I32; LetGet ACC I64; LetGet VAL I64; Add I64; LetSet ACC I64; LetGet I I32;
           ConstI32 1; Add I32; LetSet I I32; Br 0]];
   LetGet ACC I64; Return].
Definition list_int_sum : StdlibFunction := MkStdlib "list_int_sum" [ListInt] I64 list_int_sum_body.

Definition list_int_max_body : list Op :=
  let N := 0%nat in
  let I := 1%nat in
  let ACC := 2%nat in
  let PAYLOAD := 3%nat in
  let VAL := 4%nat in
  [LocalGet 0; LoadI32AtAbsolute 0; LetSet N I32; LetGet N I32; ConstI32 0; Eq I32;
   If I32
     [Trap EmptyList; ConstI32 0]
     [ConstI32 0];
   LetSet I I32; LocalGet 0; ConstI32 (4 + 7); Add I32; ConstI32 (-8); BitAnd I32; LetSet PAYLOAD I32;
   LetGet PAYLOAD I32; LoadI64AtAbsolute 0; LetSet ACC I64; ConstI32 1; LetSet I I32;
   Block None
     [Loop None
         [LetGet I I32; LetGet N I32; Ge I32; BrIf 1; LetGet PAYLOAD I32; LetGet I I32; ConstI32 8; Mul I32;
           Add I32; LoadI64AtAbsolute 0; LetSet VAL I64; LetGet VAL I64; LetGet ACC I64; LetGet VAL I64;
           LetGet ACC I64; Gt I64; Select I64; LetSet ACC I64; LetGet I I32; ConstI32 1; Add I32;
           LetSet I I32; Br 0]];
   LetGet ACC I64; Return].
Definition list_int_max : StdlibFunction := MkStdlib "list_int_max" [ListInt] I64 list_int_max_body.

Definition list_int_min_body : list Op :=
  let N := 0%nat in
  let I := 1%nat in
  let ACC := 2%nat in
  let PAYLOAD := 3%nat in
  let VAL := 4%nat in
  [LocalGet 0; LoadI32AtAbsolute 0; LetSet N I32; LetGet N I32; ConstI32 0; Eq I32;
   If I32
     [Trap EmptyList; ConstI32 0]
     [ConstI32 0];
   LetSet I I32; LocalGet 0; ConstI32 (4 + 7); Add I32; ConstI32 (-8); BitAnd I32; LetSet PAYLOAD I32;
   LetGet PAYLOAD I32; LoadI64AtAbsolute 0; LetSet ACC I64; ConstI32 1; LetSet I I32;
   Block None
     [Loop None
         [LetGet I I32; LetGet N I32; Ge I32; BrIf 1; LetGet PAYLOAD I32; LetGet I I32; ConstI32 8; Mul I32;
           Add I32; LoadI64AtAbsolute 0; LetSet VAL I64; LetGet VAL I64; LetGet ACC I64; LetGet VAL I64;
           LetGet ACC I64; Lt I64; Select I64; LetSet ACC I64; LetGet I I32; ConstI32 1; Add I32;
           LetSet I I32; Br 0]];
   LetGet ACC I64; Return].
Definition list_int_min : StdlibFunction := MkStdlib "list_int_min" [ListInt] I64 list_int_min_body.

Definition list_map_body_typed (load_elem : Z -> Op) (store_elem : Z -> Op) (param_ty : IrType) (ret_ty : IrType) : list Op :=
  let N := 0%nat in
  let I := 1%nat in
  let SRC_PAYLOAD := 2%nat in
  let DST_PAYLOAD := 3%nat in
  let NEW_BASE := 4%nat in
  [LocalGet 0; LoadI32AtAbsolute 0; LetSet N I32; ConstI32 16; LetGet N I32; ConstI32 8; Mul I32; Add I32;
   AllocScratchDyn; LetSet NEW_BASE I32; LetGet NEW_BASE I32; LetGet N I32; StoreI32AtAbsolute 0; LocalGet 0;
   ConstI32 (4 + 7); Add I32; ConstI32 (-8); BitAnd I32; LetSet SRC_PAYLOAD I32; LetGet NEW_BASE I32;
   ConstI32 (4 + 7); Add I32; ConstI32 (-8); BitAnd I32; LetSet DST_PAYLOAD I32; ConstI32 0; LetSet I I32;
   Block None
     [Loop None
         [LetGet I I32; LetGet N I32; Ge I32; BrIf 1; LetGet DST_PAYLOAD I32; LetGet I I32; ConstI32 8;
           Mul I32; Add I32; LocalGet 1; LetGet SRC_PAYLOAD I32; LetGet I I32; ConstI32 8; Mul I32; Add I32;
           load_elem 0; CallClosure [param_ty] ret_ty; store_elem 0; LetGet I I32; ConstI32 1; Add I32;
           LetSet I I32; Br 0]];
   LetGet NEW_BASE I32; Return].
Definition list_int_map : StdlibFunction := MkStdlib "list_int_map" [ListInt; Closure] ListInt 
  (list_map_body_typed LoadI64AtAbsolute StoreI64AtAbsolute I64 I64).
Definition list_float_map : StdlibFunction := MkStdlib "list_float_map" [ListFloat; Closure] ListFloat 
  (list_map_body_typed LoadF64AtAbsolute StoreF64AtAbsolute F64 F64).
Definition list_int_map_to_float : StdlibFunction := MkStdlib "list_int_map_to_float" [ListInt; Closure] ListFloat 
  (list_map_body_typed LoadI64AtAbsolute StoreF64AtAbsolute I64 F64).
Definition list_float_map_to_int : StdlibFunction := MkStdlib "list_float_map_to_int" [ListFloat; Closure] ListInt 
  (list_map_body_typed LoadF64AtAbsolute StoreI64AtAbsolute F64 I64).

Definition list_filter_body_typed (load_elem : Z -> Op) (store_elem : Z -> Op) (param_ty : IrType) (cur_val_ty : IrType) : list Op :=
  let N := 0%nat in
  let I := 1%nat in
  let SRC_PAYLOAD := 2%nat in
  let DST_PAYLOAD := 3%nat in
  let NEW_BASE := 4%nat in
  let OUT_COUNT := 5%nat in
  let CUR_VAL := 6%nat in
  let SINK := 7%nat in
  [LocalGet 0; LoadI32AtAbsolute 0; LetSet N I32; ConstI32 16; LetGet N I32; ConstI32 8; Mul I32; Add I32;
   AllocScratchDyn; LetSet NEW_BASE I32; LocalGet 0; ConstI32 (4 + 7); Add I32; ConstI32 (-8); BitAnd I32;
   LetSet SRC_PAYLOAD I32; LetGet NEW_BASE I32; ConstI32 (4 + 7); Add I32; ConstI32 (-8); BitAnd I32;
   LetSet DST_PAYLOAD I32; ConstI32 0; LetSet I I32; ConstI32 0; LetSet OUT_COUNT I32;
   Block None
     [Loop None
         [LetGet I I32; LetGet N I32; Ge I32; BrIf 1; LetGet SRC_PAYLOAD I32; LetGet I I32; ConstI32 8;
           Mul I32; Add I32; load_elem 0; LetSet CUR_VAL cur_val_ty; LocalGet 1; LetGet CUR_VAL cur_val_ty;
           CallClosure [param_ty] Bool;
           If I32
             [LetGet DST_PAYLOAD I32; LetGet OUT_COUNT I32; ConstI32 8; Mul I32; Add I32;
               LetGet CUR_VAL cur_val_ty; store_elem 0; LetGet OUT_COUNT I32; ConstI32 1; Add I32;
               LetSet OUT_COUNT I32; ConstI32 0]
             [ConstI32 0];
           LetSet SINK I32; LetGet I I32; ConstI32 1; Add I32; LetSet I I32; Br 0]];
   LetGet NEW_BASE I32; LetGet OUT_COUNT I32; StoreI32AtAbsolute 0; LetGet NEW_BASE I32; Return].
Definition list_int_filter : StdlibFunction := MkStdlib "list_int_filter" [ListInt; Closure] ListInt 
  (list_filter_body_typed LoadI64AtAbsolute StoreI64AtAbsolute I64 I64).
Definition list_float_filter : StdlibFunction := MkStdlib "list_float_filter" [ListFloat; Closure] ListFloat 
  (list_filter_body_typed LoadF64AtAbsolute StoreF64AtAbsolute F64 F64).

Definition list_pointer_filter_body : list Op :=
  let N := 0%nat in
  let I := 1%nat in
  let SRC_PAYLOAD := 2%nat in
  let DST_PAYLOAD := 3%nat in
  let NEW_BASE := 4%nat in
  let OUT_COUNT := 5%nat in
  let CUR_VAL := 6%nat in
  let SINK := 7%nat in
  [LocalGet 0; LoadI32AtAbsolute 0; LetSet N I32; ConstI32 4; LetGet N I32; ConstI32 4; Mul I32; Add I32;
   AllocScratchDyn; LetSet NEW_BASE I32; LocalGet 0; ConstI32 4; Add I32; LetSet SRC_PAYLOAD I32;
   LetGet NEW_BASE I32; ConstI32 4; Add I32; LetSet DST_PAYLOAD I32; ConstI32 0; LetSet I I32; ConstI32 0;
   LetSet OUT_COUNT I32;
   Block None
     [Loop None
         [LetGet I I32; LetGet N I32; Ge I32; BrIf 1; LetGet SRC_PAYLOAD I32; LetGet I I32; ConstI32 4;
           Mul I32; Add I32; LoadI32AtAbsolute 0; LetSet CUR_VAL I32; LocalGet 1; LetGet CUR_VAL I32;
           CallClosure [I32] Bool;
           If I32
             [LetGet DST_PAYLOAD I32; LetGet OUT_COUNT I32; ConstI32 4; Mul I32; Add I32;
               LetGet CUR_VAL I32; StoreI32AtAbsolute 0; LetGet OUT_COUNT I32; ConstI32 1; Add I32;
               LetSet OUT_COUNT I32; ConstI32 0]
             [ConstI32 0];
           LetSet SINK I32; LetGet I I32; ConstI32 1; Add I32; LetSet I I32; Br 0]];
   LetGet NEW_BASE I32; LetGet OUT_COUNT I32; StoreI32AtAbsolute 0; LetGet NEW_BASE I32; Return].
Definition list_list_filter : StdlibFunction := MkStdlib "list_list_filter" [ListList; Closure] ListList list_pointer_filter_body.

Definition list_fold_body_typed (load_elem : Z -> Op) (acc_ty : IrType) : list Op :=
  let N := 0%nat in
  let I := 1%nat in
  let SRC_PAYLOAD := 2%nat in
  let ACC := 3%nat in
  [LocalGet 0; LoadI32AtAbsolute 0; LetSet N I32; LocalGet 0; ConstI32 (4 + 7); Add I32; ConstI32 (-8);
   BitAnd I32; LetSet SRC_PAYLOAD I32; LocalGet 1; LetSet ACC acc_ty; ConstI32 0; LetSet I I32;
   Block None
     [Loop None
         [LetGet I I32; LetGet N I32; Ge I32; BrIf 1; LocalGet 2; LetGet ACC acc_ty; LetGet SRC_PAYLOAD I32;
           LetGet I I32; ConstI32 8; Mul I32; Add I32; load_elem 0; CallClosure [acc_ty; acc_ty] acc_ty;
           LetSet ACC acc_ty; LetGet I I32; ConstI32 1; Add I32; LetSet I I32; Br 0]];
   LetGet ACC acc_ty; Return].
Definition list_int_fold : StdlibFunction := MkStdlib "list_int_fold" [ListInt; I64; Closure] I64 (list_fold_body_typed LoadI64AtAbsolute I64).
Definition list_float_fold : StdlibFunction := MkStdlib "list_float_fold" [ListFloat; F64; Closure] F64 (list_fold_body_typed LoadF64AtAbsolute F64).

Definition list_pred_body_typed (load_elem : Z -> Op) (param_ty : IrType) (is_every : bool) : list Op :=
  let N := 0%nat in
  let I := 1%nat in
  let SRC_PAYLOAD := 2%nat in
  let CUR_VAL := 3%nat in
  let RESULT := 4%nat in
  let cur_val_ty := param_ty in
  let '(then_body, else_body) :=
    if is_every then ([ConstI32 0], [ConstI32 0; LetSet RESULT I32; ConstI32 1])
    else ([ConstI32 1; LetSet RESULT I32; ConstI32 1], [ConstI32 0]) in
  [LocalGet 0; LoadI32AtAbsolute 0; LetSet N I32; LocalGet 0; ConstI32 (4 + 7); Add I32; ConstI32 (-8); BitAnd I32;
   LetSet SRC_PAYLOAD I32; ConstI32 0; LetSet I I32; ConstI32 (if is_every then 1 else 0); LetSet RESULT I32;
   Block None
     [Loop None
         [LetGet I I32; LetGet N I32; Ge I32; BrIf 1; LetGet SRC_PAYLOAD I32; LetGet I I32; ConstI32 8; Mul I32; Add I32;
           load_elem 0; LetSet CUR_VAL cur_val_ty; LocalGet 1; LetGet CUR_VAL cur_val_ty; CallClosure [param_ty] Bool;
           If I32 then_body else_body;
           BrIf 1; LetGet I I32; ConstI32 1; Add I32; LetSet I I32; Br 0]];
   LetGet RESULT I32; ConstI32 0; Ne I32; Return].
Definition list_int_every : StdlibFunction := MkStdlib "list_int_every" [ListInt; Closure] Bool (list_pred_body_typed LoadI64AtAbsolute I64 true).
Definition list_int_some : StdlibFunction := MkStdlib "list_int_some" [ListInt; Closure] Bool (list_pred_body_typed LoadI64AtAbsolute I64 false).
Definition list_float_every : StdlibFunction := MkStdlib "list_float_every" [ListFloat; Closure] Bool (list_pred_body_typed LoadF64AtAbsolute F64 true).
Definition list_float_some : StdlibFunction := MkStdlib "list_float_some" [ListFloat; Closure] Bool (list_pred_body_typed LoadF64AtAbsolute F64 false).

Definition list_unique_body_typed (load_elem : Z -> Op) (elem_ty : IrType) : list Op :=
  let N := 0%nat in
  let I := 1%nat in
  let J := 2%nat in
  let SRC_PAYLOAD := 3%nat in
  let CUR_VAL := 4%nat in
  let RESULT := 5%nat in
  [LocalGet 0; LoadI32AtAbsolute 0; LetSet N I32; LocalGet 0; ConstI32 (4 + 7); Add I32; ConstI32 (-8);
   BitAnd I32; LetSet SRC_PAYLOAD I32; ConstI32 0; LetSet I I32; ConstI32 1; LetSet RESULT I32;
   Block None
     [Loop None
         [LetGet I I32; LetGet N I32; Ge I32; BrIf 1; LetGet SRC_PAYLOAD I32; LetGet I I32; ConstI32 8;
           Mul I32; Add I32; load_elem 0; LetSet CUR_VAL elem_ty; LetGet I I32; ConstI32 1; Add I32;
           LetSet J I32;
           Block None
             [Loop None
                 [LetGet J I32; LetGet N I32; Ge I32; BrIf 1; LetGet SRC_PAYLOAD I32; LetGet J I32;
                   ConstI32 8; Mul I32; Add I32; load_elem 0; LetGet CUR_VAL elem_ty; Eq elem_ty;
                   If I32
                     [ConstI32 0; LetSet RESULT I32; ConstI32 1]
                     [ConstI32 0];
                   BrIf 3; LetGet J I32; ConstI32 1; Add I32; LetSet J I32; Br 0]];
           LetGet I I32; ConstI32 1; Add I32; LetSet I I32; Br 0]];
   LetGet RESULT I32; ConstI32 0; Ne I32; Return].
Definition list_int_unique : StdlibFunction := MkStdlib "list_int_unique" [ListInt] Bool (list_unique_body_typed LoadI64AtAbsolute I64).
Definition list_float_unique : StdlibFunction := MkStdlib "list_float_unique" [ListFloat] Bool (list_unique_body_typed LoadF64AtAbsolute F64).

(** ** Validators *)

Definition range_pred (byte : nat) (lo : Z) (hi : Z) : list Op :=
  [LetGet byte I32; ConstI32 lo; Ge I32; LetGet byte I32; ConstI32 hi; Le I32; BitAnd I32].

Definition push_is_hexdigit (byte : nat) : list Op :=
  range_pred byte 48 57 ++ range_pred byte 65 70 ++ [Add I32] ++ range_pred byte 97 102 ++ [Add I32].

Definition is_uuid_string_body : list Op :=
  let S_LEN := 0%nat in
  let I := 1%nat in
  let ACC := 2%nat in
  let BYTE := 3%nat in
  let IS_DASH_POS := 4%nat in
  let eq_pos := fun p => [LetGet I I32; ConstI32 p; Eq I32] in
  let dash_ok := [LetGet BYTE I32; ConstI32 45; Eq I32] in
  let hex_ok := push_is_hexdigit BYTE in
  let loop_body :=
    [LetGet I I32; ConstI32 36; Ge I32; BrIf 1;
     LocalGet 0; ConstI32 4; Add I32; LetGet I I32; Add I32; LoadI8UAtAbsolute 0; LetSet BYTE I32] ++
    eq_pos 8 ++ eq_pos 13 ++ [Add I32] ++ eq_pos 18 ++ [Add I32] ++ eq_pos 23 ++ [Add I32; LetSet IS_DASH_POS I32] ++
    [LetGet IS_DASH_POS I32] ++ dash_ok ++ [Mul I32; ConstI32 1; LetGet IS_DASH_POS I32; Sub I32] ++ hex_ok ++
    [Mul I32; Add I32; LetGet ACC I32; BitAnd I32; LetSet ACC I32;
     LetGet ACC I32; ConstI32 0; Eq I32; BrIf 1;
     LetGet I I32; ConstI32 1; Add I32; LetSet I I32; Br 0] in
  let scan :=
    [ConstI32 1; LetSet ACC I32; ConstI32 0; LetSet I I32; Block None [Loop None loop_body];
     LetGet ACC I32; ConstI32 0; Ne I32] in
  [LocalGet 0; LoadI32AtAbsolute 0; LetSet S_LEN I32; LetGet S_LEN I32; ConstI32 36; Ne I32;
   If Bool [ConstBool false] scan; Return].
Definition is_uuid_string : StdlibFunction := MkStdlib "is_uuid" [String] Bool is_uuid_string_body.

Definition multiple_of_int_body : list Op :=
  [LocalGet 1; ConstI64 0; Eq I64;
   If Bool [ConstBool false] [LocalGet 0; LocalGet 1; Mod I64; ConstI64 0; Eq I64];
   Return].
Definition multiple_of_int : StdlibFunction := MkStdlib "multiple_of" [I64; I64] Bool multiple_of_int_body.

Definition in_range_float_body : list Op :=
  [LocalGet 0; LocalGet 1; Ge F64; LocalGet 0; LocalGet 2; Le F64; BitAnd I32; Return].
Definition in_range_float : StdlibFunction := MkStdlib "in_range" [F64; F64; F64] Bool in_range_float_body.

Definition size_in_range_record_header_body : list Op :=
  [LocalGet 0; ReadStringLen; LocalGet 1; Ge I64; LocalGet 0; ReadStringLen; LocalGet 2; Le I64; BitAnd I32;
   Return].
Definition size_in_range_list : StdlibFunction := MkStdlib "size_in_range" [ListInt; I64; I64] Bool size_in_range_record_header_body.
Definition dict_size_in_range : StdlibFunction := MkStdlib "dict_size_in_range" [Dict; I64; I64] Bool size_in_range_record_header_body.
End IrStdlib.
