(* ===== verification/IrFacts.v ===== *)
(** Reasoning about the machine of [Ir]: memory, loops, and the symbolic execution of bodies. *)

From Stdlib Require Import ZArith Lia Bool.
From coqutil Require Import Byte Word.LittleEndianList.
From stdpp Require Import base list strings.
From S2P Require Import Prelude Bytes SchemaCanonical Layout LayoutFacts Value BufferTypes IndexFacts Reader ReaderFacts VerifiedRead Relocation Encoding.
From S2P Require Import NumberLit Arith Native StdMath Ir.
Local Open Scope Z_scope.
Local Open Scope abi_scope.

Module IrFacts.
Import Ir.

(** ** 32-bit numbers *)

Lemma wrap32_small z : 0 <= z < 2 ^ 32 -> wrap32 z = z.
Proof. apply Z.mod_small. Qed.

Lemma wrap32_add_0 z : 0 <= z < 2 ^ 32 -> wrap32 (z + 0) = z.
Proof. rewrite Z.add_0_r. apply wrap32_small. Qed.

Lemma wrap32_range z : 0 <= wrap32 z < 2 ^ 32.
Proof. apply Z.mod_pos_bound. lia. Qed.

Lemma signed32_small u : 0 <= u < 2 ^ 31 -> signed32 u = u.
Proof. intros Hu. unfold signed32. destruct (Z.ltb_spec u (2 ^ 31)); lia. Qed.

(** [x & -2^k] on 32 bits. *)
Lemma align_mask x k mask : 0 <= k -> mask = Z.ldiff (Z.ones 32) (Z.ones k) -> 0 <= x < 2 ^ 32 -> Z.land x mask = x - x mod 2 ^ k.
Proof.
  intros Hk -> Hx.
  assert (Z.land x (Z.ldiff (Z.ones 32) (Z.ones k)) = Z.ldiff (Z.land x (Z.ones 32)) (Z.ones k)) as ->.
  { apply Z.bits_inj'. intros n Hn. rewrite Z.land_spec, !Z.ldiff_spec, Z.land_spec. by rewrite andb_assoc. }
  rewrite Z.land_ones, Z.mod_small by lia. rewrite Z.ldiff_ones_r, Z.shiftl_mul_pow2, Z.shiftr_div_pow2 by lia.
  pose proof (Z.div_mod x (2 ^ k)). pose proof (Z.pow_pos_nonneg 2 k). lia.
Qed.

Lemma align8 x : 0 <= x < 2 ^ 32 -> Z.land x (2 ^ 32 - 8) = x - x mod 8.
Proof. by apply (align_mask x 3). Qed.
Lemma align4 x : 0 <= x < 2 ^ 32 -> Z.land x (2 ^ 32 - 4) = x - x mod 4.
Proof. by apply (align_mask x 2). Qed.

(** ** Memory *)

(** The arena fits half of the address space, as the signed comparisons of the bodies need, and
    the scratch region lies in it. *)
Record arena_ok (m : machine) : Prop := {
  arena_small : blen (arena m) < 2 ^ 31;
  scratch_nonneg : 0 <= scratch_base m /\ 0 <= scratch_cursor m;
  scratch_inside : scratch_base m + scratch_cursor m <= blen (arena m);
}.

Lemma load_ok m off s n :
  blen (arena m) < 2 ^ 31 -> bytes_at (arena m) off s -> blen s = n -> 0 < n -> load m off n = Granted s.
Proof.
  intros Ha Hs <- Hn. pose proof (bytes_at_bound _ _ _ Hs Hn) as Hb. pose proof (proj1 Hs) as Ho.
  pose proof (bytes_at_slice (E := unit) _ _ _ Hs Hb) as Hsl. apply slice_ok in Hsl as (_ & _ & _ & Ht).
  unfold load, arena_addr. rewrite wrap32_small by lia.
  destruct (Z.ltb_spec (blen (arena m)) (off + blen s)); [lia|]. destruct (Z.leb_spec (off + blen s) (blen (arena m))); [|lia].
  by f_equal.
Qed.

Lemma splice_length b off src : 0 <= off -> off + blen src <= blen b -> blen (splice b off src) = blen b.
Proof. intros Ho Hl. unfold splice, blen in *. rewrite !length_app, length_take, length_drop. lia. Qed.

Lemma splice_at b off src : 0 <= off -> off + blen src <= blen b -> bytes_at (splice b off src) off src.
Proof.
  intros Ho Hl. split; [done|]. intros i x Hx. unfold splice, blen in *.
  rewrite lookup_app_r; rewrite length_take; [|lia]. replace (Z.to_nat off + i - Z.to_nat off `min` length b)%nat with i by lia.
  by apply lookup_app_l_Some.
Qed.

Lemma splice_same b off src lo hi :
  0 <= off -> off + blen src <= blen b -> hi <= off \/ off + blen src <= lo -> same_on b (splice b off src) lo hi.
Proof.
  intros Ho Hl Hd i Hi. unfold splice, blen in *. destruct (decide (i < Z.to_nat off)%nat).
  - rewrite lookup_app_l by (rewrite length_take; lia). by rewrite lookup_take_lt.
  - rewrite lookup_app_r by (rewrite length_take; lia). rewrite length_take. rewrite lookup_app_r by lia. rewrite lookup_drop.
    f_equal. lia.
Qed.

Definition wrote (m : machine) (off : Z) (src : bytes) : machine :=
  MkMachine (splice (arena m) off src) (scratch_base m) (scratch_cursor m) (trap_code m).

Lemma store_ok m off src :
  blen (arena m) < 2 ^ 31 -> 0 <= off -> off + blen src <= blen (arena m) ->
  store m off src = Granted (wrote m off src).
Proof.
  intros Ha Ho Hl. pose proof (blen_nonneg src). unfold store, arena_addr. rewrite wrap32_small by lia.
  destruct (Z.ltb_spec (blen (arena m)) (off + blen src)); [lia|]. by destruct (Z.leb_spec (off + blen src) (blen (arena m))); [|lia].
Qed.

(** ** Running code *)

Definition then_ (r : flow) (k : frame -> flow) : flow := match r with Next f => k f | r => r end.

Definition simple (o : Op) : bool := match o with If _ _ _ | Block _ _ | Loop _ _ | CallClosure _ _ | Add String => false | _ => true end.

#[global] Arguments set_stack f s /.
#[global] Arguments set_mach f m /.
#[global] Arguments push f s v /.
#[global] Arguments store_at f s base offset src /.

Section Run.
Context {Img : Image} (powf : Z -> Z -> Z) (call_closure : Z -> Z -> list slot -> machine -> closure_result) (fuel : nat).
Notation exec := (exec powf call_closure fuel).
Notation exec_seq := (exec_seq powf call_closure fuel).
Notation step := (step powf call_closure).

Lemma seq_nil f : exec_seq [] f = Next f.
Proof. done. Qed.
Lemma seq_simple o l f : simple o = true -> exec_seq (o :: l) f = then_ (step o f) (exec_seq l).
Proof. intros Ho. unfold Ir.exec_seq at 1; cbn [run_ops]. fold exec_seq. assert (exec o f = step o f) as ->; [destruct o; try done; by destruct ty|by destruct (step o f)]. Qed.
Lemma seq_call ts t l f : exec_seq (CallClosure ts t :: l) f = then_ (step (CallClosure ts t) f) (exec_seq l).
Proof. unfold Ir.exec_seq at 1; cbn [run_ops]. fold exec_seq. change (exec (CallClosure ts t) f) with (step (CallClosure ts t) f). by destruct (step _ f). Qed.
Lemma seq_block t b l f : exec_seq (Block t b :: l) f = then_ (end_block t (stack f) (exec_seq b f)) (exec_seq l).
Proof. unfold Ir.exec_seq at 1. cbn [run_ops Ir.exec]. fold exec_seq. by destruct (end_block _ _ _). Qed.
Lemma seq_loop b l f : exec_seq (Loop None b :: l) f = then_ (iterate fuel (exec_seq b) (stack f) f) (exec_seq l).
Proof. unfold Ir.exec_seq at 1. cbn [run_ops Ir.exec]. fold exec_seq. by destruct (iterate _ _ _ _). Qed.
Lemma seq_if t a b l f c s :
  stack f = Vi32 c :: s ->
  exec_seq (If t a b :: l) f = then_ (end_if s (exec_seq (if c =? 0 then b else a) (set_stack f s))) (exec_seq l).
Proof. intros Hs. unfold Ir.exec_seq at 1; cbn [run_ops Ir.exec]. fold exec_seq. rewrite Hs. by destruct (end_if _ _). Qed.

(** The loop of the library bodies: a [Block] around a [Loop], left by a branch to the block.  [Inv]
    is an invariant over a bound on the number of iterations left. *)
Lemma seq_while (body l : list Op) (Inv : nat -> frame -> Prop) (Q : flow -> Prop) s0 k0 f0 :
  stack f0 = s0 ->
  (forall k f, Inv k f ->
    match exec_seq body f with
    | Branch 0 f' => exists k', (k' < k)%nat /\ Inv k' (set_stack f' s0)
    | Branch 1 f' => Q (exec_seq l (set_stack f' s0))
    | Branch (S (S d)) f' => Q (Branch d f')
    | Next f' => Q (exec_seq l f')
    | r => Q r
    end) ->
  Inv k0 f0 -> (k0 < fuel)%nat -> Q (exec_seq (Block None [Loop None body] :: l) f0).
Proof.
  intros Hs0 Hbody Hk0 Hf. rewrite seq_block, seq_loop, Hs0.
  enough (forall n k f, Inv k f -> (k < n)%nat ->
    Q (then_ (end_block None s0 (then_ (iterate n (exec_seq body) s0 f) (exec_seq []))) (exec_seq l))) as Hgo by eauto.
  clear k0 f0 Hs0 Hk0 Hf. induction n as [|n IH]; intros k f Hk Hn; [lia|]. cbn [iterate]. specialize (Hbody k f Hk).
  destruct (exec_seq body f) as [f'|[|[|d]] f'| | | | | ]; try done.
  destruct Hbody as (k' & Hk' & Hi). apply (IH k'); [done|lia].
Qed.

(** The same for a loop that counts an index up to [n], in let slots [L] and memory [m] that
    satisfy [R]. *)
Lemma seq_scan (n : nat) (R : nat -> (nat -> option slot) -> machine -> Prop) (Q : flow -> Prop) body l ps i0 L0 m0 :
  (forall i L m, (i <= n)%nat -> R i L m ->
    match exec_seq body (MkFrame [] ps L m) with
    | Branch 0 f' => (i < n)%nat /\ params f' = ps /\ R (S i) (lets f') (mach f')
    | Branch 1 f' => Q (exec_seq l (set_stack f' []))
    | Branch (S (S d)) f' => Q (Branch d f')
    | Next f' => Q (exec_seq l f')
    | r => Q r
    end) ->
  (i0 <= n)%nat -> R i0 L0 m0 -> (n < fuel)%nat -> Q (exec_seq (Block None [Loop None body] :: l) (MkFrame [] ps L0 m0)).
Proof.
  intros Hbody Hi HR Hn.
  apply (seq_while body l (fun k f => exists i L m, k = (n - i)%nat /\ (i <= n)%nat /\ f = MkFrame [] ps L m /\ R i L m)
           Q [] (n - i0)%nat); [done| |by exists i0, L0, m0|lia].
  intros k f (i & L & m & -> & Hin & -> & HRi). specialize (Hbody i L m Hin HRi).
  destruct (exec_seq body _) as [f'|[|[|d]] f'| | | | | ]; try done. destruct Hbody as (Hlt & Hp & HRs).
  exists (n - S i)%nat. split; [lia|]. exists (S i), (lets f'), (mach f'). split_and!; [done|lia| |done]. by rewrite <-Hp.
Qed.
End Run.

(** ** Symbolic execution *)

Lemma bool_slot b : ((if b : bool then 1 else 0) =? 0) = negb b.
Proof. by destruct b. Qed.

Lemma in_i64_iff z : Num.in_i64 z = true <-> is_i64 z.
Proof. unfold Num.in_i64, Num.I64_MAX, is_i64. rewrite andb_true_iff, !Z.leb_le. lia. Qed.

Lemma checked_in z : is_i64 z -> Arith.checked z = Some z.
Proof. intros Hz%in_i64_iff. unfold Arith.checked. by rewrite Hz. Qed.
Lemma checked_out z : ~ is_i64 z -> Arith.checked z = None.
Proof. intros Hz. unfold Arith.checked. destruct (Num.in_i64 z) eqn:E; [|done]. by apply in_i64_iff in E. Qed.
Lemma push_i64_in f s z : is_i64 z -> push_i64 f s z = Next (MkFrame (Vi64 z :: s) (params f) (lets f) (mach f)).
Proof. intros Hz. unfold push_i64. by rewrite checked_in. Qed.
Lemma push_i64_out f s z : ~ is_i64 z -> push_i64 f s z = Trapped Overflow.
Proof. intros Hz. unfold push_i64. by rewrite checked_out. Qed.

(** One op, in place: its effect is computed, let slots are looked up among the hypotheses, and
    32-bit results that fit are simplified. *)
Ltac ir_reduce :=
  cbn [then_ after end_if end_block step push push_bool push_i32 arith_op eq_op cmp_op bit_and load_op store_at
       set_stack set_mach stack params lets mach upd Nat.eqb lookup list_lookup length coerce xorb negb Z.eqb Pos.eqb].
Ltac ir_lets := repeat match goal with H : ?L ?i = Some _ |- context [?L ?i] => rewrite H; ir_reduce end.
Ltac is_literal n :=
  lazymatch n with
  | Z0 => idtac | Zpos _ => idtac | Zneg _ => idtac
  | ?a + ?b => is_literal a; is_literal b | ?a - ?b => is_literal a; is_literal b | ?a * ?b => is_literal a; is_literal b
  end.
Ltac ir_literals :=
  repeat match goal with
  | |- context [wrap32 ?n] => is_literal n; let v := eval vm_compute in (wrap32 n) in change (wrap32 n) with v
  | |- context [signed32 ?n] => is_literal n; let v := eval vm_compute in (signed32 n) in change (signed32 n) with v
  | |- context [Z.land ?a ?b] => is_literal a; is_literal b; let v := eval vm_compute in (Z.land a b) in change (Z.land a b) with v
  end; ir_reduce.
Ltac ir_arith :=
  ir_literals;
  repeat first [rewrite wrap32_add_0 by lia | rewrite wrap32_small by lia | rewrite signed32_small by lia | rewrite bool_slot | rewrite Nat.eqb_refl; ir_reduce
               | rewrite push_i64_in by (unfold is_i64 in *; lia); ir_reduce].
Ltac ir_op :=
  first [rewrite seq_simple by reflexivity | rewrite seq_nil | erewrite seq_if by reflexivity]; ir_reduce; ir_lets; ir_arith.
Ltac ir_run := ir_reduce; ir_lets; ir_arith; repeat ir_op.
(** The loop at the head of the code counts to [n]. *)
Ltac ir_scan n R i0 :=
  match goal with |- ?G => match G with context [exec_seq ?p ?c ?k (Block None [Loop None ?body] :: ?l) ?f] =>
    pattern (exec_seq p c k (Block None [Loop None body] :: l) f) end end;
  apply (seq_scan _ _ _ n R _ _ _ _ i0).
(** A conjunction of facts about let slots. *)
Ltac ir_inv := cbn [lets mach params]; split_and!; cbn [upd Nat.eqb]; try assumption; try reflexivity; try (do 2 f_equal; lia); try (unfold is_i64 in *; lia).

(** ** Records of words *)

Lemma blen_fmap {A B} (g : A -> B) l : blen (g <$> l) = blen l.
Proof. unfold blen. by rewrite length_fmap. Qed.

(** Where the payload of a record of 8-byte words starts. *)
Definition payload (p : Z) : Z := p + 11 - (p + 11) mod 8.

Definition slot_bytes (w : slot) : bytes :=
  match w with Vi32 u => u32_to_le u | Vi64 i => i64_to_le i | Vf64 bits => u64_to_le bits end.
Definition slot_ok (w : slot) : Prop :=
  match w with Vi32 _ => False | Vi64 i => is_i64 i | Vf64 bits => 0 <= bits < 2 ^ 64 end.

Record words_at (b : bytes) (p : Z) (ws : list slot) : Prop := {
  wa_header : bytes_at b p (u32_to_le (blen ws));
  wa_small : is_u32 (blen ws);
  wa_items : forall k w, ws !! k = Some w -> slot_ok w /\ bytes_at b (payload p + 8 * Z.of_nat k) (slot_bytes w);
}.

Lemma slot_bytes_len w : slot_ok w -> blen (slot_bytes w) = 8.
Proof. destruct w; [done|intros _; apply blen_i64|intros _; apply blen_u64]. Qed.

Lemma payload_bounds p : p + 4 <= payload p <= p + 11.
Proof. unfold payload. pose proof (Z.mod_pos_bound (p + 11) 8). lia. Qed.

Lemma words_bounds b p ws :
  words_at b p ws -> 0 <= p /\ p + 4 <= blen b /\ (ws <> [] -> payload p + 8 * blen ws <= blen b).
Proof.
  intros [Hh _ Hi]. pose proof (proj1 Hh). pose proof (bytes_at_bound _ _ _ Hh ltac:(rewrite blen_u32; lia)) as Hb.
  rewrite blen_u32 in Hb. split_and!; [done|done|]. intros Hne.
  destruct (lookup_lt_is_Some_2 ws (length ws - 1)) as [w Hw]; [destruct ws; [done|simpl; lia]|].
  destruct (Hi _ _ Hw) as [Hok Hw']. apply bytes_at_bound in Hw'; rewrite slot_bytes_len in * by done; [|lia].
  unfold blen in *. destruct ws; [done|]. simpl in *. lia.
Qed.

Lemma payload_addr p : 0 <= p -> p + 11 < 2 ^ 32 -> Z.land (p + 11) 4294967288 = payload p.
Proof. intros Hp Hs. change 4294967288 with (2 ^ 32 - 8). by apply align8; lia. Qed.

(** The word at index [k], as [load_elem] reads it. *)
Lemma words_item m p ws k w :
  blen (arena m) < 2 ^ 31 -> words_at (arena m) p ws -> ws !! k = Some w ->
  load m (payload p + Z.of_nat k * 8) 8 = Granted (slot_bytes w) /\ slot_ok w.
Proof.
  intros Ha Hw Hk. destruct (wa_items _ _ _ Hw k w Hk) as [Hok Hb]. split; [|done].
  apply load_ok; [done| |by apply slot_bytes_len|lia]. by rewrite Z.mul_comm.
Qed.

Lemma words_len m p ws :
  blen (arena m) < 2 ^ 31 -> words_at (arena m) p ws ->
  load m p 4 = Granted (u32_to_le (blen ws)) /\ u32_from_le (u32_to_le (blen ws)) = blen ws /\
  0 <= p < 2 ^ 31 /\ p + 4 <= payload p <= p + 11 /\ 0 <= blen ws /\ payload p + 8 * blen ws < 2 ^ 31 + 7.
Proof.
  intros Ha Hw. pose proof (words_bounds _ _ _ Hw) as (Hp & Hb & Hpl). pose proof (payload_bounds p).
  pose proof (blen_nonneg ws). split_and!; [|apply u32_from_to, Hw|lia..|].
  - apply load_ok; [done|apply wa_header, Hw|apply blen_u32|lia].
  - destruct ws as [|w ws]; [change (blen []) with 0; lia|]. specialize (Hpl ltac:(done)). lia.
Qed.
End IrFacts.
