(* ===== verification/IrRecords.v ===== *)
(** Values of the evaluator and what the compiled code sees of them: words on the operand stack,
    records in the arena, and closure handles; and how an arena may grow while code runs. *)

From Stdlib Require Import ZArith Lia Bool.
From coqutil Require Import Byte Word.LittleEndianList.
From stdpp Require Import base list strings.
From S2P Require Import Prelude Bytes SchemaCanonical Layout LayoutFacts Value BufferTypes IndexFacts Reader ReaderFacts VerifiedRead Relocation Encoding.
From S2P Require Import NumberLit Arith Native Ir IrFacts.
Local Open Scope Z_scope.
Local Open Scope abi_scope.

Module IrRecords.
Import Native Ir IrFacts.

(** ** Growing arenas *)

(** The end of the part of the arena in use. *)
Definition top (m : machine) : Z := scratch_base m + scratch_cursor m.

(** [m'] is [m] after code that only wrote to scratch memory it allocated and recorded no trap. *)
Record extends (m m' : machine) : Prop := {
  ext_arena : blen (arena m') = blen (arena m);
  ext_base : scratch_base m' = scratch_base m;
  ext_cursor : scratch_cursor m <= scratch_cursor m';
  ext_same : same_on (arena m) (arena m') 0 (top m);
  ext_trap : trap_code m' = trap_code m;
}.

#[export] Instance extends_preorder : PreOrder extends.
Proof.
  split.
  - intros m. split; [done|done|lia|apply same_on_refl|done].
  - intros m1 m2 m3 [A1 B1 C1 D1 E1] [A2 B2 C2 D2 E2]. split; [congruence|congruence|lia| |congruence].
    eapply same_on_trans; [exact D1|]. eapply same_on_sub; [exact D2|lia|]. unfold top. lia.
Qed.

Lemma extends_bytes m m' off s : extends m m' -> bytes_at (arena m) off s -> off + blen s <= top m -> bytes_at (arena m') off s.
Proof. intros He Hs Hl. eapply bytes_at_same; [exact Hs|apply He|apply Hs|done]. Qed.

Lemma extends_words m m' p ws :
  extends m m' -> words_at (arena m) p ws -> payload p + 8 * blen ws <= top m -> words_at (arena m') p ws.
Proof.
  intros He Hw Hl. pose proof (payload_bounds p). pose proof (blen_nonneg ws). destruct Hw as [Hh Hs Hi]. split; [|done|].
  - eapply extends_bytes; [done|done|]. rewrite blen_u32. lia.
  - intros k w Hk. destruct (Hi k w Hk) as [Hok Hb]. split; [done|]. eapply extends_bytes; [done|done|].
    rewrite slot_bytes_len by done. apply lookup_lt_Some in Hk. unfold blen in *. lia.
Qed.

(** ** Values as words *)

Inductive rep `{HostTypes} : IrType -> Value -> slot -> Prop :=
| rep_int z : is_i64 z -> rep I64 (VInt z) (Vi64 z)
| rep_float bits : 0 <= bits < 2 ^ 64 -> rep F64 (VFloat bits) (Vf64 bits)
| rep_bool (b : bool) : rep Bool (VBool b) (Vi32 (if b then 1 else 0)).

Section Rep.
Context {H : HostTypes} {Img : Image}.

Lemma rep_coerce ty v w : rep ty v w -> coerce ty w = w.
Proof. by intros []. Qed.

(** The loads and stores of the 8-byte elements of a list. *)
Inductive elem : (Z -> Op) -> (Z -> Op) -> IrType -> Prop :=
| elem_int : elem LoadI64AtAbsolute StoreI64AtAbsolute I64
| elem_float : elem LoadF64AtAbsolute StoreF64AtAbsolute F64.

Lemma elem_load powf call_closure fuel ld st ty v w m a s ps L l :
  elem ld st ty -> rep ty v w -> 0 <= a < 2 ^ 32 -> load m a 8 = Granted (slot_bytes w) ->
  exec_seq powf call_closure fuel (ld 0 :: l) (MkFrame (Vi32 a :: s) ps L m) =
  exec_seq powf call_closure fuel l (MkFrame (w :: s) ps L m).
Proof.
  intros [] Hr Ha Hl; inversion Hr; subst; ir_op; rewrite Hl; cbn [slot_bytes]; ir_reduce.
  - by rewrite i64_from_to.
  - by rewrite u64_from_to.
Qed.

Definition word (v : Value) : slot :=
  match v with VInt z => Vi64 z | VFloat bits => Vf64 bits | VBool b => Vi32 (if b then 1 else 0) | _ => Vi32 0 end.

(** A list of 8-byte elements, as the compiled code reads it. *)
Lemma encoded_words b p e ty items lo hi :
  enc_at 0 b p (TList e) (VList items) lo hi -> (e = TInt /\ ty = I64) \/ (e = TFloat /\ ty = F64) ->
  exists ws, Forall2 (rep ty) items ws /\ words_at b p ws /\ payload p + 8 * blen ws <= hi.
Proof.
  intros He Hty.
  assert (scalar_elem e = Some (8, 8) /\ list_payload_is_pointer_array e = false) as [Hsc Hpa] by (by destruct Hty as [[-> _]|[-> _]]).
  inversion He as [|? ? ? size align ps ? ? Hse Hlen Hlo Hh Hps Hpl Hi Hhi| | | |]; subst; try congruence; try done.
  rewrite Hsc in Hse. injection Hse as <- <-. unfold payload_start in Hpl. simpl in Hpl.
  pose proof (proj1 Hh) as Hp. apply checked_next_multiple_of_Some in Hpl as [Hb Hm]; [|lia..].
  rewrite !Z.add_0_l in *. assert (ps = payload p) as ->.
  { unfold payload. pose proof (Z.div_mod ps 8). pose proof (Z.div_mod (p + 11) 8). pose proof (Z.mod_pos_bound (p + 11) 8). lia. }
  assert (exists ws, Forall2 (rep ty) items ws) as [ws Hws].
  { exists (word <$> items). apply Forall2_fmap_r, Forall_Forall2_diag, Forall_lookup. intros k it Hk. specialize (Hi k it Hk).
    destruct Hty as [[-> ->]|[-> ->]]; destruct it; simpl in Hi; try done; constructor; apply Hi. }
  assert (blen ws = blen items) as Hl by (unfold blen; by rewrite (Forall2_length _ _ _ Hws)).
  exists ws. split; [done|]. rewrite Hl. split; [|lia]. split; [by rewrite Hl| |].
  - rewrite Hl. split; [apply blen_nonneg|done].
  - intros k w Hk. destruct (Forall2_lookup_r _ _ _ _ _ Hws Hk) as (it & Hit & Hr). specialize (Hi k it Hit).
    rewrite Z.mul_comm. destruct Hty as [[-> ->]|[-> ->]]; inversion Hr; subst; simpl in Hi |- *; by destruct Hi.
Qed.

(** And back: a record of words is the encoding of its list. *)
Lemma words_encoded b p e ty items ws hi :
  words_at b p ws -> Forall2 (rep ty) items ws -> (e = TInt /\ ty = I64) \/ (e = TFloat /\ ty = F64) ->
  payload p + 8 * blen ws <= hi -> hi <= blen b -> blen b < 2 ^ 31 ->
  enc_at 0 b p (TList e) (VList items) p hi.
Proof.
  intros Hw Hrep Hty Hhi Hb Hs. pose proof (payload_bounds p) as Hpb. pose proof (words_bounds _ _ _ Hw) as (Hp & Hp4 & _).
  pose proof (blen_nonneg ws). assert (blen items = blen ws) as Hl by (unfold blen; by rewrite (Forall2_length _ _ _ Hrep)).
  destruct (checked_next_multiple_of_small (p + 4) 8) as [r Hr]; [lia|lia|change USIZE_MAX with (2 ^ 64 - 1); lia|].
  pose proof (checked_next_multiple_of_Some (p + 4) 8 r ltac:(lia) ltac:(lia) Hr) as [Hrb Hm].
  assert (r = payload p) as ->.
  { unfold payload. pose proof (Z.div_mod r 8). pose proof (Z.div_mod (p + 11) 8). pose proof (Z.mod_pos_bound (p + 11) 8). lia. }
  apply (ea_scalars 0 b p e items 8 8 (payload p)); [by destruct Hty as [[-> _]|[-> _]]|rewrite Hl; apply Hw|lia|rewrite Hl; apply Hw|lia|done| |lia|lia].
  intros k it Hk. destruct (Forall2_lookup_l _ _ _ _ _ Hrep Hk) as (w & Hwk & Hr'). destruct (wa_items _ _ _ Hw k w Hwk) as [_ Hby].
  rewrite Z.mul_comm. destruct Hty as [[-> ->]|[-> ->]]; inversion Hr'; subst; by split.
Qed.
End Rep.

(** ** Building a record *)

Lemma extends_wrote m m' off src :
  extends m m' -> 0 <= off -> top m <= off -> off + blen src <= blen (arena m') -> extends m (wrote m' off src).
Proof.
  intros [Ea Eb Ec Es Et] H0 Ho Hl. split; unfold wrote; cbn [arena scratch_base scratch_cursor trap_code]; [|done|done| |done].
  - rewrite splice_length; lia.
  - eapply same_on_trans; [exact Es|]. apply splice_same; lia.
Qed.

Lemma extends_alloc m size : 0 <= size -> extends m (MkMachine (arena m) (scratch_base m) (scratch_cursor m + size) (trap_code m)).
Proof. intros Hs. split; cbn [arena scratch_base scratch_cursor trap_code]; [done|done|lia|apply same_on_refl|done]. Qed.

Lemma wrote_length m off src : 0 <= off -> off + blen src <= blen (arena m) -> blen (arena (wrote m off src)) = blen (arena m).
Proof. apply splice_length. Qed.

Lemma alloc_room m size :
  0 <= scratch_base m -> 0 <= scratch_cursor m -> 0 <= size -> blen (arena m) < 2 ^ 31 -> top m + size <= blen (arena m) ->
  alloc_scratch m size = Some (top m, MkMachine (arena m) (scratch_base m) (scratch_cursor m + size) (trap_code m)).
Proof.
  intros Hb Hc Hs Ha Hr. unfold top in *. unfold alloc_scratch. rewrite !wrap32_small by lia.
  by destruct (Z.ltb_spec (blen (arena m)) (scratch_base m + scratch_cursor m + size)); [lia|].
Qed.

(** [m'] is [m] with a record of [size] bytes allocated behind [top m]: the words [outs] are in
    place, and the header too where it is written. *)
Record building (m : machine) (size : Z) (head : option Z) (outs : list slot) (m' : machine) : Prop := {
  bld_ext : extends m m';
  bld_room : top m + size <= top m' <= blen (arena m');
  bld_fits : 0 <= top m /\ 16 + 8 * blen outs <= size;
  bld_head : forall n, head = Some n -> bytes_at (arena m') (top m) (u32_to_le n);
  bld_items : forall k w, outs !! k = Some w -> slot_ok w /\ bytes_at (arena m') (payload (top m) + 8 * Z.of_nat k) (slot_bytes w);
}.

Lemma building_extends m size head outs m' m'' :
  building m size head outs m' -> extends m' m'' -> top m'' <= blen (arena m'') -> building m size head outs m''.
Proof.
  intros [He Hr Hf Hh Hi] He' Ht. pose proof (payload_bounds (top m)). pose proof (blen_nonneg outs).
  pose proof (ext_base _ _ He'). pose proof (ext_cursor _ _ He').
  split; [by etransitivity|unfold top in *; lia|done| |].
  - intros n Hn. eapply extends_bytes; [done|by apply Hh|]. rewrite blen_u32. lia.
  - intros k w Hk. destruct (Hi k w Hk) as [Hok Hb]. split; [done|]. eapply extends_bytes; [done|done|].
    rewrite slot_bytes_len by done. apply lookup_lt_Some in Hk. unfold blen in *. lia.
Qed.

(** A store into the record. *)
Lemma wrote_extends m size head outs m' off src :
  building m size head outs m' -> top m <= off -> off + blen src <= top m + size -> extends m (wrote m' off src).
Proof. intros [He Hr Hf Hh Hi] Ho Hl. apply extends_wrote; [done|lia|done|lia]. Qed.

Lemma memcpy_ok m dest src bs :
  blen (arena m) < 2 ^ 31 -> bytes_at (arena m) src bs -> src + blen bs <= blen (arena m) -> 0 <= dest -> dest + blen bs <= blen (arena m) ->
  src + blen bs <= dest \/ dest + blen bs <= src -> memcpy m dest src (blen bs) = Granted (wrote m dest bs).
Proof.
  intros Ha Hs Hse Hd Hde Hdis. pose proof (blen_nonneg bs). pose proof (proj1 Hs) as Hs0. unfold memcpy. rewrite !wrap32_small by lia.
  destruct (Z.ltb_spec (blen (arena m)) (dest + blen bs)); [lia|]. destruct (Z.ltb_spec (blen (arena m)) (src + blen bs)); [lia|].
  destruct (Z.leb_spec (dest + blen bs) (blen (arena m))); [|lia]. destruct (Z.leb_spec (src + blen bs) (blen (arena m))); [|lia].
  cbn [orb andb negb]. destruct (Z.ltb_spec 0 (blen bs)), (Z.ltb_spec dest (src + blen bs)), (Z.ltb_spec src (dest + blen bs)); try lia.
  all: cbn [andb]; unfold wrote; do 3 f_equal; pose proof (bytes_at_slice (E := unit) _ _ _ Hs Hse) as Hsl;
    by apply slice_ok in Hsl as (_ & _ & _ & Ht).
Qed.

Lemma bytes_at_join b off s t : bytes_at b off s -> bytes_at b (off + blen s) t -> bytes_at b off (s ++ t).
Proof.
  intros [Ho Hs] [_ Ht]. split; [done|]. intros i x [Hx|[Hi Hx]]%lookup_app_Some; [by apply Hs|]. specialize (Ht _ _ Hx).
  rewrite <-Ht. f_equal. unfold blen. lia.
Qed.

Lemma wrote_keeps m off src off' s :
  0 <= off -> off + blen src <= blen (arena m) -> off' + blen s <= off \/ off + blen src <= off' ->
  bytes_at (arena m) off' s -> bytes_at (arena (wrote m off src)) off' s.
Proof. intros Ho Hl Hd Hs. eapply bytes_at_same; [exact Hs|by apply (splice_same _ _ _ off' (off' + blen s))|lia|lia]. Qed.

Lemma building_push m size head outs m' w :
  building m size head outs m' -> slot_ok w -> 24 + 8 * blen outs <= size ->
  building m size head (outs ++ [w]) (wrote m' (payload (top m) + 8 * blen outs) (slot_bytes w)).
Proof.
  intros Hb Hok Hs. pose proof (payload_bounds (top m)). pose proof (blen_nonneg outs). pose proof (slot_bytes_len w Hok) as Hl.
  pose proof (wrote_extends _ _ _ _ _ (payload (top m) + 8 * blen outs) (slot_bytes w) Hb ltac:(lia) ltac:(lia)) as Hext.
  destruct Hb as [He Hr Hf Hh Hi]. split; [done| | | |].
  - change (top (wrote m' ?o ?x)) with (top m'). unfold wrote; cbn [arena]. rewrite splice_length; lia.
  - unfold blen in *. rewrite length_app. simpl. lia.
  - intros n Hn. apply wrote_keeps; [lia|lia| |by apply Hh]. rewrite blen_u32. lia.
  - intros k w' Hk. apply lookup_app_Some in Hk as [Hk|[Hge Hk]].
    + destruct (Hi k w' Hk) as [Hok' Hb']. split; [done|]. apply wrote_keeps; [lia|lia| |done].
      rewrite slot_bytes_len by done. apply lookup_lt_Some in Hk. unfold blen in *. lia.
    + apply list_lookup_singleton_Some in Hk as [Hz <-]. split; [done|].
      replace (Z.of_nat k) with (blen outs) by (unfold blen; lia). apply splice_at; lia.
Qed.

Lemma building_head m size head outs m' n :
  building m size head outs m' -> building m size (Some n) outs (wrote m' (top m) (u32_to_le n)).
Proof.
  intros Hb. pose proof (payload_bounds (top m)). pose proof (blen_nonneg outs).
  pose proof (bld_fits _ _ _ _ _ Hb).
  pose proof (wrote_extends _ _ _ _ _ (top m) (u32_to_le n) Hb ltac:(lia) ltac:(rewrite blen_u32; lia)) as Hext.
  destruct Hb as [He Hr Hf Hh Hi]. pose proof (blen_u32 n). split; [done| |done| |].
  - change (top (wrote m' ?o ?x)) with (top m'). unfold wrote; cbn [arena]. rewrite splice_length; lia.
  - intros n' [= <-]. apply splice_at; lia.
  - intros k w Hk. destruct (Hi k w Hk) as [Hok Hb]. split; [done|]. apply wrote_keeps; [lia|lia|lia|done].
Qed.

Lemma building_done m size outs m' :
  building m size (Some (blen outs)) outs m' -> blen (arena m') < 2 ^ 31 -> words_at (arena m') (top m) outs.
Proof.
  intros [He Hr Hf Hh Hi] Ha. split; [by apply Hh| |done]. split; [apply blen_nonneg|]. unfold U32_MAX. pose proof (blen_nonneg outs). lia.
Qed.

Lemma building_start m size :
  0 <= scratch_base m -> 0 <= scratch_cursor m -> 16 <= size -> top m + size <= blen (arena m) ->
  building m size None [] (MkMachine (arena m) (scratch_base m) (scratch_cursor m + size) (trap_code m)).
Proof.
  intros Hb Hc Hs Hr. split; try done; unfold top in *; cbn [arena scratch_base scratch_cursor]; [apply extends_alloc; lia|lia|change (blen []) with 0; lia].
Qed.

Lemma elem_store `{HostTypes} `{Image} powf call_closure fuel ld st ty v w m a s ps L l :
  elem ld st ty -> rep ty v w -> blen (arena m) < 2 ^ 31 -> 0 <= a -> a + 8 <= blen (arena m) ->
  exec_seq powf call_closure fuel (st 0 :: l) (MkFrame (w :: Vi32 a :: s) ps L m) =
  exec_seq powf call_closure fuel l (MkFrame s ps L (wrote m a (slot_bytes w))).
Proof.
  intros [] Hr Hs Ha Hl; inversion Hr; subst; ir_op; unfold slot_bytes; by rewrite store_ok.
Qed.

(** ** Closures *)

Section Closures.
Context {H : HostTypes} {TokenRange : Type} {Caps : NativeFnCaps TokenRange}.
Context {Img : Image} (powf : Z -> Z -> Z) (call_closure : Z -> Z -> list slot -> machine -> closure_result) (fuel : nat).

(** The closure handle [h] of a machine that extends [m] does what the closure [func] of the
    evaluator does: where the evaluator returns, so does the compiled code, with the same value. *)
Definition simulates (m : machine) (h : Z) (func : Value) (param_tys : list IrType) (ret_ty : IrType) (range : TokenRange) : Prop :=
  exists fn caps, is_u32 fn /\ is_u32 caps /\ h + 8 <= top m /\ bytes_at (arena m) h (u32_to_le fn ++ u32_to_le caps) /\
    forall m' args ws w v w', extends m m' -> top m' <= blen (arena m') -> Forall3 rep param_tys args ws ->
      call_relon func args range w = (Ok v, w') ->
      exists r m'', call_closure fn caps ws m' = Returned r m'' /\ rep ret_ty v r /\ extends m' m'' /\ top m'' <= blen (arena m'').

Lemma seq_closure m h func param_tys ret_ty range m' args ws w v w' :
  simulates m h func param_tys ret_ty range -> blen (arena m) < 2 ^ 31 -> extends m m' -> top m' <= blen (arena m') ->
  Forall3 rep param_tys args ws -> call_relon func args range w = (Ok v, w') ->
  exists r m'', rep ret_ty v r /\ extends m' m'' /\ top m'' <= blen (arena m'') /\
    forall l stk s ps L, stk = rev ws ++ Vi32 h :: s ->
      exec_seq powf call_closure fuel (CallClosure param_tys ret_ty :: l) (MkFrame stk ps L m') =
      exec_seq powf call_closure fuel l (MkFrame (r :: s) ps L m'').
Proof.
  intros (fn & caps & Hfn & Hcaps & Hh & Hb & Hsim) Ha He Ht Hargs Hc.
  destruct (Hsim m' args ws w v w' He Ht Hargs Hc) as (r & m'' & Hr & Hrep & He' & Ht'). exists r, m''. split_and!; [done..|]. intros l stk s ps L ->.
  pose proof (ext_arena _ _ He) as Hea. rewrite seq_call. cbn [step]. unfold call_closure_op. cbn [stack mach].
  assert (length param_tys = length (rev ws)) as -> by (rewrite length_rev; by apply Forall3_length_lr in Hargs).
  rewrite skipn_app, skipn_all, Nat.sub_diag. cbn [app skipn].
  rewrite firstn_app, firstn_all, Nat.sub_diag, firstn_0, app_nil_r, rev_involutive.
  rewrite (load_ok _ _ (u32_to_le fn ++ u32_to_le caps)); [| lia | |done|lia].
  - cbn [after]. change (firstn 4 (u32_to_le fn ++ u32_to_le caps)) with (u32_to_le fn).
    change (skipn 4 (u32_to_le fn ++ u32_to_le caps)) with (u32_to_le caps). rewrite !u32_from_to by done. by rewrite Hr.
  - eapply extends_bytes; [done|done|]. change (blen (u32_to_le fn ++ u32_to_le caps)) with 8. lia.
Qed.
End Closures.
End IrRecords.
