(* ===== verification/IrLists.v ===== *)
(** The compiled list functions agree with the evaluator's. *)

From Stdlib Require Import ZArith Lia Bool.
From coqutil Require Import Byte Word.LittleEndianList.
From stdpp Require Import base list strings gmap.
From S2P Require Import Prelude Bytes SchemaCanonical Layout LayoutFacts Value BufferTypes IndexFacts Reader ReaderFacts VerifiedRead Relocation.
From S2P Require Import Encoding NumberLit Arith StdLists StdMath Native StdFacts Ir IrStdlib IrFacts IrRecords.
Local Open Scope Z_scope.
Local Open Scope abi_scope.

Module IrLists.
Import Native StdLists Ir IrFacts IrRecords.

Section Lists.
Context {Img : Image} (powf : Z -> Z -> Z) (call_closure : Z -> Z -> list slot -> machine -> closure_result) (fuel : nat).

Lemma sum_body {H : HostTypes} {TokenRange : Type} {Caps : NativeFnCaps TokenRange} m p zs (range : TokenRange) w :
  blen (arena m) < 2 ^ 31 -> words_at (arena m) p (Vi64 <$> zs) -> (length zs < fuel)%nat ->
  Ir.call powf call_closure fuel IrStdlib.list_int_sum_body [Vi32 p] m =
    match fst (StdLists.sum_ints 0 (map VInt zs) range w) with
    | Ok z => Done (Vi64 z) m
    | _ => Trapped Overflow
    end.
Proof.
  intros Ha Hw Hf. pose proof (words_len _ _ _ Ha Hw) as (Hl & Hn & Hp & Hpb & Hnn & He). rewrite !blen_fmap in *.
  assert (blen zs = Z.of_nat (length zs)) as Hlen by done.
  set (R := match fst (sum_ints _ _ _ _) with Ok _ => _ | _ => _ end).
  unfold call, IrStdlib.list_int_sum_body. cbv zeta. ir_run. rewrite Hl. ir_reduce. ir_run. rewrite payload_addr, Hn by lia.
  apply (seq_scan _ _ _ (length zs) (fun i L m' => m' = m /\ L 0%nat = Some (Vi32 (blen zs)) /\ L 1%nat = Some (Vi32 (Z.of_nat i)) /\
    L 3%nat = Some (Vi32 (payload p)) /\ exists acc, L 2%nat = Some (Vi64 acc) /\ is_i64 acc /\
    sum_ints acc (map VInt (drop i zs)) range w = sum_ints 0 (map VInt zs) range w) (fun r => r = R) _ _ _ 0%nat); [|lia| |done].
  2:{ ir_inv. exists 0. ir_inv. }
  intros i L m' Hi (-> & L0 & L1 & L3 & acc & L2 & Hacc & Hs).
  ir_run. destruct (Z.geb_spec (Z.of_nat i) (blen zs)); ir_reduce.
  { ir_run. unfold R. by rewrite <-Hs, drop_ge by lia. }
  destruct (lookup_lt_is_Some_2 zs i) as [x Hx]; [lia|]. rewrite (drop_S _ x) in Hs by done.
  destruct (words_item _ _ _ i (Vi64 x) Ha Hw) as [Hld Hok]; [by rewrite list_lookup_fmap, Hx|]. cbn [slot_ok] in Hok.
  ir_run. rewrite Hld. ir_reduce. cbn [slot_bytes]. rewrite i64_from_to by done. ir_run. 
  destruct (Z.geb_spec x 0); cbn [negb].
  - ir_run. destruct (Z.gtb_spec acc (2 ^ 63 - 1 - x)); ir_reduce; ir_run.
    + unfold R. rewrite <-Hs. cbn [map sum_ints]. rewrite checked_out; [done|unfold is_i64; lia].
    + ir_inv. exists (acc + x). ir_inv. rewrite <-Hs. cbn [map sum_ints]. by rewrite checked_in by (unfold is_i64 in *; lia).
  - ir_run. destruct (Z.ltb_spec acc (- 2 ^ 63 - x)); ir_reduce; ir_run.
    + unfold R. rewrite <-Hs. cbn [map sum_ints]. rewrite checked_out; [done|unfold is_i64; lia].
    + ir_inv. exists (acc + x). ir_inv. rewrite <-Hs. cbn [map sum_ints]. by rewrite checked_in by (unfold is_i64 in *; lia).
Qed.
(** [max] and [min] keep the better of the accumulator and the element. *)
Definition better (is_max : bool) (x acc : Z) : bool := if is_max then acc <? x else x <? acc.
Definition better_op (is_max : bool) : Op := if is_max then Gt I64 else Lt I64.
Definition extremum_code (is_max : bool) : list Op :=
  let N := 0%nat in
  let I := 1%nat in
  let ACC := 2%nat in
  let PAYLOAD := 3%nat in
  let VAL := 4%nat in
  [LocalGet 0; LoadI32AtAbsolute 0; LetSet N I32; LetGet N I32; ConstI32 0; Eq I32;
   If I32
     [Trap EmptyList; ConstI32 0]
     [ConstI32 0];
   LetSet I I32; LocalGet 0; ConstI32 (4 + 7); Add I32; ConstI32 (-8); BitAnd I32; LetSet PAYLOAD I32;
   LetGet PAYLOAD I32; LoadI64AtAbsolute 0; LetSet ACC I64; ConstI32 1; LetSet I I32;
   Block None
     [Loop None
         [LetGet I I32; LetGet N I32; Ge I32; BrIf 1; LetGet PAYLOAD I32; LetGet I I32; ConstI32 8; Mul I32;
           Add I32; LoadI64AtAbsolute 0; LetSet VAL I64; LetGet VAL I64; LetGet ACC I64; LetGet VAL I64;
           LetGet ACC I64; better_op is_max; Select I64; LetSet ACC I64; LetGet I I32; ConstI32 1; Add I32;
           LetSet I I32; Br 0]];
   LetGet ACC I64; Return].

Lemma max_code : IrStdlib.list_int_max_body = extremum_code true.
Proof. reflexivity. Qed.
Lemma min_code : IrStdlib.list_int_min_body = extremum_code false.
Proof. reflexivity. Qed.

Lemma seq_better is_max l x acc s ps L m :
  exec_seq powf call_closure fuel (better_op is_max :: l) (MkFrame (Vi64 acc :: Vi64 x :: s) ps L m) =
  exec_seq powf call_closure fuel l (MkFrame (Vi32 (if better is_max x acc then 1 else 0) :: s) ps L m).
Proof. destruct is_max; unfold better_op; ir_op; [rewrite Z.gtb_ltb|]; done. Qed.

Lemma extremum_body {H : HostTypes} {TokenRange : Type} {Caps : NativeFnCaps TokenRange} is_max m p z zs (range : TokenRange) w :
  blen (arena m) < 2 ^ 31 -> words_at (arena m) p (Vi64 <$> z :: zs) -> (S (length zs) < fuel)%nat ->
  Ir.call powf call_closure fuel (extremum_code is_max) [Vi32 p] m =
    match fst (extremum_ints (better is_max) z (map VInt zs) range w) with Ok z => Done (Vi64 z) m | _ => Stuck end.
Proof.
  intros Ha Hw Hf. pose proof (words_len _ _ _ Ha Hw) as (Hl & Hn & Hp & Hpb & Hnn & He). rewrite !blen_fmap in *.
  assert (blen (z :: zs) = Z.of_nat (S (length zs))) as Hlen by done.
  set (R := match fst (extremum_ints _ _ _ _ _) with Ok _ => _ | _ => _ end).
  destruct (words_item _ _ _ 0 (Vi64 z) Ha Hw) as [Hld0 Hok0]; [done|]. rewrite Z.mul_0_l, Z.add_0_r in Hld0. cbn [slot_bytes] in Hld0.
  unfold call, extremum_code; cbv zeta. ir_run. rewrite Hl. ir_run. rewrite Hn. destruct (Z.eqb_spec (blen (z :: zs)) 0); [lia|].
  ir_run. rewrite payload_addr by lia. ir_run. rewrite Hld0. ir_run. rewrite i64_from_to by done.
  apply (seq_scan _ _ _ (S (length zs)) (fun i L m' => m' = m /\ L 0%nat = Some (Vi32 (blen (z :: zs))) /\ L 1%nat = Some (Vi32 (Z.of_nat i)) /\
    L 3%nat = Some (Vi32 (payload p)) /\ exists acc, L 2%nat = Some (Vi64 acc) /\ (1 <= i)%nat /\ 
    extremum_ints (better is_max) acc (map VInt (drop i (z :: zs))) range w = extremum_ints (better is_max) z (map VInt zs) range w) 
     (fun r => r = R) _ _ _ 1%nat); [|lia| |lia].
  2:{ ir_inv. exists z. ir_inv. }
  intros i L m' Hi (-> & L0 & L1 & L3 & acc & L2 & Hi1 & Hs). 
  ir_run. destruct (Z.geb_spec (Z.of_nat i) (blen (z :: zs))).
  { ir_run. unfold R. by rewrite <-Hs, drop_ge by (simpl; lia). }
  destruct (lookup_lt_is_Some_2 (z :: zs) i) as [x Hx]; [simpl; lia|]. rewrite (drop_S _ x) in Hs by done.
  destruct (words_item _ _ _ i (Vi64 x) Ha Hw) as [Hld Hok]; [by rewrite list_lookup_fmap, Hx|]. cbn [slot_bytes slot_ok] in *.
  ir_run. rewrite Hld. ir_run. rewrite i64_from_to by done. rewrite seq_better. ir_run. ir_inv.
  exists (if better is_max x acc then x else acc). ir_inv.
  by destruct (better is_max x acc).
Qed.

(** ** Loops that call back *)

Context {H : HostTypes} {TokenRange : Type} {Caps : NativeFnCaps TokenRange}.

Lemma bind_ok_inv {A B} (x : Call A) (k : A -> Call B) w b w' :
  bind x k w = (Ok b, w') -> exists a w1, x w = (Ok a, w1) /\ k a w1 = (Ok b, w').
Proof. unfold bind. destruct (x w) as [[a|e|] w1]; intros Hx; try done. by exists a, w1. Qed.

Lemma fold_body ld st ty m p h items ws func acc0 a0 (range : TokenRange) w0 v w' :
  elem ld st ty -> blen (arena m) < 2 ^ 31 -> top m <= blen (arena m) ->
  words_at (arena m) p ws -> payload p + 8 * blen ws <= top m -> Forall2 (rep ty) items ws -> rep ty acc0 a0 ->
  simulates call_closure m h func [ty; ty] ty range -> (length ws < fuel)%nat ->
  reduce_loop func acc0 items range w0 = (Ok v, w') ->
  exists r m', Ir.call powf call_closure fuel (IrStdlib.list_fold_body_typed ld ty) [Vi32 p; a0; Vi32 h] m = Done r m' /\
    rep ty v r /\ extends m m'.
Proof.
  intros Hel Ha Ht Hw Hin Hrep Hacc Hsim Hf Hred. pose proof (words_len _ _ _ Ha Hw) as (Hl & Hn & Hp & Hpb & Hnn & He).
  pose proof (Forall2_length _ _ _ Hrep) as Hlen. assert (blen ws = Z.of_nat (length ws)) as Hlw by done.
  unfold call, IrStdlib.list_fold_body_typed; cbv zeta. ir_run. rewrite Hl. ir_run. rewrite payload_addr, Hn, (rep_coerce _ _ _ Hacc) by lia.
  apply (seq_scan _ _ _ (length ws) (fun i L m' => extends m m' /\ top m' <= blen (arena m') /\ L 0%nat = Some (Vi32 (blen ws)) /\ L 1%nat = Some (Vi32 (Z.of_nat i)) /\
    L 2%nat = Some (Vi32 (payload p)) /\ exists acc a w1, L 3%nat = Some a /\ rep ty acc a /\ reduce_loop func acc (drop i items) range w1 = (Ok v, w'))
    (fun r => exists r' m', r = Done r' m' /\ rep ty v r' /\ extends m m') _ _ _ 0%nat); [|lia| |done].
  2:{ ir_inv. by exists acc0, a0, w0. }
  clear Hred Hacc. intros i L m' Hi (Hext & Ht' & L0 & L1 & L2 & acc & a & w & L3 & Hacc & Hred).
  ir_run. destruct (Z.geb_spec (Z.of_nat i) (blen ws)).
  { ir_run. rewrite drop_ge in Hred by lia. injection Hred as <- <-. by exists a, m'. }
  destruct (lookup_lt_is_Some_2 ws i) as [x Hx]; [lia|]. destruct (Forall2_lookup_r _ _ _ _ _ Hrep Hx) as (it & Hit & Hrx).
  rewrite (drop_S _ it) in Hred by done. cbn [reduce_loop] in Hred.
  apply bind_ok_inv in Hred as ([] & w1 & _ & Hred). apply bind_ok_inv in Hred as (acc' & w2 & Hcall & Hred).
  pose proof (extends_words _ _ _ _ Hext Hw Hin) as Hw'. pose proof (ext_arena _ _ Hext) as Hea.
  destruct (words_item m' _ _ i x ltac:(lia) Hw' Hx) as [Hld Hok].
  ir_run. erewrite elem_load by (done || lia).
  destruct (seq_closure powf call_closure fuel m h func [ty; ty] ty range m' [acc; it] [a; x] w1 acc' w2 Hsim)
    as (r & m'' & Hr & He'' & Ht'' & Hst); [done|done|done|by repeat constructor|done|].
  erewrite Hst by done. ir_run. rewrite (rep_coerce _ _ _ Hr). ir_inv; [by etransitivity|]. by exists acc', r, w2.
Qed.

(** The test of [every] ([stop = false]) and [some] ([stop = true]): the loop ends at an element
    whose verdict is [stop]. *)
Definition verdict (stop : bool) : Op :=
  If I32 (if stop then [ConstI32 1; LetSet 4 I32; ConstI32 1] else [ConstI32 0])
         (if stop then [ConstI32 0] else [ConstI32 0; LetSet 4 I32; ConstI32 1]).
Definition pred_code (load_elem : Z -> Op) (param_ty : IrType) (stop : bool) : list Op :=
  [LocalGet 0; LoadI32AtAbsolute 0; LetSet 0 I32; LocalGet 0; ConstI32 (4 + 7); Add I32; ConstI32 (-8); BitAnd I32;
   LetSet 2 I32; ConstI32 0; LetSet 1 I32; ConstI32 (if stop then 0 else 1); LetSet 4 I32;
   Block None
     [Loop None
         [LetGet 1 I32; LetGet 0 I32; Ge I32; BrIf 1; LetGet 2 I32; LetGet 1 I32; ConstI32 8; Mul I32; Add I32;
           load_elem 0; LetSet 3 param_ty; LocalGet 1; LetGet 3 param_ty; CallClosure [param_ty] Bool;
           verdict stop;
           BrIf 1; LetGet 1 I32; ConstI32 1; Add I32; LetSet 1 I32; Br 0]];
   LetGet 4 I32; ConstI32 0; Ne I32; Return].

Lemma pred_code_eq ld ty stop : IrStdlib.list_pred_body_typed ld ty (negb stop) = pred_code ld ty stop.
Proof. by destruct stop. Qed.

Lemma seq_verdict (stop b : bool) l s ps L m :
  exec_seq powf call_closure fuel (verdict stop :: l) (MkFrame (Vi32 (if b then 1 else 0) :: s) ps L m) =
  exec_seq powf call_closure fuel l (MkFrame (Vi32 (if Bool.eqb b stop then 1 else 0) :: s) ps
    (if Bool.eqb b stop then upd L 4 (Vi32 (if stop then 1 else 0)) else L) m).
Proof. destruct stop, b; unfold verdict; by ir_run. Qed.

Lemma pred_body ld st ty (stop : bool) m p h items ws func (range : TokenRange) w0 v w' :
  elem ld st ty -> blen (arena m) < 2 ^ 31 -> top m <= blen (arena m) ->
  words_at (arena m) p ws -> payload p + 8 * blen ws <= top m -> Forall2 (rep ty) items ws ->
  simulates call_closure m h func [ty] Bool range -> (length ws < fuel)%nat ->
  quantifier_loop stop func items range w0 = (Ok v, w') ->
  exists r m', Ir.call powf call_closure fuel (IrStdlib.list_pred_body_typed ld ty (negb stop)) [Vi32 p; Vi32 h] m = Done r m' /\
    rep Bool v r /\ extends m m'.
Proof.
  intros Hel Ha Ht Hw Hin Hrep Hsim Hf Hred. pose proof (words_len _ _ _ Ha Hw) as (Hl & Hn & Hp & Hpb & Hnn & He).
  pose proof (Forall2_length _ _ _ Hrep) as Hlen. assert (blen ws = Z.of_nat (length ws)) as Hlw by done.
  rewrite pred_code_eq. unfold call, pred_code; cbv zeta. 
  ir_run; rewrite Hl; ir_run; rewrite payload_addr, Hn by lia.
  apply (seq_scan _ _ _ (length ws) (fun i L m' => extends m m' /\ top m' <= blen (arena m') /\ L 0%nat = Some (Vi32 (blen ws)) /\ L 1%nat = Some (Vi32 (Z.of_nat i)) /\
    L 2%nat = Some (Vi32 (payload p)) /\ L 4%nat = Some (Vi32 (if stop then 0 else 1)) /\ exists w1, quantifier_loop stop func (drop i items) range w1 = (Ok v, w'))
    (fun r => exists r' m', r = Done r' m' /\ rep Bool v r' /\ extends m m') _ _ _ 0%nat); [|lia| |done].
  2:{ ir_inv; [by destruct stop|]. by exists w0. }
  clear Hred. intros i L m' Hi (Hext & Ht' & L0 & L1 & L2 & L4 & w & Hred).
  ir_run. destruct (Z.geb_spec (Z.of_nat i) (blen ws)).
  { ir_run. rewrite drop_ge in Hred by lia. injection Hred as <- <-. do 2 eexists. split_and!; [done|by destruct stop; constructor|done]. }
  destruct (lookup_lt_is_Some_2 ws i) as [x Hx]; [lia|]. destruct (Forall2_lookup_r _ _ _ _ _ Hrep Hx) as (it & Hit & Hrx).
  rewrite (drop_S _ it) in Hred by done. cbn [quantifier_loop] in Hred.
  apply bind_ok_inv in Hred as ([] & w1 & _ & Hred). apply bind_ok_inv in Hred as (b & w2 & Hcall & Hred).
  pose proof (extends_words _ _ _ _ Hext Hw Hin) as Hw'. pose proof (ext_arena _ _ Hext) as Hea.
  destruct (words_item m' _ _ i x ltac:(lia) Hw' Hx) as [Hld Hok].
  ir_run. erewrite elem_load by (done || lia). ir_run. rewrite (rep_coerce _ _ _ Hrx).
  destruct (seq_closure powf call_closure fuel m h func [ty] Bool range m' [it] [x] w1 b w2 Hsim)
    as (r & m'' & Hr & He'' & Ht'' & Hst); [done|done|done|by repeat constructor|done|].
  erewrite Hst by done. inversion Hr; subst. rewrite seq_verdict. ir_run. destruct (Bool.eqb b0 stop) eqn:Eb; ir_run.
  - injection Hred as <- <-. do 2 eexists. split_and!; [done|by destruct stop; constructor|by etransitivity].
  - ir_inv; [by etransitivity|by exists w2].
Qed.

(** [map] and [filter] write a new record behind [top m]. *)
Lemma map_body ld st ld' st' ty ty' m p h items ws func (range : TokenRange) w0 vs w' :
  elem ld st ty -> elem ld' st' ty' -> blen (arena m) < 2 ^ 31 -> 0 <= scratch_base m -> 0 <= scratch_cursor m ->
  top m + 16 + 8 * blen ws <= blen (arena m) ->
  words_at (arena m) p ws -> payload p + 8 * blen ws <= top m -> Forall2 (rep ty) items ws ->
  simulates call_closure m h func [ty] ty' range -> (length ws < fuel)%nat ->
  map_loop func items range w0 = (Ok vs, w') ->
  exists rs m', Ir.call powf call_closure fuel (IrStdlib.list_map_body_typed ld st' ty ty') [Vi32 p; Vi32 h] m = Done (Vi32 (top m)) m' /\
    Forall2 (rep ty') vs rs /\ words_at (arena m') (top m) rs /\ extends m m'.
Proof.
  intros Hel Hel' Ha Hb0 Hc0 Hroom Hw Hin Hrep Hsim Hf Hred. pose proof (words_len _ _ _ Ha Hw) as (Hl & Hn & Hp & Hpb & Hnn & He).
  pose proof (Forall2_length _ _ _ Hrep) as Hlen. assert (blen ws = Z.of_nat (length ws)) as Hlw by done.
  pose proof (payload_bounds (top m)). assert (0 <= top m) by (unfold top; lia).
  pose proof (building_start m (16 + blen ws * 8) Hb0 Hc0 ltac:(lia) ltac:(lia)) as Hbld.
  unfold call, IrStdlib.list_map_body_typed; cbv zeta. 
  ir_run; rewrite Hl; ir_run. rewrite Hn. ir_run. rewrite alloc_room by lia. ir_run. rewrite store_ok by (cbn [arena]; rewrite ?blen_u32; lia). ir_run. rewrite !payload_addr by lia.
  apply (building_head _ _ _ _ _ (blen ws)) in Hbld.
  apply (seq_scan _ _ _ (length ws) (fun i L m' => L 0%nat = Some (Vi32 (blen ws)) /\ L 1%nat = Some (Vi32 (Z.of_nat i)) /\
    L 2%nat = Some (Vi32 (payload p)) /\ L 3%nat = Some (Vi32 (payload (top m))) /\ L 4%nat = Some (Vi32 (top m)) /\
    exists done_ outs rest w1, building m (16 + blen ws * 8) (Some (blen ws)) outs m' /\ length outs = i /\ Forall2 (rep ty') done_ outs /\
      map_loop func (drop i items) range w1 = (Ok rest, w') /\ vs = done_ ++ rest)
    (fun r => exists rs m', r = Done (Vi32 (top m)) m' /\ Forall2 (rep ty') vs rs /\ words_at (arena m') (top m) rs /\ extends m m') _ _ _ 0%nat); [|lia| |done].
  2:{ ir_inv. exists [], [], vs, w0. by split_and!. }
  clear Hred Hbld. intros i L m' Hi (L0 & L1 & L2 & L3 & L4 & dn & outs & rest & w & Hbld & Ho & Hd & Hred & Hvs).
  pose proof (ext_arena _ _ (bld_ext _ _ _ _ _ Hbld)) as Hea.
  ir_run. destruct (Z.geb_spec (Z.of_nat i) (blen ws)).
  { ir_run. rewrite drop_ge in Hred by lia. injection Hred as <- <-. rewrite app_nil_r in Hvs. subst dn. exists outs, m'. split_and!; try done.
    - eapply building_done; [|lia]. by replace (blen outs) with (blen ws) by (unfold blen in *; lia).
    - apply Hbld. }
  destruct (lookup_lt_is_Some_2 ws i) as [x Hx]; [lia|]. destruct (Forall2_lookup_r _ _ _ _ _ Hrep Hx) as (it & Hit & Hrx).
  rewrite (drop_S _ it) in Hred by done. cbn [map_loop] in Hred.
  apply bind_ok_inv in Hred as ([] & w1 & _ & Hred). apply bind_ok_inv in Hred as (b & w2 & Hcall & Hred). 
  apply bind_ok_inv in Hred as (rest' & w3 & Hrest & [= <- <-]).
  pose proof (extends_words _ _ _ _ (bld_ext _ _ _ _ _ Hbld) Hw Hin) as Hw'.
  destruct (words_item m' _ _ i x ltac:(lia) Hw' Hx) as [Hld Hok].
  ir_run. erewrite elem_load by (done || lia).
  destruct (seq_closure powf call_closure fuel m h func [ty] ty' range m' [it] [x] w1 b w2 Hsim)
    as (r & m'' & Hr & He'' & Ht'' & Hst); [done|apply Hbld|apply Hbld|by repeat constructor|done|].
  erewrite Hst by done. pose proof (building_extends _ _ _ _ _ _ Hbld He'' Ht'') as Hbld'.
  pose proof (ext_arena _ _ (bld_ext _ _ _ _ _ Hbld')) as Hea'.
  erewrite elem_store; [|done|done|lia|lia|lia].
  ir_run. ir_inv. exists (dn ++ [b]), (outs ++ [r]), rest', w2. split_and!; [|rewrite length_app; simpl; lia|by apply Forall2_app; [|by repeat constructor]|done|by rewrite <-app_assoc].
  replace (Z.of_nat i * 8) with (8 * blen outs) by (unfold blen; lia). apply building_push; [done| |unfold blen in *; lia].
  inversion Hr; subst; by inversion Hel'.
Qed.

Lemma filter_body ld st ty m p h items ws func (range : TokenRange) w0 vs w' :
  elem ld st ty -> blen (arena m) < 2 ^ 31 -> 0 <= scratch_base m -> 0 <= scratch_cursor m ->
  top m + 16 + 8 * blen ws <= blen (arena m) ->
  words_at (arena m) p ws -> payload p + 8 * blen ws <= top m -> Forall2 (rep ty) items ws ->
  simulates call_closure m h func [ty] Bool range -> (length ws < fuel)%nat ->
  filter_loop func items range w0 = (Ok vs, w') ->
  exists rs m', Ir.call powf call_closure fuel (IrStdlib.list_filter_body_typed ld st ty ty) [Vi32 p; Vi32 h] m = Done (Vi32 (top m)) m' /\
    Forall2 (rep ty) vs rs /\ words_at (arena m') (top m) rs /\ extends m m'.
Proof.
  intros Hel Ha Hb0 Hc0 Hroom Hw Hin Hrep Hsim Hf Hred. pose proof (words_len _ _ _ Ha Hw) as (Hl & Hn & Hp & Hpb & Hnn & He).
  pose proof (Forall2_length _ _ _ Hrep) as Hlen. assert (blen ws = Z.of_nat (length ws)) as Hlw by done.
  pose proof (payload_bounds (top m)). assert (0 <= top m) by (unfold top; lia).
  pose proof (building_start m (16 + blen ws * 8) Hb0 Hc0 ltac:(lia) ltac:(lia)) as Hbld.
  unfold call, IrStdlib.list_filter_body_typed; cbv zeta.
  ir_run; rewrite Hl; ir_run. rewrite Hn. ir_run. rewrite alloc_room by lia. ir_run. rewrite !payload_addr by lia.
  apply (seq_scan _ _ _ (length ws) (fun i L m' => L 0%nat = Some (Vi32 (blen ws)) /\ L 1%nat = Some (Vi32 (Z.of_nat i)) /\
    L 2%nat = Some (Vi32 (payload p)) /\ L 3%nat = Some (Vi32 (payload (top m))) /\ L 4%nat = Some (Vi32 (top m)) /\
    exists done_ outs rest w1, building m (16 + blen ws * 8) None outs m' /\ L 5%nat = Some (Vi32 (blen outs)) /\ (length outs <= i)%nat /\
      Forall2 (rep ty) done_ outs /\ filter_loop func (drop i items) range w1 = (Ok rest, w') /\ vs = done_ ++ rest)
    (fun r => exists rs m', r = Done (Vi32 (top m)) m' /\ Forall2 (rep ty) vs rs /\ words_at (arena m') (top m) rs /\ extends m m') _ _ _ 0%nat); [|lia| |done].
  2:{ ir_inv. exists [], [], vs, w0. by split_and!. }
  clear Hred Hbld. intros i L m' Hi (L0 & L1 & L2 & L3 & L4 & dn & outs & rest & w & Hbld & L5 & Ho & Hd & Hred & Hvs).
  pose proof (ext_arena _ _ (bld_ext _ _ _ _ _ Hbld)) as Hea. assert (blen outs = Z.of_nat (length outs)) as Hlo by done.
  ir_run. destruct (Z.geb_spec (Z.of_nat i) (blen ws)).
  { ir_run. rewrite store_ok by (rewrite ?blen_u32; lia). ir_run. rewrite drop_ge in Hred by lia. injection Hred as <- <-. rewrite app_nil_r in Hvs. subst dn.
    apply (building_head _ _ _ _ _ (blen outs)) in Hbld. do 2 eexists. split_and!; [done|done| |apply Hbld].
    eapply building_done; [done|]. by rewrite (ext_arena _ _ (bld_ext _ _ _ _ _ Hbld)). }
  destruct (lookup_lt_is_Some_2 ws i) as [x Hx]; [lia|]. destruct (Forall2_lookup_r _ _ _ _ _ Hrep Hx) as (it & Hit & Hrx).
  rewrite (drop_S _ it) in Hred by done. cbn [filter_loop] in Hred.
  apply bind_ok_inv in Hred as ([] & w1 & _ & Hred). apply bind_ok_inv in Hred as (b & w2 & Hcall & Hred). 
  apply bind_ok_inv in Hred as (rest' & w3 & Hrest & [= <- <-]).
  pose proof (extends_words _ _ _ _ (bld_ext _ _ _ _ _ Hbld) Hw Hin) as Hw'.
  destruct (words_item m' _ _ i x ltac:(lia) Hw' Hx) as [Hld Hok].
  ir_run. erewrite elem_load by (done || lia). ir_run. rewrite (rep_coerce _ _ _ Hrx).
  destruct (seq_closure powf call_closure fuel m h func [ty] Bool range m' [it] [x] w1 b w2 Hsim)
    as (r & m'' & Hr & He'' & Ht'' & Hst); [done|apply Hbld|apply Hbld|by repeat constructor|done|].
  erewrite Hst by done. pose proof (building_extends _ _ _ _ _ _ Hbld He'' Ht'') as Hbld'.
  pose proof (ext_arena _ _ (bld_ext _ _ _ _ _ Hbld')) as Hea'.
  inversion Hr; subst b r. ir_run. destruct b0; ir_run.
  - erewrite elem_store; [|done|done|lia|lia|lia]. ir_run. ir_inv.
    exists (dn ++ [it]), (outs ++ [x]), rest', w2. 
    assert (blen (outs ++ [x]) = blen outs + 1) by (unfold blen; rewrite length_app; simpl; lia).
    split_and!; [|by do 2 f_equal|rewrite length_app; simpl; lia|by apply Forall2_app; [|by repeat constructor]|done|by rewrite <-app_assoc].
    replace (blen outs * 8) with (8 * blen outs) by lia. apply building_push; [done|done|lia].
  - ir_inv. exists dn, outs, rest', w2. split_and!; try done. lia.
Qed.

(** [unique]: the inner loop looks for an equal element behind the current one. *)
Lemma ordered_eq_sym a b : ordered_eq a b = ordered_eq b a.
Proof.
  unfold ordered_eq, Arith.f64_eq, Arith.f64_compare. destruct (Arith.f64_is_nan a), (Arith.f64_is_nan b); cbn [orb]; try done.
  rewrite (Z.compare_antisym (Arith.f64_key b)). by destruct (Arith.f64_key b ?= Arith.f64_key a).
Qed.

Lemma elem_eq ld st ty a b x y s ps L m l :
  elem ld st ty -> rep ty a x -> rep ty b y ->
  exec_seq powf call_closure fuel (Eq ty :: l) (MkFrame (x :: y :: s) ps L m) =
  exec_seq powf call_closure fuel l (MkFrame (Vi32 (if value_eq a b then 1 else 0) :: s) ps L m).
Proof.
  intros [] Hx Hy; inversion Hx; subst; inversion Hy; subst; ir_op; cbn [value_eq].
  - rewrite Z.eqb_sym. by destruct (_ =? _).
  - rewrite ordered_eq_sym. by destruct (ordered_eq _ _).
Qed.

Lemma unique_body ld st ty m p items ws :
  elem ld st ty -> blen (arena m) < 2 ^ 31 -> words_at (arena m) p ws -> Forall2 (rep ty) items ws -> (length ws < fuel)%nat ->
  Ir.call powf call_closure fuel (IrStdlib.list_unique_body_typed ld ty) [Vi32 p] m = Done (Vi32 (if unique_loop items then 1 else 0)) m.
Proof.
  intros Hel Ha Hw Hrep Hf. pose proof (words_len _ _ _ Ha Hw) as (Hl & Hn & Hp & Hpb & Hnn & He).
  pose proof (Forall2_length _ _ _ Hrep) as Hlen. assert (blen ws = Z.of_nat (length ws)) as Hlw by done.
  unfold call, IrStdlib.list_unique_body_typed; cbv zeta. ir_run; rewrite Hl; ir_run; rewrite payload_addr, Hn by lia.
  set (Frame i (L : nat -> option slot) (m' : machine) := m' = m /\ L 0%nat = Some (Vi32 (blen ws)) /\ L 1%nat = Some (Vi32 (Z.of_nat i)) /\
    L 3%nat = Some (Vi32 (payload p)) /\ L 5%nat = Some (Vi32 1)).
  ir_scan (length ws) (fun i L m' => Frame i L m' /\ unique_loop (drop i items) = unique_loop items) 0%nat; [|lia|by unfold Frame; ir_inv|done].
  intros i L m' Hi [(-> & L0 & L1 & L3 & L5) Hu].
  ir_run. destruct (Z.geb_spec (Z.of_nat i) (blen ws)).
  { ir_run. rewrite drop_ge in Hu by lia. by rewrite <-Hu. }
  destruct (lookup_lt_is_Some_2 ws i) as [x Hx]; [lia|]. destruct (Forall2_lookup_r _ _ _ _ _ Hrep Hx) as (it & Hit & Hrx).
  rewrite (drop_S _ it) in Hu by done. destruct (words_item m _ _ i x Ha Hw Hx) as [Hld Hok].
  ir_run. erewrite elem_load by (done || lia). ir_run. rewrite (rep_coerce _ _ _ Hrx).
  ir_scan (length ws) (fun j L m' => Frame i L m' /\ L 2%nat = Some (Vi32 (Z.of_nat j)) /\ L 4%nat = Some x /\
    existsb (value_eq it) (drop j items) = existsb (value_eq it) (drop (S i) items)) (S i); [|lia| |done].
  2:{ unfold Frame; ir_inv. }
  clear L L0 L1 L3 L5. intros j L m' Hj ((-> & L0 & L1 & L3 & L5) & L2 & L4 & Hex).
  ir_run. destruct (Z.geb_spec (Z.of_nat j) (blen ws)).
  { ir_run. rewrite drop_ge in Hex by lia. unfold Frame; ir_inv. cbn [unique_loop] in Hu. by rewrite <-Hex in Hu. }
  destruct (lookup_lt_is_Some_2 ws j) as [y Hy]; [lia|]. destruct (Forall2_lookup_r _ _ _ _ _ Hrep Hy) as (jt & Hjt & Hry).
  rewrite (drop_S _ jt) in Hex by done. destruct (words_item m _ _ j y Ha Hw Hy) as [Hldj _].
  ir_run. erewrite elem_load by (done || lia). ir_op. erewrite elem_eq by done. cbn [existsb] in Hex.
  ir_run. destruct (value_eq it jt); ir_run.
  - cbn [unique_loop orb] in *. rewrite <-Hex in Hu. by rewrite <-Hu.
  - unfold Frame; ir_inv.
Qed.
End Lists.
End IrLists.

(** The compiled list functions refine the evaluator's: on the same list, in the arena as the
    marshaller encodes it, they return the same value or stop with the matching trap. *)

Module IrListRefines.
Import Native StdLists Evaluator StdListFacts Ir IrFacts IrRecords IrLists.

Section Refines.
Context {H : HostTypes} {TokenRange : Type} {Caps : NativeFnCaps TokenRange}.
Context {Img : Image} (powf : Z -> Z -> Z) (call_closure : Z -> Z -> list slot -> machine -> closure_result) (fuel : nat).

(** The outcome of the evaluator and the flow of compiled code that leaves the memory alone. *)
Definition agrees (r : outcome (NativeError TokenRange Foreign) Value) (fl : flow) (m : machine) : Prop :=
  match r with
  | Ok (VInt z) => fl = Done (Vi64 z) m
  | Ok (VFloat bits) => fl = Done (Vf64 bits) m
  | Ok (VBool b) => fl = Done (Vi32 (if b then 1 else 0)) m
  | Err (Native.NumericOverflow _) => fl = Trapped Overflow
  | Err (TypeMismatch _ _ _) => fl = Trapped BoundsViolation
  | _ => False
  end.

Definition run (f : IrStdlib.StdlibFunction) (args : list slot) (m : machine) : flow :=
  Ir.call powf call_closure fuel (IrStdlib.body f) args m.

Lemma int_words items ws : Forall2 (rep I64) items ws -> exists zs, items = map VInt zs /\ ws = Vi64 <$> zs.
Proof.
  induction 1 as [|v x items ws Hr _ (zs & -> & ->)]; [by exists []|]. inversion Hr; subst. by exists (z :: zs).
Qed.

Lemma extremum_ok better zs acc range w : exists z, extremum_ints better acc (map VInt zs) range w = (Ok z, w).
Proof. revert acc. induction zs as [|x zs IH]; intros acc; [by exists acc|]. cbn [map extremum_ints]. unfold expect_int. rewrite bind_ret. apply IH. Qed.

Lemma sum_ints_cases zs acc (range : TokenRange) w :
  (exists z w', sum_ints acc (map VInt zs) range w = (Ok z, w')) \/ exists w', sum_ints acc (map VInt zs) range w = (Err (Native.NumericOverflow range), w').
Proof.
  revert acc. induction zs as [|z zs IH]; intros acc; [left; by eexists _, _|]. cbn [map sum_ints].
  destruct (Arith.checked (acc + z)) as [acc'|]; [apply IH|right; by eexists].
Qed.

Lemma extremum_agrees is_max m p zs named range w :
  blen (arena m) < 2 ^ 31 -> words_at (arena m) p (Vi64 <$> zs) -> (length zs < fuel)%nat ->
  agrees (fst ((if is_max : bool then ListMax else ListMin) (MkArgs [VList (map VInt zs)] named) range w))
    (run (if is_max then IrStdlib.list_int_max else IrStdlib.list_int_min) [Vi32 p] m) m.
Proof.
  intros Ha Hw Hf. destruct zs as [|z zs].
  - pose proof (words_len _ _ _ Ha Hw) as (Hl & Hn & Hp & _). 
    destruct is_max; unfold run; cbn [IrStdlib.body IrStdlib.list_int_max IrStdlib.list_int_min]; rewrite ?max_code, ?min_code;
      unfold Ir.call, extremum_code; cbv zeta; ir_run; rewrite Hl; ir_run; rewrite Hn; change (blen (Vi64 <$> [])) with 0; by ir_run.
  - assert (run (if is_max then IrStdlib.list_int_max else IrStdlib.list_int_min) [Vi32 p] m =
      Ir.call powf call_closure fuel (extremum_code is_max) [Vi32 p] m) as ->.
    { unfold run. destruct is_max; cbn [IrStdlib.body IrStdlib.list_int_max IrStdlib.list_int_min]; by rewrite ?max_code, ?min_code. }
    rewrite (extremum_body _ _ _ is_max m p z zs range w) by done. destruct (extremum_ok (better is_max) zs z range w) as [v Hv]. rewrite Hv.
    destruct is_max; unfold ListMax, ListMin, extremum; run_checks; cbn [map]; unfold bind; unfold better in Hv; by rewrite Hv.
Qed.

(** C29 The compiled [list_int_sum], [list_int_max], [list_int_min], [list_int_unique] and
    [list_int_length] and the compiled [size_in_range] agree with the evaluator's [sum], [max],
    [min], [unique], [len] and [size_in_range] on every integer list the marshaller can have put into the arena: the same integer or boolean, an
    overflow trap exactly where the evaluator reports an overflow, a bounds trap where it rejects
    the empty list, and no change of the memory.  A loop bound of one more than the length of the
    list is enough. *)
Theorem compiled_aggregates (m : machine) (p lo hi : Z) (items : list Value) (named : list (string * Value)) (range : TokenRange) (w : World) :
  enc_at 0 (arena m) p (TList TInt) (VList items) lo hi -> blen (arena m) < 2 ^ 31 -> (length items < fuel)%nat ->
  let args := MkArgs [VList items] named in
  agrees (fst (ListSum args range w)) (run IrStdlib.list_int_sum [Vi32 p] m) m /\
  agrees (fst (ListMax args range w)) (run IrStdlib.list_int_max [Vi32 p] m) m /\
  agrees (fst (ListMin args range w)) (run IrStdlib.list_int_min [Vi32 p] m) m /\
  agrees (fst (ListUnique args range w)) (run IrStdlib.list_int_unique [Vi32 p] m) m /\
  agrees (fst (Len args range w)) (run IrStdlib.list_int_length_to_int [Vi32 p] m) m /\
  (forall a b, agrees (fst (SizeInRange (MkArgs [VList items; VInt a; VInt b] named) range w))
    (run IrStdlib.size_in_range_list [Vi32 p; Vi64 a; Vi64 b] m) m).
Proof.
  intros He Ha Hf. destruct (encoded_words _ _ _ I64 _ _ _ He) as (ws & Hrep & Hw & _); [by left|].
  pose proof (words_len _ _ _ Ha Hw) as (Hl & Hn & Hp & _).
  destruct (int_words _ _ Hrep) as (zs & -> & ->). rewrite length_map in Hf. cbv zeta. split_and!.
  - unfold run. cbn [IrStdlib.body IrStdlib.list_int_sum]. rewrite (sum_body _ _ _ m p zs range w) by done.
    unfold ListSum. run_checks. unfold bind at 1. rewrite classify_ints. unfold bind.
    by destruct (sum_ints_cases zs 0 range w) as [(z & w1 & ->)|(w1 & ->)].
  - by apply (extremum_agrees true).
  - by apply (extremum_agrees false).
  - unfold run. cbn [IrStdlib.body IrStdlib.list_int_unique]. by rewrite (unique_body _ _ _ _ _ _ _ _ _ _ elem_int Ha Hw Hrep) by (by rewrite length_fmap).
  - unfold run. cbn [IrStdlib.body IrStdlib.list_int_length_to_int]. unfold Ir.call. ir_run. rewrite Hl. ir_run. rewrite Hn.
    unfold blen. by rewrite length_fmap, <-(length_map VInt).
  - intros a b. unfold run. cbn [IrStdlib.body IrStdlib.size_in_range_list]. unfold Ir.call, IrStdlib.size_in_range_record_header_body.
    ir_run. rewrite Hl. ir_run. rewrite Hl. ir_run. rewrite Hn. unfold SizeInRange. run_checks. cbn [agrees fst ret].
    unfold blen. rewrite length_fmap, length_map, Z.geb_leb. by destruct (_ <=? _), (_ <=? _).
Qed.

(** The 8-byte element types, with the functions of the library compiled for each. *)
Inductive list_functions : forall (e : TypeRepr) (ty : IrType) (fold every some filter map_ : IrStdlib.StdlibFunction), Prop :=
| int_functions : list_functions TInt I64 IrStdlib.list_int_fold IrStdlib.list_int_every IrStdlib.list_int_some
    IrStdlib.list_int_filter IrStdlib.list_int_map
| float_functions : list_functions TFloat F64 IrStdlib.list_float_fold IrStdlib.list_float_every IrStdlib.list_float_some
    IrStdlib.list_float_filter IrStdlib.list_float_map.

Lemma functions_bodies e ty fold every some filter map_ :
  list_functions e ty fold every some filter map_ -> exists ld st, elem ld st ty /\ ((e = TInt /\ ty = I64) \/ (e = TFloat /\ ty = F64)) /\
    IrStdlib.body fold = IrStdlib.list_fold_body_typed ld ty /\
    IrStdlib.body every = IrStdlib.list_pred_body_typed ld ty true /\ IrStdlib.body some = IrStdlib.list_pred_body_typed ld ty false /\
    IrStdlib.body filter = IrStdlib.list_filter_body_typed ld st ty ty /\ IrStdlib.body map_ = IrStdlib.list_map_body_typed ld st ty ty.
Proof. intros []; do 2 eexists; (split; [constructor|]); split_and!; auto. Qed.

(** What the arena must offer a function that builds a list of at most [n] elements. *)
Record room (m : machine) (n : nat) : Prop := {
  room_small : blen (arena m) < 2 ^ 31;
  room_base : 0 <= scratch_base m;
  room_cursor : 0 <= scratch_cursor m;
  room_left : top m + 16 + 8 * Z.of_nat n <= blen (arena m);
}.

Lemma built_list e ty m m' vs rs (n : nat) :
  ((e = TInt /\ ty = I64) \/ (e = TFloat /\ ty = F64)) -> room m n -> (length rs <= n)%nat ->
  Forall2 (rep ty) vs rs -> words_at (arena m') (top m) rs -> extends m m' ->
  enc_at 0 (arena m') (top m) (TList e) (VList vs) (top m) (blen (arena m')).
Proof.
  intros Hty [Hs Hb Hc Hl] Hn Hrep Hw He. pose proof (payload_bounds (top m)). pose proof (ext_arena _ _ He).
  eapply words_encoded; [done|done|done| |lia|lia]. unfold blen at 1. lia.
Qed.

Lemma filter_length func items (range : TokenRange) w vs w' : filter_loop func items range w = (Ok vs, w') -> (length vs <= length items)%nat.
Proof.
  revert w vs. induction items as [|it items IH]; intros w vs Hf; cbn [filter_loop] in Hf; [by injection Hf as <- <-|].
  apply bind_ok_inv in Hf as ([] & w1 & _ & Hf). apply bind_ok_inv in Hf as (b & w2 & _ & Hf).
  apply bind_ok_inv in Hf as (rest & w3 & Hrest & [= <- <-]). apply IH in Hrest. destruct (Arith.is_truthy b); simpl; lia.
Qed.

Lemma map_length func items (range : TokenRange) w vs w' : map_loop func items range w = (Ok vs, w') -> length vs = length items.
Proof.
  revert w vs. induction items as [|it items IH]; intros w vs Hf; cbn [map_loop] in Hf; [by injection Hf as <- <-|].
  apply bind_ok_inv in Hf as ([] & w1 & _ & Hf). apply bind_ok_inv in Hf as (b & w2 & _ & Hf).
  apply bind_ok_inv in Hf as (rest & w3 & Hrest & [= <- <-]). apply IH in Hrest. simpl; lia.
Qed.

(** C28 The compiled list functions that call back refine the evaluator's.  Take a list of integers
    or floats the marshaller has put into the arena below the scratch region, room for a result of
    the same length, and a closure handle whose compiled code returns what the evaluator's closure
    returns, without a trap, for every state of the scratch memory.  Where the evaluator's [reduce], [every] or
    [some] returns a value, the compiled function returns that value; where its [filter] or [map]
    returns a list, the compiled function returns a pointer to an encoding of that list.  All of
    them leave what was below the scratch region untouched and record no trap. *)
Theorem compiled_callbacks (e : TypeRepr) (ty : IrType) (fold every some filter map_ : IrStdlib.StdlibFunction)
    (m : machine) (p lo hi h : Z) (items : list Value) (func : Value) (named : list (string * Value)) (range : TokenRange) (w w' : World) :
  list_functions e ty fold every some filter map_ ->
  enc_at 0 (arena m) p (TList e) (VList items) lo hi -> hi <= top m -> room m (length items) -> (length items < fuel)%nat ->
  (forall acc a v, simulates call_closure m h func [ty; ty] ty range -> rep ty acc a ->
    ListReduce (MkArgs [VList items; acc; func] named) range w = (Ok v, w') ->
    exists r m', run fold [Vi32 p; a; Vi32 h] m = Done r m' /\ rep ty v r /\ extends m m') /\
  (forall v (is_every : bool), simulates call_closure m h func [ty] Bool range ->
    (if is_every then ListEvery else ListSome) (MkArgs [VList items; func] named) range w = (Ok v, w') ->
    exists r m', run (if is_every then every else some) [Vi32 p; Vi32 h] m = Done r m' /\ rep Bool v r /\ extends m m') /\
  (forall v, simulates call_closure m h func [ty] Bool range ->
    ListFilter (MkArgs [VList items; func] named) range w = (Ok v, w') ->
    exists m', run filter [Vi32 p; Vi32 h] m = Done (Vi32 (top m)) m' /\
      enc_at 0 (arena m') (top m) (TList e) v (top m) (blen (arena m')) /\ extends m m') /\
  (forall v, simulates call_closure m h func [ty] ty range ->
    ListMap (MkArgs [VList items; func] named) range w = (Ok v, w') ->
    exists m', run map_ [Vi32 p; Vi32 h] m = Done (Vi32 (top m)) m' /\
      enc_at 0 (arena m') (top m) (TList e) v (top m) (blen (arena m')) /\ extends m m').
Proof.
  intros Hfs Henc Hhi Hroom Hf. destruct (functions_bodies _ _ _ _ _ _ _ Hfs) as (ld & st & Hel & Hty & Bf & Be & Bs & Bl & Bm).
  destruct (encoded_words _ _ _ ty _ _ _ Henc Hty) as (ws & Hrep & Hw & Hin).
  pose proof (Forall2_length _ _ _ Hrep) as Hlen. pose proof Hroom as [Hs Hb Hc Hl]. unfold run. rewrite Bf, Bl, Bm.
  assert (top m + 16 + 8 * blen ws <= blen (arena m)) as Hl' by (unfold blen at 1; lia). assert (length ws < fuel)%nat as Hf' by lia.
  assert (payload p + 8 * blen ws <= top m) as Hin' by lia. assert (top m <= blen (arena m)) as Ht by lia.
  split_and!.
  - intros acc a v Hsim Ha He. by apply (fold_body powf call_closure fuel ld st ty m p h items ws func acc a range w v w').
  - intros v is_every Hsim He. replace (IrStdlib.body (if is_every then every else some)) with (IrStdlib.list_pred_body_typed ld ty (negb (negb is_every))) by (by destruct is_every).
    apply (pred_body powf call_closure fuel ld st ty (negb is_every) m p h items ws func range w v w'); try done. by destruct is_every.
  - intros v Hsim He. change (bind (filter_loop func items range) (fun r => ret (VList r)) w = (Ok v, w')) in He.
    apply bind_ok_inv in He as (vs & w1 & Hvs & [= <- <-]).
    destruct (filter_body powf call_closure fuel ld st ty m p h items ws func range w vs w1) as (rs & m' & Hr & Hrs & Hws & Hext); try done.
    exists m'. split_and!; [done| |done]. eapply built_list; try done. rewrite <-(Forall2_length _ _ _ Hrs). by eapply filter_length.
  - intros v Hsim He. change (bind (map_loop func items range) (fun r => ret (VList r)) w = (Ok v, w')) in He.
    apply bind_ok_inv in He as (vs & w1 & Hvs & [= <- <-]).
    destruct (map_body powf call_closure fuel ld st ld st ty ty m p h items ws func range w vs w1) as (rs & m' & Hr & Hrs & Hws & Hext); try done.
    exists m'. split_and!; [done| |done]. eapply built_list; try done. by rewrite <-(Forall2_length _ _ _ Hrs), (map_length _ _ _ _ _ _ Hvs).
Qed.
End Refines.

#[local] Existing Instance unit_host.

(** A list of three integers at offset 8, and a closure handle behind it. *)
Definition sample_machine : machine :=
  MkMachine (repeat Byte.x00 8 ++ u32_to_le 3 ++ repeat Byte.x00 4 ++ i64_to_le 7 ++ i64_to_le (-2) ++ i64_to_le 7 ++ u32_to_le 0 ++ u32_to_le 0 ++ repeat Byte.x00 72) 48 0 None.

(** Compiled code of the closure of [plain_host]. *)
Definition first_argument (fn caps : Z) (args : list slot) (m : machine) : closure_result :=
  match args with a :: _ => Returned a m | [] => Faults end.

Lemma sample_encoded :
  enc_at 0 (arena sample_machine) 8 (TList TInt) (VList [VInt 7; VInt (-2); VInt 7]) 8 40.
Proof.
  apply (ea_scalars 0 _ 8 TInt _ 8 8 16); try done; [bytes_literal|].
  intros k it Hk. destruct k as [|[|[|k]]]; try done; injection Hk as <-; (split; [done|bytes_literal]).
Qed.

Lemma compiled_aggregates_witness :
  let c := evaluator_caps (plain_host None None) in
  run (Img := blank_image) (fun a _ => a) first_argument 4 IrStdlib.list_int_sum [Vi32 8] sample_machine = Done (Vi64 12) sample_machine /\
  agrees (Caps := c) (fst (ListUnique (Caps := c) (MkArgs [VList [VInt 7; VInt (-2); VInt 7]] []) tt (MkWorld 0 ∅ 0)))
    (run (Img := blank_image) (fun a _ => a) first_argument 4 IrStdlib.list_int_unique [Vi32 8] sample_machine) sample_machine.
Proof.
  cbv zeta.
  destruct (compiled_aggregates (Caps := evaluator_caps (plain_host None None)) (Img := blank_image) (fun a _ => a) first_argument 4 sample_machine 8 8 40
    [VInt 7; VInt (-2); VInt 7] [] tt (MkWorld 0 ∅ 0) sample_encoded) as (A & _ & _ & B & _); [reflexivity|simpl; lia|].
  split; [exact A|exact B].
Defined.

Lemma compiled_callbacks_witness :
  let c := evaluator_caps (plain_host None None) in
  exists m', run (Img := blank_image) (fun a _ => a) first_argument 4 IrStdlib.list_int_map [Vi32 8; Vi32 40] sample_machine = Done (Vi32 48) m' /\
    enc_at 0 (arena m') 48 (TList TInt) (VList [VInt 7; VInt (-2); VInt 7]) 48 (blen (arena m')).
Proof.
  cbv zeta.
  destruct (compiled_callbacks (Caps := evaluator_caps (plain_host None None)) (Img := blank_image) (fun a _ => a) first_argument 4 TInt I64 _ _ _ _ _
    sample_machine 8 8 40 40 [VInt 7; VInt (-2); VInt 7] VWildcard [] tt (MkWorld 0 ∅ 0) (MkWorld 0 ∅ 0) int_functions sample_encoded) as (_ & _ & _ & A);
    [vm_compute; congruence|split; vm_compute; congruence|simpl; lia|].
  destruct (A (VList [VInt 7; VInt (-2); VInt 7])) as (m' & Hm & Henc & _); [|reflexivity|exists m'; split; [exact Hm|exact Henc]].
  exists 0, 0. split_and!; try done; [bytes_literal|].
  intros m1 args ws w v w' _ Ht Hargs Hc. inversion Hargs as [|? ? ? ? ? r Hr Hnil]; subst. inversion Hnil; subst.
  injection Hc as <- <-. do 2 eexists. split_and!; [reflexivity|eassumption|reflexivity|done].
Defined.
End IrListRefines.
