(* ===== verification/IrStrings.v ===== *)
(** The compiled string functions, on strings as the marshaller encodes them. *)

From Stdlib Require Import ZArith Lia Bool.
From coqutil Require Import Byte Word.LittleEndianList.
From stdpp Require Import base list strings gmap.
From S2P Require Import Prelude Bytes SchemaCanonical Layout LayoutFacts Value BufferTypes IndexFacts Reader ReaderFacts VerifiedRead Relocation.
From S2P Require Import Encoding SmolStr Lexer LexerFacts NumberLit Arith StdLists StdMath StdStrings StdValidate Native.
From S2P Require Import StdStringFacts StdTypes Ir IrStdlib IrFacts IrRecords IrLists.
Local Open Scope Z_scope.
Local Open Scope abi_scope.

Module IrStrings.
Import Native StdStrings Ir IrFacts IrRecords.

(** ** Strings in the arena *)

Record string_at (b : bytes) (p : Z) (s : bytes) : Prop := {
  sa_bytes : bytes_at b p (u32_to_le (blen s) ++ s);
  sa_small : is_u32 (blen s);
}.

Definition codes_of (s : bytes) : list Z := byte.unsigned <$> s.

Lemma string_len m p s :
  blen (arena m) < 2 ^ 31 -> string_at (arena m) p s ->
  load m p 4 = Granted (u32_to_le (blen s)) /\ u32_from_le (u32_to_le (blen s)) = blen s /\
  0 <= p /\ 0 <= blen s /\ p + 4 + blen s <= blen (arena m).
Proof.
  intros Ha [Hb Hs]. pose proof (bytes_at_app _ _ _ _ Hb) as [Hh _]. pose proof (blen_nonneg s).
  assert (blen (u32_to_le (blen s) ++ s) = 4 + blen s) as Hl by (unfold blen; rewrite length_app; simpl; lia).
  apply bytes_at_bound in Hb as Hbd; [|lia]. split_and!; [|by apply u32_from_to|apply Hh|done|lia].
  apply load_ok; [done|done|apply blen_u32|lia].
Qed.

Lemma string_byte m p s i c a :
  blen (arena m) < 2 ^ 31 -> string_at (arena m) p s -> codes_of s !! i = Some c -> a = p + 4 + Z.of_nat i ->
  exists x, load m a 1 = Granted [x] /\ u32_from_le [x] = c /\ 0 <= c < 256.
Proof.
  intros Ha [Hb Hs] Hc ->. apply bytes_at_app in Hb as [_ Hb]. rewrite blen_u32 in Hb. unfold codes_of in Hc.
  rewrite list_lookup_fmap in Hc. destruct (s !! i) as [x|] eqn:Hx; [|done]. injection Hc as <-. exists x.
  split_and!; [|unfold u32_from_le; by rewrite le_combine_1|apply byte.unsigned_range|apply byte.unsigned_range].
  apply load_ok; [done| |done|lia]. split; [destruct Hb; lia|]. intros [|k] y Hy; [|done]. injection Hy as <-.
  destruct Hb as [Hp Hb]. specialize (Hb i x Hx). by replace (Z.to_nat (p + 4 + Z.of_nat i) + 0)%nat with (Z.to_nat (p + 4) + i)%nat by lia.
Qed.

Lemma codes_len s : blen s = Z.of_nat (length (codes_of s)).
Proof. unfold blen, codes_of. by rewrite length_fmap. Qed.

(** ** Prefixes *)

Lemma prefix_iff p l : Lex.prefix_of p l = true <-> exists r, l = p ++ r.
Proof.
  revert l. induction p as [|x p IH]; intros l; [split; [by exists l|done]|]. destruct l as [|y l]; simpl.
  { split; [done|by intros [r [=]]]. }
  rewrite andb_true_iff, Z.eqb_eq, IH. split; [intros [-> [r ->]]; by exists r|intros [r [= -> ->]]; by eauto].
Qed.

Lemma prefix_length p l : Lex.prefix_of p l = true -> (length p <= length l)%nat.
Proof. intros [r ->]%prefix_iff. rewrite length_app. lia. Qed.

Lemma prefix_short p l : (length l < length p)%nat -> Lex.prefix_of p l = false.
Proof. intros Hl. destruct (Lex.prefix_of p l) eqn:E; [apply prefix_length in E; lia|done]. Qed.

Lemma suffix_prefix p l :
  (length p <= length l)%nat -> StdStrings.ends_with l p = Lex.prefix_of p (drop (length l - length p) l).
Proof.
  intros Hl. apply eq_true_iff_eq. unfold StdStrings.ends_with. rewrite !prefix_iff. split; intros [r Hr].
  - exists []. rewrite app_nil_r. apply (f_equal (@rev Z)) in Hr. rewrite rev_app_distr, !rev_involutive in Hr. subst l.
    rewrite length_app. by replace (length (rev r) + length p - length p)%nat with (length (rev r)) by lia; rewrite drop_app_length.
  - assert (r = []) as ->.
    { apply (f_equal length) in Hr. rewrite length_app, length_drop in Hr. destruct r; [done|simpl in Hr; lia]. }
    exists (rev (take (length l - length p) l)). rewrite app_nil_r in Hr. rewrite <-Hr at 1. rewrite <-rev_app_distr. by rewrite take_drop.
Qed.

Lemma suffix_short p l : (length l < length p)%nat -> StdStrings.ends_with l p = false.
Proof. intros Hl. apply prefix_short. by rewrite !length_rev. Qed.

Lemma contains_short t l : (length l < length t)%nat -> StdStrings.contains l t = false.
Proof.
  unfold StdStrings.contains. induction l as [|x l IH]; intros Hl; cbn [Lex.find_bytes]; rewrite prefix_short by done; [done|].
  simpl in Hl. specialize (IH ltac:(lia)). by destruct (Lex.find_bytes t l).
Qed.

Lemma contains_step t l x i :
  l !! i = Some x -> StdStrings.contains (drop i l) t = Lex.prefix_of t (drop i l) || StdStrings.contains (drop (S i) l) t.
Proof.
  intros Hx. unfold StdStrings.contains. rewrite (drop_S l x) by done. cbn [Lex.find_bytes].
  destruct (Lex.prefix_of t _); [done|]. by destruct (Lex.find_bytes t _).
Qed.

Section Strings.
Context {Img : Image} (powf : Z -> Z -> Z) (call_closure : Z -> Z -> list slot -> machine -> closure_result) (fuel : nat).

Lemma starts_with_body m p q s t :
  blen (arena m) < 2 ^ 31 -> string_at (arena m) p s -> string_at (arena m) q t -> (length t < fuel)%nat ->
  Ir.call powf call_closure fuel IrStdlib.starts_with_string_body [Vi32 p; Vi32 q] m =
  Done (Vi32 (if StdStrings.starts_with (codes_of s) (codes_of t) then 1 else 0)) m.
Proof.
  intros Ha Hs Ht Hf. pose proof (string_len _ _ _ Ha Hs) as (Hl & Hn & Hp & Hnn & He). pose proof (string_len _ _ _ Ha Ht) as (Hl' & Hn' & Hp' & Hnn' & He').
  pose proof (codes_len s) as Hls. pose proof (codes_len t) as Hlt.
  unfold call, IrStdlib.starts_with_string_body; cbv zeta. ir_run. rewrite Hl. ir_run. rewrite Hn. rewrite Hl'. ir_run. rewrite Hn'. ir_run.
  unfold StdStrings.starts_with. destruct (Z.gtb_spec (blen t) (blen s)); ir_run.
  { by rewrite prefix_short by lia. }
  ir_scan (length (codes_of t)) (fun i L m' => m' = m /\ L 0%nat = Some (Vi32 (blen s)) /\ L 1%nat = Some (Vi32 (blen t)) /\ L 2%nat = Some (Vi32 (Z.of_nat i)) /\
    L 3%nat = Some (Vi32 1) /\ Lex.prefix_of (drop i (codes_of t)) (drop i (codes_of s)) = Lex.prefix_of (codes_of t) (codes_of s)) 0%nat; [|lia|ir_inv|unfold blen in *; lia].
  intros i L m' Hi (-> & L0 & L1 & L2 & L3 & Hpre). 
  ir_run. destruct (Z.geb_spec (Z.of_nat i) (blen t)).
  { ir_run. rewrite drop_ge in Hpre by lia. by rewrite <-Hpre. }
  destruct (lookup_lt_is_Some_2 (codes_of s) i) as [x Hx]; [lia|]. destruct (lookup_lt_is_Some_2 (codes_of t) i) as [y Hy]; [lia|].
  rewrite (drop_S _ y), (drop_S (codes_of s) x) in Hpre by done. cbn [Lex.prefix_of] in Hpre.
  destruct (string_byte m p s i x _ Ha Hs Hx eq_refl) as (bx & Hbx & Hcx & Hrx). destruct (string_byte m q t i y _ Ha Ht Hy eq_refl) as (by_ & Hby & Hcy & Hry).
  ir_run. rewrite Hbx. ir_run. rewrite Hby. ir_run. rewrite Hcx, Hcy. destruct (Z.eqb_spec x y) as [->|Hne]; ir_run.
  - ir_inv. by rewrite Z.eqb_refl in Hpre.
  - assert ((y =? x) = false) as E by (apply Z.eqb_neq; congruence). rewrite E in Hpre. cbn [andb] in Hpre. by rewrite <-Hpre.
Qed.

Lemma ends_with_body m p q s t :
  blen (arena m) < 2 ^ 31 -> string_at (arena m) p s -> string_at (arena m) q t -> (length t < fuel)%nat ->
  Ir.call powf call_closure fuel IrStdlib.ends_with_string_body [Vi32 p; Vi32 q] m =
  Done (Vi32 (if StdStrings.ends_with (codes_of s) (codes_of t) then 1 else 0)) m.
Proof.
  intros Ha Hs Ht Hf. pose proof (string_len _ _ _ Ha Hs) as (Hl & Hn & Hp & Hnn & He). pose proof (string_len _ _ _ Ha Ht) as (Hl' & Hn' & Hp' & Hnn' & He').
  pose proof (codes_len s) as Hls. pose proof (codes_len t) as Hlt.
  unfold call, IrStdlib.ends_with_string_body; cbv zeta. ir_run. rewrite Hl. ir_run. rewrite Hn. rewrite Hl'. ir_run. rewrite Hn'. ir_run.
  destruct (Z.gtb_spec (blen t) (blen s)); ir_run; [by rewrite suffix_short by lia|]. rewrite suffix_prefix by lia.
  set (base := (length (codes_of s) - length (codes_of t))%nat).
  ir_scan (length (codes_of t)) (fun i L m' => m' = m /\ L 0%nat = Some (Vi32 (blen s)) /\ L 1%nat = Some (Vi32 (blen t)) /\ L 2%nat = Some (Vi32 (Z.of_nat i)) /\
    L 3%nat = Some (Vi32 1) /\ L 4%nat = Some (Vi32 (Z.of_nat base)) /\
    Lex.prefix_of (drop i (codes_of t)) (drop (base + i) (codes_of s)) = Lex.prefix_of (codes_of t) (drop base (codes_of s))) 0%nat;
    [|lia|rewrite Nat.add_0_r; ir_inv|unfold blen in *; lia].
  intros i L m' Hi (-> & L0 & L1 & L2 & L3 & L4 & Hpre).
  ir_run. destruct (Z.geb_spec (Z.of_nat i) (blen t)).
  { ir_run. rewrite drop_ge in Hpre by lia. by rewrite <-Hpre. }
  destruct (lookup_lt_is_Some_2 (codes_of s) (base + i)) as [x Hx]; [lia|]. destruct (lookup_lt_is_Some_2 (codes_of t) i) as [y Hy]; [lia|].
  rewrite (drop_S _ y), (drop_S (codes_of s) x) in Hpre by done. cbn [Lex.prefix_of] in Hpre.
  destruct (string_byte m p s (base + i) x (p + 4 + Z.of_nat base + Z.of_nat i) Ha Hs Hx ltac:(lia)) as (bx & Hbx & Hcx & Hrx). 
  destruct (string_byte m q t i y _ Ha Ht Hy eq_refl) as (by_ & Hby & Hcy & Hry).
  ir_run. rewrite Hbx. ir_run. rewrite Hby. ir_run. rewrite Hcx, Hcy. rewrite Z.eqb_sym in Hpre. destruct (x =? y); ir_run.
  - ir_inv. by rewrite Nat.add_succ_r.
  - cbn [andb] in Hpre. by rewrite <-Hpre.
Qed.

Lemma contains_body m p q s t :
  blen (arena m) < 2 ^ 31 -> string_at (arena m) p s -> string_at (arena m) q t -> (length s + 2 < fuel)%nat ->
  Ir.call powf call_closure fuel IrStdlib.contains_string_body [Vi32 p; Vi32 q] m =
  Done (Vi32 (if StdStrings.contains (codes_of s) (codes_of t) then 1 else 0)) m.
Proof.
  intros Ha Hs Ht Hf. pose proof (string_len _ _ _ Ha Hs) as (Hl & Hn & Hp & Hnn & He). pose proof (string_len _ _ _ Ha Ht) as (Hl' & Hn' & Hp' & Hnn' & He').
  pose proof (codes_len s) as Hls. pose proof (codes_len t) as Hlt. assert (length s = length (codes_of s)) as Hlc by (unfold codes_of; by rewrite length_fmap).
  unfold call, IrStdlib.contains_string_body; cbv zeta. ir_run. rewrite Hl. ir_run. rewrite Hn. rewrite Hl'. ir_run. rewrite Hn'. ir_run.
  destruct (Z.gtb_spec (blen t) (blen s)); ir_run; [by rewrite contains_short by lia|].
  destruct (Z.eqb_spec (blen t) 0) as [Hz|Hz]; ir_run.
  { unfold StdStrings.contains. destruct (codes_of t); [|simpl in Hlt; lia]. by destruct (codes_of s). }
  set (last := (length (codes_of s) - length (codes_of t))%nat).
  set (Frame i (L : nat -> option slot) (m' : machine) := m' = m /\ L 0%nat = Some (Vi32 (blen s)) /\ L 1%nat = Some (Vi32 (blen t)) /\
    L 2%nat = Some (Vi32 (Z.of_nat last)) /\ L 3%nat = Some (Vi32 (Z.of_nat i))).
  ir_scan (last + 2)%nat (fun i L m' => Frame i L m' /\ exists found : bool, L 6%nat = Some (Vi32 (if found then 1 else 0)) /\
    if found then StdStrings.contains (codes_of s) (codes_of t) = true /\ (i <= last + 1)%nat
    else StdStrings.contains (drop i (codes_of s)) (codes_of t) = StdStrings.contains (codes_of s) (codes_of t)) 0%nat; [|lia| |lia].
  2:{ split; [unfold Frame; ir_inv|]. by exists false. }
  intros i L m' Hi [(-> & L0 & L1 & L2 & L3) (found & L6 & Hfound)].
  ir_run. destruct found; ir_run. { by destruct Hfound as [-> _]. }
  destruct (Z.gtb_spec (Z.of_nat i) (Z.of_nat last)); ir_run. { rewrite contains_short in Hfound by (rewrite length_drop; lia). by rewrite <-Hfound. }
  ir_scan (length (codes_of t)) (fun j L m' => Frame i L m' /\ L 4%nat = Some (Vi32 (Z.of_nat j)) /\ L 5%nat = Some (Vi32 0) /\
    Lex.prefix_of (drop j (codes_of t)) (drop (i + j) (codes_of s)) = Lex.prefix_of (codes_of t) (drop i (codes_of s))) 0%nat;
    [|lia|rewrite Nat.add_0_r; unfold Frame; ir_inv|lia].
  clear L L0 L1 L2 L3 L6. intros j L m' Hj ((-> & L0 & L1 & L2 & L3) & L4 & L5 & Hpre).
  destruct (lookup_lt_is_Some_2 (codes_of s) i) as [z Hz']; [lia|]. rewrite (contains_step _ _ z) in Hfound by done.
  ir_run. destruct (Z.geb_spec (Z.of_nat j) (blen t)).
  { ir_run. rewrite drop_ge in Hpre by lia. rewrite <-Hpre in Hfound. split; [lia|]. split; [done|]. split; [unfold Frame; ir_inv|].
    exists true. split; [done|]. split; [by rewrite <-Hfound|lia]. }
  destruct (lookup_lt_is_Some_2 (codes_of s) (i + j)) as [x Hx]; [lia|]. destruct (lookup_lt_is_Some_2 (codes_of t) j) as [y Hy]; [lia|].
  rewrite (drop_S _ y), (drop_S (codes_of s) x) in Hpre by done. cbn [Lex.prefix_of] in Hpre.
  destruct (string_byte m p s (i + j) x (p + 4 + Z.of_nat i + Z.of_nat j) Ha Hs Hx ltac:(lia)) as (bx & Hbx & Hcx & Hrx). 
  destruct (string_byte m q t j y _ Ha Ht Hy eq_refl) as (by_ & Hby & Hcy & Hry).
  ir_run. rewrite Hbx. ir_run. rewrite Hby. ir_run. rewrite Hcx, Hcy. rewrite Z.eqb_sym in Hpre. destruct (x =? y); ir_run.
  - unfold Frame; ir_inv. by rewrite Nat.add_succ_r.
  - cbn [andb] in Hpre. rewrite <-Hpre in Hfound. split; [lia|]. split; [done|]. split; [unfold Frame; ir_inv|]. by exists false.
Qed.

(** ** [is_uuid] *)

Lemma seq_hexdigit c stk l ps L m :
  L 3%nat = Some (Vi32 c) -> 0 <= c < 256 ->
  exec_seq powf call_closure fuel (IrStdlib.push_is_hexdigit 3 ++ l) (MkFrame stk ps L m) =
  exec_seq powf call_closure fuel l (MkFrame (Vi32 (if Lex.is_ascii_hexdigit c then 1 else 0) :: stk) ps L m).
Proof.
  intros L3 Hc. unfold IrStdlib.push_is_hexdigit, IrStdlib.range_pred. cbn [app]. ir_run.
  unfold Lex.is_ascii_hexdigit, Lex.is_ascii_digit. rewrite !Z.geb_leb.
  destruct (Z.leb_spec 48 c), (Z.leb_spec c 57), (Z.leb_spec 65 c), (Z.leb_spec c 70), (Z.leb_spec 97 c), (Z.leb_spec c 102); try lia; reflexivity.
Qed.

Lemma dash_position (i : nat) :
  wrap32 (wrap32 (wrap32 ((if Z.of_nat i =? 8 then 1 else 0) + (if Z.of_nat i =? 13 then 1 else 0)) +
    (if Z.of_nat i =? 18 then 1 else 0)) + (if Z.of_nat i =? 23 then 1 else 0)) =
  if bool_decide (i ∈ [8; 13; 18; 23]%nat) then 1 else 0.
Proof.
  destruct (Z.eqb_spec (Z.of_nat i) 8), (Z.eqb_spec (Z.of_nat i) 13), (Z.eqb_spec (Z.of_nat i) 18), (Z.eqb_spec (Z.of_nat i) 23);
    try lia; case_bool_decide as Hi; try done; exfalso; rewrite !elem_of_cons, elem_of_nil in Hi; lia.
Qed.

Lemma is_uuid_body m p s :
  blen (arena m) < 2 ^ 31 -> string_at (arena m) p s -> (36 < fuel)%nat ->
  Ir.call powf call_closure fuel IrStdlib.is_uuid_string_body [Vi32 p] m =
  Done (Vi32 (if StdValidate.is_uuid_str (codes_of s) then 1 else 0)) m.
Proof.
  intros Ha Hs Hf. pose proof (string_len _ _ _ Ha Hs) as (Hl & Hn & Hp & Hnn & He). pose proof (codes_len s) as Hls.
  unfold call, IrStdlib.is_uuid_string_body; cbv zeta beta; cbn [app]. ir_run. rewrite Hl. ir_run. rewrite Hn. ir_run. unfold StdValidate.is_uuid_str.
  destruct (Z.eqb_spec (blen s) 36); ir_run.
  2:{ by destruct (Nat.eqb_spec (length (codes_of s)) 36); [lia|]. }
  destruct (Nat.eqb_spec (length (codes_of s)) 36); [|lia].
  ir_scan 36%nat (fun i L m' => m' = m /\ L 1%nat = Some (Vi32 (Z.of_nat i)) /\ L 2%nat = Some (Vi32 1) /\
    StdValidate.uuid_loop i (drop i (codes_of s)) = StdValidate.uuid_loop 0 (codes_of s)) 0%nat; [|lia|ir_inv|done].
  intros i L m' Hi (-> & L1 & L2 & Hu).
  ir_run. destruct (Z.geb_spec (Z.of_nat i) 36).
  { ir_run. rewrite drop_ge in Hu by lia. by rewrite <-Hu. }
  destruct (lookup_lt_is_Some_2 (codes_of s) i) as [x Hx]; [lia|]. rewrite (drop_S _ x) in Hu by done. cbn [StdValidate.uuid_loop] in Hu.
  destruct (string_byte m p s i x _ Ha Hs Hx eq_refl) as (bx & Hbx & Hcx & Hrx).
  ir_run. rewrite Hbx. ir_run. rewrite Hcx. erewrite seq_hexdigit by done. rewrite dash_position.
  destruct (bool_decide _), (x =? 45), (Lex.is_ascii_hexdigit x); ir_run; cbn [andb] in Hu; first [by rewrite <-Hu|ir_inv].
Qed.

(** ** [concat] *)

(** A new string record, header and content. *)
Lemma concat_body m p q s t :
  blen (arena m) < 2 ^ 31 -> 0 <= scratch_base m -> 0 <= scratch_cursor m -> string_at (arena m) p s -> string_at (arena m) q t ->
  p + 4 + blen s <= top m -> q + 4 + blen t <= top m -> top m + 4 + blen s + blen t <= blen (arena m) ->
  exists m', Ir.call powf call_closure fuel concat_string_string_body [Vi32 p; Vi32 q] m = Done (Vi32 (top m)) m' /\
    string_at (arena m') (top m) (s ++ t) /\ extends m m' /\ top m' = top m + 4 + blen s + blen t.
Proof.
  intros Ha Hb Hc Hs Ht Hps Hqt Hroom. pose proof (string_len _ _ _ Ha Hs) as (Hl & Hn & Hp & Hnn & He). pose proof (string_len _ _ _ Ha Ht) as (Hl' & Hn' & Hp' & Hnn' & He').
  assert (0 <= top m) by (unfold top; lia). pose proof (blen_u32 (blen s + blen t)) as H4.
  unfold call, concat_string_string_body; cbv zeta. ir_run. rewrite Hl. ir_run. rewrite Hn, Hl'. ir_run. rewrite Hn'. ir_run.
  rewrite alloc_room by lia. ir_run. rewrite store_ok by (cbn [arena]; lia). ir_run.
  set (m0 := MkMachine _ _ _ _). set (m1 := wrote m0 _ _).
  assert (blen (arena m1) = blen (arena m)) as E1 by (apply splice_length; cbn [arena m0]; lia).
  pose proof (bytes_at_app _ _ _ _ (sa_bytes _ _ _ Hs)) as [_ Bs]. pose proof (bytes_at_app _ _ _ _ (sa_bytes _ _ _ Ht)) as [_ Bt]. rewrite blen_u32 in Bs, Bt.
  assert (bytes_at (arena m1) (p + 4) s) as Bs1 by (apply wrote_keeps; cbn [arena m0]; done || lia).
  rewrite memcpy_ok by (done || lia). ir_run. set (m2 := wrote m1 _ _).
  assert (blen (arena m2) = blen (arena m)) as E2 by (unfold m2, wrote; cbn [arena]; rewrite splice_length; lia).
  assert (bytes_at (arena m2) (q + 4) t) as Bt2 by (apply wrote_keeps; [lia|lia|lia|apply wrote_keeps; cbn [arena m0]; done || lia]).
  rewrite memcpy_ok by (done || lia). ir_run. eexists. split; [done|]. set (m3 := wrote m2 _ _).
  assert (blen (s ++ t) = blen s + blen t) as Hst by (unfold blen; rewrite length_app; lia). split_and!.
  - split; [|rewrite Hst; split; [lia|unfold U32_MAX; lia]]. rewrite Hst. apply bytes_at_join; [|apply bytes_at_join; rewrite H4].
    + do 2 (apply wrote_keeps; [lia..|]). apply splice_at; cbn [arena m0]; lia.
    + apply wrote_keeps; [lia..|]. apply splice_at; lia.
    + apply splice_at; lia.
  - do 3 (apply extends_wrote; [|cbn [arena m0]; lia..]). apply extends_alloc. lia.
  - unfold top. cbn [m3 m2 m1 m0 wrote scratch_base scratch_cursor]. lia.
Qed.

(** ** [substring] *)

(** A number stored as 64 bits and read back as 32. *)
Lemma narrow b off z : bytes_at b off (i64_to_le z) -> bytes_at b off (u32_to_le z).
Proof. intros Hb. change (i64_to_le z) with (u32_to_le z ++ le_split 4 (Z.shiftr (Z.shiftr (Z.shiftr (Z.shiftr z 8) 8) 8) 8)) in Hb. by apply bytes_at_app in Hb as [Hb _]. Qed.

Lemma substring_body m p s start len :
  blen (arena m) < 2 ^ 31 -> string_at (arena m) p s -> is_i64 start -> is_i64 len -> ~ (0 <= start /\ 0 <= len /\ start + len <= blen s) ->
  Ir.call powf call_closure fuel IrStdlib.substring_string_body [Vi32 p; Vi64 start; Vi64 len] m =
    Trapped (if (start <? 0) || (len <? 0) || (start + len <? 2 ^ 63) then BoundsViolation else Overflow).
Proof.
  intros Ha Hs Hst Hlen Hout. pose proof (string_len _ _ _ Ha Hs) as (Hl & Hn & Hp & Hnn & He).
  unfold call, IrStdlib.substring_string_body; cbv zeta. ir_run. rewrite Hl. ir_run. rewrite Hn.
  destruct (Z.ltb_spec start 0); ir_run; [done|]. destruct (Z.ltb_spec len 0); ir_run; [done|]. cbn [orb].
  destruct (Z.ltb_spec (start + len) (2 ^ 63)); ir_run.
  - rewrite Hl. ir_run. rewrite Hn. destruct (Z.gtb_spec (start + len) (blen s)); [by ir_run|lia].
  - by rewrite push_i64_out by (unfold is_i64; lia).
Qed.

Lemma substring_body_in m p s start len :
  blen (arena m) < 2 ^ 31 -> 0 <= scratch_base m -> 0 <= scratch_cursor m -> string_at (arena m) p s -> p + 4 + blen s <= top m ->
  0 <= start -> 0 <= len -> start + len <= blen s -> top m + 12 + len <= blen (arena m) ->
  exists m', Ir.call powf call_closure fuel IrStdlib.substring_string_body [Vi32 p; Vi64 start; Vi64 len] m = Done (Vi32 (top m + 8)) m' /\
    string_at (arena m') (top m + 8) (take (Z.to_nat len) (drop (Z.to_nat start) s)) /\ extends m m'.
Proof.
  intros Ha Hb Hc Hs Hps Hst Hlen Hin Hroom. pose proof (string_len _ _ _ Ha Hs) as (Hl & Hn & Hp & Hnn & He).
  assert (0 <= top m) by (unfold top; lia). assert (top m <= blen (arena m)) by lia.
  unfold call, IrStdlib.substring_string_body; cbv zeta. ir_run. rewrite Hl. ir_run. rewrite Hn.
  destruct (Z.ltb_spec start 0); [lia|]. ir_run. destruct (Z.ltb_spec len 0); [lia|]. ir_run. rewrite Hl. ir_run. rewrite Hn.
  destruct (Z.gtb_spec (start + len) (blen s)); [lia|]. ir_run.
  rewrite alloc_room by lia. ir_run. rewrite store_ok by (cbn [arena]; rewrite ?blen_i64; lia). ir_run.
  set (m0 := MkMachine _ _ _ _). set (m1 := wrote m0 _ _).
  assert (blen (arena m1) = blen (arena m)) as E1 by (unfold m1; rewrite wrote_length; cbn [arena m0]; rewrite ?blen_i64; lia).
  assert (bytes_at (arena m1) (top m) (i64_to_le start)) as B1 by (apply splice_at; cbn [arena m0]; rewrite ?blen_i64; lia).
  rewrite (load_ok _ _ (u32_to_le start)) by (by apply narrow || lia || apply blen_u32). ir_run. rewrite u32_from_to by (split; [done|unfold U32_MAX; lia]).
  rewrite store_ok by (rewrite ?blen_i64; lia). ir_run. set (m2 := wrote m1 _ _).
  assert (blen (arena m2) = blen (arena m)) as E2 by (unfold m2; rewrite wrote_length; rewrite ?blen_i64; lia).
  assert (bytes_at (arena m2) (top m) (i64_to_le len)) as B2 by (apply splice_at; rewrite ?blen_i64; lia).
  rewrite (load_ok _ _ (u32_to_le len)) by (by apply narrow || lia || apply blen_u32). ir_run. rewrite u32_from_to by (split; [done|unfold U32_MAX; lia]).
  assert (top m2 = top m + 8) as T2 by (unfold top; cbn; lia).
  ir_run. rewrite alloc_room by (cbn [scratch_base scratch_cursor m2 m1 m0 wrote]; lia). ir_run. rewrite T2.
  set (m3 := MkMachine _ _ _ _). assert (extends m m3) as X3.
  { etransitivity; [|by apply (extends_alloc m2); lia]. do 2 (apply extends_wrote; [|cbn [arena m0]; rewrite ?blen_i64; lia..]). by apply extends_alloc. }
  set (part := take (Z.to_nat len) (drop (Z.to_nat start) s)).
  assert (blen part = len) as Hpl by (unfold part, blen in *; rewrite length_take, length_drop; lia).
  assert (bytes_at (arena m3) (p + 4 + start) part) as Bp.
  { apply (extends_bytes _ _ _ _ X3); [|lia]. pose proof (bytes_at_app _ _ _ _ (sa_bytes _ _ _ Hs)) as [_ Bs]. rewrite blen_u32 in Bs.
    rewrite <-(take_drop (Z.to_nat start) s) in Bs. apply bytes_at_app in Bs as [_ Bs]. rewrite <-(take_drop (Z.to_nat len) (drop _ s)) in Bs.
    apply bytes_at_app in Bs as [Bs _]. by replace (blen (take (Z.to_nat start) s)) with start in Bs by (unfold blen in *; rewrite length_take; lia). }
  rewrite store_ok by (cbn [arena m3]; rewrite ?blen_u32; lia). ir_run. pose proof (blen_u32 len) as H4.
  assert (blen (arena (wrote m3 (top m + 8) (u32_to_le len))) = blen (arena m)) as E4 by (rewrite wrote_length; cbn [arena m3]; lia).
  assert (bytes_at (arena (wrote m3 (top m + 8) (u32_to_le len))) (p + 4 + start) part) as Bp4 by (apply wrote_keeps; cbn [arena m3]; done || lia).
  pose proof (memcpy_ok (wrote m3 (top m + 8) (u32_to_le len)) (top m + 8 + 4) (p + 4 + start) part ltac:(lia) Bp4 ltac:(lia) ltac:(lia) ltac:(lia) ltac:(lia)) as Hcpy.
  rewrite Hpl in Hcpy. rewrite Hcpy. ir_run. eexists. split; [done|]. split.
  - split; [|split; unfold U32_MAX; lia]. rewrite Hpl. apply bytes_at_join; [apply wrote_keeps; [lia..|apply splice_at; cbn [arena m3]; lia]|].
    rewrite H4. apply splice_at; lia.
  - do 2 (apply extends_wrote; [|cbn [arena m3]; lia..]). done.
Qed.
End Strings.
End IrStrings.

(** The compiled string functions refine the evaluator's, except that [substring] cuts at bytes. *)

Module IrStringRefines.
Import Native StdLists StdStrings StdValidate Evaluator StdStringFacts Ir IrFacts IrRecords IrListRefines IrStrings.

Section Encoded.
Context {H : HostTypes}.

Lemma encoded_string b p s lo hi :
  enc_at 0 b p TString (VString s) lo hi -> string_at b p (as_bytes s) /\ is_str s = true /\ p + 4 + blen (as_bytes s) <= hi.
Proof.
  intros He. inversion He as [? ? ? ? Hs Hl _ Hb Hh| | | | |]; subst; try done. split_and!; [|done|done].
  split; [done|]. split; [apply blen_nonneg|done].
Qed.

Lemma string_encoded b p s hi :
  string_at b p (as_bytes s) -> is_str s = true -> p + 4 + blen (as_bytes s) <= hi -> enc_at 0 b p TString (VString s) p hi.
Proof. intros [Hb [_ Hl]] Hs Hh. by apply ea_string. Qed.
End Encoded.

Lemma len_codes s : blen (as_bytes s) = str_len s.
Proof. rewrite codes_len. unfold str_len. rewrite <-length_codes. done. Qed.

Section Refines.
Context {H : HostTypes} {TokenRange : Type} {Caps : NativeFnCaps TokenRange}.
Context {Img : Image} (powf : Z -> Z -> Z) (call_closure : Z -> Z -> list slot -> machine -> closure_result) (fuel : nat).
Notation run := (run powf call_closure fuel).

(** C30 The compiled [length], [is_empty], [is_uuid], [starts_with], [ends_with] and [contains] return
    what the evaluator's functions return on the same strings, and the compiled [concat] returns a
    pointer to an encoding of the string the evaluator's [concat] returns, for all strings the
    marshaller has put into the arena, with room for the result; what was below the scratch region
    is untouched.  A loop bound of the length of the first string plus the second and 36 is enough. *)
Theorem compiled_strings (m : machine) (p q lo hi lo' hi' : Z) (s t : string) (named : list (string * Value)) (range : TokenRange) (w : World) :
  enc_at 0 (arena m) p TString (VString s) lo hi -> enc_at 0 (arena m) q TString (VString t) lo' hi' -> blen (arena m) < 2 ^ 31 ->
  (String.length s + String.length t + 36 < fuel)%nat ->
  let one := MkArgs [VString s] named in let two := MkArgs [VString s; VString t] named in
  agrees (fst (Len one range w)) (run IrStdlib.length_string_to_int [Vi32 p] m) m /\
  agrees (fst (IsEmpty one range w)) (run IrStdlib.is_empty_string [Vi32 p] m) m /\
  agrees (fst (IsUuid one range w)) (run IrStdlib.is_uuid_string [Vi32 p] m) m /\
  agrees (fst (StringStartsWith two range w)) (run IrStdlib.starts_with_string [Vi32 p; Vi32 q] m) m /\
  agrees (fst (StringEndsWith two range w)) (run IrStdlib.ends_with_string [Vi32 p; Vi32 q] m) m /\
  agrees (fst (StringContains two range w)) (run IrStdlib.contains_string [Vi32 p; Vi32 q] m) m /\
  (0 <= scratch_base m -> 0 <= scratch_cursor m -> hi <= top m -> hi' <= top m ->
   top m + 4 + str_len s + str_len t <= blen (arena m) ->
   exists v m', StringConcat two range w = (Ok v, w) /\ run IrStdlib.concat_string_string [Vi32 p; Vi32 q] m = Done (Vi32 (top m)) m' /\
     enc_at 0 (arena m') (top m) TString v (top m) (blen (arena m')) /\ extends m m').
Proof.
  intros Hes Het Ha Hf. destruct (encoded_string _ _ _ _ _ Hes) as (Hs & Vs & Hps). destruct (encoded_string _ _ _ _ _ Het) as (Ht & Vt & Hqt).
  pose proof (string_len _ _ _ Ha Hs) as (Hl & Hn & Hp & _). pose proof (len_codes s) as Ls. pose proof (len_codes t) as Lt.
  assert (length (as_bytes s) = String.length s) as Ns by (unfold blen, str_len in Ls; lia). assert (length (as_bytes t) = String.length t) as Nt by (unfold blen, str_len in Lt; lia).
  cbv zeta. unfold IrListRefines.run. cbn [IrStdlib.body IrStdlib.length_string_to_int IrStdlib.is_empty_string IrStdlib.is_uuid_string
    IrStdlib.starts_with_string IrStdlib.ends_with_string IrStdlib.contains_string IrStdlib.concat_string_string]. split_and!.
  - unfold Ir.call. ir_run. rewrite Hl. ir_run. by rewrite Hn, Ls.
  - unfold Ir.call. ir_run. rewrite Hl. ir_run. by rewrite Hn, Ls.
  - by rewrite (is_uuid_body _ _ _ m p _ Ha Hs) by lia.
  - by rewrite (starts_with_body _ _ _ m p q _ _ Ha Hs Ht) by lia.
  - by rewrite (ends_with_body _ _ _ m p q _ _ Ha Hs Ht) by lia.
  - by rewrite (contains_body _ _ _ m p q _ _ Ha Hs Ht) by lia.
  - intros Hb Hc Hts Htt Hroom.
    destruct (concat_body powf call_closure fuel m p q (as_bytes s) (as_bytes t)) as (m' & Hr & Hst & Hext & _); [done..|lia|lia|lia|].
    exists (VString (s +:+ t)), m'. split_and!; [done|done| |done].
    assert (as_bytes (s +:+ t) = as_bytes s ++ as_bytes t) as Ec by (by rewrite Smol.as_bytes_app).
    assert (blen (as_bytes (s +:+ t)) = str_len s + str_len t) as El by (rewrite Ec; unfold blen in *; rewrite length_app; lia).
    apply string_encoded; [by rewrite Ec| |rewrite (ext_arena _ _ Hext); lia].
    by apply StdTypes.is_str_append.
Qed.

(** ** [substring] *)

Lemma boundary_here b (i : nat) j : bd b i -> first_boundary b (Z.of_nat i) j -> j = Z.of_nat i.
Proof. intros Hb (Hj & Hbj & Hle & Hmin). specialize (Hmin i Hb). lia. Qed.

Lemma codes_part t s i n : codes t = take n (drop i (codes s)) -> as_bytes t = take n (drop i (as_bytes s)).
Proof.
  intros Hc. assert (codes_of (as_bytes t) = codes_of (take n (drop i (as_bytes s)))) as Hm.
  { unfold codes_of. rewrite fmap_take, fmap_drop. exact Hc. }
  assert (Inj (=) (=) byte.unsigned) by (intros x y Hxy; rewrite <-(byte.of_Z_unsigned x), <-(byte.of_Z_unsigned y); by rewrite Hxy).
  by apply (inj (fmap byte.unsigned)) in Hm.
Qed.

(** C31 The compiled [substring] traps where the start or the length is negative or the end lies
    outside the string, with the bounds trap, or the overflow trap when their sum does not fit 64
    bits, and returns the bytes in between otherwise, in a new record.  Where both ends are
    character boundaries, that record is an encoding of the string the evaluator's [substring]
    returns, which moves other ends to the next boundary and clamps the rest. *)
Theorem compiled_substring (m : machine) (p lo hi start len : Z) (s : string) (named : list (string * Value)) (range : TokenRange) (w : World) :
  enc_at 0 (arena m) p TString (VString s) lo hi -> blen (arena m) < 2 ^ 31 -> is_i64 start -> is_i64 len ->
  (~ (0 <= start /\ 0 <= len /\ start + len <= str_len s) ->
   run IrStdlib.substring_string [Vi32 p; Vi64 start; Vi64 len] m =
     Trapped (if (start <? 0) || (len <? 0) || (start + len <? 2 ^ 63) then BoundsViolation else Overflow)) /\
  (0 <= start -> 0 <= len -> start + len <= str_len s -> 0 <= scratch_base m -> 0 <= scratch_cursor m -> hi <= top m ->
   top m + 12 + len <= blen (arena m) ->
   exists m', run IrStdlib.substring_string [Vi32 p; Vi64 start; Vi64 len] m = Done (Vi32 (top m + 8)) m' /\ extends m m' /\
     string_at (arena m') (top m + 8) (take (Z.to_nat len) (drop (Z.to_nat start) (as_bytes s))) /\
     (bd (codes s) (Z.to_nat start) -> bd (codes s) (Z.to_nat (start + len)) ->
      exists t, StringSubstring (MkArgs [VString s; VInt start; VInt len] named) range w = (Ok (VString t), w) /\
        enc_at 0 (arena m') (top m + 8) TString (VString t) (top m + 8) (blen (arena m')))).
Proof.
  intros Hes Ha Hst Hlen. destruct (encoded_string _ _ _ _ _ Hes) as (Hs & Vs & Hps). pose proof (len_codes s) as Ls.
  unfold IrListRefines.run. cbn [IrStdlib.body IrStdlib.substring_string]. split.
  - intros Hout. apply (substring_body _ _ _ m p (as_bytes s)); try done. by rewrite Ls.
  - intros H0 H1 Hin Hb Hc Ht Hroom. pose proof (string_len _ _ _ Ha Hs) as (_ & _ & Hp & _ & He).
    destruct (substring_body_in powf call_closure fuel m p (as_bytes s) start len) as (m' & Hr & Hsub & Hext); [done..|lia|done|done|lia|done|].
    exists m'. split_and!; [done|done|done|]. intros B1 B2.
    destruct (substring_bounds s start len named range w) as (t & i & j & Et & Vt & Bi & Bj & Ec);
      [done|unfold ISIZE_MAX, str_len in *; lia|by apply in_i64_iff..|]. cbv zeta in Bi, Bj. fold (str_len s) in Bi, Bj.
    replace (Z.max 0 (Z.min start (str_len s))) with (Z.of_nat (Z.to_nat start)) in Bi, Bj by lia.
    replace (Z.max (Z.of_nat (Z.to_nat start)) (Z.min (Z.of_nat (Z.to_nat start) + Z.max len 0) (str_len s))) with (Z.of_nat (Z.to_nat (start + len))) in Bj by lia.
    apply boundary_here in Bi as ->; [|done]. apply boundary_here in Bj as ->; [|done]. apply codes_part in Ec.
    replace (Z.to_nat (Z.of_nat (Z.to_nat (start + len)) - Z.of_nat (Z.to_nat start))) with (Z.to_nat len) in Ec by lia. rewrite Nat2Z.id in Ec.
    exists t. split; [done|]. apply string_encoded; [by rewrite Ec|done|].
    rewrite Ec, (ext_arena _ _ Hext). unfold blen at 1. rewrite length_take. lia.
Qed.
End Refines.

#[local] Existing Instance unit_host.

(** ["héllo"] at offset 8 and ["lo"] at offset 20. *)
Definition sample_strings : machine :=
  MkMachine (repeat Byte.x00 8 ++ u32_to_le 6 ++ as_bytes "héllo" ++ repeat Byte.x00 2 ++ u32_to_le 2 ++ as_bytes "lo" ++ repeat Byte.x00 46) 32 0 None.

Lemma sample_first : enc_at 0 (arena sample_strings) 8 TString (VString "héllo") 8 18.
Proof. apply ea_string; try done. bytes_literal. Qed.
Lemma sample_second : enc_at 0 (arena sample_strings) 20 TString (VString "lo") 20 26.
Proof. apply ea_string; try done. bytes_literal. Qed.

Lemma compiled_strings_witness :
  let c := evaluator_caps (plain_host None None) in
  run (Img := blank_image) (fun a _ => a) first_argument 64 IrStdlib.ends_with_string [Vi32 8; Vi32 20] sample_strings = Done (Vi32 1) sample_strings /\
  exists m', run (Img := blank_image) (fun a _ => a) first_argument 64 IrStdlib.concat_string_string [Vi32 8; Vi32 20] sample_strings = Done (Vi32 32) m' /\
    enc_at 0 (arena m') 32 TString (VString "héllolo") 32 (blen (arena m')).
Proof.
  cbv zeta.
  destruct (compiled_strings (Caps := evaluator_caps (plain_host None None)) (Img := blank_image) (fun a _ => a) first_argument 64 sample_strings 8 20 8 18 20 26
    "héllo" "lo" [] tt (MkWorld 0 ∅ 0) sample_first sample_second) as (_ & _ & _ & _ & A & _ & B); [reflexivity|cbn; lia|].
  split; [exact A|]. destruct B as (v & m' & Ev & Hm & He & _); [vm_compute; congruence..|]. injection Ev as <-.
  exists m'. split; [exact Hm|exact He].
Defined.

Lemma compiled_substring_witness :
  run (Img := blank_image) (fun a _ => a) first_argument 1 IrStdlib.substring_string [Vi32 8; Vi64 3; Vi64 4] sample_strings = Trapped BoundsViolation /\
  exists m', run (Img := blank_image) (fun a _ => a) first_argument 1 IrStdlib.substring_string [Vi32 8; Vi64 1; Vi64 3] sample_strings = Done (Vi32 40) m' /\
    string_at (arena m') 40 (as_bytes "él").
Proof.
  split.
  - destruct (compiled_substring (Caps := evaluator_caps (plain_host None None)) (Img := blank_image) (fun a _ => a) first_argument 1 sample_strings 8 8 18 3 4
      "héllo" [] tt (MkWorld 0 ∅ 0) sample_first) as [A _]; [reflexivity|unfold is_i64; lia..|]. apply A. unfold str_len; cbn. lia.
  - destruct (compiled_substring (Caps := evaluator_caps (plain_host None None)) (Img := blank_image) (fun a _ => a) first_argument 1 sample_strings 8 8 18 1 3
      "héllo" [] tt (MkWorld 0 ∅ 0) sample_first) as [_ A]; [reflexivity|unfold is_i64; lia..|].
    destruct A as (m' & Hm & _ & Hs & _); [vm_compute; congruence..|]. exists m'. split; [exact Hm|exact Hs].
Defined.

(** The compiled [substring] of ["héllo"] from 1 of length 1 is half a character, where the evaluator
    returns the whole one. *)
Lemma substring_splits_characters :
  utf8_valid (take 1 (drop 1 (as_bytes "héllo"))) = false /\
  (exists m', run (Img := blank_image) (fun a _ => a) first_argument 1 IrStdlib.substring_string [Vi32 8; Vi64 1; Vi64 1] sample_strings = Done (Vi32 40) m' /\
    string_at (arena m') 40 (take 1 (drop 1 (as_bytes "héllo")))) /\
  fst (StringSubstring (Caps := evaluator_caps (plain_host None None)) (MkArgs [VString "héllo"; VInt 1; VInt 1] []) tt (MkWorld 0 ∅ 0)) = Ok (VString "é").
Proof.
  split_and!; [vm_compute; reflexivity| |vm_compute; reflexivity]. pose proof (encoded_string _ _ _ _ _ sample_first) as (Hs & _).
  destruct (substring_body_in (Img := blank_image) (fun a _ => a) first_argument 1 sample_strings 8 (as_bytes "héllo") 1 1) as (m' & Hm & Hsub & _);
    [reflexivity|vm_compute; congruence|vm_compute; congruence|exact Hs|vm_compute; congruence..|].
  exists m'. split; [exact Hm|exact Hsub].
Qed.
End IrStringRefines.
