(* ===== verification/IrMath.v ===== *)
(** Rounding a double to an integral double and converting it, as compiled code does, is the
    evaluator's rounding to an integer. *)

From Stdlib Require Import ZArith Lia Bool SpecFloat.
From stdpp Require Import base list strings gmap.
From S2P Require Import Prelude Bytes SchemaCanonical Layout LayoutFacts Value BufferTypes IndexFacts Reader ReaderFacts VerifiedRead Relocation.
From S2P Require Import Encoding NumberLit Arith StdLists StdMath Native StdFacts Ir IrStdlib IrFacts IrRecords.
From S2P Require Import IrLists.
Local Open Scope Z_scope.

Module IrFloats.
Import Arith StdMath Ir.

Lemma digits_log2 m : Zpos (digits2_pos m) = Z.log2 (Zpos m) + 1.
Proof.
  induction m as [m IH|m IH|]; cbn [digits2_pos]; [| |done]; rewrite Pos2Z.inj_succ, IH.
  - rewrite (Pos2Z.inj_xI m), Z.log2_succ_double by lia. lia.
  - rewrite (Pos2Z.inj_xO m), Z.log2_double by lia. lia.
Qed.

Lemma iter_xO m k : Zpos (Pos.iter xO m k) = Zpos m * 2 ^ Zpos k.
Proof.
  induction k as [|k IH] using Pos.peano_ind; [cbn; lia|]. rewrite Pos.iter_succ, Pos2Z.inj_succ, Z.pow_succ_r by lia.
  rewrite (Pos2Z.inj_xO (Pos.iter xO m k)), IH. lia.
Qed.

(** Rounding leaves a mantissa of 53 digits alone. *)
Lemma round_aux_exact s m e : Z.log2 (Zpos m) = 52 -> -1074 <= e <= 971 -> binary_round_aux 53 1024 s (Zpos m) e loc_Exact = S754_finite s m e.
Proof.
  intros Hm He. assert (forall x, x = Zpos m -> shr_fexp 53 1024 x e loc_Exact = (Build_shr_record x false false, e)) as Hs.
  { intros x ->. unfold shr_fexp. cbn [Zdigits2 shr_record_of_loc]. rewrite digits_log2, Hm. unfold fexp, emin.
    replace (Z.max (52 + 1 + e - 53) (3 - 1024 - 53) - e) with 0 by lia. done. }
  unfold binary_round_aux. rewrite Hs by done. cbn [shr_m loc_of_shr_record round_nearest_even]. rewrite Hs by done. cbn [shr_m].
  by destruct (Z.leb_spec e (1024 - 53)); [|lia].
Qed.

(** An integer below 2^53 is a double: [m] shifted to 53 digits. *)
Lemma round_int_exact s m : Zpos m < 2 ^ 53 ->
  exists m' k, 0 <= k <= 52 /\ binary_round 53 1024 s m 0 = S754_finite s m' (- k) /\ Zpos m' = Zpos m * 2 ^ k /\ 2 ^ 52 <= Zpos m' < 2 ^ 53.
Proof.
  intros Hm. set (k := 52 - Z.log2 (Zpos m)). assert (0 <= k <= 52) as Hk.
  { pose proof (Z.log2_nonneg (Zpos m)). assert (Z.log2 (Zpos m) < 53) by (apply Z.log2_lt_pow2; lia). lia. }
  pose proof (Z.log2_spec (Zpos m) ltac:(lia)) as Hl.
  assert (2 ^ 52 <= Zpos m * 2 ^ k < 2 ^ 53) as Hb.
  { replace (2 ^ 52) with (2 ^ Z.log2 (Zpos m) * 2 ^ k) by (rewrite <-Z.pow_add_r by lia; f_equal; lia).
    replace (2 ^ 53) with (2 ^ Z.succ (Z.log2 (Zpos m)) * 2 ^ k) by (rewrite <-Z.pow_add_r by lia; f_equal; lia).
    pose proof (Z.pow_pos_nonneg 2 k). nia. }
  unfold binary_round. rewrite digits_log2. unfold fexp, emin.
  replace (Z.max (Z.log2 (Zpos m) + 1 + 0 - 53) (3 - 1024 - 53)) with (- k) by lia. unfold shl_align.
  destruct (- k - 0) as [|d|d] eqn:Ed; [|lia|].
  - assert (k = 0) as E0 by lia. rewrite E0 in *. exists m, 0. split; [lia|]. rewrite round_aux_exact; [|lia|lia]. split_and!; [done|lia|lia|lia].
  - exists (Pos.iter xO m d), k. assert (Zpos d = k) as Hd by lia. assert (Zpos (Pos.iter xO m d) = Zpos m * 2 ^ k) as Hi by (by rewrite iter_xO, Hd).
    split; [lia|]. rewrite round_aux_exact; [|rewrite Hi; apply Z.log2_unique; lia|lia]. split_and!; [done|done|lia|lia].
Qed.

Lemma spec_of_finite s m e :
  2 ^ 52 <= Zpos m < 2 ^ 53 -> -1074 <= e <= 971 -> to_spec (of_spec (S754_finite s m e)) = S754_finite s m e.
Proof.
  intros Hm He. cbn [of_spec]. destruct (Z.ltb_spec (Zpos m) (2 ^ 52)); [lia|].
  set (low := (e + 1074) * 2 ^ 52 + Zpos m). 
  assert (low = (e + 1075) * 2 ^ 52 + (Zpos m - 2 ^ 52)) as Hlow by (unfold low; lia).
  assert (f64_sign ((if s then 2 ^ 63 else 0) + low) = s) as Hs.
  { unfold f64_sign. destruct s; [destruct (Z.leb_spec (2 ^ 63) (2 ^ 63 + low))|destruct (Z.leb_spec (2 ^ 63) (0 + low))]; done || lia. }
  assert (f64_fraction ((if s then 2 ^ 63 else 0) + low) = Zpos m - 2 ^ 52) as Hf.
  { unfold f64_fraction. replace ((if s then 2 ^ 63 else 0) + low) with (Zpos m - 2 ^ 52 + ((if s then 2048 else 0) + e + 1075) * 2 ^ 52) by (destruct s; lia).
    rewrite Z.mod_add by lia. apply Z.mod_small. lia. }
  assert (f64_exponent ((if s then 2 ^ 63 else 0) + low) = e + 1075) as Hx.
  { unfold f64_exponent. replace ((if s then 2 ^ 63 else 0) + low) with (Zpos m - 2 ^ 52 + ((if s then 2048 else 0) + e + 1075) * 2 ^ 52) by (destruct s; lia).
    rewrite Z.div_add, (Z.div_small (Zpos m - 2 ^ 52)) by lia. destruct s; [|apply Z.mod_small; lia].
    replace (0 + (2048 + e + 1075)) with (e + 1075 + 1 * 2048) by lia. rewrite Z.mod_add by lia. apply Z.mod_small. lia. }
  unfold to_spec. rewrite Hs, Hf, Hx. destruct (Z.eqb_spec (e + 1075) 2047); [lia|]. destruct (Z.eqb_spec (e + 1075) 0); [lia|].
  replace (Zpos m - 2 ^ 52 + 2 ^ 52) with (Zpos m) by lia. f_equal. lia.
Qed.

(** The integral double of a small integer converts back to it. *)
Lemma finite_back s m : Zpos m < 2 ^ 53 -> f64_to_i64_sat (of_spec (binary_round 53 1024 s m 0)) = saturate (signed s m).
Proof.
  intros Hm. destruct (round_int_exact s m Hm) as (m' & k & Hk & -> & Hm' & Hb).
  unfold f64_to_i64_sat, f64_to_int. rewrite spec_of_finite by lia. f_equal. unfold trunc_int.
  assert (signed s m' = signed s m * 2 ^ k) as -> by (unfold signed; destruct s; lia).
  destruct (Z.leb_spec 0 (- k)); [replace k with 0 by lia; simpl; lia|]. rewrite Z.opp_involutive. apply Z.quot_mul. pose proof (Z.pow_pos_nonneg 2 k). lia.
Qed.

Lemma small_int_back v s : Z.abs v < 2 ^ 53 -> f64_to_i64_sat (of_spec (binary_normalize 53 1024 v 0 s)) = saturate v.
Proof.
  intros Hv. destruct v as [|m|m]; [by destruct s|apply (finite_back false); lia|apply (finite_back true); lia].
Qed.

Lemma to_spec_small bits s m e : to_spec bits = S754_finite s m e -> Zpos m < 2 ^ 53.
Proof.
  unfold to_spec. assert (0 <= f64_fraction bits < 2 ^ 52) as Hf by (apply Z.mod_pos_bound; lia).
  destruct (f64_exponent bits =? 2047); [by destruct (f64_fraction bits =? 0)|]. destruct (f64_exponent bits =? 0).
  - destruct (f64_fraction bits) eqn:E; try done. intros [= _ <- _]. lia.
  - destruct (f64_fraction bits + 2 ^ 52) eqn:E; try done. intros [= _ <- _]. lia.
Qed.

(** A rounding that is exact on integers and stays next to the fraction otherwise. *)
Record rounds (round : bool -> positive -> Z -> Z) : Prop := {
  rounds_int : forall s m e, 0 <= e -> round s m e = signed s m * 2 ^ e;
  rounds_near : forall s m e, e < 0 -> signed s m / 2 ^ (- e) <= round s m e <= signed s m / 2 ^ (- e) + 1;
}.

Lemma floor_rounds : rounds floor_int.
Proof. split; intros s m e He; unfold floor_int, floor_ratio; destruct (Z.leb_spec 0 e); lia. Qed.
Lemma ceil_rounds : rounds ceil_int.
Proof.
  split; intros s m e He; unfold ceil_int, floor_ratio; destruct (Z.leb_spec 0 e); try lia.
  pose proof (Z.pow_pos_nonneg 2 (- e)). pose proof (Z.div_mod (signed s m) (2 ^ - e)). pose proof (Z.mod_pos_bound (signed s m) (2 ^ - e)).
  pose proof (Z.div_mod (- signed s m) (2 ^ - e)). pose proof (Z.mod_pos_bound (- signed s m) (2 ^ - e)). nia.
Qed.
Lemma nearest_rounds : rounds round_int.
Proof.
  split; intros s m e He; unfold round_int; destruct (Z.leb_spec 0 e); try lia. cbv zeta.
  destruct (_ <? _); [lia|]. destruct (_ <? _); [lia|]. destruct (Z.even _); lia.
Qed.

Lemma rounded_conversion round bits : rounds round -> f64_to_i64_sat (round_f64 round bits) = f64_to_int round bits.
Proof.
  intros [Hi Hn]. unfold round_f64. unfold f64_to_int at 1. destruct (to_spec bits) as [s|s| |s m e] eqn:E.
  1-3: unfold f64_to_i64_sat, f64_to_int; by rewrite E.
  destruct (Z.leb_spec 0 e).
  - unfold f64_to_i64_sat, f64_to_int. rewrite E. unfold trunc_int. destruct (Z.leb_spec 0 e); [|lia]. by rewrite Hi.
  - rewrite small_int_back; [done|]. apply to_spec_small in E. specialize (Hn s m e ltac:(lia)).
    assert (2 <= 2 ^ (- e)) by (change 2 with (2 ^ 1) at 1; apply Z.pow_le_mono_r; lia).
    pose proof (Z.div_mod (signed s m) (2 ^ - e) ltac:(lia)). pose proof (Z.mod_pos_bound (signed s m) (2 ^ - e) ltac:(lia)).
    assert (- 2 ^ 53 < signed s m < 2 ^ 53) by (unfold signed; destruct s; lia). nia.
Qed.
End IrFloats.

(** The compiled scalar functions, and the bounds checks of compiled memory accesses. *)

Local Open Scope abi_scope.

Module IrMath.
Import Native StdMath StdLists Evaluator Ir IrFacts IrRecords IrListRefines IrFloats.

Section Scalars.
Context {H : HostTypes} {TokenRange : Type} {Caps : NativeFnCaps TokenRange}.
Context {Img : Image} (powf : Z -> Z -> Z) (call_closure : Z -> Z -> list slot -> machine -> closure_result) (fuel : nat).
Notation run := (run powf call_closure fuel).

Ltac scalar :=
  unfold IrListRefines.run, IrStdlib.floor_float_to_int, IrStdlib.ceil_float_to_int, IrStdlib.round_float_to_int, IrStdlib.sqrt_float, IrStdlib.abs_float,
    IrStdlib.pow_float, IrStdlib.in_range_float, IrStdlib.multiple_of_int, IrStdlib.abs_int, IrStdlib.min_int, IrStdlib.max_int;
  cbn [IrStdlib.body]; unfold IrStdlib.in_range_float_body, IrStdlib.multiple_of_int_body, Ir.call; ir_run.

(** C32 The compiled [floor], [ceil] and [round] convert a double through an integral double, and
    still return the evaluator's integer on every bit pattern; [sqrt], [pow], [abs] and [in_range]
    on floats and [multiple_of] on integers return the evaluator's result too, but where the
    evaluator panics on the remainder of [i64::MIN] and [-1] the compiled code traps.  [abs] on
    integers traps on [i64::MIN] and is the absolute value otherwise; [min] and [max] are exact. *)
Theorem compiled_scalars (m : machine) (f g h i j : Z) (named : list (string * Value)) (range : TokenRange) (w : World) :
  is_i64 i -> is_i64 j ->
  let one v := MkArgs [v] named in
  agrees (fst (MathFloor (one (VFloat f)) range w)) (run IrStdlib.floor_float_to_int [Vf64 f] m) m /\
  agrees (fst (MathCeil (one (VFloat f)) range w)) (run IrStdlib.ceil_float_to_int [Vf64 f] m) m /\
  agrees (fst (MathRound (one (VFloat f)) range w)) (run IrStdlib.round_float_to_int [Vf64 f] m) m /\
  agrees (fst (MathSqrt (one (VFloat f)) range w)) (run IrStdlib.sqrt_float [Vf64 f] m) m /\
  agrees (fst (MathAbsFloat (one (VFloat f)) range w)) (run IrStdlib.abs_float [Vf64 f] m) m /\
  agrees (fst (MathPow powf (MkArgs [VFloat f; VFloat g] named) range w)) (run IrStdlib.pow_float [Vf64 f; Vf64 g] m) m /\
  agrees (fst (InRange (MkArgs [VFloat f; VFloat g; VFloat h] named) range w)) (run IrStdlib.in_range_float [Vf64 f; Vf64 g; Vf64 h] m) m /\
  match fst (MultipleOf (MkArgs [VInt i; VInt j] named) range w) with
  | Abort => run IrStdlib.multiple_of_int [Vi64 i; Vi64 j] m = Trapped Overflow
  | r => agrees r (run IrStdlib.multiple_of_int [Vi64 i; Vi64 j] m) m
  end /\
  run IrStdlib.abs_int [Vi64 i] m = (if i =? - 2 ^ 63 then Trapped Overflow else Done (Vi64 (Z.abs i)) m) /\
  run IrStdlib.min_int [Vi64 i; Vi64 j] m = Done (Vi64 (Z.min i j)) m /\
  run IrStdlib.max_int [Vi64 i; Vi64 j] m = Done (Vi64 (Z.max i j)) m.
Proof.
  intros Hi Hj. cbv zeta. split_and!.
  - scalar. cbn [f64_unary]. rewrite rounded_conversion by apply floor_rounds. done.
  - scalar. cbn [f64_unary]. rewrite rounded_conversion by apply ceil_rounds. done.
  - scalar. cbn [f64_unary]. rewrite rounded_conversion by apply nearest_rounds. done.
  - by scalar.
  - by scalar.
  - by scalar.
  - scalar. unfold InRange. run_checks. cbn [agrees to_f64_val fst ret]. by destruct (Arith.f64_le g f), (Arith.f64_le f h).
  - scalar. unfold MultipleOf, rem_i64, Arith.checked_rem. run_checks. destruct (Z.eqb_spec j 0) as [Hz|Hz]; ir_run; [done|].
    unfold mod_op. cbn [stack]. destruct (Z.eqb_spec j 0); [lia|]. destruct ((i =? - 2 ^ 63) && (j =? -1)); ir_run; [done|]. cbn. by destruct (Z.rem i j =? 0).
  - scalar. destruct (Z.eqb_spec i (- 2 ^ 63)) as [->|Hne]; [done|]. scalar. destruct (Z.ltb_spec i 0); ir_run; do 2 f_equal; lia.
  - scalar. destruct (Z.ltb_spec i j); ir_run; do 2 f_equal; lia.
  - scalar. destruct (Z.gtb_spec i j); ir_run; do 2 f_equal; lia.
Qed.
End Scalars.

(** ** Bounds checks *)

(** C33 The check before a memory access adds offset and size modulo 2^32.  Bytes inside the arena
    are granted and, as long as the sum does not pass 2^32, bytes outside are denied; with a sum
    from 2^32 on, the access goes ahead outside the arena exactly when the wrapped sum is at most
    the arena's length.  A scratch allocation that passes the check in this way moves the cursor
    back, or past the arena. *)
Theorem bounds_checks_exact (m : machine) (off size : Z) :
  0 <= off < 2 ^ 32 -> 0 <= size < 2 ^ 32 -> blen (arena m) < 2 ^ 32 ->
  (arena_addr m off size = Granted tt <-> off + size <= blen (arena m)) /\
  (arena_addr m off size = Unsafe <-> 2 ^ 32 <= off + size <= 2 ^ 32 + blen (arena m)) /\
  (0 <= scratch_base m -> 0 <= scratch_cursor m -> top m <= blen (arena m) ->
   match alloc_scratch m size with
   | Some (p, m') => p = top m /\ (top m + size <= blen (arena m) /\ top m' = top m + size \/
                                  2 ^ 32 <= top m + size /\ (top m' < top m \/ 2 ^ 32 <= top m'))
   | None => blen (arena m) < top m + size < 2 ^ 32
   end).
Proof.
  intros Ho Hs Ha. assert (forall z, 0 <= z < 2 ^ 33 -> wrap32 z = if z <? 2 ^ 32 then z else z - 2 ^ 32) as Hw.
  { intros z Hz. unfold wrap32. destruct (Z.ltb_spec z (2 ^ 32)); [apply Z.mod_small; lia|].
    replace z with (z - 2 ^ 32 + 1 * 2 ^ 32) at 1 by lia. rewrite Z.mod_add by lia. apply Z.mod_small. lia. }
  split_and!.
  - unfold arena_addr. rewrite Hw by lia. destruct (Z.ltb_spec (off + size) (2 ^ 32)), (Z.ltb_spec (blen (arena m)) (off + size)),
      (Z.ltb_spec (blen (arena m)) (off + size - 2 ^ 32)), (Z.leb_spec (off + size) (blen (arena m))); split; done || lia.
  - unfold arena_addr. rewrite Hw by lia. destruct (Z.ltb_spec (off + size) (2 ^ 32)), (Z.ltb_spec (blen (arena m)) (off + size)),
      (Z.ltb_spec (blen (arena m)) (off + size - 2 ^ 32)), (Z.leb_spec (off + size) (blen (arena m))); split; done || lia.
  - intros Hb Hc Ht. unfold alloc_scratch. unfold top in *. rewrite !Hw by lia.
    destruct (Z.ltb_spec (scratch_base m + scratch_cursor m + size) (2 ^ 32)), (Z.ltb_spec (blen (arena m)) (scratch_base m + scratch_cursor m + size)),
      (Z.ltb_spec (blen (arena m)) (scratch_base m + scratch_cursor m + size - 2 ^ 32)), (Z.ltb_spec (scratch_base m + scratch_cursor m) (2 ^ 32)),
      (Z.ltb_spec (scratch_cursor m + size) (2 ^ 32)); cbn [scratch_base scratch_cursor]; try lia.
Qed.

#[local] Existing Instance unit_host.

Lemma compiled_scalars_witness :
  let c := evaluator_caps (plain_host None None) in
  run (Img := blank_image) (fun a _ => a) first_argument 1 IrStdlib.abs_int [Vi64 (- 2 ^ 63)] sample_machine = Trapped Overflow /\
  run (Img := blank_image) (fun a _ => a) first_argument 1 IrStdlib.max_int [Vi64 (- 2 ^ 63); Vi64 (-1)] sample_machine = Done (Vi64 (-1)) sample_machine.
Proof.
  cbv zeta.
  destruct (compiled_scalars (Caps := evaluator_caps (plain_host None None)) (Img := blank_image) (fun a _ => a) first_argument 1 sample_machine 0 0 0 (- 2 ^ 63) (-1)
    [] tt (MkWorld 0 ∅ 0)) as (_ & _ & _ & _ & _ & _ & _ & _ & A & _ & B); [unfold is_i64; lia..|].
  split; [exact A|exact B].
Defined.

(** An 8-byte access 4 bytes below 2^32. *)
Lemma bounds_checks_exact_witness : arena_addr sample_machine (2 ^ 32 - 4) 8 = Unsafe.
Proof.
  destruct (bounds_checks_exact sample_machine (2 ^ 32 - 4) 8) as (_ & A & _); [lia..|vm_compute; reflexivity|].
  apply A. vm_compute. split; congruence.
Defined.
End IrMath.
