(* ===== verification/IrText.v ===== *)
(** The ops that make strings: the joined record of [StrConcatN], the decimal text of [IntToStr],
    the text of [FloatToStr], and [Add] on strings.  Each one leaves a record behind what was in use. *)

From Stdlib Require Import ZArith Lia Bool.
From coqutil Require Import Byte Word.LittleEndianList.
From stdpp Require Import base list strings pretty.
From S2P Require Import Prelude Bytes SchemaCanonical Layout LayoutFacts Value BufferTypes IndexFacts Reader ReaderFacts VerifiedRead Relocation.
From S2P Require Import Encoding SmolStr NumberLit Arith Native Ir IrStdlib IrFacts IrRecords IrStrings.
Local Open Scope Z_scope.
Local Open Scope abi_scope.

Module IrText.
Import Ir IrFacts IrRecords IrStrings.

(** A string record of [size] bytes allocated behind [m]. *)
Record adds_string (m : machine) (size : Z) (s : bytes) (m' : machine) : Prop := {
  as_extends : extends m m';
  as_string : string_at (arena m') (top m) s;
  as_fits : top m + 4 + blen s <= top m';
  as_top : top m' = top m + size;
}.

Lemma arena_ok_top m : arena_ok m -> 0 <= top m <= blen (arena m).
Proof. intros [_ Hn Hi]. unfold top. lia. Qed.

Lemma extends_ok m m' : arena_ok m -> extends m m' -> top m' <= blen (arena m') -> arena_ok m'.
Proof.
  intros [Ha Hn Hi] [Ea Eb Ec _] Ht. unfold top in *. split; [by rewrite Ea|lia|done].
Qed.

Lemma extends_top m m' : extends m m' -> top m <= top m'.
Proof. intros [_ Eb Ec _]. unfold top. lia. Qed.

Lemma extends_string m m' p s : extends m m' -> string_at (arena m) p s -> p + 4 + blen s <= top m -> string_at (arena m') p s.
Proof.
  intros He [Hb Hs] Ht. split; [|done]. eapply extends_bytes; [done|done|]. rewrite blen_app, blen_u32. lia.
Qed.

Lemma string_payload b p s : string_at b p s -> bytes_at b (p + 4) s.
Proof. intros [Hb _]. apply bytes_at_app in Hb as [_ Hb]. by rewrite blen_u32 in Hb. Qed.

(** ** [StrConcatN] *)

Lemma offsets_of offs : offsets (Vi32 <$> offs) = Some offs.
Proof. induction offs as [|p offs IH]; [done|]. rewrite fmap_cons. cbn [offsets]. by rewrite IH. Qed.

Lemma blen_concat (ss : list bytes) : blen (concat ss) = foldr Z.add 0 (blen <$> ss).
Proof. induction ss as [|s ss IH]; [done|]. rewrite fmap_cons. cbn [concat foldr]. rewrite blen_app. lia. Qed.

Lemma lens_ok m offs ss :
  blen (arena m) < 2 ^ 31 -> Forall2 (string_at (arena m)) offs ss -> load_lens m offs = Granted (blen <$> ss).
Proof.
  intros Ha Hs. induction Hs as [|p s offs ss Hp _ IH]; [done|]. pose proof (string_len _ _ _ Ha Hp) as (Hl & Hn & _).
  rewrite fmap_cons. cbn [load_lens]. by rewrite Hl, IH, Hn.
Qed.

(** The 32-bit sum of lengths that fit. *)
Lemma total_ok lens a :
  0 <= a -> Forall (fun n => 0 <= n) lens -> a + foldr Z.add 0 lens < 2 ^ 32 ->
  foldl (fun a b => wrap32 (a + b)) a lens = a + foldr Z.add 0 lens.
Proof.
  intros H0 Hl. revert a H0. induction Hl as [|n lens Hn Hl IH]; intros a H0 Hs; cbn [foldl foldr] in *; [lia|].
  assert (0 <= foldr Z.add 0 lens) by (clear -Hl; induction Hl; simpl; lia).
  rewrite wrap32_small by lia. rewrite IH by lia. lia.
Qed.

Lemma lens_nonneg (ss : list bytes) : Forall (fun n => 0 <= n) (blen <$> ss).
Proof. apply Forall_fmap, Forall_forall. intros s _. apply blen_nonneg. Qed.

(** The payloads are read below [base] and written above. *)
Lemma copies_ok base offs ss :
  forall m cursor, blen (arena m) < 2 ^ 31 -> 0 <= base <= cursor -> cursor + blen (concat ss) <= blen (arena m) ->
  Forall2 (fun p s => string_at (arena m) p s /\ p + 4 + blen s <= base) offs ss ->
  exists m', copy_payloads m cursor (combine offs (blen <$> ss)) = Granted m' /\ bytes_at (arena m') cursor (concat ss) /\
    same_on (arena m) (arena m') 0 cursor /\ blen (arena m') = blen (arena m) /\
    scratch_base m' = scratch_base m /\ scratch_cursor m' = scratch_cursor m /\ trap_code m' = trap_code m.
Proof.
  revert ss. induction offs as [|p offs IH]; intros ss m cursor Ha Hb Hr Hs; apply Forall2_cons_inv_l in Hs || apply Forall2_nil_inv_l in Hs.
  - subst ss. exists m. cbn. split_and!; try done. split; [lia|done].
  - destruct Hs as (s & ss' & [Hp Hpb] & Hs & ->). rewrite fmap_cons. cbn [concat combine copy_payloads] in *.
    pose proof (string_len _ _ _ Ha Hp) as (_ & _ & Hp0 & Hn & He). pose proof (blen_nonneg (concat ss')). rewrite blen_app in Hr.
    rewrite (wrap32_small (p + 4)) by lia. rewrite memcpy_ok; [|done|by apply string_payload|lia|lia|lia|lia].
    rewrite wrap32_small by lia. set (m1 := wrote m cursor s).
    assert (blen (arena m1) = blen (arena m)) as E1 by (apply splice_length; lia).
    destruct (IH ss' m1 (cursor + blen s)) as (m' & Hc & Hat & Hsame & Hl & Hba & Hcu & Htr); [lia|lia|lia| |].
    { eapply Forall2_impl; [exact Hs|]. intros q t [Hq Hqb]. split; [|done]. split; [|apply Hq].
      pose proof (blen_nonneg t). apply wrote_keeps; [lia|lia| |apply Hq]. rewrite blen_app, blen_u32. lia. }
    exists m'. split_and!; [done| | |congruence|done|done|done].
    + apply bytes_at_join; [|done]. eapply bytes_at_same; [apply (splice_at (arena m)); lia|exact Hsame|lia|lia].
    + eapply same_on_trans; [|eapply same_on_sub; [exact Hsame|lia|lia]]. apply splice_same; lia.
Qed.

Lemma concat_n_ok (f : frame) offs ss s :
  arena_ok (mach f) -> stack f = rev (Vi32 <$> offs) ++ s -> (2 <= length offs)%nat ->
  Forall2 (fun p s => string_at (arena (mach f)) p s /\ p + 4 + blen s <= top (mach f)) offs ss ->
  top (mach f) + 4 + blen (concat ss) <= blen (arena (mach f)) ->
  exists m', str_concat_n f (length offs) = Next (MkFrame (Vi32 (top (mach f)) :: s) (params f) (lets f) m') /\
    adds_string (mach f) (4 + blen (concat ss)) (concat ss) m'.
Proof.
  intros Hok Hst H2 Hs Hroom. destruct f as [stk ps L m]. cbn [stack params lets mach] in *. subst stk.
  pose proof (arena_ok_top _ Hok) as Ht. destruct Hok as [Ha Hn Hi].
  assert (length (rev (Vi32 <$> offs)) = length offs) as Hlen by (by rewrite length_rev, length_fmap).
  unfold str_concat_n. cbn [stack params lets mach]. rewrite length_app, Hlen.
  destruct (Nat.ltb_spec (length offs) 2); [lia|]. destruct (Nat.ltb_spec (length offs + length s) (length offs)); [lia|]. cbn [orb].
  rewrite (take_app_length' _ s _ (eq_sym Hlen)), rev_involutive, offsets_of.
  rewrite (lens_ok m offs ss) by (done || (eapply Forall2_impl; [exact Hs|by intros ?? []])). cbn [after].
  pose proof (blen_nonneg (concat ss)) as Hpos. pose proof (blen_concat ss) as Hc.
  rewrite total_ok by (lia || apply lens_nonneg). rewrite Z.add_0_l, <-Hc, wrap32_small by lia.
  rewrite alloc_room by lia. set (m0 := MkMachine _ _ _ _). pose proof (blen_u32 (blen (concat ss))) as H4.
  rewrite store_ok by (cbn [arena m0]; lia). cbn [after]. set (m1 := wrote m0 _ _).
  assert (blen (arena m1) = blen (arena m)) as E1 by (apply splice_length; cbn [arena m0]; lia). rewrite wrap32_small by lia.
  destruct (copies_ok (top m) offs ss m1 (top m + 4)) as (m' & -> & Hat & Hsame & Hl & Hb' & Hc' & Ht'); [lia|lia|lia| |].
  { eapply Forall2_impl; [exact Hs|]. intros q t [Hq Hqb]. split; [|done]. split; [|apply Hq]. pose proof (blen_nonneg t).
    apply wrote_keeps; [lia|cbn [arena m0]; lia| |apply Hq]. rewrite blen_app, blen_u32. lia. }
  cbn [after set_mach set_stack]. exists m'. split.
  { cbn [stack params lets mach]. by rewrite (drop_app_length' _ s _ (eq_sym Hlen)). }
  assert (top m' = top m + (4 + blen (concat ss))) as Et by (unfold top; rewrite Hb', Hc'; cbn; lia).
  split; [|split|lia|done].
  - split; [congruence|done|rewrite Hc'; cbn; lia| |done]. eapply same_on_trans; [|eapply same_on_sub; [exact Hsame|lia|lia]].
    apply (splice_same (arena m0)); cbn [arena m0]; lia.
  - apply bytes_at_join; [|by rewrite H4]. eapply bytes_at_same; [apply (splice_at (arena m0)); cbn [arena m0]; lia|exact Hsame|lia|lia].
  - split; [lia|unfold U32_MAX; lia].
Qed.

(** ** [IntToStr] *)

(** The decimal digits of a magnitude. *)
Fixpoint decimal (n : nat) (mag : Z) : bytes :=
  match n with
  | O => []
  | S n => (if mag / 10 =? 0 then [] else decimal n (mag / 10)) ++ [byte_of_u8 (mag mod 10 + 48)]
  end.

Lemma written_decimal_length n mag : (1 <= length (decimal (S n) mag) <= S n)%nat.
Proof.
  revert mag. induction n as [|n IH]; intros mag; cbn [decimal]; rewrite length_app; [destruct (_ =? _); simpl; lia|].
  specialize (IH (mag / 10)). cbn [decimal] in IH. destruct (mag / 10 =? 0); simpl in *; lia.
Qed.

Lemma small_div mag n : 0 <= mag < 10 ^ Z.of_nat (S n) -> 0 <= mag / 10 < 10 ^ Z.of_nat n.
Proof.
  intros Hm. rewrite Nat2Z.inj_succ, Z.pow_succ_r in Hm by lia. split; [apply Z.div_pos; lia|]. apply Z.div_lt_upper_bound; lia.
Qed.

Lemma last_digit mag : 0 <= mag -> (mag / 10 =? 0) = negb (10 <=? mag).
Proof.
  intros Hm. destruct (Z.leb_spec 10 mag); cbn [negb].
  - apply Z.eqb_neq. pose proof (Z.div_str_pos mag 10). lia.
  - apply Z.eqb_eq, Z.div_small. lia.
Qed.

Lemma count_ok n mag c :
  0 <= mag < 10 ^ Z.of_nat (S n) -> 0 <= c -> c + Z.of_nat n < 2 ^ 32 ->
  count_digits (S n) mag c = c + blen (decimal (S n) mag) - 1.
Proof.
  revert mag c. induction n as [|n IH]; intros mag c Hm Hc Hs.
  - change (10 ^ Z.of_nat 1) with 10 in Hm. cbn [count_digits decimal]. rewrite (Z.div_small mag 10) by lia.
    destruct (Z.leb_spec 10 mag); [lia|]. simpl. unfold blen. simpl. lia.
  - remember (S n) as k eqn:Ek. cbn [count_digits decimal]. rewrite last_digit by lia. rewrite blen_app. change (blen [_]) with 1.
    destruct (Z.leb_spec 10 mag); cbn [negb]; [|change (blen []) with 0; lia]. subst k.
    rewrite wrap32_small by lia. rewrite IH by (try apply small_div; lia || done). lia.
Qed.

Lemma digits_ok n : forall m mag cursor,
  blen (arena m) < 2 ^ 31 -> blen (decimal (S n) mag) <= cursor <= blen (arena m) -> 0 <= mag < 10 ^ Z.of_nat (S n) ->
  exists m', write_digits (S n) m mag cursor = Granted m' /\
    bytes_at (arena m') (cursor - blen (decimal (S n) mag)) (decimal (S n) mag) /\
    (forall off s, off + blen s <= cursor - blen (decimal (S n) mag) \/ cursor <= off -> bytes_at (arena m) off s -> bytes_at (arena m') off s) /\
    same_on (arena m) (arena m') 0 (cursor - blen (decimal (S n) mag)) /\
    blen (arena m') = blen (arena m) /\ scratch_base m' = scratch_base m /\ scratch_cursor m' = scratch_cursor m /\
    trap_code m' = trap_code m.
Proof.
  induction n as [|n IH]; intros m mag cursor Ha Hc Hm.
  - change (10 ^ Z.of_nat 1) with 10 in Hm. cbn [decimal write_digits] in *. rewrite (Z.div_small mag 10) in * by lia.
    cbn [Z.eqb app] in *. change (blen [_]) with 1 in *. rewrite wrap32_small by lia. set (c := byte_of_u8 _) in *.
    assert (blen [c] = 1) as H1 by done. rewrite store_ok by lia. eexists. split; [done|].
    split_and!; [apply splice_at; lia| |apply splice_same; lia|apply splice_length; lia|done|done|done].
    intros off s Hd. apply wrote_keeps; lia.
  - remember (S n) as k eqn:Ek. cbn [decimal write_digits] in *. set (c := byte_of_u8 _) in *. assert (blen [c] = 1) as H1 by done.
    pose proof (last_digit mag ltac:(lia)) as Hl. pose proof (small_div mag k ltac:(lia)) as Hd. rewrite blen_app, H1 in *.
    pose proof (blen_nonneg (if mag / 10 =? 0 then [] else decimal k (mag / 10))) as H0. rewrite wrap32_small by lia. rewrite store_ok by lia.
    set (m1 := wrote m (cursor - 1) [c]). assert (blen (arena m1) = blen (arena m)) as E1 by (apply splice_length; lia).
    assert (bytes_at (arena m1) (cursor - 1) [c]) as B1 by (apply splice_at; lia).
    destruct (mag / 10 =? 0) eqn:Ez.
    + exists m1. change (blen []) with 0 in *. cbn [app]. rewrite Z.add_0_l.
      split_and!; [done|done| |apply splice_same; lia|done|done|done|done]. intros off s Ho. apply wrote_keeps; lia.
    + subst k. destruct (IH m1 (mag / 10) (cursor - 1)) as (m' & Hw & Hat & Hk & Hsame & El & Eb & Ec & Etr); [lia|lia|done|].
      set (D := decimal (S n) (mag / 10)) in *. replace (cursor - (blen D + 1)) with (cursor - 1 - blen D) by lia.
      exists m'. split_and!; [done| | | |congruence|done|done|done].
      * apply bytes_at_join; [done|]. replace (cursor - 1 - blen D + blen D) with (cursor - 1) by lia. apply Hk; [lia|done].
      * intros off s Ho Hb. apply Hk; [lia|]. apply wrote_keeps; try done; lia.
      * eapply same_on_trans; [|exact Hsame]. apply splice_same; lia.
Qed.

(** The digits are those of the number. *)
Lemma digit_char d : (d < 10)%N -> byte_of_u8 (Z.of_N d + 48) = Ascii.byte_of_ascii (pretty_N_char d).
Proof.
  intros Hd. assert (d = 0 \/ d = 1 \/ d = 2 \/ d = 3 \/ d = 4 \/ d = 5 \/ d = 6 \/ d = 7 \/ d = 8 \/ d = 9)%N as Hc by lia.
  by repeat destruct Hc as [->|Hc]; [..|subst].
Qed.

Lemma decimal_go n : forall x s, (0 < x)%N -> Z.of_N x < 10 ^ Z.of_nat (S n) ->
  as_bytes (pretty_N_go x s) = decimal (S n) (Z.of_N x) ++ as_bytes s.
Proof.
  induction n as [|n IH]; intros x s Hx Hs; rewrite pretty_N_go_step by done;
    assert (byte_of_u8 (Z.of_N x mod 10 + 48) = Ascii.byte_of_ascii (pretty_N_char (x `mod` 10))) as Hd
      by (rewrite <-digit_char by (apply N.mod_lt; done); by rewrite N2Z.inj_mod);
    cbn [decimal]; rewrite Hd; clear Hd.
  - change (10 ^ Z.of_nat 1) with 10 in Hs. rewrite (Z.div_small _ 10) by lia. rewrite (N.div_small x 10) by lia. by rewrite pretty_N_go_0.
  - pose proof (small_div (Z.of_N x) (S n) ltac:(lia)) as Hq. change 10 with (Z.of_N 10) in Hq at 1 2. rewrite <-N2Z.inj_div in Hq.
    rewrite <-app_assoc. destruct (Z.eqb_spec (Z.of_N x / 10) 0) as [E|E].
    + assert (x / 10 = 0)%N as E' by (apply N2Z.inj; by rewrite N2Z.inj_div). by rewrite E', pretty_N_go_0.
    + rewrite IH; [|apply N.neq_0_lt_0; intros E'; apply E; change 10 with (Z.of_N 10); by rewrite <-N2Z.inj_div, E'|apply Hq].
      by rewrite N2Z.inj_div.
Qed.

Lemma decimal_pretty x : Z.of_N x < 10 ^ 20 -> as_bytes (pretty x) = decimal DIGITS (Z.of_N x).
Proof.
  intros Hx. unfold pretty, pretty_N. destruct (decide (x = 0)%N) as [->|Hne]; [done|].
  rewrite (decimal_go 19) by (lia || done). by rewrite app_nil_r.
Qed.

Lemma pretty_sign z :
  as_bytes (pretty z) = (if z <? 0 then [byte_of_u8 45] else []) ++ as_bytes (pretty (Z.to_N (Z.abs z))).
Proof. by destruct z. Qed.

Lemma int_to_str_ok (f : frame) z s :
  arena_ok (mach f) -> stack f = Vi64 z :: s -> is_i64 z -> top (mach f) + 28 <= blen (arena (mach f)) ->
  exists m' size, int_to_str f = Next (MkFrame (Vi32 (top (mach f)) :: s) (params f) (lets f) m') /\ size <= 28 /\
    adds_string (mach f) size (as_bytes (pretty z)) m'.
Proof.
  intros Hok Hst Hz Hroom. destruct f as [stk ps L m]. cbn [stack params lets mach] in *. subst stk.
  pose proof (arena_ok_top _ Hok) as Ht. destruct Hok as [Ha Hn Hi]. unfold is_i64 in Hz.
  set (mag := if z <? 0 then (- z) mod 2 ^ 64 else z). assert (mag = Z.abs z) as Hmag.
  { unfold mag. destruct (Z.ltb_spec z 0); [rewrite Z.mod_small by lia|]; lia. }
  assert (0 <= mag < 10 ^ Z.of_nat DIGITS) as Hm by (change (10 ^ Z.of_nat DIGITS) with 100000000000000000000; lia).
  assert (as_bytes (pretty (Z.to_N (Z.abs z))) = decimal DIGITS mag) as Hd.
  { rewrite decimal_pretty; rewrite Z2N.id by lia; [by rewrite Hmag|change (10 ^ 20) with 100000000000000000000; lia]. }
  rewrite pretty_sign, Hd. unfold int_to_str. cbn [stack params lets mach]. fold mag.
  set (sign := if z <? 0 then [byte_of_u8 45] else []). replace (if z <? 0 then 1 else 0) with (blen sign) by (unfold sign; by destruct (z <? 0)).
  assert (0 <= blen sign <= 1) as Hsg by (unfold sign; destruct (z <? 0); unfold blen; simpl; lia).
  pose proof (written_decimal_length 19 mag) as Hdl. fold DIGITS in Hdl. set (D := decimal DIGITS mag) in *.
  assert (1 <= blen D <= 20) as HD by (unfold blen, DIGITS in *; lia).
  assert (count_digits DIGITS mag 1 = blen D) as Hcount by (pose proof (count_ok 19 mag 1 Hm) as Hcn; fold DIGITS D in Hcn; lia). rewrite !Hcount.
  assert (blen (sign ++ D) = blen D + blen sign) as Hsd by (rewrite blen_app; lia).
  rewrite (wrap32_small (blen D + blen sign)) by lia. rewrite wrap32_small by lia. rewrite align4 by lia.
  set (size := _ - _). assert (blen D + blen sign + 4 <= size <= 28) as Hsz.
  { unfold size. pose proof (Z.mod_pos_bound (blen D + blen sign + 4 + 3) 4). lia. }
  clearbody size. rewrite alloc_room by lia. set (m0 := MkMachine _ _ _ _). set (header := u32_to_le _).
  assert (blen header = 4) as H4 by apply blen_u32. rewrite store_ok by (cbn [arena m0]; lia). cbn [after]. set (m1 := wrote m0 _ _).
  assert (blen (arena m1) = blen (arena m)) as E1 by (apply splice_length; cbn [arena m0]; lia).
  rewrite (wrap32_small (top m + 4)) by lia. rewrite (wrap32_small (top m + 4 + blen sign)) by lia. rewrite wrap32_small by lia.
  destruct (digits_ok 19 m1 mag (top m + 4 + blen sign + blen D)) as (m2 & Hw & Hat & Hk & Hsame & El & Eb & Ec & Etr); [lia|fold DIGITS D; lia|done|].
  fold DIGITS in Hw, Hat, Hk, Hsame. fold D in Hat, Hk, Hsame. rewrite Hw. cbn [after].
  replace (top m + 4 + blen sign + blen D - blen D) with (top m + 4 + blen sign) in Hat, Hk, Hsame by lia.
  assert (bytes_at (arena m1) (top m) header) as Bh by (apply (splice_at (arena m0)); cbn [arena m0]; lia).
  assert (extends m m2) as X2.
  { split; [congruence|by rewrite Eb|rewrite Ec; cbn; lia| |done]. eapply same_on_trans; [|eapply same_on_sub; [exact Hsame|lia|lia]].
    apply (splice_same (arena m0)); cbn [arena m0]; lia. }
  assert (exists m3, (if z <? 0 then store m2 (top m + 4) [byte_of_u8 45] else Granted m2) = Granted m3 /\
    bytes_at (arena m3) (top m) (header ++ sign ++ D) /\ extends m m3 /\ top m3 = top m + size) as (m3 & E3 & B3 & X3 & T3).
  { assert (top m2 = top m + size) as T2 by (unfold top; rewrite Eb, Ec; cbn; lia). unfold sign in *. destruct (z <? 0).
    - rewrite store_ok by (cbn; lia). eexists. split; [done|]. assert (blen [byte_of_u8 45] = 1) as H1 by done. rewrite H1 in *. split_and!; [|apply extends_wrote; [done|lia..]|done].
      apply bytes_at_join; [apply wrote_keeps; [lia..|]; apply Hk; [lia|done]|rewrite H4]. apply bytes_at_join; [apply splice_at; lia|].
      rewrite H1. apply wrote_keeps; [lia..|done].
    - exists m2. split_and!; [done| |done|done]. change (blen []) with 0 in *. rewrite Z.add_0_r in *. cbn [app].
      apply bytes_at_join; [apply Hk; [lia|done]|by rewrite H4]. }
  rewrite E3. cbn [after set_stack set_mach]. exists m3, size. split_and!; [done|lia|]. split; [done| |rewrite T3; lia|done].
  split; [by rewrite Hsd|rewrite Hsd; split; [lia|unfold U32_MAX; lia]].
Qed.

(** ** [FloatToStr] *)

Lemma float_to_str_ok `{Image} (f : frame) bits s :
  arena_ok (mach f) -> stack f = Vf64 bits :: s -> blen (as_bytes (f64_display bits)) <= FLOAT_TO_STR_MAX_PAYLOAD ->
  top (mach f) + FLOAT_TO_STR_RECORD_SIZE <= blen (arena (mach f)) ->
  exists m', float_to_str f = Next (MkFrame (Vi32 (top (mach f)) :: s) (params f) (lets f) m') /\
    adds_string (mach f) FLOAT_TO_STR_RECORD_SIZE (as_bytes (f64_display bits)) m'.
Proof.
  intros Hok Hst Hp Hroom. destruct f as [stk ps L m]. cbn [stack params lets mach] in *. subst stk.
  pose proof (arena_ok_top _ Hok) as Ht. destruct Hok as [Ha Hn Hi]. unfold FLOAT_TO_STR_MAX_PAYLOAD, FLOAT_TO_STR_RECORD_SIZE in *.
  unfold float_to_str. cbn [stack params lets mach]. rewrite alloc_room by (unfold FLOAT_TO_STR_RECORD_SIZE; lia).
  set (m0 := MkMachine _ _ _ _). set (text := as_bytes _) in *. pose proof (blen_nonneg text).
  assert (blen (u32_to_le (blen text) ++ text) = 4 + blen text) as Hl by (rewrite blen_app, blen_u32; lia).
  unfold relon_f64_to_str_helper. fold text. unfold FLOAT_TO_STR_MAX_PAYLOAD, FLOAT_TO_STR_RECORD_SIZE. rewrite signed32_small by lia. cbn [arena m0].
  destruct (Z.ltb_spec (top m) 0); [lia|]. destruct (Z.leb_spec (2 ^ 32) (top m + 768)); [lia|].
  destruct (Z.ltb_spec (blen (arena m)) (top m + 768)); [lia|]. destruct (Z.ltb_spec 352 (blen text)); [lia|].
  destruct (Z.ltb_spec (blen text) 0); [lia|]. eexists. split; [done|]. cbn [set_stack set_mach].
  change (MkMachine (splice (arena m) ?o ?x) _ _ _) with (wrote m0 o x). split.
  - apply extends_wrote; [by apply extends_alloc|lia|lia|cbn [arena m0]; lia].
  - split; [apply (splice_at (arena m0)); cbn [arena m0]; lia|split; [lia|unfold U32_MAX; lia]].
  - unfold top in *. cbn [wrote m0 scratch_base scratch_cursor]. unfold FLOAT_TO_STR_RECORD_SIZE. lia.
  - unfold top. cbn [wrote m0 scratch_base scratch_cursor]. unfold FLOAT_TO_STR_RECORD_SIZE. lia.
Qed.

(** ** [Add] on strings *)

Lemma simple_bodies `{Image} powf call_closure fuel body f :
  forallb simple body = true -> run_ops (step powf call_closure) body f = exec_seq powf call_closure fuel body f.
Proof.
  revert f. induction body as [|o body IH]; intros f Hb; [done|]. apply andb_true_iff in Hb as [Ho Hb]. rewrite seq_simple by done.
  cbn [run_ops]. destruct (step powf call_closure o f); try done. by apply IH.
Qed.

Lemma add_strings_ok `{Image} powf call_closure (f : frame) p q s t stk :
  arena_ok (mach f) -> stack f = Vi32 q :: Vi32 p :: stk -> string_at (arena (mach f)) p s -> string_at (arena (mach f)) q t ->
  p + 4 + blen s <= top (mach f) -> q + 4 + blen t <= top (mach f) -> top (mach f) + 4 + blen (s ++ t) <= blen (arena (mach f)) ->
  exists m', add_strings powf call_closure f = Next (MkFrame (Vi32 (top (mach f)) :: stk) (params f) (lets f) m') /\
    adds_string (mach f) (4 + blen (s ++ t)) (s ++ t) m'.
Proof.
  intros Hok Hst Hs Ht Hps Hqt Hroom. destruct Hok as [Ha [Hb Hc] Hi]. rewrite blen_app in *.
  destruct (concat_body powf call_closure 0 (mach f) p q s t) as (m' & Hr & Hst' & Hext & Htop); [done..|lia|].
  exists m'. unfold add_strings. rewrite Hst, (simple_bodies _ _ 0) by done. unfold call in Hr. rewrite Hr. split; [done|].
  split; [done|done|rewrite blen_app; lia|lia].
Qed.
End IrText.
