(* ===== verification/Lowering.v ===== *)
(** Lowering of operator expressions to the intermediate representation: the literal, binary and
    ternary cases of [lower_expr] of [crates/relon-ir/src/lowering/mod.rs] with [lower_binary],
    [lower_ternary], [lower_branch], [lower_value_to_string] and [try_lower_str_concat_chain] of
    [expr_ops.rs], and the interning of string constants of [intern.rs].

    The context is the output stream, the stack of the types of the values the code has pushed (the
    last one first), the parts that a rolled-back attempt restores, the table of string constants,
    and the rest, which only the other kinds of expression use; these are the parameter
    [lower_other].  A context is dropped when lowering fails. *)

From Stdlib Require Import ZArith Lia Bool.
From stdpp Require Import base list strings pretty gmap.
From S2P Require Import Prelude Bytes SchemaCanonical Value Arith Operators Ir.
Local Open Scope Z_scope.
Local Open Scope abi_scope.

(** ** String constants *)

Module Intern.

Record StringInternTable : Type := MkTable { by_bytes : gmap string nat; next : nat }.

Definition default : StringInternTable := MkTable ∅ 0.

(** [StringInternTable::intern] *)
Definition intern (value : string) (t : StringInternTable) : nat * StringInternTable :=
  match by_bytes t !! value with
  | Some idx => (idx, t)
  | None => (next t, MkTable (<[value := next t]> (by_bytes t)) (S (next t)))
  end.
End Intern.

Module Lowering.
Import Operators Intern.

#[export] Instance IrType_eq_dec : EqDecision Ir.IrType.
Proof. solve_decision. Defined.

Definition IrType_debug (ty : Ir.IrType) : string :=
  match ty with
  | Ir.I32 => "I32" | Ir.I64 => "I64" | Ir.F64 => "F64" | Ir.Bool => "Bool" | Ir.Unit => "Unit" | Ir.String => "String"
  | Ir.ListInt => "ListInt" | Ir.ListFloat => "ListFloat" | Ir.ListBool => "ListBool" | Ir.ListString => "ListString"
  | Ir.ListSchema => "ListSchema" | Ir.ListList => "ListList" | Ir.Closure => "Closure" | Ir.Dict => "Dict"
  end.

Section Lower.
Context {TokenRange Lambda Rest Other : Type}.

Inductive LoweringError : Type :=
| UnsupportedOperator (op : Arith.Operator) (range : TokenRange)
| UnsupportedExpr (kind : string) (range : TokenRange)
| IfConditionNotBool (got : Ir.IrType) (range : TokenRange)
| IfBranchTypeMismatch (then_ty else_ty : Ir.IrType) (range : TokenRange)
| OtherError (e : Other).

Record LowerCtx : Type := MkCtx {
  out : list Ir.Op;
  tstack : list Ir.IrType;
  next_let_idx : nat;
  lambda_table : list Lambda;
  const_intern : StringInternTable;
  rest : Rest;
}.

Definition set_out (ctx : LowerCtx) (o : list Ir.Op) : LowerCtx :=
  MkCtx o (tstack ctx) (next_let_idx ctx) (lambda_table ctx) (const_intern ctx) (rest ctx).
Definition set_tstack (ctx : LowerCtx) (t : list Ir.IrType) : LowerCtx :=
  MkCtx (out ctx) t (next_let_idx ctx) (lambda_table ctx) (const_intern ctx) (rest ctx).
Definition set_intern (ctx : LowerCtx) (t : StringInternTable) : LowerCtx :=
  MkCtx (out ctx) (tstack ctx) (next_let_idx ctx) (lambda_table ctx) t (rest ctx).

Definition push_op (o : Ir.Op) (ctx : LowerCtx) : LowerCtx := set_out ctx (out ctx ++ [o]).
Definition push_ty (ty : Ir.IrType) (ctx : LowerCtx) : LowerCtx := set_tstack ctx (ty :: tstack ctx).
Definition emit (o : Ir.Op) (ty : Ir.IrType) (ctx : LowerCtx) : LowerCtx := push_ty ty (push_op o ctx).

Definition Lower : Type := LowerCtx -> outcome LoweringError LowerCtx.

(** [ctx.tstack.pop().ok_or(e)] *)
Definition pop_ty (e : LoweringError) (ctx : LowerCtx) : outcome LoweringError (Ir.IrType * LowerCtx) :=
  match tstack ctx with ty :: t => Ok (ty, set_tstack ctx t) | [] => Err e end.

(** A string constant. *)
Definition const_string (s : string) (ctx : LowerCtx) : Ir.Op * LowerCtx :=
  let '(idx, t) := intern s (const_intern ctx) in (Ir.ConstString idx s, set_intern ctx t).

Definition arithmetic_op_ctor (op : Arith.Operator) : option (Ir.IrType -> Ir.Op) :=
  match op with
  | Arith.Add => Some Ir.Add
  | Arith.Sub => Some Ir.Sub
  | Arith.Mul => Some Ir.Mul
  | Arith.Div => Some Ir.Div
  | Arith.Mod => Some Ir.Mod
  | _ => None
  end.

Definition comparison_op_ctor (op : Arith.Operator) : option (Ir.IrType -> Ir.Op) :=
  match op with
  | Arith.Eq => Some Ir.Eq
  | Arith.Ne => Some Ir.Ne
  | Arith.Lt => Some Ir.Lt
  | Arith.Le => Some Ir.Le
  | Arith.Gt => Some Ir.Gt
  | Arith.Ge => Some Ir.Ge
  | _ => None
  end.

(** A stream and a stack of its own for one branch; the stack must end with one value. *)
Definition lower_branch (lower : Lower) (range : TokenRange) (parent : LowerCtx)
    : outcome LoweringError (list Ir.Op * Ir.IrType * LowerCtx) :=
  let saved_out := out parent in
  let saved_stack := tstack parent in
  let* parent := lower (set_tstack (set_out parent []) []) in
  let branch_ops := out parent in
  let branch_stack := tstack parent in
  let parent := set_tstack (set_out parent saved_out) saved_stack in
  match branch_stack with
  | [ty] => Ok (branch_ops, ty, parent)
  | _ => Err (UnsupportedExpr ("Ternary(branch-stack=" +:+ pretty (length branch_stack) +:+ ")") range)
  end.

Definition lower_value_to_string (value_ty : Ir.IrType) (range : TokenRange) (ctx : LowerCtx) : outcome LoweringError LowerCtx :=
  match value_ty with
  | Ir.String => Ok (push_ty Ir.String ctx)
  | Ir.I64 => Ok (emit Ir.IntToStr Ir.String ctx)
  | Ir.Bool =>
      let '(true_op, ctx) := const_string "true" ctx in
      let '(false_op, ctx) := const_string "false" ctx in
      Ok (emit (Ir.If Ir.String [true_op] [false_op]) Ir.String ctx)
  | Ir.F64 => Ok (emit Ir.FloatToStr Ir.String ctx)
  | other =>
      Err (UnsupportedExpr ("value-to-String coercion of type " +:+ IrType_debug other +:+
        " — only String / Int / Bool / Float have a byte-exact AOT coercion (composite deferred)") range)
  end.

Definition is_bool (ty : Ir.IrType) : bool := bool_decide (ty = Ir.Bool).

(** [a && b] is [a ? b : false], [a || b] is [a ? true : b]. *)
Definition lower_short_circuit (is_and : bool) (op : Arith.Operator) (lower_lhs lower_rhs : Lower) (range : TokenRange) : Lower := fun ctx =>
  let unsupported := UnsupportedOperator op range in
  let* ctx := lower_lhs ctx in
  let* (lhs_ty, ctx) := pop_ty unsupported ctx in
  if negb (is_bool lhs_ty) then Err unsupported else
  let* (then_body, then_ty, ctx) :=
    if is_and then lower_branch lower_rhs range ctx else Ok ([Ir.ConstBool true], Ir.Bool, ctx) in
  let* (else_body, else_ty, ctx) :=
    if is_and then Ok ([Ir.ConstBool false], Ir.Bool, ctx) else lower_branch lower_rhs range ctx in
  if negb (is_bool then_ty) || negb (is_bool else_ty) then Err unsupported
  else Ok (emit (Ir.If Ir.Bool then_body else_body) Ir.Bool ctx).

Definition lower_arithmetic (op : Arith.Operator) (ir_op_ctor : Ir.IrType -> Ir.Op) (lower_lhs lower_rhs : Lower)
    (range lhs_range rhs_range : TokenRange) : Lower := fun ctx =>
  let unsupported := UnsupportedOperator op range in
  let* ctx := lower_lhs ctx in
  match tstack ctx with
  | [] => Err unsupported
  | lhs_ty :: _ =>
      let saved_out := out ctx in
      let* ctx := lower_rhs (set_out ctx []) in
      let rhs_ops := out ctx in
      let ctx := set_out ctx saved_out in
      let* (rhs_ty, ctx) := pop_ty unsupported ctx in
      let* (_, ctx) := pop_ty unsupported ctx in
      match lhs_ty, rhs_ty with
      | Ir.I64, Ir.F64 =>
          (* the left operand is promoted before the right one is pushed *)
          Ok (push_ty Ir.F64 (set_out ctx (out ctx ++ [Ir.ConvertI64ToF64] ++ rhs_ops ++ [ir_op_ctor Ir.F64])))
      | Ir.F64, Ir.I64 =>
          Ok (push_ty Ir.F64 (set_out ctx (out ctx ++ rhs_ops ++ [Ir.ConvertI64ToF64] ++ [ir_op_ctor Ir.F64])))
      | _, _ =>
          if bool_decide (lhs_ty <> rhs_ty) && is_add op && (bool_decide (lhs_ty = Ir.String) || bool_decide (rhs_ty = Ir.String)) then
            let* ctx := lower_value_to_string lhs_ty lhs_range ctx in
            let ctx := set_tstack ctx (tail (tstack ctx)) in
            let ctx := set_out ctx (out ctx ++ rhs_ops) in
            let* ctx := lower_value_to_string rhs_ty rhs_range ctx in
            let ctx := set_tstack ctx (tail (tstack ctx)) in
            Ok (emit (Ir.StrConcatN 2) Ir.String ctx)
          else
          let ctx := set_out ctx (out ctx ++ rhs_ops) in
          if bool_decide (lhs_ty <> rhs_ty) then Err unsupported else
          match lhs_ty with
          | Ir.String => if negb (is_add op) then Err unsupported else Ok (emit (Ir.Add Ir.String) Ir.String ctx)
          | Ir.I64 | Ir.F64 => Ok (emit (ir_op_ctor lhs_ty) lhs_ty ctx)
          | _ => Err unsupported
          end
      end
  end.

Definition lower_comparison (op : Arith.Operator) (cmp_ctor : Ir.IrType -> Ir.Op) (lower_lhs lower_rhs : Lower) (range : TokenRange) : Lower := fun ctx =>
  let unsupported := UnsupportedOperator op range in
  let* ctx := lower_lhs ctx in
  let* ctx := lower_rhs ctx in
  let* (rhs_ty, ctx) := pop_ty unsupported ctx in
  let* (lhs_ty, ctx) := pop_ty unsupported ctx in
  if bool_decide (lhs_ty <> rhs_ty) then Err unsupported else
  match lhs_ty, op with
  | (Ir.I64 | Ir.F64), _ | (Ir.Bool | Ir.Unit), (Arith.Eq | Arith.Ne) => Ok (emit (cmp_ctor lhs_ty) Ir.Bool ctx)
  | _, _ => Err unsupported
  end.

(** The part of [lower_binary] after the attempt at a chain of concatenations. *)
Definition lower_binary (op : Arith.Operator) (lower_lhs lower_rhs : Lower) (range lhs_range rhs_range : TokenRange) : Lower :=
  match op with
  | Arith.And => lower_short_circuit true op lower_lhs lower_rhs range
  | Arith.Or => lower_short_circuit false op lower_lhs lower_rhs range
  | _ =>
      match arithmetic_op_ctor op, comparison_op_ctor op with
      | Some ctor, _ => lower_arithmetic op ctor lower_lhs lower_rhs range lhs_range rhs_range
      | _, Some ctor => lower_comparison op ctor lower_lhs lower_rhs range
      | _, _ => fun _ => Err (UnsupportedOperator op range)
      end
  end.

Definition lower_ternary (lower_cond lower_then lower_els : Lower) (range : TokenRange) : Lower := fun ctx =>
  let* ctx := lower_cond ctx in
  let* (cond_ty, ctx) := pop_ty (UnsupportedExpr "Ternary(cond)" range) ctx in
  if negb (is_bool cond_ty) then Err (IfConditionNotBool cond_ty range) else
  let* (then_body, then_ty, ctx) := lower_branch lower_then range ctx in
  let* (else_body, else_ty, ctx) := lower_branch lower_els range ctx in
  if bool_decide (then_ty <> else_ty) then Err (IfBranchTypeMismatch then_ty else_ty range)
  else Ok (emit (Ir.If then_ty then_body else_body) then_ty ctx).

(** One leaf of a chain of additions, and whether it is a string. *)
Definition lower_leaf (lower : Lower) (ctx : LowerCtx) : outcome LoweringError (bool * LowerCtx) :=
  let* ctx := lower ctx in
  Ok (match tstack ctx with Ir.String :: _ => true | _ => false end, ctx).

(** The number of leaves along the left operands of [+]. *)
Fixpoint leaf_count (n : node TokenRange) : nat :=
  match n with
  | Node _ (EBinary Arith.Add l _) => S (leaf_count l)
  | _ => 1
  end.

(** What happens after the leaves: one concatenation, or back to the start. *)
Definition end_chain (saved : LowerCtx) (count : nat) (folded : bool) (ctx : LowerCtx) : bool * LowerCtx :=
  let kept := skipn (length (tstack ctx) - length (tstack saved)) (tstack ctx) in
  if folded then (true, emit (Ir.StrConcatN count) Ir.String (set_tstack ctx kept))
  else (false, MkCtx (firstn (length (out saved)) (out ctx)) kept (next_let_idx saved)
                     (firstn (length (lambda_table saved)) (lambda_table ctx)) (const_intern ctx) (rest ctx)).

Context (lower_other : node TokenRange -> Lower).

Definition unsupported_expr (kind : string) (range : TokenRange) : Lower := fun _ => Err (UnsupportedExpr kind range).

Fixpoint lower_expr (n : node TokenRange) : Lower :=
  match n with
  | Node range e =>
      match e with
      | EBool b => fun ctx => Ok (emit (Ir.ConstBool b) Ir.Bool ctx)
      | EInt i => fun ctx => Ok (emit (Ir.ConstI64 i) Ir.I64 ctx)
      | EFloat f => fun ctx => Ok (emit (Ir.ConstF64 f) Ir.F64 ctx)
      | EString s => fun ctx => let '(o, ctx) := const_string s ctx in Ok (emit o Ir.String ctx)
      | EBinary Arith.Pipe _ _ => lower_other n
      | EBinary op lhs rhs => fun ctx =>
          (* the leaves of a chain of additions, from the left, until one is not a string *)
          let leaves := fix leaves (c : node TokenRange) (ctx : LowerCtx) : outcome LoweringError (bool * LowerCtx) :=
            match c with
            | Node _ (EBinary Arith.Add inner_l inner_r) =>
                let* (all, ctx) := leaves inner_l ctx in
                if all then lower_leaf (lower_expr inner_r) ctx else Ok (false, ctx)
            | _ => lower_leaf (lower_expr c) ctx
            end in
          let* (folded, ctx) :=
            if is_add op && is_string_add_chain_head lhs then
              let* (all, ctx') := leaves lhs ctx in
              let* (all, ctx') := if all then lower_leaf (lower_expr rhs) ctx' else Ok (false, ctx') in
              Ok (end_chain ctx (S (leaf_count lhs)) all ctx')
            else Ok (false, ctx) in
          if folded then Ok ctx
          else lower_binary op (lower_expr lhs) (lower_expr rhs) range (range_of lhs) (range_of rhs) ctx
      | ETernary cond_ then_ els => lower_ternary (lower_expr cond_) (lower_expr then_) (lower_expr els) range
      | EUnary _ _ => unsupported_expr "Unary" range
      | EMissing => unsupported_expr "Missing" range
      | EDict _ => unsupported_expr "Dict" range
      | EFString _ | EOther _ => lower_other n
      end
  end.
End Lower.
Arguments LoweringError : clear implicits.
Arguments LowerCtx : clear implicits.
Arguments Lower : clear implicits.
End Lowering.
