(* ===== verification/Meaning.v ===== *)
(** A meaning for the expressions that the compiler accepts, without state: a scalar value, or the
    trap of the compiled code that stands for the error of the evaluator.  The evaluator computes
    it, or runs out of steps. *)

From Stdlib Require Import ZArith Lia Bool.
From stdpp Require Import base list strings.
From S2P Require Import Prelude Bytes SchemaCanonical Value Arith Context Operators ConstFold Ir.
Local Open Scope Z_scope.
Local Open Scope abi_scope.

Module Meaning.
Import Arith Operators.

(** The trap of a runtime error. *)
Definition trap_of {R A} (r : outcome (RuntimeError (TokenRange := R)) A) : outcome Ir.SandboxTrap A :=
  match r with
  | Ok a => Ok a
  | Err (NumericOverflow _) => Err Ir.Overflow
  | Err (DivisionByZero _) => Err Ir.DivisionByZero
  | _ => Abort
  end.

Section Meaning.
Context {H : HostTypes} {R : Type} {Ev : Evaluator R}.

(** The expressions of the other kinds: what they mean, and which trap stands for an error of theirs. *)
Context (denote : node R -> outcome Ir.SandboxTrap Value) (foreign : Foreign -> Ir.SandboxTrap -> Prop).

Definition scalar (v : Value) : bool := match v with VInt _ | VFloat _ | VBool _ | VString _ => true | _ => false end.

Definition value_op (op : Operator) (a b : Value) : outcome Ir.SandboxTrap Value :=
  if negb (scalar b) then Abort else
  match op with
  | Add =>
      match a, b with
      | VString a, VString b => Ok (VString (a +:+ b))
      | VString a, b => Ok (VString (a +:+ display b))
      | a, VString b => Ok (VString (display a +:+ b))
      | a, b => trap_of (eval_numeric_arithmetic Add tt a tt b tt)
      end
  | Sub | Mul => trap_of (eval_numeric_arithmetic op tt a tt b tt)
  | Div | Mod => trap_of (eval_numeric_division op tt a tt b tt)
  | Eq => Ok (VBool (value_eq a b))
  | Ne => Ok (VBool (negb (value_eq a b)))
  | Lt | Gt | Le | Ge => trap_of (eval_numeric_comparison op a tt b tt)
  | _ => Abort
  end.

Fixpoint sem (n : node R) : outcome Ir.SandboxTrap Value :=
  match n with
  | Node _ e =>
      match e with
      | EBool b => Ok (VBool b)
      | EInt i => Ok (VInt i)
      | EFloat f => Ok (VFloat f)
      | EString s => Ok (VString s)
      | EBinary And l r => let* v := sem l in if is_truthy v then sem r else Ok v
      | EBinary Or l r => let* v := sem l in if is_truthy v then Ok v else sem r
      | EBinary Pipe _ _ => denote n
      | EBinary op l r => let* a := sem l in if scalar a then let* b := sem r in value_op op a b else Abort
      | ETernary c t e => let* v := sem c in if is_truthy v then sem t else sem e
      | EUnary _ _ | EMissing => Abort
      | EDict _ | EFString _ | EOther _ => denote n
      end
  end.

(** ** The evaluator computes it *)

Inductive reports : EvalError R Foreign -> Ir.SandboxTrap -> Prop :=
| rep_overflow g : reports (Runtime (NumericOverflow g)) Ir.Overflow
| rep_division g : reports (Runtime (DivisionByZero g)) Ir.DivisionByZero
| rep_foreign e t : foreign e t -> reports (ForeignError e) t.

Inductive agrees_with {A} : outcome Ir.SandboxTrap A -> outcome (EvalError R Foreign) A -> Prop :=
| ag_value a : agrees_with (Ok a) (Ok a)
| ag_trap e t : reports e t -> agrees_with (Err t) (Err e)
| ag_steps r limit g : agrees_with r (Err (StepLimitExceeded limit g))
| ag_outside r : agrees_with Abort r.

Definition means {A} (m : Eval A) (r : outcome Ir.SandboxTrap A) : Prop := forall s, agrees_with r (fst (m s)).

Lemma means_ret {A} (a : A) : means (ret a) (Ok a).
Proof. intros s. constructor. Qed.

Lemma means_bind {A B} (m : Eval A) (k : A -> Eval B) r (q : A -> outcome Ir.SandboxTrap B) :
  means m r -> (forall a, r = Ok a -> means (k a) (q a)) -> means (bind m k) (Prelude.bind r q).
Proof.
  intros Hm Hk s. specialize (Hm s). unfold bind. destruct (m s) as [o s']. cbn [fst] in Hm.
  inversion Hm; subst; cbn [Prelude.bind fst]; try constructor; [by apply Hk|done].
Qed.

Lemma means_charge {A} g (m : Eval A) r : means m r -> means (bind (charge g) (fun _ => m)) r.
Proof.
  intros Hm s. unfold bind, charge. destruct (Ctx.charge_node _ _) as [granted c]. destruct max_steps as [l|]; [|apply Hm].
  destruct granted; [apply Hm|constructor].
Qed.

Lemma means_lift {A} (r : outcome RuntimeError A) : means (lift r) (trap_of r).
Proof. intros s. destruct r as [a|[]|]; cbn; repeat constructor. Qed.

Lemma means_plain m g (a b : Value) name r : scalar a = true ->
  means m r -> means (or_default (try_branded_binary_method a b name g) m) r.
Proof. intros Ha Hm. by destruct a. Qed.

Lemma arith_ranges op g a lr b rr :
  trap_of (eval_numeric_arithmetic (TokenRange := R) op g a lr b rr) = trap_of (eval_numeric_arithmetic op tt a tt b tt).
Proof.
  unfold eval_numeric_arithmetic. destruct a; try done; destruct b; try done; destruct op; try done; cbn; unfold or_overflow; by destruct (checked _).
Qed.
Lemma division_ranges op g a lr b rr :
  trap_of (eval_numeric_division (TokenRange := R) op g a lr b rr) = trap_of (eval_numeric_division op tt a tt b tt).
Proof.
  unfold eval_numeric_division. destruct a; try done; destruct b; try done; cbn [Prelude.bind expect_number as_f64]; destruct (f64_eq _ 0); try done;
    destruct op; try done; cbn; unfold or_overflow; by destruct (checked_div _ _) || by destruct (checked_rem _ _).
Qed.
Lemma comparison_ranges op a lr b rr :
  trap_of (eval_numeric_comparison (TokenRange := R) op a lr b rr) = trap_of (eval_numeric_comparison op a tt b tt).
Proof. unfold eval_numeric_comparison. destruct a; try done; destruct b; try done; by destruct op. Qed.

Lemma means_values op g a lr b rr : scalar a = true -> means (binary_values op g a lr b rr) (value_op op a b).
Proof.
  intros Ha. unfold value_op. destruct (scalar b) eqn:Hb; cbn [negb]; [|intros s; constructor].
  pose proof (fun m name r => means_plain m g a b name r Ha) as Hl. pose proof (fun m name r => means_plain m g b a name r Hb) as Hr.
  destruct op; cbn [binary_values]; try (intros s; by constructor).
  all: rewrite <-?(arith_ranges _ g a lr b rr), <-?(division_ranges _ g a lr b rr), <-?(comparison_ranges _ a lr b rr).
  - destruct a; try done; destruct b; try done; first [apply means_ret|apply Hl; apply means_lift].
  - apply Hl, means_lift.
  - apply Hl, means_lift.
  - apply Hl, means_lift.
  - apply Hl, means_lift.
  - apply Hl, means_ret.
  - by destruct a; try done; apply means_ret.
  - apply Hl, means_lift.
  - apply Hr, means_lift.
  - destruct a; try done; apply means_lift.
  - destruct b; try done; apply means_lift.
Qed.

Lemma means_operands op g l r :
  means (eval l) (sem l) -> means (eval r) (sem r) ->
  means (binary_operands (eval l) (eval r) op g l r) (let* a := sem l in if scalar a then let* b := sem r in value_op op a b else Abort).
Proof.
  intros Hl Hr. apply means_bind; [done|]. intros a _. destruct (scalar a) eqn:Ha; [|intros s; constructor].
  replace (extends_schema op a r) with false by (destruct op; try done; by destruct a).
  apply means_bind; [done|]. intros b _. by apply means_values.
Qed.

(** ** Chains of concatenations *)

Fixpoint sem_leaves (n : node R) : outcome Ir.SandboxTrap (list Value) :=
  match n with
  | Node _ (EBinary Add l r) => let* values := sem_leaves l in let* v := sem r in Ok (values ++ [v])
  | _ => let* v := sem n in Ok [v]
  end.

Lemma means_leaves n :
  (forall g l r, n = Node g (EBinary Add l r) -> means (chain_values l) (sem_leaves l) /\ means (eval r) (sem r)) ->
  means (eval n) (sem n) -> means (chain_values n) (sem_leaves n).
Proof.
  intros Hc Hn. assert (means (bind (eval n) (fun v => ret [v])) (let* v := sem n in Ok [v])) as Hleaf.
  { apply means_bind; [done|]. intros v _. apply means_ret. }
  destruct n as [g e]. destruct e; try exact Hleaf. destruct op; try exact Hleaf. destruct (Hc _ _ _ eq_refl) as [Hl Hr].
  cbn [chain_values sem_leaves]. apply means_bind; [done|]. intros vs _. apply means_bind; [done|]. intros v _. apply means_ret.
Qed.

Definition joined (ss : list string) : string := foldl (fun buf s => buf +:+ s) EmptyString ss.

(** A chain that starts with a string means the concatenation of its leaves, where these are strings. *)
Definition chain_means (n : node R) : Prop :=
  match sem_leaves n with
  | Ok vs => sem n = Abort \/ exists str, sem n = Ok (VString str) /\ forall ss, as_strings vs = Some ss -> str = joined ss
  | Err t => sem n = Err t \/ sem n = Abort
  | Abort => sem n = Abort
  end.

Hypothesis Hfstring : forall g i v, denote (Node g (EFString i)) = Ok v -> exists s, v = VString s.

Lemma sem_add g l r : sem (Node g (EBinary Add l r)) = let* a := sem l in if scalar a then let* b := sem r in value_op Add a b else Abort.
Proof. done. Qed.

Lemma chain_meaning n : is_statically_string_expr (chain_leaf n) = true -> chain_means n.
Proof.
  induction n as [g e He|g op l r IHl _|g op j _|g c t e _ _ _] using node_ind2; intros Hst; try done.
  - destruct e; try done; unfold chain_means; cbn [sem_leaves sem].
    + right. exists s. split; [done|]. intros ss [= <-]. done.
    + destruct (denote _) as [v| |] eqn:E; cbn [Prelude.bind]; [|by left|done]. destruct (Hfstring _ _ _ E) as [s ->].
      right. exists s. split; [done|]. intros ss [= <-]. done.
  - destruct op; try done. specialize (IHl Hst). unfold chain_means in *. cbn [sem_leaves]. rewrite sem_add.
    destruct (sem_leaves l) as [vs|t|]; cbn [Prelude.bind].
    + destruct IHl as [->|(str & -> & Hj)]; cbn [Prelude.bind scalar].
      { destruct (sem r); cbn [Prelude.bind]; first [done|by left|by right]. }
      destruct (sem r) as [v|t|]; cbn [Prelude.bind]; [|by left|done].
      unfold value_op. destruct (scalar v) eqn:Hv; cbn [negb]; [|by left]. right.
      assert (exists x, match v with VString b => Ok (E := Ir.SandboxTrap) (VString (str +:+ b)) | _ => Ok (VString (str +:+ display v)) end = Ok (VString (str +:+ x)) /\
        forall s, v = VString s -> x = s) as (x & Ex & Hx).
      { destruct v; try done; eexists; (split; [reflexivity|]); intros ? [=]; congruence. }
      exists (str +:+ x). split; [by destruct v|]. intros ss Hs. rewrite as_strings_app in Hs.
      destruct (as_strings vs) as [ss'|]; [|done]. destruct v; try done. injection Hs as <-. unfold joined. rewrite foldl_app. cbn [foldl].
      by rewrite (Hj ss' eq_refl), (Hx _ eq_refl).
    + destruct IHl as [->| ->]; cbn [Prelude.bind]; first [done|by left|by right].
    + by rewrite IHl.
Qed.

Hypothesis Hother : forall n, means (eval_other n) (denote n).

Lemma means_chain g l r :
  means (chain_values l) (sem_leaves l) -> means (eval l) (sem l) -> means (eval r) (sem r) ->
  is_statically_string_expr (chain_leaf l) = true ->
  means (bind (bind (chain_values l) (fun values => bind (eval r) (fun v => ret (concat_leaves (values ++ [v])))))
    (fun folded => match folded with Some v => ret v | None => binary_operands (eval l) (eval r) Add g l r end))
    (sem (Node g (EBinary Add l r))).
Proof.
  intros Hc Hl Hr Hst. pose proof (chain_meaning (Node g (EBinary Add l r)) Hst) as Hm. set (S := sem (Node g (EBinary Add l r))) in *.
  pose proof (means_operands Add g l r Hl Hr) as Hop. rewrite <-sem_add with (g := g) in Hop. fold S in Hop.
  unfold chain_means in Hm. fold S in Hm. cbn [sem_leaves] in Hm.
  assert (means (bind (chain_values l) (fun values => bind (eval r) (fun v => ret (concat_leaves (values ++ [v])))))
    (let* vs := (let* values := sem_leaves l in let* v := sem r in Ok (values ++ [v])) in Ok (concat_leaves vs))) as Hf.
  { destruct (sem_leaves l) as [vs|t|] eqn:El; cbn [Prelude.bind];
      intros s; specialize (Hc s); unfold bind; destruct (chain_values l s) as [o s']; cbn [fst] in Hc; inversion Hc; subst; try (by constructor).
    specialize (Hr s'). destruct (eval r s') as [o s'']. cbn [fst] in Hr. inversion Hr; subst; by constructor. }
  intros s. specialize (Hf s). unfold bind at 1. destruct (bind _ _ s) as [o s']. cbn [fst] in Hf.
  destruct (let* values := sem_leaves l in _) as [vs|t|]; cbn [Prelude.bind] in Hf.
  - inversion Hf as [? E1 E2|? ? ? E1 E2|? ? ? E1 E2|? E1]; subst; cbn [fst]; [|by constructor].
    unfold concat_leaves. destruct (as_strings vs) as [ss|] eqn:Es; [|apply Hop]. destruct Hm as [->|(str & -> & Hj)]; [constructor|].
    cbn [fst ret]. rewrite (Hj ss eq_refl). constructor.
  - inversion Hf; subst; cbn [fst]; destruct Hm as [->| ->]; by constructor.
  - rewrite Hm. constructor.
Qed.

Theorem eval_means n : means (eval n) (sem n) /\ means (chain_values n) (sem_leaves n).
Proof.
  induction n as [g e He|g op l r [IHl Cl] [IHr _]|g op j [IHj _]|g c t e [IHc _] [IHt _] [IHe _]] using node_ind2.
  all: match goal with |- means (eval ?n) _ /\ _ => enough (means (eval n) (sem n)) as Hn
    by (split; [done|apply means_leaves; [|done]; intros ? ? ? [= -> -> -> ->] || intros ? ? ? [=]; by try (subst; split)]) end.
  - destruct e; try done; cbn [eval sem]; apply means_charge; try apply means_ret; try apply Hother. intros s. constructor.
  - destruct (plain op) eqn:Hp.
    + rewrite eval_plain by done. apply means_charge.
      assert (sem (Node g (EBinary op l r)) = let* a := sem l in if scalar a then let* b := sem r in value_op op a b else Abort) as Es by (by destruct op).
      destruct (is_add op && _ && _) eqn:Ec.
      * apply andb_true_iff in Ec as [[Ho _]%andb_true_iff Hst]. destruct op; try done. by apply means_chain.
      * rewrite Es. intros s. by apply (means_operands op g l r).
    + destruct op; try done; cbn [eval sem]; apply means_charge; try apply Hother;
        (apply means_bind; [done|]); intros v _; destruct (is_truthy v); cbn [negb]; done || apply means_ret.
  - cbn [eval sem]. apply means_charge. intros s. constructor.
  - cbn [eval sem]. apply means_charge. apply means_bind; [done|]. intros v _. by destruct (is_truthy v).
Qed.
End Meaning.
End Meaning.
