(* ===== verification/LoweringFacts.v ===== *)
(** Code that computes a value: what a piece of code leaves on the operand stack and in the arena,
    and how pieces compose. *)

From Stdlib Require Import ZArith Lia Bool.
From stdpp Require Import base list strings pretty gmap.
From S2P Require Import Prelude Bytes SchemaCanonical Layout LayoutFacts Value BufferTypes IndexFacts Reader ReaderFacts VerifiedRead Relocation.
From S2P Require Import Encoding SmolStr Lexer NumberLit Arith Context Operators ConstFold Native Ir IrStdlib Lowering IrFacts IrRecords IrStrings IrText Meaning.
Local Open Scope Z_scope.
Local Open Scope abi_scope.

(** What the operators may assume of the code of other kinds of expression: an invariant of the
    frame it needs (the let slots it reads, say), and how it represents values of the types that
    no operator works on.  Both survive allocations. *)
Class Surroundings `{HostTypes} : Type := {
  frame_inv : list Ir.slot -> (nat -> option Ir.slot) -> Ir.machine -> Prop;
  handle : Ir.IrType -> Ir.machine -> Value -> Ir.slot -> Prop;
  frame_inv_extends : forall ps L m m', IrRecords.extends m m' -> frame_inv ps L m -> frame_inv ps L m';
  handle_extends : forall ty m m' v w, IrRecords.extends m m' -> handle ty m v w -> handle ty m' v w;
}.

Module LoweringFacts.
Import Operators Lowering Ir IrFacts IrRecords IrStrings IrText Meaning.

Section Gives.
Context {H : HostTypes} {Sur : Surroundings} {Img : Image}.
Context (powf : Z -> Z -> Z) (call_closure : Z -> Z -> list slot -> machine -> closure_result) (fuel : nat).
Notation exec_seq := (exec_seq powf call_closure fuel).

(** ** Representations *)

Definition repr : Type := machine -> Value -> slot -> Prop.

Definition text_at (m : machine) (s : string) (w : slot) : Prop :=
  exists p, w = Vi32 p /\ string_at (arena m) p (as_bytes s) /\ p + 4 + blen (as_bytes s) <= top m.

(** A value of an IR type. *)
Definition stands (ty : IrType) : repr := fun m v w =>
  match ty with
  | I64 => exists z, v = VInt z /\ w = Vi64 z /\ is_i64 z
  | F64 => exists bits, v = VFloat bits /\ w = Vf64 bits
  | Bool => exists b : bool, v = VBool b /\ w = Vi32 (if b then 1 else 0)
  | String => exists s, v = VString s /\ text_at m s w
  | ty => handle ty m v w
  end.

Class Stable (P : repr) : Prop := stable : forall m m' v w, extends m m' -> P m v w -> P m' v w.

Lemma text_extends m m' s w : extends m m' -> text_at m s w -> text_at m' s w.
Proof.
  intros He (p & -> & Hs & Ht). exists p. split; [done|]. pose proof (extends_top _ _ He). split; [by eapply extends_string|lia].
Qed.

#[export] Instance stands_stable ty : Stable (stands ty).
Proof.
  intros m m' v w He. destruct ty; simpl; try done; try (by apply handle_extends). intros (s & -> & Ht). exists s. split; [done|]. by eapply text_extends.
Qed.

(** ** Machines *)

(** The string constants of some code. *)
Fixpoint op_consts (o : Op) : list (nat * string) :=
  match o with
  | ConstString idx value => [(idx, value)]
  | If _ t e => flat_map op_consts t ++ flat_map op_consts e
  | Block _ body | Loop _ body => flat_map op_consts body
  | _ => []
  end.
Definition consts : list Op -> list (nat * string) := flat_map op_consts.

(** The constants are in the arena where the code looks for them. *)
Definition pool_ok (T : list (nat * string)) (m : machine) : Prop :=
  forall idx v, (idx, v) ∈ T -> exists off, string_offset idx = Some off /\ text_at m v (Vi32 off).

Record ready (T : list (nat * string)) (ps : list slot) (L : nat -> option slot) (m : machine) (c : Z) : Prop := {
  rd_arena : arena_ok m;
  rd_pool : pool_ok T m;
  rd_frame : frame_inv ps L m;
  rd_room : top m + c <= blen (arena m);
}.

Definition moves (m m' : machine) (c : Z) : Prop := extends m m' /\ top m' <= top m + c.

Lemma moves_none m c : 0 <= c -> moves m m c.
Proof. intros Hc. split; [done|lia]. Qed.

Lemma moves_trans m1 m2 m3 c c' : moves m1 m2 c -> moves m2 m3 c' -> moves m1 m3 (c + c').
Proof. intros [E1 T1] [E2 T2]. split; [by etransitivity|lia]. Qed.

Lemma ready_after T ps L L' m m' c c' :
  ready T ps L m (c + c') -> 0 <= c' -> moves m m' c -> frame_inv ps L' m' -> ready T ps L' m' c'.
Proof.
  intros [Ha Hp Hf Hr] Hc [He Ht] Hf'. pose proof (ext_arena _ _ He) as El. split; [|intros idx v Hv|done|lia].
  - eapply extends_ok; [done|done|lia].
  - destruct (Hp idx v Hv) as (off & Ho & Hx). exists off. split; [done|]. by eapply text_extends.
Qed.

Lemma ready_less T ps L m c c' : ready T ps L m c -> c' <= c -> ready T ps L m c'.
Proof. intros [Ha Hp Hf Hr] Hc. split; try done. lia. Qed.

(** ** Code *)

(** Where a piece of code gets to: one more value on the stack [s], or a trap. *)
Definition lands (fl : flow) (s ps : list slot) (m : machine) (P : repr) (r : outcome SandboxTrap Value) (c : Z) : Prop :=
  match r with
  | Ok v => exists w L' m', fl = Next (MkFrame (w :: s) ps L' m') /\ moves m m' c /\ frame_inv ps L' m' /\ P m' v w
  | Err t => fl = Trapped t
  | Abort => False
  end.

Definition gives (T : list (nat * string)) (ops : list Op) (P : repr) (r : outcome SandboxTrap Value) (c : Z) : Prop :=
  forall s ps L m, ready T ps L m c -> lands (exec_seq ops (MkFrame s ps L m)) s ps m P r c.

Lemma seq_app a b f : exec_seq (a ++ b) f = then_ (exec_seq a f) (exec_seq b).
Proof.
  revert f. induction a as [|o a IH]; intros f; [done|]. unfold Ir.exec_seq at 1 2. cbn [app run_ops]. fold exec_seq.
  destruct (exec _ _ _ o f); done.
Qed.

Lemma lands_moves fl s ps m m' P r c c' :
  moves m m' c -> lands fl s ps m' P r c' -> lands fl s ps m P r (c + c').
Proof.
  intros Hm. destruct r as [v| |]; simpl; try done. intros (w & L & m2 & -> & Hm' & Hf & Hp). exists w, L, m2.
  split_and!; [done|by eapply moves_trans|done|done].
Qed.

Lemma lands_weaken fl s ps m P r c c' : c <= c' -> lands fl s ps m P r c -> lands fl s ps m P r c'.
Proof.
  intros Hc. destruct r as [v| |]; simpl; try done. intros (w & L & m' & -> & [He Ht] & Hf & Hp). exists w, L, m'.
  split_and!; [done|split; [done|lia]|done|done].
Qed.

Lemma gives_weaken T ops P r c c' : gives T ops P r c -> c <= c' -> gives T ops P r c'.
Proof. intros Hg Hc s ps L m Hr. eapply lands_weaken; [done|]. apply Hg. by eapply ready_less. Qed.

(** Code that goes on with the value. *)
Lemma gives_then T a b P Q r q c c' :
  gives T a P r c -> 0 <= c -> 0 <= c' ->
  (forall v w s ps L m, r = Ok v -> P m v w -> ready T ps L m c' -> lands (exec_seq b (MkFrame (w :: s) ps L m)) s ps m Q (q v) c') ->
  gives T (a ++ b) Q (let* v := r in q v) (c + c').
Proof.
  intros Ha Hc Hc' Hb s ps L m Hr. pose proof (Ha s ps L m ltac:(eapply ready_less; [done|lia])) as Hl. rewrite seq_app.
  destruct r as [v|t|]; simpl in Hl; [|by rewrite Hl|done]. destruct Hl as (w & L' & m' & -> & Hm & Hf & Hp). cbn [then_ Prelude.bind].
  eapply lands_moves; [done|]. apply Hb; [done|done|]. by eapply ready_after.
Qed.

(** Two operands and an operation. *)
Lemma gives_binary T a b o P1 P2 `{!Stable P1} Q r1 r2 q c1 c2 c3 :
  gives T a P1 r1 c1 -> gives T b P2 r2 c2 -> 0 <= c1 -> 0 <= c2 -> 0 <= c3 ->
  (forall m v w, P1 m v w -> scalar v = true) ->
  (forall v1 v2 w1 w2 s ps L m, r1 = Ok v1 -> r2 = Ok v2 -> P1 m v1 w1 -> P2 m v2 w2 -> ready T ps L m c3 ->
    lands (exec_seq o (MkFrame (w2 :: w1 :: s) ps L m)) s ps m Q (q v1 v2) c3) ->
  gives T (a ++ b ++ o) Q (let* v1 := r1 in if scalar v1 then let* v2 := r2 in q v1 v2 else Abort) (c1 + c2 + c3).
Proof.
  intros Ha Hb H1 H2 H3 Hs Ho. rewrite <-Z.add_assoc. apply (gives_then T a (b ++ o) P1); [done|done|lia|].
  intros v1 w1 s ps L m E1 Hp1 Hr. rewrite (Hs _ _ _ Hp1). pose proof (Hb (w1 :: s) ps L m ltac:(eapply ready_less; [done|lia])) as Hl.
  rewrite seq_app. destruct r2 as [v2|t|]; simpl in Hl; [|by rewrite Hl|done]. destruct Hl as (w2 & L' & m' & -> & Hm & Hf & Hp2).
  cbn [then_ Prelude.bind]. eapply lands_moves; [done|]. apply Ho; [done|done| |done|by eapply ready_after]. eapply stable; [apply Hm|done].
Qed.

(** A choice between two branches. *)
Lemma gives_if T a t_body e_body ty P r rt re q ct ce c :
  gives T a (stands Bool) r c -> gives T t_body P rt ct -> gives T e_body P re ce -> 0 <= c -> 0 <= ct -> 0 <= ce ->
  (forall b : bool, q (VBool b) = if b then rt else re) ->
  gives T (a ++ [If ty t_body e_body]) P (let* v := r in q v) (c + (ct + ce)).
Proof.
  intros Ha Ht He Hc Hct Hce Hq. apply (gives_then T a _ (stands Bool)); [done|done|lia|].
  intros v w s ps L m _ (b & -> & ->) Hr. erewrite seq_if by reflexivity. cbn [set_stack stack params lets mach]. rewrite Hq.
  assert (forall body r' c', gives T body P r' c' -> c' <= ct + ce ->
    lands (then_ (end_if s (exec_seq body (MkFrame s ps L m))) (exec_seq [])) s ps m P r' (ct + ce)) as Hgo.
  { intros body r' c' Hg Hle. apply (lands_weaken _ _ _ _ _ _ c'); [done|]. specialize (Hg s ps L m ltac:(by eapply ready_less)).
    destruct r' as [v|t|]; simpl in Hg |- *; [|by rewrite Hg|done]. destruct Hg as (w & L' & m' & -> & Hm & Hf & Hp).
    exists w, L', m'. cbn [end_if stack]. rewrite Nat.eqb_refl. done. }
  destruct b; cbn [Z.eqb]; [apply (Hgo _ rt ct)|apply (Hgo _ re ce)]; done || lia.
Qed.

(** The values that code of a type can give. *)
Lemma gives_typed T a P r c (s ps : list slot) L m : gives T a P r c -> ready T ps L m c -> 
  match r with Ok v => exists m' w, P m' v w | Err _ => True | Abort => False end.
Proof. intros Ha Hr. specialize (Ha s ps L m Hr). destruct r; simpl in Ha; try done. destruct Ha as (w & L' & m' & _ & _ & _ & Hp). eauto. Qed.

(** One op on the stack. *)
Lemma seq_one o f r : simple o = true -> step powf call_closure o f = r -> exec_seq [o] f = r.
Proof. intros Ho <-. rewrite seq_simple by done. by destruct (step _ _ o f). Qed.

Lemma lands_push s ps L m (P : repr) v w c fl :
  fl = Next (MkFrame (w :: s) ps L m) -> frame_inv ps L m -> P m v w -> 0 <= c -> lands fl s ps m P (Ok v) c.
Proof. intros -> Hf Hp Hc. exists w, L, m. split_and!; [done|by apply moves_none|done|done]. Qed.

(** An op that makes a string. *)
Lemma lands_string s ps L m m' (P : repr) v str size c fl :
  fl = Next (MkFrame (Vi32 (top m) :: s) ps L m') -> adds_string m size (as_bytes str) m' -> size <= c ->
  frame_inv ps L m -> (text_at m' str (Vi32 (top m)) -> P m' v (Vi32 (top m))) -> lands fl s ps m P (Ok v) c.
Proof.
  intros -> [He Hs Hf Ht] Hc Hi Hp. exists (Vi32 (top m)), L, m'. split_and!; [done|split; [done|lia]|by eapply frame_inv_extends|].
  apply Hp. exists (top m). done.
Qed.

(** ** Literals *)

Lemma gives_push T o w v P : (forall s ps L m, ready T ps L m 0 -> exec_seq [o] (MkFrame s ps L m) = Next (MkFrame (w :: s) ps L m) /\ P m v w) ->
  gives T [o] P (Ok v) 0.
Proof. intros Ho s ps L m Hr. destruct (Ho s ps L m Hr) as [E Hp]. eapply lands_push; [exact E|apply Hr|done|done]. Qed.

Lemma gives_bool T b : gives T [ConstBool b] (stands Bool) (Ok (VBool b)) 0.
Proof. apply (gives_push _ _ (Vi32 (if b then 1 else 0))). intros s ps L m _. split; [by apply seq_one|]. by exists b. Qed.

Lemma gives_int T i : is_i64 i -> gives T [ConstI64 i] (stands I64) (Ok (VInt i)) 0.
Proof. intros Hi. apply (gives_push _ _ (Vi64 i)). intros s ps L m _. split; [by apply seq_one|]. by exists i. Qed.

Lemma gives_float T f : gives T [ConstF64 f] (stands F64) (Ok (VFloat f)) 0.
Proof. apply (gives_push _ _ (Vf64 f)). intros s ps L m _. split; [by apply seq_one|]. by exists f. Qed.

Lemma gives_const T idx s : (idx, s) ∈ T -> gives T [ConstString idx s] (stands String) (Ok (VString s)) 0.
Proof.
  intros Hi stk ps L m Hr. destruct (rd_pool _ _ _ _ _ Hr idx s Hi) as (off & Ho & Ht).
  eapply lands_push; [|apply Hr| |done]; [apply seq_one; [done|]; cbn [step]; by rewrite Ho|]. by exists s.
Qed.

(** ** Operators *)

Context {R : Type} {Ev : Evaluator R}.

(** Equality of scalar values. *)
Definition scalar_eq (a b : Value) : bool :=
  match a, b with
  | VInt a, VInt b => a =? b
  | VFloat a, VFloat b => Native.ordered_eq a b
  | VBool a, VBool b => Bool.eqb a b
  | VString a, VString b => bool_decide (a = b)
  | _, _ => false
  end.

(** What the evaluator does with scalar values. *)
Record value_laws : Prop := {
  vl_eq : forall a b, scalar a = true -> scalar b = true -> value_eq (Evaluator := Ev) a b = scalar_eq a b;
  vl_int : forall z, display (Evaluator := Ev) (VInt z) = pretty z;
  vl_bool : forall b : bool, display (Evaluator := Ev) (VBool b) = if b then "true"%string else "false"%string;
  vl_float : forall bits, display (Evaluator := Ev) (VFloat bits) = f64_display bits;
  vl_float_len : forall bits, blen (as_bytes (f64_display bits)) <= FLOAT_TO_STR_MAX_PAYLOAD;
}.
Hypothesis Hlaws : value_laws.

Lemma add_int_lands op ctor a b s ps L m c : arithmetic_op_ctor op = Some ctor -> is_i64 a -> is_i64 b -> frame_inv ps L m -> 0 <= c ->
  lands (exec_seq [ctor I64] (MkFrame (Vi64 b :: Vi64 a :: s) ps L m)) s ps m (stands I64) (value_op op (VInt a) (VInt b)) c.
Proof.
  intros Hop Ha Hb Hf Hc. pose proof (proj2 (in_i64_iff a) Ha) as Ha'. pose proof (proj2 (in_i64_iff b) Hb) as Hb'.
  assert (forall z o, simple o = true -> step powf call_closure o (MkFrame (Vi64 b :: Vi64 a :: s) ps L m) = push_i64 (MkFrame (Vi64 b :: Vi64 a :: s) ps L m) s z ->
    lands (exec_seq [o] (MkFrame (Vi64 b :: Vi64 a :: s) ps L m)) s ps m (stands I64) (trap_of (Arith.or_overflow (Arith.checked z) tt)) c) as Hpush.
  { intros z o Ho Hs. rewrite (seq_one o _ _ Ho Hs). unfold push_i64, Arith.or_overflow. destruct (Arith.checked z) as [z'|] eqn:E; [|done].
    eapply lands_push; [reflexivity|done| |done]. exists z'. split_and!; [done|done|]. unfold Arith.checked in E.
    destruct (Num.in_i64 z) eqn:Ez; [|done]. injection E as <-. by apply in_i64_iff. }
  destruct op; try done; injection Hop as <-; unfold value_op; cbn [scalar negb]; try (apply Hpush; done);
    unfold Arith.eval_numeric_division; cbn [Prelude.bind Arith.expect_number Arith.as_f64]; rewrite zero_divisor by done.
  - erewrite seq_one by reflexivity. cbn [step div_op stack]. unfold Arith.checked_div. destruct (Z.eqb_spec b 0) as [->|Hb0]; [done|].
    unfold Arith.or_overflow, Arith.checked. rewrite quot_in_i64 by done. destruct ((a =? - 2 ^ 63) && (b =? -1)) eqn:E; cbn [negb]; [done|].
    eapply lands_push; [reflexivity|done| |done]. exists (a ÷ b). split_and!; [done|done|]. apply in_i64_iff. by rewrite quot_in_i64, E.
  - erewrite seq_one by reflexivity. cbn [step mod_op stack]. unfold Arith.checked_rem. destruct (Z.eqb_spec b 0) as [->|Hb0]; [done|]. cbn [orb].
    unfold Arith.or_overflow. destruct ((a =? - 2 ^ 63) && (b =? -1)) eqn:E; [done|].
    eapply lands_push; [reflexivity|done| |done]. exists (Z.rem a b). split_and!; [done|done|]. unfold is_i64 in *. pose proof (Z.rem_bound_abs a b Hb0). lia.
Qed.

(** A number as a double. *)
Definition widened : repr := fun _ v w => (exists z, v = VInt z /\ w = Vf64 (i64_as_f64 z)) \/ (exists bits, v = VFloat bits /\ w = Vf64 bits).
#[export] Instance widened_stable : Stable widened.
Proof. by intros m m' v w _. Qed.

Lemma gives_widened T a r c : gives T a (stands I64) r c -> 0 <= c -> gives T (a ++ [ConvertI64ToF64]) widened r c.
Proof.
  intros Ha Hc. replace r with (let* v := r in Ok v) by (by destruct r). rewrite <-(Z.add_0_r c). eapply gives_then; [exact Ha|done|done|].
  intros v w s ps L m _ (z & -> & -> & _) Hr. eapply lands_push; [by apply seq_one|apply Hr| |done]. left. by exists z.
Qed.

Definition both_int (a b : Value) : bool := match a, b with VInt _, VInt _ => true | _, _ => false end.

Lemma float_op_lands op ctor v1 v2 w1 w2 s ps L m c : arithmetic_op_ctor op = Some ctor ->
  widened m v1 w1 -> widened m v2 w2 -> both_int v1 v2 = false -> frame_inv ps L m -> 0 <= c ->
  lands (exec_seq [ctor F64] (MkFrame (w2 :: w1 :: s) ps L m)) s ps m (stands F64) (value_op op v1 v2) c.
Proof.
  intros Hop H1 H2 Hn Hf Hc.
  assert (forall bits, stands F64 m (VFloat bits) (Vf64 bits)) as Hv by (intros bits; by exists bits).
  assert (forall bits, lands (Next (MkFrame (Vf64 bits :: s) ps L m)) s ps m (stands F64) (Ok (VFloat bits)) c) as Hok
    by (intros bits; by eapply lands_push).
  destruct H1 as [(z1 & -> & ->)|(b1 & -> & ->)], H2 as [(z2 & -> & ->)|(b2 & -> & ->)]; try done;
    destruct op; try done; injection Hop as <-; (erewrite seq_one by reflexivity); unfold value_op; cbn [scalar negb];
    cbn [step arith_op div_op mod_op stack]; try apply Hok;
    unfold Arith.eval_numeric_division; cbn [Prelude.bind Arith.expect_number Arith.as_f64]; destruct (Arith.f64_eq _ 0); done || apply Hok.
Qed.

(** ** Comparisons *)

Definition small (z : Z) : Prop := Z.abs z <= 2 ^ 53.

(** Through doubles, small integers compare as integers. *)
Lemma small_order a b : small a -> small b ->
  Arith.f64_lt (i64_as_f64 a) (i64_as_f64 b) = (a <? b) /\ Arith.f64_le (i64_as_f64 a) (i64_as_f64 b) = (a <=? b).
Proof.
  intros Ha Hb. assert (forall z, small z -> Num.in_i64 z = true) as Hi by (unfold small, Num.in_i64, Num.I64_MAX; lia).
  destruct (f64_order_i64 a b (Hi a Ha) (Hi b Hb)) as (-> & -> & _). pose proof (key_strict a b Ha Hb). pose proof (key_strict b a Hb Ha).
  destruct (Z.lt_trichotomy a b) as [Hlt|[->|Hlt]]; [| |]; split; lia.
Qed.

Definition is_order (op : Arith.Operator) : bool := match op with Arith.Lt | Arith.Gt | Arith.Le | Arith.Ge => true | _ => false end.

Definition exact_order (op : Arith.Operator) (v1 v2 : Value) : Prop :=
  is_order op = true -> match v1, v2 with VInt a, VInt b => small a /\ small b | _, _ => True end.

Lemma lands_bool s ps L m c (b : bool) o f : simple o = true -> step powf call_closure o f = Next (MkFrame (Vi32 (if b then 1 else 0) :: s) ps L m) ->
  frame_inv ps L m -> 0 <= c -> lands (exec_seq [o] f) s ps m (stands Bool) (Ok (VBool b)) c.
Proof. intros Ho Hs Hf Hc. rewrite (seq_one o _ _ Ho Hs). eapply lands_push; [reflexivity|done| |done]. by exists b. Qed.

Lemma cmp_lands op ctor ty v1 v2 w1 w2 s ps L m c : comparison_op_ctor op = Some ctor ->
  ty = I64 \/ ty = F64 \/ ty = Bool /\ is_order op = false ->
  stands ty m v1 w1 -> stands ty m v2 w2 -> exact_order op v1 v2 -> frame_inv ps L m -> 0 <= c ->
  lands (exec_seq [ctor ty] (MkFrame (w2 :: w1 :: s) ps L m)) s ps m (stands Bool) (value_op op v1 v2) c.
Proof.
  intros Hop Hty H1 H2 Hex Hf Hc. destruct Hty as [->|[->|[-> Hno]]].
  - destruct H1 as (a & -> & -> & Ha), H2 as (b & -> & -> & Hb). unfold exact_order in Hex.
    destruct op; try done; injection Hop as <-; unfold value_op; cbn [scalar negb];
      rewrite ?(vl_eq Hlaws) by done; cbn [scalar_eq]; try (by apply (lands_bool s ps L)).
    all: specialize (Hex eq_refl) as [Sa Sb]; unfold Arith.eval_numeric_comparison; cbn [Prelude.bind Arith.expect_number Arith.as_f64 trap_of];
      rewrite ?(proj1 (small_order _ _ Sa Sb)), ?(proj2 (small_order _ _ Sa Sb)), ?(proj1 (small_order _ _ Sb Sa)), ?(proj2 (small_order _ _ Sb Sa));
      apply (lands_bool s ps L); try done; cbn [step cmp_op stack push_bool]; unfold push_bool, push; cbn [set_stack params lets mach];
      rewrite ?Z.gtb_ltb, ?Z.geb_leb; done.
  - destruct H1 as (a & -> & ->), H2 as (b & -> & ->). clear Hex.
    destruct op; try done; injection Hop as <-; unfold value_op; cbn [scalar negb];
      rewrite ?(vl_eq Hlaws) by done; cbn [scalar_eq]; by apply (lands_bool s ps L).
  - destruct H1 as (a & -> & ->), H2 as (b & -> & ->). clear Hex.
    destruct op; try done; injection Hop as <-; unfold value_op; cbn [scalar negb];
      rewrite ?(vl_eq Hlaws) by done; cbn [scalar_eq]; apply (lands_bool s ps L); try done; by destruct a, b.
Qed.

(** ** Strings *)

Definition render (v : Value) : string := match v with VString s => s | v => display (Evaluator := Ev) v end.

(** A value as its text. *)
Definition rendered : repr := fun m v w => scalar v = true /\ text_at m (render v) w.
#[export] Instance rendered_stable : Stable rendered.
Proof. intros m m' v w He [Hs Ht]. split; [done|]. by eapply text_extends. Qed.

(** What making the text of a value needs. *)
Definition text_size (r : outcome SandboxTrap Value) : Z :=
  match r with Ok (VInt _) => 28 | Ok (VFloat _) => FLOAT_TO_STR_RECORD_SIZE | _ => 0 end.
Lemma text_size_nonneg r : 0 <= text_size r.
Proof. by destruct r as [[]| |]. Qed.

(** The ops that make it. *)
Definition conversion (ty : IrType) (conv : list Op) : Prop :=
  match ty with
  | String => conv = []
  | I64 => conv = [IntToStr]
  | F64 => conv = [FloatToStr]
  | Bool => exists i j, conv = [If String [ConstString i "true"] [ConstString j "false"]]
  | _ => False
  end.

Lemma gives_text T a ty r c conv : gives T a (stands ty) r c -> 0 <= c -> conversion ty conv -> consts conv ⊆ T -> gives T (a ++ conv) rendered r (c + text_size r).
Proof.
  intros Ha Hc Hconv HT. pose proof (text_size_nonneg r) as Hn. replace r with (let* v := r in Ok v) at 1 by (by destruct r).
  eapply gives_then; [exact Ha|done|done|]. intros v w s ps L m -> Hv Hr. destruct ty; cbn [conversion] in Hconv; try done.
  - destruct Hv as (z & -> & -> & Hz). subst conv. destruct Hr as [Hok Hp Hf Hroom].
    destruct (int_to_str_ok (MkFrame (Vi64 z :: s) ps L m) z s) as (m' & size & E & Hsz & Had); [done..|].
    eapply lands_string; [apply seq_one; [done|exact E]|exact Had|done|done|]. intros Ht. split; [done|]. cbn [render]. by rewrite (vl_int Hlaws).
  - destruct Hv as (bits & -> & ->). subst conv. destruct Hr as [Hok Hp Hf Hroom].
    destruct (float_to_str_ok (MkFrame (Vf64 bits :: s) ps L m) bits s) as (m' & E & Had); [done|done|apply (vl_float_len Hlaws)|done|].
    eapply lands_string; [apply seq_one; [done|exact E]|exact Had|done|done|]. intros Ht. split; [done|]. cbn [render]. by rewrite (vl_float Hlaws).
  - destruct Hv as (b & -> & ->). destruct Hconv as (i & j & ->). assert ((i, "true"%string) ∈ T /\ (j, "false"%string) ∈ T) as [Hi Hj] by (cbn in HT; set_solver). erewrite seq_if by reflexivity. cbn [set_stack stack params lets mach].
    set (text := if b then "true"%string else "false"%string).
    assert (exists off, exec_seq (if (if b then 1 else 0) =? 0 then [ConstString j "false"] else [ConstString i "true"]) (MkFrame s ps L m) =
      Next (MkFrame (Vi32 off :: s) ps L m) /\ text_at m text (Vi32 off)) as (off & -> & Ht).
    { destruct b; cbn [Z.eqb]; [destruct (rd_pool _ _ _ _ _ Hr _ _ Hi) as (off & Ho & Ht)|destruct (rd_pool _ _ _ _ _ Hr _ _ Hj) as (off & Ho & Ht)];
        exists off; (split; [apply seq_one; [done|]; cbn [step]; by rewrite Ho|done]). }
    cbn [end_if stack]. rewrite Nat.eqb_refl. cbn [then_]. eapply lands_push; [reflexivity|apply Hr| |done]. split; [done|]. cbn [render].
    by rewrite (vl_bool Hlaws).
  - destruct Hv as (str & -> & Ht). subst conv. eapply lands_push; [reflexivity|apply Hr| |done]. by split.
Qed.

Lemma value_add v1 v2 : scalar v1 = true -> scalar v2 = true -> (exists s, v1 = VString s) \/ (exists s, v2 = VString s) ->
  value_op (Ev := Ev) Arith.Add v1 v2 = Ok (VString (render v1 +:+ render v2)).
Proof. intros H1 H2 [[s ->]|[s ->]]; [by destruct v2|by destruct v1]. Qed.

(** [StrConcatN] of two operands. *)
Lemma join_lands v1 v2 w1 w2 s ps L m T c :
  rendered m v1 w1 -> rendered m v2 w2 -> (exists s, v1 = VString s) \/ (exists s, v2 = VString s) ->
  ready T ps L m c -> 4 + blen (as_bytes (render v1 +:+ render v2)) <= c ->
  lands (exec_seq [StrConcatN 2] (MkFrame (w2 :: w1 :: s) ps L m)) s ps m (stands String) (value_op Arith.Add v1 v2) c.
Proof.
  intros [S1 (p1 & -> & P1 & T1)] [S2 (p2 & -> & P2 & T2)] Hs Hr Hc. rewrite value_add by done. destruct Hr as [Hok Hp Hf Hroom].
  destruct (concat_n_ok (MkFrame (Vi32 p2 :: Vi32 p1 :: s) ps L m) [p1; p2] [as_bytes (render v1); as_bytes (render v2)] s) as (m' & E & Had);
    cbn [mach concat] in *; [done|done|simpl; lia|by rewrite !Forall2_cons, Forall2_nil|rewrite app_nil_r, <-Smol.as_bytes_app; lia|].
  rewrite app_nil_r, <-Smol.as_bytes_app in Had. eapply lands_string; [apply seq_one; [done|exact E]|exact Had|done|done|].
  intros Ht. by eexists.
Qed.

Lemma seq_concat f : exec_seq [Add String] f = add_strings powf call_closure f.
Proof. unfold Ir.exec_seq. cbn [run_ops exec]. by destruct (add_strings _ _ f). Qed.

(** [Add] on strings. *)
Lemma concat_lands a b w1 w2 s ps L m T c :
  text_at m a w1 -> text_at m b w2 -> ready T ps L m c -> 4 + blen (as_bytes (a +:+ b)) <= c ->
  lands (exec_seq [Add String] (MkFrame (w2 :: w1 :: s) ps L m)) s ps m (stands String) (value_op Arith.Add (VString a) (VString b)) c.
Proof.
  intros (p1 & -> & P1 & T1) (p2 & -> & P2 & T2) [Hok Hp Hf Hroom] Hc. rewrite Smol.as_bytes_app in Hc.
  destruct (add_strings_ok powf call_closure (MkFrame (Vi32 p2 :: Vi32 p1 :: s) ps L m) p1 p2 (as_bytes a) (as_bytes b) s) as (m' & E & Had);
    cbn [mach] in *; [done..|lia|]. rewrite <-Smol.as_bytes_app in *.
  eapply lands_string; [rewrite seq_concat; exact E|exact Had|done|done|]. intros Ht. by eexists.
Qed.

(** ** Arithmetic *)

Definition apply_op (op : Arith.Operator) (r1 r2 : outcome SandboxTrap Value) : outcome SandboxTrap Value :=
  let* v1 := r1 in if scalar v1 then let* v2 := r2 in value_op (Ev := Ev) op v1 v2 else Abort.

(** The room an operation needs: the joined string, and the texts of operands. *)
Definition op_cost (op : Arith.Operator) (r1 r2 : outcome SandboxTrap Value) : Z :=
  match op with
  | Arith.Add =>
      match apply_op op r1 r2 with
      | Ok (VString s) => 4 + blen (as_bytes s) + text_size r1 + text_size r2
      | Ok _ => 0
      | _ => text_size r1 + text_size r2
      end
  | _ => 0
  end.

Lemma op_cost_nonneg op r1 r2 : 0 <= op_cost op r1 r2.
Proof.
  pose proof (text_size_nonneg r1). pose proof (text_size_nonneg r2). unfold op_cost. destruct op; try done.
  destruct (apply_op _ _ _) as [[]| |]; try lia. pose proof (blen_nonneg (as_bytes s)). lia.
Qed.

Lemma stands_scalar ty m v w : ty = I64 \/ ty = F64 \/ ty = Bool \/ ty = String -> stands ty m v w -> scalar v = true.
Proof. intros [->|[->|[->| ->]]] (x & -> & _); done. Qed.

Lemma conversion_scalar ty conv m v w : conversion ty conv -> stands ty m v w -> scalar v = true.
Proof. intros Hc. apply stands_scalar. destruct ty; simpl in Hc; tauto. Qed.

Lemma gives_ints T a b op ctor r1 r2 c1 c2 : arithmetic_op_ctor op = Some ctor ->
  gives T a (stands I64) r1 c1 -> gives T b (stands I64) r2 c2 -> 0 <= c1 -> 0 <= c2 ->
  gives T (a ++ b ++ [ctor I64]) (stands I64) (apply_op op r1 r2) (c1 + c2 + op_cost op r1 r2).
Proof.
  intros Hop Ha Hb H1 H2. apply (gives_binary T a b _ (stands I64) (stands I64)); try done; [apply op_cost_nonneg|by intros m v w (z & -> & _)|].
  intros v1 v2 w1 w2 s ps L m _ _ (x & -> & -> & Hx) (y & -> & -> & Hy) Hr. apply add_int_lands; try done; [apply Hr|apply op_cost_nonneg].
Qed.

Lemma gives_floats T a b op ctor P1 P2 `{!Stable P1} r1 r2 c1 c2 : arithmetic_op_ctor op = Some ctor ->
  gives T a P1 r1 c1 -> gives T b P2 r2 c2 -> 0 <= c1 -> 0 <= c2 ->
  (forall m v w, P1 m v w -> widened m v w) -> (forall m v w, P2 m v w -> widened m v w) ->
  (forall m v1 v2 w1 w2, P1 m v1 w1 -> P2 m v2 w2 -> both_int v1 v2 = false) ->
  gives T (a ++ b ++ [ctor F64]) (stands F64) (apply_op op r1 r2) (c1 + c2 + op_cost op r1 r2).
Proof.
  intros Hop Ha Hb H1 H2 W1 W2 Hn. apply (gives_binary T a b _ P1 P2); try done; [apply op_cost_nonneg| |].
  - intros m v w Hp. by destruct (W1 _ _ _ Hp) as [(z & -> & _)|(z & -> & _)].
  - intros v1 v2 w1 w2 s ps L m _ _ Hp1 Hp2 Hr. apply float_op_lands; try done; [by apply W1|by apply W2|by eapply Hn|apply Hr|apply op_cost_nonneg].
Qed.

Lemma gives_strings T a b r1 r2 c1 c2 :
  gives T a (stands String) r1 c1 -> gives T b (stands String) r2 c2 -> 0 <= c1 -> 0 <= c2 ->
  gives T (a ++ b ++ [Add String]) (stands String) (apply_op Arith.Add r1 r2) (c1 + c2 + op_cost Arith.Add r1 r2).
Proof.
  intros Ha Hb H1 H2. apply (gives_binary T a b _ (stands String) (stands String)); try done; [apply op_cost_nonneg|by intros m v w (z & -> & _)|].
  intros v1 v2 w1 w2 s ps L m -> -> (x & -> & Hx) (y & -> & Hy) Hr. eapply concat_lands; [done|done|done|].
  cbn. unfold text_size. lia.
Qed.

(** A string and another value. *)
Lemma gives_mixed T a b ty1 ty2 conv1 conv2 r1 r2 c1 c2 :
  gives T a (stands ty1) r1 c1 -> gives T b (stands ty2) r2 c2 -> 0 <= c1 -> 0 <= c2 -> ty1 = String \/ ty2 = String ->
  conversion ty1 conv1 -> conversion ty2 conv2 -> consts conv1 ⊆ T -> consts conv2 ⊆ T ->
  gives T ((a ++ conv1) ++ (b ++ conv2) ++ [StrConcatN 2]) (stands String) (apply_op Arith.Add r1 r2) (c1 + c2 + op_cost Arith.Add r1 r2).
Proof.
  intros Ha Hb H1 H2 Hs K1 K2 C1 C2 s ps L m Hr. pose proof (op_cost_nonneg Arith.Add r1 r2) as Hoc.
  pose proof (gives_typed _ _ _ _ _ s _ _ _ Ha ltac:(eapply ready_less; [exact Hr|lia])) as Y1.
  pose proof (gives_typed _ _ _ _ _ s _ _ _ Hb ltac:(eapply ready_less; [exact Hr|lia])) as Y2.
  set (c3 := match apply_op Arith.Add r1 r2 with Ok (VString x) => 4 + blen (as_bytes x) | _ => 0 end).
  assert (forall v1 v2, r1 = Ok v1 -> r2 = Ok v2 -> (exists s, v1 = VString s) \/ (exists s, v2 = VString s)) as Hstr.
  { intros v1 v2 -> ->. destruct Hs as [->| ->]; [left; destruct Y1 as (? & ? & x & -> & _)|right; destruct Y2 as (? & ? & x & -> & _)]; eauto. }
  assert (forall v1, r1 = Ok v1 -> scalar v1 = true) as S1 by (intros v1 ->; destruct Y1 as (? & ? & Y1); exact (conversion_scalar _ _ _ _ _ K1 Y1)).
  assert (forall v2, r2 = Ok v2 -> scalar v2 = true) as S2 by (intros v2 ->; destruct Y2 as (? & ? & Y2); exact (conversion_scalar _ _ _ _ _ K2 Y2)).
  assert (0 <= c3 /\ (c1 + text_size r1) + (c2 + text_size r2) + c3 <= c1 + c2 + op_cost Arith.Add r1 r2) as [Hc3 Hle].
  { assert (forall v, apply_op Arith.Add r1 r2 = Ok v -> exists x, v = VString x) as Hv.
    { intros v Hv. destruct r1 as [v1| |]; try done. cbn in Hv. rewrite (S1 v1 eq_refl) in Hv. destruct r2 as [v2| |]; try done. cbn [Prelude.bind] in Hv.
      rewrite value_add in Hv by auto. injection Hv as <-. by eexists. }
    unfold c3, op_cost. destruct (apply_op Arith.Add r1 r2) as [v| |]; [|lia|lia]. destruct (Hv v eq_refl) as [x ->].
    pose proof (blen_nonneg (as_bytes x)). lia. }
  clear Y1 Y2. eapply lands_weaken; [exact Hle|]. eapply ready_less in Hr; [|exact Hle]. revert s ps L m Hr.
  apply (gives_binary T (a ++ conv1) (b ++ conv2) _ rendered rendered); try done.
  - by apply (gives_text T a ty1).
  - by apply (gives_text T b ty2).
  - pose proof (text_size_nonneg r1). lia.
  - pose proof (text_size_nonneg r2). lia.
  - by intros ? v w [? _].
  - intros v1 v2 w1 w2 s' ps' L' m' E1 E2 Hp1 Hp2 Hr'. eapply join_lands; [done|done|by apply Hstr|done|].
    unfold c3. rewrite E1, E2. cbn [apply_op Prelude.bind]. rewrite (S1 v1 E1), value_add by auto. lia.
Qed.
End Gives.
End LoweringFacts.
