(* ===== verification/ConstPool.v ===== *)
(** The constant pool of a compiled module: [ConstPool] of
    [crates/relon-codegen-cranelift/src/codegen/const_pool.rs], as far as string constants go, which
    are the constants that the modelled ops have.  Its bytes are the start of the arena. *)

From Stdlib Require Import ZArith Lia Bool.
From stdpp Require Import base list strings gmap.
From S2P Require Import Prelude Bytes SchemaCanonical Layout LayoutFacts Value BufferTypes IndexFacts Reader ReaderFacts VerifiedRead Relocation.
From S2P Require Import Encoding NumberLit Arith Native Ir IrStdlib IrFacts IrRecords IrStrings LoweringFacts.
Local Open Scope Z_scope.
Local Open Scope abi_scope.

Module ConstPool.
Import Ir IrFacts IrRecords IrStrings LoweringFacts.

Inductive CraneliftError : Type := Codegen (message : string).

Record ConstPool : Type := MkPool { string_offsets : gmap nat Z; pool_bytes : bytes }.

Definition default : ConstPool := MkPool ∅ [].

(** [align_to] *)
Definition align_to (align : Z) (p : ConstPool) : ConstPool :=
  let rem := blen (pool_bytes p) mod align in
  if negb (rem =? 0) then MkPool (string_offsets p) (pool_bytes p ++ repeat Byte.x00 (Z.to_nat (align - rem))) else p.

Definition u32_try_from (z : Z) (message : string) : outcome CraneliftError Z :=
  if z <=? U32_MAX then Ok z else Err (Codegen message).

Definition visit_const_string (idx : nat) (value : string) (p : ConstPool) : outcome CraneliftError ConstPool :=
  match string_offsets p !! idx with
  | Some _ => Ok p
  | None =>
      let p := align_to 4 p in
      let* off := u32_try_from (blen (pool_bytes p)) "const pool exceeds u32 range" in
      let* len := u32_try_from (blen (as_bytes value)) "ConstString length exceeds u32 range" in
      Ok (MkPool (<[idx := off]> (string_offsets p)) (pool_bytes p ++ u32_to_le len ++ as_bytes value))
  end.

(** [collect_body], and the visitor of an op. *)
Definition collect_ops (visit : Op -> ConstPool -> outcome CraneliftError ConstPool) : list Op -> ConstPool -> outcome CraneliftError ConstPool :=
  fix walk_body (body : list Op) (p : ConstPool) : outcome CraneliftError ConstPool :=
    match body with
    | [] => Ok p
    | o :: body => let* p := visit o p in walk_body body p
    end.

Fixpoint visit_op (o : Op) (p : ConstPool) {struct o} : outcome CraneliftError ConstPool :=
  match o with
  | ConstString idx value => visit_const_string idx value p
  | If _ then_body else_body => let* p := collect_ops visit_op then_body p in collect_ops visit_op else_body p
  | Block _ body | Loop _ body => collect_ops visit_op body p
  | _ => Ok p
  end.

Definition collect_body : list Op -> ConstPool -> outcome CraneliftError ConstPool := collect_ops visit_op.

(** The image of code with this pool. *)
Definition linked (p : ConstPool) (text : Z -> string) : Image := {| string_offset := fun idx => string_offsets p !! idx; f64_display := text |}.

(** ** Records *)

Lemma bytes_at_grows b b' off s : bytes_at b off s -> bytes_at (b ++ b') off s.
Proof. intros [Ho Hs]. split; [done|]. intros i x Hx. by apply lookup_app_l_Some, Hs. Qed.

Lemma string_at_grows b b' off s : string_at b off s -> string_at (b ++ b') off s.
Proof. intros [Hb Hs]. split; [by apply bytes_at_grows|done]. Qed.

Lemma last_bytes_at b s : bytes_at (b ++ s) (blen b) s.
Proof.
  split; [apply blen_nonneg|]. intros i x Hx. unfold blen. rewrite Nat2Z.id. rewrite lookup_app_r by lia.
  by replace (length b + i - length b)%nat with i by lia.
Qed.

Section Pool.
(** The constants of the module. *)
Context (C : list (nat * string)).

Definition pool_inv (p : ConstPool) : Prop :=
  forall idx off, string_offsets p !! idx = Some off -> exists v, (idx, v) ∈ C /\ string_at (pool_bytes p) off (as_bytes v).

Definition has (p : ConstPool) (idx : nat) : Prop := is_Some (string_offsets p !! idx).

Lemma align_offsets a p : string_offsets (align_to a p) = string_offsets p.
Proof. unfold align_to. by destruct (negb _). Qed.

Lemma align_inv a p : pool_inv p -> pool_inv (align_to a p).
Proof.
  intros Hp idx off. rewrite align_offsets. intros Ho. destruct (Hp idx off Ho) as (v & Hv & Hs). exists v. split; [done|].
  unfold align_to. destruct (negb _); [|done]. by apply string_at_grows.
Qed.

Lemma u32_ok z msg r : u32_try_from z msg = Ok r -> r = z /\ z <= U32_MAX.
Proof. unfold u32_try_from. destruct (Z.leb_spec z U32_MAX); [|done]. by intros [= <-]. Qed.

Lemma visit_string idx v p p' : (idx, v) ∈ C -> pool_inv p -> visit_const_string idx v p = Ok p' ->
  pool_inv p' /\ has p' idx /\ forall j, has p j -> has p' j.
Proof.
  intros Hi Hp. unfold visit_const_string. destruct (string_offsets p !! idx) as [o|] eqn:E; [by intros [= <-]; split_and!; [|eexists|]|].
  intros (off & Ho & (len & Hl & [= <-])%bind_ok)%bind_ok. apply u32_ok in Ho as [-> Hb], Hl as [-> Hl].
  pose proof (align_inv 4 p Hp) as Hq. pose proof (align_offsets 4 p) as Eo. set (q := align_to 4 p) in *. split_and!.
  - intros j off. cbn [string_offsets pool_bytes]. intros [[<- <-]|[_ Hj]]%lookup_insert_Some.
    + exists v. split; [done|]. split; [apply last_bytes_at|]. split; [apply blen_nonneg|done].
    + destruct (Hq j off Hj) as (v' & Hv & Hs). exists v'. split; [done|]. by apply string_at_grows.
  - unfold has. cbn [string_offsets]. rewrite lookup_insert_eq. by eexists.
  - intros j [o Hj]. unfold has. cbn [string_offsets]. rewrite <-Eo in Hj. destruct (decide (j = idx)) as [->|Hne].
    + rewrite lookup_insert_eq. by eexists.
    + rewrite lookup_insert_ne by done. by exists o.
Qed.

(** What walking over code does. *)
Definition collects (consts : list (nat * string)) (visit : ConstPool -> outcome CraneliftError ConstPool) : Prop := forall p p',
  consts ⊆ C -> pool_inv p -> visit p = Ok p' -> pool_inv p' /\ (forall idx v, (idx, v) ∈ consts -> has p' idx) /\ forall j, has p j -> has p' j.

Lemma collects_none : collects [] Ok.
Proof. intros p p' _ Hp [= <-]. split_and!; [done| |done]. intros idx v. by rewrite elem_of_nil. Qed.

Lemma collects_app a b f g : collects a f -> collects b g -> collects (a ++ b) (fun p => let* p := f p in g p).
Proof.
  intros Hf Hg p p' HT Hp (q & Eq & Ep)%bind_ok. destruct (Hf p q) as (Iq & Ha & Kq); [set_solver|done|done|].
  destruct (Hg q p') as (Ip & Hb & Kp); [set_solver|done|done|]. split_and!; [done| |by auto].
  intros idx v [Hv|Hv]%elem_of_app; [by eapply Kp, Ha|by eapply Hb].
Qed.

Lemma collects_ops body : Forall (fun o => collects (op_consts o) (visit_op o)) body -> collects (consts body) (collect_ops visit_op body).
Proof.
  induction 1 as [|o body Ho _ IH]; [apply collects_none|]. apply (collects_app (op_consts o) (consts body) _ _ Ho IH).
Qed.
End Pool.

(** Induction on code. *)
Lemma op_ind2 (P : Op -> Prop) :
  (forall o, op_consts o = [] -> (forall p, visit_op o p = Ok p) -> P o) -> (forall idx v, P (ConstString idx v)) ->
  (forall ty a b, Forall P a -> Forall P b -> P (If ty a b)) ->
  (forall ty b, Forall P b -> P (Block ty b)) -> (forall ty b, Forall P b -> P (Loop ty b)) -> forall o, P o.
Proof.
  intros Hleaf Hs Hif Hblock Hloop. fix IH 1. intros o.
  assert (forall l, Forall P l) as Hl by (fix IHl 1; intros [|x l]; constructor; [apply IH|apply IHl]).
  destruct o; try (by apply Hleaf); [apply Hif|apply Hblock|apply Hloop|apply Hs]; apply Hl.
Qed.

Lemma visit_collects C o : collects C (op_consts o) (visit_op o).
Proof.
  induction o as [o Hc Hv|idx v|ty a b Ha Hb|ty b Hb|ty b Hb] using op_ind2.
  - rewrite Hc. intros p p' HT Hp. rewrite Hv. apply (collects_none C p p' HT Hp).
  - intros p p' HT Hp E. destruct (visit_string C idx v p p') as (I & Hi & K); [apply HT; set_solver|done|done|]. split_and!; [done| |done].
    intros j w. cbn. rewrite list_elem_of_singleton. by intros [= -> _].
  - apply (collects_app C _ _ (collect_ops visit_op a) (collect_ops visit_op b)); [apply (collects_ops C a), Ha|apply (collects_ops C b), Hb].
  - apply (collects_ops C b), Hb.
  - apply (collects_ops C b), Hb.
Qed.

(** The pool of a function body has the record of every string constant of the body. *)
Lemma pool_sound ops p : (forall idx v v', (idx, v) ∈ consts ops -> (idx, v') ∈ consts ops -> v = v') ->
  collect_body ops default = Ok p -> forall idx v, (idx, v) ∈ consts ops ->
  exists off, string_offsets p !! idx = Some off /\ string_at (pool_bytes p) off (as_bytes v).
Proof.
  intros HC Hp idx v Hv. destruct (collects_ops (consts ops) ops) with (p := default) (p' := p) as (I & Hh & _); [|done|by intros ? ?|exact Hp|].
  { apply Forall_forall. intros o _. by apply visit_collects. }
  destruct (Hh idx v Hv) as [off Ho]. destruct (I idx off Ho) as (v' & Hv' & Hs). exists off. split; [done|]. by rewrite (HC idx v v' Hv Hv').
Qed.
End ConstPool.
