(* ===== verification/LoweringSound.v ===== *)
(** Compiled operator expressions compute what the evaluator computes. *)

From Stdlib Require Import ZArith Lia Bool.
From stdpp Require Import base list strings pretty gmap.
From S2P Require Import Prelude Bytes SchemaCanonical Layout LayoutFacts Value BufferTypes IndexFacts Reader ReaderFacts VerifiedRead Relocation.
From S2P Require Import Encoding SmolStr Lexer NumberLit Arith Context Operators ConstFold Native Ir IrStdlib Lowering IrFacts IrRecords IrStrings IrText.
From S2P Require Import Meaning LoweringFacts ConstPool.
Local Open Scope Z_scope.
Local Open Scope abi_scope.

Module LoweringSound.
Import Operators Intern Lowering Ir IrFacts IrRecords IrStrings IrText Meaning LoweringFacts.

(** ** The table of string constants *)

(** Every constant has an index of its own, below the next one. *)
Record table_ok (t : StringInternTable) : Prop := {
  tb_below : forall v idx, by_bytes t !! v = Some idx -> (idx < next t)%nat;
  tb_inj : forall v v' idx, by_bytes t !! v = Some idx -> by_bytes t !! v' = Some idx -> v = v';
}.

Record extends_table (t t' : StringInternTable) : Prop := {
  et_keeps : by_bytes t ⊆ by_bytes t';
  et_ok : table_ok t -> table_ok t';
}.

#[export] Instance extends_table_preorder : PreOrder extends_table.
Proof.
  split; [intros t; by split|]. intros t1 t2 t3 [K1 O1] [K2 O2]. split; [by etransitivity|auto].
Qed.

Lemma intern_grows s t : extends_table t (snd (intern s t)) /\ by_bytes (snd (intern s t)) !! s = Some (fst (intern s t)).
Proof.
  unfold intern. destruct (by_bytes t !! s) as [i|] eqn:E; [done|]. cbn [fst snd by_bytes]. split; [split|by rewrite lookup_insert_eq].
  - by apply insert_subseteq.
  - intros [Hb Hi]. split; cbn [by_bytes next].
    + intros v idx [[_ <-]|[_ Hv]]%lookup_insert_Some; [lia|]. specialize (Hb _ _ Hv). lia.
    + intros v v' idx [[<- <-]|[_ Hv]]%lookup_insert_Some [[<- E']|[_ Hv']]%lookup_insert_Some; try done.
      * specialize (Hb _ _ Hv'). lia.
      * subst. specialize (Hb _ _ Hv). lia.
      * by eapply Hi.
Qed.

Section Sound.
Context {H : HostTypes} {Sur : Surroundings} {Img : Image}.
Context (powf : Z -> Z -> Z) (call_closure : Z -> Z -> list slot -> machine -> closure_result) (fuel : nat).
Context {R : Type} {Ev : Evaluator R} {Lambda Rest Other : Type}.
Notation ctxt := (LowerCtx Lambda Rest).
Notation lowering := (Lower R Lambda Rest Other).
Notation gives := (gives powf call_closure fuel).
Hypothesis Hlaws : value_laws (Ev := Ev).

Definition grows (ctx ctx' : ctxt) : Prop := extends_table (const_intern ctx) (const_intern ctx').

(** The string constants of the code are those of the table. *)
Definition consts_in (ops : list Op) (t : StringInternTable) : Prop := forall idx v, (idx, v) ∈ consts ops -> by_bytes t !! v = Some idx.

(** Lowering appends code that computes [r], pushes its type, and keeps the constants. *)
Definition well (lower : lowering) (r : outcome SandboxTrap Value) (c : Z) : Prop := forall ctx ctx',
  lower ctx = Ok ctx' -> exists ops ty,
    out ctx' = out ctx ++ ops /\ tstack ctx' = ty :: tstack ctx /\ grows ctx ctx' /\ ty <> Unit /\
    consts_in ops (const_intern ctx') /\ forall T, consts ops ⊆ T -> gives T ops (stands ty) r c.

Lemma consts_app a b : consts (a ++ b) = consts a ++ consts b.
Proof. apply flat_map_app. Qed.

Lemma consts_in_app a b t : consts_in a t -> consts_in b t -> consts_in (a ++ b) t.
Proof. intros Ha Hb idx v. rewrite consts_app, elem_of_app. intros [Hi|Hi]; [by apply Ha|by apply Hb]. Qed.

Lemma consts_in_grows ops t t' : consts_in ops t -> extends_table t t' -> consts_in ops t'.
Proof. intros Ho [Ht _] idx v Hi. eapply lookup_weaken; [by apply Ho|done]. Qed.

Lemma consts_in_none o t : op_consts o = [] -> consts_in [o] t.
Proof. intros Ho idx v. cbn. rewrite Ho. by rewrite elem_of_nil. Qed.

Lemma consts_in_if ty a b t : consts_in a t -> consts_in b t -> consts_in [If ty a b] t.
Proof. intros Ha Hb idx v. cbn. rewrite app_nil_r, elem_of_app. intros [Hi|Hi]; [by apply Ha|by apply Hb]. Qed.

Lemma no_consts op ctor ty : arithmetic_op_ctor op = Some ctor \/ comparison_op_ctor op = Some ctor -> op_consts (ctor ty) = [].
Proof. by destruct op; intros [[= <-]|[= <-]]. Qed.

Lemma pop_inv (e : LoweringError R Other) (ctx : ctxt) ty ctx' :
  pop_ty e ctx = Ok (ty, ctx') -> tstack ctx = ty :: tstack ctx' /\ out ctx' = out ctx /\ const_intern ctx' = const_intern ctx.
Proof. unfold pop_ty. destruct (tstack ctx) as [|t ts]; [done|]. by intros [= <- <-]. Qed.

Lemma well_emit (o : ctxt -> Op) ty v :
  ty <> Unit -> (forall ctx T, gives T [o ctx] (stands ty) (Ok v) 0) -> (forall ctx, op_consts (o ctx) = []) ->
  well (fun ctx => Ok (emit (o ctx) ty ctx)) (Ok v) 0.
Proof. intros Hty Ho Hn ctx ctx' [= <-]. exists [o ctx], ty. split_and!; try done. by apply consts_in_none. Qed.

Lemma well_string s : well (fun ctx => let '(o, ctx) := const_string s ctx in Ok (emit o String ctx)) (Ok (VString s)) 0.
Proof.
  intros ctx ctx'. unfold const_string. pose proof (intern_grows s (const_intern ctx)) as [Hg Hi]. destruct (intern s _) as [idx t]. cbn [fst snd] in *.
  intros [= <-]. exists [ConstString idx s], String. split_and!; try done.
  - intros i v. cbn. rewrite list_elem_of_singleton. by intros [= -> ->].
  - intros T HT. apply gives_const. cbn in HT. set_solver.
Qed.

Lemma well_branch lower r c range ctx body ty ctx' : well lower r c -> lower_branch lower range ctx = Ok (body, ty, ctx') ->
  out ctx' = out ctx /\ tstack ctx' = tstack ctx /\ grows ctx ctx' /\ ty <> Unit /\
  consts_in body (const_intern ctx') /\ forall T, consts body ⊆ T -> gives T body (stands ty) r c.
Proof.
  intros Hw (c1 & Hl & Hb)%bind_ok. destruct (Hw _ _ Hl) as (ops & ty' & Ho & Ht & Hg & Hu & Hci & Hgv). cbn [set_out set_tstack out tstack] in *.
  rewrite Ht in Hb. injection Hb as <- <- <-. cbn [set_out set_tstack out tstack]. rewrite Ho. by split_and!.
Qed.

Ltac chase := unfold grows in *; cbn [emit push_ty push_op set_out set_tstack set_intern out tstack const_intern] in *;
  repeat match goal with E : const_intern _ = const_intern _ |- _ => rewrite E in * end.
Ltac included := repeat (first [reflexivity | eassumption | etransitivity; [eassumption|]]).
(** The constants of pieces of code. *)
Ltac pieces := repeat apply consts_in_app; try apply consts_in_if; try (by apply consts_in_none);
  try (eapply consts_in_grows; [eassumption|included]).
Ltac within :=
  match goal with HT : consts _ ⊆ _ |- _ =>
    intros ? ?; apply HT; unfold consts in *; rewrite ?flat_map_app; cbn [flat_map op_consts]; rewrite ?elem_of_app; tauto end.

Lemma well_ternary lc lt le rc rt re cc ct ce range :
  well lc rc cc -> well lt rt ct -> well le re ce -> 0 <= cc -> 0 <= ct -> 0 <= ce ->
  well (lower_ternary lc lt le range) (let* v := rc in if Arith.is_truthy v then rt else re) (cc + (ct + ce)).
Proof.
  intros Wc Wt We Hc Ht He ctx ctx' Hl. apply bind_ok in Hl as (c1 & L1 & Hl). apply bind_ok in Hl as ([ty c2] & Hp & Hrest).
  destruct (Wc _ _ L1) as (ops & ty1 & O1 & T1 & G1 & _ & K1 & V1). apply pop_inv in Hp as (T2 & O2 & I2). rewrite T1 in T2. injection T2 as <- E2.
  unfold is_bool in Hrest. destruct (bool_decide_reflect (ty1 = Bool)) as [->|]; [|done]. cbn [negb] in Hrest.
  apply bind_ok in Hrest as ([[tb tty] c3] & Bt & Hrest). apply bind_ok in Hrest as ([[eb ety] c4] & Be & Hrest).
  destruct (well_branch _ _ _ _ _ _ _ _ Wt Bt) as (O3 & T3 & G3 & U3 & K3 & V3). destruct (well_branch _ _ _ _ _ _ _ _ We Be) as (O4 & T4 & G4 & U4 & K4 & V4).
  destruct (bool_decide_reflect (tty <> ety)) as [|Heq%dec_stable]; [done|]. subst ety. injection Hrest as <-.
  exists (ops ++ [If tty tb eb]), tty. chase.
  split_and!; [by rewrite O4, O3, O2, O1, app_assoc|congruence|included|done|pieces|].
  intros T HT. apply gives_if with (rt := rt) (re := re); try done; [apply V1; within|apply V3; within|apply V4; within].
Qed.

Lemma well_and l1 l2 r1 r2 c1 c2 op range : well l1 r1 c1 -> well l2 r2 c2 -> 0 <= c1 -> 0 <= c2 ->
  well (lower_short_circuit true op l1 l2 range) (let* v := r1 in if Arith.is_truthy v then r2 else Ok v) (c1 + c2).
Proof.
  intros W1 W2 H1 H2 ctx ctx' Hl. apply bind_ok in Hl as (x1 & L1 & Hl). apply bind_ok in Hl as ([ty x2] & Hp & Hl).
  destruct (W1 _ _ L1) as (ops & ty1 & O1 & T1 & G1 & _ & K1 & V1). apply pop_inv in Hp as (T2 & O2 & I2). rewrite T1 in T2. injection T2 as <- E2.
  unfold is_bool in Hl. destruct (bool_decide_reflect (ty1 = Bool)) as [->|]; [|done]. cbn [negb] in Hl.
  apply bind_ok in Hl as ([[body ty2] x3] & B & Hl). destruct (well_branch _ _ _ _ _ _ _ _ W2 B) as (O3 & T3 & G3 & U3 & K3 & V3). cbn [Prelude.bind] in Hl.
  destruct (bool_decide_reflect (ty2 = Bool)) as [->|]; [|done]. injection Hl as <-. exists (ops ++ [If Bool body [ConstBool false]]), Bool. chase.
  split_and!; [by rewrite O3, O2, O1, app_assoc|congruence|included|done|pieces|]. intros T HT. rewrite <-(Z.add_0_r c2).
  eapply gives_if; try done; [apply V1; within|apply V3; within|apply gives_bool|by intros []].
Qed.

Lemma well_or l1 l2 r1 r2 c1 c2 op range : well l1 r1 c1 -> well l2 r2 c2 -> 0 <= c1 -> 0 <= c2 ->
  well (lower_short_circuit false op l1 l2 range) (let* v := r1 in if Arith.is_truthy v then Ok v else r2) (c1 + c2).
Proof.
  intros W1 W2 H1 H2 ctx ctx' Hl. apply bind_ok in Hl as (x1 & L1 & Hl). apply bind_ok in Hl as ([ty x2] & Hp & Hl).
  destruct (W1 _ _ L1) as (ops & ty1 & O1 & T1 & G1 & _ & K1 & V1). apply pop_inv in Hp as (T2 & O2 & I2). rewrite T1 in T2. injection T2 as <- E2.
  unfold is_bool in Hl. destruct (bool_decide_reflect (ty1 = Bool)) as [->|]; [|done]. cbn [negb Prelude.bind] in Hl.
  apply bind_ok in Hl as ([[body ty2] x3] & B & Hl). destruct (well_branch _ _ _ _ _ _ _ _ W2 B) as (O3 & T3 & G3 & U3 & K3 & V3).
  destruct (bool_decide_reflect (ty2 = Bool)) as [->|]; [|done]. injection Hl as <-. exists (ops ++ [If Bool [ConstBool true] body]), Bool. chase.
  split_and!; [by rewrite O3, O2, O1, app_assoc|congruence|included|done|pieces|]. intros T HT. rewrite <-(Z.add_0_l c2).
  eapply gives_if; try done; [apply V1; within|apply gives_bool|apply V3; within|by intros []].
Qed.

Lemma conversion_inv ty range (ctx ctx' : ctxt) : lower_value_to_string (Other := Other) (TokenRange := R) ty range ctx = Ok ctx' ->
  exists conv, out ctx' = out ctx ++ conv /\ tstack ctx' = String :: tstack ctx /\ grows ctx ctx' /\
    consts_in conv (const_intern ctx') /\ conversion ty conv.
Proof.
  unfold lower_value_to_string. destruct ty; try done.
  - intros [= <-]. exists [IntToStr]. split_and!; try done. by apply consts_in_none.
  - intros [= <-]. exists [FloatToStr]. split_and!; try done. by apply consts_in_none.
  - unfold const_string. pose proof (intern_grows "true" (const_intern ctx)) as [G1 I1]. destruct (intern "true" _) as [i t1].
    chase. pose proof (intern_grows "false" t1) as [G2 I2]. destruct (intern "false" t1) as [j t2]. cbn [fst snd] in *. intros [= <-].
    eexists. split_and!; [reflexivity|reflexivity|chase; included| |by exists i, j]. chase.
    intros idx v. cbn. rewrite !elem_of_cons, elem_of_nil. intros [[= -> ->]|[[= -> ->]|[]]]; [eapply lookup_weaken; [done|apply G2]|done].
  - intros [= <-]. exists []. rewrite app_nil_r. split_and!; try done. intros idx v. cbn. by rewrite elem_of_nil.
Qed.

Lemma well_arithmetic op ctor l1 l2 r1 r2 c1 c2 range g1 g2 : arithmetic_op_ctor op = Some ctor ->
  well l1 r1 c1 -> well l2 r2 c2 -> 0 <= c1 -> 0 <= c2 ->
  well (lower_arithmetic op ctor l1 l2 range g1 g2) (apply_op (Ev := Ev) op r1 r2) (c1 + c2 + op_cost (Ev := Ev) op r1 r2).
Proof.
  intros Hop W1 W2 H1 H2 ctx ctx' Hl. apply bind_ok in Hl as (x1 & L1 & Hl). destruct (W1 _ _ L1) as (a & ty1 & O1 & T1 & G1 & U1 & K1 & V1).
  rewrite T1 in Hl. apply bind_ok in Hl as (x2 & L2 & Hl). destruct (W2 _ _ L2) as (b & ty2 & O2 & T2 & G2 & U2 & K2 & V2).
  apply bind_ok in Hl as ([t2 x3] & P2 & Hl). apply bind_ok in Hl as ([t1 x4] & P1 & Hl).
  apply pop_inv in P2 as (T3 & O3 & I3). apply pop_inv in P1 as (T4 & O4 & I4). chase. rewrite T2 in T3. injection T3 as <- T3. rewrite <-T3, T1 in T4.
  injection T4 as <- T4. cbn [app] in O2. rewrite O2, O3 in *.
  assert (forall ops ty, ctx' = push_ty ty (set_out x4 (out x4 ++ ops)) -> ty <> Unit -> consts ops = consts b ->
    (forall T, consts a ⊆ T -> consts b ⊆ T -> gives T (a ++ ops) (stands ty) (apply_op (Ev := Ev) op r1 r2) (c1 + c2 + op_cost (Ev := Ev) op r1 r2)) ->
    exists ops ty, out ctx' = out ctx ++ ops /\ tstack ctx' = ty :: tstack ctx /\ extends_table (const_intern ctx) (const_intern ctx') /\
      ty <> Unit /\ consts_in ops (const_intern ctx') /\ (forall T, consts ops ⊆ T ->
      gives T ops (stands ty) (apply_op (Ev := Ev) op r1 r2) (c1 + c2 + op_cost (Ev := Ev) op r1 r2))) as Hplain.
  { intros ops ty -> Hty Hn Hg. exists (a ++ ops), ty. chase. split_and!; [by rewrite O4, O1, app_assoc|congruence|included|done| |].
    - apply consts_in_app; [eapply consts_in_grows; [exact K1|included]|]. intros idx v. rewrite Hn. apply K2.
    - intros T HT. rewrite consts_app, Hn in HT. apply Hg; intros ? ?; apply HT, elem_of_app; auto. }
  assert (op_consts (ctor F64) = []) as Nf by (apply (no_consts op); auto). assert (op_consts (ctor I64) = []) as Ni by (apply (no_consts op); auto).
  assert (forall x, op_consts x = [] -> consts (b ++ [x]) = consts b) as Nb by (intros x Hx; rewrite consts_app; cbn; by rewrite Hx, !app_nil_r).
  assert (forall P m v w, P = widened \/ P = stands F64 -> P m v w -> widened (H := H) m v w) as Hw by (intros P m v w [->| ->]; [done|by right]).
  destruct (decide (ty1 = I64 /\ ty2 = F64)) as [[-> ->]|N1].
  { injection Hl as <-. apply (Hplain ([ConvertI64ToF64] ++ b ++ [ctor F64]) F64); [done|done|by apply Nb|]. intros T HT HT'. rewrite (app_assoc a).
    apply gives_floats with (P1 := widened) (P2 := stands F64); try done; [apply _|by apply gives_widened; [apply V1|]|by apply V2|by intros; eapply Hw; [right|]|].
    intros m v1 v2 w1 w2 _ (bits & -> & _). by destruct v1. }
  destruct (decide (ty1 = F64 /\ ty2 = I64)) as [[-> ->]|N2].
  { injection Hl as <-. apply (Hplain (b ++ [ConvertI64ToF64] ++ [ctor F64]) F64); [done|done|rewrite app_assoc, consts_app; cbn; by rewrite Nf, Nb, !app_nil_r|].
    intros T HT HT'. rewrite (app_assoc b).
    apply gives_floats with (P1 := stands F64) (P2 := widened); try done; [apply _|by apply V1|by apply gives_widened; [apply V2|]|by intros; eapply Hw; [right|]|].
    by intros m v1 v2 w1 w2 (bits & -> & _) _. }
  match type of Hl with context [if ?c && ?d then ?x else ?y] => assert ((if c && d then x else y) = Ok ctx') as Hd
    by (destruct ty1, ty2; first [exact Hl|by destruct N1|by destruct N2]) end. clear Hl N1 N2.
  destruct (bool_decide_reflect (ty1 <> ty2)) as [Hne|Heq%dec_stable]; cbn [andb] in Hd.
  - destruct (is_add op && _) eqn:Ea; [|done]. apply andb_true_iff in Ea as [Eop Es]. destruct op; try done. clear Eop Hplain.
    assert (ty1 = String \/ ty2 = String) as Hs by (apply orb_true_iff in Es as [Es|Es]; apply bool_decide_eq_true in Es; auto).
    apply bind_ok in Hd as (x5 & X1 & Hd). apply bind_ok in Hd as (x6 & X2 & Hd). injection Hd as <-.
    apply conversion_inv in X1 as (k1 & O5 & T5 & G5 & K5 & V5). apply conversion_inv in X2 as (k2 & O6 & T6 & G6 & K6 & V6). chase. rewrite T5 in T6. cbn [tail] in T6.
    exists ((a ++ k1) ++ (b ++ k2) ++ [StrConcatN 2]), String. rewrite T6. cbn [tail].
    split_and!; [by rewrite O6, O5, O4, O1, <-!app_assoc|congruence|included|done|pieces|]. intros T HT.
    apply gives_mixed with (ty1 := ty1) (ty2 := ty2); try done; [apply V1; within|apply V2; within|within|within].
  - subst ty2. assert (forall o t, Ok (E := LoweringError R Other) (emit o t (set_out x4 (out x4 ++ b))) = Ok ctx' -> ctx' = push_ty t (set_out x4 (out x4 ++ b ++ [o]))) as He.
    { intros o t [= <-]. unfold emit, push_op, push_ty. chase. by rewrite app_assoc. }
    destruct ty1; try done.
    + apply He in Hd. eapply Hplain; [exact Hd|done|by apply Nb|]. intros T HT HT'. apply gives_ints; try done; [by apply V1|by apply V2].
    + apply He in Hd. eapply Hplain; [exact Hd|done|by apply Nb|]. intros T HT HT'.
      apply gives_floats with (P1 := stands F64) (P2 := stands F64); try done; [apply _|by apply V1|by apply V2|by intros; eapply Hw; [right|]..|].
      by intros m v1 v2 w1 w2 (bits & -> & _) _.
    + destruct (is_add op) eqn:Eop; [|done]. destruct op; try done. apply He in Hd. eapply Hplain; [exact Hd|done|by apply Nb|]. intros T HT HT'.
      apply gives_strings; try done; [by apply V1|by apply V2].
Qed.

Lemma well_comparison op ctor l1 l2 r1 r2 c1 c2 range : comparison_op_ctor op = Some ctor ->
  well l1 r1 c1 -> well l2 r2 c2 -> 0 <= c1 -> 0 <= c2 -> (forall v1 v2, r1 = Ok v1 -> r2 = Ok v2 -> exact_order op v1 v2) ->
  well (lower_comparison op ctor l1 l2 range) (apply_op (Ev := Ev) op r1 r2) (c1 + c2).
Proof.
  intros Hop W1 W2 H1 H2 Hex ctx ctx' Hl. apply bind_ok in Hl as (x1 & L1 & Hl). destruct (W1 _ _ L1) as (a & ty1 & O1 & T1 & G1 & U1 & K1 & V1).
  apply bind_ok in Hl as (x2 & L2 & Hl). destruct (W2 _ _ L2) as (b & ty2 & O2 & T2 & G2 & U2 & K2 & V2).
  apply bind_ok in Hl as ([t2 x3] & P2 & Hl). apply bind_ok in Hl as ([t1 x4] & P1 & Hl).
  apply pop_inv in P2 as (T3 & O3 & I3). apply pop_inv in P1 as (T4 & O4 & I4). chase. rewrite T2 in T3. injection T3 as <- T3. rewrite <-T3, T1 in T4.
  injection T4 as <- T4. destruct (bool_decide_reflect (ty1 <> ty2)) as [|Heq%dec_stable]; [done|]. subst ty2.
  assert ((ty1 = I64 \/ ty1 = F64 \/ ty1 = Bool /\ is_order op = false) /\ ctx' = emit (ctor ty1) Bool x4) as [Hty ->].
  { destruct ty1; try done; destruct op; try done; injection Hl as <-; auto. }
  assert (op_consts (ctor ty1) = []) as Hn by (apply (no_consts op); auto).
  exists (a ++ b ++ [ctor ty1]), Bool. chase. split_and!; [by rewrite O4, O3, O2, O1, <-!app_assoc|congruence|included|done|pieces|].
  intros T HT. rewrite <-(Z.add_0_r (c1 + c2)). apply gives_binary with (P1 := stands ty1) (P2 := stands ty1); try done; [apply _|apply V1; within|apply V2; within| |].
  - intros m v w Hp. eapply stands_scalar; [|exact Hp]. naive_solver.
  - intros v1 v2 w1 w2 s ps L m E1 E2 S1 S2 Hr. eapply cmp_lands; try done; [by apply Hex|apply Hr].
Qed.

(** ** Chains of concatenations *)

(** The leaves of a chain, pushed one after the other. *)
Definition pushes (T : list (nat * string)) (ops : list Op) (k : nat) (r : outcome SandboxTrap Value) (c : Z) : Prop :=
  forall s ps L m, ready T ps L m c ->
  match r with
  | Ok v => exists offs ss str L' m', v = VString str /\
      exec_seq powf call_closure fuel ops (MkFrame s ps L m) = Next (MkFrame (rev (Vi32 <$> offs) ++ s) ps L' m') /\
      moves m m' c /\ frame_inv ps L' m' /\ length offs = k /\ as_bytes str = concat ss /\
      Forall2 (fun p s => string_at (arena m') p s /\ p + 4 + blen s <= top m') offs ss
  | Err t => exec_seq powf call_closure fuel ops (MkFrame s ps L m) = Trapped t
  | Abort => False
  end.

Lemma pushes_one T ops r c : gives T ops (stands String) r c -> pushes T ops 1 r c.
Proof.
  intros Hg s ps L m Hr. specialize (Hg s ps L m Hr). destruct r as [v|t|]; simpl in Hg; try done.
  destruct Hg as (w & L' & m' & E & Hm & Hf & (str & -> & p & -> & Hp & Ht)). exists [p], [as_bytes str], str, L', m'.
  split_and!; try done; [cbn [concat]; by rewrite app_nil_r|by rewrite Forall2_cons, Forall2_nil].
Qed.

Lemma strings_extends m m' offs ss : extends m m' ->
  Forall2 (fun p s => string_at (arena m) p s /\ p + 4 + blen s <= top m) offs ss ->
  Forall2 (fun p s => string_at (arena m') p s /\ p + 4 + blen s <= top m') offs ss.
Proof.
  intros He Hs. eapply Forall2_impl; [exact Hs|]. intros p s [Hp Ht]. pose proof (extends_top _ _ He). split; [by eapply extends_string|lia].
Qed.

Lemma pushes_more T a b k r1 r2 c1 c2 : pushes T a k r1 c1 -> gives T b (stands String) r2 c2 -> 0 <= c1 -> 0 <= c2 ->
  pushes T (a ++ b) (S k) (apply_op (Ev := Ev) Arith.Add r1 r2) (c1 + c2).
Proof.
  intros Ha Hb H1 H2 s ps L m Hr. rewrite seq_app. pose proof (Ha s ps L m ltac:(eapply ready_less; [done|lia])) as Hl.
  destruct r1 as [v1|t|]; simpl in Hl; [|by rewrite Hl|done]. destruct Hl as (offs & ss & str & L1 & m1 & -> & -> & M1 & F1 & Hk & Hs & Hat).
  cbn [then_ apply_op Prelude.bind scalar]. pose proof (ready_after _ _ _ _ _ _ _ _ Hr H2 M1 F1) as R1.
  specialize (Hb (rev (Vi32 <$> offs) ++ s) ps L1 m1 R1). destruct r2 as [v2|t|]; simpl in Hb; [|by rewrite Hb|done].
  destruct Hb as (w & L2 & m2 & -> & M2 & F2 & (str2 & -> & p & -> & Hp & Ht)). cbn [Prelude.bind value_op scalar negb].
  exists (offs ++ [p]), (ss ++ [as_bytes str2]), (str +:+ str2), L2, m2.
  split_and!; [done| |by eapply moves_trans|done|rewrite length_app; simpl; lia| |].
  - rewrite fmap_app, rev_app_distr. done.
  - rewrite Smol.as_bytes_app, Hs, concat_app. cbn [concat]. by rewrite app_nil_r.
  - apply Forall2_app; [eapply strings_extends; [apply M2|done]|]. by rewrite Forall2_cons, Forall2_nil.
Qed.

Lemma pushes_join T ops k r c : pushes T ops k r c -> (2 <= k)%nat -> 0 <= c ->
  gives T (ops ++ [StrConcatN k]) (stands String) r (c + match r with Ok (VString str) => 4 + blen (as_bytes str) | _ => 0 end).
Proof.
  intros Hp Hk Hc s ps L m Hr. set (c' := match r with Ok (VString str) => _ | _ => _ end) in *.
  assert (0 <= c') as Hc' by (unfold c'; destruct r as [[]| |]; try lia; pose proof (blen_nonneg (as_bytes s0)); lia).
  rewrite seq_app. pose proof (Hp s ps L m ltac:(eapply ready_less; [done|lia])) as Hl. destruct r as [v|t|]; simpl in Hl; [|by rewrite Hl|done].
  destruct Hl as (offs & ss & str & L1 & m1 & -> & -> & M1 & F1 & Hk' & Hs & Hat). cbn [then_].
  pose proof (ready_after _ _ _ _ _ _ _ _ Hr Hc' M1 F1) as [Hok _ _ Hroom]. unfold c' in *. eapply lands_moves; [exact M1|].
  destruct (concat_n_ok (MkFrame (rev (Vi32 <$> offs) ++ s) ps L1 m1) offs ss s) as (m2 & E & Had); cbn [mach] in *; [done|done|lia|done|rewrite <-Hs; lia|].
  rewrite Hk', <-Hs in *. eapply lands_string; [apply seq_one; [done|exact E]|exact Had|done|done|]. intros Ht. by exists str.
Qed.

Lemma pushes_weaken T ops k r c c' : pushes T ops k r c -> c <= c' -> pushes T ops k r c'.
Proof.
  intros Hp Hc s ps L m Hr. specialize (Hp s ps L m ltac:(by eapply ready_less)). destruct r as [v|t|]; try done.
  destruct Hp as (offs & ss & str & L' & m' & Hv & E & [He Ht] & Hrest). exists offs, ss, str, L', m'. do 2 (split; [done|]). split; [split; [done|lia]|done].
Qed.

(** ** Expressions *)

Context (denote : node R -> outcome SandboxTrap Value) (other_cost : node R -> Z) (lower_other : node R -> lowering).
Notation sem := (sem denote).
Notation lower_expr := (lower_expr lower_other).

(** The room that the code of an expression needs. *)
Fixpoint cost (n : node R) : Z :=
  match n with
  | Node _ e =>
      match e with
      | EBinary (Arith.And | Arith.Or) l r => cost l + cost r
      | EBinary Arith.Pipe _ _ | EFString _ | EOther _ => other_cost n
      | EBinary op l r => cost l + cost r + op_cost (Ev := Ev) op (sem l) (sem r)
      | ETernary c t e => cost c + (cost t + cost e)
      | _ => 0
      end
  end.

(** Integers are 64 bits wide, and those that are ordered are below 2^53. *)
Definition small_z (z : Z) : bool := Z.abs z <=? 2 ^ 53.
Definition ordered_exactly (op : Arith.Operator) (r1 r2 : outcome SandboxTrap Value) : bool :=
  negb (is_order op) || match r1, r2 with Ok (VInt a), Ok (VInt b) => small_z a && small_z b | _, _ => true end.
Fixpoint in_range (n : node R) : bool :=
  match n with
  | Node _ e =>
      match e with
      | EInt i => Num.in_i64 i
      | EBinary Arith.Pipe _ _ => true
      | EBinary op l r => in_range l && in_range r && ordered_exactly op (sem l) (sem r)
      | ETernary c t e => in_range c && in_range t && in_range e
      | _ => true
      end
  end.

Definition other_kind (n : node R) : bool :=
  match expr_of n with EBinary Arith.Pipe _ _ | EFString _ | EOther _ => true | _ => false end.

Hypothesis Hcost : forall n, 0 <= other_cost n.
Hypothesis Hother : forall n, other_kind n = true -> well (lower_other n) (denote n) (other_cost n).

Lemma cost_nonneg n : 0 <= cost n.
Proof.
  induction n as [g e He|g op l r IHl IHr|g op j IHj|g c t e IHc IHt IHe] using node_ind2; [destruct e; try done; apply Hcost| |done|cbn [cost]; lia].
  pose proof (op_cost_nonneg (Ev := Ev) op (sem l) (sem r)). destruct op; cbn [cost]; try apply Hcost; lia.
Qed.

(** The leaves as a function of their own. *)
Fixpoint lower_leaves (c : node R) (ctx : ctxt) : outcome (LoweringError R Other) (bool * ctxt) :=
  match c with
  | Node _ (EBinary Arith.Add inner_l inner_r) =>
      let* (all, ctx) := lower_leaves inner_l ctx in
      if all then lower_leaf (lower_expr inner_r) ctx else Ok (false, ctx)
  | _ => lower_leaf (lower_expr c) ctx
  end.

Lemma lower_plain g op l r ctx : op <> Arith.Pipe -> lower_expr (Node g (EBinary op l r)) ctx =
  let* (folded, ctx) :=
    if is_add op && is_string_add_chain_head l then
      let* (all, ctx') := lower_leaves l ctx in
      let* (all, ctx') := if all then lower_leaf (lower_expr r) ctx' else Ok (false, ctx') in
      Ok (end_chain ctx (S (leaf_count l)) all ctx')
    else Ok (false, ctx) in
  if folded then Ok ctx
  else lower_binary op (lower_expr l) (lower_expr r) g (range_of l) (range_of r) ctx.
Proof. intros Hop. by destruct op. Qed.

(** What lowering leaves does: it appends, and pushes all of them where all are strings. *)
Definition leaves_well (lower : ctxt -> outcome (LoweringError R Other) (bool * ctxt)) (k : nat) (r : outcome SandboxTrap Value) (c : Z) : Prop :=
  forall ctx all ctx', lower ctx = Ok (all, ctx') -> exists ops tys,
    out ctx' = out ctx ++ ops /\ tstack ctx' = tys ++ tstack ctx /\ grows ctx ctx' /\ consts_in ops (const_intern ctx') /\
    (all = true -> forall T, consts ops ⊆ T -> pushes T ops k r c).

Lemma leaf_well lower r c ctx all ctx' : well lower r c -> lower_leaf lower ctx = Ok (all, ctx') -> exists ops ty,
  out ctx' = out ctx ++ ops /\ tstack ctx' = ty :: tstack ctx /\ grows ctx ctx' /\ consts_in ops (const_intern ctx') /\
  (all = true -> forall T, consts ops ⊆ T -> gives T ops (stands String) r c).
Proof.
  intros Hw Hl. apply bind_ok in Hl as (x & Hl & E). destruct (Hw _ _ Hl) as (ops & ty & O & Ht & G & _ & K & V). rewrite Ht in E. injection E as <- <-.
  exists ops, ty. split_and!; try done. intros Hs. by destruct ty.
Qed.

Lemma leaves_one lower r c : well lower r c -> leaves_well (lower_leaf lower) 1 r c.
Proof.
  intros Hw ctx all ctx' Hl. destruct (leaf_well _ _ _ _ _ _ Hw Hl) as (ops & ty & O & Ht & G & K & V). exists ops, [ty]. split_and!; try done.
  intros Ha T HT. by apply pushes_one, V.
Qed.

Lemma leaves_more lower1 lower2 k r1 r2 c1 c2 : leaves_well lower1 k r1 c1 -> well lower2 r2 c2 -> 0 <= c1 -> 0 <= c2 ->
  leaves_well (fun ctx => let* (all, ctx) := lower1 ctx in if all then lower_leaf lower2 ctx else Ok (false, ctx)) (S k) (apply_op (Ev := Ev) Arith.Add r1 r2) (c1 + c2).
Proof.
  intros W1 W2 H1 H2 ctx all ctx' Hl. apply bind_ok in Hl as ([all1 x] & L1 & Hl). destruct (W1 _ _ _ L1) as (a & ts & O1 & T1 & G1 & K1 & V1).
  destruct all1; [|by injection Hl as <- <-; exists a, ts]. destruct (leaf_well _ _ _ _ _ _ W2 Hl) as (b & ty & O2 & T2 & G2 & K2 & V2).
  exists (a ++ b), (ty :: ts). chase. split_and!; [by rewrite O2, O1, app_assoc|by rewrite T2, T1|included|pieces|].
  intros Ha T HT. apply pushes_more; try done; [apply V1; [done|within]|apply V2; [done|within]].
Qed.

Lemma well_chain (lower1 : ctxt -> outcome (LoweringError R Other) (bool * ctxt)) lower2 k r1 r2 c1 c2 (ctx : ctxt) folded ctx' :
  leaves_well lower1 k r1 c1 -> well lower2 r2 c2 -> 0 <= c1 -> 0 <= c2 -> (1 <= k)%nat ->
  (let* (all, ctx') := lower1 ctx in
   let* (all, ctx') := if all then lower_leaf lower2 ctx' else Ok (false, ctx') in Ok (end_chain ctx (S k) all ctx')) = Ok (folded, ctx') ->
  grows ctx ctx' /\
  if folded then exists ops, out ctx' = out ctx ++ ops /\ tstack ctx' = String :: tstack ctx /\
      consts_in ops (const_intern ctx') /\ forall T, consts ops ⊆ T -> gives T ops (stands String) (apply_op (Ev := Ev) Arith.Add r1 r2) (c1 + c2 + op_cost (Ev := Ev) Arith.Add r1 r2)
  else out ctx' = out ctx /\ tstack ctx' = tstack ctx.
Proof.
  intros W1 W2 H1 H2 Hk Hl. apply bind_ok in Hl as ([all1 x1] & L1 & Hl). apply bind_ok in Hl as ([all x2] & L2 & Hl).
  destruct (leaves_more lower1 lower2 k r1 r2 c1 c2 W1 W2 H1 H2 ctx all x2) as (ops & ts & O & Ht & G & K & V); [by rewrite L1|].
  unfold end_chain in Hl. rewrite Ht, length_app, Nat.add_sub, drop_app_length in Hl. destruct all; injection Hl as <- <-; chase; split; try done.
  - exists (ops ++ [StrConcatN (S k)]). split_and!; [by rewrite O, app_assoc|done|pieces|]. intros T HT.
    eapply gives_weaken; [apply pushes_join; [apply V; [done|within]|lia|lia]|]. pose proof (text_size_nonneg r1). pose proof (text_size_nonneg r2).
    pose proof (op_cost_nonneg (Ev := Ev) Arith.Add r1 r2). unfold op_cost in *. destruct (apply_op _ _ _) as [[]| |]; lia.
  - rewrite O. by rewrite take_app_length.
Qed.

Lemma exact_ok op r1 r2 v1 v2 : ordered_exactly op r1 r2 = true -> r1 = Ok v1 -> r2 = Ok v2 -> exact_order op v1 v2.
Proof.
  unfold ordered_exactly, exact_order, small_z, small. intros Ho -> -> Hop. rewrite Hop in Ho. cbn [negb orb] in Ho. destruct v1, v2; try done. lia.
Qed.

Lemma well_binary op l r g g1 g2 : op <> Arith.Pipe -> well (lower_expr l) (sem l) (cost l) -> well (lower_expr r) (sem r) (cost r) ->
  ordered_exactly op (sem l) (sem r) = true ->
  well (lower_binary op (lower_expr l) (lower_expr r) g g1 g2) (sem (Node g (EBinary op l r))) (cost (Node g (EBinary op l r))).
Proof.
  intros Hp Wl Wr Ho. pose proof (cost_nonneg l). pose proof (cost_nonneg r).
  destruct op; try done; cbn [lower_binary arithmetic_op_ctor comparison_op_ctor Meaning.sem cost]; try (by intros ctx ctx');
    first [by apply well_arithmetic | by apply well_and | by apply well_or | idtac].
  all: cbn [op_cost]; rewrite Z.add_0_r; apply well_comparison; try done; intros v1 v2; by apply exact_ok.
Qed.

Lemma leaves_weaken lower k r c c' : leaves_well lower k r c -> c <= c' -> leaves_well lower k r c'.
Proof.
  intros Hw Hc ctx all ctx' Hl. destruct (Hw _ _ _ Hl) as (ops & tys & O & Ht & G & K & V). exists ops, tys. split_and!; try done.
  intros Ha T HT. eapply pushes_weaken; [by apply V|done].
Qed.

Lemma well_operator op l r g : op <> Arith.Pipe -> well (lower_expr l) (sem l) (cost l) -> well (lower_expr r) (sem r) (cost r) ->
  leaves_well (lower_leaves l) (leaf_count l) (sem l) (cost l) -> ordered_exactly op (sem l) (sem r) = true ->
  well (lower_expr (Node g (EBinary op l r))) (sem (Node g (EBinary op l r))) (cost (Node g (EBinary op l r))).
Proof.
  intros Hp Wl Wr Ll Ho ctx ctx' Hl. rewrite lower_plain in Hl by done. apply bind_ok in Hl as ([folded x] & Hc & Hl).
  assert (grows ctx x /\ if folded then op = Arith.Add /\ exists ops, out x = out ctx ++ ops /\ tstack x = String :: tstack ctx /\
      consts_in ops (const_intern x) /\ forall T, consts ops ⊆ T -> gives T ops (stands String) (sem (Node g (EBinary op l r))) (cost (Node g (EBinary op l r)))
    else out x = out ctx /\ tstack x = tstack ctx) as [G Hf].
  { destruct (is_add op && is_string_add_chain_head l) eqn:E; [|by injection Hc as <- <-]. apply andb_true_iff in E as [Eop _]. destruct op; try done.
    pose proof (well_chain _ _ _ _ _ _ _ ctx folded x Ll Wr (cost_nonneg l) (cost_nonneg r)) as Hw.
    destruct Hw as [G Hf]; [destruct l as [? []]; simpl; try lia; destruct op; lia|exact Hc|]. split; [done|]. destruct folded; [|done]. by split. }
  destruct folded.
  - injection Hl as <-. destruct Hf as (_ & ops & O & Ht & K & V). exists ops, String. by split_and!.
  - destruct Hf as [O Ht]. destruct (well_binary op l r g _ _ Hp Wl Wr Ho x ctx' Hl) as (ops & ty & O' & Ht' & G' & U & K & V).
    exists ops, ty. rewrite O', Ht', O, Ht. unfold grows in *. split_and!; try done. by etransitivity.
Qed.

Lemma lowered n : in_range n = true -> well (lower_expr n) (sem n) (cost n) /\ leaves_well (lower_leaves n) (leaf_count n) (sem n) (cost n).
Proof.
  induction n as [g e He|g op l r IHl IHr|g op j IHj|g c t e IHc IHt IHe] using node_ind2; intros Hr.
  - assert (well (lower_expr (Node g e)) (sem (Node g e)) (cost (Node g e))) as Hw.
    { destruct e; try done; cbn [Lowering.lower_expr Meaning.sem cost]; try (by apply Hother); try (by intros ctx ctx').
      - apply (well_emit (fun _ => _)); [done| |done]. intros _ T. apply gives_bool.
      - apply (well_emit (fun _ => _)); [done| |done]. intros _ T. apply gives_int. by apply in_i64_iff.
      - apply (well_emit (fun _ => _)); [done| |done]. intros _ T. apply gives_float.
      - apply well_string. }
    split; [done|]. destruct e; try done; by apply leaves_one.
  - assert (op = Arith.Pipe \/ op <> Arith.Pipe) as [->|Hp] by (destruct op; auto).
    { split; [by apply Hother|]. by apply leaves_one, Hother. }
    assert (in_range l && in_range r && ordered_exactly op (sem l) (sem r) = true) as [[Rl Rr]%andb_true_iff Ho]%andb_true_iff by (by destruct op).
    destruct (IHl Rl) as [Wl Ll]. destruct (IHr Rr) as [Wr _]. pose proof (well_operator op l r g Hp Wl Wr Ll Ho) as Hw. split; [done|].
    destruct op; try (by apply leaves_one). eapply leaves_weaken; [apply (leaves_more _ _ _ _ _ _ _ Ll Wr); apply cost_nonneg|].
    cbn [cost]. pose proof (op_cost_nonneg (Ev := Ev) Arith.Add (sem l) (sem r)). lia.
  - split; [by intros ctx ctx'|by apply leaves_one; intros ctx ctx'].
  - cbn [in_range] in Hr. apply andb_true_iff in Hr as [[Hc Ht]%andb_true_iff He].
    assert (well (lower_expr (Node g (ETernary c t e))) (sem (Node g (ETernary c t e))) (cost (Node g (ETernary c t e)))) as Hw.
    { cbn [Lowering.lower_expr Meaning.sem cost]. apply well_ternary; try apply cost_nonneg; naive_solver. }
    split; [done|]. by apply leaves_one.
Qed.
End Sound.

(** ** Compiled expressions *)

(** What the compiler promises for the other kinds of expression: [denote] is their meaning, their
    code needs [other_cost] bytes of scratch memory, and [foreign] relates their errors to traps. *)
Record others_sound {H : HostTypes} {Sur : Surroundings} {Img : Image} powf call_closure fuel {R} {Ev : Evaluator R} {Lambda Rest Other}
    (denote : node R -> outcome SandboxTrap Value) (foreign : Foreign -> SandboxTrap -> Prop) (other_cost : node R -> Z)
    (lower_other : node R -> Lower R Lambda Rest Other) : Prop := {
  os_cost : forall n, 0 <= other_cost n;
  os_code : forall n, other_kind n = true -> well powf call_closure fuel (lower_other n) (denote n) (other_cost n);
  os_eval : forall n, means foreign (eval_other n) (denote n);
  os_fstring : forall g i v, denote (Node g (EFString i)) = Ok v -> exists s, v = VString s;
}.

(** The arena starts with the constant pool, below the scratch region. *)
Definition loaded (pool : ConstPool.ConstPool) (m : machine) : Prop :=
  (exists rest, arena m = ConstPool.pool_bytes pool ++ rest) /\ blen (ConstPool.pool_bytes pool) <= scratch_base m.

Lemma loaded_pool pool text ops m t :
  table_ok t -> consts_in ops t -> ConstPool.collect_body ops ConstPool.default = Ok pool -> loaded pool m -> arena_ok m ->
  pool_ok (Img := ConstPool.linked pool text) (consts ops) m.
Proof.
  intros [_ Hi] Hc Hp [[rest Ha] Hb] Hok idx v Hv.
  destruct (ConstPool.pool_sound ops pool) with (idx := idx) (v := v) as (off & Ho & Hs); [|done|done|].
  { intros j x y Hx Hy. by apply (Hi x y j); apply Hc. }
  exists off. split; [done|]. exists off. split; [done|]. rewrite Ha. split; [by apply ConstPool.string_at_grows|].
  destruct Hs as [Hs _]. apply bytes_at_bound in Hs; rewrite blen_app, blen_u32 in *; pose proof (blen_nonneg (as_bytes v)); [|lia].
  destruct Hok as [_ Hn _]. unfold top. lia.
Qed.

(** C3 Compiled operator expressions agree with the evaluator, under these conditions: the
    expression is made of literals, arithmetic, comparisons, string concatenation, short-circuit
    operators and conditionals over other expressions whose code is assumed sound
    ([others_sound]); the operands of every ordered Int comparison are within 2^53 ([in_range]),
    since the evaluator compares them as doubles and the compiled code as integers; values are
    displayed and compared as documented ([value_laws]); the constant pool built from the code
    is at the start of the arena, and the scratch memory that [cost] computes is free. Then,
    where the evaluator returns a value, running the code that lowering emits leaves that value
    on the operand stack, of the type that lowering recorded, and changes nothing below the
    scratch memory in use; where the evaluator fails with an overflow, a division by zero or an
    error of another expression, the code ends in the trap for it; the evaluator may also run
    out of steps, which compiled code does not count. *)
Theorem compiled_expressions_agree {H : HostTypes} {Sur : Surroundings} {R} {Ev : Evaluator R} {Lambda Rest Other}
    powf call_closure fuel denote foreign other_cost (lower_other : node R -> Lower R Lambda Rest Other)
    (n : node R) (ctx ctx' : LowerCtx Lambda Rest) (pool : ConstPool.ConstPool) (text : Z -> string) :
  let Img := ConstPool.linked pool text in
  value_laws (Ev := Ev) -> others_sound powf call_closure fuel denote foreign other_cost lower_other ->
  in_range denote n = true -> table_ok (const_intern ctx) -> out ctx = [] ->
  lower_expr lower_other n ctx = Ok ctx' -> ConstPool.collect_body (out ctx') ConstPool.default = Ok pool ->
  exists ty, tstack ctx' = ty :: tstack ctx /\ forall st s ps L m,
    arena_ok m -> loaded pool m -> frame_inv ps L m -> top m + cost denote other_cost n <= blen (arena m) ->
    let result := exec_seq powf call_closure fuel (out ctx') (MkFrame s ps L m) in
    match fst (eval n st) with
    | Ok v => exists w L' m', result = Next (MkFrame (w :: s) ps L' m') /\ extends m m' /\ stands ty m' v w
    | Err e => (exists limit g, e = StepLimitExceeded limit g) \/ (exists t, reports foreign e t /\ result = Trapped t)
    | Abort => False
    end.
Proof.
  intros Img Hlaws [Hcost Hcode Heval Hfs] Hr Ht Ho Hl Hp.
  destruct (lowered powf call_closure fuel Hlaws denote other_cost lower_other Hcost Hcode n Hr) as [Hw _].
  destruct (Hw _ _ Hl) as (ops & ty & O & T & [_ G] & _ & K & V). rewrite Ho in O. cbn [app] in O. exists ty. split; [done|].
  intros st s ps L m Hok Hload Hf Hroom. rewrite O in *.
  assert (ready (consts ops) ps L m (cost denote other_cost n)) as Hready by (split; try done; by eapply loaded_pool; [apply G| | | |]).
  pose proof (V (consts ops) ltac:(done) s ps L m Hready) as Hl'. cbv zeta.
  pose proof (proj1 (eval_means denote foreign Hfs Heval n) st) as Hm. destruct (fst (eval n st)) as [v|e|].
  - inversion Hm as [? E1 E2|? ? ? E1 E2|? ? ? E1 E2|? E1]; subst; rewrite <-?E1 in Hl'; [|done]. destruct Hl' as (w & L' & m' & -> & [He _] & _ & Hs). eauto 6.
  - inversion Hm as [? E1 E2|? ? Hrep E1 E2|? ? ? E1 E2|? E1]; subst; rewrite <-?E1 in Hl'; [|by eauto|done]. right. eauto.
  - inversion Hm as [? E1 E2|? ? Hrep E1 E2|? ? ? E1 E2|? E1]; subst; by rewrite <-E1 in Hl'.
Qed.

(** A concrete compilation: [x > 2 ? "n=" + x + "!" : "small"], where [x] is the let slot 0, which holds 7. *)
Section Example.
#[local] Existing Instance unit_host.

Definition of_x {A} (n : node unit) (a b : A) : A := match expr_of n with EOther 0 => a | _ => b end.

#[local] Instance sample_evaluator : Evaluator unit :=
  {| World := unit; Foreign := unit; max_steps := None;
     eval_other := fun n s => of_x n (Ok (VInt 7), s) (Err (ForeignError tt), s);
     call_method := fun _ _ _ _ _ s => (Ok None, s);
     merge_dicts := fun _ _ _ s => (Err (ForeignError tt), s);
     extend_schema := fun _ _ s => (Err (ForeignError tt), s);
     merge_schemas := fun a _ => a;
     value_eq := scalar_eq;
     display := fun v => match v with VInt z => pretty z | VBool true => "true" | VBool false => "false" | _ => "0.5" end |}.

#[local, refine] Instance sample_surroundings : Surroundings :=
  {| frame_inv := fun _ L _ => L 0%nat = Some (Vi64 7); handle := fun _ _ _ _ => False |}.
Proof. all: done. Defined.

Definition sample_denote (n : node unit) : outcome SandboxTrap Value := of_x n (Ok (VInt 7)) Abort.
Definition sample_lower (n : node unit) : Lower unit unit unit unit := fun ctx =>
  of_x n (Ok (emit (LetGet 0 I64) I64 ctx)) (Err (OtherError tt)).

Definition sample_expr : node unit :=
  let x := Node tt (EOther 0) in
  Node tt (ETernary (op2 Arith.Gt x (lit_int 2)) (op2 Arith.Add (op2 Arith.Add (lit_str "n=") x) (lit_str "!")) (lit_str "small")).

Definition sample_start : LowerCtx unit unit := MkCtx [] [] 1 [] Intern.default tt.
Definition sample_code : LowerCtx unit unit := match lower_expr sample_lower sample_expr sample_start with Ok ctx => ctx | _ => sample_start end.
Definition sample_pool : ConstPool.ConstPool :=
  match ConstPool.collect_body (out sample_code) ConstPool.default with Ok p => p | _ => ConstPool.default end.
Definition sample_arena : machine :=
  MkMachine (ConstPool.pool_bytes sample_pool ++ repeat Byte.x00 100) (blen (ConstPool.pool_bytes sample_pool)) 0 None.

Lemma compiled_expressions_agree_witness :
  exists p L m', exec_seq (Img := ConstPool.linked sample_pool (fun _ => "0.5"%string)) (fun a _ => a) (fun _ _ _ _ => NullEntry) 0 (out sample_code)
      (MkFrame [] [] (upd (fun _ => None) 0 (Vi64 7)) sample_arena) = Next (MkFrame [Vi32 p] [] L m') /\
    string_at (arena m') p (as_bytes "n=7!").
Proof.
  destruct (compiled_expressions_agree (fun a _ => a) (fun _ _ _ _ => NullEntry) 0 sample_denote (fun _ _ => False) (fun _ => 0) sample_lower
    sample_expr sample_start sample_code sample_pool (fun _ => "0.5"%string)) as (ty & Hty & Hrun).
  - split; try done.
  - split; [done| |intros n s; unfold sample_denote, of_x; cbn; unfold of_x; by destruct (expr_of n) as [| | | | | | | | | |[]]; constructor|done].
    intros n _ ctx ctx'. unfold sample_lower, sample_denote, of_x. destruct (expr_of n) as [| | | | | | | | | |[]]; try done. intros [= <-].
    exists [LetGet 0 I64], I64. split_and!; try done; [by apply consts_in_none|]. intros T HT. intros s ps L m [_ _ Hx _]. cbn in Hx.
    eapply lands_push; [apply seq_one; [done|]; cbn [step lets]; by rewrite Hx|done| |done]. by exists 7.
  - vm_compute. reflexivity.
  - split; by intros.
  - reflexivity.
  - vm_compute. reflexivity.
  - vm_compute. reflexivity.
  - specialize (Hrun (MkState 0 tt) [] [] (upd (fun _ => None) 0 (Vi64 7)) sample_arena).
    destruct Hrun as (w & L & m' & E & _ & Hs).
    + split; vm_compute; repeat split; congruence.
    + split; [by eexists|vm_compute; congruence].
    + reflexivity.
    + vm_compute. congruence.
    + assert (ty = String) as -> by (vm_compute in Hty; congruence). destruct Hs as (str & [= <-] & p & -> & Hp & _).
      exists p, L, m'. split; [exact E|exact Hp].
Defined.
End Example.
End LoweringSound.
