(* ===== verification/CacheFiles.v ===== *)
(** The files of the compilation cache: the object blob of
    [crates/relon-object-cache/src/storage.rs], the IR blob of
    [crates/relon-codegen-cranelift/src/cache.rs] and the schema sidecar of [schema_cache.rs], with
    the digests and tags that protect them ([hmac.rs], [content_key], [compute_source_hash]).

    SHA-256 and HMAC-SHA-256 are the class [Digests]; bincode and serde_json are instances of the
    class [Codec], of which the code relies on decoding what was encoded.  Arrays [[u8; 32]] are byte
    lists of length 32.  Additions of a [u32] read from a file to small constants cannot overflow
    [usize] and are written [+]. *)

From Stdlib Require Import ZArith Lia Bool Strings.Byte.
From coqutil Require Import Byte Word.LittleEndianList.
From stdpp Require Import base list strings.
From S2P Require Import Prelude Bytes SchemaCanonical Value Reader ReaderFacts Ir.
Local Open Scope Z_scope.
Local Open Scope abi_scope.

Module CacheFiles.

#[export] Instance byte_eq_decision : EqDecision Init.Byte.byte := Byte.byte_eq_dec.

(** ** Libraries *)

(** The [sha2] and [hmac] crates. *)
Class Digests : Type := {
  sha256 : bytes -> bytes;
  sha256_len b : blen (sha256 b) = 32;
  hmac_sha256 : bytes -> bytes -> bytes;
  hmac_len key b : blen (hmac_sha256 key b) = 32;
}.

(** A serialisation format for a type. *)
Class Codec (A : Type) : Type := {
  to_vec : A -> option bytes;
  from_slice : bytes -> option A;
  from_to a b : to_vec a = Some b -> from_slice b = Some a;
}.

(** ** Data *)

Record HostFnImport : Type := MkImport {
  name : string;
  cap_bit : Z;
  params_hash : bytes;
  returns_hash : bytes;
}.

Record Metadata : Type := MkMetadata {
  host_fn_imports : list HostFnImport;
  cap_bitmap : Z;
  main_signature : bytes;
  created_at_unix : Z;
  generator_version : string;
}.

Record CacheEntry : Type := MkEntry {
  target_triple : string;
  object_bytes : bytes;
  metadata : Metadata;
}.

Inductive io_error : Type := NotFound | AlreadyExists | OtherIo.

(** The messages of [CacheError::Metadata]. *)
Inductive metadata_error : Type :=
| TripleTooLong (n : Z) | ObjectTooLarge (n : Z) | BincodeSerialize | MetadataTooLarge (n : Z) | TripleUtf8 | Bincode.

Inductive CacheError : Type :=
| Io (e : io_error)
| MagicMismatch
| VersionMismatch (file runtime : Z)
| TripleMismatch (file runtime : string)
| HmacMismatch
| Sha256Mismatch
| MetadataError (e : metadata_error)
| Truncated (n : Z)
| HmacKeyRequired.

Definition CACHE_MAGIC : bytes := as_bytes "RLNC".
Definition CACHE_VERSION : Z := 1.
Definition HMAC_TAG_LEN : Z := 32.

Record SandboxConfig : Type := MkSandbox {
  bounds_check : bool;
  deadline_check : bool;
  capability_check : bool;
  div_check : bool;
}.

Definition sandbox_default : SandboxConfig := MkSandbox true true true true.

Definition sandbox_matches (a b : SandboxConfig) : bool :=
  Bool.eqb (bounds_check a) (bounds_check b) && Bool.eqb (deadline_check a) (deadline_check b) &&
  Bool.eqb (capability_check a) (capability_check b) && Bool.eqb (div_check a) (div_check b).

Definition bit (b : bool) : Z := if b then 1 else 0.

Definition pack_sandbox (cfg : SandboxConfig) : Z :=
  Z.lor (Z.lor (Z.lor (bit (bounds_check cfg)) (Z.shiftl (bit (deadline_check cfg)) 1))
    (Z.shiftl (bit (capability_check cfg)) 2)) (Z.shiftl (bit (div_check cfg)) 3).

Definition unpack_sandbox (bits : Z) : SandboxConfig :=
  MkSandbox (negb (Z.land bits 1 =? 0)) (negb (Z.land bits 2 =? 0)) (negb (Z.land bits 4 =? 0)) (negb (Z.land bits 8 =? 0)).

Inductive SerEntryShape : Type := LegacyI64Args | BufferProtocol.
Definition shape_u8 (s : SerEntryShape) : Z := match s with LegacyI64Args => 0 | BufferProtocol => 1 end.

Record SerTokenRange : Type := MkRange {
  start_line : Z; start_column : Z; start_offset : Z;
  end_line : Z; end_column : Z; end_offset : Z;
}.

Record SchemaCacheEntry `{HostTypes} : Type := MkSchemaEntry {
  main_schema : Schema;
  return_schema : Schema;
  param_names : list string;
  const_data : bytes;
  closure_count : Z;
  entry_shape : SerEntryShape;
  entry_arity : Z;
  entry_range : SerTokenRange;
}.

Arguments MkSchemaEntry {_} _ _ _ _ _ _ _ _.

(** The serde mirror of a module.  The IR's [CheckCap], which the model of the IR does not have, is
    left out on both sides. *)
Inductive IrTySerde : Type := SI32 | SI64 | SF64 | SBool | SUnit | SString | SListInt | SClosure.

Inductive OpSerde : Type :=
| SConstI64 (v : Z) | SConstI32 (v : Z) | SConstBool (b : bool) | SLocalGet (idx : nat)
| SAdd (ty : IrTySerde) | SSub (ty : IrTySerde) | SMul (ty : IrTySerde) | SDiv (ty : IrTySerde) | SMod (ty : IrTySerde)
| SEq (ty : IrTySerde) | SNe (ty : IrTySerde) | SLt (ty : IrTySerde) | SLe (ty : IrTySerde) | SGt (ty : IrTySerde) | SGe (ty : IrTySerde)
| SReturn.

Record FuncSerde : Type := MkFuncSerde { fs_name : string; fs_params : list IrTySerde; fs_ret : IrTySerde; fs_body : list OpSerde }.
Record IrSerde : Type := MkIrSerde { is_funcs : list FuncSerde; is_entry_func_index : option nat }.

(** The IR module; source ranges are left out. *)
Record Func : Type := MkFunc { f_name : string; params : list Ir.IrType; ret : Ir.IrType; body : list Ir.Op }.
Record IrModule {NativeImport : Type} : Type := MkModule {
  imports : list NativeImport;
  funcs : list Func;
  entry_func_index : option nat;
  closure_table : list Z;
}.
Arguments IrModule : clear implicits.
Arguments MkModule {NativeImport} _ _ _ _.

Record IrCacheEntry {NativeImport : Type} : Type := MkIrEntry { ir : IrModule NativeImport; sandbox : SandboxConfig }.
Arguments IrCacheEntry : clear implicits.
Arguments MkIrEntry {NativeImport} _ _.

(** The messages of [CraneliftError::Cache]. *)
Inductive cache_message : Type :=
| SerializeIr | IrTooLarge | BlobTooShort | BlobMagic | FormatVersion (expected got : Z) | BlobTruncated | DigestMismatch | DeserializeIr
| SchemaEncode | SchemaTooLarge | SchemaTooShort | SchemaMagic | SchemaVersion (expected got : Z) | SchemaTruncated | SchemaDecode | SchemaHmac.

(** ** Tags *)

Section Files.
Context {H : HostTypes} {D : Digests} {NativeImport : Type}.
Context {bincode : Codec Metadata} {ir_json : Codec IrSerde} {schema_json : Codec SchemaCacheEntry}.

Definition compute_hmac (b key : bytes) : bytes := hmac_sha256 key b.
Definition verify_hmac (b key expected : bytes) : bool := bool_decide (expected = hmac_sha256 key b).

(** What [content_key] hashes. *)
Definition import_input (imp : HostFnImport) : bytes :=
  u64_to_le (blen (as_bytes (name imp))) ++ as_bytes (name imp) ++ u32_to_le (cap_bit imp) ++ params_hash imp ++ returns_hash imp.

Definition content_input (object : bytes) (meta : Metadata) : bytes :=
  as_bytes "relon-object-cache/content-key/v1" ++ [Byte.x00] ++ u64_to_le (blen object) ++ object ++
  u64_to_le (cap_bitmap meta) ++ main_signature meta ++ u64_to_le (blen (host_fn_imports meta)) ++
  concat (map import_input (host_fn_imports meta)).

Definition content_key (object : bytes) (meta : Metadata) : bytes := sha256 (content_input object meta).

(** ** The object blob *)

(** The blob up to its tag. *)
Definition blob_body (triple object meta_bytes : bytes) : bytes :=
  CACHE_MAGIC ++ u32_to_le CACHE_VERSION ++ [byte_of_u8 (blen triple)] ++ triple ++
  u32_to_le (blen object) ++ object ++ u32_to_le (blen meta_bytes) ++ meta_bytes.

Definition encode_blob (triple : string) (object : bytes) (meta : Metadata) (hmac_key : option bytes) : outcome CacheError bytes :=
  let triple_bytes := as_bytes triple in
  let* _ := guard (blen triple_bytes <=? 255) (MetadataError (TripleTooLong (blen triple_bytes))) in
  let* _ := guard (blen object <=? U32_MAX) (MetadataError (ObjectTooLarge (blen object))) in
  let* meta_bytes := ok_or (to_vec meta) (MetadataError BincodeSerialize) in
  let* _ := guard (blen meta_bytes <=? U32_MAX) (MetadataError (MetadataTooLarge (blen meta_bytes))) in
  let buf := blob_body triple_bytes object meta_bytes in
  let body_end := blen buf in
  let buf := vec_resize buf (body_end + HMAC_TAG_LEN) in
  match hmac_key with
  | None => Ok buf
  | Some key => let* signed := slice buf 0 body_end in patch buf body_end (compute_hmac signed key)
  end.

Definition MIN_LEN : Z := 4 + 4 + 1 + 4 + 4 + HMAC_TAG_LEN.

Definition decode_blob (b : bytes) (expected_triple : string) (hmac_key : option bytes) : outcome CacheError CacheEntry :=
  let* _ := guard (negb (blen b <? MIN_LEN)) (Truncated (blen b)) in
  let* magic := slice b 0 4 in
  let* _ := guard (bool_decide (magic = CACHE_MAGIC)) MagicMismatch in
  let* version := slice b 4 4 in
  let version := u32_from_le version in
  let* _ := guard (version =? CACHE_VERSION) (VersionMismatch version CACHE_VERSION) in
  let* triple_len := index b 8 in
  let triple_end := 9 + triple_len in
  let* _ := guard (negb (blen b <? triple_end + 4)) (Truncated (blen b)) in
  let* triple := slice b 9 triple_len in
  let* triple := ok_or (from_utf8 triple) (MetadataError TripleUtf8) in
  let* _ := guard (bool_decide (triple = expected_triple)) (TripleMismatch triple expected_triple) in
  let* obj_size := slice b triple_end 4 in
  let obj_size := u32_from_le obj_size in
  let obj_start := triple_end + 4 in
  let* obj_end := ok_or (checked_add obj_start obj_size) (Truncated (blen b)) in
  let* _ := guard (negb (blen b <? obj_end + 4)) (Truncated (blen b)) in
  let* object := slice b obj_start obj_size in
  let* meta_size := slice b obj_end 4 in
  let meta_size := u32_from_le meta_size in
  let meta_start := obj_end + 4 in
  let* meta_end := ok_or (checked_add meta_start meta_size) (Truncated (blen b)) in
  let* _ := guard (meta_end + HMAC_TAG_LEN =? blen b) (Truncated (blen b)) in
  let* meta_bytes := slice b meta_start meta_size in
  let* meta := ok_or (from_slice meta_bytes) (MetadataError Bincode) in
  let* _ := match hmac_key with
            | Some key =>
                let* expected := slice b meta_end (blen b - meta_end) in
                let* signed := slice b 0 meta_end in
                guard (verify_hmac signed key expected) HmacMismatch
            | None => Ok tt
            end in
  Ok (MkEntry triple object meta).

(** ** The IR blob *)

Definition to_ir (ty : IrTySerde) : Ir.IrType :=
  match ty with
  | SI32 => Ir.I32 | SI64 => Ir.I64 | SF64 => Ir.F64 | SBool => Ir.Bool
  | SUnit => Ir.Unit | SString => Ir.String | SListInt => Ir.ListInt | SClosure => Ir.Closure
  end.

(** [IrTySerde::from_ir], with [None] for its error. *)
Definition from_ir (ty : Ir.IrType) : option IrTySerde :=
  match ty with
  | Ir.I32 => Some SI32 | Ir.I64 => Some SI64 | Ir.F64 => Some SF64 | Ir.Bool => Some SBool
  | Ir.Unit => Some SUnit | Ir.String => Some SString | Ir.ListInt => Some SListInt | Ir.Closure => Some SClosure
  | _ => None
  end.

Definition op_to_serde (op : Ir.Op) : option OpSerde :=
  match op with
  | Ir.ConstI64 v => Some (SConstI64 v)
  | Ir.ConstI32 v => Some (SConstI32 v)
  | Ir.ConstBool b => Some (SConstBool b)
  | Ir.LocalGet idx => Some (SLocalGet idx)
  | Ir.Add ty => SAdd <$> from_ir ty
  | Ir.Sub ty => SSub <$> from_ir ty
  | Ir.Mul ty => SMul <$> from_ir ty
  | Ir.Div ty => SDiv <$> from_ir ty
  | Ir.Mod ty => SMod <$> from_ir ty
  | Ir.Eq ty => SEq <$> from_ir ty
  | Ir.Ne ty => SNe <$> from_ir ty
  | Ir.Lt ty => SLt <$> from_ir ty
  | Ir.Le ty => SLe <$> from_ir ty
  | Ir.Gt ty => SGt <$> from_ir ty
  | Ir.Ge ty => SGe <$> from_ir ty
  | Ir.Return => Some SReturn
  | _ => None
  end.

Definition serde_to_op (op : OpSerde) : Ir.Op :=
  match op with
  | SConstI64 v => Ir.ConstI64 v
  | SConstI32 v => Ir.ConstI32 v
  | SConstBool b => Ir.ConstBool b
  | SLocalGet idx => Ir.LocalGet idx
  | SAdd ty => Ir.Add (to_ir ty)
  | SSub ty => Ir.Sub (to_ir ty)
  | SMul ty => Ir.Mul (to_ir ty)
  | SDiv ty => Ir.Div (to_ir ty)
  | SMod ty => Ir.Mod (to_ir ty)
  | SEq ty => Ir.Eq (to_ir ty)
  | SNe ty => Ir.Ne (to_ir ty)
  | SLt ty => Ir.Lt (to_ir ty)
  | SLe ty => Ir.Le (to_ir ty)
  | SGt ty => Ir.Gt (to_ir ty)
  | SGe ty => Ir.Ge (to_ir ty)
  | SReturn => Ir.Return
  end.

Definition func_to_serde (f : Func) : FuncSerde :=
  MkFuncSerde (f_name f) (map (fun ty => default SI64 (from_ir ty)) (params f)) (default SI64 (from_ir (ret f)))
              (omap op_to_serde (body f)).

Definition ir_to_serde (m : IrModule NativeImport) : IrSerde := MkIrSerde (map func_to_serde (funcs m)) (entry_func_index m).

Definition func_of_serde (f : FuncSerde) : Func :=
  MkFunc (fs_name f) (map to_ir (fs_params f)) (to_ir (fs_ret f)) (map serde_to_op (fs_body f)).

Definition into_ir (s : IrSerde) : IrModule NativeImport := MkModule [] (map func_of_serde (is_funcs s)) (is_entry_func_index s) [].

Definition IR_MAGIC : bytes := as_bytes "RLNC".
Definition CACHE_FORMAT_VERSION : Z := 1.

Definition ir_serialize (entry : IrCacheEntry NativeImport) : outcome cache_message bytes :=
  let* ir_blob := ok_or (to_vec (ir_to_serde (ir entry))) SerializeIr in
  let out := IR_MAGIC ++ u32_to_le CACHE_FORMAT_VERSION ++ u32_to_le (pack_sandbox (sandbox entry)) in
  let* len := ok_or (u32_try_from (blen ir_blob)) IrTooLarge in
  let out := out ++ u32_to_le len ++ ir_blob in
  Ok (out ++ sha256 out).

Definition ir_deserialize (b : bytes) : outcome cache_message (IrCacheEntry NativeImport) :=
  let* _ := guard (negb (blen b <? 4 + 4 + 4 + 4 + 32)) BlobTooShort in
  let* magic := slice b 0 4 in
  let* _ := guard (bool_decide (magic = IR_MAGIC)) BlobMagic in
  let* version := slice b 4 4 in
  let version := u32_from_le version in
  let* _ := guard (version =? CACHE_FORMAT_VERSION) (FormatVersion CACHE_FORMAT_VERSION version) in
  let* bits := slice b 8 4 in
  let* ir_len := slice b 12 4 in
  let ir_len := u32_from_le ir_len in
  let ir_end := 16 + ir_len in
  let* _ := guard (negb (blen b <? ir_end + 32)) BlobTruncated in
  let* ir_blob := slice b 16 ir_len in
  let* stored_digest := slice b ir_end 32 in
  let* hashed := slice b 0 ir_end in
  let* _ := guard (bool_decide (sha256 hashed = stored_digest)) DigestMismatch in
  let* serde := ok_or (from_slice ir_blob) DeserializeIr in
  Ok (MkIrEntry (into_ir serde) (unpack_sandbox (u32_from_le bits))).

(** ** The schema sidecar *)

Definition SCHEMA_CACHE_MAGIC : bytes := as_bytes "RLSC".
Definition SCHEMA_CACHE_VERSION : Z := 2.
Definition SCHEMA_CACHE_HMAC_DOMAIN : bytes := as_bytes "RLSC-v2".

Definition hmac_input (body_with_header source_sha256 object_sha256 : bytes) (shape : SerEntryShape) (arity : Z) : bytes :=
  SCHEMA_CACHE_HMAC_DOMAIN ++ source_sha256 ++ object_sha256 ++ [byte_of_u8 (shape_u8 shape)] ++ u32_to_le arity ++ body_with_header.

(** The sidecar up to its tag. *)
Definition schema_body (json : bytes) : bytes :=
  SCHEMA_CACHE_MAGIC ++ u32_to_le SCHEMA_CACHE_VERSION ++ u32_to_le (blen json) ++ json.

Definition schema_serialize (entry : SchemaCacheEntry) (source_sha256 object_sha256 hmac_key : bytes) : outcome cache_message bytes :=
  let* body := ok_or (to_vec entry) SchemaEncode in
  let* _ := ok_or (u32_try_from (blen body)) SchemaTooLarge in
  let out := schema_body body in
  let mac_input := hmac_input out source_sha256 object_sha256 (entry_shape entry) (entry_arity entry) in
  Ok (out ++ compute_hmac mac_input hmac_key).

Definition schema_deserialize (b source_sha256 object_sha256 hmac_key : bytes) : outcome cache_message SchemaCacheEntry :=
  let* _ := guard (negb (blen b <? 4 + 4 + 4 + 32)) SchemaTooShort in
  let* magic := slice b 0 4 in
  let* _ := guard (bool_decide (magic = SCHEMA_CACHE_MAGIC)) SchemaMagic in
  let* version := slice b 4 4 in
  let version := u32_from_le version in
  let* _ := guard (version =? SCHEMA_CACHE_VERSION) (SchemaVersion SCHEMA_CACHE_VERSION version) in
  let* body_len := slice b 8 4 in
  let body_len := u32_from_le body_len in
  let body_end := 12 + body_len in
  let* _ := guard (negb (blen b <? body_end + 32)) SchemaTruncated in
  let* stored_tag := slice b body_end 32 in
  let* json := slice b 12 body_len in
  let* entry := ok_or (from_slice json) SchemaDecode in
  let* signed := slice b 0 body_end in
  let mac_input := hmac_input signed source_sha256 object_sha256 (entry_shape entry) (entry_arity entry) in
  let* _ := guard (verify_hmac mac_input hmac_key stored_tag) SchemaHmac in
  Ok entry.

(** ** The cache key *)

Definition host_target_triple : string := "x86_64-unknown-linux-gnu".
Definition GENERATOR_VERSION : string := "relon-codegen-cranelift v5-gamma 18".

Definition source_input (source : string) (cfg : SandboxConfig) : bytes :=
  as_bytes "relon-cache-key/v1" ++ [Byte.x00] ++ u64_to_le (blen (as_bytes source)) ++ as_bytes source ++
  [Byte.x00] ++ as_bytes "sandbox" ++ [Byte.x00] ++ u32_to_le (pack_sandbox cfg) ++
  [Byte.x00] ++ as_bytes "triple" ++ [Byte.x00] ++ as_bytes host_target_triple ++
  [Byte.x00] ++ as_bytes "generator" ++ [Byte.x00] ++ as_bytes GENERATOR_VERSION.

Definition compute_source_hash (source : string) (cfg : SandboxConfig) : bytes := sha256 (source_input source cfg).
End Files.

(** ** Bytes in sequence *)

Lemma app_split (a a' b b' : bytes) : blen a = blen a' -> a ++ b = a' ++ b' -> a = a' /\ b = b'.
Proof. unfold blen. intros Hl. apply app_inj_1. lia. Qed.

Lemma Ok_inj {E A} (a a' : A) : @Ok E A a = Ok a' -> a = a'.
Proof. by intros [=]. Qed.

Lemma u32_inj v v' : is_u32 v -> is_u32 v' -> u32_to_le v = u32_to_le v' -> v = v'.
Proof. intros Hv Hv' E. rewrite <-(u32_from_to v Hv), <-(u32_from_to v' Hv'). by rewrite E. Qed.

Lemma u64_inj v v' : 0 <= v < 2 ^ 64 -> 0 <= v' < 2 ^ 64 -> u64_to_le v = u64_to_le v' -> v = v'.
Proof. intros Hv Hv' E. rewrite <-(u64_from_to v Hv), <-(u64_from_to v' Hv'). by rewrite E. Qed.

Lemma u32_to_from s : blen s = 4 -> u32_to_le (u32_from_le s) = s.
Proof.
  unfold blen, u32_to_le, u32_from_le. intros Hl. replace 4%nat with (length s) by lia. apply split_le_combine.
Qed.

(** A length-prefixed field determines itself and what follows. *)
Lemma prefixed32 a a' b b' : blen a <= U32_MAX -> blen a' <= U32_MAX ->
  u32_to_le (blen a) ++ a ++ b = u32_to_le (blen a') ++ a' ++ b' -> a = a' /\ b = b'.
Proof.
  intros Ha Ha' [El E]%app_split; [|by rewrite !blen_u32]. pose proof (blen_nonneg a). pose proof (blen_nonneg a').
  apply u32_inj in El; [|by split..]. by apply app_split.
Qed.

Lemma prefixed64 a a' b b' : is_slice a -> is_slice a' ->
  u64_to_le (blen a) ++ a ++ b = u64_to_le (blen a') ++ a' ++ b' -> a = a' /\ b = b'.
Proof.
  unfold is_slice, ISIZE_MAX. intros Ha Ha' [El E]%app_split; [|by rewrite !blen_u64]. pose proof (blen_nonneg a). pose proof (blen_nonneg a').
  apply u64_inj in El; [|lia..]. by apply app_split.
Qed.

Lemma as_bytes_inj s s' : as_bytes s = as_bytes s' -> s = s'.
Proof. intros E. rewrite <-(str_of_as_bytes s), <-(str_of_as_bytes s'). by rewrite E. Qed.

(** Adjacent slices are one slice. *)
Lemma slice_join {E} (b r r' : bytes) off len len' :
  @slice E b off len = Ok r -> @slice E b (off + len) len' = Ok r' -> @slice E b off (len + len') = Ok (r ++ r').
Proof.
  rewrite !slice_ok. intros (Ho & Hl & Hb & ->) (_ & Hl' & Hb' & ->). split_and!; [lia..|].
  replace (Z.to_nat (len + len')) with (Z.to_nat len + Z.to_nat len')%nat by lia.
  replace (Z.to_nat (off + len)) with (Z.to_nat off + Z.to_nat len)%nat by lia. rewrite <-drop_drop. by rewrite take_take_drop.
Qed.

Lemma slice_whole {E} (b r : bytes) : @slice E b 0 (blen b) = Ok r -> r = b.
Proof. rewrite slice_ok. intros (_ & _ & _ & ->). unfold blen. rewrite Nat2Z.id. by rewrite drop_0, firstn_all. Qed.

Lemma index_byte {E} (b : bytes) off x : @index E b off = Ok x -> @slice E b off 1 = Ok [byte_of_u8 x].
Proof.
  rewrite index_ok. intros (Ho & y & Hy & ->). pose proof (lookup_lt_Some _ _ _ Hy). apply slice_ok. unfold blen. split_and!; [lia..|].
  rewrite (drop_S _ _ _ Hy). cbn [Z.to_nat Pos.to_nat Pos.iter_op Init.Nat.add firstn]. unfold byte_of_u8. by rewrite byte.of_Z_unsigned.
Qed.

(** A slice of a concatenation. *)
Lemma slice_at {E} (b pre c post : bytes) off len :
  b = pre ++ c ++ post -> off = blen pre -> len = blen c -> @slice E b off len = Ok c.
Proof. intros -> -> ->. apply slice_app_exact. Qed.

Lemma index_of_byte {E} (b pre post : bytes) v off : b = pre ++ [byte_of_u8 v] ++ post -> off = blen pre -> 0 <= v <= 255 -> @index E b off = Ok v.
Proof.
  intros -> -> Hv. apply index_ok. split; [apply blen_nonneg|]. exists (byte_of_u8 v). split.
  - unfold blen. rewrite Nat2Z.id, lookup_app_r, Nat.sub_diag by done. done.
  - unfold byte_of_u8. rewrite byte.unsigned_of_Z. unfold byte.wrap. rewrite Z.mod_small; lia.
Qed.

(** Lengths of concatenations, and where a piece starts. *)
Ltac lens := repeat first [rewrite blen_app | rewrite blen_u32 | rewrite blen_u64 | rewrite blen_cons | rewrite blen_nil];
  repeat match goal with |- context [blen (as_bytes ?s)] => is_ground s; let n := eval vm_compute in (blen (as_bytes s)) in change (blen (as_bytes s)) with n end.

(** [extend H next] extends [H : slice b 0 k = Ok pre] by the next slice. *)
Ltac extend H next := let J := fresh in pose proof (slice_join _ _ _ _ _ _ H next) as J; clear H; rename J into H.

(** ** What the readers accept *)

Section Facts.
Context {H : HostTypes} {D : Digests} {NativeImport : Type}.
Context {bincode : Codec Metadata} {ir_json : Codec IrSerde} {schema_json : Codec SchemaCacheEntry}.

Definition tag_of (body : bytes) (key : option bytes) : bytes :=
  match key with Some k => compute_hmac body k | None => zeros HMAC_TAG_LEN end.

Lemma blen_tag body key : blen (tag_of body key) = HMAC_TAG_LEN.
Proof. destruct key; [apply hmac_len|done]. Qed.

Lemma slice_all {E} (b : bytes) : @slice E b 0 (blen b) = Ok b.
Proof. apply (slice_app_exact_nil []). Qed.

Lemma patch_end {E} (b c d : bytes) : blen c = blen d -> @patch E (b ++ c) (blen b) d = Ok (b ++ d).
Proof.
  intros Hl. apply patch_ok. rewrite blen_app. pose proof (blen_nonneg b). split_and!; [lia..|].
  unfold blen in *. rewrite Nat2Z.id, take_app_length. by rewrite drop_ge, app_nil_r by (rewrite length_app; lia).
Qed.

Lemma seal body key : (let buf := vec_resize body (blen body + HMAC_TAG_LEN) in
  match key with
  | None => Ok buf
  | Some k => let* signed := slice buf 0 (blen body) in patch buf (blen body) (compute_hmac signed k)
  end) = @Ok CacheError _ (body ++ tag_of body key).
Proof.
  cbv zeta. rewrite vec_resize_grow by (unfold HMAC_TAG_LEN; lia). replace (blen body + HMAC_TAG_LEN - blen body) with HMAC_TAG_LEN by lia.
  destruct key as [k|]; [|done]. rewrite (slice_app_l _ _ _ _ body) by apply slice_all. cbn [Prelude.bind].
  apply patch_end. symmetry. apply hmac_len.
Qed.

(** Writing a blob. *)
Record encodes (triple : string) (object : bytes) (meta : Metadata) (body : bytes) : Prop := {
  en_triple : blen (as_bytes triple) <= 255;
  en_object : blen object <= U32_MAX;
  en_meta : exists meta_bytes, to_vec meta = Some meta_bytes /\ blen meta_bytes <= U32_MAX /\ body = blob_body (as_bytes triple) object meta_bytes;
}.

Lemma encode_blob_ok triple object meta key b :
  encode_blob triple object meta key = Ok b <-> exists body, encodes triple object meta body /\ b = body ++ tag_of body key.
Proof.
  unfold encode_blob. cbv zeta. split.
  - intros ([] & Ht%guard_ok & ([] & Ho%guard_ok & (mb & Hm%ok_or_ok & ([] & Hb%guard_ok & E)%bind_ok)%bind_ok)%bind_ok)%bind_ok. zb.
    pose proof (seal (blob_body (as_bytes triple) object mb) key) as Hs. cbv zeta in Hs. rewrite Hs in E. injection E as <-.
    exists (blob_body (as_bytes triple) object mb). split; [|done]. split; [lia..|]. by exists mb.
  - intros (body & [Ht Ho (mb & Hm & Hb & ->)] & ->). rewrite Hm. cbn [ok_or].
    rewrite (proj2 (Z.leb_le _ _) Ht), (proj2 (Z.leb_le _ _) Ho). cbn [guard Prelude.bind]. rewrite (proj2 (Z.leb_le _ _) Hb). apply seal.
Qed.

Lemma encode_blob_not_abort triple object meta key : encode_blob triple object meta key <> Abort.
Proof.
  unfold encode_blob. cbv zeta. apply bind_not_abort; [apply guard_not_abort|intros [] _]. apply bind_not_abort; [apply guard_not_abort|intros [] _].
  apply bind_not_abort; [apply ok_or_not_abort|intros mb _]. apply bind_not_abort; [apply guard_not_abort|intros [] _].
  pose proof (seal (blob_body (as_bytes triple) object mb) key) as Hs. cbv zeta in Hs. by rewrite Hs.
Qed.

(** Reading a blob: it is a body of the expected triple and a tag, which is the one of the key. *)
Record accepts (b : bytes) (triple : string) (key : option bytes) (e : CacheEntry) (body : bytes) : Prop := {
  ac_entry : target_triple e = triple /\ is_str triple = true;
  ac_body : exists meta_bytes, from_slice meta_bytes = Some (metadata e) /\ body = blob_body (as_bytes triple) (object_bytes e) meta_bytes /\
    blen (as_bytes triple) <= 255 /\ blen (object_bytes e) <= U32_MAX /\ blen meta_bytes <= U32_MAX;
  ac_tag : exists tag, b = body ++ tag /\ blen tag = HMAC_TAG_LEN /\ forall k, key = Some k -> verify_hmac body k tag = true;
}.

Lemma decode_blob_accepts b triple key e : decode_blob b triple key = Ok e -> exists body, accepts b triple key e body.
Proof.
  unfold decode_blob. cbv zeta.
  intros ([] & Hlen%guard_ok & (m & Hm & ([] & ->%guard_ok%bool_decide_eq_true & (v & Hv & ([] & Ev%guard_ok & R)%bind_ok)%bind_ok)%bind_ok)%bind_ok)%bind_ok.
  apply bind_ok in R as (tl & Htl & ([] & _ & (tb & Htb & (t & Ht%ok_or_ok & ([] & <-%guard_ok%bool_decide_eq_true & R)%bind_ok)%bind_ok)%bind_ok)%bind_ok).
  apply bind_ok in R as (os & Hos & (oe & Hoe%ok_or_ok & ([] & _ & (o & Ho & (ms & Hms & R)%bind_ok)%bind_ok)%bind_ok)%bind_ok).
  apply bind_ok in R as (me & Hme%ok_or_ok & ([] & Hend%guard_ok & (mb & Hmb & (meta & Hmeta%ok_or_ok & ([] & Htag & [= <-])%bind_ok)%bind_ok)%bind_ok)%bind_ok).
  apply from_utf8_is_str in Ht as [Hs Et]. apply checked_add_Some in Hoe as [-> _], Hme as [-> _].
  pose proof (slice_length _ _ _ _ Hv) as Lv. pose proof (slice_length _ _ _ _ Htb) as Ltb. pose proof (slice_length _ _ _ _ Hos) as Los.
  pose proof (slice_length _ _ _ _ Ho) as Lo. pose proof (slice_length _ _ _ _ Hms) as Lms. pose proof (slice_length _ _ _ _ Hmb) as Lmb.
  pose proof (index_bound _ _ _ Htl) as Btl. pose proof (u32_from_bound _ Los) as Bo. pose proof (u32_from_bound _ Lms) as Bm.
  zb.
  destruct (@slice_in_range CacheError b (9 + tl + 4 + u32_from_le os + 4 + u32_from_le ms) HMAC_TAG_LEN) as (tag & Stag & Ltag);
    [unfold is_u32 in *; lia|done|unfold HMAC_TAG_LEN in *; lia|].
  apply index_byte in Htl. pose proof Hm as P. extend P Hv. extend P Htl. extend P Htb. extend P Hos. extend P Ho. extend P Hms. extend P Hmb.
  assert (((((((CACHE_MAGIC ++ v) ++ [byte_of_u8 tl]) ++ tb) ++ os) ++ o) ++ ms) ++ mb = blob_body (as_bytes t) o mb) as Ebody.
  { unfold blob_body. rewrite <-!app_assoc, Et, Ltb, Lo, Lmb, !u32_to_from by done. by rewrite <-Ev, u32_to_from by done. }
  rewrite Ebody in P. set (bd := blob_body (as_bytes t) o mb) in *. pose proof P as W. extend W Stag. exists bd. split.
  - done.
  - exists mb. unfold is_u32 in *. split_and!; [done..|rewrite Et; lia|cbn; lia|lia].
  - exists tag. split_and!; [|done|].
    + symmetry. apply (slice_whole (E := CacheError)). rewrite <-W. f_equal. lia.
    + intros k ->. apply bind_ok in Htag as (x & Sx & (y & Sy & Hv'%guard_ok)%bind_ok).
      assert (x = tag) as -> by (rewrite <-Hend, Z.add_simpl_l in Sx; congruence). by pose proof (eq_trans (eq_sym Sy) P) as [= ->].
Qed.

Lemma accepts_decode b triple key e body : accepts b triple key e body -> decode_blob b triple key = Ok e.
Proof.
  intros [[Et Hs] (mb & Hmb & -> & L1 & L2 & L3) (tag & -> & Lt & Hv)]. destruct e as [t o meta]. cbn [object_bytes metadata target_triple] in *. subst t.
  pose proof (blen_nonneg (as_bytes triple)) as N1. pose proof (blen_nonneg o) as N2. pose proof (blen_nonneg mb) as N3.
  set (T := as_bytes triple) in *.
  assert (blen (blob_body T o mb) = 17 + blen T + blen o + blen mb) as LB.
  { unfold blob_body, CACHE_MAGIC. lens. lia. }
  assert (blen (blob_body T o mb ++ tag) = 49 + blen T + blen o + blen mb) as LA by (rewrite blen_app, LB, Lt; unfold HMAC_TAG_LEN; lia).
  assert (is_u32 (blen o) /\ is_u32 (blen mb)) as [U1 U2] by (unfold is_u32; lia).
  unfold decode_blob. cbv zeta. rewrite !LA. unfold MIN_LEN, HMAC_TAG_LEN in *. rewrite (proj2 (Z.ltb_ge _ _)) by lia. cbn [negb guard Prelude.bind].
  set (B := blob_body T o mb ++ tag) in *.
  rewrite (slice_at B [] CACHE_MAGIC (drop 4 B)); [|done..]. cbn [Prelude.bind]. rewrite bool_decide_eq_true_2 by done. cbn [guard Prelude.bind].
  rewrite (slice_at B CACHE_MAGIC (u32_to_le 1) (drop 8 B)); [|done..]. cbn [Prelude.bind]. rewrite u32_from_to by done. cbn [CACHE_VERSION Z.eqb Pos.eqb guard Prelude.bind].
  rewrite (index_of_byte B (take 8 B) (drop 9 B) (blen T) 8); [|done|done|lia]. cbn [Prelude.bind]. rewrite (proj2 (Z.ltb_ge _ _)) by lia. cbn [negb guard Prelude.bind].
  pose (P1 := CACHE_MAGIC ++ u32_to_le CACHE_VERSION ++ [byte_of_u8 (blen T)]). pose (P2 := P1 ++ T ++ u32_to_le (blen o)).
  pose (P3 := P2 ++ o ++ u32_to_le (blen mb)).
  assert (blen P1 = 9) as E1 by (unfold P1, CACHE_MAGIC; by lens). assert (blen P2 = 9 + blen T + 4) as E2 by (unfold P2; lens; lia).
  assert (blen P3 = 9 + blen T + 4 + blen o + 4) as E3 by (unfold P3; lens; lia).
  assert (B = P1 ++ T ++ u32_to_le (blen o) ++ o ++ u32_to_le (blen mb) ++ mb ++ tag) as EB by (unfold B, P1, blob_body; by rewrite <-!app_assoc).
  assert (forall x, P1 ++ T ++ u32_to_le (blen o) ++ x = P2 ++ x) as F2 by (intros; unfold P2; by rewrite <-!app_assoc).
  assert (forall x, P2 ++ o ++ u32_to_le (blen mb) ++ x = P3 ++ x) as F3 by (intros; unfold P3; by rewrite <-!app_assoc).
  rewrite (slice_at B P1 T (u32_to_le (blen o) ++ o ++ u32_to_le (blen mb) ++ mb ++ tag)) by done. cbn [Prelude.bind].
  unfold T at 1. rewrite from_utf8_as_bytes by done. cbn [ok_or Prelude.bind]. rewrite bool_decide_eq_true_2 by done. cbn [guard Prelude.bind].
  rewrite (slice_at B (P1 ++ T) (u32_to_le (blen o)) (o ++ u32_to_le (blen mb) ++ mb ++ tag));
    [|by rewrite EB, <-app_assoc|by rewrite blen_app, E1|by rewrite blen_u32]. cbn [Prelude.bind]. rewrite u32_from_to by done.
  rewrite checked_add_small by (unfold is_u32, U32_MAX, USIZE_MAX in *; lia). cbn [ok_or Prelude.bind].
  rewrite (proj2 (Z.ltb_ge _ _)) by lia. cbn [negb guard Prelude.bind].
  rewrite (slice_at B P2 o (u32_to_le (blen mb) ++ mb ++ tag)); [|by rewrite EB, F2|done..]. cbn [Prelude.bind].
  rewrite (slice_at B (P2 ++ o) (u32_to_le (blen mb)) (mb ++ tag));
    [|by rewrite EB, F2, <-app_assoc|by rewrite blen_app, E2|by rewrite blen_u32]. cbn [Prelude.bind]. rewrite u32_from_to by done.
  rewrite checked_add_small by (unfold is_u32, U32_MAX, USIZE_MAX in *; lia). cbn [ok_or Prelude.bind].
  rewrite (proj2 (Z.eqb_eq _ _)) by lia. cbn [guard Prelude.bind].
  rewrite (slice_at B P3 mb tag); [|by rewrite EB, F2, F3|by rewrite E3|done]. cbn [Prelude.bind]. rewrite Hmb. cbn [ok_or Prelude.bind].
  destruct key as [k|]; [|done].
  assert (B = (P3 ++ mb) ++ tag) as EC by (by rewrite EB, F2, F3, <-app_assoc).
  assert (blob_body T o mb = P3 ++ mb) as ED by (unfold P3, P2, P1, blob_body; by rewrite <-!app_assoc).
  rewrite (slice_at B (P3 ++ mb) tag []); [|by rewrite app_nil_r|by rewrite blen_app, E3|lia]. cbn [Prelude.bind].
  rewrite (slice_at B [] (blob_body T o mb) tag); [|done|done|lia]. cbn [Prelude.bind]. by rewrite (Hv k).
Qed.

Lemma decode_encode triple object meta key b : is_str triple = true -> encode_blob triple object meta key = Ok b ->
  decode_blob b triple key = Ok (MkEntry triple object meta).
Proof.
  intros Hs (body & [Ht Ho (mb & Hm & Hb & ->)] & ->)%encode_blob_ok. eapply accepts_decode. split; [done| |].
  - exists mb. split_and!; [by apply from_to|done..].
  - eexists. split_and!; [done|apply blen_tag|]. intros k ->. unfold verify_hmac. by apply bool_decide_eq_true.
Qed.

(** Walks over a reader, collecting what the guards give for the bounds of the slices. *)
Ltac word := match goal with
  | E : slice _ _ 4 = Ok ?s |- _ =>
      match goal with K : is_u32 (u32_from_le s) |- _ => fail 1 | _ => idtac end;
      let K := fresh in pose proof (u32_from_bound s (slice_length _ _ _ _ E)) as K
  | E : index _ _ = Ok ?x |- _ =>
      match goal with K : 0 <= x < 256 |- _ => fail 1 | _ => idtac end;
      let K := fresh in pose proof (index_bound _ _ _ E) as K
  end.
Ltac read_step := apply bind_not_abort;
  [first [apply guard_not_abort | apply ok_or_not_abort
         |apply slice_not_abort; unfold is_u32, MIN_LEN, HMAC_TAG_LEN in *; lia | apply index_not_abort; unfold MIN_LEN, HMAC_TAG_LEN in *; lia]
  |let x := fresh "x" in let E := fresh "E" in intros x E; try (apply guard_ok in E; zb); try (apply ok_or_ok, checked_add_Some in E as [-> E]);
   repeat word].

Lemma decode_blob_not_abort b triple key : decode_blob b triple key <> Abort.
Proof.
  unfold decode_blob. cbv zeta. do 19 read_step.
  destruct key; [|done]. apply bind_not_abort; [|done]. do 2 read_step. apply guard_not_abort.
Qed.

Lemma ir_deserialize_not_abort b : ir_deserialize (NativeImport := NativeImport) b <> Abort.
Proof. unfold ir_deserialize. cbv zeta. do 13 read_step. done. Qed.

Lemma schema_deserialize_not_abort b src obj key : schema_deserialize b src obj key <> Abort.
Proof. unfold schema_deserialize. cbv zeta. do 12 read_step. done. Qed.

Lemma schema_accepted b src obj key entry : schema_deserialize b src obj key = Ok entry ->
  exists json tag rest, b = schema_body json ++ tag ++ rest /\ blen tag = HMAC_TAG_LEN /\ from_slice json = Some entry /\ blen json <= U32_MAX /\
    verify_hmac (hmac_input (schema_body json) src obj (entry_shape entry) (entry_arity entry)) key tag = true.
Proof.
  unfold schema_deserialize. cbv zeta.
  intros ([] & _ & (m & Hm & ([] & ->%guard_ok%bool_decide_eq_true & (v & Hv & ([] & Ev%guard_ok & R)%bind_ok)%bind_ok)%bind_ok)%bind_ok)%bind_ok.
  apply bind_ok in R as (bl & Hbl & ([] & _ & (tag & Htag & (js & Hjs & (en & Hen%ok_or_ok & R)%bind_ok)%bind_ok)%bind_ok)%bind_ok).
  apply bind_ok in R as (sg & Hsg & ([] & Hver%guard_ok & [= <-])%bind_ok). zb.
  pose proof (slice_length _ _ _ _ Hv) as Lv. pose proof (slice_length _ _ _ _ Hbl) as Lbl. pose proof (slice_length _ _ _ _ Hjs) as Ljs.
  pose proof (u32_from_bound _ Lbl) as Bl. pose proof Hm as P. extend P Hv. extend P Hbl. extend P Hjs.
  assert (((SCHEMA_CACHE_MAGIC ++ v) ++ bl) ++ js = schema_body js) as Eb.
  { unfold schema_body. rewrite <-!app_assoc, Ljs, (u32_to_from bl) by done. by rewrite <-Ev, u32_to_from by done. }
  rewrite Eb in P. pose proof (eq_trans (eq_sym Hsg) P) as [= ->]. pose proof (slice_length _ _ _ _ Htag) as Lt.
  pose proof P as W. extend W Htag. exists js, tag, (drop (length (schema_body js ++ tag)) b). split_and!; [|done..|rewrite Ljs; apply Bl|done].
  pose proof (slice_length _ _ _ _ W) as LW. apply slice_ok in W as (_ & _ & _ & Etk). rewrite drop_0 in Etk.
  rewrite app_assoc. rewrite <-(take_drop (length (schema_body js ++ tag)) b) at 1. f_equal. rewrite Etk at 2. f_equal. unfold blen in LW. lia.
Qed.

Lemma schema_roundtrip entry src obj key b : schema_serialize entry src obj key = Ok b -> schema_deserialize b src obj key = Ok entry.
Proof.
  unfold schema_serialize. cbv zeta. intros (js & Hjs%ok_or_ok & (n & Hn%ok_or_ok & <-%Ok_inj)%bind_ok)%bind_ok.
  unfold u32_try_from in Hn. case_match; [|done]. zb. clear Hn. set (tag := compute_hmac _ _). assert (blen tag = 32) as Lt by apply hmac_len.
  pose proof (blen_nonneg js) as Nj. assert (is_u32 (blen js)) as U by (by split).
  assert (blen (schema_body js) = 12 + blen js) as LB by (unfold schema_body, SCHEMA_CACHE_MAGIC; lens; lia).
  set (B := schema_body js ++ tag). assert (blen B = 44 + blen js) as LA by (unfold B; rewrite blen_app; lia).
  unfold schema_deserialize. cbv zeta. rewrite (proj2 (Z.ltb_ge _ _)) by lia. cbn [negb guard Prelude.bind].
  rewrite (slice_at B [] SCHEMA_CACHE_MAGIC (drop 4 B)); [|done..]. cbn [Prelude.bind]. rewrite bool_decide_eq_true_2 by done. cbn [guard Prelude.bind].
  rewrite (slice_at B SCHEMA_CACHE_MAGIC (u32_to_le 2) (drop 8 B)); [|done..]. cbn [Prelude.bind]. rewrite u32_from_to by done.
  cbn [SCHEMA_CACHE_VERSION Z.eqb Pos.eqb guard Prelude.bind].
  rewrite (slice_at B (SCHEMA_CACHE_MAGIC ++ u32_to_le 2) (u32_to_le (blen js)) (js ++ tag)); [|unfold B, schema_body; by rewrite <-!app_assoc|done..].
  cbn [Prelude.bind]. rewrite u32_from_to by done. rewrite (proj2 (Z.ltb_ge _ _)) by lia. cbn [negb guard Prelude.bind].
  rewrite (slice_at B (schema_body js) tag []); [|by rewrite app_nil_r|lia|done]. cbn [Prelude.bind].
  rewrite (slice_at B (SCHEMA_CACHE_MAGIC ++ u32_to_le 2 ++ u32_to_le (blen js)) js tag); [|unfold B, schema_body; by rewrite <-!app_assoc|done..].
  cbn [Prelude.bind]. rewrite (from_to _ _ Hjs). cbn [ok_or Prelude.bind].
  rewrite (slice_at B [] (schema_body js) tag); [|done|done|lia]. cbn [Prelude.bind]. unfold verify_hmac. by rewrite bool_decide_eq_true_2.
Qed.

Lemma unpack_pack cfg : unpack_sandbox (pack_sandbox cfg) = cfg.
Proof. destruct cfg as [[] [] [] []]; vm_compute; reflexivity. Qed.

Lemma pack_u32 cfg : is_u32 (pack_sandbox cfg).
Proof. destruct cfg as [[] [] [] []]; split; vm_compute; discriminate. Qed.

Lemma ir_roundtrip e b : ir_serialize (NativeImport := NativeImport) e = Ok b ->
  ir_deserialize b = Ok (MkIrEntry (NativeImport := NativeImport) (into_ir (ir_to_serde (ir e))) (sandbox e)).
Proof.
  unfold ir_serialize. cbv zeta. intros (js & Hjs%ok_or_ok & (n & Hn%ok_or_ok & <-%Ok_inj)%bind_ok)%bind_ok.
  unfold u32_try_from in Hn. case_match; [|done]. injection Hn as <-. zb. set (bits := pack_sandbox _).
  rewrite <-!app_assoc. set (Bd := _ ++ _ ++ _ ++ _ ++ js). set (tag := sha256 _). assert (blen tag = 32) as Lt by apply sha256_len.
  pose proof (blen_nonneg js) as Nj. assert (is_u32 (blen js)) as U by (by split).
  assert (blen Bd = 16 + blen js) as LB by (unfold Bd, IR_MAGIC; lens; lia).
  assert (Bd ++ tag = IR_MAGIC ++ u32_to_le CACHE_FORMAT_VERSION ++ u32_to_le bits ++ u32_to_le (blen js) ++ js ++ tag) as EB by (unfold Bd; by rewrite <-!app_assoc).
  rewrite <-EB. set (B := Bd ++ tag) in *. assert (blen B = 48 + blen js) as LA by (unfold B; rewrite blen_app; lia).
  unfold ir_deserialize. cbv zeta. rewrite (proj2 (Z.ltb_ge _ _)) by lia. cbn [negb guard Prelude.bind].
  rewrite (slice_at B [] IR_MAGIC (drop 4 B)); [|done..]. cbn [Prelude.bind]. rewrite bool_decide_eq_true_2 by done. cbn [guard Prelude.bind].
  rewrite (slice_at B IR_MAGIC (u32_to_le 1) (drop 8 B)); [|done..]. cbn [Prelude.bind]. rewrite u32_from_to by done.
  cbn [CACHE_FORMAT_VERSION Z.eqb Pos.eqb guard Prelude.bind].
  rewrite (slice_at B (IR_MAGIC ++ u32_to_le 1) (u32_to_le bits) (drop 12 B)); [|done..]. cbn [Prelude.bind].
  rewrite (slice_at B (IR_MAGIC ++ u32_to_le 1 ++ u32_to_le bits) (u32_to_le (blen js)) (js ++ tag)); [|rewrite EB; by rewrite <-!app_assoc|done..].
  cbn [Prelude.bind]. rewrite !u32_from_to by (done || apply pack_u32). rewrite (proj2 (Z.ltb_ge _ _)) by lia. cbn [negb guard Prelude.bind].
  rewrite (slice_at B (IR_MAGIC ++ u32_to_le 1 ++ u32_to_le bits ++ u32_to_le (blen js)) js tag); [|rewrite EB; by rewrite <-!app_assoc|done..].
  cbn [Prelude.bind]. rewrite (slice_at B Bd tag []); [|by rewrite app_nil_r|lia|done]. cbn [Prelude.bind].
  rewrite (slice_at B [] Bd tag); [|done|done|lia]. cbn [Prelude.bind]. rewrite bool_decide_eq_true_2 by done. cbn [guard Prelude.bind].
  rewrite (from_to _ _ Hjs). cbn [ok_or Prelude.bind]. unfold bits. by rewrite unpack_pack.
Qed.

(** ** What a digest or a tag commits to *)

Lemma blob_body_inj t o m t' o' m' :
  blen t <= 255 -> blen t' <= 255 -> blen o <= U32_MAX -> blen o' <= U32_MAX -> blen m <= U32_MAX -> blen m' <= U32_MAX ->
  blob_body t o m = blob_body t' o' m' -> t = t' /\ o = o' /\ m = m'.
Proof.
  intros Ht Ht' Ho Ho' Hm Hm' E. unfold blob_body in E. pose proof (blen_nonneg t). pose proof (blen_nonneg t').
  apply app_split in E as [_ E]; [|done]. apply app_split in E as [_ E]; [|done]. apply app_split in E as [Eb E]; [|done].
  injection Eb as Eb. apply (f_equal byte.unsigned) in Eb. unfold byte_of_u8 in Eb. rewrite !byte.unsigned_of_Z in Eb. unfold byte.wrap in Eb.
  rewrite !Z.mod_small in Eb by lia. apply app_split in E as [-> E]; [|done]. apply prefixed32 in E as [-> E]; [|done..].
  split_and!; [done..|]. apply (prefixed32 m m' [] []); [done..|]. by rewrite !app_nil_r.
Qed.

Lemma hmac_input_inj b s o sh a b' s' o' sh' a' :
  blen s = 32 -> blen s' = 32 -> blen o = 32 -> blen o' = 32 ->
  hmac_input b s o sh a = hmac_input b' s' o' sh' a' -> b = b' /\ s = s' /\ o = o'.
Proof.
  intros Hs Hs' Ho Ho' E. unfold hmac_input in E. apply app_split in E as [_ E]; [|done]. apply app_split in E as [-> E]; [|lia].
  apply app_split in E as [-> E]; [|lia]. apply app_split in E as [_ E]; [|done]. by apply app_split in E as [_ ->]; [|by rewrite !blen_u32].
Qed.

Lemma schema_body_inj j j' : blen j <= U32_MAX -> blen j' <= U32_MAX -> schema_body j = schema_body j' -> j = j'.
Proof.
  intros Hj Hj' E. unfold schema_body in E. apply app_split in E as [_ E]; [|done]. apply app_split in E as [_ E]; [|done].
  apply (prefixed32 j j' [] []); [done..|]. by rewrite !app_nil_r.
Qed.

(** The two kinds of tagged messages are apart. *)
Lemma messages_apart t o m b s ob sh a : blob_body t o m <> hmac_input b s ob sh a.
Proof. by intros E. Qed.

Lemma source_input_inj source cfg source' cfg' : is_slice (as_bytes source) -> is_slice (as_bytes source') ->
  source_input source cfg = source_input source' cfg' -> source = source' /\ cfg = cfg'.
Proof.
  intros Hs Hs' E. unfold source_input in E. apply app_split in E as [_ E]; [|done]. apply app_split in E as [_ E]; [|done].
  apply prefixed64 in E as [->%as_bytes_inj E]; [|done..]. do 3 (apply app_split in E as [_ E]; [|done]).
  apply app_split in E as [E _]; [|done]. apply u32_inj in E; [|apply pack_u32..]. split; [done|].
  by rewrite <-(unpack_pack cfg), <-(unpack_pack cfg'), E.
Qed.

(** The parts of an entry that its content key commits to; dates and generators are left out. *)
Definition import_ok (imp : HostFnImport) : Prop :=
  is_slice (as_bytes (name imp)) /\ is_u32 (cap_bit imp) /\ blen (params_hash imp) = 32 /\ blen (returns_hash imp) = 32.

Record metadata_ok (meta : Metadata) : Prop := {
  mo_caps : 0 <= cap_bitmap meta < 2 ^ 64;
  mo_signature : blen (main_signature meta) = 32;
  mo_imports : Forall import_ok (host_fn_imports meta);
  mo_count : blen (host_fn_imports meta) <= ISIZE_MAX;
}.

Lemma imports_inj l l' : length l = length l' -> Forall import_ok l -> Forall import_ok l' ->
  concat (map import_input l) = concat (map import_input l') -> l = l'.
Proof.
  revert l'. induction l as [|x l IH]; intros [|x' l'] Hl; try done. intros [(Hn & Hc & Hp & Hr) Hf]%Forall_cons [(Hn' & Hc' & Hp' & Hr') Hf']%Forall_cons E.
  cbn [map concat] in E. unfold import_input in E. rewrite <-!app_assoc in E. apply prefixed64 in E as [En%as_bytes_inj E]; [|done..].
  apply app_split in E as [Ec E]; [|by rewrite !blen_u32]. apply u32_inj in Ec; [|done..]. apply app_split in E as [Ep E]; [|lia].
  apply app_split in E as [Er E]; [|lia]. cbn in Hl. f_equal; [|apply IH; [lia|done..]]. destruct x, x'. cbn in *. congruence.
Qed.

Lemma content_input_inj o m o' m' : is_slice o -> is_slice o' -> metadata_ok m -> metadata_ok m' -> content_input o m = content_input o' m' ->
  o = o' /\ cap_bitmap m = cap_bitmap m' /\ main_signature m = main_signature m' /\ host_fn_imports m = host_fn_imports m'.
Proof.
  intros Ho Ho' [Hc Hs Hi Hn] [Hc' Hs' Hi' Hn'] E. unfold content_input in E. apply app_split in E as [_ E]; [|done]. apply app_split in E as [_ E]; [|done].
  apply prefixed64 in E as [-> E]; [|done..]. apply app_split in E as [Ec E]; [|by rewrite !blen_u64]. apply u64_inj in Ec; [|done..].
  apply app_split in E as [Es E]; [|lia]. apply app_split in E as [El E]; [|by rewrite !blen_u64]. unfold blen, ISIZE_MAX in *.
  apply u64_inj in El; [|lia..]. split_and!; [done..|]. apply imports_inj; [lia|done..].
Qed.

(** ** The mirror of the IR *)

(** The functions that survive serialisation: those whose types and ops the mirror has. *)
Definition mirrored (f : Func) : bool :=
  forallb (fun ty => bool_decide (is_Some (from_ir ty))) (ret f :: params f) && forallb (fun op => bool_decide (is_Some (op_to_serde op))) (body f).

Lemma from_ir_to ty s : from_ir ty = Some s -> to_ir s = ty.
Proof. destruct ty; by intros [= <-]. Qed.

Lemma op_mirror op s : op_to_serde op = Some s -> serde_to_op s = op.
Proof. destruct op; cbn; try done; intros E; simplify_option_eq; try done; by rewrite (from_ir_to _ _ ltac:(eassumption)). Qed.

Lemma omap_mirror ops : forallb (fun op => bool_decide (is_Some (op_to_serde op))) ops = true -> map serde_to_op (omap op_to_serde ops) = ops.
Proof.
  induction ops as [|op ops IH]; [done|]. cbn. rewrite andb_true_iff, bool_decide_eq_true. intros [[s Hs] Hr]. rewrite Hs. cbn. by rewrite IH, (op_mirror _ _ Hs).
Qed.

(** The mirror loses no function it can express, and drops the ops it cannot. *)
Lemma func_mirror f : mirrored f = true -> func_of_serde (func_to_serde f) = f.
Proof.
  unfold mirrored. rewrite andb_true_iff. cbn [forallb]. rewrite andb_true_iff, bool_decide_eq_true. intros [[[r Hr] Hp] Hb].
  destruct f as [n p rt b]. unfold func_of_serde, func_to_serde. cbn in *. rewrite Hr. cbn. rewrite (from_ir_to _ _ Hr), (omap_mirror _ Hb). f_equal.
  rewrite map_map. rewrite forallb_forall in Hp. rewrite <-(map_id p) at 2. apply map_ext_in. intros ty Hin.
  apply Hp, bool_decide_eq_true in Hin as [s Hs]. rewrite Hs. cbn. by apply from_ir_to.
Qed.

Lemma mirror_drops ops : length (omap op_to_serde ops) = length ops <-> forallb (fun op => bool_decide (is_Some (op_to_serde op))) ops = true.
Proof.
  induction ops as [|op ops IH]; [done|]. cbn. rewrite andb_true_iff, <-IH, bool_decide_eq_true.
  assert (length (omap op_to_serde ops) <= length ops)%nat as Hle by (clear; induction ops as [|o l IH]; cbn; [done|destruct (op_to_serde o); cbn; lia]).
  destruct (op_to_serde op); cbn; [|split; [lia|by intros [[? [=]] _]]]. split; [split; [done|lia]|intros [_ ->]; done].
Qed.
End Facts.
End CacheFiles.
