(* ===== verification/CacheChain.v ===== *)
(** The compilation cache end to end: the key store of [crates/relon-object-cache/src/hmac.rs],
    [store] and [load] of [storage.rs], [try_store_to_cache] and [try_load_from_cache] of
    [crates/relon-codegen-cranelift/src/object_cache_integration.rs], and the constructors of
    [evaluator.rs] that write the three files of a source and run a cached object.

    A world is the files, the clock, the random numbers and what goes wrong: each operation on the
    file system consumes one entry of [faults] and fails on [Some n], a failing write after [n]
    bytes.  A crash is a run of faults to the end, since nothing changes after it.  Directories are
    not modelled: creating one can only fail.  What lies before and behind the cache is the class
    [Toolchain]: the front end, the object emitter, the linker, the loader and the JIT, each of
    which may succeed, fail or panic. *)

From Stdlib Require Import ZArith Lia Bool Ascii.
From coqutil Require Import Byte Word.LittleEndianList.
From stdpp Require Import base list strings pretty gmap.
From S2P Require Import Prelude Bytes SchemaCanonical Layout LayoutFacts Value Reader ReaderFacts Ir CacheFiles.
Local Open Scope Z_scope.
Local Open Scope abi_scope.

Module CacheChain.
Import CacheFiles.

(** ** The world *)

Abbreviation path := (list string).
Record file : Type := MkFile { mode : Z; data : bytes }.

Record world : Type := MkWorld {
  files : gmap path file;
  faults : list (option nat);
  clock : list (Z * Z);
  random : list (option bytes);
}.

Definition set_files (fs : gmap path file) (w : world) : world := MkWorld fs (faults w) (clock w) (random w).

(** The process environment. *)
Class Environment : Type := {
  XDG_DATA_HOME : option path;
  HOME : option path;
  pid : Z;
  umask : Z;
  cache_supported_on_host : bool;
}.

Definition IO (E A : Type) : Type := world -> outcome E A * world.
Definition ret {E A} (a : A) : IO E A := fun w => (Ok a, w).
Definition throw {E A} (e : E) : IO E A := fun w => (Err e, w).
Definition andThen {E A B} (m : IO E A) (k : A -> IO E B) : IO E B := fun w =>
  match m w with (Ok a, w) => k a w | (Err e, w) => (Err e, w) | (Abort, w) => (Abort, w) end.
Definition lift {E A} (r : outcome E A) : IO E A := fun w => (r, w).
Definition wrap_err {E F A} (f : E -> F) (m : IO E A) : IO F A := fun w => let (r, w) := m w in (map_err f r, w).

(** [match m { Ok(a) => .., Err(e) => .. }] *)
Definition attempt {E F A} (m : IO E A) : IO F (A + E) := fun w =>
  match m w with (Ok a, w) => (Ok (inl a), w) | (Err e, w) => (Ok (inr e), w) | (Abort, w) => (Abort, w) end.

(** [let _ = m;] *)
Definition ignore {E F A} (m : IO E A) : IO F unit := andThen (attempt m) (fun _ => ret tt).

Declare Scope io_scope.
Delimit Scope io_scope with io.
Notation "'let!' x ':=' m 'in' k" := (andThen m (fun x => k))
  (at level 10, x pattern, m at level 100, k at level 200) : io_scope.
Local Open Scope io_scope.

(** ** The file system *)

Definition next_fault (w : world) : option nat * world :=
  match faults w with [] => (None, w) | f :: l => (f, MkWorld (files w) l (clock w) (random w)) end.

(** An operation, and what it has done when it fails. *)
Definition fs_op {A} (run : world -> outcome io_error A * world) (partial : nat -> world -> world) : IO io_error A := fun w =>
  let (f, w) := next_fault w in match f with None => run w | Some n => (Err OtherIo, partial n w) end.
Definition untouched (n : nat) (w : world) : world := w.

Definition create_dir_all (p : path) : IO io_error unit := fs_op (fun w => (Ok tt, w)) untouched.

Definition fs_read (p : path) : IO io_error bytes :=
  fs_op (fun w => match files w !! p with Some f => (Ok (data f), w) | None => (Err NotFound, w) end) untouched.

(** [Path::exists] is false on an error. *)
Definition exists_ (p : path) {E} : IO E bool := fun w =>
  let (f, w) := next_fault w in (Ok (match f with None => bool_decide (is_Some (files w !! p)) | Some _ => false end), w).

Definition append (p : path) (b : bytes) (w : world) : world :=
  match files w !! p with Some f => set_files (<[p := MkFile (mode f) (data f ++ b)]> (files w)) w | None => w end.
Definition write_all (p : path) (b : bytes) : IO io_error unit :=
  fs_op (fun w => (Ok tt, append p b w)) (fun n => append p (take n b)).

Definition rename (from to : path) : IO io_error unit :=
  fs_op (fun w => match files w !! from with
                  | Some f => (Ok tt, set_files (<[to := f]> (delete from (files w))) w)
                  | None => (Err NotFound, w)
                  end) untouched.

Definition remove_file (p : path) : IO io_error unit :=
  fs_op (fun w => match files w !! p with Some _ => (Ok tt, set_files (delete p (files w)) w) | None => (Err NotFound, w) end) untouched.

(** [SystemTime::now().duration_since(UNIX_EPOCH)]: seconds and nanoseconds. *)
Definition now {E} : IO E (Z * Z) := fun w =>
  match clock w with [] => (Ok (0, 0), w) | t :: l => (Ok t, MkWorld (files w) (faults w) l (random w)) end.

Definition getrandom : IO unit bytes := fun w =>
  match random w with
  | Some b :: l => (Ok b, MkWorld (files w) (faults w) (clock w) l)
  | None :: l => (Err tt, MkWorld (files w) (faults w) (clock w) l)
  | [] => (Err tt, w)
  end.

Section Create.
Context {Env : Environment}.

Definition created (m : Z) : file := MkFile (Z.land m (Z.lnot umask)) [].

(** [File::create]: an existing file is truncated and keeps its mode. *)
Definition fs_create (p : path) : IO io_error unit :=
  fs_op (fun w => (Ok tt, set_files (<[p := match files w !! p with Some f => MkFile (mode f) [] | None => created 438 end]> (files w)) w)) untouched.

(** [OpenOptions::new().write(true).create_new(true).mode(m)] *)
Definition create_new (p : path) (m : Z) : IO io_error unit :=
  fs_op (fun w => match files w !! p with Some _ => (Err AlreadyExists, w) | None => (Ok tt, set_files (<[p := created m]> (files w)) w) end) untouched.

Definition fs_write (p : path) (b : bytes) : IO io_error unit := let! _ := fs_create p in write_all p b.
End Create.

(** ** File names *)

Definition hex_digit (n : Z) : ascii := ascii_of_nat (Z.to_nat (if n <? 10 then 48 + n else 87 + n)).
Fixpoint hex_encode (b : bytes) : string :=
  match b with
  | [] => EmptyString
  | x :: b => String (hex_digit (byte.unsigned x / 16)) (String (hex_digit (byte.unsigned x mod 16)) (hex_encode b))
  end.

Definition cache_path_for (cache_dir : path) (source_sha256 : bytes) : path := cache_dir ++ [hex_encode source_sha256 +:+ ".relon-native-v1"].
Definition ir_cache_path_for (cache_dir : path) (source_sha256 : bytes) : path := cache_dir ++ [hex_encode source_sha256 +:+ ".relon-ir-v1"].
Definition schema_cache_path_for (cache_dir : path) (source_sha256 : bytes) : path := cache_dir ++ [hex_encode source_sha256 +:+ ".relon-schema-v1"].

Fixpoint before_last_dot (s : string) : option string :=
  match s with
  | EmptyString => None
  | String c s => match before_last_dot s with
                  | Some r => Some (String c r)
                  | None => if bool_decide (c = "."%char) then Some EmptyString else None
                  end
  end.

(** [Path::file_stem] and [Path::with_extension] on a file name. *)
Definition file_stem (name : string) : string :=
  match before_last_dot name with None | Some EmptyString => name | Some r => r end.
Definition with_extension (p : path) (ext : string) : path :=
  match last p with Some name => removelast p ++ [file_stem name +:+ "." +:+ ext] | None => p end.

Section TempName.
Context {Env : Environment}.
Definition temp_name (p : path) (nanos : Z) : path := with_extension p ("tmp." +:+ pretty pid +:+ "." +:+ pretty nanos).
End TempName.

(** ** The key *)

Definition KEY_LEN : Z := 32.

Inductive HmacError : Type := HmacIo (e : io_error) | Random | BadSize (n : Z) | InsecureMode (m : Z) | NoKeyLocation.

Section Key.
Context {Env : Environment}.

Definition hmac_key_path : outcome HmacError path :=
  match XDG_DATA_HOME with
  | Some xdg => Ok (xdg ++ ["relon"; "cache-key"])
  | None => match HOME with
            | Some home => Ok (home ++ [".local"; "share"; "relon"; "cache-key"])
            | None => Err NoKeyLocation
            end
  end.

(** Opening, the permission bits, and reading to the end. *)
Definition load_key (p : path) : IO HmacError bytes :=
  let! f := wrap_err HmacIo (fs_op (fun w => match files w !! p with Some f => (Ok f, w) | None => (Err NotFound, w) end) untouched) in
  let! _ := wrap_err HmacIo (fs_op (fun w => (Ok tt, w)) untouched) in
  let m := Z.land (mode f) 511 in
  if negb (Z.land m 63 =? 0) then throw (InsecureMode m) else
  let! _ := wrap_err HmacIo (fs_op (fun w => (Ok tt, w)) untouched) in
  if negb (blen (data f) =? KEY_LEN) then throw (BadSize (blen (data f))) else
  ret (data f).

Definition ensure_key : IO HmacError bytes :=
  let! p := lift hmac_key_path in
  let! there := exists_ p in
  if there then load_key p else
  let! _ := wrap_err HmacIo (create_dir_all (removelast p)) in
  let! key := wrap_err (fun _ => Random) getrandom in
  let! _ := wrap_err HmacIo (create_new p 384) in
  let! _ := wrap_err HmacIo (write_all p key) in
  ret key.
End Key.

(** ** The object store *)

Inductive IntegrityMode : Type := Strict | HmacRequired.

Definition enforce_hmac_present (integrity : IntegrityMode) (hmac_key : option bytes) : outcome CacheError unit :=
  match integrity, hmac_key with
  | HmacRequired, None => Err HmacKeyRequired
  | _, _ => Ok tt
  end.

Section Store.
Context {D : Digests} {Env : Environment} {bincode : Codec Metadata}.

Definition store (cache_dir : path) (source_sha256 : bytes) (triple : string) (object : bytes) (meta : Metadata)
    (hmac_key : option bytes) : IO CacheError path :=
  let! _ := wrap_err Io (create_dir_all cache_dir) in
  let final_path := cache_path_for cache_dir source_sha256 in
  let! blob := lift (encode_blob triple object meta hmac_key) in
  let! t := now in
  let tmp := temp_name final_path (snd t) in
  let! _ := wrap_err Io (fs_create tmp) in
  let! _ := wrap_err Io (write_all tmp blob) in
  let! _ := wrap_err Io (rename tmp final_path) in
  ret final_path.

Definition load (cache_dir : path) (source_sha256 : bytes) (expected_triple : string) (hmac_key : option bytes)
    (integrity : IntegrityMode) : IO CacheError (option CacheEntry) :=
  let! _ := lift (enforce_hmac_present integrity hmac_key) in
  let! b := attempt (fs_read (cache_path_for cache_dir source_sha256)) in
  match b with
  | inr NotFound => ret None
  | inr e => throw (Io e)
  | inl b =>
      let! entry := lift (decode_blob b expected_triple hmac_key) in
      match integrity with
      | Strict =>
          if bool_decide (content_key (object_bytes entry) (metadata entry) = source_sha256) then ret (Some entry)
          else throw Sha256Mismatch
      | HmacRequired => ret (Some entry)
      end
  end.
End Store.

(** ** What surrounds the cache *)

(** [ObjectArtifact], as far as the cache uses it. *)
Record ObjectArtifact : Type := MkArtifact {
  et_rel_bytes : bytes;
  art_entry_shape : SerEntryShape;
  art_entry_arity : Z;
  art_entry_range : SerTokenRange;
  art_const_data : bytes;
  closure_symbols : list string;
}.

Inductive CraneliftError : Type := Frontend | Lowering (main : bool) (e : LayoutError) | Cache (m : cache_message) | Jit.

(** The front end, the emitter and the linker are functions of their input; the loader resolves
    symbols to addresses, zero for null.  Each may succeed, fail or panic ([Abort]). *)
Class Toolchain `{HostTypes} : Type := {
  NativeImport : Type;
  lower_source : string -> outcome unit (IrModule NativeImport * Schema * Schema);
  emit_module_object_bytes : IrModule NativeImport -> SandboxConfig -> Z -> outcome unit ObjectArtifact;
  link_to_dyn : bytes -> string -> outcome unit bytes;
  dlopen : bytes -> string -> list string -> outcome unit (gmap string Z);
  JitModule : Type;
  from_ir_inner : IrModule NativeImport -> SandboxConfig -> list string -> outcome unit JitModule;
}.

Section Chain.
Context {H : HostTypes} {D : Digests} {Env : Environment} {TC : Toolchain}.
Context {bincode : Codec Metadata} {ir_json : Codec IrSerde} {schema_json : Codec SchemaCacheEntry}.

(** ** Writing and reading an object with its IR *)

Definition build_metadata (caps : Z) (signature : bytes) (imports : list HostFnImport) {E} : IO E Metadata :=
  let! t := now in ret (MkMetadata imports caps signature (fst t) GENERATOR_VERSION).

Definition object_path := cache_path_for.

(** The digest of the linked object, or [None] when nothing was stored. *)
Definition try_store_to_cache (cache_dir : path) (source_sha256 et_rel : bytes) (meta : Metadata) (ir_blob : bytes)
    {E} : IO E (option bytes) :=
  if negb cache_supported_on_host then ret None else
  let! key := attempt ensure_key in
  match key with
  | inr _ => ret None
  | inl hmac_key =>
      match link_to_dyn et_rel host_target_triple with
      | Abort => lift Abort
      | Err _ => ret None
      | Ok dyn_bytes =>
          let object_sha256 := sha256 dyn_bytes in
          let! stored := attempt (store cache_dir source_sha256 host_target_triple dyn_bytes meta (Some hmac_key)) in
          match stored with
          | inr _ => ret None
          | inl _ =>
              let ir_path := ir_cache_path_for cache_dir source_sha256 in
              let undo := ignore (remove_file (object_path cache_dir source_sha256)) in
              let! dir := attempt (create_dir_all cache_dir) in
              match dir with
              | inr _ => let! _ := undo in ret None
              | inl _ =>
                  let! t := now in
                  let tmp_path := temp_name ir_path (snd t) in
                  let! written := attempt (fs_write tmp_path ir_blob) in
                  match written with
                  | inr _ => let! _ := ignore (remove_file tmp_path) in let! _ := undo in ret None
                  | inl _ =>
                      let! renamed := attempt (rename tmp_path ir_path) in
                      match renamed with
                      | inr _ => let! _ := ignore (remove_file tmp_path) in let! _ := undo in ret None
                      | inl _ => ret (Some object_sha256)
                      end
                  end
              end
          end
      end
  end.

Definition import_eq (a b : HostFnImport) : bool :=
  bool_decide (name a = name b) && (cap_bit a =? cap_bit b) && bool_decide (params_hash a = params_hash b) &&
  bool_decide (returns_hash a = returns_hash b).

Definition metadata_compatible (file expected : Metadata) : bool :=
  if negb (bool_decide (generator_version file = generator_version expected)) then false else
  if negb (cap_bitmap file =? cap_bitmap expected) then false else
  if negb (bool_decide (main_signature file = main_signature expected)) then false else
  if negb (length (host_fn_imports file) =? length (host_fn_imports expected))%nat then false else
  forallb (fun '(a, b) => import_eq a b) (zip (host_fn_imports file) (host_fn_imports expected)).

Record LoadedCache : Type := MkLoaded {
  lc_ir_entry : IrCacheEntry NativeImport;
  lc_object_bytes : bytes;
  lc_object_sha256 : bytes;
  lc_hmac_key : bytes;
  lc_metadata : Metadata;
}.

Definition try_load_from_cache (cache_dir : path) (source_sha256 : bytes) (expected : Metadata) {E} : IO E (option LoadedCache) :=
  if negb cache_supported_on_host then ret None else
  let! key := attempt ensure_key in
  match key with
  | inr _ => ret None
  | inl hmac_key =>
      let obj_path := object_path cache_dir source_sha256 in
      let! found := attempt (load cache_dir source_sha256 host_target_triple (Some hmac_key) HmacRequired) in
      match found with
      | inl None => ret None
      | inr _ => let! _ := ignore (remove_file obj_path) in ret None
      | inl (Some entry) =>
          let object_sha256 := sha256 (object_bytes entry) in
          let ir_path := ir_cache_path_for cache_dir source_sha256 in
          if negb (metadata_compatible (metadata entry) expected) then
            let! _ := ignore (remove_file obj_path) in
            let! _ := ignore (remove_file ir_path) in
            ret None
          else
            let! ir_bytes := attempt (fs_read ir_path) in
            match ir_bytes with
            | inr NotFound => let! _ := ignore (remove_file obj_path) in ret None
            | inr _ => ret None
            | inl ir_bytes =>
                let! ir_entry := attempt (lift (ir_deserialize ir_bytes)) in
                match ir_entry with
                | inr _ =>
                    let! _ := ignore (remove_file ir_path) in
                    let! _ := ignore (remove_file obj_path) in
                    ret None
                | inl ir_entry => ret (Some (MkLoaded ir_entry (object_bytes entry) object_sha256 hmac_key (metadata entry)))
                end
            end
      end
  end.

(** ** The evaluator's constructors *)

Definition signature_input (source : string) : bytes := as_bytes "relon-main-signature/v1" ++ [Byte.x00] ++ as_bytes source.
Definition expected_metadata_for_source (source : string) {E} : IO E Metadata := build_metadata 0 (sha256 (signature_input source)) [].

Definition invalidate_cache_triple (cache_dir : path) (source_hash : bytes) {E} : IO E unit :=
  let! _ := ignore (remove_file (ir_cache_path_for cache_dir source_hash)) in
  let! _ := ignore (remove_file (schema_cache_path_for cache_dir source_hash)) in
  ignore (remove_file (object_path cache_dir source_hash)).

Definition atomic_cache_write (cache_dir dest : path) (b : bytes) {E} : IO E bool :=
  let! dir := attempt (create_dir_all cache_dir) in
  match dir with
  | inr _ => ret false
  | inl _ =>
      let! t := now in
      let tmp := temp_name dest (snd t) in
      let! written := attempt (fs_write tmp b) in
      match written with
      | inr _ => let! _ := ignore (remove_file tmp) in ret false
      | inl _ =>
          let! renamed := attempt (rename tmp dest) in
          match renamed with
          | inr _ => let! _ := ignore (remove_file tmp) in ret false
          | inl _ => ret true
          end
      end
  end.

Definition write_ir_only (cache_dir : path) (source_hash ir_bytes : bytes) {E} : IO E bool :=
  atomic_cache_write cache_dir (ir_cache_path_for cache_dir source_hash) ir_bytes.

Definition schema_entry_of (main_schema return_schema : Schema) (names : list string) (artifact : ObjectArtifact) : SchemaCacheEntry :=
  MkSchemaEntry main_schema return_schema names (art_const_data artifact) (blen (closure_symbols artifact) mod 2 ^ 32)
    (art_entry_shape artifact) (art_entry_arity artifact mod 2 ^ 32) (art_entry_range artifact).

Definition write_cache_pair_best_effort (source : string) (ir_module : IrModule NativeImport) (main_schema return_schema : Schema)
    (names : list string) (return_root_size : Z) (cfg : SandboxConfig) (source_hash : bytes) (cache_dir : path) {E} : IO E unit :=
  let! ir_bytes := attempt (lift (ir_serialize (MkIrEntry ir_module cfg))) in
  match ir_bytes with
  | inr _ => ret tt
  | inl ir_bytes =>
      let! meta := expected_metadata_for_source source in
      match emit_module_object_bytes ir_module cfg return_root_size with
      | Abort => lift Abort
      | Err _ => let! _ := write_ir_only cache_dir source_hash ir_bytes in ret tt
      | Ok artifact =>
          let schema_entry := schema_entry_of main_schema return_schema names artifact in
          let! stored := try_store_to_cache cache_dir source_hash (et_rel_bytes artifact) meta ir_bytes in
          match stored with
          | None => ret tt
          | Some object_sha256 =>
              let! key := attempt ensure_key in
              match key with
              | inr _ => invalidate_cache_triple cache_dir source_hash
              | inl hmac_key =>
                  let! schema_bytes := attempt (lift (schema_serialize schema_entry source_hash object_sha256 hmac_key)) in
                  match schema_bytes with
                  | inr _ => invalidate_cache_triple cache_dir source_hash
                  | inl schema_bytes =>
                      let! _ := atomic_cache_write cache_dir (schema_cache_path_for cache_dir source_hash) schema_bytes in ret tt
                  end
              end
          end
      end
  end.

Definition from_source_with_cache (source : string) (cache_dir : path) : IO CraneliftError JitModule :=
  match lower_source source with
  | Abort => lift Abort
  | Err _ => throw Frontend
  | Ok (ir_module, main_schema, return_schema) =>
      let! _ := lift (map_err (Lowering true) (offsets_for main_schema)) in
      let! return_layout := lift (map_err (Lowering false) (offsets_for return_schema)) in
      let names := map field_name (schema_fields main_schema) in
      let source_hash := compute_source_hash source sandbox_default in
      let! _ := write_cache_pair_best_effort source ir_module main_schema return_schema names (root_size return_layout mod 2 ^ 32)
                  sandbox_default source_hash cache_dir in
      match from_ir_inner ir_module sandbox_default names with
      | Ok m => ret m
      | Err _ => throw Jit
      | Abort => lift Abort
      end
  end.

Definition VTABLE_SYMBOL : string := "__relon_capability_vtable".
Definition closure_symbol (i : Z) : string := "__closure_" +:+ pretty i.
Definition closure_names (n : Z) : list string := map (fun i => closure_symbol (Z.of_nat i)) (seq 0 (Z.to_nat n)).

(** An evaluator on a cached object: the object that was loaded, its entry point, the sidecar, and the
    addresses of its closures. *)
Record AotEvaluator : Type := MkAot {
  aot_object : bytes;
  aot_entry : Z;
  aot_schema : SchemaCacheEntry;
  aot_closures : list Z;
}.

(** [from_loaded_object]: the layouts of the schemas are computed again. *)
Definition from_loaded_object (object : bytes) (entry_ptr : Z) (schema_entry : SchemaCacheEntry) (closures : list Z) : outcome CraneliftError AotEvaluator :=
  let* _ := match entry_shape schema_entry with
            | BufferProtocol =>
                let* _ := map_err (Lowering true) (offsets_for (main_schema schema_entry)) in
                let* _ := map_err (Lowering false) (offsets_for (return_schema schema_entry)) in
                Ok tt
            | LegacyI64Args => Ok tt
            end in
  Ok (MkAot object entry_ptr schema_entry closures).

Fixpoint resolve_all (symbols : gmap string Z) (names : list string) : option (list Z) :=
  match names with
  | [] => Some []
  | n :: names => match symbols !! n, resolve_all symbols names with Some p, Some l => Some (p :: l) | _, _ => None end
  end.

(** A symbol that is there and not null. *)
Definition resolve_nonnull (symbols : gmap string Z) (n : string) : option Z :=
  match symbols !! n with Some p => if p =? 0 then None else Some p | None => None end.

Definition from_cache_dir (source : string) (cache_dir : path) : IO CraneliftError (option AotEvaluator) :=
  let source_hash := compute_source_hash source sandbox_default in
  let! expected := expected_metadata_for_source source in
  let! loaded := try_load_from_cache cache_dir source_hash expected in
  match loaded with
  | None => ret None
  | Some loaded =>
      let discard := let! _ := invalidate_cache_triple cache_dir source_hash in ret None in
      if negb (sandbox_matches (sandbox (lc_ir_entry loaded)) sandbox_default) then discard else
      let! schema_bytes := attempt (fs_read (schema_cache_path_for cache_dir source_hash)) in
      match schema_bytes with
      | inr NotFound => discard
      | inr _ => ret None
      | inl schema_bytes =>
          let! schema_entry := attempt (lift (schema_deserialize schema_bytes source_hash (lc_object_sha256 loaded) (lc_hmac_key loaded))) in
          match schema_entry with
          | inr _ => discard
          | inl schema_entry =>
              let closures := closure_names (closure_count schema_entry) in
              match dlopen (lc_object_bytes loaded) host_target_triple ("run_main" :: VTABLE_SYMBOL :: closures) with
              | Abort => lift Abort
              | Err _ => discard
              | Ok symbols =>
                  match resolve_nonnull symbols "run_main" with
                  | None => discard
                  | Some entry_ptr =>
                      match resolve_nonnull symbols VTABLE_SYMBOL with
                      | None => discard
                      | Some _ =>
                          match resolve_all symbols closures with
                          | None => discard
                          | Some closure_table =>
                              let! ev := lift (from_loaded_object (lc_object_bytes loaded) entry_ptr schema_entry closure_table) in
                              ret (Some ev)
                          end
                      end
                  end
              end
          end
      end
  end.

(** ** Specification *)

(** What compiling a source gives: the linked object and its sidecar. *)
Definition build (source : string) : option (bytes * SchemaCacheEntry) :=
  match lower_source source with
  | Err _ | Abort => None
  | Ok (ir_module, ms, rs) =>
      match offsets_for ms, offsets_for rs with
      | Ok _, Ok return_layout =>
          match emit_module_object_bytes ir_module sandbox_default (root_size return_layout mod 2 ^ 32) with
          | Err _ | Abort => None
          | Ok artifact =>
              match link_to_dyn (et_rel_bytes artifact) host_target_triple with
              | Err _ | Abort => None
              | Ok object => Some (object, schema_entry_of ms rs (map field_name (schema_fields ms)) artifact)
              end
          end
      | _, _ => None
      end
  end.

Definition source_hash_of (source : string) : bytes := compute_source_hash source sandbox_default.

(** The message that the tag of a sidecar authenticates, one that the writer makes for a source. *)
Definition sidecar_message (source : string) : option bytes :=
  match build source with
  | None => None
  | Some (object, entry) =>
      match to_vec entry with
      | None => None
      | Some js =>
          if blen js <=? U32_MAX then
            Some (hmac_input (schema_body js) (source_hash_of source) (sha256 object) (entry_shape entry) (entry_arity entry))
          else None
      end
  end.

(** What was hashed for the sources that were compiled. *)
Definition hashed (source : string) : list bytes :=
  source_input source sandbox_default :: match build source with Some (object, _) => [object] | None => [] end.

(** A tag of the sidecar of [source] that verifies under the key is one that the writer made for one
    of the sources of [history]. *)
Definition unforged (history : list string) (key : bytes) (source : string) (cache_dir : path) (object : bytes) (fs : gmap path file) : Prop :=
  forall f js tag rest entry, fs !! schema_cache_path_for cache_dir (source_hash_of source) = Some f ->
    data f = schema_body js ++ tag ++ rest -> blen tag = HMAC_TAG_LEN -> blen js <= U32_MAX -> from_slice js = Some entry ->
    let message := hmac_input (schema_body js) (source_hash_of source) (sha256 object) (entry_shape entry) (entry_arity entry) in
    verify_hmac message key tag = true -> exists source', source' ∈ history /\ sidecar_message source' = Some message.

Definition collision_free (inputs : list bytes) : Prop := forall x y, x ∈ inputs -> y ∈ inputs -> sha256 x = sha256 y -> x = y.

Lemma two_inputs a b : sha256 a <> sha256 b -> collision_free [a; b; a; b].
Proof.
  intros Hn. assert (forall x, x ∈ [a; b; a; b] -> x = a \/ x = b) as Hin by set_solver.
  intros x y [->| ->]%Hin [->| ->]%Hin; [done|by intros ?|by intros ?%eq_sym|done].
Qed.

(** ** Running programs *)

Lemma andThen_ok {E A B} (m : IO E A) (k : A -> IO E B) w b w' :
  andThen m k w = (Ok b, w') -> exists a w1, m w = (Ok a, w1) /\ k a w1 = (Ok b, w').
Proof. unfold andThen. destruct (m w) as [[a|e|] w1]; [eauto|done..]. Qed.

Lemma attempt_ok {E F A} (m : IO E A) w r w' : attempt (F := F) m w = (Ok r, w') ->
  match r with inl a => m w = (Ok a, w') | inr e => m w = (Err e, w') end.
Proof. unfold attempt. destruct (m w) as [[a|e|] w1]; by intros [= <- <-]. Qed.

Lemma fs_read_ok p w b w' : fs_read p w = (Ok b, w') -> files w' = files w /\ exists f, files w !! p = Some f /\ b = data f.
Proof.
  unfold fs_read, fs_op, next_fault. destruct (faults w) as [|[n|] l]; cbn [files]; [|done|]; destruct (files w !! p) as [f|] eqn:Ef; try done;
    intros [= <- <-]; split; [done|by exists f|done|by exists f].
Qed.

Lemma load_accepts dir src triple key integrity w e w' : load dir src triple key integrity w = (Ok (Some e), w') ->
  files w' = files w /\ (integrity = Strict -> content_key (object_bytes e) (metadata e) = src) /\
  exists g, files w !! cache_path_for dir src = Some g /\ decode_blob (data g) triple key = Ok e.
Proof.
  unfold load. intros ([] & w1 & [= _ <-] & (b & w2 & Eb%attempt_ok & R)%andThen_ok)%andThen_ok. destruct b as [b|[]]; [|done..].
  apply fs_read_ok in Eb as (Ef & g & Hg & ->). apply andThen_ok in R as (e' & w3 & [= Ed <-] & R).
  destruct integrity; [case_bool_decide; [|done]|]; injection R as <- <-; (split; [done|split; [done|by exists g]]).
Qed.

Lemma none_some {E A B} (m : IO E A) w (b : B) w' : andThen m (fun _ => ret None) w = (Ok (Some b), w') -> False.
Proof. by intros (? & ? & _ & [=])%andThen_ok. Qed.

Lemma none2_some {E A A' B} (m : IO E A) (m' : IO E A') w (b : B) w' : andThen m (fun _ => andThen m' (fun _ => ret None)) w = (Ok (Some b), w') -> False.
Proof. by intros (? & ? & _ & (? & ? & _ & [=])%andThen_ok)%andThen_ok. Qed.

Lemma try_load_ok dir src expected {E} w ld w' : try_load_from_cache (E := E) dir src expected w = (Ok (Some ld), w') ->
  exists w2 g, ensure_key w = (Ok (lc_hmac_key ld), w2) /\ files w' = files w2 /\ lc_object_sha256 ld = sha256 (lc_object_bytes ld) /\
    files w2 !! cache_path_for dir src = Some g /\ metadata_compatible (lc_metadata ld) expected = true /\
    decode_blob (data g) host_target_triple (Some (lc_hmac_key ld)) = Ok (MkEntry host_target_triple (lc_object_bytes ld) (lc_metadata ld)) /\
    exists i, files w2 !! ir_cache_path_for dir src = Some i /\ ir_deserialize (data i) = Ok (lc_ir_entry ld).
Proof.
  unfold try_load_from_cache. destruct cache_supported_on_host; [|done]. cbn [negb].
  intros (k & w2 & Ek%attempt_ok & R)%andThen_ok. destruct k as [key|]; [|done].
  apply andThen_ok in R as (en & w4 & El%attempt_ok & R). destruct en as [[en|]|]; [|done|by apply none_some in R].
  apply load_accepts in El as (Ef & _ & g & Hg & Ed). destruct (metadata_compatible (metadata en) expected) eqn:Em; cbn [negb] in R; [|by apply none2_some in R].
  apply andThen_ok in R as (ib & w5 & Ei%attempt_ok & R). destruct ib as [ib|[]]; [|by apply none_some in R|done..].
  apply fs_read_ok in Ei as (Ef' & i & Hi & ->). apply andThen_ok in R as (ie & w6 & Ej%attempt_ok & R). destruct ie as [ie|]; [|by apply none2_some in R].
  injection Ej as Ej <-. injection R as <- <-. exists w2, g. cbn. split_and!; [done|congruence|done..| |exists i; by rewrite <-Ef].
  rewrite Ed. apply decode_blob_accepts in Ed as (body & [[Et _] _ _]). destruct en. cbn in *. by rewrite Et.
Qed.

(** A cached object runs after its sidecar was verified. *)
Lemma from_cache_dir_some source dir w ev w' : from_cache_dir source dir w = (Ok (Some ev), w') ->
  exists key w2 f, ensure_key (snd (expected_metadata_for_source (E := CraneliftError) source w)) = (Ok key, w2) /\
    files w2 !! schema_cache_path_for dir (source_hash_of source) = Some f /\
    schema_deserialize (data f) (source_hash_of source) (sha256 (aot_object ev)) key = Ok (aot_schema ev) /\
    exists g meta, files w2 !! cache_path_for dir (source_hash_of source) = Some g /\
      decode_blob (data g) host_target_triple (Some key) = Ok (MkEntry host_target_triple (aot_object ev) meta).
Proof.
  unfold from_cache_dir. cbv zeta. intros (expected & w1 & E1 & R)%andThen_ok. rewrite E1. cbn [snd]. apply andThen_ok in R as (ld & w3 & E2 & R).
  destruct ld as [ld|]; [|done]. apply try_load_ok in E2 as (w2 & g & Ek & Ef & Eo & Hg & _ & Ed & _).
  destruct (sandbox_matches _ _); cbn [negb] in R; [|by apply none_some in R].
  apply andThen_ok in R as (sb & w4 & Es%attempt_ok & R). destruct sb as [sb|[]]; [|by apply none_some in R|done..].
  apply fs_read_ok in Es as (_ & f & Hf & ->). apply andThen_ok in R as (se & w5 & Ej%attempt_ok & R). destruct se as [se|]; [|by apply none_some in R].
  injection Ej as Ej <-. destruct (dlopen _ _ _) as [symbols|[]|]; [|by apply none_some in R|done].
  destruct (resolve_nonnull symbols "run_main") as [p|]; [|by apply none_some in R].
  destruct (resolve_nonnull symbols VTABLE_SYMBOL); [|by apply none_some in R].
  destruct (resolve_all _ _) as [cl|]; [|by apply none_some in R]. apply andThen_ok in R as (ev' & w6 & [= Ev <-] & [= -> <-]).
  unfold from_loaded_object in Ev. apply bind_ok in Ev as (_ & _ & [= <-]). cbn [aot_object aot_schema].
  exists (lc_hmac_key ld), w2, f. rewrite <-Ef, <-Eo. split_and!; [done..|]. exists g, (lc_metadata ld). by rewrite Ef.
Qed.

(** The sidecar that the writer left is authentic. *)
Lemma own_sidecar_unforged source dir key object entry f fs : build source = Some (object, entry) ->
  fs !! schema_cache_path_for dir (source_hash_of source) = Some f ->
  schema_serialize entry (source_hash_of source) (sha256 object) key = Ok (data f) -> unforged [source] key source dir object fs.
Proof.
  intros Hb Hf Hs f' js tag rest entry' Hf' Ed Lt Lj Hj message _. rewrite Hf in Hf'. injection Hf' as <-. exists source. split; [left|].
  unfold schema_serialize in Hs. apply bind_ok in Hs as (js' & Ej%ok_or_ok & (n & En%ok_or_ok & Es%Ok_inj)%bind_ok).
  unfold u32_try_from in En. destruct (Z.leb_spec (blen js') U32_MAX) as [Lj'|]; [|done]. rewrite Ed in Es. unfold schema_body in Es. rewrite <-!app_assoc in Es.
  apply app_split in Es as [_ Es]; [|done]. apply app_split in Es as [_ Es]; [|done]. apply prefixed32 in Es as [-> _]; [|done..].
  rewrite (from_to _ _ Ej) in Hj. injection Hj as ->. unfold sidecar_message. rewrite Hb, Ej. by rewrite (proj2 (Z.leb_le _ _) Lj).
Qed.

(** C5 A cached object is only run for the source it was compiled from: whatever the files of the
    cache directory hold, if [from_cache_dir] returns an evaluator for a source, then the source is one
    that was compiled before and the object and the sidecar of the evaluator are exactly what compiling
    it gives, provided that the tag of the sidecar under the installation's key was not forged and that
    the digests of what was hashed, of this source and of the loaded object do not collide.  In
    particular files copied from another source's entry, or an object swapped under an authentic
    sidecar, are not run. *)
Theorem cache_runs_own_source history source dir w ev w' key w2 :
  from_cache_dir source dir w = (Ok (Some ev), w') ->
  ensure_key (snd (expected_metadata_for_source (E := CraneliftError) source w)) = (Ok key, w2) ->
  Forall (fun s => is_slice (as_bytes s)) (source :: history) ->
  unforged history key source dir (aot_object ev) (files w2) ->
  collision_free (source_input source sandbox_default :: aot_object ev :: history ≫= hashed) ->
  source ∈ history /\ build source = Some (aot_object ev, aot_schema ev).
Proof.
  intros E Hk Hsl Hu Hc. apply from_cache_dir_some in E as (key' & w2' & f & Hk' & Hf & Hs & _). rewrite Hk in Hk'. injection Hk' as <- <-.
  apply schema_accepted in Hs as (js & tag & rest & Ed & Lt & Hj & Lj & Hv).
  destruct (Hu f js tag rest _ Hf Ed Lt Lj Hj Hv) as (source' & Hin & Hm). unfold sidecar_message in Hm.
  destruct (build source') as [[object entry]|] eqn:Eb; [|done]. destruct (to_vec entry) as [js'|] eqn:Ej; [|done].
  destruct (Z.leb_spec (blen js') U32_MAX) as [Lj'|]; [|done]. apply (inj Some) in Hm.
  apply hmac_input_inj in Hm as (Es & Eh & Eo); [|apply sha256_len..]. apply schema_body_inj in Es as ->; [|done..].
  rewrite (from_to _ _ Ej) in Hj. injection Hj as ->. rewrite Forall_cons, Forall_forall in Hsl. destruct Hsl as [Hsl Hslh].
  assert (source' = source) as ->.
  { apply (source_input_inj source' sandbox_default source sandbox_default); [by apply Hslh|done|]. apply Hc; [|left|done].
    do 2 right. apply list_elem_of_bind. exists source'. split; [left|done]. }
  assert (object = aot_object ev) as ->; [|done]. apply Hc; [|right; left|done].
  do 2 right. apply list_elem_of_bind. exists source. split; [unfold hashed; rewrite Eb; right; left|done].
Qed.

(** ** Names of files *)

Definition triple_paths (dir : path) (h : bytes) : list path := [object_path dir h; ir_cache_path_for dir h; schema_cache_path_for dir h].

Lemma before_last_dot_app s ext : before_last_dot ext = None -> before_last_dot (s +:+ String "." ext) = Some s.
Proof.
  intros He. induction s as [|c s IH].
  - change (before_last_dot (String "." ext) = Some EmptyString). cbn. by rewrite He.
  - change (before_last_dot (String c (s +:+ String "." ext)) = Some (String c s)). cbn [before_last_dot]. by rewrite IH.
Qed.

Lemma temp_name_spec dir h ext n : 0 < blen h -> before_last_dot ext = None ->
  temp_name (dir ++ [hex_encode h +:+ String "." ext]) n = dir ++ [hex_encode h +:+ ".tmp." +:+ pretty pid +:+ "." +:+ pretty n].
Proof.
  intros Hh He. unfold temp_name, with_extension. rewrite last_snoc, removelast_last. do 2 f_equal. unfold file_stem.
  rewrite before_last_dot_app by done. destruct h as [|x h]; [done|]. done.
Qed.

Lemma string_app_inj (s a b : string) : s +:+ a = s +:+ b -> a = b.
Proof. induction s as [|c s IH]; [done|]. intros [= E]. by apply IH. Qed.

Lemma string_length_app (a b : string) : String.length (a +:+ b) = (String.length a + String.length b)%nat.
Proof. induction a as [|c a IH]; [done|]. change (S (String.length (a +:+ b)) = S (String.length a + String.length b)). by rewrite IH. Qed.

Lemma hex_length b : String.length (hex_encode b) = (2 * length b)%nat.
Proof. induction b as [|x b IH]; [done|]. cbn. rewrite IH. lia. Qed.

(** The scratch files of a write: the key and the temporary names. *)
Definition scratch (dir : path) (h : bytes) (p : path) : Prop :=
  hmac_key_path = Ok p \/ exists n : Z, p = dir ++ [hex_encode h +:+ ".tmp." +:+ pretty pid +:+ "." +:+ pretty n].

Lemma triple_temp dir h p n : blen h = 32 -> p ∈ triple_paths dir h -> scratch dir h (temp_name p n).
Proof. intros Hh Hp. right. exists n. unfold triple_paths in Hp. repeat (apply elem_of_cons in Hp as [->|Hp]); [apply temp_name_spec; [lia|done]..|by apply elem_of_nil in Hp]. Qed.

Lemma triple_not_scratch dir h p : blen h = 32 -> p ∈ triple_paths dir h -> ~ scratch dir h p.
Proof.
  intros Hh Hp. assert (exists c ext, p = dir ++ [hex_encode h +:+ String "." (String c ext)] /\ c <> "t"%char) as (c & ext & -> & Hc).
  { unfold triple_paths in Hp. repeat (apply elem_of_cons in Hp as [->|Hp]); [by do 2 eexists..|by apply elem_of_nil in Hp]. }
  intros [Hk|[n E]].
  - assert (exists pre, dir ++ [hex_encode h +:+ String "." (String c ext)] = pre ++ ["cache-key"]) as [pre E].
    { unfold hmac_key_path in Hk. destruct XDG_DATA_HOME as [x|]; [|destruct HOME as [x|]; [|done]]; apply Ok_inj in Hk as <-.
      - exists (x ++ ["relon"]). by rewrite <-app_assoc.
      - exists (x ++ [".local"; "share"; "relon"]). by rewrite <-app_assoc. }
    apply app_inj_tail in E as [_ E]. apply (f_equal String.length) in E. rewrite string_length_app, hex_length in E. unfold blen in Hh. cbn in E. lia.
  - apply app_inj_tail in E as [_ E%string_app_inj]. injection E as -> _. done.
Qed.

(** ** What a write may leave behind

    Paths in [T] may hold anything; those in [F] are as before, absent, or hold a fine content; all
    others are as before. *)

Section Tame.
Context (T F : path -> Prop) (fine : path -> bytes -> Prop).

Definition moved (w w' : world) : Prop := forall p, ~ T p ->
  files w' !! p = files w !! p \/ (F p /\ (files w' !! p = None \/ exists f, files w' !! p = Some f /\ fine p (data f))).

#[local] Instance moved_preorder : PreOrder moved.
Proof.
  split; [by left|]. intros w1 w2 w3 H12 H23 p Hp. destruct (H23 p Hp) as [->|?]; [by apply H12|by right].
Qed.

Definition tame {E A} (m : IO E A) : Prop := forall w, moved w (snd (m w)).

Lemma moved_same w w' : files w' = files w -> moved w w'.
Proof. intros E p _. left. by rewrite E. Qed.

Lemma moved_scratch w w' q : T q -> (forall p, p <> q -> files w' !! p = files w !! p) -> moved w w'.
Proof. intros Hq He p Hp. left. apply He. by intros ->. Qed.

Lemma tame_andThen {E A B} (m : IO E A) (k : A -> IO E B) : tame m -> (forall a, tame (k a)) -> tame (andThen m k).
Proof.
  intros Hm Hk w. unfold andThen. specialize (Hm w). destruct (m w) as [[a|e|] w1]; [|done..]. cbn in Hm. etransitivity; [done|apply Hk].
Qed.

(** With what is known when the first part succeeds. *)
Lemma moved_after {E A B} (m : IO E A) (k : A -> IO E B) w :
  moved w (snd (m w)) -> (forall a w', m w = (Ok a, w') -> moved w' (snd (k a w'))) -> moved w (snd (andThen m k w)).
Proof. intros Hm Hk. unfold andThen. destruct (m w) as [[a|e|] w1]; [|done..]. cbn in Hm. etransitivity; [done|by apply Hk]. Qed.

Lemma tame_attempt {E F' A} (m : IO E A) : tame m -> tame (attempt (F := F') m).
Proof. intros Hm w. unfold attempt. specialize (Hm w). by destruct (m w) as [[a|e|] w1]. Qed.

Lemma tame_wrap {E F' A} (f : E -> F') (m : IO E A) : tame m -> tame (wrap_err f m).
Proof. intros Hm w. unfold wrap_err. specialize (Hm w). by destruct (m w). Qed.

Lemma wrap_err_ok {E F' A} (f : E -> F') (m : IO E A) w a w' : wrap_err f m w = (Ok a, w') -> m w = (Ok a, w').
Proof. unfold wrap_err. destruct (m w) as [[]]; by intros [= <- <-]. Qed.

Lemma tame_ret {E A} (a : A) : tame (ret (E := E) a).
Proof. intros w. reflexivity. Qed.

Lemma tame_ignore {E F' A} (m : IO E A) : tame m -> tame (ignore (F := F') m).
Proof. intros Hm. apply tame_andThen; [by apply tame_attempt|]. intros _. apply tame_ret. Qed.

Lemma tame_throw {E A} (e : E) : tame (throw (A := A) e).
Proof. intros w. reflexivity. Qed.

Lemma tame_lift {E A} (r : outcome E A) : tame (lift r).
Proof. intros w. reflexivity. Qed.

Lemma tame_lift_then {E A B} (r : outcome E A) (k : A -> IO E B) : (forall a, r = Ok a -> tame (k a)) -> tame (andThen (lift r) k).
Proof. intros Hk w. apply moved_after; [reflexivity|]. intros a w' [= E' <-]. by apply Hk. Qed.

Lemma tame_now {E} : tame (now (E := E)).
Proof. intros w. unfold now. destruct (clock w); by apply moved_same. Qed.

Lemma tame_random : tame getrandom.
Proof. intros w. unfold getrandom. destruct (random w) as [|[b|] l]; by apply moved_same. Qed.

Lemma tame_exists p {E} : tame (exists_ p (E := E)).
Proof. intros w. unfold exists_, next_fault. destruct (faults w); by apply moved_same. Qed.

(** An operation is tame if both of its outcomes are. *)
Lemma tame_op {A} (run : world -> outcome io_error A * world) part :
  (forall w, moved w (snd (run w))) -> (forall n w, moved w (part n w)) -> tame (fs_op run part).
Proof.
  intros Hr Hp w. unfold fs_op, next_fault. destruct (faults w) as [|[n|] l]; cbn; [apply Hr| |];
    (etransitivity; [|apply Hp || apply Hr]; by apply moved_same).
Qed.

Lemma tame_read_op {A} (r : world -> outcome io_error A) : tame (fs_op (fun w => (r w, w)) untouched).
Proof. apply tame_op; intros; by apply moved_same. Qed.

Lemma tame_dir p : tame (create_dir_all p).
Proof. apply tame_read_op. Qed.

Lemma tame_read p : tame (fs_read p).
Proof. apply tame_op; intros; [|by apply moved_same]. destruct (files w !! p); by apply moved_same. Qed.

Lemma moved_append p b w : T p -> moved w (append p b w).
Proof.
  intros Hp. unfold append. destruct (files w !! p); [|by apply moved_same]. apply (moved_scratch _ _ p Hp). intros q Hq. cbn. by rewrite lookup_insert_ne.
Qed.

Lemma tame_write_all p b : T p -> tame (write_all p b).
Proof. intros Hp. apply tame_op; intros; by apply moved_append. Qed.

Lemma tame_create p : T p -> tame (fs_create p).
Proof. intros Hp. apply tame_op; intros; [|by apply moved_same]. apply (moved_scratch _ _ p Hp). intros q Hq. cbn. by rewrite lookup_insert_ne. Qed.

Lemma tame_create_new p m : T p -> tame (create_new p m).
Proof.
  intros Hp. apply tame_op; intros; [|by apply moved_same]. destruct (files w !! p); [by apply moved_same|].
  apply (moved_scratch _ _ p Hp). intros q Hq. cbn. by rewrite lookup_insert_ne.
Qed.

Lemma tame_remove p : T p \/ F p -> tame (remove_file p).
Proof.
  intros Hp. apply tame_op; intros; [|by apply moved_same]. destruct (files w !! p); [|by apply moved_same]. cbn. intros q Hq. cbn.
  destruct (decide (q = p)) as [->|Hn]; [|left; by rewrite lookup_delete_ne]. destruct Hp as [Hp|Hp]; [done|]. right. split; [done|]. left. apply lookup_delete_eq.
Qed.

Lemma tame_write p b : T p -> tame (fs_write p b).
Proof. intros Hp. apply tame_andThen; [by apply tame_create|]. intros _. by apply tame_write_all. Qed.

(** A file that was written in full. *)
Definition written (p : path) (b : bytes) (w : world) : Prop := exists f, files w !! p = Some f /\ data f = b.

Lemma create_written p w w' : fs_create p w = (Ok tt, w') -> written p [] w'.
Proof.
  unfold fs_create, fs_op, next_fault. destruct (faults w) as [|[n|] l]; [|done|]; intros [= <-]; eexists; cbn; rewrite lookup_insert_eq; (split; [done|]);
    by destruct (files w !! p).
Qed.

Lemma write_all_written p a b w w' : written p a w -> write_all p b w = (Ok tt, w') -> written p (a ++ b) w'.
Proof.
  intros (f & Hf & <-). unfold write_all, fs_op, next_fault, append. destruct (faults w) as [|[n|] l]; [|done|]; cbn [files]; rewrite Hf;
    intros [= <-]; eexists; cbn; rewrite lookup_insert_eq; done.
Qed.

Lemma fs_write_written p b w w' : fs_write p b w = (Ok tt, w') -> written p b w'.
Proof. intros ([] & w1 & H1%create_written & H2)%andThen_ok. by eapply (write_all_written p []). Qed.

Lemma moved_rename from to b w : T from -> F to -> fine to b -> written from b w -> moved w (snd (rename from to w)).
Proof.
  intros HT HF Hb (f & Hf & <-). unfold rename, fs_op, next_fault.
  assert (forall l, moved w (set_files (<[to := f]> (delete from (files w))) (MkWorld (files w) l (clock w) (random w)))) as Hm.
  { intros l q Hq. cbn. destruct (decide (q = to)) as [->|Hn].
    - right. split; [done|]. right. exists f. by rewrite lookup_insert_eq.
    - left. rewrite lookup_insert_ne by done. rewrite lookup_delete_ne; [done|]. by intros ->. }
  destruct (faults w) as [|[n|] l] eqn:Ef; cbn [files snd]; [rewrite Hf|by apply moved_same|rewrite Hf; apply Hm].
  specialize (Hm []). rewrite <-Ef in Hm. by destruct w.
Qed.

Create HintDb tame discriminated.
#[local] Hint Resolve tame_andThen tame_attempt tame_wrap tame_ret tame_ignore tame_throw tame_lift tame_now tame_random tame_exists tame_dir tame_read
  tame_write_all tame_create tame_create_new tame_remove tame_write tame_read_op : tame.

(** Programs whose parts are tame. *)
Ltac tame_tac := repeat first [case_match | progress intros | solve [eauto 3 with tame] | apply tame_andThen | apply tame_attempt | apply tame_wrap | apply tame_ignore].

Lemma tame_ensure_key : (forall p, hmac_key_path = Ok p -> T p) -> tame ensure_key.
Proof.
  intros HT. apply tame_lift_then. intros p Hp. specialize (HT p Hp). unfold load_key. tame_tac.
  apply tame_op; intros; [case_match|]; by apply moved_same.
Qed.

Lemma tame_store dir h triple object meta key :
  (forall n, T (temp_name (object_path dir h) n)) -> F (object_path dir h) ->
  (forall b, encode_blob triple object meta key = Ok b -> fine (object_path dir h) b) -> tame (store dir h triple object meta key).
Proof.
  intros HT HF Hfine. apply tame_andThen; [tame_tac|intros _]. apply tame_lift_then. intros blob Eb.
  apply tame_andThen; [tame_tac|]. intros t w. pose proof (HT (snd t)) as Ht. set (tmp := temp_name _ _) in *.
  apply moved_after; [by apply tame_wrap, tame_create|]. intros [] w1 Hc%wrap_err_ok%create_written.
  apply moved_after; [by apply tame_wrap, tame_write_all|]. intros [] w2 Hw%wrap_err_ok%(write_all_written tmp []); [|done].
  apply moved_after; [|by intros; apply moved_same]. unfold wrap_err.
  pose proof (moved_rename tmp (object_path dir h) blob w2 Ht HF (Hfine _ Eb) Hw) as Hr. by destruct (rename _ _ w2).
Qed.

Lemma tame_atomic dir dest b {E} : (forall n, T (temp_name dest n)) -> F dest -> fine dest b -> tame (atomic_cache_write dir dest b (E := E)).
Proof.
  intros HT HF Hfine. apply tame_andThen; [tame_tac|]. intros [_|_]; [|tame_tac]. apply tame_andThen; [tame_tac|]. intros t w.
  pose proof (HT (snd t)) as Ht. set (tmp := temp_name _ _) in *. apply moved_after; [by apply tame_attempt, tame_write|].
  intros [[]|e] w1 Hw%attempt_ok; [|by apply tame_andThen; [apply tame_ignore, tame_remove; left|intros; apply tame_ret]].
  apply fs_write_written in Hw. apply moved_after.
  - unfold attempt. pose proof (moved_rename tmp dest b w1 Ht HF Hfine Hw) as Hr. by destruct (rename _ _ w1) as [[]].
  - intros [[]|e] w2 _; [by apply moved_same|]. by apply tame_andThen; [apply tame_ignore, tame_remove; left|intros; apply tame_ret].
Qed.

Context (dir : path) (h : bytes).
Hypothesis key_scratch : forall p, hmac_key_path = Ok p -> T p.
Hypothesis temp_scratch : forall p n, p ∈ triple_paths dir h -> T (temp_name p n).
Hypothesis triple_final : forall p, p ∈ triple_paths dir h -> F p.

Lemma in_triple : object_path dir h ∈ triple_paths dir h /\ ir_cache_path_for dir h ∈ triple_paths dir h /\ schema_cache_path_for dir h ∈ triple_paths dir h.
Proof. split_and!; [left|right; left|do 2 right; left]. Qed.

Lemma tame_remove_triple p {E} : p ∈ triple_paths dir h -> tame (ignore (F := E) (remove_file p)).
Proof. intros Hp. apply tame_ignore, tame_remove. right. by apply triple_final. Qed.

Lemma tame_invalidate {E} : tame (invalidate_cache_triple dir h (E := E)).
Proof. destruct in_triple as (Ho & Hi & Hs). unfold invalidate_cache_triple. repeat (apply tame_andThen; [by apply tame_remove_triple|intros _]). by apply tame_remove_triple. Qed.

Lemma tame_try_store et_rel meta ir_blob {E} :
  (forall key dyn b, link_to_dyn et_rel host_target_triple = Ok dyn -> encode_blob host_target_triple dyn meta (Some key) = Ok b -> fine (object_path dir h) b) ->
  fine (ir_cache_path_for dir h) ir_blob -> tame (try_store_to_cache dir h et_rel meta ir_blob (E := E)).
Proof.
  intros Hb Hir. destruct in_triple as (Ho & Hi & _). unfold try_store_to_cache. destruct (negb _); [apply tame_ret|].
  apply tame_andThen; [by apply tame_attempt, tame_ensure_key|]. intros [key|]; [|apply tame_ret].
  destruct (link_to_dyn _ _) as [dyn|[]|]; [|apply tame_ret|apply tame_lift].
  apply tame_andThen; [by apply tame_attempt, tame_store; [intros; apply temp_scratch|apply triple_final|eauto]|]. intros [_|]; [|apply tame_ret].
  apply tame_andThen; [apply tame_attempt, tame_dir|]. intros [_|]; [|apply tame_andThen; [by apply tame_remove_triple|intros; apply tame_ret]].
  apply tame_andThen; [apply tame_now|]. intros t w. pose proof (temp_scratch (ir_cache_path_for dir h) (snd t) Hi) as Ht. set (tmp := temp_name _ _) in *.
  assert (forall (A : Type), tame (let! _ := ignore (F := E) (remove_file tmp) in let! _ := ignore (remove_file (object_path dir h)) in ret (@None A))) as Hundo.
  { intros A. apply tame_andThen; [by apply tame_ignore, tame_remove; left|intros _]. apply tame_andThen; [by apply tame_remove_triple|intros; apply tame_ret]. }
  apply moved_after; [by apply tame_attempt, tame_write|]. intros [[]|e] w1 Hw%attempt_ok; [|apply Hundo]. apply fs_write_written in Hw. apply moved_after.
  - unfold attempt. pose proof (moved_rename tmp _ _ w1 Ht (triple_final _ Hi) Hir Hw) as Hr. by destruct (rename _ _ w1) as [[]].
  - intros [[]|e] w2 _; [by apply moved_same|apply Hundo].
Qed.
End Tame.

Lemma try_store_some dir h et_rel meta ir_blob {E} w o w' : try_store_to_cache dir h et_rel meta ir_blob (E := E) w = (Ok (Some o), w') ->
  exists dyn, link_to_dyn et_rel host_target_triple = Ok dyn /\ o = sha256 dyn.
Proof.
  unfold try_store_to_cache. destruct (negb _); [done|]. intros (k & w1 & _ & R)%andThen_ok. destruct k as [key|]; [|done].
  destruct (link_to_dyn _ _) as [dyn|[]|]; [|done..]. apply andThen_ok in R as (st & w2 & _ & R). destruct st as [p|]; [|done].
  apply andThen_ok in R as (d & w3 & _ & R). destruct d as [[]|]; [|by apply none_some in R].
  apply andThen_ok in R as (t & w4 & _ & R). apply andThen_ok in R as (wr & w5 & _ & R). destruct wr as [[]|]; [|by apply none2_some in R].
  apply andThen_ok in R as (rn & w6 & _ & R). destruct rn as [[]|]; [|by apply none2_some in R]. injection R as <- _. by exists dyn.
Qed.

(** The complete contents of the three files of a source. *)
Definition metadata_of (source : string) (t : Z) : Metadata := MkMetadata [] 0 (sha256 (signature_input source)) t GENERATOR_VERSION.

Definition complete (source : string) (dir : path) (p : path) (b : bytes) : Prop :=
  let h := source_hash_of source in
  (p = object_path dir h /\ exists object entry t key, build source = Some (object, entry) /\
     encode_blob host_target_triple object (metadata_of source t) (Some key) = Ok b) \/
  (p = ir_cache_path_for dir h /\ exists m ms rs, lower_source source = Ok (m, ms, rs) /\ ir_serialize (MkIrEntry m sandbox_default) = Ok b) \/
  (p = schema_cache_path_for dir h /\ exists object entry key, build source = Some (object, entry) /\
     schema_serialize entry h (sha256 object) key = Ok b).

Lemma expected_metadata_ok source {E} w meta w' : expected_metadata_for_source source (E := E) w = (Ok meta, w') -> exists t, meta = metadata_of source t.
Proof. intros (t & w1 & _ & [= <- _])%andThen_ok. by exists (fst t). Qed.

Lemma tame_write_pair source dir m ms rs rl {E} : lower_source source = Ok (m, ms, rs) -> is_ok (offsets_for ms) -> offsets_for rs = Ok rl ->
  tame (scratch dir (source_hash_of source)) (fun p => p ∈ triple_paths dir (source_hash_of source)) (complete source dir)
    (write_cache_pair_best_effort source m ms rs (map field_name (schema_fields ms)) (root_size rl mod 2 ^ 32) sandbox_default (source_hash_of source) dir (E := E)).
Proof.
  intros Hl [ml Hml] Hrl. set (h := source_hash_of source). assert (blen h = 32) as Hh by apply sha256_len.
  assert (forall p n, p ∈ triple_paths dir h -> scratch dir h (temp_name p n)) as Ht by (intros; by apply triple_temp).
  assert (forall p, hmac_key_path = Ok p -> scratch dir h p) as Hk by (by left).
  destruct (in_triple dir h) as (Po & Pi & Ps). unfold write_cache_pair_best_effort. intros w.
  apply moved_after; [by apply tame_attempt, tame_lift|]. intros [ib|] w1 Ei%attempt_ok; [|by apply moved_same]. injection Ei as Ei <-.
  assert (complete source dir (ir_cache_path_for dir h) ib) as Ci by (right; left; split; [done|by exists m, ms, rs]).
  apply moved_after; [by apply tame_andThen; [apply tame_now|intros; apply tame_ret]|]. intros meta w1 (t & ->)%expected_metadata_ok.
  destruct (emit_module_object_bytes _ _ _) as [art|[]|] eqn:Ea;
    [|apply tame_andThen; [by apply tame_atomic; [intros; apply Ht|..]|intros; apply tame_ret]|apply tame_lift].
  assert (forall dyn, link_to_dyn (et_rel_bytes art) host_target_triple = Ok dyn ->
    build source = Some (dyn, schema_entry_of ms rs (map field_name (schema_fields ms)) art)) as Hb by (intros dyn Hd; unfold build; by rewrite Hl, Hml, Hrl, Ea, Hd).
  apply moved_after.
  { apply tame_try_store; [done..| |done]. intros key dyn b Hd He. left. split; [done|]. exists dyn. eexists. exists t, key. by split; [apply Hb|]. }
  intros [o|] w2; [|by intros; apply moved_same]. intros (dyn & Hd & ->)%try_store_some.
  apply moved_after; [by apply tame_attempt, tame_ensure_key|]. intros [key|] w3 _; [|by apply tame_invalidate].
  apply moved_after; [by apply tame_attempt, tame_lift|]. intros [sb|] w4 Es%attempt_ok; [|by apply tame_invalidate]. injection Es as Es <-.
  apply tame_andThen; [|intros; apply tame_ret]. apply tame_atomic; [by intros; apply Ht|done|]. right. right. split; [done|]. exists dyn. eexists. exists key. by split; [apply Hb|].
Qed.

(** C6 Writing to the cache is atomic, whatever fails and wherever the process stops: compiling a
    source with the cache leaves each of the three files of the source as it was, removes it, or leaves
    it complete - the tagged blob of the compiled object, the serialised IR, the tagged sidecar - and
    touches nothing else but the key and temporary files. *)
Theorem cache_writes_atomic source dir w :
  let h := source_hash_of source in
  let w' := snd (from_source_with_cache source dir w) in
  (forall p, p ∈ triple_paths dir h ->
     files w' !! p = files w !! p \/ files w' !! p = None \/ exists f, files w' !! p = Some f /\ complete source dir p (data f)) /\
  (forall p, p ∉ triple_paths dir h -> ~ scratch dir h p -> files w' !! p = files w !! p).
Proof.
  intros h w'. assert (blen h = 32) as Hh by apply sha256_len.
  enough (moved (scratch dir h) (fun p => p ∈ triple_paths dir h) (complete source dir) w w') as Hm.
  { split.
    - intros p Hp. destruct (Hm p) as [?|[_ ?]]; [by apply triple_not_scratch|by left|by right].
    - intros p Hp Hn. by destruct (Hm p Hn) as [?|[? _]]. }
  unfold w', from_source_with_cache. destruct (lower_source source) as [[[m ms] rs]|[]|] eqn:El; [|by apply moved_same..].
  apply moved_after; [by apply tame_lift|]. intros ml w1 [= Em <-]. apply moved_after; [by apply tame_lift|]. intros rl w1 [= Er <-].
  apply map_err_ok in Em, Er. apply tame_andThen; [by apply tame_write_pair; [|eexists|]|]. intros _ w1. by destruct (from_ir_inner _ _ _); apply moved_same.
Qed.

(** ** Runs without faults *)

Definition quiet (w : world) : Prop := faults w = [].
Definition temp_path (dir : path) (h : bytes) (p : path) : Prop := exists n : Z, p = dir ++ [hex_encode h +:+ ".tmp." +:+ pretty pid +:+ "." +:+ pretty n].

(** [dest] holds [b] now, and only temporary files changed besides. *)
Record puts (dir : path) (h : bytes) (dest : path) (b : bytes) (w w' : world) : Prop := {
  pu_quiet : quiet w';
  pu_written : written dest b w';
  pu_frame : forall q, q <> dest -> ~ temp_path dir h q -> files w' !! q = files w !! q;
}.

Lemma quiet_op {A} (run : world -> outcome io_error A * world) part w : quiet w -> fs_op run part w = run w.
Proof. unfold quiet, fs_op, next_fault. by intros ->. Qed.

Lemma now_run {E} w : exists t w', now (E := E) w = (Ok t, w') /\ files w' = files w /\ faults w' = faults w.
Proof. unfold now. destruct (clock w) as [|t l]; eauto. Qed.

Lemma fs_write_run p b w : quiet w -> exists f, fs_write p b w = (Ok tt, set_files (<[p := f]> (files w)) w) /\ data f = b.
Proof.
  intros Hq. unfold fs_write, andThen, fs_create, write_all. rewrite quiet_op by done. rewrite quiet_op by done. unfold append. cbn [files set_files].
  rewrite lookup_insert_eq. eexists. unfold set_files at 1. cbn. rewrite insert_insert_eq. split; [done|]. by destruct (files w !! p).
Qed.

Lemma rename_run from to f w : quiet w -> files w !! from = Some f -> rename from to w = (Ok tt, set_files (<[to := f]> (delete from (files w))) w).
Proof. intros Hq Hf. unfold rename. rewrite quiet_op by done. by rewrite Hf. Qed.

(** Writing a temporary file and renaming it. *)
Lemma write_rename_run dir h dest tmp b w : quiet w -> temp_path dir h tmp -> ~ temp_path dir h dest ->
  exists w1 w', fs_write tmp b w = (Ok tt, w1) /\ rename tmp dest w1 = (Ok tt, w') /\ puts dir h dest b w w'.
Proof.
  intros Hq Ht Hd. destruct (fs_write_run tmp b w Hq) as (f & Hw & Hf). eexists _, _. split; [exact Hw|].
  rewrite (rename_run tmp dest f); [|done|by apply lookup_insert_eq]. split; [done|]. split; [done| |].
  - exists f. cbn. by rewrite lookup_insert_eq.
  - intros q Hq1 Hq2. cbn. rewrite lookup_insert_ne by done. rewrite lookup_delete_ne by (intros ->; done). rewrite lookup_insert_ne; [done|intros ->; done].
Qed.

Lemma triple_temp_path dir h p n : blen h = 32 -> p ∈ triple_paths dir h -> temp_path dir h (temp_name p n) /\ ~ temp_path dir h p.
Proof.
  intros Hh Hp. split.
  - exists n. unfold triple_paths in Hp. repeat (apply elem_of_cons in Hp as [->|Hp]); [apply temp_name_spec; [lia|done]..|by apply elem_of_nil in Hp].
  - intros Ht. apply (triple_not_scratch dir h p Hh Hp). by right.
Qed.

Lemma store_run dir h triple object meta key w b : blen h = 32 -> quiet w -> encode_blob triple object meta key = Ok b ->
  exists w', store dir h triple object meta key w = (Ok (object_path dir h), w') /\ puts dir h (object_path dir h) b w w'.
Proof.
  intros Hh Hq Hb. destruct (in_triple dir h) as (Po & _ & _). destruct (now_run (E := CacheError) w) as (t & w1 & Hn & Hf & Hq1).
  destruct (triple_temp_path dir h _ (snd t) Hh Po) as [Ht Hd].
  destruct (write_rename_run dir h (object_path dir h) (temp_name (object_path dir h) (snd t)) b w1) as (w2 & w3 & Hw & Hr & [Hq3 Hp Hfr]); [by unfold quiet; rewrite Hq1|done..|].
  unfold store, andThen at 1, wrap_err at 1, create_dir_all. rewrite quiet_op by done. cbn [map_err]. unfold lift at 1, andThen at 1. rewrite Hb.
  unfold andThen at 1. rewrite Hn. unfold fs_write, andThen in Hw. unfold andThen, wrap_err. destruct (fs_create _ w1) as [[[]|e|] w4]; [|done..]. cbn [map_err].
  fold (object_path dir h) in *. unfold object_path in *. rewrite Hw. cbn [map_err]. rewrite Hr. cbn [map_err]. eexists. split; [done|]. split; [done..|]. intros q Hq4 Hq5. rewrite Hfr by done. by rewrite Hf.
Qed.

Lemma run_then {E A B} (m : IO E A) (k : A -> IO E B) w a w1 : m w = (Ok a, w1) -> andThen m k w = k a w1.
Proof. intros Hm. unfold andThen. by rewrite Hm. Qed.

Lemma run_attempt {E F A B} (m : IO E A) (k : A + E -> IO F B) w a w1 : m w = (Ok a, w1) -> andThen (attempt m) k w = k (inl a) w1.
Proof. intros Hm. unfold andThen, attempt. by rewrite Hm. Qed.

Lemma run_dir {F B} dir (k : unit + io_error -> IO F B) w : quiet w -> andThen (attempt (create_dir_all dir)) k w = k (inl tt) w.
Proof. intros Hq. apply run_attempt. unfold create_dir_all. by rewrite quiet_op. Qed.

Lemma atomic_run dir h dest b {E} w : blen h = 32 -> dest ∈ triple_paths dir h -> quiet w ->
  exists w', atomic_cache_write dir dest b (E := E) w = (Ok true, w') /\ puts dir h dest b w w'.
Proof.
  intros Hh Hd Hq. unfold atomic_cache_write. rewrite run_dir by done. destruct (now_run (E := E) w) as (t & w1 & Hn & Hf & Hq1). rewrite (run_then _ _ _ _ _ Hn).
  destruct (triple_temp_path dir h dest (snd t) Hh Hd) as [Ht Hnt].
  destruct (write_rename_run dir h dest (temp_name dest (snd t)) b w1) as (w2 & w3 & Hw & Hr & [Hq3 Hp Hfr]); [by unfold quiet; rewrite Hq1|done..|].
  rewrite (run_attempt _ _ _ _ _ Hw), (run_attempt _ _ _ _ _ Hr). eexists. split; [done|]. split; [done..|]. intros q Hq4 Hq5. rewrite Hfr by done. by rewrite Hf.
Qed.

(** The key that is in place. *)
Definition key_ready (key : bytes) (w : world) : Prop := exists p f, hmac_key_path = Ok p /\ files w !! p = Some f /\ data f = key /\
  blen key = KEY_LEN /\ Z.land (Z.land (mode f) 511) 63 = 0.

Lemma ready_run key w : quiet w -> key_ready key w -> ensure_key w = (Ok key, w).
Proof.
  intros Hq (p & f & Hp & Hf & <- & Hl & Hm). unfold ensure_key. erewrite run_then by (unfold lift; by rewrite Hp).
  erewrite run_then; [|unfold exists_, next_fault; by rewrite Hq]. rewrite bool_decide_eq_true_2 by (by rewrite Hf). unfold load_key, wrap_err.
  erewrite run_then; [|rewrite quiet_op by done; rewrite Hf; done]. erewrite run_then; [|by rewrite quiet_op]. rewrite Hm. cbn [Z.eqb negb].
  erewrite run_then; [|by rewrite quiet_op]. by rewrite (proj2 (Z.eqb_eq _ _) Hl).
Qed.

Lemma load_key_ok p w key w' : quiet w -> hmac_key_path = Ok p -> load_key p w = (Ok key, w') -> w' = w /\ key_ready key w.
Proof.
  intros Hq Hp. unfold load_key, wrap_err. intros (f & w1 & E1 & R)%andThen_ok. rewrite quiet_op in E1 by done.
  destruct (files w !! p) as [g|] eqn:Hg; [|done]. injection E1 as -> <-. erewrite run_then in R; [|by rewrite quiet_op].
  destruct (Z.eqb_spec (Z.land (Z.land (mode f) 511) 63) 0) as [Hm|]; [|done]. cbn [negb] in R. erewrite run_then in R; [|by rewrite quiet_op].
  destruct (Z.eqb_spec (blen (data f)) KEY_LEN) as [Hl|]; [|done]. injection R as <- <-. split; [done|]. by exists p, f.
Qed.

(** The first use makes the key and later ones find it. *)
Lemma ensure_key_ok w key w' : quiet w -> Forall (fun r => forall b, r = Some b -> blen b = KEY_LEN) (random w) -> ensure_key w = (Ok key, w') ->
  quiet w' /\ key_ready key w' /\ forall p, hmac_key_path <> Ok p -> files w' !! p = files w !! p.
Proof.
  intros Hq Hr. unfold ensure_key. intros (p & w1 & [= Hp <-] & R)%andThen_ok.
  erewrite run_then in R; [|unfold exists_, next_fault; by rewrite Hq]. case_bool_decide as Hf.
  { by apply load_key_ok in R as [-> ?]. }
  apply eq_None_not_Some in Hf. erewrite run_then in R; [|unfold wrap_err, create_dir_all; by rewrite quiet_op].
  apply andThen_ok in R as (k & w2 & Ek%wrap_err_ok & R). unfold getrandom in Ek. destruct (random w) as [|[b|] l] eqn:Er; try done. injection Ek as -> <-.
  apply Forall_cons in Hr as [Hk _]. specialize (Hk k eq_refl).
  erewrite run_then in R; [|unfold wrap_err, create_new; rewrite quiet_op by done; cbn [files]; by rewrite Hf].
  erewrite run_then in R; [|unfold wrap_err, write_all; rewrite quiet_op by done; unfold append; cbn [files set_files]; by rewrite lookup_insert_eq].
  injection R as <- <-. cbn. split; [done|]. split.
  - eexists p, _. split; [done|]. unfold set_files. cbn. rewrite lookup_insert_eq. split; [done|]. cbn. split_and!; [done..|].
    rewrite <-!Z.land_assoc. rewrite (Z.land_comm (Z.lnot umask)), !Z.land_assoc. done.
  - intros q Hne. unfold set_files. cbn. rewrite !lookup_insert_ne by congruence. done.
Qed.

(** The key is none of the files of a source. *)
Lemma key_apart dir h p : blen h = 32 -> hmac_key_path = Ok p -> p ∉ triple_paths dir h /\ ~ temp_path dir h p.
Proof.
  intros Hh Hk. split; [intros Hp; apply (triple_not_scratch dir h p Hh Hp); by left|]. intros [n ->].
  assert (exists pre, dir ++ [hex_encode h +:+ ".tmp." +:+ pretty pid +:+ "." +:+ pretty n] = pre ++ ["cache-key"]) as [pre E].
  { unfold hmac_key_path in Hk. destruct XDG_DATA_HOME as [x|]; [|destruct HOME as [x|]; [|done]]; apply Ok_inj in Hk as <-.
    - exists (x ++ ["relon"]). by rewrite <-app_assoc.
    - exists (x ++ [".local"; "share"; "relon"]). by rewrite <-app_assoc. }
  apply app_inj_tail in E as [_ E]. apply (f_equal String.length) in E. rewrite string_length_app, hex_length in E. unfold blen in Hh. cbn in E. lia.
Qed.

Lemma puts_ready dir h dest b w w' key : blen h = 32 -> dest ∈ triple_paths dir h -> puts dir h dest b w w' -> key_ready key w -> key_ready key w'.
Proof.
  intros Hh Hd [_ _ Hf] (p & f & Hp & Hg & Hr). destruct (key_apart dir h p Hh Hp) as [Hn Ht]. exists p, f. split; [done|]. split; [|done].
  rewrite Hf; [done| |done]. by intros ->.
Qed.

(** A file that another one's write leaves alone. *)
Lemma puts_keeps dir h dest b w w' p c : blen h = 32 -> p ∈ triple_paths dir h -> p <> dest -> puts dir h dest b w w' -> written p c w -> written p c w'.
Proof.
  intros Hh Hp Hn [_ _ Hf] (f & Hg & Hd). exists f. split; [|done]. rewrite Hf; [done|done|]. by apply (triple_temp_path dir h p 0 Hh).
Qed.

Lemma triple_distinct dir h :
  object_path dir h <> ir_cache_path_for dir h /\ object_path dir h <> schema_cache_path_for dir h /\ ir_cache_path_for dir h <> schema_cache_path_for dir h.
Proof. split_and!; by intros [_ E%string_app_inj]%app_inj_tail. Qed.

Lemma try_store_run dir h et_rel meta ir_blob dyn key b {E} w : blen h = 32 -> quiet w -> key_ready key w -> cache_supported_on_host = true ->
  link_to_dyn et_rel host_target_triple = Ok dyn -> encode_blob host_target_triple dyn meta (Some key) = Ok b ->
  exists w', try_store_to_cache dir h et_rel meta ir_blob (E := E) w = (Ok (Some (sha256 dyn)), w') /\ quiet w' /\ key_ready key w' /\
    written (object_path dir h) b w' /\ written (ir_cache_path_for dir h) ir_blob w'.
Proof.
  intros Hh Hq Hk Hsup Hl Hb. destruct (in_triple dir h) as (Po & Pi & _). destruct (triple_distinct dir h) as (Noi & _ & _).
  unfold try_store_to_cache. rewrite Hsup. cbn [negb]. rewrite (run_attempt _ _ _ _ _ (ready_run key w Hq Hk)), Hl.
  destruct (store_run dir h host_target_triple dyn meta (Some key) w b Hh Hq Hb) as (w1 & Hs & Hp1). rewrite (run_attempt _ _ _ _ _ Hs).
  pose proof (pu_quiet _ _ _ _ _ _ Hp1) as Hq1. pose proof (puts_ready _ _ _ _ _ _ key Hh Po Hp1 Hk) as Hk1. rewrite run_dir by done.
  destruct (now_run (E := E) w1) as (t & w2 & Hn & Hf & Hq2). rewrite (run_then _ _ _ _ _ Hn).
  destruct (triple_temp_path dir h (ir_cache_path_for dir h) (snd t) Hh Pi) as [Ht Hnt].
  destruct (write_rename_run dir h (ir_cache_path_for dir h) (temp_name (ir_cache_path_for dir h) (snd t)) ir_blob w2) as (w3 & w4 & Hw & Hr & Hp2);
    [by unfold quiet; rewrite Hq2|done..|].
  rewrite (run_attempt _ _ _ _ _ Hw), (run_attempt _ _ _ _ _ Hr). eexists. split; [done|].
  assert (puts dir h (ir_cache_path_for dir h) ir_blob w1 w4) as Hp3.
  { destruct Hp2 as [A B C]. split; [done..|]. intros q Hq3 Hq4. rewrite C by done. by rewrite Hf. }
  split_and!; [apply Hp3|by eapply puts_ready|eapply puts_keeps; [done|exact Po|done|done|apply Hp1]|apply Hp3].
Qed.

(** Writing all three files. *)
Record stored (source : string) (dir : path) (key object : bytes) (entry : SchemaCacheEntry) (w : world) : Prop := {
  st_quiet : quiet w;
  st_key : key_ready key w;
  st_object : exists t b, encode_blob host_target_triple object (metadata_of source t) (Some key) = Ok b /\ written (object_path dir (source_hash_of source)) b w;
  st_ir : exists m ms rs b, lower_source source = Ok (m, ms, rs) /\ ir_serialize (MkIrEntry m sandbox_default) = Ok b /\
    written (ir_cache_path_for dir (source_hash_of source)) b w;
  st_schema : exists b, schema_serialize entry (source_hash_of source) (sha256 object) key = Ok b /\ written (schema_cache_path_for dir (source_hash_of source)) b w;
}.

(** What fits the formats of the files. *)
Record serialisable (source : string) (key object : bytes) (entry : SchemaCacheEntry) : Prop := {
  se_object : forall t, 0 <= t < 2 ^ 64 -> is_ok (encode_blob host_target_triple object (metadata_of source t) (Some key));
  se_ir : forall m ms rs, lower_source source = Ok (m, ms, rs) -> is_ok (ir_serialize (MkIrEntry m sandbox_default));
  se_schema : is_ok (schema_serialize entry (source_hash_of source) (sha256 object) key);
}.

(** A [u64] of seconds. *)
Definition clock_ok (w : world) : Prop := Forall (fun t => 0 <= fst t < 2 ^ 64) (clock w).

Lemma metadata_run source {E} w : exists t w', expected_metadata_for_source source (E := E) w = (Ok (metadata_of source t), w') /\
  files w' = files w /\ faults w' = faults w /\ (clock_ok w -> 0 <= t < 2 ^ 64).
Proof.
  unfold expected_metadata_for_source, build_metadata, andThen, now, clock_ok. destruct (clock w) as [|t l]; [by exists 0, w|].
  exists (fst t). eexists. split_and!; [done..|]. by intros [? _]%Forall_cons.
Qed.

Lemma write_run source dir key object entry w : quiet w -> clock_ok w -> key_ready key w -> cache_supported_on_host = true ->
  build source = Some (object, entry) -> serialisable source key object entry ->
  stored source dir key object entry (snd (from_source_with_cache source dir w)).
Proof.
  intros Hq Hcl Hk Hsup Hb [So Si Ss]. unfold build in Hb. destruct (lower_source source) as [[[m ms] rs]|[]|] eqn:El; [|done..].
  destruct (offsets_for ms) as [ml| |] eqn:Em; [|done..]. destruct (offsets_for rs) as [rl| |] eqn:Er; [|done..].
  destruct (emit_module_object_bytes _ _ _) as [art|[]|] eqn:Ea; [|done..]. destruct (link_to_dyn _ _) as [dyn|[]|] eqn:Ed; [|done..]. injection Hb as -> <-.
  destruct (Si _ _ _ eq_refl) as [ib Hib]. destruct Ss as [sb Hsb]. set (h := source_hash_of source) in *. assert (blen h = 32) as Hh by apply sha256_len.
  set (entry := schema_entry_of _ _ _ _) in *.
  unfold from_source_with_cache. rewrite El. erewrite run_then by (unfold lift; by rewrite Em). erewrite run_then by (unfold lift; by rewrite Er).
  destruct (metadata_run source (E := CraneliftError) w) as (t & w1 & Hm & Hf1 & Hq1 & Ht). destruct (So t (Ht Hcl)) as [ob Hob].
  assert (key_ready key w1) as Hk1 by (destruct Hk as (p & f & ? & ? & ?); exists p, f; by rewrite Hf1).
  destruct (try_store_run dir h (et_rel_bytes art) (metadata_of source t) ib object key ob (E := CraneliftError) w1) as (w2 & Hs & Hq2 & Hk2 & Wo & Wi);
    [done|by unfold quiet; rewrite Hq1|done..|].
  destruct (in_triple dir h) as (Po & Pi & Ps). destruct (atomic_run dir h (schema_cache_path_for dir h) sb (E := CraneliftError) w2 Hh Ps Hq2) as (w3 & Ha & Hp3).
  destruct (triple_distinct dir h) as (_ & Nos & Nis).
  assert (write_cache_pair_best_effort source m ms rs (map field_name (schema_fields ms)) (root_size rl mod 2 ^ 32) sandbox_default h dir (E := CraneliftError) w = (Ok tt, w3)) as Hrun.
  { unfold write_cache_pair_best_effort. erewrite run_attempt by (unfold lift; by rewrite Hib). rewrite (run_then _ _ _ _ _ Hm), Ea.
    rewrite (run_then _ _ _ _ _ Hs), (run_attempt _ _ _ _ _ (ready_run key w2 Hq2 Hk2)). erewrite run_attempt by (unfold lift; fold entry; by rewrite Hsb).
    by rewrite (run_then _ _ _ _ _ Ha). }
  rewrite (run_then _ _ _ _ _ Hrun).
  assert (stored source dir key object entry w3); [|by destruct (from_ir_inner _ _ _)].
  split; [apply Hp3|by eapply puts_ready|exists t, ob; split; [done|]|exists m, ms, rs, ib; split_and!; [done..|]|exists sb; split; [done|apply Hp3]].
  - by eapply (puts_keeps dir h); [done|exact Po|..].
  - by eapply (puts_keeps dir h); [done|exact Pi|..].
Qed.

Lemma read_run p b w : quiet w -> written p b w -> fs_read p w = (Ok b, w).
Proof. intros Hq (f & Hf & <-). unfold fs_read. rewrite quiet_op by done. by rewrite Hf. Qed.

Lemma metadata_of_compatible source t t' : metadata_compatible (metadata_of source t) (metadata_of source t') = true.
Proof. unfold metadata_compatible. cbn. by rewrite !bool_decide_eq_true_2. Qed.

Lemma try_load_run source dir key object entry t {E} w : stored source dir key object entry w -> cache_supported_on_host = true ->
  exists ld, try_load_from_cache dir (source_hash_of source) (metadata_of source t) (E := E) w = (Ok (Some ld), w) /\
    lc_object_bytes ld = object /\ lc_object_sha256 ld = sha256 object /\ lc_hmac_key ld = key /\ sandbox (lc_ir_entry ld) = sandbox_default.
Proof.
  intros [Hq Hk (t' & ob & Hob & Wo) (m & ms & rs & ib & _ & Hib & Wi) _] Hsup. unfold try_load_from_cache. rewrite Hsup. cbn [negb].
  rewrite (run_attempt _ _ _ _ _ (ready_run key w Hq Hk)). erewrite run_attempt.
  2: { unfold load. erewrite run_then by done. rewrite (run_attempt _ _ _ _ _ (read_run _ _ _ Hq Wo)).
       erewrite run_then; [done|]. unfold lift. by rewrite (decode_encode host_target_triple object (metadata_of source t') (Some key) ob). }
  cbn [metadata]. rewrite metadata_of_compatible. cbn [negb]. rewrite (run_attempt _ _ _ _ _ (read_run _ _ _ Hq Wi)).
  erewrite run_attempt by (unfold lift; by rewrite (ir_roundtrip _ _ Hib)). by eexists.
Qed.

(** What the loader must find in the object. *)
Record loads (object : bytes) (entry : SchemaCacheEntry) (symbols : gmap string Z) : Prop := {
  lo_open : dlopen object host_target_triple ("run_main" :: VTABLE_SYMBOL :: closure_names (closure_count entry)) = Ok symbols;
  lo_main : is_Some (resolve_nonnull symbols "run_main");
  lo_vtable : is_Some (resolve_nonnull symbols VTABLE_SYMBOL);
  lo_closures : is_Some (resolve_all symbols (closure_names (closure_count entry)));
}.

Lemma build_layouts source object entry : build source = Some (object, entry) -> is_ok (offsets_for (main_schema entry)) /\ is_ok (offsets_for (return_schema entry)).
Proof.
  unfold build. destruct (lower_source source) as [[[m ms] rs]|[]|]; [|done..]. destruct (offsets_for ms) as [ml| |] eqn:Em; [|done..].
  destruct (offsets_for rs) as [rl| |] eqn:Er; [|done..]. destruct (emit_module_object_bytes _ _ _) as [art|[]|]; [|done..].
  destruct (link_to_dyn _ _) as [dyn|[]|]; [|done..]. intros [= _ <-]. cbn. by split; eexists.
Qed.

Lemma stored_later source dir key object entry w w' : files w' = files w -> faults w' = faults w ->
  stored source dir key object entry w -> stored source dir key object entry w'.
Proof.
  intros Hf Hq [A (p & f & Hp) (t' & ob & Hob & g & Ho) (m & ms & rs & ib & El & Hib & g' & Hi) (sb & Hsb & g'' & Hs)].
  split; [by unfold quiet; rewrite Hq|exists p, f|exists t', ob; split; [done|exists g]|exists m, ms, rs, ib; split_and!; [done..|exists g']|exists sb; split; [done|exists g'']];
    by rewrite Hf.
Qed.

(** A lookup where the files of the source are in place. *)
Lemma stored_hit source dir key object entry symbols w : stored source dir key object entry w ->
  cache_supported_on_host = true -> build source = Some (object, entry) -> loads object entry symbols ->
  exists ev w2, from_cache_dir source dir w = (Ok (Some ev), w2) /\ aot_object ev = object /\ aot_schema ev = entry /\ files w2 = files w.
Proof.
  intros Hst Hsup Hb [Lo [pm Lm] [pv Lv] [pc Lc]]. destruct (metadata_run source (E := CraneliftError) w) as (t & w2 & Hm & Hf & Hq2 & _).
  pose proof (stored_later _ _ _ _ _ _ _ Hf Hq2 Hst) as Hst2.
  destruct (try_load_run source dir key object entry t (E := CraneliftError) w2 Hst2 Hsup) as (ld & Hl & <- & Eo & <- & Es).
  destruct Hst2 as [Hq2' _ _ _ (sb & Hsb & Ws)]. destruct (build_layouts _ _ _ Hb) as [[ml Hml] [rl Hrl]].
  exists (MkAot (lc_object_bytes ld) pm entry pc), w2. split; [|done]. unfold from_cache_dir. cbv zeta. fold (source_hash_of source).
  rewrite (run_then _ _ _ _ _ Hm), (run_then _ _ _ _ _ Hl), Es. change (sandbox_matches _ _) with true. cbn [negb]. rewrite (run_attempt _ _ _ _ _ (read_run _ _ _ Hq2' Ws)).
  erewrite run_attempt by (unfold lift; rewrite Eo; by rewrite (schema_roundtrip _ _ _ _ _ Hsb)). rewrite Lo, Lm, Lv, Lc.
  erewrite run_then; [done|]. unfold lift, from_loaded_object. rewrite Hml, Hrl. by destruct (entry_shape entry).
Qed.

(** C7 A cold start after a compilation hits the cache: when the installation's key has been resolved,
    no file operation fails, and the module, its metadata and its sidecar fit their formats, then
    compiling a source with the cache and asking the cache directory for the same source returns an
    evaluator on exactly the compiled object with exactly its sidecar, and changes no file. *)
Theorem cache_hit_after_write source dir w0 key w object entry symbols :
  quiet w0 -> Forall (fun r => forall b, r = Some b -> blen b = KEY_LEN) (random w0) -> ensure_key w0 = (Ok key, w) -> clock_ok w ->
  cache_supported_on_host = true -> build source = Some (object, entry) -> serialisable source key object entry -> loads object entry symbols ->
  let w1 := snd (from_source_with_cache source dir w) in
  exists ev w2, from_cache_dir source dir w1 = (Ok (Some ev), w2) /\ aot_object ev = object /\ aot_schema ev = entry /\ files w2 = files w1.
Proof.
  intros Hq0 Hr Hk Hcl Hsup Hb Hser Hl w1. apply ensure_key_ok in Hk as (Hq & Hk & _); [|done..].
  by eapply stored_hit; [apply (write_run source dir key object entry)|..].
Qed.

(** A load by content key returns what the key was computed from: whatever the file holds, an entry
    that [load] accepts in strict mode under the content key of an object and its metadata has that
    object, capability set, signature and import table, unless the two hash inputs collide. *)
Theorem strict_load_committed dir triple key object meta w e w' :
  load dir (content_key object meta) triple key Strict w = (Ok (Some e), w') ->
  collision_free [content_input object meta; content_input (object_bytes e) (metadata e)] ->
  is_slice object -> is_slice (object_bytes e) -> metadata_ok meta -> metadata_ok (metadata e) ->
  object_bytes e = object /\ cap_bitmap (metadata e) = cap_bitmap meta /\ main_signature (metadata e) = main_signature meta /\
  host_fn_imports (metadata e) = host_fn_imports meta.
Proof.
  intros (_ & Hc & _)%load_accepts Hcf Ho He Hm Hme. apply content_input_inj; [done..|]. apply Hcf; [right; left|left|]. by apply Hc.
Qed.

(** ** Panics and errors *)

Section Calm.
Context (P : Prop).

(** A panic only if [P], and no error outside [Q]. *)
Definition calm {E A} (Q : E -> Prop) (m : IO E A) : Prop := forall w, match fst (m w) with Ok _ => True | Err e => Q e | Abort => P end.
Definition any {E} (e : E) : Prop := True.

Lemma calm_andThen {E A B} Q (m : IO E A) (k : A -> IO E B) : calm Q m -> (forall a, calm Q (k a)) -> calm Q (andThen m k).
Proof. intros Hm Hk w. unfold andThen. specialize (Hm w). destruct (m w) as [[a|e|] w1]; [apply Hk|done..]. Qed.

Lemma calm_attempt {E F A} Q (m : IO E A) : calm any m -> calm Q (attempt (F := F) m).
Proof. intros Hm w. unfold attempt. specialize (Hm w). by destruct (m w) as [[a|e|] w1]. Qed.

Lemma calm_wrap {E F A} (f : E -> F) (m : IO E A) : calm any m -> calm any (wrap_err f m).
Proof. intros Hm w. unfold wrap_err. specialize (Hm w). by destruct (m w) as [[a|e|] w1]. Qed.

Lemma calm_ret {E A} Q (a : A) : calm Q (ret (E := E) a).
Proof. by intros w. Qed.

Lemma calm_throw {E A} (e : E) : calm any (throw (A := A) e).
Proof. by intros w. Qed.

Lemma calm_lift {E A} (r : outcome E A) : r <> Abort -> calm any (lift r).
Proof. intros Hr w. by destruct r. Qed.

Lemma calm_ignore {E F A} Q (m : IO E A) : calm any m -> calm Q (ignore (F := F) m).
Proof. intros Hm. apply calm_andThen; [by apply calm_attempt|]. intros _. apply calm_ret. Qed.

Lemma calm_op {A} (run : world -> outcome io_error A * world) part : (forall w, fst (run w) <> Abort) -> calm any (fs_op run part).
Proof. intros Hr w. unfold fs_op. destruct (next_fault w) as [[n|] w1]; [done|]. specialize (Hr w1). by destruct (run w1) as [[]]. Qed.

Lemma calm_exists p {E} Q : calm Q (exists_ p (E := E)).
Proof. intros w. unfold exists_. by destruct (next_fault w). Qed.

Lemma calm_now {E} Q : calm Q (now (E := E)).
Proof. intros w. unfold now. by destruct (clock w). Qed.

Lemma calm_random : calm any getrandom.
Proof. intros w. unfold getrandom. by destruct (random w) as [|[]]. Qed.

Lemma layout_not_abort b s : map_err (Lowering b) (offsets_for s) <> Abort.
Proof. rewrite map_err_abort. apply offsets_for_total. Qed.

Lemma ir_serialize_not_abort (e : IrCacheEntry NativeImport) : ir_serialize e <> Abort.
Proof. unfold ir_serialize. apply bind_not_abort; [apply ok_or_not_abort|]. intros js _. apply bind_not_abort; [apply ok_or_not_abort|done]. Qed.

Lemma schema_serialize_not_abort e s o k : schema_serialize e s o k <> Abort.
Proof. unfold schema_serialize. apply bind_not_abort; [apply ok_or_not_abort|]. intros js _. apply bind_not_abort; [apply ok_or_not_abort|done]. Qed.

Create HintDb calm discriminated.
#[local] Hint Resolve calm_ret calm_throw calm_exists calm_now calm_random : calm.
#[local] Hint Resolve layout_not_abort ir_serialize_not_abort schema_serialize_not_abort decode_blob_not_abort encode_blob_not_abort
  ir_deserialize_not_abort schema_deserialize_not_abort : calm.

(** Walks over a program; file operations have two outcomes each. *)
Ltac calm_tac := repeat first
  [ solve [auto with calm] | case_match | progress intros | apply calm_andThen | apply calm_attempt | apply calm_wrap | apply calm_ignore
  | solve [apply calm_lift; auto with calm] | solve [apply calm_op; intros; by repeat case_match] ].

Lemma calm_remove p : calm any (remove_file p).
Proof. unfold remove_file. calm_tac. Qed.

Lemma calm_write p b : calm any (fs_write p b).
Proof. unfold fs_write, fs_create, write_all. calm_tac. Qed.

Lemma calm_rename p q : calm any (rename p q).
Proof. unfold rename. calm_tac. Qed.

Lemma calm_ensure_key : calm any ensure_key.
Proof.
  unfold ensure_key, load_key, create_dir_all, create_new, write_all. apply calm_andThen; [|calm_tac].
  apply calm_lift. unfold hmac_key_path. by repeat case_match.
Qed.

Lemma calm_dir p : calm any (create_dir_all p).
Proof. unfold create_dir_all. calm_tac. Qed.

Lemma calm_read p : calm any (fs_read p).
Proof. unfold fs_read. calm_tac. Qed.

#[local] Hint Resolve calm_remove calm_write calm_rename calm_ensure_key calm_dir calm_read : calm.

Lemma calm_store dir h triple object meta key : calm any (store dir h triple object meta key).
Proof. unfold store, fs_create, write_all. calm_tac. Qed.

Lemma calm_load dir h triple key : calm any (load dir h triple key HmacRequired).
Proof. unfold load. apply calm_andThen; [apply calm_lift; by destruct key|]. calm_tac. Qed.

Lemma calm_atomic dir dest b {E} Q : calm Q (atomic_cache_write dir dest b (E := E)).
Proof. unfold atomic_cache_write. calm_tac. Qed.

Lemma calm_invalidate dir h {E} Q : calm Q (invalidate_cache_triple dir h (E := E)).
Proof. unfold invalidate_cache_triple. calm_tac. Qed.

Lemma calm_metadata source {E} Q : calm Q (expected_metadata_for_source source (E := E)).
Proof. unfold expected_metadata_for_source, build_metadata. calm_tac. Qed.

#[local] Hint Resolve calm_store calm_load calm_atomic calm_invalidate calm_metadata : calm.

Lemma calm_try_load dir h expected {E} Q : calm Q (try_load_from_cache dir h expected (E := E)).
Proof. unfold try_load_from_cache. calm_tac. Qed.

Lemma calm_try_store dir h et_rel meta ir_blob {E} Q : (link_to_dyn et_rel host_target_triple = Abort -> P) ->
  calm Q (try_store_to_cache dir h et_rel meta ir_blob (E := E)).
Proof. intros Hl. unfold try_store_to_cache. calm_tac. intros w. by apply Hl. Qed.

Lemma calm_write_pair source m ms rs names size h dir {E} Q :
  (emit_module_object_bytes m sandbox_default size = Abort -> P) ->
  (forall art, emit_module_object_bytes m sandbox_default size = Ok art -> link_to_dyn (et_rel_bytes art) host_target_triple = Abort -> P) ->
  calm Q (write_cache_pair_best_effort source m ms rs names size sandbox_default h dir (E := E)).
Proof.
  intros He Hl. unfold write_cache_pair_best_effort, write_ir_only. apply calm_andThen; [calm_tac|]. intros [ir|]; [|calm_tac].
  apply calm_andThen; [calm_tac|]. intros meta. destruct (emit_module_object_bytes _ _ _) as [art| |]; [|calm_tac|intros w; by apply He].
  apply calm_andThen; [by apply calm_try_store, Hl|]. calm_tac.
Qed.
End Calm.

(** The compiler panics on [source] itself: in the front end, the emitter, the linker or the JIT. *)
Definition tools_panic (source : string) : Prop :=
  lower_source source = Abort \/
  exists m ms rs, lower_source source = Ok (m, ms, rs) /\
    (from_ir_inner m sandbox_default (map field_name (schema_fields ms)) = Abort \/
     exists rl, offsets_for rs = Ok rl /\ let emitted := emit_module_object_bytes m sandbox_default (root_size rl mod 2 ^ 32) in
       (emitted = Abort \/ exists art, emitted = Ok art /\ link_to_dyn (et_rel_bytes art) host_target_triple = Abort)).

(** The files of [source] under [dir] hold [object] and [entry], sealed with [key]: the object file is
    a blob for this target with the tag of its bytes, and its metadata are those of the source; the IR
    was compiled for the same sandbox; the tag of the sidecar is that of the sidecar, of the source's
    hash and of the object's. *)
Record trusted (source : string) (dir : path) (key : bytes) (fs : gmap path file) (object : bytes) (entry : SchemaCacheEntry) : Prop := {
  tr_object : exists f meta_bytes meta, fs !! object_path dir (source_hash_of source) = Some f /\
    (let body := blob_body (as_bytes host_target_triple) object meta_bytes in data f = body ++ hmac_sha256 key body) /\
    from_slice meta_bytes = Some meta /\ metadata_compatible meta (metadata_of source 0) = true;
  tr_ir : exists f (ir : IrCacheEntry NativeImport), fs !! ir_cache_path_for dir (source_hash_of source) = Some f /\
    ir_deserialize (data f) = Ok ir /\ sandbox_matches (sandbox ir) sandbox_default = true;
  tr_sidecar : exists f js rest, fs !! schema_cache_path_for dir (source_hash_of source) = Some f /\
    (let message := hmac_input (schema_body js) (source_hash_of source) (sha256 object) (entry_shape entry) (entry_arity entry) in
     data f = schema_body js ++ hmac_sha256 key message ++ rest) /\
    from_slice js = Some entry;
}.

(** The key that the lookup uses, and the files as it finds them. *)
Definition finds (source : string) (dir : path) (w : world) (object : bytes) (entry : SchemaCacheEntry) : Prop :=
  exists key w2, ensure_key (snd (expected_metadata_for_source (E := CraneliftError) source w)) = (Ok key, w2) /\
    trusted source dir key (files w2) object entry.

Definition symbol_names (entry : SchemaCacheEntry) : list string := "run_main" :: VTABLE_SYMBOL :: closure_names (closure_count entry).

Lemma calm_step {E A B} (m : IO E A) (k : A -> IO E B) w : calm False (fun _ => False) m -> exists a w1, m w = (Ok a, w1) /\ andThen m k w = k a w1.
Proof. intros Hm. specialize (Hm w). unfold andThen. destruct (m w) as [[a|e|] w1]; [by exists a, w1|done..]. Qed.

#[local] Tactic Notation "step" ident(a) ident(w) ident(E) "by" tactic(t) :=
  match goal with |- context [fst (andThen ?m ?k ?v)] => destruct (calm_step m k v ltac:(t)) as (a & w & E & ->) end.

(** A lookup that gives up. *)
Lemma discarded dir h {A} w : fst (andThen (E := CraneliftError) (invalidate_cache_triple dir h) (fun _ => ret (@None A)) w) = Ok None.
Proof. by destruct (calm_step _ (fun _ => ret (@None A)) w (calm_invalidate False dir h (E := CraneliftError) (fun _ => False))) as (a & w1 & _ & ->). Qed.

Lemma loaded_outcome object entry_ptr entry closures :
  match from_loaded_object object entry_ptr entry closures with
  | Ok ev => aot_object ev = object /\ aot_schema ev = entry
  | Err e => exists main l, e = Lowering main l /\ entry_shape entry = BufferProtocol /\
      offsets_for (if main : bool then main_schema entry else return_schema entry) = Err l
  | Abort => False
  end.
Proof.
  unfold from_loaded_object. destruct (entry_shape entry); [done|].
  destruct (offsets_for (main_schema entry)) eqn:Em; cbn [map_err Prelude.bind]; [|by exists true; eauto|by apply offsets_for_total in Em].
  destruct (offsets_for (return_schema entry)) eqn:Er; cbn [map_err Prelude.bind]; [done|by exists false; eauto|by apply offsets_for_total in Er].
Qed.

(** What was read is trusted. *)
Lemma loaded_trusted source dir {E} w ld w' f entry : (exists t, try_load_from_cache (E := E) dir (source_hash_of source) (metadata_of source t) w = (Ok (Some ld), w')) ->
  sandbox_matches (sandbox (lc_ir_entry ld)) sandbox_default = true ->
  files w' !! schema_cache_path_for dir (source_hash_of source) = Some f ->
  schema_deserialize (data f) (source_hash_of source) (lc_object_sha256 ld) (lc_hmac_key ld) = Ok entry ->
  exists w2, ensure_key w = (Ok (lc_hmac_key ld), w2) /\ trusted source dir (lc_hmac_key ld) (files w2) (lc_object_bytes ld) entry.
Proof.
  intros [t Hl] Hsb Hf Hs. apply try_load_ok in Hl as (w2 & g & Ek & Ef & Eo & Hg & Hm & Hd & i & Hi & Hir). exists w2. split; [done|].
  rewrite Ef in Hf. split.
  - apply decode_blob_accepts in Hd as (body & [_ (mb & Hmb & Eb & _) (tag & Et & _ & Hv)]). exists g, mb, (lc_metadata ld).
    specialize (Hv _ eq_refl). apply bool_decide_eq_true in Hv. cbn in *. subst. done.
  - by exists i, (lc_ir_entry ld).
  - rewrite Eo in Hs. apply schema_accepted in Hs as (js & tag & rest & Ed & _ & Hj & _ & Hv). apply bool_decide_eq_true in Hv as ->. by exists f, js, rest.
Qed.

Lemma compile_calm source dir w : fst (from_source_with_cache source dir w) = Abort -> tools_panic source.
Proof.
  intros E. assert (calm (tools_panic source) any (from_source_with_cache source dir)) as Hc; [|specialize (Hc w); by rewrite E in Hc]. clear E w.
  unfold from_source_with_cache. destruct (lower_source source) as [[[m ms] rs]| |] eqn:El; [|apply calm_throw|intros w; by left].
  assert (forall b s, calm (tools_panic source) any (lift (map_err (Lowering b) (offsets_for s)))) as Hlay by (intros; apply calm_lift, layout_not_abort).
  apply calm_andThen; [done|]. intros ml w. unfold andThen at 1, lift at 1. destruct (offsets_for rs) as [rl| |] eqn:Er; cbn [map_err]; [|done|by apply offsets_for_total in Er].
  revert w. apply calm_andThen.
  - apply calm_write_pair; [intros He|intros art He Hl]; right; exists m, ms, rs; (split; [done|]); right; exists rl; (split; [done|]); [by left|right; by exists art].
  - intros _. destruct (from_ir_inner _ _ _) eqn:Ei; [apply calm_ret|apply calm_throw|]. intros w. right. exists m, ms, rs. split; [done|by left].
Qed.

Lemma lookup_outcome source dir w :
  match fst (from_cache_dir source dir w) with
  | Ok None => True
  | Ok (Some ev) => finds source dir w (aot_object ev) (aot_schema ev)
  | Err e => exists object entry main l, finds source dir w object entry /\ e = Lowering main l /\ entry_shape entry = BufferProtocol /\
      offsets_for (if main : bool then main_schema entry else return_schema entry) = Err l
  | Abort => exists object entry, finds source dir w object entry /\ dlopen object host_target_triple (symbol_names entry) = Abort
  end.
Proof.
  unfold from_cache_dir, finds. cbv zeta. fold (source_hash_of source). destruct (metadata_run source (E := CraneliftError) w) as (t & w1 & Hm & _). rewrite Hm. cbn [snd].
  rewrite (run_then _ _ _ _ _ Hm). step ld w3 Hl by (apply calm_try_load). destruct ld as [ld|]; [|done].
  destruct (sandbox_matches _ _) eqn:Esb; cbn [negb]; [|by rewrite discarded].
  step sb w4 Es by (apply calm_attempt, calm_read). apply attempt_ok in Es. destruct sb as [sb|[]]; [|by rewrite ?discarded..].
  apply fs_read_ok in Es as (_ & f & Hf & ->). step se w5 Ej by (apply calm_attempt, calm_lift, schema_deserialize_not_abort).
  apply attempt_ok in Ej. destruct se as [se|]; [|by rewrite discarded]. injection Ej as Ej <-.
  destruct (loaded_trusted source dir w1 ld w3 f se (ex_intro _ t Hl) Esb Hf Ej) as (w2 & Hk & Ht).
  fold (symbol_names se). destruct (dlopen _ _ _) as [symbols| |] eqn:Ed; [|by rewrite discarded|exists (lc_object_bytes ld), se; split; [by eexists _, w2|done]].
  destruct (resolve_nonnull symbols "run_main") as [p|]; [|by rewrite discarded].
  destruct (resolve_nonnull symbols VTABLE_SYMBOL); [|by rewrite discarded]. destruct (resolve_all _ _) as [cl|]; [|by rewrite discarded].
  pose proof (loaded_outcome (lc_object_bytes ld) p se cl) as Ho. unfold andThen, lift. destruct (from_loaded_object _ _ _ _) as [ev|e|]; cbn [fst ret]; [|exists (lc_object_bytes ld), se; destruct Ho as (main & l & Ho)|done].
  - destruct Ho as [-> ->]. by eexists _, w2.
  - exists main, l. split; [by eexists _, w2|done].
Qed.

(** C8 The cache never stops the host, whatever its files hold and whatever file operation fails.
    Compiling a source with the cache panics only if the compiler itself does on this source (the front
    end, the emitter, the linker or the JIT).  Looking a source up is a miss unless the files are trusted:
    the object and the sidecar carry the tags of the installation's key, the sidecar's over the source's
    hash and the object's, the metadata are the source's and the IR is for the default sandbox.  Only such
    an object is returned, with its sidecar; an error is a schema of the trusted sidecar that cannot be
    laid out, and a panic is one of the loader on the trusted object. *)
Theorem cache_never_panics source dir w :
  (fst (from_source_with_cache source dir w) = Abort -> tools_panic source) /\
  match fst (from_cache_dir source dir w) with
  | Ok None => True
  | Ok (Some ev) => finds source dir w (aot_object ev) (aot_schema ev)
  | Err e => exists object entry main l, finds source dir w object entry /\ e = Lowering main l /\ entry_shape entry = BufferProtocol /\
      offsets_for (if main : bool then main_schema entry else return_schema entry) = Err l
  | Abort => exists object entry, finds source dir w object entry /\ dlopen object host_target_triple (symbol_names entry) = Abort
  end.
Proof. split; [apply compile_calm|apply lookup_outcome]. Qed.
End Chain.

(** ** A cache in use *)

#[local] Instance sample_host : HostTypes := {| json := unit; json_eq_dec := _; opaque_payload := unit |}.

#[local, refine] Instance sample_digests : Digests :=
  {| sha256 b := le_split 32 (blen b); hmac_sha256 k b := le_split 32 (blen b + 2 ^ 60) |}.
Proof. all: intros; unfold blen; rewrite length_le_split; reflexivity. Defined.

#[local] Instance sample_env : Environment :=
  {| XDG_DATA_HOME := None; HOME := Some ["home"]; pid := 42; umask := 18; cache_supported_on_host := true |}.

Definition sample_schema : Schema := MkSchema "S" [] [MkField "x" TInt None] false.
Definition sample_range : SerTokenRange := MkRange 1 1 0 1 9 8.
Definition sample_artifact : ObjectArtifact := MkArtifact [Byte.x01; Byte.x02] BufferProtocol 1 sample_range [] [].
Definition sample_entry : SchemaCacheEntry := schema_entry_of sample_schema sample_schema ["x"] sample_artifact.
Definition sample_object : bytes := [Byte.x01; Byte.x02; Byte.x03].
Definition sample_symbols : gmap string Z := {["run_main" := 4096; VTABLE_SYMBOL := 8192]}.

#[local] Instance sample_tools : Toolchain := {|
  NativeImport := unit;
  lower_source s := Ok (MkModule [] [] None [], sample_schema, sample_schema);
  emit_module_object_bytes m cfg n := Ok sample_artifact;
  link_to_dyn b t := Ok (b ++ [Byte.x03]);
  dlopen b t names := Ok sample_symbols;
  JitModule := unit;
  from_ir_inner m cfg names := Ok tt;
|}.

#[local, refine] Instance sample_bincode : Codec Metadata := {|
  to_vec m := match m with
              | MkMetadata [] 0 s t g => if bool_decide (blen s = 32 /\ 0 <= t < 2 ^ 64 /\ g = GENERATOR_VERSION) then Some (s ++ u64_to_le t) else None
              | _ => None
              end;
  from_slice b := Some (MkMetadata [] 0 (take 32 b) (u64_from_le (drop 32 b)) GENERATOR_VERSION);
|}.
Proof.
  intros [[|] [| |] s t g] b; try done. case_bool_decide as Hb; [|done]. destruct Hb as (Hs & Ht & ->). intros [= <-]. unfold blen in Hs.
  rewrite take_app_length' by lia. rewrite drop_app_length' by lia. by rewrite u64_from_to.
Defined.

#[local, refine] Instance sample_ir_json : Codec IrSerde := {|
  to_vec s := match s with MkIrSerde [] None => Some [] | _ => None end;
  from_slice b := Some (MkIrSerde [] None);
|}.
Proof. by intros [[|] [|]] b. Defined.

#[local] Instance schema_eq_dec : EqDecision Schema.
Proof.
  intros a b. destruct (schema_eqb a b) eqn:He; [left; by apply schema_eqb_eq|right]. intros ->. by rewrite (proj2 (schema_eqb_eq b b) eq_refl) in He.
Defined.
#[local] Instance shape_eq_dec : EqDecision SerEntryShape.
Proof. solve_decision. Defined.
#[local] Instance range_eq_dec : EqDecision SerTokenRange.
Proof. solve_decision. Defined.
#[local] Instance entry_eq_dec : EqDecision SchemaCacheEntry.
Proof. solve_decision. Defined.

#[local, refine] Instance sample_schema_json : Codec SchemaCacheEntry := {|
  to_vec e := if bool_decide (e = sample_entry) then Some [Byte.x7b; Byte.x7d] else None;
  from_slice b := if bool_decide (b = [Byte.x7b; Byte.x7d]) then Some sample_entry else None;
|}.
Proof. intros e b. case_bool_decide as He; [|done]. intros [= <-]. rewrite He. by rewrite bool_decide_eq_true_2. Defined.

Definition sample_key : bytes := repeat Byte.x5a 32.
Definition sample_source : string := "#main(x: Int) x + 1".
Definition sample_dir : path := ["cache"].
Definition sample_start : world := MkWorld ∅ [] [(100, 7); (101, 8)] [Some sample_key].
Definition sample_keyed : world := snd (ensure_key sample_start).
Definition sample_written : world := snd (from_source_with_cache sample_source sample_dir sample_keyed).
Definition sample_ev : AotEvaluator := MkAot sample_object 4096 sample_entry [].

Lemma sample_key_found : ensure_key sample_start = (Ok sample_key, sample_keyed).
Proof. reflexivity. Qed.

Lemma sample_clock : clock_ok sample_keyed.
Proof. by repeat constructor. Qed.

Lemma sample_build : build sample_source = Some (sample_object, sample_entry).
Proof. vm_compute. reflexivity. Qed.

Lemma sample_metadata_fits t : 0 <= t < 2 ^ 64 -> to_vec (metadata_of sample_source t) = Some (sha256 (signature_input sample_source) ++ u64_to_le t).
Proof. intros Ht. unfold metadata_of. cbn [to_vec sample_bincode]. rewrite bool_decide_eq_true_2; [done|]. by split; [apply sha256_len|]. Qed.

Lemma sample_blob t key : 0 <= t < 2 ^ 64 -> is_ok (encode_blob host_target_triple sample_object (metadata_of sample_source t) key).
Proof.
  intros Ht. eexists. apply encode_blob_ok. eexists. split; [|done]. split; [done..|].
  eexists. split; [by apply sample_metadata_fits|]. split; [|done]. rewrite blen_app, blen_u64, sha256_len. done.
Qed.

Lemma sample_serialisable : serialisable sample_source sample_key sample_object sample_entry.
Proof.
  split; [intros; by apply sample_blob| |].
  - intros m ms rs [= <- <- <-]. by eexists.
  - eexists. unfold schema_serialize. cbn [to_vec sample_schema_json]. by rewrite bool_decide_eq_true_2.
Qed.

Lemma sample_loads : loads sample_object sample_entry sample_symbols.
Proof. by split; [|eexists..]. Qed.

Lemma sample_stored : stored sample_source sample_dir sample_key sample_object sample_entry sample_written.
Proof.
  destruct (ensure_key_ok sample_start sample_key sample_keyed) as (Hq & Hk & _); [done| |apply sample_key_found|].
  - repeat constructor. by intros b [= <-].
  - by apply write_run; [|apply sample_clock| | |apply sample_build|apply sample_serialisable].
Qed.

Lemma sample_apart : sha256 (source_input sample_source sandbox_default) <> sha256 sample_object.
Proof. apply (bool_decide_eq_false_1 _). vm_compute. reflexivity. Qed.

Lemma cache_runs_own_source_witness : sample_source ∈ [sample_source] /\ build sample_source = Some (sample_object, sample_entry).
Proof.
  destruct (stored_hit _ _ _ _ _ _ _ sample_stored eq_refl sample_build sample_loads) as (ev & w2 & E & Eo & Es & _).
  destruct (metadata_run sample_source (E := CraneliftError) sample_written) as (t & w3 & Hm & Hf & Hq & _).
  pose proof (stored_later _ _ _ _ _ _ _ Hf Hq sample_stored) as Hst. rewrite <-Eo, <-Es.
  apply (cache_runs_own_source [sample_source] sample_source sample_dir sample_written ev w2 sample_key w3).
  - exact E.
  - rewrite Hm. apply ready_run; apply Hst.
  - repeat constructor; vm_compute; discriminate.
  - rewrite Eo. destruct Hst as [_ _ _ _ (b & Hb & f & Hw & <-)]. by apply (own_sidecar_unforged sample_source sample_dir sample_key sample_object sample_entry f); [apply sample_build|..].
  - rewrite Eo. assert ([sample_source] ≫= hashed = [source_input sample_source sandbox_default; sample_object]) as ->.
    { unfold mbind, list_bind, hashed. by rewrite sample_build. }
    apply two_inputs, sample_apart.
Defined.

Lemma cache_hit_after_write_witness : exists ev w2,
  from_cache_dir sample_source sample_dir sample_written = (Ok (Some ev), w2) /\ aot_object ev = sample_object /\ aot_schema ev = sample_entry /\ files w2 = files sample_written.
Proof.
  apply (cache_hit_after_write sample_source sample_dir sample_start sample_key sample_keyed sample_object sample_entry sample_symbols).
  - reflexivity.
  - repeat constructor. by intros b [= <-].
  - apply sample_key_found.
  - apply sample_clock.
  - reflexivity.
  - apply sample_build.
  - apply sample_serialisable.
  - apply sample_loads.
Defined.

Definition sample_meta : Metadata := metadata_of sample_source 100.
Definition sample_content : bytes := content_key sample_object sample_meta.
Definition strict_world (blob : bytes) : world := MkWorld {[cache_path_for sample_dir sample_content := MkFile 0 blob]} [] [] [].

Lemma strict_load_committed_witness : exists blob e w', load sample_dir sample_content host_target_triple None Strict (strict_world blob) = (Ok (Some e), w') /\
  object_bytes e = sample_object /\ cap_bitmap (metadata e) = 0 /\ main_signature (metadata e) = main_signature sample_meta /\ host_fn_imports (metadata e) = [].
Proof.
  destruct (sample_blob 100 None) as [blob Hb]; [done|]. set (e := MkEntry host_target_triple sample_object sample_meta).
  assert (load sample_dir sample_content host_target_triple None Strict (strict_world blob) = (Ok (Some e), strict_world blob)) as Hl.
  { unfold load. erewrite run_then by done. erewrite run_attempt; [|apply read_run; [done|exists (MkFile 0 blob); split; [apply lookup_insert_eq|done]]].
    erewrite run_then by (unfold lift; by rewrite (decode_encode host_target_triple sample_object sample_meta None blob)). by rewrite bool_decide_eq_true_2. }
  exists blob, e, (strict_world blob). split; [exact Hl|].
  apply (strict_load_committed sample_dir host_target_triple None sample_object sample_meta (strict_world blob) e (strict_world blob)).
  - exact Hl.
  - intros x y [->|[->|[]%elem_of_nil]%elem_of_cons]%elem_of_cons [->|[->|[]%elem_of_nil]%elem_of_cons]%elem_of_cons _; reflexivity.
  - vm_compute. discriminate.
  - vm_compute. discriminate.
  - split; [vm_compute; split; [discriminate|reflexivity]|reflexivity|constructor|vm_compute; discriminate].
  - split; [vm_compute; split; [discriminate|reflexivity]|reflexivity|constructor|vm_compute; discriminate].
Defined.
End CacheChain.
